(* ===== verification/_CoqProject ===== *)
-Q . S2P
Prelude.v
Sql.v
Tables.v
ExtentVerify.v
FreeList.v
ExtentInv.v
ExtentGrant.v
ExtentMerge.v
ExtentReturn.v
Csv.v
ExtentReclaim.v
ExtentQuarantine.v
Admission.v
Composition.v
ExtentSystem.v
ExtentClaims.v
Findings.v
Xdr.v
Session.v
Lease.v
NfsClaims.v
Stateid.v
StateidInv.v
StateidProps.v
StateidRestart.v
Locks.v
LocksInv.v
LocksProps.v
StateidClaims.v
Clients.v
ClientsProps.v
Delegs.v
DelegsInv.v
DelegsProps.v
DelegsEvidence.v
StateManager.v
StateManagerProps.v
StateEvidence.v
SessionOps.v
SessionOpsProps.v
Recall.v
RecallProps.v
Grants.v
ServerInv.v
ServerReach.v
ServerClaims.v
FreshnessGate.v
FreshnessProps.v
ReplicaSync.v
ReplicaStore.v
ReplicaProps.v
ReplicaInv.v
ReplicaReplace.v
ReplicaRetain.v
ReplicaCatchup.v
ReplicaClaims.v
PnfsPlacement.v
PnfsPlacementProps.v
PnfsLayout.v
PnfsLayoutInv.v
PnfsLayoutReach.v
PnfsLayoutProps.v
PnfsRestart.v
PnfsOps.v
PnfsStripes.v
PnfsOpsProps.v
PnfsTruncate.v
PnfsRename.v
PnfsRace.v
PnfsTableClaims.v
PnfsDataClaims.v
PnfsServerClaims.v
Strs.v
Identity.v
VolumeClaims.v
GuardedDestroy.v
LegSize.v
OrphanSweep.v
NodeGuard.v
GuardClaims.v
