(* ===== verification/Prelude.v ===== *)
(** * Flint: the block-layout allocator, the NFSv4.1 state layer, the pNFS
    metadata server, the replica record and the guards of the data path

    Flint is a Kubernetes storage driver: CSI volumes on SPDK, shared over an
    NFSv4.1 server with pNFS layouts, and replicated across nodes.  This
    development models the parts of it that decide which client may touch
    which bytes of a shared volume, the allocator that hands out physical
    extents and the protocol state of the NFS server (clients, sessions,
    stateids, locks, delegations), the pNFS metadata server that stripes a file
    over data servers, grants and recalls layouts and carries fallback I/O to
    the stripes, and the part that decides which replica of a volume may be
    believed: the sync record, its writers, and the gate in front of a degraded
    assembly.  Last, the guards of the control plane: who may work on a volume
    at a time, which objects on a node belong to which volume, and which of
    them may be deleted or built on while others use them.  All paths are relative to
    src/spdk-csi-driver/src/.

    ** The program and the files that model it

    1. The extent allocator, state_backend/extent_alloc.rs.  A pNFS block
       volume is an arena of physical bytes.  A file's bytes are mapped by
       rows of the table extents; a client that may write or read a row has a
       row of extent_grants; freed bytes go to extent_free, or, when the
       client that held them was fenced and its exclusion is not confirmed,
       to extent_quarantine.  Every operation is one sqlite transaction; those
       that add or reshape rows re-verify the rows they touched before they
       commit.

       - [Sql]: the sqlite statements the code issues, on tables that are
         finite maps from primary key to the other columns.
       - [Tables]: the thirteen tables (SCHEMA_SQL in state_backend/sqlite.rs)
         as the record [db], the row and error types, and the queries shared
         by the transactions ([overlapping_extents], [live_unfenced_holders],
         [checked_end], [as_i64]).
       - [ExtentVerify]: [verify_volume_invariants_conn] (whole volume) and
         [verify_window_invariants_conn] (touched rows only).
       - [FreeList]: first fit and [free_insert_coalescing].
       - [ExtentInv]: the volume invariant ([core], [vol_inv]).
       - [ExtentGrant]: [register_volume], [expand_volume],
         [volume_headroom], [committed_end], [grant], [grant_read].
       - [ExtentMerge]: [merge_extents_window].
       - [ExtentReturn]: [layout_return], [fence_client],
         [reclaim_snapshot], [commit_extents], [revoke_client].
       - [Csv]: the CSV column of client ids, the row-budget variable, and the
         str and integer methods the later parts use.
       - [ExtentReclaim]: [reclaim_complete].
       - [ExtentQuarantine]: [release_quarantine],
         [sweep_quarantine_delivered], [drop_volume], [quarantine_stats].
       - [ExtentSystem]: the twenty-six writing operations as one transition
         function [exec]; [run] executes a sequence from the empty database.

    2. Export admission and fences, same source file.  [Admission]:
       [host_admit], [host_evict], [node_attach], [node_detach],
       [fence_record], [mark_fence_delivered], [unfence_record] and the
       allow-list queries.

    3. The serving seat, same source file.  [Composition]: the target
       registry, [seat_volume], [promote_volume] (a compare-and-swap on the
       seat's epoch and composer), leg marks, serving leases.

    4. XDR, nfs/xdr.rs.  [Xdr]: encoder, decoder, the array-length guard, and
       the interface [XdrCodec] with its instances.

    5. NFSv4.1 sessions, nfs/v4/state/session.rs.  [Session]: slots, SEQUENCE
       processing, reply cache, the manager's two maps.

    6. NFSv4 leases and grace, nfs/v4/state/lease.rs.  [Lease].

    7. The stateid table, nfs/v4/state/stateid.rs.  [Stateid]: one definition
       per method of StateIdManager; the open-owner table, the reverse maps
       and the backend's rows are fields of the record.  [StateidInv]: the
       invariant and its preservation; [StateidProps]: functional behaviour;
       [StateidRestart]: loading persisted rows.

    8. Byte-range locks, nfs/v4/operations/lockops.rs.  [Locks]: LockManager
       and the LOCK, LOCKT and LOCKU handlers; [LocksInv], [LocksProps]:
       the per-byte meaning of the table and what each handler does to it.

    9. Clients, nfs/v4/state/client.rs.  [Clients]: records, the EXCHANGE_ID
       cases, confirmation, CREATE_SESSION sequencing; [ClientsProps].

    10. Delegations, nfs/v4/state/delegation.rs.  [Delegs]: records and guards
       per file, grant, fence, return, revocation, teardown, the revocation
       breaker, and the audit [check_invariants] the code runs in its tests;
       [DelegsInv], [DelegsProps] and [DelegsEvidence].

    11. The state manager, nfs/v4/state/mod.rs with the arms of
       nfs/v4/dispatcher.rs and operations/session.rs that cross managers.
       [StateManager]: the record [Server] of all managers, the sinks that
       mirror delegation evidence to disk, SEQ4 flags, the fence, the expiry
       sweep, FREE_STATEID, DELEGRETURN, DESTROY_CLIENTID, start-up;
       [StateManagerProps], [StateEvidence].

    12. Session operations, nfs/v4/operations/session.rs.  [SessionOps]:
       EXCHANGE_ID, CREATE_SESSION, SEQUENCE, DESTROY_SESSION and channel
       negotiation; [SessionOpsProps].

    13. The recall ladder, nfs/v4/deleg_recall.rs.  [Recall]: batching, reply
       classification and the loop of one recall; [RecallProps].

    14. The grant decision of OPEN, nfs/v4/operations/ioops.rs.  [Grants].

    15. The freshness gate, freshness_gate.rs and the gate's part of
       create_raid_from_replicas in driver.rs.  [FreshnessGate]: evidence,
       decision, markers, deadlines, one assembly attempt ([gate_tick]);
       [FreshnessProps]: sequences of attempts.

    16. The replica sync record, replica_sync.rs.  [ReplicaSync]: the record and
       one definition per method of VolumeSyncRecord.  [ReplicaStore]: its
       writers (KubeStore in catchup.rs, NodeStage in driver.rs, the raid
       monitor in node_agent.rs, the replacement) as requests ([mutate],
       [sync_update]), the guarded write with its retries
       ([update_sync_record]), and the epoch scheduler of epoch_scheduler.rs
       ([plan_cut], [execute_cut], [run_epoch_cycle]).  [ReplicaProps]: what a
       request does to one leg; [ReplicaInv]: reachable records, ties, floors,
       the writer set; [ReplicaRetain]: epochs, pins and the scheduler's pass.

    17. Replacement of a lost replica, replica_replace.rs.  [ReplicaReplace].

    18. The start of a catch-up, catchup.rs.  [ReplicaCatchup]: the base epoch
       ([select_base_epoch]) and the source ([pick_source]).

    19. Placements and the stub binding, pnfs/mds/layout.rs (FilePlacement and
       the file identities) and pnfs/mds/stub_binding.rs.  [PnfsPlacement]: the
       stripe map, the splitting loop, gate keys, the binding's text, and the
       interface [StubBinding] with its two instances; [PnfsPlacementProps]:
       codecs, tiling, and the class [StubLaws] of what a stub store promises
       the layout manager, with the instance for extended attributes.

    20. The layout manager, pnfs/mds/layout.rs, with the device registry of
       pnfs/mds/device.rs and the rows of state_backend/sqlite.rs.
       [PnfsLayout]: one definition per method of LayoutManager and
       DeviceRegistry; generate_layout is the composition of
       [placement_for_grant], [build_layout], [publish] and [recheck_gate].
       [PnfsLayoutInv]: the table invariant and the transitions that keep it;
       [PnfsLayoutReach]: every operation is a run of transitions ([LmOp],
       [exec], [reach]); [PnfsLayoutProps]: holders, returns, recalls;
       [PnfsRestart]: the start-up load of pnfs/mds/server.rs ([restart]) and
       runs without a recall ([quiet_reach]).

    21. The metadata server's operations, pnfs/mds/operations/mod.rs, and the
       data server's control service, pnfs/ds/server.rs.  [PnfsOps]: LAYOUTGET,
       LAYOUTRETURN, the REMOVE, RENAME and SETATTR(size) hooks, the
       disposition of I/O, the proxy and the truncation fan-out over a fleet of
       data servers.  [PnfsStripes]: the bytes the fleet holds as one flat
       file; [PnfsOpsProps], [PnfsTruncate], [PnfsRename]: facts about each
       operation; [PnfsRace]: grants and truncations interleaved step by step.

    22. Volume identity, identity.rs.  [Identity]: handles and storage ids,
       roles, the names minted for a volume's objects and their readers.
       [Strs]: the str methods these use, and serde_json's [Value].

    23. Volume claims, volume_claims.rs.  [VolumeClaims]: the registry, one
       definition per method (try_claim is [decide_claim] on the volume's
       entry), and histories of calls ([run_calls]) with the guards
       outstanding between them.

    24. The destruction and construction guards, guarded_destroy.rs.
       [GuardedDestroy]: the decision functions, the probes, the two boundary
       verdicts; the interface [Answers] of what a target's answers mean, its
       instance [spdk_answers], and the verdicts' exactness against it.

    25. The leg-size belt, leg_size_guard.rs.  [LegSize].

    26. The orphan sweep, orphan_sweep.rs.  [OrphanSweep]: [plan_sweep] and the
       strikes over a history of cycles.

    27. The executors, node_agent.rs and minimal_disk_service.rs.  [NodeGuard]:
       the /api/spdk/rpc handler, the ublk stop, the lvol delete, the
       execution of a sweep plan; the interface [Deletes] of a target whose
       deletions touch no more than their object, with an instance.

    [ServerInv] and [ServerReach] put parts 5-14 together: [server_request]
    lists the requests that change the server, [server_exec] runs one, and
    [server_ok] is the invariant they keep.  [ExtentClaims] states the
    guarantees of parts 1-3, [NfsClaims] those of parts 4-6, [StateidClaims]
    those of parts 7 and 8, [ServerClaims] those of parts 9-14 and of the whole
    server, [ReplicaClaims] those of parts 15-18, [PnfsTableClaims] and
    [PnfsDataClaims] those of parts 19-21, [PnfsServerClaims] those of the
    layout manager composed with part 14, [GuardClaims] those of parts 22-27;
    [Findings] holds runs
    of the allocator on which the code departs from its own comments.

    ** What the theorems show

    - Reachable databases (C1, C5, C9, C33, C39): after any sequence of
      allocator operations, failed ones rolled back, the full verifier accepts
      every volume and no operation can die of a detected corruption; physical
      bytes are never shared by two file bytes, nor mapped and free or
      quarantined at once; extents, free list and quarantine tile exactly the
      arena below its watermark; one unfenced writer per byte; the verifier's
      adjacent-pair scans, whose i64 sums wrap, decide the all-pairs property
      where the rows' ends fit an i64.
    - Allocator operations (C10, C21): what LAYOUTGET and LAYOUTCOMMIT return,
      change and leave alone.
    - Reachable servers (C2): after any sequence of requests (unlocks and
      relocks to the end of the file from a positive offset apart, and while the id counters
      last) every table of the server agrees with the others, and the
      delegation table's own audit finds nothing.
    - Stateids and locks (C11, C17, C22): well-formedness under the callers'
      conditions [sid_allowed], exclusion byte by byte and refinement of a
      per-byte specification for ranges whose end does not overflow, under the
      owner the owner map gives.
    - Delegations (C18, C19, C37): grants are safe, the fence excludes, recalls
      end.
    - Sessions (C20): exactly once per slot.
    - Layout table (C6, C14, C25): the indexes name exactly the holders in
      every reachable state, a return or the lease sweep drops exactly what it
      should, grants hand out the file's pin and the client computes the device
      the proxy would use; a delegation is never granted over another client's
      write layout.
    - Layouts across a restart (C26): the table is restored when nothing was
      recalled and stateids were presented as minted.
    - Striped data (C3, C27, C28, C40): below the top of the offset space the
      stripes refine a flat file; I/O is never answered from a stub, it is put
      off exactly while the gate or the longest outage is younger than the
      ceiling, and what is proxied succeeds; a WRITE at the top of the offset
      space never ends.
    - Truncation (C12, C13): the gate lifts only after a cut as deep as every
      pending one; under every interleaving, while a truncation cuts, the gate is
      down and no delivered layout of the file is in the table, unless another
      one at least as deep has lifted the gate meanwhile.
    - Replica record (C4, C29, C32): an in-sync leg is built, became so by
      admission, and is complete unless a revert or copy was recorded for it
      while in sync; an unbroken tie vouches for a copy; a guarded write is
      atomic, a lost reply included.
    - Replacement, epochs (C34, C36): what a replacement preserves; a scheduler
      pass loses nothing a leg needs, whatever the nodes answer.
    - Freshness gate (C35): once its deadline is written, it defers for a
      bounded time while the missing set does not shrink, whatever reads and
      patches fail.
    - Claims (C8, C16, C31): one holder per volume within a lease, a drop frees
      its own claim only; a reservation wins the next release; maintainers get
      their turn.
    - Names (C30): every lvol of an accepted volume reads back as its own,
      and fits SPDK's limit; so do its export and its legs' and pads', while
      the hot-rejoin and block exports read back as nobody's.
    - Guards (C7, C15, C23, C24, C38): a destructive or constructive request
      passes exactly when the target's answers show no consumer of the kinds
      its guard looks for, or its name is operation-scoped; a
      sweep plans exactly what had no owner (or was a stranded replica, or an
      idle ephemeral lvol) on enough cycles in a row, and executing a plan leaves every raid, rightful export and bdev under them;
      a query that fails is not taken for an absent consumer.

    Further theorems of the same files cover the remaining operations
    (layout return, quarantine, fencing, volume deletion, the seat's
    promotion, CSV round trip, replay of cached replies, CLOSE, conflict
    scans, lock restart, DESTROY_CLIENTID, principal collisions, exact expiry, the stateid a
    returned delegation leaves behind, lease renewal, grace, codecs for
    composed types, the writer set, base floors, retirement, the cut, reclaim,
    merging, durable eviction, ids that are never reissued, restart of the
    stateid table, deferred clean-up after a client reboot, evidence of
    delegation holders, announced revocations, channel bounds, the unlock to
    end of file, drains, epoch numbers, base selection, the replacement race
    and the gate's treadmill, the stateids of a recall, block-class writers that
    delegation rule 6 does not see, the EXCHANGE_ID table, CREATE_SESSION once,
    the delivery gate of a revoke, the stub's binding and a pending truncation
    across a restart, the revoked or returned layout a restart revives, the gate
    a RENAME drops, a RENAME onto itself, a grant that outruns a whole
    truncation, a truncation that cuts after a deeper one lifted the gate, a
    deadline whose marker is never written, the
    fate of each minted name in a sweep, the legs the size belt keeps, and the
    requests the guards let through against their comments).

    ** Modelling decisions

    - A transaction is a function from [db] to a [result]: [Ok] carries the
      committed database, [Err] is the rollback (the rusqlite Transaction is
      dropped).  Each transaction holds the connection's mutex, so
      transactions are sequential.
    - The managers of the NFS server are concurrent maps with per-entry
      locks.  An operation of the model is a method call that the code runs
      under the entry lock of its file, owner or client; interleavings are
      sequences of such calls ([server_reach], [deleg_reach], [clocked]).
      Races inside one method are not modelled.
    - Writes to the state backend go through an ordered queue that coalesces
      by key; a manager's rows are the map the queue leaves when drained.
    - u64, i64 and u32 values are [Z] with the casts written out
      ([wrap_i64], [wrap_u64], [wrap_u32]); operations take arguments in
      their machine range ([is_u64], [is_i64]).  i64 sums inside the code
      that the invariant keeps in range are written as sums of [Z], the
      verifiers' excepted, which wrap.  A watermark past the range of a signed 64-bit column is
      [SqlError IntegerOverflow].  The epoch column of a seat is a [Z]; the
      epoch returned to the caller wraps.
    - A stateid's twelve bytes are one 96-bit [Z], big-endian; minting is
      bounded by the 64-bit counter ([can_mint]; with a deployment tag the
      counter has 32 bits), which every theorem about minted ids states.
    - Nfs4Status names the statuses the modelled code produces or tests; any
      other status a peer sends is [NFS_Status] with its wire value.
    - Reads without ORDER BY return rows in primary-key order.
    - ExtentAllocError has the source's constructors; its Corruption and
      lease-refusal payloads are enumerations of the code's cases instead of
      the formatted prose.
    - The release build is modelled: the additional whole-volume verification
      compiled under debug_assertions is not run (C1 shows it would pass), and
      u64 sums wrap.
    - Clock readings are arguments, one per reading the code takes; random
      client and session ids are lists of draws, and a list without a fresh id
      stands for the loop not having ended; environment variables are optional
      strings or arguments.
    - Recalls: one pass of the ladder's loop carries the callback's outcome,
      the instants at which the code reads the clock, and the requests other
      tasks ran in between.  [clocked] says that the instants do not go back
      and that sleeps last until their wake-up; with the default timings 28
      passes, plus the rebinds, are enough (C37).
    - The sync record is one PV annotation.  A write guarded by the object's
      resourceVersion is atomic (C32), so its history is a sequence of
      [sync_update]s on the identity list the PV holds at that moment; uuids
      of one list are distinct.  What SPDK, the nodes and the API server answer
      are arguments: each attempt of a guarded write carries whether its GET
      fails, what others write meanwhile, and whether its PATCH fails before or
      after it reached the server ([Attempt]); each attempt of the gate carries
      whether the annotations can be read and which patches land
      ([ApiAnswers]).  A cut re-records the current epoch or takes a
      number above every recorded one ([cut_allowed]), as the scheduler's and
      the hot rejoin's planning choose it.
    - RFC 3339 text is read and printed by chrono: the reader and the printer
      are parameters, with the hypothesis [clock_text] that printed instants
      before the year 10000 parse back to their second.
    - Strings are sequences of ASCII bytes, so trimming removes ASCII white
      space; text collation is byte order.
    - The callback credential of a session is a type parameter of [Session],
      instantiated with the offered credentials in [SessionOps].  String
      decoding takes UTF-8 validity as a byte predicate written out in [Xdr].
    - The layout manager's maps are independent concurrent maps.  [reach]
      takes one method call as one step; [PnfsRace] splits a grant and a
      truncation at their shared accesses, the recall scan with its bumps being
      one step, with parked truncations and their retries; removal and RENAME
      of the file are not among its steps.  Iterating a map visits it in key order.
    - A layout stateid is its sequence number and a [Z] for the other twelve
      bytes; a mint draws one that is not in use ([fresh_op]).  The 64-bit
      hash behind a composite device id, the environment, uuids and the
      outcome of an attribute write are arguments.
    - A data server is its identity and its files, byte lists whose missing
      bytes read as zero; which endpoints answer is a predicate, a call that
      times out is one that does not.  File-system errors are the ones a
      position past 2^63 - 1 causes.  A stub is a regular file's length, blocks
      and binding attribute.
    - The splitting loop takes fuel and tells a panic from exhaustion; fuel
      above the number of stripe units a request touches ([enough]) is enough
      (C3), except where C40 shows that no fuel is.
    - The claim registry is one map under a mutex, and each call reads the
      clock once under it, so a history is a sequence of calls whose instants
      do not go back, in nanoseconds.
    - A probe of the SPDK target is a function from requests to answers: the
      queries of one verdict do not change the target, and the target does not
      change while the verdict is formed.  An executor runs one RPC at a time
      on the target's state.  The kernel's openers and the VolumeAttachment
      lookup are arguments.  Lists the code sorts and deduplicates only to test
      membership or count distinct sizes are kept as they are.
    - [show_i64] and [show_u64] print with fuel for 20 digits: every i64 has at
      most 19, every u64 at most 20.

    ** Not modelled

    The asynchronous wrapper that hands each transaction to a blocking
    thread, sqlite's storage of the NFS rows, metering and logging, the
    rearm signal's waking of a parked ladder (a pass says whether it was
    woken).  Of the NFS server: XDR of the compounds, filehandles, attributes,
    directory and data operations, the RPC transport and GSS.  Of the pNFS
    servers: GETDEVICEINFO and the layout encoders, the flexible-files body,
    the stub updates of LAYOUTCOMMIT, the callback transport (a recall's
    revoke does not depend on its outcome), block-class export, fencing,
    reclaim and reconciliation against SPDK, and the data server's NFS
    listener.  Of the rest of the driver: the CSI services, SPDK
    RPC, snapshots, the SPDK side of catch-up, cutover and hot rejoin (their
    requests to the sync record are modelled), the JSON text of the record and
    the matching of raid bases to replicas, the rest of the node agent, the
    dashboard and the object-store gateway; they are calls to services outside
    the repository. *)

From stdpp Require Export base decidable list gmap strings sorting fin_maps.
From Stdlib Require Export ZArith Lia.

#[global] Open Scope Z_scope.

(** ** Machine integers

    A w-bit integer is a [Z]; a Rust [as] cast or wrapping operation is
    written out with the functions below. *)
Definition i64_max : Z := 2 ^ 63 - 1.
Definition u64_max : Z := 2 ^ 64 - 1.
Definition u32_max : Z := 2 ^ 32 - 1.

(** [x as i64], and i64 addition that wraps (release builds). *)
Definition wrap_i64 (x : Z) : Z := (x + 2 ^ 63) mod 2 ^ 64 - 2 ^ 63.
(** [x as u64]. *)
Definition wrap_u64 (x : Z) : Z := x mod 2 ^ 64.
(** [x.wrapping_add(1)] on u32. *)
Definition wrap_u32 (x : Z) : Z := x mod 2 ^ 32.

Definition is_u64 (x : Z) : Prop := 0 <= x <= u64_max.
Definition is_i64 (x : Z) : Prop := - 2 ^ 63 <= x <= i64_max.
Definition is_u32 (x : Z) : Prop := 0 <= x <= u32_max.

(** The width definitions unfold together; [bounds] closes a goal about
    machine ranges.  [flint] collects the preservation lemmas the components
    export. *)
Create HintDb machine.
Create HintDb flint.
#[export] Hint Unfold is_u64 is_i64 is_u32 i64_max u64_max u32_max : machine.
Ltac bounds := autounfold with machine in *; lia.

Lemma wrap_i64_id x : is_i64 x -> wrap_i64 x = x.
Proof. intros. unfold wrap_i64. rewrite Z.mod_small; bounds. Qed.
Lemma wrap_u64_id x : is_u64 x -> wrap_u64 x = x.
Proof. intros. apply Z.mod_small. bounds. Qed.

Lemma wrap_i64_range x : is_i64 (wrap_i64 x).
Proof.
  unfold is_i64, wrap_i64, i64_max.
  pose proof (Z.mod_pos_bound (x + 2 ^ 63) (2 ^ 64)). lia.
Qed.

(** The cast loses nothing: two u64 values with the same i64 image are
    equal, so [file_id as i64] is a faithful key. *)
Lemma wrap_i64_inj x y : is_u64 x -> is_u64 y -> wrap_i64 x = wrap_i64 y -> x = y.
Proof.
  unfold is_u64, wrap_i64, u64_max. intros Hx Hy Heq.
  assert ((x + 2 ^ 63) mod 2 ^ 64 = (y + 2 ^ 63) mod 2 ^ 64) as Hm by lia.
  assert (Hxd := Z.div_mod (x + 2 ^ 63) (2 ^ 64) ltac:(lia)).
  assert (Hyd := Z.div_mod (y + 2 ^ 63) (2 ^ 64) ltac:(lia)).
  assert (0 <= (x + 2 ^ 63) / 2 ^ 64 < 2).
  { split; [apply Z.div_pos; lia|]. apply Z.div_lt_upper_bound; lia. }
  assert (0 <= (y + 2 ^ 63) / 2 ^ 64 < 2).
  { split; [apply Z.div_pos; lia|]. apply Z.div_lt_upper_bound; lia. }
  rewrite Hm in Hxd. lia.
Qed.

(** ** Results: [std::result::Result] with [?] as bind *)
Inductive result (E A : Type) : Type :=
| Ok (a : A)
| Err (e : E).
Arguments Ok {E A} a.
Arguments Err {E A} e.

#[global] Instance result_ret {E} : MRet (result E) := fun A a => Ok a.
#[global] Instance result_bind {E} : MBind (result E) := fun A B f m =>
  match m with Ok a => f a | Err e => Err e end.

Lemma bind_Ok {E A B} (m : result E A) (f : A -> result E B) b :
  m ≫= f = Ok b <-> exists a, m = Ok a /\ f a = Ok b.
Proof. destruct m; simpl; unfold mbind, result_bind; naive_solver. Qed.

Lemma bind_Err {E A B} (m : result E A) (f : A -> result E B) e :
  m ≫= f = Err e <-> m = Err e \/ exists a, m = Ok a /\ f a = Err e.
Proof. destruct m; unfold mbind, result_bind; naive_solver. Qed.

(** [guard]: an early [return Err(e)] when the condition holds. *)
Definition fail_if {E} (b : bool) (e : E) : result E unit :=
  if b then Err e else Ok tt.

Lemma fail_if_Ok {E} b (e : E) u : fail_if b e = Ok u <-> b = false.
Proof. destruct b, u; naive_solver. Qed.

Lemma fail_if_Err {E} b (e e' : E) : fail_if b e = Err e' <-> b = true /\ e = e'.
Proof. destruct b; naive_solver. Qed.

Lemma fail_if_bind {E A} b (e : E) (k : unit -> result E A) a :
  fail_if b e ≫= k = Ok a <-> b = false /\ k tt = Ok a.
Proof. destruct b; unfold mbind, result_bind, fail_if; split; intros; destruct_and?; done. Qed.

(** Fold a fallible state transformer over a list ([for x in xs { ...? }]). *)
Fixpoint foldM {E S X} (f : S -> X -> result E S) (s : S) (xs : list X) : result E S :=
  match xs with
  | [] => Ok s
  | x :: xs => s' ← f s x; foldM f s' xs
  end.

(** An invariant of the state that every step keeps, and that every step
    can be taken from, carries through the loop. *)
Lemma foldM_inv {E S X} (f : S -> X -> result E S) (I : list X -> S -> Prop) :
  forall xs s,
  (forall x xs s, I (x :: xs) s -> exists s', f s x = Ok s' /\ I xs s') ->
  I xs s -> exists s', foldM f s xs = Ok s' /\ I [] s'.
Proof.
  induction xs as [|x xs IH]; intros s Hstep HI; simpl; [eauto|].
  destruct (Hstep _ _ _ HI) as (s' & -> & HI'). simpl. eauto.
Qed.

Lemma foldM_inv_Ok {E S X} (f : S -> X -> result E S) (I : list X -> S -> Prop) :
  forall xs s s',
  (forall x xs s s', I (x :: xs) s -> f s x = Ok s' -> I xs s') ->
  I xs s -> foldM f s xs = Ok s' -> I [] s'.
Proof.
  induction xs as [|x xs IH]; intros s s' Hstep HI; simpl; [naive_solver|].
  rewrite bind_Ok. intros (s1 & Hf & Hrest). eapply IH; eauto.
Qed.

(** ** Sorted lists *)
Lemma StronglySorted_filter {A} (R : relation A) (P : A -> Prop) `{forall x, Decision (P x)} l :
  StronglySorted R l -> StronglySorted R (filter P l).
Proof.
  induction 1 as [|x l Hs IH Hx]; [constructor|].
  rewrite filter_cons. case_decide; [|done]. constructor; [done|].
  rewrite Forall_forall in Hx |- *. intros y Hy. apply list_elem_of_filter in Hy as [_ Hy].
  by apply Hx.
Qed.

(** Strictly increasing in a key: the last element is the largest, the
    head the smallest. *)
Definition key_sorted {A} (key : A -> Z) : list A -> Prop :=
  StronglySorted (fun x y => key x < key y).

Lemma key_sorted_last {A} (key : A -> Z) l x :
  key_sorted key l -> last l = Some x -> x ∈ l /\ forall y, y ∈ l -> key y <= key x.
Proof.
  intros Hs Hl. apply last_Some in Hl as [l' ->]. split; [set_solver|].
  intros y Hy. apply elem_of_app in Hy as [Hy|Hy]; [|apply list_elem_of_singleton in Hy; subst; lia].
  apply StronglySorted_app_1_elem_of with (x1 := y) (x2 := x) in Hs; [lia|done|set_solver].
Qed.

Lemma key_sorted_head {A} (key : A -> Z) l x :
  key_sorted key l -> head l = Some x -> x ∈ l /\ forall y, y ∈ l -> key x <= key y.
Proof.
  intros Hs Hl. destruct l as [|z l]; simplify_eq/=. split; [by left|].
  intros y Hy. apply StronglySorted_inv in Hs as [_ Hs]. rewrite Forall_forall in Hs.
  apply elem_of_cons in Hy as [->|Hy]; [lia|]. specialize (Hs y Hy). lia.
Qed.

Lemma key_sorted_inj {A} (key : A -> Z) l x y :
  key_sorted key l -> x ∈ l -> y ∈ l -> key x = key y -> x = y.
Proof.
  induction 1 as [|z l Hs IH Hz]; [by rewrite elem_of_nil|].
  rewrite Forall_forall in Hz. rewrite !elem_of_cons.
  intros [->|Hx] [->|Hy] Hk; [done|specialize (Hz y Hy); lia|specialize (Hz x Hx); lia|].
  by apply IH.
Qed.

(** [slice::windows(2)]: some adjacent pair satisfies [bad]. *)
Fixpoint any_window {A} (bad : A -> A -> bool) (l : list A) : bool :=
  match l with
  | x :: ((y :: _) as l') => bad x y || any_window bad l'
  | _ => false
  end.

(** On a list sorted by [L], when [R] is what a good window means and
    composes along the list's elements, no bad window means every ordered
    pair of the list is in [R]. *)
Lemma any_window_false {A} (bad : A -> A -> bool) (P : A -> Prop) (L R : relation A) l :
  (forall x y, P x -> L x y -> bad x y = false <-> R x y) ->
  (forall x y z, P y -> R x y -> R y z -> R x z) ->
  Forall P l -> StronglySorted L l ->
  any_window bad l = false <-> StronglySorted R l.
Proof.
  intros Hb Ht HP. induction HP as [|x l Hx Hl IH]; intros HL; [split; [constructor|done]|].
  destruct l as [|y l].
  { split; [constructor; constructor|done]. }
  apply StronglySorted_inv in HL as [HL HLx].
  change (any_window bad (x :: y :: l)) with (bad x y || any_window bad (y :: l)).
  rewrite orb_false_iff, Hb by (by inversion HLx). rewrite IH by done. split.
  - intros [Hxy Hs]. constructor; [done|]. constructor; [done|].
    apply StronglySorted_inv in Hs as [_ Hy]. eapply Forall_impl; [exact Hy|].
    intros z Hyz. inversion Hl; subst. eauto.
  - intros Hs. apply StronglySorted_inv in Hs as [Hs Hf]. split; [by inversion Hf|done].
Qed.

Lemma sorted_impl {A} (L R : relation A) l :
  StronglySorted L l -> NoDup l ->
  (forall x y, x ∈ l -> y ∈ l -> x <> y -> L x y -> R x y) -> StronglySorted R l.
Proof.
  induction 1 as [|x l Hs IH Hx]; intros Hn HR; [constructor|].
  apply NoDup_cons in Hn as [Hnx Hn]. constructor.
  - apply IH; [done|]. intros; apply HR; try done; by right.
  - rewrite Forall_forall in Hx |- *. intros y Hy. apply HR; [by left|by right| |by apply Hx].
    intros ->. done.
Qed.

Lemma sorted_pair {A} (R : relation A) l x y :
  StronglySorted R l -> x ∈ l -> y ∈ l -> x <> y -> R x y \/ R y x.
Proof.
  induction 1 as [|z l Hs IH Hz]; [by rewrite elem_of_nil|].
  rewrite Forall_forall in Hz.
  intros [->|Hx]%elem_of_cons [->|Hy]%elem_of_cons Hne; [done|left|right|]; auto.
Qed.

Lemma sorted_irrefl_NoDup {A} (R : relation A) l :
  StronglySorted R l -> (forall x, x ∈ l -> ~ R x x) -> NoDup l.
Proof.
  induction 1 as [|x l Hs IH Hx]; intros Hirr; constructor.
  - rewrite Forall_forall in Hx. intros Hin. apply (Hirr x); [by left|by apply Hx].
  - apply IH. intros y Hy. apply Hirr. by right.
Qed.

Lemma forallb_false {A} (f : A -> bool) l :
  forallb f l = false -> exists x, x ∈ l /\ f x = false.
Proof.
  induction l as [|x l IH]; simpl; [done|]. destruct (f x) eqn:Hx; simpl.
  - intros (y & Hy & Hf)%IH. exists y. split; [by right|done].
  - intros _. exists x. split; [by left|done].
Qed.

(** ** Vec operations on the first element that satisfies [p]

    [find], [remove] at its position, modification through [find] on
    [iter_mut]. *)
Fixpoint find_first {A} (p : A -> bool) (l : list A) : option A :=
  match l with [] => None | x :: l => if p x then Some x else find_first p l end.
Fixpoint remove_first {A} (p : A -> bool) (l : list A) : list A :=
  match l with [] => [] | x :: l => if p x then l else x :: remove_first p l end.
Fixpoint update_first {A} (p : A -> bool) (f : A -> A) (l : list A) : list A :=
  match l with [] => [] | x :: l => if p x then f x :: l else x :: update_first p f l end.

Lemma find_first_split {A} (p : A -> bool) l x : find_first p l = Some x ->
  exists l1 l2, l = l1 ++ x :: l2 /\ p x = true /\ remove_first p l = l1 ++ l2 /\
    forall f, update_first p f l = l1 ++ f x :: l2.
Proof.
  induction l as [|y l IH]; simpl; [done|]. destruct (p y) eqn:Hp.
  - intros [= <-]. exists [], l. done.
  - intros (l1 & l2 & -> & Hx & Hr & Hu)%IH. exists (y :: l1), l2. simpl. split_and!; try done; [by rewrite Hr|].
    intros f. by rewrite Hu.
Qed.

Lemma find_first_Some {A} (p : A -> bool) l x : find_first p l = Some x -> x ∈ l /\ p x = true.
Proof. intros (l1 & l2 & -> & Hp & _)%find_first_split. split; [set_solver|done]. Qed.

Lemma find_first_None {A} (p : A -> bool) l : find_first p l = None <-> forall x, x ∈ l -> p x = false.
Proof.
  induction l as [|y l IH]; simpl.
  - split; [|done]. intros _ x ?%elem_of_nil. done.
  - destruct (p y) eqn:Hp.
    + split; [done|]. intros H. rewrite H in Hp; [done|by left].
    + rewrite IH. split; [intros H x [->|?]%elem_of_cons; auto|]. intros H x ?. apply H. by right.
Qed.

Lemma update_first_elem {A} (p : A -> bool) f l x : x ∈ update_first p f l ->
  x ∈ l \/ exists y, find_first p l = Some y /\ x = f y.
Proof.
  induction l as [|y l IH]; simpl; [by left|]. destruct (p y) eqn:Hp.
  - intros [->|Hx]%elem_of_cons; [right; eauto|left; by right].
  - intros [->|Hx]%elem_of_cons; [left; by left|]. destruct (IH Hx) as [?|?]; [left; by right|by right].
Qed.

(** ** Tactics *)
Ltac inv_res :=
  repeat match goal with
  | H : _ ≫= _ = Ok _ |- _ =>
      apply bind_Ok in H; let a := fresh "a" in let E := fresh "E" in
      destruct H as (a & E & H)
  | H : fail_if _ _ = Ok _ |- _ => apply fail_if_Ok in H
  | H : Ok _ = Ok _ |- _ => injection H as H; subst
  | H : mret _ = Ok _ |- _ => injection H as H; subst
  | H : Err _ = Ok _ |- _ => discriminate H
  end.

Ltac bool_Z :=
  repeat match goal with
  | H : (_ && _)%bool = true |- _ => apply andb_prop in H as [? ?]
  | H : (_ || _)%bool = false |- _ => apply orb_false_elim in H as [? ?]
  | H : negb _ = true |- _ => apply negb_true_iff in H
  | H : negb _ = false |- _ => apply negb_false_iff in H
  | H : (_ <=? _)%Z = true |- _ => apply Z.leb_le in H
  | H : (_ <=? _)%Z = false |- _ => apply Z.leb_gt in H
  | H : (_ <? _)%Z = true |- _ => apply Z.ltb_lt in H
  | H : (_ <? _)%Z = false |- _ => apply Z.ltb_ge in H
  | H : (_ >? _)%Z = true |- _ => rewrite Z.gtb_ltb in H
  | H : (_ >? _)%Z = false |- _ => rewrite Z.gtb_ltb in H
  | H : (_ =? _)%Z = true |- _ => apply Z.eqb_eq in H
  | H : (_ =? _)%Z = false |- _ => apply Z.eqb_neq in H
  end.
