(* ===== verification/Sql.v ===== *)
(** The sqlite statements the allocator issues, on tables keyed by their
    primary key: a table is a [gmap] from the PRIMARY KEY columns to the
    remaining columns.  SELECT .. WHERE .. ORDER BY is [select], COUNT is
    [count_where], DELETE .. WHERE is [delete_where], UPDATE .. WHERE is
    [update_where], INSERT is [insert_new] (fails on a primary-key
    conflict), INSERT OR IGNORE / ON CONFLICT DO NOTHING is
    [insert_or_ignore]; an upsert is stdpp's map insert. *)

From S2P Require Import Prelude.

(** The rusqlite failures a statement of the modelled code can produce. *)
Inductive sql_error :=
| QueryReturnedNoRows   (* query_row without .optional() on no row *)
| ConstraintViolation   (* INSERT on an existing primary key *)
| IntegerOverflow.      (* a column left the i64 range: REAL, unreadable as i64 *)

Section sql.
Context `{Countable K} {A : Type}.
Implicit Types (m : gmap K A) (p : K -> A -> bool).

Definition select {B} (g : K -> A -> option B) (R : relation B)
    `{!RelDecision R} m : list B :=
  merge_sort R (omap (fun kv => g kv.1 kv.2) (map_to_list m)).

Definition count_where p m : Z :=
  Z.of_nat (size (filter (fun kv => p kv.1 kv.2 = true) m)).

Definition exists_where p m : bool :=
  existsb (fun kv => p kv.1 kv.2) (map_to_list m).

Definition delete_where p m : gmap K A :=
  filter (fun kv => p kv.1 kv.2 = false) m.

Definition update_where p (f : A -> A) m : gmap K A :=
  map_imap (fun k a => Some (if p k a then f a else a)) m.

Definition insert_new (k : K) (a : A) m : result sql_error (gmap K A) :=
  match m !! k with
  | Some _ => Err ConstraintViolation
  | None => Ok (<[k:=a]> m)
  end.

Definition insert_or_ignore (k : K) (a : A) m : gmap K A :=
  match m !! k with Some _ => m | None => <[k:=a]> m end.

(** *** Reading *)
Lemma elem_of_select {B} (g : K -> A -> option B) R `{!RelDecision R} m b :
  b ∈ select g R m <-> exists k a, m !! k = Some a /\ g k a = Some b.
Proof.
  unfold select. rewrite merge_sort_Permutation, list_elem_of_omap. split.
  - intros ([k a] & Hin & Hg). apply elem_of_map_to_list in Hin. eauto.
  - intros (k & a & Hk & Hg). exists (k, a). by rewrite elem_of_map_to_list.
Qed.

Lemma select_sorted {B} (g : K -> A -> option B) R `{!RelDecision R}
    `{!Transitive R, !Total R} m :
  StronglySorted R (select g R m).
Proof. apply StronglySorted_merge_sort; apply _. Qed.

Lemma select_NoDup {B} (g : K -> A -> option B) R `{!RelDecision R} m :
  (forall k1 a1 k2 a2 b, m !! k1 = Some a1 -> m !! k2 = Some a2 ->
     g k1 a1 = Some b -> g k2 a2 = Some b -> k1 = k2) ->
  NoDup (select g R m).
Proof.
  intros Hinj. unfold select. rewrite merge_sort_Permutation.
  assert (forall k a, (k, a) ∈ map_to_list m -> m !! k = Some a) as Hm.
  { intros k a. by rewrite elem_of_map_to_list. }
  pose proof (NoDup_fst_map_to_list m) as Hnd. revert Hm Hnd.
  generalize (map_to_list m) as l. induction l as [|[k a] l IH]; simpl;
    intros Hm Hnd; [constructor|].
  apply NoDup_cons in Hnd as [Hk Hnd].
  assert (NoDup (omap (fun kv => g kv.1 kv.2) l)) as IHl.
  { apply IH; [|done]. intros k' a' Hin. apply Hm. by right. }
  destruct (g k a) as [b|] eqn:Hg; [|done].
  constructor; [|done]. rewrite list_elem_of_omap. intros ([k' a'] & Hin & Hg').
  simpl in Hg'.
  assert (k = k') as <-.
  { eapply Hinj; [apply Hm; by left|apply Hm; right; done|done|done]. }
  apply Hk, list_elem_of_fmap. by exists (k, a').
Qed.

Lemma exists_where_true p m :
  exists_where p m = true <-> exists k a, m !! k = Some a /\ p k a = true.
Proof.
  unfold exists_where. rewrite existsb_exists. split.
  - intros ([k a] & Hin & Hp). apply list_elem_of_In, elem_of_map_to_list in Hin. eauto.
  - intros (k & a & Hk & Hp). exists (k, a). split; [|done].
    by apply list_elem_of_In, elem_of_map_to_list.
Qed.

Lemma exists_where_false p m :
  exists_where p m = false <-> forall k a, m !! k = Some a -> p k a = false.
Proof.
  split.
  - intros Hf k a Hk. destruct (p k a) eqn:Hp; [|done].
    assert (exists_where p m = true) by (apply exists_where_true; eauto). congruence.
  - intros Hall. destruct (exists_where p m) eqn:He; [|done].
    apply exists_where_true in He as (k & a & Hk & Hp).
    rewrite (Hall k a Hk) in Hp. done.
Qed.

(** *** Writing *)
Lemma lookup_delete_where p m k :
  delete_where p m !! k =
    match m !! k with Some a => if p k a then None else Some a | None => None end.
Proof.
  unfold delete_where. destruct (m !! k) as [a|] eqn:Hk.
  - destruct (p k a) eqn:Hp.
    + apply map_lookup_filter_None. right. intros a' Ha' Hp'. simpl in Hp'. congruence.
    + apply map_lookup_filter_Some. done.
  - apply map_lookup_filter_None. by left.
Qed.

Lemma lookup_delete_where_Some p m k a :
  delete_where p m !! k = Some a <-> m !! k = Some a /\ p k a = false.
Proof.
  rewrite lookup_delete_where. destruct (m !! k) as [a'|].
  - destruct (p k a') eqn:Hp; split; intros; destruct_and?; simplify_eq; eauto; congruence.
  - split; intros; destruct_and?; done.
Qed.

Lemma lookup_update_where p f m k :
  update_where p f m !! k = (fun a => if p k a then f a else a) <$> m !! k.
Proof. unfold update_where. rewrite map_lookup_imap. by destruct (m !! k). Qed.

Lemma insert_new_Ok k a m m' :
  insert_new k a m = Ok m' <-> m !! k = None /\ m' = <[k:=a]> m.
Proof. unfold insert_new. destruct (m !! k); split; intros; destruct_and?; simplify_eq; done. Qed.

(** *** An INSERT under a condition *)
Definition put_if (b : bool) (k : K) (a : A) m : gmap K A := if b then <[k:=a]> m else m.

Lemma insert_new_if (b : bool) k a m : (b = true -> m !! k = None) ->
  (if b then insert_new k a m else Ok m) = Ok (put_if b k a m).
Proof. unfold insert_new. destruct b; [|done]. by intros ->. Qed.

Lemma lookup_put_if (b : bool) k a m k' x :
  put_if b k a m !! k' = Some x <->
  (b = true /\ k' = k /\ x = a) \/ ((b = true -> k' <> k) /\ m !! k' = Some x).
Proof.
  unfold put_if. destruct b; [|naive_solver]. rewrite lookup_insert_Some. naive_solver.
Qed.

Lemma lookup_put_if_ne (b : bool) k a m k' : k' <> k -> put_if b k a m !! k' = m !! k'.
Proof. intros Hne. unfold put_if. destruct b; [|done]. by rewrite lookup_insert_ne. Qed.

(** *** Counting *)
Lemma count_where_nonneg p m : 0 <= count_where p m.
Proof. unfold count_where. lia. Qed.

Lemma count_insert_new p m k a :
  m !! k = None ->
  count_where p (<[k:=a]> m) = count_where p m + (if p k a then 1 else 0).
Proof.
  intros Hk. unfold count_where. destruct (p k a) eqn:Hp.
  - rewrite map_filter_insert_True by done.
    rewrite map_size_insert_None; [lia|]. apply map_lookup_filter_None. by left.
  - rewrite map_filter_insert_False by (simpl; congruence).
    rewrite delete_id by done. lia.
Qed.

Lemma count_put_if p (b : bool) m k a : (b = true -> m !! k = None) -> p k a = true ->
  count_where p (put_if b k a m) = count_where p m + (if b then 1 else 0).
Proof.
  intros Hk Hp. unfold put_if. destruct b; [|lia]. by rewrite count_insert_new, Hp by auto.
Qed.

Lemma count_delete p m k a :
  m !! k = Some a ->
  count_where p (delete k m) = count_where p m - (if p k a then 1 else 0).
Proof.
  intros Hk. rewrite <- (insert_delete_id m k a) at 2 by done.
  rewrite count_insert_new by apply lookup_delete_eq. lia.
Qed.

Lemma count_overwrite p m k a a' :
  m !! k = Some a -> p k a = p k a' ->
  count_where p (<[k:=a']> m) = count_where p m.
Proof.
  intros Hk Hp. rewrite <- insert_delete_eq, count_insert_new by apply lookup_delete_eq.
  rewrite (count_delete p m k a Hk), Hp. destruct (p k a'); lia.
Qed.

Lemma count_where_ext p m m' :
  (forall k, match m !! k, m' !! k with
             | Some a, Some a' => p k a = p k a'
             | None, None => True
             | Some a, None | None, Some a => p k a = false
             end) ->
  count_where p m = count_where p m'.
Proof.
  intros Hext. unfold count_where. f_equal. rewrite <- !size_dom. f_equal.
  apply set_eq. intros k. rewrite !elem_of_dom.
  unfold is_Some. setoid_rewrite map_lookup_filter_Some. simpl.
  specialize (Hext k).
  destruct (m !! k), (m' !! k); split; intros (? & ? & ?); simplify_eq; eauto; congruence.
Qed.

Lemma count_where_zero p m : count_where p m = 0 <-> exists_where p m = false.
Proof.
  unfold count_where. rewrite exists_where_false. split.
  - intros Hsz k a Hk. destruct (p k a) eqn:Hp; [|done].
    assert (size (filter (fun kv => p kv.1 kv.2 = true) m) = 0)%nat as Hz by lia.
    apply map_size_empty_inv in Hz.
    assert (filter (fun kv => p kv.1 kv.2 = true) m !! k = Some a) as Hl
      by (by apply map_lookup_filter_Some).
    rewrite Hz, lookup_empty in Hl. done.
  - intros Hall. replace (filter (fun kv => p kv.1 kv.2 = true) m) with (∅ : gmap K A).
    + by rewrite map_size_empty.
    + symmetry. apply map_empty. intros k. apply map_lookup_filter_None.
      right. intros a Ha Hp. simpl in Hp. rewrite (Hall k a Ha) in Hp. done.
Qed.
End sql.

(** Order on a row's key column. *)
Definition by_key {B} (key : B -> Z) : relation B := fun x y => key x <= key y.
#[global] Instance by_key_dec {B} (key : B -> Z) : RelDecision (by_key key).
Proof. intros x y. unfold by_key. apply _. Defined.
#[global] Instance by_key_trans {B} (key : B -> Z) : Transitive (by_key key).
Proof. unfold by_key. intros x y z. lia. Qed.
#[global] Instance by_key_total {B} (key : B -> Z) : Total (by_key key).
Proof. unfold by_key. intros x y. lia. Qed.
