(* ===== verification/Tables.v ===== *)
(** The block-layout tables of the state database (SCHEMA_SQL in
    state_backend/sqlite.rs), the row types and the error type of
    state_backend/extent_alloc.rs, and the queries every transaction
    shares (ordered row lists, neighbours, holders).

    A transaction is a function from the database to a [result]: [Ok]
    carries the committed database, [Err] is the rollback. *)

From S2P Require Import Prelude Sql.

(** extents.state and extent_grants.mode: the closed sets of strings the
    code writes. *)
Inductive ext_state := StInvalid | StRw.
Inductive grant_mode := ModeRead | ModeRw.
#[global] Instance ext_state_eq_dec : EqDecision ext_state.
Proof. solve_decision. Defined.
#[global] Instance grant_mode_eq_dec : EqDecision grant_mode.
Proof. solve_decision. Defined.

(** extents: key (volume, file_id, logical_offset). *)
Record extent := Extent {
  e_len : Z; e_phys : Z; e_gen : Z; e_state : ext_state }.

(** extent_grants: key (volume, file_id, logical_offset, client_id). *)
Record grant_row := GrantRow { g_mode : grant_mode; g_gen : Z; g_fenced : bool }.

(** extent_free: key (volume, physical_offset). *)
Record free_row := FreeRow { fr_len : Z; fr_gen : Z }.

(** extent_quarantine: key (volume, physical_offset). *)
Record quar_row := QuarRow {
  q_len : Z; q_gen : Z; q_clients : string; q_unix : Z }.

(** volume_alloc: key volume. *)
Record arena := Arena { size_ceiling : Z; next_free : Z; extent_rows : Z }.

(** block_hosts: key (volume, client_id). *)
Record host_row := HostRow { h_nqn : string; h_admitted_unix : Z }.

(** block_node_attach: key (volume, host_nqn). *)
Record attach_row := AttachRow { at_node : string; at_unix : Z }.

(** fenced_clients: key (volume, client_id). *)
Record fence_row := FenceRow {
  f_nqn : string; f_fenced_unix : Z; f_delivered_unix : Z }.

(** block_targets: key target_id. *)
Record target_row := TargetRow {
  t_traddr : string; t_trsvcid : Z; t_registered_unix : Z; t_updated_unix : Z }.

(** block_volume_target: key volume. *)
Record seat_row := SeatRow { s_epoch : Z; s_composer : string; s_seated_unix : Z }.

(** block_volume_legs: key (volume, target_id). *)
Record leg_row := LegRow { l_sync_state : string; l_marked_unix : Z }.

(** block_leases: key volume. *)
Record lease_row := LeaseRow { ls_epoch : Z; ls_holder : string; ls_expires_unix : Z }.

Record db := Db {
  extents : gmap (string * Z * Z) extent;
  extent_grants : gmap (string * Z * Z * Z) grant_row;
  extent_commit_grace : gmap (string * Z * Z * Z) Z;
  extent_free : gmap (string * Z) free_row;
  extent_quarantine : gmap (string * Z) quar_row;
  volume_alloc : gmap string arena;
  block_hosts : gmap (string * Z) host_row;
  block_node_attach : gmap (string * string) attach_row;
  fenced_clients : gmap (string * Z) fence_row;
  block_targets : gmap string target_row;
  block_volume_target : gmap string seat_row;
  block_volume_legs : gmap (string * string) leg_row;
  block_leases : gmap string lease_row }.

Definition empty_db : db := Db ∅ ∅ ∅ ∅ ∅ ∅ ∅ ∅ ∅ ∅ ∅ ∅ ∅.

(** Writing one table. *)
Definition set_extents x d := Db x (extent_grants d) (extent_commit_grace d) (extent_free d)
  (extent_quarantine d) (volume_alloc d) (block_hosts d) (block_node_attach d)
  (fenced_clients d) (block_targets d) (block_volume_target d) (block_volume_legs d) (block_leases d).
Definition set_grants x d := Db (extents d) x (extent_commit_grace d) (extent_free d)
  (extent_quarantine d) (volume_alloc d) (block_hosts d) (block_node_attach d)
  (fenced_clients d) (block_targets d) (block_volume_target d) (block_volume_legs d) (block_leases d).
Definition set_grace x d := Db (extents d) (extent_grants d) x (extent_free d)
  (extent_quarantine d) (volume_alloc d) (block_hosts d) (block_node_attach d)
  (fenced_clients d) (block_targets d) (block_volume_target d) (block_volume_legs d) (block_leases d).
Definition set_free x d := Db (extents d) (extent_grants d) (extent_commit_grace d) x
  (extent_quarantine d) (volume_alloc d) (block_hosts d) (block_node_attach d)
  (fenced_clients d) (block_targets d) (block_volume_target d) (block_volume_legs d) (block_leases d).
Definition set_quarantine x d := Db (extents d) (extent_grants d) (extent_commit_grace d)
  (extent_free d) x (volume_alloc d) (block_hosts d) (block_node_attach d)
  (fenced_clients d) (block_targets d) (block_volume_target d) (block_volume_legs d) (block_leases d).
Definition set_alloc x d := Db (extents d) (extent_grants d) (extent_commit_grace d)
  (extent_free d) (extent_quarantine d) x (block_hosts d) (block_node_attach d)
  (fenced_clients d) (block_targets d) (block_volume_target d) (block_volume_legs d) (block_leases d).
Definition set_hosts x d := Db (extents d) (extent_grants d) (extent_commit_grace d)
  (extent_free d) (extent_quarantine d) (volume_alloc d) x (block_node_attach d)
  (fenced_clients d) (block_targets d) (block_volume_target d) (block_volume_legs d) (block_leases d).
Definition set_attach x d := Db (extents d) (extent_grants d) (extent_commit_grace d)
  (extent_free d) (extent_quarantine d) (volume_alloc d) (block_hosts d) x
  (fenced_clients d) (block_targets d) (block_volume_target d) (block_volume_legs d) (block_leases d).
Definition set_fenced x d := Db (extents d) (extent_grants d) (extent_commit_grace d)
  (extent_free d) (extent_quarantine d) (volume_alloc d) (block_hosts d) (block_node_attach d)
  x (block_targets d) (block_volume_target d) (block_volume_legs d) (block_leases d).
Definition set_targets x d := Db (extents d) (extent_grants d) (extent_commit_grace d)
  (extent_free d) (extent_quarantine d) (volume_alloc d) (block_hosts d) (block_node_attach d)
  (fenced_clients d) x (block_volume_target d) (block_volume_legs d) (block_leases d).
Definition set_seats x d := Db (extents d) (extent_grants d) (extent_commit_grace d)
  (extent_free d) (extent_quarantine d) (volume_alloc d) (block_hosts d) (block_node_attach d)
  (fenced_clients d) (block_targets d) x (block_volume_legs d) (block_leases d).
Definition set_legs x d := Db (extents d) (extent_grants d) (extent_commit_grace d)
  (extent_free d) (extent_quarantine d) (volume_alloc d) (block_hosts d) (block_node_attach d)
  (fenced_clients d) (block_targets d) (block_volume_target d) x (block_leases d).
Definition set_leases x d := Db (extents d) (extent_grants d) (extent_commit_grace d)
  (extent_free d) (extent_quarantine d) (volume_alloc d) (block_hosts d) (block_node_attach d)
  (fenced_clients d) (block_targets d) (block_volume_target d) (block_volume_legs d) x.

(** ** Errors

    [Corruption(String)] carries which check failed instead of its prose;
    [LeaseRefused { reason }] likewise. *)
Inductive corruption :=
| LogicalOverlap | PhysicalOverlap | BeyondWatermark | WatermarkBeyondCeiling
| CounterDrift | NoArena | OrphanGrants | StaleGrants.

Inductive lease_refusal := NotComposer | LeaseElsewhere | NoLease.

Inductive ExtentAllocError :=
| Conflict (holders : list Z)
| FencedClient
| NotQuiescent (holders : list Z)
| NoSpace (needed ceiling next_free : Z)
| RowBudget (rows budget : Z)
| UnconfirmedFence
| UnseatedVolume
| UnknownComposer (composer : string)
| PromotionRaced (epoch : Z) (composer : string)
| NotInSync (candidate : string)
| SelfPromotion (composer : string)
| LeaseRefused (reason : lease_refusal)
| CommitRejected (why : string)
| InvalidRange (why : string)
| Corruption (why : corruption)
| SqlError (e : sql_error).

Abbreviation res := (result ExtentAllocError).

(** [impl From<rusqlite::Error>]: the [?] on a statement. *)
Definition sql {A} (r : result sql_error A) : res A :=
  match r with Ok a => Ok a | Err e => Err (SqlError e) end.

Lemma sql_Ok {A} (r : result sql_error A) a : sql r = Ok a <-> r = Ok a.
Proof. destruct r; unfold sql; split; intros; simplify_eq; done. Qed.

(** query_row(..)? without .optional(). *)
Definition one_row {A} (o : option A) : res A :=
  match o with Some a => Ok a | None => Err (SqlError QueryReturnedNoRows) end.

Lemma one_row_Ok {A} (o : option A) a : one_row o = Ok a <-> o = Some a.
Proof. destruct o; unfold one_row; split; intros; simplify_eq; done. Qed.

(** ** Arguments *)
Definition checked_end (offset len : Z) : res Z :=
  if len =? 0 then Err (InvalidRange "zero length")
  else if offset + len >? u64_max then Err (InvalidRange "offset + length overflows")
  else if offset + len >? i64_max then Err (InvalidRange "range exceeds i64")
  else Ok (offset + len).

Definition as_i64 (v : Z) (what : string) : res Z :=
  if v >? i64_max then Err (InvalidRange what) else Ok v.

(** ** Shared queries *)
Record ExtentRow := Row {
  logical_offset : Z; row_len : Z; physical_offset : Z;
  generation : Z; row_state : ext_state }.

Definition row_of (lo : Z) (e : extent) : ExtentRow :=
  Row lo (e_len e) (e_phys e) (e_gen e) (e_state e).
Definition cols_of (r : ExtentRow) : extent :=
  Extent (row_len r) (physical_offset r) (generation r) (row_state r).
Definition row_end (r : ExtentRow) : Z := logical_offset r + row_len r.

(** The rows of one file, ORDER BY logical_offset; every extents query of
    the module is a restriction of it. *)
Definition file_rows (d : db) (v : string) (fid : Z) : list ExtentRow :=
  select (fun k e => if bool_decide (k.1 = (v, fid)) then Some (row_of k.2 e) else None)
    (by_key logical_offset) (extents d).

Definition overlapping_extents (d : db) (v : string) (file_id start end_ : Z)
    : list ExtentRow :=
  filter (fun r => logical_offset r < end_ /\ row_end r > start)
    (file_rows d v (wrap_i64 file_id)).

(** ORDER BY logical_offset DESC LIMIT 1 / ASC LIMIT 1. *)
Definition last_row_before (d : db) (v : string) (fid x : Z) : option ExtentRow :=
  last (filter (fun r => logical_offset r < x) (file_rows d v fid)).
Definition first_row_from (d : db) (v : string) (fid x : Z) : option ExtentRow :=
  head (filter (fun r => x <= logical_offset r) (file_rows d v fid)).

(** The client ids of the unfenced grant rows on one extent. *)
Definition unfenced_on (d : db) (v : string) (fid lo : Z) : list Z :=
  select (fun k g => if bool_decide (k.1 = (v, fid, lo) /\ g_fenced g = false)
                     then Some k.2 else None) Z.le (extent_grants d).

Definition live_unfenced_holders (d : db) (v : string) (file_id : Z)
    (rows : list ExtentRow) (except : option Z) : list Z :=
  merge_sort Z.le (elements (list_to_set (C := gset Z)
    (filter (fun id => Some id <> except)
       (rows ≫= fun e =>
          wrap_u64 <$> unfenced_on d v (wrap_i64 file_id) (logical_offset e))))).

(** *** What the queries return *)
Lemma elem_of_file_rows d v fid r :
  r ∈ file_rows d v fid <-> extents d !! (v, fid, logical_offset r) = Some (cols_of r).
Proof.
  unfold file_rows. rewrite elem_of_select. split.
  - intros ([[v' f'] lo] & e & Hk & Hg). case_bool_decide; simplify_eq/=.
    by destruct e.
  - intros Hk. exists (v, fid, logical_offset r), (cols_of r). split; [done|].
    rewrite bool_decide_eq_true_2 by done. by destruct r.
Qed.

Lemma row_of_elem d v fid lo e :
  extents d !! (v, fid, lo) = Some e -> row_of lo e ∈ file_rows d v fid.
Proof. intros He. apply elem_of_file_rows. simpl. rewrite He. by destruct e. Qed.

Lemma file_rows_sorted d v fid : key_sorted logical_offset (file_rows d v fid).
Proof.
  unfold file_rows.
  assert (Hs := select_sorted
    (fun k e => if bool_decide (k.1 = (v, fid)) then Some (row_of k.2 e) else None)
    (by_key logical_offset) (extents d)).
  assert (Hn : NoDup (file_rows d v fid)).
  { apply select_NoDup. intros [[v1 f1] l1] e1 [[v2 f2] l2] e2 b Hk1 Hk2 Hg1 Hg2.
    simpl in Hg1, Hg2. repeat case_bool_decide; simplify_eq. unfold row_of in *.
    congruence. }
  assert (Hel : forall r, r ∈ file_rows d v fid ->
            extents d !! (v, fid, logical_offset r) = Some (cols_of r)).
  { intros r. by rewrite elem_of_file_rows. }
  unfold file_rows in Hn, Hel. revert Hs Hn Hel.
  generalize (select (fun k e => if bool_decide (k.1 = (v, fid)) then Some (row_of k.2 e)
    else None) (by_key logical_offset) (extents d)) as l.
  induction 1 as [|r l Hs IH Hr]; intros Hn Hel; [constructor|].
  apply NoDup_cons in Hn as [Hnr Hn]. constructor.
  - apply IH; [done|]. intros r' Hr'. apply Hel. set_solver.
  - rewrite Forall_forall in Hr |- *. intros r' Hr'. specialize (Hr r' Hr').
    unfold by_key in Hr. apply Z.le_neq. split; [done|]. intros Heq. apply Hnr.
    assert (H1 := Hel r ltac:(set_solver)). assert (H2 := Hel r' ltac:(set_solver)).
    rewrite Heq in H1. rewrite H1 in H2. destruct r, r'; simplify_eq/=. done.
Qed.

Lemma elem_of_overlapping d v f s t r :
  r ∈ overlapping_extents d v f s t <->
    (logical_offset r < t /\ row_end r > s) /\
    extents d !! (v, wrap_i64 f, logical_offset r) = Some (cols_of r).
Proof. unfold overlapping_extents. by rewrite list_elem_of_filter, elem_of_file_rows. Qed.

Lemma overlapping_sorted d v f s t :
  key_sorted logical_offset (overlapping_extents d v f s t).
Proof. apply StronglySorted_filter, file_rows_sorted. Qed.

Lemma last_row_before_Some d v fid x r :
  last_row_before d v fid x = Some r ->
    extents d !! (v, fid, logical_offset r) = Some (cols_of r) /\ logical_offset r < x /\
    forall lo e, extents d !! (v, fid, lo) = Some e -> lo < x -> lo <= logical_offset r.
Proof.
  unfold last_row_before. intros Hl.
  apply key_sorted_last with (key := logical_offset) in Hl as [Hin Hmax];
    [|apply StronglySorted_filter, file_rows_sorted].
  apply list_elem_of_filter in Hin as [? Hin%elem_of_file_rows].
  repeat split; [done..|]. intros lo e He Hx.
  apply (Hmax (row_of lo e)). apply list_elem_of_filter.
  split; [done|]. by apply row_of_elem.
Qed.

Lemma last_row_before_None d v fid x :
  last_row_before d v fid x = None ->
  forall lo e, extents d !! (v, fid, lo) = Some e -> x <= lo.
Proof.
  unfold last_row_before. rewrite last_None. intros Hn lo e He.
  destruct (decide (lo < x)) as [Hlt|]; [|lia].
  assert (row_of lo e ∈ filter (fun r => logical_offset r < x) (file_rows d v fid)) as Hin.
  { apply list_elem_of_filter. split; [done|]. by apply row_of_elem. }
  rewrite Hn in Hin. set_solver.
Qed.

Lemma first_row_from_Some d v fid x r :
  first_row_from d v fid x = Some r ->
    extents d !! (v, fid, logical_offset r) = Some (cols_of r) /\ x <= logical_offset r /\
    forall lo e, extents d !! (v, fid, lo) = Some e -> x <= lo -> logical_offset r <= lo.
Proof.
  unfold first_row_from. intros Hl.
  apply key_sorted_head with (key := logical_offset) in Hl as [Hin Hmin];
    [|apply StronglySorted_filter, file_rows_sorted].
  apply list_elem_of_filter in Hin as [? Hin%elem_of_file_rows].
  repeat split; [done..|]. intros lo e He Hx.
  apply (Hmin (row_of lo e)). apply list_elem_of_filter.
  split; [done|]. by apply row_of_elem.
Qed.

Lemma first_row_from_None d v fid x :
  first_row_from d v fid x = None ->
  forall lo e, extents d !! (v, fid, lo) = Some e -> lo < x.
Proof.
  unfold first_row_from. intros Hn lo e He.
  destruct (decide (x <= lo)) as [Hle|]; [|lia].
  assert (row_of lo e ∈ filter (fun r => x <= logical_offset r) (file_rows d v fid)) as Hin.
  { apply list_elem_of_filter. split; [done|]. by apply row_of_elem. }
  destruct (filter _ _); simplify_eq/=. set_solver.
Qed.

Lemma elem_of_unfenced_on d v fid lo c :
  c ∈ unfenced_on d v fid lo <->
    exists g, extent_grants d !! (v, fid, lo, c) = Some g /\ g_fenced g = false.
Proof.
  unfold unfenced_on. rewrite elem_of_select. split.
  - intros ([[[v' f'] l'] c'] & g & Hk & Hg). case_bool_decide; simplify_eq/=.
    destruct_and!; simplify_eq/=. eauto.
  - intros (g & Hk & Hf). exists (v, fid, lo, c), g. split; [done|].
    by rewrite bool_decide_eq_true_2.
Qed.

(** A holder list is empty exactly when every grant row on the listed
    extents is fenced or belongs to the excepted client. *)
Lemma holders_nil d v f rows except :
  live_unfenced_holders d v f rows except = [] <->
  forall r c g, r ∈ rows ->
    extent_grants d !! (v, wrap_i64 f, logical_offset r, c) = Some g ->
    g_fenced g = true \/ Some (wrap_u64 c) = except.
Proof.
  unfold live_unfenced_holders. set (l := rows ≫= _).
  assert (Hl : forall id, id ∈ l <-> exists r c g, r ∈ rows /\ id = wrap_u64 c /\
    extent_grants d !! (v, wrap_i64 f, logical_offset r, c) = Some g /\ g_fenced g = false).
  { intros id. unfold l. rewrite list_elem_of_bind. setoid_rewrite list_elem_of_fmap.
    setoid_rewrite elem_of_unfenced_on. split.
    - intros (r & (c & -> & g & Hk & Hf) & Hr). eauto 10.
    - intros (r & c & g & Hr & -> & Hk & Hf). eauto 10. }
  clearbody l. split.
  - intros Hn r c g Hr Hk. destruct (g_fenced g) eqn:Hf; [by left|right].
    destruct (decide (Some (wrap_u64 c) = except)) as [|Hne]; [done|exfalso].
    apply (not_elem_of_nil (wrap_u64 c)). rewrite <- Hn, merge_sort_Permutation.
    rewrite elem_of_elements, elem_of_list_to_set, list_elem_of_filter, Hl. eauto 10.
  - intros Hall. apply elem_of_nil_inv. intros id.
    rewrite merge_sort_Permutation, elem_of_elements, elem_of_list_to_set,
      list_elem_of_filter, Hl.
    intros (Hne & r & c & g & Hr & -> & Hk & Hf).
    destruct (Hall r c g Hr Hk); congruence.
Qed.

(** The holders named are exactly the clients with an unfenced row on one
    of the listed extents. *)
Lemma elem_of_holders d v f rows except id :
  id ∈ live_unfenced_holders d v f rows except <->
  Some id <> except /\ exists r c g, r ∈ rows /\ id = wrap_u64 c /\
    extent_grants d !! (v, wrap_i64 f, logical_offset r, c) = Some g /\ g_fenced g = false.
Proof.
  unfold live_unfenced_holders.
  rewrite merge_sort_Permutation, elem_of_elements, elem_of_list_to_set, list_elem_of_filter,
    list_elem_of_bind. setoid_rewrite list_elem_of_fmap. setoid_rewrite elem_of_unfenced_on.
  apply and_iff_compat_l. split.
  - intros (r & (c & -> & g & Hk & Hf) & Hr). eauto 10.
  - intros (r & c & g & Hr & -> & Hk & Hf). eauto 10.
Qed.
