(* ===== verification/ExtentVerify.v ===== *)
(** The two in-transaction verifiers of extent_alloc.rs: the full one
    ([verify_volume_invariants_conn], sorted scans of the whole volume) and
    the windowed one ([verify_window_invariants_conn], index probes around
    the touched rows), the invariants they check stated on the tables, and
    the theorems that relate them. *)

From S2P Require Import Prelude Sql Tables.

(** ** The full verifier *)
Definition lex3 : relation (Z * Z * Z) := fun '(a1, b1, c1) '(a2, b2, c2) =>
  a1 < a2 \/ (a1 = a2 /\ (b1 < b2 \/ (b1 = b2 /\ c1 <= c2))).
#[global] Instance lex3_dec : RelDecision lex3.
Proof. intros [[a1 b1] c1] [[a2 b2] c2]. unfold lex3. apply _. Defined.
#[global] Instance lex3_trans : Transitive lex3.
Proof. intros [[? ?] ?] [[? ?] ?] [[? ?] ?]. unfold lex3. lia. Qed.
#[global] Instance lex3_total : Total lex3.
Proof. intros [[? ?] ?] [[? ?] ?]. unfold lex3. lia. Qed.

Definition in_volume (v : string) (k : string * Z * Z) : bool := bool_decide (k.1.1 = v).

(** SELECT file_id, logical_offset, length .. ORDER BY file_id, logical_offset. *)
Definition vol_rows (d : db) (v : string) : list (Z * Z * Z) :=
  select (fun k e => if in_volume v k then Some (k.1.2, k.2, e_len e) else None)
    lex3 (extents d).

(** The three homes a physical range can live in, tagged, then
    [sort_unstable]; the tags rank as their names sort. *)
Definition phys_rows (d : db) (v : string) : list (Z * Z * Z) :=
  merge_sort lex3
    (select (fun k e => if in_volume v k then Some (e_phys e, e_len e, 0) else None)
       lex3 (extents d) ++
     select (fun k r => if bool_decide (k.1 = v) then Some (k.2, fr_len r, 1) else None)
       lex3 (extent_free d) ++
     select (fun k r => if bool_decide (k.1 = v) then Some (k.2, q_len r, 2) else None)
       lex3 (extent_quarantine d)).

(** The sums of the scans are i64 additions, which wrap in a release build. *)
Definition logical_bad (x y : Z * Z * Z) : bool :=
  let '(fa, oa, la) := x in let '(fb, ob, _) := y in
  (fa =? fb) && (wrap_i64 (oa + la) >? ob).
Definition phys_bad (x y : Z * Z * Z) : bool :=
  let '(pa, la, _) := x in let '(pb, _, _) := y in wrap_i64 (pa + la) >? pb.

Definition count_extents (d : db) (v : string) : Z :=
  count_where (fun k _ => in_volume v k) (extents d).

Definition orphan_grant (d : db) (v : string) (k : string * Z * Z * Z) (_ : grant_row) : bool :=
  bool_decide (k.1.1.1 = v) &&
  match extents d !! k.1 with Some _ => false | None => true end.

Definition stale_grant (d : db) (v : string) (k : string * Z * Z * Z) (g : grant_row) : bool :=
  bool_decide (k.1.1.1 = v) && negb (g_fenced g) &&
  match extents d !! k.1 with Some e => negb (g_gen g =? e_gen e) | None => false end.

Definition is_nil {A} (l : list A) : bool := match l with [] => true | _ => false end.

Definition verify_volume_invariants_conn (d : db) (v : string) : res unit :=
  fail_if (any_window logical_bad (vol_rows d v)) (Corruption LogicalOverlap) ≫= fun _ =>
  let phys := phys_rows d v in
  fail_if (any_window phys_bad phys) (Corruption PhysicalOverlap) ≫= fun _ =>
  match volume_alloc d !! v with
  | Some a =>
      fail_if (next_free a >? size_ceiling a) (Corruption WatermarkBeyondCeiling) ≫= fun _ =>
      fail_if (negb (count_extents d v =? extent_rows a)) (Corruption CounterDrift) ≫= fun _ =>
      fail_if (existsb (fun '(p, l, _) => wrap_i64 (p + l) >? next_free a) phys)
        (Corruption BeyondWatermark)
  | None => fail_if (negb (is_nil phys)) (Corruption NoArena)
  end ≫= fun _ =>
  fail_if (exists_where (orphan_grant d v) (extent_grants d)) (Corruption OrphanGrants)
  ≫= fun _ =>
  fail_if (exists_where (stale_grant d v) (extent_grants d)) (Corruption StaleGrants).

(** ** The windowed verifier (release build: the full re-check that
    follows it is compiled only into test and debug builds) *)
Record TouchedExtent := Touched {
  tc_file : Z; tc_off : Z; tc_len : Z; tc_phys : Z }.

Definition touch_row (fid : Z) (r : ExtentRow) : TouchedExtent :=
  Touched fid (logical_offset r) (row_len r) (physical_offset r).

(** The overlap test of the probes, evaluated by SQLite, whose integer
    sums do not wrap. *)
Definition overlaps (p l lo hi : Z) : bool := (p <? hi) && (p + l >? lo).

Definition verify_touched (d : db) (v : string) (nf : Z) (t : TouchedExtent) : res unit :=
  fail_if (match last_row_before d v (tc_file t) (tc_off t) with
           | Some p => wrap_i64 (row_end p) >? tc_off t
           | None => false end) (Corruption LogicalOverlap) ≫= fun _ =>
  fail_if (match first_row_from d v (tc_file t) (tc_off t + 1) with
           | Some n => wrap_i64 (tc_off t + tc_len t) >? logical_offset n
           | None => false end) (Corruption LogicalOverlap) ≫= fun _ =>
  let p_end := wrap_i64 (tc_phys t + tc_len t) in
  fail_if (exists_where (fun k e => in_volume v k && overlaps (e_phys e) (e_len e) (tc_phys t) p_end
             && negb (bool_decide (k.1.2 = tc_file t /\ k.2 = tc_off t))) (extents d))
    (Corruption PhysicalOverlap) ≫= fun _ =>
  fail_if (exists_where (fun k r => bool_decide (k.1 = v) && overlaps k.2 (fr_len r) (tc_phys t) p_end)
             (extent_free d)) (Corruption PhysicalOverlap) ≫= fun _ =>
  fail_if (exists_where (fun k r => bool_decide (k.1 = v) && overlaps k.2 (q_len r) (tc_phys t) p_end)
             (extent_quarantine d)) (Corruption PhysicalOverlap) ≫= fun _ =>
  fail_if (p_end >? nf) (Corruption BeyondWatermark) ≫= fun _ =>
  fail_if (exists_where (fun k g => bool_decide (k.1.1.2 = tc_file t /\ k.1.2 = tc_off t)
             && stale_grant d v k g) (extent_grants d)) (Corruption StaleGrants).

Fixpoint verify_all_touched (d : db) (v : string) (nf : Z) (ts : list TouchedExtent) : res unit :=
  match ts with
  | [] => Ok tt
  | t :: ts => verify_touched d v nf t ≫= fun _ => verify_all_touched d v nf ts
  end.

Definition verify_window_invariants_conn (d : db) (v : string) (ts : list TouchedExtent)
    : res unit :=
  match ts with
  | [] => Ok tt
  | _ => a ← one_row (volume_alloc d !! v); verify_all_touched d v (next_free a) ts
  end.

(** ** The invariants, on the tables *)
Inductive home := HExt (fid lo : Z) | HFree (po : Z) | HQuar (po : Z).
#[global] Instance home_eq_dec : EqDecision home.
Proof. solve_decision. Defined.

Definition home_at (d : db) (v : string) (x : home) : option (Z * Z) :=
  match x with
  | HExt f lo => (fun e => (e_phys e, e_len e)) <$> extents d !! (v, f, lo)
  | HFree po => (fun r => (po, fr_len r)) <$> extent_free d !! (v, po)
  | HQuar po => (fun r => (po, q_len r)) <$> extent_quarantine d !! (v, po)
  end.

(** The ranges the rows of a sane volume have: positive lengths, and ends a
    signed 64-bit integer holds. *)
Definition ext_wf (d : db) (v : string) : Prop := forall f lo e,
  extents d !! (v, f, lo) = Some e ->
  is_i64 f /\ 0 <= lo /\ 0 < e_len e /\ lo + e_len e <= i64_max /\ 0 <= e_phys e.
Definition homes_wf (d : db) (v : string) : Prop := forall x p l,
  home_at d v x = Some (p, l) -> 0 <= p /\ 0 < l /\ p + l <= i64_max.
Definition logical_disjoint (d : db) (v : string) : Prop := forall f lo1 lo2 e1 e2,
  extents d !! (v, f, lo1) = Some e1 -> extents d !! (v, f, lo2) = Some e2 ->
  lo1 < lo2 -> lo1 + e_len e1 <= lo2.
Definition phys_disjoint (d : db) (v : string) : Prop := forall x y p l p' l',
  home_at d v x = Some (p, l) -> home_at d v y = Some (p', l') -> x <> y ->
  p + l <= p' \/ p' + l' <= p.
Definition below_watermark (d : db) (v : string) : Prop := forall x p l,
  home_at d v x = Some (p, l) ->
  exists a, volume_alloc d !! v = Some a /\ p + l <= next_free a.
Definition below_ceiling (d : db) (v : string) : Prop := forall a,
  volume_alloc d !! v = Some a -> next_free a <= size_ceiling a.
Definition counter_ok (d : db) (v : string) : Prop := forall a,
  volume_alloc d !! v = Some a -> extent_rows a = count_extents d v.
Definition grants_ok (d : db) (v : string) : Prop := forall f lo c g,
  extent_grants d !! (v, f, lo, c) = Some g ->
  exists e, extents d !! (v, f, lo) = Some e /\ (g_fenced g = false -> g_gen g = e_gen e).

Record verified (d : db) (v : string) : Prop := {
  ver_logical : logical_disjoint d v;
  ver_phys : phys_disjoint d v;
  ver_water : below_watermark d v;
  ver_ceiling : below_ceiling d v;
  ver_counter : counter_ok d v;
  ver_grants : grants_ok d v }.

(** ** The full verifier decides the invariants *)
Lemma elem_of_vol_rows d v f lo l :
  (f, lo, l) ∈ vol_rows d v <-> exists e, extents d !! (v, f, lo) = Some e /\ e_len e = l.
Proof.
  unfold vol_rows, in_volume. rewrite elem_of_select. split.
  - intros ([[v' f'] lo'] & e & Hk & Hg). simpl in Hg.
    case_bool_decide; simplify_eq. eauto.
  - intros (e & Hk & <-). exists (v, f, lo), e. split; [done|]. simpl.
    by rewrite bool_decide_eq_true_2.
Qed.

Lemma vol_rows_NoDup d v : NoDup (vol_rows d v).
Proof.
  apply select_NoDup. unfold in_volume.
  intros [[v1 f1] l1] e1 [[v2 f2] l2] e2 b _ _ Hg1 Hg2. simpl in Hg1, Hg2.
  repeat case_bool_decide; simplify_eq. congruence.
Qed.

Lemma vol_rows_sorted d v : StronglySorted lex3 (vol_rows d v).
Proof. apply select_sorted; apply _. Qed.

Definition logical_good : relation (Z * Z * Z) := fun '(f1, o1, l1) '(f2, o2, _) =>
  f1 < f2 \/ (f1 = f2 /\ o1 + l1 <= o2).
Definition phys_good : relation (Z * Z * Z) := fun '(p1, l1, _) '(p2, _, _) => p1 + l1 <= p2.

(** A range whose end an i64 holds, given its start and its length. *)
Definition range_fits (p l : Z) : Prop := 0 <= p /\ 0 < l /\ p + l <= i64_max.

Lemma range_end_wraps p l : range_fits p l -> wrap_i64 (p + l) = p + l.
Proof. intros (? & ? & ?). apply wrap_i64_id. unfold is_i64. lia. Qed.

Lemma logical_bad_spec x y :
  range_fits x.1.2 x.2 -> lex3 x y -> logical_bad x y = false <-> logical_good x y.
Proof.
  destruct x as [[f1 o1] l1], y as [[f2 o2] l2]. unfold lex3, logical_bad, logical_good.
  simpl. intros Hx HL. rewrite range_end_wraps by done. rewrite andb_false_iff. split.
  - intros [?|?]; bool_Z; lia.
  - destruct (Z.eqb_spec f1 f2); [right|left; done].
    rewrite Z.gtb_ltb. apply Z.ltb_ge. lia.
Qed.

Lemma phys_bad_spec x y :
  range_fits x.1.1 x.1.2 -> phys_bad x y = false <-> phys_good x y.
Proof.
  destruct x as [[p1 l1] t1], y as [[p2 l2] t2]. unfold phys_bad, phys_good.
  simpl. intros Hx. rewrite range_end_wraps by done.
  rewrite Z.gtb_ltb, Z.ltb_ge. done.
Qed.

Lemma logical_windows d v :
  ext_wf d v -> any_window logical_bad (vol_rows d v) = false <-> logical_disjoint d v.
Proof.
  intros Hwf.
  assert (Hpos : Forall (fun t => range_fits t.1.2 t.2) (vol_rows d v)).
  { apply Forall_forall. intros [[f lo] l] (e & He & <-)%elem_of_vol_rows.
    apply Hwf in He. unfold range_fits. simpl. lia. }
  rewrite (any_window_false logical_bad (fun t => range_fits t.1.2 t.2) lex3 logical_good);
    [|apply logical_bad_spec| |done|apply vol_rows_sorted].
  2:{ intros [[? ?] ?] [[? ?] ?] [[? ?] ?]. unfold logical_good, range_fits. simpl. lia. }
  split.
  - intros Hs f lo1 lo2 e1 e2 H1 H2 Hlt.
    assert (Hp := sorted_pair _ _ (f, lo1, e_len e1) (f, lo2, e_len e2) Hs).
    rewrite !elem_of_vol_rows in Hp. unfold logical_good in Hp.
    apply Hwf in H2 as ?. destruct Hp; eauto; try lia.
    intros Heq. simplify_eq. lia.
  - intros Hd. apply sorted_impl with (L := lex3); [apply vol_rows_sorted|apply vol_rows_NoDup|].
    intros [[f1 o1] l1] [[f2 o2] l2] (e1 & H1 & <-)%elem_of_vol_rows
      (e2 & H2 & <-)%elem_of_vol_rows Hne HL.
    unfold lex3, logical_good in *. destruct (decide (f1 = f2)) as [<-|]; [|lia].
    right. split; [done|]. destruct (decide (o1 = o2)) as [<-|].
    + rewrite H1 in H2. congruence.
    + eapply Hd; eauto. lia.
Qed.

(** The physical ranges of a volume, one per home. *)
Definition ext_home (v : string) (k : string * Z * Z) : option home :=
  if in_volume v k then Some (HExt k.1.2 k.2) else None.
Definition free_home (v : string) (k : string * Z) : option home :=
  if bool_decide (k.1 = v) then Some (HFree k.2) else None.
Definition quar_home (v : string) (k : string * Z) : option home :=
  if bool_decide (k.1 = v) then Some (HQuar k.2) else None.
Definition home_list (d : db) (v : string) : list home :=
  omap (fun kv => ext_home v kv.1) (map_to_list (extents d)) ++
  omap (fun kv => free_home v kv.1) (map_to_list (extent_free d)) ++
  omap (fun kv => quar_home v kv.1) (map_to_list (extent_quarantine d)).

Definition home_tag (x : home) : Z :=
  match x with HExt _ _ => 0 | HFree _ => 1 | HQuar _ => 2 end.
Definition home_triple (d : db) (v : string) (x : home) : Z * Z * Z :=
  match home_at d v x with Some (p, l) => (p, l, home_tag x) | None => (0, 0, 0) end.

Lemma elem_of_home_list d v x : x ∈ home_list d v <-> is_Some (home_at d v x).
Proof.
  unfold home_list, ext_home, free_home, quar_home, in_volume, is_Some. rewrite !elem_of_app, !list_elem_of_omap. split.
  - intros [H|[H|H]]; destruct H as ([k a] & Hk & Hx); apply elem_of_map_to_list in Hk;
      simpl in Hx; case_bool_decide; simplify_eq/=.
    + destruct k as [[v f] lo]; simpl in *. rewrite Hk. eauto.
    + destruct k as [v po]; simpl in *. rewrite Hk. eauto.
    + destruct k as [v po]; simpl in *. rewrite Hk. eauto.
  - intros [[p l] Hx]. destruct x as [f lo|po|po]; simpl in Hx;
      apply fmap_Some in Hx as (a & Ha & _); [left|right; left|right; right];
      eexists (_, a); rewrite elem_of_map_to_list; (split; [exact Ha|]); simpl;
      by rewrite bool_decide_eq_true_2.
Qed.

Lemma omap_NoDup_keys `{Countable K} {A B} (m : gmap K A) (h : K -> option B) :
  (forall k1 k2 b, h k1 = Some b -> h k2 = Some b -> k1 = k2) ->
  NoDup (omap (fun kv : K * A => h kv.1) (map_to_list m)).
Proof.
  intros Hinj. pose proof (NoDup_fst_map_to_list m) as Hn. revert Hn.
  generalize (map_to_list m) as l. induction l as [|[k a] l IH]; simpl; intros Hn; [constructor|].
  apply NoDup_cons in Hn as [Hk Hn]. specialize (IH Hn).
  destruct (h k) as [b|] eqn:Hb; [|done]. constructor; [|done].
  rewrite list_elem_of_omap. intros ([k' a'] & Hin & Hb'). simpl in Hb'.
  rewrite (Hinj _ _ _ Hb Hb') in Hk. apply Hk, list_elem_of_fmap. by exists (k', a').
Qed.

Lemma home_list_NoDup d v : NoDup (home_list d v).
Proof.
  unfold home_list. rewrite !NoDup_app.
  setoid_rewrite elem_of_app. setoid_rewrite list_elem_of_omap.
  assert (forall k1 k2 b, ext_home v k1 = Some b -> ext_home v k2 = Some b -> k1 = k2).
  { intros [[? ?] ?] [[? ?] ?] b. unfold ext_home, in_volume; simpl.
    repeat case_bool_decide; intros; simplify_eq. done. }
  assert (forall k1 k2 b, free_home v k1 = Some b -> free_home v k2 = Some b -> k1 = k2).
  { intros [? ?] [? ?] b. unfold free_home; simpl.
    repeat case_bool_decide; intros; simplify_eq. done. }
  assert (forall k1 k2 b, quar_home v k1 = Some b -> quar_home v k2 = Some b -> k1 = k2).
  { intros [? ?] [? ?] b. unfold quar_home; simpl.
    repeat case_bool_decide; intros; simplify_eq. done. }
  repeat split; try (by apply omap_NoDup_keys).
  - intros x ([k a] & _ & Hx) [([k' a'] & _ & Hx')|([k' a'] & _ & Hx')];
      unfold ext_home, free_home, quar_home, in_volume in *; simpl in *;
      repeat case_bool_decide; simplify_eq.
  - intros x ([k a] & _ & Hx) ([k' a'] & _ & Hx');
      unfold free_home, quar_home in *; simpl in *; repeat case_bool_decide; simplify_eq.
Qed.

Lemma NoDup_fmap_inj_on {A B} (f : A -> B) (l : list A) x y :
  NoDup (f <$> l) -> x ∈ l -> y ∈ l -> f x = f y -> x = y.
Proof.
  induction l as [|z l IH]; [by rewrite elem_of_nil|]. rewrite fmap_cons, NoDup_cons.
  intros [Hz Hn] [->|Hx]%elem_of_cons [->|Hy]%elem_of_cons Heq; [done| | |by apply IH].
  - destruct Hz. rewrite Heq. apply list_elem_of_fmap. eauto.
  - destruct Hz. rewrite <- Heq. apply list_elem_of_fmap. eauto.
Qed.

Lemma omap_fmap_in {A B C} (g : A -> option C) (h : A -> option B) (T : B -> C) (l : list A) :
  (forall a, a ∈ l -> g a = T <$> h a) -> omap g l = T <$> omap h l.
Proof.
  induction l as [|a l IH]; intros Hg; [done|]. simpl.
  rewrite (Hg a) by (by left).
  assert (omap g l = T <$> omap h l) as IHl by (apply IH; intros; apply Hg; by right).
  destruct (h a); simpl; [f_equal|]; exact IHl.
Qed.

Lemma phys_rows_homes d v : phys_rows d v ≡ₚ home_triple d v <$> home_list d v.
Proof.
  unfold phys_rows, home_list. rewrite merge_sort_Permutation, !fmap_app.
  unfold select. rewrite !merge_sort_Permutation.
  apply Permutation_app; [|apply Permutation_app]; apply reflexive_eq, omap_fmap_in;
    intros [k a] Hin; apply elem_of_map_to_list in Hin;
    unfold ext_home, free_home, quar_home, in_volume; simpl; case_bool_decide; simpl; try done;
    f_equal; unfold home_triple; simpl.
  - destruct k as [[v' f] lo]; simplify_eq/=. by rewrite Hin.
  - destruct k as [v' po]; simplify_eq/=. by rewrite Hin.
  - destruct k as [v' po]; simplify_eq/=. by rewrite Hin.
Qed.

Lemma elem_of_phys_rows d v t :
  t ∈ phys_rows d v <-> exists x p l, home_at d v x = Some (p, l) /\ t = (p, l, home_tag x).
Proof.
  rewrite phys_rows_homes, list_elem_of_fmap. setoid_rewrite elem_of_home_list.
  unfold home_triple. split.
  - intros (x & -> & [[p l] Hx]). rewrite Hx. eauto 10.
  - intros (x & p & l & Hx & ->). exists x. rewrite Hx. eauto.
Qed.

Lemma phys_windows d v :
  homes_wf d v -> any_window phys_bad (phys_rows d v) = false <-> phys_disjoint d v.
Proof.
  intros Hwf.
  assert (Hpos : Forall (fun t => range_fits t.1.1 t.1.2) (phys_rows d v)).
  { apply Forall_forall. intros t (x & p & l & Hx & ->)%elem_of_phys_rows.
    by apply Hwf in Hx. }
  assert (Hsort : StronglySorted lex3 (phys_rows d v)).
  { apply StronglySorted_merge_sort; apply _. }
  rewrite (any_window_false phys_bad (fun t => range_fits t.1.1 t.1.2) lex3 phys_good);
    [|intros; by apply phys_bad_spec| |done|done].
  2:{ intros [[? ?] ?] [[? ?] ?] [[? ?] ?]. unfold phys_good, range_fits. simpl. lia. }
  split.
  - intros Hs x y p l p' l' Hx Hy Hne.
    assert (Hn : NoDup (phys_rows d v)).
    { apply (sorted_irrefl_NoDup _ _ Hs). intros [[a b] c] Hin.
      rewrite Forall_forall in Hpos. specialize (Hpos _ Hin). unfold range_fits in Hpos.
      simpl in *. lia. }
    rewrite phys_rows_homes in Hn.
    assert (home_triple d v x <> home_triple d v y) as Hnt.
    { intros Heq. apply Hne. eapply (NoDup_fmap_inj_on _ _ _ _ Hn); [..|done];
        apply elem_of_home_list; eauto. }
    assert (phys_good (home_triple d v x) (home_triple d v y) \/
            phys_good (home_triple d v y) (home_triple d v x)) as HR.
    { apply (sorted_pair _ _ _ _ Hs); [| |done];
        apply elem_of_phys_rows; unfold home_triple; rewrite ?Hx, ?Hy; eauto 10. }
    unfold home_triple in HR; rewrite Hx, Hy in HR; unfold phys_good in HR;
      simpl in HR; lia.
  - intros Hd.
    assert (Hn : NoDup (phys_rows d v)).
    { rewrite phys_rows_homes. apply NoDup_fmap_2_strong; [|apply home_list_NoDup].
      intros x y [[p l] Hx]%elem_of_home_list [[p' l'] Hy]%elem_of_home_list Heq.
      destruct (decide (x = y)) as [|Hne]; [done|exfalso].
      pose proof (Hd x y p l p' l' Hx Hy Hne). apply Hwf in Hx as ?. apply Hwf in Hy as ?.
      unfold home_triple in Heq. rewrite Hx, Hy in Heq. simplify_eq. lia. }
    apply sorted_impl with (L := lex3); [done|done|].
    intros t1 t2 (x & p & l & Hx & ->)%elem_of_phys_rows
      (y & p' & l' & Hy & ->)%elem_of_phys_rows Hne HL.
    unfold lex3, phys_good in *.
    assert (x <> y) as Hxy by (intros ->; rewrite Hx in Hy; congruence).
    pose proof (Hd x y p l p' l' Hx Hy Hxy). apply Hwf in Hx as ?. apply Hwf in Hy as ?. lia.
Qed.

Lemma bind_unit_Ok {E A} (m : result E unit) (k : unit -> result E A) a :
  m ≫= k = Ok a <-> m = Ok tt /\ k tt = Ok a.
Proof. rewrite bind_Ok. split; [intros ([] & ? & ?); done|intros []; eauto]. Qed.

Lemma arena_check d v :
  homes_wf d v ->
  (match volume_alloc d !! v with
   | Some a =>
       fail_if (next_free a >? size_ceiling a) (Corruption WatermarkBeyondCeiling) ≫= fun _ =>
       fail_if (negb (count_extents d v =? extent_rows a)) (Corruption CounterDrift) ≫= fun _ =>
       fail_if (existsb (fun '(p, l, _) => wrap_i64 (p + l) >? next_free a) (phys_rows d v))
         (Corruption BeyondWatermark)
   | None => fail_if (negb (is_nil (phys_rows d v))) (Corruption NoArena)
   end = Ok tt) <-> below_watermark d v /\ below_ceiling d v /\ counter_ok d v.
Proof.
  intros Hwf. unfold below_watermark, below_ceiling, counter_ok.
  destruct (volume_alloc d !! v) as [a|] eqn:Ha.
  - rewrite !fail_if_bind, fail_if_Ok. split.
    + intros (Hc & Hn & He). bool_Z. repeat split.
      * intros x p l Hx. exists a. split; [done|].
        assert (Hin : (p, l, home_tag x) ∈ phys_rows d v) by (apply elem_of_phys_rows; eauto 10).
        destruct (Z.le_gt_cases (p + l) (next_free a)) as [|Hgt]; [done|exfalso].
        assert (existsb (fun '(p, l, _) => wrap_i64 (p + l) >? next_free a) (phys_rows d v) = true).
        { apply existsb_exists. exists (p, l, home_tag x). rewrite <- list_elem_of_In.
          split; [done|]. rewrite range_end_wraps by (by apply Hwf in Hx).
          rewrite Z.gtb_ltb. by apply Z.ltb_lt. }
        congruence.
      * intros a' [= <-]. done.
      * intros a' [= <-]. done.
    + intros (Hw & Hc & Hn). specialize (Hc a eq_refl). specialize (Hn a eq_refl). repeat split.
      * rewrite Z.gtb_ltb. by apply Z.ltb_ge.
      * rewrite Hn, Z.eqb_refl. done.
      * apply not_true_is_false. rewrite existsb_exists. intros ([[p l] t] & Hin & Hgt).
        apply list_elem_of_In, elem_of_phys_rows in Hin as (x & p' & l' & Hx & [= -> -> ->]).
        rewrite range_end_wraps in Hgt by (by apply Hwf in Hx).
        destruct (Hw x p' l' Hx) as (a' & [= <-] & Hle). bool_Z. lia.
  - rewrite fail_if_Ok. split.
    + intros Hn. bool_Z. split; [|done]. intros x p l Hx.
      assert (Hin : (p, l, home_tag x) ∈ phys_rows d v) by (apply elem_of_phys_rows; eauto 10).
      destruct (phys_rows d v); [by apply elem_of_nil in Hin|done].
    + intros (Hw & _). destruct (phys_rows d v) as [|t ts] eqn:Hp; [done|exfalso].
      assert (t ∈ phys_rows d v) as (x & p & l & Hx & ->)%elem_of_phys_rows
        by (rewrite Hp; by left).
      destruct (Hw x p l Hx) as (a & [=] & _).
Qed.

Lemma grant_checks d v :
  exists_where (orphan_grant d v) (extent_grants d) = false /\
  exists_where (stale_grant d v) (extent_grants d) = false <-> grants_ok d v.
Proof.
  rewrite !exists_where_false. unfold orphan_grant, stale_grant, grants_ok. split.
  - intros [Ho Hs] f lo c g Hg. specialize (Ho _ _ Hg). specialize (Hs _ _ Hg).
    simpl in *. rewrite bool_decide_eq_true_2 in Ho, Hs by done. simpl in *.
    destruct (extents d !! (v, f, lo)) as [e|]; [|done]. exists e. split; [done|].
    intros Hf. rewrite Hf in Hs. simpl in Hs. bool_Z. done.
  - intros Hg. split; intros [[[v' f] lo] c] g Hk; simpl; case_bool_decide; simplify_eq/=; try done;
      destruct (Hg _ _ _ _ Hk) as (e & -> & He); [done|].
    destruct (g_fenced g); [done|]. simpl. rewrite He, Z.eqb_refl by done. done.
Qed.

Lemma verify_iff d v :
  ext_wf d v -> homes_wf d v ->
  verify_volume_invariants_conn d v = Ok tt <-> verified d v.
Proof.
  intros Hewf Hhwf. unfold verify_volume_invariants_conn.
  cbv zeta. rewrite !fail_if_bind, bind_unit_Ok, arena_check, fail_if_bind, fail_if_Ok,
    grant_checks, logical_windows, phys_windows by done.
  split; [intros; destruct_and!; by constructor|intros []; done].
Qed.
