(* ===== verification/FreeList.v ===== *)
(** The physical free list of a volume: [free_insert_coalescing] of
    extent_alloc.rs, and the normal form it keeps -- rows of positive length,
    pairwise disjoint and never adjacent. *)

From S2P Require Import Prelude Sql Tables.

Abbreviation free_table := (gmap (string * Z) free_row).

(** The volume's rows ORDER BY physical_offset. *)
Definition free_rows (F : free_table) (v : string) : list (Z * free_row) :=
  select (fun k r => if bool_decide (k.1 = v) then Some (k.2, r) else None) (by_key fst) F.

(** physical_offset < x ORDER BY physical_offset DESC LIMIT 1. *)
Definition free_prev (F : free_table) (v : string) (x : Z) : option (Z * free_row) :=
  last (filter (fun r => r.1 < x) (free_rows F v)).

(** length >= n ORDER BY physical_offset LIMIT 1: first fit. *)
Definition first_fit (F : free_table) (v : string) (n : Z) : option (Z * free_row) :=
  head (filter (fun r => n <= fr_len r.2) (free_rows F v)).

Definition absorb_prev (F : free_table) (v : string) (phys len gen : Z)
    : free_table * Z * Z * Z :=
  match free_prev F v phys with
  | Some (pp, pr) =>
      if pp + fr_len pr =? phys
      then (delete (v, pp) F, pp, len + fr_len pr, Z.max gen (fr_gen pr))
      else (F, phys, len, gen)
  | None => (F, phys, len, gen)
  end.

Definition absorb_next (F : free_table) (v : string) (phys len gen : Z)
    : free_table * Z * Z :=
  match F !! (v, phys + len) with
  | Some nr => (delete (v, phys + len) F, len + fr_len nr, Z.max gen (fr_gen nr))
  | None => (F, len, gen)
  end.

Definition free_insert_coalescing (F : free_table) (v : string) (phys len gen : Z)
    : result sql_error free_table :=
  let '(F, phys, len, gen) := absorb_prev F v phys len gen in
  let '(F, len, gen) := absorb_next F v phys len gen in
  insert_new (v, phys) (FreeRow len gen) F.

(** ** Queries *)
Lemma elem_of_free_rows F v po r :
  (po, r) ∈ free_rows F v <-> F !! (v, po) = Some r.
Proof.
  unfold free_rows. rewrite elem_of_select. split.
  - intros ([v' po'] & r' & Hk & Hg). simpl in Hg. case_bool_decide; simplify_eq. done.
  - intros Hk. exists (v, po), r. split; [done|]. simpl. by rewrite bool_decide_eq_true_2.
Qed.

Lemma free_rows_sorted F v : key_sorted fst (free_rows F v).
Proof.
  apply sorted_impl with (L := by_key fst).
  - apply select_sorted; apply _.
  - apply select_NoDup. intros [v1 p1] r1 [v2 p2] r2 b _ _ H1 H2. simpl in *.
    repeat case_bool_decide; simplify_eq. done.
  - intros [p1 r1] [p2 r2] H1%elem_of_free_rows H2%elem_of_free_rows Hne HL.
    unfold by_key in HL. simpl in *. apply Z.le_neq. split; [done|]. intros ->.
    rewrite H1 in H2. congruence.
Qed.

Lemma free_prev_Some F v x pp pr :
  free_prev F v x = Some (pp, pr) ->
  F !! (v, pp) = Some pr /\ pp < x /\
  forall po r, F !! (v, po) = Some r -> po < x -> po <= pp.
Proof.
  unfold free_prev. intros Hl.
  apply key_sorted_last with (key := fst) in Hl as [Hin Hmax];
    [|apply StronglySorted_filter, free_rows_sorted].
  apply list_elem_of_filter in Hin as [? Hin%elem_of_free_rows].
  repeat split; [done..|]. intros po r Hr Hx.
  apply (Hmax (po, r)). apply list_elem_of_filter. by rewrite elem_of_free_rows.
Qed.

Lemma free_prev_None F v x :
  free_prev F v x = None -> forall po r, F !! (v, po) = Some r -> x <= po.
Proof.
  unfold free_prev. rewrite last_None. intros Hn po r Hr.
  destruct (decide (po < x)); [|lia].
  assert ((po, r) ∈ filter (fun r => r.1 < x) (free_rows F v)) as Hin.
  { apply list_elem_of_filter. by rewrite elem_of_free_rows. }
  rewrite Hn in Hin. by apply elem_of_nil in Hin.
Qed.

Lemma first_fit_Some F v n po r :
  first_fit F v n = Some (po, r) -> F !! (v, po) = Some r /\ n <= fr_len r.
Proof.
  unfold first_fit. intros Hh. apply head_Some_elem_of in Hh.
  apply list_elem_of_filter in Hh as [? Hh%elem_of_free_rows]. done.
Qed.

(** ** Normal form *)
Record free_ok (F : free_table) (v : string) : Prop := {
  fo_row : forall po r, F !! (v, po) = Some r -> 0 <= po /\ 0 < fr_len r;
  fo_gap : forall po1 po2 r1 r2, F !! (v, po1) = Some r1 -> F !! (v, po2) = Some r2 ->
    po1 < po2 -> po1 + fr_len r1 < po2 }.

(** Byte [q] of the volume is free, and its last generation is at least [g]. *)
Definition free_at (F : free_table) (v : string) (q : Z) : Prop :=
  exists po r, F !! (v, po) = Some r /\ po <= q < po + fr_len r.
Definition free_gen (F : free_table) (v : string) (q g : Z) : Prop :=
  exists po r, F !! (v, po) = Some r /\ po <= q < po + fr_len r /\ g <= fr_gen r.

(** A range on its way into the list: disjoint from every row. *)
Record pending (F : free_table) (v : string) (po len : Z) : Prop := {
  pd_ok : free_ok F v;
  pd_pos : 0 <= po /\ 0 < len;
  pd_disj : forall po' r, F !! (v, po') = Some r ->
    po' + fr_len r <= po \/ po + len <= po' }.

Lemma free_ok_delete F v k : free_ok F v -> free_ok (delete k F) v.
Proof.
  intros [Hr Hg]. split.
  - intros po r Hk. apply lookup_delete_Some in Hk as [? ?]. eauto.
  - intros po1 po2 r1 r2 H1 H2. apply lookup_delete_Some in H1 as [? ?], H2 as [? ?]. eauto.
Qed.

Lemma absorb_prev_spec F v po len g F1 po1 len1 g1 :
  pending F v po len -> absorb_prev F v po len g = (F1, po1, len1, g1) ->
  pending F1 v po1 len1 /\ po1 + len1 = po + len /\ po1 <= po /\ g <= g1 /\
  (forall po' r, F1 !! (v, po') = Some r -> po' + fr_len r <> po1) /\
  (forall q gq, free_gen F v q gq \/ (po <= q < po + len /\ gq <= g) ->
     free_gen F1 v q gq \/ (po1 <= q < po1 + len1 /\ gq <= g1)) /\
  (forall q, free_at F1 v q \/ po1 <= q < po1 + len1 <-> free_at F v q \/ po <= q < po + len) /\
  (forall k, k.1 <> v -> F1 !! k = F !! k) /\
  (forall k r, F1 !! k = Some r -> F !! k = Some r).
Proof.
  intros [Hok [H0 Hlen] Hdis] Habs. unfold absorb_prev in Habs.
  assert (Hcase : (exists pr, F !! (v, po1) = Some pr /\ po1 + fr_len pr = po /\
       F1 = delete (v, po1) F /\ len1 = len + fr_len pr /\ g1 = Z.max g (fr_gen pr)) \/
     ((F1, po1, len1, g1) = (F, po, len, g) /\
        forall po' r, F !! (v, po') = Some r -> po' + fr_len r <> po)).
  { destruct (free_prev F v po) as [[pp pr]|] eqn:Hp.
    - apply free_prev_Some in Hp as (Hpp & Hlt & Hmax).
      destruct (Z.eqb_spec (pp + fr_len pr) po) as [He|He]; simplify_eq.
      + left. exists pr. done.
      + right. split; [done|]. intros po' r Hr He'.
        destruct (fo_row _ _ Hok _ _ Hr) as [_ ?].
        assert (po' <= pp) by (eapply Hmax; [done|lia]).
        destruct (decide (po' = pp)) as [->|]; [congruence|].
        assert (po' + fr_len r < pp) by (eapply (fo_gap _ _ Hok); eauto; lia). lia.
    - simplify_eq. right. split; [done|]. intros po' r Hr He'.
      pose proof (free_prev_None _ _ _ Hp _ _ Hr). destruct (fo_row _ _ Hok _ _ Hr). lia. }
  destruct Hcase as [(pr & Hpr & Hend & -> & -> & ->)|[[= -> -> -> ->] Hno]].
  2:{ split_and!; try done; try lia. }
  destruct (fo_row _ _ Hok _ _ Hpr) as [Hpp0 Hprl].
  assert (Hother : forall po' r, delete (v, po1) F !! (v, po') = Some r ->
            po' <> po1 /\ F !! (v, po') = Some r).
  { intros po' r Hr. apply lookup_delete_Some in Hr as [Hne Hr]. split; [congruence|done]. }
  split_and!; try lia.
  - split; [by apply free_ok_delete|lia|].
    intros po' r [Hne Hr]%Hother. destruct (Hdis _ _ Hr); [|lia].
    destruct (fo_row _ _ Hok _ _ Hr).
    destruct (Z.lt_total po' po1) as [Hlt|[?|Hlt]]; [|done|].
    + pose proof (fo_gap _ _ Hok _ _ _ _ Hr Hpr Hlt). lia.
    + pose proof (fo_gap _ _ Hok _ _ _ _ Hpr Hr Hlt). lia.
  - intros po' r [Hne Hr]%Hother Hadj. destruct (fo_row _ _ Hok _ _ Hr).
    pose proof (fo_gap _ _ Hok _ _ _ _ Hr Hpr ltac:(lia)). lia.
  - intros q gq [(p & r & Hp & Hq & Hgq)|[Hq Hgq]]; [|right; lia].
    destruct (decide (p = po1)) as [->|Hne].
    + rewrite Hpr in Hp. simplify_eq. right. lia.
    + left. exists p, r. rewrite lookup_delete_ne by congruence. done.
  - intros q. split.
    { intros [(p & r & [Hne Hp]%Hother & Hq)|Hq]; [left; by exists p, r|].
      destruct (decide (q < po)); [left; exists po1, pr; split; [done|lia]|right; lia]. }
    intros [(p & r & Hp & Hq)|Hq]; [|right; lia].
    destruct (decide (p = po1)) as [->|Hne].
    + rewrite Hpr in Hp. simplify_eq. right. lia.
    + left. exists p, r. rewrite lookup_delete_ne by congruence. done.
  - intros k Hk. apply lookup_delete_ne. intros <-. done.
  - intros k r Hr. apply lookup_delete_Some in Hr as [_ ?]. done.
Qed.

Lemma absorb_next_spec F v po len g F1 len1 g1 :
  pending F v po len -> absorb_next F v po len g = (F1, len1, g1) ->
  (forall po' r, F !! (v, po') = Some r -> po' + fr_len r <> po) ->
  pending F1 v po len1 /\ len <= len1 /\ g <= g1 /\
  (forall po' r, F1 !! (v, po') = Some r -> po' + fr_len r <> po /\ po' <> po + len1) /\
  (forall q gq, free_gen F v q gq \/ (po <= q < po + len /\ gq <= g) ->
     free_gen F1 v q gq \/ (po <= q < po + len1 /\ gq <= g1)) /\
  (forall q, free_at F1 v q \/ po <= q < po + len1 <-> free_at F v q \/ po <= q < po + len) /\
  (forall k, k.1 <> v -> F1 !! k = F !! k).
Proof.
  intros [Hok [H0 Hlen] Hdis] Habs Hleft. unfold absorb_next in Habs.
  destruct (F !! (v, po + len)) as [nr|] eqn:Hn; simplify_eq.
  2:{ split_and!; try done; try lia. intros po' r Hr.
      split; [eauto|]. intros ->. congruence. }
  destruct (fo_row _ _ Hok _ _ Hn) as [Hn0 Hnl].
  assert (Hother : forall po' r, delete (v, po + len) F !! (v, po') = Some r ->
            po' <> po + len /\ F !! (v, po') = Some r).
  { intros po' r Hr. apply lookup_delete_Some in Hr as [Hne Hr]. split; [congruence|done]. }
  assert (Hafter : forall po' r, F !! (v, po') = Some r -> po' <> po + len ->
            po' + fr_len r <= po \/ po + len + fr_len nr < po').
  { intros po' r Hr Hne. destruct (Hdis _ _ Hr) as [|Hge]; [by left|right].
    apply (fo_gap _ _ Hok _ _ _ _ Hn Hr). lia. }
  split_and!; try lia.
  - split; [by apply free_ok_delete|lia|].
    intros po' r [Hne Hr]%Hother. destruct (Hafter _ _ Hr Hne); lia.
  - intros po' r [Hne Hr]%Hother. destruct (fo_row _ _ Hok _ _ Hr).
    split; [by apply (Hleft _ _ Hr)|]. destruct (Hafter _ _ Hr Hne); lia.
  - intros q gq [(p & r & Hp & Hq & Hgq)|[Hq Hgq]]; [|right; lia].
    destruct (decide (p = po + len)) as [->|Hne].
    + rewrite Hn in Hp. simplify_eq. right. lia.
    + left. exists p, r. rewrite lookup_delete_ne by congruence. done.
  - intros q. split.
    { intros [(p & r & [Hne Hp]%Hother & Hq)|Hq]; [left; by exists p, r|].
      destruct (decide (po + len <= q)); [left; exists (po + len), nr; split; [done|lia]|right; lia]. }
    intros [(p & r & Hp & Hq)|Hq]; [|right; lia].
    destruct (decide (p = po + len)) as [->|Hne].
    + rewrite Hn in Hp. simplify_eq. right. lia.
    + left. exists p, r. rewrite lookup_delete_ne by congruence. done.
  - intros k Hk. apply lookup_delete_ne. intros <-. done.
Qed.

(** [free_insert_coalescing] succeeds on a range disjoint from the list,
    keeps the normal form, frees exactly the new bytes, touches no other
    volume, and never lowers a byte's last generation. *)
Lemma free_insert_spec F v po len g :
  pending F v po len ->
  exists F', free_insert_coalescing F v po len g = Ok F' /\ free_ok F' v /\
    (forall q, free_at F' v q <-> free_at F v q \/ po <= q < po + len) /\
    (forall q gq, free_gen F v q gq \/ (po <= q < po + len /\ gq <= g) -> free_gen F' v q gq) /\
    (forall k, k.1 <> v -> F' !! k = F !! k).
Proof.
  intros Hp. unfold free_insert_coalescing.
  destruct (absorb_prev F v po len g) as [[[F1 po1] len1] g1] eqn:H1.
  destruct (absorb_prev_spec _ _ _ _ _ _ _ _ _ Hp H1)
    as (Hp1 & Hend & Hle & Hg1 & Hleft & Hgen1 & Hat1 & Hfr1 & _).
  destruct (absorb_next F1 v po1 len1 g1) as [[F2 len2] g2] eqn:H2.
  destruct (absorb_next_spec _ _ _ _ _ _ _ _ Hp1 H2 Hleft)
    as (Hp2 & Hle2 & Hg2 & Hadj & Hgen2 & Hat2 & Hfr2).
  destruct Hp2 as [Hok [Hpos Hlen] Hdis].
  assert (F2 !! (v, po1) = None) as Hnone.
  { destruct (F2 !! (v, po1)) as [r|] eqn:Hr; [|done].
    destruct (Hdis _ _ Hr), (fo_row _ _ Hok _ _ Hr); lia. }
  exists (<[(v, po1) := FreeRow len2 g2]> F2).
  split; [unfold insert_new; by rewrite Hnone|].
  assert (Hlk : forall p r, <[(v, po1) := FreeRow len2 g2]> F2 !! (v, p) = Some r <->
     (p = po1 /\ r = FreeRow len2 g2) \/ (p <> po1 /\ F2 !! (v, p) = Some r)).
  { intros p r. rewrite lookup_insert_Some. split.
    - intros [[[= ->] <-]|[Hne ?]]; [by left|right]. split; [congruence|done].
    - intros [[-> ->]|[Hne ?]]; [by left|right]. split; [congruence|done]. }
  split_and!.
  - split.
    + intros p r [[-> ->]|[_ Hr]]%Hlk; [done|]. by apply (fo_row _ _ Hok _ _ Hr).
    + intros p1 p2 r1 r2 [[-> ->]|[Hn1 Hr1]]%Hlk [[-> ->]|[Hn2 Hr2]]%Hlk Hlt; simpl; [lia|..].
      * destruct (Hadj _ _ Hr2), (Hdis _ _ Hr2), (fo_row _ _ Hok _ _ Hr2); lia.
      * destruct (Hadj _ _ Hr1), (Hdis _ _ Hr1), (fo_row _ _ Hok _ _ Hr1); lia.
      * eapply (fo_gap _ _ Hok); eauto.
  - intros q. rewrite <- Hat1, <- Hat2. unfold free_at at 1. setoid_rewrite Hlk. split.
    + intros (p & r & [[-> ->]|[Hne Hr]] & Hq); [by right|left]. exists p, r. done.
    + intros [(p & r & Hr & Hq)|Hq].
      * exists p, r. split; [|done]. right. split; [|done]. intros ->. congruence.
      * exists po1, (FreeRow len2 g2). split; [by left|done].
  - intros q gq Hq. apply Hgen1, Hgen2 in Hq. unfold free_gen at 1. setoid_rewrite Hlk.
    destruct Hq as [(p & r & Hr & Hq)|[Hq Hgq]].
    + exists p, r. split; [|done]. right. split; [|done]. intros ->. congruence.
    + exists po1, (FreeRow len2 g2). split; [by left|]. simpl. done.
  - intros [v' p] Hne. simpl in *. rewrite lookup_insert_ne by congruence.
    rewrite Hfr2, Hfr1 by done. done.
Qed.
