(* ===== verification/ExtentInv.v ===== *)
(** The volume invariant of the extent allocator, its consequences for the
    verifiers, and what it frames over.

    [core] is everything but the O(1) row counter, which lags inside a
    transaction; [vol_inv] adds the counter. *)

From S2P Require Import Prelude Sql Tables ExtentVerify FreeList.

Definition ext_owner (d : db) (v : string) (q f lo : Z) (e : extent) : Prop :=
  extents d !! (v, f, lo) = Some e /\ e_phys e <= q < e_phys e + e_len e.
Definition ext_at (d : db) (v : string) (q : Z) : Prop :=
  exists f lo e, ext_owner d v q f lo e.
Definition quar_owner (d : db) (v : string) (q po : Z) (r : quar_row) : Prop :=
  extent_quarantine d !! (v, po) = Some r /\ po <= q < po + q_len r.
Definition quar_at (d : db) (v : string) (q : Z) : Prop :=
  exists po r, quar_owner d v q po r.

Definition rw_exclusive (d : db) (v : string) : Prop := forall f lo c1 c2 g1 g2,
  extent_grants d !! (v, f, lo, c1) = Some g1 ->
  extent_grants d !! (v, f, lo, c2) = Some g2 ->
  g_fenced g1 = false -> g_fenced g2 = false ->
  g_mode g1 = ModeRw -> g_mode g2 = ModeRw -> c1 = c2.

Record core (d : db) (v : string) : Prop := {
  c_ext : ext_wf d v;
  c_quar : forall po r, extent_quarantine d !! (v, po) = Some r -> 0 <= po /\ 0 < q_len r;
  c_free : free_ok (extent_free d) v;
  c_log : logical_disjoint d v;
  (** one owner per physical byte *)
  c_ext_uniq : forall q f1 lo1 e1 f2 lo2 e2,
    ext_owner d v q f1 lo1 e1 -> ext_owner d v q f2 lo2 e2 -> f1 = f2 /\ lo1 = lo2;
  c_quar_uniq : forall q po1 r1 po2 r2,
    quar_owner d v q po1 r1 -> quar_owner d v q po2 r2 -> po1 = po2;
  c_ext_free : forall q, ext_at d v q -> free_at (extent_free d) v q -> False;
  c_ext_quar : forall q, ext_at d v q -> quar_at d v q -> False;
  c_free_quar : forall q, free_at (extent_free d) v q -> quar_at d v q -> False;
  (** the three homes tile exactly [0, next_free) *)
  c_tile : forall q, ext_at d v q \/ free_at (extent_free d) v q \/ quar_at d v q <->
    exists a, volume_alloc d !! v = Some a /\ 0 <= q < next_free a;
  c_arena : forall a, volume_alloc d !! v = Some a ->
    0 <= next_free a <= size_ceiling a /\ size_ceiling a <= i64_max;
  c_grants : grants_ok d v;
  c_client : forall f lo c g, extent_grants d !! (v, f, lo, c) = Some g -> 0 <= c <= i64_max;
  c_rw : rw_exclusive d v }.

Record vol_inv (d : db) (v : string) : Prop := {
  vi_core : core d v;
  vi_counter : counter_ok d v }.

(** ** Consequences *)
Lemma core_homes_pos d v x p l : core d v -> home_at d v x = Some (p, l) -> 0 <= p /\ 0 < l.
Proof.
  intros Hc Hx. destruct x as [f lo|po|po]; simpl in Hx; apply fmap_Some in Hx as (a & Ha & [= -> ->]).
  - apply (c_ext _ _ Hc) in Ha. lia.
  - apply (fo_row _ _ (c_free _ _ Hc)) in Ha. lia.
  - apply (c_quar _ _ Hc) in Ha. lia.
Qed.

(** Byte [q] lies in the range of home [x]. *)
Definition occ (d : db) (v : string) (q : Z) (x : home) : Prop :=
  exists p l, home_at d v x = Some (p, l) /\ p <= q < p + l.

Lemma occ_cases d v q x :
  occ d v q x <->
  match x with
  | HExt f lo => exists e, ext_owner d v q f lo e
  | HFree po => exists r, extent_free d !! (v, po) = Some r /\ po <= q < po + fr_len r
  | HQuar po => exists r, quar_owner d v q po r
  end.
Proof.
  unfold occ, ext_owner, quar_owner. destruct x; simpl; split.
  all: try (intros (p & l & Hx & Hq); apply fmap_Some in Hx as (a & Ha & [= -> ->]); by exists a).
  all: intros (a & Ha & Hq); rewrite Ha; eexists _, _; split; [done|]; done.
Qed.

Lemma core_occ_unique d v q x y : core d v -> occ d v q x -> occ d v q y -> x = y.
Proof.
  intros Hc Hx Hy. rewrite occ_cases in Hx, Hy.
  destruct x as [f1 lo1|po1|po1], y as [f2 lo2|po2|po2];
    destruct Hx as [r1 H1], Hy as [r2 H2].
  - destruct (c_ext_uniq _ _ Hc _ _ _ _ _ _ _ H1 H2). congruence.
  - destruct (c_ext_free _ _ Hc q); [by exists f1, lo1, r1|by exists po2, r2].
  - destruct (c_ext_quar _ _ Hc q); [by exists f1, lo1, r1|by exists po2, r2].
  - destruct (c_ext_free _ _ Hc q); [by exists f2, lo2, r2|by exists po1, r1].
  - destruct H1 as [H1 Hq1], H2 as [H2 Hq2]. f_equal.
    destruct (Z.lt_total po1 po2) as [Hlt|[?|Hlt]]; [|done|].
    + pose proof (fo_gap _ _ (c_free _ _ Hc) _ _ _ _ H1 H2 Hlt). lia.
    + pose proof (fo_gap _ _ (c_free _ _ Hc) _ _ _ _ H2 H1 Hlt). lia.
  - destruct (c_free_quar _ _ Hc q); [by exists po1, r1|by exists po2, r2].
  - destruct (c_ext_quar _ _ Hc q); [by exists f2, lo2, r2|by exists po1, r1].
  - destruct (c_free_quar _ _ Hc q); [by exists po2, r2|by exists po1, r1].
  - by rewrite (c_quar_uniq _ _ Hc _ _ _ _ _ H1 H2).
Qed.

Lemma core_phys_disjoint d v : core d v -> phys_disjoint d v.
Proof.
  intros Hc x y p l p' l' Hx Hy Hne.
  destruct (core_homes_pos _ _ _ _ _ Hc Hx), (core_homes_pos _ _ _ _ _ Hc Hy).
  destruct (Z.le_gt_cases (p + l) p') as [|Hgt]; [by left|right].
  destruct (Z.le_gt_cases (p' + l') p) as [|Hgt']; [done|exfalso].
  apply Hne, (core_occ_unique d v (Z.max p p')); [done|exists p, l|exists p', l'];
    (split; [done|lia]).
Qed.

Lemma occ_covered d v q x :
  occ d v q x -> ext_at d v q \/ free_at (extent_free d) v q \/ quar_at d v q.
Proof.
  rewrite occ_cases. destruct x as [f lo|po|po]; intros [r Hr].
  - left. by exists f, lo, r.
  - right; left. by exists po, r.
  - right; right. by exists po, r.
Qed.

Lemma core_below_watermark d v : core d v -> below_watermark d v.
Proof.
  intros Hc x p l Hx. destruct (core_homes_pos _ _ _ _ _ Hc Hx).
  destruct (proj1 (c_tile _ _ Hc (p + l - 1))) as (a & Ha & Hq).
  - apply (occ_covered _ _ _ x). exists p, l. split; [done|lia].
  - exists a. split; [done|lia].
Qed.

(** Every range of an invariant state ends below the watermark, so its end
    is a signed 64-bit integer. *)
Lemma core_homes_wf d v : core d v -> homes_wf d v.
Proof.
  intros Hc x p l Hx. destruct (core_homes_pos _ _ _ _ _ Hc Hx).
  destruct (core_below_watermark _ _ Hc _ _ _ Hx) as (a & Ha & Hle).
  apply (c_arena _ _ Hc) in Ha. lia.
Qed.

Lemma core_verified d v : core d v -> counter_ok d v -> verified d v.
Proof.
  intros Hc Hn. split.
  - by apply c_log.
  - by apply core_phys_disjoint.
  - by apply core_below_watermark.
  - intros a Ha. by apply (c_arena _ _ Hc) in Ha as [[? ?] ?].
  - done.
  - by apply c_grants.
Qed.

(** An invariant state passes the full verifier. *)
Lemma vol_inv_verifies d v : vol_inv d v -> verify_volume_invariants_conn d v = Ok tt.
Proof.
  intros [Hc Hn]. apply verify_iff; [by apply c_ext|by apply core_homes_wf|].
  by apply core_verified.
Qed.

(** A row that is in the table, as the windowed verifier is handed it. *)
Definition touched_row (d : db) (v : string) (t : TouchedExtent) : Prop :=
  exists e, extents d !! (v, tc_file t, tc_off t) = Some e /\
    e_len e = tc_len t /\ e_phys e = tc_phys t.

Lemma core_verify_touched d v a t :
  core d v -> volume_alloc d !! v = Some a -> touched_row d v t ->
  verify_touched d v (next_free a) t = Ok tt.
Proof.
  intros Hc Ha (e & He & Hl & Hp). unfold verify_touched. cbv zeta.
  pose proof (core_phys_disjoint _ _ Hc) as Hpd.
  assert (Hx : home_at d v (HExt (tc_file t) (tc_off t)) = Some (tc_phys t, tc_len t)).
  { simpl. rewrite He. simpl. by rewrite Hl, Hp. }
  pose proof (core_homes_wf _ _ Hc _ _ _ Hx) as Hfit.
  rewrite (range_end_wraps (tc_phys t)) by done. destruct Hfit as (? & ? & _).
  assert (Hov : forall y p l, home_at d v y = Some (p, l) -> y <> HExt (tc_file t) (tc_off t) ->
            overlaps p l (tc_phys t) (tc_phys t + tc_len t) = false).
  { intros y p l Hy Hne. destruct (Hpd _ _ _ _ _ _ Hy Hx Hne); unfold overlaps;
      apply andb_false_iff; rewrite Z.gtb_ltb, !Z.ltb_ge; lia. }
  rewrite !fail_if_bind, fail_if_Ok, !exists_where_false. split_and!.
  - destruct (last_row_before _ _ _ _) as [r|] eqn:Hr; [|done].
    apply last_row_before_Some in Hr as (Hr & Hlt & _).
    pose proof (c_log _ _ Hc _ _ _ _ _ Hr He Hlt) as Hle.
    rewrite Z.gtb_ltb. apply Z.ltb_ge. unfold row_end. apply (c_ext _ _ Hc) in Hr as Hw.
    rewrite range_end_wraps by (unfold range_fits; simpl in Hw; lia). exact Hle.
  - destruct (first_row_from _ _ _ _) as [r|] eqn:Hr; [|done].
    apply first_row_from_Some in Hr as (Hr & Hlt & _).
    pose proof (c_log _ _ Hc _ _ _ _ _ He Hr ltac:(lia)) as Hle.
    rewrite Z.gtb_ltb. apply Z.ltb_ge. apply (c_ext _ _ Hc) in He as Hw.
    rewrite range_end_wraps by (unfold range_fits; lia). lia.
  - intros [[v' f] lo] e' He'. unfold in_volume; simpl. case_bool_decide; [|done]. subst v'. simpl.
    case_bool_decide as Hk; [by rewrite andb_false_r|].
    rewrite (Hov (HExt f lo) (e_phys e') (e_len e')); [done| |naive_solver].
    simpl. by rewrite He'.
  - intros [v' po] r Hr. simpl. case_bool_decide; [|done]. subst v'. simpl.
    apply (Hov (HFree po)); [|done]. simpl. by rewrite Hr.
  - intros [v' po] r Hr. simpl. case_bool_decide; [|done]. subst v'. simpl.
    apply (Hov (HQuar po)); [|done]. simpl. by rewrite Hr.
  - destruct (core_below_watermark _ _ Hc _ _ _ Hx) as (a' & Ha' & Hle).
    rewrite Ha in Ha'. simplify_eq. rewrite Z.gtb_ltb. apply Z.ltb_ge. done.
  - intros [[[v' f] lo] c] g Hg. unfold stale_grant. simpl.
    destruct (decide (v' = v)) as [->|]; [|rewrite (bool_decide_eq_false_2 (v' = v)) by done;
      simpl; apply andb_false_r].
    destruct (c_grants _ _ Hc _ _ _ _ Hg) as (e' & He' & Hgen). rewrite He'.
    destruct (g_fenced g); simpl; [by rewrite andb_false_r, andb_false_r|].
    rewrite Hgen, Z.eqb_refl by done. simpl. by rewrite !andb_false_r.
Qed.

(** An invariant state passes the windowed verifier on any of its rows. *)
Lemma core_verify_window d v ts :
  core d v -> Forall (touched_row d v) ts -> verify_window_invariants_conn d v ts = Ok tt.
Proof.
  intros Hc Hts. destruct ts as [|t ts]; [done|]. simpl.
  assert (exists a, volume_alloc d !! v = Some a) as [a Ha].
  { inversion Hts as [|? ? (e & He & _ & _)]; subst.
    destruct (core_below_watermark _ _ Hc (HExt (tc_file t) (tc_off t)) (e_phys e) (e_len e))
      as (a & Ha & _); [simpl; by rewrite He|by exists a]. }
  rewrite Ha. simpl. change (verify_all_touched d v (next_free a) (t :: ts) = Ok tt).
  revert Hts. generalize (t :: ts) as l. induction 1 as [|t' l Ht Hl IH]; [done|].
  simpl. rewrite (core_verify_touched d v a t') by done. done.
Qed.

(** ** Framing: the invariant of a volume reads only that volume's rows *)
Record same_volume (d d' : db) (v : string) : Prop := {
  sv_ext : forall f lo, extents d' !! (v, f, lo) = extents d !! (v, f, lo);
  sv_grants : forall f lo c, extent_grants d' !! (v, f, lo, c) = extent_grants d !! (v, f, lo, c);
  sv_free : forall po, extent_free d' !! (v, po) = extent_free d !! (v, po);
  sv_quar : forall po, extent_quarantine d' !! (v, po) = extent_quarantine d !! (v, po);
  sv_alloc : volume_alloc d' !! v = volume_alloc d !! v }.

#[global] Instance same_volume_refl v : Reflexive (fun d d' => same_volume d d' v).
Proof. intros d. by split. Qed.
#[global] Instance same_volume_trans v : Transitive (fun d d' => same_volume d d' v).
Proof. intros d1 d2 d3 [] []. split; intros; etrans; eauto. Qed.

Lemma same_volume_count d d' v : same_volume d d' v -> count_extents d' v = count_extents d v.
Proof.
  intros Hs. apply count_where_ext. intros [[v' f] lo]. unfold in_volume. simpl.
  case_bool_decide; [subst; rewrite (sv_ext _ _ _ Hs); by destruct (extents d !! _)|].
  by destruct (extents d' !! _), (extents d !! _).
Qed.

Lemma vol_inv_frame d d' v : same_volume d d' v -> vol_inv d v -> vol_inv d' v.
Proof.
  intros Hs [Hc Hn]. pose proof Hs as [He Hg Hf Hq Ha].
  assert (Hfa : forall q, free_at (extent_free d') v q <-> free_at (extent_free d) v q).
  { intros q. unfold free_at. by setoid_rewrite Hf. }
  assert (Heo : forall q f lo e, ext_owner d' v q f lo e <-> ext_owner d v q f lo e).
  { intros. unfold ext_owner. by rewrite He. }
  assert (Hqo : forall q po r, quar_owner d' v q po r <-> quar_owner d v q po r).
  { intros. unfold quar_owner. by rewrite Hq. }
  assert (Hea : forall q, ext_at d' v q <-> ext_at d v q).
  { intros q. unfold ext_at. by setoid_rewrite Heo. }
  assert (Hqa : forall q, quar_at d' v q <-> quar_at d v q).
  { intros q. unfold quar_at. by setoid_rewrite Hqo. }
  destruct Hc. split; [split|].
  - intros f lo e. rewrite He. apply c_ext0.
  - intros po r. rewrite Hq. apply c_quar0.
  - destruct c_free0 as [Hr Hgp]. split; [intros po r; rewrite Hf; apply Hr|].
    intros p1 p2 r1 r2. rewrite !Hf. apply Hgp.
  - intros f lo1 lo2 e1 e2. rewrite !He. apply c_log0.
  - intros q f1 lo1 e1 f2 lo2 e2. rewrite !Heo. apply c_ext_uniq0.
  - intros q p1 r1 p2 r2. rewrite !Hqo. apply c_quar_uniq0.
  - intros q. rewrite Hea, Hfa. apply c_ext_free0.
  - intros q. rewrite Hea, Hqa. apply c_ext_quar0.
  - intros q. rewrite Hfa, Hqa. apply c_free_quar0.
  - intros q. rewrite Hea, Hfa, Hqa, Ha. apply c_tile0.
  - intros a. rewrite Ha. apply c_arena0.
  - intros f lo c g. rewrite Hg, He. apply c_grants0.
  - intros f lo c g. rewrite Hg. apply c_client0.
  - intros f lo c1 c2 g1 g2. rewrite !Hg. apply c_rw0.
  - intros a. rewrite Ha, (same_volume_count _ _ _ Hs). apply Hn.
Qed.
