(* ===== verification/ExtentGrant.v ===== *)
(** LAYOUTGET in the extent allocator: [grant] (allocate and grant for
    write) and [grant_read] of extent_alloc.rs, arena registration and
    expansion, and their effect on the volume invariant. *)

From S2P Require Import Prelude Sql Tables ExtentVerify FreeList ExtentInv.

(** ** Arenas *)
Definition register_volume (d : db) (v : string) (size_ceiling : Z) : res db :=
  ceiling ← as_i64 size_ceiling "ceiling exceeds i64";
  Ok (set_alloc (insert_or_ignore v (Arena ceiling 0 0) (volume_alloc d)) d).

Definition expand_volume (d : db) (v : string) (new_ceiling : Z) : res (Z * db) :=
  want ← as_i64 new_ceiling "ceiling exceeds i64";
  match volume_alloc d !! v with
  | None => Err (InvalidRange "volume has no extent arena to expand")
  | Some a =>
      if want <=? size_ceiling a then Ok (wrap_u64 (size_ceiling a), d)
      else
        let d' := set_alloc (<[v := Arena want (next_free a) (extent_rows a)]> (volume_alloc d)) d in
        verify_volume_invariants_conn d' v ≫= fun _ => Ok (wrap_u64 want, d')
  end.

Definition volume_headroom (d : db) (v : string) : Z :=
  match volume_alloc d !! v with
  | Some a => wrap_u64 (Z.max (size_ceiling a - next_free a) 0)
  | None => u64_max
  end.

(** MAX(logical_offset + length) over the committed rows, or 0. *)
Definition committed_end (d : db) (v : string) (file_id : Z) : Z :=
  wrap_u64 (Z.max 0 (foldr Z.max 0
    (row_end <$> filter (fun r => row_state r = StRw) (file_rows d v (wrap_i64 file_id))))).

(** ** Grants *)
Record GrantedExtent := Granted {
  ge_logical_offset : Z; ge_length : Z; ge_physical_offset : Z;
  ge_generation : Z; ge_committed : bool; ge_needs_scrub : bool }.

(** The gaps of [cursor, end) the rows leave, in order, as (start, length). *)
Fixpoint gaps_from (cursor : Z) (rows : list ExtentRow) (end_ : Z) : list (Z * Z) :=
  match rows with
  | [] => if cursor <? end_ then [(cursor, end_ - cursor)] else []
  | e :: rows =>
      (if logical_offset e >? cursor then [(cursor, logical_offset e - cursor)] else []) ++
      gaps_from (Z.max cursor (row_end e)) rows end_
  end.

(** UPDATE volume_alloc SET next_free = next_free + n: past i64 the column
    becomes a REAL and every later typed read of it in the transaction
    fails, so the transaction rolls back with a sqlite error. *)
Definition bump_next_free (d : db) (v : string) (a : arena) (n : Z) : res db :=
  if next_free a + n >? i64_max then Err (SqlError IntegerOverflow)
  else Ok (set_alloc (<[v := Arena (size_ceiling a) (next_free a + n) (extent_rows a)]>
                        (volume_alloc d)) d).

(** Where one gap's bytes come from: (db, physical offset, generation, reused). *)
Definition place_gap (d : db) (v : string) (fresh_only : bool) (g_len : Z)
    : res (db * Z * Z * bool) :=
  match (if fresh_only then None else first_fit (extent_free d) v g_len) with
  | Some (f_phys, fr) =>
      let F1 := delete (v, f_phys) (extent_free d) in
      F2 ← (if fr_len fr >? g_len
            then sql (free_insert_coalescing F1 v (f_phys + g_len) (fr_len fr - g_len) (fr_gen fr))
            else Ok F1);
      Ok (set_free F2 d, f_phys, wrap_i64 (fr_gen fr + 1), true)
  | None =>
      a ← one_row (volume_alloc d !! v);
      fail_if (wrap_i64 (next_free a + g_len) >? size_ceiling a)
        (NoSpace (wrap_u64 g_len) (wrap_u64 (size_ceiling a)) (wrap_u64 (next_free a))) ≫= fun _ =>
      d' ← bump_next_free d v a g_len;
      Ok (d', next_free a, 1, false)
  end.

Definition alloc_gap (d : db) (v : string) (fid : Z) (fresh_only : bool) (gap : Z * Z)
    : res (db * ExtentRow * bool) :=
  '(d1, phys, gen, reused) ← place_gap d v fresh_only gap.2;
  E ← sql (insert_new (v, fid, gap.1) (Extent gap.2 phys gen StInvalid) (extents d1));
  Ok (set_extents E d1, Row gap.1 gap.2 phys gen StInvalid, reused).

Fixpoint alloc_gaps (d : db) (v : string) (fid : Z) (fresh_only : bool) (gaps : list (Z * Z))
    : res (db * list ExtentRow * list Z) :=
  match gaps with
  | [] => Ok (d, [], [])
  | g :: gaps =>
      '(d1, r, reused) ← alloc_gap d v fid fresh_only g;
      '(d2, rows, phys) ← alloc_gaps d1 v fid fresh_only gaps;
      Ok (d2, r :: rows, if reused : bool then physical_offset r :: phys else phys)
  end.

(** UPDATE volume_alloc SET extent_rows = extent_rows + n. *)
Definition add_rows (d : db) (v : string) (n : Z) : db :=
  match volume_alloc d !! v with
  | Some a => set_alloc (<[v := Arena (size_ceiling a) (next_free a) (extent_rows a + n)]>
                           (volume_alloc d)) d
  | None => d
  end.

(** if !new_rows.is_empty(): account for them in the row counter. *)
Definition settle_rows (d : db) (v : string) (new_rows : list ExtentRow) : db :=
  match new_rows with [] => d | _ => add_rows d v (Z.of_nat (length new_rows)) end.

(** INSERT OR IGNORE INTO extent_grants, one row per extent. *)
Definition grant_rows (d : db) (v : string) (fid client : Z) (mode : grant_mode)
    (rows : list ExtentRow) : db :=
  set_grants (foldl (fun G e => insert_or_ignore (v, fid, logical_offset e, client)
                       (GrantRow mode (generation e) false) G) (extent_grants d) rows) d.

(** COUNT of the client's fenced grant rows on the volume > 0. *)
Definition has_fenced_grant (d : db) (v : string) (client : Z) : bool :=
  exists_where (fun k g => bool_decide (k.1.1.1 = v /\ k.2 = client) && g_fenced g)
    (extent_grants d).

Definition granted_of (reused : list Z) (e : ExtentRow) : GrantedExtent :=
  Granted (wrap_u64 (logical_offset e)) (wrap_u64 (row_len e)) (wrap_u64 (physical_offset e))
    (wrap_u64 (generation e)) (bool_decide (row_state e = StRw))
    (bool_decide (physical_offset e ∈ reused)).

Definition over_budget (budget : Z) (d : db) (v : string) (gaps : list (Z * Z)) : res unit :=
  match gaps, volume_alloc d !! v with
  | [], _ => Ok tt
  | _, None => Ok tt
  | _, Some a =>
      fail_if (extent_rows a + Z.of_nat (length gaps) >? budget)
        (RowBudget (wrap_u64 (extent_rows a)) (wrap_u64 budget))
  end.

(** [budget] is [extent_row_budget()]. *)
Definition grant (budget : Z) (d : db) (v : string) (file_id client_id lo len : Z)
    (fresh_only : bool) : res (list GrantedExtent * db) :=
  start ← as_i64 lo "offset exceeds i64";
  end_ ← checked_end lo len;
  client ← as_i64 client_id "client id exceeds i64";
  fail_if (has_fenced_grant d v client) FencedClient ≫= fun _ =>
  let existing := overlapping_extents d v file_id start end_ in
  let holders := live_unfenced_holders d v file_id existing (Some client_id) in
  fail_if (negb (is_nil holders)) (Conflict holders) ≫= fun _ =>
  let gaps := gaps_from start existing end_ in
  over_budget budget d v gaps ≫= fun _ =>
  '(d1, new_rows, reused_phys) ← alloc_gaps d v (wrap_i64 file_id) fresh_only gaps;
  let d2 := settle_rows d1 v new_rows in
  let all := merge_sort (by_key logical_offset) (existing ++ new_rows) in
  let d3 := grant_rows d2 v (wrap_i64 file_id) client ModeRw all in
  verify_window_invariants_conn d3 v (touch_row (wrap_i64 file_id) <$> all) ≫= fun _ =>
  Ok (granted_of reused_phys <$> all, d3).

Definition grant_read (d : db) (v : string) (file_id client_id lo len : Z)
    : res (list GrantedExtent * db) :=
  start ← as_i64 lo "offset exceeds i64";
  end_ ← checked_end lo len;
  client ← as_i64 client_id "client id exceeds i64";
  fail_if (has_fenced_grant d v client) FencedClient ≫= fun _ =>
  let committed := filter (fun r => row_state r = StRw)
                     (overlapping_extents d v file_id start end_) in
  let d' := grant_rows d v (wrap_i64 file_id) client ModeRead committed in
  verify_window_invariants_conn d' v (touch_row (wrap_i64 file_id) <$> committed) ≫= fun _ =>
  Ok (granted_of [] <$> committed, d').

(** ** Gaps *)
Definition in_row (o : Z) (r : ExtentRow) : Prop := logical_offset r <= o < row_end r.
Definition in_gap (o : Z) (g : Z * Z) : Prop := g.1 <= o < g.1 + g.2.

Record gaps_ok (start end_ : Z) (rows : list ExtentRow) (gs : list (Z * Z)) : Prop := {
  gp_range : forall g, g ∈ gs -> start <= g.1 /\ 0 < g.2 /\ g.1 + g.2 <= end_;
  gp_sorted : StronglySorted (fun a b => a.1 + a.2 <= b.1) gs;
  gp_disj : forall g r, g ∈ gs -> r ∈ rows -> row_end r <= g.1 \/ g.1 + g.2 <= logical_offset r;
  gp_cover : forall o, start <= o < end_ ->
    (exists r, r ∈ rows /\ in_row o r) \/ (exists g, g ∈ gs /\ in_gap o g) }.

Lemma gaps_from_ok rows : forall cursor end_,
  StronglySorted (fun x y => row_end x <= logical_offset y) rows ->
  (forall r, r ∈ rows -> 0 < row_len r /\ logical_offset r < end_ /\ cursor < row_end r) ->
  gaps_ok cursor end_ rows (gaps_from cursor rows end_).
Proof.
  induction rows as [|e rows IH]; intros cursor end_ Hs Hr; simpl.
  { destruct (Z.ltb_spec cursor end_) as [Hlt|Hge]; split; try (by intros; set_solver).
    - intros g ->%list_elem_of_singleton. simpl. lia.
    - repeat constructor.
    - intros o Ho. right. exists (cursor, end_ - cursor). split; [by left|].
      unfold in_gap. simpl. lia.
    - constructor.
    - lia. }
  apply StronglySorted_inv in Hs as [Hs He]. rewrite Forall_forall in He.
  destruct (Hr e ltac:(by left)) as (Hlen & Hle & Hce).
  destruct (IH (Z.max cursor (row_end e)) end_ Hs) as [Hg Hgs Hgd Hgc].
  { intros r Hin. specialize (He r Hin). destruct (Hr r ltac:(by right)) as (? & ? & ?).
    unfold row_end in *. lia. }
  set (gs := gaps_from (Z.max cursor (row_end e)) rows end_) in *.
  set (g0 := if logical_offset e >? cursor then [(cursor, logical_offset e - cursor)] else []).
  assert (Hg0 : forall g, g ∈ g0 -> g.1 = cursor /\ g.1 + g.2 = logical_offset e /\
                            cursor < logical_offset e).
  { intros g. unfold g0. rewrite Z.gtb_ltb. destruct (Z.ltb_spec cursor (logical_offset e));
      [|by rewrite elem_of_nil]. intros ->%list_elem_of_singleton. simpl. lia. }
  split.
  - intros g [(?&?&?)%Hg0|Hin]%elem_of_app; [lia|]. destruct (Hg g Hin). lia.
  - apply StronglySorted_app_2; [| |done].
    + intros x y (?&?&?)%Hg0 Hin. destruct (Hg y Hin) as (? & ? & ?). unfold row_end in *. lia.
    + unfold g0. destruct (_ >? _); repeat constructor.
  - intros g r [(?&?&?)%Hg0|Hin]%elem_of_app [->|Hr']%elem_of_cons.
    + right. lia.
    + right. specialize (He r Hr'). unfold row_end in He. lia.
    + left. destruct (Hg g Hin). lia.
    + by apply Hgd.
  - intros o Ho. destruct (decide (o < logical_offset e)).
    { right. exists (cursor, logical_offset e - cursor). split.
      - apply elem_of_app. left. unfold g0. rewrite Z.gtb_ltb.
        destruct (Z.ltb_spec cursor (logical_offset e)); [by left|lia].
      - unfold in_gap. simpl. lia. }
    destruct (decide (o < row_end e)).
    { left. exists e. split; [by left|]. unfold in_row. lia. }
    destruct (Hgc o ltac:(lia)) as [(r & ? & ?)|(g & ? & ?)].
    + left. exists r. split; [by right|done].
    + right. exists g. split; [|done]. apply elem_of_app. by right.
Qed.

(** ** Adding one extent *)

(** The tables the invariant does not read. *)
Definition rest (d : db) :=
  (extent_commit_grace d, block_hosts d, block_node_attach d, fenced_clients d,
   block_targets d, block_volume_target d, block_volume_legs d, block_leases d).

Definition row_disjoint (d : db) (v : string) (fid lo len : Z) : Prop := forall lo' e,
  extents d !! (v, fid, lo') = Some e -> lo' + e_len e <= lo \/ lo + len <= lo'.

Lemma row_disjoint_fresh d v fid lo len :
  ext_wf d v -> 0 < len -> row_disjoint d v fid lo len -> extents d !! (v, fid, lo) = None.
Proof.
  intros Hwf Hl Hd. destruct (extents d !! (v, fid, lo)) as [e|] eqn:He; [|done].
  apply Hwf in He as ?. apply Hd in He. lia.
Qed.

(** Inserting one fresh row whose physical range comes out of the free list
    or out of the arena's unused end. *)
Section add_extent.
Context (d d' : db) (v : string) (fid lo : Z) (e : extent).
Context (He : extents d' = <[(v, fid, lo) := e]> (extents d)).

Lemma add_lookup f l e' :
  extents d' !! (v, f, l) = Some e' <->
  (f = fid /\ l = lo /\ e' = e) \/ ((f, l) <> (fid, lo) /\ extents d !! (v, f, l) = Some e').
Proof.
  rewrite He, lookup_insert_Some. split.
  - intros [[[= -> ->] <-]|[Hne ?]]; [by left|right]. split; [congruence|done].
  - intros [(-> & -> & ->)|[Hne ?]]; [by left|right]. split; [congruence|done].
Qed.

Lemma add_owner q f l e' :
  ext_owner d' v q f l e' <->
  (f = fid /\ l = lo /\ e' = e /\ e_phys e <= q < e_phys e + e_len e) \/
  ((f, l) <> (fid, lo) /\ ext_owner d v q f l e').
Proof.
  unfold ext_owner. rewrite add_lookup. split.
  - intros [[(-> & -> & ->)|[? ?]] ?]; eauto.
  - intros [(-> & -> & -> & ?)|[? [? ?]]]; eauto.
Qed.

Lemma add_at q :
  extents d !! (v, fid, lo) = None ->
  ext_at d' v q <-> ext_at d v q \/ e_phys e <= q < e_phys e + e_len e.
Proof.
  intros Hnone. unfold ext_at. setoid_rewrite add_owner. split.
  - intros (f & l & e' & [(-> & -> & -> & ?)|[? ?]]); eauto 10.
  - intros [(f & l & e' & Ho)|?]; [|eauto 10].
    exists f, l, e'. right. split; [|done]. intros [= -> ->].
    destruct Ho as [Ho _]. congruence.
Qed.

Context (a a' : arena).
Context (Hc : core d v) (Ha : volume_alloc d !! v = Some a) (Ha' : volume_alloc d' !! v = Some a').
Context (Hbump : next_free a <= next_free a' <= size_ceiling a').
Context (Hq : extent_quarantine d' = extent_quarantine d).
Context (Hfree : forall q, free_at (extent_free d') v q <->
  free_at (extent_free d) v q /\ ~ e_phys e <= q < e_phys e + e_len e).
Context (Hfrom : forall q, e_phys e <= q < e_phys e + e_len e ->
  free_at (extent_free d) v q \/ next_free a <= q < next_free a').
Context (Hnew : forall q, next_free a <= q < next_free a' -> e_phys e <= q < e_phys e + e_len e).

Lemma add_quar_at q : quar_at d' v q <-> quar_at d v q.
Proof. unfold quar_at, quar_owner. by rewrite Hq. Qed.

(** The bytes the new row takes had no owner. *)
Lemma add_unowned q :
  e_phys e <= q < e_phys e + e_len e -> ~ ext_at d v q /\ ~ quar_at d v q.
Proof.
  intros Hin. destruct (Hfrom q Hin) as [Hf|Hge].
  - split; intros Hx; [by eapply (c_ext_free _ _ Hc)|by eapply (c_free_quar _ _ Hc)].
  - split; intros Hx; destruct (proj1 (c_tile _ _ Hc q)) as (a0 & Ha0 & ?);
      [by left|rewrite Ha in Ha0; simplify_eq; lia|by right; right|
       rewrite Ha in Ha0; simplify_eq; lia].
Qed.

(** The three homes still tile the arena up to the new [next_free]. *)
Lemma add_tile q :
  extents d !! (v, fid, lo) = None ->
  ext_at d' v q \/ free_at (extent_free d') v q \/ quar_at d' v q <->
  exists a, volume_alloc d' !! v = Some a /\ 0 <= q < next_free a.
Proof.
  intros Hnone. rewrite add_at, Hfree, add_quar_at by done.
  pose proof (c_tile _ _ Hc q) as Ht. destruct (c_arena _ _ Hc _ Ha) as [? ?]. split.
  - intros Hcov. exists a'. split; [done|].
    assert ((exists a, volume_alloc d !! v = Some a /\ 0 <= q < next_free a) \/
            next_free a <= q < next_free a') as [(a0 & Ha0 & ?)|?]; [|simplify_eq; lia|lia].
    destruct Hcov as [[?|Hin]|[[? _]|?]]; try (rewrite <- Ht; tauto).
    destruct (Hfrom q Hin); [rewrite <- Ht|]; tauto.
  - intros (a0 & Ha0 & Hq0). simplify_eq.
    destruct (decide (e_phys e <= q < e_phys e + e_len e)); [tauto|].
    destruct (proj2 Ht) as [?|[?|?]]; [|tauto..].
    exists a. split; [done|]. split; [lia|].
    destruct (decide (next_free a <= q)); [|lia]. exfalso. naive_solver lia.
Qed.

Lemma add_logical :
  0 < e_len e -> row_disjoint d v fid lo (e_len e) -> logical_disjoint d' v.
Proof.
  intros Hlen Hdis f l1 l2 e1 e2
    [(-> & -> & ->)|[Hn1 H1]]%add_lookup [(? & -> & ->)|[Hn2 H2]]%add_lookup Hlt; try lia.
  - destruct (Hdis _ _ H2); [|done]. apply (c_ext _ _ Hc) in H2. lia.
  - subst f. destruct (Hdis _ _ H1); [done|]. apply (c_ext _ _ Hc) in H1. lia.
  - by eapply (c_log _ _ Hc).
Qed.

Lemma core_add_extent :
  extent_grants d' = extent_grants d -> free_ok (extent_free d') v ->
  is_i64 fid -> 0 <= lo -> 0 < e_len e -> lo + e_len e <= i64_max -> 0 <= e_phys e ->
  row_disjoint d v fid lo (e_len e) -> size_ceiling a' = size_ceiling a ->
  core d' v.
Proof.
  intros Hg Hfo Hfid Hlo Hlen Hend Hph Hdis Hcl.
  pose proof (row_disjoint_fresh _ _ _ _ _ (c_ext _ _ Hc) Hlen Hdis) as Hnone.
  destruct (c_arena _ _ Hc _ Ha) as [? ?].
  split.
  - intros f l e' [(-> & -> & ->)|[_ Hx]]%add_lookup; [done|]. by apply (c_ext _ _ Hc) in Hx.
  - intros po r. rewrite Hq. apply (c_quar _ _ Hc).
  - done.
  - by apply add_logical.
  - intros q f1 l1 e1 f2 l2 e2 [(-> & -> & -> & Hin)|[Hn1 H1]]%add_owner
      [(-> & -> & -> & Hin')|[Hn2 H2]]%add_owner; [done|..].
    + destruct (add_unowned q Hin) as [[] _]. by exists f2, l2, e2.
    + destruct (add_unowned q Hin') as [[] _]. by exists f1, l1, e1.
    + by eapply (c_ext_uniq _ _ Hc).
  - intros q p1 r1 p2 r2. unfold quar_owner. rewrite Hq. apply (c_quar_uniq _ _ Hc).
  - intros q [Hx|Hin]%add_at [Hf Hni]%Hfree; [by eapply (c_ext_free _ _ Hc)|done..].
  - intros q [Hx|Hin]%add_at Hx'%add_quar_at; [by eapply (c_ext_quar _ _ Hc)|by apply (add_unowned q Hin)|done].
  - intros q [Hf _]%Hfree Hx'%add_quar_at. by eapply (c_free_quar _ _ Hc).
  - intros q. by apply add_tile.
  - intros a0 Ha0. simplify_eq. lia.
  - intros f l c g Hgr. rewrite Hg in Hgr.
    destruct (c_grants _ _ Hc _ _ _ _ Hgr) as (e' & He' & Hgen). exists e'. split; [|done].
    apply add_lookup. right. split; [|done]. intros [= -> ->]. congruence.
  - intros f l c g. rewrite Hg. apply (c_client _ _ Hc).
  - intros f l c1 c2 g1 g2. rewrite Hg. apply (c_rw _ _ Hc).
Qed.
End add_extent.

(** What placing a gap of [n] bytes does, from a state with the core
    invariant: the bytes come off the free list or from the watermark. *)
Record placed (d d' : db) (v : string) (n phys : Z) : Prop := {
  pl_ext : extents d' = extents d;
  pl_grants : extent_grants d' = extent_grants d;
  pl_quar : extent_quarantine d' = extent_quarantine d;
  pl_rest : rest d' = rest d;
  pl_ok : free_ok (extent_free d') v;
  pl_phys : 0 <= phys;
  pl_arena : exists a a', volume_alloc d !! v = Some a /\ volume_alloc d' !! v = Some a' /\
    next_free a <= next_free a' <= size_ceiling a' /\ size_ceiling a' = size_ceiling a /\
    extent_rows a' = extent_rows a /\
    (forall q, phys <= q < phys + n ->
       free_at (extent_free d) v q \/ next_free a <= q < next_free a') /\
    (forall q, next_free a <= q < next_free a' -> phys <= q < phys + n);
  pl_free : forall q, free_at (extent_free d') v q <->
    free_at (extent_free d) v q /\ ~ phys <= q < phys + n;
  pl_frame : forall w, w <> v -> volume_alloc d' !! w = volume_alloc d !! w /\
    forall po, extent_free d' !! (w, po) = extent_free d !! (w, po) }.

Lemma free_at_delete F v po r q :
  free_ok F v -> F !! (v, po) = Some r ->
  free_at (delete (v, po) F) v q <-> free_at F v q /\ ~ po <= q < po + fr_len r.
Proof.
  intros Hok Hr. unfold free_at. split.
  - intros (p & r' & Hp & Hq). apply lookup_delete_Some in Hp as [Hne Hp].
    split; [by exists p, r'|]. intros Hin.
    assert (p <> po) by congruence.
    destruct (Z.lt_total p po) as [Hlt|[?|Hlt]]; [|done|].
    + pose proof (fo_gap _ _ Hok _ _ _ _ Hp Hr Hlt). lia.
    + pose proof (fo_gap _ _ Hok _ _ _ _ Hr Hp Hlt). lia.
  - intros [(p & r' & Hp & Hq) Hni]. exists p, r'. split; [|done].
    rewrite lookup_delete_ne; [done|]. intros [= <-]. rewrite Hr in Hp. simplify_eq. lia.
Qed.

Lemma place_reuse_spec d v n po r :
  core d v -> 0 < n -> n <= fr_len r -> extent_free d !! (v, po) = Some r ->
  exists F2, (if fr_len r >? n
     then sql (free_insert_coalescing (delete (v, po) (extent_free d)) v (po + n) (fr_len r - n) (fr_gen r))
     else Ok (delete (v, po) (extent_free d))) = Ok F2 /\ free_ok F2 v /\
   (forall q, free_at F2 v q <-> free_at (extent_free d) v q /\ ~ po <= q < po + n) /\
   (forall k, k.1 <> v -> F2 !! k = extent_free d !! k).
Proof.
  intros Hc Hn Hle Hr. pose proof (c_free _ _ Hc) as Hok.
  assert (Hfr : forall k, k.1 <> v -> delete (v, po) (extent_free d) !! k = extent_free d !! k).
  { intros k Hk. apply lookup_delete_ne. intros <-. done. }
  pose proof (fun q => free_at_delete _ _ _ _ q Hok Hr) as Hd.
  destruct (fo_row _ _ Hok _ _ Hr) as [Hpo Hrl].
  rewrite Z.gtb_ltb. destruct (Z.ltb_spec n (fr_len r)) as [Hlt|Hge].
  - destruct (free_insert_spec (delete (v, po) (extent_free d)) v (po + n) (fr_len r - n) (fr_gen r))
      as (F2 & HF & Hok2 & Hat & _ & Hfr2).
    { split; [by apply free_ok_delete|lia|]. intros p r' Hp.
      apply lookup_delete_Some in Hp as [Hne Hp]. assert (p <> po) by congruence.
      destruct (Z.lt_total p po) as [Hl|[?|Hl]]; [left|done|right].
      - pose proof (fo_gap _ _ Hok _ _ _ _ Hp Hr Hl). lia.
      - pose proof (fo_gap _ _ Hok _ _ _ _ Hr Hp Hl). lia. }
    exists F2. rewrite HF. split; [done|]. split; [done|]. split.
    + intros q. rewrite Hat, Hd. split; [|intros [? ?];
        destruct (decide (po <= q < po + fr_len r)); [right; lia|left; by split]].
      intros [[? ?]|?]; [split; [done|lia]|]. split; [|lia]. exists po, r. split; [done|lia].
    + intros k Hk. rewrite Hfr2, Hfr by done. done.
  - exists (delete (v, po) (extent_free d)). split; [done|]. split; [by apply free_ok_delete|].
    split; [|done]. intros q. rewrite Hd. replace (fr_len r) with n by lia. done.
Qed.

Lemma place_gap_spec d v fresh n d' phys gen reused :
  core d v -> 0 < n <= i64_max ->
  place_gap d v fresh n = Ok (d', phys, gen, reused) -> placed d d' v n phys.
Proof.
  intros Hc Hn. unfold place_gap.
  destruct (if fresh then None else first_fit (extent_free d) v n) as [[po r]|] eqn:Hhit.
  - assert (first_fit (extent_free d) v n = Some (po, r)) as Hff by (destruct fresh; done).
    apply first_fit_Some in Hff as [Hr Hle]. clear Hhit.
    destruct (place_reuse_spec d v n po r Hc ltac:(lia) Hle Hr) as (F2 & -> & Hok & Hat & Hfr).
    simpl. intros [= <- <- <- <-].
    destruct (fo_row _ _ (c_free _ _ Hc) _ _ Hr) as [Hpo _].
    destruct (proj1 (c_tile _ _ Hc po)) as (a & Ha & _).
    { right; left. exists po, r. split; [done|]. lia. }
    split; simpl; try done.
    + exists a, a. destruct (c_arena _ _ Hc _ Ha) as [[? ?] ?]. split_and!; try done; try lia.
      intros q Hq. left. exists po, r. split; [done|lia].
    + intros w Hw. split; [done|]. intros p. by apply Hfr.
  - clear Hhit. intros H. inv_res. apply one_row_Ok in E. unfold bump_next_free in E1.
    destruct (next_free a + n >? i64_max) eqn:Hov; [done|]. simplify_eq. bool_Z.
    destruct (c_arena _ _ Hc _ E) as [[? ?] ?].
    rewrite wrap_i64_id in E0 by bounds. bool_Z.
    split; simpl; try done.
    + apply (c_free _ _ Hc).
    + exists a. eexists. split_and!; [done|by rewrite lookup_insert_eq|simpl; lia..|done|simpl|simpl].
      * intros q Hq. right. lia.
      * intros q Hq. lia.
    + intros q. split; [|tauto]. intros Hf. split; [done|]. intros Hin.
      destruct (proj1 (c_tile _ _ Hc q)) as (b & Hb & ?); [by right; left|].
      rewrite E in Hb. simplify_eq. lia.
    + intros w Hw. by rewrite lookup_insert_ne.
Qed.

(** A refusal the code means: neither detected corruption nor a primary-key
    conflict inside a transaction. *)
Definition refusal (e : ExtentAllocError) : Prop :=
  match e with
  | Corruption _ | SqlError ConstraintViolation => False
  | _ => True
  end.

Lemma place_gap_refusal d v fresh n e :
  core d v -> 0 < n -> place_gap d v fresh n = Err e -> refusal e.
Proof.
  intros Hc Hn. unfold place_gap.
  destruct (if fresh then None else first_fit (extent_free d) v n) as [[po r]|] eqn:Hhit.
  - assert (first_fit (extent_free d) v n = Some (po, r)) as Hff by (destruct fresh; done).
    apply first_fit_Some in Hff as [Hr Hle].
    by destruct (place_reuse_spec d v n po r Hc ltac:(lia) Hle Hr) as (F2 & -> & _).
  - unfold one_row, bump_next_free, fail_if. clear Hhit.
    destruct (volume_alloc d !! v) as [a|]; cbn; [|intros; by simplify_eq].
    destruct (wrap_i64 (next_free a + n) >? size_ceiling a); cbn; [intros; by simplify_eq|].
    destruct (next_free a + n >? i64_max); cbn; intros; by simplify_eq.
Qed.

(** The effect of allocating [rows] in one file. *)
Record added (d d' : db) (v : string) (fid : Z) (rows : list ExtentRow) : Prop := {
  ad_core : core d' v;
  ad_old : forall k e, extents d !! k = Some e -> extents d' !! k = Some e;
  ad_new : forall r, r ∈ rows -> extents d' !! (v, fid, logical_offset r) = Some (cols_of r) /\
    extents d !! (v, fid, logical_offset r) = None /\ row_state r = StInvalid;
  ad_only : forall k e, extents d' !! k = Some e ->
    extents d !! k = Some e \/ exists r, r ∈ rows /\ k = (v, fid, logical_offset r) /\ e = cols_of r;
  ad_grants : extent_grants d' = extent_grants d;
  ad_rest : rest d' = rest d;
  ad_count : count_extents d' v = count_extents d v + Z.of_nat (length rows);
  ad_alloc : extent_rows <$> volume_alloc d' !! v = extent_rows <$> volume_alloc d !! v;
  ad_frame : forall w, w <> v -> same_volume d d' w }.

Lemma alloc_gap_spec d v fid fresh g d' r reused :
  core d v -> is_i64 fid -> 0 <= g.1 -> 0 < g.2 -> g.1 + g.2 <= i64_max ->
  row_disjoint d v fid g.1 g.2 ->
  alloc_gap d v fid fresh g = Ok (d', r, reused) ->
  added d d' v fid [r] /\ logical_offset r = g.1 /\ row_len r = g.2.
Proof.
  intros Hc Hfid H1 H2 H3 Hdis. unfold alloc_gap. intros H.
  apply bind_Ok in H as ([[[d1 phys] gen] re] & Hp & H).
  apply bind_Ok in H as (E & HE & H). simplify_eq.
  apply place_gap_spec in Hp; [|done|lia]. destruct Hp as [He Hg Hq Hr Hok Hph Har Hfree Hfr].
  destruct Har as (a & a' & Ha & Ha' & Hnf & Hcl & Hrows & Hfrom & Hnew).
  apply sql_Ok, insert_new_Ok in HE as [Hnone ->]. rewrite He in Hnone |- *.
  split; [|done]. split; simpl; try done.
  - by eapply (core_add_extent d _ v fid g.1 (Extent g.2 phys gen StInvalid)).
  - intros k e Hk. rewrite lookup_insert_ne; [done|]. intros <-. congruence.
  - intros r ->%list_elem_of_singleton. simpl. rewrite lookup_insert_eq. done.
  - intros k e. rewrite lookup_insert_Some. intros [[<- <-]|[_ ?]]; [right|by left].
    eexists. split; [by left|done].
  - unfold count_extents. simpl. rewrite count_insert_new by done.
    unfold in_volume. simpl. by rewrite bool_decide_eq_true_2.
  - rewrite Ha, Ha'. simpl. by rewrite Hrows.
  - intros w Hw. destruct (Hfr w Hw) as [Hal Hf]. split; simpl; try done.
    + intros f lo. rewrite lookup_insert_ne by congruence. done.
    + intros. by rewrite Hg.
    + intros. by rewrite Hq.
Qed.

Lemma alloc_gap_refusal d v fid fresh g e :
  core d v -> 0 < g.2 <= i64_max -> row_disjoint d v fid g.1 g.2 ->
  alloc_gap d v fid fresh g = Err e -> refusal e.
Proof.
  intros Hc Hg Hdis. unfold alloc_gap. rewrite bind_Err.
  intros [Hp|([[[d1 phys] gen] re] & Hp & H)]; [by eapply place_gap_refusal; eauto; lia|].
  apply place_gap_spec in Hp; [|done|lia].
  apply bind_Err in H as [H|(E & _ & H)]; [|done].
  rewrite (pl_ext _ _ _ _ _ Hp) in H. unfold insert_new in H.
  by rewrite (row_disjoint_fresh d v fid g.1 g.2) in H by (apply Hc || done || lia).
Qed.

Lemma added_trans d1 d2 d3 v fid r rs :
  added d1 d2 v fid [r] -> added d2 d3 v fid rs -> added d1 d3 v fid (r :: rs).
Proof.
  intros A B. split.
  - by apply (ad_core _ _ _ _ _ B).
  - intros k e Hk. by apply (ad_old _ _ _ _ _ B), (ad_old _ _ _ _ _ A).
  - intros x [->|Hx]%elem_of_cons.
    + destruct (ad_new _ _ _ _ _ A r ltac:(by left)) as (? & ? & ?).
      split_and!; try done. by apply (ad_old _ _ _ _ _ B).
    + destruct (ad_new _ _ _ _ _ B x Hx) as (? & Hn & ?). split_and!; try done.
      destruct (extents d1 !! _) eqn:Hx1; [|done].
      apply (ad_old _ _ _ _ _ A) in Hx1. congruence.
  - intros k e [Hk|(x & Hx & -> & ->)]%(ad_only _ _ _ _ _ B).
    + apply (ad_only _ _ _ _ _ A) in Hk as [?|(x & ->%list_elem_of_singleton & -> & ->)];
        [by left|right]. exists r. split; [by left|done].
    + right. exists x. split; [by right|done].
  - by rewrite (ad_grants _ _ _ _ _ B), (ad_grants _ _ _ _ _ A).
  - by rewrite (ad_rest _ _ _ _ _ B), (ad_rest _ _ _ _ _ A).
  - rewrite (ad_count _ _ _ _ _ B), (ad_count _ _ _ _ _ A). simpl. lia.
  - by rewrite (ad_alloc _ _ _ _ _ B), (ad_alloc _ _ _ _ _ A).
  - intros w Hw. eapply (same_volume_trans w).
    + by apply (ad_frame _ _ _ _ _ A).
    + by apply (ad_frame _ _ _ _ _ B).
Qed.

Lemma added_nil d v fid : core d v -> added d d v fid [].
Proof.
  intros Hc. split; try done; [by intros ? ?%elem_of_nil|by left|simpl; lia].
Qed.

(** Gaps that can be allocated one after the other. *)
Definition gaps_free (d : db) (v : string) (fid : Z) (gs : list (Z * Z)) : Prop :=
  (forall g, g ∈ gs -> 0 <= g.1 /\ 0 < g.2 /\ g.1 + g.2 <= i64_max /\
     row_disjoint d v fid g.1 g.2) /\
  StronglySorted (fun a b => a.1 + a.2 <= b.1) gs.

Lemma gaps_free_step d d' v fid g gs r :
  gaps_free d v fid (g :: gs) -> added d d' v fid [r] ->
  logical_offset r = g.1 -> row_len r = g.2 -> gaps_free d' v fid gs.
Proof.
  intros [Hg Hs] A Hlo Hlen. apply StronglySorted_inv in Hs as [Hs Hgs].
  rewrite Forall_forall in Hgs. split; [|done]. intros g' Hg'.
  destruct (Hg g' ltac:(by right)) as (? & ? & ? & Hd). split_and!; try done.
  intros lo e [He|(x & ->%list_elem_of_singleton & [= ->] & ->)]%(ad_only _ _ _ _ _ A).
  - by eapply Hd.
  - left. simpl. rewrite Hlo, Hlen. by apply Hgs.
Qed.

Lemma alloc_gaps_spec v fid fresh gs : is_i64 fid -> forall d d' rows reused,
  core d v -> gaps_free d v fid gs ->
  alloc_gaps d v fid fresh gs = Ok (d', rows, reused) ->
  added d d' v fid rows /\ (fun r => (logical_offset r, row_len r)) <$> rows = gs.
Proof.
  intros Hfid. induction gs as [|g gs IH]; intros d d' rows reused Hc Hgf; simpl.
  { intros [= <- <- <-]. split; [by apply added_nil|done]. }
  intros H. apply bind_Ok in H as ([[d1 r] re] & Hg & H).
  apply bind_Ok in H as ([[d2 rs] ph] & Hgs & H). simplify_eq.
  destruct (proj1 Hgf g ltac:(by left)) as (? & ? & ? & ?).
  apply alloc_gap_spec in Hg as (A & Hlo & Hlen); try done.
  eapply IH in Hgs as (B & Hm); [|by apply (ad_core _ _ _ _ _ A)|by eapply gaps_free_step].
  split; [by eapply added_trans|]. csimpl. rewrite Hm, Hlo, Hlen. by destruct g.
Qed.

Lemma alloc_gaps_refusal v fid fresh gs : is_i64 fid -> forall d e,
  core d v -> gaps_free d v fid gs -> alloc_gaps d v fid fresh gs = Err e -> refusal e.
Proof.
  intros Hfid. induction gs as [|g gs IH]; intros d e Hc Hgf; simpl; [done|].
  destruct (proj1 Hgf g ltac:(by left)) as (? & ? & ? & ?).
  rewrite bind_Err. intros [Hg|([[d1 r] re] & Hg & H')].
  { eapply alloc_gap_refusal; [done| |done|done]. lia. }
  apply alloc_gap_spec in Hg as (A & Hlo & Hlen); try done.
  apply bind_Err in H' as [H'|([[d2 rs] ph] & _ & H')]; [|done].
  eapply IH; [|by eapply gaps_free_step|done]. by apply (ad_core _ _ _ _ _ A).
Qed.

(** ** Grant rows *)
Lemma core_set_grants d v G :
  core d v -> grants_ok (set_grants G d) v ->
  (forall f lo c g, G !! (v, f, lo, c) = Some g -> 0 <= c <= i64_max) ->
  rw_exclusive (set_grants G d) v -> core (set_grants G d) v.
Proof. intros [] ? ? ?. by split. Qed.

Lemma core_add_rows d v n : core d v -> core (add_rows d v n) v.
Proof.
  intros Hc. unfold add_rows. destruct (volume_alloc d !! v) as [a|] eqn:Ha; [|done].
  destruct Hc as [? ? ? ? ? ? ? ? ? Ht Har ? ? ?]. split; try done; simpl.
  - intros q. etrans; [exact (Ht q)|].
    rewrite Ha, lookup_insert_eq. split; intros (b & [= <-] & ?); eauto.
  - intros b. rewrite lookup_insert_eq. intros [= <-]. simpl. by apply Har.
Qed.

Lemma add_rows_frame d v n w : w <> v -> same_volume d (add_rows d v n) w.
Proof.
  intros Hw. unfold add_rows. destruct (volume_alloc d !! v); [|done].
  split; try done. simpl. by rewrite lookup_insert_ne.
Qed.

Lemma add_rows_counter d v n :
  extents (add_rows d v n) = extents d /\ extent_grants (add_rows d v n) = extent_grants d /\
  rest (add_rows d v n) = rest d /\
  (forall a, volume_alloc (add_rows d v n) !! v = Some a ->
     exists a', volume_alloc d !! v = Some a' /\ extent_rows a = extent_rows a' + n).
Proof.
  unfold add_rows. destruct (volume_alloc d !! v) as [a|] eqn:Ha; [|split_and!; congruence].
  split_and!; try done. simpl. intros b. rewrite lookup_insert_eq. intros [= <-]. eauto.
Qed.

Section grant_rows.
Context (v : string) (fid client : Z) (mode : grant_mode).
Let put G e := insert_or_ignore (v, fid, logical_offset e, client)
                 (GrantRow mode (generation e) false) G.

Lemma put_rows_lookup rows : forall G,
  (forall k g, G !! k = Some g -> foldl put G rows !! k = Some g) /\
  (forall k g, foldl put G rows !! k = Some g -> G !! k = Some g \/
     exists r, r ∈ rows /\ k = (v, fid, logical_offset r, client) /\
       g = GrantRow mode (generation r) false) /\
  (forall r, r ∈ rows -> is_Some (foldl put G rows !! (v, fid, logical_offset r, client))).
Proof.
  induction rows as [|r rows IH]; intros G; simpl.
  { split_and!; [done|by left|by intros ? ?%elem_of_nil]. }
  destruct (IH (put G r)) as (Hold & Hnew & Hheld).
  assert (Hput : forall k g, G !! k = Some g -> put G r !! k = Some g).
  { intros k g Hk. unfold put, insert_or_ignore. destruct (G !! (v, fid, logical_offset r, client)) eqn:E; [done|].
    rewrite lookup_insert_ne; [done|]. intros <-. congruence. }
  split_and!.
  - eauto.
  - intros k g [Hk|(x & ? & ? & ?)]%Hnew.
    + unfold put, insert_or_ignore in Hk. destruct (G !! (v, fid, logical_offset r, client)) eqn:E; [by left|].
      apply lookup_insert_Some in Hk as [[<- <-]|[_ ?]]; [right|by left].
      exists r. split; [by left|done].
    + right. exists x. split; [by right|done].
  - intros x [->|Hx]%elem_of_cons; [|by apply Hheld].
    destruct (G !! (v, fid, logical_offset r, client)) as [g|] eqn:E.
    + exists g. by apply Hold, Hput.
    + exists (GrantRow mode (generation r) false). apply Hold. unfold put, insert_or_ignore.
      by rewrite E, lookup_insert_eq.
Qed.
End grant_rows.

Lemma grant_rows_core d v fid client mode rows :
  core d v -> 0 <= client <= i64_max ->
  (forall r, r ∈ rows -> extents d !! (v, fid, logical_offset r) = Some (cols_of r)) ->
  (mode = ModeRw -> forall r c g, r ∈ rows ->
     extent_grants d !! (v, fid, logical_offset r, c) = Some g -> g_fenced g = true \/ c = client) ->
  core (grant_rows d v fid client mode rows) v.
Proof.
  intros Hc Hcl Hrows Hex. unfold grant_rows.
  destruct (put_rows_lookup v fid client mode rows (extent_grants d)) as (Hold & Hnew & _).
  apply core_set_grants; [done|..]; simpl.
  - intros f lo c g [Hg|(r & Hr & [= -> -> ->] & ->)]%Hnew.
    + by apply (c_grants _ _ Hc) in Hg.
    + exists (cols_of r). split; [by apply Hrows|done].
  - intros f lo c g [Hg|(r & Hr & [= -> -> ->] & ->)]%Hnew; [|done].
    by apply (c_client _ _ Hc) in Hg.
  - intros f lo c1 c2 g1 g2 H1 H2 Hf1 Hf2 Hm1 Hm2. simpl in H1, H2.
    apply Hnew in H1 as [H1|(r1 & Hr1 & [= -> -> ->] & ->)];
      apply Hnew in H2 as [H2|(r2 & Hr2 & Heq & ->)].
    + by eapply (c_rw _ _ Hc).
    + simplify_eq/=. destruct (Hex eq_refl r2 c1 g1); [done|done|congruence|done].
    + simplify_eq/=. destruct (Hex eq_refl r1 c2 g2); [done|done|congruence|done].
    + by simplify_eq.
Qed.

Lemma grant_rows_frame d v fid client mode rows w :
  w <> v -> same_volume d (grant_rows d v fid client mode rows) w.
Proof.
  intros Hw. split; try done. intros f lo c. simpl.
  destruct (put_rows_lookup v fid client mode rows (extent_grants d)) as (Hold & Hnew & _).
  destruct (extent_grants d !! (w, f, lo, c)) as [g|] eqn:Hg; [by apply Hold|].
  destruct (foldl _ _ _ !! _) as [g|] eqn:Hg'; [|done].
  apply Hnew in Hg' as [?|(r & _ & [= -> _ _ _] & _)]; congruence.
Qed.

Lemma touched_rows d v fid rows :
  (forall r, r ∈ rows -> extents d !! (v, fid, logical_offset r) = Some (cols_of r)) ->
  Forall (touched_row d v) (touch_row fid <$> rows).
Proof.
  intros Hr. apply Forall_fmap, Forall_forall. intros r Hin. exists (cols_of r).
  split; [by apply Hr|done].
Qed.

(** ** The grant transaction *)
Lemma as_i64_Ok x what y : as_i64 x what = Ok y <-> x <= i64_max /\ y = x.
Proof.
  unfold as_i64. rewrite Z.gtb_ltb. destruct (Z.ltb_spec i64_max x); split; intros;
    destruct_and?; simplify_eq; try done; lia.
Qed.

Lemma checked_end_Ok lo len e :
  is_u64 lo -> is_u64 len ->
  checked_end lo len = Ok e <-> 0 < len /\ lo + len <= i64_max /\ e = lo + len.
Proof.
  unfold checked_end, is_u64. intros [? ?] [? ?]. rewrite !Z.gtb_ltb.
  destruct (Z.eqb_spec len 0); [split; intros; destruct_and?; simplify_eq; lia|].
  destruct (Z.ltb_spec u64_max (lo + len)).
  { split; [done|]. bounds. }
  destruct (Z.ltb_spec i64_max (lo + len)); split; intros; destruct_and?; simplify_eq;
    split_and?; try done; lia.
Qed.

Lemma as_i64_invalid x what e : as_i64 x what = Err e -> exists why, e = InvalidRange why.
Proof. unfold as_i64. destruct (_ >? _); intros; simplify_eq; eauto. Qed.
Lemma checked_end_invalid lo len e : checked_end lo len = Err e -> exists why, e = InvalidRange why.
Proof. unfold checked_end. repeat case_match; intros; simplify_eq; eauto. Qed.

Lemma as_i64_Err x what e : as_i64 x what = Err e -> refusal e.
Proof. unfold as_i64. destruct (_ >? _); intros; by simplify_eq. Qed.
Lemma checked_end_Err lo len e : checked_end lo len = Err e -> refusal e.
Proof. unfold checked_end. repeat case_match; intros; by simplify_eq. Qed.

Lemma has_fenced_false d v client :
  has_fenced_grant d v client = false ->
  forall f lo g, extent_grants d !! (v, f, lo, client) = Some g -> g_fenced g = false.
Proof.
  unfold has_fenced_grant. rewrite exists_where_false. intros H f lo g Hg.
  apply H in Hg. simpl in Hg. by rewrite bool_decide_eq_true_2 in Hg.
Qed.

Lemma is_nil_true {A} (l : list A) : is_nil l = true <-> l = [].
Proof. destruct l; split; done. Qed.

Lemma overlapping_chain d v file_id s e :
  core d v ->
  StronglySorted (fun x y => row_end x <= logical_offset y) (overlapping_extents d v file_id s e).
Proof.
  intros Hc. apply sorted_impl with (L := fun x y => logical_offset x < logical_offset y).
  - apply overlapping_sorted.
  - apply sorted_irrefl_NoDup with (R := fun x y => logical_offset x < logical_offset y);
      [apply overlapping_sorted|]. intros. lia.
  - intros x y [_ Hx]%elem_of_overlapping [_ Hy]%elem_of_overlapping _ Hlt.
    apply (c_log _ _ Hc _ _ _ _ _ Hx Hy Hlt).
Qed.

(** The gaps of a request avoid every row of the file, not only the
    overlapping ones. *)
Lemma request_gaps d v file_id lo len :
  core d v -> is_u64 lo -> 0 < len -> lo + len <= i64_max ->
  let existing := overlapping_extents d v file_id lo (lo + len) in
  let gs := gaps_from lo existing (lo + len) in
  gaps_ok lo (lo + len) existing gs /\ gaps_free d v (wrap_i64 file_id) gs.
Proof.
  intros Hc [Hlo _] Hlen Hend existing gs.
  assert (Hok : gaps_ok lo (lo + len) existing gs).
  { apply gaps_from_ok; [by apply overlapping_chain|].
    intros r [[? ?] Hr]%elem_of_overlapping. apply (c_ext _ _ Hc) in Hr. simpl in Hr. lia. }
  split; [done|]. split; [|by apply (gp_sorted _ _ _ _ Hok)].
  intros g Hg. destruct (gp_range _ _ _ _ Hok g Hg) as (? & ? & ?). split_and!; try lia.
  intros lo' e He. destruct (decide (lo' < lo + len /\ lo' + e_len e > lo)) as [Hov|Hno].
  - apply (gp_disj _ _ _ _ Hok g (row_of lo' e) Hg). apply elem_of_overlapping.
    split; [done|]. simpl. rewrite He. by destruct e.
  - lia.
Qed.

(** Settling the counter after an allocation restores the full invariant. *)
Lemma settle_rows_spec d d1 v fid new :
  counter_ok d v -> added d d1 v fid new ->
  let d2 := settle_rows d1 v new in
  core d2 v /\ counter_ok d2 v /\ extents d2 = extents d1 /\
  extent_grants d2 = extent_grants d /\ rest d2 = rest d /\
  (forall w, w <> v -> same_volume d d2 w).
Proof.
  intros Hn A d2. pose proof (ad_alloc _ _ _ _ _ A) as Hrows.
  pose proof (ad_count _ _ _ _ _ A) as Hcnt.
  assert (d2 = d1 /\ new = [] \/ d2 = add_rows d1 v (Z.of_nat (length new))) as [[-> ->]| ->].
  { unfold d2, settle_rows. destruct new; [by left|by right]. }
  - split_and!; try done; [apply (ad_core _ _ _ _ _ A)| |apply (ad_grants _ _ _ _ _ A)|
      apply (ad_rest _ _ _ _ _ A)|apply (ad_frame _ _ _ _ _ A)].
    intros a Ha. rewrite Ha in Hrows. simpl in Hrows, Hcnt.
    symmetry in Hrows. apply fmap_Some in Hrows as (a' & Ha' & ->). rewrite (Hn a' Ha'). lia.
  - destruct (add_rows_counter d1 v (Z.of_nat (length new))) as (He & Hg & Hr & Hcnt').
    split_and!; [apply core_add_rows, (ad_core _ _ _ _ _ A)| |done|
      rewrite Hg; apply (ad_grants _ _ _ _ _ A)|rewrite Hr; apply (ad_rest _ _ _ _ _ A)|].
    + intros a Ha. apply Hcnt' in Ha as (a1 & Ha1 & ->). rewrite Ha1 in Hrows.
      symmetry in Hrows. apply fmap_Some in Hrows as (a' & Ha' & Hr').
      unfold count_extents in *. rewrite He, Hcnt, Hr', (Hn a' Ha'). done.
    + intros w Hw. eapply (same_volume_trans w); [by apply (ad_frame _ _ _ _ _ A)|].
      by apply add_rows_frame.
Qed.

Record grant_post (d d' : db) (v : string) (fid client lo end_ : Z) : Prop := {
  gp_inv : vol_inv d' v;
  gp_old : forall k e, extents d !! k = Some e -> extents d' !! k = Some e;
  gp_held : forall o, lo <= o < end_ -> exists l e g,
    extents d' !! (v, fid, l) = Some e /\ l <= o < l + e_len e /\
    extent_grants d' !! (v, fid, l, client) = Some g /\ g_fenced g = false /\ g_gen g = e_gen e;
  gp_fresh : forall k e, extents d' !! k = Some e -> extents d !! k = None -> e_state e = StInvalid;
  gp_rest : rest d' = rest d;
  gp_frame : forall w, w <> v -> same_volume d d' w }.

(** The layout handed to the client: each entry is a row of the file as
    stored, and the entries cover the range. *)
Definition reported (d : db) (v : string) (fid lo end_ : Z) (gs : list GrantedExtent) : Prop :=
  (forall g, g ∈ gs -> exists e, extents d !! (v, fid, ge_logical_offset g) = Some e /\
     ge_length g = e_len e /\ ge_physical_offset g = e_phys e /\
     ge_generation g = wrap_u64 (e_gen e) /\ ge_committed g = bool_decide (e_state e = StRw)) /\
  (forall o, lo <= o < end_ -> exists g, g ∈ gs /\
     ge_logical_offset g <= o < ge_logical_offset g + ge_length g).

Lemma granted_of_row d v fid reused r :
  core d v -> extents d !! (v, fid, logical_offset r) = Some (cols_of r) ->
  granted_of reused r = Granted (logical_offset r) (row_len r) (physical_offset r)
    (wrap_u64 (generation r)) (bool_decide (row_state r = StRw))
    (bool_decide (physical_offset r ∈ reused)).
Proof.
  intros Hc Hr. destruct (c_ext _ _ Hc _ _ _ Hr) as (_ & ? & ? & ? & ?). simpl in *.
  destruct (core_below_watermark _ _ Hc (HExt fid (logical_offset r)) (physical_offset r) (row_len r))
    as (a & Ha & ?); [simpl; by rewrite Hr|]. destruct (c_arena _ _ Hc _ Ha).
  unfold granted_of.
  rewrite !(wrap_u64_id (_ r)) by bounds. done.
Qed.

Lemma granted_reported d v fid lo end_ reused rows :
  core d v ->
  (forall r, r ∈ rows -> extents d !! (v, fid, logical_offset r) = Some (cols_of r)) ->
  (forall o, lo <= o < end_ -> exists r, r ∈ rows /\ in_row o r) ->
  reported d v fid lo end_ (granted_of reused <$> rows).
Proof.
  intros Hc Hst Hcov. split.
  - intros g (r & -> & Hr)%list_elem_of_fmap. rewrite (granted_of_row d v fid) by auto. simpl.
    exists (cols_of r). split_and!; try done. by apply Hst.
  - intros o (r & Hr & Ho)%Hcov. exists (granted_of reused r). split; [apply list_elem_of_fmap; eauto|].
    rewrite (granted_of_row d v fid) by auto. exact Ho.
Qed.

(** The tail of the transaction: settle the counter, insert the grant rows,
    verify the window, commit. *)
Lemma grant_tail d d1 v fid client lo end_ existing new gs :
  vol_inv d v -> 0 <= client <= i64_max -> has_fenced_grant d v client = false ->
  added d d1 v fid new -> gaps_ok lo end_ existing gs ->
  (fun r => (logical_offset r, row_len r)) <$> new = gs ->
  (forall r, r ∈ existing -> extents d !! (v, fid, logical_offset r) = Some (cols_of r)) ->
  (forall r c g, r ∈ existing -> extent_grants d !! (v, fid, logical_offset r, c) = Some g ->
     g_fenced g = true \/ c = client) ->
  let all := merge_sort (by_key logical_offset) (existing ++ new) in
  let d3 := grant_rows (settle_rows d1 v new) v fid client ModeRw all in
  verify_window_invariants_conn d3 v (touch_row fid <$> all) = Ok tt /\
  (forall reused, reported d3 v fid lo end_ (granted_of reused <$> all)) /\
  grant_post d d3 v fid client lo end_.
Proof.
  intros [Hc Hn] Hci Hfen A Hgo Hm Hexi Hexh all d3.
  destruct (settle_rows_spec d d1 v fid new Hn A) as (Hc2 & Hn2 & He2 & Hg2 & Hr2 & Hfr2).
  set (d2 := settle_rows d1 v new) in *.
  assert (Hall : forall r, r ∈ all <-> r ∈ existing \/ r ∈ new).
  { intros r. unfold all. by rewrite merge_sort_Permutation, elem_of_app. }
  assert (Hin : forall r, r ∈ all -> extents d2 !! (v, fid, logical_offset r) = Some (cols_of r)).
  { intros r [Hr|Hr]%Hall; rewrite He2; [by apply (ad_old _ _ _ _ _ A), Hexi|].
    by apply (ad_new _ _ _ _ _ A). }
  assert (Hex : forall r c g, r ∈ all ->
     extent_grants d2 !! (v, fid, logical_offset r, c) = Some g -> g_fenced g = true \/ c = client).
  { intros r c g [Hr|Hr]%Hall Hg; rewrite Hg2 in Hg; [by eapply Hexh|].
    destruct (ad_new _ _ _ _ _ A r Hr) as (_ & Hnone & _).
    apply (c_grants _ _ Hc) in Hg as (e & He & _). congruence. }
  assert (Hc3 : core d3 v) by (by apply grant_rows_core).
  assert (Hcov : forall o, lo <= o < end_ -> exists r, r ∈ all /\ in_row o r).
  { intros o Ho. destruct (gp_cover _ _ _ _ Hgo o Ho) as [(r & Hr & ?)|(g & Hg & Hog)].
    - exists r. split; [|done]. apply Hall. by left.
    - rewrite <- Hm in Hg. apply list_elem_of_fmap in Hg as (r & -> & Hr).
      exists r. split; [apply Hall; by right|]. done. }
  split; [apply core_verify_window; [done|by apply touched_rows]|].
  split; [intros reused; by apply granted_reported|].
  destruct (put_rows_lookup v fid client ModeRw all (extent_grants d2)) as (_ & Gnew & Gheld).
  split; [by split|..]; simpl.
  - intros k e Hk. rewrite He2. by apply (ad_old _ _ _ _ _ A).
  - intros o (r & Hr & Hor)%Hcov.
    destruct (Gheld r Hr) as [g Hg]. exists (logical_offset r), (cols_of r), g.
    assert (g_fenced g = false) as Hgf.
    { apply Gnew in Hg as [Hg|(x & _ & _ & ->)]; [|done].
      rewrite Hg2 in Hg. by apply (has_fenced_false _ _ _ Hfen) in Hg. }
    split_and!; [by apply Hin|apply Hor..|done|done|].
    destruct (c_grants _ _ Hc3 _ _ _ _ Hg) as (e & He & Hgen). simpl in He.
    rewrite (Hin r Hr) in He. simplify_eq. by apply Hgen.
  - intros k e. rewrite He2. intros Hk Hnone.
    apply (ad_only _ _ _ _ _ A) in Hk as [?|(r & Hr & -> & ->)]; [congruence|].
    by apply (ad_new _ _ _ _ _ A) in Hr as (_ & _ & ?).
  - done.
  - intros w Hw. eapply (same_volume_trans w); [by apply Hfr2|]. by apply grant_rows_frame.
Qed.

Lemma over_budget_refusal budget d v gs e : over_budget budget d v gs = Err e -> refusal e.
Proof.
  unfold over_budget. destruct gs; [done|]. destruct (volume_alloc d !! v); [|done].
  unfold fail_if. destruct (_ >? _); intros; by simplify_eq.
Qed.

Lemma grant_spec budget d v file_id client_id lo len fresh :
  vol_inv d v -> is_u64 file_id -> is_u64 client_id -> is_u64 lo -> is_u64 len ->
  match grant budget d v file_id client_id lo len fresh with
  | Ok (gs, d') => reported d' v (wrap_i64 file_id) lo (lo + len) gs /\
                   grant_post d d' v (wrap_i64 file_id) client_id lo (lo + len)
  | Err e => refusal e
  end.
Proof.
  intros Hi Hf Hcl Hlo Hlen. pose proof (vi_core _ _ Hi) as Hc. unfold grant.
  destruct (as_i64 lo _) as [start|e] eqn:E1; [|by eapply as_i64_Err].
  apply as_i64_Ok in E1 as [_ ->]. cbn.
  destruct (checked_end lo len) as [end_|e] eqn:E2; [|by eapply checked_end_Err].
  apply checked_end_Ok in E2 as (Hl0 & Hle & ->); [|done..]. cbn.
  destruct (as_i64 client_id _) as [client|e] eqn:E3; [|by eapply as_i64_Err].
  apply as_i64_Ok in E3 as [Hci ->]. cbn.
  destruct (has_fenced_grant d v client_id) eqn:Hfen; [done|]. cbn.
  set (existing := overlapping_extents d v file_id lo (lo + len)).
  destruct (live_unfenced_holders d v file_id existing (Some client_id)) as [|h hs] eqn:Hh;
    [|done]. cbn.
  destruct (request_gaps d v file_id lo len Hc Hlo Hl0 Hle) as [Hgo Hgf].
  fold existing in Hgo, Hgf |- *. set (gs := gaps_from lo existing (lo + len)) in *.
  destruct (over_budget budget d v gs) as [[]|e] eqn:Hb; [|by eapply over_budget_refusal].
  cbn. pose proof (wrap_i64_range file_id) as Hfid.
  destruct (alloc_gaps d v (wrap_i64 file_id) fresh gs) as [[[d1 new] reused]|e] eqn:Hal;
    [|by eapply alloc_gaps_refusal].
  apply alloc_gaps_spec in Hal as (A & Hm); [|done..]. cbn.
  destruct (grant_tail d d1 v (wrap_i64 file_id) client_id lo (lo + len) existing new gs)
    as (-> & Hrep & Hpost); try done.
  - destruct Hcl. lia.
  - by intros r [_ ?]%elem_of_overlapping.
  - intros r c g Hr Hg.
    destruct (proj1 (holders_nil _ _ _ _ _) Hh r c g Hr Hg) as [|Hc']; [by left|right].
    apply (c_client _ _ Hc) in Hg. rewrite wrap_u64_id in Hc'; [congruence|].
    bounds.
Qed.

(** ** The read grant, registration and expansion *)
Record read_post (d d' : db) (v : string) (fid client lo end_ : Z) : Prop := {
  rp_inv : vol_inv d' v;
  rp_ext : extents d' = extents d;
  rp_free : extent_free d' = extent_free d;
  rp_alloc : volume_alloc d' = volume_alloc d;
  rp_held : forall l e, extents d !! (v, fid, l) = Some e -> e_state e = StRw ->
    l < end_ -> lo < l + e_len e ->
    exists g, extent_grants d' !! (v, fid, l, client) = Some g /\ g_fenced g = false;
  rp_frame : forall w, w <> v -> same_volume d d' w }.

Lemma grant_read_spec d v file_id client_id lo len :
  vol_inv d v -> is_u64 file_id -> is_u64 client_id -> is_u64 lo -> is_u64 len ->
  match grant_read d v file_id client_id lo len with
  | Ok (gs, d') => read_post d d' v (wrap_i64 file_id) client_id lo (lo + len)
  | Err e => refusal e
  end.
Proof.
  intros [Hc Hn] Hf Hcl Hlo Hlen. unfold grant_read.
  destruct (as_i64 lo _) as [start|e] eqn:E1; [|by eapply as_i64_Err].
  apply as_i64_Ok in E1 as [_ ->]. cbn.
  destruct (checked_end lo len) as [end_|e] eqn:E2; [|by eapply checked_end_Err].
  apply checked_end_Ok in E2 as (Hl0 & Hle & ->); [|done..]. cbn.
  destruct (as_i64 client_id _) as [client|e] eqn:E3; [|by eapply as_i64_Err].
  apply as_i64_Ok in E3 as [Hci ->]. cbn.
  destruct (has_fenced_grant d v client_id) eqn:Hfen; [done|]. cbn.
  set (rows := filter _ _).
  assert (Hin : forall r, r ∈ rows -> row_state r = StRw /\
     extents d !! (v, wrap_i64 file_id, logical_offset r) = Some (cols_of r)).
  { intros r [? [_ ?]%elem_of_overlapping]%list_elem_of_filter. done. }
  assert (Hc' : core (grant_rows d v (wrap_i64 file_id) client_id ModeRead rows) v).
  { apply grant_rows_core; try done; [destruct Hcl; lia|]. by intros r [_ ?]%Hin. }
  rewrite (core_verify_window _ v) by (done || by apply touched_rows; intros r [_ ?]%Hin). cbn.
  destruct (put_rows_lookup v (wrap_i64 file_id) client_id ModeRead rows (extent_grants d))
    as (_ & Gnew & Gheld).
  split; [by split|done..| |].
  - intros l e He Hst H1 H2. simpl.
    destruct (Gheld (row_of l e)) as [g Hg].
    { apply list_elem_of_filter. split; [done|]. apply elem_of_overlapping. simpl.
      unfold row_end. simpl. rewrite He. destruct e. split; [lia|done]. }
    exists g. split; [done|]. apply Gnew in Hg as [Hg|(x & _ & _ & ->)]; [|done].
    by apply (has_fenced_false _ _ _ Hfen) in Hg.
  - intros w Hw. by apply grant_rows_frame.
Qed.

Lemma no_arena_no_extents d v :
  core d v -> volume_alloc d !! v = None -> count_extents d v = 0.
Proof.
  intros Hc Ha. unfold count_extents. apply count_where_zero, exists_where_false.
  intros [[w f] lo] e He. unfold in_volume. simpl. case_bool_decide; [subst w|done].
  destruct (c_ext _ _ Hc _ _ _ He) as (_ & _ & Hl & _).
  destruct (proj1 (c_tile _ _ Hc (e_phys e))) as (a & Ha' & _); [|congruence].
  left. exists f, lo, e. split; [done|lia].
Qed.

Lemma register_volume_spec d d' v ceiling :
  vol_inv d v -> is_u64 ceiling -> register_volume d v ceiling = Ok d' ->
  vol_inv d' v /\ (forall w, w <> v -> same_volume d d' w) /\
  (forall a, volume_alloc d !! v = Some a -> d' = d).
Proof.
  intros [Hc Hn] [Hce _] H. unfold register_volume in H. inv_res.
  apply as_i64_Ok in E as [Hcm ->]. unfold insert_or_ignore.
  destruct (volume_alloc d !! v) as [a|] eqn:Ha.
  { replace (set_alloc (volume_alloc d) d) with d by (by destruct d). done. }
  split_and!; [|intros w Hw; split; try done; simpl; by rewrite lookup_insert_ne|done].
  destruct Hc as [? ? ? ? ? ? ? ? ? Ht Har ? ? ?] eqn:HC.
  split; [split; try done; simpl|].
  - intros q. etrans; [exact (Ht q)|]. rewrite Ha, lookup_insert_eq.
    split; [by intros (? & ? & _)|]. intros (? & [= <-] & ?). simpl in *. lia.
  - intros a. rewrite lookup_insert_eq. intros [= <-]. simpl. lia.
  - intros a. simpl. rewrite lookup_insert_eq. intros [= <-]. simpl. symmetry.
    by apply (no_arena_no_extents d v Hc).
Qed.

Lemma expand_volume_spec d v new_ceiling :
  vol_inv d v -> is_u64 new_ceiling ->
  match expand_volume d v new_ceiling with
  | Ok (c, d') => vol_inv d' v /\ (forall w, w <> v -> same_volume d d' w) /\
      (exists a a', volume_alloc d !! v = Some a /\ volume_alloc d' !! v = Some a' /\
         size_ceiling a' = Z.max (size_ceiling a) new_ceiling /\ next_free a' = next_free a /\
         c = size_ceiling a') /\ extents d' = extents d
  | Err e => refusal e
  end.
Proof.
  intros [Hc Hn] [Hce _]. unfold expand_volume.
  destruct (as_i64 new_ceiling _) as [want|e] eqn:E1; [|by eapply as_i64_Err].
  apply as_i64_Ok in E1 as [Hw ->]. cbn.
  destruct (volume_alloc d !! v) as [a|] eqn:Ha; [|done].
  destruct (c_arena _ _ Hc _ Ha) as [[? ?] ?].
  destruct (Z.leb_spec new_ceiling (size_ceiling a)).
  { split_and!; try done. exists a, a. rewrite wrap_u64_id; [split_and!; try done; lia|].
    bounds. }
  set (d' := set_alloc _ d).
  assert (Hi : vol_inv d' v).
  { destruct Hc as [? ? ? ? ? ? ? ? ? Ht Har ? ? ?]. split; [split; try done; simpl|].
    - intros q. etrans; [exact (Ht q)|]. rewrite Ha, lookup_insert_eq.
      split; intros (? & [= <-] & ?); eauto.
    - intros b. rewrite lookup_insert_eq. intros [= <-]. simpl. lia.
    - intros b. simpl. rewrite lookup_insert_eq. intros [= <-]. exact (Hn a Ha). }
  rewrite (vol_inv_verifies _ _ Hi). cbn. split_and!; try done.
  - intros w Hwv. split; try done. simpl. by rewrite lookup_insert_ne.
  - exists a. eexists. split; [done|]. split; [apply lookup_insert_eq|]. simpl.
    rewrite wrap_u64_id by bounds. split_and!; lia.
Qed.
