(* ===== verification/ExtentMerge.v ===== *)
(** The merge policy of extent_alloc.rs ([merge_extents_window]): coalesce
    runs of quiescent rows that are contiguous logically and physically.
    The theorem is that merging never moves a byte. *)

From S2P Require Import Prelude Sql Tables ExtentVerify FreeList ExtentInv.
From S2P Require Import ExtentGrant.

Abbreviation extent_table := (gmap (string * Z * Z) extent).

(** Nothing references the row: no grant, fenced or not. *)
Definition held (d : db) (v : string) (fid lo : Z) : bool :=
  exists_where (fun k _ => bool_decide (k.1 = (v, fid, lo))) (extent_grants d).

Definition extends (d : db) (v : string) (fid : Z) (a b : ExtentRow) : bool :=
  (row_end a =? logical_offset b) &&
  (physical_offset a + row_len a =? physical_offset b) &&
  bool_decide (row_state a = row_state b) &&
  negb (held d v fid (logical_offset a)) && negb (held d v fid (logical_offset b)).

Definition run_len (h : ExtentRow) (tl : list ExtentRow) : Z :=
  foldl (fun n r => n + row_len r) (row_len h) tl.
Definition run_gen (h : ExtentRow) (tl : list ExtentRow) : Z :=
  foldl (fun g r => Z.max g (generation r)) (generation h) tl.

(** DELETE the tail rows, then UPDATE the head's length and gen. *)
Definition merge_table (E : extent_table) (v : string) (fid : Z)
    (h : ExtentRow) (tl : list ExtentRow) : extent_table :=
  alter (fun e => Extent (run_len h tl) (e_phys e) (run_gen h tl) (e_state e))
    (v, fid, logical_offset h)
    (foldl (fun E r => delete (v, fid, logical_offset r) E) E tl).

(** A run is rows[run_start..i]; runs of one row are left alone. *)
Definition flush_run (E : extent_table) (v : string) (fid : Z) (h : ExtentRow)
    (tl : list ExtentRow) : extent_table * list TouchedExtent * Z :=
  match tl with
  | [] => (E, [], 0)
  | _ => (merge_table E v fid h tl,
          [Touched fid (logical_offset h) (run_len h tl) (physical_offset h)],
          Z.of_nat (length tl))
  end.

(** The scan: [h] and [tl] are the current run, [a] is rows[i - 1]. *)
Fixpoint merge_loop (d : db) (E : extent_table) (v : string) (fid : Z) (h : ExtentRow)
    (tl : list ExtentRow) (a : ExtentRow) (rest : list ExtentRow)
    : extent_table * list TouchedExtent * Z :=
  match rest with
  | [] => flush_run E v fid h tl
  | b :: rest =>
      if extends d v fid a b then merge_loop d E v fid h (tl ++ [b]) b rest
      else
        let '(E1, t1, n1) := flush_run E v fid h tl in
        let '(E2, t2, n2) := merge_loop d E1 v fid b [] b rest in
        (E2, t1 ++ t2, n1 + n2)
  end.

Definition window_rows (d : db) (v : string) (fid start end_ : Z) : list ExtentRow :=
  option_list (last_row_before d v fid start) ++
  overlapping_extents d v (wrap_u64 fid) start end_ ++
  option_list (first_row_from d v fid end_).

Definition merge_extents_window (d : db) (v : string) (fid start end_ : Z) : res (db * Z) :=
  match window_rows d v fid start end_ with
  | a :: ((_ :: _) as rest) =>
      let '(E, touched, merged) := merge_loop d (extents d) v fid a [] a rest in
      if merged >? 0 then
        let d' := add_rows (set_extents E d) v (- merged) in
        verify_window_invariants_conn d' v touched ≫= fun _ => Ok (d', merged)
      else Ok (set_extents E d, merged)
  | _ => Ok (d, 0)
  end.

(** ** Bytes: where the file's byte [o] lives *)
Definition byte_at (d : db) (v : string) (f o p : Z) (st : ext_state) : Prop :=
  exists lo e, extents d !! (v, f, lo) = Some e /\ lo <= o < lo + e_len e /\
    p = e_phys e + (o - lo) /\ st = e_state e.

Definition same_bytes (d d' : db) (v : string) : Prop :=
  forall f o p st, byte_at d' v f o p st <-> byte_at d v f o p st.

Lemma byte_owner d v f o p st : byte_at d v f o p st -> ext_at d v p.
Proof. intros (l & e & He & Ho & -> & _). exists f, l, e. split; [done|lia]. Qed.

Lemma row_of_byte d v f o l1 e1 l2 e2 :
  core d v -> extents d !! (v, f, l1) = Some e1 -> extents d !! (v, f, l2) = Some e2 ->
  l1 <= o < l1 + e_len e1 -> l2 <= o < l2 + e_len e2 -> l1 = l2.
Proof.
  intros Hc H1 H2 O1 O2. destruct (Z.lt_total l1 l2) as [Hlt|[?|Hlt]]; [|done|].
  - pose proof (c_log _ _ Hc _ _ _ _ _ H1 H2 Hlt). lia.
  - pose proof (c_log _ _ Hc _ _ _ _ _ H2 H1 Hlt). lia.
Qed.

(** ** Merging two adjacent rows *)
Definition join (r1 r2 : ExtentRow) : ExtentRow :=
  Row (logical_offset r1) (row_len r1 + row_len r2) (physical_offset r1)
    (Z.max (generation r1) (generation r2)) (row_state r1).

Definition pair_merge (E : extent_table) (v : string) (fid : Z) (r1 r2 : ExtentRow) :=
  <[(v, fid, logical_offset r1) := cols_of (join r1 r2)]>
    (delete (v, fid, logical_offset r2) E).

Definition unheld (d : db) (v : string) (fid lo : Z) : Prop :=
  forall c, extent_grants d !! (v, fid, lo, c) = None.

Lemma held_false d v fid lo : held d v fid lo = false <-> unheld d v fid lo.
Proof.
  unfold held, unheld. rewrite exists_where_false. split.
  - intros H c. destruct (extent_grants d !! (v, fid, lo, c)) as [g|] eqn:Hg; [|done].
    apply H in Hg. simpl in Hg. by rewrite bool_decide_eq_true_2 in Hg.
  - intros H [[[v' f'] lo'] c] g Hg. apply bool_decide_eq_false_2. simpl. intros [= -> -> ->].
    by rewrite H in Hg.
Qed.

Record adjacent (d : db) (v : string) (fid : Z) (a b : ExtentRow) : Prop := {
  aj_log : row_end a = logical_offset b;
  aj_phys : physical_offset a + row_len a = physical_offset b;
  aj_state : row_state a = row_state b;
  aj_a : unheld d v fid (logical_offset a);
  aj_b : unheld d v fid (logical_offset b) }.

Lemma extends_spec d v fid a b : extends d v fid a b = true <-> adjacent d v fid a b.
Proof.
  unfold extends. rewrite !andb_true_iff, !negb_true_iff, !held_false, !Z.eqb_eq,
    bool_decide_eq_true. split; [intros [[[[] ?] ?] ?]; by split|intros []; done].
Qed.

Section pair.
Context (d : db) (v : string) (fid : Z) (r1 r2 : ExtentRow).
Context (Hc : core d v).
Context (H1 : extents d !! (v, fid, logical_offset r1) = Some (cols_of r1)).
Context (H2 : extents d !! (v, fid, logical_offset r2) = Some (cols_of r2)).
Context (Haj : adjacent d v fid r1 r2).
Let d' := set_extents (pair_merge (extents d) v fid r1 r2) d.

Local Lemma pair_pos : 0 < row_len r1 /\ 0 < row_len r2 /\ logical_offset r1 < logical_offset r2.
Proof.
  apply (c_ext _ _ Hc) in H1 as ?. apply (c_ext _ _ Hc) in H2 as ?. simpl in *.
  pose proof (aj_log _ _ _ _ _ Haj). unfold row_end in *. lia.
Qed.

Local Lemma pair_lookup f l e : extents d' !! (v, f, l) = Some e <->
  ((f, l) = (fid, logical_offset r1) /\ e = cols_of (join r1 r2)) \/
  ((f, l) <> (fid, logical_offset r1) /\ (f, l) <> (fid, logical_offset r2) /\
   extents d !! (v, f, l) = Some e).
Proof.
  unfold d', pair_merge. simpl. rewrite lookup_insert_Some, lookup_delete_Some. split.
  - intros [[[= <- <-] <-]|(? & ? & ?)]; [by left|right]. split_and!; congruence.
  - intros [[[= -> ->] ->]|(? & ? & ?)]; [by left|right]. split_and!; congruence.
Qed.

Lemma pair_bytes : same_bytes d d' v.
Proof.
  pose proof pair_pos as (? & ? & ?). destruct Haj as [Hl Hp Hs _ _]. unfold row_end in Hl.
  intros f o p st. unfold byte_at. setoid_rewrite pair_lookup. split.
  - intros (lo & e & [[[= -> ->] ->]|(_ & _ & He)] & Ho & -> & ->); [|eauto 10].
    simpl in *. destruct (decide (o < logical_offset r2)).
    + exists (logical_offset r1), (cols_of r1). simpl. split_and!; try done; lia.
    + exists (logical_offset r2), (cols_of r2). simpl. split_and!; try done; lia.
  - intros (lo & e & He & Ho & -> & ->).
    destruct (decide ((f, lo) = (fid, logical_offset r1))) as [[= -> ->]|Hn1].
    { rewrite H1 in He. simplify_eq/=. exists (logical_offset r1), (cols_of (join r1 r2)).
      simpl. split_and!; try (by left); try done; lia. }
    destruct (decide ((f, lo) = (fid, logical_offset r2))) as [[= -> ->]|Hn2].
    { rewrite H2 in He. simplify_eq/=. exists (logical_offset r1), (cols_of (join r1 r2)).
      simpl. split_and!; try (by left); try done; lia. }
    exists lo, e. split_and!; try done; try lia. by right.
Qed.

Local Lemma pair_owner q f l e : ext_owner d' v q f l e ->
  exists l' e', ext_owner d v q f l' e' /\
    ((f, l) = (fid, logical_offset r1) /\ (l' = logical_offset r1 \/ l' = logical_offset r2) \/
     (l' = l /\ e' = e /\ (f, l) <> (fid, logical_offset r1) /\ (f, l) <> (fid, logical_offset r2))).
Proof.
  destruct Haj as [_ Hp _ _ _].
  intros [[[[= -> ->] ->]|(? & ? & He)]%pair_lookup Hq]; [simpl in Hq|].
  - destruct (decide (q < physical_offset r2)).
    + exists (logical_offset r1), (cols_of r1). split; [split; [done|simpl; lia]|]. left. auto.
    + exists (logical_offset r2), (cols_of r2). split; [split; [done|simpl; lia]|]. left. auto.
  - exists l, e. split; [done|]. right. done.
Qed.

Local Lemma pair_at q : ext_at d' v q <-> ext_at d v q.
Proof.
  split.
  - intros (f & l & e & (l' & e' & ? & _)%pair_owner). by exists f, l', e'.
  - destruct Haj as [_ Hp _ _ _]. pose proof pair_pos as (? & ? & ?).
    intros (f & l & e & He & Hq).
    destruct (decide ((f, l) = (fid, logical_offset r1))) as [[= -> ->]|Hn1].
    { rewrite H1 in He. simplify_eq/=. exists fid, (logical_offset r1), (cols_of (join r1 r2)).
      split; [apply pair_lookup; by left|simpl; lia]. }
    destruct (decide ((f, l) = (fid, logical_offset r2))) as [[= -> ->]|Hn2].
    { rewrite H2 in He. simplify_eq/=. exists fid, (logical_offset r1), (cols_of (join r1 r2)).
      split; [apply pair_lookup; by left|simpl; lia]. }
    exists f, l, e. split; [|done]. apply pair_lookup. by right.
Qed.

Lemma pair_core : core d' v.
Proof.
  pose proof pair_pos as (? & ? & ?). pose proof Haj as [Hl Hp Hs Ha Hb]. unfold row_end in Hl.
  apply (c_ext _ _ Hc) in H1 as W1. apply (c_ext _ _ Hc) in H2 as W2. simpl in W1, W2.
  split; try apply Hc.
  - intros f l e [[[= -> ->] ->]|(_ & _ & He)]%pair_lookup.
    { simpl. split_and!; [apply W1|lia..]. }
    by apply (c_ext _ _ Hc) in He.
  - intros f l1 l2 e1 e2 [[[= -> ->] ->]|(Hn1 & Hm1 & He1)]%pair_lookup
      [[Heq ->]|(Hn2 & Hm2 & He2)]%pair_lookup Hlt; simplify_eq/=; try lia.
    + assert (l2 <> logical_offset r2) by congruence.
      assert (logical_offset r2 < l2).
      { destruct (Z.lt_total l2 (logical_offset r2)) as [Hlt2|[?|?]]; [|done|done].
        pose proof (c_log _ _ Hc _ _ _ _ _ H1 He2 Hlt). simpl in *. lia. }
      pose proof (c_log _ _ Hc _ _ _ _ _ H2 He2 ltac:(done)). simpl in *. lia.
    + apply (c_log _ _ Hc _ _ _ _ _ He1 H1 Hlt).
    + by eapply (c_log _ _ Hc).
  - intros q f1 l1 e1 f2 l2 e2 (m1 & x1 & O1 & C1)%pair_owner (m2 & x2 & O2 & C2)%pair_owner.
    destruct (c_ext_uniq _ _ Hc _ _ _ _ _ _ _ O1 O2) as [<- <-]. split; [done|].
    destruct C1 as [[[= -> ->] Hm1]|(-> & -> & Hn1 & Hm1)],
      C2 as [[Heq Hm2]|(-> & -> & Hn2 & Hm2)]; simplify_eq; try done;
      destruct Hm1, Hm2; congruence || naive_solver.
  - intros q Hx%pair_at. by apply (c_ext_free _ _ Hc).
  - intros q Hx%pair_at. by apply (c_ext_quar _ _ Hc).
  - intros q. rewrite pair_at. apply (c_tile _ _ Hc).
  - intros f l c g Hg. change (extent_grants d !! (v, f, l, c) = Some g) in Hg.
    destruct (c_grants _ _ Hc _ _ _ _ Hg) as (e & He & Hgen).
    exists e. split; [|done]. apply pair_lookup. right. split_and!; [| |done].
    + intros [= -> ->]. by rewrite (Ha c) in Hg.
    + intros [= -> ->]. by rewrite (Hb c) in Hg.
Qed.

Lemma pair_count : count_extents d' v = count_extents d v - 1.
Proof.
  pose proof pair_pos as (_ & _ & Hlt). unfold count_extents, d', pair_merge. simpl.
  erewrite count_overwrite; [|rewrite lookup_delete_ne; [exact H1|intros [=]; lia]|done].
  erewrite count_delete by exact H2. unfold in_volume. simpl.
  by rewrite bool_decide_eq_true_2.
Qed.
End pair.

(** ** Merging a run *)
Fixpoint chain (d : db) (v : string) (fid : Z) (h : ExtentRow) (tl : list ExtentRow) : Prop :=
  match tl with
  | [] => True
  | r :: tl => adjacent d v fid h r /\ chain d v fid r tl
  end.

Definition stored (E : extent_table) (v : string) (fid : Z) (r : ExtentRow) : Prop :=
  E !! (v, fid, logical_offset r) = Some (cols_of r).

Lemma foldl_delete_lookup v fid (tl : list ExtentRow) : forall (E : extent_table) k,
  foldl (fun E r => delete (v, fid, logical_offset r) E) E tl !! k =
  if bool_decide (k ∈ (fun r => (v, fid, logical_offset r)) <$> tl) then None else E !! k.
Proof.
  induction tl as [|r tl IH]; intros E k; [done|]. rewrite fmap_cons. simpl foldl. rewrite IH.
  destruct (decide (k = (v, fid, logical_offset r))) as [->|Hne].
  - rewrite lookup_delete_eq. repeat case_bool_decide; set_solver.
  - rewrite lookup_delete_ne by done. repeat case_bool_decide; set_solver.
Qed.

Lemma merge_table_nil E v fid h : stored E v fid h -> merge_table E v fid h [] = E.
Proof.
  intros Hh. apply map_eq. intros k. unfold merge_table. simpl.
  destruct (decide (k = (v, fid, logical_offset h))) as [->|Hne].
  - rewrite lookup_alter_eq, Hh. done.
  - by rewrite lookup_alter_ne.
Qed.

Lemma merge_table_cons E v fid h r tl :
  stored E v fid h -> logical_offset h <> logical_offset r ->
  merge_table E v fid h (r :: tl) = merge_table (pair_merge E v fid h r) v fid (join h r) tl.
Proof.
  intros Hh Hne. apply map_eq. intros k. unfold merge_table. simpl.
  change (run_len (join h r) tl) with (run_len h (r :: tl)).
  change (run_gen (join h r) tl) with (run_gen h (r :: tl)).
  assert (Hkr : (v, fid, logical_offset r) <> (v, fid, logical_offset h)) by congruence.
  destruct (decide (k = (v, fid, logical_offset h))) as [->|Hk].
  - rewrite !lookup_alter_eq, !foldl_delete_lookup. case_bool_decide; [done|].
    unfold pair_merge. rewrite lookup_delete_ne, lookup_insert_eq, Hh by done. done.
  - rewrite !lookup_alter_ne, !foldl_delete_lookup by done. case_bool_decide; [done|].
    unfold pair_merge. by rewrite lookup_insert_ne.
Qed.

(** What replacing the extents table by [E'] did: nothing moved, [n] rows
    fewer, only rows of [fid] at or after [lo] touched. *)
Record merged (d : db) (v : string) (fid lo : Z) (E E' : extent_table) (n : Z) : Prop := {
  m_core : core (set_extents E' d) v;
  m_bytes : same_bytes (set_extents E d) (set_extents E' d) v;
  m_count : count_extents (set_extents E' d) v = count_extents (set_extents E d) v - n;
  m_frame : forall k, k.1 <> (v, fid) \/ k.2 < lo -> E' !! k = E !! k }.

Lemma merged_refl d v fid lo E : core (set_extents E d) v -> merged d v fid lo E E 0.
Proof. intros Hc. split; [done|by intros ????|lia|done]. Qed.

Lemma merged_trans d v fid lo1 lo2 E1 E2 E3 n m :
  merged d v fid lo1 E1 E2 n -> merged d v fid lo2 E2 E3 m -> lo1 <= lo2 ->
  merged d v fid lo1 E1 E3 (n + m).
Proof.
  intros [C1 B1 N1 F1] [C2 B2 N2 F2] Hle. split; [done| |lia|].
  - intros f o p st. by rewrite (B2 f o p st), (B1 f o p st).
  - intros k Hk. rewrite F2 by (destruct Hk; [by left|right; lia]). by apply F1.
Qed.

Lemma merged_pair d v fid h r E :
  core (set_extents E d) v -> stored E v fid h -> stored E v fid r -> adjacent d v fid h r ->
  merged d v fid (logical_offset h) E (pair_merge E v fid h r) 1.
Proof.
  intros Hc Hh Hr Haj.
  assert (Haj' : adjacent (set_extents E d) v fid h r) by (by destruct Haj).
  split.
  - by apply (pair_core (set_extents E d) v fid h r).
  - by apply (pair_bytes (set_extents E d) v fid h r).
  - by apply (pair_count (set_extents E d) v fid h r).
  - destruct (pair_pos (set_extents E d) v fid h r Hc Hh Hr Haj') as (_ & _ & Hlt).
    intros k Hk. unfold pair_merge. rewrite lookup_insert_ne, lookup_delete_ne; [done|..];
      intros <-; simpl in Hk; destruct Hk; [done|lia|done|lia].
Qed.

Lemma chain_lt d v fid E tl : forall h,
  core (set_extents E d) v -> stored E v fid h -> Forall (stored E v fid) tl ->
  chain d v fid h tl -> Forall (fun r => logical_offset h < logical_offset r) tl.
Proof.
  induction tl as [|r tl IH]; intros h Hc Hh Htl Hch; [constructor|].
  inversion_clear Htl. destruct Hch as [Haj Hch].
  destruct (pair_pos (set_extents E d) v fid h r Hc) as (_ & _ & Hlt); [done..|by destruct Haj|].
  constructor; [done|]. eapply Forall_impl; [by apply IH|]. simpl. lia.
Qed.

Lemma chain_join d v fid h r tl :
  adjacent d v fid h r -> chain d v fid r tl -> chain d v fid (join h r) tl.
Proof.
  intros [Hl Hp Hs Hu _]. destruct tl as [|s tl]; [done|]. intros [[Hl' Hp' Hs' Hu' Hv'] Hch].
  split; [|done]. unfold row_end in *. split; simpl; unfold row_end; simpl; [lia..|congruence|done|done].
Qed.

Lemma merged_run d v fid tl : forall E h,
  core (set_extents E d) v -> stored E v fid h -> Forall (stored E v fid) tl ->
  chain d v fid h tl ->
  merged d v fid (logical_offset h) E (merge_table E v fid h tl) (Z.of_nat (length tl)) /\
  merge_table E v fid h tl !! (v, fid, logical_offset h) =
    Some (Extent (run_len h tl) (physical_offset h) (run_gen h tl) (row_state h)).
Proof.
  induction tl as [|r tl IH]; intros E h Hc Hh Htl Hch.
  { rewrite merge_table_nil by done. split; [by apply merged_refl|exact Hh]. }
  pose proof (chain_lt _ _ _ _ _ _ Hc Hh Htl Hch) as Hlt.
  inversion_clear Htl as [|? ? Hr Htl']. destruct Hch as [Haj Hch].
  pose proof (chain_lt _ _ _ _ _ _ Hc Hr Htl' Hch) as Hlt'.
  inversion_clear Hlt as [|? ? Hhr Hlt2]. rewrite merge_table_cons by (done || lia).
  pose proof (merged_pair _ _ _ _ _ _ Hc Hh Hr Haj) as Hm.
  destruct (IH (pair_merge E v fid h r) (join h r)) as [Hm' Hlk].
  - apply Hm.
  - unfold stored, pair_merge. simpl. by rewrite lookup_insert_eq.
  - rewrite Forall_forall in Htl', Hlt', Hlt2 |- *. intros s Hs. unfold stored, pair_merge.
    specialize (Hlt' s Hs). specialize (Hlt2 s Hs).
    rewrite lookup_insert_ne, lookup_delete_ne; [by apply Htl'|intros [=]; lia..].
  - by apply chain_join.
  - split; [|exact Hlk]. simpl length. replace (Z.of_nat (S (length tl))) with (1 + Z.of_nat (length tl)) by lia.
    eapply merged_trans; [done|exact Hm'|]. simpl. lia.
Qed.

Lemma flush_run_spec d v fid E h tl E1 ts n :
  core (set_extents E d) v -> stored E v fid h -> Forall (stored E v fid) tl ->
  chain d v fid h tl -> flush_run E v fid h tl = (E1, ts, n) ->
  merged d v fid (logical_offset h) E E1 n /\ 0 <= n /\
  Forall (touched_row (set_extents E1 d) v) ts /\
  Forall (fun t => tc_file t = fid /\ tc_off t = logical_offset h /\ tl <> []) ts /\
  (forall r, (forall s, s ∈ tl -> logical_offset s < logical_offset r) ->
     (tl <> [] -> logical_offset h < logical_offset r) -> stored E v fid r -> stored E1 v fid r).
Proof.
  intros Hc Hh Htl Hch Hf. destruct tl as [|r tl]; simplify_eq/=.
  { split_and!; try done. by apply merged_refl. }
  destruct (merged_run d v fid (r :: tl) E h Hc Hh Htl Hch) as [Hm Hlk].
  split_and!; [exact Hm|lia|..].
  - constructor; [|done]. eexists. split; [exact Hlk|done].
  - by repeat constructor.
  - intros s Hs Hhs He. unfold stored in *. unfold merge_table.
    rewrite lookup_alter_ne by (intros [=]; specialize (Hhs ltac:(done)); lia).
    rewrite foldl_delete_lookup. case_bool_decide as Hin; [|exact He].
    apply list_elem_of_fmap in Hin as (x & [= Heq] & Hx). specialize (Hs x Hx). lia.
Qed.

(** The scan's state: the current run is a chain of stored rows ending in
    [a]; the rows still to come are stored, in order, and after the run. *)
Record scan (d : db) (v : string) (fid : Z) (E : extent_table) (h : ExtentRow)
    (tl : list ExtentRow) (a : ExtentRow) (rest : list ExtentRow) : Prop := {
  sc_core : core (set_extents E d) v;
  sc_head : stored E v fid h;
  sc_tail : Forall (stored E v fid) tl;
  sc_chain : chain d v fid h tl;
  sc_last : last (h :: tl) = Some a;
  sc_rest : Forall (stored E v fid) rest;
  sc_sorted : key_sorted logical_offset rest;
  sc_after : Forall (fun r => logical_offset a <= logical_offset r /\
               (tl <> [] -> logical_offset a < logical_offset r)) rest }.

Lemma chain_snoc d v fid tl : forall h a b,
  last (h :: tl) = Some a -> chain d v fid h tl -> adjacent d v fid a b ->
  chain d v fid h (tl ++ [b]).
Proof.
  induction tl as [|r tl IH]; intros h a b Hl Hch Haj; [by simplify_eq/=|].
  destruct Hch as [Hr Hch]. split; [done|]. eapply IH; [|done..]. done.
Qed.

Lemma chain_le_last d v fid E h tl a :
  core (set_extents E d) v -> stored E v fid h -> Forall (stored E v fid) tl ->
  chain d v fid h tl -> last (h :: tl) = Some a ->
  logical_offset h <= logical_offset a /\
  forall s, s ∈ tl -> logical_offset s <= logical_offset a.
Proof.
  revert h. induction tl as [|r tl IH]; intros h Hc Hh Htl Hch Hl.
  { simplify_eq/=. split; [lia|]. by intros s ?%elem_of_nil. }
  pose proof (chain_lt _ _ _ _ _ _ Hc Hh Htl Hch) as Hlt.
  inversion_clear Htl as [|? ? Hr Htl']. destruct Hch as [Haj Hch].
  destruct (IH r Hc Hr Htl' Hch Hl) as [Hra Hs]. inversion_clear Hlt. split; [lia|].
  intros s [->|Hin]%elem_of_cons; [done|by apply Hs].
Qed.

Lemma scan_extend d v fid E h tl a b rest :
  scan d v fid E h tl a (b :: rest) -> adjacent d v fid a b ->
  scan d v fid E h (tl ++ [b]) b rest.
Proof.
  intros [Hc Hh Htl Hch Hl Hr Hs Ha] Haj.
  inversion_clear Hr as [|? ? Hb Hr']. apply StronglySorted_inv in Hs as [Hs Hbs].
  split; try done.
  - apply Forall_app. split; [done|by constructor].
  - by eapply chain_snoc.
  - change (last ((h :: tl) ++ [b]) = Some b). by rewrite last_snoc.
  - eapply Forall_impl; [exact Hbs|]. simpl. lia.
Qed.

Lemma merge_loop_spec d v fid rest : forall E h tl a E' ts n,
  scan d v fid E h tl a rest -> merge_loop d E v fid h tl a rest = (E', ts, n) ->
  merged d v fid (logical_offset h) E E' n /\ 0 <= n /\
  Forall (touched_row (set_extents E' d) v) ts.
Proof.
  induction rest as [|b rest IH]; intros E h tl a E' ts n Hsc Hrun; simpl in Hrun.
  { pose proof Hsc as [Hc Hh Htl Hch _ _ _ _].
    by destruct (flush_run_spec _ _ _ _ _ _ _ _ _ Hc Hh Htl Hch Hrun) as (? & ? & ? & _). }
  destruct (extends d v fid a b) eqn:Hx.
  { apply extends_spec in Hx. eapply IH; [|done]. by eapply scan_extend. }
  destruct (flush_run E v fid h tl) as [[E1 t1] n1] eqn:H1.
  destruct (merge_loop d E1 v fid b [] b rest) as [[E2 t2] n2] eqn:H2. simplify_eq.
  pose proof Hsc as [Hc Hh Htl Hch Hl Hr Hs Ha].
  destruct (chain_le_last _ _ _ _ _ _ _ Hc Hh Htl Hch Hl) as [Hha Hsa].
  destruct (flush_run_spec _ _ _ _ _ _ _ _ _ Hc Hh Htl Hch H1) as (Hm1 & Hn1 & Ht1 & Hk1 & Hkeep).
  assert (Hkept : forall r, r ∈ b :: rest -> stored E1 v fid r).
  { rewrite Forall_forall in Hr, Ha. intros r Hin. destruct (Ha r Hin) as [Hle Hlt].
    apply Hkeep; [|intros Hne; specialize (Hlt Hne); lia|by apply Hr].
    intros s Hs'. specialize (Hsa s Hs'). destruct tl; [by apply elem_of_nil in Hs'|].
    specialize (Hlt ltac:(done)). lia. }
  apply StronglySorted_inv in Hs as [Hs Hbs].
  destruct (IH E1 b [] b E' t2 n2) as (Hm2 & Hn2 & Ht2); [|done|].
  { split; try done; [apply Hm1|apply Hkept; by left|..].
    - apply Forall_forall. intros r Hin. apply Hkept. by right.
    - eapply Forall_impl; [exact Hbs|]. simpl. intros ??. split; [lia|done]. }
  rewrite Forall_forall in Ha. destruct (Ha b ltac:(by left)) as [Hab Hab'].
  split_and!; [eapply merged_trans; [done..|lia]|lia|].
  apply Forall_app. split; [|done]. rewrite Forall_forall in Ht1, Hk1 |- *. intros t Hin.
  destruct (Ht1 t Hin) as (e & He & Hlp). destruct (Hk1 t Hin) as (Hf & Ho & Hne).
  exists e. split; [|done]. simpl in *. rewrite (m_frame _ _ _ _ _ _ _ Hm2); [done|].
  right. simpl. specialize (Hab' Hne). lia.
Qed.

(** ** The whole pass *)
Lemma wrap_u64_i64 x : is_i64 x -> wrap_i64 (wrap_u64 x) = x.
Proof.
  unfold is_i64, wrap_i64, wrap_u64, i64_max. intros Hx.
  rewrite Zplus_mod_idemp_l, Z.mod_small by lia. lia.
Qed.

Lemma window_tail_sorted d v fid s e :
  key_sorted logical_offset
    (overlapping_extents d v fid s e ++ option_list (first_row_from d v (wrap_i64 fid) e)).
Proof.
  apply StronglySorted_app_2; [|apply overlapping_sorted|].
  - intros r1 r2 Hr1 Hr2. apply elem_of_overlapping in Hr1 as [[? ?] _].
    destruct (first_row_from d v (wrap_i64 fid) e) as [n|] eqn:Hn;
      [|by apply elem_of_nil in Hr2]. apply list_elem_of_singleton in Hr2 as ->.
    apply first_row_from_Some in Hn as (_ & ? & _). lia.
  - destruct (first_row_from _ _ _ _); repeat constructor.
Qed.

Lemma window_rows_scan d v fid s e a rest :
  core d v -> is_i64 fid -> s <= e -> window_rows d v fid s e = a :: rest ->
  scan d v fid (extents d) a [] a rest.
Proof.
  intros Hc Hf Hse. unfold window_rows.
  pose proof (window_tail_sorted d v (wrap_u64 fid) s e) as Hs.
  rewrite (wrap_u64_i64 _ Hf) in Hs.
  set (l := overlapping_extents d v (wrap_u64 fid) s e ++ option_list (first_row_from d v fid e)) in *.
  assert (Hl : forall r, r ∈ l -> stored (extents d) v fid r /\ (row_end r > s \/ e <= logical_offset r)).
  { intros r [Hr|Hr]%elem_of_app.
    - apply elem_of_overlapping in Hr as [[_ ?] Hr]. rewrite wrap_u64_i64 in Hr by done. auto.
    - destruct (first_row_from d v fid e) as [n|] eqn:Hn; [|by apply elem_of_nil in Hr].
      apply list_elem_of_singleton in Hr as ->. apply first_row_from_Some in Hn as (? & ? & _). auto. }
  assert (Hst : Forall (stored (extents d) v fid) l).
  { apply Forall_forall. intros r Hr. by apply Hl. }
  clearbody l. assert (Hc' : core (set_extents (extents d) d) v) by (by destruct d).
  destruct (last_row_before d v fid s) as [p|] eqn:Hp; simpl; intros Heq.
  - apply last_row_before_Some in Hp as (Hp & Hps & _). injection Heq as <- <-.
    split; try done. apply Forall_forall. intros r Hr. split; [|done].
    destruct (Hl r Hr) as [Hsr Hend]. apply Z.nlt_ge. intros Hlt.
    pose proof (c_log _ _ Hc _ _ _ _ _ Hsr Hp Hlt). unfold row_end in *. simpl in *. lia.
  - subst l. inversion_clear Hst. apply StronglySorted_inv in Hs as [Hs Ha].
    split; try done. eapply Forall_impl; [exact Ha|]. simpl. intros ??. split; [lia|done].
Qed.

(** [merge_extents_window] succeeds, keeps the invariant, moves no byte and
    leaves every table but the volume's extents and its row counter alone. *)
Record merge_post (d d' : db) (v : string) : Prop := {
  mp_inv : vol_inv d' v;
  mp_bytes : same_bytes d d' v;
  mp_others : forall w, w <> v -> same_volume d d' w;
  mp_grants : extent_grants d' = extent_grants d;
  mp_free : extent_free d' = extent_free d;
  mp_quar : extent_quarantine d' = extent_quarantine d;
  mp_rest : rest d' = rest d }.

Lemma merge_post_refl d v : vol_inv d v -> merge_post d d v.
Proof. intros Hi. by split. Qed.

Lemma merged_post d v fid lo E n :
  vol_inv d v -> merged d v fid lo (extents d) E n -> merge_post d (add_rows (set_extents E d) v (- n)) v.
Proof.
  intros [Hc Hn] [Hc' Hb Hcnt Hfr]. set (d1 := set_extents E d).
  destruct (add_rows_counter d1 v (- n)) as (He & Hg & Hr & Ha).
  assert (Hfq : extent_free (add_rows d1 v (- n)) = extent_free d /\
                extent_quarantine (add_rows d1 v (- n)) = extent_quarantine d).
  { unfold add_rows. by destruct (volume_alloc d1 !! v). }
  destruct Hfq. split; [split| |..]; try done.
  - by apply core_add_rows.
  - intros a Ha'. destruct (Ha a Ha') as (a' & Ha1 & ->).
    rewrite (Hn a' Ha1). unfold count_extents. rewrite He.
    unfold count_extents in Hcnt. simpl in Hcnt. replace (set_extents (extents d) d) with d in Hcnt by (by destruct d).
    fold d1 in Hcnt. simpl. rewrite Hcnt. lia.
  - intros f o p st. unfold byte_at. rewrite He. specialize (Hb f o p st).
    unfold byte_at in Hb. simpl in Hb. exact Hb.
  - intros w Hw. eapply same_volume_trans; [|by apply add_rows_frame]. split; try done. simpl.
    intros f l. apply Hfr. left. simpl. congruence.
Qed.

Lemma add_rows_0 d v : add_rows d v (- 0) = d.
Proof.
  unfold add_rows. destruct (volume_alloc d !! v) as [a|] eqn:Ha; [|done].
  replace (extent_rows a + - 0) with (extent_rows a) by lia.
  destruct a. rewrite insert_id by done. by destruct d.
Qed.

Lemma merge_window_spec d v fid s e :
  vol_inv d v -> is_i64 fid -> s <= e ->
  exists d' n, merge_extents_window d v fid s e = Ok (d', n) /\ merge_post d d' v /\ 0 <= n.
Proof.
  intros Hi Hf Hse. unfold merge_extents_window.
  destruct (window_rows d v fid s e) as [|a [|b rest]] eqn:Hw;
    [exists d, 0; split_and!; [done|by apply merge_post_refl|done]..|].
  apply window_rows_scan in Hw; [|apply Hi|done..].
  destruct (merge_loop d (extents d) v fid a [] a (b :: rest)) as [[E ts] n] eqn:Hl.
  destruct (merge_loop_spec _ _ _ _ _ _ _ _ _ _ _ Hw Hl) as (Hm & Hn & Ht).
  pose proof (merged_post _ _ _ _ _ _ Hi Hm) as Hpost.
  destruct (n >? 0) eqn:Hpos.
  - exists (add_rows (set_extents E d) v (- n)), n. split_and!; [|done..].
    rewrite core_verify_window; [done|apply Hpost|].
    eapply Forall_impl; [exact Ht|]. intros t (x & Hx & ?). exists x. split; [|done].
    destruct (add_rows_counter (set_extents E d) v (- n)) as (-> & _). done.
  - bool_Z. assert (n = 0) as -> by lia. rewrite add_rows_0 in Hpost. eauto.
Qed.
