(* ===== verification/ExtentReturn.v ===== *)
(** Giving layouts back and committing them (extent_alloc.rs):
    [layout_return], [fence_client], [reclaim_snapshot], [commit_extents]
    and the lease sweep's [revoke_client]. *)

From S2P Require Import Prelude Sql Tables ExtentVerify FreeList ExtentInv.
From S2P Require Import ExtentGrant ExtentMerge.

(** logical_offset IN (SELECT .. FROM extents WHERE .. overlaps [start, end)). *)
Definition on_range (d : db) (k : string * Z * Z) (start end_ : Z) : bool :=
  match extents d !! k with
  | Some e => (k.2 <? end_) && (k.2 + e_len e >? start)
  | None => false
  end.

Definition in_return (d : db) (v : string) (fid client start end_ : Z)
    (k : string * Z * Z * Z) : bool :=
  bool_decide (k.1.1 = (v, fid)) && (k.2 =? client) && on_range d k.1 start end_.

(** INSERT OR REPLACE INTO extent_commit_grace SELECT .. fenced = 0. *)
Definition remember_gens (d : db) (v : string) (fid client start end_ : Z) : db :=
  set_grace ((g_gen <$> filter (fun kg => in_return d v fid client start end_ kg.1 = true /\
                                    g_fenced kg.2 = false) (extent_grants d))
             ∪ extent_commit_grace d) d.

Definition layout_return (d : db) (v : string) (file_id client_id lo len : Z) : res (Z * db) :=
  start ← as_i64 lo "offset exceeds i64";
  end_ ← checked_end lo len;
  client ← as_i64 client_id "client id exceeds i64";
  let fid := wrap_i64 file_id in
  let gone := fun k (_ : grant_row) => in_return d v fid client start end_ k in
  let d1 := remember_gens d v fid client start end_ in
  let n := count_where gone (extent_grants d) in
  let d2 := set_grants (delete_where gone (extent_grants d)) d1 in
  '(d3, _) ← merge_extents_window d2 v fid start end_;
  Ok (n, d3).

Definition client_rows (v : string) (client : Z) (k : string * Z * Z * Z) : bool :=
  bool_decide (k.1.1.1 = v) && (k.2 =? client).

Definition fence_client (d : db) (v : string) (client_id : Z) : res (Z * db) :=
  client ← as_i64 client_id "client id exceeds i64";
  let live := fun k g => client_rows v client k && negb (g_fenced g) in
  let n := count_where live (extent_grants d) in
  let d1 := set_grants (update_where live (fun g => GrantRow (g_mode g) (g_gen g) true)
                          (extent_grants d)) d in
  Ok (n, set_grace (delete_where (fun k _ => client_rows v client k) (extent_commit_grace d1)) d1).

Definition reclaim_snapshot (d : db) (v : string) (file_id lo len : Z) : res (list Z) :=
  start ← as_i64 lo "offset exceeds i64";
  end_ ← checked_end lo len;
  Ok (live_unfenced_holders d v file_id (overlapping_extents d v file_id start end_) None).

(** SELECT MIN(gen), MAX(gen), COUNT of the client's grace rows inside the
    extent; the two agree on a non-empty window. *)
Definition grace_gens (d : db) (v : string) (fid client lo end_ : Z) : list Z :=
  select (fun k g => if bool_decide (k.1.1 = (v, fid)) && (k.2 =? client) &&
                        (lo <=? k.1.2) && (k.1.2 <? end_) then Some g else None)
    Z.le (extent_commit_grace d).

Definition grace_gen (gens : list Z) : option Z :=
  match head gens, last gens with
  | Some a, Some b => if a =? b then Some a else None
  | _, _ => None
  end.

Definition commit_check (d : db) (v : string) (fid client : Z) (t : ExtentRow) : res unit :=
  gen_held ← match extent_grants d !! (v, fid, logical_offset t, client) with
             | Some g => if g_fenced g then Err (CommitRejected "grant is fenced")
                         else Ok (Some (g_gen g))
             | None => Ok (grace_gen (grace_gens d v fid client (logical_offset t) (row_end t)))
             end;
  match gen_held with
  | None => Err (CommitRejected "no grant for this client")
  | Some g => fail_if (negb (g =? generation t)) (CommitRejected "generation mismatch")
  end.

Fixpoint commit_checks (d : db) (v : string) (fid client : Z) (ts : list ExtentRow) : res unit :=
  match ts with
  | [] => Ok tt
  | t :: ts => commit_check d v fid client t ≫= fun _ => commit_checks d v fid client ts
  end.

(** UPDATE extents SET state = 'rw' .. AND state = 'invalid'. *)
Definition promote_row (v : string) (fid : Z) (acc : extent_table * Z) (t : ExtentRow)
    : extent_table * Z :=
  let '(E, n) := acc in
  match E !! (v, fid, logical_offset t) with
  | Some e => match e_state e with
              | StInvalid => (<[(v, fid, logical_offset t) :=
                                 Extent (e_len e) (e_phys e) (e_gen e) StRw]> E, n + 1)
              | StRw => (E, n)
              end
  | None => (E, n)
  end.

Definition commit_extents (d : db) (v : string) (file_id client_id lo len : Z) : res (Z * db) :=
  start ← as_i64 lo "offset exceeds i64";
  end_ ← checked_end lo len;
  client ← as_i64 client_id "client id exceeds i64";
  let fid := wrap_i64 file_id in
  let targets := overlapping_extents d v file_id start end_ in
  fail_if (is_nil targets) (CommitRejected "no extents under the range") ≫= fun _ =>
  commit_checks d v fid client targets ≫= fun _ =>
  let '(E, promoted) := foldl (promote_row v fid) (extents d, 0) targets in
  Ok (promoted, set_extents E d).

(** JOIN extents .. GROUP BY file_id: (file_id, MIN lo, MAX end). *)
Definition client_windows (d : db) (v : string) (client : Z) : list (Z * Z * Z) :=
  select (fun k g => if client_rows v client k
                     then (fun e => (k.1.1.2, k.1.2, k.1.2 + e_len e)) <$> extents d !! k.1
                     else None) lex3 (extent_grants d).

Fixpoint group_windows (rows : list (Z * Z * Z)) : list (Z * Z * Z) :=
  match rows with
  | [] => []
  | (f, lo, hi) :: rows =>
      match group_windows rows with
      | (f', lo', hi') :: gs =>
          if f =? f' then (f, Z.min lo lo', Z.max hi hi') :: gs
          else (f, lo, hi) :: (f', lo', hi') :: gs
      | [] => [(f, lo, hi)]
      end
  end.

Definition delivered_at (d : db) (v : string) (client : Z) : Z :=
  match fenced_clients d !! (v, client) with Some f => f_delivered_unix f | None => 0 end.

Definition revoke_client (d : db) (v : string) (client_id : Z) : res (Z * db) :=
  client ← as_i64 client_id "client id exceeds i64";
  fail_if (negb (delivered_at d v client >? 0)) UnconfirmedFence ≫= fun _ =>
  let files := group_windows (client_windows d v client) in
  let mine := fun k (_ : grant_row) => client_rows v client k in
  let removed := count_where mine (extent_grants d) in
  let d1 := set_grants (delete_where mine (extent_grants d)) d in
  d2 ← foldM (fun d '(f, lo, hi) => '(d', _) ← merge_extents_window d v f lo hi; Ok d') d1 files;
  Ok (removed, d2).

(** ** Dropping or fencing grant rows *)
Definition weaker_grants (d : db) (v : string) (G : gmap (string * Z * Z * Z) grant_row) : Prop :=
  forall f lo c g', G !! (v, f, lo, c) = Some g' ->
  exists g, extent_grants d !! (v, f, lo, c) = Some g /\ g_mode g' = g_mode g /\
    g_gen g' = g_gen g /\ (g_fenced g' = false -> g_fenced g = false).

Lemma vol_inv_weaken d v G :
  vol_inv d v -> weaker_grants d v G -> vol_inv (set_grants G d) v.
Proof.
  intros [Hc Hn] Hw. split; [|done]. apply core_set_grants; [done|..].
  - intros f lo c g' Hg. destruct (Hw _ _ _ _ Hg) as (g & Hg0 & _ & Hgen & Hfe).
    destruct (c_grants _ _ Hc _ _ _ _ Hg0) as (e & He & Hge). exists e. split; [done|].
    rewrite Hgen. auto.
  - intros f lo c g' Hg. destruct (Hw _ _ _ _ Hg) as (g & Hg0 & _).
    by apply (c_client _ _ Hc) in Hg0.
  - intros f lo c1 c2 g1 g2 H1 H2 F1 F2 M1 M2.
    destruct (Hw _ _ _ _ H1) as (x1 & X1 & Y1 & _ & Z1).
    destruct (Hw _ _ _ _ H2) as (x2 & X2 & Y2 & _ & Z2).
    apply (c_rw _ _ Hc f lo c1 c2 x1 x2); auto; congruence.
Qed.

Lemma delete_grants_weaker d v p : weaker_grants d v (delete_where p (extent_grants d)).
Proof. intros f lo c g [Hg _]%lookup_delete_where_Some. eauto. Qed.

Lemma client_rows_true v client k : client_rows v client k = true <-> k.1.1.1 = v /\ k.2 = client.
Proof. unfold client_rows. by rewrite andb_true_iff, bool_decide_eq_true, Z.eqb_eq. Qed.

Lemma in_return_true d v fid client s e k :
  in_return d v fid client s e k = true <->
  k.1.1 = (v, fid) /\ k.2 = client /\
  exists x, extents d !! k.1 = Some x /\ k.1.2 < e /\ s < k.1.2 + e_len x.
Proof.
  unfold in_return, on_range. rewrite !andb_true_iff, bool_decide_eq_true, Z.eqb_eq. split.
  - intros [[? ?] Ho]. destruct (extents d !! k.1) as [x|]; [|done]. bool_Z.
    split_and!; try done. exists x. split_and!; try done; lia.
  - intros (? & ? & x & -> & ? & ?). split; [done|].
    rewrite andb_true_iff, Z.gtb_ltb, !Z.ltb_lt. done.
Qed.

(** ** layout_return *)
Record return_post (d d' : db) (v : string) (fid client s e : Z) : Prop := {
  lr_inv : vol_inv d' v;
  lr_bytes : same_bytes d d' v;
  lr_others : forall w, w <> v -> same_volume d d' w;
  (** exactly the client's rows over the range are gone *)
  lr_grants : forall k g, extent_grants d' !! k = Some g <->
    extent_grants d !! k = Some g /\ in_return d v fid client s e k = false;
  (** the unfenced ones leave their generation behind *)
  lr_grace : forall k, extent_commit_grace d' !! k =
    match extent_grants d !! k with
    | Some g => if in_return d v fid client s e k && negb (g_fenced g) then Some (g_gen g)
                else extent_commit_grace d !! k
    | None => extent_commit_grace d !! k
    end;
  lr_fences : fenced_clients d' = fenced_clients d }.

Lemma remember_gens_lookup d v fid client s e k :
  extent_commit_grace (remember_gens d v fid client s e) !! k =
    match extent_grants d !! k with
    | Some g => if in_return d v fid client s e k && negb (g_fenced g) then Some (g_gen g)
                else extent_commit_grace d !! k
    | None => extent_commit_grace d !! k
    end.
Proof.
  unfold remember_gens. simpl. rewrite lookup_union, lookup_fmap.
  set (P := fun kg : _ * grant_row => in_return d v fid client s e kg.1 = true /\ g_fenced kg.2 = false).
  destruct (extent_grants d !! k) as [g|] eqn:Hg.
  - destruct (in_return d v fid client s e k && negb (g_fenced g)) eqn:Hb.
    + assert (filter P (extent_grants d) !! k = Some g) as ->.
      { apply map_lookup_filter_Some. split; [done|]. bool_Z. done. }
      simpl. by destruct (extent_commit_grace d !! k).
    + assert (filter P (extent_grants d) !! k = None) as ->.
      { apply map_lookup_filter_None. right. intros g' Hg' [Hi Hf]. simpl in *.
        rewrite Hg in Hg'. simplify_eq. by rewrite Hi, Hf in Hb. }
      simpl. by destruct (extent_commit_grace d !! k).
  - assert (filter P (extent_grants d) !! k = None) as ->.
    { apply map_lookup_filter_None. by left. }
    simpl. by destruct (extent_commit_grace d !! k).
Qed.

Lemma layout_return_spec d v file_id client_id lo len :
  vol_inv d v -> is_u64 lo -> is_u64 len ->
  match layout_return d v file_id client_id lo len with
  | Ok (n, d') => return_post d d' v (wrap_i64 file_id) client_id lo (lo + len)
  | Err e => exists why, e = InvalidRange why
  end.
Proof.
  intros Hi Hlo Hlen. unfold layout_return.
  destruct (as_i64 lo _) as [start|e] eqn:E1; [|by apply as_i64_invalid in E1].
  apply as_i64_Ok in E1 as [_ ->]. cbn.
  destruct (checked_end lo len) as [end_|e] eqn:E2; [|by apply checked_end_invalid in E2].
  apply checked_end_Ok in E2 as (Hl0 & Hle & ->); [|done..]. cbn.
  destruct (as_i64 client_id _) as [client|e] eqn:E3; [|by apply as_i64_invalid in E3].
  apply as_i64_Ok in E3 as [Hci ->]. cbn.
  set (fid := wrap_i64 file_id). set (d1 := remember_gens _ _ _ _ _ _).
  set (d2 := set_grants _ _).
  assert (Hi1 : vol_inv d1 v) by (apply (vol_inv_frame d); [by split|done]).
  assert (Hi2 : vol_inv d2 v).
  { apply vol_inv_weaken; [done|]. apply (delete_grants_weaker d1). }
  destruct (merge_window_spec d2 v fid lo (lo + len)) as (d3 & n & -> & Hm & _);
    [done|apply wrap_i64_range|lia|]. cbn.
  destruct Hm as [Hi3 Hb Ho Hg Hf Hq Hr]. split; [done|done|..].
  - intros w Hw. eapply (same_volume_trans w); [|by apply Ho]. split; try done. simpl.
    intros f l c. rewrite lookup_delete_where. destruct (extent_grants d !! _); [|done].
    destruct (in_return _ _ _ _ _ _ _) eqn:Hin; [|done].
    apply in_return_true in Hin as ([=] & _). congruence.
  - intros k g. rewrite Hg. simpl. by rewrite lookup_delete_where_Some.
  - intros k. unfold rest in Hr. injection Hr as Hr _. rewrite Hr. apply remember_gens_lookup.
  - unfold rest in Hr. injection Hr as _ _ _ Hr _. by rewrite Hr.
Qed.

(** ** fence_client *)
Record fence_post (d d' : db) (v : string) (client : Z) : Prop := {
  fp_inv : vol_inv d' v;
  fp_extents : extents d' = extents d;
  fp_others : forall w, w <> v -> same_volume d d' w;
  fp_fenced : forall f lo g, extent_grants d' !! (v, f, lo, client) = Some g -> g_fenced g = true;
  fp_kept : forall k, is_Some (extent_grants d' !! k) <-> is_Some (extent_grants d !! k);
  fp_grace : forall f lo, extent_commit_grace d' !! (v, f, lo, client) = None;
  fp_bystander : forall k, k.2 <> client -> extent_grants d' !! k = extent_grants d !! k /\
    extent_commit_grace d' !! k = extent_commit_grace d !! k }.

Lemma fence_client_spec d v client :
  vol_inv d v -> client <= i64_max ->
  exists n d', fence_client d v client = Ok (n, d') /\ fence_post d d' v client.
Proof.
  intros Hi Hc. unfold fence_client. rewrite (proj2 (as_i64_Ok client _ client)) by done. cbn.
  eexists _, _. split; [done|].
  set (live := fun k g => client_rows v client k && negb (g_fenced g)).
  set (fence := fun g => GrantRow (g_mode g) (g_gen g) true).
  assert (Hl : forall k, update_where live fence (extent_grants d) !! k =
     (fun g => if client_rows v client k then fence g else g) <$> extent_grants d !! k).
  { intros k. rewrite lookup_update_where. destruct (extent_grants d !! k) as [[m g []]|]; [| |done];
      unfold live; destruct (client_rows v client k); done. }
  split; simpl; [|done|..].
  - apply (vol_inv_frame (set_grants (update_where live fence (extent_grants d)) d)); [by split|].
    apply vol_inv_weaken; [done|]. intros f lo c g'. rewrite Hl. intros Hg.
    apply fmap_Some in Hg as (g & Hg & ->). exists g. split; [done|].
    by destruct (client_rows v client _).
  - intros w Hw. split; try done. intros f lo c. simpl. rewrite Hl.
    destruct (client_rows v client _) eqn:Hcr; [|by destruct (extent_grants d !! _)].
    apply client_rows_true in Hcr as [Hcr _]. simpl in Hcr. congruence.
  - intros f lo g. rewrite Hl, (proj2 (client_rows_true v client _)) by done.
    intros Hg. by apply fmap_Some in Hg as (? & _ & ->).
  - intros k. rewrite Hl. by destruct (extent_grants d !! k).
  - intros f lo. rewrite lookup_delete_where.
    rewrite (proj2 (client_rows_true v client _)) by done. by destruct (extent_commit_grace d !! _).
  - intros k Hk. assert (client_rows v client k = false) as Hcr.
    { destruct (client_rows v client k) eqn:Hcr; [|done].
      by apply client_rows_true in Hcr as [_ Hcr]. }
    rewrite Hl, lookup_delete_where, Hcr.
    by destruct (extent_grants d !! k), (extent_commit_grace d !! k).
Qed.

(** ** commit_extents *)

(** What the code accepts as the grant a target was written under. *)
Definition authorised (d : db) (v : string) (fid client : Z) (t : ExtentRow) : Prop :=
  match extent_grants d !! (v, fid, logical_offset t, client) with
  | Some g => g_fenced g = false /\ g_gen g = generation t
  | None =>
      (exists o gen, extent_commit_grace d !! (v, fid, o, client) = Some gen /\
         logical_offset t <= o < row_end t) /\
      (forall o gen, extent_commit_grace d !! (v, fid, o, client) = Some gen ->
         logical_offset t <= o < row_end t -> gen = generation t)
  end.

Lemma grace_gen_Some l a :
  StronglySorted Z.le l -> grace_gen l = Some a <-> l <> [] /\ forall x, x ∈ l -> x = a.
Proof.
  intros Hs. unfold grace_gen. destruct l as [|x l]; [naive_solver|].
  destruct (last (x :: l)) as [y|] eqn:Hl; [|by apply last_None in Hl].
  change (head (x :: l)) with (Some x). cbv iota beta.
  assert (Hy : y ∈ x :: l) by (apply last_Some in Hl as [l' ->]; set_solver).
  assert (Hle : forall z, z ∈ x :: l -> x <= z <= y).
  { intros z Hz. split.
    - apply StronglySorted_inv in Hs as [_ Hs]. rewrite Forall_forall in Hs.
      apply elem_of_cons in Hz as [->|Hz]; [lia|by apply Hs].
    - apply last_Some in Hl as [l' Hl]. rewrite Hl in Hs, Hz.
      apply elem_of_app in Hz as [Hz|Hz]; [|apply list_elem_of_singleton in Hz; lia].
      by apply (StronglySorted_app_1_elem_of _ l' [y] z y); [|done|left]. }
  split.
  - destruct (Z.eqb_spec x y) as [->|]; [|done]. intros [= ->]. split; [done|].
    intros z Hz. specialize (Hle z Hz). lia.
  - intros [_ Hall]. rewrite (Hall x), (Hall y) by (done || by left). by rewrite Z.eqb_refl.
Qed.

Lemma elem_of_grace_gens d v fid client lo hi x :
  x ∈ grace_gens d v fid client lo hi <->
  exists o, extent_commit_grace d !! (v, fid, o, client) = Some x /\ lo <= o < hi.
Proof.
  unfold grace_gens. rewrite elem_of_select. split.
  - intros ([[[v' f'] o] c] & g & Hk & Hg). simpl in Hg.
    destruct (bool_decide ((v', f') = (v, fid)) && (c =? client) && (lo <=? o) && (o <? hi)) eqn:Hb;
      simplify_eq. bool_Z. case_bool_decide; simplify_eq. exists o. split; [done|lia].
  - intros (o & Hk & Ho). exists (v, fid, o, client), x. split; [done|]. simpl.
    rewrite bool_decide_eq_true_2, Z.eqb_refl by done.
    rewrite (proj2 (Z.leb_le _ _)), (proj2 (Z.ltb_lt _ _)) by lia. done.
Qed.

Lemma grace_authorised d v fid client t :
  grace_gen (grace_gens d v fid client (logical_offset t) (row_end t)) = Some (generation t) <->
  (exists o gen, extent_commit_grace d !! (v, fid, o, client) = Some gen /\
     logical_offset t <= o < row_end t) /\
  (forall o gen, extent_commit_grace d !! (v, fid, o, client) = Some gen ->
     logical_offset t <= o < row_end t -> gen = generation t).
Proof.
  rewrite grace_gen_Some by (apply select_sorted; apply _).
  pose proof (elem_of_grace_gens d v fid client (logical_offset t) (row_end t)) as Hel.
  setoid_rewrite Hel. split.
  - intros [Hn Hall]. split; [|naive_solver].
    destruct (grace_gens d v fid client (logical_offset t) (row_end t)) as [|x l]; [done|].
    destruct (proj1 (Hel x)) as (o & ? & ?); [by left|eauto].
  - intros [(o & gen & Hk & Ho) Hall]. split; [|naive_solver].
    intros Hn. apply (not_elem_of_nil gen). rewrite <- Hn. apply Hel. eauto.
Qed.

Lemma commit_check_spec d v fid client t :
  match commit_check d v fid client t with
  | Ok _ => authorised d v fid client t
  | Err e => ~ authorised d v fid client t /\ exists why, e = CommitRejected why
  end.
Proof.
  unfold commit_check, authorised.
  destruct (extent_grants d !! (v, fid, logical_offset t, client)) as [g|] eqn:Hg.
  - destruct (g_fenced g) eqn:Hf; cbn; [naive_solver|].
    destruct (Z.eqb_spec (g_gen g) (generation t)); cbn; naive_solver.
  - pose proof (grace_authorised d v fid client t) as Ha. cbn.
    destruct (grace_gen _) as [a|]; cbn.
    + destruct (Z.eqb_spec a (generation t)) as [->|]; cbn; rewrite <- Ha; [done|].
      split; [congruence|eauto].
    + rewrite <- Ha. split; [done|eauto].
Qed.

Lemma commit_checks_spec d v fid client ts :
  match commit_checks d v fid client ts with
  | Ok _ => forall t, t ∈ ts -> authorised d v fid client t
  | Err e => (exists t, t ∈ ts /\ ~ authorised d v fid client t) /\
             exists why, e = CommitRejected why
  end.
Proof.
  induction ts as [|t ts IH]; simpl; [by intros t ?%elem_of_nil|].
  pose proof (commit_check_spec d v fid client t) as Ht.
  destruct (commit_check d v fid client t) as [[]|e]; cbn.
  - destruct (commit_checks d v fid client ts).
    + intros x [->|Hx]%elem_of_cons; [done|by apply IH].
    + destruct IH as [(x & Hx & ?) ?]. split; [exists x; split; [by right|done]|done].
  - destruct Ht. split; [exists t; split; [by left|done]|done].
Qed.

Definition to_rw (e : extent) : extent := Extent (e_len e) (e_phys e) (e_gen e) StRw.

Lemma promote_rows_lookup v fid ts : forall E n E' n',
  foldl (promote_row v fid) (E, n) ts = (E', n') ->
  forall k, E' !! k = (fun e => if bool_decide (k ∈ (fun t => (v, fid, logical_offset t)) <$> ts)
                                then to_rw e else e) <$> E !! k.
Proof.
  induction ts as [|t ts IH]; intros E n E' n' H k; [simplify_eq/=; by destruct (E' !! k)|].
  rewrite fmap_cons. change (foldl (promote_row v fid) (promote_row v fid (E, n) t) ts = (E', n')) in H.
  destruct (promote_row v fid (E, n) t) as [E1 n1] eqn:H1. rewrite (IH _ _ _ _ H k).
  assert (HE : E1 !! k = (fun e => if bool_decide (k = (v, fid, logical_offset t)) then to_rw e else e)
                 <$> E !! k).
  { unfold promote_row in H1. case_bool_decide as Hk; [subst k|].
    - destruct (E !! (v, fid, logical_offset t)) as [[l p g []]|] eqn:He; simplify_eq/=;
        [by rewrite lookup_insert_eq|by rewrite He|by rewrite He].
    - assert (E1 !! k = E !! k) as ->; [|by destruct (E !! k)].
      destruct (E !! (v, fid, logical_offset t)) as [[l p g []]|]; simplify_eq/=; [|done..].
      by rewrite lookup_insert_ne. }
  rewrite HE, <- option_fmap_compose. apply option_fmap_ext. intros e. simpl.
  repeat case_bool_decide; set_solver.
Qed.

(** Changing states only keeps the invariant. *)
Lemma vol_inv_states d v (f : string * Z * Z -> extent -> extent) E :
  (forall k e, e_len (f k e) = e_len e /\ e_phys (f k e) = e_phys e /\ e_gen (f k e) = e_gen e) ->
  (forall k, E !! k = f k <$> extents d !! k) ->
  vol_inv d v -> vol_inv (set_extents E d) v.
Proof.
  intros Hf HE [Hc Hn].
  assert (Hup : forall w g lo x, E !! (w, g, lo) = Some x -> exists e,
     extents d !! (w, g, lo) = Some e /\ e_len x = e_len e /\ e_phys x = e_phys e /\ e_gen x = e_gen e).
  { intros w g lo x. rewrite HE. intros (e & He & ->)%fmap_Some. exists e. split; [done|]. apply Hf. }
  assert (Hown : forall q g lo x, ext_owner (set_extents E d) v q g lo x ->
     exists e, ext_owner d v q g lo e).
  { intros q g lo x [Hx Hq]. destruct (Hup _ _ _ _ Hx) as (e & He & Hl & Hp & _).
    exists e. split; [done|lia]. }
  assert (Hat : forall q, ext_at (set_extents E d) v q <-> ext_at d v q).
  { intros q. split; intros (g & lo & e & He).
    - destruct (Hown _ _ _ _ He) as [x Hx]. by exists g, lo, x.
    - destruct He as [He Hq]. exists g, lo, (f (v, g, lo) e).
      destruct (Hf (v, g, lo) e) as (Hl & Hp & _). split; [simpl; by rewrite HE, He|lia]. }
  split; [split; try apply Hc|].
  - intros g lo x Hx. destruct (Hup _ _ _ _ Hx) as (e & He & Hl & Hp & _).
    apply (c_ext _ _ Hc) in He. by rewrite Hl, Hp.
  - intros g l1 l2 x1 x2 Hx1 Hx2. destruct (Hup _ _ _ _ Hx1) as (e1 & He1 & -> & _).
    destruct (Hup _ _ _ _ Hx2) as (e2 & He2 & _). by eapply (c_log _ _ Hc).
  - intros q f1 l1 x1 f2 l2 x2 [e1 O1]%Hown [e2 O2]%Hown. by eapply (c_ext_uniq _ _ Hc).
  - intros q Hx%Hat. by apply (c_ext_free _ _ Hc).
  - intros q Hx%Hat. by apply (c_ext_quar _ _ Hc).
  - intros q. rewrite Hat. apply (c_tile _ _ Hc).
  - intros g lo c gr Hg. destruct (c_grants _ _ Hc _ _ _ _ Hg) as (e & He & Hgen).
    exists (f (v, g, lo) e). destruct (Hf (v, g, lo) e) as (_ & _ & ->). simpl. by rewrite HE, He.
  - intros a Ha. rewrite (Hn a Ha). apply count_where_ext. intros k. simpl. rewrite HE.
    by destruct (extents d !! k).
Qed.

(** The contract of LAYOUTCOMMIT's allocator half: it succeeds exactly when
    there is something under the range and every row of it is authorised,
    and then promotes exactly those rows. *)
Definition commit_ok (d : db) (v : string) (fid client s e : Z) : Prop :=
  (exists lo x, extents d !! (v, fid, lo) = Some x /\ lo < e /\ s < lo + e_len x) /\
  (forall lo x, extents d !! (v, fid, lo) = Some x -> lo < e -> s < lo + e_len x ->
     authorised d v fid client (row_of lo x)).

Record commit_post (d d' : db) (v : string) (fid s e : Z) : Prop := {
  cp_inv : vol_inv d' v;
  cp_rows : forall k, extents d' !! k =
    (fun x => if bool_decide (k.1 = (v, fid) /\ k.2 < e /\ s < k.2 + e_len x) then to_rw x else x)
    <$> extents d !! k;
  cp_rest : rest d' = rest d;
  cp_tables : extent_grants d' = extent_grants d /\ extent_free d' = extent_free d /\
    extent_quarantine d' = extent_quarantine d /\ volume_alloc d' = volume_alloc d }.

Lemma targets_authorised d v file_id client s e :
  (forall t, t ∈ overlapping_extents d v file_id s e -> authorised d v (wrap_i64 file_id) client t) <->
  (forall lo x, extents d !! (v, wrap_i64 file_id, lo) = Some x -> lo < e -> s < lo + e_len x ->
     authorised d v (wrap_i64 file_id) client (row_of lo x)).
Proof.
  setoid_rewrite elem_of_overlapping. split.
  - intros H lo x Hx H1 H2. apply H. simpl. unfold row_end; simpl. rewrite Hx.
    destruct x; split; [lia|done].
  - intros H t [[H1 H2] Ht]. specialize (H _ _ Ht H1). simpl in H. unfold row_end in H2.
    destruct t; apply H; simpl in *; lia.
Qed.

Lemma commit_extents_spec d v file_id client_id lo len :
  vol_inv d v -> is_u64 lo -> 0 < len -> lo + len <= i64_max -> client_id <= i64_max ->
  match commit_extents d v file_id client_id lo len with
  | Ok (n, d') => commit_ok d v (wrap_i64 file_id) client_id lo (lo + len) /\
                  commit_post d d' v (wrap_i64 file_id) lo (lo + len)
  | Err e => (exists why, e = CommitRejected why) /\
             ~ commit_ok d v (wrap_i64 file_id) client_id lo (lo + len)
  end.
Proof.
  intros Hi Hlo H0 Hle Hcl. unfold commit_extents.
  rewrite (proj2 (as_i64_Ok lo _ lo)), (proj2 (as_i64_Ok client_id _ client_id)) by (done || lia).
  assert (checked_end lo len = Ok (lo + len)) as ->.
  { unfold checked_end, u64_max, i64_max in *.
    rewrite (proj2 (Z.eqb_neq _ _)), !Z.gtb_ltb, !(proj2 (Z.ltb_ge _ _)) by lia. done. }
  cbn. set (fid := wrap_i64 file_id). set (ts := overlapping_extents _ _ _ _ _).
  destruct (is_nil ts) eqn:Hts; cbn.
  { apply is_nil_true in Hts. split; [eauto|]. intros [(l & x & Hx & H1 & H2) _].
    apply (not_elem_of_nil (row_of l x)). rewrite <- Hts. apply elem_of_overlapping.
    simpl. unfold row_end; simpl. fold fid. rewrite Hx. destruct x. split; [lia|done]. }
  pose proof (commit_checks_spec d v fid client_id ts) as Hck.
  pose proof (targets_authorised d v file_id client_id lo (lo + len)) as Hau. fold ts fid in Hau.
  assert (Hne : exists l x, extents d !! (v, fid, l) = Some x /\ l < lo + len /\ lo < l + e_len x).
  { destruct ts as [|t0 ts0] eqn:Hts'; [done|].
    destruct (proj1 (elem_of_overlapping d v file_id lo (lo + len) t0)) as [[H1 H2] Hx];
      [fold ts; rewrite Hts'; by left|].
    exists (logical_offset t0), (cols_of t0). unfold row_end in H2. split; [done|]. simpl. lia. }
  destruct (commit_checks d v fid client_id ts) as [[]|e]; cbn.
  2:{ destruct Hck as [(t & Ht & Hna) ?]. split; [done|].
      intros [_ Hall]. apply Hna. by apply Hau. }
  destruct (foldl (promote_row v fid) (extents d, 0) ts) as [E n] eqn:Hp.
  pose proof (promote_rows_lookup _ _ _ _ _ _ _ Hp) as HE.
  split; [split; [done|by apply Hau]|]. split; try done.
  - eapply vol_inv_states; [|exact HE|done]. intros k e. simpl. by destruct (bool_decide _).
  - intros [[w f] l]. simpl. rewrite HE. destruct (extents d !! (w, f, l)) as [x|] eqn:Hx; [|done].
    simpl. f_equal. assert ((w, f, l) ∈ (fun t => (v, fid, logical_offset t)) <$> ts <->
      (w, f) = (v, fid) /\ l < lo + len /\ lo < l + e_len x) as Hiff.
    { rewrite list_elem_of_fmap. unfold ts. setoid_rewrite elem_of_overlapping. split.
      - intros (t & [= -> -> ->] & [Ho1 Ho2] & Ht). fold fid in Ht. rewrite Hx in Ht. simplify_eq.
        unfold row_end in Ho2. simpl. split; [done|lia].
      - intros ([= -> ->] & H1 & H2). exists (row_of l x). split; [done|].
        simpl. unfold row_end; simpl. fold fid. rewrite Hx. destruct x. split; [lia|done]. }
    by rewrite (bool_decide_ext _ _ Hiff).
Qed.

(** ** revoke_client *)
Lemma group_windows_ok (P : Z -> Prop) rows :
  Forall (fun '(f, lo, hi) => P f /\ lo <= hi) rows ->
  Forall (fun '(f, lo, hi) => P f /\ lo <= hi) (group_windows rows).
Proof.
  induction 1 as [|[[f lo] hi] rows Hr Hrs IH]; [constructor|]. simpl.
  destruct (group_windows rows) as [|[[f' lo'] hi'] gs]; [by constructor|].
  inversion_clear IH as [|? ? Hw Hgs]. destruct Hr, Hw.
  destruct (Z.eqb_spec f f'); repeat constructor; try done; lia.
Qed.

Lemma client_windows_ok d v client :
  core d v -> Forall (fun '(f, lo, hi) => is_i64 f /\ lo <= hi) (client_windows d v client).
Proof.
  intros Hc. apply Forall_forall. intros [[f lo] hi] Hin. unfold client_windows in Hin.
  apply elem_of_select in Hin as ([[[w g] l] c] & gr & Hg & Hsel). simpl in Hsel.
  destruct (client_rows v client _) eqn:Hcr; [|done].
  apply client_rows_true in Hcr as [Hv _]. simpl in Hv. subst w.
  apply fmap_Some in Hsel as (e & He & [= -> -> ->]). apply (c_ext _ _ Hc) in He.
  split; [apply He|lia].
Qed.

Lemma merge_post_trans d1 d2 d3 v : merge_post d1 d2 v -> merge_post d2 d3 v -> merge_post d1 d3 v.
Proof.
  intros [I1 B1 O1 G1 F1 Q1 R1] [I2 B2 O2 G2 F2 Q2 R2]. split; try congruence.
  - intros f o p st. by rewrite (B2 f o p st), (B1 f o p st).
  - intros w Hw. eapply (same_volume_trans w); [by apply O1|by apply O2].
Qed.

Lemma merge_files_spec v (files : list (Z * Z * Z)) : forall d,
  vol_inv d v -> Forall (fun '(f, lo, hi) => is_i64 f /\ lo <= hi) files ->
  exists d', foldM (fun d '(f, lo, hi) => '(d', _) ← merge_extents_window d v f lo hi; Ok d')
               d files = Ok d' /\ merge_post d d' v.
Proof.
  induction files as [|[[f lo] hi] files IH]; intros d Hi Hok; simpl.
  { exists d. split; [done|by apply merge_post_refl]. }
  apply Forall_cons in Hok as [[Hf Hle] Hok'].
  destruct (merge_window_spec d v f lo hi Hi Hf Hle) as (d1 & n & -> & Hp1 & _). cbn.
  destruct (IH d1) as (d2 & Hd2 & Hp2); [apply Hp1|done|].
  exists d2. split; [exact Hd2|by eapply merge_post_trans].
Qed.

Record revoke_post (d d' : db) (v : string) (client : Z) : Prop := {
  rv_inv : vol_inv d' v;
  rv_bytes : same_bytes d d' v;
  rv_others : forall w, w <> v -> same_volume d d' w;
  rv_grants : forall k g, extent_grants d' !! k = Some g <->
    extent_grants d !! k = Some g /\ ~ (k.1.1.1 = v /\ k.2 = client);
  rv_rest : rest d' = rest d }.

Lemma revoke_client_spec d v client :
  vol_inv d v -> client <= i64_max ->
  match revoke_client d v client with
  | Ok (n, d') => 0 < delivered_at d v client /\ revoke_post d d' v client
  | Err e => e = UnconfirmedFence /\ delivered_at d v client <= 0
  end.
Proof.
  intros Hi Hc. unfold revoke_client. rewrite (proj2 (as_i64_Ok client _ client)) by done. cbn.
  destruct (delivered_at d v client >? 0) eqn:Hdel; bool_Z; cbn; [|done].
  set (mine := fun k (_ : grant_row) => client_rows v client k).
  set (d1 := set_grants (delete_where mine (extent_grants d)) d).
  assert (Hi1 : vol_inv d1 v) by (apply vol_inv_weaken; [done|apply delete_grants_weaker]).
  destruct (merge_files_spec v (group_windows (client_windows d v client)) d1) as (d2 & Hrun & Hm);
    [done|apply group_windows_ok, client_windows_ok, Hi|].
  rewrite Hrun. cbn. split; [done|]. destruct Hm as [I2 B2 O2 G2 F2 Q2 R2].
  split; [done|done| |..].
  - intros w Hw. eapply (same_volume_trans w); [|by apply O2]. split; try done. simpl.
    intros f lo c. rewrite lookup_delete_where. destruct (extent_grants d !! _); [|done].
    unfold mine. destruct (client_rows _ _ _) eqn:Hcr; [|done].
    apply client_rows_true in Hcr as [Hcr _]. by simpl in Hcr.
  - intros k g. rewrite G2. simpl. rewrite lookup_delete_where_Some. unfold mine.
    rewrite <- client_rows_true, not_true_iff_false. done.
  - done.
Qed.
