(* ===== verification/Csv.v ===== *)
(** The text the allocator keeps in a column: a quarantined range's
    [fenced_clients] CSV of client ids, written with [i64::to_string] and
    [join(",")], and read back with [split(','), filter(non-empty), trim,
    parse::<i64>].  Also the row-budget environment variable, which is
    parsed the same way.  Strings are ASCII bytes. *)

From Stdlib Require Import Ascii String.
From S2P Require Import Prelude.

Definition digit_char (n : Z) : ascii := ascii_of_N (Z.to_N (48 + n)).
Definition char_digit (c : ascii) : option Z :=
  let n := Z.of_N (N_of_ascii c) in
  if (48 <=? n) && (n <=? 57) then Some (n - 48) else None.

(** ** i64::to_string *)
Fixpoint show_digits (fuel : nat) (n : Z) (acc : string) : string :=
  match fuel with
  | O => acc
  | S fuel =>
      if n <? 10 then String (digit_char n) acc
      else show_digits fuel (n / 10) (String (digit_char (n mod 10)) acc)
  end.

(** Twenty digits hold every i64. *)
Definition show_i64 (n : Z) : string :=
  if n <? 0 then String "-"%char (show_digits 20 (- n) EmptyString)
  else show_digits 20 n EmptyString.

(** ** str::parse::<i64> *)
Fixpoint digits_val (acc : Z) (s : string) : option Z :=
  match s with
  | EmptyString => Some acc
  | String c s =>
      match char_digit c with
      | Some n => digits_val (10 * acc + n) s
      | None => None
      end
  end.

Definition parse_digits (s : string) : option Z :=
  match s with EmptyString => None | _ => digits_val 0 s end.

Definition in_i64 (n : Z) : option Z :=
  if (- 2 ^ 63 <=? n) && (n <=? i64_max) then Some n else None.

Definition parse_i64 (s : string) : option Z :=
  match s with
  | String c s' =>
      if Ascii.eqb c "-" then n ← parse_digits s'; in_i64 (- n)
      else if Ascii.eqb c "+" then n ← parse_digits s'; in_i64 n
      else n ← parse_digits s; in_i64 n
  | EmptyString => None
  end.

(** ** str::trim *)
Definition is_ws (c : ascii) : bool :=
  let n := N_of_ascii c in ((9 <=? n) && (n <=? 13) || (n =? 32))%N.

Fixpoint trim_start (s : string) : string :=
  match s with
  | String c s' => if is_ws c then trim_start s' else s
  | EmptyString => EmptyString
  end.
Fixpoint trim_end (s : string) : string :=
  match s with
  | String c s' =>
      match trim_end s' with
      | EmptyString => if is_ws c then EmptyString else String c EmptyString
      | t => String c t
      end
  | EmptyString => EmptyString
  end.
Definition trim (s : string) : string := trim_end (trim_start s).

Definition is_empty (s : string) : bool :=
  match s with EmptyString => true | _ => false end.

(** ** join(",") and split(',') *)
Fixpoint join_comma (l : list string) : string :=
  match l with
  | [] => EmptyString
  | [s] => s
  | s :: l => String.append s (String ","%char (join_comma l))
  end.

Fixpoint split_comma (s : string) : list string :=
  match s with
  | EmptyString => [EmptyString]
  | String c s =>
      if Ascii.eqb c "," then EmptyString :: split_comma s
      else match split_comma s with
           | f :: fs => String c f :: fs
           | [] => [String c EmptyString]
           end
  end.

Definition csv_of (clients : list Z) : string := join_comma (show_i64 <$> clients).
Definition csv_fields (s : string) : list string :=
  filter (fun f => is_empty f = false) (split_comma s).

(** ** Other str methods: to_ascii_lowercase, contains, strip_prefix,
    split_once, and parse and printing of u64 *)
Definition to_ascii_lowercase (s : string) : string :=
  string_of_list_ascii ((fun c => let n := nat_of_ascii c in
    if ((65 <=? n) && (n <=? 90))%nat then ascii_of_nat (n + 32) else c) <$> list_ascii_of_string s).
Fixpoint str_contains (pat s : string) : bool :=
  String.prefix pat s || match s with String _ s' => str_contains pat s' | EmptyString => false end.
Fixpoint strip_prefix (p s : string) : option string :=
  match p, s with
  | EmptyString, _ => Some s
  | String a p, String b s => if Ascii.eqb a b then strip_prefix p s else None
  | String _ _, EmptyString => None
  end.
Fixpoint split_once (d : ascii) (s : string) : option (string * string) :=
  match s with
  | EmptyString => None
  | String c s =>
      if Ascii.eqb c d then Some (EmptyString, s)
      else '(a, b) ← split_once d s; Some (String c a, b)
  end.
Definition in_u64 (n : Z) : option Z := if n <=? u64_max then Some n else None.
Definition parse_u64 (s : string) : option Z :=
  match s with
  | String c s' => if Ascii.eqb c "+" then n ← parse_digits s'; in_u64 n else n ← parse_digits s; in_u64 n
  | EmptyString => None
  end.
(** Twenty digits hold every u64. *)
Definition show_u64 (n : Z) : string := show_digits 20 n EmptyString.

(** ** The budget: FLINT_PNFS_EXTENT_ROW_BUDGET, when it parses and is
    positive *)
Definition DEFAULT_EXTENT_ROW_BUDGET : Z := 65536.
Definition extent_row_budget (env : option string) : Z :=
  match env ≫= parse_i64 with
  | Some v => if v >? 0 then v else DEFAULT_EXTENT_ROW_BUDGET
  | None => DEFAULT_EXTENT_ROW_BUDGET
  end.

(** ** Round trips *)
Lemma digit_char_code n : 0 <= n < 10 -> N_of_ascii (digit_char n) = Z.to_N (48 + n).
Proof. intros Hn. unfold digit_char. apply N_ascii_embedding. lia. Qed.

Lemma char_digit_char n : 0 <= n < 10 -> char_digit (digit_char n) = Some n.
Proof.
  intros Hn. unfold char_digit. rewrite digit_char_code, Z2N.id by lia.
  rewrite (proj2 (Z.leb_le _ _)), (proj2 (Z.leb_le _ _)) by lia. simpl. f_equal. lia.
Qed.

Lemma digits_show fuel : forall n acc, 0 <= n < 10 ^ Z.of_nat fuel -> (0 < fuel)%nat ->
  digits_val 0 (show_digits fuel n acc) = digits_val n acc.
Proof.
  induction fuel as [|fuel IH]; intros n acc Hn Hf; [lia|]. simpl.
  destruct (Z.ltb_spec n 10).
  - cbn -[digit_char char_digit]. by rewrite char_digit_char by lia.
  - pose proof (Z.div_mod n 10 ltac:(lia)). pose proof (Z.mod_pos_bound n 10 ltac:(lia)).
    rewrite Nat2Z.inj_succ, Z.pow_succ_r in Hn by lia.
    assert (0 <= n / 10 < 10 ^ Z.of_nat fuel).
    { split; [apply Z.div_pos; lia|]. apply Z.div_lt_upper_bound; lia. }
    rewrite IH; [|done|].
    + cbn -[digit_char char_digit Z.mul]. rewrite char_digit_char by done. f_equal. lia.
    + destruct fuel; [simpl in *; lia|lia].
Qed.

(** A predicate on every character. *)
Fixpoint all_chars (p : ascii -> bool) (s : string) : bool :=
  match s with EmptyString => true | String c s => p c && all_chars p s end.

Lemma show_digits_chars p fuel : (forall n, 0 <= n < 10 -> p (digit_char n) = true) ->
  forall n acc, 0 <= n -> all_chars p acc = true -> all_chars p (show_digits fuel n acc) = true.
Proof.
  intros Hp. induction fuel as [|fuel IH]; intros n acc Hn Ha; [done|]. simpl.
  destruct (Z.ltb_spec n 10); simpl; [by rewrite Hp|].
  apply IH; [apply Z.div_pos; lia|]. simpl. rewrite Hp; [done|]. apply Z.mod_pos_bound. lia.
Qed.

(** Decimal text starts with a digit, so it is neither empty nor signed. *)
Lemma show_digits_head fuel : forall n acc, 0 <= n -> (0 < fuel)%nat ->
  exists c s, show_digits fuel n acc = String c s /\ exists k, 0 <= k < 10 /\ c = digit_char k.
Proof.
  assert (Hgen : forall fuel n acc, 0 <= n ->
    (exists c s, acc = String c s /\ exists k, 0 <= k < 10 /\ c = digit_char k) \/ (0 < fuel)%nat ->
    exists c s, show_digits fuel n acc = String c s /\ exists k, 0 <= k < 10 /\ c = digit_char k).
  { clear fuel. induction fuel as [|fuel IH]; intros n acc Hn Ha; simpl; [destruct Ha; [done|lia]|].
    destruct (Z.ltb_spec n 10); [eauto 10 with lia|].
    apply IH; [apply Z.div_pos; lia|left].
    eexists _, _. split; [done|]. exists (n mod 10). split; [apply Z.mod_pos_bound; lia|done]. }
  intros n acc Hn Hf. apply Hgen; auto.
Qed.

Lemma digit_not_sign k : 0 <= k < 10 ->
  Ascii.eqb (digit_char k) "-" = false /\ Ascii.eqb (digit_char k) "+" = false.
Proof.
  intros Hk. split; apply Ascii.eqb_neq; intros Heq; apply (f_equal N_of_ascii) in Heq;
    rewrite digit_char_code in Heq by done; vm_compute (N_of_ascii _) in Heq; lia.
Qed.

Lemma in_i64_id n : is_i64 n -> in_i64 n = Some n.
Proof.
  intros [? ?]. unfold in_i64. by rewrite (proj2 (Z.leb_le _ _)), (proj2 (Z.leb_le _ _)).
Qed.

(** parse ∘ to_string is the identity on i64. *)
Lemma parse_show n : is_i64 n -> parse_i64 (show_i64 n) = Some n.
Proof.
  intros Hn. pose proof Hn as [Hlo Hhi]. unfold i64_max in Hhi. unfold show_i64.
  destruct (Z.ltb_spec n 0).
  - unfold parse_i64. simpl Ascii.eqb. cbv iota.
    destruct (show_digits_head 20 (- n) EmptyString) as (c & s & Heq & _); [lia|lia|].
    unfold parse_digits. rewrite Heq. rewrite <- Heq, digits_show by lia.
    simpl. rewrite Z.opp_involutive. by apply in_i64_id.
  - destruct (show_digits_head 20 n EmptyString) as (c & s & Heq & k & Hk & Hc); [lia|lia|].
    unfold parse_i64. rewrite Heq. destruct (digit_not_sign k Hk) as [H1 H2].
    rewrite Hc in *. rewrite H1, H2. unfold parse_digits. rewrite <- Heq, digits_show by lia.
    simpl. by apply in_i64_id.
Qed.

(** Likewise for u64. *)
Lemma parse_show_u64 n : 0 <= n <= u64_max -> parse_u64 (show_u64 n) = Some n.
Proof.
  intros [Hlo Hhi]. pose proof Hhi as Hhi'. unfold u64_max in Hhi'. unfold show_u64.
  destruct (show_digits_head 20 n EmptyString) as (c & s & Heq & k & Hk & Hc); [lia|lia|].
  unfold parse_u64. rewrite Heq. destruct (digit_not_sign k Hk) as [_ H2].
  rewrite Hc in *. rewrite H2. unfold parse_digits. rewrite <- Heq, digits_show by lia.
  simpl. unfold in_u64. by rewrite (proj2 (Z.leb_le _ _)).
Qed.
Lemma show_u64_not_empty n : 0 <= n -> is_empty (show_u64 n) = false.
Proof. intros Hn. unfold show_u64. by destruct (show_digits_head 20 n EmptyString) as (c & s & -> & _); [lia|lia|]. Qed.
Lemma strip_prefix_append p s : strip_prefix p (String.append p s) = Some s.
Proof. induction p as [|c p IH]; [done|]. simpl. by rewrite Ascii.eqb_refl. Qed.

Definition plain (c : ascii) : bool := negb (is_ws c) && negb (Ascii.eqb c ",").

Lemma plain_spec c : plain c = true -> is_ws c = false /\ Ascii.eqb c "," = false.
Proof. unfold plain. intros H. by bool_Z. Qed.

Lemma digit_plain n : 0 <= n < 10 -> plain (digit_char n) = true.
Proof.
  intros Hn. unfold plain, is_ws. rewrite digit_char_code by done.
  apply andb_true_intro. split; apply negb_true_iff.
  - apply orb_false_intro; [apply andb_false_intro2; apply N.leb_gt; lia|apply N.eqb_neq; lia].
  - apply Ascii.eqb_neq. intros Heq. apply (f_equal N_of_ascii) in Heq.
    rewrite digit_char_code in Heq by done. vm_compute (N_of_ascii _) in Heq. lia.
Qed.

Lemma show_i64_plain n : all_chars plain (show_i64 n) = true /\ is_empty (show_i64 n) = false.
Proof.
  unfold show_i64. destruct (Z.ltb_spec n 0).
  - split; [|done]. cbn [all_chars]. apply andb_true_intro. split; [done|].
    apply show_digits_chars; [apply digit_plain|lia|done].
  - split; [apply show_digits_chars; [apply digit_plain|lia|done]|].
    destruct (show_digits_head 20 n EmptyString) as (c & s & -> & _); [lia|lia|done].
Qed.

Lemma trim_end_plain s : all_chars plain s = true -> trim_end s = s.
Proof.
  induction s as [|c s IH]; simpl; [done|]. intros [Hc Hs]%andb_prop.
  rewrite IH by done. apply plain_spec in Hc as [-> _]. by destruct s.
Qed.

Lemma trim_plain s : all_chars plain s = true -> trim s = s.
Proof.
  intros Hs. unfold trim. destruct s as [|c s]; [done|]. simpl in Hs |- *.
  pose proof Hs as [[-> _]%plain_spec _]%andb_prop. by apply trim_end_plain.
Qed.

Lemma split_plain s : all_chars plain s = true -> split_comma s = [s].
Proof.
  induction s as [|c s IH]; simpl; [done|]. intros [Hc Hs]%andb_prop.
  apply plain_spec in Hc as [_ ->]. by rewrite IH.
Qed.

Lemma split_append s t :
  all_chars plain s = true -> split_comma (String.append s (String ","%char t)) = s :: split_comma t.
Proof.
  induction s as [|c s IH]; simpl; [done|]. intros [Hc Hs]%andb_prop.
  apply plain_spec in Hc as [_ ->]. by rewrite IH.
Qed.

Lemma split_join l : l <> [] -> Forall (fun s => all_chars plain s = true) l ->
  split_comma (join_comma l) = l.
Proof.
  intros Hne Hl. induction Hl as [|s l Hs Hl IH]; [done|].
  destruct l as [|s' l]; [by apply split_plain|].
  change (split_comma (String.append s (String ","%char (join_comma (s' :: l)))) = s :: s' :: l).
  rewrite split_append by done. by rewrite IH.
Qed.

(** The CSV the quarantine branch writes names exactly its clients. *)
Lemma csv_round_trip l : csv_fields (csv_of l) = show_i64 <$> l.
Proof.
  unfold csv_fields, csv_of. destruct l as [|c l]; [done|].
  rewrite split_join; [|done|].
  - induction (c :: l) as [|x xs IH]; [done|]. rewrite fmap_cons, filter_cons_True, IH; [done|].
    apply show_i64_plain.
  - apply Forall_fmap, Forall_forall. intros x _. apply show_i64_plain.
Qed.

Lemma parse_field n : is_i64 n -> parse_i64 (trim (show_i64 n)) = Some n.
Proof. intros Hn. rewrite trim_plain by apply show_i64_plain. by apply parse_show. Qed.

(** A non-empty client list gives a CSV that is not blank. *)
Lemma csv_not_blank c l : is_empty (trim (csv_of (c :: l))) = false.
Proof.
  unfold csv_of. rewrite fmap_cons. destruct (show_i64_plain c) as [Hp Hn].
  assert (exists a s, join_comma (show_i64 c :: (show_i64 <$> l)) = String a s /\ is_ws a = false)
    as (a & s & -> & Ha).
  { destruct (show_i64 c) as [|a s]; [done|]. apply andb_prop in Hp as [Hp _].
    apply plain_spec in Hp as [Hp _]. destruct (show_i64 <$> l); eexists _, _; split; try done. }
  unfold trim. simpl. rewrite Ha. simpl. by destruct (trim_end s); [rewrite Ha|].
Qed.

(** What a u64 that parses is. *)
Lemma digits_val_nonneg s : forall acc n, 0 <= acc -> digits_val acc s = Some n -> 0 <= n.
Proof.
  induction s as [|c s IH]; intros acc n Ha; [by intros [= <-]|]. cbn [digits_val]. destruct (char_digit c) as [d|] eqn:Hd; [|done].
  apply IH. unfold char_digit in Hd. destruct (_ && _) eqn:Hb; [|done]. injection Hd as <-. bool_Z. lia.
Qed.
Lemma parse_u64_range s n : parse_u64 s = Some n -> is_u64 n.
Proof.
  assert (forall t, parse_digits t ≫= in_u64 = Some n -> is_u64 n) as H.
  { intros t. unfold parse_digits. destruct t as [|c t]; [done|]. destruct (digits_val 0 (String c t)) as [m|] eqn:Hm; [|done].
    apply digits_val_nonneg in Hm; [|done]. cbn [mbind option_bind]. unfold in_u64. destruct (Z.leb_spec m u64_max); [|done].
    intros [= <-]. by split. }
  unfold parse_u64. destruct s as [|c s]; [done|]. destruct (Ascii.eqb c "+"); apply H.
Qed.
