(* ===== verification/ExtentReclaim.v ===== *)
(** Freeing (extent_alloc.rs): [reclaim_complete] cuts a logical range out
    of a file and sends each cut to the free list or, when a fenced holder's
    exclusion is not confirmed, to quarantine. *)

From S2P Require Import Prelude Sql Tables ExtentVerify FreeList ExtentInv.
From S2P Require Import ExtentGrant ExtentMerge ExtentReturn Csv.

Record FreeOutcome := Outcome {
  freed_extents : Z; freed_bytes : Z; quarantined_extents : Z; quarantined_bytes : Z }.
Definition no_outcome : FreeOutcome := Outcome 0 0 0 0.

(** The fenced holders of one row, each with its fence's delivered time
    (COALESCE 0), ORDER BY client_id. *)
Definition fenced_on (d : db) (v : string) (fid lo : Z) : list (Z * Z) :=
  select (fun k g => if bool_decide (k.1 = (v, fid, lo)) && g_fenced g
                     then Some (k.2, delivered_at d v k.2) else None)
    (by_key fst) (extent_grants d).

Definition drop_grants_on (d : db) (v : string) (fid lo : Z) : db :=
  set_grants (delete_where (fun k _ => bool_decide (k.1 = (v, fid, lo))) (extent_grants d)) d.

Definition drop_grace_on (d : db) (v : string) (fid lo : Z) : db :=
  set_grace (delete_where (fun k _ => bool_decide (k.1 = (v, fid, lo))) (extent_commit_grace d)) d.

(** The home the cut moves to. *)
Definition send_cut (d : db) (v : string) (fid : Z) (t : ExtentRow) (cut_phys cut_len now : Z)
    (out : FreeOutcome) : res (db * FreeOutcome) :=
  let fenced := fenced_on d v fid (logical_offset t) in
  if is_nil fenced || forallb (fun cd => cd.2 >? 0) fenced then
    F ← sql (free_insert_coalescing (extent_free d) v cut_phys cut_len (generation t));
    let d1 := set_free F d in
    Ok (if is_nil fenced then d1 else drop_grants_on d1 v fid (logical_offset t),
        Outcome (freed_extents out + 1) (freed_bytes out + cut_len)
          (quarantined_extents out) (quarantined_bytes out))
  else
    Q ← sql (insert_new (v, cut_phys)
               (QuarRow cut_len (generation t) (csv_of (fst <$> fenced)) now)
               (extent_quarantine d));
    Ok (drop_grants_on (set_quarantine Q d) v fid (logical_offset t),
        Outcome (freed_extents out) (freed_bytes out)
          (quarantined_extents out + 1) (quarantined_bytes out + cut_len)).

(** DELETE the row, re-INSERT its surviving head and tail. *)
Definition carve (E : extent_table) (v : string) (fid : Z) (t : ExtentRow) (cs ce : Z)
    : result sql_error (extent_table * Z) :=
  let lo := logical_offset t in
  let E1 := delete (v, fid, lo) E in
  E2 ← (if cs >? lo
        then insert_new (v, fid, lo)
               (Extent (cs - lo) (physical_offset t) (generation t) (row_state t)) E1
        else Ok E1);
  E3 ← (if ce <? row_end t
        then insert_new (v, fid, ce)
               (Extent (row_end t - ce) (physical_offset t + (ce - lo)) (generation t)
                  (row_state t)) E2
        else Ok E2);
  Ok (E3, (if cs >? lo then 1 else 0) + (if ce <? row_end t then 1 else 0)).

(** The loop's state: database, outcome, rows removed, rows added. *)
Definition reclaim_target (v : string) (fid start end_ now : Z)
    (acc : db * FreeOutcome * Z * Z) (t : ExtentRow) : res (db * FreeOutcome * Z * Z) :=
  let '(d, out, removed, added) := acc in
  let cut_start := Z.max (logical_offset t) start in
  let cut_end := Z.min (row_end t) end_ in
  let cut_phys := physical_offset t + (cut_start - logical_offset t) in
  '(d1, out1) ← send_cut d v fid t cut_phys (cut_end - cut_start) now out;
  '(E, n) ← sql (carve (extents d1) v fid t cut_start cut_end);
  Ok (drop_grace_on (set_extents E d1) v fid (logical_offset t), out1, removed + 1, added + n).

Definition reclaim_complete (d : db) (v : string) (file_id lo len now : Z)
    : res (FreeOutcome * db) :=
  start ← as_i64 lo "offset exceeds i64";
  end_ ← checked_end lo len;
  let targets := overlapping_extents d v file_id start end_ in
  match targets with
  | [] => Ok (no_outcome, d)
  | _ =>
      let holders := live_unfenced_holders d v file_id targets None in
      fail_if (negb (is_nil holders)) (NotQuiescent holders) ≫= fun _ =>
      '(d1, out, removed, added) ←
        foldM (reclaim_target v (wrap_i64 file_id) start end_ now) (d, no_outcome, 0, 0) targets;
      Ok (out, add_rows d1 v (- (removed - added)))
  end.

(** ** Cutting one row *)
Section carve.
Context (d d' : db) (v : string) (fid : Z) (t : ExtentRow) (cs ce : Z).
Notation lo := (logical_offset t).
Notation hi := (row_end t).
Notation cut_phys := (physical_offset t + (cs - lo)).
Context (Hc : core d v) (Ht : stored (extents d) v fid t) (Hcut : lo <= cs < ce) (Hce : ce <= hi).

Definition in_cut (q : Z) : Prop := cut_phys <= q < cut_phys + (ce - cs).

(** A row of the result is an old row, or the head or tail of [t]. *)
Definition piece (f l : Z) (e : extent) : Prop :=
  ((f, l) <> (fid, lo) /\ extents d !! (v, f, l) = Some e) \/
  (f = fid /\ (l = lo /\ l + e_len e = cs \/ l = ce /\ l + e_len e = hi) /\ 0 < e_len e /\
   e_phys e = physical_offset t + (l - lo) /\ e_gen e = generation t /\ e_state e = row_state t).

Lemma row_inside f l e : extents d !! (v, f, l) = Some e -> f = fid -> l <> lo ->
  l + e_len e <= lo \/ hi <= l.
Proof.
  intros He -> Hne. destruct (Z.lt_total l lo) as [Hlt|[?|Hgt]]; [left|done|right].
  - by apply (c_log _ _ Hc _ _ _ _ _ He Ht).
  - by apply (c_log _ _ Hc _ _ _ _ _ Ht He).
Qed.

Lemma carve_spec : exists E n,
  carve (extents d) v fid t cs ce = Ok (E, n) /\
  (forall f l e, E !! (v, f, l) = Some e <-> piece f l e) /\
  (forall k, k.1 <> (v, fid) -> E !! k = extents d !! k) /\
  count_extents (set_extents E d) v = count_extents d v - 1 + n /\
  (forall r, stored (extents d) v fid r -> hi <= logical_offset r -> stored E v fid r).
Proof.
  assert (Hnone : extents d !! (v, fid, ce) = None \/ ce = hi \/ ce = lo).
  { destruct (extents d !! (v, fid, ce)) as [e|] eqn:He; [right|by left].
    destruct (decide (ce = lo)); [by right|left].
    apply (c_ext _ _ Hc) in He as ?.
    destruct (row_inside _ _ _ He eq_refl); [done|lia|lia]. }
  assert (Hnew : ce < hi -> extents d !! (v, fid, ce) = None) by (destruct Hnone as [|[]]; lia || done).
  clear Hnone. unfold carve.
  set (h := Extent (cs - lo) _ _ _). set (x := Extent (hi - ce) _ _ _).
  set (E1 := delete (v, fid, lo) (extents d)).
  assert (H1 : forall f l e, E1 !! (v, f, l) = Some e <-> (f, l) <> (fid, lo) /\ extents d !! (v, f, l) = Some e).
  { intros f l e. unfold E1. rewrite lookup_delete_Some. naive_solver. }
  assert (HE1 : E1 !! (v, fid, lo) = None) by apply lookup_delete_eq.
  rewrite (insert_new_if (cs >? lo)) by done. cbn. set (E2 := put_if _ _ _ E1).
  assert (HE2 : (ce <? hi) = true -> E2 !! (v, fid, ce) = None).
  { intros Hlt%Z.ltb_lt. unfold E2, E1. rewrite lookup_put_if_ne, lookup_delete_ne by (intros [=]; lia).
    by apply Hnew. }
  rewrite (insert_new_if (ce <? hi)) by done. cbn. set (E3 := put_if _ _ _ E2).
  eexists _, _. split; [done|]. split_and!.
  - intros f l e. unfold E3, E2. rewrite !lookup_put_if, H1. unfold piece.
    rewrite Z.ltb_lt, Z.gtb_ltb, Z.ltb_lt. split.
    + intros [(? & [= -> ->] & ->)|(_ & [(? & [= -> ->] & ->)|(_ & ?)])]; [right|right|by left];
        simpl; split_and!; try done; try lia.
    + intros [[Hne He]|(-> & Hl & Hpos & Hp & Hg & Hs)].
      * right. split; [intros Hlt [= -> ->]; rewrite Hnew in He by done; done|]. right.
        split; [naive_solver|done].
      * destruct e as [el ep eg es]. simpl in *. destruct Hl as [[-> Hl]|[-> Hl]]; subst.
        { right. split; [intros _ [=]; lia|]. left. split_and!; [lia|done|].
          unfold h. f_equal; lia. }
        { left. split_and!; [lia|done|]. unfold x. f_equal; lia. }
  - intros k Hk. unfold E3, E2, E1.
    rewrite !lookup_put_if_ne, lookup_delete_ne; [done|by (intros Heq; subst k)..].
  - unfold count_extents. simpl. unfold E3, E2.
    assert (Hin : forall l, in_volume v (v, fid, l) = true).
    { intros l. unfold in_volume. by rewrite bool_decide_eq_true_2. }
    rewrite !count_put_if by (done || apply Hin). unfold E1.
    erewrite count_delete by exact Ht. rewrite Hin. lia.
  - intros r Hr Hge. unfold stored, E3, E2, E1.
    assert (0 < row_len t) by apply (c_ext _ _ Hc _ _ _ Ht). unfold row_end in *.
    destruct (ce <? lo + row_len t) eqn:Hb; bool_Z.
    + rewrite !lookup_put_if_ne, lookup_delete_ne; [done|intros [=]; lia..].
    + unfold put_if at 1. cbv iota.
      rewrite lookup_put_if_ne, lookup_delete_ne; [done|intros [=]; lia..].
Qed.

Context (HE : forall f l e, extents d' !! (v, f, l) = Some e <-> piece f l e).

(** Exactly the logical bytes [cs, ce) of the file are unmapped; every
    other byte keeps its physical address. *)
Lemma carve_bytes f o p st :
  byte_at d' v f o p st <-> byte_at d v f o p st /\ ~ (f = fid /\ cs <= o < ce).
Proof.
  unfold byte_at. setoid_rewrite HE. unfold piece. split.
  - intros (l & e & [[Hne He]|(-> & Hl & Hpos & Hp & Hg & Hs)] & Ho & -> & ->).
    + split; [eauto 10|]. intros [-> Hcs].
      destruct (row_inside _ _ _ He eq_refl); [congruence|lia|lia].
    + split; [|lia]. exists lo, (cols_of t). unfold row_end in *. simpl in *.
      split_and!; [done|lia..|done].
  - intros [(l & e & He & Ho & -> & ->) Hout].
    destruct (decide ((f, l) = (fid, lo))) as [[= -> ->]|Hne]; [|eauto 10].
    unfold stored in Ht. rewrite Ht in He. simplify_eq. unfold row_end in *. simpl in *.
    destruct (decide (o < cs)).
    + exists lo, (Extent (cs - lo) (physical_offset t) (generation t) (row_state t)). simpl.
      split_and!; [right; split_and!; try done; lia|lia..|done].
    + exists ce, (Extent (row_end t - ce) (physical_offset t + (ce - lo)) (generation t) (row_state t)).
      unfold row_end. simpl. split_and!; [right; split_and!; try done; lia|lia..|done].
Qed.

Lemma carve_owner q f l e : ext_owner d' v q f l e ->
  ~ in_cut q /\ exists l0 e0, ext_owner d v q f l0 e0 /\
    ((l0 = l /\ (f, l) <> (fid, lo)) \/
     (f = fid /\ l0 = lo /\ (l = lo /\ q < cut_phys \/ l = ce /\ cut_phys + (ce - cs) <= q))).
Proof.
  intros [[[Hne He]|(-> & Hl & Hpos & Hp & _)]%HE Hq]; unfold in_cut.
  - split.
    + intros Hin. destruct (c_ext_uniq _ _ Hc q f l e fid lo (cols_of t)); [by split|split; [done|]|congruence].
      unfold row_end in *. simpl. lia.
    + exists l, e. split; [by split|]. by left.
  - unfold row_end in *. split; [lia|]. exists lo, (cols_of t). split; [split; [done|simpl; lia]|].
    right. split_and!; try done. lia.
Qed.

Lemma carve_at q : ext_at d' v q <-> ext_at d v q /\ ~ in_cut q.
Proof.
  split.
  - intros (f & l & e & [Hn (l0 & e0 & Ho & _)]%carve_owner). split; [by exists f, l0, e0|done].
  - unfold in_cut. intros [(f & l & e & He & Hq) Hn].
    destruct (decide ((f, l) = (fid, lo))) as [[= -> ->]|Hne].
    2:{ exists f, l, e. split; [apply HE; by left|done]. }
    unfold stored in Ht. rewrite Ht in He. simplify_eq. simpl in Hq. unfold row_end in *.
    destruct (decide (q < cut_phys)).
    + exists fid, lo, (Extent (cs - lo) (physical_offset t) (generation t) (row_state t)).
      split; [apply HE; right; simpl; unfold row_end; split_and!; try done; lia|simpl; lia].
    + exists fid, ce, (Extent (row_end t - ce) (physical_offset t + (ce - lo)) (generation t) (row_state t)).
      split; [apply HE; right; simpl; unfold row_end; split_and!; try done; lia|].
      simpl. unfold row_end. lia.
Qed.

Lemma cut_was_ext q : in_cut q -> ext_at d v q.
Proof.
  unfold in_cut. intros Hq. exists fid, lo, (cols_of t). split; [done|].
  unfold row_end in *. simpl. lia.
Qed.

(** The cut bytes have a new home; nothing else changed home. *)
Context (Hfree : free_ok (extent_free d') v).
Context (Hquar : forall po r, extent_quarantine d' !! (v, po) = Some r -> 0 <= po /\ 0 < q_len r).
Context (Hquniq : forall q po1 r1 po2 r2,
  quar_owner d' v q po1 r1 -> quar_owner d' v q po2 r2 -> po1 = po2).
Context (Hhomes : forall q, free_at (extent_free d') v q \/ quar_at d' v q <->
  (free_at (extent_free d) v q \/ quar_at d v q) \/ in_cut q).
Context (Hfq : forall q, free_at (extent_free d') v q -> quar_at d' v q -> False).
Context (Halloc : volume_alloc d' = volume_alloc d).
Context (Hgrants : weaker_grants d v (extent_grants d')).
Context (Hgone : forall c, extent_grants d' !! (v, fid, lo, c) = None).

Lemma carve_core : core d' v.
Proof.
  assert (Hdis : forall q, ext_at d' v q -> free_at (extent_free d') v q \/ quar_at d' v q -> False).
  { intros q [Hx Hn]%carve_at [[Hf|Hq]|?]%Hhomes; [|..]; [|..].
    - by apply (c_ext_free _ _ Hc q).
    - by apply (c_ext_quar _ _ Hc q).
    - done. }
  split; try done.
  - intros f l e [[_ He]|(-> & Hl & Hpos & Hp & _)]%HE; [by apply (c_ext _ _ Hc) in He|].
    apply (c_ext _ _ Hc) in Ht as ?. unfold row_end in *. simpl in *. split_and!; [naive_solver|lia..].
  - intros f l1 l2 e1 e2 P1%HE P2%HE Hlt.
    destruct P1 as [[N1 E1]|(-> & L1 & ? & _)], P2 as [[N2 E2]|(Hf & L2 & ? & _)]; subst.
    + by eapply (c_log _ _ Hc).
    + destruct (row_inside _ _ _ E1 eq_refl); [congruence|lia|lia].
    + apply (c_ext _ _ Hc) in E2 as ?. destruct (row_inside _ _ _ E2 eq_refl); [congruence|lia|lia].
    + lia.
  - intros q f1 l1 e1 f2 l2 e2 [_ (m1 & x1 & O1 & C1)]%carve_owner [_ (m2 & x2 & O2 & C2)]%carve_owner.
    destruct (c_ext_uniq _ _ Hc _ _ _ _ _ _ _ O1 O2) as [<- <-]. split; [done|].
    destruct C1 as [[-> N1]|(-> & -> & C1)], C2 as [[-> N2]|(? & ? & C2)]; try congruence. lia.
  - intros q Hx Hf. apply (Hdis q); auto.
  - intros q Hx Hq. apply (Hdis q); auto.
  - intros q. rewrite Hhomes, carve_at, Halloc, <- (c_tile _ _ Hc q).
    assert (in_cut q -> ext_at d v q) by apply cut_was_ext.
    assert (in_cut q \/ ~ in_cut q) by (unfold in_cut; lia). tauto.
  - intros a. rewrite Halloc. apply (c_arena _ _ Hc).
  - intros f l c g' Hg. destruct (Hgrants _ _ _ _ Hg) as (g & Hg0 & _ & Hgen & Hfe).
    destruct (c_grants _ _ Hc _ _ _ _ Hg0) as (e & He & Hge). exists e. split.
    + apply HE. left. split; [|done]. intros [= -> ->]. by rewrite Hgone in Hg.
    + rewrite Hgen. auto.
  - intros f l c g' Hg. destruct (Hgrants _ _ _ _ Hg) as (g & Hg0 & _).
    by apply (c_client _ _ Hc) in Hg0.
  - intros f l c1 c2 g1 g2 G1 G2 F1 F2 M1 M2.
    destruct (Hgrants _ _ _ _ G1) as (x1 & X1 & Y1 & _ & Z1).
    destruct (Hgrants _ _ _ _ G2) as (x2 & X2 & Y2 & _ & Z2).
    apply (c_rw _ _ Hc f l c1 c2 x1 x2); auto; congruence.
Qed.
End carve.

(** ** Sending the cut to its new home *)
Definition unconfirmed (d : db) (v : string) (fid lo : Z) : Prop := exists c g,
  extent_grants d !! (v, fid, lo, c) = Some g /\ g_fenced g = true /\ delivered_at d v c <= 0.

Lemma elem_of_fenced_on d v fid lo c u :
  (c, u) ∈ fenced_on d v fid lo <->
  u = delivered_at d v c /\ exists g, extent_grants d !! (v, fid, lo, c) = Some g /\ g_fenced g = true.
Proof.
  unfold fenced_on. rewrite elem_of_select. split.
  - intros ([[[w f] l] c'] & g & Hg & Hs). simpl in Hs.
    destruct (bool_decide ((w, f, l) = (v, fid, lo)) && g_fenced g) eqn:Hb; simplify_eq.
    bool_Z. case_bool_decide; simplify_eq. eauto.
  - intros (-> & g & Hg & Hf). exists (v, fid, lo, c), g. split; [done|]. simpl.
    by rewrite bool_decide_eq_true_2, Hf.
Qed.

Lemma all_delivered_spec d v fid lo :
  forallb (fun cd => cd.2 >? 0) (fenced_on d v fid lo) = true <-> ~ unconfirmed d v fid lo.
Proof.
  rewrite forallb_forall. setoid_rewrite <- list_elem_of_In. split.
  - intros Hall (c & g & Hg & Hf & Hd).
    assert (Hin : (c, delivered_at d v c) ∈ fenced_on d v fid lo) by (apply elem_of_fenced_on; eauto).
    apply Hall in Hin. simpl in Hin. bool_Z. lia.
  - intros Hn [c u] (-> & g & Hg & Hf)%elem_of_fenced_on. simpl. rewrite Z.gtb_ltb. apply Z.ltb_lt.
    apply Z.nle_gt. intros Hd. apply Hn. by exists c, g.
Qed.

Lemma some_undelivered d v fid lo :
  forallb (fun cd => cd.2 >? 0) (fenced_on d v fid lo) = false -> unconfirmed d v fid lo.
Proof.
  intros ([c u] & Hin & Hu)%forallb_false. simpl in Hu. bool_Z.
  apply elem_of_fenced_on in Hin as (-> & g & Hg & Hf). by exists c, g.
Qed.

#[global] Instance unconfirmed_dec d v fid lo : Decision (unconfirmed d v fid lo).
Proof.
  destruct (forallb (fun cd => cd.2 >? 0) (fenced_on d v fid lo)) eqn:Hb.
  - right. by apply all_delivered_spec.
  - left. by apply some_undelivered.
Qed.

Lemma drop_grants_lookup d v fid lo k g :
  extent_grants (drop_grants_on d v fid lo) !! k = Some g <->
  extent_grants d !! k = Some g /\ k.1 <> (v, fid, lo).
Proof.
  unfold drop_grants_on. simpl. rewrite lookup_delete_where_Some.
  by rewrite bool_decide_eq_false.
Qed.

Definition quiet (d : db) (v : string) (fid lo : Z) : Prop := forall c g,
  extent_grants d !! (v, fid, lo, c) = Some g -> g_fenced g = true.

Record sent (d d' : db) (v : string) (fid lo phys n : Z) : Prop := {
  se_ext : extents d' = extents d;
  se_alloc : volume_alloc d' = volume_alloc d;
  se_rest : rest d' = rest d;
  se_grants : forall k g, extent_grants d' !! k = Some g <->
    extent_grants d !! k = Some g /\ k.1 <> (v, fid, lo);
  se_free : free_ok (extent_free d') v;
  se_quar : forall po r, extent_quarantine d' !! (v, po) = Some r -> 0 <= po /\ 0 < q_len r;
  se_quniq : forall q po1 r1 po2 r2,
    quar_owner d' v q po1 r1 -> quar_owner d' v q po2 r2 -> po1 = po2;
  se_to_free : forall q, free_at (extent_free d') v q <->
    free_at (extent_free d) v q \/ (phys <= q < phys + n /\ ~ unconfirmed d v fid lo);
  se_to_quar : forall q, quar_at d' v q <->
    quar_at d v q \/ (phys <= q < phys + n /\ unconfirmed d v fid lo);
  se_frame : forall w, w <> v -> same_volume d d' w }.

Lemma pending_bytes F v po n : free_ok F v -> 0 <= po -> 0 < n ->
  (forall q, po <= q < po + n -> ~ free_at F v q) -> pending F v po n.
Proof.
  intros Hok H0 Hn Hno. split; [done|done|]. intros po' r Hr.
  destruct (fo_row _ _ Hok _ _ Hr).
  destruct (Z.le_gt_cases (po' + fr_len r) po); [by left|].
  destruct (Z.le_gt_cases (po + n) po'); [by right|].
  exfalso. apply (Hno (Z.max po po')); [lia|]. exists po', r. split; [done|lia].
Qed.

Section send.
Context (d : db) (v : string) (fid lo phys n : Z).
Context (Hc : core d v) (Hn : 0 < n) (Hp : 0 <= phys).
Context (Hcut : forall q, phys <= q < phys + n -> ext_at d v q).

Lemma drop_grants_frame d1 w : w <> v -> same_volume d1 (drop_grants_on d1 v fid lo) w.
Proof.
  intros Hw. split; try done. intros f l c. unfold drop_grants_on. simpl.
  rewrite lookup_delete_where. destruct (extent_grants d1 !! _); [|done].
  rewrite bool_decide_eq_false_2; [done|]. simpl. congruence.
Qed.

Lemma sent_free gen : ~ unconfirmed d v fid lo ->
  exists F, free_insert_coalescing (extent_free d) v phys n gen = Ok F /\
  forall d', extents d' = extents d -> volume_alloc d' = volume_alloc d -> rest d' = rest d ->
    extent_free d' = F -> extent_quarantine d' = extent_quarantine d ->
    (forall k g, extent_grants d' !! k = Some g <->
       extent_grants d !! k = Some g /\ k.1 <> (v, fid, lo)) ->
    (forall w, w <> v -> forall f l c, extent_grants d' !! (w, f, l, c) = extent_grants d !! (w, f, l, c)) ->
    sent d d' v fid lo phys n.
Proof.
  intros Hun. destruct (free_insert_spec (extent_free d) v phys n gen) as (F & HF & Hok & Hat & _ & Hfr).
  { apply pending_bytes; [apply Hc|done..|]. intros q Hq Hf. by apply (c_ext_free _ _ Hc q); [apply Hcut|]. }
  exists F. split; [done|]. intros d' He Ha Hr Hf Hq Hg Hw.
  assert (Hqa : forall q po r, quar_owner d' v q po r <-> quar_owner d v q po r).
  { intros. unfold quar_owner. by rewrite Hq. }
  split; try done; [by rewrite Hf|rewrite Hq; apply Hc|..].
  - intros q p1 r1 p2 r2. rewrite !Hqa. apply (c_quar_uniq _ _ Hc).
  - intros q. rewrite Hf, Hat. tauto.
  - intros q. unfold quar_at. setoid_rewrite Hqa. tauto.
  - intros w Hwv. split; intros; rewrite ?He, ?Hq, ?Ha, ?Hf; try done; [by apply Hw|by apply Hfr].
Qed.

Lemma sent_quar gen csv now : unconfirmed d v fid lo ->
  exists Q, insert_new (v, phys) (QuarRow n gen csv now) (extent_quarantine d) = Ok Q /\
    sent d (drop_grants_on (set_quarantine Q d) v fid lo) v fid lo phys n.
Proof.
  intros Hun. assert (Hno : forall q po r, extent_quarantine d !! (v, po) = Some r ->
    phys <= q < phys + n -> ~ po <= q < po + q_len r).
  { intros q po r Hr Hq Hin. apply (c_ext_quar _ _ Hc q); [by apply Hcut|]. by exists po, r. }
  assert (Hnone : extent_quarantine d !! (v, phys) = None).
  { destruct (extent_quarantine d !! (v, phys)) as [r|] eqn:Hr; [|done].
    destruct (c_quar _ _ Hc _ _ Hr). destruct (Hno phys phys r Hr); lia. }
  unfold insert_new. rewrite Hnone. eexists. split; [done|].
  set (row := QuarRow n gen csv now). set (d' := drop_grants_on _ _ _ _).
  assert (Hlk : forall po r, extent_quarantine d' !! (v, po) = Some r <->
    (po = phys /\ r = row) \/ (po <> phys /\ extent_quarantine d !! (v, po) = Some r)).
  { intros po r. simpl. rewrite lookup_insert_Some. naive_solver. }
  split; try done; [..|].
  - intros k g. unfold d'. by rewrite drop_grants_lookup.
  - apply Hc.
  - intros po r [[-> ->]|[_ Hr]]%Hlk; [done|]. by apply (c_quar _ _ Hc) in Hr.
  - intros q p1 r1 p2 r2 [[[-> ->]|[N1 R1]]%Hlk Q1] [[[-> ->]|[N2 R2]]%Hlk Q2]; try done.
    + by destruct (Hno q p2 r2 R2 Q1).
    + by destruct (Hno q p1 r1 R1 Q2).
    + by apply (c_quar_uniq _ _ Hc q p1 r1 p2 r2).
  - intros q. simpl. tauto.
  - intros q. unfold quar_at, quar_owner. setoid_rewrite Hlk. split.
    + intros (po & r & [[-> ->]|[_ Hr]] & Hq); [by right|left; eauto].
    + intros [(po & r & Hr & Hq)|[Hq _]].
      * exists po, r. split; [right|done]. split; [|done]. intros ->. congruence.
      * exists phys, row. split; [by left|done].
  - intros w Hw. eapply (same_volume_trans w); [|by apply drop_grants_frame].
    split; try done. intros po. simpl. by rewrite lookup_insert_ne by congruence.
Qed.
End send.

Lemma send_cut_spec d v fid t phys n now out :
  core d v -> 0 < n -> 0 <= phys -> (forall q, phys <= q < phys + n -> ext_at d v q) ->
  quiet d v fid (logical_offset t) ->
  exists d' out', send_cut d v fid t phys n now out = Ok (d', out') /\
    sent d d' v fid (logical_offset t) phys n.
Proof.
  intros Hc Hn Hp Hcut Hq. unfold send_cut. set (fe := fenced_on _ _ _ _).
  assert (Hdec : forallb (fun cd => cd.2 >? 0) fe = true <-> ~ unconfirmed d v fid (logical_offset t))
    by apply all_delivered_spec.
  destruct (is_nil fe || forallb (fun cd => cd.2 >? 0) fe) eqn:Hb.
  - assert (Hun : ~ unconfirmed d v fid (logical_offset t)).
    { apply Hdec. destruct fe; [done|]. exact Hb. }
    destruct (sent_free d v fid (logical_offset t) phys n Hc Hn Hp Hcut (generation t) Hun)
      as (F & -> & Hs). cbn. eexists _, _. split; [done|].
    destruct (is_nil fe) eqn:Hnil.
    + apply is_nil_true in Hnil. apply Hs; try done. intros k g. simpl.
      split; [|by intros [? _]]. intros Hg. split; [done|]. intros Hk.
      destruct k as [k c]. simpl in Hk. subst k.
      apply (not_elem_of_nil (c, delivered_at d v c)). rewrite <- Hnil.
      apply elem_of_fenced_on. split; [done|]. exists g. split; [done|]. by apply Hq in Hg.
    + apply Hs; try done; [intros k g; by rewrite drop_grants_lookup|].
      intros w Hw f l c. by apply (sv_grants _ _ _ (drop_grants_frame v fid (logical_offset t) (set_free F d) w Hw)).
  - apply orb_false_elim in Hb as [_ Hb].
    assert (Hun : unconfirmed d v fid (logical_offset t)).
    { by apply some_undelivered. }
    destruct (sent_quar d v fid (logical_offset t) phys n Hc Hn Hp Hcut (generation t)
      (csv_of (fst <$> fe)) now Hun) as (Q & -> & Hs). cbn. eauto.
Qed.

(** ** One target, then all of them *)
Definition home_after (d d' : db) (v : string) (fid lo q : Z) : Prop :=
  (unconfirmed d v fid lo -> quar_at d' v q) /\
  (~ unconfirmed d v fid lo -> free_at (extent_free d') v q).

Record cuts (d d' : db) (v : string) (fid s e : Z) (ts : list ExtentRow) (n : Z) : Prop := {
  ct_core : core d' v;
  ct_bytes : forall f o p st, byte_at d' v f o p st <-> byte_at d v f o p st /\
    ~ (f = fid /\ s <= o < e /\ exists t, t ∈ ts /\ logical_offset t <= o < row_end t);
  ct_others : forall w, w <> v -> same_volume d d' w;
  ct_grants : forall k g, extent_grants d' !! k = Some g <->
    extent_grants d !! k = Some g /\ forall t, t ∈ ts -> k.1 <> (v, fid, logical_offset t);
  ct_moved : forall t o, t ∈ ts -> logical_offset t <= o < row_end t -> s <= o < e ->
    home_after d d' v fid (logical_offset t) (physical_offset t + (o - logical_offset t));
  ct_mono : forall q, (free_at (extent_free d) v q -> free_at (extent_free d') v q) /\
                      (quar_at d v q -> quar_at d' v q);
  ct_count : count_extents d' v = count_extents d v - n;
  ct_alloc : volume_alloc d' = volume_alloc d;
  ct_fences : fenced_clients d' = fenced_clients d }.

Definition cuttable (d : db) (v : string) (fid s e : Z) (t : ExtentRow) : Prop :=
  stored (extents d) v fid t /\ quiet d v fid (logical_offset t) /\
  logical_offset t < e /\ s < row_end t.

Lemma sent_fences d d' v fid lo phys n :
  sent d d' v fid lo phys n -> fenced_clients d' = fenced_clients d.
Proof. intros Hs. pose proof (se_rest _ _ _ _ _ _ _ Hs) as Hr. unfold rest in Hr. by injection Hr. Qed.

(** Sending one row's cut away says nothing about the fences of another. *)
Lemma sent_unconfirmed d d1 v fid lo phys n :
  sent d d1 v fid lo phys n -> forall d' l, extent_grants d' = extent_grants d1 ->
  fenced_clients d' = fenced_clients d -> l <> lo ->
  unconfirmed d' v fid l <-> unconfirmed d v fid l.
Proof.
  intros Hs d' l Hg Hfe Hl. unfold unconfirmed, delivered_at. rewrite Hfe, Hg.
  setoid_rewrite (se_grants _ _ _ _ _ _ _ Hs). simpl. split.
  - intros (c & g & [? _] & ? & ?). eauto.
  - intros (c & g & ? & ? & ?). exists c, g. split_and!; try done. congruence.
Qed.

(** The cut moved to its home and the survivors put back: the invariant
    holds again. *)
Lemma sent_carve_core d d1 v fid t cs ce :
  core d v -> stored (extents d) v fid t -> logical_offset t <= cs < ce -> ce <= row_end t ->
  sent d d1 v fid (logical_offset t) (physical_offset t + (cs - logical_offset t)) (ce - cs) ->
  forall E, (forall f l e, E !! (v, f, l) = Some e <-> piece d v fid t cs ce f l e) ->
  core (drop_grace_on (set_extents E d1) v fid (logical_offset t)) v.
Proof.
  intros Hc Hst Hcs Hce Hs E Hpc. set (d' := drop_grace_on _ _ _ _).
  apply (carve_core d d' v fid t cs ce); try done; try apply Hs.
  - intros q. unfold in_cut. simpl. rewrite (se_to_free _ _ _ _ _ _ _ Hs).
    change (quar_at d' v q) with (quar_at d1 v q). rewrite (se_to_quar _ _ _ _ _ _ _ Hs).
    destruct (decide (unconfirmed d v fid (logical_offset t))); tauto.
  - intros q. change (quar_at d' v q) with (quar_at d1 v q). simpl.
    rewrite (se_to_free _ _ _ _ _ _ _ Hs), (se_to_quar _ _ _ _ _ _ _ Hs).
    intros [?|[? ?]] [?|[? ?]]; [by apply (c_free_quar _ _ Hc q)| | |done].
    + apply (c_ext_free _ _ Hc q); [|done]. by apply (cut_was_ext d v fid t cs ce).
    + apply (c_ext_quar _ _ Hc q); [|done]. by apply (cut_was_ext d v fid t cs ce).
  - intros f l c g (Hg & _)%(se_grants _ _ _ _ _ _ _ Hs). eauto.
  - intros c. destruct (extent_grants d' !! _) as [g|] eqn:Hg; [|done].
    by apply (se_grants _ _ _ _ _ _ _ Hs) in Hg as [_ ?].
Qed.

Lemma reclaim_target_spec d v fid s e now t out r a :
  core d v -> s < e -> cuttable d v fid s e t ->
  exists d' out' n, reclaim_target v fid s e now (d, out, r, a) t = Ok (d', out', r + 1, a + n) /\
    cuts d d' v fid s e [t] (1 - n) /\
    (forall t', row_end t <= logical_offset t' -> cuttable d v fid s e t' -> cuttable d' v fid s e t') /\
    (forall l, l <> logical_offset t -> unconfirmed d' v fid l <-> unconfirmed d v fid l).
Proof.
  intros Hc Hse (Hst & Hqt & Ht1 & Ht2). unfold reclaim_target.
  set (cs := Z.max (logical_offset t) s). set (ce := Z.min (row_end t) e).
  set (phys := physical_offset t + (cs - logical_offset t)).
  destruct (c_ext _ _ Hc _ _ _ Hst) as (Hfid & Hlo & Hlen & Hhi & Hph). simpl in *.
  assert (Hcut : logical_offset t <= cs < ce /\ ce <= row_end t) by (unfold row_end in *; lia).
  destruct Hcut as [Hcs Hce].
  destruct (send_cut_spec d v fid t phys (ce - cs) now out) as (d1 & out1 & -> & Hs); try done; try lia.
  { intros q Hq. apply (cut_was_ext d v fid t cs ce); done. }
  destruct (carve_spec d v fid t cs ce Hc Hst Hcs Hce) as (E & n & HE & Hpc & Hfr & Hcnt & Hkeep).
  cbn. rewrite (se_ext _ _ _ _ _ _ _ Hs), HE. cbn.
  set (d' := drop_grace_on (set_extents E d1) v fid (logical_offset t)).
  assert (Hcore : core d' v) by (apply (sent_carve_core d d1 v fid t cs ce Hc Hst Hcs Hce Hs); done).
  assert (Hfe : fenced_clients d' = fenced_clients d) by exact (sent_fences _ _ _ _ _ _ _ Hs).
  exists d', out1, n. split_and!; [done|split|..].
  - done.
  - intros f o p st. rewrite (carve_bytes d d' v fid t cs ce) by done.
    split; intros [Hb Hn]; (split; [done|]).
    + intros (-> & Ho & t' & ->%list_elem_of_singleton & Ho'). apply Hn. split; [done|lia].
    + intros [-> Ho]. apply Hn. split_and!; [done|lia|lia|]. exists t. split; [by left|lia].
  - intros w Hw. eapply (same_volume_trans w); [by apply (se_frame _ _ _ _ _ _ _ Hs)|].
    split; try done. intros f l. simpl. rewrite (se_ext _ _ _ _ _ _ _ Hs). apply Hfr. simpl. congruence.
  - intros k g. simpl. rewrite (se_grants _ _ _ _ _ _ _ Hs). set_solver.
  - intros t' o ->%list_elem_of_singleton Ho Hso. split; intros Hu.
    + change (quar_at d1 v (physical_offset t + (o - logical_offset t))).
      apply (se_to_quar _ _ _ _ _ _ _ Hs). right. split; [unfold phys; lia|done].
    + simpl. apply (se_to_free _ _ _ _ _ _ _ Hs). right. split; [unfold phys; lia|done].
  - intros q. change (quar_at d' v q) with (quar_at d1 v q). simpl.
    rewrite (se_to_free _ _ _ _ _ _ _ Hs), (se_to_quar _ _ _ _ _ _ _ Hs). tauto.
  - unfold count_extents in *. simpl in *. lia.
  - apply Hs.
  - done.
  - intros t' Hge (Hst' & Hq' & ? & ?). split_and!; try done.
    + by apply Hkeep.
    + intros c g (Hg & _)%(se_grants _ _ _ _ _ _ _ Hs). by apply (Hq' c).
  - intros l Hl. exact (sent_unconfirmed _ _ _ _ _ _ _ Hs d' l eq_refl Hfe Hl).
Qed.

Lemma cuts_nil d v fid s e : core d v -> cuts d d v fid s e [] 0.
Proof.
  intros Hc. split; try done; try lia.
  - intros f o p st. split; [|by intros [? _]]. intros Hb. split; [done|].
    by intros (_ & _ & t & ?%elem_of_nil & _).
  - intros k g. split; [|by intros [? _]]. intros Hg. split; [done|]. by intros t ?%elem_of_nil.
  - by intros t o ?%elem_of_nil.
Qed.

Lemma cuts_cons d1 d2 d3 v fid s e t ts n m :
  (forall x, x ∈ ts -> logical_offset x <> logical_offset t) ->
  (forall l, l <> logical_offset t -> unconfirmed d2 v fid l <-> unconfirmed d1 v fid l) ->
  cuts d1 d2 v fid s e [t] n -> cuts d2 d3 v fid s e ts m -> cuts d1 d3 v fid s e (t :: ts) (n + m).
Proof.
  intros Hne Hun [C1 B1 O1 G1 M1 N1 K1 A1 F1] [C2 B2 O2 G2 M2 N2 K2 A2 F2].
  split; try done; try congruence; [..|lia].
  - intros f o p st. rewrite B2, B1. set_solver.
  - intros w Hw. eapply (same_volume_trans w); [by apply O1|by apply O2].
  - intros k g. rewrite G2, G1. set_solver.
  - intros x o [->|Hx]%elem_of_cons Hox Hso.
    + destruct (M1 t o ltac:(by left) Hox Hso) as [Hq Hf]. split; intros Hu; apply N2; auto.
    + destruct (M2 x o Hx Hox Hso) as [Hq Hf]. specialize (Hun _ (Hne x Hx)).
      split; intros Hu; [apply Hq|apply Hf]; tauto.
  - intros q. destruct (N1 q), (N2 q). auto.
Qed.

Lemma reclaim_targets_spec v fid s e now ts : s < e -> forall d out r a,
  core d v -> Forall (cuttable d v fid s e) ts ->
  StronglySorted (fun x y => row_end x <= logical_offset y) ts ->
  exists d' out' r' a', foldM (reclaim_target v fid s e now) (d, out, r, a) ts = Ok (d', out', r', a') /\
    cuts d d' v fid s e ts ((r' - r) - (a' - a)).
Proof.
  intros Hse. induction ts as [|t ts IH]; intros d out r a Hc Hok Hs.
  { exists d, out, r, a. split; [done|]. replace (r - r - (a - a)) with 0 by lia. by apply cuts_nil. }
  apply Forall_cons in Hok as [Ht Hts]. apply StronglySorted_inv in Hs as [Hs Hall].
  destruct (reclaim_target_spec d v fid s e now t out r a Hc Hse Ht)
    as (d1 & out1 & n & Hrun & Hcut & Hkeep & Hun).
  cbn [foldM]. rewrite Hrun. cbn. rewrite Forall_forall in Hts, Hall.
  destruct (IH d1 out1 (r + 1) (a + n)) as (d2 & out2 & r2 & a2 & -> & Hrest).
  - apply Hcut.
  - apply Forall_forall. intros x Hx. apply Hkeep; [by apply Hall|by apply Hts].
  - done.
  - exists d2, out2, r2, a2. split; [done|].
    replace (r2 - r - (a2 - a)) with ((1 - n) + ((r2 - (r + 1)) - (a2 - (a + n)))) by lia.
    eapply cuts_cons; [|done..]. intros x Hx Heq. specialize (Hall x Hx).
    destruct Ht as (Hst & _). apply (c_ext _ _ Hc) in Hst. unfold row_end in Hall. simpl in Hst. lia.
Qed.

(** ** The free transaction *)
Record reclaim_post (d d' : db) (v : string) (fid s e : Z) : Prop := {
  rc_inv : vol_inv d' v;
  (** exactly the bytes of [s, e) are unmapped; every other byte of every
      file keeps its physical address and state *)
  rc_bytes : forall f o p st, byte_at d' v f o p st <->
    byte_at d v f o p st /\ ~ (f = fid /\ s <= o < e);
  (** where the freed bytes went *)
  rc_moved : forall lo x o, extents d !! (v, fid, lo) = Some x -> lo <= o < lo + e_len x ->
    s <= o < e -> home_after d d' v fid lo (e_phys x + (o - lo));
  rc_mono : forall q, (free_at (extent_free d) v q -> free_at (extent_free d') v q) /\
                      (quar_at d v q -> quar_at d' v q);
  rc_grants : forall k g, extent_grants d' !! k = Some g -> extent_grants d !! k = Some g;
  rc_others : forall w, w <> v -> same_volume d d' w;
  rc_fences : fenced_clients d' = fenced_clients d }.

Definition live_on (d : db) (v : string) (fid s e : Z) : Prop := exists lo x c g,
  extents d !! (v, fid, lo) = Some x /\ lo < e /\ s < lo + e_len x /\
  extent_grants d !! (v, fid, lo, c) = Some g /\ g_fenced g = false.

Lemma live_on_exists d v fid s e :
  live_on d v fid s e <->
  exists_where (fun k g => bool_decide (k.1.1 = (v, fid)) && negb (g_fenced g) && on_range d k.1 s e)
    (extent_grants d) = true.
Proof.
  rewrite exists_where_true. unfold on_range. split.
  - intros (lo & x & c & g & Hx & H1 & H2 & Hg & Hf). exists (v, fid, lo, c), g. split; [done|].
    simpl. rewrite bool_decide_eq_true_2, Hf, Hx by done. simpl.
    rewrite andb_true_iff, Z.gtb_ltb, !Z.ltb_lt. done.
  - intros ([[[w f] lo] c] & g & Hg & Hb). simpl in Hb. bool_Z. case_bool_decide; simplify_eq.
    destruct (extents d !! (v, fid, lo)) as [x|] eqn:Hx; [|done]. bool_Z.
    exists lo, x, c, g. split_and!; done.
Qed.

#[global] Instance live_on_dec d v fid s e : Decision (live_on d v fid s e).
Proof.
  destruct (exists_where (fun k g => bool_decide (k.1.1 = (v, fid)) && negb (g_fenced g) &&
    on_range d k.1 s e) (extent_grants d)) eqn:Hb.
  - left. by apply live_on_exists.
  - right. intros H%live_on_exists. congruence.
Qed.

Lemma overlapping_gapped d v f s e :
  core d v -> StronglySorted (fun x y => row_end x <= logical_offset y) (overlapping_extents d v f s e).
Proof.
  intros Hc. eapply sorted_impl; [apply overlapping_sorted|..].
  - eapply sorted_irrefl_NoDup; [apply overlapping_sorted|]. intros x _. simpl. lia.
  - intros x y [_ Hx]%elem_of_overlapping [_ Hy]%elem_of_overlapping _ Hlt.
    by apply (c_log _ _ Hc _ _ _ _ _ Hx Hy).
Qed.

Lemma cuts_reclaim d d' v file_id s e r a :
  vol_inv d v -> cuts d d' v (wrap_i64 file_id) s e (overlapping_extents d v file_id s e) (r - a) ->
  reclaim_post d (add_rows d' v (- (r - a))) v (wrap_i64 file_id) s e.
Proof.
  intros [Hc Hn] [C B O G M N K A F].
  destruct (add_rows_counter d' v (- (r - a))) as (He & Hg & Hr & Ha).
  assert (Hfq : extent_free (add_rows d' v (- (r - a))) = extent_free d' /\
                extent_quarantine (add_rows d' v (- (r - a))) = extent_quarantine d').
  { unfold add_rows. by destruct (volume_alloc d' !! v). }
  destruct Hfq as [Hf Hq]. unfold home_after, quar_at, quar_owner in *.
  split; unfold home_after, quar_at, quar_owner; rewrite ?Hf, ?Hq, ?Hg; try done.
  - split; [by apply core_add_rows|]. intros x Hx. destruct (Ha x Hx) as (y & Hy & ->).
    unfold count_extents in *. rewrite He, K. rewrite A in Hy. rewrite (Hn y Hy).
    unfold count_extents. lia.
  - intros f o p st. unfold byte_at. rewrite He. specialize (B f o p st). unfold byte_at in B.
    rewrite B. split; intros [Hb Hno]; (split; [done|]).
    + intros [-> Ho]. apply Hno. split; [done|]. split; [done|].
      destruct Hb as (l & x & Hx & Hl & _). exists (row_of l x). split; [|done].
      apply elem_of_overlapping. simpl. unfold row_end; simpl. rewrite Hx. destruct x.
      split; [simpl in *; lia|done].
    + intros (-> & Ho & _). by apply Hno.
  - intros lo x o Hx Hox Hso. apply (M (row_of lo x) o); [|done..].
    apply elem_of_overlapping. simpl. unfold row_end; simpl. rewrite Hx. destruct x.
    split; [simpl in *; lia|done].
  - intros k g [? _]%G. done.
  - intros w Hw. eapply (same_volume_trans w); [by apply O|by apply add_rows_frame].
  - unfold rest in Hr. injection Hr as _ _ _ Hr _. by rewrite Hr.
Qed.

Lemma checked_end_valid lo len : 0 <= lo -> 0 < len -> lo + len <= i64_max ->
  as_i64 lo "offset exceeds i64" = Ok lo /\ checked_end lo len = Ok (lo + len).
Proof.
  intros H0 Hl Hm. split; [apply as_i64_Ok; split; [lia|done]|].
  unfold checked_end, u64_max, i64_max in *.
  by rewrite (proj2 (Z.eqb_neq _ _)), !Z.gtb_ltb, !(proj2 (Z.ltb_ge _ _)) by lia.
Qed.

Lemma holders_live d v file_id s e :
  live_unfenced_holders d v file_id (overlapping_extents d v file_id s e) None = [] <->
  ~ live_on d v (wrap_i64 file_id) s e.
Proof.
  rewrite holders_nil. setoid_rewrite elem_of_overlapping. split.
  - intros Hall (lo & x & c & g & Hx & H1 & H2 & Hg & Hf).
    destruct (Hall (row_of lo x) c g) as [?|?]; [|done|congruence|done].
    simpl. unfold row_end; simpl. rewrite Hx. destruct x. split; [simpl in *; lia|done].
  - intros Hn r c g [[H1 H2] Hr] Hg. left. destruct (g_fenced g) eqn:Hf; [done|].
    destruct Hn. exists (logical_offset r), (cols_of r), c, g. unfold row_end in H2.
    split_and!; try done. simpl. lia.
Qed.

Lemma reclaim_complete_spec d v file_id lo len now :
  vol_inv d v -> is_u64 lo -> 0 < len -> lo + len <= i64_max ->
  match reclaim_complete d v file_id lo len now with
  | Ok (out, d') => ~ live_on d v (wrap_i64 file_id) lo (lo + len) /\
                    reclaim_post d d' v (wrap_i64 file_id) lo (lo + len)
  | Err e => live_on d v (wrap_i64 file_id) lo (lo + len) /\ exists hs, e = NotQuiescent hs /\ hs <> []
  end.
Proof.
  intros Hi [H0 _] Hl Hm. unfold reclaim_complete.
  destruct (checked_end_valid lo len H0 Hl Hm) as [-> ->]. cbn.
  pose proof (holders_live d v file_id lo (lo + len)) as Hh.
  pose proof (overlapping_gapped d v file_id lo (lo + len) (vi_core _ _ Hi)) as Hgap.
  pose proof (fun r a d' => cuts_reclaim d d' v file_id lo (lo + len) r a Hi) as Hfin.
  assert (Hel : forall t, t ∈ overlapping_extents d v file_id lo (lo + len) ->
    (logical_offset t < lo + len /\ row_end t > lo) /\ stored (extents d) v (wrap_i64 file_id) t)
    by (intros t; apply elem_of_overlapping).
  set (ts := overlapping_extents d v file_id lo (lo + len)) in *. clearbody ts.
  destruct ts as [|t ts].
  { split; [by apply Hh|]. specialize (Hfin 0 0 d). change (- (0 - 0)) with (- 0) in Hfin.
    rewrite add_rows_0 in Hfin. apply Hfin, cuts_nil, Hi. }
  destruct (live_unfenced_holders d v file_id (t :: ts) None) as [|h hs]; cbn [is_nil negb fail_if].
  2:{ cbn. split; [|eauto]. apply dec_stable. intros Hn%Hh. done. }
  cbn -[foldM add_rows].
  destruct (reclaim_targets_spec v (wrap_i64 file_id) lo (lo + len) now (t :: ts) ltac:(lia)
    d no_outcome 0 0) as (d' & out & r & a & Hrun & Hcuts); [apply Hi| |done|].
  { apply Forall_forall. intros x Hx. destruct (Hel x Hx) as [[? ?] ?]. split_and!; try done; [|lia].
    intros c g Hg. destruct (g_fenced g) eqn:Hf; [done|]. destruct (proj1 Hh eq_refl).
    exists (logical_offset x), (cols_of x), c, g. unfold row_end in *. split_and!; try done. simpl. lia. }
  rewrite Hrun. cbn -[add_rows]. split; [by apply Hh|]. apply Hfin.
  by rewrite !Z.sub_0_r in Hcuts.
Qed.
