(* ===== verification/ExtentQuarantine.v ===== *)
(** The quarantine (extent_alloc.rs): the operator's [release_quarantine],
    the gated [sweep_quarantine_delivered], the meter, and DeleteVolume's
    [drop_volume]. *)

From S2P Require Import Prelude Sql Tables ExtentVerify FreeList ExtentInv.
From S2P Require Import ExtentGrant ExtentMerge ExtentReturn Csv ExtentReclaim.

Abbreviation quar_table := (gmap (string * Z) quar_row).

Definition quar_rows (d : db) (v : string) : list (Z * quar_row) :=
  select (fun k r => if bool_decide (k.1 = v) then Some (k.2, r) else None) (by_key fst)
    (extent_quarantine d).

Definition sum_len (rows : list (Z * quar_row)) : Z :=
  foldr (fun x n => q_len x.2 + n) 0 rows.

Definition free_range (v : string) (F : free_table) (x : Z * quar_row) : res free_table :=
  sql (free_insert_coalescing F v x.1 (q_len x.2) (q_gen x.2)).

Definition release_quarantine (d : db) (v : string) : res (Z * db) :=
  let rows := quar_rows d v in
  F ← foldM (free_range v) (extent_free d) rows;
  let d1 := set_quarantine (delete_where (fun k _ => bool_decide (k.1 = v)) (extent_quarantine d))
              (set_free F d) in
  verify_volume_invariants_conn d1 v ≫= fun _ => Ok (sum_len rows, d1).

(** One CSV field: an id that does not parse is an exclusion that cannot be
    verified. *)
Definition field_delivered (d : db) (v : string) (field : string) : bool :=
  match parse_i64 (trim field) with
  | Some client => delivered_at d v client >? 0
  | None => false
  end.

Definition releasable (d : db) (v : string) (csv : string) : bool :=
  forallb (field_delivered d v) (csv_fields csv) && negb (is_empty (trim csv)).

Definition release_range (v : string) (FQ : free_table * quar_table) (x : Z * quar_row)
    : res (free_table * quar_table) :=
  F ← free_range v FQ.1 x; Ok (F, delete (v, x.1) FQ.2).

Definition sweep_quarantine_delivered (d : db) (v : string) : res (Z * Z * db) :=
  let parked := quar_rows d v in
  match parked with
  | [] => Ok (0, 0, d)
  | _ =>
      let released := filter (fun x => releasable d v (q_clients x.2) = true) parked in
      '(F, Q) ← foldM (release_range v) (extent_free d, extent_quarantine d) released;
      let d1 := set_quarantine Q (set_free F d) in
      (match released with [] => Ok tt | _ => verify_volume_invariants_conn d1 v end) ≫= fun _ =>
      Ok (Z.of_nat (length released), sum_len released, d1)
  end.

Definition quarantine_stats (d : db) (v : string) : Z * Z :=
  let rows := quar_rows d v in (Z.of_nat (length rows), sum_len rows).

(** DELETE FROM table WHERE volume = v, counting. *)
Definition drop_where `{Countable K} {A} (p : K -> bool) (m : gmap K A) : gmap K A * Z :=
  (delete_where (fun k _ => p k) m, count_where (fun k _ => p k) m).

Definition drop_volume (d : db) (v : string) : Z * db :=
  let at1 := fun (k : string) => bool_decide (k = v) in
  let at2 A := fun (k : string * A) => bool_decide (k.1 = v) in
  let '(G, n1) := drop_where (fun k => bool_decide (k.1.1.1 = v)) (extent_grants d) in
  let '(E, n2) := drop_where (fun k => bool_decide (k.1.1 = v)) (extents d) in
  let '(F, n3) := drop_where (at2 Z) (extent_free d) in
  let '(Q, n4) := drop_where (at2 Z) (extent_quarantine d) in
  let '(A, n5) := drop_where at1 (volume_alloc d) in
  let '(H, n6) := drop_where (at2 Z) (block_hosts d) in
  let '(T, n7) := drop_where (at2 string) (block_node_attach d) in
  let '(X, n8) := drop_where (at2 Z) (fenced_clients d) in
  let '(Se, n9) := drop_where at1 (block_volume_target d) in
  let '(L, n10) := drop_where (at2 string) (block_volume_legs d) in
  let '(B, n11) := drop_where at1 (block_leases d) in
  (n1 + n2 + n3 + n4 + n5 + n6 + n7 + n8 + n9 + n10 + n11,
   Db E G (extent_commit_grace d) F Q A H T X (block_targets d) Se L B).

#[global] Instance quar_row_eq_dec : EqDecision quar_row.
Proof. solve_decision. Defined.

(** ** Moving quarantined ranges to the free list *)
Lemma elem_of_quar_rows d v po r :
  (po, r) ∈ quar_rows d v <-> extent_quarantine d !! (v, po) = Some r.
Proof.
  unfold quar_rows. rewrite elem_of_select. split.
  - intros ([w p] & x & Hx & Hs). simpl in Hs. case_bool_decide; by simplify_eq.
  - intros Hr. exists (v, po), r. split; [done|]. simpl. by rewrite bool_decide_eq_true_2.
Qed.

Lemma quar_rows_NoDup d v : NoDup (quar_rows d v).
Proof.
  apply select_NoDup. intros [w1 p1] r1 [w2 p2] r2 b _ _ H1 H2. simpl in *.
  repeat case_bool_decide; by simplify_eq.
Qed.

Definition in_ranges (rel : list (Z * quar_row)) (q : Z) : Prop :=
  exists po r, (po, r) ∈ rel /\ po <= q < po + q_len r.

Lemma free_ranges_spec v rel : NoDup rel -> forall F,
  free_ok F v -> (forall po r, (po, r) ∈ rel -> 0 <= po /\ 0 < q_len r) ->
  (forall q, in_ranges rel q -> ~ free_at F v q) ->
  (forall q p1 r1 p2 r2, (p1, r1) ∈ rel -> (p2, r2) ∈ rel -> p1 <= q < p1 + q_len r1 ->
     p2 <= q < p2 + q_len r2 -> (p1, r1) = (p2, r2)) ->
  exists F', foldM (free_range v) F rel = Ok F' /\ free_ok F' v /\
    (forall q, free_at F' v q <-> free_at F v q \/ in_ranges rel q) /\
    (forall k, k.1 <> v -> F' !! k = F !! k).
Proof.
  intros Hnd. induction Hnd as [|[po r] rel Hnot Hnd IH]; intros F Hok Hpos Hno Huniq.
  { exists F. split_and!; try done. intros q. split; [by left|].
    intros [?|(po & r & ?%elem_of_nil & _)]; done. }
  destruct (Hpos po r ltac:(by left)).
  destruct (free_insert_spec F v po (q_len r) (q_gen r)) as (F1 & Hrun & Hok1 & Hat1 & _ & Hfr1).
  { apply pending_bytes; try done. intros q Hq. apply Hno. exists po, r. split; [by left|done]. }
  destruct (IH F1) as (F' & HF' & Hok' & Hat' & Hfr'); [done|..].
  - intros p x Hx. apply Hpos. by right.
  - intros q (p & x & Hx & Hq). rewrite Hat1. intros [Hf|Hq'].
    + apply (Hno q); [|done]. exists p, x. split; [by right|done].
    + assert ((po, r) = (p, x)) as Heq by (apply (Huniq q); [by left|by right|done|done]).
      apply Hnot. by rewrite Heq.
  - intros q p1 r1 p2 r2 H1 H2. apply (Huniq q); by right.
  - exists F'. split_and!; try done.
    + cbn [foldM]. assert (free_range v F (po, r) = Ok F1) as ->; [|exact HF'].
      exact (f_equal sql Hrun).
    + intros q. rewrite Hat', Hat1. unfold in_ranges. setoid_rewrite elem_of_cons. naive_solver.
    + intros k Hk. by rewrite Hfr', Hfr1.
Qed.

Lemma sweep_fold v rel : forall F Q,
  foldM (release_range v) (F, Q) rel =
  F' ← foldM (free_range v) F rel; Ok (F', foldl (fun Q x => delete (v, x.1) Q) Q rel).
Proof.
  induction rel as [|x rel IH]; intros F Q; [done|]. simpl.
  assert (release_range v (F, Q) x = F1 ← free_range v F x; Ok (F1, delete (v, x.1) Q)) as -> by done.
  destruct (free_range v F x) as [F1|e]; [|done]. exact (IH F1 (delete (v, x.1) Q)).
Qed.

(** Moving a subset [rel] of a volume's quarantine to its free list. *)
Record moved (d d' : db) (v : string) (rel : list (Z * quar_row)) : Prop := {
  mv_inv : vol_inv d' v;
  mv_ext : extents d' = extents d;
  mv_grants : extent_grants d' = extent_grants d;
  mv_free : forall q, free_at (extent_free d') v q <-> free_at (extent_free d) v q \/ in_ranges rel q;
  mv_quar : forall po r, extent_quarantine d' !! (v, po) = Some r <->
    extent_quarantine d !! (v, po) = Some r /\ (po, r) ∉ rel;
  mv_others : forall w, w <> v -> same_volume d d' w;
  mv_rest : rest d' = rest d }.

Lemma moved_nil d v : vol_inv d v -> moved d d v [].
Proof.
  intros Hi. split; try done.
  - intros q. split; [by left|]. intros [?|(po & r & ?%elem_of_nil & _)]; done.
  - intros po r. split; [|by intros [? _]]. intros Hr. split; [done|]. by intros ?%elem_of_nil.
Qed.

Lemma move_ranges d v rel Q :
  vol_inv d v -> NoDup rel -> (forall po r, (po, r) ∈ rel -> extent_quarantine d !! (v, po) = Some r) ->
  (forall po r, Q !! (v, po) = Some r <-> extent_quarantine d !! (v, po) = Some r /\ (po, r) ∉ rel) ->
  (forall k, k.1 <> v -> Q !! k = extent_quarantine d !! k) ->
  exists F, foldM (free_range v) (extent_free d) rel = Ok F /\
    moved d (set_quarantine Q (set_free F d)) v rel.
Proof.
  intros [Hc Hn] Hnd Hin HQ HQw.
  assert (Hqr : forall q, in_ranges rel q -> quar_at d v q).
  { intros q (po & r & Hr & Hq). exists po, r. split; [by apply Hin|done]. }
  destruct (free_ranges_spec v rel Hnd (extent_free d)) as (F & HF & Hok & Hat & Hfr).
  - apply Hc.
  - intros po r Hr. by apply (c_quar _ _ Hc), Hin.
  - intros q Hq Hf. by apply (c_free_quar _ _ Hc q), Hqr.
  - intros q p1 r1 p2 r2 H1%Hin H2%Hin Q1 Q2.
    assert (p1 = p2) as -> by (by apply (c_quar_uniq _ _ Hc q p1 r1 p2 r2)). congruence.
  - exists F. split; [done|]. set (d' := set_quarantine Q (set_free F d)).
    assert (Hqo : forall q po r, quar_owner d' v q po r -> quar_owner d v q po r /\ (po, r) ∉ rel).
    { intros q po r [[Hr Hnr]%HQ Hq]. split; [by split|done]. }
    assert (Hqa : forall q, quar_at d' v q -> quar_at d v q /\ ~ in_ranges rel q).
    { intros q (po & r & [Ho Hnr]%Hqo). split; [by exists po, r|].
      intros (p & x & Hx & Hq). apply Hnr. assert (po = p) as ->.
      { apply (c_quar_uniq _ _ Hc q po r p x); [done|]. split; [by apply Hin|done]. }
      destruct Ho as [Hr _]. apply Hin in Hx as Hx'. congruence. }
    assert (Hqb : forall q, quar_at d v q -> quar_at d' v q \/ in_ranges rel q).
    { intros q (po & r & Hr & Hq). destruct (decide ((po, r) ∈ rel)); [right; by exists po, r|left].
      exists po, r. split; [apply HQ|]; done. }
    split; try done; [split; [split; try apply Hc; try done|done]|..].
    + intros po r [Hr _]%HQ. by apply (c_quar _ _ Hc) in Hr.
    + intros q p1 r1 p2 r2 [O1 _]%Hqo [O2 _]%Hqo. by apply (c_quar_uniq _ _ Hc q p1 r1 p2 r2).
    + intros q Hx [Hf|Hq]%Hat; [by apply (c_ext_free _ _ Hc q)|by apply (c_ext_quar _ _ Hc q), Hqr].
    + intros q Hx [Hq _]%Hqa. by apply (c_ext_quar _ _ Hc q).
    + intros q [Hf|Hr]%Hat [Hq Hnr]%Hqa; [by apply (c_free_quar _ _ Hc q)|done].
    + intros q. change (ext_at d' v q) with (ext_at d v q). change (extent_free d') with F.
      rewrite Hat. change (volume_alloc d') with (volume_alloc d). rewrite <- (c_tile _ _ Hc q).
      specialize (Hqr q). specialize (Hqa q). specialize (Hqb q). tauto.
    + intros w Hw. split; try done; [intros po; by apply Hfr|intros po; by apply HQw].
Qed.

Lemma foldl_delete_quar v (rel : list (Z * quar_row)) : forall (Q : quar_table) k,
  foldl (fun Q x => delete (v, x.1) Q) Q rel !! k =
  if bool_decide (k ∈ (fun x => (v, x.1)) <$> rel) then None else Q !! k.
Proof.
  induction rel as [|x rel IH]; intros Q k; [done|]. rewrite fmap_cons. simpl foldl. rewrite IH.
  destruct (decide (k = (v, x.1))) as [->|Hne].
  - rewrite lookup_delete_eq. repeat case_bool_decide; set_solver.
  - rewrite lookup_delete_ne by done. repeat case_bool_decide; set_solver.
Qed.

Lemma release_quarantine_spec d v :
  vol_inv d v ->
  exists d', release_quarantine d v = Ok (sum_len (quar_rows d v), d') /\ moved d d' v (quar_rows d v).
Proof.
  intros Hi. unfold release_quarantine. set (Q := delete_where _ _).
  destruct (move_ranges d v (quar_rows d v) Q) as (F & HF & Hm); [done|apply quar_rows_NoDup|..].
  - intros po r. apply elem_of_quar_rows.
  - intros po r. unfold Q. rewrite lookup_delete_where_Some. simpl.
    rewrite bool_decide_eq_true_2, elem_of_quar_rows by done. naive_solver.
  - intros k Hk. unfold Q. rewrite lookup_delete_where. destruct (extent_quarantine d !! k); [|done].
    by rewrite bool_decide_eq_false_2.
  - rewrite HF. cbn. rewrite vol_inv_verifies by apply Hm. cbn. eauto.
Qed.

(** What the sweep releases. *)
Definition swept (d : db) (v : string) : list (Z * quar_row) :=
  filter (fun x => releasable d v (q_clients x.2) = true) (quar_rows d v).

Lemma sweep_spec d v :
  vol_inv d v ->
  exists d', sweep_quarantine_delivered d v =
      Ok (Z.of_nat (length (swept d v)), sum_len (swept d v), d') /\ moved d d' v (swept d v).
Proof.
  intros Hi. unfold sweep_quarantine_delivered. fold (swept d v).
  set (Q := foldl (fun Q x => delete (v, x.1) Q) (extent_quarantine d) (swept d v)).
  destruct (move_ranges d v (swept d v) Q) as (F & HF & Hm);
    [done|apply NoDup_filter, quar_rows_NoDup|..].
  - intros po r [_ Hr]%list_elem_of_filter. by apply elem_of_quar_rows.
  - intros po r. unfold Q. rewrite foldl_delete_quar. case_bool_decide as Hin.
    + split; [done|]. intros [Hr Hn]. destruct Hn.
      apply list_elem_of_fmap in Hin as ([p x] & [= Hp] & Hx). simpl in Hp. subst p.
      pose proof Hx as [_ Hx'%elem_of_quar_rows]%list_elem_of_filter.
      assert (r = x) as -> by congruence. done.
    + split; [|by intros [? _]]. intros Hr. split; [done|]. intros Hx. apply Hin.
      apply list_elem_of_fmap. by exists (po, r).
  - intros k Hk. unfold Q. rewrite foldl_delete_quar. rewrite bool_decide_eq_false_2; [done|].
    intros ([p x] & -> & _)%list_elem_of_fmap. done.
  - destruct (quar_rows d v) as [|x xs] eqn:Hq.
    { assert (swept d v = []) as -> by (unfold swept; by rewrite Hq). exists d.
      split; [done|by apply moved_nil]. }
    rewrite sweep_fold, HF. cbn [mbind result_bind]. fold Q.
    rewrite vol_inv_verifies by apply Hm. eexists. split; [|exact Hm].
    by destruct (swept d v).
Qed.

(** On a CSV written by the quarantine branch the gate is exactly "every
    named client's fence is confirmed". *)
Lemma releasable_csv d v c cs :
  Forall is_i64 (c :: cs) ->
  releasable d v (csv_of (c :: cs)) = true <-> forall x, x ∈ c :: cs -> 0 < delivered_at d v x.
Proof.
  intros Hi. unfold releasable. rewrite csv_not_blank, andb_true_r, csv_round_trip.
  rewrite forallb_forall. setoid_rewrite <- list_elem_of_In. rewrite Forall_forall in Hi. split.
  - intros Hall x Hx. assert (Hf := Hall (show_i64 x)). unfold field_delivered in Hf.
    rewrite parse_field in Hf by (by apply Hi).
    assert (Hg : delivered_at d v x >? 0 = true) by (apply Hf, list_elem_of_fmap; eauto).
    bool_Z. lia.
  - intros Hall f (x & -> & Hx)%list_elem_of_fmap. unfold field_delivered.
    rewrite parse_field by (by apply Hi). rewrite Z.gtb_ltb. apply Z.ltb_lt. by apply Hall.
Qed.

(** ** DeleteVolume *)
Lemma vol_inv_empty d v :
  (forall f lo, extents d !! (v, f, lo) = None) ->
  (forall f lo c, extent_grants d !! (v, f, lo, c) = None) ->
  (forall po, extent_free d !! (v, po) = None) ->
  (forall po, extent_quarantine d !! (v, po) = None) ->
  volume_alloc d !! v = None -> vol_inv d v.
Proof.
  intros He Hg Hf Hq Ha.
  assert (Hea : forall q, ~ ext_at d v q) by (intros q (f & lo & e & H & _); by rewrite He in H).
  assert (Hfa : forall q, ~ free_at (extent_free d) v q) by (intros q (po & r & H & _); by rewrite Hf in H).
  assert (Hqa : forall q, ~ quar_at d v q) by (intros q (po & r & H & _); by rewrite Hq in H).
  split; [split|].
  - intros f lo e. by rewrite He.
  - intros po r. by rewrite Hq.
  - split; [intros po r; by rewrite Hf|intros p1 p2 r1 r2; by rewrite !Hf].
  - intros f l1 l2 e1 e2. by rewrite He.
  - intros q f1 l1 e1 f2 l2 e2 [H _]. by rewrite He in H.
  - intros q p1 r1 p2 r2 [H _]. by rewrite Hq in H.
  - intros q ?%Hea. done.
  - intros q ?%Hea. done.
  - intros q ?%Hfa. done.
  - intros q. rewrite Ha. split; [|naive_solver]. intros [?%Hea|[?%Hfa|?%Hqa]]; done.
  - intros a. by rewrite Ha.
  - intros f lo c g. by rewrite Hg.
  - intros f lo c g. by rewrite Hg.
  - intros f lo c1 c2 g1 g2. by rewrite Hg.
  - intros a. by rewrite Ha.
Qed.

Lemma vol_inv_init v : vol_inv empty_db v.
Proof. by apply vol_inv_empty. Qed.

Lemma drop_where_lookup `{Countable K} {A} (p : K -> bool) (m : gmap K A) k :
  (drop_where p m).1 !! k = if p k then None else m !! k.
Proof.
  unfold drop_where. simpl. rewrite lookup_delete_where. by destruct (m !! k), (p k).
Qed.

Lemma drop_volume_tables d v : exists n d', drop_volume d v = (n, d') /\
  extents d' = (drop_where (fun k => bool_decide (k.1.1 = v)) (extents d)).1 /\
  extent_grants d' = (drop_where (fun k => bool_decide (k.1.1.1 = v)) (extent_grants d)).1 /\
  extent_free d' = (drop_where (fun k => bool_decide (k.1 = v)) (extent_free d)).1 /\
  extent_quarantine d' = (drop_where (fun k => bool_decide (k.1 = v)) (extent_quarantine d)).1 /\
  volume_alloc d' = (drop_where (fun k => bool_decide (k = v)) (volume_alloc d)).1.
Proof. eexists _, _. split_and!; reflexivity. Qed.

Lemma drop_volume_spec d v n d' :
  drop_volume d v = (n, d') ->
  vol_inv d' v /\ volume_alloc d' !! v = None /\ (forall q, ~ ext_at d' v q) /\
  (forall w, w <> v -> same_volume d d' w).
Proof.
  intros Hd. destruct (drop_volume_tables d v) as (n' & d1 & Hd1 & HE & HG & HF & HQ & HA).
  rewrite Hd in Hd1. injection Hd1 as <- <-.
  assert (Hext : forall f lo, extents d' !! (v, f, lo) = None).
  { intros f lo. by rewrite HE, drop_where_lookup, bool_decide_eq_true_2. }
  split_and!.
  - apply vol_inv_empty; [done|intros..|]; rewrite ?HG, ?HF, ?HQ, ?HA, drop_where_lookup,
      bool_decide_eq_true_2; done.
  - by rewrite HA, drop_where_lookup, bool_decide_eq_true_2.
  - intros q (f & lo & e & He & _). by rewrite Hext in He.
  - intros w Hw. split; intros; rewrite ?HE, ?HG, ?HF, ?HQ, ?HA, drop_where_lookup,
      bool_decide_eq_false_2; done.
Qed.
