(* ===== verification/Admission.v ===== *)
(** Export admission and durable fences (extent_alloc.rs): the allow-list
    tables block_hosts and block_node_attach, the fenced_clients records and
    the queries over them. *)

From Stdlib Require Import String.
From S2P Require Import Prelude Sql Tables ExtentInv ExtentGrant ExtentReturn.

(** ORDER BY on a text column (BINARY collation: byte order). *)
Definition str_le : relation string := fun s t => String.leb s t = true.
#[global] Instance str_le_dec : RelDecision str_le.
Proof. intros s t. unfold str_le. apply _. Defined.

(** ORDER BY a text column, then a second column. *)
Definition str_key_le {A B} (key : B -> string) (snd_le : relation A) (key2 : B -> A)
    : relation B := fun x y =>
  (key x <> key y /\ str_le (key x) (key y)) \/ (key x = key y /\ snd_le (key2 x) (key2 y)).
#[global] Instance str_key_le_dec {A B} (key : B -> string) (R : relation A) `{!RelDecision R}
  (key2 : B -> A) : RelDecision (str_key_le key R key2).
Proof. intros x y. unfold str_key_le. apply _. Defined.

(** SELECT host_nqn FROM block_hosts UNION SELECT host_nqn FROM
    block_node_attach ORDER BY host_nqn. *)
Definition hosts_for_volume_conn (d : db) (v : string) : list string :=
  merge_sort str_le (elements (list_to_set (C := gset string)
    (omap (fun kv : string * Z * host_row => if bool_decide (kv.1.1 = v) then Some (h_nqn kv.2) else None)
       (map_to_list (block_hosts d)) ++
     omap (fun kv : string * string * attach_row => if bool_decide (kv.1.1 = v) then Some kv.1.2 else None)
       (map_to_list (block_node_attach d))))).

Definition hosts_for_volume (d : db) (v : string) : list string := hosts_for_volume_conn d v.

Definition host_admit (d : db) (v : string) (client_id : Z) (host_nqn : string) (now : Z)
    : list string * db :=
  let k := (v, wrap_i64 client_id) in
  let row := match block_hosts d !! k with
             | Some h => HostRow host_nqn (h_admitted_unix h)
             | None => HostRow host_nqn now
             end in
  let d1 := set_hosts (<[k := row]> (block_hosts d)) d in
  (hosts_for_volume_conn d1 v, d1).

Definition host_evict (d : db) (v : string) (client_id : Z) : list string * list string * db :=
  let k := (v, wrap_i64 client_id) in
  let evicted := option_list (h_nqn <$> block_hosts d !! k) in
  let d1 := set_hosts (delete k (block_hosts d)) d in
  let d2 := set_attach (foldl (fun T nqn => delete (v, nqn) T) (block_node_attach d1) evicted) d1 in
  (evicted, hosts_for_volume_conn d2 v, d2).

Definition node_attach (d : db) (v host_nqn node_name : string) (now : Z) : res (list string * db) :=
  fail_if (exists_where (fun k f => bool_decide (k.1 = v /\ f_nqn f = host_nqn)) (fenced_clients d))
    FencedClient ≫= fun _ =>
  let k := (v, host_nqn) in
  let row := match block_node_attach d !! k with
             | Some a => AttachRow node_name (at_unix a)
             | None => AttachRow node_name now
             end in
  let d1 := set_attach (<[k := row]> (block_node_attach d)) d in
  Ok (hosts_for_volume_conn d1 v, d1).

Definition node_detach (d : db) (v host_nqn : string) : bool * list string * db :=
  let removed := bool_decide (is_Some (block_node_attach d !! (v, host_nqn))) in
  let d1 := set_attach (delete (v, host_nqn) (block_node_attach d)) d in
  (removed, hosts_for_volume_conn d1 v, d1).

(** ** Fence records *)
Definition fence_record (d : db) (v : string) (client_id now : Z) : res (string * db) :=
  client ← as_i64 client_id "client id exceeds i64";
  let host_nqn := match block_hosts d !! (v, client) with Some h => h_nqn h | None => EmptyString end in
  let row := match fenced_clients d !! (v, client) with
             | Some f => FenceRow (f_nqn f) now (f_delivered_unix f)
             | None => FenceRow host_nqn now 0
             end in
  Ok (host_nqn, set_fenced (<[(v, client) := row]> (fenced_clients d)) d).

Definition is_fenced (d : db) (v : string) (client_id : Z) : res bool :=
  client ← as_i64 client_id "client id exceeds i64";
  Ok (bool_decide (is_Some (fenced_clients d !! (v, client)))).

Definition fenced_all (d : db) : list (string * Z) :=
  (fun x => (x.1, wrap_u64 x.2)) <$>
  select (fun k (_ : fence_row) => Some k) (str_key_le fst Z.le snd) (fenced_clients d).

Definition mark_fence_delivered (d : db) (v : string) (client_id now : Z) : res (bool * db) :=
  client ← as_i64 client_id "client id exceeds i64";
  match fenced_clients d !! (v, client) with
  | Some f =>
      if f_delivered_unix f =? 0
      then Ok (true, set_fenced (<[(v, client) := FenceRow (f_nqn f) (f_fenced_unix f) now]>
                                   (fenced_clients d)) d)
      else Ok (false, d)
  | None => Ok (false, d)
  end.

Definition unfence_record (d : db) (v : string) (client_id : Z) : res (bool * db) :=
  client ← as_i64 client_id "client id exceeds i64";
  Ok (bool_decide (is_Some (fenced_clients d !! (v, client))),
      set_fenced (delete (v, client) (fenced_clients d)) d).

(** SELECT DISTINCT volume, client_id FROM extent_grants ORDER BY both. *)
Definition grant_clients (d : db) : list (string * Z) :=
  (fun x => (x.1, wrap_u64 x.2)) <$>
  merge_sort (str_key_le fst Z.le snd) (elements (list_to_set (C := gset (string * Z))
    ((fun kg : string * Z * Z * Z * grant_row => (kg.1.1.1.1, kg.1.2)) <$> map_to_list (extent_grants d)))).

(** ** The roller's view *)
Inductive BlockInitiatorSource := NodeAttach | ClientEarned.
Definition source_str (s : BlockInitiatorSource) : string :=
  match s with NodeAttach => "attach" | ClientEarned => "client" end.

Record BlockInitiatorRow := Initiator {
  bi_volume : string; bi_nqn : string; bi_node : string; bi_client : Z;
  bi_source : BlockInitiatorSource; bi_since : Z }.

Definition list_initiators (d : db) : list BlockInitiatorRow :=
  select (fun k a => Some (Initiator k.1 k.2 (at_node a) 0 NodeAttach (at_unix a)))
    (str_key_le bi_volume str_le bi_nqn) (block_node_attach d) ++
  select (fun k h => Some (Initiator k.1 (h_nqn h) EmptyString (wrap_u64 k.2) ClientEarned
                             (h_admitted_unix h)))
    (str_key_le bi_volume str_le bi_nqn) (block_hosts d).

(** ** The allow-list *)
Definition allowed (d : db) (v nqn : string) : Prop :=
  (exists c h, block_hosts d !! (v, c) = Some h /\ h_nqn h = nqn) \/
  is_Some (block_node_attach d !! (v, nqn)).

Lemma elem_of_hosts d v nqn : nqn ∈ hosts_for_volume_conn d v <-> allowed d v nqn.
Proof.
  unfold hosts_for_volume_conn, allowed.
  rewrite merge_sort_Permutation, elem_of_elements, elem_of_list_to_set, elem_of_app,
    !list_elem_of_omap. split.
  - intros [([[w c] h] & Hin & Hs)|([[w n] a] & Hin & Hs)]; simpl in Hs;
      apply elem_of_map_to_list in Hin; case_bool_decide; simplify_eq; eauto.
  - intros [(c & h & Hh & <-)|[a Ha]].
    + left. exists (v, c, h). rewrite elem_of_map_to_list. split; [done|]. simpl.
      by rewrite bool_decide_eq_true_2.
    + right. exists (v, nqn, a). rewrite elem_of_map_to_list. split; [done|]. simpl.
      by rewrite bool_decide_eq_true_2.
Qed.

Definition fence_named (d : db) (v nqn : string) : Prop :=
  exists c f, fenced_clients d !! (v, c) = Some f /\ f_nqn f = nqn.

Lemma fence_named_exists d v nqn :
  exists_where (fun k f => bool_decide (k.1 = v /\ f_nqn f = nqn)) (fenced_clients d) = true <->
  fence_named d v nqn.
Proof.
  rewrite exists_where_true. unfold fence_named. split.
  - intros ([w c] & f & Hf & Hb). apply bool_decide_eq_true in Hb as [Hw Hn]. simpl in Hw. subst. eauto.
  - intros (c & f & Hf & Hn). exists (v, c), f. split; [done|]. by apply bool_decide_eq_true.
Qed.

(** The node attach is refused exactly while a fence record of the volume
    names the node; otherwise it admits that node and no other. *)
Lemma node_attach_spec d v nqn node now :
  match node_attach d v nqn node now with
  | Ok (hosts, d') => ~ fence_named d v nqn /\ (forall x, x ∈ hosts <-> allowed d' v x) /\
      (forall w x, allowed d' w x <-> allowed d w x \/ (w = v /\ x = nqn))
  | Err e => fence_named d v nqn /\ e = FencedClient
  end.
Proof.
  pose proof (fence_named_exists d v nqn) as Hf. unfold node_attach.
  destruct (exists_where _ _); cbn; [split; [by apply Hf|done]|].
  split_and!; [by intros ?%Hf|by intros; apply elem_of_hosts|].
  intros w x. unfold allowed. simpl. rewrite lookup_insert_is_Some. split.
  - intros [?|[[= -> ->]|[_ ?]]]; auto.
  - intros [[?|?]|[-> ->]]; auto. right.
    destruct (decide ((v, nqn) = (w, x))); [by left|by right].
Qed.

Lemma host_evict_spec d v client_id h :
  block_hosts d !! (v, wrap_i64 client_id) = Some h ->
  exists remaining d', host_evict d v client_id = ([h_nqn h], remaining, d') /\
    (forall x, x ∈ remaining <-> allowed d' v x) /\
    (forall w x, (w, x) <> (v, h_nqn h) -> allowed d' w x <-> allowed d w x) /\
    (allowed d' v (h_nqn h) <->
       exists c h', c <> wrap_i64 client_id /\ block_hosts d !! (v, c) = Some h' /\ h_nqn h' = h_nqn h) /\
    fenced_clients d' = fenced_clients d.
Proof.
  intros Hh. unfold host_evict. rewrite Hh. cbn. eexists _, _. split; [done|].
  split_and!; [by intros; apply elem_of_hosts| | |done].
  - intros w x Hne. unfold allowed. simpl. rewrite lookup_delete_ne by congruence. split.
    + intros [(c & h' & [_ Hl]%lookup_delete_Some & Hn)|?]; [left; eauto|by right].
    + intros [(c & h' & Hl & Hn)|?]; [|by right]. left. exists c, h'. split; [|done].
      rewrite lookup_delete_ne; [done|]. intros [= <- <-]. congruence.
  - unfold allowed. simpl. rewrite lookup_delete_eq. split.
    + intros [(c & h' & [Hc Hl]%lookup_delete_Some & Hn)|[? ?]]; [|done].
      exists c, h'. split_and!; try done. congruence.
    + intros (c & h' & Hc & Hl & Hn). left. exists c, h'. split; [|done].
      rewrite lookup_delete_ne; [done|]. congruence.
Qed.

(** ** Durable eviction *)

(** The allow-list traffic of a volume while a fence stands: everything but
    lifting fences, and admissions other than of the fenced node. *)
Inductive adm_step (v nqn : string) : db -> db -> Prop :=
| AS_attach d host node now hosts d' :
    node_attach d v host node now = Ok (hosts, d') -> adm_step v nqn d d'
| AS_detach d host b rem d' : node_detach d v host = (b, rem, d') -> adm_step v nqn d d'
| AS_admit d client host now hosts d' :
    host <> nqn -> host_admit d v client host now = (hosts, d') -> adm_step v nqn d d'
| AS_evict d client ev rem d' : host_evict d v client = (ev, rem, d') -> adm_step v nqn d d'
| AS_fence d client now s d' : fence_record d v client now = Ok (s, d') -> adm_step v nqn d d'
| AS_delivered d client now b d' :
    mark_fence_delivered d v client now = Ok (b, d') -> adm_step v nqn d d'.

Definition evicted (v nqn : string) (d : db) : Prop := fence_named d v nqn /\ ~ allowed d v nqn.

Lemma fence_named_insert d v nqn c f :
  fence_named d v nqn -> (forall f0, fenced_clients d !! (v, c) = Some f0 -> f_nqn f = f_nqn f0) ->
  fence_named (set_fenced (<[(v, c) := f]> (fenced_clients d)) d) v nqn.
Proof.
  intros (c' & f' & Hf & Hn) Hsame. unfold fence_named. simpl.
  destruct (decide (c = c')) as [->|Hne].
  - exists c', f. rewrite lookup_insert_eq. split; [done|]. by rewrite (Hsame _ Hf).
  - exists c', f'. rewrite lookup_insert_ne by congruence. done.
Qed.

Lemma evicted_step v nqn d d' : adm_step v nqn d d' -> evicted v nqn d -> evicted v nqn d'.
Proof.
  intros [d0 host node now hosts d1 Ha|d0 host b rem d1 Hd|d0 client host now hosts d1 Hne Ha
         |d0 client ev rem d1 He|d0 client now s d1 Hf|d0 client now b d1 Hm] [Hfn Hna].
  - pose proof (node_attach_spec d0 v host node now) as Hs. rewrite Ha in Hs.
    destruct Hs as (Hnf & _ & Hal). split.
    + unfold node_attach in Ha. inv_res. simplify_eq. done.
    + rewrite Hal. intros [?|[_ ->]]; done.
  - unfold node_detach in Hd. simplify_eq. split; [done|]. intros [?|[a Ha]]; apply Hna; [by left|].
    simpl in Ha. apply lookup_delete_Some in Ha as [_ ?]. right. eauto.
  - unfold host_admit in Ha. simplify_eq. split; [done|]. intros [(c & h & Hh & Hn)|?]; apply Hna; [|by right].
    simpl in Hh. apply lookup_insert_Some in Hh as [[_ <-]|[_ Hh]]; [|left; eauto].
    destruct (block_hosts d0 !! _); by simpl in Hn.
  - unfold host_evict in He. simplify_eq. split; [done|]. intros [(c & h & Hh & Hn)|[a Ha]]; apply Hna.
    + simpl in Hh. apply lookup_delete_Some in Hh as [_ ?]. left. eauto.
    + right. simpl in Ha. destruct (block_hosts d0 !! _); simpl in Ha; [|eauto].
      apply lookup_delete_Some in Ha as [_ ?]. eauto.
  - unfold fence_record in Hf. inv_res. simplify_eq. split; [|done].
    apply fence_named_insert; [done|]. intros f0 ->. done.
  - unfold mark_fence_delivered in Hm. inv_res.
    destruct (fenced_clients d0 !! (v, a)) as [f|] eqn:Hl; [|by simplify_eq].
    destruct (_ =? 0); simplify_eq; [|done]. split; [|done].
    apply fence_named_insert; [done|]. intros f0 Hf0. rewrite Hl in Hf0. by simplify_eq.
Qed.

(** Fencing then evicting a client whose node no other client uses puts the
    volume in the [evicted] state for that node. *)
Lemma fence_evict_evicted d v client now d1 nqn h :
  is_u64 client ->
  block_hosts d !! (v, client) = Some h -> fenced_clients d !! (v, client) = None ->
  (forall c h', block_hosts d !! (v, c) = Some h' -> h_nqn h' = h_nqn h -> c = client) ->
  fence_record d v client now = Ok (nqn, d1) ->
  nqn = h_nqn h /\ evicted v nqn (host_evict d1 v client).2.
Proof.
  intros Hu Hh Hnf Huniq Hf. unfold fence_record in Hf. inv_res. simplify_eq.
  apply as_i64_Ok in E as [Hle ->]. rewrite Hh, Hnf.
  assert (Hw : wrap_i64 client = client).
  { apply wrap_i64_id. bounds. }
  split; [done|]. set (d1 := set_fenced _ d).
  destruct (host_evict_spec d1 v client h) as (rem & d2 & -> & _ & _ & Hal & Hfe); [by rewrite Hw|].
  simpl. split.
  - exists client, (FenceRow (h_nqn h) now 0). rewrite Hfe. simpl. by rewrite lookup_insert_eq.
  - rewrite Hal. intros (c & h' & Hc & Hl & Hn). apply Hc. rewrite Hw. by apply (Huniq c h').
Qed.
