(* ===== verification/Composition.v ===== *)
(** The serving seat (extent_alloc.rs): target registry, per-volume seats
    with their epoch, leg sync marks, serving leases and the promotion CAS,
    with the state machine they form. *)

From Stdlib Require Import String.
From stdpp Require Import relations.
From S2P Require Import Prelude Sql Tables Admission.

Record BlockTargetRow := TargetInfo {
  bt_id : string; bt_traddr : string; bt_trsvcid : Z; bt_registered : Z; bt_updated : Z }.
Record BlockSeat := Seat {
  bs_volume : string; bs_epoch : Z; bs_composer : string; bs_seated_unix : Z }.
Record BlockLeg := Leg {
  bl_volume : string; bl_target : string; bl_sync_state : string; bl_marked : Z }.
Record BlockLease := Lease {
  le_volume : string; le_epoch : Z; le_holder : string; le_expires : Z }.

Definition LEG_INSYNC : string := "insync".
Definition LEG_STALE : string := "stale".

Definition is_live_at (l : BlockLease) (now : Z) : bool := now <? le_expires l.

(** [port as u16]. *)
Definition target_info (id : string) (t : target_row) : BlockTargetRow :=
  TargetInfo id (t_traddr t) (t_trsvcid t mod 2 ^ 16) (t_registered_unix t) (t_updated_unix t).
Definition seat_info (v : string) (s : seat_row) : BlockSeat :=
  Seat v (s_epoch s) (s_composer s) (s_seated_unix s).
Definition lease_info (v : string) (l : lease_row) : BlockLease :=
  Lease v (ls_epoch l) (ls_holder l) (ls_expires_unix l).

Definition target_register (d : db) (id traddr : string) (port now : Z) : db :=
  let row := match block_targets d !! id with
             | Some t => TargetRow traddr port (t_registered_unix t) now
             | None => TargetRow traddr port now now
             end in
  set_targets (<[id := row]> (block_targets d)) d.

Definition by_str {B} (key : B -> string) : relation B := fun x y => str_le (key x) (key y).
#[global] Instance by_str_dec {B} (key : B -> string) : RelDecision (by_str key).
Proof. intros x y. unfold by_str. apply _. Defined.

Definition target_list (d : db) : list BlockTargetRow :=
  select (fun k t => Some (target_info k t)) (by_str bt_id) (block_targets d).

(** INSERT-if-absent of the seat; its leg and first lease only with it. *)
Definition seat_volume (d : db) (v composer : string) (now lease_expires : Z)
    : res (BlockSeat * db) :=
  let d1 :=
    match block_volume_target d !! v with
    | Some _ => d
    | None =>
        let d := set_seats (<[v := SeatRow 1 composer now]> (block_volume_target d)) d in
        let d := set_legs (insert_or_ignore (v, composer) (LegRow LEG_INSYNC now)
                             (block_volume_legs d)) d in
        set_leases (insert_or_ignore v (LeaseRow 1 composer lease_expires) (block_leases d)) d
    end in
  s ← one_row (block_volume_target d1 !! v);
  Ok (seat_info v s, d1).

Definition volume_seat (d : db) (v : string) : option BlockSeat :=
  seat_info v <$> block_volume_target d !! v.

Definition resolve_volume_target (d : db) (v : string) : res (BlockSeat * BlockTargetRow) :=
  match volume_seat d v with
  | None => Err UnseatedVolume
  | Some seat =>
      match block_targets d !! bs_composer seat with
      | Some t => Ok (seat, target_info (bs_composer seat) t)
      | None => Err (UnknownComposer (bs_composer seat))
      end
  end.

Definition lease_grant (d : db) (v : string) (epoch : Z) (holder : string) (expires : Z)
    : BlockLease * db :=
  (Lease v epoch holder expires,
   set_leases (<[v := LeaseRow epoch holder expires]> (block_leases d)) d).

Definition lease_renew (d : db) (v holder : string) (expires : Z) : res (BlockLease * db) :=
  match block_volume_target d !! v with
  | None => Err UnseatedVolume
  | Some s =>
      fail_if (negb (bool_decide (s_composer s = holder))) (LeaseRefused NotComposer) ≫= fun _ =>
      match block_leases d !! v with
      | None => Err (LeaseRefused NoLease)
      | Some l =>
          fail_if (negb (bool_decide (ls_epoch l = s_epoch s /\ ls_holder l = holder)))
            (LeaseRefused LeaseElsewhere) ≫= fun _ =>
          Ok (Lease v (s_epoch s) holder expires,
              set_leases (<[v := LeaseRow (ls_epoch l) (ls_holder l) expires]> (block_leases d)) d)
      end
  end.

Definition lease_get (d : db) (v : string) : option BlockLease := lease_info v <$> block_leases d !! v.

Definition leases_held_by (d : db) (holder : string) : list BlockLease :=
  select (fun k l => if bool_decide (ls_holder l = holder) then Some (lease_info k l) else None)
    (by_str le_volume) (block_leases d).

Definition lease_drop (d : db) (v : string) : bool * db :=
  (bool_decide (is_Some (block_leases d !! v)), set_leases (delete v (block_leases d)) d).

Definition leg_mark (d : db) (v target sync_state : string) (now : Z) : res db :=
  fail_if (negb (bool_decide (sync_state = LEG_INSYNC)) && negb (bool_decide (sync_state = LEG_STALE)))
    (InvalidRange "leg sync state") ≫= fun _ =>
  Ok (set_legs (<[(v, target) := LegRow sync_state now]> (block_volume_legs d)) d).

Definition legs_for_volume (d : db) (v : string) : list BlockLeg :=
  select (fun k l => if bool_decide (k.1 = v)
                     then Some (Leg k.1 k.2 (l_sync_state l) (l_marked_unix l)) else None)
    (by_str bl_target) (block_volume_legs d).

Definition in_sync (d : db) (v candidate : string) : bool :=
  match block_volume_legs d !! (v, candidate) with
  | Some l => bool_decide (l_sync_state l = LEG_INSYNC)
  | None => false
  end.

Definition promote_volume (d : db) (v : string) (expected_epoch : Z)
    (expected_composer candidate : string) (now : Z) : res (BlockSeat * db) :=
  match block_volume_target d !! v with
  | None => Err UnseatedVolume
  | Some s =>
      fail_if (negb (s_epoch s =? expected_epoch) ||
               negb (bool_decide (s_composer s = expected_composer)))
        (PromotionRaced (s_epoch s) (s_composer s)) ≫= fun _ =>
      fail_if (bool_decide (candidate = s_composer s)) (SelfPromotion (s_composer s)) ≫= fun _ =>
      fail_if (negb (bool_decide (is_Some (block_targets d !! candidate))))
        (UnknownComposer candidate) ≫= fun _ =>
      fail_if (negb (in_sync d v candidate)) (NotInSync candidate) ≫= fun _ =>
      (* UPDATE .. WHERE volume AND epoch AND composer; moved != 1 *)
      fail_if (negb ((s_epoch s =? expected_epoch) && bool_decide (s_composer s = expected_composer)))
        (PromotionRaced (s_epoch s) (s_composer s)) ≫= fun _ =>
      Ok (Seat v (wrap_i64 (expected_epoch + 1)) candidate now,
          set_seats (<[v := SeatRow (s_epoch s + 1) candidate now]> (block_volume_target d)) d)
  end.

Definition seat_list (d : db) : list BlockSeat :=
  select (fun k s => Some (seat_info k s)) (by_str bs_volume) (block_volume_target d).

(** ** The promotion CAS *)
Record may_promote (d : db) (v : string) (epoch : Z) (composer candidate : string) : Prop := {
  pr_seat : exists s, block_volume_target d !! v = Some s /\ s_epoch s = epoch /\ s_composer s = composer;
  pr_other : candidate <> composer;
  pr_registered : is_Some (block_targets d !! candidate);
  pr_insync : in_sync d v candidate = true }.

Lemma promote_Ok d v epoch composer candidate now seat d' :
  promote_volume d v epoch composer candidate now = Ok (seat, d') <->
  may_promote d v epoch composer candidate /\
  seat = Seat v (wrap_i64 (epoch + 1)) candidate now /\
  d' = set_seats (<[v := SeatRow (epoch + 1) candidate now]> (block_volume_target d)) d.
Proof.
  unfold promote_volume. split.
  - destruct (block_volume_target d !! v) as [s|] eqn:Hs; [|done]. intros H. inv_res. bool_Z.
    simplify_eq. repeat match goal with Hb : bool_decide _ = _ |- _ =>
      first [apply bool_decide_eq_true in Hb|apply bool_decide_eq_false in Hb] end.
    subst. split_and!; try done. split; try done. eauto.
  - intros [[(s & Hs & <- & <-) Hne Hreg Hin] [-> ->]]. rewrite Hs, Z.eqb_refl, Hin.
    rewrite (bool_decide_eq_true_2 (s_composer s = s_composer s)) by done.
    rewrite (bool_decide_eq_false_2 (candidate = s_composer s)) by done.
    rewrite bool_decide_eq_true_2 by done. done.
Qed.

(** ** The state machine *)
Inductive comp_step : db -> db -> Prop :=
| CS_register d id traddr port now : comp_step d (target_register d id traddr port now)
| CS_seat d v composer now exp s d' :
    seat_volume d v composer now exp = Ok (s, d') -> comp_step d d'
| CS_grant d v epoch holder exp : comp_step d (lease_grant d v epoch holder exp).2
| CS_renew d v holder exp l d' : lease_renew d v holder exp = Ok (l, d') -> comp_step d d'
| CS_drop d v : comp_step d (lease_drop d v).2
| CS_mark d v t st now d' : leg_mark d v t st now = Ok d' -> comp_step d d'
| CS_promote d v e c cand now s d' :
    promote_volume d v e c cand now = Ok (s, d') -> comp_step d d'.

(** One step leaves a standing seat alone or advances its epoch by one, and
    then only to a registered target whose leg was in sync. *)
Lemma comp_step_seat d d' v s :
  comp_step d d' -> block_volume_target d !! v = Some s ->
  exists s', block_volume_target d' !! v = Some s' /\
    (s' = s \/ (s_epoch s' = s_epoch s + 1 /\ s_composer s' <> s_composer s /\
                in_sync d v (s_composer s') = true /\ is_Some (block_targets d !! s_composer s'))).
Proof.
  intros Hst Hs. destruct Hst as [| d w c now exp x d' Hx| | d w h exp l d' Hx| | d w t st now d' Hx
    | d w e c cand now x d' Hx]; try (by exists s; auto).
  - unfold seat_volume in Hx. exists s. split; [|by left].
    destruct (block_volume_target d !! w) eqn:Hw; inv_res; simplify_eq; [done|]. simpl.
    rewrite lookup_insert_ne; [done|]. intros ->. congruence.
  - exists s. split; [|by left]. unfold lease_renew in Hx.
    destruct (block_volume_target d !! w); [|done]. inv_res.
    destruct (block_leases d !! w); [|done]. inv_res. by simplify_eq.
  - exists s. split; [|by left]. unfold leg_mark in Hx. inv_res. done.
  - apply promote_Ok in Hx as ([(s0 & Hs0 & <- & <-) Hne Hreg Hin] & _ & ->). simpl.
    destruct (decide (w = v)) as [->|Hwv].
    + rewrite Hs in Hs0. simplify_eq. rewrite lookup_insert_eq. eexists. split; [done|]. by right.
    + rewrite lookup_insert_ne by done. eauto.
Qed.

(** Epochs never go back, and equal epochs mean the same composer. *)
Definition seat_le (s s' : seat_row) : Prop :=
  s_epoch s <= s_epoch s' /\ (s_epoch s = s_epoch s' -> s' = s).

Lemma comp_steps_seat d d' v s :
  rtc comp_step d d' -> block_volume_target d !! v = Some s ->
  exists s', block_volume_target d' !! v = Some s' /\ seat_le s s'.
Proof.
  intros Hst. revert s. induction Hst as [d|d1 d2 d3 H12 _ IH]; intros s Hs.
  { exists s. split; [done|]. split; [lia|done]. }
  destruct (comp_step_seat _ _ _ _ H12 Hs) as (s2 & Hs2 & Hcase).
  destruct (IH _ Hs2) as (s3 & Hs3 & Hle & Heq). exists s3. split; [done|].
  unfold seat_le. destruct Hcase as [->|[He _]]; [done|]. split; [lia|]. lia.
Qed.

(** A renewal is granted only to the composer of record holding the lease
    of the current epoch, and moves nothing but the expiry. *)
Lemma lease_renew_Ok d v holder exp l d' :
  lease_renew d v holder exp = Ok (l, d') ->
  exists s r, block_volume_target d !! v = Some s /\ s_composer s = holder /\
    block_leases d !! v = Some r /\ ls_epoch r = s_epoch s /\ ls_holder r = holder /\
    d' = set_leases (<[v := LeaseRow (s_epoch s) holder exp]> (block_leases d)) d.
Proof.
  unfold lease_renew. destruct (block_volume_target d !! v) as [s|]; [|done].
  rewrite fail_if_bind, negb_false_iff, bool_decide_eq_true. intros [Hc H].
  destruct (block_leases d !! v) as [r|] eqn:Hr; [|done].
  rewrite fail_if_bind, negb_false_iff, bool_decide_eq_true in H.
  destruct H as [[He Hh] H]. simplify_eq. exists s, r. by rewrite He, Hh.
Qed.

(** Composition steps never touch the extent tables. *)
Lemma comp_step_tables d d' : comp_step d d' ->
  extents d' = extents d /\ extent_grants d' = extent_grants d /\ extent_free d' = extent_free d /\
  extent_quarantine d' = extent_quarantine d /\ volume_alloc d' = volume_alloc d /\
  fenced_clients d' = fenced_clients d.
Proof.
  intros [| d0 w c now exp x d1 Hx| | d0 w h exp l d1 Hx| | d0 w t st now d1 Hx
    | d0 w e c cand now x d1 Hx]; try done.
  - unfold seat_volume in Hx. destruct (block_volume_target d0 !! w) eqn:Hw; inv_res; by simplify_eq.
  - apply lease_renew_Ok in Hx as (s & r & _ & _ & _ & _ & _ & ->). done.
  - unfold leg_mark in Hx. by inv_res.
  - apply promote_Ok in Hx as (_ & _ & ->). done.
Qed.
