(* ===== verification/ExtentSystem.v ===== *)
(** The allocator as a whole: every writing operation of extent_alloc.rs as
    one transition of the database, what every reachable database satisfies,
    and the composition of operations into the layout life cycle
    (grant, commit, return, fence, reclaim, sweep). *)

From S2P Require Import Prelude Sql Tables ExtentVerify FreeList ExtentInv.
From S2P Require Import ExtentGrant ExtentMerge ExtentReturn Csv ExtentReclaim ExtentQuarantine.
From S2P Require Import Admission Composition.

Inductive op :=
| ORegister (v : string) (ceiling : Z)
| OExpand (v : string) (ceiling : Z)
| OGrant (env : option string) (v : string) (f c lo len : Z) (fresh_only : bool)
| OGrantRead (v : string) (f c lo len : Z)
| OReturn (v : string) (f c lo len : Z)
| OFence (v : string) (c : Z)
| OReclaim (v : string) (f lo len now : Z)
| OCommit (v : string) (f c lo len : Z)
| ORelease (v : string)
| OSweep (v : string)
| ODrop (v : string)
| ORevoke (v : string) (c : Z)
| OAdmit (v : string) (c : Z) (nqn : string) (now : Z)
| OEvict (v : string) (c : Z)
| OAttach (v nqn node : string) (now : Z)
| ODetach (v nqn : string)
| OFenceRecord (v : string) (c now : Z)
| ODelivered (v : string) (c now : Z)
| OUnfence (v : string) (c : Z)
| OTarget (id traddr : string) (port now : Z)
| OSeat (v composer : string) (now expires : Z)
| OLeaseGrant (v : string) (epoch : Z) (holder : string) (expires : Z)
| OLeaseRenew (v holder : string) (expires : Z)
| OLeaseDrop (v : string)
| OLegMark (v target state : string) (now : Z)
| OPromote (v : string) (epoch : Z) (composer candidate : string) (now : Z).

Definition db_of {A} (r : res (A * db)) : res db :=
  match r with Ok (_, d) => Ok d | Err e => Err e end.

Definition exec (d : db) (o : op) : res db :=
  match o with
  | ORegister v c => register_volume d v c
  | OExpand v c => db_of (expand_volume d v c)
  | OGrant env v f c lo len fresh => db_of (grant (extent_row_budget env) d v f c lo len fresh)
  | OGrantRead v f c lo len => db_of (grant_read d v f c lo len)
  | OReturn v f c lo len => db_of (layout_return d v f c lo len)
  | OFence v c => db_of (fence_client d v c)
  | OReclaim v f lo len now => db_of (reclaim_complete d v f lo len now)
  | OCommit v f c lo len => db_of (commit_extents d v f c lo len)
  | ORelease v => db_of (release_quarantine d v)
  | OSweep v => db_of (sweep_quarantine_delivered d v)
  | ODrop v => Ok (drop_volume d v).2
  | ORevoke v c => db_of (revoke_client d v c)
  | OAdmit v c nqn now => Ok (host_admit d v c nqn now).2
  | OEvict v c => Ok (host_evict d v c).2
  | OAttach v nqn node now => db_of (node_attach d v nqn node now)
  | ODetach v nqn => Ok (node_detach d v nqn).2
  | OFenceRecord v c now => db_of (fence_record d v c now)
  | ODelivered v c now => db_of (mark_fence_delivered d v c now)
  | OUnfence v c => db_of (unfence_record d v c)
  | OTarget id a p now => Ok (target_register d id a p now)
  | OSeat v c now exp => db_of (seat_volume d v c now exp)
  | OLeaseGrant v e h exp => Ok (lease_grant d v e h exp).2
  | OLeaseRenew v h exp => db_of (lease_renew d v h exp)
  | OLeaseDrop v => Ok (lease_drop d v).2
  | OLegMark v t st now => leg_mark d v t st now
  | OPromote v e c cand now => db_of (promote_volume d v e c cand now)
  end.

(** The arguments' Rust types. *)
Definition valid_op (o : op) : Prop :=
  match o with
  | ORegister _ c | OExpand _ c => is_u64 c
  | OGrant _ _ f c lo len _ | OGrantRead _ f c lo len | OReturn _ f c lo len
  | OCommit _ f c lo len => is_u64 f /\ is_u64 c /\ is_u64 lo /\ is_u64 len
  | OReclaim _ f lo len _ => is_u64 f /\ is_u64 lo /\ is_u64 len
  | OFence _ c | ORevoke _ c | OFenceRecord _ c _ | ODelivered _ c _ | OUnfence _ c => is_u64 c
  | _ => True
  end.

(** A failed transaction rolls back. *)
Definition apply_op (d : db) (o : op) : db :=
  match exec d o with Ok d' => d' | Err _ => d end.
Definition run (ops : list op) : db := foldl apply_op empty_db ops.

(** ** Every operation keeps every volume's invariant *)
Definition healthy (d : db) : Prop := forall v, vol_inv d v.

Definition preserves (d : db) (v : string) (r : res db) : Prop :=
  match r with
  | Ok d' => vol_inv d' v /\ forall w, w <> v -> same_volume d d' w
  | Err e => refusal e
  end.

Lemma preserves_healthy d v r :
  healthy d -> preserves d v r -> match r with Ok d' => healthy d' | Err e => refusal e end.
Proof.
  intros Hh. destruct r as [d'|e]; [|done]. intros [Hv Hw] w.
  destruct (decide (w = v)) as [->|Hne]; [done|]. by apply (vol_inv_frame d); [apply Hw|apply Hh].
Qed.

Lemma same_tables d d' :
  extents d' = extents d -> extent_grants d' = extent_grants d -> extent_free d' = extent_free d ->
  extent_quarantine d' = extent_quarantine d -> volume_alloc d' = volume_alloc d ->
  healthy d -> healthy d'.
Proof.
  intros He Hg Hf Hq Ha Hh v. apply (vol_inv_frame d); [|apply Hh].
  split; intros; by rewrite ?He, ?Hg, ?Hf, ?Hq, ?Ha.
Qed.

Lemma bad_range lo len : is_u64 lo -> is_u64 len -> ~ (0 < len /\ lo + len <= i64_max) ->
  exists why, checked_end lo len = Err (InvalidRange why).
Proof.
  intros Hlo Hlen Hn. destruct (checked_end lo len) as [e|e] eqn:He.
  - apply checked_end_Ok in He as (? & ? & _); [tauto|done..].
  - apply checked_end_invalid in He as [why ->]. eauto.
Qed.

Lemma bad_client c what : i64_max < c -> exists why, as_i64 c what = Err (InvalidRange why).
Proof. intros Hc. unfold as_i64. rewrite Z.gtb_ltb, (proj2 (Z.ltb_lt _ _)) by done. eauto. Qed.

Lemma commit_preserves d v f c lo len :
  vol_inv d v -> is_u64 lo -> is_u64 len -> preserves d v (db_of (commit_extents d v f c lo len)).
Proof.
  intros Hi Hlo Hlen.
  destruct (decide (0 < len /\ lo + len <= i64_max)) as [[H0 Hm]|Hbad].
  - destruct (Z.le_gt_cases c i64_max) as [Hc|Hc].
    + pose proof (commit_extents_spec d v f c lo len Hi Hlo H0 Hm Hc) as Hs.
      destruct (commit_extents d v f c lo len) as [[n d']|e]; simpl; [|by destruct Hs as [[? ->] _]].
      destruct Hs as [_ [Hi' Hr _ (Hg & Hf & Hq & Ha)]]. split; [done|].
      intros w Hw. split; intros; rewrite ?Hg, ?Hf, ?Hq, ?Ha; try done. rewrite Hr.
      destruct (extents d !! _); [|done]. simpl. rewrite bool_decide_eq_false_2; [done|]. naive_solver.
    + unfold commit_extents. destruct Hlo. destruct (checked_end_valid lo len) as [-> ->]; [lia..|].
      destruct (bad_client c "client id exceeds i64" Hc) as [why ->]. done.
  - unfold commit_extents. destruct (as_i64 lo _) as [s|e] eqn:E; [|by apply as_i64_invalid in E as [? ->]].
    destruct (bad_range lo len Hlo Hlen Hbad) as [why ->]. done.
Qed.

Lemma reclaim_preserves d v f lo len now :
  vol_inv d v -> is_u64 lo -> is_u64 len -> preserves d v (db_of (reclaim_complete d v f lo len now)).
Proof.
  intros Hi Hlo Hlen.
  destruct (decide (0 < len /\ lo + len <= i64_max)) as [[H0 Hm]|Hbad].
  - pose proof (reclaim_complete_spec d v f lo len now Hi Hlo H0 Hm) as Hs.
    destruct (reclaim_complete d v f lo len now) as [[out d']|e]; simpl.
    + destruct Hs as [_ Hp]. split; apply Hp.
    + by destruct Hs as (_ & hs & -> & _).
  - unfold reclaim_complete. destruct (as_i64 lo _) as [s|e] eqn:E; [|by apply as_i64_invalid in E as [? ->]].
    destruct (bad_range lo len Hlo Hlen Hbad) as [why ->]. done.
Qed.

Lemma fence_preserves d v c : vol_inv d v -> preserves d v (db_of (fence_client d v c)).
Proof.
  intros Hi. destruct (Z.le_gt_cases c i64_max) as [Hc|Hc].
  - destruct (fence_client_spec d v c Hi Hc) as (n & d' & -> & Hp). split; apply Hp.
  - unfold fence_client. destruct (bad_client c "client id exceeds i64" Hc) as [why ->]. done.
Qed.

Lemma revoke_preserves d v c : vol_inv d v -> preserves d v (db_of (revoke_client d v c)).
Proof.
  intros Hi. destruct (Z.le_gt_cases c i64_max) as [Hc|Hc].
  - pose proof (revoke_client_spec d v c Hi Hc) as Hs.
    destruct (revoke_client d v c) as [[n d']|e]; [destruct Hs as [_ Hp]; split; apply Hp|].
    by destruct Hs as [-> _].
  - unfold revoke_client. destruct (bad_client c "client id exceeds i64" Hc) as [why ->]. done.
Qed.

Lemma register_preserves d v c : vol_inv d v -> is_u64 c -> preserves d v (register_volume d v c).
Proof.
  intros Hi Hc. destruct (register_volume d v c) as [d'|e] eqn:Hr.
  - destruct (register_volume_spec _ _ _ _ Hi Hc Hr) as (? & ? & _). done.
  - unfold register_volume in Hr. apply bind_Err in Hr as [Hr|(? & _ & ?)]; [|done].
    by apply as_i64_invalid in Hr as [? ->].
Qed.

(** The admission, fence-record and composition operations leave the extent
    tables alone. *)
Definition same_extents (d d' : db) : Prop :=
  extents d' = extents d /\ extent_grants d' = extent_grants d /\ extent_free d' = extent_free d /\
  extent_quarantine d' = extent_quarantine d /\ volume_alloc d' = volume_alloc d.

Definition is_plain (d : db) (r : res db) : Prop :=
  match r with Ok d' => same_extents d d' | Err e => refusal e end.

Lemma plain_healthy d r :
  healthy d -> is_plain d r -> match r with Ok d' => healthy d' | Err e => refusal e end.
Proof. intros Hh. destruct r; [|done]. intros (? & ? & ? & ? & ?). by eapply same_tables. Qed.

Lemma comp_plain d d' : comp_step d d' -> same_extents d d'.
Proof. intros Hs. apply comp_step_tables in Hs. unfold same_extents. tauto. Qed.

Lemma with_client_plain {A} d c (k : Z -> res (A * db)) :
  (forall x, is_plain d (db_of (k x))) ->
  is_plain d (db_of (x ← as_i64 c "client id exceeds i64"; k x)).
Proof.
  intros Hk. destruct (as_i64 c _) as [x|e] eqn:E; [apply Hk|].
  by apply as_i64_invalid in E as [? ->].
Qed.

Lemma fence_ops_plain d v c now :
  is_plain d (db_of (fence_record d v c now)) /\
  is_plain d (db_of (mark_fence_delivered d v c now)) /\
  is_plain d (db_of (unfence_record d v c)).
Proof.
  split_and!; apply with_client_plain; intros x; try done.
  destruct (fenced_clients d !! (v, x)) as [f|]; [|done]. by destruct (f_delivered_unix f =? 0).
Qed.

Lemma attach_plain d v nqn node now : is_plain d (db_of (node_attach d v nqn node now)).
Proof. unfold node_attach. by destruct (exists_where _ _). Qed.

Lemma seat_plain d v c now exp : is_plain d (db_of (seat_volume d v c now exp)).
Proof.
  destruct (seat_volume d v c now exp) as [[s d']|e] eqn:Hs; simpl.
  - eapply comp_plain, CS_seat, Hs.
  - unfold seat_volume in Hs. apply bind_Err in Hs as [Hs|(? & _ & ?)]; [|done].
    unfold one_row in Hs. destruct (_ !! v); by simplify_eq.
Qed.

Lemma renew_plain d v h exp : is_plain d (db_of (lease_renew d v h exp)).
Proof.
  destruct (lease_renew d v h exp) as [[s d']|e] eqn:Hs; simpl; [eapply comp_plain, CS_renew, Hs|].
  unfold lease_renew, fail_if in Hs. repeat case_match; simplify_eq/=; done.
Qed.

Lemma promote_plain d v e c cand now : is_plain d (db_of (promote_volume d v e c cand now)).
Proof.
  destruct (promote_volume d v e c cand now) as [[s d']|x] eqn:Hs; simpl;
    [eapply comp_plain, CS_promote, Hs|].
  unfold promote_volume, fail_if in Hs. repeat case_match; simplify_eq/=; done.
Qed.

Lemma mark_plain d v t st now : is_plain d (leg_mark d v t st now).
Proof. unfold leg_mark, fail_if. by destruct (_ && _). Qed.

#[export] Hint Resolve register_preserves fence_preserves revoke_preserves reclaim_preserves
  commit_preserves attach_plain seat_plain renew_plain mark_plain promote_plain : flint.
#[export] Hint Extern 1 (is_plain _ _) => apply fence_ops_plain : flint.
#[export] Hint Extern 1 (vol_inv _ _) => match goal with H : healthy _ |- _ => exact (H _) end : flint.

(** One transition: a healthy database stays healthy, or the operation is
    refused for a reason the code names, never for corruption. *)
Lemma exec_healthy d o : healthy d -> valid_op o ->
  match exec d o with Ok d' => healthy d' | Err e => refusal e end.
Proof.
  intros Hh Hv. destruct o; simpl in Hv |- *; destruct_and?;
    try (by apply (same_tables d)); 
    try (apply (plain_healthy d); [done|by auto with flint]);
    try (apply (preserves_healthy d v); [done|]); try (by auto with flint).
  - pose proof (expand_volume_spec d v ceiling (Hh v) Hv) as Hs.
    destruct (expand_volume d v ceiling) as [[x d']|e]; [|done]. by destruct Hs as (? & ? & _).
  - pose proof (grant_spec (extent_row_budget env) d v f c lo len fresh_only (Hh v)) as Hs.
    destruct (grant _ d v f c lo len fresh_only) as [[x d']|e]; [|by apply Hs].
    split; by apply Hs.
  - pose proof (grant_read_spec d v f c lo len (Hh v)) as Hs.
    destruct (grant_read d v f c lo len) as [[x d']|e]; [|by apply Hs]. split; by apply Hs.
  - pose proof (layout_return_spec d v f c lo len (Hh v) ltac:(done) ltac:(done)) as Hs.
    destruct (layout_return d v f c lo len) as [[x d']|e]; [split; apply Hs|].
    by destruct Hs as [? ->].
  - destruct (release_quarantine_spec d v (Hh v)) as (d' & -> & Hm). split; apply Hm.
  - destruct (sweep_spec d v (Hh v)) as (d' & -> & Hm). split; apply Hm.
  - change (healthy (drop_volume d v).2). destruct (drop_volume d v) as [n d'] eqn:Hd.
    destruct (drop_volume_spec d v n d' Hd) as (? & _ & _ & ?).
    by apply (preserves_healthy d v (Ok d')).
Qed.

Lemma run_healthy ops : Forall valid_op ops -> healthy (run ops).
Proof.
  unfold run. assert (H0 : healthy empty_db) by (intros v; apply vol_inv_init).
  revert H0. generalize empty_db. induction ops as [|o ops IH]; intros d Hd Hv; [done|].
  apply Forall_cons in Hv as [Ho Hv]. simpl. apply IH; [|done].
  unfold apply_op. pose proof (exec_healthy d o Hd Ho). by destruct (exec d o).
Qed.
