(* ===== verification/ExtentClaims.v ===== *)
(** What the extent allocator guarantees, stated on the operations of
    extent_alloc.rs and on the databases they can reach, with a concrete run
    for each guarantee that has hypotheses. *)

From S2P Require Import Prelude Sql Tables ExtentVerify FreeList ExtentInv.
From S2P Require Import ExtentGrant ExtentMerge ExtentReturn Csv ExtentReclaim ExtentQuarantine.
From S2P Require Import Admission Composition ExtentSystem.

(** ** Concrete runs *)
Definition demo_ops : list op :=
  [ORegister "vol" 65536; OGrant None "vol" 1 7 0 8192 false; OCommit "vol" 1 7 0 8192;
   OGrant None "vol" 2 8 0 4096 false].
Definition demo : db := run demo_ops.

Ltac solve_valid := repeat constructor; vm_compute; congruence.

Lemma demo_valid : Forall valid_op demo_ops.
Proof. solve_valid. Qed.

Lemma demo_inv : vol_inv demo "vol".
Proof. apply run_healthy, demo_valid. Qed.

(** ** Reachable databases *)

(** C1: after any sequence of operations (failed ones rolled back) every
    volume passes the full verifier, and no further operation can fail with
    a detected corruption or a primary-key conflict. *)
Theorem system_never_corrupts ops o :
  Forall valid_op ops -> valid_op o ->
  (forall v, verify_volume_invariants_conn (run ops) v = Ok tt) /\
  forall e, exec (run ops) o = Err e -> refusal e.
Proof.
  intros Hops Ho. pose proof (run_healthy ops Hops) as Hh. split.
  - intros v. apply vol_inv_verifies, Hh.
  - intros e He. pose proof (exec_healthy _ o Hh Ho) as H. by rewrite He in H.
Qed.

Lemma system_never_corrupts_witness :
  (forall v, verify_volume_invariants_conn (run demo_ops) v = Ok tt) /\
  forall e, exec (run demo_ops) (OReclaim "vol" 2 0 4096 5) = Err e -> refusal e.
Proof. apply system_never_corrupts; [exact demo_valid|solve_valid]. Defined.

(** C5: no physical aliasing.  In a reachable database two file bytes stored
    at the same physical address of a volume are the same byte of the same
    file, and a mapped address is neither on the free list nor quarantined. *)
Theorem no_aliasing ops v f1 o1 s1 f2 o2 s2 p :
  Forall valid_op ops ->
  byte_at (run ops) v f1 o1 p s1 -> byte_at (run ops) v f2 o2 p s2 ->
  (f1, o1, s1) = (f2, o2, s2) /\ ~ free_at (extent_free (run ops)) v p /\ ~ quar_at (run ops) v p.
Proof.
  intros Hops B1 B2. pose proof (run_healthy ops Hops v) as [Hc _].
  pose proof (byte_owner _ _ _ _ _ _ B1) as A1.
  destruct B1 as (l1 & e1 & E1 & O1 & -> & ->), B2 as (l2 & e2 & E2 & O2 & Hp & ->).
  destruct (c_ext_uniq _ _ Hc (e_phys e1 + (o1 - l1)) f1 l1 e1 f2 l2 e2) as [<- <-];
    [split; [done|lia]..|].
  rewrite E1 in E2. simplify_eq. split_and!.
  - assert (o1 = o2) as -> by lia. done.
  - intros Hf. by apply (c_ext_free _ _ Hc _ A1).
  - intros Hq. by apply (c_ext_quar _ _ Hc _ A1).
Qed.

Lemma no_aliasing_witness :
  (1, 4096, StRw) = (1, 4096, StRw) /\ ~ free_at (extent_free (run demo_ops)) "vol" 4096 /\
  ~ quar_at (run demo_ops) "vol" 4096.
Proof.
  apply (no_aliasing demo_ops "vol" 1 4096 StRw 1 4096 StRw 4096);
    [exact demo_valid|..]; exists 0, (Extent 8192 0 1 StRw); vm_compute; split_and!; congruence.
Defined.

(** C33: space is conserved.  In a reachable database every physical byte of
    a volume is in at most one of the three homes (extents, free list,
    quarantine), and the bytes that are in one are exactly those below the
    arena's watermark. *)
Theorem space_conserved ops v q :
  Forall valid_op ops ->
  (ext_at (run ops) v q \/ free_at (extent_free (run ops)) v q \/ quar_at (run ops) v q <->
   exists a, volume_alloc (run ops) !! v = Some a /\ 0 <= q < next_free a) /\
  ~ (ext_at (run ops) v q /\ free_at (extent_free (run ops)) v q) /\
  ~ (ext_at (run ops) v q /\ quar_at (run ops) v q) /\
  ~ (free_at (extent_free (run ops)) v q /\ quar_at (run ops) v q).
Proof.
  intros Hops. pose proof (run_healthy ops Hops v) as [Hc _]. split_and!.
  - apply (c_tile _ _ Hc).
  - intros [? ?]. by apply (c_ext_free _ _ Hc q).
  - intros [? ?]. by apply (c_ext_quar _ _ Hc q).
  - intros [? ?]. by apply (c_free_quar _ _ Hc q).
Qed.

Lemma space_conserved_witness :
  (ext_at (run demo_ops) "vol" 12287 \/ free_at (extent_free (run demo_ops)) "vol" 12287 \/
   quar_at (run demo_ops) "vol" 12287 <->
   exists a, volume_alloc (run demo_ops) !! "vol" = Some a /\ 0 <= 12287 < next_free a) /\
  ~ (ext_at (run demo_ops) "vol" 12287 /\ free_at (extent_free (run demo_ops)) "vol" 12287) /\
  ~ (ext_at (run demo_ops) "vol" 12287 /\ quar_at (run demo_ops) "vol" 12287) /\
  ~ (free_at (extent_free (run demo_ops)) "vol" 12287 /\ quar_at (run demo_ops) "vol" 12287).
Proof. apply space_conserved. exact demo_valid. Defined.

(** C9: single writer.  In a reachable database at most one client holds an
    unfenced read-write grant over a byte of a file. *)
Theorem single_writer ops v f o l1 e1 c1 g1 l2 e2 c2 g2 :
  Forall valid_op ops ->
  extents (run ops) !! (v, f, l1) = Some e1 -> l1 <= o < l1 + e_len e1 ->
  extents (run ops) !! (v, f, l2) = Some e2 -> l2 <= o < l2 + e_len e2 ->
  extent_grants (run ops) !! (v, f, l1, c1) = Some g1 -> g_fenced g1 = false -> g_mode g1 = ModeRw ->
  extent_grants (run ops) !! (v, f, l2, c2) = Some g2 -> g_fenced g2 = false -> g_mode g2 = ModeRw ->
  c1 = c2.
Proof.
  intros Hops E1 O1 E2 O2 G1 F1 M1 G2 F2 M2. pose proof (run_healthy ops Hops v) as [Hc _].
  assert (l1 = l2) as <- by (by eapply row_of_byte).
  by apply (c_rw _ _ Hc f l1 c1 c2 g1 g2).
Qed.

Lemma single_writer_witness : 7 = 7.
Proof.
  apply (single_writer demo_ops "vol" 1 100 0 (Extent 8192 0 1 StRw) 7 (GrantRow ModeRw 1 false)
    0 (Extent 8192 0 1 StRw) 7 (GrantRow ModeRw 1 false));
    [exact demo_valid|..]; try reflexivity; vm_compute; split; congruence.
Defined.

(** ** Granting *)



(** Exclusion.  While another client holds an unfenced grant on a row
    overlapping the range, a write grant is refused with [Conflict], and
    that client is among the holders to recall. *)
Theorem grant_excludes budget d v file_id client_id lo len fresh c g l e :
  vol_inv d v -> is_u64 client_id -> client_id <= i64_max -> is_u64 lo -> 0 < len -> lo + len <= i64_max ->
  has_fenced_grant d v client_id = false ->
  extents d !! (v, wrap_i64 file_id, l) = Some e -> l < lo + len -> lo < l + e_len e ->
  extent_grants d !! (v, wrap_i64 file_id, l, c) = Some g -> g_fenced g = false -> c <> client_id ->
  exists hs, grant budget d v file_id client_id lo len fresh = Err (Conflict hs) /\ c ∈ hs.
Proof.
  intros [Hc _] Hu Hci [H0 _] Hl Hm Hfen He H1 H2 Hg Hf Hne.
  unfold grant. destruct (checked_end_valid lo len H0 Hl Hm) as [-> ->]. cbn.
  rewrite (proj2 (as_i64_Ok client_id _ client_id)) by done. cbn. rewrite Hfen. cbn.
  set (rows := overlapping_extents d v file_id lo (lo + len)).
  assert (Hin : c ∈ live_unfenced_holders d v file_id rows (Some client_id)).
  { pose proof (c_client _ _ Hc _ _ _ _ Hg). apply elem_of_holders. split; [congruence|].
    exists (row_of l e), c, g. split_and!; try done.
    - apply elem_of_overlapping. unfold row_end. simpl. rewrite He. destruct e. split; [simpl in *; lia|done].
    - symmetry. apply wrap_u64_id. bounds. }
  destruct (live_unfenced_holders _ _ _ _ _); [by apply elem_of_nil in Hin|]. cbn. eauto.
Qed.

Lemma grant_excludes_witness :
  exists hs, grant 65536 demo "vol" 1 9 0 4096 false = Err (Conflict hs) /\ 7 ∈ hs.
Proof.
  apply (grant_excludes 65536 demo "vol" 1 9 0 4096 false 7 (GrantRow ModeRw 1 false) 0
    (Extent 8192 0 1 StRw)); [exact demo_inv|..]; try reflexivity; vm_compute; try split; congruence.
Defined.

(** A fenced client is refused every new grant, read or write, on the
    volume until its fenced rows are gone. *)
Theorem fenced_client_refused budget d v file_id client_id lo len fresh f l g :
  client_id <= i64_max -> is_u64 lo -> 0 < len -> lo + len <= i64_max ->
  extent_grants d !! (v, f, l, client_id) = Some g -> g_fenced g = true ->
  grant budget d v file_id client_id lo len fresh = Err FencedClient /\
  grant_read d v file_id client_id lo len = Err FencedClient.
Proof.
  intros Hci [H0 _] Hl Hm Hg Hf.
  assert (has_fenced_grant d v client_id = true) as Hfen.
  { apply exists_where_true. exists (v, f, l, client_id), g. split; [done|]. simpl.
    by rewrite bool_decide_eq_true_2, Hf. }
  unfold grant, grant_read. destruct (checked_end_valid lo len H0 Hl Hm) as [-> ->]. cbn.
  rewrite (proj2 (as_i64_Ok client_id _ client_id)) by done. cbn. by rewrite Hfen.
Qed.

Definition fenced_demo : db := run (demo_ops ++ [OFence "vol" 7]).

Lemma fenced_client_refused_witness :
  grant 65536 fenced_demo "vol" 5 7 0 4096 false = Err FencedClient /\
  grant_read fenced_demo "vol" 5 7 0 4096 = Err FencedClient.
Proof.
  apply (fenced_client_refused 65536 fenced_demo "vol" 5 7 0 4096 false 1 0 (GrantRow ModeRw 1 true));
    try reflexivity; vm_compute; try split; congruence.
Defined.

(** ** Commit, return, fence, revoke *)

(** C21: LAYOUTCOMMIT succeeds exactly when something lies under the range
    and every row of it is authorised -- an unfenced grant, or after a return
    a commit-grace record, at the row's current generation -- and then it
    promotes exactly those rows and nothing else. *)
Theorem commit_exact d v file_id client_id lo len :
  vol_inv d v -> is_u64 lo -> 0 < len -> lo + len <= i64_max -> client_id <= i64_max ->
  match commit_extents d v file_id client_id lo len with
  | Ok (n, d') => commit_ok d v (wrap_i64 file_id) client_id lo (lo + len) /\
                  commit_post d d' v (wrap_i64 file_id) lo (lo + len)
  | Err e => (exists why, e = CommitRejected why) /\
             ~ commit_ok d v (wrap_i64 file_id) client_id lo (lo + len)
  end.
Proof. apply commit_extents_spec. Qed.

Lemma commit_exact_witness :
  match commit_extents demo "vol" 2 8 0 4096 with
  | Ok (n, d') => commit_ok demo "vol" (wrap_i64 2) 8 0 (0 + 4096) /\
                  commit_post demo d' "vol" (wrap_i64 2) 0 (0 + 4096)
  | Err e => (exists why, e = CommitRejected why) /\ ~ commit_ok demo "vol" (wrap_i64 2) 8 0 (0 + 4096)
  end.
Proof. apply commit_exact; [exact demo_inv|vm_compute; try split; congruence..]. Defined.

Lemma grant_authorises d d' v fid client lo end_ :
  grant_post d d' v fid client lo end_ -> lo < end_ -> commit_ok d' v fid client lo end_.
Proof.
  intros [Hi _ Hheld _ _ _] Hlt. split.
  - destruct (Hheld lo ltac:(lia)) as (l & e & g & He & Ho & _). exists l, e. split_and!; [done|lia..].
  - intros l x Hx H1 H2. destruct (c_ext _ _ (vi_core _ _ Hi) _ _ _ Hx) as (_ & _ & Hpos & _).
    destruct (Hheld (Z.max l lo) ltac:(lia)) as (l' & e & g & He & Ho & Hg & Hf & Hgen).
    assert (l = l') as <- by (apply (row_of_byte d' v fid (Z.max l lo) l x l' e); [apply Hi|done|done|lia|lia]).
    rewrite Hx in He. simplify_eq. unfold authorised. simpl. by rewrite Hg.
Qed.

(** Grant then commit.  After a successful write grant the client's
    commit of the same range succeeds, and every byte of the range is then
    mapped, committed and where the grant put it. *)
Theorem grant_then_commit budget d v file_id client_id lo len fresh gs d1 :
  vol_inv d v -> is_u64 file_id -> is_u64 client_id -> is_u64 lo -> is_u64 len ->
  grant budget d v file_id client_id lo len fresh = Ok (gs, d1) ->
  exists n d2, commit_extents d1 v file_id client_id lo len = Ok (n, d2) /\ vol_inv d2 v /\
    forall o, lo <= o < lo + len -> exists p st,
      byte_at d1 v (wrap_i64 file_id) o p st /\ byte_at d2 v (wrap_i64 file_id) o p StRw.
Proof.
  intros Hi Hf Hc Hlo Hlen Hg.
  pose proof (grant_spec budget d v file_id client_id lo len fresh Hi Hf Hc Hlo Hlen) as Hs.
  rewrite Hg in Hs. destruct Hs as [_ Hp].
  assert (Hargs : client_id <= i64_max /\ 0 < len /\ lo + len <= i64_max).
  { unfold grant in Hg. inv_res. apply checked_end_Ok in E0 as (? & ? & _); [|done..].
    by apply as_i64_Ok in E1 as [? _]. }
  destruct Hargs as (Hci & Hl & Hm).
  pose proof (commit_extents_spec d1 v file_id client_id lo len (gp_inv _ _ _ _ _ _ _ Hp) Hlo Hl Hm Hci) as Hcs.
  pose proof (grant_authorises _ _ _ _ _ _ _ Hp ltac:(lia)) as Hok.
  destruct (commit_extents d1 v file_id client_id lo len) as [[n d2]|e]; [|by destruct Hcs].
  destruct Hcs as [_ Hcp]. exists n, d2. split_and!; [done|apply Hcp|].
  intros o Ho. destruct (gp_held _ _ _ _ _ _ _ Hp o Ho) as (l & e & g & He & Hoe & _).
  exists (e_phys e + (o - l)), (e_state e). split; [by exists l, e|].
  exists l, (to_rw e). rewrite (cp_rows _ _ _ _ _ _ Hcp), He. simpl.
  rewrite bool_decide_eq_true_2; [done|]. split_and!; [done|lia..].
Qed.

Definition demo_granted : db := apply_op demo (OGrant None "vol" 3 9 0 4096 false).

Lemma grant_then_commit_witness :
  exists n d2, commit_extents demo_granted "vol" 3 9 0 4096 = Ok (n, d2) /\ vol_inv d2 "vol" /\
    forall o, 0 <= o < 0 + 4096 -> exists p st,
      byte_at demo_granted "vol" (wrap_i64 3) o p st /\ byte_at d2 "vol" (wrap_i64 3) o p StRw.
Proof.
  apply (grant_then_commit 65536 demo "vol" 3 9 0 4096 false [Granted 0 4096 12288 1 false false]);
    [exact demo_inv|vm_compute; split; congruence..|vm_compute; reflexivity].
Defined.

(** A fence shuts the control path.  After [fence_client] every commit
    of that client on that volume is rejected, whatever the range, including
    through commit-grace records of earlier returns; no extent moved and no
    other client's grant or grace changed. *)
Theorem fence_shuts_commit d v client :
  vol_inv d v -> client <= i64_max ->
  exists n d', fence_client d v client = Ok (n, d') /\ extents d' = extents d /\
    (forall file_id lo len, is_u64 lo -> 0 < len -> lo + len <= i64_max ->
       exists why, commit_extents d' v file_id client lo len = Err (CommitRejected why)) /\
    (forall k, k.2 <> client -> extent_grants d' !! k = extent_grants d !! k /\
       extent_commit_grace d' !! k = extent_commit_grace d !! k).
Proof.
  intros Hi Hc. destruct (fence_client_spec d v client Hi Hc) as (n & d' & Hrun & Hp).
  exists n, d'. split_and!; [done|apply Hp| |apply Hp].
  intros file_id lo len Hlo Hl Hm.
  pose proof (commit_extents_spec d' v file_id client lo len (fp_inv _ _ _ _ Hp) Hlo Hl Hm Hc) as Hs.
  destruct (commit_extents d' v file_id client lo len) as [[m d2]|e]; [|destruct Hs as [[why ->] _]; eauto].
  exfalso. destruct Hs as [[(l & x & Hx & H1 & H2) Hall] _]. specialize (Hall l x Hx H1 H2).
  unfold authorised in Hall. simpl in Hall.
  destruct (extent_grants d' !! _) as [g|] eqn:Hg.
  - apply (fp_fenced _ _ _ _ Hp) in Hg. destruct Hall. congruence.
  - destruct Hall as [(o & gen & Hgr & _) _]. by rewrite (fp_grace _ _ _ _ Hp) in Hgr.
Qed.

Lemma fence_shuts_commit_witness :
  exists n d', fence_client demo "vol" 7 = Ok (n, d') /\ extents d' = extents demo /\
    (forall file_id lo len, is_u64 lo -> 0 < len -> lo + len <= i64_max ->
       exists why, commit_extents d' "vol" file_id 7 lo len = Err (CommitRejected why)) /\
    (forall k, k.2 <> 7 -> extent_grants d' !! k = extent_grants demo !! k /\
       extent_commit_grace d' !! k = extent_commit_grace demo !! k).
Proof. apply fence_shuts_commit; [exact demo_inv|vm_compute; congruence]. Defined.

(** LAYOUTRETURN removes exactly the client's grant rows over the range
    (fenced ones too), leaves the generation of the unfenced ones behind for
    a later commit, and moves no byte of any file although it merges rows;
    it fails only on an invalid range. *)
Theorem layout_return_exact d v file_id client_id lo len :
  vol_inv d v -> is_u64 lo -> is_u64 len ->
  match layout_return d v file_id client_id lo len with
  | Ok (n, d') => return_post d d' v (wrap_i64 file_id) client_id lo (lo + len)
  | Err e => exists why, e = InvalidRange why
  end.
Proof. apply layout_return_spec. Qed.

Lemma layout_return_exact_witness :
  match layout_return demo "vol" 1 7 0 4096 with
  | Ok (n, d') => return_post demo d' "vol" (wrap_i64 1) 7 0 (0 + 4096)
  | Err e => exists why, e = InvalidRange why
  end.
Proof. apply layout_return_exact; [exact demo_inv|vm_compute; split; congruence..]. Defined.

(** Merging is invisible.  [merge_extents_window] always succeeds, keeps
    the invariant, keeps every byte of the volume at its physical address in
    its state, and leaves grants, free list, quarantine and every other table
    and volume alone. *)
Theorem merge_invisible d v fid s e :
  vol_inv d v -> is_i64 fid -> s <= e ->
  exists d' n, merge_extents_window d v fid s e = Ok (d', n) /\ merge_post d d' v /\ 0 <= n.
Proof. apply merge_window_spec. Qed.

Definition unmerged : db :=
  run [ORegister "vol" 65536; OGrant None "vol" 1 7 0 4096 false; OCommit "vol" 1 7 0 4096;
       OReturn "vol" 1 7 0 4096; OGrant None "vol" 1 7 4096 4096 false; OReturn "vol" 1 7 4096 4096;
       OCommit "vol" 1 7 4096 4096].

Lemma unmerged_inv : vol_inv unmerged "vol".
Proof. apply run_healthy. solve_valid. Qed.

Lemma merge_invisible_witness :
  exists d' n, merge_extents_window unmerged "vol" 1 0 8192 = Ok (d', n) /\ merge_post unmerged d' "vol" /\ 0 <= n.
Proof.
  apply merge_invisible; [exact unmerged_inv|vm_compute; split; congruence|vm_compute; congruence].
Defined.

(** The lease sweep's bulk return is gated on a confirmed fence: without
    one it refuses and changes nothing; with one it removes exactly the
    client's grant rows on the volume and moves no byte. *)
Theorem revoke_requires_delivery d v client :
  vol_inv d v -> client <= i64_max ->
  match revoke_client d v client with
  | Ok (n, d') => 0 < delivered_at d v client /\ revoke_post d d' v client
  | Err e => e = UnconfirmedFence /\ delivered_at d v client <= 0
  end.
Proof. apply revoke_client_spec. Qed.

Definition delivered_demo : db :=
  run (demo_ops ++ [OFence "vol" 7; OFenceRecord "vol" 7 100; ODelivered "vol" 7 101]).

Lemma delivered_demo_inv : vol_inv delivered_demo "vol".
Proof. apply run_healthy. solve_valid. Qed.

Lemma revoke_requires_delivery_witness :
  match revoke_client delivered_demo "vol" 7 with
  | Ok (n, d') => 0 < delivered_at delivered_demo "vol" 7 /\ revoke_post delivered_demo d' "vol" 7
  | Err e => e = UnconfirmedFence /\ delivered_at delivered_demo "vol" 7 <= 0
  end.
Proof. apply revoke_requires_delivery; [exact delivered_demo_inv|vm_compute; congruence]. Defined.

(** ** Reclaim and quarantine *)

(** The free transaction refuses exactly while a live unfenced grant
    overlaps the range; otherwise it unmaps exactly the bytes of the range --
    a row cut on either side keeps its other bytes at their original physical
    address -- and the invariant, every other file and every other volume
    stand. *)
Theorem reclaim_exact d v file_id lo len now :
  vol_inv d v -> is_u64 lo -> 0 < len -> lo + len <= i64_max ->
  match reclaim_complete d v file_id lo len now with
  | Ok (out, d') => ~ live_on d v (wrap_i64 file_id) lo (lo + len) /\
                    reclaim_post d d' v (wrap_i64 file_id) lo (lo + len)
  | Err e => live_on d v (wrap_i64 file_id) lo (lo + len) /\ exists hs, e = NotQuiescent hs /\ hs <> []
  end.
Proof. apply reclaim_complete_spec. Qed.

Lemma reclaim_exact_witness :
  match reclaim_complete delivered_demo "vol" 1 2048 4096 9 with
  | Ok (out, d') => ~ live_on delivered_demo "vol" (wrap_i64 1) 2048 (2048 + 4096) /\
                    reclaim_post delivered_demo d' "vol" (wrap_i64 1) 2048 (2048 + 4096)
  | Err e => live_on delivered_demo "vol" (wrap_i64 1) 2048 (2048 + 4096) /\
             exists hs, e = NotQuiescent hs /\ hs <> []
  end.
Proof. apply reclaim_exact; [exact delivered_demo_inv|vm_compute; try split; congruence..]. Defined.

(** Freeing requires delivery, within one transaction.  When a reclaim
    succeeds, a byte it unmaps from a row that still carries a fenced grant
    whose fence is not confirmed is quarantined and not on the free list;
    every other unmapped byte is on the free list and not quarantined. *)
Theorem free_requires_delivered d v file_id lo len now out d' l x o :
  vol_inv d v -> is_u64 lo -> 0 < len -> lo + len <= i64_max ->
  reclaim_complete d v file_id lo len now = Ok (out, d') ->
  extents d !! (v, wrap_i64 file_id, l) = Some x -> l <= o < l + e_len x -> lo <= o < lo + len ->
  let q := e_phys x + (o - l) in
  (unconfirmed d v (wrap_i64 file_id) l -> quar_at d' v q /\ ~ free_at (extent_free d') v q) /\
  (~ unconfirmed d v (wrap_i64 file_id) l -> free_at (extent_free d') v q /\ ~ quar_at d' v q).
Proof.
  intros Hi Hlo Hl Hm Hrun Hx Ho Hr q.
  pose proof (reclaim_complete_spec d v file_id lo len now Hi Hlo Hl Hm) as Hs. rewrite Hrun in Hs.
  destruct Hs as [_ Hp]. destruct (rc_moved _ _ _ _ _ _ Hp l x o Hx Ho Hr) as [Hq Hf].
  pose proof (c_free_quar _ _ (vi_core _ _ (rc_inv _ _ _ _ _ _ Hp)) q) as Hex.
  split; intros Hu; (split; [auto|intros ?; apply Hex; auto]).
Qed.

Definition parked_demo : db := run (demo_ops ++ [OFence "vol" 7; OReclaim "vol" 1 0 8192 9]).

Lemma fenced_demo_inv : vol_inv fenced_demo "vol".
Proof. apply run_healthy. solve_valid. Qed.
Lemma parked_demo_inv : vol_inv parked_demo "vol".
Proof. apply run_healthy. solve_valid. Qed.

Lemma free_requires_delivered_witness :
  let q := 0 + (100 - 0) in
  (unconfirmed fenced_demo "vol" (wrap_i64 1) 0 ->
     quar_at parked_demo "vol" q /\ ~ free_at (extent_free parked_demo) "vol" q) /\
  (~ unconfirmed fenced_demo "vol" (wrap_i64 1) 0 ->
     free_at (extent_free parked_demo) "vol" q /\ ~ quar_at parked_demo "vol" q).
Proof.
  apply (free_requires_delivered fenced_demo "vol" 1 0 8192 9 (Outcome 0 0 1 8192) parked_demo 0
    (Extent 8192 0 1 StRw) 100); 
    [exact fenced_demo_inv|vm_compute; split; congruence|vm_compute; congruence|vm_compute; congruence
    |vm_compute; reflexivity|vm_compute; reflexivity|vm_compute; split; congruence..].
Defined.

(** The quarantine sweep releases a range parked under a list of client
    ids exactly when every one of those clients' fences is confirmed; it
    always succeeds, and touches neither extents nor grants. *)
Theorem sweep_exact d v :
  vol_inv d v ->
  exists n b d', sweep_quarantine_delivered d v = Ok (n, b, d') /\ vol_inv d' v /\
    extents d' = extents d /\ extent_grants d' = extent_grants d /\
    forall po r c cs, extent_quarantine d !! (v, po) = Some r -> q_clients r = csv_of (c :: cs) ->
      Forall is_i64 (c :: cs) ->
      (extent_quarantine d' !! (v, po) = None <-> forall x, x ∈ c :: cs -> 0 < delivered_at d v x).
Proof.
  intros Hi. destruct (sweep_spec d v Hi) as (d' & Hrun & Hm).
  eexists _, _, d'. split_and!; [exact Hrun|apply Hm..|].
  intros po r c cs Hr Hcsv Hcs. rewrite <- (releasable_csv d v c cs Hcs), <- Hcsv.
  assert (Hsw : (po, r) ∈ swept d v <-> releasable d v (q_clients r) = true).
  { unfold swept. rewrite list_elem_of_filter, elem_of_quar_rows. simpl. tauto. }
  rewrite <- Hsw. destruct (decide ((po, r) ∈ swept d v)) as [Hin|Hout].
  - split; [done|]. intros _. destruct (extent_quarantine d' !! (v, po)) as [x|] eqn:Hx; [|done].
    apply (mv_quar _ _ _ _ Hm) in Hx as [Hx Hn]. rewrite Hr in Hx. simplify_eq. done.
  - split; [|done]. intros Hnone.
    assert (extent_quarantine d' !! (v, po) = Some r) by (by apply (mv_quar _ _ _ _ Hm)). congruence.
Qed.

Lemma sweep_exact_witness :
  exists n b d', sweep_quarantine_delivered parked_demo "vol" = Ok (n, b, d') /\ vol_inv d' "vol" /\
    extents d' = extents parked_demo /\ extent_grants d' = extent_grants parked_demo /\
    forall po r c cs, extent_quarantine parked_demo !! ("vol", po) = Some r ->
      q_clients r = csv_of (c :: cs) -> Forall is_i64 (c :: cs) ->
      (extent_quarantine d' !! ("vol", po) = None <->
       forall x, x ∈ c :: cs -> 0 < delivered_at parked_demo "vol" x).
Proof.
  apply sweep_exact. exact parked_demo_inv.
Defined.

(** The operator lever frees the volume's whole quarantine, reports its
    bytes, and passes the full verifier it runs. *)
Theorem release_all d v :
  vol_inv d v ->
  exists d', release_quarantine d v = Ok ((quarantine_stats d v).2, d') /\ vol_inv d' v /\
    (forall q, ~ quar_at d' v q) /\
    (forall q, free_at (extent_free d') v q <-> free_at (extent_free d) v q \/ quar_at d v q).
Proof.
  intros Hi. destruct (release_quarantine_spec d v Hi) as (d' & Hrun & Hm). exists d'.
  split_and!; [exact Hrun|apply Hm|..].
  - intros q (po & r & Hr & _). apply (mv_quar _ _ _ _ Hm) in Hr as [Hr Hn].
    by apply Hn, elem_of_quar_rows.
  - intros q. rewrite (mv_free _ _ _ _ Hm). unfold in_ranges, quar_at, quar_owner.
    by setoid_rewrite elem_of_quar_rows.
Qed.

Lemma release_all_witness :
  exists d', release_quarantine parked_demo "vol" = Ok ((quarantine_stats parked_demo "vol").2, d') /\
    vol_inv d' "vol" /\ (forall q, ~ quar_at d' "vol" q) /\
    (forall q, free_at (extent_free d') "vol" q <->
       free_at (extent_free parked_demo) "vol" q \/ quar_at parked_demo "vol" q).
Proof.
  apply release_all. exact parked_demo_inv.
Defined.

(** DeleteVolume leaves a volume with no arena, no extents and the
    invariant, and touches no other volume's extents, grants, free list,
    quarantine or arena. *)
Theorem drop_volume_clean d v n d' :
  drop_volume d v = (n, d') ->
  vol_inv d' v /\ volume_alloc d' !! v = None /\ (forall q, ~ ext_at d' v q) /\
  (forall w, w <> v -> same_volume d d' w).
Proof. apply drop_volume_spec. Qed.

Lemma drop_volume_clean_witness :
  vol_inv (drop_volume demo "vol").2 "vol" /\ volume_alloc (drop_volume demo "vol").2 !! "vol" = None /\
  (forall q, ~ ext_at (drop_volume demo "vol").2 "vol" q) /\
  (forall w, w <> "vol" -> same_volume demo (drop_volume demo "vol").2 w).
Proof. apply (drop_volume_clean demo "vol" 5). vm_compute. reflexivity. Defined.

(** The free list's insert succeeds on any range disjoint from it, keeps
    the list in normal form (positive, disjoint, never adjacent rows), frees
    exactly the new bytes, touches no other volume, and never lowers the
    generation remembered for a byte -- which is what makes reuse bump it. *)
Theorem free_insert_exact F v po len g :
  pending F v po len ->
  exists F', free_insert_coalescing F v po len g = Ok F' /\ free_ok F' v /\
    (forall q, free_at F' v q <-> free_at F v q \/ po <= q < po + len) /\
    (forall q gq, free_gen F v q gq \/ (po <= q < po + len /\ gq <= g) -> free_gen F' v q gq) /\
    (forall k, k.1 <> v -> F' !! k = F !! k).
Proof. apply free_insert_spec. Qed.

Definition demo_free : free_table := {[ ("vol", 0) := FreeRow 4096 3; ("vol", 8192) := FreeRow 4096 1 ]}.

Lemma demo_free_row po r : demo_free !! ("vol", po) = Some r ->
  (po = 0 /\ r = FreeRow 4096 3) \/ (po = 8192 /\ r = FreeRow 4096 1).
Proof.
  unfold demo_free. rewrite lookup_insert_Some, lookup_singleton_Some.
  intros [[[= <-] <-]|[_ [[= <-] <-]]]; auto.
Qed.

Lemma free_insert_exact_witness :
  exists F', free_insert_coalescing demo_free "vol" 4096 4096 2 = Ok F' /\ free_ok F' "vol" /\
    (forall q, free_at F' "vol" q <-> free_at demo_free "vol" q \/ 4096 <= q < 4096 + 4096) /\
    (forall q gq, free_gen demo_free "vol" q gq \/ (4096 <= q < 4096 + 4096 /\ gq <= 2) ->
       free_gen F' "vol" q gq) /\
    (forall k, k.1 <> "vol" -> F' !! k = demo_free !! k).
Proof.
  apply free_insert_exact. split; [split|lia|].
  - intros po r [[-> ->]|[-> ->]]%demo_free_row; simpl; lia.
  - intros p1 p2 r1 r2 [[-> ->]|[-> ->]]%demo_free_row [[-> ->]|[-> ->]]%demo_free_row; simpl; lia.
  - intros po r [[-> ->]|[-> ->]]%demo_free_row; simpl; lia.
Defined.

(** The CSV of client ids round-trips: the fields read back from what
    the quarantine branch writes parse to exactly the ids written. *)
Theorem csv_clients_round_trip l :
  Forall is_i64 l -> (fun f => parse_i64 (trim f)) <$> csv_fields (csv_of l) = Some <$> l.
Proof.
  intros Hl. rewrite csv_round_trip. induction Hl as [|n l Hn Hl IH]; [done|].
  rewrite !fmap_cons, parse_field, IH by done. done.
Qed.

Lemma csv_clients_round_trip_witness :
  (fun f => parse_i64 (trim f)) <$> csv_fields (csv_of [7; -1; i64_max]) = Some <$> [7; -1; i64_max].
Proof. apply csv_clients_round_trip. repeat constructor; vm_compute; congruence. Defined.

(** C39: the full verifier accepts a volume exactly when its tables are
    logically disjoint per file, physically disjoint across extents, free
    list and quarantine, below the watermark and ceiling, with an exact row
    counter and with every grant row on a live extent at its generation --
    the adjacent-pair scans of two sorted lists decide the all-pairs
    property.  The rows have positive lengths and ends that an i64 holds: the
    scans' sums wrap, and past that end they miss a bad row (see
    [verifier_accepts_wrapped_range]). *)
Theorem verify_volume_invariants_correct d v :
  ext_wf d v -> homes_wf d v ->
  verify_volume_invariants_conn d v = Ok tt <-> verified d v.
Proof. apply verify_iff. Qed.

Lemma verify_volume_invariants_correct_witness :
  verify_volume_invariants_conn demo "vol" = Ok tt <-> verified demo "vol".
Proof.
  apply verify_volume_invariants_correct; [apply demo_inv|apply core_homes_wf, demo_inv].
Defined.

(** Expansion only grows: the ceiling becomes the larger of the two,
    the watermark and every extent stay, and the reported ceiling is the one
    stored. *)
Theorem expand_only_grows d v new_ceiling :
  vol_inv d v -> is_u64 new_ceiling ->
  match expand_volume d v new_ceiling with
  | Ok (c, d') => vol_inv d' v /\ (forall w, w <> v -> same_volume d d' w) /\
      (exists a a', volume_alloc d !! v = Some a /\ volume_alloc d' !! v = Some a' /\
         size_ceiling a' = Z.max (size_ceiling a) new_ceiling /\ next_free a' = next_free a /\
         c = size_ceiling a') /\ extents d' = extents d
  | Err e => refusal e
  end.
Proof. apply expand_volume_spec. Qed.

Lemma expand_only_grows_witness :
  match expand_volume demo "vol" 131072 with
  | Ok (c, d') => vol_inv d' "vol" /\ (forall w, w <> "vol" -> same_volume demo d' w) /\
      (exists a a', volume_alloc demo !! "vol" = Some a /\ volume_alloc d' !! "vol" = Some a' /\
         size_ceiling a' = Z.max (size_ceiling a) 131072 /\ next_free a' = next_free a /\
         c = size_ceiling a') /\ extents d' = extents demo
  | Err e => refusal e
  end.
Proof. apply expand_only_grows; [exact demo_inv|vm_compute; split; congruence]. Defined.

(** ** Admission and composition *)

(** Durable eviction.  Once a client whose node no other client shares
    is fenced and evicted, no later attach, detach, admission of other nodes,
    eviction, fence or delivery mark puts its node back on the volume's
    allow-list. *)
Theorem eviction_is_durable d v client now d1 nqn h d2 :
  is_u64 client -> block_hosts d !! (v, client) = Some h -> fenced_clients d !! (v, client) = None ->
  (forall c h', block_hosts d !! (v, c) = Some h' -> h_nqn h' = h_nqn h -> c = client) ->
  fence_record d v client now = Ok (nqn, d1) ->
  rtc (adm_step v nqn) (host_evict d1 v client).2 d2 ->
  nqn = h_nqn h /\ nqn ∉ hosts_for_volume d2 v /\
  forall node t, node_attach d2 v nqn node t = Err FencedClient.
Proof.
  intros Hu Hh Hnf Huniq Hf Hst.
  destruct (fence_evict_evicted d v client now d1 nqn h Hu Hh Hnf Huniq Hf) as [-> Hev].
  assert (He : evicted v (h_nqn h) d2).
  { revert Hev. induction Hst as [|x y z Hxy _ IH]; [done|]. intros Hx. by apply IH, (evicted_step _ _ x). }
  destruct He as [Hn Ha]. split_and!; [done| |].
  - unfold hosts_for_volume. by rewrite elem_of_hosts.
  - intros node t. pose proof (node_attach_spec d2 v (h_nqn h) node t) as Hs.
    destruct (node_attach d2 v (h_nqn h) node t) as [[? ?]|e]; [by destruct Hs|by destruct Hs as [_ ->]].
Qed.

Definition admitted_demo : db := apply_op demo (OAdmit "vol" 7 "nqn.host-a" 5).
Definition fence_record_demo : db := apply_op admitted_demo (OFenceRecord "vol" 7 6).

Lemma eviction_is_durable_witness :
  "nqn.host-a"%string = h_nqn (HostRow "nqn.host-a" 5) /\
  "nqn.host-a"%string ∉ hosts_for_volume (host_evict fence_record_demo "vol" 7).2 "vol" /\
  forall node t, node_attach (host_evict fence_record_demo "vol" 7).2 "vol" "nqn.host-a" node t = Err FencedClient.
Proof.
  apply (eviction_is_durable admitted_demo "vol" 7 6 fence_record_demo "nqn.host-a" (HostRow "nqn.host-a" 5));
    [vm_compute; split; congruence|vm_compute; reflexivity|vm_compute; reflexivity| |vm_compute; reflexivity
    |apply rtc_refl].
  assert (block_hosts admitted_demo = {[ ("vol", 7) := HostRow "nqn.host-a" 5 ]}) as -> by (vm_compute; reflexivity).
  intros c h' [[= <-] <-]%lookup_singleton_Some _. reflexivity.
Defined.

(** Promotion is a compare-and-swap.  It succeeds exactly when the seat
    is the one the caller read, the candidate is another registered target
    and its leg is marked in sync; it then moves the seat to the candidate at
    the next epoch and changes nothing else, the old lease included. *)
Theorem promote_is_cas d v epoch composer candidate now seat d' :
  promote_volume d v epoch composer candidate now = Ok (seat, d') <->
  may_promote d v epoch composer candidate /\
  seat = Seat v (wrap_i64 (epoch + 1)) candidate now /\
  d' = set_seats (<[v := SeatRow (epoch + 1) candidate now]> (block_volume_target d)) d.
Proof. apply promote_Ok. Qed.

(** Of two promotions that read the same seat at most one succeeds: after
    the first, the second is refused as raced, and the deposed composer's
    lease renewal is refused however healthy it is. *)
Theorem promotion_race d v epoch composer candidate now seat d' cand2 now2 exp :
  promote_volume d v epoch composer candidate now = Ok (seat, d') ->
  promote_volume d' v epoch composer cand2 now2 = Err (PromotionRaced (epoch + 1) candidate) /\
  lease_renew d' v composer exp = Err (LeaseRefused NotComposer).
Proof.
  intros ([_ Hne _ _] & _ & ->)%promote_Ok. unfold promote_volume, lease_renew. simpl.
  rewrite lookup_insert_eq. simpl. split.
  - rewrite (proj2 (Z.eqb_neq (epoch + 1) epoch)) by lia. done.
  - by rewrite bool_decide_eq_false_2.
Qed.

Definition seated_demo : db :=
  run [OTarget "t1" "10.0.0.1" 4420 1; OTarget "t2" "10.0.0.2" 4420 1; OSeat "vol" "t1" 2 30;
       OLegMark "vol" "t2" LEG_INSYNC 3].

Lemma promotion_race_witness :
  promote_volume (apply_op seated_demo (OPromote "vol" 1 "t1" "t2" 9)) "vol" 1 "t1" "t2" 10 =
    Err (PromotionRaced (1 + 1) "t2") /\
  lease_renew (apply_op seated_demo (OPromote "vol" 1 "t1" "t2" 9)) "vol" "t1" 99 = Err (LeaseRefused NotComposer).
Proof.
  apply (promotion_race seated_demo "vol" 1 "t1" "t2" 9 (Seat "vol" 2 "t2" 9)). vm_compute. reflexivity.
Defined.

(** Along any sequence of composition operations a standing seat's epoch
    never goes back, and its composer changes only together with its epoch. *)
Theorem epochs_monotone d d' v s :
  rtc comp_step d d' -> block_volume_target d !! v = Some s ->
  exists s', block_volume_target d' !! v = Some s' /\ s_epoch s <= s_epoch s' /\
    (s_epoch s = s_epoch s' -> s_composer s' = s_composer s).
Proof.
  intros Hst Hs. destruct (comp_steps_seat _ _ _ _ Hst Hs) as (s' & Hs' & Hle & Heq).
  exists s'. split_and!; [done|done|]. intros He. by rewrite (Heq He).
Qed.

Lemma epochs_monotone_witness :
  exists s', block_volume_target (apply_op seated_demo (OPromote "vol" 1 "t1" "t2" 9)) !! "vol" = Some s' /\
    1 <= s_epoch s' /\ (1 = s_epoch s' -> s_composer s' = "t1"%string).
Proof.
  apply (epochs_monotone seated_demo _ "vol" (SeatRow 1 "t1" 2)); [|vm_compute; reflexivity].
  apply rtc_once, (CS_promote _ "vol" 1 "t1" "t2" 9 (Seat "vol" 2 "t2" 9)). vm_compute. reflexivity.
Defined.

(** A lease is renewed only for the composer of record that already
    holds the lease of the current epoch, and only its expiry moves. *)
Theorem renewal_is_record_conditioned d v holder exp l d' :
  lease_renew d v holder exp = Ok (l, d') ->
  exists s r, block_volume_target d !! v = Some s /\ s_composer s = holder /\
    block_leases d !! v = Some r /\ ls_epoch r = s_epoch s /\ ls_holder r = holder /\
    d' = set_leases (<[v := LeaseRow (s_epoch s) holder exp]> (block_leases d)) d.
Proof. apply lease_renew_Ok. Qed.

Lemma renewal_is_record_conditioned_witness :
  exists s r, block_volume_target seated_demo !! "vol" = Some s /\ s_composer s = "t1"%string /\
    block_leases seated_demo !! "vol" = Some r /\ ls_epoch r = s_epoch s /\ ls_holder r = "t1"%string /\
    apply_op seated_demo (OLeaseRenew "vol" "t1" 60) =
      set_leases (<["vol"%string := LeaseRow (s_epoch s) "t1" 60]> (block_leases seated_demo)) seated_demo.
Proof.
  apply (renewal_is_record_conditioned seated_demo "vol" "t1" 60 (Lease "vol" 1 "t1" 60)).
  vm_compute. reflexivity.
Defined.
