(* ===== verification/Findings.v ===== *)
(** Runs of the allocator on which the code departs from what its own
    comments promise.  Each is a closed evaluation of the operations. *)

From S2P Require Import Prelude Sql Tables ExtentVerify FreeList ExtentInv.
From S2P Require Import ExtentGrant ExtentMerge ExtentReturn Csv ExtentReclaim ExtentQuarantine.
From S2P Require Import Admission Composition ExtentSystem.

(** A client is granted two blocks and fenced; the fence is never delivered. *)
Definition fenced_writer : db :=
  run [ORegister "vol" 65536; OGrant None "vol" 1 7 0 8192 false; OFence "vol" 7].

(** Reclaiming the second block quarantines it, but deletes the fenced grant
    row that the surviving first block still depends on; reclaiming the first
    block then sends it to the free list although the fence over it was never
    confirmed, and the next writer is given its bytes. *)
Theorem two_step_reclaim_frees_unconfirmed :
  let d1 := apply_op fenced_writer (OReclaim "vol" 1 4096 4096 5) in
  let d2 := apply_op d1 (OReclaim "vol" 1 0 4096 6) in
  delivered_at d2 "vol" 7 = 0 /\
  extent_grants fenced_writer !! ("vol", 1, 0, 7) = Some (GrantRow ModeRw 1 true) /\
  extent_quarantine d1 !! ("vol", 4096) = Some (QuarRow 4096 1 "7" 5) /\
  extent_free d2 !! ("vol", 0) = Some (FreeRow 4096 1) /\
  match grant 65536 d2 "vol" 2 8 0 4096 false with
  | Ok (gs, _) => ge_physical_offset <$> gs = [0]
  | Err _ => False
  end.
Proof. vm_compute. done. Qed.

(** Reclaiming both blocks at once quarantines both. *)
Theorem one_step_reclaim_quarantines :
  let d := apply_op fenced_writer (OReclaim "vol" 1 0 8192 5) in
  extent_quarantine d !! ("vol", 0) = Some (QuarRow 8192 1 "7" 5) /\ extent_free d = ∅.
Proof. vm_compute. done. Qed.

(** Rows of one file that are adjacent both ways but of different
    generations: the first block reuses freed bytes (generation 2), the second
    is fresh (generation 1). *)
Definition mixed_generations : db :=
  run [ORegister "vol" 65536; OGrant None "vol" 9 7 0 4096 false; OReturn "vol" 9 7 0 4096;
       OReclaim "vol" 9 0 4096 5; OGrant None "vol" 1 7 0 4096 false; OGrant None "vol" 1 7 4096 4096 false].

(** Committing before returning works; returning first merges the two rows
    at the larger generation, and the writer's commit -- whole or of either
    half -- is then rejected, so its bytes stay provisional. *)
Theorem return_then_commit_rejected :
  let returned := apply_op mixed_generations (OReturn "vol" 1 7 0 8192) in
  (match commit_extents mixed_generations "vol" 1 7 0 8192 with Ok (n, _) => n = 2 | Err _ => False end) /\
  commit_extents returned "vol" 1 7 0 8192 = Err (CommitRejected "no grant for this client") /\
  commit_extents returned "vol" 1 7 0 4096 = Err (CommitRejected "no grant for this client") /\
  extents returned !! ("vol", 1, 0) = Some (Extent 8192 0 2 StInvalid).
Proof. vm_compute. done. Qed.

(** DeleteVolume leaves the commit-grace rows: a client of the deleted volume
    that holds nothing on the re-created one of the same name commits -- that
    is, publishes as readable -- an extent granted to somebody else. *)
Theorem drop_volume_leaves_commit_grace :
  let old := run [ORegister "vol" 65536; OGrant None "vol" 1 7 0 4096 false; OReturn "vol" 1 7 0 4096] in
  let new := apply_op (apply_op (apply_op old (ODrop "vol")) (ORegister "vol" 65536))
               (OGrant None "vol" 1 8 0 4096 false) in
  extent_commit_grace (apply_op old (ODrop "vol")) !! ("vol", 1, 0, 7) = Some 1 /\
  extent_grants new !! ("vol", 1, 0, 7) = None /\
  match commit_extents new "vol" 1 7 0 4096 with
  | Ok (n, d) => n = 1 /\ extents d !! ("vol", 1, 0) = Some (Extent 4096 0 1 StRw)
  | Err _ => False
  end.
Proof. vm_compute. done. Qed.

(** The verifier's sums wrap: a row whose physical range runs past the end of
    the 64-bit addresses is accepted, although it lies beyond the watermark. *)
Definition wild_row : db :=
  let d := run [ORegister "vol" 65536; OGrant None "vol" 1 7 0 4096 false] in
  set_extents (<[("vol", 1, 0) := Extent 4096 (i64_max - 100) 1 StInvalid]> (extents d)) d.
Theorem verifier_accepts_wrapped_range :
  verify_volume_invariants_conn wild_row "vol" = Ok tt /\
  match volume_alloc wild_row !! "vol" with Some a => next_free a < i64_max - 100 + 4096 | None => False end.
Proof. vm_compute. done. Qed.
