(* ===== verification/Xdr.v ===== *)
(** XDR encoding and decoding (nfs/xdr.rs): the encoder appends to a byte
    buffer, the decoder consumes one.  A byte is a [Z] in 0..255. *)

From S2P Require Import Prelude.

Definition bytes := list Z.
Definition is_byte (b : Z) : Prop := 0 <= b < 256.

(** ** Big-endian integers (bytes::BufMut::put_u32 / put_u64 and Buf::get) *)
Fixpoint put_be (n : nat) (x : Z) : bytes :=
  match n with
  | O => []
  | S n => Z.land (Z.shiftr x (8 * Z.of_nat n)) 255 :: put_be n x
  end.
Definition get_be (l : bytes) : Z := foldl (fun acc b => Z.lor (Z.shiftl acc 8) b) 0 l.

(** ** The encoder: each operation appends to [buf] *)
Definition encode_u32 (buf : bytes) (val : Z) : bytes := buf ++ put_be 4 val.
Definition encode_u64 (buf : bytes) (val : Z) : bytes := buf ++ put_be 8 val.
Definition encode_bool (buf : bytes) (val : bool) : bytes := encode_u32 buf (if val then 1 else 0).

Definition encode_opaque (buf data : bytes) : bytes :=
  let len := wrap_u32 (Z.of_nat (length data)) in
  let padding := (4 - len mod 4) mod 4 in
  encode_u32 buf len ++ data ++ replicate (Z.to_nat padding) 0.

Definition encode_string (buf : bytes) (s : bytes) : bytes := encode_opaque buf s.

Definition encode_fixed_opaque (buf data : bytes) : bytes :=
  let padding := (4 - Z.of_nat (length data) mod 4) mod 4 in
  buf ++ data ++ replicate (Z.to_nat padding) 0.

Definition encode_option {T} (buf : bytes) (opt : option T) (encode_fn : bytes -> T -> bytes) : bytes :=
  match opt with
  | Some val => encode_fn (encode_bool buf true) val
  | None => encode_bool buf false
  end.

Definition encode_array {T} (buf : bytes) (items : list T) (encode_fn : bytes -> T -> bytes) : bytes :=
  foldl encode_fn (encode_u32 buf (wrap_u32 (Z.of_nat (length items)))) items.

Definition append_raw (buf data : bytes) : bytes := buf ++ data.
Definition append_bytes (buf data : bytes) : bytes := buf ++ data.

(** ** The decoder: a value and the bytes left *)
Inductive xdr_error :=
| NotEnough (what : string) (need have : Z)
| BadUtf8
| ArrayTooLong (count ceiling : Z).

Abbreviation xres := (result xdr_error).
Definition decoder (T : Type) := bytes -> xres (T * bytes).

Definition remaining (buf : bytes) : Z := Z.of_nat (length buf).

Definition decode_u32 : decoder Z := fun buf =>
  if remaining buf <? 4 then Err (NotEnough "u32" 4 (remaining buf))
  else Ok (get_be (take 4 buf), drop 4 buf).
Definition decode_u64 : decoder Z := fun buf =>
  if remaining buf <? 8 then Err (NotEnough "u64" 8 (remaining buf))
  else Ok (get_be (take 8 buf), drop 8 buf).
Definition decode_bool : decoder bool := fun buf =>
  '(val, buf) ← decode_u32 buf; Ok (negb (val =? 0), buf).

(** [(len + 3) & !3] on usize. *)
Definition padded (len : Z) : Z := Z.land (len + 3) (u64_max - 3).

Definition take_padded (what : string) (len : Z) : decoder bytes := fun buf =>
  let padded_len := padded len in
  if remaining buf <? padded_len then Err (NotEnough what padded_len (remaining buf))
  else Ok (take (Z.to_nat len) buf, drop (Z.to_nat padded_len) buf).

Definition decode_opaque : decoder bytes := fun buf =>
  '(len, buf) ← decode_u32 buf; take_padded "opaque" len buf.
Definition decode_fixed_opaque (len : Z) : decoder bytes := take_padded "fixed opaque" len.

(** String::from_utf8: well-formed byte sequences (Unicode table 3-7). *)
Definition cont (lo hi b : Z) : bool := (lo <=? b) && (b <=? hi).
Fixpoint utf8_valid (l : bytes) : bool :=
  match l with
  | [] => true
  | a :: l1 =>
      if a <? 128 then utf8_valid l1
      else match l1 with
      | [] => false
      | b :: l2 =>
          if cont 194 223 a then cont 128 191 b && utf8_valid l2
          else match l2 with
          | [] => false
          | c :: l3 =>
              if cont 224 239 a then
                cont (if a =? 224 then 160 else 128) (if a =? 237 then 159 else 191) b &&
                cont 128 191 c && utf8_valid l3
              else match l3 with
              | [] => false
              | d :: l4 =>
                  cont 240 244 a &&
                  cont (if a =? 240 then 144 else 128) (if a =? 244 then 143 else 191) b &&
                  cont 128 191 c && cont 128 191 d && utf8_valid l4
              end
          end
      end
  end.

Definition decode_string : decoder bytes := fun buf =>
  '(s, buf) ← decode_opaque buf;
  fail_if (negb (utf8_valid s)) BadUtf8 ≫= fun _ => Ok (s, buf).

Definition decode_option {T} (decode_fn : decoder T) : decoder (option T) := fun buf =>
  '(present, buf) ← decode_bool buf;
  if present : bool then '(x, buf) ← decode_fn buf; Ok (Some x, buf) else Ok (None, buf).

Definition checked_array_len (count rem min_elem_bytes : Z) : xres Z :=
  let ceiling := rem / Z.max min_elem_bytes 1 in
  if count >? ceiling then Err (ArrayTooLong count ceiling) else Ok count.

Fixpoint decode_n {T} (decode_fn : decoder T) (n : nat) : decoder (list T) := fun buf =>
  match n with
  | O => Ok ([], buf)
  | S n => '(x, buf) ← decode_fn buf; '(xs, buf) ← decode_n decode_fn n buf; Ok (x :: xs, buf)
  end.

Definition decode_array {T} (decode_fn : decoder T) : decoder (list T) := fun buf =>
  '(count, buf) ← decode_u32 buf;
  count ← checked_array_len count (remaining buf) 4;
  decode_n decode_fn (Z.to_nat count) buf.

(** ** Integers *)
Lemma put_be_length n x : length (put_be n x) = n.
Proof. induction n; simpl; congruence. Qed.

Lemma put_be_bytes n x : Forall is_byte (put_be n x).
Proof.
  induction n as [|n IH]; constructor; [|done]. unfold is_byte.
  change 255 with (Z.ones 8). rewrite Z.land_ones by lia. apply Z.mod_pos_bound. lia.
Qed.

Lemma shift_in acc b : is_byte b -> Z.lor (Z.shiftl acc 8) b = acc * 256 + b.
Proof.
  intros Hb. unfold is_byte in Hb. pose proof (Z.add_lor_land (Z.shiftl acc 8) b) as Hsum.
  assert (Z.land (Z.shiftl acc 8) b = 0) as Hland.
  { apply Z.bits_inj'. intros i Hi. rewrite Z.land_spec, Z.bits_0.
    destruct (Z.lt_ge_cases i 8); [by rewrite Z.shiftl_spec_low|].
    rewrite <- (Z.mod_small b (2 ^ 8)), Z.mod_pow2_bits_high by lia. apply andb_false_r. }
  rewrite Hland, (Z.shiftl_mul_pow2 acc 8) in Hsum by lia. rewrite (Z.shiftl_mul_pow2 acc 8) by lia. lia.
Qed.

(** A big-endian numeral is linear in what was read before it. *)
Lemma foldl_be l : Forall is_byte l -> forall acc,
  foldl (fun acc b => Z.lor (Z.shiftl acc 8) b) acc l = acc * 256 ^ Z.of_nat (length l) + get_be l.
Proof.
  unfold get_be. induction 1 as [|b l Hb Hl IH]; intros acc; [simpl; lia|]. cbn [foldl].
  rewrite IH, (IH (Z.lor (Z.shiftl 0 8) b)), !shift_in by done.
  cbn [length]. rewrite Nat2Z.inj_succ, Z.pow_succ_r by lia. lia.
Qed.

Lemma get_put_be n x : get_be (put_be n x) = x mod 256 ^ Z.of_nat n.
Proof.
  induction n as [|n IH]; [by rewrite Z.mod_1_r|].
  change (get_be (put_be (S n) x)) with
    (foldl (fun acc b => Z.lor (Z.shiftl acc 8) b)
       (Z.lor (Z.shiftl 0 8) (Z.land (Z.shiftr x (8 * Z.of_nat n)) 255)) (put_be n x)).
  rewrite foldl_be, put_be_length, IH by apply put_be_bytes. rewrite Z.shiftl_0_l, Z.lor_0_l.
  change 255 with (Z.ones 8). rewrite Z.land_ones, Z.shiftr_div_pow2 by lia.
  rewrite Z.pow_mul_r by lia. change (2 ^ 8) with 256.
  assert (Hp : 0 < 256 ^ Z.of_nat n) by (apply Z.pow_pos_nonneg; lia).
  rewrite Nat2Z.inj_succ, Z.pow_succ_r, (Z.mul_comm 256) by lia.
  rewrite Z.rem_mul_r by lia. lia.
Qed.

Lemma get_put_u32 x : is_u32 x -> get_be (put_be 4 x) = x.
Proof. intros [? ?]. unfold u32_max in *. rewrite get_put_be. apply Z.mod_small. simpl. lia. Qed.
Lemma get_put_u64 x : is_u64 x -> get_be (put_be 8 x) = x.
Proof. intros [? ?]. unfold u64_max in *. rewrite get_put_be. apply Z.mod_small. simpl. lia. Qed.

(** ** What it means for a decoder to read back an encoder: whatever was
    encoded before and whatever follows. *)
Definition reads_back {T} (enc : bytes -> T -> bytes) (dec : decoder T) (x : T) : Prop :=
  exists w, (forall buf, enc buf x = buf ++ w) /\ forall rest, dec (w ++ rest) = Ok (x, rest).

Lemma decode_u32_put x rest : is_u32 x -> decode_u32 (put_be 4 x ++ rest) = Ok (x, rest).
Proof.
  intros Hx. unfold decode_u32, remaining. rewrite length_app, put_be_length.
  destruct (Z.ltb_spec (Z.of_nat (4 + length rest)) 4); [lia|].
  rewrite take_app_length', drop_app_length' by (by rewrite put_be_length).
  by rewrite get_put_u32.
Qed.

Lemma u32_reads_back x : is_u32 x -> reads_back encode_u32 decode_u32 x.
Proof. intros Hx. exists (put_be 4 x). split; [done|]. intros rest. by apply decode_u32_put. Qed.

Lemma u64_reads_back x : is_u64 x -> reads_back encode_u64 decode_u64 x.
Proof.
  intros Hx. exists (put_be 8 x). split; [done|]. intros rest.
  unfold decode_u64, remaining. rewrite length_app, put_be_length.
  destruct (Z.ltb_spec (Z.of_nat (8 + length rest)) 8); [lia|].
  rewrite take_app_length', drop_app_length' by (by rewrite put_be_length).
  by rewrite get_put_u64.
Qed.

Lemma bool_reads_back b : reads_back encode_bool decode_bool b.
Proof.
  exists (put_be 4 (if b then 1 else 0)). split; [done|]. intros rest. unfold decode_bool.
  rewrite decode_u32_put by (destruct b; done). by destruct b.
Qed.

(** ** Padding *)
Definition pad (n : Z) : Z := (4 - n mod 4) mod 4.

Lemma padded_spec n : 0 <= n <= u32_max -> padded n = n + pad n.
Proof.
  unfold u32_max. intros Hn. unfold padded, pad.
  assert (Z.land (n + 3) (u64_max - 3) = (n + 3) - (n + 3) mod 4) as ->.
  { change (u64_max - 3) with (Z.shiftl (Z.ones 62) 2).
    apply Z.bits_inj'. intros i Hi. rewrite Z.land_spec, Z.shiftl_spec by lia.
    replace ((n + 3) - (n + 3) mod 4) with (Z.shiftl (Z.shiftr (n + 3) 2) 2)
      by (rewrite Z.shiftl_mul_pow2, Z.shiftr_div_pow2 by lia; change (2 ^ 2) with 4;
          pose proof (Z.div_mod (n + 3) 4); lia).
    rewrite Z.shiftl_spec by lia. destruct (Z.lt_ge_cases i 2).
    - rewrite !(Z.testbit_neg_r _ (i - 2)) by lia. apply andb_false_r.
    - rewrite Z.shiftr_spec by lia. replace (i - 2 + 2) with i by lia.
      destruct (Z.lt_ge_cases (i - 2) 62).
      + rewrite Z.ones_spec_low by lia. apply andb_true_r.
      + rewrite Z.ones_spec_high by lia. rewrite andb_false_r. symmetry.
        rewrite <- (Z.mod_small (n + 3) (2 ^ 64)) by lia. apply Z.mod_pow2_bits_high. lia. }
  pose proof (Z.div_mod n 4 ltac:(lia)). pose proof (Z.mod_pos_bound n 4 ltac:(lia)).
  pose proof (Z.div_mod (n + 3) 4 ltac:(lia)). pose proof (Z.mod_pos_bound (n + 3) 4 ltac:(lia)).
  destruct (decide (n mod 4 = 0)) as [Hz|Hz].
  - rewrite Hz. change ((4 - 0) mod 4) with 0. lia.
  - rewrite (Z.mod_small (4 - n mod 4) 4) by lia. lia.
Qed.

Lemma pad_range n : 0 <= pad n < 4.
Proof. unfold pad. apply Z.mod_pos_bound. lia. Qed.

Lemma take_padded_reads what data rest n :
  n = Z.of_nat (length data) -> n <= u32_max ->
  take_padded what n (data ++ replicate (Z.to_nat (pad n)) 0 ++ rest) = Ok (data, rest).
Proof.
  intros Hn Hle. unfold take_padded. rewrite padded_spec by lia. pose proof (pad_range n).
  unfold remaining. rewrite !length_app, length_replicate.
  destruct (Z.ltb_spec (Z.of_nat (length data + (Z.to_nat (pad n) + length rest))) (n + pad n)); [lia|].
  rewrite take_app_length' by lia. rewrite app_assoc, drop_app_length'; [done|].
  rewrite length_app, length_replicate. lia.
Qed.

Definition fits_u32 (data : bytes) : Prop := Z.of_nat (length data) <= u32_max.

Lemma wrap_u32_id n : 0 <= n <= u32_max -> wrap_u32 n = n.
Proof. intros Hn. unfold wrap_u32, u32_max in *. apply Z.mod_small. lia. Qed.

Lemma opaque_reads_back data : fits_u32 data -> reads_back encode_opaque decode_opaque data.
Proof.
  intros Hf. unfold fits_u32 in Hf. set (n := Z.of_nat (length data)) in *.
  exists (put_be 4 n ++ data ++ replicate (Z.to_nat (pad n)) 0). split.
  - intros buf. unfold encode_opaque. fold n. rewrite wrap_u32_id by lia. fold (pad n).
    unfold encode_u32. by rewrite <- app_assoc.
  - intros rest. unfold decode_opaque. rewrite <- !app_assoc, decode_u32_put by (split; lia). cbn.
    by apply take_padded_reads.
Qed.

Lemma string_reads_back s : fits_u32 s -> utf8_valid s = true -> reads_back encode_string decode_string s.
Proof.
  intros Hf Hu. destruct (opaque_reads_back s Hf) as (w & He & Hd). exists w. split; [done|].
  intros rest. unfold decode_string. rewrite Hd. cbn. by rewrite Hu.
Qed.

Lemma fixed_reads_back data n : n = Z.of_nat (length data) -> fits_u32 data ->
  reads_back encode_fixed_opaque (decode_fixed_opaque n) data.
Proof.
  intros -> Hf. exists (data ++ replicate (Z.to_nat (pad (Z.of_nat (length data)))) 0). split; [done|].
  intros rest. unfold decode_fixed_opaque. rewrite <- app_assoc. by apply take_padded_reads.
Qed.

Lemma option_reads_back {T} (enc : bytes -> T -> bytes) (dec : decoder T) o :
  (forall x, o = Some x -> reads_back enc dec x) ->
  reads_back (fun buf o => encode_option buf o enc) (decode_option dec) o.
Proof.
  intros Ho. destruct o as [x|].
  - destruct (bool_reads_back true) as (w & Hw & Hd), (Ho x eq_refl) as (wx & He & Hx).
    exists (w ++ wx). unfold encode_option, decode_option. split.
    + intros buf. by rewrite He, Hw, app_assoc.
    + intros rest. rewrite <- app_assoc, Hd. cbn. rewrite Hx. done.
  - destruct (bool_reads_back false) as (w & Hw & Hd). exists w.
    unfold encode_option, decode_option. split; [done|]. intros rest. by rewrite Hd.
Qed.

(** An array's elements each occupy at least four bytes, as every XDR type
    does. *)
Definition wide {T} (enc : bytes -> T -> bytes) : Prop :=
  forall buf x, (length buf + 4 <= length (enc buf x))%nat.

Lemma items_read_back {T} (enc : bytes -> T -> bytes) (dec : decoder T) items :
  wide enc -> (forall x, x ∈ items -> reads_back enc dec x) ->
  exists w, (4 * length items <= length w)%nat /\
    (forall buf, foldl enc buf items = buf ++ w) /\
    forall rest, decode_n dec (length items) (w ++ rest) = Ok (items, rest).
Proof.
  intros Hwide. induction items as [|x items IH]; intros Hall.
  { exists []. split; [simpl; lia|]. split; [intros buf; by rewrite app_nil_r|done]. }
  destruct (Hall x ltac:(by left)) as (wx & He & Hd).
  destruct IH as (w & Hlen & Hew & Hdw); [intros y Hy; apply Hall; by right|].
  exists (wx ++ w). split_and!.
  - specialize (Hwide [] x). rewrite He in Hwide. rewrite length_app. simpl in *. lia.
  - intros buf. simpl. by rewrite He, Hew, app_assoc.
  - intros rest. simpl. rewrite <- app_assoc, Hd. cbn. rewrite Hdw. done.
Qed.

Lemma array_reads_back {T} (enc : bytes -> T -> bytes) (dec : decoder T) items :
  wide enc -> Z.of_nat (length items) <= u32_max -> (forall x, x ∈ items -> reads_back enc dec x) ->
  reads_back (fun buf l => encode_array buf l enc) (decode_array dec) items.
Proof.
  intros Hwide Hlen Hall. destruct (items_read_back enc dec items Hwide Hall) as (w & Hw & Hew & Hdw).
  set (n := Z.of_nat (length items)) in *. exists (put_be 4 n ++ w). split.
  - intros buf. unfold encode_array. fold n. rewrite wrap_u32_id, Hew by lia.
    unfold encode_u32. by rewrite app_assoc.
  - intros rest. unfold decode_array. rewrite <- app_assoc, decode_u32_put by (split; lia). cbn.
    unfold checked_array_len, remaining. change (Z.max 4 1) with 4.
    destruct (Z.gtb_spec n (Z.of_nat (length (w ++ rest)) / 4)) as [Hgt|Hle].
    + exfalso. rewrite length_app in Hgt.
      assert (n <= Z.of_nat (length w + length rest) / 4) by (apply Z.div_le_lower_bound; lia). lia.
    + cbn. unfold n. by rewrite Nat2Z.id.
Qed.

(** ** Codecs

    What a protocol structure promises to the messages built from it: it
    reads back where it is valid, and is at least one XDR unit wide. *)
Class XdrCodec (T : Type) := {
  xdr_encode : bytes -> T -> bytes;
  xdr_decode : decoder T;
  xdr_valid : T -> Prop;
  xdr_reads : forall x, xdr_valid x -> reads_back xdr_encode xdr_decode x;
  xdr_wide : wide xdr_encode }.

Lemma wide_u32 : wide encode_u32.
Proof. intros buf x. unfold encode_u32. rewrite length_app, put_be_length. lia. Qed.

#[global] Program Instance xdr_bool : XdrCodec bool :=
  {| xdr_encode := encode_bool; xdr_decode := decode_bool; xdr_valid := fun _ => True |}.
Next Obligation. intros b _. apply bool_reads_back. Qed.
Next Obligation. intros buf b. apply wide_u32. Qed.

#[global] Program Instance xdr_opaque : XdrCodec bytes :=
  {| xdr_encode := encode_opaque; xdr_decode := decode_opaque; xdr_valid := fits_u32 |}.
Next Obligation. intros data. apply opaque_reads_back. Qed.
Next Obligation.
  intros buf data. unfold encode_opaque. rewrite !length_app.
  pose proof (wide_u32 buf (wrap_u32 (Z.of_nat (length data)))). lia.
Qed.

Section codec.
Context {T : Type} `{!XdrCodec T}.

#[global] Program Instance xdr_option : XdrCodec (option T) :=
{| xdr_encode := fun buf o => encode_option buf o xdr_encode; xdr_decode := decode_option xdr_decode;
   xdr_valid := fun o => match o with Some x => xdr_valid x | None => True end |}.
Next Obligation. intros o Ho. apply option_reads_back. intros x ->. by apply xdr_reads. Qed.
Next Obligation.
intros buf [x|]; unfold encode_option.
- change (encode_bool buf true) with (encode_u32 buf 1).
  pose proof (xdr_wide (encode_u32 buf 1) x). pose proof (wide_u32 buf 1). lia.
- apply wide_u32.
Qed.

#[global] Program Instance xdr_array : XdrCodec (list T) :=
{| xdr_encode := fun buf l => encode_array buf l xdr_encode; xdr_decode := decode_array xdr_decode;
   xdr_valid := fun l => Z.of_nat (length l) <= u32_max /\ Forall xdr_valid l |}.
Next Obligation.
intros l [Hlen Hl]. rewrite Forall_forall in Hl. apply array_reads_back; [apply xdr_wide|done|].
intros x Hx. by apply xdr_reads, Hl.
Qed.
Next Obligation.
intros buf l. unfold encode_array.
assert (Hf : forall (l : list T) b, (length b <= length (foldl xdr_encode b l))%nat).
{ clear. induction l as [|x l IH]; intros b; simpl; [lia|].
  pose proof (xdr_wide b x). pose proof (IH (xdr_encode b x)). lia. }
pose proof (wide_u32 buf (wrap_u32 (Z.of_nat (length l)))).
pose proof (Hf l (encode_u32 buf (wrap_u32 (Z.of_nat (length l))))). lia.
Qed.

Context {U : Type} `{!XdrCodec U}.

(** A structure's fields one after the other. *)
#[global] Program Instance xdr_pair : XdrCodec (T * U) :=
{| xdr_encode := fun buf p => xdr_encode (xdr_encode buf p.1) p.2;
   xdr_decode := fun buf => '(x, buf) ← xdr_decode buf; '(y, buf) ← xdr_decode buf; Ok ((x, y), buf);
   xdr_valid := fun p => xdr_valid p.1 /\ xdr_valid p.2 |}.
Next Obligation.
intros [x y] [Hx Hy]. simpl in *. destruct (xdr_reads x Hx) as (wx & Ex & Dx), (xdr_reads y Hy) as (wy & Ey & Dy).
exists (wx ++ wy). split; [intros buf; simpl; by rewrite Ey, Ex, app_assoc|].
intros rest. rewrite <- app_assoc, Dx. cbn. by rewrite Dy.
Qed.
Next Obligation.
intros buf [x y]. simpl. pose proof (xdr_wide buf x). pose proof (xdr_wide (xdr_encode buf x) y). lia.
Qed.
End codec.

(** ** The allocation guard *)

(** What an element decoder consumes. *)
Definition consumes {T} (k : nat) (dec : decoder T) : Prop :=
  forall buf x buf', dec buf = Ok (x, buf') -> (length buf' + k <= length buf)%nat.

Lemma decode_n_consumes {T} (dec : decoder T) k n : consumes k dec ->
  forall buf xs buf', decode_n dec n buf = Ok (xs, buf') ->
  (length buf' + k * n <= length buf)%nat /\ length xs = n.
Proof.
  intros Hk. induction n as [|n IH]; intros buf xs buf' H; simpl in H; [simplify_eq; simpl; lia|].
  apply bind_Ok in H as ([x b1] & H1 & H). apply bind_Ok in H as ([ys b2] & H2 & H). simplify_eq.
  apply Hk in H1. apply IH in H2 as [? ?]. simpl. lia.
Qed.

(** The decoder without the guard. *)
Definition decode_array_unguarded {T} (dec : decoder T) : decoder (list T) := fun buf =>
  '(count, buf) ← decode_u32 buf; decode_n dec (Z.to_nat count) buf.

Lemma get_be_nonneg l : Forall is_byte l -> 0 <= get_be l.
Proof.
  induction l as [|b l IH] using rev_ind; intros Hl; [done|].
  apply Forall_app in Hl as [Hl Hb]. inversion_clear Hb. unfold get_be. rewrite foldl_app. simpl.
  rewrite shift_in by done. specialize (IH Hl). unfold get_be, is_byte in *. lia.
Qed.

Lemma guard_never_rejects {T} (dec : decoder T) buf r :
  Forall is_byte buf -> consumes 4 dec -> decode_array_unguarded dec buf = Ok r -> decode_array dec buf = Ok r.
Proof.
  intros Hb Hk. unfold decode_array_unguarded, decode_array. intros H.
  apply bind_Ok in H as ([count b1] & H1 & H2). rewrite H1. cbn. destruct r as [xs b2].
  destruct (decode_n_consumes dec 4 _ Hk _ _ _ H2) as [Hlen _].
  assert (0 <= count).
  { unfold decode_u32 in H1. destruct (_ <? 4); [done|]. simplify_eq.
    apply get_be_nonneg. by apply Forall_take. }
  unfold checked_array_len, remaining. change (Z.max 4 1) with 4.
  destruct (Z.gtb_spec count (Z.of_nat (length b1) / 4)) as [Hgt|]; [|exact H2].
  exfalso. assert (count <= Z.of_nat (length b1) / 4) by (apply Z.div_le_lower_bound; lia). lia.
Qed.

(** What the guard lets through never asks for more elements than the bytes
    left could hold. *)
Lemma guard_bounds count rem min n :
  0 <= rem -> 0 < min -> checked_array_len count rem min = Ok n -> n = count /\ n * min <= rem.
Proof.
  intros Hr Hm. unfold checked_array_len. rewrite Z.max_l by lia.
  destruct (Z.gtb_spec count (rem / min)) as [|Hle]; [done|]. intros [= ->]. split; [done|].
  pose proof (Z.mul_div_le rem min Hm). nia.
Qed.
