(* ===== verification/Session.v ===== *)
(** NFSv4.1 sessions (nfs/v4/state/session.rs): the slot table and its
    exactly-once SEQUENCE processing, the reply cache, and the session
    manager's two maps.  A SessionId is its 16 bytes read as one big-endian
    number. *)

From stdpp Require Import relations.
From S2P Require Import Prelude.

Definition MAX_SLOTS : Z := 128.

Section session.
(** The callback credential is carried, never inspected. *)
Context {Cred : Type}.
Abbreviation bytes := (list Z).

Inductive SeqStatus :=
| New
| Replay (cached : option bytes)
| Misordered.

Record Slot := MkSlot { slot_id : Z; sequence_id : Z; cached_response : option bytes }.
Definition Slot_new (i : Z) : Slot := MkSlot i 0 None.

Record Session := MkSession {
  session_id : Z; client_id : Z; sequence : Z; flags : Z;
  fore_chan_maxrequestsize : Z; fore_chan_maxresponsesize : Z;
  fore_chan_maxresponsesize_cached : Z; fore_chan_maxops : Z; fore_chan_maxrequests : Z;
  cb_program : Z; cb_cred : option Cred; back_chan_maxops : Z; minorversion : Z;
  slots : list Slot; highest_slotid : Z }.

Record SessionLimits := Limits {
  sl_client_id : Z; sl_minorversion : Z; sl_maxrequestsize : Z; sl_maxresponsesize : Z;
  sl_maxresponsesize_cached : Z; sl_maxops : Z; sl_maxrequests : Z }.

Record SessionRecord := Record_ {
  sr_session_id : Z; sr_client_id : Z; sr_sequence : Z; sr_flags : Z;
  sr_maxrequestsize : Z; sr_maxresponsesize : Z; sr_maxresponsesize_cached : Z;
  sr_maxops : Z; sr_maxrequests : Z; sr_cb_program : Z }.

Definition to_record (s : Session) : SessionRecord :=
  Record_ (session_id s) (client_id s) (sequence s) (flags s) (fore_chan_maxrequestsize s)
    (fore_chan_maxresponsesize s) (fore_chan_maxresponsesize_cached s) (fore_chan_maxops s)
    (fore_chan_maxrequests s) (cb_program s).

Definition slot_count (max_requests : Z) : Z := Z.min (Z.max max_requests 1) MAX_SLOTS.

Definition Session_new (sid cid sq fl max_request_size max_response max_response_cached
    max_ops max_requests cb_prog : Z) (cred : option Cred) (minor : Z) : Session :=
  let n := slot_count max_requests in
  MkSession sid cid sq fl max_request_size max_response max_response_cached max_ops n cb_prog cred
    0 minor (Slot_new <$> (Z.of_nat <$> seq 0 (Z.to_nat n))) 0.

Definition set_slot (s : Session) (i : nat) (sl : Slot) (high : Z) : Session :=
  MkSession (session_id s) (client_id s) (sequence s) (flags s) (fore_chan_maxrequestsize s)
    (fore_chan_maxresponsesize s) (fore_chan_maxresponsesize_cached s) (fore_chan_maxops s)
    (fore_chan_maxrequests s) (cb_program s) (cb_cred s) (back_chan_maxops s) (minorversion s)
    (<[i := sl]> (slots s)) high.

(** u32 [slot.sequence_id.wrapping_add(1)]. *)
Definition next_seq (q : Z) : Z := wrap_u32 (q + 1).

Definition process_sequence (s : Session) (slot sq : Z) : result unit (SeqStatus * Session) :=
  match slots s !! Z.to_nat slot with
  | None => Err tt
  | Some sl =>
      if (sequence_id sl =? 0) && (sq =? 1) then
        Ok (New, set_slot s (Z.to_nat slot) (MkSlot (slot_id sl) 1 None)
                   (Z.max (highest_slotid s) slot))
      else if sq =? sequence_id sl then Ok (Replay (cached_response sl), s)
      else if sq =? next_seq (sequence_id sl) then
        Ok (New, set_slot s (Z.to_nat slot) (MkSlot (slot_id sl) sq None)
                   (Z.max (highest_slotid s) slot))
      else Ok (Misordered, s)
  end.

Definition cache_response (s : Session) (slot : Z) (response : bytes) : Session :=
  if Z.of_nat (length response) >? fore_chan_maxresponsesize_cached s then s
  else match slots s !! Z.to_nat slot with
       | Some sl => set_slot s (Z.to_nat slot) (MkSlot (slot_id sl) (sequence_id sl) (Some response))
                      (highest_slotid s)
       | None => s
       end.

Definition get_cached_response (s : Session) (slot : Z) : option bytes :=
  slots s !! Z.to_nat slot ≫= cached_response.

(** ** Exactly once *)
Lemma process_cases s slot sq sl :
  slots s !! Z.to_nat slot = Some sl -> 0 <= sequence_id sl ->
  process_sequence s slot sq =
    if sq =? sequence_id sl then Ok (Replay (cached_response sl), s)
    else if sq =? next_seq (sequence_id sl) then
      Ok (New, set_slot s (Z.to_nat slot) (MkSlot (slot_id sl) sq None) (Z.max (highest_slotid s) slot))
    else Ok (Misordered, s).
Proof.
  intros Hsl H0. unfold process_sequence. rewrite Hsl.
  destruct (Z.eqb_spec (sequence_id sl) 0) as [Hz|], (Z.eqb_spec sq 1) as [->|]; try done.
  simpl. rewrite Hz. done.
Qed.

(** The SEQUENCE traffic of a session: for each request its slot, its
    sequence id and what was answered. *)
Fixpoint serve (s : Session) (reqs : list (Z * Z)) : list (Z * Z * SeqStatus) * Session :=
  match reqs with
  | [] => ([], s)
  | (slot, sq) :: reqs =>
      match process_sequence s slot sq with
      | Ok (st, s') => let '(out, s'') := serve s' reqs in ((slot, sq, st) :: out, s'')
      | Err _ => serve s reqs
      end
  end.

Definition is_new (x : Z * Z * SeqStatus) : bool := match x.2 with New => true | _ => false end.

(** The sequence ids executed on a slot, in order. *)
Definition executed (slot : Z) (out : list (Z * Z * SeqStatus)) : list Z :=
  (fun x => x.1.2) <$> filter (fun x => x.1.1 = slot /\ is_new x = true) out.

Definition seq_of (s : Session) (slot : Z) : Z :=
  match slots s !! Z.to_nat slot with Some sl => sequence_id sl | None => 0 end.

Fixpoint succs (q : Z) (n : nat) : list Z :=
  match n with O => [] | S n => next_seq q :: succs (next_seq q) n end.

Definition wf_slots (s : Session) : Prop := Forall (fun sl => 0 <= sequence_id sl <= u32_max) (slots s).

Lemma process_New s slot sq s' :
  wf_slots s -> 0 <= slot -> process_sequence s slot sq = Ok (New, s') ->
  sq = next_seq (seq_of s slot) /\ wf_slots s' /\ seq_of s' slot = sq /\
  (exists i, slots s' !! Z.to_nat slot = Some (MkSlot i sq None)) /\
  forall other, 0 <= other -> other <> slot -> slots s' !! Z.to_nat other = slots s !! Z.to_nat other.
Proof.
  intros Hwf Hslot Hp. destruct (slots s !! Z.to_nat slot) as [sl|] eqn:Hsl;
    [|unfold process_sequence in Hp; by rewrite Hsl in Hp].
  pose proof (Forall_lookup_1 _ _ _ _ Hwf Hsl) as [H0 H1].
  rewrite (process_cases s slot sq sl Hsl H0) in Hp.
  destruct (sq =? sequence_id sl); [done|].
  destruct (Z.eqb_spec sq (next_seq (sequence_id sl))) as [Hsq|]; [|done]. simplify_eq.
  unfold seq_of. rewrite Hsl. simpl. split_and!; [done| | | |].
  - apply Forall_insert; [done|]. simpl. unfold next_seq, wrap_u32, u32_max.
    pose proof (Z.mod_pos_bound (sequence_id sl + 1) (2 ^ 32)). lia.
  - rewrite list_lookup_insert_eq; [done|]. by eapply lookup_lt_Some.
  - rewrite list_lookup_insert_eq; [eauto|]. by eapply lookup_lt_Some.
  - intros other Ho Hne. apply list_lookup_insert_ne. lia.
Qed.

(** Anything but a new request leaves the session as it was. *)
Lemma process_not_New s slot sq st s' :
  process_sequence s slot sq = Ok (st, s') -> st <> New -> s' = s.
Proof.
  unfold process_sequence. destruct (slots s !! _); [|done].
  repeat case_match; intros; simplify_eq; done.
Qed.

Lemma executed_cons slot x out :
  executed slot (x :: out) =
  if decide (x.1.1 = slot /\ is_new x = true) then x.1.2 :: executed slot out else executed slot out.
Proof. unfold executed. rewrite filter_cons. by case_decide. Qed.

Lemma executed_succs slot reqs : 0 <= slot -> forall s,
  Forall (fun r => 0 <= r.1) reqs -> wf_slots s ->
  executed slot (serve s reqs).1 = succs (seq_of s slot) (length (executed slot (serve s reqs).1)).
Proof.
  intros Hslot. induction reqs as [|[sl sq] reqs IH]; intros s Hr Hwf; [done|].
  apply Forall_cons in Hr as [Hsl0 Hr]. simpl in Hsl0. simpl.
  destruct (process_sequence s sl sq) as [[st s']|] eqn:Hp; [|by apply IH].
  destruct (serve s' reqs) as [out s''] eqn:Hs. simpl.
  assert (Hout : out = (serve s' reqs).1) by (by rewrite Hs).
  rewrite executed_cons. destruct st as [| |].
  2-3: rewrite decide_False by (by intros [_ ?]);
       apply process_not_New in Hp as ->; [|done]; rewrite Hout; by apply IH.
  destruct (process_New _ _ _ _ Hwf Hsl0 Hp) as (Hsq & Hwf' & Hseq & _ & Hother).
  destruct (decide (sl = slot)) as [->|Hne].
  - rewrite decide_True by done. simpl. rewrite <- Hsq, <- Hseq, Hout. f_equal. by apply IH.
  - rewrite decide_False by (intros [? _]; done).
    replace (seq_of s slot) with (seq_of s' slot) by (unfold seq_of; by rewrite Hother).
    rewrite Hout. by apply IH.
Qed.

(** Traffic on other slots leaves a slot alone. *)
Lemma serve_other slot reqs : 0 <= slot -> forall s, wf_slots s ->
  Forall (fun r => 0 <= r.1 /\ r.1 <> slot) reqs ->
  slots (serve s reqs).2 !! Z.to_nat slot = slots s !! Z.to_nat slot.
Proof.
  intros Hs. induction reqs as [|[k q] reqs IH]; intros s Hwf Hr; [done|].
  apply Forall_cons in Hr as [[Hk Hne] Hr]. simpl in *.
  destruct (process_sequence s k q) as [[st s']|] eqn:Hp; [|by apply IH].
  assert (slots s' !! Z.to_nat slot = slots s !! Z.to_nat slot /\ wf_slots s') as [<- Hwf'].
  { destruct st; [|by rewrite (process_not_New _ _ _ _ _ Hp)..].
    destruct (process_New _ _ _ _ Hwf Hk Hp) as (_ & ? & _ & _ & Ho). split; [|done].
    by apply Ho. }
  specialize (IH s' Hwf' Hr). by destruct (serve s' reqs).
Qed.

Lemma cache_response_slot s slot i sq c reply :
  slots s !! Z.to_nat slot = Some (MkSlot i sq c) -> wf_slots s ->
  Z.of_nat (length reply) <= fore_chan_maxresponsesize_cached s ->
  slots (cache_response s slot reply) !! Z.to_nat slot = Some (MkSlot i sq (Some reply)) /\
  wf_slots (cache_response s slot reply).
Proof.
  intros Hsl Hwf Hlen. unfold cache_response.
  destruct (Z.gtb_spec (Z.of_nat (length reply)) (fore_chan_maxresponsesize_cached s)); [lia|].
  rewrite Hsl. simpl. rewrite list_lookup_insert_eq by (by eapply lookup_lt_Some). split; [done|].
  apply Forall_insert; [done|]. by apply (Forall_lookup_1 _ _ _ _ Hwf Hsl).
Qed.

Lemma succs_spec n : forall q i x, 0 <= q <= u32_max -> succs q n !! i = Some x ->
  x = wrap_u32 (q + 1 + Z.of_nat i).
Proof.
  induction n as [|n IH]; intros q i x Hq; [done|]. destruct i as [|i]; simpl.
  - intros [= <-]. unfold next_seq. f_equal. lia.
  - intros Hx. apply IH in Hx; [|unfold next_seq, wrap_u32, u32_max;
      pose proof (Z.mod_pos_bound (q + 1) (2 ^ 32)); lia].
    subst x. unfold next_seq, wrap_u32. rewrite <- Z.add_assoc, Zplus_mod_idemp_l. f_equal. lia.
Qed.

Lemma succs_NoDup q n : 0 <= q <= u32_max -> Z.of_nat n <= 2 ^ 32 -> NoDup (succs q n).
Proof.
  intros Hq Hn. apply NoDup_alt. intros i j x Hi Hj.
  assert (Hlen : forall m r, length (succs r m) = m) by (induction m; intros; simpl; auto).
  apply lookup_lt_Some in Hi as Hil. apply lookup_lt_Some in Hj as Hjl. rewrite Hlen in Hil, Hjl.
  apply succs_spec in Hi, Hj; [|done..]. rewrite Hi in Hj. unfold wrap_u32 in Hj.
  assert (Hd : (Z.of_nat i - Z.of_nat j) mod 2 ^ 32 = 0).
  { replace (Z.of_nat i - Z.of_nat j) with ((q + 1 + Z.of_nat i) - (q + 1 + Z.of_nat j)) by lia.
    rewrite Zminus_mod, Hj, Z.sub_diag. done. }
  apply Z.mod_divide in Hd as [k Hk]; [|lia]. assert (k = 0) by nia. lia.
Qed.
End session.
Arguments Session : clear implicits.
Arguments SeqStatus : clear implicits.

(** ** The session manager *)
Section manager.
Context {Cred : Type}.
Abbreviation session := (Session Cred).

Inductive WriteOp := PutSession (r : SessionRecord) | DeleteSession (id : Z).

(** The two maps and the trace of writes handed to the state backend. *)
Record SessionManager := Manager {
  sessions : gmap Z session;
  client_sessions : gmap Z (list Z);
  written : list WriteOp }.

Definition SessionManager_new : SessionManager := Manager ∅ ∅ [].

(** [rand.to_be_bytes() ++ client_id.to_be_bytes()]. *)
Definition make_id (rand cid : Z) : Z := Z.lor (Z.shiftl rand 64) cid.

(** The loop draws 64-bit numbers until the id is free; [None] when the
    given draws run out. *)
Fixpoint draw_id (m : gmap Z session) (cid : Z) (draws : list Z) : option Z :=
  match draws with
  | [] => None
  | r :: draws =>
      match m !! make_id r cid with
      | None => Some (make_id r cid)
      | Some _ => draw_id m cid draws
      end
  end.

Definition create_session (mgr : SessionManager) (draws : list Z)
    (cid sq fl max_request_size max_response max_response_cached max_ops max_requests cb_prog : Z)
    (cred : option Cred) (minor : Z) : option (session * SessionManager) :=
  sid ← draw_id (sessions mgr) cid draws;
  let s := Session_new sid cid sq fl max_request_size max_response max_response_cached max_ops
             max_requests cb_prog cred minor in
  Some (s, Manager (<[sid := s]> (sessions mgr))
             (<[cid := default [] (client_sessions mgr !! cid) ++ [sid]]> (client_sessions mgr))
             (written mgr ++ [PutSession (to_record s)])).

Definition load_records (mgr : SessionManager) (records : list SessionRecord) : SessionManager :=
  Manager (sessions mgr) (client_sessions mgr)
    (written mgr ++ (DeleteSession ∘ sr_session_id <$> records)).

Definition get_session (mgr : SessionManager) (id : Z) : option session := sessions mgr !! id.
Definition has_session (mgr : SessionManager) (id : Z) : bool := bool_decide (is_Some (sessions mgr !! id)).

Definition session_limits (mgr : SessionManager) (id : Z) : option SessionLimits :=
  (fun s => Limits (client_id s) (minorversion s) (fore_chan_maxrequestsize s)
     (fore_chan_maxresponsesize s) (fore_chan_maxresponsesize_cached s) (fore_chan_maxops s)
     (fore_chan_maxrequests s)) <$> sessions mgr !! id.

(** [get_session_mut]: update in place under the entry's lock. *)
Definition get_session_mut {R} (mgr : SessionManager) (id : Z) (f : session -> R * session)
    : option R * SessionManager :=
  match sessions mgr !! id with
  | Some s => let '(r, s') := f s in
      (Some r, Manager (<[id := s']> (sessions mgr)) (client_sessions mgr) (written mgr))
  | None => (None, mgr)
  end.

Definition with_back_channel (prog : Z) (cred : option Cred) (s : session) : session :=
  MkSession (session_id s) (client_id s) (sequence s) (flags s) (fore_chan_maxrequestsize s)
    (fore_chan_maxresponsesize s) (fore_chan_maxresponsesize_cached s) (fore_chan_maxops s)
    (fore_chan_maxrequests s) prog cred (back_chan_maxops s) (minorversion s)
    (slots s) (highest_slotid s).
Definition with_maxops (n : Z) (s : session) : session :=
  MkSession (session_id s) (client_id s) (sequence s) (flags s) (fore_chan_maxrequestsize s)
    (fore_chan_maxresponsesize s) (fore_chan_maxresponsesize_cached s) (fore_chan_maxops s)
    (fore_chan_maxrequests s) (cb_program s) (cb_cred s) n (minorversion s)
    (slots s) (highest_slotid s).

Definition set_back_channel (mgr : SessionManager) (id prog : Z) (cred : option Cred)
    : bool * SessionManager :=
  let '(r, mgr') := get_session_mut mgr id (fun s => (true, with_back_channel prog cred s)) in
  (default false r, mgr').
Definition set_back_chan_maxops (mgr : SessionManager) (id maxops : Z) : SessionManager :=
  (get_session_mut mgr id (fun s => (tt, with_maxops maxops s))).2.

Definition destroy_session (mgr : SessionManager) (id : Z) : result unit SessionManager :=
  match sessions mgr !! id with
  | Some s =>
      Ok (Manager (delete id (sessions mgr))
            (alter (filter (fun x => x <> id)) (client_id s) (client_sessions mgr))
            (written mgr ++ [DeleteSession id]))
  | None => Err tt
  end.

Definition get_client_sessions (mgr : SessionManager) (cid : Z) : list Z :=
  default [] (client_sessions mgr !! cid).
Definition session_count_for_client (mgr : SessionManager) (cid : Z) : Z :=
  Z.of_nat (length (get_client_sessions mgr cid)).

Definition destroy_client_sessions (mgr : SessionManager) (cid : Z) : SessionManager :=
  foldl (fun m id => match destroy_session m id with Ok m' => m' | Err _ => m end)
    mgr (get_client_sessions mgr cid).

Definition active_count (mgr : SessionManager) : Z := Z.of_nat (size (sessions mgr)).

(** *** The two maps agree *)
Record mgr_inv (mgr : SessionManager) : Prop := {
  mi_listed : forall id s, sessions mgr !! id = Some s ->
    session_id s = id /\ id ∈ get_client_sessions mgr (client_id s);
  mi_live : forall cid id, id ∈ get_client_sessions mgr cid ->
    exists s, sessions mgr !! id = Some s /\ client_id s = cid;
  mi_nodup : forall cid, NoDup (get_client_sessions mgr cid) }.

Lemma elem_of_client_sessions mgr cid id : mgr_inv mgr ->
  id ∈ get_client_sessions mgr cid <-> exists s, sessions mgr !! id = Some s /\ client_id s = cid.
Proof.
  intros [Hl Hv _]. split; [apply Hv|]. intros (s & Hs & <-). by apply Hl.
Qed.

Lemma new_inv : mgr_inv SessionManager_new.
Proof. split; unfold get_client_sessions; simpl; set_solver by (constructor || done). Qed.

Lemma client_sessions_insert mgr cid l c :
  get_client_sessions (Manager (sessions mgr) (<[cid := l]> (client_sessions mgr)) (written mgr)) c =
  if decide (c = cid) then l else get_client_sessions mgr c.
Proof.
  unfold get_client_sessions. simpl. case_decide as Hc; [subst; by rewrite lookup_insert_eq|].
  by rewrite lookup_insert_ne.
Qed.

Lemma draw_id_fresh (m : gmap Z session) cid draws sid : draw_id m cid draws = Some sid -> m !! sid = None.
Proof.
  induction draws as [|r draws IH]; simpl; [done|].
  destruct (m !! make_id r cid) eqn:Hm; [done|]. by intros [= <-].
Qed.

Lemma create_session_inv mgr draws cid a1 a2 a3 a4 a5 a6 a7 a8 cred minor s mgr' :
  mgr_inv mgr ->
  create_session mgr draws cid a1 a2 a3 a4 a5 a6 a7 a8 cred minor = Some (s, mgr') ->
  mgr_inv mgr' /\ sessions mgr !! session_id s = None /\ client_id s = cid /\
  sessions mgr' = <[session_id s := s]> (sessions mgr) /\
  session_count_for_client mgr' cid = session_count_for_client mgr cid + 1.
Proof.
  intros [Hl Hv Hn] Hc. unfold create_session in Hc.
  destruct (draw_id (sessions mgr) cid draws) as [sid|] eqn:Hd; [|done]. simpl in Hc.
  apply draw_id_fresh in Hd. set (s0 := Session_new sid _ _ _ _ _ _ _ _ _ _ _) in *.
  injection Hc as <- <-.
  assert (Hnot : forall c, sid ∉ get_client_sessions mgr c).
  { intros c Hin. destruct (Hv _ _ Hin) as (x & Hx & _). congruence. }
  assert (Hcs : forall c, get_client_sessions (Manager (<[sid := s0]> (sessions mgr))
    (<[cid := default [] (client_sessions mgr !! cid) ++ [sid]]> (client_sessions mgr))
    (written mgr ++ [PutSession (to_record s0)])) c =
    if decide (c = cid) then get_client_sessions mgr cid ++ [sid] else get_client_sessions mgr c).
  { intros c. apply (client_sessions_insert mgr). }
  split_and!; try done.
  - split.
    + intros id x. simpl. rewrite lookup_insert_Some. rewrite Hcs. intros [[<- <-]|[Hne Hx]].
      * split; [done|]. rewrite decide_True by done. set_solver.
      * destruct (Hl _ _ Hx) as [Hid Hin]. split; [done|]. case_decide as Hcid; [|done].
        rewrite <- Hcid. set_solver.
    + intros c id. rewrite Hcs. simpl. case_decide as Hcid.
      * subst c. intros [Hin|Hin%list_elem_of_singleton]%elem_of_app.
        -- destruct (Hv _ _ Hin) as (x & Hx & Hxc). exists x. split; [|done].
           rewrite lookup_insert_ne; [done|]. intros ->. by apply (Hnot cid).
        -- subst id. exists s0. by rewrite lookup_insert_eq.
      * intros Hin. destruct (Hv _ _ Hin) as (x & Hx & Hxc). exists x. split; [|done].
        rewrite lookup_insert_ne; [done|]. intros ->. by apply (Hnot c).
    + intros c. rewrite Hcs. case_decide; [|apply Hn]. apply NoDup_app. split_and!; [apply Hn| |].
      * intros id Hin Hs%list_elem_of_singleton. subst id. by apply (Hnot cid).
      * apply NoDup_singleton.
  - unfold session_count_for_client. rewrite Hcs, decide_True by done.
    rewrite length_app. simpl. lia.
Qed.

(** An in-place update that keeps the session's identity keeps the maps in
    agreement: SEQUENCE processing, reply caching and back-channel
    changes. *)
Definition keeps_identity {R} (f : session -> R * session) : Prop := forall s,
  session_id (f s).2 = session_id s /\ client_id (f s).2 = client_id s.

Lemma get_session_mut_inv {R} mgr id (f : session -> R * session) :
  keeps_identity f -> mgr_inv mgr -> mgr_inv (get_session_mut mgr id f).2.
Proof.
  intros Hf [Hl Hv Hn]. unfold get_session_mut.
  destruct (sessions mgr !! id) as [s|] eqn:Hs; [|done].
  pose proof (Hf s) as [Hsid Hcid]. destruct (f s) as [r s']. simpl in *.
  split; [| |apply Hn].
  - intros i x. simpl. rewrite lookup_insert_Some. intros [[<- <-]|[_ Hx]]; [|by apply Hl].
    rewrite Hsid, Hcid. by apply Hl.
  - intros c i Hin. destruct (Hv c i Hin) as (x & Hx & Hxc). simpl.
    destruct (decide (i = id)) as [->|Hne].
    + exists s'. rewrite lookup_insert_eq. split; [done|]. congruence.
    + exists x. by rewrite lookup_insert_ne.
Qed.

Lemma process_sequence_identity (s : session) slot sq st s' :
  process_sequence s slot sq = Ok (st, s') -> session_id s' = session_id s /\ client_id s' = client_id s.
Proof.
  unfold process_sequence. destruct (slots s !! _); [|done].
  repeat case_match; intros; simplify_eq; done.
Qed.

Lemma destroy_session_spec mgr id mgr' :
  mgr_inv mgr -> destroy_session mgr id = Ok mgr' ->
  mgr_inv mgr' /\ sessions mgr' = delete id (sessions mgr) /\
  (forall c i, i ∈ get_client_sessions mgr' c <-> i ∈ get_client_sessions mgr c /\ i <> id).
Proof.
  intros Hinv Hd. pose proof Hinv as [Hl Hv Hn]. unfold destroy_session in Hd.
  destruct (sessions mgr !! id) as [s|] eqn:Hs; [|done]. simplify_eq. simpl.
  assert (Hcs : forall c, get_client_sessions (Manager (delete id (sessions mgr))
    (alter (filter (fun x => x <> id)) (client_id s) (client_sessions mgr))
    (written mgr ++ [DeleteSession id])) c = if decide (c = client_id s)
      then filter (fun x => x <> id) (get_client_sessions mgr c) else get_client_sessions mgr c).
  { intros c. unfold get_client_sessions. simpl. case_decide as Hc; [subst|by rewrite lookup_alter_ne].
    rewrite lookup_alter_eq. by destruct (client_sessions mgr !! client_id s). }
  assert (Hel : forall c i, i ∈ get_client_sessions (Manager (delete id (sessions mgr))
    (alter (filter (fun x => x <> id)) (client_id s) (client_sessions mgr))
    (written mgr ++ [DeleteSession id])) c <-> i ∈ get_client_sessions mgr c /\ i <> id).
  { intros c i. rewrite Hcs. case_decide as Hc; [rewrite list_elem_of_filter; tauto|].
    split; [|by intros [? _]]. intros Hin. split; [done|]. intros ->.
    destruct (Hv _ _ Hin) as (x & Hx & Hxc). congruence. }
  split_and!; [split|done|done].
  - intros i x. simpl. intros [Hne Hx]%lookup_delete_Some. rewrite Hel.
    destruct (Hl _ _ Hx). split; [done|]. split; [done|congruence].
  - intros c i [Hin Hne]%Hel. destruct (Hv _ _ Hin) as (x & Hx & Hxc). exists x. split; [|done].
    simpl. by rewrite lookup_delete_ne.
  - intros c. rewrite Hcs. case_decide; [apply NoDup_filter|]; apply Hn.
Qed.

Lemma destroy_all_spec ids : forall mgr, mgr_inv mgr ->
  let mgr' := foldl (fun m id => match destroy_session m id with Ok m' => m' | Err _ => m end) mgr ids in
  mgr_inv mgr' /\
  forall i s, sessions mgr' !! i = Some s <-> sessions mgr !! i = Some s /\ i ∉ ids.
Proof.
  induction ids as [|id ids IH]; intros mgr Hi; simpl.
  { split; [done|]. set_solver. }
  destruct (destroy_session mgr id) as [m1|] eqn:Hd.
  - destruct (destroy_session_spec _ _ _ Hi Hd) as (Hi1 & Hs1 & _).
    destruct (IH m1 Hi1) as [Hi2 Hs2]. split; [done|]. intros i s. rewrite Hs2, Hs1.
    rewrite lookup_delete_Some. set_solver.
  - destruct (IH mgr Hi) as [Hi2 Hs2]. split; [done|]. intros i s. rewrite Hs2.
    unfold destroy_session in Hd. destruct (sessions mgr !! id) eqn:Hid; [done|].
    rewrite not_elem_of_cons. split; [|tauto]. intros [Hs Hn]. split_and!; try done. congruence.
Qed.
End manager.
Arguments SessionManager : clear implicits.
