(* ===== verification/Lease.v ===== *)
(** NFSv4 leases and the grace period (nfs/v4/state/lease.rs).  Instants and
    durations are nanoseconds; each [Instant::now()] the code takes is an
    argument, so that a call that reads the clock three times can see it
    advance. *)

From Stdlib Require Import Ascii String.
From S2P Require Import Prelude Csv.

Definition secs (n : Z) : Z := n * 1000000000.
Definition DEFAULT_LEASE_TIME : Z := secs 90.
Definition GRACE_PERIOD : Z := secs 90.

(** str::parse::<u64>. *)
Definition parse_u64 (s : string) : option Z :=
  n ← match s with
      | String c s' => if Ascii.eqb c "+"%char then parse_digits s' else parse_digits s
      | EmptyString => None
      end;
  if n <=? u64_max then Some n else None.

(** FLINT_NFS_LEASE_SECS and FLINT_NFS_GRACE_SECS. *)
Definition lease_time (env : option string) : Z :=
  match env ≫= (fun v => parse_u64 (trim v)) with
  | Some n => if n >? 0 then secs n else DEFAULT_LEASE_TIME
  | None => DEFAULT_LEASE_TIME
  end.
Definition grace_time (env : option string) : Z :=
  match env ≫= parse_u64 with Some n => secs n | None => GRACE_PERIOD end.

(** The process lease is written once. *)
Definition set_lease_time (cell : option Z) (d : Z) : bool * option Z :=
  match cell with Some x => (false, Some x) | None => (true, Some d) end.

Section lease.
(** The process's lease time, fixed before serving. *)
Context (L : Z).

Record Lease := MkLease { l_client_id : Z; last_renewal : Z; expires_at : Z }.

Definition Lease_new (cid now : Z) : Lease := MkLease cid now (now + L).
Definition renew (l : Lease) (now : Z) : Lease := MkLease (l_client_id l) now (now + L).
Definition is_expired (l : Lease) (now : Z) : bool := now >? expires_at l.
Definition lease_remaining (l : Lease) (now : Z) : Z := Z.max 0 (expires_at l - now).

Record LeaseManager := Leases {
  leases : gmap Z Lease;
  server_start : Z;
  grace_period : Z;
  grace_ended : bool;
  anything_reclaimable : bool }.

Definition LeaseManager_new (now grace : Z) : LeaseManager := Leases ∅ now grace false true.

Definition set_leases (m : LeaseManager) (x : gmap Z Lease) : LeaseManager :=
  Leases x (server_start m) (grace_period m) (grace_ended m) (anything_reclaimable m).

Definition set_anything_reclaimable (m : LeaseManager) (yes : bool) : LeaseManager :=
  Leases (leases m) (server_start m) (grace_period m) (grace_ended m) yes.
Definition end_grace (m : LeaseManager) : LeaseManager :=
  Leases (leases m) (server_start m) (grace_period m) true (anything_reclaimable m).

Definition create_lease (m : LeaseManager) (cid now : Z) : LeaseManager :=
  set_leases m (<[cid := Lease_new cid now]> (leases m)).

(** [t1] is_expired's reading, [t2] duration_since's, [t3] the renewal's. *)
Definition renew_lease (m : LeaseManager) (cid t1 t2 t3 : Z) : result unit LeaseManager :=
  match leases m !! cid with
  | Some l =>
      if is_expired l t1 && (Z.max 0 (t2 - expires_at l) >? L) then Err tt
      else Ok (set_leases m (<[cid := renew l t3]> (leases m)))
  | None => Ok (create_lease m cid t3)
  end.

Definition is_valid (m : LeaseManager) (cid now : Z) : bool :=
  match leases m !! cid with Some l => negb (is_expired l now) | None => false end.
Definition get_remaining (m : LeaseManager) (cid now : Z) : option Z :=
  (fun l => lease_remaining l now) <$> leases m !! cid.
Definition remove_lease (m : LeaseManager) (cid : Z) : LeaseManager :=
  set_leases m (delete cid (leases m)).

Definition get_expired_clients (m : LeaseManager) (now : Z) : list Z :=
  omap (fun kv => if is_expired kv.2 now then Some kv.1 else None) (map_to_list (leases m)).
Definition cleanup_expired (m : LeaseManager) (now : Z) : LeaseManager :=
  set_leases m (filter (fun kv => is_expired kv.2 now = false) (leases m)).

Definition in_grace_period (m : LeaseManager) (now : Z) : bool :=
  if grace_ended m then false else Z.max 0 (now - server_start m) <? grace_period m.
Definition grace_remaining (m : LeaseManager) (now : Z) : Z :=
  if grace_ended m then 0 else Z.max 0 (grace_period m - Z.max 0 (now - server_start m)).

Definition lease_count (m : LeaseManager) : Z := Z.of_nat (size (leases m)).
Definition live_clients (m : LeaseManager) (now : Z) : list Z :=
  omap (fun kv => if is_expired kv.2 now then None else Some (l_client_id kv.2)) (map_to_list (leases m)).
Definition live_count (m : LeaseManager) (now : Z) : Z :=
  Z.of_nat (length (filter (fun kv : Z * Lease => is_expired kv.2 now = false) (map_to_list (leases m)))).

(** ** Validity *)
Lemma is_expired_true l now : is_expired l now = true <-> expires_at l < now.
Proof. unfold is_expired. rewrite Z.gtb_ltb. apply Z.ltb_lt. Qed.
Lemma is_expired_false l now : is_expired l now = false <-> now <= expires_at l.
Proof. unfold is_expired. rewrite Z.gtb_ltb. apply Z.ltb_ge. Qed.

Lemma elem_of_expired m now cid :
  cid ∈ get_expired_clients m now <-> exists l, leases m !! cid = Some l /\ expires_at l < now.
Proof.
  unfold get_expired_clients. rewrite list_elem_of_omap. split.
  - intros ([c l] & Hin & Hs). simpl in Hs. apply elem_of_map_to_list in Hin.
    destruct (is_expired l now) eqn:He; simplify_eq. apply is_expired_true in He. eauto.
  - intros (l & Hl & He%is_expired_true). exists (cid, l). rewrite elem_of_map_to_list.
    split; [done|]. simpl. by rewrite He.
Qed.

(** A renewal is refused exactly when the lease lapsed more than one lease
    time ago; one that succeeds keeps the client valid for a full lease time
    and touches no other client. *)
Lemma renew_lease_spec m cid t1 t2 t3 : 0 < L -> t1 <= t2 ->
  match renew_lease m cid t1 t2 t3 with
  | Ok m' => (forall l, leases m !! cid = Some l -> t1 <= expires_at l \/ t2 <= expires_at l + L) /\
      (forall now, is_valid m' cid now = true <-> now <= t3 + L) /\
      (forall c, c <> cid -> leases m' !! c = leases m !! c) /\
      (grace_ended m', server_start m', grace_period m') = (grace_ended m, server_start m, grace_period m)
  | Err _ => exists l, leases m !! cid = Some l /\ expires_at l + L < t2
  end.
Proof.
  intros HL Ht. unfold renew_lease. destruct (leases m !! cid) as [l|] eqn:Hl.
  - destruct (is_expired l t1 && (Z.max 0 (t2 - expires_at l) >? L)) eqn:Hb.
    + bool_Z. exists l. split; [done|lia].
    + split_and!; try done.
      * intros l' [= <-]. apply andb_false_iff in Hb as [Hb|Hb]; [left; by apply is_expired_false|right].
        bool_Z. lia.
      * intros now. unfold is_valid. simpl. rewrite lookup_insert_eq.
        rewrite negb_true_iff, is_expired_false. done.
      * intros c Hc. simpl. by rewrite lookup_insert_ne.
  - split_and!; try done.
    + intros now. unfold is_valid. simpl. rewrite lookup_insert_eq.
      rewrite negb_true_iff, is_expired_false. done.
    + intros c Hc. simpl. by rewrite lookup_insert_ne.
Qed.

(** ** A client that keeps renewing is never refused *)
Fixpoint renewals (m : LeaseManager) (cid : Z) (times : list Z) : result unit LeaseManager :=
  match times with
  | [] => Ok m
  | t :: times => m' ← renew_lease m cid t t t; renewals m' cid times
  end.

Fixpoint spaced (gap t : Z) (times : list Z) : Prop :=
  match times with
  | [] => True
  | t' :: times => t <= t' <= t + gap /\ spaced gap t' times
  end.

Lemma renewals_succeed cid times : 0 < L -> forall m t0 l,
  leases m !! cid = Some l -> expires_at l = t0 + L -> spaced (2 * L) t0 times ->
  exists m', renewals m cid times = Ok m' /\
    forall now, is_valid m' cid now = true <-> now <= default t0 (last times) + L.
Proof.
  intros HL. induction times as [|t times IH]; intros m t0 l Hl He Hsp; simpl.
  { exists m. split; [done|]. intros now. unfold is_valid. rewrite Hl.
    rewrite negb_true_iff, is_expired_false, He. done. }
  destruct Hsp as [Ht Hsp]. unfold renew_lease at 1. rewrite Hl.
  destruct (is_expired l t && (Z.max 0 (t - expires_at l) >? L)) eqn:Hb; [bool_Z; lia|]. cbn.
  destruct (IH (set_leases m (<[cid := renew l t]> (leases m))) t (renew l t)) as (m' & -> & Hv);
    [simpl; by rewrite lookup_insert_eq|done|done|].
  exists m'. split; [done|]. intros now. rewrite Hv, last_cons. by destruct (last times).
Qed.

(** ** Grace is one-way *)
Inductive lease_step : LeaseManager -> LeaseManager -> Prop :=
| LS_create m cid now : lease_step m (create_lease m cid now)
| LS_renew m cid t1 t2 t3 m' : renew_lease m cid t1 t2 t3 = Ok m' -> lease_step m m'
| LS_remove m cid : lease_step m (remove_lease m cid)
| LS_cleanup m now : lease_step m (cleanup_expired m now)
| LS_reclaim m b : lease_step m (set_anything_reclaimable m b)
| LS_end m : lease_step m (end_grace m).

Lemma grace_one_way m m' t t' :
  lease_step m m' -> t <= t' -> in_grace_period m t = false -> in_grace_period m' t' = false.
Proof.
  intros Hst Ht Hg.
  assert (Hm : grace_ended m' = true \/
    (grace_ended m', server_start m', grace_period m') = (grace_ended m, server_start m, grace_period m)).
  { destruct Hst as [| m cid t1 t2 t3 m' Hr| | | |]; try (right; done); [|by left]. right.
    unfold renew_lease in Hr. repeat case_match; simplify_eq; done. }
  unfold in_grace_period in *. destruct Hm as [->|[= -> -> ->]]; [done|].
  destruct (grace_ended m); [done|]. bool_Z. apply Z.ltb_ge. lia.
Qed.
End lease.
