(* ===== verification/NfsClaims.v ===== *)
(** What the NFS protocol layer guarantees: XDR round trips and its
    allocation guard, exactly-once SEQUENCE processing and the reply cache,
    the session manager's book-keeping, leases and grace. *)

From stdpp Require Import relations.
From S2P Require Import Prelude Csv Xdr Session Lease.

(** ** XDR *)

(** Every XDR decoder reads back what its encoder wrote, whatever was
    encoded before it and whatever follows: integers, booleans, opaque data
    and strings (up to 2^32 - 1 bytes, padded), fixed opaque data, optional
    values and arrays of anything that reads back. *)
Theorem xdr_round_trip :
  (forall x, is_u32 x -> reads_back encode_u32 decode_u32 x) /\
  (forall x, is_u64 x -> reads_back encode_u64 decode_u64 x) /\
  (forall b, reads_back encode_bool decode_bool b) /\
  (forall data, fits_u32 data -> reads_back encode_opaque decode_opaque data) /\
  (forall s, fits_u32 s -> utf8_valid s = true -> reads_back encode_string decode_string s) /\
  (forall data, fits_u32 data ->
     reads_back encode_fixed_opaque (decode_fixed_opaque (Z.of_nat (length data))) data) /\
  (forall T (enc : bytes -> T -> bytes) (dec : decoder T) o, (forall x, o = Some x -> reads_back enc dec x) ->
     reads_back (fun buf o => encode_option buf o enc) (decode_option dec) o) /\
  (forall T (enc : bytes -> T -> bytes) (dec : decoder T) items, wide enc ->
     Z.of_nat (length items) <= u32_max -> (forall x, x ∈ items -> reads_back enc dec x) ->
     reads_back (fun buf l => encode_array buf l enc) (decode_array dec) items).
Proof.
  split_and!; intros.
  - by apply u32_reads_back.
  - by apply u64_reads_back.
  - by apply bool_reads_back.
  - by apply opaque_reads_back.
  - by apply string_reads_back.
  - by apply fixed_reads_back.
  - by apply option_reads_back.
  - by apply array_reads_back.
Qed.

(** Round trips compose.  Any type with an XDR codec -- and options,
    arrays and pairs of such types have one -- reads back from any message
    that contains it. *)
Theorem codec_round_trip T (c : XdrCodec T) (before rest : bytes) (x : T) :
  xdr_valid x ->
  exists w, xdr_encode before x = before ++ w /\ xdr_decode (w ++ rest) = Ok (x, rest).
Proof. intros Hx. destruct (xdr_reads x Hx) as (w & He & Hd). exists w. by rewrite He, Hd. Qed.

Lemma codec_round_trip_witness :
  exists w, xdr_encode [9] [(true, Some [1; 2; 3]); (false, None)] = [9] ++ w /\
    xdr_decode (w ++ [4]) = Ok ([(true, Some [1; 2; 3]); (false, None)], [4]).
Proof.
  apply (codec_round_trip (list (bool * option bytes)) _ [9] [4]).
  split; [vm_compute; congruence|]. repeat constructor; vm_compute; congruence.
Defined.

(** The array-length guard is exact in the direction that matters: it
    never rejects a message whose elements could be decoded, and a count it
    accepts never asks for more elements than the remaining bytes can hold. *)
Theorem array_guard_exact T (dec : decoder T) buf r :
  Forall is_byte buf -> consumes 4 dec -> decode_array_unguarded dec buf = Ok r ->
  decode_array dec buf = Ok r /\
  forall count rem min n, 0 <= rem -> 0 < min -> checked_array_len count rem min = Ok n ->
    n = count /\ n * min <= rem.
Proof.
  intros Hb Hk Hr. split; [by apply guard_never_rejects|]. intros. by apply guard_bounds.
Qed.

Lemma array_guard_exact_witness :
  decode_array decode_u32 [0; 0; 0; 2; 0; 0; 0; 7; 0; 0; 1; 0] = Ok ([7; 256], []) /\
  forall count rem min n, 0 <= rem -> 0 < min -> checked_array_len count rem min = Ok n ->
    n = count /\ n * min <= rem.
Proof.
  apply array_guard_exact; [|intros buf x buf'|vm_compute; reflexivity].
  - repeat constructor; vm_compute; congruence.
  - unfold decode_u32, remaining. destruct (Z.ltb_spec (Z.of_nat (length buf)) 4); [done|].
    intros [= _ <-]. rewrite length_drop. lia.
Defined.

(** ** Sessions *)

(** C20: exactly once.  In any SEQUENCE traffic on a session, the requests a
    slot accepts as new carry consecutive sequence ids (mod 2^32) from where
    the slot stood, so fewer than 2^32 of them are pairwise different: no
    request is executed twice. *)
Theorem exactly_once {Cred} (s : Session Cred) slot reqs :
  0 <= slot -> Forall (fun r => 0 <= r.1) reqs -> wf_slots s -> 0 <= seq_of s slot <= u32_max ->
  let done := executed slot (serve s reqs).1 in
  done = succs (seq_of s slot) (length done) /\
  (Z.of_nat (length done) <= 2 ^ 32 -> NoDup done).
Proof.
  intros Hs Hr Hwf Hq done_.
  assert (He : done_ = succs (seq_of s slot) (length done_)) by (by apply executed_succs).
  split; [done|]. intros Hn. rewrite He. by apply succs_NoDup.
Qed.

Definition demo_session : Session unit := Session_new 1 7 0 0 4096 4096 16 8 4 0 None 1.

Lemma exactly_once_witness :
  let done := executed 0 (serve demo_session [(0, 1); (1, 1); (0, 1); (0, 2); (0, 9); (0, 2); (0, 3)]).1 in
  done = succs (seq_of demo_session 0) (length done) /\
  (Z.of_nat (length done) <= 2 ^ 32 -> NoDup done).
Proof.
  apply exactly_once; [lia|repeat constructor; simpl; lia|repeat constructor; simpl; vm_compute; congruence
    |vm_compute; split; congruence].
Defined.

(** The reply cache.  Once a new request's reply is cached (within the
    negotiated limit), a resend of that request gets that reply back byte for
    byte and changes nothing, whatever traffic the other slots carried in
    between. *)
Theorem replay_returns_reply {Cred} (s s1 : Session Cred) slot sq reply reqs :
  0 <= slot -> wf_slots s -> process_sequence s slot sq = Ok (New, s1) ->
  Z.of_nat (length reply) <= fore_chan_maxresponsesize_cached s1 ->
  Forall (fun r => 0 <= r.1 /\ r.1 <> slot) reqs ->
  let s3 := (serve (cache_response s1 slot reply) reqs).2 in
  process_sequence s3 slot sq = Ok (Replay (Some reply), s3).
Proof.
  intros Hs Hwf Hnew Hlen Hreqs s3.
  destruct (process_New _ _ _ _ Hwf Hs Hnew) as (Hq & Hwf1 & _ & (i & Hsl) & _).
  destruct (cache_response_slot s1 slot i sq None reply Hsl Hwf1 Hlen) as [H2 Hwf2].
  rewrite <- (serve_other slot reqs Hs _ Hwf2 Hreqs) in H2. fold s3 in H2.
  rewrite (process_cases s3 slot sq _ H2).
  - simpl. by rewrite Z.eqb_refl.
  - by apply (Forall_lookup_1 _ _ _ _ Hwf1 Hsl).
Qed.

Definition demo_session1 : Session unit :=
  match process_sequence demo_session 0 1 with Ok (_, s) => s | Err _ => demo_session end.

Lemma replay_returns_reply_witness :
  let s3 := (serve (cache_response demo_session1 0 [1; 2; 3]) [(1, 1); (2, 1); (1, 2)]).2 in
  process_sequence s3 0 1 = Ok (Replay (Some [1; 2; 3]), s3).
Proof.
  apply (replay_returns_reply demo_session demo_session1 0 1 [1; 2; 3] [(1, 1); (2, 1); (1, 2)]);
    [lia|repeat constructor; simpl; vm_compute; congruence|vm_compute; reflexivity|vm_compute; congruence
    |repeat constructor; simpl; lia].
Defined.

(** The manager's writing operations; [f] is a closure handed to
    [get_session_mut]. *)
Inductive mgr_step {Cred} : SessionManager Cred -> SessionManager Cred -> Prop :=
| MS_create m draws cid a1 a2 a3 a4 a5 a6 a7 a8 cred minor s m' :
    create_session m draws cid a1 a2 a3 a4 a5 a6 a7 a8 cred minor = Some (s, m') -> mgr_step m m'
| MS_load m records : mgr_step m (load_records m records)
| MS_update m R id (f : Session Cred -> R * Session Cred) :
    keeps_identity f -> mgr_step m (get_session_mut m id f).2
| MS_destroy m id m' : destroy_session m id = Ok m' -> mgr_step m m'
| MS_destroy_client m cid : mgr_step m (destroy_client_sessions m cid).

Lemma mgr_step_inv {Cred} (m m' : SessionManager Cred) : mgr_step m m' -> mgr_inv m -> mgr_inv m'.
Proof.
  intros Hst Hi. destruct Hst as [m draws cid a1 a2 a3 a4 a5 a6 a7 a8 cred minor s m' Hc
    |m records|m R id f Hf|m id m' Hd|m cid].
  - by apply (create_session_inv _ _ _ _ _ _ _ _ _ _ _ _ _ _ _ Hi Hc).
  - destruct Hi as [Hl Hv Hn]. by split.
  - by apply get_session_mut_inv.
  - by apply (destroy_session_spec _ _ _ Hi Hd).
  - by apply destroy_all_spec.
Qed.

(** The session manager's two maps agree: in every state it can reach, a
    client's session list is exactly its live sessions, without duplicates --
    so the quota count is the number of live sessions -- and destroying a
    client's sessions removes those and no others. *)
Theorem session_maps_agree {Cred} (m : SessionManager Cred) cid :
  rtc mgr_step SessionManager_new m ->
  (forall id, id ∈ get_client_sessions m cid <-> exists s, get_session m id = Some s /\ client_id s = cid) /\
  NoDup (get_client_sessions m cid) /\
  (forall id s, get_session (destroy_client_sessions m cid) id = Some s <->
     get_session m id = Some s /\ client_id s <> cid).
Proof.
  intros Hr. assert (Hi : mgr_inv m).
  { assert (H0 : @mgr_inv Cred SessionManager_new) by apply new_inv. revert H0.
    induction Hr as [|x y z Hxy _ IH]; [done|]. intros Hx. by apply IH, (mgr_step_inv x). }
  split_and!; [by intros; apply elem_of_client_sessions|apply Hi|].
  intros id s. destruct (destroy_all_spec (get_client_sessions m cid) m Hi) as [_ Hs].
  unfold get_session, destroy_client_sessions. rewrite Hs, (elem_of_client_sessions m cid id Hi).
  split; intros [Hg Hn]; (split; [done|]).
  - intros Hc. apply Hn. eauto.
  - intros (x & Hx & Hc). congruence.
Qed.

Definition demo_mgr : SessionManager unit :=
  match create_session SessionManager_new [5] 7 0 0 4096 4096 16 8 4 0 None 1 with
  | Some (_, m) => m
  | None => SessionManager_new
  end.

Lemma session_maps_agree_witness :
  (forall id, id ∈ get_client_sessions demo_mgr 7 <->
     exists s, get_session demo_mgr id = Some s /\ client_id s = 7) /\
  NoDup (get_client_sessions demo_mgr 7) /\
  (forall id s, get_session (destroy_client_sessions demo_mgr 7) id = Some s <->
     get_session demo_mgr id = Some s /\ client_id s <> 7).
Proof.
  apply session_maps_agree. apply rtc_once.
  apply (MS_create _ [5] 7 0 0 4096 4096 16 8 4 0 None 1
    (Session_new (make_id 5 7) 7 0 0 4096 4096 16 8 4 0 None 1)). reflexivity.
Defined.

(** ** Leases *)

(** A lease renewal is refused only when the lease lapsed more than one
    lease time before; one that succeeds makes the client valid for exactly
    one lease time from the renewal and touches no other client's lease. *)
Theorem renewal_window L m cid t1 t2 t3 :
  0 < L -> t1 <= t2 ->
  match renew_lease L m cid t1 t2 t3 with
  | Ok m' => (forall l, leases m !! cid = Some l -> t1 <= expires_at l \/ t2 <= expires_at l + L) /\
      (forall now, is_valid m' cid now = true <-> now <= t3 + L) /\
      (forall c, c <> cid -> leases m' !! c = leases m !! c) /\
      (grace_ended m', server_start m', grace_period m') = (grace_ended m, server_start m, grace_period m)
  | Err _ => exists l, leases m !! cid = Some l /\ expires_at l + L < t2
  end.
Proof. apply renew_lease_spec. Qed.

Lemma renewal_window_witness :
  match renew_lease 90 (create_lease 90 (LeaseManager_new 0 90) 7 10) 7 150 151 152 with
  | Ok m' => (forall l, leases (create_lease 90 (LeaseManager_new 0 90) 7 10) !! 7 = Some l ->
        150 <= expires_at l \/ 151 <= expires_at l + 90) /\
      (forall now, is_valid m' 7 now = true <-> now <= 152 + 90) /\
      (forall c, c <> 7 -> leases m' !! c = leases (create_lease 90 (LeaseManager_new 0 90) 7 10) !! c) /\
      (grace_ended m', server_start m', grace_period m') =
      (grace_ended (create_lease 90 (LeaseManager_new 0 90) 7 10),
       server_start (create_lease 90 (LeaseManager_new 0 90) 7 10),
       grace_period (create_lease 90 (LeaseManager_new 0 90) 7 10))
  | Err _ => exists l, leases (create_lease 90 (LeaseManager_new 0 90) 7 10) !! 7 = Some l /\
      expires_at l + 90 < 151
  end.
Proof. apply renewal_window; lia. Defined.

(** A client that renews at intervals of at most two lease times is never
    refused, and after its last renewal it stays valid for one lease time. *)
Theorem steady_client_keeps_lease L m cid t0 times :
  0 < L -> spaced (2 * L) t0 times ->
  exists m', renewals L (create_lease L m cid t0) cid times = Ok m' /\
    forall now, is_valid m' cid now = true <-> now <= default t0 (last times) + L.
Proof.
  intros HL Hsp. apply (renewals_succeed L cid times HL _ t0 (Lease_new L cid t0)); try done.
  simpl. by rewrite lookup_insert_eq.
Qed.

Lemma steady_client_keeps_lease_witness :
  exists m', renewals 90 (create_lease 90 (LeaseManager_new 0 90) 7 10) 7 [60; 240; 420] = Ok m' /\
    forall now, is_valid m' 7 now = true <-> now <= default 10 (last [60; 240; 420]) + 90.
Proof. apply steady_client_keeps_lease; [lia|simpl; lia]. Defined.

(** Grace is one-way: whatever the lease manager does, once the server is
    out of its grace period it never re-enters it. *)
Theorem grace_never_returns L m m' t t' :
  rtc (lease_step L) m m' -> t <= t' -> in_grace_period m t = false -> in_grace_period m' t' = false.
Proof.
  intros Hst. revert t. induction Hst as [m|m1 m2 m3 H12 _ IH]; intros t Ht Hg.
  - unfold in_grace_period in *. destruct (grace_ended m); [done|]. bool_Z. apply Z.ltb_ge. lia.
  - apply (IH t); [done|]. by apply (grace_one_way L m1 m2 t).
Qed.

Lemma grace_never_returns_witness :
  in_grace_period (create_lease 90 (end_grace (LeaseManager_new 0 90)) 7 20) 50 = false.
Proof.
  apply (grace_never_returns 90 (end_grace (LeaseManager_new 0 90)) _ 10 50);
    [apply rtc_once, LS_create|lia|reflexivity].
Defined.
