(* ===== verification/Stateid.v ===== *)
(** NFSv4 stateids (nfs/v4/state/stateid.rs): the table of every open, lock
    and delegation stateid, the open-owner index behind OPEN, CLOSE and
    OPEN_DOWNGRADE, share reservations, and the persisted rows a restart
    loads.

    The 12-byte [other] of a stateid is one big-endian number below 2^96:
    bytes 0..8 are [o / 2^32], bytes 8..12 are [o mod 2^32].  [sm_db] is the
    backend's stateid table as its ordered write queue leaves it. *)

From S2P Require Import Prelude Xdr.

(** nfsstat4 values the modelled operations answer, and any other status a
    peer sends, by its wire value. *)
Inductive Nfs4Status :=
| NFS_Ok | NFS_Inval | NFS_Delay | NFS_Denied | NFS_Grace | NFS_NoGrace | NFS_NoFileHandle
| NFS_OldStateId | NFS_BadStateId | NFS_LocksHeld | NFS_BadSession | NFS_DelegRevoked
| NFS_Perm | NFS_NoEnt | NFS_NotSame | NFS_TooSmall | NFS_ClIdInUse | NFS_StaleClientId | NFS_BadSessionId
| NFS_SeqMisordered | NFS_RepTooBigToCache | NFS_RetryUncachedRep | NFS_EncrAlgUnsupp | NFS_ClientIdBusy
| NFS_WrongCred | NFS_ConnNotBoundToSession | NFS_BadHandle | NFS_Status (code : Z).
#[global] Instance Nfs4Status_eq : EqDecision Nfs4Status.
Proof. solve_decision. Defined.

Record StateId := Sid { sid_seqid : Z; sid_other : Z }.
#[global] Instance StateId_eq : EqDecision StateId.
Proof. solve_decision. Defined.

Definition ANONYMOUS_STATEID : StateId := Sid 0 0.
Definition READ_BYPASS_STATEID : StateId := Sid u32_max (2 ^ 96 - 1).
Definition CLOSED_TOMBSTONES : nat := 8192.
Definition BREAKER_MARKER_TAG : Z := 252.

Inductive CloseOutcome := Closed | OldStateId | Revoked | NotFound.
Inductive StateType := TyOpen | TyLock | TyDelegation.
Inductive StateTypeRecord := ROpen | RLock | RDelegation.
#[global] Instance StateType_eq : EqDecision StateType.
Proof. solve_decision. Defined.
#[global] Instance StateTypeRecord_eq : EqDecision StateTypeRecord.
Proof. solve_decision. Defined.

Record OpenOwnerRecord := OwnerRec { oo_owner : bytes; oo_access : Z; oo_deny : Z }.
Record StateEntry := Entry {
  en_stateid : StateId; en_type : StateType; en_client : Z; en_seqid : Z;
  en_fh : option bytes; en_revoked : bool; en_open : option OpenOwnerRecord }.
Record StateIdRecord := SidRecord {
  r_other : Z; r_seqid : Z; r_type : StateTypeRecord; r_client : Z;
  r_fh : option bytes; r_revoked : bool; r_open : option OpenOwnerRecord }.
Record OpenState := OpenSt {
  os_other : Z; os_seqid : Z; os_access : Z; os_deny : Z; os_verifier : option Z }.
Record LoadedMarkers := Markers { deleg_holders : list Z; breaker_trip_unix : option Z }.

Notation open_key := (Z * bytes * bytes)%type.

Record StateIdManager := SidMgr {
  next_stateid : Z;
  stateid_tag : option Z;
  states : gmap Z StateEntry;
  client_states : gmap Z (list Z);
  open_states : gmap open_key OpenState;
  open_state_keys : gmap Z open_key;
  opens_by_fh : gmap bytes (list (Z * bytes));
  fhs_by_ident : gmap (Z * Z) (list bytes);
  idents_by_fh : gmap bytes (Z * Z);
  closed_recently : list Z * gset Z;
  (** calls of the cached-descriptor release sink, oldest first *)
  fd_released : list Z;
  sm_db : gmap Z StateIdRecord }.

Definition StateIdManager_new : StateIdManager :=
  SidMgr 1 None ∅ ∅ ∅ ∅ ∅ ∅ ∅ ([], ∅) [] ∅.

Definition set_next x (m : StateIdManager) :=
  SidMgr x (stateid_tag m) (states m) (client_states m) (open_states m) (open_state_keys m)
    (opens_by_fh m) (fhs_by_ident m) (idents_by_fh m) (closed_recently m) (fd_released m)
    (sm_db m).
Definition set_tag x (m : StateIdManager) :=
  SidMgr (next_stateid m) x (states m) (client_states m) (open_states m) (open_state_keys m)
    (opens_by_fh m) (fhs_by_ident m) (idents_by_fh m) (closed_recently m) (fd_released m)
    (sm_db m).
Definition set_states x (m : StateIdManager) :=
  SidMgr (next_stateid m) (stateid_tag m) x (client_states m) (open_states m)
    (open_state_keys m) (opens_by_fh m) (fhs_by_ident m) (idents_by_fh m) (closed_recently m)
    (fd_released m) (sm_db m).
Definition set_client_states x (m : StateIdManager) :=
  SidMgr (next_stateid m) (stateid_tag m) (states m) x (open_states m) (open_state_keys m)
    (opens_by_fh m) (fhs_by_ident m) (idents_by_fh m) (closed_recently m) (fd_released m)
    (sm_db m).
Definition set_open_states x (m : StateIdManager) :=
  SidMgr (next_stateid m) (stateid_tag m) (states m) (client_states m) x (open_state_keys m)
    (opens_by_fh m) (fhs_by_ident m) (idents_by_fh m) (closed_recently m) (fd_released m)
    (sm_db m).
Definition set_keys x (m : StateIdManager) :=
  SidMgr (next_stateid m) (stateid_tag m) (states m) (client_states m) (open_states m) x
    (opens_by_fh m) (fhs_by_ident m) (idents_by_fh m) (closed_recently m) (fd_released m)
    (sm_db m).
Definition set_by_fh x (m : StateIdManager) :=
  SidMgr (next_stateid m) (stateid_tag m) (states m) (client_states m) (open_states m)
    (open_state_keys m) x (fhs_by_ident m) (idents_by_fh m) (closed_recently m) (fd_released m)
    (sm_db m).
Definition set_fhs x (m : StateIdManager) :=
  SidMgr (next_stateid m) (stateid_tag m) (states m) (client_states m) (open_states m)
    (open_state_keys m) (opens_by_fh m) x (idents_by_fh m) (closed_recently m) (fd_released m)
    (sm_db m).
Definition set_idents x (m : StateIdManager) :=
  SidMgr (next_stateid m) (stateid_tag m) (states m) (client_states m) (open_states m)
    (open_state_keys m) (opens_by_fh m) (fhs_by_ident m) x (closed_recently m) (fd_released m)
    (sm_db m).
Definition set_closed x (m : StateIdManager) :=
  SidMgr (next_stateid m) (stateid_tag m) (states m) (client_states m) (open_states m)
    (open_state_keys m) (opens_by_fh m) (fhs_by_ident m) (idents_by_fh m) x (fd_released m)
    (sm_db m).
Definition set_released x (m : StateIdManager) :=
  SidMgr (next_stateid m) (stateid_tag m) (states m) (client_states m) (open_states m)
    (open_state_keys m) (opens_by_fh m) (fhs_by_ident m) (idents_by_fh m) (closed_recently m) x
    (sm_db m).
Definition set_db x (m : StateIdManager) :=
  SidMgr (next_stateid m) (stateid_tag m) (states m) (client_states m) (open_states m)
    (open_state_keys m) (opens_by_fh m) (fhs_by_ident m) (idents_by_fh m) (closed_recently m)
    (fd_released m) x.

(** ** Entries and their persisted form *)
Definition type_record (t : StateType) : StateTypeRecord :=
  match t with TyOpen => ROpen | TyLock => RLock | TyDelegation => RDelegation end.
Definition record_type (t : StateTypeRecord) : StateType :=
  match t with ROpen => TyOpen | RLock => TyLock | RDelegation => TyDelegation end.

Definition to_record (e : StateEntry) : StateIdRecord :=
  SidRecord (sid_other (en_stateid e)) (en_seqid e) (type_record (en_type e)) (en_client e)
    (en_fh e) (en_revoked e) (en_open e).
Definition from_record (r : StateIdRecord) : StateEntry :=
  Entry (Sid (r_seqid r) (r_other r)) (record_type (r_type r)) (r_client r) (r_seqid r)
    (r_fh r) (r_revoked r) (r_open r).
Definition Entry_new (s : StateId) (ty : StateType) (client : Z) (fh : option bytes) : StateEntry :=
  Entry s ty client (sid_seqid s) fh false None.

Definition with_seqid (q : Z) (e : StateEntry) : StateEntry :=
  Entry (Sid q (sid_other (en_stateid e))) (en_type e) (en_client e) q (en_fh e) (en_revoked e) (en_open e).
Definition with_open (oo : OpenOwnerRecord) (e : StateEntry) : StateEntry :=
  Entry (en_stateid e) (en_type e) (en_client e) (en_seqid e) (en_fh e) (en_revoked e) (Some oo).
(** [self.seqid += 1] (release build: wraps). *)
Definition increment_seqid (e : StateEntry) : StateEntry := with_seqid (wrap_u32 (en_seqid e + 1)) e.
Definition entry_revoke (e : StateEntry) : StateEntry :=
  Entry (en_stateid e) (en_type e) (en_client e) (en_seqid e) (en_fh e) true (en_open e).

Definition persist (e : StateEntry) (m : StateIdManager) : StateIdManager :=
  set_db (<[sid_other (en_stateid e) := to_record e]> (sm_db m)) m.
Definition persist_delete (o : Z) (m : StateIdManager) : StateIdManager :=
  set_db (delete o (sm_db m)) m.
Definition release_fd (o : Z) (m : StateIdManager) : StateIdManager :=
  set_released (fd_released m ++ [o]) m.

(** ** Tombstones of recently closed stateids *)
Definition push_tombstone (o : Z) (m : StateIdManager) : StateIdManager :=
  let '(ring, seen) := closed_recently m in
  if bool_decide (o ∈ seen) then m
  else
    let ring' := ring ++ [o] in
    let seen' := {[o]} ∪ seen in
    if (CLOSED_TOMBSTONES <? length ring')%nat
    then match ring' with
         | evicted :: rest => set_closed (rest, seen' ∖ {[evicted]}) m
         | [] => set_closed (ring', seen') m
         end
    else set_closed (ring', seen') m.
Definition recently_closed (m : StateIdManager) (o : Z) : bool := bool_decide (o ∈ (closed_recently m).2).

(** ** Share reservations *)
Definition find_open (m : StateIdManager) (client : Z) (owner fh : bytes) : option OpenState :=
  open_states m !! (client, owner, fh).

Definition masks_conflict (st : OpenState) (access deny : Z) : bool :=
  negb (Z.land (os_deny st) access =? 0) || negb (Z.land (os_access st) deny =? 0).

Definition share_conflict (m : StateIdManager) (fh : bytes) (client : Z) (owner : bytes)
    (access deny : Z) : bool :=
  existsb (fun '(c, ow) =>
    negb (bool_decide (c = client) && bool_decide (ow = owner)) &&
    match open_states m !! (c, ow, fh) with
    | Some st => masks_conflict st access deny
    | None => false
    end) (default [] (opens_by_fh m !! fh)).

Definition find_exclusive_match (m : StateIdManager) (fh : bytes) (verifier : Z) : option OpenState :=
  head (omap (fun '(c, ow) =>
    match open_states m !! (c, ow, fh) with
    | Some st => if bool_decide (os_verifier st = Some verifier) then Some st else None
    | None => None
    end) (default [] (opens_by_fh m !! fh))).

(** ** Inode identity of open files *)
Definition drop_fh_from (fh : bytes) (i : Z * Z) (t : gmap (Z * Z) (list bytes)) : gmap (Z * Z) (list bytes) :=
  match t !! i with
  | Some v => let v' := filter (fun f => f <> fh) v in
              if bool_decide (v' = []) then delete i t else <[i := v']> t
  | None => t
  end.
Definition add_fh_to (fh : bytes) (i : Z * Z) (t : gmap (Z * Z) (list bytes)) : gmap (Z * Z) (list bytes) :=
  let v := default [] (t !! i) in
  if bool_decide (fh ∈ v) then t else <[i := v ++ [fh]]> t.

Definition index_ident (fh : bytes) (ident : option (Z * Z)) (m : StateIdManager) : StateIdManager :=
  match ident with
  | None => m
  | Some i =>
      let t := match idents_by_fh m !! fh with
               | Some old => if bool_decide (old = i) then fhs_by_ident m else drop_fh_from fh old (fhs_by_ident m)
               | None => fhs_by_ident m
               end in
      set_fhs (add_fh_to fh i t) (set_idents (<[fh := i]> (idents_by_fh m)) m)
  end.

Definition drop_fh_if_unopened (fh : bytes) (m : StateIdManager) : StateIdManager :=
  match opens_by_fh m !! fh with
  | Some [] =>
      let m1 := match idents_by_fh m !! fh with
                | Some i => set_fhs (drop_fh_from fh i (fhs_by_ident m))
                              (set_idents (delete fh (idents_by_fh m)) m)
                | None => m
                end in
      set_by_fh (delete fh (opens_by_fh m)) m1
  | _ => m
  end.

Definition file_has_write_open (m : StateIdManager) (dev ino : Z) : bool :=
  existsb (fun fh =>
    existsb (fun '(c, ow) =>
      match open_states m !! (c, ow, fh) with
      | Some st => negb (Z.land (os_access st) 2 =? 0)
      | None => false
      end) (default [] (opens_by_fh m !! fh)))
    (default [] (fhs_by_ident m !! (dev, ino))).

(** ** Minting *)
Definition set_stateid_tag (tag : Z) (m : StateIdManager) : bool * StateIdManager :=
  match stateid_tag m with
  | Some t => (t =? tag, m)
  | None => (true, set_tag (Some tag) m)
  end.

Definition add_entry (e : StateEntry) (m : StateIdManager) : StateIdManager :=
  let o := sid_other (en_stateid e) in
  set_client_states (<[en_client e := default [] (client_states m !! en_client e) ++ [o]]> (client_states m))
    (set_states (<[o := e]> (states m)) m).

Definition allocate (ty : StateType) (client : Z) (fh : option bytes) (m : StateIdManager) :
    StateId * StateIdManager :=
  let id := next_stateid m in
  let low := default (wrap_u32 client) (stateid_tag m) in
  let s := Sid 1 (id * 2 ^ 32 + low) in
  let e := Entry_new s ty client fh in
  (s, add_entry e (persist e (set_next (wrap_u64 (id + 1)) m))).

(** [epoch] is the boot epoch (clock nanoseconds xor the process id). *)
Definition allocate_delegation (epoch client : Z) (fh : bytes) (m : StateIdManager) :
    StateId * StateIdManager :=
  let id := next_stateid m in
  let o := match stateid_tag m with
           | Some tag => Z.lxor id (Z.shiftl (Z.lor epoch 1) 32) * 2 ^ 32 + tag
           | None => id * 2 ^ 32 + Z.lxor (wrap_u32 client) epoch
           end in
  let s := Sid 1 o in
  (s, add_entry (Entry_new s TyDelegation client (Some fh)) (set_next (wrap_u64 (id + 1)) m)).

Definition stamp_open (o : Z) (owner : bytes) (access deny : Z) (m : StateIdManager) : StateIdManager :=
  match states m !! o with
  | Some e => let e' := with_open (OwnerRec owner access deny) e in
              persist e' (set_states (<[o := e']> (states m)) m)
  | None => m
  end.

(** ** OPEN and OPEN_DOWNGRADE *)
Definition push_owner (client : Z) (owner fh : bytes) (m : StateIdManager) : StateIdManager :=
  let l := default [] (opens_by_fh m !! fh) in
  set_by_fh (<[fh := if bool_decide ((client, owner) ∈ l) then l else l ++ [(client, owner)]]> (opens_by_fh m)) m.

(** Mint a stateid for the open and stamp it into the indices; the vacant
    and the stale arms of [record_open]. *)
Definition fresh_open (client : Z) (owner fh : bytes) (access deny : Z) (verifier : option Z)
    (ident : option (Z * Z)) (m : StateIdManager) : StateId * StateIdManager :=
  let key := (client, owner, fh) in
  let '(s, m1) := allocate TyOpen client (Some fh) m in
  let m2 := stamp_open (sid_other s) owner access deny m1 in
  let m3 := set_keys (<[sid_other s := key]> (open_state_keys m2)) m2 in
  let m4 := set_open_states
    (<[key := OpenSt (sid_other s) (sid_seqid s) access deny verifier]> (open_states m3)) m3 in
  (s, index_ident fh ident (push_owner client owner fh m4)).

(** Set a live open's masks and sequence id, in its open record and in its
    master entry, and persist the entry. *)
Definition reseat_open (key : open_key) (st : OpenState) (q access deny : Z) (m : StateIdManager) :
    StateId * StateIdManager :=
  let st' := OpenSt (os_other st) q access deny (os_verifier st) in
  let m1 := set_open_states (<[key := st']> (open_states m)) m in
  (Sid q (os_other st),
   match states m1 !! os_other st with
   | Some e => let e' := with_open (OwnerRec key.1.2 access deny) (with_seqid q e) in
               persist e' (set_states (<[os_other st := e']> (states m1)) m1)
   | None => m1
   end).

Definition remove_key_if (o : Z) (key : open_key) (m : StateIdManager) : StateIdManager :=
  if bool_decide (open_state_keys m !! o = Some key)
  then set_keys (delete o (open_state_keys m)) m else m.

Definition master_alive (m : StateIdManager) (o : Z) : bool :=
  match states m !! o with Some e => negb (en_revoked e) | None => false end.

Definition record_open (client : Z) (owner fh : bytes) (access deny : Z) (verifier : option Z)
    (ident : option (Z * Z)) (m0 : StateIdManager) : StateId * StateIdManager :=
  let key := (client, owner, fh) in
  let m := index_ident fh ident m0 in
  match open_states m !! key with
  | Some st =>
      if master_alive m (os_other st)
      then reseat_open key st (wrap_u32 (os_seqid st + 1)) (Z.lor (os_access st) access)
             (Z.lor (os_deny st) deny) m
      else fresh_open client owner fh access deny verifier ident (remove_key_if (os_other st) key m)
  | None => fresh_open client owner fh access deny verifier ident m
  end.

(** The scan of [open_states] for a stateid. *)
Definition open_by_other (m : StateIdManager) (o : Z) : option open_key :=
  head (omap (fun '(k, st) => if os_other st =? o then Some k else None) (map_to_list (open_states m))).

(** [a & !b] on u32 masks. *)
Definition not_subset (a b : Z) : bool := negb (Z.ldiff a b =? 0).

Definition downgrade_open (s : StateId) (access deny : Z) (m : StateIdManager) :
    result Nfs4Status (StateId * StateIdManager) :=
  match open_by_other m (sid_other s) with
  | None => Err NFS_BadStateId
  | Some key =>
      match open_states m !! key with
      | None => Err NFS_BadStateId
      | Some st =>
          if (access =? 0) || not_subset access (os_access st) || not_subset deny (os_deny st)
          then Err NFS_Inval
          else Ok (reseat_open key st (wrap_u32 (os_seqid st + 1)) access deny m)
      end
  end.

(** ** Validation *)
Inductive sid_error :=
| SidNotFound | SidRevoked | SidSeqMismatch (expected got : Z) | SidOtherFile | SidCannotUpdate.

Definition is_special (s : StateId) : bool :=
  bool_decide (s = ANONYMOUS_STATEID) || bool_decide (s = READ_BYPASS_STATEID).

Definition belongs_to_other_client (m : StateIdManager) (s : StateId) (client : Z) : bool :=
  if is_special s then false
  else match states m !! sid_other s with Some e => negb (en_client e =? client) | None => false end.

Definition is_delegation (m : StateIdManager) (s : StateId) : bool :=
  if is_special s then false
  else match states m !! sid_other s with
       | Some e => bool_decide (en_type e = TyDelegation)
       | None => false
       end.

Definition invalid_status (m : StateIdManager) (s : StateId) : Nfs4Status :=
  match states m !! sid_other s with
  | Some e => if en_revoked e && bool_decide (en_type e = TyDelegation) then NFS_DelegRevoked
              else NFS_BadStateId
  | None => NFS_BadStateId
  end.

Definition validate (m : StateIdManager) (s : StateId) : result sid_error unit :=
  if is_special s then Ok tt
  else match states m !! sid_other s with
       | None => Err SidNotFound
       | Some e =>
           if en_revoked e then Err SidRevoked
           else if (sid_seqid s =? 0) || (sid_seqid s =? en_seqid e) then Ok tt
           else Err (SidSeqMismatch (en_seqid e) (sid_seqid s))
       end.

Definition validate_fh (m : StateIdManager) (s : StateId) (fh : bytes) : result sid_error unit :=
  if is_special s then Ok tt
  else match states m !! sid_other s with
       | Some e => match en_fh e with
                   | Some f => if bool_decide (f = fh) then Ok tt else Err SidOtherFile
                   | None => Ok tt
                   end
       | None => Ok tt
       end.

Definition validate_for_read (m : StateIdManager) (s : StateId) : result sid_error unit :=
  if is_special s then Ok tt
  else match states m !! sid_other s with
       | None => Err SidNotFound
       | Some e =>
           if en_revoked e then Err SidRevoked
           else if (sid_seqid s =? 0) || (sid_seqid s =? en_seqid e)
                   || (sid_seqid s =? Z.max 0 (en_seqid e - 1)) then Ok tt
           else Err (SidSeqMismatch (en_seqid e) (sid_seqid s))
       end.

Definition update_seqid (s : StateId) (m : StateIdManager) : result sid_error (StateId * StateIdManager) :=
  match states m !! sid_other s with
  | None => Err SidNotFound
  | Some e =>
      if en_revoked e then Err SidCannotUpdate
      else let e' := increment_seqid e in
           Ok (en_stateid e', persist e' (set_states (<[sid_other s := e']> (states m)) m))
  end.

Definition get_state (m : StateIdManager) (s : StateId) : option StateEntry := states m !! sid_other s.

Definition revoke (s : StateId) (m : StateIdManager) : result sid_error StateIdManager :=
  match states m !! sid_other s with
  | Some e => let e' := entry_revoke e in
              Ok (persist e' (set_states (<[sid_other s := e']> (states m)) m))
  | None => Err SidNotFound
  end.

(** ** Removal *)
Definition unlist (o client : Z) (m : StateIdManager) : StateIdManager :=
  match client_states m !! client with
  | Some l => set_client_states (<[client := filter (fun x => x <> o) l]> (client_states m)) m
  | None => m
  end.

(** [remove] and [remove_master] have the same body. *)
Definition remove_master (o : Z) (m : StateIdManager) : StateIdManager :=
  match states m !! o with
  | Some e =>
      release_fd o (persist_delete o (unlist o (en_client e) (set_states (delete o (states m)) m)))
  | None => m
  end.
Definition remove (s : StateId) (m : StateIdManager) : StateIdManager := remove_master (sid_other s) m.

(** [Some now_empty] when the open at [key] satisfied [pred] and is gone. *)
Definition remove_open_under_entry (key : open_key) (pred : OpenState -> bool) (m : StateIdManager) :
    option bool * StateIdManager :=
  match open_states m !! key with
  | Some st =>
      if pred st then
        let '(client, owner, fh) := key in
        let m1 := set_open_states (delete key (open_states m)) m in
        match opens_by_fh m !! fh with
        | Some owners =>
            let owners' := filter (fun co => co <> (client, owner)) owners in
            (Some (bool_decide (owners' = [])), set_by_fh (<[fh := owners']> (opens_by_fh m)) m1)
        | None => (Some false, m1)
        end
      else (None, m)
  | None => (None, m)
  end.

Definition finish_close (o : Z) (key : open_key) (fh_now_empty : bool) (m : StateIdManager) : StateIdManager :=
  let m1 := remove_key_if o key (push_tombstone o m) in
  let m2 := if fh_now_empty then drop_fh_if_unopened key.2 m1 else m1 in
  remove_master o m2.

Definition close_open (s : StateId) (m : StateIdManager) : CloseOutcome * StateIdManager :=
  let o := sid_other s in
  match open_state_keys m !! o with
  | None =>
      (if recently_closed m o then OldStateId
       else match states m !! o with
            | Some e => if en_revoked e then Revoked else NotFound
            | None => NotFound
            end, m)
  | Some key =>
      let m1 := push_tombstone o m in
      match remove_open_under_entry key
              (fun v => (os_other v =? o) && ((sid_seqid s =? 0) || (sid_seqid s =? os_seqid v))) m1 with
      | (Some now_empty, m2) => (Closed, finish_close o key now_empty m2)
      | (None, m2) =>
          (match open_states m2 !! key with
           | Some v => if os_other v =? o then OldStateId
                       else if recently_closed m2 o then OldStateId else NotFound
           | None => if recently_closed m2 o then OldStateId else NotFound
           end, m2)
      end
  end.

Definition close_open_state (o : Z) (m : StateIdManager) : StateIdManager :=
  let m1 := push_tombstone o m in
  match open_state_keys m1 !! o with
  | Some key =>
      match remove_open_under_entry key (fun v => os_other v =? o) m1 with
      | (Some now_empty, m2) => finish_close o key now_empty m2
      | (None, m2) => push_tombstone o (remove_master o (remove_key_if o key m2))
      end
  | None => push_tombstone o (remove_master o m1)
  end.

(** ** Per-client operations *)
Definition count_for_client (m : StateIdManager) (client : Z) : nat :=
  length (default [] (client_states m !! client)).
Definition get_client_stateids (m : StateIdManager) (client : Z) : list StateId :=
  omap (fun o => en_stateid <$> states m !! o) (default [] (client_states m !! client)).

Definition revoke_client_stateids (client : Z) (m : StateIdManager) : StateIdManager :=
  foldl (fun m s => match revoke s m with Ok m' => m' | Err _ => m end) m (get_client_stateids m client).

Definition client_opens (m : StateIdManager) (client : Z) : list open_key :=
  omap (fun '(k, _) => if bool_decide (k.1.1 = client) then Some k else None) (map_to_list (open_states m)).

Definition drop_open (m : StateIdManager) (key : open_key) : StateIdManager :=
  match remove_open_under_entry key (fun _ => true) m with
  | (Some true, m') => drop_fh_if_unopened key.2 m'
  | (_, m') => m'
  end.

Definition remove_client_stateids (client : Z) (m : StateIdManager) : StateIdManager :=
  let m1 := match client_states m !! client with
            | Some l =>
                let m' := foldl (fun m o =>
                  release_fd o (persist_delete o (set_states (delete o (states m)) m))) m l in
                set_client_states (delete client (client_states m')) m'
            | None => m
            end in
  foldl drop_open m1 (client_opens m1 client).

Definition active_count (m : StateIdManager) : nat := size (states m).
Definition count_by_type (m : StateIdManager) (ty : StateType) : nat :=
  length (filter (fun '(_, e) => en_type e = ty /\ en_revoked e = false) (map_to_list (states m))).

(** ** Restart *)
Definition load_open (r : StateIdRecord) (m : StateIdManager) : StateIdManager :=
  match r_type r, r_revoked r, r_open r, r_fh r with
  | ROpen, false, Some oo, Some fh =>
      let key := (r_client r, oo_owner oo, fh) in
      let m1 := set_keys (<[r_other r := key]> (open_state_keys m)) m in
      let m2 := set_open_states
        (<[key := OpenSt (r_other r) (r_seqid r) (oo_access oo) (oo_deny oo) None]> (open_states m1)) m1 in
      push_owner (r_client r) (oo_owner oo) fh m2
  | _, _, _, _ => m
  end.

Definition load_record (r : StateIdRecord) (st : Z * LoadedMarkers * StateIdManager) :
    Z * LoadedMarkers * StateIdManager :=
  let '(maxc, mk, m) := st in
  if bool_decide (r_type r = RDelegation) then
    if r_other r / 2 ^ 88 =? BREAKER_MARKER_TAG
    then (maxc, Markers (deleg_holders mk) (Some (r_other r mod 2 ^ 64)), m)
    else (maxc, Markers (deleg_holders mk ++ [r_client r]) (breaker_trip_unix mk), m)
  else (Z.max maxc (r_other r / 2 ^ 32), mk, add_entry (from_record r) (load_open r m)).

Definition load_records (records : list StateIdRecord) (m : StateIdManager) : LoadedMarkers * StateIdManager :=
  let '(maxc, mk, m') := foldl (fun st r => load_record r st) (0, Markers [] None, m) records in
  (mk, if next_stateid m' <=? maxc then set_next (wrap_u64 (maxc + 1)) m' else m').
