(* ===== verification/StateidInv.v ===== *)
(** The invariant of the stateid table: every index agrees with the tables
    it indexes, and the persisted rows are the live entries.  Every operation
    of [Stateid] keeps it. *)

From S2P Require Import Prelude Xdr Stateid.

(** [o] came out of the counter: a plain id below it, or (tagged hubs) a
    delegation id with the boot epoch in its high half. *)
Definition minted (m : StateIdManager) (o : Z) : Prop :=
  0 <= o / 2 ^ 32 < next_stateid m \/
  (is_Some (stateid_tag m) /\ 2 ^ 32 <= o / 2 ^ 32 /\ (o / 2 ^ 32) mod 2 ^ 32 < next_stateid m).

Definition opened (m : StateIdManager) (k : open_key) (st : OpenState) : Prop := open_states m !! k = Some st.
Definition listed (m : StateIdManager) (c : Z) : list Z := default [] (client_states m !! c).
Definition owners_of (m : StateIdManager) (fh : bytes) : list (Z * bytes) := default [] (opens_by_fh m !! fh).

(** The master entry says what the open record says. *)
Record describes (e : StateEntry) (k : open_key) (st : OpenState) : Prop := {
  ds_type : en_type e = TyOpen;
  ds_client : en_client e = k.1.1;
  ds_fh : en_fh e = Some k.2;
  ds_seqid : en_seqid e = os_seqid st;
  ds_open : en_open e = Some (OwnerRec k.1.2 (os_access st) (os_deny st)) }.

(** A live open's master entry: the row a restart rebuilds the open from. *)
Definition live_row (e : StateEntry) (oo : OpenOwnerRecord) (fh : bytes) : Prop :=
  en_type e = TyOpen /\ en_revoked e = false /\ en_open e = Some oo /\ en_fh e = Some fh.

(** [x] is an entry whose open record is being put in or taken out. *)
Record sid_core_ex (x : option Z) (m : StateIdManager) : Prop := {
  sc_next : 0 < next_stateid m;
  sc_tag : forall t, stateid_tag m = Some t -> is_u32 t;
  sc_minted : forall o e, states m !! o = Some e -> minted m o;
  sc_plain : forall o e, states m !! o = Some e -> en_type e <> TyDelegation -> 0 <= o / 2 ^ 32 < next_stateid m;
  sc_key_minted : forall o k, open_state_keys m !! o = Some k -> minted m o;
  sc_id : forall o e, states m !! o = Some e -> en_stateid e = Sid (en_seqid e) o;
  sc_clients : forall c o, o ∈ listed m c <-> exists e, states m !! o = Some e /\ en_client e = c;
  sc_nodup : forall c, NoDup (listed m c);
  sc_keys : forall k st, opened m k st -> open_state_keys m !! os_other st = Some k;
  sc_owners : forall c ow fh, (c, ow) ∈ owners_of m fh <-> exists st, opened m (c, ow, fh) st;
  sc_owners_nodup : forall fh, NoDup (owners_of m fh);
  sc_master : forall k st e, opened m k st -> states m !! os_other st = Some e -> describes e k st;
  sc_live : forall o e oo fh, x <> Some o -> states m !! o = Some e -> live_row e oo fh ->
    exists st, opened m (en_client e, oo_owner oo, fh) st /\ os_other st = o;
  sc_db : forall o r, sm_db m !! o = Some r /\ r_type r <> RDelegation <->
    exists e, states m !! o = Some e /\ en_type e <> TyDelegation /\ r = to_record e }.

Notation sid_core := (sid_core_ex None).

(** The inode index is the inverse of the filehandle's identity, and a
    filehandle keeps its identity while it has an open. *)
Definition ident_ok (m : StateIdManager) : Prop := forall i fh,
  fh ∈ default [] (fhs_by_ident m !! i) <-> idents_by_fh m !! fh = Some i.

Definition sid_inv (m : StateIdManager) : Prop := sid_core m /\ ident_ok m.

(** The fields the core invariant reads. *)
Definition core_fields (m : StateIdManager) :=
  (next_stateid m, stateid_tag m, states m, client_states m, open_states m, open_state_keys m,
   opens_by_fh m, sm_db m).

Lemma core_frame x m m' : core_fields m' = core_fields m -> sid_core_ex x m -> sid_core_ex x m'.
Proof.
  destruct m, m'. unfold core_fields. simpl. intros [= <- <- <- <- <- <- <- <-] [].
  split; assumption.
Qed.

(** ** Identity index *)
Lemma elem_drop_fh fh i t j f :
  f ∈ default [] (drop_fh_from fh i t !! j) <-> f ∈ default [] (t !! j) /\ (f = fh -> j <> i).
Proof.
  unfold drop_fh_from. destruct (t !! i) as [v|] eqn:Hi.
  - case_bool_decide as Hv.
    + rewrite lookup_delete. destruct (decide (i = j)) as [->|Hne]; [|naive_solver].
      rewrite Hi. simpl. split; [by intros ?%elem_of_nil|]. intros [Hf Hn]. exfalso.
      assert (f ∈ filter (fun x => x <> fh) v) as Hx by (apply list_elem_of_filter; split; [intros ->; by apply Hn|done]).
      rewrite Hv in Hx. by apply elem_of_nil in Hx.
    + rewrite lookup_insert. destruct (decide (i = j)) as [->|Hne]; [|naive_solver].
      rewrite Hi. simpl. rewrite list_elem_of_filter. naive_solver.
  - split; [|by intros [? _]]. intros Hf. split; [done|]. intros -> ->. rewrite Hi in Hf.
    by apply elem_of_nil in Hf.
Qed.

Lemma elem_add_fh fh i t j f :
  f ∈ default [] (add_fh_to fh i t !! j) <-> f ∈ default [] (t !! j) \/ (f = fh /\ j = i).
Proof.
  unfold add_fh_to. case_bool_decide as Hv; [naive_solver|].
  rewrite lookup_insert. destruct (decide (i = j)) as [->|Hne]; [|naive_solver].
  simpl. rewrite elem_of_app, list_elem_of_singleton. naive_solver.
Qed.

Lemma index_ident_ok fh ident m : ident_ok m -> ident_ok (index_ident fh ident m).
Proof.
  intros Hi. destruct ident as [i|]; [|done]. unfold index_ident. intros j f. simpl.
  rewrite elem_add_fh, lookup_insert.
  destruct (decide (fh = f)) as [->|Hne].
  - destruct (idents_by_fh m !! f) as [old|] eqn:Ho; [case_bool_decide as He|].
    + rewrite (Hi j f), Ho. naive_solver.
    + rewrite elem_drop_fh, (Hi j f), Ho. naive_solver.
    + rewrite (Hi j f), Ho. naive_solver.
  - destruct (idents_by_fh m !! fh) as [old|] eqn:Ho; [case_bool_decide as He|];
      rewrite ?elem_drop_fh, (Hi j f); naive_solver.
Qed.

Lemma drop_fh_ok fh m : ident_ok m -> ident_ok (drop_fh_if_unopened fh m).
Proof.
  intros Hi. unfold drop_fh_if_unopened. destruct (opens_by_fh m !! fh) as [[|]|] eqn:Ho; try done.
  destruct (idents_by_fh m !! fh) as [i|] eqn:Hf; [|done].
  intros j f. simpl. rewrite elem_drop_fh, lookup_delete, (Hi j f).
  destruct (decide (fh = f)) as [->|Hne]; [|naive_solver]. rewrite Hf. naive_solver.
Qed.

Lemma ident_frame m m' :
  fhs_by_ident m' = fhs_by_ident m -> idents_by_fh m' = idents_by_fh m -> ident_ok m -> ident_ok m'.
Proof. intros H1 H2 Hi i fh. rewrite H1, H2. apply Hi. Qed.

(** ** Minting *)
Lemma core_weaken o m : sid_core m -> sid_core_ex (Some o) m.
Proof. intros []. split; eauto. Qed.

Lemma minted_mono m m' o :
  stateid_tag m' = stateid_tag m -> next_stateid m <= next_stateid m' -> minted m o -> minted m' o.
Proof. unfold minted. intros ->. intros ? [?|(? & ? & ?)]; [left; lia|right; split_and!; [done|lia|lia]]. Qed.

Lemma core_add m m' e :
  let o := sid_other (en_stateid e) in
  sid_core m -> en_stateid e = Sid (en_seqid e) o -> en_open e = None ->
  ~ minted m o -> minted m' o -> (en_type e <> TyDelegation -> 0 <= o / 2 ^ 32 < next_stateid m') ->
  stateid_tag m' = stateid_tag m -> next_stateid m < next_stateid m' ->
  states m' = <[o := e]> (states m) ->
  client_states m' = <[en_client e := listed m (en_client e) ++ [o]]> (client_states m) ->
  open_states m' = open_states m -> open_state_keys m' = open_state_keys m ->
  opens_by_fh m' = opens_by_fh m ->
  sm_db m' = (if decide (en_type e = TyDelegation) then sm_db m else <[o := to_record e]> (sm_db m)) ->
  sid_core m'.
Proof.
  intros o Hc Hid Hno Hfr Hmt Hpl Htag Hnext Hst Hcl Hos Hks Hfh Hdb.
  assert (Hnew : states m !! o = None).
  { destruct (states m !! o) eqn:E; [|done]. by apply (sc_minted _ _ Hc) in E. }
  assert (Hlk : forall p f, states m' !! p = Some f <->
    (p = o /\ f = e) \/ (p <> o /\ states m !! p = Some f)).
  { intros p f. rewrite Hst, lookup_insert_Some. naive_solver. }
  assert (Hmono : forall p, minted m p -> minted m' p) by (intros p; apply minted_mono; [done|lia]).
  split.
  - pose proof (sc_next _ _ Hc). lia.
  - rewrite Htag. apply (sc_tag _ _ Hc).
  - intros p f [[-> ->]|[_ Hf]]%Hlk; [done|]. by eapply Hmono, (sc_minted _ _ Hc).
  - intros p f [[-> ->]|[_ Hf]]%Hlk Hty; [by apply Hpl|]. pose proof (sc_plain _ _ Hc _ _ Hf Hty). lia.
  - intros p k. rewrite Hks. intros Hk. by eapply Hmono, (sc_key_minted _ _ Hc).
  - intros p f [[-> ->]|[_ Hf]]%Hlk; [done|]. by apply (sc_id _ _ Hc).
  - intros c p. unfold listed. rewrite Hcl, lookup_insert.
    destruct (decide (en_client e = c)) as [<-|Hne]; simpl.
    + rewrite elem_of_app, list_elem_of_singleton, (sc_clients _ _ Hc). setoid_rewrite Hlk. split.
      * intros [(f & Hf & ?)| ->]; [|eauto]. exists f. split; [right|done]. split; [congruence|done].
      * intros (f & [[-> ->]|[_ Hf]] & ?); eauto.
    + fold (listed m c). rewrite (sc_clients _ _ Hc). setoid_rewrite Hlk. split.
      * intros (f & Hf & ?). exists f. split; [right|done]. split; [congruence|done].
      * intros (f & [[-> ->]|[_ Hf]] & ?); [done|eauto].
  - intros c. unfold listed. rewrite Hcl, lookup_insert.
    destruct (decide (en_client e = c)) as [<-|Hne]; simpl; [|apply (sc_nodup _ _ Hc)].
    apply NoDup_app. split_and!; [apply (sc_nodup _ _ Hc)| |apply NoDup_singleton].
    intros p Hp ->%list_elem_of_singleton. apply (sc_clients _ _ Hc) in Hp as (f & Hf & _). congruence.
  - intros k st. unfold opened. rewrite Hos, Hks. apply (sc_keys _ _ Hc).
  - intros c ow fh. unfold owners_of, opened. rewrite Hfh, Hos. apply (sc_owners _ _ Hc).
  - intros fh. unfold owners_of. rewrite Hfh. apply (sc_owners_nodup _ _ Hc).
  - intros k st f Hk. unfold opened in Hk. rewrite Hos in Hk. intros [[Ho ->]|[_ Hf]]%Hlk.
    + destruct Hfr. rewrite <- Ho. by eapply (sc_key_minted _ _ Hc), (sc_keys _ _ Hc).
    + by eapply (sc_master _ _ Hc).
  - intros p f oo fh _ [[-> ->]|[_ Hf]]%Hlk Hl; [destruct Hl as (_ & _ & Hl & _); congruence|].
    destruct (sc_live _ _ Hc p f oo fh) as (st & Hs & ?); try done. exists st.
    split; [|done]. unfold opened. by rewrite Hos.
  - intros p r. rewrite Hdb. setoid_rewrite Hlk. destruct (decide (p = o)) as [->|Hne].
    + case_decide as Hty.
      * rewrite (sc_db _ _ Hc). split; [intros (f & Hf & _); congruence|naive_solver].
      * rewrite lookup_insert_eq. split.
        { intros [[= <-] _]. exists e. naive_solver. }
        { intros (f & [[_ ->]|[? _]] & ? & ->); [|done]. split; [done|]. unfold to_record. simpl.
          by destruct (en_type e). }
    + assert ((if decide (en_type e = TyDelegation) then sm_db m else <[o := to_record e]> (sm_db m)) !! p
        = sm_db m !! p) as -> by (case_decide; [done|by rewrite lookup_insert_ne by congruence]).
      rewrite (sc_db _ _ Hc). naive_solver.
Qed.

(** The counter has an id left: no wrap, and under a hub tag it stays in its
    low half, so that delegation ids (epoch in the high half) keep apart. *)
Definition can_mint (m : StateIdManager) : Prop :=
  next_stateid m < 2 ^ 64 - 1 /\ (is_Some (stateid_tag m) -> next_stateid m < 2 ^ 32).

Lemma counter_of id low : 0 <= low < 2 ^ 32 -> (id * 2 ^ 32 + low) / 2 ^ 32 = id.
Proof. intros H. rewrite Z.div_add_l by lia. rewrite Z.div_small by lia. lia. Qed.

Lemma plain_fresh m o : sid_core m -> can_mint m -> o / 2 ^ 32 = next_stateid m -> ~ minted m o.
Proof. intros _ [_ Ht] Hd [?|(Htag & ? & ?)]; [lia|]. specialize (Ht Htag). lia. Qed.

Lemma next_bump m : sid_core m -> can_mint m ->
  wrap_u64 (next_stateid m + 1) = next_stateid m + 1.
Proof.
  intros Hc [? _]. pose proof (sc_next _ _ Hc). unfold wrap_u64. apply Z.mod_small. lia.
Qed.

Lemma low_range m client : sid_core m -> 0 <= default (wrap_u32 client) (stateid_tag m) < 2 ^ 32.
Proof.
  intros Hc. destruct (stateid_tag m) as [t|] eqn:Ht; simpl.
  - apply (sc_tag _ _ Hc) in Ht. unfold is_u32, u32_max in Ht. lia.
  - unfold wrap_u32. apply Z.mod_pos_bound. lia.
Qed.

Lemma allocate_core ty client fh m :
  ty <> TyDelegation -> sid_core m -> can_mint m -> sid_core (allocate ty client fh m).2.
Proof.
  intros Hty Hc Hm. pose proof (low_range m client Hc) as Hlow. pose proof (counter_of (next_stateid m) _ Hlow) as Hd.
  pose proof (sc_next _ _ Hc).
  eapply (core_add m _ (Entry_new (Sid 1 (next_stateid m * 2 ^ 32 + _)) ty client fh)); try done; simpl.
  - by apply plain_fresh.
  - left. simpl. rewrite Hd, next_bump by done. lia.
  - intros _. rewrite Hd, next_bump by done. lia.
  - rewrite next_bump by done. lia.
  - by rewrite decide_False.
Qed.

Lemma mixed_counter id epoch :
  0 <= id < 2 ^ 32 -> 0 <= epoch ->
  let c := Z.lxor id (Z.shiftl (Z.lor epoch 1) 32) in
  c mod 2 ^ 32 = id /\ 2 ^ 32 <= c.
Proof.
  intros Hid He c.
  assert (Hpos : 1 <= Z.lor epoch 1).
  { assert (0 <= Z.lor epoch 1) by (apply Z.lor_nonneg; lia).
    destruct (decide (Z.lor epoch 1 = 0)) as [H0|]; [|lia]. apply Z.lor_eq_0_iff in H0. lia. }
  assert (Hc : c = id + Z.lor epoch 1 * 2 ^ 32).
  { unfold c. rewrite <- Z.add_nocarry_lxor; [by rewrite Z.shiftl_mul_pow2 by lia|].
    apply Z.bits_inj'. intros n Hn. rewrite Z.land_spec, Z.bits_0.
    destruct (decide (n < 32)) as [Hlt|Hge].
    - rewrite Z.shiftl_spec_low by done. by rewrite andb_false_r.
    - rewrite (Z.bits_above_log2 id n); [done|lia|].
      destruct (decide (id = 0)) as [->|]; [simpl; lia|]. apply Z.log2_lt_pow2; [lia|].
      apply Z.lt_le_trans with (2 ^ 32); [lia|]. apply Z.pow_le_mono_r; lia. }
  rewrite Hc. split; [|nia]. rewrite Z.mod_add by lia. apply Z.mod_small. lia.
Qed.

Lemma xor_low client epoch : is_u32 epoch -> 0 <= Z.lxor (wrap_u32 client) epoch < 2 ^ 32.
Proof.
  intros He. assert (0 <= wrap_u32 client < 2 ^ 32) by (unfold wrap_u32; apply Z.mod_pos_bound; lia).
  unfold is_u32, u32_max in He. split; [apply Z.lxor_nonneg; lia|].
  destruct (decide (Z.lxor (wrap_u32 client) epoch = 0)) as [->|Hn]; [lia|].
  apply Z.log2_lt_cancel. assert (0 <= Z.lxor (wrap_u32 client) epoch) by (apply Z.lxor_nonneg; lia).
  eapply Z.le_lt_trans; [apply Z.log2_lxor; lia|]. rewrite Z.log2_pow2 by lia.
  apply Z.max_lub_lt; (destruct (decide (0 < wrap_u32 client)); destruct (decide (0 < epoch));
    try (apply Z.log2_lt_pow2; lia); rewrite ?Z.log2_nonpos by lia; lia).
Qed.

(** A delegation id is new, too, and counts as minted once the counter has
    moved on. *)
Lemma delegation_fresh epoch client fh m : is_u32 epoch -> sid_core m -> can_mint m ->
  let r := allocate_delegation epoch client fh m in ~ minted m (sid_other r.1) /\ minted r.2 (sid_other r.1).
Proof.
  intros He Hc Hm. pose proof (sc_next _ _ Hc). pose proof (next_bump m Hc Hm) as Hb.
  unfold allocate_delegation. destruct (stateid_tag m) as [tag|] eqn:Ht; simpl.
  - destruct Hm as [Hm1 Hm2]. specialize (Hm2 ltac:(rewrite Ht; eauto)).
    assert (Htr : 0 <= tag < 2 ^ 32) by (apply (sc_tag _ _ Hc) in Ht; unfold is_u32, u32_max in Ht; lia).
    destruct (mixed_counter (next_stateid m) epoch) as [Hmod Hge]; [lia|destruct He; lia|].
    unfold minted. simpl. rewrite counter_of by done. rewrite Hb, Ht. split; [intros [?|(_ & _ & ?)]; lia|].
    right. split_and!; [done|lia|lia].
  - pose proof (xor_low client epoch He) as Hlow. split.
    + apply plain_fresh; [done|done|]. by apply counter_of.
    + left. simpl. rewrite counter_of by done. lia.
Qed.

Lemma allocate_delegation_core epoch client fh m :
  is_u32 epoch -> sid_core m -> can_mint m -> sid_core (allocate_delegation epoch client fh m).2.
Proof.
  intros He Hc Hm. pose proof (sc_next _ _ Hc). pose proof (next_bump m Hc Hm) as Hb.
  destruct (delegation_fresh epoch client fh m He Hc Hm) as [Hf Hi]. revert Hf Hi. unfold allocate_delegation.
  set (o := match stateid_tag m with Some _ => _ | None => _ end). simpl. intros Hf Hi.
  eapply (core_add m _ (Entry_new (Sid 1 o) TyDelegation client (Some fh))); try done. simpl. lia.
Qed.

(** ** Changing one entry in place *)
Lemma core_update x m m' o e e' :
  sid_core_ex x m -> states m !! o = Some e ->
  en_stateid e' = Sid (en_seqid e') o -> en_type e' = en_type e -> en_client e' = en_client e ->
  (forall k st, opened m k st -> os_other st = o -> describes e' k st) ->
  (forall oo fh, x <> Some o -> live_row e' oo fh -> live_row e oo fh) ->
  core_fields m' = (next_stateid m, stateid_tag m, <[o := e']> (states m), client_states m, open_states m,
    open_state_keys m, opens_by_fh m, <[o := to_record e']> (sm_db m)) ->
  sid_core_ex x m'.
Proof.
  intros Hc He Hid Hty Hcl Hds Hlv [= H1 H2 H3 H4 H5 H6 H7 H8].
  assert (Hlk : forall p f, states m' !! p = Some f <->
    (p = o /\ f = e') \/ (p <> o /\ states m !! p = Some f)).
  { intros p f. rewrite H3, lookup_insert_Some. naive_solver. }
  assert (Hm : forall p, minted m' p <-> minted m p) by (intros p; unfold minted; by rewrite H1, H2).
  split.
  - rewrite H1. apply Hc.
  - rewrite H2. apply Hc.
  - intros p f [[-> ->]|[_ Hf]]%Hlk; apply Hm; by eapply (sc_minted _ _ Hc).
  - rewrite H1. intros p f [[-> ->]|[_ Hf]]%Hlk Ht.
    + apply (sc_plain _ _ Hc _ _ He). congruence.
    + by eapply (sc_plain _ _ Hc).
  - intros p k. rewrite H6, Hm. apply (sc_key_minted _ _ Hc).
  - intros p f [[-> ->]|[_ Hf]]%Hlk; [done|]. by apply (sc_id _ _ Hc).
  - intros c p. unfold listed. rewrite H4. rewrite (sc_clients _ _ Hc c p). setoid_rewrite Hlk. split.
    + intros (f & Hf & Hfc). destruct (decide (p = o)) as [->|]; [|eauto 10].
      exists e'. split; [by left|]. congruence.
    + intros (f & [[-> ->]|[_ Hf]] & ?); [|eauto]. exists e. split; [done|congruence].
  - intros c. unfold listed. rewrite H4. apply (sc_nodup _ _ Hc).
  - intros k st. unfold opened. rewrite H5, H6. apply (sc_keys _ _ Hc).
  - intros c ow fh. unfold owners_of, opened. rewrite H7, H5. apply (sc_owners _ _ Hc).
  - intros fh. unfold owners_of. rewrite H7. apply (sc_owners_nodup _ _ Hc).
  - intros k st f. unfold opened. rewrite H5. intros Hk [[Ho ->]|[_ Hf]]%Hlk; [by apply Hds|].
    by eapply (sc_master _ _ Hc).
  - intros p f oo fh Hx. unfold opened. rewrite H5. intros [[-> ->]|[_ Hf]]%Hlk Hl.
    + rewrite Hcl. by apply (sc_live _ _ Hc o e oo fh); [done|done|apply Hlv].
    + by apply (sc_live _ _ Hc p f oo fh).
  - intros p r. rewrite H8. setoid_rewrite Hlk. destruct (decide (p = o)) as [->|Hne].
    + rewrite lookup_insert_eq. split.
      * intros [[= <-] Hr]. exists e'. split_and!; [by left| |done]. intros Ht. apply Hr. simpl. by rewrite Ht.
      * intros (f & [[_ ->]|[? _]] & Ht & ->); [|done]. split; [done|]. simpl. by destruct (en_type e').
    + rewrite lookup_insert_ne by congruence. rewrite (sc_db _ _ Hc). naive_solver.
Qed.

Lemma update_seqid_core s m s' m' e :
  sid_core m -> states m !! sid_other s = Some e -> en_type e <> TyOpen ->
  update_seqid s m = Ok (s', m') -> sid_core m'.
Proof.
  intros Hc He Hty. unfold update_seqid. rewrite He. destruct (en_revoked e) eqn:Hr; [done|].
  intros [= <- <-]. pose proof (sc_id _ _ Hc _ _ He) as Hid.
  apply (core_update None m _ (sid_other s) e (increment_seqid e)); try done.
  - simpl. by rewrite Hid.
  - intros k st Hk Ho. rewrite <- Ho in He. destruct (sc_master _ _ Hc _ _ _ Hk He). done.
  - unfold core_fields. simpl. by rewrite Hid.
Qed.

Lemma revoke_core s m m' : sid_core m -> revoke s m = Ok m' -> sid_core m'.
Proof.
  intros Hc. unfold revoke. destruct (states m !! sid_other s) as [e|] eqn:He; [|done]. intros [= <-].
  pose proof (sc_id _ _ Hc _ _ He) as Hid.
  apply (core_update None m _ (sid_other s) e (entry_revoke e)); try done.
  - intros k st Hk Ho. rewrite <- Ho in He. by destruct (sc_master _ _ Hc _ _ _ Hk He).
  - intros oo fh _ (_ & [=] & _).
  - unfold core_fields. simpl. by rewrite Hid.
Qed.

(** ** Removing an entry *)
Lemma elem_filter_ne {A} `{EqDecision A} (a b : A) (l : list A) : a ∈ filter (fun y => y <> b) l <-> a ∈ l /\ a <> b.
Proof. rewrite list_elem_of_filter. tauto. Qed.

Lemma core_unex o m : sid_core_ex (Some o) m -> states m !! o = None -> sid_core m.
Proof.
  intros [] He. split; try done.
  intros p f oo fh _ Hf. apply sc_live0; [|done]. intros [= ->]. congruence.
Qed.

Lemma remove_master_core o m : sid_core_ex (Some o) m -> sid_core (remove_master o m).
Proof.
  intros Hc. unfold remove_master. destruct (states m !! o) as [e|] eqn:He.
  2: by apply (core_unex o).
  assert (Hlk : forall p f, delete o (states m) !! p = Some f <-> p <> o /\ states m !! p = Some f).
  { intros p f. rewrite lookup_delete_Some. naive_solver. }
  set (m1 := release_fd _ _).
  assert (Hfields : states m1 = delete o (states m) /\ next_stateid m1 = next_stateid m /\
    stateid_tag m1 = stateid_tag m /\ open_states m1 = open_states m /\
    open_state_keys m1 = open_state_keys m /\ opens_by_fh m1 = opens_by_fh m /\ sm_db m1 = delete o (sm_db m)).
  { unfold m1, unlist. simpl. by destruct (client_states m !! en_client e). }
  assert (Hcs : forall c, listed m1 c =
    if decide (c = en_client e) then filter (fun y => y <> o) (listed m c) else listed m c).
  { intros c. unfold m1, unlist, listed. simpl.
    destruct (client_states m !! en_client e) as [l|] eqn:El; simpl.
    - rewrite lookup_insert. destruct (decide (c = en_client e)) as [->|Hne].
      + by rewrite decide_True, El.
      + by rewrite decide_False by congruence.
    - case_decide as H; [|done]. subst. by rewrite El. }
  destruct Hfields as (H3 & H1 & H2 & H5 & H6 & H7 & H8).
  assert (Hm : forall p, minted m1 p <-> minted m p) by (intros p; unfold minted; by rewrite H1, H2).
  split.
  - rewrite H1. apply Hc.
  - rewrite H2. apply Hc.
  - intros p f. rewrite H3, Hlk, Hm. intros [_ ?]. by eapply (sc_minted _ _ Hc).
  - intros p f. rewrite H3, Hlk, H1. intros [_ ?]. by eapply (sc_plain _ _ Hc).
  - intros p k. rewrite H6, Hm. apply (sc_key_minted _ _ Hc).
  - intros p f. rewrite H3, Hlk. intros [_ ?]. by apply (sc_id _ _ Hc).
  - intros c p. rewrite Hcs, H3. setoid_rewrite Hlk. pose proof (sc_clients _ _ Hc c p) as Hl.
    case_decide as Hce; [rewrite elem_filter_ne|]; rewrite Hl; split.
    + intros [(f & ? & ?) ?]. eauto.
    + intros (f & [? ?] & ?). eauto.
    + intros (f & ? & ?). exists f. split_and!; [congruence|done|done].
    + intros (f & [? ?] & ?). eauto.
  - intros c. rewrite Hcs. case_decide; [apply NoDup_filter|]; apply (sc_nodup _ _ Hc).
  - intros k st. unfold opened. rewrite H5, H6. apply (sc_keys _ _ Hc).
  - intros c ow fh. unfold owners_of, opened. rewrite H7, H5. apply (sc_owners _ _ Hc).
  - intros fh. unfold owners_of. rewrite H7. apply (sc_owners_nodup _ _ Hc).
  - intros k st f. unfold opened. rewrite H5, H3, Hlk. intros Hk [_ Hf]. by eapply (sc_master _ _ Hc).
  - intros p f oo fh _. unfold opened. rewrite H5, H3, Hlk. intros [Hne Hf] Hl.
    apply (sc_live _ _ Hc p f oo fh); [congruence|done|done].
  - intros p r. rewrite H8, H3. setoid_rewrite Hlk. rewrite lookup_delete_Some.
    pose proof (sc_db _ _ Hc p r) as Hd. split.
    + intros [[Hne Hr] Ht]. destruct (proj1 Hd) as (f & ? & ? & ?); [done|]. exists f. naive_solver.
    + intros (f & [Hne Hf] & Ht & ->). destruct (proj2 Hd) as [? ?]; naive_solver.
Qed.

(** ** Putting an open in *)
Definition owners_with (l : list (Z * bytes)) (co : Z * bytes) : list (Z * bytes) :=
  if bool_decide (co ∈ l) then l else l ++ [co].

Lemma elem_owners_with l co x : x ∈ owners_with l co <-> x ∈ l \/ x = co.
Proof.
  unfold owners_with. case_bool_decide; [naive_solver|].
  rewrite elem_of_app, list_elem_of_singleton. done.
Qed.

Lemma owners_with_nodup l co : NoDup l -> NoDup (owners_with l co).
Proof.
  unfold owners_with. case_bool_decide; [done|]. intros Hn. apply NoDup_app.
  split_and!; [done| |apply NoDup_singleton]. intros x Hx ->%list_elem_of_singleton. done.
Qed.

(** One open record goes in (or is replaced), its master entry with it. *)
Lemma core_install m m' o e e' st' c ow fh K x :
  let key := (c, ow, fh) in
  sid_core_ex x m -> (x = None \/ x = Some o) -> states m !! o = Some e ->
  en_type e = TyOpen -> en_client e = c ->
  en_stateid e' = Sid (en_seqid e') o -> en_client e' = c -> os_other st' = o -> describes e' key st' ->
  (forall k st, opened m k st -> os_other st = o -> k = key) ->
  (forall st p f, opened m key st -> p <> o -> os_other st = p -> states m !! p = Some f -> en_revoked f = true) ->
  (forall p k, K !! p = Some k -> open_state_keys m !! p = Some k) ->
  (forall k st, opened m k st -> k <> key -> K !! os_other st = Some k) ->
  core_fields m' = (next_stateid m, stateid_tag m, <[o := e']> (states m), client_states m,
    <[key := st']> (open_states m), <[o := key]> K,
    <[fh := owners_with (owners_of m fh) (c, ow)]> (opens_by_fh m), <[o := to_record e']> (sm_db m)) ->
  sid_core m'.
Proof.
  intros key Hc Hx He Hty Hcl Hid Hcl' Hos' Hds Hone Hstale HK HK' [= H1 H2 H3 H4 H5 H6 H7 H8].
  assert (Hlk : forall p f, states m' !! p = Some f <->
    (p = o /\ f = e') \/ (p <> o /\ states m !! p = Some f)).
  { intros p f. rewrite H3, lookup_insert_Some. naive_solver. }
  assert (Hop : forall k st, opened m' k st <-> (k = key /\ st = st') \/ (k <> key /\ opened m k st)).
  { intros k st. unfold opened. rewrite H5, lookup_insert_Some. naive_solver. }
  assert (Hm : forall p, minted m' p <-> minted m p) by (intros p; unfold minted; by rewrite H1, H2).
  split.
  - rewrite H1. apply Hc.
  - rewrite H2. apply Hc.
  - intros p f [[-> ->]|[_ Hf]]%Hlk; apply Hm; by eapply (sc_minted _ _ Hc).
  - rewrite H1. intros p f [[-> ->]|[_ Hf]]%Hlk Ht; [|by eapply (sc_plain _ _ Hc)].
    apply (sc_plain _ _ Hc _ _ He). congruence.
  - intros p k. rewrite H6, lookup_insert_Some, Hm. intros [[<- _]|[_ Hk]].
    + by eapply (sc_minted _ _ Hc).
    + by eapply (sc_key_minted _ _ Hc), HK.
  - intros p f [[-> ->]|[_ Hf]]%Hlk; [done|]. by apply (sc_id _ _ Hc).
  - intros d p. unfold listed. rewrite H4, (sc_clients _ _ Hc d p). setoid_rewrite Hlk. split.
    + intros (f & Hf & Hfc). destruct (decide (p = o)) as [->|]; [|eauto 10].
      exists e'. split; [by left|]. congruence.
    + intros (f & [[-> ->]|[_ Hf]] & ?); [|eauto]. exists e. split; [done|congruence].
  - intros d. unfold listed. rewrite H4. apply (sc_nodup _ _ Hc).
  - intros k st [[-> ->]|[Hne Hk]]%Hop; rewrite H6.
    + by rewrite Hos', lookup_insert_eq.
    + rewrite lookup_insert_ne; [by apply HK'|]. intros Ho. apply Hne. by apply (Hone k st).
  - intros d w f. unfold owners_of. rewrite H7, lookup_insert. setoid_rewrite Hop.
    destruct (decide (fh = f)) as [<-|Hne]; simpl.
    + rewrite elem_owners_with, (sc_owners _ _ Hc). split.
      * intros [(st & Hs)|[= -> ->]]; [|eauto].
        destruct (decide ((d, w, fh) = key)) as [->|]; eauto.
      * intros (st & [[[= -> ->] ->]|[_ Hs]]); eauto.
    + fold (owners_of m f). rewrite (sc_owners _ _ Hc). split.
      * intros (st & Hs). exists st. right. split; [unfold key; congruence|done].
      * intros (st & [[[= -> -> ->] ->]|[_ Hs]]); [done|eauto].
  - intros f. unfold owners_of. rewrite H7, lookup_insert. case_decide; simpl; [|apply (sc_owners_nodup _ _ Hc)].
    apply owners_with_nodup, (sc_owners_nodup _ _ Hc).
  - intros k st f [[-> ->]|[Hne Hk]]%Hop [[Ho ->]|[Hno Hf]]%Hlk.
    + done.
    + by destruct Hno.
    + destruct Hne. by apply (Hone k st).
    + by eapply (sc_master _ _ Hc).
  - intros p f oo g _ Hf Hl. setoid_rewrite Hop. apply Hlk in Hf as [[-> ->]|[Hne Hf]].
    + exists st'. split; [left|done]. destruct Hl as (_ & _ & Ho & Hg). rewrite Hcl'.
      destruct Hds as [_ _ Hg' _ Ho']. rewrite Ho in Ho'. rewrite Hg in Hg'. simplify_eq/=. done.
    + destruct (sc_live _ _ Hc p f oo g) as (st & Hs & Hso); [destruct Hx as [->| ->]; congruence|done|done|].
      exists st. split; [right|done]. split; [|done]. intros Hk. rewrite Hk in Hs.
      destruct Hl as (_ & Hr & _). rewrite (Hstale st p f Hs Hne Hso Hf) in Hr. done.
  - intros p r. rewrite H8. setoid_rewrite Hlk. destruct (decide (p = o)) as [->|Hne].
    + rewrite lookup_insert_eq. destruct Hds as [Ht _ _ _ _]. split.
      * intros [[= <-] Hr]. exists e'. split_and!; [by left|congruence|done].
      * intros (f & [[_ ->]|[? _]] & _ & ->); [|done]. split; [done|]. simpl. by rewrite Ht.
    + rewrite lookup_insert_ne by congruence. rewrite (sc_db _ _ Hc). naive_solver.
Qed.

Lemma index_core x fh ident m : sid_core_ex x m -> sid_core_ex x (index_ident fh ident m).
Proof. intros Hc. apply (core_frame x m); [|done]. by destruct ident. Qed.

Lemma unminted_open m k st o : sid_core m -> opened m k st -> ~ minted m o -> os_other st <> o.
Proof. intros Hc Hk Hn Ho. apply Hn. rewrite <- Ho. by eapply (sc_key_minted _ _ Hc), (sc_keys _ _ Hc). Qed.

(** The fresh arm: [K] is the reverse index after a stale entry of the same
    key was retired from it. *)
Lemma fresh_open_core client owner fh access deny verifier ident K m :
  let key := (client, owner, fh) in
  sid_core m -> can_mint m ->
  (forall st, opened m key st -> master_alive m (os_other st) = false) ->
  (forall p k, K !! p = Some k -> open_state_keys m !! p = Some k) ->
  (forall k st, opened m k st -> k <> key -> K !! os_other st = Some k) ->
  sid_core (fresh_open client owner fh access deny verifier ident (set_keys K m)).2.
Proof.
  intros key Hc Hm Hst HK HK'. unfold fresh_open.
  pose proof (allocate_core TyOpen client (Some fh) m ltac:(done) Hc Hm) as Ha.
  set (o := next_stateid m * 2 ^ 32 + default (wrap_u32 client) (stateid_tag m)).
  assert (Hfr : ~ minted m o) by (apply plain_fresh; [done|done|]; apply counter_of; by apply low_range).
  set (e := Entry_new (Sid 1 o) TyOpen client (Some fh)).
  simpl. apply index_core. unfold stamp_open. simpl. rewrite lookup_insert_eq.
  apply (core_install (allocate TyOpen client (Some fh) m).2 _ o e
    (with_open (OwnerRec owner access deny) e) (OpenSt o 1 access deny verifier) client owner fh K None);
    try done; simpl.
  - by left.
  - by rewrite lookup_insert_eq.
  - intros k st Hk Ho. by destruct (unminted_open m k st o Hc Hk Hfr).
  - intros st p f Hk Hne Ho. rewrite lookup_insert_ne by done. intros Hf.
    specialize (Hst st Hk). unfold master_alive in Hst. rewrite Ho, Hf in Hst. by destruct (en_revoked f).
Qed.

(** A live open changes its sequence id and masks. *)
Lemma reseat_core key st q access deny m :
  sid_core m -> opened m key st -> sid_core (reseat_open key st q access deny m).2.
Proof.
  intros Hc Hk. destruct key as [[c ow] fh]. unfold reseat_open. simpl.
  assert (Hown : owners_with (owners_of m fh) (c, ow) = owners_of m fh).
  { unfold owners_with. rewrite bool_decide_eq_true_2; [done|]. apply (sc_owners _ _ Hc). eauto. }
  assert (Hfh : <[fh := owners_of m fh]> (opens_by_fh m) = opens_by_fh m).
  { apply insert_id. unfold owners_of. destruct (opens_by_fh m !! fh) eqn:E; [done|].
    assert ((c, ow) ∈ owners_of m fh) as Hin by (apply (sc_owners _ _ Hc); eauto).
    unfold owners_of in Hin. rewrite E in Hin. by apply elem_of_nil in Hin. }
  pose proof (sc_keys _ _ Hc _ _ Hk) as Hkey.
  destruct (states m !! os_other st) as [e|] eqn:He.
  - pose proof (sc_master _ _ Hc _ _ _ Hk He) as [Ht Hcl Hf Hq Ho].
    apply (core_install m _ (os_other st) e (with_open (OwnerRec ow access deny) (with_seqid q e))
      (OpenSt (os_other st) q access deny (os_verifier st)) c ow fh (open_state_keys m) None);
      try done; simpl.
    + by left.
    + by rewrite (sc_id _ _ Hc _ _ He).
    + intros k st1 Hk1 Ho1. apply (sc_keys _ _ Hc) in Hk1. congruence.
    + intros st1 p f Hk1. unfold opened in *. rewrite Hk in Hk1. by simplify_eq.
    + intros k st1 Hk1 _. by apply (sc_keys _ _ Hc).
    + unfold core_fields. simpl. rewrite Hown, Hfh, (sc_id _ _ Hc _ _ He). simpl.
      by rewrite (insert_id (open_state_keys m)).
  - assert (Hop : forall k s1, opened (set_open_states (<[(c, ow, fh) := OpenSt (os_other st) q access deny
        (os_verifier st)]> (open_states m)) m) k s1 ->
      exists s0, opened m k s0 /\ os_other s0 = os_other s1 /\ (s1 = s0 \/ states m !! os_other s1 = None)).
    { intros k s1. unfold opened. simpl. rewrite lookup_insert_Some. intros [[<- <-]|[_ ?]]; [|eauto].
      exists st. eauto. }
    destruct Hc. split; try done; simpl.
    + intros k s1 (s0 & Hs & <- & _)%Hop. by apply sc_keys0.
    + intros d w f. unfold owners_of. simpl. fold (owners_of m f). rewrite sc_owners0. split.
      * intros (s0 & Hs). unfold opened. simpl. rewrite lookup_insert. case_decide; eauto.
      * intros (s1 & (s0 & ? & _)%Hop). eauto.
    + intros k s1 f (s0 & Hs & Heq & [->|Hn])%Hop Hf; [by eapply sc_master0|]. congruence.
    + intros p f oo g _ Hf Hl. destruct (sc_live0 p f oo g) as (s0 & Hs & Hso); [done|done|done|].
      unfold opened. simpl. rewrite lookup_insert. case_decide as Heq; [|eauto].
      unfold opened in Hs. rewrite <- Heq in Hs. rewrite Hk in Hs. by simplify_eq.
Qed.

Lemma remove_key_if_eq o key m : exists K,
  remove_key_if o key m = set_keys K m /\
  (forall p k, K !! p = Some k <-> open_state_keys m !! p = Some k /\ (p, k) <> (o, key)).
Proof.
  unfold remove_key_if. case_bool_decide as Hk.
  - eexists. split; [done|]. intros p k. rewrite lookup_delete_Some. naive_solver.
  - exists (open_state_keys m). split; [by destruct m|]. naive_solver.
Qed.

Lemma record_open_core client owner fh access deny verifier ident m :
  sid_core m -> can_mint m -> sid_core (record_open client owner fh access deny verifier ident m).2.
Proof.
  intros Hc0 Hm0. unfold record_open. set (m1 := index_ident fh ident m).
  assert (Hc : sid_core m1) by by apply index_core.
  assert (Hm : can_mint m1) by (unfold m1; by destruct ident).
  clearbody m1. clear Hc0 Hm0. set (key := (client, owner, fh)).
  destruct (open_states m1 !! key) as [st|] eqn:Hk.
  - destruct (master_alive m1 (os_other st)) eqn:Ha; [by apply reseat_core|].
    destruct (remove_key_if_eq (os_other st) key m1) as (K & -> & HK).
    apply fresh_open_core; try done.
    + intros st1 Hk1. unfold opened in Hk1. fold key in Hk1. rewrite Hk in Hk1. by simplify_eq.
    + intros p k. rewrite HK. by intros [? _].
    + intros k st1 Hk1 Hne. apply HK. split; [by apply (sc_keys _ _ Hc)|]. intros [= _ Heq]. by apply Hne.
  - replace m1 with (set_keys (open_state_keys m1) m1) by (by destruct m1).
    apply fresh_open_core; try done.
    + intros st1 Hk1. unfold opened in Hk1. fold key in Hk1. congruence.
    + intros k st1 Hk1 _. by apply (sc_keys _ _ Hc).
Qed.

Lemma open_by_other_Some m o key : open_by_other m o = Some key ->
  exists st, opened m key st /\ os_other st = o.
Proof.
  unfold open_by_other. intros Hh.
  assert (Hin : key ∈ omap (fun '(k, st) => if os_other st =? o then Some k else None) (map_to_list (open_states m))).
  { destruct (omap _ _) as [|k l]; simplify_eq/=. by left. }
  apply list_elem_of_omap in Hin as ([k st] & Hin & Hx). apply elem_of_map_to_list in Hin.
  destruct (os_other st =? o) eqn:E; simplify_eq. exists st. split; [done|]. by apply Z.eqb_eq.
Qed.

Lemma downgrade_core s access deny m s' m' :
  sid_core m -> downgrade_open s access deny m = Ok (s', m') -> sid_core m'.
Proof.
  intros Hc. unfold downgrade_open. destruct (open_by_other m (sid_other s)) as [key|]; [|done].
  destruct (open_states m !! key) as [st|] eqn:Hk; [|done]. case_match; [done|].
  intros [= _ <-]. exact (reseat_core key st (wrap_u32 (os_seqid st + 1)) access deny m Hc Hk).
Qed.

(** ** Taking an open out *)
Lemma push_tombstone_fields o m :
  core_fields (push_tombstone o m) = core_fields m /\
  fhs_by_ident (push_tombstone o m) = fhs_by_ident m /\ idents_by_fh (push_tombstone o m) = idents_by_fh m /\
  fd_released (push_tombstone o m) = fd_released m.
Proof.
  unfold push_tombstone. destruct (closed_recently m) as [ring seen]. case_bool_decide; [done|].
  destruct (_ <? _)%nat; [|done]. by destruct (ring ++ [o]).
Qed.

Lemma tombstone_core x o m : sid_core_ex x m -> sid_core_ex x (push_tombstone o m).
Proof. apply core_frame, push_tombstone_fields. Qed.

Lemma drop_fh_core x fh m : sid_core_ex x m -> sid_core_ex x (drop_fh_if_unopened fh m).
Proof.
  intros Hc. unfold drop_fh_if_unopened. destruct (opens_by_fh m !! fh) as [[|]|] eqn:Ho; try done.
  assert (Hown : forall f, default [] (delete fh (opens_by_fh m) !! f) = owners_of m f).
  { intros f. unfold owners_of. rewrite lookup_delete. case_decide; [|done]. subst. by rewrite Ho. }
  assert (Hsub : sid_core_ex x (set_by_fh (delete fh (opens_by_fh m)) m)).
  { destruct Hc. split; try done; unfold owners_of in *; simpl; intros *; rewrite Hown; unfold owners_of; auto. }
  destruct (idents_by_fh m !! fh); [|done]. revert Hsub. by apply core_frame.
Qed.

Lemma remove_open_spec key pred m : sid_core m ->
  match remove_open_under_entry key pred m with
  | (Some _, m') => exists st, opened m key st /\ pred st = true /\ sid_core_ex (Some (os_other st)) m' /\
      open_states m' = delete key (open_states m) /\ open_state_keys m' = open_state_keys m /\
      states m' = states m
  | (None, m') => m' = m /\ forall st, opened m key st -> pred st = false
  end.
Proof.
  intros Hc. unfold remove_open_under_entry. destruct (open_states m !! key) as [st|] eqn:Hk.
  2: { split; [done|]. unfold opened. congruence. }
  destruct (pred st) eqn:Hp.
  2: { split; [done|]. unfold opened. naive_solver. }
  destruct key as [[c ow] fh].
  assert (Hin : (c, ow) ∈ owners_of m fh) by (apply (sc_owners _ _ Hc); eauto).
  unfold owners_of in Hin. destruct (opens_by_fh m !! fh) as [owners|] eqn:Ho; [|by apply elem_of_nil in Hin].
  exists st. split_and!; try done. simpl in Hin.
  assert (Hop : forall k s, delete (c, ow, fh) (open_states m) !! k = Some s <-> k <> (c, ow, fh) /\ opened m k s).
  { intros k s. rewrite lookup_delete_Some. unfold opened. naive_solver. }
  destruct Hc. split; try done; simpl.
  - intros k s [_ Hs]%Hop. by apply sc_keys0.
  - intros d w f. unfold owners_of, opened. simpl. setoid_rewrite Hop. rewrite lookup_insert.
    pose proof (sc_owners0 d w f) as Hold. unfold owners_of in Hold.
    destruct (decide (fh = f)) as [<-|Hne]; simpl.
    + rewrite elem_filter_ne. rewrite Ho in Hold. simpl in Hold. rewrite Hold. naive_solver.
    + rewrite Hold. naive_solver.
  - intros f. unfold owners_of. simpl. rewrite lookup_insert. case_decide; simpl; [|apply sc_owners_nodup0].
    apply NoDup_filter. specialize (sc_owners_nodup0 fh). unfold owners_of in sc_owners_nodup0. by rewrite Ho in sc_owners_nodup0.
  - intros k s f [_ Hs]%Hop. by apply sc_master0.
  - intros p f oo g Hne Hf Hl. destruct (sc_live0 p f oo g) as (s & Hs & Hso); [done|done|done|].
    exists s. split; [|done]. apply Hop. split; [|done]. intros Heq. rewrite Heq in Hs. unfold opened in Hs.
    rewrite Hk in Hs. simplify_eq.
Qed.

Lemma remove_key_core x o key m : sid_core_ex x m ->
  (forall st, opened m key st -> os_other st <> o) -> sid_core_ex x (remove_key_if o key m).
Proof.
  intros Hc Hno. destruct (remove_key_if_eq o key m) as (K & -> & HK). destruct Hc. split; try done; simpl.
  - intros p k [Hk _]%HK. by eapply sc_key_minted0.
  - intros k st Hk. apply HK. split; [by apply sc_keys0|]. intros [= Ho ->]. by apply (Hno st).
Qed.

Lemma finish_close_core o key b m :
  sid_core_ex (Some o) m -> open_states m !! key = None -> sid_core (finish_close o key b m).
Proof.
  intros Hc Hk. unfold finish_close. apply remove_master_core.
  assert (H1 : sid_core_ex (Some o) (remove_key_if o key (push_tombstone o m))).
  { apply remove_key_core; [by apply tombstone_core|]. intros st. unfold opened.
    destruct (push_tombstone_fields o m) as [Hf _]. injection Hf as _ _ _ _ -> _ _ _. congruence. }
  destruct b; [by apply drop_fh_core|done].
Qed.

Lemma close_open_core s m : sid_core m -> sid_core (close_open s m).2.
Proof.
  intros Hc. unfold close_open. destruct (open_state_keys m !! sid_other s) as [key|] eqn:Hk; [|done].
  pose proof (remove_open_spec key (fun v => (os_other v =? sid_other s) &&
    ((sid_seqid s =? 0) || (sid_seqid s =? os_seqid v))) _ (tombstone_core None (sid_other s) m Hc)) as Hr.
  destruct (remove_open_under_entry _ _ _) as [[b|] m2]; simpl in Hr |- *.
  - destruct Hr as (st & _ & Hp & Hx & Ho & _). bool_Z. rewrite H in Hx.
    apply finish_close_core; [done|]. by rewrite Ho, lookup_delete_eq.
  - destruct Hr as [-> _]. by apply tombstone_core.
Qed.

Lemma close_open_state_core o m : sid_core m -> sid_core (close_open_state o m).
Proof.
  intros Hc. unfold close_open_state. pose proof (tombstone_core None o m Hc) as H1.
  destruct (open_state_keys (push_tombstone o m) !! o) as [key|] eqn:Hk.
  - pose proof (remove_open_spec key (fun v => os_other v =? o) _ H1) as Hr.
    destruct (remove_open_under_entry _ _ _) as [[b|] m2]; simpl in Hr |- *.
    + destruct Hr as (st & _ & Hp & Hx & Ho & _). apply Z.eqb_eq in Hp. rewrite Hp in Hx.
      apply finish_close_core; [done|]. by rewrite Ho, lookup_delete_eq.
    + destruct Hr as [-> Hno]. apply tombstone_core, remove_master_core, core_weaken, remove_key_core; [done|].
      intros st Hs Heq. specialize (Hno st Hs). apply Z.eqb_neq in Hno. done.
  - by apply tombstone_core, remove_master_core, core_weaken.
Qed.

(** ** Taking a client out *)
Lemma drop_masters_fields l : forall m,
  let m' := foldl (fun m o => release_fd o (persist_delete o (set_states (delete o (states m)) m))) m l in
  (forall p, states m' !! p = if decide (p ∈ l) then None else states m !! p) /\
  (forall p, sm_db m' !! p = if decide (p ∈ l) then None else sm_db m !! p) /\
  next_stateid m' = next_stateid m /\ stateid_tag m' = stateid_tag m /\ client_states m' = client_states m /\
  open_states m' = open_states m /\ open_state_keys m' = open_state_keys m /\ opens_by_fh m' = opens_by_fh m /\
  fhs_by_ident m' = fhs_by_ident m /\ idents_by_fh m' = idents_by_fh m /\
  fd_released m' = fd_released m ++ l.
Proof.
  induction l as [|o l IH]; intros m; simpl.
  { split_and!; try done. by rewrite app_nil_r. }
  destruct (IH (release_fd o (persist_delete o (set_states (delete o (states m)) m))))
    as (H1 & H2 & H3 & H4 & H5 & H6 & H7 & H8 & H9 & H10 & H11).
  split_and!; try done.
  - intros p. rewrite H1. simpl. destruct (decide (p ∈ l)) as [Hp|Hp].
    + by rewrite decide_True by (by right).
    + rewrite lookup_delete. destruct (decide (o = p)) as [->|Hne]; [by rewrite decide_True by left|].
      rewrite decide_False; [done|]. by intros [->|?]%elem_of_cons.
  - intros p. rewrite H2. simpl. destruct (decide (p ∈ l)) as [Hp|Hp].
    + by rewrite decide_True by (by right).
    + rewrite lookup_delete. destruct (decide (o = p)) as [->|Hne]; [by rewrite decide_True by left|].
      rewrite decide_False; [done|]. by intros [->|?]%elem_of_cons.
  - rewrite H11. simpl. by rewrite <- (assoc_L (++)).
Qed.

(** The client's masters are gone; its opens are still recorded. *)
Definition drop_masters (client : Z) (m : StateIdManager) : StateIdManager :=
  match client_states m !! client with
  | Some l =>
      let m' := foldl (fun m o =>
        release_fd o (persist_delete o (set_states (delete o (states m)) m))) m l in
      set_client_states (delete client (client_states m')) m'
  | None => m
  end.

Lemma drop_masters_states client m : sid_core m ->
  forall p f, states (drop_masters client m) !! p = Some f <-> states m !! p = Some f /\ en_client f <> client.
Proof.
  intros Hc p f. unfold drop_masters. pose proof (sc_clients _ _ Hc client p) as Hl. unfold listed in Hl.
  destruct (client_states m !! client) as [l|] eqn:El; simpl in Hl.
  - destruct (drop_masters_fields l m) as (Hst & _). simpl in *. rewrite Hst. case_decide as Hp.
    + apply Hl in Hp as (f' & Hf' & ?). split; [done|]. intros [? ?]. congruence.
    + split; [|by intros [? _]]. intros Hf. split; [done|]. intros Hcl. apply Hp, Hl. eauto.
  - split; [|by intros [? _]]. intros Hf. split; [done|]. intros Hcl.
    apply (not_elem_of_nil p), Hl. eauto.
Qed.

Lemma drop_masters_core client m : sid_core m -> sid_core (drop_masters client m).
Proof.
  intros Hc. pose proof (drop_masters_states client m Hc) as Hst. unfold drop_masters in *.
  destruct (client_states m !! client) as [l|] eqn:El; [|done].
  destruct (drop_masters_fields l m) as (_ & Hdb & H1 & H2 & H4 & H5 & H6 & H7 & _). cbv zeta in *.
  revert H1 H2 H4 H5 H6 H7 Hdb Hst. generalize (foldl (fun m o =>
    release_fd o (persist_delete o (set_states (delete o (states m)) m))) m l).
  intros m1 H1 H2 H4 H5 H6 H7 Hdb Hst. simpl in Hst.
  assert (Hm : forall p, minted (set_client_states (delete client (client_states m1)) m1) p <-> minted m p)
    by (intros p; unfold minted; simpl; by rewrite H1, H2).
  assert (Hmem : forall p, p ∈ l <-> exists e, states m !! p = Some e /\ en_client e = client).
  { intros p. pose proof (sc_clients _ _ Hc client p) as Hl. unfold listed in Hl. by rewrite El in Hl. }
  split; simpl.
  - rewrite H1. apply Hc.
  - rewrite H2. apply Hc.
  - intros p f [Hf _]%Hst. apply Hm. by eapply (sc_minted _ _ Hc).
  - intros p f [Hf _]%Hst. rewrite H1. by eapply (sc_plain _ _ Hc).
  - intros p k. rewrite H6, Hm. apply (sc_key_minted _ _ Hc).
  - intros p f [Hf _]%Hst. by apply (sc_id _ _ Hc).
  - intros c p. unfold listed. simpl. rewrite H4, lookup_delete. setoid_rewrite Hst.
    destruct (decide (client = c)) as [<-|Hne]; simpl.
    + split; [by intros ?%elem_of_nil|]. by intros (f & [_ Hn] & ?).
    + fold (listed m c). rewrite (sc_clients _ _ Hc). split.
      * intros (f & ? & ?). exists f. split_and!; [done|congruence|done].
      * intros (f & [? _] & ?). eauto.
  - intros c. unfold listed. simpl. rewrite H4, lookup_delete. case_decide; simpl; [constructor|apply (sc_nodup _ _ Hc)].
  - intros k st. unfold opened. simpl. rewrite H5, H6. apply (sc_keys _ _ Hc).
  - intros c ow fh. unfold owners_of, opened. simpl. rewrite H7, H5. apply (sc_owners _ _ Hc).
  - intros fh. unfold owners_of. simpl. rewrite H7. apply (sc_owners_nodup _ _ Hc).
  - intros k st f. unfold opened. simpl. rewrite H5. intros Hk [Hf _]%Hst. by eapply (sc_master _ _ Hc).
  - intros p f oo fh _ [Hf _]%Hst Hl. unfold opened. simpl. rewrite H5. by apply (sc_live _ _ Hc p f oo fh).
  - intros p r. rewrite Hdb. setoid_rewrite Hst. pose proof (sc_db _ _ Hc p r) as Hd. case_decide as Hp.
    + apply Hmem in Hp as (e & He & Hec). split; [by intros [? _]|]. intros (f & [? ?] & _). congruence.
    + rewrite Hd. split.
      * intros (f & Hf & ? & ?). exists f. split_and!; try done. intros Hfc. apply Hp, Hmem. eauto.
      * intros (f & [Hf _] & ? & ?). eauto.
Qed.

Lemma drop_open_spec key m :
  sid_core m -> (forall st, opened m key st -> states m !! os_other st = None) ->
  sid_core (drop_open m key) /\ states (drop_open m key) = states m /\
  open_states (drop_open m key) = delete key (open_states m).
Proof.
  intros Hc Hgone. unfold drop_open. pose proof (remove_open_spec key (fun _ => true) m Hc) as Hr.
  destruct (remove_open_under_entry _ _ _) as [[b|] m2]; simpl in Hr.
  - destruct Hr as (st & Hs & _ & Hx & Ho & Hk & Hst).
    assert (H2 : sid_core m2) by (apply (core_unex (os_other st)); [done|rewrite Hst; by apply Hgone]).
    destruct b; [|done]. split; [by apply drop_fh_core|]. unfold drop_fh_if_unopened.
    destruct (opens_by_fh m2 !! _) as [[|]|]; [|done..]. by destruct (idents_by_fh m2 !! _).
  - destruct Hr as [-> Hno]. split_and!; try done. symmetry. apply delete_id.
    destruct (open_states m !! key) eqn:E; [|done]. by specialize (Hno _ E).
Qed.

Lemma elem_client_opens m client k : k ∈ client_opens m client <-> k.1.1 = client /\ exists st, opened m k st.
Proof.
  unfold client_opens. rewrite list_elem_of_omap. split.
  - intros ([k' st] & Hin & Hx). apply elem_of_map_to_list in Hin. case_bool_decide; simplify_eq. eauto.
  - intros [Hk (st & Hs)]. exists (k, st). split; [by apply elem_of_map_to_list|].
    by rewrite bool_decide_eq_true_2.
Qed.

Lemma drop_opens_spec client l : forall m,
  sid_core m -> (forall k, k ∈ l -> k.1.1 = client) ->
  (forall k st, opened m k st -> k.1.1 = client -> states m !! os_other st = None) ->
  let m' := foldl drop_open m l in
  sid_core m' /\ states m' = states m /\
  forall k st, opened m' k st <-> opened m k st /\ k ∉ l.
Proof.
  induction l as [|k l IH]; intros m Hc Hl Hg; simpl.
  { split_and!; try done. intros k st. split; [|by intros [? _]]. intros ?. split; [done|]. by intros ?%elem_of_nil. }
  destruct (drop_open_spec k m Hc) as (Hc1 & Hs1 & Ho1).
  { intros st Hs. apply (Hg k); [done|]. apply Hl. by left. }
  destruct (IH (drop_open m k)) as (Hc2 & Hs2 & Ho2); [done|intros; apply Hl; by right| |].
  { intros k1 st. unfold opened. rewrite Ho1, Hs1, lookup_delete_Some. intros [_ ?]. by apply (Hg k1). }
  split_and!; [done|congruence|]. intros k1 st. rewrite Ho2. unfold opened.
  rewrite Ho1, lookup_delete_Some, not_elem_of_cons. naive_solver.
Qed.

(** After the client's removal it has no entry and no open; nothing else
    changed. *)
Lemma remove_client_spec client m : sid_core m ->
  let m' := remove_client_stateids client m in
  sid_core m' /\
  (forall p f, states m' !! p = Some f <-> states m !! p = Some f /\ en_client f <> client) /\
  (forall k st, opened m' k st <-> opened m k st /\ k.1.1 <> client).
Proof.
  intros Hc m'. pose proof (drop_masters_core client m Hc) as H1.
  pose proof (drop_masters_states client m Hc) as Hst.
  assert (Ho : open_states (drop_masters client m) = open_states m).
  { unfold drop_masters. destruct (client_states m !! client) as [l|]; [|done].
    destruct (drop_masters_fields l m) as (_ & _ & _ & _ & _ & H & _). exact H. }
  destruct (drop_opens_spec client (client_opens (drop_masters client m) client) (drop_masters client m))
    as (H2 & Hs2 & Ho2).
  - done.
  - by intros k [? _]%elem_client_opens.
  - intros k st. unfold opened. rewrite Ho. intros Hk Hkc.
    destruct (states (drop_masters client m) !! os_other st) as [f|] eqn:Hf; [|done].
    apply Hst in Hf as [Hf Hn]. destruct Hn. rewrite <- Hkc. by eapply (sc_master _ _ Hc).
  - split_and!; [done| |].
    + intros p f. change m' with (foldl drop_open (drop_masters client m) (client_opens (drop_masters client m) client)).
      rewrite Hs2. apply Hst.
    + intros k st. change m' with (foldl drop_open (drop_masters client m) (client_opens (drop_masters client m) client)).
      rewrite Ho2, elem_client_opens. unfold opened. rewrite Ho. naive_solver.
Qed.
