(* ===== verification/StateidProps.v ===== *)
(** What the stateid table guarantees: the invariant along every sequence of
    operations, the two index-backed conflict tests against a scan of all
    opens, and the meaning of each CLOSE answer. *)

From S2P Require Import Prelude Xdr Stateid StateidInv.

(** ** The inode identity index under every operation *)
Definition ident_fields (m : StateIdManager) := (fhs_by_ident m, idents_by_fh m).

Lemma ident_same m m' : ident_fields m' = ident_fields m -> ident_ok m -> ident_ok m'.
Proof. intros [= H1 H2]. by apply ident_frame. Qed.

Lemma tombstone_ident o m : ident_ok m -> ident_ok (push_tombstone o m).
Proof. destruct (push_tombstone_fields o m) as (_ & H1 & H2 & _). by apply ident_frame. Qed.

Lemma remove_master_ident o m : ident_ok m -> ident_ok (remove_master o m).
Proof.
  apply ident_same. unfold remove_master. destruct (states m !! o) as [e|]; [|done].
  unfold release_fd, persist_delete, unlist, ident_fields. simpl. by destruct (client_states m !! en_client e).
Qed.

Lemma fresh_open_ident c ow fh a d v i m : ident_ok m -> ident_ok (fresh_open c ow fh a d v i m).2.
Proof.
  intros Hi. unfold fresh_open. simpl. apply index_ident_ok. revert Hi. apply ident_same.
  unfold stamp_open. simpl. by rewrite lookup_insert_eq.
Qed.

Lemma reseat_ident key st q a d m : ident_ok m -> ident_ok (reseat_open key st q a d m).2.
Proof. apply ident_same. unfold reseat_open. simpl. by destruct (states m !! os_other st). Qed.

Lemma remove_key_ident o key m : ident_ok m -> ident_ok (remove_key_if o key m).
Proof. apply ident_same. unfold remove_key_if. by case_bool_decide. Qed.

Lemma remove_open_ident key pred m : ident_ok m -> ident_ok (remove_open_under_entry key pred m).2.
Proof.
  apply ident_same. unfold remove_open_under_entry. destruct (open_states m !! key); [|done].
  destruct (pred _), key as [[? ?] fh]; [|done]. by destruct (opens_by_fh m !! fh).
Qed.

Lemma finish_close_ident o key b m : ident_ok m -> ident_ok (finish_close o key b m).
Proof.
  intros Hi. unfold finish_close. apply remove_master_ident.
  destruct b; [apply drop_fh_ok|]; by apply remove_key_ident, tombstone_ident.
Qed.

Lemma drop_open_ident m key : ident_ok m -> ident_ok (drop_open m key).
Proof.
  intros Hi. unfold drop_open. pose proof (remove_open_ident key (fun _ => true) m Hi) as Hr.
  destruct (remove_open_under_entry _ _ _) as [[[|]|] m']; [by apply drop_fh_ok|done|done].
Qed.

#[export] Hint Resolve tombstone_ident remove_master_ident fresh_open_ident reseat_ident remove_key_ident
  remove_open_ident finish_close_ident drop_open_ident index_ident_ok drop_fh_ok : flint.

Lemma foldl_inv {A B} (P : A -> Prop) (f : A -> B -> A) l : forall a,
  (forall a b, P a -> P (f a b)) -> P a -> P (foldl f a l).
Proof. induction l; simpl; auto. Qed.

(** ** Sequences of operations *)
Inductive sid_op :=
| OpSetTag (tag : Z)
| OpAllocate (ty : StateType) (client : Z) (fh : option bytes)
| OpAllocateDelegation (epoch client : Z) (fh : bytes)
| OpRecordOpen (client : Z) (owner fh : bytes) (access deny : Z) (verifier : option Z) (ident : option (Z * Z))
| OpDowngrade (s : StateId) (access deny : Z)
| OpUpdateSeqid (s : StateId)
| OpRevoke (s : StateId)
| OpRemove (s : StateId)
| OpClose (s : StateId)
| OpCloseState (o : Z)
| OpRevokeClient (client : Z)
| OpRemoveClient (client : Z).

Definition or_same {E A} (m : StateIdManager) (r : result E A) (f : A -> StateIdManager) : StateIdManager :=
  match r with Ok a => f a | Err _ => m end.

Definition sid_exec (op : sid_op) (m : StateIdManager) : StateIdManager :=
  match op with
  | OpSetTag tag => (set_stateid_tag tag m).2
  | OpAllocate ty c fh => (allocate ty c fh m).2
  | OpAllocateDelegation ep c fh => (allocate_delegation ep c fh m).2
  | OpRecordOpen c ow fh a d v i => (record_open c ow fh a d v i m).2
  | OpDowngrade s a d => or_same m (downgrade_open s a d m) snd
  | OpUpdateSeqid s => or_same m (update_seqid s m) snd
  | OpRevoke s => or_same m (revoke s m) id
  | OpRemove s => remove s m
  | OpClose s => (close_open s m).2
  | OpCloseState o => close_open_state o m
  | OpRevokeClient c => revoke_client_stateids c m
  | OpRemoveClient c => remove_client_stateids c m
  end.

(** What callers ensure, although the functions do not check it: delegations
    come from [allocate_delegation], the counter has ids left, and
    [update_seqid] is the lock handlers' call, on a lock stateid (that the
    handlers keep to this is part of [server_exec_ok]). *)
Definition sid_allowed (op : sid_op) (m : StateIdManager) : Prop :=
  match op with
  | OpSetTag tag => is_u32 tag
  | OpAllocate ty _ _ => ty <> TyDelegation /\ can_mint m
  | OpAllocateDelegation ep _ _ => is_u32 ep /\ can_mint m
  | OpRecordOpen _ _ _ _ _ _ _ => can_mint m
  | OpUpdateSeqid s => forall e, states m !! sid_other s = Some e -> en_type e <> TyOpen
  | _ => True
  end.

Inductive sid_reach : StateIdManager -> Prop :=
| reach_new : sid_reach StateIdManager_new
| reach_step op m : sid_reach m -> sid_allowed op m -> sid_reach (sid_exec op m).

Lemma new_core : sid_core StateIdManager_new.
Proof.
  split; simpl; try done.
  - intros c o. split; [by intros ?%elem_of_nil|by intros (? & ? & _)].
  - intros c. constructor.
  - intros c ow fh. split; [by intros ?%elem_of_nil|by intros [? ?]].
  - intros fh. constructor.
  - intros o r. split; [by intros [? _]|by intros (? & ? & _)].
Qed.

Lemma tag_core tag m : is_u32 tag -> sid_core m -> sid_core (set_stateid_tag tag m).2.
Proof.
  intros Ht Hc. unfold set_stateid_tag. destruct (stateid_tag m) eqn:E; [done|]. simpl.
  assert (Hm : forall o, minted m o -> minted (set_tag (Some tag) m) o).
  { intros o [?|[[? ?] _]]; [by left|congruence]. }
  destruct Hc. split; try done; eauto; naive_solver.
Qed.

Lemma revoke_client_core c m : sid_core m -> sid_core (revoke_client_stateids c m).
Proof.
  intros Hc. unfold revoke_client_stateids. apply foldl_inv; [|done]. intros m1 s H1.
  destruct (revoke s m1) eqn:E; [|done]. by eapply revoke_core.
Qed.

Lemma sid_exec_core op m : sid_core m -> sid_allowed op m -> sid_core (sid_exec op m).
Proof.
  intros Hc Ha. destruct op; simpl in *.
  - by apply tag_core.
  - destruct Ha. by apply allocate_core.
  - destruct Ha. by apply allocate_delegation_core.
  - by apply record_open_core.
  - destruct (downgrade_open s access deny m) as [[s' m']|] eqn:E; [|done]. by eapply downgrade_core.
  - destruct (update_seqid s m) as [[s' m']|] eqn:E; [|done]. pose proof E as E'. unfold update_seqid in E'.
    destruct (states m !! sid_other s) as [e|] eqn:He; [|done]. eapply update_seqid_core; eauto.
  - destruct (revoke s m) eqn:E; [|done]. by eapply revoke_core.
  - by apply remove_master_core, core_weaken.
  - by apply close_open_core.
  - by apply close_open_state_core.
  - by apply revoke_client_core.
  - by apply remove_client_spec.
Qed.

Lemma sid_exec_ident op m : ident_ok m -> ident_ok (sid_exec op m).
Proof.
  intros Hi. destruct op; simpl.
  - unfold set_stateid_tag. by destruct (stateid_tag m).
  - revert Hi. by apply ident_same.
  - revert Hi. by apply ident_same.
  - unfold record_open. destruct (open_states _ !! _) as [st|]; [destruct (master_alive _ _)|]; auto with flint.
  - unfold downgrade_open. destruct (open_by_other m _) as [key|]; [|done].
    destruct (open_states m !! key); [|done]. case_match; [done|]. cbn [or_same]. auto with flint.
  - unfold update_seqid. destruct (states m !! _) as [e|]; [|done]. by destruct (en_revoked e).
  - unfold revoke. by destruct (states m !! _).
  - unfold remove. auto with flint.
  - unfold close_open. destruct (open_state_keys m !! _) as [key|]; [|done].
    pose proof (remove_open_ident key (fun v => (os_other v =? sid_other s) &&
      ((sid_seqid s =? 0) || (sid_seqid s =? os_seqid v))) _ (tombstone_ident (sid_other s) m Hi)) as Hr.
    destruct (remove_open_under_entry _ _ _) as [[b|] m2]; simpl; auto with flint.
  - unfold close_open_state. pose proof (tombstone_ident o m Hi) as H1.
    destruct (open_state_keys _ !! o) as [key|]; [|auto with flint].
    pose proof (remove_open_ident key (fun v => os_other v =? o) _ H1) as Hr.
    destruct (remove_open_under_entry _ _ _) as [[b|] m2]; simpl in *; auto with flint.
  - unfold revoke_client_stateids. apply foldl_inv; [|done]. intros m1 s H1.
    unfold revoke. by destruct (states m1 !! _).
  - unfold remove_client_stateids. apply foldl_inv; [auto with flint|].
    destruct (client_states m !! client) as [l|]; [|done].
    destruct (drop_masters_fields l m) as (_ & _ & _ & _ & _ & _ & _ & _ & H1 & H2 & _).
    revert Hi. by apply ident_frame.
Qed.

Lemma reach_inv m : sid_reach m -> sid_inv m.
Proof.
  induction 1 as [|op m _ [Hc Hi] Ha].
  - split; [apply new_core|]. intros i fh. split; [by intros ?%elem_of_nil|done].
  - split; [by apply sid_exec_core|by apply sid_exec_ident].
Qed.

(** ** Identifiers are never issued twice *)
Lemma remove_master_counter o m :
  next_stateid (remove_master o m) = next_stateid m /\ stateid_tag (remove_master o m) = stateid_tag m.
Proof.
  unfold remove_master. destruct (states m !! o) as [e|]; [|done]. simpl. unfold unlist. simpl.
  by destruct (client_states m !! en_client e).
Qed.

Lemma drop_fh_counter fh m :
  next_stateid (drop_fh_if_unopened fh m) = next_stateid m /\ stateid_tag (drop_fh_if_unopened fh m) = stateid_tag m.
Proof.
  unfold drop_fh_if_unopened. destruct (opens_by_fh m !! fh) as [[|]|]; [|done..].
  by destruct (idents_by_fh m !! fh).
Qed.

Lemma remove_open_counter key pred m : let m' := (remove_open_under_entry key pred m).2 in
  next_stateid m' = next_stateid m /\ stateid_tag m' = stateid_tag m.
Proof.
  unfold remove_open_under_entry. destruct (open_states m !! key); [|done].
  destruct (pred _), key as [[? ?] fh]; [|done]. by destruct (opens_by_fh m !! fh).
Qed.

Definition counters (m : StateIdManager) := (next_stateid m, stateid_tag m).

Lemma tombstone_counter o m : counters (push_tombstone o m) = counters m.
Proof. destruct (push_tombstone_fields o m) as [[=] _]. unfold counters. congruence. Qed.

Lemma remove_key_counter o key m : counters (remove_key_if o key m) = counters m.
Proof. unfold remove_key_if. by case_bool_decide. Qed.

Lemma finish_close_counter o key b m : counters (finish_close o key b m) = counters m.
Proof.
  unfold finish_close, counters.
  destruct (remove_master_counter o (if b then drop_fh_if_unopened key.2 (remove_key_if o key (push_tombstone o m))
    else remove_key_if o key (push_tombstone o m))) as [-> ->].
  pose proof (remove_key_counter o key (push_tombstone o m)) as H1. rewrite tombstone_counter in H1.
  destruct b; [|exact H1]. destruct (drop_fh_counter key.2 (remove_key_if o key (push_tombstone o m))) as [-> ->].
  exact H1.
Qed.

Lemma foldl_counter {B} (f : StateIdManager -> B -> StateIdManager) l m :
  (forall m b, counters (f m b) = counters m) -> counters (foldl f m l) = counters m.
Proof. intros Hf. revert m. induction l; simpl; [done|]. intros. by rewrite IHl. Qed.

Lemma drop_open_counter m key : counters (drop_open m key) = counters m.
Proof.
  unfold drop_open, counters. destruct (remove_open_counter key (fun _ => true) m) as [H1 H2].
  destruct (remove_open_under_entry _ _ _) as [[[|]|] m']; simpl in *; [|congruence..].
  destruct (drop_fh_counter key.2 m') as [-> ->]. congruence.
Qed.

Lemma close_open_counter s m : counters (close_open s m).2 = counters m.
Proof.
  unfold close_open. destruct (open_state_keys m !! _) as [key|]; [|done].
  pose proof (tombstone_counter (sid_other s) m) as Ht.
  pose proof (remove_open_counter key (fun v => (os_other v =? sid_other s) &&
    ((sid_seqid s =? 0) || (sid_seqid s =? os_seqid v))) (push_tombstone (sid_other s) m)) as [H1 H2].
  destruct (remove_open_under_entry _ _ _) as [[b|] m2]; simpl in *; [rewrite finish_close_counter|];
    unfold counters in *; congruence.
Qed.

Lemma close_state_counter o m : counters (close_open_state o m) = counters m.
Proof.
  unfold close_open_state. pose proof (tombstone_counter o m) as Ht.
  destruct (open_state_keys _ !! o) as [key|].
  - pose proof (remove_open_counter key (fun v => os_other v =? o) (push_tombstone o m)) as [H1 H2].
    destruct (remove_open_under_entry _ _ _) as [[b|] m2]; simpl in *.
    + rewrite finish_close_counter. unfold counters in *. congruence.
    + rewrite tombstone_counter. pose proof (remove_key_counter o key m2) as H3.
      destruct (remove_master_counter o (remove_key_if o key m2)) as [H4 H5]. unfold counters in *. congruence.
  - rewrite tombstone_counter. destruct (remove_master_counter o (push_tombstone o m)). unfold counters in *. congruence.
Qed.

Lemma remove_client_counter c m : counters (remove_client_stateids c m) = counters m.
Proof.
  unfold remove_client_stateids. rewrite foldl_counter by apply drop_open_counter.
  destruct (client_states m !! c) as [l|]; [|done].
  destruct (drop_masters_fields l m) as (_ & _ & H1 & H2 & _). unfold counters in *. simpl. congruence.
Qed.

Lemma record_open_counter c ow fh a d v i m : sid_core m -> can_mint m ->
  let m' := (record_open c ow fh a d v i m).2 in
  next_stateid m <= next_stateid m' < 2 ^ 64 /\ stateid_tag m' = stateid_tag m.
Proof.
  intros Hc Hm. pose proof (next_bump m Hc Hm) as Hb. destruct Hm as [Hm _]. unfold record_open.
  assert (Hi : forall m1, counters (index_ident fh i m1) = counters m1) by (intros; by destruct i).
  assert (Hf : forall m1, counters m1 = counters m -> counters (fresh_open c ow fh a d v i m1).2 =
    (next_stateid m + 1, stateid_tag m)).
  { intros m1 [= E1 E2]. unfold fresh_open. simpl. rewrite Hi. unfold stamp_open. simpl. rewrite lookup_insert_eq.
    unfold counters. simpl. by rewrite E1, E2, Hb. }
  assert (Hout : forall m1, counters m1 = (next_stateid m + 1, stateid_tag m) ->
    next_stateid m <= next_stateid m1 < 2 ^ 64 /\ stateid_tag m1 = stateid_tag m).
  { intros m1 [= -> ->]. split; [lia|done]. }
  clear Hb. destruct (open_states _ !! _) as [st|].
  - destruct (master_alive _ _).
    + unfold reseat_open. simpl. specialize (Hi m). unfold counters in Hi. injection Hi as H1 H2.
      destruct (states (index_ident fh i m) !! os_other st); simpl; rewrite H1, H2; split; [lia|done|lia|done].
    + apply Hout, Hf. by rewrite remove_key_counter, Hi.
  - apply Hout, Hf, Hi.
Qed.

Lemma sid_exec_counter op m : sid_core m -> sid_allowed op m -> next_stateid m < 2 ^ 64 ->
  next_stateid m <= next_stateid (sid_exec op m) < 2 ^ 64 /\
  forall t, stateid_tag m = Some t -> stateid_tag (sid_exec op m) = Some t.
Proof.
  intros Hc Ha Hn.
  assert (Hsame : forall m', counters m' = counters m ->
    next_stateid m <= next_stateid m' < 2 ^ 64 /\ forall t, stateid_tag m = Some t -> stateid_tag m' = Some t).
  { intros m' [= -> ->]. split; [lia|done]. }
  destruct op; simpl in *.
  - unfold set_stateid_tag. destruct (stateid_tag m) as [t|] eqn:E; simpl; (split; [lia|]; congruence).
  - destruct Ha as [_ Ha]. rewrite next_bump by done. destruct Ha. split; [lia|done].
  - destruct Ha as [_ Ha]. rewrite next_bump by done. destruct Ha. split; [lia|done].
  - destruct (record_open_counter client owner fh access deny verifier ident m Hc Ha) as [? ->]. done.
  - apply Hsame. unfold downgrade_open. destruct (open_by_other m _) as [key|]; [|done].
    destruct (open_states m !! key) as [st|]; [|done]. case_match; [done|]. simpl. by destruct (states m !! _).
  - apply Hsame. unfold update_seqid. destruct (states m !! _) as [e|]; [|done]. by destruct (en_revoked e).
  - apply Hsame. unfold revoke. by destruct (states m !! _).
  - apply Hsame. unfold remove, counters. by destruct (remove_master_counter (sid_other s) m) as [-> ->].
  - apply Hsame, close_open_counter.
  - apply Hsame, close_state_counter.
  - apply Hsame. unfold revoke_client_stateids. apply foldl_counter. intros m1 s. unfold revoke.
    by destruct (states m1 !! _).
  - apply Hsame, remove_client_counter.
Qed.

Lemma reach_bound m : sid_reach m -> next_stateid m < 2 ^ 64.
Proof.
  induction 1 as [|op m Hr IH Ha]; [done|]. by apply sid_exec_counter; [apply reach_inv|..].
Qed.

(** [steps m m']: [m'] follows [m] by allowed operations. *)
Inductive sid_steps (m : StateIdManager) : StateIdManager -> Prop :=
| steps_refl : sid_steps m m
| steps_more op m' : sid_steps m m' -> sid_allowed op m' -> sid_steps m (sid_exec op m').

Lemma steps_reach m m' : sid_reach m -> sid_steps m m' -> sid_reach m'.
Proof. intros Hr. induction 1; [done|by constructor]. Qed.

Lemma exec_minted op m o : sid_core m -> next_stateid m < 2 ^ 64 -> sid_allowed op m -> minted m o ->
  minted (sid_exec op m) o.
Proof.
  intros Hc Hb Ha. destruct (sid_exec_counter op m) as [Hn Ht]; [done|done|done|].
  intros [?|(Hs & ? & ?)]; [left; lia|right]. destruct Hs as [t Htag].
  split_and!; [rewrite (Ht t Htag); eauto|lia|lia].
Qed.

Lemma steps_minted m m' o : sid_reach m -> sid_steps m m' -> minted m o -> minted m' o.
Proof.
  intros Hr Hs Hm. induction Hs as [|op m' Hs IH Ha]; [done|].
  pose proof (steps_reach _ _ Hr Hs) as Hr'. apply exec_minted; [by apply reach_inv|by apply reach_bound|done|done].
Qed.

(** ** The conflict tests against a scan of every open *)
Lemma share_conflict_scan m fh client owner access deny : sid_core m ->
  share_conflict m fh client owner access deny = true <->
  exists c ow st, (c, ow) <> (client, owner) /\ opened m (c, ow, fh) st /\ masks_conflict st access deny = true.
Proof.
  intros Hc. unfold share_conflict. rewrite existsb_exists. split.
  - intros ([c ow] & _ & [Hne Hst]%andb_prop). apply negb_true_iff, andb_false_iff in Hne.
    destruct (open_states m !! (c, ow, fh)) as [st|] eqn:Ho; [|done]. exists c, ow, st. split_and!; try done.
    rewrite !bool_decide_eq_false in Hne. naive_solver.
  - intros (c & ow & st & Hne & Hs & Hm). exists (c, ow). split.
    + apply list_elem_of_In, (sc_owners _ _ Hc). eauto.
    + unfold opened in Hs. rewrite Hs, Hm, andb_true_r. apply negb_true_iff, andb_false_iff.
      rewrite !bool_decide_eq_false. destruct (decide (c = client)); [right|left]; congruence.
Qed.

Lemma write_open_scan m dev ino : sid_inv m ->
  file_has_write_open m dev ino = true <->
  exists c ow fh st, idents_by_fh m !! fh = Some (dev, ino) /\ opened m (c, ow, fh) st /\
    Z.land (os_access st) 2 <> 0.
Proof.
  intros [Hc Hi]. unfold file_has_write_open. rewrite existsb_exists. setoid_rewrite existsb_exists. split.
  - intros (fh & Hfh & [c ow] & _ & Hst). destruct (open_states m !! (c, ow, fh)) as [st|] eqn:Ho; [|done].
    exists c, ow, fh, st. apply negb_true_iff, Z.eqb_neq in Hst. split_and!; try done.
    by apply Hi, list_elem_of_In.
  - intros (c & ow & fh & st & Hid & Hs & Hw). exists fh. split; [by apply list_elem_of_In, Hi|].
    exists (c, ow). split; [apply list_elem_of_In, (sc_owners _ _ Hc); eauto|].
    unfold opened in Hs. rewrite Hs. by apply negb_true_iff, Z.eqb_neq.
Qed.

(** ** CLOSE *)
Definition shown (m : StateIdManager) := (states m, open_states m, fd_released m).

Lemma tombstone_shown o m : shown (push_tombstone o m) = shown m.
Proof.
  destruct (push_tombstone_fields o m) as ([=] & _ & _ & ?). unfold shown. congruence.
Qed.

Lemma drop_fh_shown fh m : shown (drop_fh_if_unopened fh m) = shown m.
Proof.
  unfold drop_fh_if_unopened. destruct (opens_by_fh m !! fh) as [[|]|]; [|done..].
  by destruct (idents_by_fh m !! fh).
Qed.

Lemma remove_key_shown o key m : shown (remove_key_if o key m) = shown m.
Proof. unfold remove_key_if. by case_bool_decide. Qed.

Lemma remove_master_shown o m :
  shown (remove_master o m) = (delete o (states m), open_states m,
    if bool_decide (is_Some (states m !! o)) then fd_released m ++ [o] else fd_released m).
Proof.
  unfold remove_master. destruct (states m !! o) as [e|] eqn:He.
  - rewrite bool_decide_eq_true_2 by eauto. unfold shown, release_fd, persist_delete, unlist. simpl.
    by destruct (client_states m !! en_client e).
  - rewrite bool_decide_eq_false_2 by by intros [? ?]. by rewrite delete_id.
Qed.

Lemma finish_close_shown o key b m :
  shown (finish_close o key b m) = (delete o (states m), open_states m,
    if bool_decide (is_Some (states m !! o)) then fd_released m ++ [o] else fd_released m).
Proof.
  unfold finish_close.
  set (m1 := if b then _ else _).
  assert (shown m1 = shown m) as [= H1 H2 H3].
  { unfold m1. destruct b; rewrite ?drop_fh_shown, remove_key_shown, tombstone_shown; done. }
  rewrite remove_master_shown. by rewrite H1, H2, H3.
Qed.

(** [s] names the open [k] at its current sequence id (or with the
    any-sequence form 0). *)
Definition close_names (m : StateIdManager) (s : StateId) (k : open_key) (st : OpenState) : Prop :=
  opened m k st /\ os_other st = sid_other s /\ (sid_seqid s = 0 \/ sid_seqid s = os_seqid st).

Lemma close_open_spec s m : sid_core m ->
  match close_open s m with
  | (Closed, m') => exists k st, close_names m s k st /\ open_states m' = delete k (open_states m) /\
      states m' = delete (sid_other s) (states m) /\
      (is_Some (states m !! sid_other s) -> fd_released m' = fd_released m ++ [sid_other s])
  | (_, m') => shown m' = shown m /\ forall k st, ~ close_names m s k st
  end.
Proof.
  intros Hc. unfold close_open. set (o := sid_other s).
  destruct (open_state_keys m !! o) as [key|] eqn:Hk.
  2: { assert (forall k st, ~ close_names m s k st).
       { intros k st (Hs & Ho & _). apply (sc_keys _ _ Hc) in Hs. rewrite Ho in Hs. fold o in Hs. congruence. }
       destruct (recently_closed m o); [done|]. destruct (states m !! o) as [e|]; [|done]. by destruct (en_revoked e). }
  pose proof (tombstone_shown o m) as Hts. pose proof (tombstone_core None o m Hc) as Htc.
  assert (Hop : forall k st, opened (push_tombstone o m) k st <-> opened m k st).
  { intros k st. unfold opened. injection Hts as _ -> _. done. }
  set (pred := fun v => (os_other v =? o) && ((sid_seqid s =? 0) || (sid_seqid s =? os_seqid v))).
  assert (Hpred : forall st, opened m key st -> pred st = true <-> close_names m s key st).
  { intros st Hs. unfold pred, close_names. rewrite andb_true_iff, orb_true_iff, !Z.eqb_eq. tauto. }
  pose proof (remove_open_spec key pred _ Htc) as Hr.
  assert (Hfd : fd_released (remove_open_under_entry key pred (push_tombstone o m)).2 = fd_released m).
  { injection Hts as _ _ <-. unfold remove_open_under_entry. destruct (open_states _ !! _); [|done].
    destruct (pred _), key as [[? ?] fh]; [|done]. by destruct (opens_by_fh _ !! fh). }
  destruct (remove_open_under_entry _ _ _) as [[b|] m2]; simpl in Hr, Hfd.
  - destruct Hr as (st & Hs & Hp & _ & Ho & _ & Hst). apply Hop in Hs. apply Hpred in Hp; [|done].
    pose proof (finish_close_shown o key b m2) as Hf. injection Hf as H1 H2 H3. injection Hts as T1 T2 T3.
    exists key, st. rewrite H1, H2, Hst, Ho, T1, T2. split_and!; try done.
    intros Hi. rewrite H3, Hst, T1, bool_decide_eq_true_2 by done. by rewrite Hfd.
  - destruct Hr as [-> Hno].
    assert (Hnone : forall k st, ~ close_names m s k st).
    { intros k st Hcn. pose proof Hcn as (Hs & Ho & _). pose proof (sc_keys _ _ Hc _ _ Hs) as Hk'.
      rewrite Ho in Hk'. fold o in Hk'. assert (k = key) as -> by congruence.
      apply Hpred in Hcn; [|done]. rewrite Hno in Hcn; [done|]. by apply Hop. }
    destruct (open_states _ !! key) as [v|]; [destruct (os_other v =? o)|]; [done| |];
      by destruct (recently_closed _ o).
Qed.

(** ** Where opens come from *)
(** Every open entry of [m'] was an open of [m], or ([mint]) is the one the
    counter of [m] mints next. *)
Definition old_types (mint : bool) (m m' : StateIdManager) : Prop := forall o e', states m' !! o = Some e' ->
  en_type e' = TyOpen -> (exists e, states m !! o = Some e /\ en_type e = TyOpen) \/
    (mint = true /\ exists low, 0 <= low < 2 ^ 32 /\ o = next_stateid m * 2 ^ 32 + low).

Lemma types_sub b m m' : (forall o e', states m' !! o = Some e' -> exists e, states m !! o = Some e /\ en_type e = en_type e') ->
  old_types b m m'.
Proof. intros H o e' (e & He & Ht)%H Ho. left. exists e. by rewrite Ht. Qed.

Lemma types_insert b m m' o e e' : states m !! o = Some e -> en_type e' = en_type e -> states m' = <[o := e']> (states m) ->
  old_types b m m'.
Proof.
  intros He Ht Hs. apply types_sub. intros p f. rewrite Hs, lookup_insert_Some. intros [[<- <-]|[_ ?]]; eauto.
Qed.

Lemma types_delete b m m' o : states m' = delete o (states m) -> old_types b m m'.
Proof. intros Hs. apply types_sub. intros p f. rewrite Hs, lookup_delete_Some. naive_solver. Qed.

Lemma types_same b m m' : states m' = states m -> old_types b m m'.
Proof. intros Hs. apply types_sub. rewrite Hs. eauto. Qed.

Lemma index_ident_states fh i m : states (index_ident fh i m) = states m /\ next_stateid (index_ident fh i m) = next_stateid m /\
  stateid_tag (index_ident fh i m) = stateid_tag m.
Proof. by destruct i. Qed.

Lemma reseat_types b key st q a d m : old_types b m (reseat_open key st q a d m).2.
Proof.
  unfold reseat_open. simpl. destruct (states m !! os_other st) as [e|] eqn:He; [|by apply types_same].
  eapply types_insert; [exact He| |done]. done.
Qed.

Lemma fresh_types c ow fh a d v i m : 0 <= default (wrap_u32 c) (stateid_tag m) < 2 ^ 32 ->
  old_types true m (fresh_open c ow fh a d v i m).2.
Proof.
  intros Hl o e' Hs Ht. unfold fresh_open in Hs. cbn [allocate] in Hs.
  unfold stamp_open in Hs. simpl in Hs. rewrite lookup_insert_eq in Hs. simpl in Hs.
  match type of Hs with states (index_ident _ _ ?x) !! _ = _ => destruct (index_ident_states fh i x) as (E & _ & _) end.
  rewrite E in Hs. simpl in Hs. rewrite insert_insert_eq in Hs.
  apply lookup_insert_Some in Hs as [[<- _]|[_ Hs]]; [right; split; [done|by eexists]|left; by exists e'].
Qed.

Lemma types_from b m m1 m' : states m1 = states m -> next_stateid m1 = next_stateid m -> old_types b m1 m' -> old_types b m m'.
Proof. intros H1 H2 H o e'. specialize (H o e'). by rewrite H1, H2 in H. Qed.

Lemma remove_key_same o key m : states (remove_key_if o key m) = states m /\ next_stateid (remove_key_if o key m) = next_stateid m /\
  stateid_tag (remove_key_if o key m) = stateid_tag m.
Proof. unfold remove_key_if. by case_bool_decide. Qed.

Lemma record_open_types c ow fh a d v i m : sid_core m -> old_types true m (record_open c ow fh a d v i m).2.
Proof.
  intros Hc. unfold record_open. destruct (index_ident_states fh i m) as (H1 & H2 & H3).
  pose proof (index_core None fh i m Hc) as Hc1. apply (types_from true m (index_ident fh i m)); [done|done|].
  set (m1 := index_ident fh i m) in *. clearbody m1.
  pose proof (low_range m1 c Hc1) as Hl.
  destruct (open_states m1 !! _) as [st|]; [|by apply fresh_types]. destruct (master_alive m1 _); [apply reseat_types|].
  destruct (remove_key_same (os_other st) (c, ow, fh) m1) as (E1 & E2 & E3).
  apply (types_from true m1 (remove_key_if (os_other st) (c, ow, fh) m1)); [done|done|]. apply fresh_types. by rewrite E3.
Qed.

Lemma remove_open_states key pred m : states (remove_open_under_entry key pred m).2 = states m.
Proof.
  unfold remove_open_under_entry. destruct (open_states m !! key); [|done]. destruct (pred _); [|done].
  destruct key as [[c ow] fh]. by destruct (opens_by_fh m !! fh).
Qed.

Lemma close_state_states o m : states (close_open_state o m) = delete o (states m).
Proof.
  unfold close_open_state. set (m1 := push_tombstone o m).
  assert (Hm1 : states m1 = states m) by (by injection (tombstone_shown o m)). clearbody m1.
  assert (Hrm : forall x, states (push_tombstone o (remove_master o x)) = delete o (states x)).
  { intros x. injection (tombstone_shown o (remove_master o x)) as -> _ _. by injection (remove_master_shown o x). }
  destruct (open_state_keys m1 !! o) as [key|]; [|by rewrite Hrm, Hm1].
  pose proof (remove_open_states key (fun v => os_other v =? o) m1) as Hr.
  destruct (remove_open_under_entry _ _ _) as [[b|] m2]; simpl in Hr.
  - injection (finish_close_shown o key b m2) as -> _ _. by rewrite Hr, Hm1.
  - rewrite Hrm. destruct (remove_key_same o key m2) as (-> & _). by rewrite Hr, Hm1.
Qed.

Lemma revoke_types_fold l : forall m o e', states (foldl (fun m s => match revoke s m with Ok m' => m' | Err _ => m end) m l) !! o = Some e' ->
  exists e, states m !! o = Some e /\ en_type e = en_type e'.
Proof.
  induction l as [|s l IH]; simpl; intros m o e' H; [eauto|]. apply IH in H as (e & He & Ht). unfold revoke in He.
  destruct (states m !! sid_other s) as [x|] eqn:Hx; [|eauto]. simpl in He.
  apply lookup_insert_Some in He as [[<- <-]|[_ He]]; eauto.
Qed.

Definition mints (op : sid_op) : bool :=
  match op with OpAllocate _ _ _ | OpRecordOpen _ _ _ _ _ _ _ => true | _ => false end.

Lemma exec_types op m : sid_core m -> old_types (mints op) m (sid_exec op m).
Proof.
  intros Hc. destruct op; simpl.
  - apply types_same. unfold set_stateid_tag. by destruct (stateid_tag m).
  - pose proof (low_range m client Hc) as Hl. intros o e'. unfold allocate. simpl. rewrite lookup_insert_Some.
    intros [[<- _]|[_ Hs]] Ht; [right; split; [done|by exists (default (wrap_u32 client) (stateid_tag m))]|left; by exists e'].
  - intros o e'. unfold allocate_delegation. simpl. rewrite lookup_insert_Some.
    intros [[_ <-]|[_ Hs]] Ht; [done|left; by exists e'].
  - by apply record_open_types.
  - unfold downgrade_open. destruct (open_by_other _ _) as [key|]; [|by apply types_same].
    destruct (open_states m !! key); [|by apply types_same]. destruct (_ || _); [by apply types_same|apply reseat_types].
  - unfold update_seqid. destruct (states m !! sid_other s) as [e|] eqn:He; [|by apply types_same].
    destruct (en_revoked e); [by apply types_same|].
    apply (types_insert _ m _ (sid_other s) e (increment_seqid e)); done.
  - unfold revoke. destruct (states m !! sid_other s) as [e|] eqn:He; [|by apply types_same].
    apply (types_insert _ m _ (sid_other s) e (entry_revoke e)); done.
  - eapply types_delete. by injection (remove_master_shown (sid_other s) m).
  - pose proof (close_open_spec s m Hc) as H. destruct (close_open s m) as [[] m']; simpl in *;
      [destruct H as (? & ? & _ & _ & H & _); exact (types_delete _ _ _ _ H)|..]; apply types_same; by destruct H as [[=] _].
  - eapply types_delete, close_state_states.
  - apply types_sub. intros o e'. apply revoke_types_fold.
  - apply types_sub. destruct (remove_client_spec client m Hc) as (_ & Hs & _). intros o e' [? _]%Hs. eauto.
Qed.
