(* ===== verification/StateidRestart.v ===== *)
(** Restart of the stateid table: what [load_records] rebuilds from the rows
    the previous process persisted. *)

From S2P Require Import Prelude Xdr Stateid StateidInv StateidProps.

(** A fresh manager over a backend that holds [d]. *)
Definition restarted (d : gmap Z StateIdRecord) : StateIdManager := set_db d StateIdManager_new.

Definition plain_row (r : StateIdRecord) : Prop := r_type r <> RDelegation.

(** The row rebuilds the open [st] under [k]. *)
Definition live_rec (r : StateIdRecord) (k : open_key) (st : OpenState) : Prop :=
  r_type r = ROpen /\ r_revoked r = false /\ exists oo fh, r_open r = Some oo /\ r_fh r = Some fh /\
  k = (r_client r, oo_owner oo, fh) /\ st = OpenSt (r_other r) (r_seqid r) (oo_access oo) (oo_deny oo) None.

Lemma live_rec_fun r k st k' st' : live_rec r k st -> live_rec r k' st' -> k = k' /\ st = st'.
Proof. intros (_ & _ & ? & ? & ? & ? & -> & ->) (_ & _ & ? & ? & ? & ? & -> & ->). by simplify_eq. Qed.

(** The rows [l] are in: every table is what they say. *)
Record loaded (l : list StateIdRecord) (maxc : Z) (m : StateIdManager) : Prop := {
  ld_states : forall o e, states m !! o = Some e <->
    exists r, r ∈ l /\ plain_row r /\ r_other r = o /\ e = from_record r;
  ld_clients : forall c o, o ∈ listed m c <-> exists r, r ∈ l /\ plain_row r /\ r_other r = o /\ r_client r = c;
  ld_nodup : forall c, NoDup (listed m c);
  ld_opens : forall k st, opened m k st <-> exists r, r ∈ l /\ live_rec r k st;
  ld_keys : forall o k, open_state_keys m !! o = Some k <->
    exists r st, r ∈ l /\ live_rec r k st /\ r_other r = o;
  ld_owners : forall c ow fh, (c, ow) ∈ owners_of m fh <-> exists st, opened m (c, ow, fh) st;
  ld_owners_nodup : forall fh, NoDup (owners_of m fh);
  ld_max : 0 <= maxc /\ (forall r, r ∈ l -> plain_row r -> r_other r / 2 ^ 32 <= maxc) /\
    (maxc = 0 \/ exists r, r ∈ l /\ plain_row r /\ r_other r / 2 ^ 32 = maxc) }.

(** What the persisted rows satisfy: plain rows have distinct ids, live ones
    distinct open keys. *)
Record rows_ok (l : list StateIdRecord) : Prop := {
  ro_ids : forall i j r r', l !! i = Some r -> l !! j = Some r' -> plain_row r -> plain_row r' ->
    r_other r = r_other r' -> i = j;
  ro_keys : forall r r' k st st', r ∈ l -> r' ∈ l -> live_rec r k st -> live_rec r' k st' -> r = r' }.

Lemma live_plain r k st : live_rec r k st -> plain_row r.
Proof. intros (H & _). unfold plain_row. by rewrite H. Qed.

Lemma load_open_cases r m :
  (load_open r m = m /\ forall k st, ~ live_rec r k st) \/
  exists c ow fh st, live_rec r (c, ow, fh) st /\ r_client r = c /\ os_other st = r_other r /\
    load_open r m = set_by_fh (<[fh := owners_with (owners_of m fh) (c, ow)]> (opens_by_fh m))
      (set_open_states (<[(c, ow, fh) := st]> (open_states m))
        (set_keys (<[r_other r := (c, ow, fh)]> (open_state_keys m)) m)).
Proof.
  unfold load_open. destruct (r_type r) eqn:Ht, (r_revoked r) eqn:Hr, (r_open r) as [oo|] eqn:Ho,
    (r_fh r) as [fh|] eqn:Hf; try by (left; split; [done|]; intros k st (? & ? & ? & ? & ? & ? & _); congruence).
  right. exists (r_client r), (oo_owner oo), fh, (OpenSt (r_other r) (r_seqid r) (oo_access oo) (oo_deny oo) None).
  split_and!; try done. split_and!; try done. eauto 10.
Qed.

Lemma elem_snoc {A} (x y : A) l : x ∈ l ++ [y] <-> x ∈ l \/ x = y.
Proof. rewrite elem_of_app, list_elem_of_singleton. done. Qed.

Lemma ex_snoc_not {A} (P : A -> Prop) l y : ~ P y ->
  (exists x, x ∈ l ++ [y] /\ P x) <-> exists x, x ∈ l /\ P x.
Proof. intros Hn. setoid_rewrite elem_snoc. split; [intros (x & [?| ->] & ?)|intros (x & ? & ?)]; [eauto|done|eauto]. Qed.

(** The entry half of a step: a plain row's id joins [states] and the
    client's list. *)
Lemma add_entry_fields e m :
  let m' := add_entry e m in let o := sid_other (en_stateid e) in
  states m' = <[o := e]> (states m) /\
  (forall c, listed m' c = if decide (en_client e = c) then listed m c ++ [o] else listed m c) /\
  open_states m' = open_states m /\ open_state_keys m' = open_state_keys m /\ opens_by_fh m' = opens_by_fh m.
Proof.
  simpl. split_and!; try done. intros c. unfold listed. simpl. rewrite lookup_insert. by case_decide; subst.
Qed.

Lemma load_step l maxc m r : loaded l maxc m -> plain_row r ->
  (forall r', r' ∈ l -> plain_row r' -> r_other r' <> r_other r) ->
  (forall r' k st st', r' ∈ l -> live_rec r' k st -> ~ live_rec r k st') ->
  loaded (l ++ [r]) (Z.max maxc (r_other r / 2 ^ 32)) (add_entry (from_record r) (load_open r m)).
Proof.
  intros Hl Hp Hid Hkey.
  destruct (add_entry_fields (from_record r) (load_open r m)) as (Hst & Hls & Hop & Hks & Hfh).
  change (sid_other (en_stateid (from_record r))) with (r_other r) in Hst, Hls.
  change (en_client (from_record r)) with (r_client r) in Hls.
  assert (H0 : states (load_open r m) = states m /\ client_states (load_open r m) = client_states m).
  { destruct (load_open_cases r m) as [[-> _]|(? & ? & ? & ? & _ & _ & _ & ->)]; done. }
  destruct H0 as [Hs0 Hc0].
  assert (Hlm : forall c, listed (load_open r m) c = listed m c) by (intros; unfold listed; by rewrite Hc0).
  set (m' := add_entry _ _) in *.
  assert (Ho : forall k st, opened m' k st <-> opened m k st \/ live_rec r k st).
  { intros k st. unfold opened. rewrite Hop.
    destruct (load_open_cases r m) as [[-> Hno]|(c & ow & fh & st' & Hlv & _ & _ & ->)]; simpl; [naive_solver|].
    rewrite lookup_insert_Some. split.
    - intros [[<- <-]|[_ ?]]; auto.
    - intros [Hk|Hlv']; [|by destruct (live_rec_fun _ _ _ _ _ Hlv Hlv') as [-> ->]; left].
      right. split; [|done]. intros <-. apply (ld_opens _ _ _ Hl) in Hk as (r' & Hr' & Hlv').
      by eapply Hkey. }
  split.
  - intros o e. rewrite Hst, Hs0, lookup_insert_Some, (ld_states _ _ _ Hl). setoid_rewrite elem_snoc. split.
    + intros [[<- <-]|(_ & r' & ? & ? & ? & ?)]; [exists r|exists r']; auto.
    + intros (r' & [Hin| ->] & Hp' & <- & ->); [right|by left]. split; [|eauto 10]. intros He. by eapply Hid.
  - intros c o. rewrite Hls, Hlm. setoid_rewrite elem_snoc. case_decide as Hc.
    + rewrite elem_snoc, (ld_clients _ _ _ Hl). split.
      * intros [(r' & ? & ? & ? & ?)| ->]; [exists r'; auto|exists r; auto].
      * intros (r' & [Hin| ->] & ? & <- & ?); [left; eauto 10|by right].
    + rewrite (ld_clients _ _ _ Hl). split.
      * intros (r' & ? & ? & ? & ?). exists r'; auto.
      * intros (r' & [Hin| ->] & ? & <- & ?); [eauto 10|done].
  - intros c. rewrite Hls, Hlm. case_decide; [|apply (ld_nodup _ _ _ Hl)]. apply NoDup_app.
    split_and!; [apply (ld_nodup _ _ _ Hl)| |apply NoDup_singleton]. intros o Hin ->%list_elem_of_singleton.
    apply (ld_clients _ _ _ Hl) in Hin as (r' & ? & ? & ? & _). by eapply Hid.
  - intros k st. rewrite Ho, (ld_opens _ _ _ Hl). setoid_rewrite elem_snoc. split.
    + intros [(r' & ? & ?)|?]; [exists r'|exists r]; auto.
    + intros (r' & [Hin| ->] & ?); [left; eauto|by right].
  - intros o k. rewrite Hks. setoid_rewrite elem_snoc.
    destruct (load_open_cases r m) as [[-> Hno]|(c & ow & fh & st' & Hlv & _ & _ & ->)]; simpl.
    + rewrite (ld_keys _ _ _ Hl). split.
      * intros (r' & st & ? & ? & ?). exists r', st; auto.
      * intros (r' & st & [Hin| ->] & Hlv & ?); [eauto 10|by destruct (Hno _ _ Hlv)].
    + rewrite lookup_insert_Some, (ld_keys _ _ _ Hl). split.
      * intros [[<- <-]|(_ & r' & st & ? & ? & ?)]; [exists r, st'|exists r', st]; auto.
      * intros (r' & st & [Hin| ->] & Hlv' & <-).
        { right. split; [|eauto]. intros He. eapply Hid; [done|by eapply live_plain|done]. }
        { left. split; [done|]. by destruct (live_rec_fun _ _ _ _ _ Hlv Hlv'). }
  - intros c ow fh. setoid_rewrite Ho. unfold owners_of. rewrite Hfh.
    pose proof (ld_owners _ _ _ Hl c ow fh) as Hold.
    destruct (load_open_cases r m) as [[-> Hno]|(c' & ow' & fh' & st' & Hlv & _ & _ & ->)]; simpl.
    + rewrite Hold. naive_solver.
    + rewrite lookup_insert. destruct (decide (fh' = fh)) as [->|Hne]; simpl.
      * rewrite elem_owners_with, Hold. split; [naive_solver|].
        intros (st & [Hs|Hlv']); [eauto|]. right. by destruct (live_rec_fun _ _ _ _ _ Hlv Hlv') as [[= -> ->] _].
      * fold (owners_of m fh). rewrite Hold. split; [naive_solver|]. intros (st & [Hs|Hlv']); [eauto|].
        by destruct (live_rec_fun _ _ _ _ _ Hlv Hlv') as [[= _ _ ?] _].
  - intros fh. unfold owners_of. rewrite Hfh.
    destruct (load_open_cases r m) as [[-> Hno]|(c' & ow' & fh' & st' & Hlv & _ & _ & ->)];
      [apply (ld_owners_nodup _ _ _ Hl)|]. simpl.
    rewrite lookup_insert. case_decide; [|apply (ld_owners_nodup _ _ _ Hl)].
    apply owners_with_nodup, (ld_owners_nodup _ _ _ Hl).
  - destruct (ld_max _ _ _ Hl) as (H1 & H2 & H3). setoid_rewrite elem_snoc. split_and!.
    + lia.
    + intros r' [Hin| ->] Hp'; [specialize (H2 r' Hin Hp')|]; lia.
    + destruct (decide (maxc <= r_other r / 2 ^ 32)).
      * right. exists r. split_and!; [by right|done|lia].
      * rewrite Z.max_l by lia. destruct H3 as [?|(r' & ? & ? & ?)]; [by left|right; eauto 10].
Qed.

(** A delegation row (holder or breaker marker) changes no table. *)
Lemma load_skip l maxc m r : ~ plain_row r -> loaded l maxc m -> loaded (l ++ [r]) maxc m.
Proof.
  intros Hp []. assert (Hx : forall k st, ~ live_rec r k st) by (intros k st Hlv%live_plain; done).
  destruct ld_max0 as (? & ? & ?).
  split; try done.
  - intros o e. rewrite ld_states0, ex_snoc_not; [done|]. by intros [? _].
  - intros c o. rewrite ld_clients0, ex_snoc_not; [done|]. by intros [? _].
  - intros k st. rewrite ld_opens0, ex_snoc_not; [done|]. apply Hx.
  - intros o k. rewrite ld_keys0. split; intros (r' & st & Hin & Hlv & ?); exists r', st; split_and!; try done.
    + apply elem_snoc. by left.
    + apply elem_snoc in Hin as [?| ->]; [done|]. by destruct (Hx _ _ Hlv).
  - rewrite ex_snoc_not by (by intros [? _]). split_and!; try done.
    intros r' [Hin| ->]%elem_snoc; [auto|done].
Qed.

Definition other_fields (m : StateIdManager) := (next_stateid m, stateid_tag m, sm_db m).

Lemma load_record_other r maxc mk m maxc' mk' m' :
  load_record r (maxc, mk, m) = (maxc', mk', m') -> other_fields m' = other_fields m.
Proof.
  unfold load_record. case_bool_decide; [case_match; congruence|]. intros [= _ _ <-].
  destruct (load_open_cases r m) as [[-> _]|(? & ? & ? & ? & _ & _ & _ & ->)]; done.
Qed.

Lemma load_fold l2 : forall l1 maxc mk m maxc' mk' m',
  rows_ok (l1 ++ l2) -> loaded l1 maxc m ->
  foldl (fun st r => load_record r st) (maxc, mk, m) l2 = (maxc', mk', m') ->
  loaded (l1 ++ l2) maxc' m' /\ other_fields m' = other_fields m.
Proof.
  induction l2 as [|r l2 IH]; intros l1 maxc mk m maxc' mk' m' Hok Hl Hf; cbn [foldl] in Hf.
  { simplify_eq. by rewrite app_nil_r. }
  destruct (load_record r (maxc, mk, m)) as [[maxc1 mk1] m1] eqn:E.
  pose proof (load_record_other _ _ _ _ _ _ _ E) as Ho.
  rewrite cons_middle, (assoc_L (++)) in Hok |- *. rewrite <- Ho.
  eapply (IH (l1 ++ [r])); [done| |done]. unfold load_record in E.
  case_bool_decide as Ht.
  - assert (Hnp : ~ plain_row r) by (intros Hp; by apply Hp).
    assert (maxc1 = maxc /\ m1 = m) as [-> ->] by (destruct (_ =? _); naive_solver).
    by apply load_skip.
  - simplify_eq. apply load_step; try done.
    + intros r' Hin Hp' He. apply list_elem_of_lookup in Hin as [i Hi].
      assert (i = length l1) as ->.
      { eapply (ro_ids _ Hok); [| |exact Hp'|exact Ht|exact He].
        - rewrite <- (assoc_L (++)). by apply lookup_app_l_Some.
        - rewrite <- (assoc_L (++)), lookup_app_r, Nat.sub_diag by lia. done. }
      apply lookup_lt_Some in Hi. lia.
    + intros r' k st st' Hin Hlv Hlv'.
      assert (r' = r) as -> by (eapply (ro_keys _ Hok); [set_solver|set_solver|done|done]).
      apply list_elem_of_lookup in Hin as [i Hi].
      assert (i = length l1) as ->.
      { eapply (ro_ids _ Hok _ _ r r); [| |done|done|done].
        - rewrite <- (assoc_L (++)). by apply lookup_app_l_Some.
        - rewrite <- (assoc_L (++)), lookup_app_r, Nat.sub_diag by lia. done. }
      apply lookup_lt_Some in Hi. lia.
Qed.

Lemma loaded_nil d : loaded [] 0 (restarted d).
Proof.
  assert (Hn : forall A (P : A -> Prop), (exists x, x ∈ [] /\ P x) <-> False).
  { intros A P. split; [|done]. by intros (x & ?%elem_of_nil & _). }
  split; simpl; try done.
  - intros o e. by rewrite Hn, lookup_empty.
  - intros c o. rewrite Hn. unfold listed. simpl. split; [by intros ?%elem_of_nil|done].
  - intros c. constructor.
  - intros k st. rewrite Hn. by unfold opened.
  - intros o k. split; [done|]. by intros (? & ? & ?%elem_of_nil & _).
  - intros c ow fh. split; [by intros ?%elem_of_nil|by intros [? ?]].
  - intros fh. constructor.
  - split_and!; [lia|by intros ? ?%elem_of_nil|by left].
Qed.

(** ** The rows a running manager leaves behind *)
Section restart.
Context (m : StateIdManager) (Hinv : sid_inv m) (kv : list (Z * StateIdRecord)).
Hypothesis Hkv : kv ≡ₚ map_to_list (sm_db m).

Lemma record_entry o e : states m !! o = Some e -> from_record (to_record e) = e.
Proof.
  intros He. pose proof (sc_id _ _ (proj1 Hinv) _ _ He) as Hid. unfold from_record, to_record. simpl.
  destruct e as [[q p] t c n f r oo]; simpl in *. injection Hid as -> ->. by destruct t.
Qed.

Lemma plain_pair o r : (o, r) ∈ kv -> plain_row r ->
  exists e, states m !! o = Some e /\ en_type e <> TyDelegation /\ r = to_record e /\ r_other r = o.
Proof.
  intros Hin Hp. rewrite Hkv in Hin. apply elem_of_map_to_list in Hin.
  destruct (proj1 (sc_db _ _ (proj1 Hinv) o r) (conj Hin Hp)) as (e & He & Ht & ->). exists e.
  split_and!; try done. simpl. by rewrite (sc_id _ _ (proj1 Hinv) _ _ He).
Qed.

Lemma entry_row o e : states m !! o = Some e -> en_type e <> TyDelegation ->
  to_record e ∈ kv.*2 /\ plain_row (to_record e) /\ r_other (to_record e) = o.
Proof.
  intros He Ht. destruct (proj2 (sc_db _ _ (proj1 Hinv) o (to_record e))) as [Hd Hp]; [eauto|].
  split_and!; [|done|simpl; by rewrite (sc_id _ _ (proj1 Hinv) _ _ He)].
  apply list_elem_of_fmap. exists (o, to_record e). split; [done|]. rewrite Hkv. by apply elem_of_map_to_list.
Qed.

Lemma row_entry r : r ∈ kv.*2 -> plain_row r ->
  exists e, states m !! r_other r = Some e /\ en_type e <> TyDelegation /\ r = to_record e.
Proof.
  intros Hin Hp. apply list_elem_of_fmap in Hin as ([o r'] & -> & Hin).
  destruct (plain_pair o r' Hin Hp) as (e & He & Ht & -> & Ho). simpl in *. rewrite Ho. eauto.
Qed.

(** A live row is a live open of the running manager. *)
Definition forget (st : OpenState) : OpenState :=
  OpenSt (os_other st) (os_seqid st) (os_access st) (os_deny st) None.

Lemma live_rec_open k st' : (exists r, r ∈ kv.*2 /\ live_rec r k st') <->
  exists st, opened m k st /\ master_alive m (os_other st) = true /\ st' = forget st.
Proof.
  split.
  - intros (r & Hin & Hlv). destruct (row_entry r Hin (live_plain _ _ _ Hlv)) as (e & He & _ & ->).
    destruct Hlv as (Ht & Hr & oo & fh & Hoo & Hfh & -> & ->). simpl in *.
    destruct (sc_live _ _ (proj1 Hinv) _ e oo fh ltac:(done) He) as (st & Hs & Ho).
    { unfold live_row. split_and!; try done. by destruct (en_type e). }
    rewrite <- Ho in He. destruct (sc_master _ _ (proj1 Hinv) _ _ _ Hs He) as [_ _ _ Hq Hop].
    exists st. split_and!; [done|unfold master_alive; by rewrite He, Hr|]. unfold forget.
    rewrite Hoo in Hop. injection Hop as ->. simpl. f_equal; congruence.
  - intros (st & Hs & Ha & ->). unfold master_alive in Ha.
    destruct (states m !! os_other st) as [e|] eqn:He; [|done].
    destruct (sc_master _ _ (proj1 Hinv) _ _ _ Hs He) as [Ht Hcl Hf Hq Hop].
    destruct (entry_row _ _ He) as (Hin & _ & Ho); [by rewrite Ht|].
    exists (to_record e). split; [done|]. split_and!; [simpl; by rewrite Ht|simpl; by destruct (en_revoked e)|].
    exists (OwnerRec k.1.2 (os_access st) (os_deny st)), k.2. simpl in *. split_and!; try done.
    + rewrite Hcl. by destruct k as [[? ?] ?].
    + unfold forget. by rewrite Ho, Hq.
Qed.

Lemma kv_rows_ok : rows_ok kv.*2.
Proof.
  split.
  - intros i j r r' Hi Hj Hp Hp' He. rewrite list_lookup_fmap in Hi, Hj.
    destruct (kv !! i) as [[o r1]|] eqn:Ei; [|done]. destruct (kv !! j) as [[o' r2]|] eqn:Ej; [|done].
    simplify_eq/=. assert (Hn : NoDup kv.*1) by (rewrite Hkv; apply NoDup_fst_map_to_list).
    destruct (plain_pair o r) as (? & _ & _ & _ & H1); [by eapply list_elem_of_lookup_2|done|].
    destruct (plain_pair o' r') as (? & _ & _ & _ & H2); [by eapply list_elem_of_lookup_2|done|].
    apply (NoDup_lookup kv.*1 i j (r_other r) Hn); rewrite list_lookup_fmap; [rewrite Ei|rewrite Ej]; simpl; congruence.
  - intros r r' k st st' Hin Hin' Hlv Hlv'.
    destruct (proj1 (live_rec_open k st) (ex_intro _ r (conj Hin Hlv))) as (s & Hs & _ & ->).
    destruct (proj1 (live_rec_open k st') (ex_intro _ r' (conj Hin' Hlv'))) as (s' & Hs' & _ & ->).
    unfold opened in *. simplify_eq.
    destruct (row_entry r Hin (live_plain _ _ _ Hlv)) as (e & He & _ & ->).
    destruct (row_entry r' Hin' (live_plain _ _ _ Hlv')) as (e' & He' & _ & ->).
    destruct Hlv as (_ & _ & ? & ? & _ & _ & _ & [= Ho _ _]), Hlv' as (_ & _ & ? & ? & _ & _ & _ & [= Ho' _ _]).
    assert (e = e') by (simpl in *; congruence). by subst.
Qed.

(** ** What the restarted manager holds *)
Lemma restart_spec mk m' : next_stateid m < 2 ^ 64 ->
  load_records kv.*2 (restarted (sm_db m)) = (mk, m') ->
  sid_core m' /\ next_stateid m' <= next_stateid m /\
  (forall o e, states m' !! o = Some e <-> states m !! o = Some e /\ en_type e <> TyDelegation) /\
  (forall k st', opened m' k st' <->
    exists st, opened m k st /\ master_alive m (os_other st) = true /\ st' = forget st).
Proof.
  intros Hb. unfold load_records. destruct (foldl _ _ _) as [[maxc mk1] m1] eqn:Ef. intros [= _ Hm'].
  destruct (load_fold kv.*2 [] 0 _ _ _ _ _ kv_rows_ok (loaded_nil _) Ef) as [Hl Ho].
  simpl in Hl, Ho. injection Ho as Hnext Htag Hdb.
  pose proof (sc_next _ _ (proj1 Hinv)) as Hpos. destruct (ld_max _ _ _ Hl) as (Hm0 & Hm1 & Hm2).
  assert (Hmc : maxc < next_stateid m).
  { destruct Hm2 as [->|(r & Hin & Hp & <-)]; [lia|]. destruct (row_entry r Hin Hp) as (e & He & Ht & _).
    by eapply (sc_plain _ _ (proj1 Hinv)). }
  assert (Hcore : exists n, m' = set_next n m1 /\ maxc < n <= next_stateid m /\ 0 < n).
  { rewrite Hnext in Hm'. destruct (1 <=? maxc) eqn:Hle; bool_Z.
    - exists (maxc + 1). rewrite <- Hm'. unfold wrap_u64. rewrite Z.mod_small by lia. split; [done|lia].
    - exists 1. split; [|lia]. rewrite <- Hm', <- Hnext. by destruct m1. }
  destruct Hcore as (n & -> & Hn & Hn0).
  assert (Hst : forall o e, states m1 !! o = Some e <-> states m !! o = Some e /\ en_type e <> TyDelegation).
  { intros o e. rewrite (ld_states _ _ _ Hl). split.
    - intros (r & Hin & Hp & <- & ->). destruct (row_entry r Hin Hp) as (e & He & Ht & ->).
      by rewrite (record_entry _ _ He).
    - intros [He Ht]. destruct (entry_row _ _ He Ht) as (Hin & Hp & Hr). exists (to_record e).
      split_and!; try done. by rewrite (record_entry _ _ He). }
  assert (Hop : forall k st', opened m1 k st' <->
    exists st, opened m k st /\ master_alive m (os_other st) = true /\ st' = forget st).
  { intros k st'. rewrite (ld_opens _ _ _ Hl). apply live_rec_open. }
  assert (Hrange : forall r, r ∈ kv.*2 -> plain_row r -> 0 <= r_other r / 2 ^ 32 < n).
  { intros r Hin Hp. specialize (Hm1 r Hin Hp). destruct (row_entry r Hin Hp) as (e & He & Ht & _).
    pose proof (sc_plain _ _ (proj1 Hinv) _ _ He Ht). lia. }
  split; [|split; [simpl; lia|done]].
  assert (Hplain : forall o e, states m1 !! o = Some e -> 0 <= o / 2 ^ 32 < n).
  { intros o e (r & Hin & Hp & <- & _)%(ld_states _ _ _ Hl). by apply Hrange. }
  split; simpl; try done.
  - by rewrite Htag.
  - intros o e He. left. simpl. by eapply Hplain.
  - intros o e He _. by eapply Hplain.
  - intros o k (r & st & Hin & Hlv & <-)%(ld_keys _ _ _ Hl). left. simpl. apply Hrange; [done|by eapply live_plain].
  - intros o e [He _]%Hst. by apply (sc_id _ _ (proj1 Hinv)).
  - intros c o. change (listed (set_next n m1) c) with (listed m1 c). rewrite (ld_clients _ _ _ Hl). split.
    + intros (r & Hin & Hp & <- & <-). exists (from_record r). split; [|done]. apply (ld_states _ _ _ Hl). eauto.
    + intros (e & (r & Hin & Hp & <- & ->)%(ld_states _ _ _ Hl) & <-). eauto 10.
  - apply (ld_nodup _ _ _ Hl).
  - intros k st Hs. apply (ld_opens _ _ _ Hl) in Hs as (r & Hin & Hlv). apply (ld_keys _ _ _ Hl).
    exists r, st. split_and!; try done. by destruct Hlv as (_ & _ & ? & ? & _ & _ & _ & ->).
  - apply (ld_owners _ _ _ Hl).
  - apply (ld_owners_nodup _ _ _ Hl).
  - intros k st e (s & Hs & _ & ->)%Hop [He _]%Hst.
    destruct (sc_master _ _ (proj1 Hinv) _ _ _ Hs He). by split.
  - intros o e oo fh _ [He Ht]%Hst Hlv.
    destruct (sc_live _ _ (proj1 Hinv) o e oo fh ltac:(done) He Hlv) as (st & Hs & Hso).
    exists (forget st). split; [|done]. apply Hop. exists st. split_and!; try done.
    unfold master_alive. rewrite Hso, He. destruct Hlv as (_ & -> & _). done.
  - intros o r. rewrite Hdb. simpl. rewrite (sc_db _ _ (proj1 Hinv)). setoid_rewrite Hst. split.
    + intros (e & ? & ? & ?). exists e. auto.
    + intros (e & [? ?] & ? & ?). exists e. auto.
Qed.

End restart.
