(* ===== verification/Locks.v ===== *)
(** Byte-range locks (nfs/v4/operations/lockops.rs): the lock table, its
    persisted rows, and the LOCK, LOCKT, LOCKU and FREE_STATEID handlers.

    Sums of u64 inside [trim_owner_range] wrap, as in a release build.  The
    backend is always attached ([with_backend]), [lm_db] is its lock table
    after the ordered write queue. *)

From S2P Require Import Prelude Xdr Stateid.

Inductive LockType := LkRead | LkWrite | LkReadWrite | LkWriteRead.
#[global] Instance LockType_eq : EqDecision LockType.
Proof. solve_decision. Defined.

Record LockRange := Range { lr_offset : Z; lr_length : Z }.
#[global] Instance LockRange_eq : EqDecision LockRange.
Proof. solve_decision. Defined.

Definition TO_EOF : Z := u64_max.

Definition validate_lock_range (offset length : Z) : result Nfs4Status unit :=
  if length =? 0 then Err NFS_Inval
  else if negb (length =? TO_EOF) && (u64_max <? offset + length) then Err NFS_Inval
  else Ok tt.

Definition range_end (r : LockRange) : Z :=
  if (lr_length r =? TO_EOF) || (lr_length r =? 0) then u64_max
  else Z.min u64_max (lr_offset r + lr_length r).

Definition overlaps (a b : LockRange) : bool :=
  (lr_offset a <? range_end b) && (lr_offset b <? range_end a).

Definition conflicts_with (a b : LockRange) (ta tb : LockType) : bool :=
  if negb (overlaps a b) then false
  else if bool_decide (ta = LkRead) && bool_decide (tb = LkRead) then false
  else true.

Record Lock := MkLock {
  lk_stateid : StateId; lk_client : Z; lk_owner : bytes; lk_fh : bytes;
  lk_type : LockType; lk_range : LockRange }.
Record LockRecord := LockRec {
  lrec_other : Z; lrec_seqid : Z; lrec_client : Z; lrec_owner : bytes; lrec_fh : bytes;
  lrec_type : Z; lrec_offset : Z; lrec_length : Z }.
Record LockOwnerKey := OwnerKey { ok_client : Z; ok_owner : bytes; ok_fh : bytes }.
#[global] Instance LockOwnerKey_eq : EqDecision LockOwnerKey.
Proof. solve_decision. Defined.

Definition lock_type_code (t : LockType) : Z :=
  match t with LkRead => 1 | LkWrite => 2 | LkReadWrite => 3 | LkWriteRead => 4 end.

Definition lock_to_record (l : Lock) : LockRecord :=
  LockRec (sid_other (lk_stateid l)) (sid_seqid (lk_stateid l)) (lk_client l) (lk_owner l) (lk_fh l)
    (lock_type_code (lk_type l)) (lr_offset (lk_range l)) (lr_length (lk_range l)).
Definition lock_from_record (r : LockRecord) : option Lock :=
  let mk t := Some (MkLock (Sid (lrec_seqid r) (lrec_other r)) (lrec_client r) (lrec_owner r) (lrec_fh r) t
                      (Range (lrec_offset r) (lrec_length r))) in
  if lrec_type r =? 1 then mk LkRead
  else if lrec_type r =? 2 then mk LkWrite
  else if lrec_type r =? 3 then mk LkReadWrite
  else if lrec_type r =? 4 then mk LkWriteRead
  else None.

Definition OWNER_REGISTRATION_LOCK_TYPE : Z := 252.
(** Bytes 0xFC, 'l', 'k', 0 in front of a big-endian u64. *)
Definition ENTRY_PREFIX : Z := 4234963712.

Definition minted_entry_counter (other : Z) : option Z :=
  if other / 2 ^ 64 =? ENTRY_PREFIX then Some (other mod 2 ^ 64) else None.

Record LockManager := LockMgr {
  lm_locks : gmap Z Lock;
  stateid_owners : gmap Z LockOwnerKey;
  entry_key_counter : Z;
  locks_by_fh : gmap bytes (list Z);
  lock_counts : gmap Z Z;
  restored_clean : bool;
  lm_db : gmap Z LockRecord }.

Definition LockManager_new (db : gmap Z LockRecord) : LockManager := LockMgr ∅ ∅ 1 ∅ ∅ true db.

Definition set_locks x m := LockMgr x (stateid_owners m) (entry_key_counter m) (locks_by_fh m) (lock_counts m) (restored_clean m) (lm_db m).
Definition set_owners x m := LockMgr (lm_locks m) x (entry_key_counter m) (locks_by_fh m) (lock_counts m) (restored_clean m) (lm_db m).
Definition set_counter x m := LockMgr (lm_locks m) (stateid_owners m) x (locks_by_fh m) (lock_counts m) (restored_clean m) (lm_db m).
Definition set_index x m := LockMgr (lm_locks m) (stateid_owners m) (entry_key_counter m) x (lock_counts m) (restored_clean m) (lm_db m).
Definition set_counts x m := LockMgr (lm_locks m) (stateid_owners m) (entry_key_counter m) (locks_by_fh m) x (restored_clean m) (lm_db m).
Definition set_clean x m := LockMgr (lm_locks m) (stateid_owners m) (entry_key_counter m) (locks_by_fh m) (lock_counts m) x (lm_db m).
Definition set_lock_db x m := LockMgr (lm_locks m) (stateid_owners m) (entry_key_counter m) (locks_by_fh m) (lock_counts m) (restored_clean m) x.

(** ** Rows *)
Definition count_down (c : Z) (t : gmap Z Z) : gmap Z Z :=
  match t !! c with Some n => <[c := Z.max 0 (n - 1)]> t | None => t end.

Definition insert_in_memory (l : Lock) (m : LockManager) : LockManager :=
  let key := sid_other (lk_stateid l) in
  let m1 := set_owners (<[key := OwnerKey (lk_client l) (lk_owner l) (lk_fh l)]> (stateid_owners m)) m in
  let counts := <[lk_client l := default 0 (lock_counts m !! lk_client l) + 1]> (lock_counts m) in
  let counts' := match lm_locks m !! key with
                 | Some prev => count_down (lk_client prev) counts
                 | None => counts
                 end in
  let m2 := set_locks (<[key := l]> (lm_locks m)) (set_counts counts' m1) in
  set_index (<[lk_fh l := default [] (locks_by_fh m !! lk_fh l) ++ [key]]> (locks_by_fh m)) m2.

Definition add_lock (l : Lock) (m : LockManager) : LockManager :=
  let m1 := insert_in_memory l m in
  set_lock_db (<[sid_other (lk_stateid l) := lock_to_record l]> (lm_db m1)) m1.

Definition drop_index (key : Z) (fh : bytes) (t : gmap bytes (list Z)) : gmap bytes (list Z) :=
  match t !! fh with
  | Some v => let v' := filter (fun k => k <> key) v in
              if bool_decide (v' = []) then delete fh t else <[fh := v']> t
  | None => t
  end.

Definition remove_lock (key : Z) (m : LockManager) : option Lock * LockManager :=
  match lm_locks m !! key with
  | Some l =>
      let m1 := set_locks (delete key (lm_locks m)) m in
      let m2 := set_counts (count_down (lk_client l) (lock_counts m)) m1 in
      let m3 := set_index (drop_index key (lk_fh l) (locks_by_fh m)) m2 in
      (Some l, set_lock_db (delete key (lm_db m)) m3)
  | None => (None, m)
  end.

Definition mint_entry_stateid (m : LockManager) : StateId * LockManager :=
  (Sid 1 (ENTRY_PREFIX * 2 ^ 64 + entry_key_counter m), set_counter (wrap_u64 (entry_key_counter m + 1)) m).

(** Mint a key and add a range under it. *)
Definition add_range (client : Z) (owner fh : bytes) (t : LockType) (r : LockRange) (m : LockManager) : LockManager :=
  let '(s, m1) := mint_entry_stateid m in
  add_lock (MkLock s client owner fh t r) m1.

(** ** Owners *)
Definition resolve_owner (m : LockManager) (s : StateId) : option (Z * bytes) :=
  match stateid_owners m !! sid_other s with
  | Some o => Some (ok_client o, ok_owner o)
  | None => (fun l => (lk_client l, lk_owner l)) <$> lm_locks m !! sid_other s
  end.

Definition lock_count_for_client (m : LockManager) (c : Z) : Z := default 0 (lock_counts m !! c).

Definition registration (other client : Z) (owner fh : bytes) : LockRecord :=
  LockRec other 0 client owner fh OWNER_REGISTRATION_LOCK_TYPE 0 0.

Definition register_owner_stateid (other client : Z) (owner fh : bytes) (m : LockManager) : LockManager :=
  set_owners (<[other := OwnerKey client owner fh]> (stateid_owners m))
    (set_lock_db (<[other := registration other client owner fh]> (lm_db m)) m).

Definition canonical_for_owner (m : LockManager) (client : Z) (owner fh : bytes) : option Z :=
  head (omap (fun '(k, v) =>
    if bool_decide (minted_entry_counter k = None) && bool_decide (v = OwnerKey client owner fh)
    then Some k else None) (map_to_list (stateid_owners m))).

(** ** Carving a range out of an owner's entries *)
Definition trim_key (client : Z) (owner fh : bytes) (cut : LockRange) (m : LockManager) (key : Z) : LockManager :=
  match lm_locks m !! key with
  | Some e =>
      if (lk_client e =? client) && bool_decide (lk_owner e = owner) && overlaps (lk_range e) cut then
        let held := lk_range e in
        let m1 := (remove_lock key m).2 in
        let m2 := if lr_offset held <? lr_offset cut
                  then add_range client owner fh (lk_type e)
                         (Range (lr_offset held) (lr_offset cut - lr_offset held)) m1
                  else m1 in
        if lr_length cut =? 0 then m2
        else
          let cut_end := wrap_u64 (lr_offset cut + lr_length cut) in
          let held_end := wrap_u64 (lr_offset held + lr_length held) in
          if (lr_length held =? 0) || (cut_end <? held_end)
          then add_range client owner fh (lk_type e)
                 (Range cut_end (if lr_length held =? 0 then 0 else held_end - cut_end)) m2
          else m2
      else m
  | None => m
  end.

Definition trim_owner_range (client : Z) (owner fh : bytes) (cut : LockRange) (m : LockManager) : LockManager :=
  match locks_by_fh m !! fh with
  | Some keys => foldl (trim_key client owner fh cut) m keys
  | None => m
  end.

(** ** Queries *)
Definition check_conflicts (m : LockManager) (fh : bytes) (r : LockRange) (t : LockType)
    (exclude : option (Z * bytes)) : option Lock :=
  head (omap (fun key =>
    match lm_locks m !! key with
    | Some e =>
        if bool_decide (exclude = Some (lk_client e, lk_owner e)) then None
        else if conflicts_with r (lk_range e) t (lk_type e) then Some e else None
    | None => None
    end) (default [] (locks_by_fh m !! fh))).

Definition find_matching (m : LockManager) (client : Z) (owner fh : bytes) (t : LockType) (r : LockRange) : option Lock :=
  head (omap (fun key =>
    match lm_locks m !! key with
    | Some e => if (lk_client e =? client) && bool_decide (lk_owner e = owner) &&
                   bool_decide (lk_type e = t) && bool_decide (lk_range e = r) then Some e else None
    | None => None
    end) (default [] (locks_by_fh m !! fh))).

Definition get_lock (m : LockManager) (s : StateId) : option Lock := lm_locks m !! sid_other s.
Definition get_client_locks (m : LockManager) (client : Z) : list Lock :=
  filter (fun l => lk_client l = client) (map_to_list (lm_locks m)).*2.

(** ** Removal *)
Definition owner_holds (m : LockManager) (k : LockOwnerKey) : bool :=
  existsb (fun key => match lm_locks m !! key with
                      | Some l => (lk_client l =? ok_client k) && bool_decide (lk_owner l = ok_owner k)
                      | None => false
                      end) (default [] (locks_by_fh m !! ok_fh k)).

Definition release_owner_stateid (other : Z) (m : LockManager) : bool * LockManager :=
  if bool_decide (is_Some (lm_locks m !! other)) then (false, m)
  else match stateid_owners m !! other with
       | None => (true, m)
       | Some k =>
           if owner_holds m k then (false, m)
           else (true, set_lock_db (delete other (lm_db m)) (set_owners (delete other (stateid_owners m)) m))
       end.

Definition client_keys {A} (client_of : A -> Z) (c : Z) (t : gmap Z A) : list Z :=
  omap (fun '(k, v) => if client_of v =? c then Some k else None) (map_to_list t).

Definition purge_owner (m : LockManager) (key : Z) : LockManager :=
  set_lock_db (delete key (lm_db m)) (set_owners (delete key (stateid_owners m)) m).

Definition remove_client_locks (client : Z) (m : LockManager) : LockManager :=
  let m1 := foldl (fun m key => (remove_lock key m).2) m (client_keys lk_client client (lm_locks m)) in
  foldl purge_owner m1 (client_keys ok_client client (stateid_owners m1)).

(** ** Restart *)
Definition load_lock (st : Z * LockManager) (r : LockRecord) : Z * LockManager :=
  let '(maxm, m) := st in
  let maxm' := match minted_entry_counter (lrec_other r) with Some n => Z.max maxm n | None => maxm end in
  if lrec_type r =? OWNER_REGISTRATION_LOCK_TYPE
  then (maxm', set_owners (<[lrec_other r := OwnerKey (lrec_client r) (lrec_owner r) (lrec_fh r)]> (stateid_owners m)) m)
  else match lock_from_record r with
       | Some l => (maxm', insert_in_memory l m)
       | None => (maxm', m)
       end.

Definition load_lock_records (records : list LockRecord) (m : LockManager) : LockManager :=
  let '(maxm, m1) := foldl load_lock (0, m) records in
  if 0 <? maxm then set_counter (Z.max (entry_key_counter m1) (wrap_u64 (maxm + 1))) m1 else m1.

Definition mark_restore_failed (m : LockManager) : LockManager := set_clean false m.

(** [rows = None]: the backend could not list its locks. *)
Definition bring_up (db : gmap Z LockRecord) (rows : option (list LockRecord)) (state_lost : bool) : LockManager :=
  let m := LockManager_new db in
  let m1 := if state_lost then mark_restore_failed m else m in
  match rows with
  | Some records => load_lock_records records m1
  | None => mark_restore_failed m1
  end.

(** ** The handlers *)
Record LockOp := MkLockOp {
  lo_type : LockType; lo_reclaim : bool; lo_offset : Z; lo_length : Z; lo_stateid : StateId;
  lo_owner : bytes; lo_new_owner : bool }.
Record LockDenied := Denied { ld_offset : Z; ld_length : Z; ld_type : LockType; ld_client : Z; ld_owner : bytes }.
Record LockRes := MkLockRes { res_status : Nfs4Status; res_stateid : option StateId; res_denied : option LockDenied }.

Definition denied_by (l : Lock) : LockDenied :=
  Denied (lr_offset (lk_range l)) (lr_length (lk_range l)) (lk_type l) (lk_client l) (lk_owner l).
Definition refuse (s : Nfs4Status) : LockRes := MkLockRes s None None.

(** The reply's sequence id comes from the stateid table; a stateid it does
    not know keeps its [other] and the fallback sequence id. *)
Definition bump_stateid (s : StateId) (fallback : Z) (sm : StateIdManager) : StateId * StateIdManager :=
  match update_seqid s sm with
  | Ok (s', sm') => (s', sm')
  | Err _ => (Sid fallback (sid_other s), sm)
  end.

(** Allocate a lock stateid and register it for the owner. *)
Definition establish (client : Z) (owner fh : bytes) (lm : LockManager) (sm : StateIdManager) :
    StateId * LockManager * StateIdManager :=
  let '(s, sm') := allocate TyLock client (Some fh) sm in
  (s, register_owner_stateid (sid_other s) client owner fh lm, sm').

(** The reclaim of a lock the restart restored. *)
Definition reclaim_reply (existing : Lock) (client : Z) (owner fh : bytes) (lm : LockManager)
    (sm : StateIdManager) : StateId * LockManager * StateIdManager :=
  if bool_decide (minted_entry_counter (sid_other (lk_stateid existing)) = None)
  then (lk_stateid existing, lm, sm)
  else match canonical_for_owner lm client owner fh with
       | Some other => let '(s, sm') := bump_stateid (Sid 0 other) 1 sm in (s, lm, sm')
       | None => establish client owner fh lm sm
       end.

(** The grant itself, once the owner is known. *)
Definition grant_lock (op : LockOp) (client : Z) (owner fh : bytes) (lm : LockManager) (sm : StateIdManager) :
    LockRes * LockManager * StateIdManager :=
  let range := Range (lo_offset op) (lo_length op) in
  match check_conflicts lm fh range (lo_type op) (Some (client, owner)) with
  | Some l => (MkLockRes NFS_Denied None (Some (denied_by l)), lm, sm)
  | None =>
      let '(reply, lm1, sm1) :=
        if lo_new_owner op then establish client owner fh lm sm
        else let lm1 := trim_owner_range client owner fh range lm in
             let '(s, sm1) := bump_stateid (lo_stateid op) (wrap_u32 (sid_seqid (lo_stateid op) + 1)) sm in
             (s, lm1, sm1) in
      (MkLockRes NFS_Ok (Some reply) None, add_range client owner fh (lo_type op) range lm1, sm1)
  end.

(** Owner resolution, then the grant. *)
Definition lock_for_owner (op : LockOp) (client : Z) (fh : bytes) (lm : LockManager) (sm : StateIdManager) :
    LockRes * LockManager * StateIdManager :=
  if lo_new_owner op then grant_lock op client (lo_owner op) fh lm sm
  else match resolve_owner lm (lo_stateid op) with
       | Some (c, owner) => if c =? client then grant_lock op client owner fh lm sm
                            else (refuse NFS_BadStateId, lm, sm)
       | None => (refuse NFS_BadStateId, lm, sm)
       end.

(** [fh]: the current filehandle; [session_client]: the client of the
    compound's session; [fence_delay]: the delegation fence asked to wait;
    [in_grace], [max_locks]: the lease manager's grace and the quota. *)
Definition handle_lock (op : LockOp) (fh : option bytes) (session_client : option Z)
    (fence_delay in_grace : bool) (max_locks : Z) (lm : LockManager) (sm : StateIdManager) :
    LockRes * LockManager * StateIdManager :=
  match fh with
  | None => (refuse NFS_NoFileHandle, lm, sm)
  | Some fh =>
    match validate sm (lo_stateid op) with
    | Err _ => (refuse NFS_BadStateId, lm, sm)
    | Ok _ =>
      match validate_lock_range (lo_offset op) (lo_length op) with
      | Err e => (refuse e, lm, sm)
      | Ok _ =>
        match session_client with
        | None => (refuse NFS_BadSession, lm, sm)
        | Some client =>
          if (bool_decide (lo_type op = LkWrite) || bool_decide (lo_type op = LkWriteRead)) && fence_delay
          then (refuse NFS_Delay, lm, sm)
          else if lo_reclaim op then
            if negb in_grace then (refuse NFS_NoGrace, lm, sm)
            else match find_matching lm client (lo_owner op) fh (lo_type op) (Range (lo_offset op) (lo_length op)) with
                 | Some existing =>
                     let '(reply, lm', sm') := reclaim_reply existing client (lo_owner op) fh lm sm in
                     (MkLockRes NFS_Ok (Some reply) None, lm', sm')
                 | None => lock_for_owner op client fh lm sm
                 end
          else if max_locks <=? lock_count_for_client lm client then (refuse NFS_Delay, lm, sm)
          else if negb (restored_clean lm) && in_grace then (refuse NFS_Grace, lm, sm)
          else lock_for_owner op client fh lm sm
        end
      end
    end
  end.

Definition handle_lockt (t : LockType) (offset length : Z) (fh : option bytes) (lm : LockManager) :
    Nfs4Status * option LockDenied :=
  match fh with
  | None => (NFS_NoFileHandle, None)
  | Some fh =>
      match validate_lock_range offset length with
      | Err e => (e, None)
      | Ok _ => match check_conflicts lm fh (Range offset length) t None with
                | Some l => (NFS_Denied, Some (denied_by l))
                | None => (NFS_Ok, None)
                end
      end
  end.

Record LockUOp := MkLockUOp { lu_stateid : StateId; lu_offset : Z; lu_length : Z }.

Definition handle_locku (op : LockUOp) (fh : option bytes) (session_client : option Z)
    (lm : LockManager) (sm : StateIdManager) : Nfs4Status * option StateId * LockManager * StateIdManager :=
  match fh with
  | None => (NFS_NoFileHandle, None, lm, sm)
  | Some fh =>
    match validate sm (lu_stateid op) with
    | Err _ => (NFS_BadStateId, None, lm, sm)
    | Ok _ =>
      match session_client with
      | None => (NFS_BadSession, None, lm, sm)
      | Some sc =>
        match resolve_owner lm (lu_stateid op) with
        | None => (NFS_BadStateId, None, lm, sm)
        | Some (client, owner) =>
            if negb (client =? sc) then (NFS_BadStateId, None, lm, sm)
            else match validate_lock_range (lu_offset op) (lu_length op) with
                 | Err e => (e, None, lm, sm)
                 | Ok _ =>
                     let lm1 := trim_owner_range client owner fh (Range (lu_offset op) (lu_length op)) lm in
                     let '(s, sm1) := bump_stateid (lu_stateid op) (wrap_u32 (sid_seqid (lu_stateid op) + 1)) sm in
                     (NFS_Ok, Some s, lm1, sm1)
                 end
        end
      end
    end
  end.

(** The dispatcher's decoding of the wire lock type, for LOCK and for
    LOCKT. *)
Definition lock_wire_type (t : Z) : LockType := if (t =? 1) || (t =? 3) then LkRead else LkWrite.
Definition lockt_wire_type (t : Z) : LockType := if t =? 1 then LkRead else LkWrite.
