(* ===== verification/LocksInv.v ===== *)
(** The lock table: its index, counters, owner map and persisted rows agree;
    [trim_owner_range] removes exactly the bytes of the cut; no two owners
    hold conflicting ranges. *)

From S2P Require Import Prelude Xdr Stateid Locks.

Definition index (m : LockManager) (fh : bytes) : list Z := default [] (locks_by_fh m !! fh).
Definition internal (k : Z) : Prop := is_Some (minted_entry_counter k).
Definition owner_key (l : Lock) : LockOwnerKey := OwnerKey (lk_client l) (lk_owner l) (lk_fh l).
Definition client_locks (m : LockManager) (c : Z) : gmap Z Lock :=
  filter (fun kv => lk_client kv.2 = c) (lm_locks m).

Record lock_inv (m : LockManager) : Prop := {
  li_counter : 0 < entry_key_counter m < 2 ^ 64;
  li_id : forall k l, lm_locks m !! k = Some l -> sid_other (lk_stateid l) = k;
  li_minted : forall k l, lm_locks m !! k = Some l ->
    exists n, minted_entry_counter k = Some n /\ 0 <= n < entry_key_counter m;
  li_index : forall fh k, k ∈ index m fh <-> exists l, lm_locks m !! k = Some l /\ lk_fh l = fh;
  li_nodup : forall fh, NoDup (index m fh);
  li_owner : forall k l, lm_locks m !! k = Some l -> stateid_owners m !! k = Some (owner_key l);
  li_counts : forall c, lock_count_for_client m c = Z.of_nat (size (client_locks m c));
  li_db : forall k r, lm_db m !! k = Some r <->
    (exists l, lm_locks m !! k = Some l /\ r = lock_to_record l) \/
    (~ internal k /\ exists o, stateid_owners m !! k = Some o /\
      r = registration k (ok_client o) (ok_owner o) (ok_fh o)) }.

(** [n] more keys can be minted. *)
Definition key_room (n : Z) (m : LockManager) : Prop := entry_key_counter m + n < 2 ^ 64.

Lemma entry_key_minted n : 0 <= n < 2 ^ 64 -> minted_entry_counter (ENTRY_PREFIX * 2 ^ 64 + n) = Some n.
Proof.
  intros Hn. unfold minted_entry_counter. rewrite Z.div_add_l, (Z.div_small n), Z.add_0_r, Z.eqb_refl by lia.
  rewrite Z.add_comm, Z.mod_add, Z.mod_small by lia. done.
Qed.

Lemma internal_lock m k l : lock_inv m -> lm_locks m !! k = Some l -> internal k.
Proof. intros Hi (n & Hn & _)%(li_minted _ Hi). unfold internal. rewrite Hn. eauto. Qed.

(** ** Adding a range *)
Lemma set_counter_inv n m : lock_inv m -> entry_key_counter m <= n < 2 ^ 64 -> lock_inv (set_counter n m).
Proof.
  intros [] Hn. split; try done; simpl; [lia|].
  intros k l (n' & ? & ?)%li_minted0. exists n'. split; [done|lia].
Qed.

Lemma add_lock_inv l n m : let k := sid_other (lk_stateid l) in
  lock_inv m -> lm_locks m !! k = None -> minted_entry_counter k = Some n -> 0 <= n < entry_key_counter m ->
  lock_inv (add_lock l m).
Proof.
  intros k Hi Hnew Hk Hn. set (m' := add_lock l m).
  assert (Hl : lm_locks m' = <[k := l]> (lm_locks m)) by done.
  assert (Hlk : forall p f, lm_locks m' !! p = Some f <-> (p = k /\ f = l) \/ (p <> k /\ lm_locks m !! p = Some f)).
  { intros p f. rewrite Hl, lookup_insert_Some. naive_solver. }
  split.
  - apply Hi.
  - intros p f [[-> ->]|[_ Hf]]%Hlk; [done|]. by apply (li_id _ Hi).
  - intros p f [[-> ->]|[_ Hf]]%Hlk; [by exists n|by eapply (li_minted _ Hi)].
  - intros f p. setoid_rewrite Hlk. unfold index. simpl. rewrite lookup_insert.
    destruct (decide (lk_fh l = f)) as [<-|Hne]; simpl.
    + fold (index m (lk_fh l)). rewrite elem_of_app, list_elem_of_singleton, (li_index _ Hi). split.
      * intros [(g & Hg & ?)| ->]; [|by eauto 10]. exists g. split; [right|done]. split; [congruence|done].
      * intros (g & [[-> ->]|[_ Hg]] & ?); eauto.
    + fold (index m f). rewrite (li_index _ Hi). split.
      * intros (g & Hg & ?). exists g. split; [right|done]. split; [congruence|done].
      * intros (g & [[-> ->]|[_ Hg]] & Hf); [by destruct Hne|eauto].
  - intros f. unfold index. simpl. rewrite lookup_insert. case_decide; simpl; [|apply (li_nodup _ Hi)].
    apply NoDup_app. split_and!; [apply (li_nodup _ Hi)| |apply NoDup_singleton].
    intros p Hp Hpk%list_elem_of_singleton. apply (li_index _ Hi) in Hp as (g & Hg & _).
    assert (p = k) as -> by exact Hpk. congruence.
  - intros p f. change (stateid_owners m') with (<[k := owner_key l]> (stateid_owners m)).
    intros [[-> ->]|[Hne Hf]]%Hlk; [by rewrite lookup_insert_eq|].
    rewrite lookup_insert_ne by congruence. by apply (li_owner _ Hi).
  - intros d. unfold lock_count_for_client, client_locks. rewrite Hl.
    change (lock_counts m') with (match lm_locks m !! k with
      | Some prev => count_down (lk_client prev)
          (<[lk_client l := default 0 (lock_counts m !! lk_client l) + 1]> (lock_counts m))
      | None => <[lk_client l := default 0 (lock_counts m !! lk_client l) + 1]> (lock_counts m) end).
    rewrite Hnew, lookup_insert. pose proof (li_counts _ Hi d) as Hd. unfold lock_count_for_client in Hd.
    destruct (decide (lk_client l = d)) as [<-|Hne]; simpl.
    + rewrite map_filter_insert_True by done. rewrite map_size_insert_None.
      * fold (client_locks m (lk_client l)). lia.
      * apply map_lookup_filter_None. by left.
    + rewrite map_filter_insert_not'; [exact Hd|by intros ?|]. intros f. by rewrite Hnew.
  - intros p q. change (lm_db m') with (<[k := lock_to_record l]> (lm_db m)). setoid_rewrite Hlk.
    change (stateid_owners m') with (<[k := owner_key l]> (stateid_owners m)).
    destruct (decide (p = k)) as [->|Hne].
    + rewrite lookup_insert_eq. split.
      * intros [= <-]. left. exists l. auto.
      * intros [(g & [[_ ->]|[? _]] & ->)|[Hni _]]; [done|done|]. destruct Hni. unfold internal. rewrite Hk. eauto.
    + rewrite !lookup_insert_ne by congruence. rewrite (li_db _ Hi). naive_solver.
Qed.

Lemma add_range_spec c ow fh t r m : lock_inv m -> key_room 1 m ->
  let m' := add_range c ow fh t r m in
  let k := ENTRY_PREFIX * 2 ^ 64 + entry_key_counter m in
  let l := MkLock (Sid 1 k) c ow fh t r in
  lock_inv m' /\ lm_locks m !! k = None /\ internal k /\ lm_locks m' = <[k := l]> (lm_locks m) /\
  entry_key_counter m' = entry_key_counter m + 1 /\
  stateid_owners m' = <[k := owner_key l]> (stateid_owners m) /\ restored_clean m' = restored_clean m.
Proof.
  intros Hi Hroom m' k l. unfold key_room in Hroom. pose proof (li_counter _ Hi) as Hctr.
  assert (Hk : minted_entry_counter k = Some (entry_key_counter m)) by (apply entry_key_minted; lia).
  assert (Hnew : lm_locks m !! k = None).
  { destruct (lm_locks m !! k) eqn:E; [|done]. destruct (li_minted _ Hi _ _ E) as (n & Hn & ?).
    rewrite Hk in Hn. simplify_eq. lia. }
  assert (Hm' : m' = add_lock l (set_counter (entry_key_counter m + 1) m)).
  { unfold m', add_range, mint_entry_stateid, wrap_u64. rewrite Z.mod_small by lia. done. }
  assert (Hint : internal k) by (unfold internal; rewrite Hk; eauto).
  split_and!; try done; [|by rewrite Hm'].
  rewrite Hm'. apply (add_lock_inv l (entry_key_counter m)); [|done|done|simpl; lia].
  apply set_counter_inv; [done|lia].
Qed.

(** ** Removing a range *)
Lemma remove_lock_spec k l m : lock_inv m -> lm_locks m !! k = Some l ->
  let m' := (remove_lock k m).2 in
  lock_inv m' /\ lm_locks m' = delete k (lm_locks m) /\ entry_key_counter m' = entry_key_counter m /\
  stateid_owners m' = stateid_owners m /\ restored_clean m' = restored_clean m.
Proof.
  intros Hi Hk m'. unfold m', remove_lock. rewrite Hk. simpl. split; [|done].
  assert (Hlk : forall p f, delete k (lm_locks m) !! p = Some f <-> p <> k /\ lm_locks m !! p = Some f).
  { intros p f. rewrite lookup_delete_Some. naive_solver. }
  assert (Hix : forall f, default [] (drop_index k (lk_fh l) (locks_by_fh m) !! f) =
    if decide (f = lk_fh l) then filter (fun p => p <> k) (index m f) else index m f).
  { intros f. unfold drop_index, index. destruct (locks_by_fh m !! lk_fh l) as [v|] eqn:Hv.
    - case_bool_decide as Hn; rewrite ?lookup_delete, ?lookup_insert;
        repeat case_decide; subst; rewrite ?Hv; simpl; congruence.
    - case_decide; subst; [|done]. rewrite Hv. done. }
  split; simpl.
  - apply Hi.
  - intros p f [_ Hf]%Hlk. by apply (li_id _ Hi).
  - intros p f [_ Hf]%Hlk. by apply (li_minted _ Hi _ f).
  - intros f p. setoid_rewrite Hlk. unfold index. simpl. rewrite Hix. case_decide as Hf.
    + rewrite list_elem_of_filter, (li_index _ Hi). naive_solver.
    + rewrite (li_index _ Hi). split; [|naive_solver]. intros (g & ? & ?). exists g. naive_solver.
  - intros f. unfold index. simpl. rewrite Hix. case_decide; [apply NoDup_filter|]; apply (li_nodup _ Hi).
  - intros p f [_ Hf]%Hlk. by apply (li_owner _ Hi).
  - intros d. pose proof (li_counts _ Hi d) as Hd. unfold lock_count_for_client, client_locks in *. simpl.
    rewrite map_filter_delete. unfold count_down.
    destruct (decide (lk_client l = d)) as [<-|Hne].
    + assert (Hin : filter (fun kv : Z * Lock => lk_client kv.2 = lk_client l) (lm_locks m) !! k = Some l)
        by (by apply map_lookup_filter_Some).
      rewrite map_size_delete_Some by (by rewrite Hin).
      assert (size (filter (fun kv : Z * Lock => lk_client kv.2 = lk_client l) (lm_locks m)) <> 0%nat)
        by (intros H0%map_size_empty_inv; rewrite H0 in Hin; done).
      destruct (lock_counts m !! lk_client l) as [n|] eqn:Hn; simpl in *; [|lia].
      rewrite lookup_insert_eq. simpl. lia.
    + rewrite delete_id by (apply map_lookup_filter_None; right; intros f; rewrite Hk; intros [= <-]; done).
      destruct (lock_counts m !! lk_client l); [|done]. by rewrite lookup_insert_ne.
  - intros p q. setoid_rewrite Hlk. rewrite lookup_delete_Some, (li_db _ Hi).
    pose proof (internal_lock _ _ _ Hi Hk). naive_solver.
Qed.

(** ** Bytes of a range *)
Definition covers (r : LockRange) (b : Z) : Prop := lr_offset r <= b < range_end r.

(** What [validate_lock_range] lets through. *)
Definition valid_range (r : LockRange) : Prop :=
  is_u64 (lr_offset r) /\ 0 < lr_length r <= u64_max /\
  (lr_length r = TO_EOF \/ lr_offset r + lr_length r <= u64_max).
(** Offset plus length does not overflow: every valid range but "from a
    positive offset to end of file". *)
Definition bounded (r : LockRange) : Prop :=
  0 <= lr_offset r /\ 0 < lr_length r /\ lr_offset r + lr_length r <= u64_max.

Lemma validate_range_ok o n u : is_u64 o -> is_u64 n ->
  validate_lock_range o n = Ok u -> valid_range (Range o n).
Proof.
  unfold validate_lock_range, valid_range, is_u64. intros Ho Hn. destruct (n =? 0) eqn:H0; [done|].
  destruct (n =? TO_EOF) eqn:He; simpl.
  - intros _. bool_Z. split_and!; try lia.
  - destruct (u64_max <? o + n) eqn:Hlt; [done|]. intros _. bool_Z. split_and!; lia.
Qed.

Lemma bounded_end r : bounded r -> range_end r = lr_offset r + lr_length r.
Proof.
  unfold bounded, range_end, TO_EOF. intros (H1 & H2 & H3). destruct (lr_length r =? u64_max) eqn:E; simpl; bool_Z.
  - lia.
  - destruct (lr_length r =? 0) eqn:E0; bool_Z; lia.
Qed.

Lemma bounded_valid r : bounded r -> valid_range r.
Proof. unfold bounded, valid_range, is_u64. lia. Qed.

Lemma valid_unbounded r : valid_range r -> ~ bounded r ->
  0 < lr_offset r /\ lr_length r = u64_max /\ range_end r = u64_max.
Proof.
  unfold valid_range, bounded, is_u64, TO_EOF, range_end. intros (H1 & H2 & H3) Hn.
  assert (lr_length r = u64_max) as -> by lia. simpl. split_and!; lia.
Qed.

Lemma overlaps_spec a b : overlaps a b = true <-> lr_offset a < range_end b /\ lr_offset b < range_end a.
Proof. unfold overlaps. rewrite andb_true_iff, !Z.ltb_lt. done. Qed.

(** Two overlapping non-empty ranges share a byte. *)
Lemma overlaps_byte a b : lr_offset a < range_end a -> lr_offset b < range_end b ->
  overlaps a b = true <-> exists x, covers a x /\ covers b x.
Proof.
  intros Ha Hb. rewrite overlaps_spec. unfold covers. split.
  - intros [? ?]. exists (Z.max (lr_offset a) (lr_offset b)). lia.
  - intros (x & ? & ?). lia.
Qed.

(** What [trim_owner_range] leaves of [held]. *)
Definition survivors (held cut : LockRange) : list LockRange :=
  (if lr_offset held <? lr_offset cut then [Range (lr_offset held) (lr_offset cut - lr_offset held)] else []) ++
  (if lr_length cut =? 0 then []
   else let cut_end := wrap_u64 (lr_offset cut + lr_length cut) in
        let held_end := wrap_u64 (lr_offset held + lr_length held) in
        if (lr_length held =? 0) || (cut_end <? held_end)
        then [Range cut_end (if lr_length held =? 0 then 0 else held_end - cut_end)] else []).

Definition add_ranges (c : Z) (ow fh : bytes) (t : LockType) (m : LockManager) (rs : list LockRange) : LockManager :=
  foldl (fun m r => add_range c ow fh t r m) m rs.

Definition mine (c : Z) (ow : bytes) (l : Lock) : bool := (lk_client l =? c) && bool_decide (lk_owner l = ow).

Lemma trim_key_eq c ow fh cut m key :
  trim_key c ow fh cut m key =
  match lm_locks m !! key with
  | Some e => if mine c ow e && overlaps (lk_range e) cut
              then add_ranges c ow fh (lk_type e) (remove_lock key m).2 (survivors (lk_range e) cut)
              else m
  | None => m
  end.
Proof.
  unfold trim_key, survivors, add_ranges, mine. destruct (lm_locks m !! key) as [e|]; [|done].
  destruct (_ && overlaps _ _); [|done].
  destruct (lr_offset (lk_range e) <? lr_offset cut), (lr_length cut =? 0); cbn [app foldl]; try done;
    by destruct (_ || _).
Qed.

Lemma survivors_sub held cut r : bounded cut -> valid_range held -> overlaps held cut = true ->
  r ∈ survivors held cut ->
  bounded r /\ forall b, covers r b -> covers held b /\ ~ covers cut b.
Proof.
  intros Hc Hv [Ho1 Ho2]%overlaps_spec. pose proof (bounded_end _ Hc) as Hce. destruct Hc as (C1 & C2 & C3).
  unfold survivors. replace (lr_length cut =? 0) with false by (symmetry; apply Z.eqb_neq; lia).
  replace (lr_length held =? 0) with false by (symmetry; apply Z.eqb_neq; destruct Hv; lia). simpl.
  unfold u64_max in *. unfold wrap_u64. rewrite (Z.mod_small (lr_offset cut + _)) by lia.
  assert (Hcov : forall r', bounded r' -> forall b, covers r' b <-> lr_offset r' <= b < lr_offset r' + lr_length r').
  { intros r' Hb b. unfold covers. by rewrite bounded_end. }
  rewrite elem_of_app. intros [Hin|Hin].
  - destruct (lr_offset held <? lr_offset cut) eqn:Hlt; [|by apply elem_of_nil in Hin]. bool_Z.
    apply list_elem_of_singleton in Hin as ->.
    assert (Hb : bounded (Range (lr_offset held) (lr_offset cut - lr_offset held)))
      by (unfold bounded, u64_max, valid_range, is_u64 in *; simpl; lia).
    split; [done|]. intros b. rewrite Hcov by done. unfold covers. rewrite Hce. simpl. lia.
  - destruct (_ <? _) eqn:Hlt in Hin; [|by apply elem_of_nil in Hin]. bool_Z.
    apply list_elem_of_singleton in Hin as ->.
    destruct (decide (lr_offset held + lr_length held <= u64_max)) as [Hle|Hgt]; unfold u64_max in *.
    + assert (Hhb : bounded held) by (unfold bounded, valid_range, is_u64, u64_max in *; lia).
      pose proof (bounded_end _ Hhb) as Hhe. destruct Hhb as (B1 & B2 & B3).
      rewrite Z.mod_small in Hlt |- * by lia.
      match goal with |- bounded ?r' /\ _ => assert (Hb : bounded r') by (unfold bounded, u64_max; simpl; lia) end.
      split; [done|]. intros b. rewrite Hcov by done. unfold covers. rewrite Hce, Hhe. simpl. lia.
    + destruct (valid_unbounded held Hv) as (P1 & P2 & P3); [unfold bounded, u64_max; lia|].
      unfold u64_max in *. exfalso. rewrite P2 in Hlt. destruct Hv as ((_ & V) & _). unfold u64_max in V.
      replace (lr_offset held + (2 ^ 64 - 1)) with (lr_offset held - 1 + 1 * 2 ^ 64) in Hlt by lia.
      rewrite Z.mod_add, Z.mod_small in Hlt by lia. lia.
Qed.

Lemma survivors_cover held cut b : bounded cut -> bounded held -> covers held b -> ~ covers cut b ->
  exists r, r ∈ survivors held cut /\ covers r b.
Proof.
  intros Hc Hh Hb Hn. pose proof (bounded_end _ Hc) as Hce. pose proof (bounded_end _ Hh) as Hhe.
  unfold covers in Hb, Hn. rewrite Hce in Hn. rewrite Hhe in Hb.
  destruct Hc as (C1 & C2 & C3), Hh as (H1 & H2 & H3). unfold u64_max in *. unfold survivors.
  replace (lr_length cut =? 0) with false by (symmetry; apply Z.eqb_neq; lia).
  replace (lr_length held =? 0) with false by (symmetry; apply Z.eqb_neq; lia). simpl.
  unfold wrap_u64. rewrite !Z.mod_small by lia. setoid_rewrite elem_of_app.
  destruct (decide (b < lr_offset cut)) as [Hlt|Hge].
  - exists (Range (lr_offset held) (lr_offset cut - lr_offset held)). split.
    + left. replace (lr_offset held <? lr_offset cut) with true by (symmetry; apply Z.ltb_lt; lia). by left.
    + unfold covers. rewrite bounded_end by (unfold bounded, u64_max; simpl; lia). simpl. lia.
  - exists (Range (lr_offset cut + lr_length cut) (lr_offset held + lr_length held - (lr_offset cut + lr_length cut))).
    split.
    + right. replace (_ <? _) with true by (symmetry; apply Z.ltb_lt; lia). by left.
    + unfold covers. rewrite bounded_end by (unfold bounded, u64_max; simpl; lia). simpl. lia.
Qed.

(** ** Carving *)
(** A key minted after [m]. *)
Definition newer (m : LockManager) (k : Z) : Prop :=
  exists n, minted_entry_counter k = Some n /\ entry_key_counter m <= n.

Lemma newer_absent m k : lock_inv m -> newer m k -> lm_locks m !! k = None.
Proof.
  intros Hi (n & Hn & Hle). destruct (lm_locks m !! k) eqn:E; [|done].
  destruct (li_minted _ Hi _ _ E) as (n' & Hn' & ?). rewrite Hn in Hn'. simplify_eq. lia.
Qed.

(** Owner registrations, the clean flag and how far the counter moved. *)
Definition lock_frame (n : Z) (m m' : LockManager) : Prop :=
  entry_key_counter m <= entry_key_counter m' <= entry_key_counter m + n /\
  restored_clean m' = restored_clean m /\
  forall k, ~ internal k -> stateid_owners m' !! k = stateid_owners m !! k.

Lemma lock_frame_trans n1 n2 m1 m2 m3 :
  lock_frame n1 m1 m2 -> lock_frame n2 m2 m3 -> lock_frame (n1 + n2) m1 m3.
Proof.
  intros (H1 & H2 & H3) (G1 & G2 & G3). unfold lock_frame. split_and!; [lia|lia|congruence|].
  intros k Hk. rewrite G3, H3 by done. done.
Qed.

Lemma add_ranges_spec c ow fh t rs : forall m, lock_inv m -> key_room (Z.of_nat (length rs)) m ->
  let m' := add_ranges c ow fh t m rs in
  lock_inv m' /\ lock_frame (Z.of_nat (length rs)) m m' /\
  (forall k l, lm_locks m !! k = Some l -> lm_locks m' !! k = Some l) /\
  (forall k l, lm_locks m' !! k = Some l ->
    lm_locks m !! k = Some l \/ (newer m k /\ exists s r, r ∈ rs /\ l = MkLock s c ow fh t r)) /\
  (forall r, r ∈ rs -> exists k s, newer m k /\ lm_locks m' !! k = Some (MkLock s c ow fh t r)).
Proof.
  induction rs as [|r rs IH]; intros m Hi Hr; unfold add_ranges; cbn [foldl]; simpl in Hr.
  { split; [done|]. split; [unfold lock_frame; split_and!; [lia|simpl; lia|done|done]|].
    split_and!; [done|by intros; left|by intros r ?%elem_of_nil]. }
  unfold key_room in Hr.
  destruct (add_range_spec c ow fh t r m Hi) as (H1 & H2 & H3 & H4 & H5 & H6 & H7); [unfold key_room; lia|].
  pose proof (li_counter _ Hi) as Hctr.
  assert (Hk : newer m (ENTRY_PREFIX * 2 ^ 64 + entry_key_counter m)).
  { exists (entry_key_counter m). split; [apply entry_key_minted; lia|lia]. }
  destruct (IH (add_range c ow fh t r m) H1) as (I1 & I2 & I3 & I4 & I5); [unfold key_room; lia|].
  unfold add_ranges in *. split_and!.
  - done.
  - replace (Z.of_nat (length (r :: rs))) with (1 + Z.of_nat (length rs)) by (simpl; lia).
    eapply lock_frame_trans; [|exact I2]. split_and!; [lia|lia|done|]. intros k Hni.
    rewrite H6, lookup_insert_ne; [done|]. intros <-. by apply Hni.
  - intros k l Hl. apply I3. rewrite H4, lookup_insert_ne; [done|]. intros <-. by rewrite H2 in Hl.
  - intros k l [Hl|((n & Hn & ?) & s & r' & ? & ->)]%I4.
    + rewrite H4, lookup_insert_Some in Hl. destruct Hl as [[<- <-]|[_ ?]]; [right|by left].
      split; [done|]. eexists _, r. split; [by left|done].
    + right. split; [exists n; split; [done|lia]|]. exists s, r'. split; [by right|done].
  - intros r' [->|Hin]%elem_of_cons.
    + eexists _, _. split; [exact Hk|]. apply I3. rewrite H4. apply lookup_insert_eq.
    + destruct (I5 r' Hin) as (k & s & (n & ? & ?) & ?). exists k, s. split; [exists n; split; [done|lia]|done].
Qed.

(** [l] keeps the identity of [l0] and covers no other byte. *)
Definition part_of (l l0 : Lock) : Prop :=
  lk_fh l = lk_fh l0 /\ lk_client l = lk_client l0 /\ lk_owner l = lk_owner l0 /\ lk_type l = lk_type l0 /\
  forall b, covers (lk_range l) b -> covers (lk_range l0) b.

Lemma part_of_refl l : part_of l l.
Proof. by split_and!. Qed.
Lemma part_of_trans l1 l2 l3 : part_of l1 l2 -> part_of l2 l3 -> part_of l1 l3.
Proof. unfold part_of. intuition (try congruence; auto). Qed.

Definition all_valid (m : LockManager) : Prop := forall k l, lm_locks m !! k = Some l -> valid_range (lk_range l).

Section trim.
Context (c : Z) (ow fh : bytes) (cut : LockRange) (Hcut : bounded cut).

Lemma mine_spec l : mine c ow l = true <-> lk_client l = c /\ lk_owner l = ow.
Proof. unfold mine. by rewrite andb_true_iff, Z.eqb_eq, bool_decide_eq_true. Qed.

Lemma covers_overlap l b : covers (lk_range l) b -> covers cut b -> overlaps (lk_range l) cut = true.
Proof. unfold covers. rewrite overlaps_spec. lia. Qed.

Lemma survivors_length held : (length (survivors held cut) <= 2)%nat.
Proof.
  unfold survivors. rewrite length_app. destruct (lr_offset held <? _), (lr_length cut =? 0); simpl; try lia;
    destruct (_ || _); simpl; lia.
Qed.

Lemma trim_key_spec m key e : lock_inv m -> all_valid m -> key_room 2 m ->
  lm_locks m !! key = Some e -> lk_fh e = fh ->
  let m' := trim_key c ow fh cut m key in
  lock_inv m' /\ all_valid m' /\ lock_frame 2 m m' /\
  (forall k l, k <> key -> lm_locks m !! k = Some l -> lm_locks m' !! k = Some l) /\
  (forall k l, lm_locks m' !! k = Some l -> exists k0 l0, lm_locks m !! k0 = Some l0 /\ part_of l l0 /\
    (k = k0 /\ l = l0 \/ newer m k /\ k0 = key /\ bounded (lk_range l)) /\
    (k0 = key -> mine c ow l0 = true -> forall b, covers (lk_range l) b -> ~ covers cut b)) /\
  (forall b, covers (lk_range e) b -> (mine c ow e = true -> bounded (lk_range e) /\ ~ covers cut b) ->
    exists k l, lm_locks m' !! k = Some l /\ part_of l e /\ covers (lk_range l) b /\ (k = key \/ newer m k)).
Proof.
  intros Hi Hv Hroom He Hfh m'. unfold m'. rewrite trim_key_eq, He.
  destruct (mine c ow e && overlaps (lk_range e) cut) eqn:Hcond.
  2: { assert (Hno : mine c ow e = true -> forall b, covers (lk_range e) b -> ~ covers cut b).
       { intros Hm b H1 H2. rewrite Hm, (covers_overlap e b) in Hcond by done. done. }
       assert (Hf : lock_frame 2 m m) by (unfold lock_frame; split_and!; [lia|lia|done|done]).
       split_and!; try done.
       - intros k l Hl. exists k, l. split_and!; [done|apply part_of_refl|by left|]. intros ->.
         assert (l = e) as -> by congruence. done.
       - intros b Hb _. exists key, e. split_and!; [done|apply part_of_refl|done|by left]. }
  apply andb_prop in Hcond as [Hm Hov].
  destruct (remove_lock_spec key e m Hi He) as (R1 & R2 & R3 & R4 & R5).
  set (m1 := (remove_lock key m).2) in *. pose proof (survivors_length (lk_range e)) as Hlen. unfold key_room in Hroom.
  destruct (add_ranges_spec c ow fh (lk_type e) (survivors (lk_range e) cut) m1 R1) as (A1 & A2 & A3 & A4 & A5);
    [unfold key_room; lia|].
  set (m2 := add_ranges _ _ _ _ m1 _) in *.
  assert (Hnew : forall k, newer m1 k -> newer m k) by (intros k (n & ? & ?); exists n; split; [done|lia]).
  apply mine_spec in Hm as [Hmc Hmo].
  assert (Hsub : forall k l, lm_locks m2 !! k = Some l -> exists k0 l0, lm_locks m !! k0 = Some l0 /\ part_of l l0 /\
    (k = k0 /\ l = l0 \/ newer m k /\ k0 = key /\ bounded (lk_range l)) /\
    (k0 = key -> forall b, covers (lk_range l) b -> ~ covers cut b)).
  { intros k l [Hl|(Hn & s & r & Hr & ->)]%A4.
    - rewrite R2, lookup_delete_Some in Hl. destruct Hl as [Hne Hl]. exists k, l.
      split_and!; [done|apply part_of_refl|by left|]. intros ->. done.
    - destruct (survivors_sub (lk_range e) cut r Hcut (Hv _ _ He) Hov Hr) as [Hb Hc]. exists key, e.
      split_and!; [done| | |].
      + split_and!; simpl; try congruence. intros b Hbc. by apply Hc.
      + right. split_and!; [by apply Hnew|done|done].
      + intros _ b Hbc. by apply Hc. }
  split_and!.
  - done.
  - intros k l Hl. destruct (Hsub k l Hl) as (k0 & l0 & Hl0 & _ & [[-> ->]|(_ & _ & Hb)] & _).
    + by eapply Hv.
    + by apply bounded_valid.
  - destruct A2 as (F1 & F2 & F3). unfold lock_frame. split_and!; [lia|lia|congruence|]. intros k Hk. rewrite F3, R4 by done. done.
  - intros k l Hne Hl. apply A3. rewrite R2. by apply lookup_delete_Some.
  - intros k l Hl. destruct (Hsub k l Hl) as (k0 & l0 & ? & ? & ? & Hc). exists k0, l0. split_and!; auto.
  - intros b Hb Hmb. destruct Hmb as [Hbd Hnc]; [by apply mine_spec|].
    destruct (survivors_cover (lk_range e) cut b Hcut Hbd Hb Hnc) as (r & Hr & Hrb).
    destruct (A5 r Hr) as (k & s & Hn & Hk). exists k, (MkLock s c ow fh (lk_type e) r).
    split_and!; [done| |done|right; by apply Hnew].
    destruct (survivors_sub (lk_range e) cut r Hcut (Hv _ _ He) Hov Hr) as [_ Hc].
    split_and!; simpl; try congruence. intros x Hx. by apply Hc.
Qed.

(** The loop over the file's keys. *)
Lemma trim_fold_spec keys : forall m, lock_inv m -> all_valid m -> NoDup keys ->
  key_room (2 * Z.of_nat (length keys)) m ->
  (forall k, k ∈ keys -> exists l, lm_locks m !! k = Some l /\ lk_fh l = fh) ->
  let m' := foldl (trim_key c ow fh cut) m keys in
  lock_inv m' /\ all_valid m' /\ lock_frame (2 * Z.of_nat (length keys)) m m' /\
  (forall k l, lm_locks m' !! k = Some l -> exists k0 l0, lm_locks m !! k0 = Some l0 /\ part_of l l0 /\
    (l = l0 \/ bounded (lk_range l)) /\
    (k0 ∈ keys -> mine c ow l0 = true -> forall b, covers (lk_range l) b -> ~ covers cut b)) /\
  (forall k0 l0 b, lm_locks m !! k0 = Some l0 -> covers (lk_range l0) b ->
    (k0 ∈ keys -> mine c ow l0 = true -> bounded (lk_range l0) /\ ~ covers cut b) ->
    exists k l, lm_locks m' !! k = Some l /\ part_of l l0 /\ covers (lk_range l) b).
Proof.
  induction keys as [|key keys IH]; intros m Hi Hv Hnd Hroom Hin; cbn [foldl].
  { assert (Hf : lock_frame 0 m m) by (unfold lock_frame; split_and!; [lia|lia|done|done]).
    split_and!; try done.
    - intros k l Hl. exists k, l. split_and!; [done|apply part_of_refl|by left|by intros ?%elem_of_nil].
    - intros k0 l0 b Hl Hb _. exists k0, l0. split_and!; [done|apply part_of_refl|done]. }
  apply NoDup_cons in Hnd as [Hnk Hnd]. simpl length in Hroom |- *. unfold key_room in Hroom.
  destruct (Hin key) as (e & He & Hef); [by left|].
  destruct (trim_key_spec m key e Hi Hv) as (S1 & S2 & S3 & S4 & S5 & S6); [unfold key_room; lia|done|done|].
  set (m1 := trim_key c ow fh cut m key) in *.
  assert (Hkeep : forall k, k ∈ keys -> k <> key) by (intros k Hk ->; done).
  assert (Hold : forall k, k ∈ keys -> ~ newer m k).
  { intros k Hk Hn%newer_absent; [|done]. destruct (Hin k) as (l & ? & _); [by right|congruence]. }
  destruct (IH m1) as (I1 & I2 & I3 & I4 & I5); [done|done|done| | |].
  { destruct S3 as [? _]. unfold key_room. lia. }
  { intros k Hk. destruct (Hin k) as (l & Hl & ?); [by right|]. exists l. split; [|done]. apply S4; auto. }
  split_and!; [done|done| | |].
  - replace (2 * Z.of_nat (S (length keys))) with (2 + 2 * Z.of_nat (length keys)) by lia.
    by eapply lock_frame_trans.
  - intros k l Hl. destruct (I4 k l Hl) as (k1 & l1 & Hl1 & Hp1 & Hb1 & Hc1).
    destruct (S5 k1 l1 Hl1) as (k0 & l0 & Hl0 & Hp0 & Hor & Hc0).
    exists k0, l0. split_and!; [done|by eapply part_of_trans| |].
    + destruct Hb1 as [->|?]; [|by right]. destruct Hor as [[-> ->]|(_ & _ & ?)]; [by left|by right].
    + intros [->|Hk0]%elem_of_cons Hm b Hb.
      * eapply Hc0; [done|done|]. by apply Hp1.
      * destruct Hor as [[-> ->]|(_ & -> & _)]; [by eapply Hc1|done].
  - intros k0 l0 b Hl0 Hb Hcond.
    destruct (decide (k0 = key)) as [->|Hne].
    + assert (l0 = e) as -> by congruence.
      destruct (S6 b Hb) as (k1 & l1 & Hl1 & Hp1 & Hb1 & Hor); [intros Hm; apply Hcond; [by left|done]|].
      destruct (I5 k1 l1 b Hl1 Hb1) as (k & l & ? & ? & ?).
      { intros Hk1. destruct Hor as [->|Hn]; [by apply Hkeep in Hk1|by apply Hold in Hn]. }
      exists k, l. split_and!; [done|by eapply part_of_trans|done].
    + apply (I5 k0 l0 b); [by apply S4|done|]. intros Hk0. apply Hcond. by right.
Qed.

End trim.

(** ** Who holds which byte *)
Definition holds (m : LockManager) (fh : bytes) (c : Z) (ow : bytes) (t : LockType) (b : Z) : Prop :=
  exists k l, lm_locks m !! k = Some l /\ lk_fh l = fh /\ lk_client l = c /\ lk_owner l = ow /\ lk_type l = t /\
    covers (lk_range l) b.

Definition all_bounded (m : LockManager) : Prop := forall k l, lm_locks m !! k = Some l -> bounded (lk_range l).

(** Two different owners of one file hold no conflicting ranges. *)
Definition exclusive (m : LockManager) : Prop := forall k1 k2 l1 l2,
  lm_locks m !! k1 = Some l1 -> lm_locks m !! k2 = Some l2 -> lk_fh l1 = lk_fh l2 ->
  (lk_client l1, lk_owner l1) <> (lk_client l2, lk_owner l2) ->
  conflicts_with (lk_range l1) (lk_range l2) (lk_type l1) (lk_type l2) = false.

Definition trim_room (m : LockManager) (fh : bytes) : Prop :=
  key_room (2 * Z.of_nat (length (index m fh)) + 1) m.

Lemma trim_spec c ow fh cut m : bounded cut -> lock_inv m -> all_valid m -> trim_room m fh ->
  let m' := trim_owner_range c ow fh cut m in
  lock_inv m' /\ all_valid m' /\ key_room 1 m' /\ restored_clean m' = restored_clean m /\
  (forall k, ~ internal k -> stateid_owners m' !! k = stateid_owners m !! k) /\
  (forall k l, lm_locks m' !! k = Some l -> exists k0 l0, lm_locks m !! k0 = Some l0 /\ part_of l l0) /\
  (all_bounded m -> all_bounded m') /\
  (all_bounded m -> forall fh' c' ow' t b, holds m' fh' c' ow' t b <->
    holds m fh' c' ow' t b /\ ~ (fh' = fh /\ c' = c /\ ow' = ow /\ covers cut b)).
Proof.
  intros Hcut Hi Hv Hr m'.
  assert (Hm' : m' = foldl (trim_key c ow fh cut) m (index m fh)).
  { unfold m', trim_owner_range, index. by destruct (locks_by_fh m !! fh). }
  destruct (trim_fold_spec c ow fh cut Hcut (index m fh) m Hi Hv) as (T1 & T2 & (T3 & T4 & T5) & T6 & T7).
  { apply (li_nodup _ Hi). }
  { unfold trim_room, key_room in *. lia. }
  { intros k Hk. by apply (li_index _ Hi). }
  rewrite <- Hm' in *. split_and!; try done.
  - unfold trim_room, key_room in *. lia.
  - intros k l Hl. destruct (T6 k l Hl) as (k0 & l0 & ? & ? & _). eauto.
  - intros Hb k l Hl. destruct (T6 k l Hl) as (k0 & l0 & H0 & _ & [->|?] & _); [by eapply Hb|done].
  - intros Hb fh' c' ow' t b. split.
    + intros (k & l & Hl & <- & <- & <- & <- & Hcb). destruct (T6 k l Hl) as (k0 & l0 & H0 & Hp & _ & Hc).
      pose proof Hp as (P1 & P2 & P3 & P4 & P5). split.
      * exists k0, l0. split_and!; auto.
      * intros (E1 & E2 & E3 & Hcc). apply (Hc (proj2 (li_index _ Hi fh k0) ltac:(eexists; split; [done|congruence]))
          ltac:(apply mine_spec; split; congruence) b); done.
    + intros [(k0 & l0 & H0 & <- & <- & <- & <- & Hcb) Hn].
      destruct (T7 k0 l0 b H0 Hcb) as (k & l & Hl & (P1 & P2 & P3 & P4 & _) & Hlb).
      { intros Hin Hm. split; [by eapply Hb|]. intros Hcc. apply Hn.
        apply (li_index _ Hi) in Hin as (l1 & Hl1 & Hf). apply mine_spec in Hm as [? ?].
        assert (l1 = l0) as -> by congruence. done. }
      exists k, l. split_and!; done.
Qed.

(** ** Conflicts *)
Lemma range_end_le r : range_end r <= u64_max.
Proof. unfold range_end. destruct (_ || _); lia. Qed.

Lemma valid_nonempty r : valid_range r -> lr_offset r < u64_max -> lr_offset r < range_end r.
Proof.
  unfold valid_range, is_u64, range_end, TO_EOF. intros (H1 & H2 & H3) Hlt.
  destruct (lr_length r =? u64_max) eqn:E; simpl; [done|].
  destruct (lr_length r =? 0) eqn:E0; bool_Z; lia.
Qed.

Lemma overlaps_valid a b : valid_range a -> valid_range b ->
  overlaps a b = true <-> exists x, covers a x /\ covers b x.
Proof.
  intros Ha Hb. split.
  - intros Ho. pose proof Ho as [H1 H2]%overlaps_spec.
    pose proof (range_end_le a). pose proof (range_end_le b).
    apply overlaps_byte; [apply valid_nonempty; [done|lia]..|done].
  - intros (x & H1 & H2). apply overlaps_spec. unfold covers in *. lia.
Qed.

Lemma conflicts_spec a b ta tb : valid_range a -> valid_range b ->
  conflicts_with a b ta tb = true <-> ~ (ta = LkRead /\ tb = LkRead) /\ exists x, covers a x /\ covers b x.
Proof.
  intros Ha Hb. rewrite <- overlaps_valid by done. unfold conflicts_with.
  destruct (overlaps a b); simpl; [|naive_solver].
  destruct (bool_decide (ta = LkRead) && bool_decide (tb = LkRead)) eqn:E.
  - apply andb_prop in E as [?%bool_decide_eq_true ?%bool_decide_eq_true]. naive_solver.
  - apply andb_false_iff in E. rewrite !bool_decide_eq_false in E. naive_solver.
Qed.

Lemma exclusive_sub m m' : exclusive m -> all_valid m -> all_valid m' ->
  (forall k l, lm_locks m' !! k = Some l -> exists k0 l0, lm_locks m !! k0 = Some l0 /\ part_of l l0) ->
  exclusive m'.
Proof.
  intros He Hv Hv' Hsub k1 k2 l1 l2 H1 H2 Hfh Hne.
  destruct (Hsub _ _ H1) as (p1 & q1 & G1 & (A1 & A2 & A3 & A4 & A5)).
  destruct (Hsub _ _ H2) as (p2 & q2 & G2 & (B1 & B2 & B3 & B4 & B5)).
  destruct (conflicts_with (lk_range l1) _ _ _) eqn:E; [|done].
  apply conflicts_spec in E as [Ht (x & X1 & X2)]; [|by eapply Hv'..].
  assert (conflicts_with (lk_range q1) (lk_range q2) (lk_type q1) (lk_type q2) = true) as Hc.
  { apply conflicts_spec; [by eapply Hv..|]. split; [congruence|eauto]. }
  rewrite (He p1 p2 q1 q2) in Hc; try done; congruence.
Qed.

Lemma head_omap_None {A B} (f : A -> option B) l : head (omap f l) = None <-> forall x, x ∈ l -> f x = None.
Proof.
  split.
  - intros Hh x Hx. destruct (f x) as [y|] eqn:E; [|done].
    assert (y ∈ omap f l) as Hy by (apply list_elem_of_omap; eauto).
    destruct (omap f l); [by apply elem_of_nil in Hy|done].
  - intros Hn. destruct (omap f l) as [|y ys] eqn:E; [done|].
    assert (y ∈ omap f l) as Hy by (rewrite E; by left).
    apply list_elem_of_omap in Hy as (x & Hx & Hf). by rewrite Hn in Hf.
Qed.

Lemma head_omap_Some {A B} (f : A -> option B) l y : head (omap f l) = Some y -> exists x, x ∈ l /\ f x = Some y.
Proof.
  intros Hh. assert (y ∈ omap f l) as Hy by (destruct (omap f l); simplify_eq/=; by left).
  apply list_elem_of_omap in Hy as (x & ? & ?). eauto.
Qed.

Lemma check_conflicts_None m fh r t c ow : lock_inv m ->
  check_conflicts m fh r t (Some (c, ow)) = None <->
  forall k l, lm_locks m !! k = Some l -> lk_fh l = fh -> (lk_client l, lk_owner l) <> (c, ow) ->
    conflicts_with r (lk_range l) t (lk_type l) = false.
Proof.
  intros Hi. unfold check_conflicts. rewrite head_omap_None. split.
  - intros Hn k l Hl Hf Hne. specialize (Hn k (proj2 (li_index _ Hi fh k) ltac:(eauto))). rewrite Hl in Hn.
    rewrite bool_decide_eq_false_2 in Hn by congruence. by destruct (conflicts_with _ _ _ _).
  - intros Hall k Hk. apply (li_index _ Hi) in Hk as (l & Hl & Hf). rewrite Hl.
    case_bool_decide as Hd; [done|]. rewrite (Hall k l) by (done || congruence). done.
Qed.

Lemma check_conflicts_Some m fh r t ex l : lock_inv m -> check_conflicts m fh r t ex = Some l ->
  exists k, lm_locks m !! k = Some l /\ lk_fh l = fh /\ ex <> Some (lk_client l, lk_owner l) /\
    conflicts_with r (lk_range l) t (lk_type l) = true.
Proof.
  intros Hi (k & Hk & Hc)%head_omap_Some. apply (li_index _ Hi) in Hk as (l' & Hl & Hf). rewrite Hl in Hc.
  case_bool_decide; [done|]. destruct (conflicts_with _ _ _ _) eqn:E; [|done]. simplify_eq. eauto.
Qed.

(** An added range that conflicts with no other owner keeps exclusion. *)
Lemma exclusive_add m m' k l : exclusive m -> all_valid m -> valid_range (lk_range l) ->
  lm_locks m' = <[k := l]> (lm_locks m) ->
  (forall k' l', lm_locks m !! k' = Some l' -> lk_fh l' = lk_fh l ->
    (lk_client l', lk_owner l') <> (lk_client l, lk_owner l) ->
    conflicts_with (lk_range l) (lk_range l') (lk_type l) (lk_type l') = false) ->
  exclusive m'.
Proof.
  intros He Hv Hvl Hl Hno k1 k2 l1 l2. rewrite Hl, !lookup_insert_Some.
  intros [[<- <-]|[_ H1]] [[<- <-]|[_ H2]] Hfh Hne.
  - done.
  - apply (Hno k2); [done|congruence|congruence].
  - specialize (Hno k1 l1 H1 Hfh Hne). destruct (conflicts_with (lk_range l1) _ _ _) eqn:E; [|done].
    apply conflicts_spec in E as [Ht (x & X1 & X2)]; [|by eapply Hv|done].
    assert (conflicts_with (lk_range l) (lk_range l1) (lk_type l) (lk_type l1) = true) as Hc
      by (apply conflicts_spec; [done|by eapply Hv|]; split; [naive_solver|eauto]).
    congruence.
  - by apply (He k1 k2).
Qed.
