(* ===== verification/LocksProps.v ===== *)
(** The lock handlers against a per-byte specification, the exclusion
    invariant along every sequence of handler calls, and restart. *)

From S2P Require Import Prelude Xdr Stateid Locks LocksInv.

Record lock_ok (m : LockManager) : Prop := {
  lo_inv : lock_inv m; lo_valid : all_valid m; lo_excl : exclusive m }.

(** ** Owner registrations *)
Lemma register_spec other c ow fh m : lock_inv m -> ~ internal other ->
  lock_inv (register_owner_stateid other c ow fh m).
Proof.
  intros Hi Hn. pose proof Hi as []. split; try done; simpl.
  - intros k l Hl. rewrite lookup_insert_ne; [auto|]. intros <-. by eapply Hn, internal_lock.
  - intros k r. destruct (decide (k = other)) as [->|Hne].
    + rewrite !lookup_insert_eq. split.
      * intros [= <-]. right. split; [done|]. eexists. split; [done|]. done.
      * intros [(l & Hl & _)|(_ & o & [= <-] & ->)]; [|done]. by destruct (Hn (internal_lock _ _ _ Hi Hl)).
    + rewrite !lookup_insert_ne by done. auto.
Qed.

Lemma purge_inv key m : lock_inv m -> lm_locks m !! key = None -> lock_inv (purge_owner m key).
Proof.
  intros Hi Hk. pose proof Hi as []. split; try done; simpl.
  - intros k l Hl. rewrite lookup_delete_ne; [auto|]. congruence.
  - intros k r. rewrite lookup_delete_Some, li_db. setoid_rewrite lookup_delete_Some. split.
    + intros [Hne [?|(? & o & ? & ?)]]; [by left|right]. split; [done|]. exists o. auto.
    + intros [(l & Hl & ->)|(? & o & [? ?] & ?)]; split; try congruence; eauto 10.
Qed.

Lemma release_spec other m : lock_inv m -> lock_inv (release_owner_stateid other m).2.
Proof.
  intros Hi. unfold release_owner_stateid. case_bool_decide as Hs; [done|].
  destruct (stateid_owners m !! other) as [k|]; [|done]. destruct (owner_holds m k); [done|].
  apply (purge_inv other); [done|]. destruct (lm_locks m !! other) eqn:E; [|done]. destruct Hs. eauto.
Qed.

Lemma release_locks other m : lm_locks (release_owner_stateid other m).2 = lm_locks m.
Proof.
  unfold release_owner_stateid. case_bool_decide; [done|]. destruct (stateid_owners m !! other); [|done].
  by destruct (owner_holds m _).
Qed.

(** FREE_STATEID of a lock stateid succeeds only when the owner it stands
    for holds no byte of the file. *)
Lemma release_held other m m' o : lock_inv m -> release_owner_stateid other m = (true, m') ->
  stateid_owners m !! other = Some o ->
  (forall t b, ~ holds m (ok_fh o) (ok_client o) (ok_owner o) t b) /\ stateid_owners m' !! other = None.
Proof.
  intros Hi. unfold release_owner_stateid. case_bool_decide; [done|]. intros Hr Ho. rewrite Ho in Hr.
  destruct (owner_holds m o) eqn:Hh; [done|]. injection Hr as <-. split; [|simpl; by rewrite lookup_delete_eq].
  intros t b (k & l & Hl & Hf & Hc & How & _). unfold owner_holds in Hh.
  rewrite <- not_true_iff_false, existsb_exists in Hh. apply Hh. exists k. split.
  - apply list_elem_of_In, (li_index _ Hi). eauto.
  - rewrite Hl. rewrite andb_true_iff, Z.eqb_eq, bool_decide_eq_true. done.
Qed.

(** ** A departing client *)
Lemma elem_client_keys {A} (f : A -> Z) c (t : gmap Z A) k :
  k ∈ client_keys f c t <-> exists v, t !! k = Some v /\ f v = c.
Proof.
  unfold client_keys. rewrite list_elem_of_omap. split.
  - intros ([k' v] & Hin & Hx). apply elem_of_map_to_list in Hin.
    destruct (f v =? c) eqn:E; bool_Z; simplify_eq. eauto.
  - intros (v & Hv & <-). exists (k, v). split; [by apply elem_of_map_to_list|]. by rewrite Z.eqb_refl.
Qed.

Lemma remove_locks_fold l : forall m, lock_inv m ->
  let m' := foldl (fun m key => (remove_lock key m).2) m l in
  lock_inv m' /\ stateid_owners m' = stateid_owners m /\ restored_clean m' = restored_clean m /\
  entry_key_counter m' = entry_key_counter m /\
  forall k, lm_locks m' !! k = if decide (k ∈ l) then None else lm_locks m !! k.
Proof.
  induction l as [|key l IH]; intros m Hi; cbn [foldl].
  { split_and!; try done. }
  assert (Hs : lock_inv (remove_lock key m).2 /\ stateid_owners (remove_lock key m).2 = stateid_owners m /\
    restored_clean (remove_lock key m).2 = restored_clean m /\
    entry_key_counter (remove_lock key m).2 = entry_key_counter m /\
    lm_locks (remove_lock key m).2 = delete key (lm_locks m)).
  { destruct (lm_locks m !! key) as [e|] eqn:He.
    - destruct (remove_lock_spec key e m Hi He) as (? & ? & ? & ? & ?). auto.
    - unfold remove_lock. rewrite He. split_and!; try done. symmetry. by apply delete_id. }
  destruct Hs as (S1 & S2 & S3 & S4 & S5). destruct (IH _ S1) as (I1 & I2 & I3 & I4 & I5).
  split_and!; [done|congruence|congruence|congruence|]. intros k. rewrite I5, S5, lookup_delete.
  destruct (decide (k ∈ l)) as [Hl|Hl]; [by rewrite decide_True by (by right)|].
  destruct (decide (key = k)) as [->|Hne]; [by rewrite decide_True by left|].
  rewrite decide_False; [done|]. intros [->|?]%elem_of_cons; done.
Qed.

Lemma purge_fold l : forall m, lock_inv m -> (forall k, k ∈ l -> lm_locks m !! k = None) ->
  let m' := foldl purge_owner m l in
  lock_inv m' /\ lm_locks m' = lm_locks m /\ restored_clean m' = restored_clean m /\
  forall k, stateid_owners m' !! k = if decide (k ∈ l) then None else stateid_owners m !! k.
Proof.
  induction l as [|key l IH]; intros m Hi Hl; cbn [foldl].
  { split_and!; try done. }
  destruct (IH (purge_owner m key)) as (I1 & I2 & I3 & I4).
  { apply purge_inv; [done|]. apply Hl. by left. }
  { intros k Hk. simpl. apply Hl. by right. }
  split_and!; [done|done|done|]. intros k. rewrite I4. simpl. rewrite lookup_delete.
  destruct (decide (k ∈ l)) as [Hk|Hk]; [by rewrite decide_True by (by right)|].
  destruct (decide (key = k)) as [->|Hne]; [by rewrite decide_True by left|].
  rewrite decide_False; [done|]. intros [->|?]%elem_of_cons; done.
Qed.

(** After [remove_client_locks] the client has no range and no owner; every
    other client's are untouched. *)
Lemma remove_client_locks_spec c m : lock_inv m ->
  let m' := remove_client_locks c m in
  lock_inv m' /\ restored_clean m' = restored_clean m /\
  (forall k l, lm_locks m' !! k = Some l <-> lm_locks m !! k = Some l /\ lk_client l <> c) /\
  (forall k o, stateid_owners m' !! k = Some o <-> stateid_owners m !! k = Some o /\ ok_client o <> c).
Proof.
  intros Hi m'. unfold m', remove_client_locks.
  destruct (remove_locks_fold (client_keys lk_client c (lm_locks m)) m Hi) as (R1 & R2 & R3 & _ & R4).
  set (m1 := foldl _ m _) in *.
  assert (Hl : forall k l, lm_locks m1 !! k = Some l <-> lm_locks m !! k = Some l /\ lk_client l <> c).
  { intros k l. rewrite R4. case_decide as Hk; rewrite elem_client_keys in Hk.
    - destruct Hk as (v & ? & ?). split; [done|]. intros [? ?]. congruence.
    - split; [|by intros [? _]]. intros Hl. split; [done|]. intros ?. apply Hk. eauto. }
  destruct (purge_fold (client_keys ok_client c (stateid_owners m1)) m1 R1) as (P1 & P2 & P3 & P4).
  { intros k Hk. apply elem_client_keys in Hk as (o & Ho & Hc).
    destruct (lm_locks m1 !! k) as [l|] eqn:E; [|done]. pose proof (li_owner _ R1 _ _ E) as Ho'.
    apply Hl in E as [_ Hn]. rewrite Ho in Ho'. by simplify_eq. }
  split_and!; [done|congruence|intros k l; by rewrite P2|].
  intros k o. rewrite P4, R2. case_decide as Hk; rewrite elem_client_keys in Hk.
  - destruct Hk as (v & ? & ?). split; [done|]. intros [? ?]. congruence.
  - split; [|by intros [? _]]. intros Ho. split; [done|]. intros ?. apply Hk. eauto.
Qed.

Lemma sub_ok m m' : lock_ok m -> lock_inv m' ->
  (forall k l, lm_locks m' !! k = Some l -> lm_locks m !! k = Some l) -> lock_ok m'.
Proof.
  intros [H1 H2 H3] Hi Hs.
  assert (Hv : all_valid m') by (intros k l Hl; by eapply H2, Hs).
  split; [done|done|]. apply (exclusive_sub m); [done|done|done|].
  intros k l Hl. exists k, l. split; [by apply Hs|apply part_of_refl].
Qed.

(** ** The grant *)
(** Some other owner holds a byte of [r] in a conflicting mode. *)
Definition byte_conflict (m : LockManager) (fh : bytes) (c : Z) (ow : bytes) (t : LockType) (r : LockRange) : Prop :=
  exists c' ow' t' b, holds m fh c' ow' t' b /\ covers r b /\ (c', ow') <> (c, ow) /\ ~ (t = LkRead /\ t' = LkRead).

Lemma conflicts_bytes m fh r t c ow : lock_inv m -> all_valid m -> valid_range r ->
  check_conflicts m fh r t (Some (c, ow)) = None <-> ~ byte_conflict m fh c ow t r.
Proof.
  intros Hi Hv Hr. rewrite check_conflicts_None by done. split.
  - intros Hall (c' & ow' & t' & b & (k & l & Hl & Hf & <- & <- & <- & Hb) & Hcr & Hne & Ht).
    specialize (Hall k l Hl Hf Hne). apply not_true_iff_false in Hall. apply Hall, conflicts_spec; [done|by eapply Hv|].
    split; [naive_solver|eauto].
  - intros Hn k l Hl Hf Hne. apply not_true_iff_false. intros [Ht (x & X1 & X2)]%conflicts_spec; [|done|by eapply Hv].
    apply Hn. exists (lk_client l), (lk_owner l), (lk_type l), x. split_and!; try done.
    exists k, l. done.
Qed.

(** The stateid counter is below the range of internal entry keys. *)
Definition sid_room (sm : StateIdManager) : Prop :=
  0 <= next_stateid sm < ENTRY_PREFIX * 2 ^ 32 /\ forall t, stateid_tag sm = Some t -> is_u32 t.

Lemma allocate_external ty c fh sm : sid_room sm -> ~ internal (sid_other (allocate ty c fh sm).1).
Proof.
  intros [Hn Ht]. unfold internal, minted_entry_counter. simpl.
  assert (Hlow : 0 <= default (wrap_u32 c) (stateid_tag sm) < 2 ^ 32).
  { destruct (stateid_tag sm) as [t|] eqn:E; simpl.
    - specialize (Ht t eq_refl). unfold is_u32, u32_max in Ht. lia.
    - unfold wrap_u32. apply Z.mod_pos_bound. lia. }
  destruct (_ =? _) eqn:E; [|by intros [? ?]]. bool_Z. exfalso.
  change (2 ^ 64) with (2 ^ 32 * 2 ^ 32) in E. rewrite <- Z.div_div, Z.div_add_l in E by lia.
  rewrite (Z.div_small (default _ _)), Z.add_0_r in E by lia.
  assert (next_stateid sm / 2 ^ 32 < ENTRY_PREFIX) by (apply Z.div_lt_upper_bound; lia). lia.
Qed.

Definition op_range (op : LockOp) : LockRange := Range (lo_offset op) (lo_length op).

(** The holders after a grant: an existing owner's own bytes of the range
    change mode, a new owner's are added. *)
Definition locked (m : LockManager) (fh : bytes) (c : Z) (ow : bytes) (op : LockOp)
    (fh' : bytes) (c' : Z) (ow' : bytes) (t' : LockType) (b : Z) : Prop :=
  let target := fh' = fh /\ c' = c /\ ow' = ow /\ covers (op_range op) b in
  (holds m fh' c' ow' t' b /\ (lo_new_owner op = false -> ~ target)) \/ (target /\ t' = lo_type op).

(** Adding a range no other owner conflicts with. *)
Lemma add_range_ok c ow fh t r m : lock_ok m -> key_room 1 m -> valid_range r -> ~ byte_conflict m fh c ow t r ->
  let m' := add_range c ow fh t r m in
  lock_ok m' /\ restored_clean m' = restored_clean m /\ (all_bounded m -> bounded r -> all_bounded m') /\
  forall fh' c' ow' t' b, holds m' fh' c' ow' t' b <->
    holds m fh' c' ow' t' b \/ (fh' = fh /\ c' = c /\ ow' = ow /\ t' = t /\ covers r b).
Proof.
  intros [Hi Hv He] Hroom Hr Hnc. destruct (add_range_spec c ow fh t r m Hi Hroom) as (A1 & A2 & A3 & A4 & A5 & A6 & A7).
  cbv zeta. set (m' := add_range c ow fh t r m) in *. clearbody m'.
  set (k := ENTRY_PREFIX * 2 ^ 64 + entry_key_counter m) in *.
  assert (Hlk : forall p f, lm_locks m' !! p = Some f <->
    (p = k /\ f = MkLock (Sid 1 k) c ow fh t r) \/ (p <> k /\ lm_locks m !! p = Some f)).
  { intros p f. rewrite A4, lookup_insert_Some. naive_solver. }
  split_and!; [|done| |].
  - split; [done| |].
    + intros p f [[_ ->]|[_ Hf]]%Hlk; [done|by eapply Hv].
    + eapply (exclusive_add m m' k); [done|done| |exact A4|]; [done|]. simpl.
      apply conflicts_bytes in Hnc; [|done..]. rewrite check_conflicts_None in Hnc by done.
      intros k' l' Hl' Hf Hne. by eapply Hnc.
  - intros Hb Hbr p f [[_ ->]|[_ Hf]]%Hlk; [done|by eapply Hb].
  - intros fh' c' ow' t' b. split.
    + intros (p & f & [[_ ->]|[_ Hf]]%Hlk & H1 & H2 & H3 & H4 & H5); [right; simpl in *; split_and!; congruence|left].
      exists p, f. done.
    + intros [(p & f & Hf & ? & ? & ? & ? & ?)|(-> & -> & -> & -> & Hb)].
      * exists p, f. split_and!; try done. apply Hlk. right. split; [congruence|done].
      * exists k, (MkLock (Sid 1 k) c ow fh t r). split_and!; try done. apply Hlk. by left.
Qed.

Lemma register_ok other c ow fh m : lock_ok m -> ~ internal other -> lock_ok (register_owner_stateid other c ow fh m).
Proof. intros [H1 H2 H3] Hn. split; [by apply register_spec|done|done]. Qed.

Lemma trim_ok c ow fh cut m : bounded cut -> lock_ok m -> trim_room m fh -> lock_ok (trim_owner_range c ow fh cut m).
Proof.
  intros Hc [H1 H2 H3] Hr. destruct (trim_spec c ow fh cut m Hc H1 H2 Hr) as (T1 & T2 & _ & _ & _ & T3 & _).
  split; [done|done|by apply (exclusive_sub m)].
Qed.

Lemma grant_lock_spec op c ow fh lm sm res lm' sm' :
  lock_ok lm -> valid_range (op_range op) -> (lo_new_owner op = false -> bounded (op_range op)) ->
  sid_room sm -> trim_room lm fh -> grant_lock op c ow fh lm sm = (res, lm', sm') ->
  lock_ok lm' /\ restored_clean lm' = restored_clean lm /\
  ((res_status res = NFS_Ok /\ ~ byte_conflict lm fh c ow (lo_type op) (op_range op) /\
    (all_bounded lm -> bounded (op_range op) -> all_bounded lm' /\
      forall fh' c' ow' t' b, holds lm' fh' c' ow' t' b <-> locked lm fh c ow op fh' c' ow' t' b)) \/
   (res_status res = NFS_Denied /\ byte_conflict lm fh c ow (lo_type op) (op_range op) /\ lm' = lm /\ sm' = sm /\
    exists k l, lm_locks lm !! k = Some l /\ lk_fh l = fh /\ (lk_client l, lk_owner l) <> (c, ow) /\
      conflicts_with (op_range op) (lk_range l) (lo_type op) (lk_type l) = true /\ res_denied res = Some (denied_by l))).
Proof.
  intros Hok Hr Hb Hs Hroom. pose proof Hok as [Hi Hv He]. unfold grant_lock.
  change (Range (lo_offset op) (lo_length op)) with (op_range op).
  destruct (check_conflicts lm fh (op_range op) (lo_type op) (Some (c, ow))) as [l|] eqn:Hc.
  { intros [= <- <- <-]. split_and!; try done. right. split_and!; try done.
    - destruct (check_conflicts_Some _ _ _ _ _ _ Hi Hc) as (k & Hl & Hf & Hne & Hx).
      apply conflicts_spec in Hx as [Ht (x & X1 & X2)]; [|done|by eapply Hv].
      exists (lk_client l), (lk_owner l), (lk_type l), x. split_and!; try done; [|congruence]. exists k, l. done.
    - destruct (check_conflicts_Some _ _ _ _ _ _ Hi Hc) as (k & Hl & Hf & Hne & Hx).
      exists k, l. split_and!; try done. congruence. }
  apply conflicts_bytes in Hc; [|done..].
  assert (Hroom1 : key_room 1 lm) by (unfold trim_room, key_room in *; lia).
  destruct (lo_new_owner op) eqn:Hno.
  - unfold establish. pose proof (allocate_external TyLock c (Some fh) sm Hs) as Hext.
    destruct (allocate TyLock c (Some fh) sm) as [s sm1] eqn:Ea. intros [= <- <- <-]. simpl in Hext.
    pose proof (register_ok (sid_other s) c ow fh lm Hok Hext) as Hok1.
    destruct (add_range_ok c ow fh (lo_type op) (op_range op) _ Hok1) as (G1 & G2 & G3 & G4); [done|done|done|].
    split_and!; [done|done|]. left. split_and!; try done. intros Hab Hbr. split; [by apply G3|].
    intros fh' c' ow' t' b. rewrite G4. unfold locked. rewrite Hno. change (holds (register_owner_stateid _ _ _ _ _)) with (holds lm).
    naive_solver.
  - specialize (Hb eq_refl). destruct (bump_stateid _ _ _) as [s sm1]. intros [= <- <- <-].
    destruct (trim_spec c ow fh (op_range op) lm Hb Hi Hv Hroom) as (T1 & T2 & T3 & T4 & T5 & T6 & T7 & T8).
    pose proof (trim_ok c ow fh (op_range op) lm Hb Hok Hroom) as Hok1.
    destruct (add_range_ok c ow fh (lo_type op) (op_range op) _ Hok1) as (G1 & G2 & G3 & G4); [done|done| |].
    { intros (c' & ow' & t' & b & (k & l & Hl & Hf & Hlc & Hlo & Hlt & Hlb) & Hx). apply Hc.
      destruct (T6 k l Hl) as (k0 & l0 & H0 & (P1 & P2 & P3 & P4 & P5)).
      exists c', ow', t', b. split; [|done]. exists k0, l0. split_and!; try congruence. auto. }
    split_and!; [done|congruence|]. left. split_and!; try done. intros Hab Hbr. split; [by apply G3; [apply T7|]|].
    intros fh' c' ow' t' b. rewrite G4, T8 by done. unfold locked. rewrite Hno. naive_solver.
Qed.

(** ** The handlers *)
Lemma find_matching_Some m c ow fh t r l : lock_inv m -> find_matching m c ow fh t r = Some l ->
  exists k, lm_locks m !! k = Some l /\ lk_fh l = fh /\ lk_client l = c /\ lk_owner l = ow /\ lk_type l = t /\ lk_range l = r.
Proof.
  intros Hi (k & Hk & Hc)%head_omap_Some. apply (li_index _ Hi) in Hk as (l' & Hl & Hf). rewrite Hl in Hc.
  destruct (_ && _) eqn:E in Hc; [|done]. simplify_eq.
  rewrite !andb_true_iff, Z.eqb_eq, !bool_decide_eq_true in E. destruct E as [[[? ?] ?] ?]. eauto 10.
Qed.

Lemma reclaim_reply_ok l c ow fh lm sm s lm' sm' : lock_ok lm -> sid_room sm ->
  reclaim_reply l c ow fh lm sm = (s, lm', sm') ->
  lock_ok lm' /\ lm_locks lm' = lm_locks lm /\ restored_clean lm' = restored_clean lm.
Proof.
  intros Hok Hs. unfold reclaim_reply. case_bool_decide; [by intros [= _ <- _]|].
  destruct (canonical_for_owner lm c ow fh).
  - destruct (bump_stateid _ _ _). by intros [= _ <- _].
  - unfold establish. pose proof (allocate_external TyLock c (Some fh) sm Hs) as Hext.
    destruct (allocate TyLock c (Some fh) sm) as [s1 sm1]. intros [= <- <- <-].
    split_and!; [by apply register_ok|done|done].
Qed.

Lemma validate_range_err o n e : validate_lock_range o n = Err e -> e = NFS_Inval.
Proof. unfold validate_lock_range. destruct (n =? 0); [|destruct (_ && _)]; naive_solver. Qed.

(** The owner a LOCK stands for: a new owner names itself; for an existing
    one the owner map is the authority and the client must be its own.  A
    reclaim that matches a restored lock is that lock's owner. *)
Definition resolved_owner (op : LockOp) (c : Z) (lm : LockManager) : option bytes :=
  if lo_new_owner op then Some (lo_owner op)
  else match resolve_owner lm (lo_stateid op) with
       | Some (c', ow) => if c' =? c then Some ow else None
       | None => None
       end.
Definition request_owner (op : LockOp) (fh : bytes) (c : Z) (lm : LockManager) : option bytes :=
  match find_matching lm c (lo_owner op) fh (lo_type op) (Range (lo_offset op) (lo_length op)) with
  | Some _ => if lo_reclaim op then Some (lo_owner op) else resolved_owner op c lm
  | None => resolved_owner op c lm
  end.

(** What a LOCK answer means. *)
Definition lock_outcome (op : LockOp) (fh : bytes) (c : Z) (lm : LockManager) (sm : StateIdManager)
    (res : LockRes) (lm' : LockManager) (sm' : StateIdManager) : Prop :=
  match res_status res with
  | NFS_Ok => exists ow, request_owner op fh c lm = Some ow /\ ~ byte_conflict lm fh c ow (lo_type op) (op_range op) /\
      (all_bounded lm -> bounded (op_range op) -> all_bounded lm' /\
       forall b, covers (op_range op) b -> holds lm' fh c ow (lo_type op) b) /\
      (all_bounded lm -> bounded (op_range op) -> forall fh' c' ow' t' b,
        (fh', c', ow') <> (fh, c, ow) \/ ~ covers (op_range op) b ->
        holds lm' fh' c' ow' t' b <-> holds lm fh' c' ow' t' b)
  | NFS_Denied => lm' = lm /\ sm' = sm /\ exists ow k l, request_owner op fh c lm = Some ow /\
      byte_conflict lm fh c ow (lo_type op) (op_range op) /\
      lm_locks lm !! k = Some l /\ lk_fh l = fh /\ (lk_client l, lk_owner l) <> (c, ow) /\
      conflicts_with (op_range op) (lk_range l) (lo_type op) (lk_type l) = true /\ res_denied res = Some (denied_by l)
  | _ => lm' = lm /\ sm' = sm
  end.

Lemma holds_locks m m' : lm_locks m' = lm_locks m -> forall fh c ow t b, holds m' fh c ow t b <-> holds m fh c ow t b.
Proof. intros H *. unfold holds. by rewrite H. Qed.

Section handler.
Context (op : LockOp) (fh : bytes) (c : Z) (lm : LockManager) (sm : StateIdManager).
Context (Hok : lock_ok lm) (Hoff : is_u64 (lo_offset op)) (Hlen : is_u64 (lo_length op)).
Context (Hbd : lo_new_owner op = false -> bounded (op_range op)) (Hsid : sid_room sm) (Hroom : trim_room lm fh).

Lemma lock_for_owner_spec res lm' sm' : valid_range (op_range op) -> request_owner op fh c lm = resolved_owner op c lm ->
  lock_for_owner op c fh lm sm = (res, lm', sm') -> lock_ok lm' /\ lock_outcome op fh c lm sm res lm' sm'.
Proof.
  intros Hv How.
  assert (Hg : forall ow, resolved_owner op c lm = Some ow -> grant_lock op c ow fh lm sm = (res, lm', sm') ->
    lock_ok lm' /\ lock_outcome op fh c lm sm res lm' sm').
  { intros ow Hro Hg. destruct (grant_lock_spec op c ow fh lm sm res lm' sm') as (H1 & _ & H2); try done.
    split; [done|]. unfold lock_outcome. rewrite How.
    destruct H2 as [(-> & Hnc & Heff)|(-> & Hbc & -> & -> & k & l & ? & ? & ? & ? & ?)].
    - exists ow. split_and!; [done|done| |].
      + intros Hb Hb'. destruct (Heff Hb Hb') as [Hb2 Hh]. split; [done|].
        intros b Hcb. apply Hh. right. done.
      + intros Hb Hb' fh' c' ow' t' b Hor. destruct (Heff Hb Hb') as [_ Hh]. rewrite Hh. unfold locked.
        split; [|intros Hl; left; split; [done|]; intros _ (-> & -> & -> & ?); naive_solver].
        intros [[? _]|[(-> & -> & -> & ?) _]]; [done|]. naive_solver.
    - split_and!; try done. exists ow, k, l. done. }
  unfold lock_for_owner, resolved_owner in *. destruct (lo_new_owner op); [by apply Hg|].
  destruct (resolve_owner lm (lo_stateid op)) as [[c' ow]|]; [|by intros [= <- <- <-]].
  destruct (c' =? c); [by apply Hg|by intros [= <- <- <-]].
Qed.

Lemma handle_lock_spec fd ig mx res lm' sm' :
  handle_lock op (Some fh) (Some c) fd ig mx lm sm = (res, lm', sm') ->
  lock_ok lm' /\ lock_outcome op fh c lm sm res lm' sm'.
Proof.
  unfold handle_lock. destruct (validate sm (lo_stateid op)); [|by intros [= <- <- <-]].
  destruct (validate_lock_range (lo_offset op) (lo_length op)) as [u|e] eqn:Hvr.
  2: { apply validate_range_err in Hvr as ->. by intros [= <- <- <-]. }
  pose proof (validate_range_ok _ _ _ Hoff Hlen Hvr) as Hv.
  destruct (_ && fd); [by intros [= <- <- <-]|]. destruct (lo_reclaim op) eqn:Hrc.
  - destruct (negb ig); [by intros [= <- <- <-]|].
    destruct (find_matching lm c (lo_owner op) fh (lo_type op) _) as [l|] eqn:Hf;
      [|apply lock_for_owner_spec; [done|]; unfold request_owner; by rewrite Hf].
    destruct (reclaim_reply l c (lo_owner op) fh lm sm) as [[s lm1] sm1] eqn:Hrr. intros [= <- <- <-].
    destruct (reclaim_reply_ok _ _ _ _ _ _ _ _ _ Hok Hsid Hrr) as (R1 & R2 & _). split; [done|].
    destruct (find_matching_Some _ _ _ _ _ _ _ (lo_inv _ Hok) Hf) as (k & Hl & Hlf & Hlc & Hlo & Hlt & Hlr).
    exists (lo_owner op). split_and!.
    + unfold request_owner. by rewrite Hf, Hrc.
    + intros (c' & ow' & t' & b & (k' & l' & Hl' & E1 & E2 & E3 & E4 & E5) & Hb & Hne & Ht).
      assert (conflicts_with (lk_range l) (lk_range l') (lk_type l) (lk_type l') = true) as Hx.
      { apply conflicts_spec; [by eapply (lo_valid _ Hok)..|]. split; [intros [? ?]; apply Ht; split; congruence|]. exists b.
        rewrite Hlr. done. }
      rewrite (lo_excl _ Hok k k' l l') in Hx; try done; congruence.
    + intros Hab _. split; [intros p f; rewrite R2; apply Hab|]. intros b Hb. apply (holds_locks lm); [done|].
      exists k, l. rewrite Hlr. done.
    + intros _ _ *. intros _. by apply holds_locks.
  - destruct (mx <=? _); [by intros [= <- <- <-]|].
    destruct (negb (restored_clean lm) && ig); [by intros [= <- <- <-]|].
    apply lock_for_owner_spec; [done|]. unfold request_owner. rewrite Hrc. by destruct (find_matching _ _ _ _ _ _).
Qed.

End handler.

Lemma handle_locku_spec op fh c lm sm st s lm' sm' :
  lock_ok lm -> bounded (Range (lu_offset op) (lu_length op)) -> trim_room lm fh ->
  handle_locku op (Some fh) (Some c) lm sm = (st, s, lm', sm') ->
  lock_ok lm' /\
  ((st = NFS_Ok /\ exists ow, resolve_owner lm (lu_stateid op) = Some (c, ow) /\
    (all_bounded lm -> all_bounded lm' /\ forall fh' c' ow' t b, holds lm' fh' c' ow' t b <->
      holds lm fh' c' ow' t b /\ ~ (fh' = fh /\ c' = c /\ ow' = ow /\ covers (Range (lu_offset op) (lu_length op)) b))) \/
   (st <> NFS_Ok /\ lm' = lm /\ sm' = sm)).
Proof.
  intros Hok Hb Hroom. unfold handle_locku. destruct (validate sm _); [|intros [= <- <- <- <-]; auto].
  destruct (resolve_owner lm (lu_stateid op)) as [[c' ow]|] eqn:Hr; [|intros [= <- <- <- <-]; auto].
  destruct (c' =? c) eqn:Hc; simpl; [bool_Z; subst|intros [= <- <- <- <-]; auto].
  destruct (validate_lock_range _ _) as [|e] eqn:Hv.
  - destruct (bump_stateid _ _ _) as [s1 sm1]. intros [= <- <- <- <-]. split; [by apply trim_ok|]. left.
    split; [done|]. exists ow. split; [done|]. intros Hab.
    destruct (trim_spec c ow fh _ lm Hb (lo_inv _ Hok) (lo_valid _ Hok) Hroom) as (_ & _ & _ & _ & _ & _ & T1 & T2).
    split; auto.
  - intros [= <- <- <- <-]. split; [done|]. right. split; [|done]. by apply validate_range_err in Hv as ->.
Qed.

(** ** Restart *)
Lemma lock_record_round_trip l : lock_from_record (lock_to_record l) = Some l.
Proof. destruct l as [[q o] c ow fh t [a n]]. by destruct t. Qed.

Lemma lock_not_registration l k o : lock_to_record l <> registration k (ok_client o) (ok_owner o) (ok_fh o).
Proof. destruct l as [? ? ? ? t ?]. unfold lock_to_record, registration. by destruct t. Qed.

(** The table as if its counter were [n] and its rows [d]. *)
Definition as_if (n : Z) (d : gmap Z LockRecord) (m : LockManager) : LockManager := set_counter n (set_lock_db d m).

(** Each row extends the table the rows before it built. *)
Lemma load_lock_step m0 n d maxm m k r : lock_inv m0 -> n = entry_key_counter m0 ->
  lm_db m0 !! k = Some r -> d !! k = None -> lock_inv (as_if n d m) ->
  exists maxm' m', load_lock (maxm, m) r = (maxm', m') /\ lock_inv (as_if n (<[k := r]> d) m') /\
    entry_key_counter m' = entry_key_counter m /\ lm_db m' = lm_db m /\ restored_clean m' = restored_clean m /\
    maxm <= maxm' /\ (maxm < n -> maxm' < n) /\ (forall i, minted_entry_counter k = Some i -> i <= maxm').
Proof.
  intros Hi0 Hn Hr Hd Hi. apply (li_db _ Hi0) in Hr as [(l & Hl & ->)|(Hni & o & Ho & ->)].
  - pose proof (li_id _ Hi0 _ _ Hl) as Hid. destruct (li_minted _ Hi0 _ _ Hl) as (i & Hmi & Hrange).
    exists (Z.max maxm i), (insert_in_memory l m). split_and!; try done; try lia.
    + unfold load_lock. change (lrec_other (lock_to_record l)) with (sid_other (lk_stateid l)). rewrite Hid, Hmi.
      change (lrec_type (lock_to_record l)) with (lock_type_code (lk_type l)). rewrite lock_record_round_trip.
      by destruct (lk_type l).
    + change (lock_inv (add_lock l (as_if n d m))) with (lock_inv (set_counter n (set_lock_db
        (<[sid_other (lk_stateid l) := lock_to_record l]> d) (insert_in_memory l m)))).
      assert (Hx : lock_inv (add_lock l (as_if n d m))).
      { apply (add_lock_inv l i); [done| |by rewrite Hid|simpl; lia]. rewrite Hid.
        destruct (lm_locks (as_if n d m) !! k) as [l'|] eqn:E; [|done].
        assert (lm_db (as_if n d m) !! k = Some (lock_to_record l')) as Hx by (apply (li_db _ Hi); eauto).
        simpl in Hx. congruence. }
      rewrite <- Hid. exact Hx.
    + intros j. rewrite Hmi. intros [= <-]. lia.
  - assert (Hnone : minted_entry_counter k = None).
    { destruct (minted_entry_counter k) eqn:E; [|done]. destruct Hni. unfold internal. rewrite E. eauto. }
    exists maxm, (set_owners (<[k := OwnerKey (ok_client o) (ok_owner o) (ok_fh o)]> (stateid_owners m)) m).
    split_and!; try done.
    + unfold load_lock. simpl. by rewrite Hnone.
    + exact (register_spec k (ok_client o) (ok_owner o) (ok_fh o) (as_if n d m) Hi Hni).
    + intros i. by rewrite Hnone.
Qed.

Lemma load_lock_fold m0 n kv : lock_inv m0 -> n = entry_key_counter m0 -> forall d maxm m,
  NoDup kv.*1 -> (forall k r, (k, r) ∈ kv -> lm_db m0 !! k = Some r /\ d !! k = None) ->
  lock_inv (as_if n d m) -> maxm < n ->
  exists maxm' m', foldl load_lock (maxm, m) kv.*2 = (maxm', m') /\
    lock_inv (as_if n (list_to_map kv ∪ d) m') /\ entry_key_counter m' = entry_key_counter m /\ lm_db m' = lm_db m /\
    restored_clean m' = restored_clean m /\ maxm <= maxm' < n /\
    (forall k r i, (k, r) ∈ kv -> minted_entry_counter k = Some i -> i <= maxm').
Proof.
  intros Hi0 Hn. induction kv as [|[k r] kv IH]; intros d maxm m Hnd Hin Hi Hmax; cbn [fmap list_fmap foldl].
  { exists maxm, m. rewrite list_to_map_nil, (left_id_L ∅ (∪)). split_and!; try done. intros ? ? ? ?%elem_of_nil. done. }
  cbn [fmap list_fmap fst] in Hnd. apply NoDup_cons in Hnd as [Hk Hnd].
  destruct (Hin k r) as [Hr Hd]; [by left|].
  destruct (load_lock_step m0 n d maxm m k r Hi0 Hn Hr Hd Hi) as (mx1 & m1 & E1 & E2 & E3 & E4 & E5 & E6 & E7 & E8).
  destruct (IH (<[k := r]> d) mx1 m1 Hnd) as (mx2 & m2 & F1 & F2 & F3 & F4 & F5 & F6 & F7).
  { intros k' r' Hk'. destruct (Hin k' r') as [? ?]; [by right|]. split; [done|].
    rewrite lookup_insert_ne; [done|]. intros <-. apply Hk, list_elem_of_fmap. by exists (k, r'). }
  { done. }
  { auto. }
  exists mx2, m2. cbn [fst snd] in *. rewrite E1. split_and!; [done| |congruence|congruence|congruence|lia|lia|].
  - assert (list_to_map ((k, r) :: kv) ∪ d = list_to_map kv ∪ <[k := r]> d) as ->; [|done].
    rewrite list_to_map_cons. cbn [fst snd]. rewrite <- insert_union_l, <- insert_union_r; [done|].
    by apply not_elem_of_list_to_map_1.
  - intros k' r' i [[= -> ->]|Hk']%elem_of_cons Hm; [specialize (E8 i Hm); lia|by eapply F7].
Qed.

(** The rows determine the table. *)
Lemma db_determines m1 m2 : lock_inv m1 -> lock_inv m2 -> lm_db m1 = lm_db m2 ->
  lm_locks m1 = lm_locks m2 /\ forall k, ~ internal k -> stateid_owners m1 !! k = stateid_owners m2 !! k.
Proof.
  assert (Hl : forall m1 m2 k l, lock_inv m1 -> lock_inv m2 -> lm_db m1 = lm_db m2 ->
    lm_locks m1 !! k = Some l -> lm_locks m2 !! k = Some l).
  { intros a b k l Ha Hb Hd Hk. assert (lm_db a !! k = Some (lock_to_record l)) as Hr by (apply (li_db _ Ha); eauto).
    rewrite Hd in Hr. apply (li_db _ Hb) in Hr as [(l' & Hl' & He)|(_ & o & _ & He)].
    - apply (f_equal lock_from_record) in He. rewrite !lock_record_round_trip in He. congruence.
    - by apply lock_not_registration in He. }
  assert (Ho : forall m1 m2 k o, lock_inv m1 -> lock_inv m2 -> lm_db m1 = lm_db m2 -> ~ internal k ->
    stateid_owners m1 !! k = Some o -> stateid_owners m2 !! k = Some o).
  { intros a b k o Ha Hb Hd Hni Hk.
    assert (lm_db a !! k = Some (registration k (ok_client o) (ok_owner o) (ok_fh o))) as Hr
      by (apply (li_db _ Ha); right; eauto).
    rewrite Hd in Hr. apply (li_db _ Hb) in Hr as [(l' & Hl' & He)|(_ & o' & Ho' & He)].
    - symmetry in He. by apply lock_not_registration in He.
    - destruct o, o'. unfold registration in He. simpl in He. congruence. }
  intros H1 H2 Hd. split.
  - apply map_eq. intros k. apply option_eq. intros l. split; by apply Hl.
  - intros k Hni. apply option_eq. intros o. split; by apply Ho.
Qed.

Lemma restart_locks m kv lost : lock_ok m -> kv ≡ₚ map_to_list (lm_db m) ->
  let m' := bring_up (lm_db m) (Some kv.*2) lost in
  lock_ok m' /\ lm_locks m' = lm_locks m /\ lm_db m' = lm_db m /\ restored_clean m' = negb lost /\
  forall k, ~ internal k -> stateid_owners m' !! k = stateid_owners m !! k.
Proof.
  intros [Hi Hv He] Hkv m'.
  set (m1 := if lost then mark_restore_failed (LockManager_new (lm_db m)) else LockManager_new (lm_db m)).
  assert (Hm1 : entry_key_counter m1 = 1 /\ lm_db m1 = lm_db m /\ restored_clean m1 = negb lost /\
    lock_inv (as_if (entry_key_counter m) ∅ m1)).
  { pose proof (li_counter _ Hi). assert (Hn : lock_inv (as_if (entry_key_counter m) ∅ (LockManager_new (lm_db m)))).
    { split; simpl; try done.
      - intros fh k. split; [by intros ?%elem_of_nil|by intros (? & ? & _)].
      - intros fh. constructor.
      - intros k r. split; [done|]. by intros [(? & ? & _)|(_ & ? & ? & _)]. }
    unfold m1. destruct lost; split_and!; try done. destruct Hn. by split. }
  destruct Hm1 as (M1 & M2 & M3 & M4).
  assert (Hnd : NoDup kv.*1) by (rewrite Hkv; apply NoDup_fst_map_to_list).
  destruct (load_lock_fold m (entry_key_counter m) kv Hi eq_refl ∅ 0 m1 Hnd) as (mx & m2 & F1 & F2 & F3 & F4 & F5 & F6 & F7).
  { intros k r Hk. split; [|done]. rewrite Hkv in Hk. by apply elem_of_map_to_list in Hk. }
  { done. }
  { apply (li_counter _ Hi). }
  assert (Hdb : list_to_map kv ∪ ∅ = lm_db m).
  { rewrite (right_id_L ∅ (∪)), (list_to_map_proper kv (map_to_list (lm_db m)) Hnd Hkv). apply list_to_map_to_list. }
  rewrite Hdb in F2. pose proof (li_counter _ Hi) as Hctr.
  assert (Hm' : exists n, m' = set_counter n m2 /\ mx < n < 2 ^ 64 /\ 0 < n).
  { unfold m', bring_up, load_lock_records. fold m1. rewrite F1, F3, M1.
    destruct (0 <? mx) eqn:H0; bool_Z.
    - exists (Z.max 1 (wrap_u64 (mx + 1))). unfold wrap_u64. rewrite Z.mod_small by lia. split; [done|lia].
    - exists 1. split; [rewrite <- M1, <- F3; by destruct m2|lia]. }
  destruct Hm' as (n & -> & Hn & Hn0).
  assert (Hi2 : lock_inv (set_counter n m2)).
  { split; try apply F2.
    - simpl. lia.
    - intros k l Hl. destruct (li_minted _ F2 k l Hl) as (i & Hmi & Hri). exists i. split; [done|].
      simpl. assert (i <= mx); [|lia].
      assert (lm_db m !! k = Some (lock_to_record l)) as Hr by (apply (li_db _ F2 k); eauto).
      apply (F7 k (lock_to_record l)); [|done]. rewrite Hkv. by apply elem_of_map_to_list.
    - intros k r. simpl. rewrite F4, M2. apply (li_db _ F2). }
  destruct (db_determines (set_counter n m2) m Hi2 Hi) as [Hl Ho]; [simpl; congruence|].
  simpl in Hl. split_and!; [|done|simpl; congruence|simpl; congruence|done].
  split; [done| |].
  - intros k l. simpl. rewrite Hl. apply Hv.
  - intros k1 k2 l1 l2. simpl. rewrite Hl. apply He.
Qed.

(** ** Sequences of handler calls *)
(** A request the model bounds cover: u64 fields, room to mint, and, for the
    requests that carve, a range whose end does not overflow. *)
Definition lock_request (op : LockOp) (fh : bytes) (lm : LockManager) (sm : StateIdManager) : Prop :=
  is_u64 (lo_offset op) /\ is_u64 (lo_length op) /\ (lo_new_owner op = false -> bounded (op_range op)) /\
  sid_room sm /\ trim_room lm fh.

Inductive lock_reach : LockManager -> Prop :=
| lreach_new : lock_reach (LockManager_new ∅)
| lreach_lock op fh c fd ig mx lm sm : lock_reach lm -> lock_request op fh lm sm ->
    lock_reach (handle_lock op (Some fh) (Some c) fd ig mx lm sm).1.2
| lreach_locku op fh c lm sm : lock_reach lm -> bounded (Range (lu_offset op) (lu_length op)) -> trim_room lm fh ->
    lock_reach (handle_locku op (Some fh) (Some c) lm sm).1.2
| lreach_free other lm : lock_reach lm -> lock_reach (release_owner_stateid other lm).2
| lreach_client c lm : lock_reach lm -> lock_reach (remove_client_locks c lm)
| lreach_restart kv lost lm : lock_reach lm -> kv ≡ₚ map_to_list (lm_db lm) ->
    lock_reach (bring_up (lm_db lm) (Some kv.*2) lost).

Lemma new_lock_ok : lock_ok (LockManager_new ∅).
Proof.
  split; [|done|done]. split; simpl; try done.
  - intros fh k. split; [by intros ?%elem_of_nil|by intros (? & ? & _)].
  - intros fh. constructor.
  - intros k r. split; [done|]. by intros [(? & ? & _)|(_ & ? & ? & _)].
Qed.

Lemma lock_reach_ok lm : lock_reach lm -> lock_ok lm.
Proof.
  induction 1 as [|op fh c fd ig mx lm sm _ IH (H1 & H2 & H3 & H4 & H5)|op fh c lm sm _ IH Hb Hr
    |other lm _ IH|c lm _ IH|kv lost lm _ IH Hkv].
  - apply new_lock_ok.
  - destruct (handle_lock op (Some fh) (Some c) fd ig mx lm sm) as [[res lm'] sm'] eqn:E.
    by eapply (handle_lock_spec op fh c lm sm IH H1 H2 H3 H4 H5).
  - destruct (handle_locku op (Some fh) (Some c) lm sm) as [[[st s] lm'] sm'] eqn:E.
    by eapply handle_locku_spec.
  - apply (sub_ok lm); [done|apply release_spec, (lo_inv _ IH)|]. intros k l. by rewrite release_locks.
  - destruct (remove_client_locks_spec c lm (lo_inv _ IH)) as (R1 & _ & R2 & _).
    apply (sub_ok lm); [done|done|]. intros k l [? _]%R2. done.
  - by apply restart_locks.
Qed.
