(* ===== verification/StateidClaims.v ===== *)
(** What the stateid table and the byte-range locks guarantee: stateids are
    never reissued, indices agree with the tables, share reservations and
    write opens are found exactly, CLOSE answers what it did, locks exclude
    each other byte for byte, and a restart brings all of it back. *)

From S2P Require Import Prelude Xdr Stateid StateidInv StateidProps StateidRestart Locks LocksInv LocksProps.

(** ** A worked history *)
Definition demo_ops : list sid_op :=
  [OpSetTag 7; OpRecordOpen 1 [65] [1; 1] 1 0 None (Some (8, 100)); OpRecordOpen 2 [66] [1; 1] 2 1 None (Some (8, 100));
   OpAllocate TyLock 1 (Some [1; 1]); OpAllocateDelegation 5 2 [1; 1]; OpRecordOpen 1 [65] [1; 1] 2 0 None None].
Definition demo_sids (ops : list sid_op) : StateIdManager := foldl (fun m op => sid_exec op m) StateIdManager_new ops.

Definition sid_allowedb (op : sid_op) (m : StateIdManager) : bool :=
  let room := (next_stateid m <? 2 ^ 64 - 1) && (negb (bool_decide (is_Some (stateid_tag m))) || (next_stateid m <? 2 ^ 32)) in
  match op with
  | OpSetTag tag => (0 <=? tag) && (tag <=? u32_max)
  | OpAllocate ty _ _ => negb (bool_decide (ty = TyDelegation)) && room
  | OpAllocateDelegation ep _ _ => (0 <=? ep) && (ep <=? u32_max) && room
  | OpRecordOpen _ _ _ _ _ _ _ => room
  | OpUpdateSeqid s => match states m !! sid_other s with
                       | Some e => negb (bool_decide (en_type e = TyOpen))
                       | None => true
                       end
  | _ => true
  end.

Lemma room_spec m : (next_stateid m <? 2 ^ 64 - 1) &&
  (negb (bool_decide (is_Some (stateid_tag m))) || (next_stateid m <? 2 ^ 32)) = true -> can_mint m.
Proof.
  intros [H1 H2]%andb_prop. split; [lia|]. intros Ht. rewrite bool_decide_eq_true_2 in H2 by done. simpl in H2. lia.
Qed.

Lemma sid_allowedb_spec op m : sid_allowedb op m = true -> sid_allowed op m.
Proof.
  destruct op; simpl; try done.
  - unfold is_u32. intros ?%andb_prop. lia.
  - intros [H1 H2]%andb_prop. split; [|by apply room_spec]. by apply negb_true_iff, bool_decide_eq_false in H1.
  - intros [H1 H2]%andb_prop. apply andb_prop in H1. split; [unfold is_u32; lia|by apply room_spec].
  - apply room_spec.
  - intros H e He. rewrite He in H. by apply negb_true_iff, bool_decide_eq_false in H.
Qed.

Fixpoint all_allowed (ops : list sid_op) (m : StateIdManager) : bool :=
  match ops with [] => true | op :: rest => sid_allowedb op m && all_allowed rest (sid_exec op m) end.

Lemma all_allowed_reach ops : forall m, sid_reach m -> all_allowed ops m = true ->
  sid_reach (foldl (fun m op => sid_exec op m) m ops).
Proof.
  induction ops as [|op ops IH]; simpl; intros m Hm; [done|]. intros [H1 H2]%andb_prop.
  apply IH; [|done]. constructor; [done|by apply sid_allowedb_spec].
Qed.

Lemma demo_reach : sid_reach (demo_sids demo_ops).
Proof. apply all_allowed_reach; [constructor|vm_compute; reflexivity]. Qed.

(** ** Stateids *)



(** The condition on [update_seqid] is needed: after it, the entry of an open
    and the open itself no longer carry the same sequence id. *)
Lemma update_seqid_splits_open :
  let m := demo_sids [OpRecordOpen 1 [65] [1] 3 0 None None] in
  let m' := sid_exec (OpUpdateSeqid (Sid 1 (2 ^ 32 + 1))) m in
  en_seqid <$> states m' !! (2 ^ 32 + 1) = Some 2 /\ os_seqid <$> open_states m' !! (1, [65], [1]) = Some 1.
Proof. vm_compute. done. Qed.

(** A stateid is never reissued.  Once an id has been handed out, no
    later OPEN or LOCK, and no later delegation grant, is given it, whatever
    was closed, revoked or removed in between. *)
Theorem stateid_never_reissued m m' o e :
  sid_reach m -> states m !! o = Some e -> sid_steps m m' -> can_mint m' ->
  (forall ty c fh, sid_other (allocate ty c fh m').1 <> o) /\
  (forall epoch c fh, is_u32 epoch -> sid_other (allocate_delegation epoch c fh m').1 <> o).
Proof.
  intros Hr He Hst Hmint.
  pose proof (proj1 (reach_inv _ (steps_reach _ _ Hr Hst))) as Hc'.
  pose proof (steps_minted _ _ o Hr Hst (sc_minted _ _ (proj1 (reach_inv _ Hr)) _ _ He)) as Hmi.
  split.
  - intros ty c fh Heq. apply (plain_fresh m' o Hc' Hmint); [|done]. rewrite <- Heq. simpl.
    by apply counter_of, low_range.
  - intros epoch c fh Hep Heq. destruct (delegation_fresh epoch c fh m' Hep Hc' Hmint) as [Hf _].
    by rewrite Heq in Hf.
Qed.

Definition demo_first : Z := 1 * 2 ^ 32 + 7.

Lemma stateid_never_reissued_witness :
  let m' := sid_exec (OpRemoveClient 1) (demo_sids demo_ops) in
  sid_other (allocate TyOpen 9 None m').1 <> demo_first /\
  sid_other (allocate_delegation 12 9 [1] m').1 <> demo_first.
Proof.
  destruct (states (demo_sids demo_ops) !! demo_first) as [e|] eqn:He; [|vm_compute in He; discriminate He].
  destruct (stateid_never_reissued (demo_sids demo_ops) (sid_exec (OpRemoveClient 1) (demo_sids demo_ops)) demo_first e)
    as [H1 H2]; [apply demo_reach|done| | |split; [apply H1|apply H2; vm_compute; split; congruence]].
  - constructor; [constructor|exact I].
  - split; [vm_compute; reflexivity|]. intros _. vm_compute. reflexivity.
Defined.

(** Restart.  Loading the persisted rows, in whatever order the backend
    lists them, rebuilds a well-formed table with exactly the entries the
    running one had (revoked ones included), delegations apart; the
    open-owner table has exactly the opens whose stateid was alive, with their
    masks and sequence ids (the exclusive-create verifier is not kept); and
    the next id is above every restored one. *)
Theorem stateid_restart m kv mk m' :
  sid_reach m -> kv ≡ₚ map_to_list (sm_db m) ->
  load_records kv.*2 (restarted (sm_db m)) = (mk, m') ->
  sid_core m' /\
  (forall o e, states m' !! o = Some e <-> states m !! o = Some e /\ en_type e <> TyDelegation) /\
  (forall k st', opened m' k st' <->
    exists st, opened m k st /\ master_alive m (os_other st) = true /\ st' = forget st) /\
  (forall o e, states m' !! o = Some e -> 0 <= o / 2 ^ 32 < next_stateid m' /\ next_stateid m' <= next_stateid m).
Proof.
  intros Hr Hkv Hl.
  destruct (restart_spec m (reach_inv m Hr) kv Hkv mk m' (reach_bound m Hr) Hl) as (Hc & Hn & Hs & Ho).
  split_and!; [done|done|done|]. intros o e He.
  assert (Ht : en_type e <> TyDelegation) by (by apply Hs in He as [_ ?]).
  pose proof (sc_plain _ _ Hc _ _ He Ht). lia.
Qed.

Definition demo_kv : list (Z * StateIdRecord) := reverse (map_to_list (sm_db (demo_sids demo_ops))).
Definition demo_restarted : StateIdManager := (load_records demo_kv.*2 (restarted (sm_db (demo_sids demo_ops)))).2.

Lemma stateid_restart_witness :
  states demo_restarted !! demo_first = states (demo_sids demo_ops) !! demo_first /\
  forall o e, states demo_restarted !! o = Some e ->
    0 <= o / 2 ^ 32 < next_stateid demo_restarted /\ next_stateid demo_restarted <= next_stateid (demo_sids demo_ops).
Proof.
  destruct (stateid_restart (demo_sids demo_ops) demo_kv
    (load_records demo_kv.*2 (restarted (sm_db (demo_sids demo_ops)))).1 demo_restarted) as (_ & _ & _ & Hn).
  - apply demo_reach.
  - apply reverse_Permutation.
  - apply surjective_pairing.
  - split; [vm_compute; reflexivity|exact Hn].
Defined.

(** CLOSE answers what it did.  [Closed] means the stateid named a live
    open with the current (or a zero) sequence id and that open, its entry
    and its cached descriptor are gone; any other answer leaves every entry,
    every open and every descriptor as they were, and there was no such
    open. *)
Theorem close_answers m s : sid_reach m ->
  match close_open s m with
  | (Closed, m') => exists k st, close_names m s k st /\ open_states m' = delete k (open_states m) /\
      states m' = delete (sid_other s) (states m) /\
      (is_Some (states m !! sid_other s) -> fd_released m' = fd_released m ++ [sid_other s])
  | (_, m') => shown m' = shown m /\ forall k st, ~ close_names m s k st
  end.
Proof. intros Hr. apply close_open_spec, (reach_inv m Hr). Qed.

Lemma close_answers_witness :
  (close_open (Sid 1 demo_first) (demo_sids demo_ops)).1 = OldStateId /\
  (exists k st, close_names (demo_sids demo_ops) (Sid 2 demo_first) k st) /\
  (forall k st, ~ close_names (demo_sids demo_ops) (Sid 1 demo_first) k st).
Proof.
  pose proof (close_answers (demo_sids demo_ops) (Sid 1 demo_first) demo_reach) as H1.
  pose proof (close_answers (demo_sids demo_ops) (Sid 2 demo_first) demo_reach) as H2.
  destruct (close_open (Sid 1 demo_first) (demo_sids demo_ops)) as [r1 m1] eqn:E1.
  destruct (close_open (Sid 2 demo_first) (demo_sids demo_ops)) as [r2 m2] eqn:E2.
  assert (r1 = OldStateId) as -> by (change r1 with ((r1, m1).1); rewrite <- E1; vm_compute; reflexivity).
  assert (r2 = Closed) as -> by (change r2 with ((r2, m2).1); rewrite <- E2; vm_compute; reflexivity).
  destruct H2 as (k & st & H2 & _). split_and!; [done|by exists k, st|apply H1].
Defined.

(** The indexed scans answer what a scan of the whole open table would:
    an OPEN conflicts iff some other owner's open of the file denies the
    access asked for or has the access denied; a file has a write open iff
    some open of a filehandle with that inode identity has write access. *)
Theorem conflict_scans m : sid_reach m ->
  (forall fh client owner access deny, share_conflict m fh client owner access deny = true <->
    exists c ow st, (c, ow) <> (client, owner) /\ opened m (c, ow, fh) st /\ masks_conflict st access deny = true) /\
  (forall dev ino, file_has_write_open m dev ino = true <->
    exists c ow fh st, idents_by_fh m !! fh = Some (dev, ino) /\ opened m (c, ow, fh) st /\
      Z.land (os_access st) 2 <> 0).
Proof.
  intros Hr. pose proof (reach_inv m Hr) as Hi. split; intros.
  - apply share_conflict_scan, Hi.
  - by apply write_open_scan.
Qed.

Lemma conflict_scans_witness :
  (exists c ow st, (c, ow) <> (3, [67]) /\ opened (demo_sids demo_ops) (c, ow, [1; 1]) st /\ masks_conflict st 1 0 = true) /\
  (exists c ow fh st, idents_by_fh (demo_sids demo_ops) !! fh = Some (8, 100) /\
    opened (demo_sids demo_ops) (c, ow, fh) st /\ Z.land (os_access st) 2 <> 0).
Proof.
  destruct (conflict_scans (demo_sids demo_ops) demo_reach) as [Hs Hw]. split.
  - apply Hs. vm_compute. reflexivity.
  - apply Hw. vm_compute. reflexivity.
Defined.

(** ** Byte-range locks *)


(** Client 1 opens a file and locks bytes 10..20 for writing, client 2
    reads 30..40. *)
Definition lock_sids : StateIdManager :=
  demo_sids [OpRecordOpen 1 [65] [1] 3 0 None None; OpRecordOpen 2 [66] [1] 3 0 None None].
Definition open1 : StateId := Sid 1 (1 * 2 ^ 32 + 1).
Definition open2 : StateId := Sid 1 (2 * 2 ^ 32 + 2).
Definition write_op (sid : StateId) (ow : bytes) (o n : Z) : LockOp := MkLockOp LkWrite false o n sid ow true.

Definition lock_step (op : LockOp) (c : Z) (st : LockManager * StateIdManager) : LockManager * StateIdManager :=
  let '(_, lm, sm) := handle_lock op (Some [1]) (Some c) false false 64 st.1 st.2 in (lm, sm).
Definition demo_locks : LockManager * StateIdManager :=
  lock_step (write_op open1 [65] 10 10) 1 (LockManager_new ∅, lock_sids).

Lemma lock_step_reach op c st : lock_reach st.1 -> lock_request op [1] st.1 st.2 -> lock_reach (lock_step op c st).1.
Proof.
  intros Hr Hq. unfold lock_step.
  pose proof (lreach_lock op [1] c false false 64 st.1 st.2 Hr Hq) as H.
  by destruct (handle_lock _ _ _ _ _ _ _ _) as [[? ?] ?].
Qed.

Definition new_owner_request (op : LockOp) (fh : bytes) (lm : LockManager) (sm : StateIdManager) : bool :=
  (0 <=? lo_offset op) && (lo_offset op <=? u64_max) && (0 <=? lo_length op) && (lo_length op <=? u64_max) &&
  lo_new_owner op && (0 <=? next_stateid sm) && (next_stateid sm <? ENTRY_PREFIX * 2 ^ 32) &&
  bool_decide (stateid_tag sm = None) &&
  (entry_key_counter lm + (2 * Z.of_nat (length (index lm fh)) + 1) <? 2 ^ 64).

Lemma new_owner_request_spec op fh lm sm : new_owner_request op fh lm sm = true -> lock_request op fh lm sm.
Proof.
  unfold new_owner_request. rewrite !andb_true_iff, bool_decide_eq_true, !Z.leb_le, !Z.ltb_lt.
  intros [[[[[[[[? ?] ?] ?] Hn] ?] ?] Ht] ?]. unfold lock_request, is_u64, sid_room, trim_room, key_room.
  rewrite Hn, Ht. by split_and!.
Qed.



Lemma demo_locks_reach : lock_reach demo_locks.1.
Proof. apply lock_step_reach; [constructor|]. apply new_owner_request_spec. vm_compute. reflexivity. Qed.


(** C17: exclusion.  After any sequence of LOCK, LOCKU, FREE_STATEID, client
    removals and restarts that read the lock rows back, in which no LOCK of an existing owner and no LOCKU
    has a range whose end overflows (the only such valid range reaches from a
    positive offset to the end of the file; there the code gives away foreign
    bytes, see [trim_eof_locks_foreign_bytes]), and the counters have room,
    two different owners never hold a byte of one file in conflicting modes,
    whatever clients they belong to. *)
Theorem locks_exclusive lm fh c1 ow1 t1 c2 ow2 t2 b :
  lock_reach lm -> holds lm fh c1 ow1 t1 b -> holds lm fh c2 ow2 t2 b -> (c1, ow1) <> (c2, ow2) ->
  t1 = LkRead /\ t2 = LkRead.
Proof.
  intros Hr (k1 & l1 & Hk1 & Hf1 & <- & <- & <- & Hb1) (k2 & l2 & Hk2 & Hf2 & <- & <- & <- & Hb2) Hne.
  pose proof (lo_excl _ (lock_reach_ok lm Hr) k1 k2 l1 l2 Hk1 Hk2 ltac:(congruence) Hne) as Hx.
  unfold conflicts_with, overlaps in Hx. unfold covers in *.
  rewrite (proj2 (Z.ltb_lt (lr_offset (lk_range l1)) _)), (proj2 (Z.ltb_lt (lr_offset (lk_range l2)) _)) in Hx by lia.
  simpl in Hx. destruct (bool_decide _) eqn:H1 in Hx; [|done]. destruct (bool_decide (lk_type l2 = _)) eqn:H2 in Hx; [|done].
  by rewrite bool_decide_eq_true in H1, H2.
Qed.

Definition shared_locks : LockManager * StateIdManager :=
  lock_step (MkLockOp LkRead false 30 5 open2 [66] true) 2
    (lock_step (MkLockOp LkRead false 30 10 open1 [65] true) 1 demo_locks).

Lemma shared_locks_reach : lock_reach shared_locks.1.
Proof.
  apply lock_step_reach; [apply lock_step_reach; [apply demo_locks_reach|]|]; apply new_owner_request_spec;
    vm_compute; reflexivity.
Qed.

Definition held_at (m : LockManager) (fh : bytes) (b : Z) : list (Z * bytes * LockType) :=
  omap (fun '(_, l) => if bool_decide (lk_fh l = fh) && (lr_offset (lk_range l) <=? b) && (b <? range_end (lk_range l))
                       then Some (lk_client l, lk_owner l, lk_type l) else None) (map_to_list (lm_locks m)).

Lemma held_at_spec m fh b c ow t : (c, ow, t) ∈ held_at m fh b <-> holds m fh c ow t b.
Proof.
  unfold held_at, holds, covers. rewrite list_elem_of_omap. split.
  - intros ([k l] & Hk%elem_of_map_to_list & Hs). destruct (_ && _) eqn:Hc; [|done]. injection Hs as <- <- <-.
    rewrite !andb_true_iff, bool_decide_eq_true, Z.leb_le, Z.ltb_lt in Hc. exists k, l. by destruct Hc as [[? ?] ?].
  - intros (k & l & Hk & Hf & <- & <- & <- & Hb). exists (k, l). split; [by apply elem_of_map_to_list|].
    rewrite bool_decide_eq_true_2, (proj2 (Z.leb_le _ _)), (proj2 (Z.ltb_lt _ _)); by destruct Hb.
Qed.

Lemma locks_exclusive_witness :
  (holds shared_locks.1 [1] 1 [65] LkRead 32 /\ holds shared_locks.1 [1] 2 [66] LkRead 32) /\
  (LkRead = LkRead /\ LkRead = LkRead).
Proof.
  assert (H1 : holds shared_locks.1 [1] 1 [65] LkRead 32).
  { apply held_at_spec, (bool_decide_unpack _). by vm_compute. }
  assert (H2 : holds shared_locks.1 [1] 2 [66] LkRead 32).
  { apply held_at_spec, (bool_decide_unpack _). by vm_compute. }
  split; [done|]. apply (locks_exclusive shared_locks.1 [1] 1 [65] LkRead 2 [66] LkRead 32);
    [apply shared_locks_reach|done|done|congruence].
Defined.

(** Restart.  The rows the handlers leave behind, listed in any order,
    rebuild exactly the lock table they came from and the owner of every
    stateid a client holds, and the rebuilt table satisfies the same
    invariants; after a state loss it refuses new locks during grace. *)
Theorem lock_restart m kv lost : lock_reach m -> kv ≡ₚ map_to_list (lm_db m) ->
  let m' := bring_up (lm_db m) (Some kv.*2) lost in
  lock_ok m' /\ lm_locks m' = lm_locks m /\ lm_db m' = lm_db m /\ restored_clean m' = negb lost /\
  forall k, ~ internal k -> stateid_owners m' !! k = stateid_owners m !! k.
Proof. intros Hr Hkv. by apply restart_locks; [apply lock_reach_ok|]. Qed.

Lemma lock_restart_witness :
  lm_locks (bring_up (lm_db shared_locks.1) (Some (reverse (map_to_list (lm_db shared_locks.1))).*2) true) =
    lm_locks shared_locks.1.
Proof.
  destruct (lock_restart shared_locks.1 (reverse (map_to_list (lm_db shared_locks.1))) true) as (_ & H & _);
    [apply shared_locks_reach|apply reverse_Permutation|exact H].
Defined.

(** Client 1 holds 10..20, client 2 holds 5..10; client 1 unlocks from 10 to
    end of file. *)
Definition neighbours : LockManager * StateIdManager := lock_step (write_op open2 [66] 5 5) 2 demo_locks.
Definition eof_unlock : Nfs4Status * option StateId * LockManager * StateIdManager :=
  handle_locku (MkLockUOp (Sid 1 (3 * 2 ^ 32 + 1)) 10 TO_EOF) (Some [1]) (Some 1) neighbours.1 neighbours.2.

(** Unlocking to end of file does not unlock.  The carve computes the end
    of the cut as offset + length, which wraps when the length is the
    to-end-of-file value: LOCKU of 10..EOF is answered OK and leaves the
    owner holding its old bytes 10..20 and the byte before them, which
    another client holds exclusively. *)
Theorem trim_eof_locks_foreign_bytes :
  lock_reach neighbours.1 /\ eof_unlock.1.1.1 = NFS_Ok /\
  (forall b, 10 <= b < 20 -> holds eof_unlock.1.2 [1] 1 [65] LkWrite b) /\
  holds eof_unlock.1.2 [1] 1 [65] LkWrite 9 /\ holds eof_unlock.1.2 [1] 2 [66] LkWrite 9.
Proof.
  assert (H : forall b, 9 <= b < 20 -> holds eof_unlock.1.2 [1] 1 [65] LkWrite b).
  { intros b Hb. assert (H9 : (1, [65], LkWrite) ∈ omap (fun '(_, l) =>
      if bool_decide (lk_fh l = [1]) && (lr_offset (lk_range l) <=? 9) && (20 =? range_end (lk_range l))
      then Some (lk_client l, lk_owner l, lk_type l) else None) (map_to_list (lm_locks eof_unlock.1.2))).
    { apply (bool_decide_unpack _). by vm_compute. }
    apply list_elem_of_omap in H9 as ([k l] & Hk%elem_of_map_to_list & Hs).
    destruct (_ && _) eqn:Hc; [|done]. injection Hs as Hcl Hw Ht.
    rewrite !andb_true_iff, bool_decide_eq_true, Z.leb_le, Z.eqb_eq in Hc.
    exists k, l. split; [exact Hk|]. split; [apply Hc|]. split; [exact Hcl|]. split; [exact Hw|]. split; [exact Ht|]. unfold covers. lia. }
  split_and!.
  - apply lock_step_reach; [apply demo_locks_reach|]. apply new_owner_request_spec. vm_compute. reflexivity.
  - vm_compute. reflexivity.
  - intros b Hb. apply H. lia.
  - apply H. lia.
  - apply held_at_spec, (bool_decide_unpack _). by vm_compute.
Qed.
