(* ===== verification/Clients.v ===== *)
(** NFSv4 clients (nfs/v4/state/client.rs): EXCHANGE_ID's record state
    machine, confirmation with its deferred cleanup, CREATE_SESSION
    sequencing, removal, and the persisted records.

    [cm_db] is the backend's client table after the FIFO persist queue.  The
    random clientids are a list of draws; the lease manager shared with the
    clients is passed along. *)

From S2P Require Import Prelude Xdr Lease.

Definition UPD_CONFIRMED_REC_A : Z := 1073741824.

(** The fields of a CREATE_SESSION reply; the persisted record has the same
    ones. *)
Record CachedCreateSessionRes := CachedRes {
  ccs_sessionid : Z; ccs_sequence : Z; ccs_flags : Z;
  ccs_fore : Z * Z * Z * Z * Z; ccs_back : Z * Z * Z * Z * Z }.

Inductive ExchangeIdOutcome :=
| NewUnconfirmed (client_id sequence_id : Z)
| ClientCollision (incumbent : Z)
| ExistingConfirmed (client_id sequence_id : Z)
| NoEnt | NotSame | Perm.

Record Client := MkClient {
  cl_id : Z; cl_owner : bytes; cl_verifier : Z; cl_server_owner : string; cl_server_scope : bytes;
  cl_sequence : Z; cl_flags : Z; cl_principal : bytes; cl_confirmed : bool;
  cl_last_cs : option Z; cl_cached_reply : option bytes; cl_cached_res : option CachedCreateSessionRes;
  cl_initial_cs : Z; cl_reclaim_complete : bool; cl_mach_cred : bool; cl_pending : option Z }.

Record ClientRecord := MkClientRecord {
  cr_id : Z; cr_owner : bytes; cr_verifier : Z; cr_server_owner : string; cr_server_scope : bytes;
  cr_sequence : Z; cr_flags : Z; cr_principal : bytes; cr_confirmed : bool;
  cr_last_cs : option Z; cr_cached_res : option CachedCreateSessionRes;
  cr_initial_cs : Z; cr_reclaim_complete : bool; cr_mach_cred : bool }.

Inductive ReclaimCompleteOutcome := RcSet | AlreadyComplete | NoSuchClient.
Inductive CreateSessionSeq := CsExecute | CsReplay (r : CachedCreateSessionRes) | CsMisordered | CsStaleClientId.

Record ClientManager := ClientMgr {
  clients : gmap Z Client;
  owner_to_id : gmap bytes Z;
  server_owner : string;
  server_scope : bytes;
  cm_db : gmap Z ClientRecord }.

Definition ClientManager_new (owner : string) (scope : bytes) (db : gmap Z ClientRecord) : ClientManager :=
  ClientMgr ∅ ∅ owner scope db.

Definition set_clients x m := ClientMgr x (owner_to_id m) (server_owner m) (server_scope m) (cm_db m).
Definition set_owner_ids x m := ClientMgr (clients m) x (server_owner m) (server_scope m) (cm_db m).
Definition set_client_db x m := ClientMgr (clients m) (owner_to_id m) (server_owner m) (server_scope m) x.

(** ** Records *)
Definition next_cs_sequence (c : Client) : Z :=
  match cl_last_cs c with None => cl_initial_cs c | Some last => wrap_u32 (last + 1) end.

Definition Client_new (id : Z) (owner : bytes) (verifier : Z) (so : string) (ss : bytes) (flags : Z)
    (principal : bytes) : Client :=
  MkClient id owner verifier so ss 0 flags principal false None None None 0 false false None.

Definition client_to_record (c : Client) : ClientRecord :=
  MkClientRecord (cl_id c) (cl_owner c) (cl_verifier c) (cl_server_owner c) (cl_server_scope c) (cl_sequence c)
    (cl_flags c) (cl_principal c) (cl_confirmed c) (cl_last_cs c) (cl_cached_res c) (cl_initial_cs c)
    (cl_reclaim_complete c) (cl_mach_cred c).
Definition client_from_record (r : ClientRecord) : Client :=
  MkClient (cr_id r) (cr_owner r) (cr_verifier r) (cr_server_owner r) (cr_server_scope r) (cr_sequence r)
    (cr_flags r) (cr_principal r) (cr_confirmed r) (cr_last_cs r) None (cr_cached_res r) (cr_initial_cs r)
    (cr_reclaim_complete r) (cr_mach_cred r) None.

Definition with_sequence q c := MkClient (cl_id c) (cl_owner c) (cl_verifier c) (cl_server_owner c) (cl_server_scope c) q
  (cl_flags c) (cl_principal c) (cl_confirmed c) (cl_last_cs c) (cl_cached_reply c) (cl_cached_res c) (cl_initial_cs c)
  (cl_reclaim_complete c) (cl_mach_cred c) (cl_pending c).
Definition with_confirmed c := MkClient (cl_id c) (cl_owner c) (cl_verifier c) (cl_server_owner c) (cl_server_scope c) (cl_sequence c)
  (cl_flags c) (cl_principal c) true (cl_last_cs c) (cl_cached_reply c) (cl_cached_res c) (cl_initial_cs c)
  (cl_reclaim_complete c) (cl_mach_cred c) None.
Definition with_cs q r c := MkClient (cl_id c) (cl_owner c) (cl_verifier c) (cl_server_owner c) (cl_server_scope c) (cl_sequence c)
  (cl_flags c) (cl_principal c) (cl_confirmed c) (Some q) (cl_cached_reply c) (Some r) (cl_initial_cs c)
  (cl_reclaim_complete c) (cl_mach_cred c) (cl_pending c).
Definition with_initial q c := MkClient (cl_id c) (cl_owner c) (cl_verifier c) (cl_server_owner c) (cl_server_scope c) (cl_sequence c)
  (cl_flags c) (cl_principal c) (cl_confirmed c) (cl_last_cs c) (cl_cached_reply c) (cl_cached_res c) q
  (cl_reclaim_complete c) (cl_mach_cred c) (cl_pending c).
Definition with_reclaim_complete c := MkClient (cl_id c) (cl_owner c) (cl_verifier c) (cl_server_owner c) (cl_server_scope c) (cl_sequence c)
  (cl_flags c) (cl_principal c) (cl_confirmed c) (cl_last_cs c) (cl_cached_reply c) (cl_cached_res c) (cl_initial_cs c)
  true (cl_mach_cred c) (cl_pending c).
Definition with_mach_cred b c := MkClient (cl_id c) (cl_owner c) (cl_verifier c) (cl_server_owner c) (cl_server_scope c) (cl_sequence c)
  (cl_flags c) (cl_principal c) (cl_confirmed c) (cl_last_cs c) (cl_cached_reply c) (cl_cached_res c) (cl_initial_cs c)
  (cl_reclaim_complete c) b (cl_pending c).
Definition with_pending p c := MkClient (cl_id c) (cl_owner c) (cl_verifier c) (cl_server_owner c) (cl_server_scope c) (cl_sequence c)
  (cl_flags c) (cl_principal c) (cl_confirmed c) (cl_last_cs c) (cl_cached_reply c) (cl_cached_res c) (cl_initial_cs c)
  (cl_reclaim_complete c) (cl_mach_cred c) (Some p).

Definition persist_client (c : Client) (m : ClientManager) : ClientManager :=
  set_client_db (<[cl_id c := client_to_record c]> (cm_db m)) m.
Definition persist_client_delete (id : Z) (m : ClientManager) : ClientManager :=
  set_client_db (delete id (cm_db m)) m.

(** Replace the record of a client ([get_mut]) and persist the snapshot. *)
Definition put_client (id : Z) (c : Client) (m : ClientManager) : ClientManager :=
  persist_client c (set_clients (<[id := c]> (clients m)) m).

(** ** Allocation and removal *)
Fixpoint draw_client_id (t : gmap Z Client) (draws : list Z) : option Z :=
  match draws with
  | [] => None
  | id :: draws => if negb (id =? 0) && bool_decide (t !! id = None) then Some id else draw_client_id t draws
  end.

Section clients.
Context (L : Z).

(** [None]: the given draws hold no free id. *)
Definition allocate_client (draws : list Z) (now : Z) (owner : bytes) (verifier flags : Z) (principal : bytes)
    (m : ClientManager) (lm : LeaseManager) : option (ExchangeIdOutcome * ClientManager * LeaseManager) :=
  id ← draw_client_id (clients m) draws;
  let c := with_initial 1 (Client_new id owner verifier (server_owner m) (server_scope m) flags principal) in
  let m1 := set_clients (<[id := c]> (clients m)) (persist_client c m) in
  let m2 := set_owner_ids (<[owner := id]> (owner_to_id m1)) m1 in
  Some (NewUnconfirmed id 1, m2, create_lease L lm id now).

(** [allocate_after_collision] is [allocate_client]. *)
Definition remove_if_owner (owner : bytes) (id : Z) (t : gmap bytes Z) : gmap bytes Z :=
  if bool_decide (t !! owner = Some id) then delete owner t else t.

(** [remove_client] and [remove_client_internal] have the same effect. *)
Definition remove_client (id : Z) (m : ClientManager) (lm : LeaseManager) : ClientManager * LeaseManager :=
  match clients m !! id with
  | Some c =>
      (persist_client_delete id
         (set_owner_ids (remove_if_owner (cl_owner c) id (owner_to_id m))
            (set_clients (delete id (clients m)) m)), remove_lease lm id)
  | None => (m, lm)
  end.

(** Put the cleanup obligation on the record just allocated. *)
Definition set_pending (out : ExchangeIdOutcome) (prev : Z) (m : ClientManager) : ClientManager :=
  match out with
  | NewUnconfirmed id _ =>
      match clients m !! id with Some c => put_client id (with_pending prev c) m | None => m end
  | _ => m
  end.

Definition replace_when_confirmed (draws : list Z) (now : Z) (owner : bytes) (verifier flags : Z) (principal : bytes)
    (incumbent : Z) (m : ClientManager) (lm : LeaseManager) :
    option (ExchangeIdOutcome * ClientManager * LeaseManager) :=
  '(out, m1, lm1) ← allocate_client draws now owner verifier flags principal m lm;
  Some (out, set_pending out incumbent m1, lm1).

(** ** EXCHANGE_ID *)
Definition client_count (m : ClientManager) : nat := size (clients m).
Definition owner_known (m : ClientManager) (owner : bytes) : bool := bool_decide (is_Some (owner_to_id m !! owner)).
Definition id_of_owner (m : ClientManager) (owner : bytes) : option Z := owner_to_id m !! owner.

Definition existing_client (m : ClientManager) (owner : bytes) : option Client :=
  id ← owner_to_id m !! owner; clients m !! id.

Definition exchange_id (draws : list Z) (now : Z) (owner : bytes) (verifier flags : Z) (principal : bytes)
    (m : ClientManager) (lm : LeaseManager) : option (ExchangeIdOutcome * ClientManager * LeaseManager) :=
  let upd := negb (Z.land flags UPD_CONFIRMED_REC_A =? 0) in
  match upd, existing_client m owner with
  | true, None => Some (NoEnt, m, lm)
  | true, Some c =>
      if negb (cl_confirmed c) then Some (NoEnt, m, lm)
      else if negb (cl_verifier c =? verifier) then Some (NotSame, m, lm)
      else if bool_decide (cl_principal c = principal)
           then Some (ExistingConfirmed (cl_id c) (next_cs_sequence c), m, lm)
           else Some (Perm, m, lm)
  | false, None => allocate_client draws now owner verifier flags principal m lm
  | false, Some c =>
      if negb (cl_confirmed c) then
        let '(m1, lm1) := remove_client (cl_id c) m lm in
        '(out, m2, lm2) ← allocate_client draws now owner verifier flags principal m1 lm1;
        Some (out, match cl_pending c with Some prev => set_pending out prev m2 | None => m2 end, lm2)
      else if negb (bool_decide (cl_principal c = principal)) then Some (ClientCollision (cl_id c), m, lm)
      else if cl_verifier c =? verifier
           then Some (ExistingConfirmed (cl_id c) (next_cs_sequence c), m, lm)
           else replace_when_confirmed draws now owner verifier flags principal (cl_id c) m lm
  end.

(** ** Other operations *)
Definition mark_reclaim_complete (id : Z) (m : ClientManager) : ReclaimCompleteOutcome * ClientManager :=
  match clients m !! id with
  | Some c => if cl_reclaim_complete c then (AlreadyComplete, m)
              else (RcSet, put_client id (with_reclaim_complete c) m)
  | None => (NoSuchClient, m)
  end.
Definition set_mach_cred (id : Z) (on : bool) (m : ClientManager) : ClientManager :=
  match clients m !! id with
  | Some c => if Bool.eqb (cl_mach_cred c) on then m else put_client id (with_mach_cred on c) m
  | None => m
  end.
Definition mach_cred_principal (m : ClientManager) (id : Z) : option bytes :=
  c ← clients m !! id; if cl_mach_cred c then Some (cl_principal c) else None.
Definition is_reclaim_complete (m : ClientManager) (id : Z) : bool :=
  default false (cl_reclaim_complete <$> clients m !! id).

(** The clientid to clean up, when the confirmed record replaces one. *)
Definition mark_confirmed (id : Z) (m : ClientManager) : option Z * ClientManager :=
  match clients m !! id with
  | Some c => if cl_confirmed c then (None, m) else (cl_pending c, put_client id (with_confirmed c) m)
  | None => (None, m)
  end.

Definition get_client (m : ClientManager) (id : Z) : option Client := clients m !! id.
Definition update_sequence (id : Z) (m : ClientManager) : result unit (Z * ClientManager) :=
  match clients m !! id with
  | Some c => let q := wrap_u32 (cl_sequence c + 1) in Ok (q, put_client id (with_sequence q c) m)
  | None => Err tt
  end.
Definition get_principal (m : ClientManager) (id : Z) : option bytes := cl_principal <$> clients m !! id.

(** ** CREATE_SESSION sequencing *)
Definition process_create_session_seq (m : ClientManager) (id csa : Z) : CreateSessionSeq :=
  match clients m !! id with
  | None => CsStaleClientId
  | Some c =>
      match cl_last_cs c with
      | None => if csa =? cl_initial_cs c then CsExecute else CsMisordered
      | Some last =>
          if csa =? last
          then match cl_cached_res c with Some r => CsReplay r | None => CsMisordered end
          else if csa =? wrap_u32 (last + 1) then CsExecute else CsMisordered
      end
  end.

Definition record_create_session_reply (id csa : Z) (r : CachedCreateSessionRes) (m : ClientManager) : ClientManager :=
  match clients m !! id with
  | Some c => put_client id (with_cs csa r c) m
  | None => m
  end.

(** ** Restart *)
Definition load_client (now : Z) (st : ClientManager * LeaseManager) (r : ClientRecord) : ClientManager * LeaseManager :=
  let '(m, lm) := st in
  (set_owner_ids (<[cr_owner r := cr_id r]> (owner_to_id m))
     (set_clients (<[cr_id r := client_from_record r]> (clients m)) m),
   create_lease L lm (cr_id r) now).
Definition load_client_records (now : Z) (records : list ClientRecord) (m : ClientManager) (lm : LeaseManager) :
    ClientManager * LeaseManager :=
  foldl (load_client now) (m, lm) records.

End clients.
