(* ===== verification/ClientsProps.v ===== *)
(** Clients: the record, owner and database maps agree; EXCHANGE_ID's
    decision table; the deferred cleanup survives trunking probes;
    CREATE_SESSION executes each sequence id once. *)

From S2P Require Import Prelude Xdr Lease Clients.

Record client_inv (m : ClientManager) : Prop := {
  ci_id : forall id c, clients m !! id = Some c -> cl_id c = id /\ id <> 0;
  ci_index : forall ow id, owner_to_id m !! ow = Some id -> exists c, clients m !! id = Some c /\ cl_owner c = ow;
  ci_db : forall id, cm_db m !! id = client_to_record <$> clients m !! id }.

Lemma client_new_inv so ss : client_inv (ClientManager_new so ss ∅).
Proof. by split. Qed.

(** ** Every operation keeps the invariant *)
Lemma put_client_inv id c c' m : client_inv m -> clients m !! id = Some c -> cl_id c' = id -> cl_owner c' = cl_owner c ->
  client_inv (put_client id c' m).
Proof.
  intros [H1 H2 H3] Hc Hid How. destruct (H1 _ _ Hc) as [_ Hnz]. split; simpl.
  - intros i d. rewrite lookup_insert_Some. intros [[<- <-]|[_ Hd]]; [done|by apply H1].
  - intros ow i Hi. destruct (H2 _ _ Hi) as (d & Hd & Hdo). destruct (decide (i = id)) as [->|Hne].
    + exists c'. rewrite lookup_insert_eq. split; [done|]. congruence.
    + exists d. rewrite lookup_insert_ne by done. done.
  - intros i. rewrite Hid. destruct (decide (i = id)) as [->|Hne].
    + by rewrite !lookup_insert_eq.
    + by rewrite !lookup_insert_ne by done.
Qed.

Lemma draw_spec t draws id : draw_client_id t draws = Some id -> id <> 0 /\ t !! id = None.
Proof.
  induction draws as [|d draws IH]; simpl; [done|]. destruct (negb (d =? 0)) eqn:Hz; simpl; [|auto].
  case_bool_decide; [|auto]. intros [= <-]. bool_Z. done.
Qed.

Section clients.
Context (L : Z).
Local Notation allocate_client := (allocate_client L).
Local Notation exchange_id := (exchange_id L).

(** What [allocate_client] does, whenever the draws hold a free id. *)
Lemma allocate_spec draws now owner v fl pr m lm out m' lm' :
  allocate_client draws now owner v fl pr m lm = Some (out, m', lm') ->
  exists id, out = NewUnconfirmed id 1 /\ id <> 0 /\ clients m !! id = None /\
    let c := with_initial 1 (Client_new id owner v (server_owner m) (server_scope m) fl pr) in
    clients m' = <[id := c]> (clients m) /\ owner_to_id m' = <[owner := id]> (owner_to_id m) /\
    cm_db m' = <[id := client_to_record c]> (cm_db m) /\ lm' = create_lease L lm id now.
Proof.
  unfold Clients.allocate_client. destruct (draw_client_id (clients m) draws) as [id|] eqn:Hd; [|done].
  intros [= <- <- <-]. destruct (draw_spec _ _ _ Hd) as [Hz Hn]. exists id. done.
Qed.

Lemma allocate_inv draws now owner v fl pr m lm out m' lm' : client_inv m ->
  allocate_client draws now owner v fl pr m lm = Some (out, m', lm') -> client_inv m'.
Proof.
  intros [H1 H2 H3] (id & _ & Hz & Hn & Hc & Ho & Hd & _)%allocate_spec. split.
  - intros i d. rewrite Hc, lookup_insert_Some. intros [[<- <-]|[_ Hd']]; [done|by apply H1].
  - intros ow i. rewrite Ho, Hc, lookup_insert_Some. intros [[<- <-]|[Hne Hi]].
    + eexists. rewrite lookup_insert_eq. done.
    + destruct (H2 _ _ Hi) as (d & Hd' & ?). exists d. rewrite lookup_insert_ne; [done|congruence].
  - intros i. rewrite Hd, Hc. destruct (decide (i = id)) as [->|Hne].
    + by rewrite !lookup_insert_eq.
    + by rewrite !lookup_insert_ne by done.
Qed.

Lemma remove_if_owner_Some ow id t o i :
  remove_if_owner ow id t !! o = Some i <-> t !! o = Some i /\ ~ (o = ow /\ i = id).
Proof.
  unfold remove_if_owner. case_bool_decide as Hb.
  - rewrite lookup_delete_Some. split; [intros [? ?]; split; [done|]; naive_solver|].
    intros [Hi Hn]. split; [|done]. intros <-. apply Hn. split; [done|congruence].
  - split; [|by intros [? _]]. intros Hi. split; [done|]. intros [-> ->]. done.
Qed.

(** Removing a client drops its record, its row and its lease, and the
    owner entry only if that entry still names it. *)
Lemma remove_record_spec id m lm m' lm' : remove_client id m lm = (m', lm') ->
  clients m' = delete id (clients m) /\
  (client_inv m -> client_inv m') /\
  (forall ow i, i <> id -> owner_to_id m' !! ow = Some i <-> owner_to_id m !! ow = Some i) /\
  leases lm' = (if bool_decide (is_Some (clients m !! id)) then delete id (leases lm) else leases lm).
Proof.
  unfold remove_client. destruct (clients m !! id) as [c|] eqn:Hc.
  - intros [= <- <-]. rewrite bool_decide_eq_true_2 by eauto. split_and!; try done.
    + intros [H1 H2 H3]. split; simpl.
      * intros i d [_ Hd]%lookup_delete_Some. by apply H1.
      * intros ow i [Hi Hn]%remove_if_owner_Some. destruct (H2 _ _ Hi) as (d & Hd & Hdo). exists d.
        split; [|done]. apply lookup_delete_Some. split; [|done]. intros <-. apply Hn. split; [congruence|done].
      * intros i. destruct (decide (i = id)) as [->|Hne].
        { by rewrite !lookup_delete_eq. }
        { by rewrite !lookup_delete_ne by done. }
    + intros ow i Hne. simpl. rewrite remove_if_owner_Some. naive_solver.
  - intros [= <- <-]. rewrite bool_decide_eq_false_2 by by intros [? ?]. split_and!; try done. by rewrite delete_id.
Qed.

Lemma set_pending_spec id q prev m c : clients m !! id = Some c ->
  clients (set_pending (NewUnconfirmed id q) prev m) = <[id := with_pending prev c]> (clients m) /\
  owner_to_id (set_pending (NewUnconfirmed id q) prev m) = owner_to_id m.
Proof. intros Hc. unfold set_pending. rewrite Hc. done. Qed.

Lemma set_pending_inv out prev m : client_inv m -> client_inv (set_pending out prev m).
Proof.
  intros Hi. destruct out; try done. unfold set_pending. destruct (clients m !! client_id) as [c|] eqn:Hc; [|done].
  eapply put_client_inv; [done|done| |done]. simpl. by apply (ci_id _ Hi).
Qed.

Lemma exchange_id_inv draws now owner v fl pr m lm out m' lm' : client_inv m ->
  exchange_id draws now owner v fl pr m lm = Some (out, m', lm') -> client_inv m'.
Proof.
  intros Hi. unfold Clients.exchange_id. destruct (negb (Z.land fl _ =? 0)), (existing_client m owner) as [c|].
  - destruct (negb (cl_confirmed c)); [by intros [= _ <- _]|]. destruct (negb (_ =? _)); [by intros [= _ <- _]|].
    by case_bool_decide; intros [= _ <- _].
  - by intros [= _ <- _].
  - destruct (negb (cl_confirmed c)).
    + destruct (remove_client (cl_id c) m lm) as [m1 lm1] eqn:Hr.
      destruct (remove_record_spec _ _ _ _ _ Hr) as (_ & H1 & _).
      destruct (allocate_client draws now owner v fl pr m1 lm1) as [[[o2 m2] lm2]|] eqn:Ha; [|done].
      intros [= _ <- _]. pose proof (allocate_inv _ _ _ _ _ _ _ _ _ _ _ (H1 Hi) Ha).
      destruct (cl_pending c); [by apply set_pending_inv|done].
    + destruct (negb (bool_decide _)); [by intros [= _ <- _]|]. destruct (_ =? _); [by intros [= _ <- _]|].
      unfold replace_when_confirmed.
      destruct (allocate_client draws now owner v fl pr m lm) as [[[o2 m2] lm2]|] eqn:Ha; [|done].
      intros [= _ <- _]. apply set_pending_inv. by eapply allocate_inv.
  - by eapply allocate_inv.
Qed.

(** ** The decision table *)
Definition updates (flags : Z) : bool := negb (Z.land flags UPD_CONFIRMED_REC_A =? 0).

(** The record is the caller's own, unchanged since it was confirmed. *)
Definition same_client (c : Client) (v : Z) (pr : bytes) : Prop := cl_verifier c = v /\ cl_principal c = pr.

Definition exchange_meaning (owner : bytes) (v fl : Z) (pr : bytes) (m : ClientManager)
    (out : ExchangeIdOutcome) (m' : ClientManager) : Prop :=
  match out with
  | NoEnt => updates fl = true /\ m' = m /\ forall c, existing_client m owner = Some c -> cl_confirmed c = false
  | NotSame => updates fl = true /\ m' = m /\
      exists c, existing_client m owner = Some c /\ cl_confirmed c = true /\ cl_verifier c <> v
  | Perm => updates fl = true /\ m' = m /\
      exists c, existing_client m owner = Some c /\ cl_confirmed c = true /\ cl_verifier c = v /\ cl_principal c <> pr
  | ExistingConfirmed id q => m' = m /\
      exists c, existing_client m owner = Some c /\ cl_confirmed c = true /\ same_client c v pr /\
        id = cl_id c /\ q = next_cs_sequence c
  | ClientCollision id => updates fl = false /\ m' = m /\
      exists c, existing_client m owner = Some c /\ cl_confirmed c = true /\ cl_principal c <> pr /\ id = cl_id c
  | NewUnconfirmed id q => updates fl = false /\ q = 1 /\ id <> 0 /\
      existing_client m' owner = clients m' !! id /\
      exists new, clients m' !! id = Some new /\ cl_owner new = owner /\ cl_verifier new = v /\
        cl_principal new = pr /\ cl_confirmed new = false /\ next_cs_sequence new = 1 /\
      match existing_client m owner with
      | None => cl_pending new = None /\ clients m !! id = None /\ delete id (clients m') = clients m
      | Some c =>
          if cl_confirmed c
          then cl_principal c = pr /\ cl_verifier c <> v /\ cl_pending new = Some (cl_id c) /\
               clients m !! id = None /\ delete id (clients m') = clients m
          else cl_pending new = cl_pending c /\ delete (cl_id c) (clients m) !! id = None /\
               delete id (clients m') = delete id (delete (cl_id c) (clients m))
      end
  end.

(** A fresh record goes in over [m1], whose clients are those of [m] less
    the ones the case drops. *)
Lemma new_record_meaning draws now owner v fl pr m1 lm1 out m2 lm2 pend :
  allocate_client draws now owner v fl pr m1 lm1 = Some (out, m2, lm2) ->
  let m3 := match pend with Some p => set_pending out p m2 | None => m2 end in
  exists id new, out = NewUnconfirmed id 1 /\ id <> 0 /\ clients m1 !! id = None /\
    existing_client m3 owner = clients m3 !! id /\ clients m3 !! id = Some new /\ cl_owner new = owner /\
    cl_verifier new = v /\ cl_principal new = pr /\ cl_confirmed new = false /\ next_cs_sequence new = 1 /\
    cl_pending new = pend /\ delete id (clients m3) = clients m1.
Proof.
  intros (id & -> & Hz & Hn & Hc & Ho & _)%allocate_spec m3.
  set (c := with_initial 1 _) in Hc.
  assert (Hm2 : clients m2 !! id = Some c) by (by rewrite Hc, lookup_insert_eq).
  destruct pend as [p|].
  - destruct (set_pending_spec id 1 p m2 c Hm2) as [E1 E2].
    exists id, (with_pending p c). unfold m3, existing_client. rewrite E2, Ho, lookup_insert_eq. unfold mbind, option_bind.
    rewrite E1, lookup_insert_eq, delete_insert_eq, Hc, delete_insert_id by done. done.
  - exists id, c. unfold m3, existing_client. rewrite Ho, lookup_insert_eq. unfold mbind, option_bind.
    rewrite Hm2, Hc, delete_insert_id by done. done.
Qed.

Lemma exchange_table draws now owner v fl pr m lm out m' lm' :
  exchange_id draws now owner v fl pr m lm = Some (out, m', lm') -> exchange_meaning owner v fl pr m out m'.
Proof.
  unfold Clients.exchange_id. fold (updates fl). destruct (updates fl) eqn:Hu, (existing_client m owner) as [c|] eqn:He.
  - destruct (cl_confirmed c) eqn:Hcf; simpl.
    2: { intros [= <- <- _]. split_and!; [done|done|]. intros d. rewrite He. naive_solver. }
    destruct (cl_verifier c =? v) eqn:Hv; simpl; bool_Z.
    + case_bool_decide as Hp; intros [= <- <- _].
      * split; [done|]. exists c. by split_and!.
      * split_and!; [done|done|]. exists c. by split_and!.
    + intros [= <- <- _]. split_and!; [done|done|]. exists c. by split_and!.
  - intros [= <- <- _]. split_and!; [done|done|]. intros d. by rewrite He.
  - destruct (cl_confirmed c) eqn:Hcf; simpl.
    + case_bool_decide as Hp; simpl.
      2: { intros [= <- <- _]. split_and!; [done|done|]. exists c. by split_and!. }
      destruct (cl_verifier c =? v) eqn:Hv; bool_Z.
      * intros [= <- <- _]. split; [done|]. exists c. by split_and!.
      * unfold replace_when_confirmed.
        destruct (allocate_client draws now owner v fl pr m lm) as [[[o2 m2] lm2]|] eqn:Ha; [|done].
        intros [= <- <- _].
        destruct (new_record_meaning _ _ _ _ _ _ _ _ _ _ _ (Some (cl_id c)) Ha)
          as (id & new & -> & N1 & N2 & N3 & N4 & N5 & N6 & N7 & N8 & N9 & N10 & N11).
        unfold exchange_meaning. split_and!; try done. exists new. rewrite He, Hcf. by split_and!.
    + destruct (remove_client (cl_id c) m lm) as [m1 lm1] eqn:Hr.
      destruct (remove_record_spec _ _ _ _ _ Hr) as (R1 & _).
      destruct (allocate_client draws now owner v fl pr m1 lm1) as [[[o2 m2] lm2]|] eqn:Ha; [|done].
      intros [= <- <- _].
      destruct (new_record_meaning _ _ _ _ _ _ _ _ _ _ _ (cl_pending c) Ha)
        as (id & new & -> & N1 & N2 & N3 & N4 & N5 & N6 & N7 & N8 & N9 & N10 & N11).
      unfold exchange_meaning. split_and!; try done. exists new. rewrite He, Hcf. split_and!; try done.
      { by rewrite R1 in N2. }
      rewrite N11, R1. rewrite R1 in N2. by rewrite (delete_id _ id).
  - intros Ha. destruct (new_record_meaning _ _ _ _ _ _ _ _ _ _ _ None Ha)
      as (id & new & -> & N1 & N2 & N3 & N4 & N5 & N6 & N7 & N8 & N9 & N10 & N11).
    unfold exchange_meaning. split_and!; try done. exists new. rewrite He. by split_and!.
Qed.

(** ** Trunking probes keep the cleanup obligation *)
(** The owner's current record is unconfirmed and owes the cleanup of [A]. *)
Definition owes (owner : bytes) (A : Client) (m : ClientManager) : Prop :=
  clients m !! cl_id A = Some A /\
  exists new, existing_client m owner = Some new /\ cl_confirmed new = false /\ cl_pending new = Some (cl_id A) /\
    cl_id new <> cl_id A.

Lemma existing_id m owner c : client_inv m -> existing_client m owner = Some c ->
  clients m !! cl_id c = Some c /\ owner_to_id m !! owner = Some (cl_id c).
Proof.
  intros Hi. unfold existing_client. destruct (owner_to_id m !! owner) as [id|] eqn:Ho; [|done].
  unfold mbind, option_bind. intros Hc. destruct (ci_id _ Hi _ _ Hc) as [-> _]. done.
Qed.

Lemma reboot_owes draws now owner v fl pr m lm out m' lm' A : client_inv m ->
  existing_client m owner = Some A -> cl_confirmed A = true -> cl_principal A = pr -> cl_verifier A <> v ->
  updates fl = false -> exchange_id draws now owner v fl pr m lm = Some (out, m', lm') -> owes owner A m'.
Proof.
  intros Hi He Hcf Hp Hv Hu Hx. pose proof (exchange_id_inv _ _ _ _ _ _ _ _ _ _ _ Hi Hx) as Hi'.
  pose proof (exchange_table _ _ _ _ _ _ _ _ _ _ _ Hx) as Ht. destruct (existing_id _ _ _ Hi He) as [HA _].
  destruct out; simpl in Ht.
  - destruct Ht as (_ & _ & _ & Hex & new & Hn & _ & _ & _ & Hnc & _ & Hrest). rewrite He, Hcf in Hrest.
    destruct Hrest as (_ & _ & Hpe & Hfr & Hdel). destruct (ci_id _ Hi' _ _ Hn) as [Hnid _].
    assert (Hne : client_id <> cl_id A) by (intros ->; congruence).
    split.
    + rewrite <- Hdel in HA. by apply lookup_delete_Some in HA as [_ HA].
    + exists new. rewrite Hex, Hnid. by split_and!.
  - destruct Ht as (_ & _ & c & Hc & _ & Hpn & _). rewrite He in Hc. simplify_eq.
  - destruct Ht as (_ & c & Hc & _ & [Hcv _] & _). rewrite He in Hc. simplify_eq.
  - destruct Ht as [Hu' _]. congruence.
  - destruct Ht as [Hu' _]. congruence.
  - destruct Ht as [Hu' _]. congruence.
Qed.

Lemma probe_owes draws now owner v fl pr m lm out m' lm' A : client_inv m -> owes owner A m ->
  updates fl = false -> exchange_id draws now owner v fl pr m lm = Some (out, m', lm') -> owes owner A m'.
Proof.
  intros Hi (HA & old & He & Hcf & Hpe & Hne) Hu Hx.
  pose proof (exchange_id_inv _ _ _ _ _ _ _ _ _ _ _ Hi Hx) as Hi'.
  pose proof (exchange_table _ _ _ _ _ _ _ _ _ _ _ Hx) as Ht. destruct out; simpl in Ht.
  - destruct Ht as (_ & _ & _ & Hex & new & Hn & _ & _ & _ & Hnc & _ & Hrest). rewrite He, Hcf in Hrest.
    destruct Hrest as (Hpn & Hfr & Hdel). destruct (ci_id _ Hi' _ _ Hn) as [Hnid _].
    assert (HA' : delete (cl_id old) (clients m) !! cl_id A = Some A) by (by apply lookup_delete_Some).
    assert (Hna : client_id <> cl_id A) by (intros ->; congruence).
    split.
    + assert (delete client_id (clients m') !! cl_id A = Some A) as Hx' by (rewrite Hdel; by apply lookup_delete_Some).
      by apply lookup_delete_Some in Hx' as [_ ?].
    + exists new. rewrite Hex, Hnid, Hpn. by split_and!.
  - destruct Ht as (_ & _ & c & Hc & Hcc & _). congruence.
  - destruct Ht as (_ & c & Hc & Hcc & _). congruence.
  - destruct Ht as [Hu' _]. congruence.
  - destruct Ht as [Hu' _]. congruence.
  - destruct Ht as [Hu' _]. congruence.
Qed.

(** EXCHANGE_IDs of one rebooted client, one per connection; each with its
    own draws, clock, verifier, flags and principal. *)
Fixpoint probes (owner : bytes) (reqs : list (list Z * Z * Z * Z * bytes)) (m : ClientManager) (lm : LeaseManager) :
    option (ClientManager * LeaseManager) :=
  match reqs with
  | [] => Some (m, lm)
  | (draws, now, v, fl, pr) :: reqs =>
      '(_, m1, lm1) ← exchange_id draws now owner v fl pr m lm; probes owner reqs m1 lm1
  end.

Lemma probes_owe owner A reqs : forall m lm m' lm', client_inv m -> owes owner A m ->
  Forall (fun r => updates r.1.2 = false) reqs -> probes owner reqs m lm = Some (m', lm') ->
  client_inv m' /\ owes owner A m'.
Proof.
  induction reqs as [|[[[[draws now] v] fl] pr] reqs IH]; intros m lm m' lm' Hi Ho Hf; simpl.
  { by intros [= <- _]. }
  destruct (exchange_id draws now owner v fl pr m lm) as [[[out m1] lm1]|] eqn:Hx; [|done].
  apply Forall_cons in Hf as [Hu Hf]. simpl in Hu. intros Hp.
  apply (IH m1 lm1 m' lm'); [by eapply exchange_id_inv|by eapply probe_owes|done|done].
Qed.
End clients.

(** ** CREATE_SESSION: each sequence id executes once *)
(** Requests on one clientid: the sequence id and the reply an execution
    would record. *)
Fixpoint cs_serve (id : Z) (reqs : list (Z * CachedCreateSessionRes)) (m : ClientManager) :
    list (Z * CreateSessionSeq) * ClientManager :=
  match reqs with
  | [] => ([], m)
  | (q, r) :: reqs =>
      let out := process_create_session_seq m id q in
      let m1 := match out with CsExecute => record_create_session_reply id q r m | _ => m end in
      let '(outs, m2) := cs_serve id reqs m1 in ((q, out) :: outs, m2)
  end.

Definition cs_executed (outs : list (Z * CreateSessionSeq)) : list Z :=
  omap (fun '(q, o) => match o with CsExecute => Some q | _ => None end) outs.

Fixpoint seq_from (q : Z) (n : nat) : list Z :=
  match n with O => [] | S n => q :: seq_from (wrap_u32 (q + 1)) n end.

Lemma cs_serve_consecutive id reqs : forall m c, clients m !! id = Some c ->
  exists n, cs_executed (cs_serve id reqs m).1 = seq_from (next_cs_sequence c) n.
Proof.
  induction reqs as [|[q r] reqs IH]; intros m c Hc; simpl; [by exists O|].
  destruct (process_create_session_seq m id q) eqn:Hp.
  2-4: destruct (IH m c Hc) as [n Hn]; exists n; destruct (cs_serve id reqs m); exact Hn.
  assert (Hq : q = next_cs_sequence c).
  { unfold process_create_session_seq in Hp. rewrite Hc in Hp. unfold next_cs_sequence.
    destruct (cl_last_cs c) as [last|].
    - destruct (q =? last); [by destruct (cl_cached_res c)|]. destruct (q =? _) eqn:E; [|done]. by bool_Z.
    - destruct (q =? _) eqn:E; [|done]. by bool_Z. }
  unfold record_create_session_reply. rewrite Hc.
  destruct (IH (put_client id (with_cs q r c) m) (with_cs q r c)) as [n Hn]; [simpl; by rewrite lookup_insert_eq|].
  exists (S n). destruct (cs_serve id reqs _). simpl in *. rewrite Hn. simpl. by rewrite <- Hq.
Qed.

(** After an execution the resend is answered from the cache, and nothing
    but a further execution changes that. *)
Lemma cs_replay id q r m c reqs : clients m !! id = Some c -> process_create_session_seq m id q = CsExecute ->
  let m1 := record_create_session_reply id q r m in
  (forall q' o, (q', o) ∈ (cs_serve id reqs m1).1 -> o <> CsExecute) ->
  process_create_session_seq (cs_serve id reqs m1).2 id q = CsReplay r.
Proof.
  intros Hc Hp m1 Hno.
  assert (Hm : clients m1 !! id = Some (with_cs q r c))
    by (unfold m1, record_create_session_reply; rewrite Hc; simpl; by rewrite lookup_insert_eq).
  assert (Hsame : forall reqs m, (forall q' o, (q', o) ∈ (cs_serve id reqs m).1 -> o <> CsExecute) ->
    (cs_serve id reqs m).2 = m).
  { clear. induction reqs as [|[q r] reqs IH]; intros m Hno; [done|]. simpl in *.
    assert (Hx : process_create_session_seq m id q <> CsExecute).
    { apply (Hno q). destruct (cs_serve id reqs _). by left. }
    destruct (process_create_session_seq m id q); [done|..];
      (specialize (IH m); destruct (cs_serve id reqs m); simpl in *; apply IH; intros q' o ?; apply (Hno q'); by right). }
  rewrite Hsame by done. unfold process_create_session_seq. rewrite Hm. simpl. by rewrite Z.eqb_refl.
Qed.

(** ** Restart *)
Definition forget_client (c : Client) : Client := client_from_record (client_to_record c).

Section restart.
Context (L now : Z).

Lemma load_clients_fold rs : forall m lm m' lm',
  NoDup (cr_id <$> rs) ->
  load_client_records L now rs m lm = (m', lm') ->
  (forall id, clients m' !! id = match list_find (fun r => cr_id r = id) rs with
                                 | Some (_, r) => Some (client_from_record r)
                                 | None => clients m !! id
                                 end) /\
  (forall ow id, owner_to_id m' !! ow = Some id ->
    (exists r, r ∈ rs /\ cr_owner r = ow /\ cr_id r = id) \/ owner_to_id m !! ow = Some id) /\
  (forall r, r ∈ rs -> is_Some (owner_to_id m' !! cr_owner r)) /\
  (forall ow, is_Some (owner_to_id m !! ow) -> is_Some (owner_to_id m' !! ow)) /\
  (forall r, r ∈ rs -> is_Some (leases lm' !! cr_id r)) /\
  (forall id, is_Some (leases lm !! id) -> is_Some (leases lm' !! id)) /\ cm_db m' = cm_db m.
Proof.
  induction rs as [|r rs IH]; intros m lm m' lm' Hnd Hf.
  { injection Hf as <- <-. split_and!; try done; [by right|by intros ? ?%elem_of_nil|by intros ? ?%elem_of_nil]. }
  cbn [fmap list_fmap] in Hnd. apply NoDup_cons in Hnd as [Hr Hnd].
  destruct (IH _ _ m' lm' Hnd Hf) as (I1 & I2 & I3 & I4 & I5 & I6 & I7). simpl in *.
  split_and!; [| | | | | |done].
  - intros id. rewrite I1. destruct (decide (cr_id r = id)) as [<-|Hne].
    + destruct (list_find (fun r0 => cr_id r0 = cr_id r) rs) as [[i r']|] eqn:E; simpl.
      * apply list_find_Some in E as (E1 & E2 & _). destruct Hr. apply list_elem_of_fmap. exists r'.
        split; [done|]. by eapply list_elem_of_lookup_2.
      * by rewrite lookup_insert_eq.
    + destruct (list_find (fun r0 => cr_id r0 = id) rs) as [[i r']|]; simpl; [done|].
      by rewrite lookup_insert_ne.
  - intros ow id Hi. destruct (I2 _ _ Hi) as [(r' & ? & ? & ?)|Hi'].
    + left. exists r'. split; [by right|done].
    + rewrite lookup_insert_Some in Hi'. destruct Hi' as [[<- <-]|[_ ?]]; [left|by right]. exists r. split; [by left|done].
  - intros r' [->|Hin]%elem_of_cons; [|by apply I3]. apply I4. rewrite lookup_insert_eq. eauto.
  - intros ow Ho. apply I4. rewrite lookup_insert. case_decide; eauto.
  - intros r' [->|Hin]%elem_of_cons; [|by apply I5]. apply I6. simpl. rewrite lookup_insert_eq. eauto.
  - intros id Hi. apply I6. simpl. rewrite lookup_insert. case_decide; eauto.
Qed.

Lemma restart_clients m lm kv m' lm' : client_inv m -> kv ≡ₚ map_to_list (cm_db m) ->
  load_client_records L now kv.*2 (ClientManager_new (server_owner m) (server_scope m) (cm_db m)) lm = (m', lm') ->
  client_inv m' /\
  (forall id, clients m' !! id = forget_client <$> clients m !! id) /\
  (forall id c, clients m !! id = Some c ->
    is_Some (leases lm' !! id) /\ exists c', existing_client m' (cl_owner c) = Some c' /\ cl_owner c' = cl_owner c).
Proof.
  intros Hi Hkv Hload.
  assert (Hrow : forall k r, (k, r) ∈ kv <-> exists c, clients m !! k = Some c /\ r = client_to_record c).
  { intros k r. rewrite Hkv, elem_of_map_to_list, (ci_db _ Hi). destruct (clients m !! k); simpl; naive_solver. }
  assert (Hid : forall k r, (k, r) ∈ kv -> cr_id r = k).
  { intros k r (c & Hc & ->)%Hrow. by apply (ci_id _ Hi). }
  assert (Hids : cr_id <$> kv.*2 = kv.*1).
  { rewrite <- list_fmap_compose. apply list_fmap_ext. intros i [k r] Hx. simpl. eapply Hid.
    by eapply list_elem_of_lookup_2. }
  destruct (load_clients_fold kv.*2 _ _ _ _ ltac:(rewrite Hids, Hkv; apply NoDup_fst_map_to_list) Hload)
    as (I1 & I2 & I3 & _ & I5 & _ & I7).
  assert (Hin : forall id c, clients m !! id = Some c -> client_to_record c ∈ kv.*2 /\ cr_id (client_to_record c) = id).
  { intros id c Hc. split; [|by apply (ci_id _ Hi)]. apply list_elem_of_fmap. exists (id, client_to_record c).
    split; [done|]. apply Hrow. eauto. }
  assert (Hcl : forall id, clients m' !! id = forget_client <$> clients m !! id).
  { intros id. rewrite I1. simpl. destruct (list_find (fun r => cr_id r = id) kv.*2) as [[i r]|] eqn:E.
    - apply list_find_Some in E as (E1 & E2 & _). apply list_elem_of_lookup_2, list_elem_of_fmap in E1 as ([k r'] & -> & Hk).
      simpl in E2. rewrite (Hid _ _ Hk) in E2. subst. apply Hrow in Hk as (c & -> & ->). done.
    - apply list_find_None in E. destruct (clients m !! id) as [c|] eqn:Hc; [|done].
      destruct (Hin id c Hc) as [H1 H2]. rewrite Forall_forall in E. by apply E in H1. }
  assert (Hinv : client_inv m').
  { split.
    - intros id c. rewrite Hcl. destruct (clients m !! id) as [d|] eqn:Hd; [|done]. intros [= <-].
      exact (ci_id _ Hi _ _ Hd).
    - intros ow id Ho. destruct (I2 _ _ Ho) as [(r & Hr & <- & <-)|?]; [|done].
      apply list_elem_of_fmap in Hr as ([k r'] & -> & Hk). apply Hrow in Hk as (c & Hc & ->). simpl.
      exists (forget_client c). destruct (ci_id _ Hi _ _ Hc) as [-> _]. by rewrite Hcl, Hc.
    - intros id. rewrite I7, Hcl. simpl. rewrite (ci_db _ Hi). by destruct (clients m !! id). }
  split_and!; [done|done|]. intros id c Hc. destruct (Hin id c Hc) as [H1 H2]. split.
  - rewrite <- H2. by apply I5.
  - destruct (I3 _ H1) as [i Hx]. change (cr_owner (client_to_record c)) with (cl_owner c) in Hx.
    destruct (ci_index _ Hinv _ _ Hx) as (c' & Hc' & ?). exists c'. unfold existing_client. rewrite Hx.
    unfold mbind, option_bind. done.
Qed.
End restart.
