(* ===== verification/Delegs.v ===== *)
(** NFSv4 read delegations (nfs/v4/state/delegation.rs): the per-file table
    of delegation records and mutation guards, grant, fence, recall, return,
    revocation and teardown, and the grant breaker.

    Operations on one file run under that file's lock, so the model is
    sequential; an entry that garbage collection removes is simply absent
    (the [dead] retry loop).  The calls of the evidence, breaker and
    descriptor sinks are logs, oldest first; metering is left out. *)

From S2P Require Import Prelude Xdr Stateid.

Notation FileId := (Z * Z)%type (only parsing).

Inductive DelegState := Granted | RecallPending | RecallAcked | DRevoked.
#[global] Instance DelegState_eq : EqDecision DelegState.
Proof. solve_decision. Defined.

Record DelegRecord := DelegRec {
  dr_stateid : StateId; dr_client : Z; dr_fh : bytes; dr_ident : FileId; dr_path : bytes;
  dr_state : DelegState; dr_granted_at : Z; dr_recall_started : option Z; dr_first_transmit : option Z;
  dr_truncate : bool }.
Record RecallOrder := Order { ro_stateid : StateId; ro_client : Z; ro_fh : bytes; ro_truncate : bool }.
Record FileEntry := FEntry { fe_records : list DelegRecord; fe_guards : Z; fe_cooldown : option Z }.
Definition FileEntry_new : FileEntry := FEntry [] 0 None.
Definition fe_is_empty (e : FileEntry) : bool :=
  bool_decide (fe_records e = []) && (fe_guards e =? 0) && bool_decide (fe_cooldown e = None).

#[global] Instance DelegRecord_eq : EqDecision DelegRecord.
Proof. solve_decision. Defined.

Record MutationGuard := Guard { mg_ident : FileId; mg_mutator : option Z; mg_checked : bool }.
#[global] Instance MutationGuard_eq : EqDecision MutationGuard.
Proof. solve_decision. Defined.

Inductive FenceOutcome :=
| Clear (g : MutationGuard)
| Conflict (g : MutationGuard) (recalls : list RecallOrder) (expired : list StateId) (delay : bool).
Inductive GrantRefusal :=
| Barrier | MutationPending | Cooldown | AlreadyHolder | QuotaClient | QuotaGlobal | Precheck.
Inductive DelegReturnError := DUnknown | DOldSeqid | DRevokedErr.

Record DelegationManager := DelegMgr {
  dm_files : gmap FileId FileEntry;
  by_stateid : gmap Z FileId;
  by_client : gmap Z (list Z);
  live_per_client : gmap Z Z;
  live_global : Z;
  max_per_client : Z;
  max_global : Z;
  cooldown : Z;
  dm_refusals : list GrantRefusal;
  grants_total : Z;
  revocations : list Z;
  revocations_by_client : gmap Z (list Z);
  persisted_trip_until : option Z;
  breaker_persisted : bool;
  breaker_trip : nat;
  breaker_client_trip : nat;
  evidence_calls : list (Z * bool);
  breaker_calls : list (option Z);
  fd_calls : list StateId }.

Definition DelegationManager_with_limits (per_client global cool : Z) (trip client_trip : nat) : DelegationManager :=
  DelegMgr ∅ ∅ ∅ ∅ 0 per_client global cool [] 0 [] ∅ None false trip client_trip [] [] [].

(** Updates of the tables, of the live counters, of the breaker and of the
    logs. *)
Definition set_tables (f : gmap FileId FileEntry) (s : gmap Z FileId) (c : gmap Z (list Z)) (m : DelegationManager) :=
  DelegMgr f s c (live_per_client m) (live_global m) (max_per_client m) (max_global m) (cooldown m) (dm_refusals m)
    (grants_total m) (revocations m) (revocations_by_client m) (persisted_trip_until m) (breaker_persisted m)
    (breaker_trip m) (breaker_client_trip m) (evidence_calls m) (breaker_calls m) (fd_calls m).
Definition set_files f m := set_tables f (by_stateid m) (by_client m) m.
Definition set_live (lc : gmap Z Z) (lg : Z) (m : DelegationManager) :=
  DelegMgr (dm_files m) (by_stateid m) (by_client m) lc lg (max_per_client m) (max_global m) (cooldown m) (dm_refusals m)
    (grants_total m) (revocations m) (revocations_by_client m) (persisted_trip_until m) (breaker_persisted m)
    (breaker_trip m) (breaker_client_trip m) (evidence_calls m) (breaker_calls m) (fd_calls m).
Definition set_counts (refused : list GrantRefusal) (granted : Z) (m : DelegationManager) :=
  DelegMgr (dm_files m) (by_stateid m) (by_client m) (live_per_client m) (live_global m) (max_per_client m) (max_global m)
    (cooldown m) refused granted (revocations m) (revocations_by_client m) (persisted_trip_until m) (breaker_persisted m)
    (breaker_trip m) (breaker_client_trip m) (evidence_calls m) (breaker_calls m) (fd_calls m).
Definition set_revocations (all : list Z) (per : gmap Z (list Z)) (m : DelegationManager) :=
  DelegMgr (dm_files m) (by_stateid m) (by_client m) (live_per_client m) (live_global m) (max_per_client m) (max_global m)
    (cooldown m) (dm_refusals m) (grants_total m) all per (persisted_trip_until m) (breaker_persisted m)
    (breaker_trip m) (breaker_client_trip m) (evidence_calls m) (breaker_calls m) (fd_calls m).
Definition set_trip (until : option Z) (persisted : bool) (m : DelegationManager) :=
  DelegMgr (dm_files m) (by_stateid m) (by_client m) (live_per_client m) (live_global m) (max_per_client m) (max_global m)
    (cooldown m) (dm_refusals m) (grants_total m) (revocations m) (revocations_by_client m) until persisted
    (breaker_trip m) (breaker_client_trip m) (evidence_calls m) (breaker_calls m) (fd_calls m).
Definition set_logs (ev : list (Z * bool)) (br : list (option Z)) (fd : list StateId) (m : DelegationManager) :=
  DelegMgr (dm_files m) (by_stateid m) (by_client m) (live_per_client m) (live_global m) (max_per_client m) (max_global m)
    (cooldown m) (dm_refusals m) (grants_total m) (revocations m) (revocations_by_client m) (persisted_trip_until m)
    (breaker_persisted m) (breaker_trip m) (breaker_client_trip m) ev br fd.

Definition d_release_fd (s : StateId) (m : DelegationManager) : DelegationManager :=
  set_logs (evidence_calls m) (breaker_calls m) (fd_calls m ++ [s]) m.

(** ** Reading *)
Definition other (r : DelegRecord) : Z := sid_other (dr_stateid r).
Definition is_live (r : DelegRecord) : bool := negb (bool_decide (dr_state r = DRevoked)).
Definition under_recall (r : DelegRecord) : bool :=
  bool_decide (dr_state r = RecallPending) || bool_decide (dr_state r = RecallAcked).
Definition entry_of (m : DelegationManager) (i : FileId) : FileEntry := default FileEntry_new (dm_files m !! i).

(** The file of stateid [o] and its first record that satisfies [p]. *)
Definition named (o : Z) (p : DelegRecord -> bool) (r : DelegRecord) : bool := (other r =? o) && p r.
Definition find_record (m : DelegationManager) (o : Z) (p : DelegRecord -> bool) :
    option (FileId * FileEntry * DelegRecord) :=
  i ← by_stateid m !! o; e ← dm_files m !! i; r ← find_first (named o p) (fe_records e); Some (i, e, r).
Definition any_record (r : DelegRecord) : bool := true.
Definition is_revoked (r : DelegRecord) : bool := bool_decide (dr_state r = DRevoked).

Definition snapshot (m : DelegationManager) (o : Z) : option (StateId * Z * DelegState * bool) :=
  '(_, _, r) ← find_record m o any_record; Some (dr_stateid r, dr_client r, dr_state r, dr_truncate r).
Definition deleg_lookup (m : DelegationManager) (s : StateId) : option (Z * bytes) :=
  '(_, _, r) ← find_record m (sid_other s) is_live; Some (dr_client r, dr_path r).
Definition client_holds_live (m : DelegationManager) (c : Z) : bool := 0 <? default 0 (live_per_client m !! c).
Definition deleg_count_for_client (m : DelegationManager) (c : Z) : nat := length (default [] (by_client m !! c)).
Definition client_has_revoked (m : DelegationManager) (c : Z) : bool :=
  existsb (fun o => match snapshot m o with Some (_, _, st, _) => bool_decide (st = DRevoked) | None => false end)
    (default [] (by_client m !! c)).
Definition granted_holders (m : DelegationManager) (i : FileId) : list Z :=
  dr_client <$> filter (fun r => dr_state r = Granted) (fe_records (entry_of m i)).
Definition files_under_recall (m : DelegationManager) : nat :=
  length (filter (fun e => existsb under_recall (fe_records e) = true) (map_to_list (dm_files m)).*2).

Definition note_evidence (c : Z) (m : DelegationManager) : DelegationManager :=
  set_logs (evidence_calls m ++ [(c, client_holds_live m c || client_has_revoked m c)]) (breaker_calls m) (fd_calls m) m.

(** ** The breaker *)
(** [now] in nanoseconds on the monotonic clock, [now_unix] in seconds. *)
Definition BREAKER_WINDOW : Z := 300 * 1000000000.
Definition recent (now : Z) (l : list Z) : list Z := filter (fun t => Z.max 0 (now - t) < BREAKER_WINDOW) l.

Definition sync_breaker_persistence (tripped : bool) (now_unix : Z) (m : DelegationManager) : DelegationManager :=
  if Bool.eqb tripped (breaker_persisted m) then m
  else let m1 := set_trip (persisted_trip_until m) tripped m in
       set_logs (evidence_calls m1) (breaker_calls m1 ++ [if tripped then Some now_unix else None]) (fd_calls m1) m1.

Definition grants_paused (c now now_unix : Z) (m : DelegationManager) : bool * DelegationManager :=
  let in_force := match persisted_trip_until m with Some t => now <? t | None => false end in
  if in_force then (true, m)
  else
    let m1 := set_trip None (breaker_persisted m) m in
    let all := recent now (revocations m1) in
    let m2 := set_revocations all (revocations_by_client m1) m1 in
    let tripped := (breaker_trip m <=? length all)%nat in
    let m3 := if tripped then m2
              else match revocations_by_client m2 !! c with
                   | Some v => set_revocations all (<[c := recent now v]> (revocations_by_client m2)) m2
                   | None => m2
                   end in
    if negb tripped && match revocations_by_client m3 !! c with
                       | Some v => (breaker_client_trip m <=? length v)%nat
                       | None => false
                       end
    then (true, m3)
    else (tripped, sync_breaker_persistence tripped now_unix m3).

Definition restore_breaker_trip (trip_unix now now_unix : Z) (m : DelegationManager) : bool * DelegationManager :=
  let age := Z.max 0 (now_unix - trip_unix) in
  if 300 <? age then (false, set_trip (persisted_trip_until m) false m)
  else (true, set_trip (Some (now + (BREAKER_WINDOW - age * 1000000000))) true m).

(** ** Entries *)
(** [gc_map_entry]: an empty entry goes. *)
Definition gc_entry (i : FileId) (m : DelegationManager) : DelegationManager :=
  match dm_files m !! i with
  | Some e => if fe_is_empty e then set_files (delete i (dm_files m)) m else m
  | None => m
  end.
Definition put_entry (i : FileId) (e : FileEntry) (m : DelegationManager) : DelegationManager :=
  set_files (<[i := e]> (dm_files m)) m.

Definition dec_live_client (c : Z) (t : gmap Z Z) : gmap Z Z :=
  match t !! c with Some n => <[c := Z.max 0 (n - 1)]> t | None => t end.
Definition drop_client_other (c o : Z) (t : gmap Z (list Z)) : gmap Z (list Z) :=
  match t !! c with Some v => <[c := filter (fun x => x <> o) v]> t | None => t end.

Definition unindex (r : DelegRecord) (m : DelegationManager) : DelegationManager :=
  let m1 := d_release_fd (dr_stateid r) m in
  let m2 := set_tables (dm_files m1) (delete (other r) (by_stateid m1))
              (drop_client_other (dr_client r) (other r) (by_client m1)) m1 in
  let m3 := if is_live r
            then set_live (dec_live_client (dr_client r) (live_per_client m2)) (wrap_u64 (live_global m2 - 1)) m2
            else m2 in
  gc_entry (dr_ident r) m3.

(** ** Grant *)
Definition refuse_grant (r : GrantRefusal) (m : DelegationManager) : result GrantRefusal StateId * DelegationManager :=
  (Err r, set_counts (dm_refusals m ++ [r]) (grants_total m) m).

(** [precheck] is the caller's re-check under the lock, [s] the stateid the
    mint returns. *)
Definition try_grant (i : FileId) (client : Z) (fh path : bytes) (now : Z) (precheck : bool) (s : StateId)
    (m0 : DelegationManager) : result GrantRefusal StateId * DelegationManager :=
  let e := entry_of m0 i in
  let m := put_entry i e m0 in
  if 0 <? fe_guards e then refuse_grant MutationPending m
  else if existsb (fun r => negb (bool_decide (dr_state r = Granted))) (fe_records e) then refuse_grant Barrier m
  else if match fe_cooldown e with Some t => now <? t | None => false end then refuse_grant Cooldown m
  else
    let e1 := FEntry (fe_records e) (fe_guards e) None in
    let m1 := put_entry i e1 m in
    if existsb (fun r => dr_client r =? client) (fe_records e) then refuse_grant AlreadyHolder m1
    else if max_per_client m <=? default 0 (live_per_client m !! client) then refuse_grant QuotaClient m1
    else if max_global m <=? live_global m then refuse_grant QuotaGlobal m1
    else if negb precheck then refuse_grant Precheck m1
    else
      let rec := DelegRec s client fh i path Granted now None None false in
      let m2 := set_tables (<[i := FEntry (fe_records e ++ [rec]) (fe_guards e) None]> (dm_files m1))
                  (<[sid_other s := i]> (by_stateid m1))
                  (<[client := default [] (by_client m1 !! client) ++ [sid_other s]]> (by_client m1)) m1 in
      let m3 := set_live (<[client := default 0 (live_per_client m2 !! client) + 1]> (live_per_client m2))
                  (wrap_u64 (live_global m2 + 1)) m2 in
      (Ok s, note_evidence client (set_counts (dm_refusals m3) (grants_total m3 + 1) m3)).

(** ** The fence *)
Definition start_recall (now : Z) (truncate : bool) (r : DelegRecord) : DelegRecord :=
  DelegRec (dr_stateid r) (dr_client r) (dr_fh r) (dr_ident r) (dr_path r) RecallPending (dr_granted_at r) (Some now)
    (dr_first_transmit r) truncate.
Definition foreign (mutator : option Z) (r : DelegRecord) : bool := negb (bool_decide (Some (dr_client r) = mutator)).

(** One record of the fence's loop. *)
Definition fence_record (mutator : option Z) (truncate : bool) (now : Z) (lapsed : Z -> bool)
    (st : list DelegRecord * list RecallOrder * list StateId * bool) (r : DelegRecord) :
    list DelegRecord * list RecallOrder * list StateId * bool :=
  let '(recs, recalls, expired, foreign_live) := st in
  match dr_state r with
  | DRevoked => (recs ++ [r], recalls, expired, foreign_live)
  | RecallPending | RecallAcked => (recs ++ [r], recalls, expired, foreign_live || foreign mutator r)
  | Granted =>
      let r' := start_recall now truncate r in
      if foreign mutator r && lapsed (dr_client r)
      then (recs ++ [r'], recalls, expired ++ [dr_stateid r], foreign_live)
      else (recs ++ [r'], recalls ++ [Order (dr_stateid r) (dr_client r) (dr_fh r) truncate], expired,
            foreign_live || foreign mutator r)
  end.

(** [lapsed]: the lease probe. *)
Definition mutation_fence (i : FileId) (mutator : option Z) (truncate : bool) (now : Z) (lapsed : Z -> bool)
    (m : DelegationManager) : FenceOutcome * DelegationManager :=
  let e := entry_of m i in
  let g := fe_guards e + 1 in
  if bool_decide (fe_records e = [])
  then (Clear (Guard i mutator true), put_entry i (FEntry (fe_records e) g (fe_cooldown e)) m)
  else
    let '(recs, recalls, expired, foreign_live) :=
      foldl (fence_record mutator truncate now lapsed) ([], [], [], false) (fe_records e) in
    let m1 := put_entry i (FEntry recs g (fe_cooldown e)) m in
    if bool_decide (length recalls = 0)%nat && bool_decide (expired = []) && negb foreign_live
    then (Clear (Guard i mutator true), m1)
    else (Conflict (Guard i mutator (negb foreign_live && bool_decide (expired = []))) recalls expired foreign_live, m1).

Definition arm_exclusivity_check (g : MutationGuard) : MutationGuard := Guard (mg_ident g) (mg_mutator g) true.
Definition foreign_live_at_release (g : MutationGuard) (e : FileEntry) : option (Z * DelegState) :=
  (fun r => (dr_client r, dr_state r)) <$>
    find_first (fun r => foreign (mg_mutator g) r && is_live r) (fe_records e).

(** Dropping a guard. *)
Definition drop_guard (g : MutationGuard) (m : DelegationManager) : DelegationManager :=
  match dm_files m !! mg_ident g with
  | Some e => gc_entry (mg_ident g)
                (put_entry (mg_ident g) (FEntry (fe_records e) (Z.max 0 (fe_guards e - 1)) (fe_cooldown e)) m)
  | None => m
  end.

(** ** Return, recall, revocation *)
(** The cooldown starts when no live record is left. *)
Definition settle (now cool : Z) (cond : bool) (e : FileEntry) : FileEntry :=
  if cond && negb (existsb is_live (fe_records e))
  then FEntry (fe_records e) (fe_guards e) (Some (now + cool)) else e.

Definition return_delegation (s : StateId) (now : Z) (m : DelegationManager) :
    result DelegReturnError Z * DelegationManager :=
  match find_record m (sid_other s) any_record with
  | None => (Err DUnknown, m)
  | Some (i, e, r) =>
      if is_revoked r then (Err DRevokedErr, m)
      else if negb (sid_seqid s =? 0) && negb (sid_seqid s =? 1) then (Err DOldSeqid, m)
      else
        let e1 := FEntry (remove_first (named (sid_other s) any_record) (fe_records e)) (fe_guards e) (fe_cooldown e) in
        let e2 := settle now (cooldown m) (negb (bool_decide (dr_state r = Granted))) e1 in
        (Ok (dr_client r), note_evidence (dr_client r) (unindex r (put_entry i e2 m)))
  end.

Definition with_record (o : Z) (f : DelegRecord -> DelegRecord) (m : DelegationManager) : DelegationManager :=
  match find_record m o any_record with
  | None => m
  | Some (i, e, r) =>
      put_entry i (FEntry (update_first (named o any_record) f (fe_records e)) (fe_guards e) (fe_cooldown e)) m
  end.
Definition set_state (st : DelegState) (ft : option Z) (r : DelegRecord) : DelegRecord :=
  DelegRec (dr_stateid r) (dr_client r) (dr_fh r) (dr_ident r) (dr_path r) st (dr_granted_at r) (dr_recall_started r) ft
    (dr_truncate r).
Definition note_first_transmit (s : StateId) (now : Z) (m : DelegationManager) : DelegationManager :=
  with_record (sid_other s) (fun r =>
    if bool_decide (dr_state r = RecallPending) && bool_decide (dr_first_transmit r = None)
    then set_state (dr_state r) (Some now) r else r) m.
Definition note_recall_acked (s : StateId) (m : DelegationManager) : DelegationManager :=
  with_record (sid_other s) (fun r =>
    if bool_decide (dr_state r = RecallPending) then set_state RecallAcked (dr_first_transmit r) r else r) m.

Definition deleg_revoke (s : StateId) (now : Z) (m : DelegationManager) : option Z * DelegationManager :=
  match find_record m (sid_other s) any_record with
  | None => (None, m)
  | Some (i, e, r) =>
      if negb (under_recall r) then (None, m)
      else
        let recs := update_first (named (sid_other s) any_record) (fun x => set_state DRevoked (dr_first_transmit x) x)
                      (fe_records e) in
        let m1 := put_entry i (settle now (cooldown m) true (FEntry recs (fe_guards e) (fe_cooldown e))) m in
        let c := dr_client r in
        let m2 := set_live (dec_live_client c (live_per_client m1)) (wrap_u64 (live_global m1 - 1)) m1 in
        let m3 := set_revocations (revocations m2 ++ [now])
                    (<[c := default [] (revocations_by_client m2 !! c) ++ [now]]> (revocations_by_client m2)) m2 in
        (Some c, note_evidence c m3)
  end.

Definition resolve_disown (s : StateId) (now : Z) (m : DelegationManager) : bool * DelegationManager :=
  match find_record m (sid_other s) under_recall with
  | None => (false, m)
  | Some (i, e, r) =>
      let recs := remove_first (named (sid_other s) under_recall) (fe_records e) in
      let e1 := settle now (cooldown m) true (FEntry recs (fe_guards e) (fe_cooldown e)) in
      (true, note_evidence (dr_client r) (unindex r (put_entry i e1 m)))
  end.

(** FREE_STATEID of a tombstone. *)
Definition free_revoked (s : StateId) (m : DelegationManager) : bool * DelegationManager :=
  match find_record m (sid_other s) is_revoked with
  | None => (false, m)
  | Some (i, e, r) =>
      let recs := remove_first (named (sid_other s) is_revoked) (fe_records e) in
      let m1 := put_entry i (FEntry recs (fe_guards e) (fe_cooldown e)) m in
      let m2 := d_release_fd (dr_stateid r) m1 in
      let m3 := set_tables (dm_files m2) (delete (other r) (by_stateid m2))
                  (drop_client_other (dr_client r) (other r) (by_client m2)) m2 in
      (true, note_evidence (dr_client r) (gc_entry i m3))
  end.

(** ** The fence's verdict *)
Definition revoke_all (l : list StateId) (now : Z) (m : DelegationManager) : DelegationManager :=
  foldl (fun m s => (deleg_revoke s now m).2) m l.

(** The table's part of [StateManager::deleg_fence]: [None] answers DELAY. *)
Definition fence_verdict (i : FileId) (mutator : option Z) (truncate : bool) (now : Z) (lapsed : Z -> bool)
    (m : DelegationManager) : option MutationGuard * list RecallOrder * DelegationManager :=
  match mutation_fence i mutator truncate now lapsed m with
  | (Clear g, m1) => (Some g, [], m1)
  | (Conflict g recalls expired delay, m1) =>
      let m2 := revoke_all expired now m1 in
      if delay then (None, recalls, drop_guard g m2)
      else (Some (if bool_decide (expired = []) then g else arm_exclusivity_check g), recalls, m2)
  end.

(** ** Teardown *)
Definition teardown_one (st : list StateId * DelegationManager) (o : Z) : list StateId * DelegationManager :=
  let '(freed, m) := st in
  match by_stateid m !! o with
  | None => (freed, m)
  | Some i =>
      let m1 := set_tables (dm_files m) (delete o (by_stateid m)) (by_client m) m in
      match dm_files m1 !! i with
      | None => (freed, m1)
      | Some e =>
          match find_first (named o any_record) (fe_records e) with
          | Some r =>
              let m2 := put_entry i (FEntry (remove_first (named o any_record) (fe_records e)) (fe_guards e) (fe_cooldown e)) m1 in
              let m3 := if is_live r then set_live (live_per_client m2) (wrap_u64 (live_global m2 - 1)) m2 else m2 in
              (freed ++ [dr_stateid r], gc_entry i m3)
          | None => (freed, gc_entry i m1)
          end
      end
  end.

Definition cleanup_client_delegations (c : Z) (m : DelegationManager) : list StateId * DelegationManager :=
  match by_client m !! c with
  | None => ([], m)
  | Some others =>
      let m1 := set_tables (dm_files m) (by_stateid m) (delete c (by_client m)) m in
      let '(freed, m2) := foldl teardown_one ([], m1) others in
      let m3 := note_evidence c (set_live (delete c (live_per_client m2)) (live_global m2) m2) in
      (freed, foldl (fun m s => d_release_fd s m) m3 freed)
  end.

(** ** The quiescent check *)
Inductive violation :=
| Misfiled | GrantedUnderGuard | BadIndex | NotIndexed | NotInClientIndex | AppearsTwice | TwoPerClient
| DanglingStateid | DanglingClient | GlobalCount | ClientCount | NoClientCount.

Definition all_records (f : gmap FileId FileEntry) : list DelegRecord := (map_to_list f).*2 ≫= fe_records.

Definition count_if {A} (p : A -> bool) (l : list A) : Z := Z.of_nat (length (filter (fun x => p x = true) l)).
Definition flag (v : violation) (b : bool) : list violation := if b then [v] else [].

Definition check_record (m : DelegationManager) (i : FileId) (e : FileEntry) (r : DelegRecord) : list violation :=
  flag Misfiled (negb (bool_decide (dr_ident r = i))) ++
  flag GrantedUnderGuard ((0 <? fe_guards e) && bool_decide (dr_state r = Granted)) ++
  match by_stateid m !! other r with
  | Some j => flag BadIndex (negb (bool_decide (j = i)))
  | None => [NotIndexed]
  end ++
  flag NotInClientIndex (negb (bool_decide (other r ∈ default [] (by_client m !! dr_client r)))) ++
  flag AppearsTwice (1 <? count_if (fun x => other x =? other r) (all_records (dm_files m))) ++
  flag TwoPerClient (1 <? count_if (fun x => dr_client x =? dr_client r) (fe_records e)).

Definition check_invariants (m : DelegationManager) : list violation :=
  let recs := all_records (dm_files m) in
  let live c := count_if (fun r => is_live r && (dr_client r =? c)) recs in
  (map_to_list (dm_files m) ≫= fun '(i, e) => fe_records e ≫= check_record m i e) ++
  ((map_to_list (by_stateid m)).*1 ≫= fun o => flag DanglingStateid (negb (existsb (fun r => other r =? o) recs))) ++
  ((map_to_list (by_client m)).*2 ≫= fun l => l ≫= fun o => flag DanglingClient (negb (existsb (fun r => other r =? o) recs))) ++
  flag GlobalCount (negb (live_global m =? count_if is_live recs)) ++
  (map_to_list (live_per_client m) ≫= fun '(c, n) => flag ClientCount (negb (n =? live c))) ++
  (recs ≫= fun r => flag NoClientCount ((0 <? live (dr_client r)) && bool_decide (live_per_client m !! dr_client r = None))).
