(* ===== verification/DelegsInv.v ===== *)
(** The delegation table: its indices and counters agree with its records,
    no record is granted under a live mutation guard, and an armed guard
    never sees a foreign live record. *)

From S2P Require Import Prelude Xdr Stateid Delegs.

(** ** Counting *)
Lemma count_if_perm {A} (p : A -> bool) l l' : l ≡ₚ l' -> count_if p l = count_if p l'.
Proof. intros H. unfold count_if. by rewrite H. Qed.
Lemma count_if_app {A} (p : A -> bool) l l' : count_if p (l ++ l') = count_if p l + count_if p l'.
Proof. unfold count_if. rewrite filter_app, length_app. lia. Qed.
Lemma count_if_cons {A} (p : A -> bool) x l : count_if p (x :: l) = (if p x then 1 else 0) + count_if p l.
Proof. unfold count_if. rewrite filter_cons. destruct (p x); case_decide; simpl; try done; lia. Qed.
Lemma count_if_nonneg {A} (p : A -> bool) l : 0 <= count_if p l.
Proof. unfold count_if. lia. Qed.
Lemma count_if_ext {A B} (p : A -> bool) (q : B -> bool) (f : A -> B) l :
  (forall x, x ∈ l -> q (f x) = p x) -> count_if q (f <$> l) = count_if p l.
Proof.
  induction l as [|x l IH]; intros H; [done|]. rewrite fmap_cons, !count_if_cons, H by left.
  rewrite IH; [done|]. intros y Hy. apply H. by right.
Qed.
Lemma count_if_zero {A} (p : A -> bool) l : count_if p l = 0 <-> forall x, x ∈ l -> p x = false.
Proof.
  induction l as [|x l IH]; [split; [by intros _ x ?%elem_of_nil|done]|].
  rewrite count_if_cons. pose proof (count_if_nonneg p l). split.
  - intros H0 y [->|Hy]%elem_of_cons; [destruct (p x); [lia|done]|]. apply IH; [|done]. destruct (p x); lia.
  - intros Hall. rewrite (Hall x) by left. rewrite (proj2 IH); [lia|]. intros y Hy. apply Hall. by right.
Qed.
Lemma count_if_NoDup {A} `{EqDecision B} (f : A -> B) (b : B) l : NoDup (f <$> l) ->
  count_if (fun x => bool_decide (f x = b)) l <= 1.
Proof.
  induction l as [|x l IH]; [done|]. rewrite fmap_cons, NoDup_cons. intros [Hx Hn].
  rewrite count_if_cons. case_bool_decide as Hb; [|specialize (IH Hn); lia].
  assert (count_if (fun x0 => bool_decide (f x0 = b)) l = 0) as ->; [|lia].
  apply count_if_zero. intros y Hy. apply bool_decide_eq_false. intros Hfy. apply Hx. rewrite Hb, <- Hfy.
  apply list_elem_of_fmap. eauto.
Qed.

(** ** Records of the table *)
Notation recs m i := (fe_records (entry_of m i)).
Notation rest m i := (all_records (delete i (dm_files m))).

Lemma all_records_insert f i e : all_records (<[i := e]> f) ≡ₚ fe_records e ++ all_records (delete i f).
Proof.
  unfold all_records. rewrite <- insert_delete_eq.
  rewrite map_to_list_insert by (by rewrite lookup_delete_eq). done.
Qed.

Lemma records_split m i : all_records (dm_files m) ≡ₚ recs m i ++ rest m i.
Proof.
  unfold entry_of. destruct (dm_files m !! i) as [e|] eqn:He; simpl.
  - rewrite <- (insert_id (dm_files m) i e He) at 1. by rewrite all_records_insert.
  - by rewrite delete_id.
Qed.

Lemma elem_all f r : r ∈ all_records f <-> exists i e, f !! i = Some e /\ r ∈ fe_records e.
Proof.
  unfold all_records. rewrite list_elem_of_bind. split.
  - intros (e & Hr & ([i e'] & -> & Hin)%list_elem_of_fmap). apply elem_of_map_to_list in Hin. eauto.
  - intros (i & e & He & Hr). exists e. split; [done|]. apply list_elem_of_fmap. exists (i, e).
    split; [done|]. by apply elem_of_map_to_list.
Qed.

Lemma in_entry m j r : r ∈ recs m j -> exists e, dm_files m !! j = Some e /\ r ∈ fe_records e.
Proof. unfold entry_of. destruct (dm_files m !! j) as [e|]; simpl; [eauto|by intros ?%elem_of_nil]. Qed.

Lemma elem_all_entry m r : r ∈ all_records (dm_files m) <-> exists i, r ∈ recs m i.
Proof.
  rewrite elem_all. split.
  - intros (i & e & He & Hr). exists i. unfold entry_of. by rewrite He.
  - intros (i & Hr). unfold entry_of in Hr. destruct (dm_files m !! i) as [e|] eqn:He; simpl in Hr; [eauto|].
    by apply elem_of_nil in Hr.
Qed.

Lemma entry_put i e m j : entry_of (put_entry i e m) j = if decide (i = j) then e else entry_of m j.
Proof. unfold entry_of. simpl. rewrite lookup_insert. by case_decide. Qed.

Lemma fe_empty_new e : fe_is_empty e = true -> e = FileEntry_new.
Proof.
  unfold fe_is_empty. destruct e as [l g c]. simpl. rewrite !andb_true_iff, !bool_decide_eq_true, Z.eqb_eq.
  intros [[-> ->] ->]. done.
Qed.

(** Garbage collection is invisible. *)
Lemma gc_entry_of i m j : entry_of (gc_entry i m) j = entry_of m j.
Proof.
  unfold gc_entry. destruct (dm_files m !! i) as [e|] eqn:He; [|done].
  destruct (fe_is_empty e) eqn:Hm; [|done]. apply fe_empty_new in Hm as ->.
  unfold entry_of. simpl. rewrite lookup_delete. case_decide; [|done]. subst. by rewrite He.
Qed.
Lemma gc_rest i m : rest (gc_entry i m) i = rest m i.
Proof.
  unfold gc_entry. destruct (dm_files m !! i) as [e|]; [|done]. destruct (fe_is_empty e); [|done]. simpl.
  by rewrite (delete_id (delete i (dm_files m))) by (by rewrite lookup_delete_eq).
Qed.

(** What the invariant reads besides the file map. *)
Definition index_fields (m : DelegationManager) :=
  (by_stateid m, by_client m, live_per_client m, live_global m, max_global m).
Lemma gc_fields i m : index_fields (gc_entry i m) = index_fields m.
Proof. unfold gc_entry. destruct (dm_files m !! i) as [e|]; [|done]. by destruct (fe_is_empty e). Qed.

Definition clist (m : DelegationManager) (c : Z) : list Z := default [] (by_client m !! c).
Definition live_of (c : Z) (r : DelegRecord) : bool := is_live r && (dr_client r =? c).

(** [x]: a client whose teardown is under way. *)
Record deleg_inv_ex (x : option Z) (m : DelegationManager) : Prop := {
  di_file : forall i r, r ∈ recs m i -> dr_ident r = i;
  di_guard : forall i, 0 <= fe_guards (entry_of m i) /\
    (0 < fe_guards (entry_of m i) -> forall r, r ∈ recs m i -> dr_state r <> Granted);
  di_per_client : forall i, NoDup (dr_client <$> recs m i);
  di_ids : NoDup (other <$> all_records (dm_files m));
  di_index : forall o i, by_stateid m !! o = Some i <-> exists r, r ∈ recs m i /\ other r = o;
  di_client : forall c o, x <> Some c -> o ∈ clist m c <->
    exists r, r ∈ all_records (dm_files m) /\ other r = o /\ dr_client r = c;
  di_live : forall c, x <> Some c -> default 0 (live_per_client m !! c) = count_if (live_of c) (all_records (dm_files m));
  di_global : live_global m = count_if is_live (all_records (dm_files m)) /\ live_global m <= u64_max;
  di_max : max_global m <= u64_max }.
Notation deleg_inv := (deleg_inv_ex None).

(** ** Same file map up to empty entries, same indices *)
Lemma inv_entries x m m' i : deleg_inv_ex x m ->
  (forall j, j <> i -> entry_of m' j = entry_of m j) -> rest m' i ≡ₚ rest m i ->
  recs m' i = recs m i ->
  (0 <= fe_guards (entry_of m' i) /\ (0 < fe_guards (entry_of m' i) -> forall r, r ∈ recs m i -> dr_state r <> Granted)) ->
  index_fields m' = index_fields m -> deleg_inv_ex x m'.
Proof.
  intros [] Hj Hrest Hrec Hg [= F1 F2 F3 F4 F5].
  assert (Hre : forall j, recs m' j = recs m j) by (intros j; destruct (decide (j = i)) as [->|]; [done|by rewrite Hj]).
  assert (Hall : all_records (dm_files m') ≡ₚ all_records (dm_files m))
    by (by rewrite (records_split m' i), (records_split m i), Hrec, Hrest).
  split.
  - intros j r. rewrite Hre. apply di_file0.
  - intros j. destruct (decide (j = i)) as [->|Hne]; [by rewrite Hrec|]. rewrite Hj by done. apply di_guard0.
  - intros j. by rewrite Hre.
  - by rewrite Hall.
  - intros o j. rewrite F1, di_index0. by rewrite Hre.
  - intros c o Hx. unfold clist. rewrite F2. fold (clist m c). rewrite di_client0 by done. by setoid_rewrite Hall.
  - intros c Hx. rewrite F3, di_live0 by done. symmetry. by apply count_if_perm.
  - rewrite F4. rewrite (count_if_perm _ _ _ Hall). done.
  - by rewrite F5.
Qed.

Lemma inv_gc x i m : deleg_inv_ex x m -> deleg_inv_ex x (gc_entry i m).
Proof.
  intros Hi. apply (inv_entries x m _ i); [done|intros; apply gc_entry_of|by rewrite gc_rest|by rewrite gc_entry_of| |apply gc_fields].
  rewrite gc_entry_of. apply (di_guard _ _ Hi).
Qed.

Lemma put_rest i e m : rest (put_entry i e m) i = rest m i.
Proof. simpl. by rewrite delete_insert_eq. Qed.

(** Guards and cooldown only. *)
Lemma inv_put_same x i e m : deleg_inv_ex x m -> fe_records e = recs m i ->
  0 <= fe_guards e -> (0 < fe_guards e -> forall r, r ∈ recs m i -> dr_state r <> Granted) ->
  deleg_inv_ex x (put_entry i e m).
Proof.
  intros Hi Hr H0 Hg. apply (inv_entries x m _ i); [done| |by rewrite put_rest| | |done].
  - intros j Hj. rewrite entry_put. by rewrite decide_False.
  - rewrite entry_put. by rewrite decide_True.
  - rewrite entry_put. by rewrite decide_True.
Qed.

(** Logs, breaker and counters of refusals. *)
Lemma inv_frame x m m' : dm_files m' = dm_files m -> index_fields m' = index_fields m ->
  deleg_inv_ex x m -> deleg_inv_ex x m'.
Proof.
  destruct m, m'. unfold index_fields. simpl. intros -> [= -> -> -> -> ->] []. split; assumption.
Qed.

(** ** Records that change state in place *)
Definition key_of (r : DelegRecord) := (other r, dr_client r, dr_ident r).

Lemma key_elem (l l' : list DelegRecord) r : key_of <$> l' = key_of <$> l -> r ∈ l' ->
  exists r0, r0 ∈ l /\ other r0 = other r /\ dr_client r0 = dr_client r /\ dr_ident r0 = dr_ident r.
Proof.
  intros Hk Hr. assert (key_of r ∈ key_of <$> l) as Hin by (rewrite <- Hk; apply list_elem_of_fmap; eauto).
  apply list_elem_of_fmap in Hin as (r0 & [= ? ? ?] & ?). eauto.
Qed.

Lemma inv_rewrite x m m' i : deleg_inv_ex x m ->
  (forall j, j <> i -> entry_of m' j = entry_of m j) -> rest m' i ≡ₚ rest m i ->
  key_of <$> recs m' i = key_of <$> recs m i ->
  (0 <= fe_guards (entry_of m' i) /\ (0 < fe_guards (entry_of m' i) -> forall r, r ∈ recs m' i -> dr_state r <> Granted)) ->
  by_stateid m' = by_stateid m -> by_client m' = by_client m -> max_global m' = max_global m ->
  (forall c, x <> Some c -> default 0 (live_per_client m' !! c) = count_if (live_of c) (all_records (dm_files m'))) ->
  live_global m' = count_if is_live (all_records (dm_files m')) -> live_global m' <= u64_max ->
  deleg_inv_ex x m'.
Proof.
  intros [] Hj Hrest Hkey Hg F1 F2 F3 Hlc Hlg Hle.
  assert (Ho : other <$> recs m' i = other <$> recs m i).
  { change other with ((fun k : Z * Z * (Z * Z) => k.1.1) ∘ key_of). rewrite !list_fmap_compose. by rewrite Hkey. }
  assert (Hc : dr_client <$> recs m' i = dr_client <$> recs m i).
  { change dr_client with ((fun k : Z * Z * (Z * Z) => k.1.2) ∘ key_of). rewrite !list_fmap_compose. by rewrite Hkey. }
  assert (Hin : forall j r, r ∈ recs m' j -> exists r0, r0 ∈ recs m j /\ other r0 = other r /\ dr_client r0 = dr_client r /\ dr_ident r0 = dr_ident r).
  { intros j r. destruct (decide (j = i)) as [->|Hne]; [by apply key_elem|]. rewrite Hj by done. eauto 10. }
  assert (Hin' : forall j r, r ∈ recs m j -> exists r0, r0 ∈ recs m' j /\ other r0 = other r /\ dr_client r0 = dr_client r /\ dr_ident r0 = dr_ident r).
  { intros j r. destruct (decide (j = i)) as [->|Hne]; [by apply key_elem|]. rewrite Hj by done. eauto 10. }
  split; try done.
  - intros j r (r0 & H0 & _ & _ & <-)%Hin. by apply di_file0.
  - intros j. destruct (decide (j = i)) as [->|Hne]; [done|]. rewrite Hj by done. apply di_guard0.
  - intros j. destruct (decide (j = i)) as [->|Hne]; [by rewrite Hc|]. by rewrite Hj.
  - assert (other <$> all_records (dm_files m') ≡ₚ other <$> all_records (dm_files m)) as ->; [|done].
    rewrite (records_split m' i), (records_split m i), !fmap_app, Ho, Hrest. done.
  - intros o j. rewrite F1, di_index0. split.
    + intros (r & (r0 & ? & ? & _)%Hin' & <-). eauto.
    + intros (r & (r0 & ? & ? & _)%Hin & <-). eauto.
  - intros c o Hx. unfold clist. rewrite F2. fold (clist m c). rewrite di_client0 by done.
    setoid_rewrite elem_all_entry. split.
    + intros (r & (j & (r0 & ? & ? & ? & _)%Hin') & <- & <-). eauto 10.
    + intros (r & (j & (r0 & ? & ? & ? & _)%Hin) & <- & <-). eauto 10.
  - by rewrite F3.
Qed.

(** ** A record goes *)
Lemma inv_remove x m m' i r l1 l2 : deleg_inv_ex x m ->
  recs m i = l1 ++ r :: l2 -> recs m' i = l1 ++ l2 -> fe_guards (entry_of m' i) = fe_guards (entry_of m i) ->
  (forall j, j <> i -> entry_of m' j = entry_of m j) -> rest m' i ≡ₚ rest m i ->
  by_stateid m' = delete (other r) (by_stateid m) ->
  (forall c, x <> Some c -> clist m' c = if decide (c = dr_client r) then filter (fun o => o <> other r) (clist m c) else clist m c) ->
  max_global m' = max_global m ->
  (forall c, x <> Some c -> default 0 (live_per_client m' !! c) =
    default 0 (live_per_client m !! c) - (if live_of c r then 1 else 0)) ->
  live_global m' = live_global m - (if is_live r then 1 else 0) ->
  deleg_inv_ex x m' /\ all_records (dm_files m) ≡ₚ r :: all_records (dm_files m').
Proof.
  intros Hi Hold Hnew Hg Hj Hrest F1 F2 F3 F4 F5. pose proof Hi as [].
  assert (Hall : all_records (dm_files m) ≡ₚ r :: all_records (dm_files m')).
  { rewrite (records_split m i), (records_split m' i), Hold, Hnew, Hrest. by rewrite <- Permutation_middle. }
  assert (Hsub : forall j r', r' ∈ recs m' j -> r' ∈ recs m j /\ other r' <> other r).
  { intros j r' Hr'. assert (Hm : r' ∈ recs m j).
    { destruct (decide (j = i)) as [->|Hne]; [|by rewrite <- Hj]. rewrite Hnew in Hr'. rewrite Hold. set_solver. }
    split; [done|]. rewrite Hall, fmap_cons, NoDup_cons in di_ids0. destruct di_ids0 as [Hn _]. intros He. apply Hn.
    rewrite <- He. apply list_elem_of_fmap. exists r'. split; [done|]. apply elem_all_entry. eauto. }
  assert (Hkeep : forall j r', r' ∈ recs m j -> other r' <> other r -> r' ∈ recs m' j).
  { intros j r' Hr' Hne. destruct (decide (j = i)) as [->|]; [|by rewrite Hj].
    rewrite Hold in Hr'. rewrite Hnew. apply elem_of_app. apply elem_of_app in Hr' as [?|[->|?]%elem_of_cons]; auto. done. }
  split; [|done]. split.
  - intros j r' [? _]%Hsub. by apply di_file0.
  - intros j. destruct (decide (j = i)) as [->|Hne]; [|by rewrite Hj]. rewrite Hg. split; [apply di_guard0|].
    intros Hpos r' [? _]%Hsub. by eapply di_guard0.
  - intros j. destruct (decide (j = i)) as [->|Hne]; [|by rewrite Hj]. rewrite Hnew.
    specialize (di_per_client0 i). rewrite Hold, fmap_app, fmap_cons in di_per_client0. rewrite fmap_app.
    by apply NoDup_app in di_per_client0 as (? & ? & [? ?]%NoDup_cons); apply NoDup_app; set_solver.
  - rewrite Hall, fmap_cons, NoDup_cons in di_ids0. by destruct di_ids0.
  - intros o j. rewrite F1, lookup_delete_Some, di_index0. split.
    + intros [Hne (r' & Hr' & <-)]. exists r'. split; [|done]. apply Hkeep; [done|]. congruence.
    + intros (r' & [Hr' Hne]%Hsub & <-). split; [congruence|]. eauto.
  - intros c o Hx. rewrite F2 by done. specialize (di_client0 c o Hx). setoid_rewrite elem_all_entry in di_client0.
    setoid_rewrite elem_all_entry. case_decide as Hc.
    + rewrite list_elem_of_filter, di_client0. split.
      * intros [Hne (r' & (j & Hr') & <- & Hc')]. exists r'. split_and!; [|done|done]. exists j. by apply Hkeep.
      * intros (r' & (j & [Hr' Hne]%Hsub) & <- & Hc'). split; [done|]. eauto 10.
    + rewrite di_client0. split.
      * intros (r' & (j & Hr') & <- & Hc'). exists r'. split_and!; [|done|done]. exists j. apply Hkeep; [done|].
        intros He. assert (r' = r) as ->; [|by destruct Hc].
        assert (Hr : r ∈ all_records (dm_files m)) by (rewrite Hall; by left).
        assert (Hr2 : r' ∈ all_records (dm_files m)) by (apply elem_all_entry; eauto).
        rewrite Hall in Hr2. apply elem_of_cons in Hr2 as [?|Hr2]; [done|].
        rewrite Hall, fmap_cons, NoDup_cons in di_ids0. destruct di_ids0 as [[] _]. rewrite <- He.
        apply list_elem_of_fmap. eauto.
      * intros (r' & (j & [Hr' Hne]%Hsub) & <- & Hc'). eauto 10.
  - intros c Hx. rewrite F4, di_live0 by done. rewrite (count_if_perm _ _ _ Hall), count_if_cons. lia.
  - destruct di_global0 as [Hgl Hle]. rewrite F5, Hgl. rewrite (count_if_perm _ _ _ Hall), count_if_cons in Hgl |- *.
    pose proof (count_if_nonneg is_live (all_records (dm_files m'))). destruct (is_live r); split; lia.
  - by rewrite F3.
Qed.

(** ** Removal paths *)
Lemma find_record_spec m o p i e r : find_record m o p = Some (i, e, r) ->
  by_stateid m !! o = Some i /\ entry_of m i = e /\ other r = o /\ p r = true /\
  exists l1 l2, fe_records e = l1 ++ r :: l2 /\ remove_first (named o p) (fe_records e) = l1 ++ l2 /\
    forall f, update_first (named o p) f (fe_records e) = l1 ++ f r :: l2.
Proof.
  unfold find_record. destruct (by_stateid m !! o) as [i'|] eqn:Hb; [|done]. simpl.
  destruct (dm_files m !! i') as [e'|] eqn:He; [|done]. simpl.
  destruct (find_first (named o p) (fe_records e')) as [r'|] eqn:Hf; [|done]. intros [= <- <- <-].
  apply find_first_split in Hf as (l1 & l2 & Hl & Hp & Hr & Hu).
  unfold named in Hp. apply andb_prop in Hp as [Ho Hp]. bool_Z.
  split_and!; [done|by unfold entry_of; rewrite He|done|done|]. exists l1, l2. done.
Qed.

Lemma drop_client_other_spec c o t d :
  default [] (drop_client_other c o t !! d) =
  if decide (d = c) then filter (fun x => x <> o) (default [] (t !! d)) else default [] (t !! d).
Proof.
  unfold drop_client_other. destruct (t !! c) as [v|] eqn:Hv.
  - rewrite lookup_insert. destruct (decide (c = d)) as [->|Hne].
    + rewrite decide_True by done. by rewrite Hv.
    + by rewrite decide_False by congruence.
  - case_decide; [|done]. subst. by rewrite Hv.
Qed.

Lemma dec_live_spec c t d : 0 < default 0 (t !! c) ->
  default 0 (dec_live_client c t !! d) = default 0 (t !! d) - (if c =? d then 1 else 0).
Proof.
  unfold dec_live_client. destruct (t !! c) as [n|] eqn:Hn; simpl; [|lia]. intros Hpos.
  rewrite lookup_insert. case_decide as Hd; subst.
  - rewrite Z.eqb_refl, Hn. simpl. lia.
  - destruct (c =? d) eqn:E; bool_Z; [done|lia].
Qed.

(** A live record counts in its client's and in the global counter. *)
Lemma live_counted m i r : deleg_inv m -> r ∈ recs m i -> is_live r = true ->
  0 < default 0 (live_per_client m !! dr_client r) /\ 0 < live_global m <= u64_max.
Proof.
  intros Hi Hr Hl. assert (Hin : r ∈ all_records (dm_files m)) by (apply elem_all_entry; eauto).
  apply list_elem_of_split in Hin as (l1 & l2 & Hall).
  rewrite (di_live _ _ Hi) by done. destruct (di_global _ _ Hi) as [Hg Hle]. rewrite Hg in *.
  rewrite Hall, !count_if_app, !count_if_cons. unfold live_of. rewrite Hl, Z.eqb_refl. simpl.
  rewrite Hall, !count_if_app, !count_if_cons, Hl in Hle.
  pose proof (count_if_nonneg is_live l1). pose proof (count_if_nonneg is_live l2).
  pose proof (count_if_nonneg (fun r0 => is_live r0 && (dr_client r0 =? dr_client r)) l1).
  pose proof (count_if_nonneg (fun r0 => is_live r0 && (dr_client r0 =? dr_client r)) l2). lia.
Qed.

(** [unindex] after the record left its file's list. *)
Lemma remove_unindex m i e r l1 l2 g cd : deleg_inv m -> entry_of m i = e -> fe_records e = l1 ++ r :: l2 ->
  g = fe_guards e ->
  let m' := unindex r (put_entry i (FEntry (l1 ++ l2) g cd) m) in
  deleg_inv m' /\ (forall j, entry_of m' j = if decide (i = j) then FEntry (l1 ++ l2) g cd else entry_of m j).
Proof.
  intros Hi He Hl -> m'. assert (Hr : r ∈ recs m i) by (rewrite He, Hl; set_solver).
  pose proof (di_file _ _ Hi _ _ Hr) as Hid.
  assert (Hent : forall j, entry_of m' j = if decide (i = j) then FEntry (l1 ++ l2) (fe_guards e) cd else entry_of m j).
  { intros j. unfold m', unindex. rewrite gc_entry_of, <- entry_put. by destruct (is_live r). }
  split; [|done].
  assert (Hrest : rest m' i ≡ₚ rest m i).
  { unfold m', unindex. rewrite Hid, gc_rest, <- (put_rest i (FEntry (l1 ++ l2) (fe_guards e) cd) m). by destruct (is_live r). }
  assert (Hf : index_fields m' = (delete (other r) (by_stateid m), drop_client_other (dr_client r) (other r) (by_client m),
    (if is_live r then dec_live_client (dr_client r) (live_per_client m) else live_per_client m),
    (if is_live r then wrap_u64 (live_global m - 1) else live_global m), max_global m)).
  { unfold m', unindex. rewrite gc_fields. by destruct (is_live r). }
  injection Hf as F1 F2 F3 F4 F5.
  apply (inv_remove None m m' i r l1 l2); try done.
  - by rewrite He.
  - rewrite Hent, decide_True by done. done.
  - rewrite Hent, decide_True by done. by rewrite He.
  - intros j Hne. rewrite Hent, decide_False by done. done.
  - intros c _. unfold clist. rewrite F2. apply drop_client_other_spec.
  - intros c _. rewrite F3. unfold live_of. destruct (is_live r) eqn:Hlv; simpl; [|lia].
    destruct (live_counted m i r Hi Hr Hlv) as [Hp _]. by apply dec_live_spec.
  - rewrite F4. destruct (is_live r) eqn:Hlv; simpl; [|lia].
    destruct (live_counted m i r Hi Hr Hlv) as [_ Hp]. apply wrap_u64_id. bounds.
Qed.

(** ** States that change *)
Definition keeps_key (f : DelegRecord -> DelegRecord) : Prop := forall r, key_of (f r) = key_of r.

Lemma update_inv m i e r l1 l2 f cd : deleg_inv m -> entry_of m i = e -> fe_records e = l1 ++ r :: l2 ->
  key_of (f r) = key_of r -> (dr_state (f r) = Granted -> dr_state r = Granted) ->
  let m1 := put_entry i (FEntry (l1 ++ f r :: l2) (fe_guards e) cd) m in
  let drop := is_live r && negb (is_live (f r)) in
  (is_live (f r) = true -> is_live r = true) ->
  let m' := if drop then set_live (dec_live_client (dr_client r) (live_per_client m1)) (wrap_u64 (live_global m1 - 1)) m1 else m1 in
  deleg_inv m'.
Proof.
  intros Hi He Hl Hk Hs m1 drop Hmono m'. assert (Hr : r ∈ recs m i) by (rewrite He, Hl; set_solver).
  assert (Hent : forall j, entry_of m' j = if decide (i = j) then FEntry (l1 ++ f r :: l2) (fe_guards e) cd else entry_of m j).
  { intros j. rewrite <- entry_put. unfold m'. by destruct drop. }
  assert (Hrest : rest m' i ≡ₚ rest m i).
  { rewrite <- (put_rest i (FEntry (l1 ++ f r :: l2) (fe_guards e) cd) m). unfold m'. by destruct drop. }
  assert (Hall : all_records (dm_files m') ≡ₚ f r :: (l1 ++ l2) ++ rest m i).
  { rewrite (records_split m' i), Hrest, Hent, decide_True by done. simpl. by rewrite <- Permutation_middle. }
  assert (Hall0 : all_records (dm_files m) ≡ₚ r :: (l1 ++ l2) ++ rest m i).
  { rewrite (records_split m i), He, Hl. by rewrite <- Permutation_middle. }
  assert (Hcl : dr_client (f r) = dr_client r) by (unfold key_of in Hk; congruence).
  assert (Hf : index_fields m' = (by_stateid m, by_client m,
    (if drop then dec_live_client (dr_client r) (live_per_client m) else live_per_client m),
    (if drop then wrap_u64 (live_global m - 1) else live_global m), max_global m)) by (unfold m'; by destruct drop).
  injection Hf as F1 F2 F3 F4 F5. destruct (di_global _ _ Hi) as [Hg Hle].
  assert (Hglob : live_global m' = live_global m - (if drop then 1 else 0)).
  { rewrite F4. unfold drop in *. destruct (is_live r) eqn:Hlv, (is_live (f r)); simpl; try lia.
    destruct (live_counted m i r Hi Hr Hlv) as [_ Hp]. apply wrap_u64_id. bounds. }
  apply (inv_rewrite None m m' i); try done.
  - intros j Hne. rewrite Hent, decide_False by done. done.
  - rewrite Hent, decide_True, He, Hl by done. simpl. rewrite !fmap_app, !fmap_cons, Hk. done.
  - rewrite Hent, decide_True by done. simpl. rewrite <- He. split; [apply (di_guard _ _ Hi)|].
    intros Hpos r'. rewrite elem_of_app, elem_of_cons. intros Hr' Hgr. destruct (di_guard _ _ Hi i) as [_ Hn].
    destruct Hr' as [Hr'|[->|Hr']].
    + apply (Hn Hpos r'); [rewrite He, Hl; set_solver|done].
    + apply (Hn Hpos r); [done|by apply Hs].
    + apply (Hn Hpos r'); [rewrite He, Hl; set_solver|done].
  - intros c _. rewrite (count_if_perm _ _ _ Hall), count_if_cons, F3.
    pose proof (di_live _ _ Hi c ltac:(done)) as Hc. rewrite (count_if_perm _ _ _ Hall0), count_if_cons in Hc.
    unfold live_of at 1 in Hc. unfold live_of at 1. rewrite Hcl. unfold drop in *.
    destruct (is_live r) eqn:Hlv, (is_live (f r)); simpl in *; try lia; try (by specialize (Hmono eq_refl)).
    destruct (live_counted m i r Hi Hr Hlv) as [Hp _]. rewrite dec_live_spec by done. lia.
  - rewrite Hglob, Hg, (count_if_perm _ _ _ Hall), (count_if_perm _ _ _ Hall0), !count_if_cons. unfold drop.
    destruct (is_live r), (is_live (f r)); simpl; try lia; by specialize (Hmono eq_refl).
  - rewrite Hglob. destruct drop; lia.
Qed.

(** ** Operations that add no live record and touch no guard *)
Definition sub_live (m m' : DelegationManager) : Prop := forall j r', r' ∈ recs m' j -> is_live r' = true ->
  exists r, r ∈ recs m j /\ is_live r = true /\ key_of r = key_of r'.
Record calm (m m' : DelegationManager) : Prop := {
  cm_inv : deleg_inv m'; cm_live : sub_live m m';
  cm_guards : forall j, fe_guards (entry_of m' j) = fe_guards (entry_of m j) }.

Lemma calm_refl m : deleg_inv m -> calm m m.
Proof. intros Hi. split; [done| |done]. intros j r ? ?. eauto. Qed.
Lemma calm_trans m1 m2 m3 : calm m1 m2 -> calm m2 m3 -> calm m1 m3.
Proof.
  intros [A1 A2 A3] [B1 B2 B3]. split; [done| |intros j; by rewrite B3].
  intros j r Hr Hl. destruct (B2 j r Hr Hl) as (r1 & Hr1 & Hl1 & Hc1).
  destruct (A2 j r1 Hr1 Hl1) as (r2 & ? & ? & ?). exists r2. split_and!; [done|done|congruence].
Qed.

(** Only logs, the breaker or refusal counters differ. *)
Lemma calm_frame m m1 m' : dm_files m' = dm_files m1 -> index_fields m' = index_fields m1 -> calm m m1 -> calm m m'.
Proof.
  intros Hf Hx [H1 H2 H3]. assert (He : forall j, entry_of m' j = entry_of m1 j) by (intros; unfold entry_of; by rewrite Hf).
  split; [by apply (inv_frame None m1)| |intros j; by rewrite He].
  intros j r. rewrite He. apply H2.
Qed.

Lemma remove_calm m i e r l1 l2 cd : deleg_inv m -> entry_of m i = e -> fe_records e = l1 ++ r :: l2 ->
  calm m (unindex r (put_entry i (FEntry (l1 ++ l2) (fe_guards e) cd) m)).
Proof.
  intros Hi He Hl. destruct (remove_unindex m i e r l1 l2 (fe_guards e) cd Hi He Hl eq_refl) as [H1 H2].
  split; [done| |].
  - intros j r' Hr' Hlv. rewrite H2 in Hr'. exists r'. split_and!; try done. case_decide as Hj; [|done].
    subst. rewrite Hl. set_solver.
  - intros j. rewrite H2. case_decide; [|done]. by subst.
Qed.

Lemma settle_shape now cool b e : exists cd, settle now cool b e = FEntry (fe_records e) (fe_guards e) cd.
Proof. unfold settle. destruct (_ && _); [eauto|]. exists (fe_cooldown e). by destruct e. Qed.

Lemma return_calm s now m : deleg_inv m -> calm m (return_delegation s now m).2.
Proof.
  intros Hi. unfold return_delegation. destruct (find_record m (sid_other s) any_record) as [[[i e] r]|] eqn:Hf;
    [|by apply calm_refl].
  destruct (is_revoked r); [by apply calm_refl|]. destruct (_ && _); [by apply calm_refl|]. cbn [snd].
  apply find_record_spec in Hf as (_ & He & _ & _ & l1 & l2 & Hl & Hr & _). rewrite Hr.
  destruct (settle_shape now (cooldown m) (negb (bool_decide (dr_state r = Granted)))
    (FEntry (l1 ++ l2) (fe_guards e) (fe_cooldown e))) as [cd ->]. simpl fe_records. simpl fe_guards.
  eapply calm_frame; [| |by apply (remove_calm m i e r l1 l2 cd)]; done.
Qed.

Lemma disown_calm s now m : deleg_inv m -> calm m (resolve_disown s now m).2.
Proof.
  intros Hi. unfold resolve_disown. destruct (find_record m (sid_other s) under_recall) as [[[i e] r]|] eqn:Hf;
    [|by apply calm_refl]. cbn [snd].
  apply find_record_spec in Hf as (_ & He & _ & _ & l1 & l2 & Hl & Hr & _). rewrite Hr.
  destruct (settle_shape now (cooldown m) true (FEntry (l1 ++ l2) (fe_guards e) (fe_cooldown e))) as [cd ->].
  simpl fe_records. simpl fe_guards.
  eapply calm_frame; [| |by apply (remove_calm m i e r l1 l2 cd)]; done.
Qed.

Lemma free_calm s m : deleg_inv m -> calm m (free_revoked s m).2.
Proof.
  intros Hi. unfold free_revoked. destruct (find_record m (sid_other s) is_revoked) as [[[i e] r]|] eqn:Hf;
    [|by apply calm_refl]. cbn [snd].
  apply find_record_spec in Hf as (_ & He & _ & Hrv & l1 & l2 & Hl & Hr & _). rewrite Hr.
  pose proof (remove_calm m i e r l1 l2 (fe_cooldown e) Hi He Hl) as Hc.
  assert (Hid : dr_ident r = i) by (apply (di_file _ _ Hi); rewrite He, Hl; set_solver).
  eapply calm_frame; [| |exact Hc]; unfold unindex, is_live; rewrite Hid; unfold is_revoked in Hrv; rewrite Hrv; done.
Qed.

Lemma with_record_calm o f m : deleg_inv m ->
  (forall r, key_of (f r) = key_of r /\ (dr_state (f r) = Granted -> dr_state r = Granted) /\ is_live (f r) = is_live r) ->
  calm m (with_record o f m).
Proof.
  intros Hi Hfr. unfold with_record. destruct (find_record m o any_record) as [[[i e] r]|] eqn:Hf; [|by apply calm_refl].
  apply find_record_spec in Hf as (_ & He & _ & _ & l1 & l2 & Hl & _ & Hu). rewrite Hu.
  destruct (Hfr r) as (Hk & Hg & Hlv).
  pose proof (update_inv m i e r l1 l2 f (fe_cooldown e) Hi He Hl Hk Hg) as Hup. rewrite Hlv in Hup.
  assert (Hno : is_live r && negb (is_live r) = false) by (by destruct (is_live r)). rewrite Hno in Hup.
  split; [by apply Hup| |].
  - intros j r'. rewrite entry_put. case_decide as Hj; [subst|eauto]. simpl. rewrite elem_of_app, elem_of_cons.
    intros [Hr'|[->|Hr']] Hlr.
    + exists r'. rewrite Hl. set_solver.
    + exists r. rewrite Hl, <- Hlv. split_and!; [set_solver|done|done].
    + exists r'. rewrite Hl. set_solver.
  - intros j. rewrite entry_put. case_decide; [|done]. by subst.
Qed.

Lemma first_transmit_calm s now m : deleg_inv m -> calm m (note_first_transmit s now m).
Proof. intros Hi. apply with_record_calm; [done|]. intros r. by destruct (_ && _). Qed.
Lemma recall_acked_calm s m : deleg_inv m -> calm m (note_recall_acked s m).
Proof.
  intros Hi. apply with_record_calm; [done|]. intros r. case_bool_decide as Hb; [|done]. split_and!; [done|done|].
  unfold is_live. simpl. by rewrite Hb.
Qed.

(** Revocation: the record stays as a tombstone. *)
Lemma revoke_spec s now m : deleg_inv m -> let m' := (deleg_revoke s now m).2 in
  calm m m' /\
  (forall j r', r' ∈ recs m' j -> is_live r' = true -> r' ∈ recs m j /\
    (other r' = sid_other s -> under_recall r' = false)).
Proof.
  intros Hi m'. unfold m', deleg_revoke. destruct (find_record m (sid_other s) any_record) as [[[i e] r]|] eqn:Hf.
  2: { cbn [snd]. split; [by apply calm_refl|]. intros j r' Hr' _. split; [done|]. intros Ho. exfalso.
       unfold find_record in Hf. rewrite (proj2 (di_index _ _ Hi (sid_other s) j)) in Hf by eauto. simpl in Hf.
       apply in_entry in Hr' as (e & He & Hr'). rewrite He in Hf. simpl in Hf.
       destruct (find_first (named (sid_other s) any_record) (fe_records e)) eqn:Hff; [done|].
       rewrite find_first_None in Hff. specialize (Hff r' Hr'). unfold named, any_record in Hff.
       rewrite Ho, Z.eqb_refl in Hff. done. }
  apply find_record_spec in Hf as (Hb & He & Ho & _ & l1 & l2 & Hl & _ & Hu).
  assert (Hr : r ∈ recs m i) by (rewrite He, Hl; set_solver).
  assert (Huniq : forall j r', r' ∈ recs m j -> other r' = sid_other s -> r' = r).
  { intros j r' Hr' Ho'. assert (H1 : r' ∈ all_records (dm_files m)) by (apply elem_all_entry; eauto).
    assert (H2 : r ∈ all_records (dm_files m)) by (apply elem_all_entry; eauto).
    pose proof (di_ids _ _ Hi) as Hn. apply list_elem_of_lookup in H1 as [a Ha], H2 as [b Hb'].
    assert (a = b) as ->; [|congruence].
    apply (NoDup_lookup _ a b (sid_other s) Hn); rewrite list_lookup_fmap; [rewrite Ha|rewrite Hb']; simpl; congruence. }
  destruct (under_recall r) eqn:Hur; simpl.
  2: { cbn [snd]. split; [by apply calm_refl|]. intros j r' Hr' _. split; [done|]. intros Ho'. by rewrite (Huniq j r' Hr' Ho'). }
  rewrite Hu. set (r1 := set_state DRevoked (dr_first_transmit r) r).
  destruct (settle_shape now (cooldown m) true (FEntry (l1 ++ r1 :: l2) (fe_guards e) (fe_cooldown e))) as [cd Hcd].
  rewrite Hcd. simpl fe_records. simpl fe_guards.
  assert (Hlr : is_live r = true).
  { unfold under_recall in Hur. unfold is_live. apply orb_true_iff in Hur. rewrite !bool_decide_eq_true in Hur.
    destruct Hur as [-> | ->]; done. }
  pose proof (update_inv m i e r l1 l2 (fun x => set_state DRevoked (dr_first_transmit x) x) cd Hi He Hl) as Hup.
  simpl in Hup. rewrite Hlr in Hup. simpl in Hup. specialize (Hup eq_refl ltac:(done) ltac:(done)).
  assert (Hc : calm m (set_live (dec_live_client (dr_client r) (live_per_client m)) (wrap_u64 (live_global m - 1))
    (put_entry i (FEntry (l1 ++ r1 :: l2) (fe_guards e) cd) m))).
  { split; [exact Hup| |].
    - intros j r'. change (entry_of (set_live _ _ ?x)) with (entry_of x). rewrite entry_put.
      case_decide as Hj; [subst|eauto]. simpl. rewrite elem_of_app, elem_of_cons.
      intros [Hr'|[->|Hr']] Hlr'; [|done|]; (exists r'; rewrite Hl; set_solver).
    - intros j. change (entry_of (set_live _ _ ?x)) with (entry_of x). rewrite entry_put. case_decide; [|done]. by subst. }
  split; [by eapply calm_frame; [..|exact Hc]|].
  intros j r'. match goal with |- context[entry_of ?x j] => change (entry_of x j) with
    (entry_of (put_entry i (FEntry (l1 ++ r1 :: l2) (fe_guards e) cd) m) j) end.
  rewrite entry_put. case_decide as Hj; [subst j|].
  - simpl. rewrite elem_of_app, elem_of_cons. intros Hr' Hlv'.
    assert (Hr'' : r' ∈ l1 \/ r' ∈ l2) by (destruct Hr' as [?|[->|?]]; [by left|done|by right]).
    assert (Hm : r' ∈ recs m i) by (rewrite He, Hl; set_solver). split; [done|]. intros Ho'. exfalso.
    assert (Hn : NoDup (other <$> recs m i)).
    { pose proof (di_ids _ _ Hi) as Hn. rewrite (records_split m i), fmap_app in Hn. by apply NoDup_app in Hn as [? _]. }
    rewrite He, Hl, fmap_app, fmap_cons in Hn. apply NoDup_app in Hn as (_ & Hn1 & [Hn2 _]%NoDup_cons).
    destruct Hr'' as [Hr''|Hr''].
    + apply (Hn1 (other r')); [apply list_elem_of_fmap; eauto|]. rewrite Ho', <- Ho. by left.
    + apply Hn2. rewrite Ho, <- Ho'. apply list_elem_of_fmap. eauto.
  - intros Hr' Hlv'. split; [done|]. intros Ho'. exfalso. apply Hj.
    pose proof (Huniq j r' Hr' Ho') as ->. rewrite <- (di_file _ _ Hi _ _ Hr), <- (di_file _ _ Hi _ _ Hr'). done.
Qed.

Lemma revoke_all_spec l now : forall m, deleg_inv m ->
  let m' := revoke_all l now m in
  calm m m' /\
  (forall j r', r' ∈ recs m' j -> is_live r' = true -> r' ∈ recs m j /\
    forall s, s ∈ l -> other r' = sid_other s -> under_recall r' = false).
Proof.
  induction l as [|s l IH]; intros m Hi; cbn [revoke_all foldl].
  { split; [by apply calm_refl|]. intros j r' Hr' _. split; [done|]. intros s ?%elem_of_nil. done. }
  destruct (revoke_spec s now m Hi) as [Hc Hs]. destruct (IH _ (cm_inv _ _ Hc)) as [Hc2 Hs2].
  split; [by eapply calm_trans|]. intros j r' Hr' Hl. destruct (Hs2 j r' Hr' Hl) as [Hr1 Hn1].
  destruct (Hs j r' Hr1 Hl) as [Hr0 Hn0]. split; [done|]. intros s' [->|Hin]%elem_of_cons; [done|by apply Hn1].
Qed.

(** ** The fence *)
Section fence.
Context (mutator : option Z) (truncate : bool) (now : Z) (lapsed : Z -> bool).

Definition recalled (r : DelegRecord) : DelegRecord :=
  match dr_state r with Granted => start_recall now truncate r | _ => r end.
Definition gone (r : DelegRecord) : bool :=
  bool_decide (dr_state r = Granted) && foreign mutator r && lapsed (dr_client r).
Definition waits (r : DelegRecord) : bool := is_live r && foreign mutator r && negb (gone r).

Lemma fence_fold l : forall a b x fl, exists b',
  foldl (fence_record mutator truncate now lapsed) (a, b, x, fl) l =
  (a ++ (recalled <$> l), b', x ++ (dr_stateid <$> filter (fun r => gone r = true) l), fl || existsb waits l).
Proof.
  induction l as [|r l IH]; intros a b x fl; cbn [foldl].
  { exists b. simpl. by rewrite !app_nil_r, orb_false_r. }
  assert (Hstep : exists b1, fence_record mutator truncate now lapsed (a, b, x, fl) r =
    (a ++ [recalled r], b1, x ++ (dr_stateid <$> filter (fun r => gone r = true) [r]), fl || waits r)).
  { unfold fence_record, recalled, waits, gone, is_live. rewrite filter_cons, filter_nil.
    destruct (dr_state r) eqn:Hs; rewrite ?bool_decide_eq_true_2, ?(bool_decide_eq_false_2 (_ = Granted)),
      ?(bool_decide_eq_false_2 (_ = DRevoked)) by done; simpl; rewrite ?andb_true_r, ?andb_false_r, ?orb_false_r, ?app_nil_r; eauto.
    destruct (foreign mutator r), (lapsed (dr_client r)); simpl; rewrite ?orb_false_r, ?app_nil_r; eauto. }
  destruct Hstep as [b1 ->]. destruct (IH (a ++ [recalled r]) b1 (x ++ (dr_stateid <$> filter (fun r => gone r = true) [r])) (fl || waits r)) as [b' ->].
  exists b'. rewrite <- !(assoc_L (++)). cbn [existsb fmap list_fmap]. rewrite <- orb_assoc.
  rewrite <- fmap_app, <- filter_app. done.
Qed.

Lemma recalled_key r : key_of (recalled r) = key_of r.
Proof. unfold recalled. by destruct (dr_state r). Qed.
Lemma recalled_live r : is_live (recalled r) = is_live r.
Proof. unfold recalled, is_live. destruct (dr_state r) eqn:E; simpl; by rewrite ?E. Qed.
Lemma recalled_not_granted r : dr_state (recalled r) <> Granted.
Proof. unfold recalled. destruct (dr_state r) eqn:E; simpl; congruence. Qed.

(** Putting the recalled records and one more guard in. *)
Lemma fence_put i m : deleg_inv m ->
  let e := entry_of m i in
  let m1 := put_entry i (FEntry (recalled <$> fe_records e) (fe_guards e + 1) (fe_cooldown e)) m in
  deleg_inv m1 /\ sub_live m m1.
Proof.
  intros Hi e m1. assert (Hent : forall j, entry_of m1 j =
    if decide (i = j) then FEntry (recalled <$> fe_records e) (fe_guards e + 1) (fe_cooldown e) else entry_of m j).
  { intros j. apply entry_put. }
  assert (Hcnt : forall p, (forall r, p (recalled r) = p r) -> count_if p (all_records (dm_files m1)) = count_if p (all_records (dm_files m))).
  { intros p Hp. rewrite (count_if_perm p _ _ (records_split m1 i)), (count_if_perm p _ _ (records_split m i)), !count_if_app.
    rewrite Hent, decide_True by done. simpl. rewrite delete_insert_eq.
    rewrite (count_if_ext p p recalled); [done|]. intros; apply Hp. }
  destruct (di_global _ _ Hi) as [Hg Hle]. destruct (di_guard _ _ Hi i) as [Hg0 _]. split.
  - apply (inv_rewrite None m m1 i); try done.
    + intros j Hne. rewrite Hent, decide_False by done. done.
    + unfold m1. rewrite put_rest. done.
    + rewrite Hent, decide_True by done. simpl. rewrite <- list_fmap_compose. apply list_fmap_ext. intros; apply recalled_key.
    + rewrite Hent, decide_True by done. simpl. split; [fold e in Hg0; lia|]. intros _ r (r0 & -> & _)%list_elem_of_fmap.
      apply recalled_not_granted.
    + intros c _. rewrite Hcnt; [by apply (di_live _ _ Hi)|]. intros r. unfold live_of. rewrite recalled_live.
      pose proof (recalled_key r) as Hk. unfold key_of in Hk. by replace (dr_client (recalled r)) with (dr_client r) by congruence.
    + rewrite Hcnt; [done|]. intros r. apply recalled_live.
  - intros j r'. rewrite Hent. case_decide as Hj; [subst j|eauto]. simpl.
    intros (r & -> & Hr)%list_elem_of_fmap Hl. exists r. rewrite recalled_live in Hl. split_and!; try done. by rewrite recalled_key.
Qed.
End fence.

(** The guard's mutator is the only client left with a live record. *)
Definition quiet (g : MutationGuard) (m : DelegationManager) : Prop :=
  forall r, r ∈ recs m (mg_ident g) -> is_live r = true -> Some (dr_client r) = mg_mutator g.

Lemma quiet_release g m : quiet g m <-> foreign_live_at_release g (entry_of m (mg_ident g)) = None.
Proof.
  unfold quiet, foreign_live_at_release. destruct (find_first _ _) as [r|] eqn:Hf; simpl.
  - apply find_first_Some in Hf as [Hr [Hfo Hl]%andb_prop]. split; [|done]. intros Hq. exfalso.
    unfold foreign in Hfo. apply negb_true_iff, bool_decide_eq_false in Hfo. by apply Hfo, Hq.
  - rewrite find_first_None in Hf. split; [done|]. intros _ r Hr Hl. specialize (Hf r Hr). rewrite Hl, andb_true_r in Hf.
    unfold foreign in Hf. by apply negb_false_iff, bool_decide_eq_true in Hf.
Qed.

Lemma drop_guard_spec g m : deleg_inv m -> 0 < fe_guards (entry_of m (mg_ident g)) ->
  let m' := drop_guard g m in
  deleg_inv m' /\ (forall j, recs m' j = recs m j) /\
  forall j, fe_guards (entry_of m' j) = fe_guards (entry_of m j) - (if decide (mg_ident g = j) then 1 else 0).
Proof.
  intros Hi Hpos m'. unfold m', drop_guard.
  destruct (dm_files m !! mg_ident g) as [e|] eqn:He.
  2: { unfold entry_of in Hpos. rewrite He in Hpos. simpl in Hpos. lia. }
  assert (Hen : entry_of m (mg_ident g) = e) by (unfold entry_of; by rewrite He). rewrite Hen in Hpos.
  set (e1 := FEntry _ _ _). split_and!.
  - apply inv_gc, inv_put_same; [done|by rewrite Hen|simpl; lia|]. simpl. intros _.
    apply (di_guard _ _ Hi). rewrite Hen. done.
  - intros j. rewrite gc_entry_of, entry_put. case_decide; [|done]. subst j. by rewrite Hen.
  - intros j. rewrite gc_entry_of, entry_put. case_decide as Hj; [|lia]. subst j. rewrite Hen. simpl. lia.
Qed.

(** Every foreign live record of the guard's file is in [l]. *)
Definition owed (g : MutationGuard) (l : list StateId) (m : DelegationManager) : Prop :=
  forall r, r ∈ recs m (mg_ident g) -> is_live r = true -> Some (dr_client r) = mg_mutator g \/
    exists s, s ∈ l /\ sid_other s = other r.

Lemma owed_nil g m : owed g [] m <-> quiet g m.
Proof.
  split; intros H r Hr Hl; [|by left; apply H].
  destruct (H r Hr Hl) as [?|(s & ?%elem_of_nil & _)]; done.
Qed.

Lemma sub_owed g l m m' : sub_live m m' -> owed g l m -> owed g l m'.
Proof.
  intros Hc Hq r' Hr' Hl. destruct (Hc _ r' Hr' Hl) as (r & Hr & Hlr & [= Hk1 Hk2 _]).
  rewrite <- Hk1, <- Hk2. by apply Hq.
Qed.

(** Under a guard nothing is granted, so a live record is under recall and
    a revocation removes it from what is owed. *)
Lemma revoke_owed g s l now m : deleg_inv m -> 0 < fe_guards (entry_of m (mg_ident g)) ->
  owed g (s :: l) m -> owed g l (deleg_revoke s now m).2.
Proof.
  intros Hi Hpos Ho r' Hr' Hl. destruct (revoke_spec s now m Hi) as [Hc Hrv].
  destruct (Hrv _ r' Hr' Hl) as [Hr Hnot]. destruct (Ho r' Hr Hl) as [?|(s' & [->|Hin]%elem_of_cons & Hs)]; [by left| |eauto].
  exfalso. destruct (di_guard _ _ Hi (mg_ident g)) as [_ Hg]. specialize (Hg Hpos r' Hr).
  specialize (Hnot (eq_sym Hs)). unfold under_recall, is_live in *. by destruct (dr_state r').
Qed.

Lemma revoke_all_owed g l now : forall m, deleg_inv m -> 0 < fe_guards (entry_of m (mg_ident g)) ->
  owed g l m -> calm m (revoke_all l now m) /\ quiet g (revoke_all l now m).
Proof.
  induction l as [|s l IH]; intros m Hi Hpos Ho; cbn [revoke_all foldl].
  { split; [by apply calm_refl|]. by apply owed_nil. }
  destruct (revoke_spec s now m Hi) as [Hc _].
  destruct (IH (deleg_revoke s now m).2 (cm_inv _ _ Hc)) as [Hc2 Hq]; [by rewrite (cm_guards _ _ Hc)|by apply revoke_owed|].
  split; [by eapply calm_trans|done].
Qed.

(** The locked part of the fence: a guard is taken, nothing stays granted;
    unless it must wait, every foreign live record is among the expired. *)
Lemma mutation_fence_spec i mutator truncate now lapsed m : deleg_inv m ->
  let '(out, m') := mutation_fence i mutator truncate now lapsed m in
  deleg_inv m' /\ sub_live m m' /\
  (forall j, fe_guards (entry_of m' j) = fe_guards (entry_of m j) + (if decide (i = j) then 1 else 0)) /\
  match out with
  | Clear g => g = Guard i mutator true /\ quiet g m'
  | Conflict g _ expired delay => g = Guard i mutator (negb delay && bool_decide (expired = [])) /\
      (if delay then exists r, r ∈ recs m i /\ is_live r = true /\ Some (dr_client r) <> mutator else owed g expired m')
  end.
Proof.
  intros Hi. destruct (fence_put truncate now i m Hi) as [Hi1 Hs1]. cbv zeta in Hi1, Hs1.
  set (m1 := put_entry i (FEntry (recalled truncate now <$> recs m i) (fe_guards (entry_of m i) + 1) (fe_cooldown (entry_of m i))) m) in *.
  assert (Hent : forall j, entry_of m1 j = if decide (i = j) then FEntry (recalled truncate now <$> recs m i)
    (fe_guards (entry_of m i) + 1) (fe_cooldown (entry_of m i)) else entry_of m j) by (intros; apply entry_put).
  assert (Hg1 : forall j, fe_guards (entry_of m1 j) = fe_guards (entry_of m j) + (if decide (i = j) then 1 else 0)).
  { intros j. rewrite Hent. case_decide; [by subst|lia]. }
  unfold mutation_fence. case_bool_decide as Hnil.
  { assert (Hm1 : put_entry i (FEntry (recs m i) (fe_guards (entry_of m i) + 1) (fe_cooldown (entry_of m i))) m = m1)
      by (unfold m1; by rewrite Hnil).
    rewrite Hm1. split_and!; try done. intros r Hr. simpl in Hr. rewrite Hent, decide_True, Hnil in Hr by done.
    by apply elem_of_nil in Hr. }
  destruct (fence_fold mutator truncate now lapsed (recs m i) [] [] [] false) as [b' Hff]. rewrite Hff. simpl app. fold m1.
  set (exp := dr_stateid <$> filter (fun r => gone mutator lapsed r = true) (recs m i)).
  cbn [orb]. destruct (existsb (waits mutator lapsed) (recs m i)) eqn:Hfl.
  { rewrite andb_false_r. split_and!; try done.
    apply existsb_exists in Hfl as (r & Hr%list_elem_of_In & Hw). unfold waits in Hw.
    apply andb_prop in Hw as [[Hl Hfo]%andb_prop _]. exists r. split_and!; try done.
    unfold foreign in Hfo. by apply negb_true_iff, bool_decide_eq_false in Hfo. }
  assert (Howed : forall b, owed (Guard i mutator b) exp m1).
  { intros b r'. simpl. rewrite Hent, decide_True by done. simpl. intros (r & -> & Hr)%list_elem_of_fmap Hl.
    rewrite recalled_live in Hl. pose proof (recalled_key truncate now r) as [= Hk1 Hk2 _]. rewrite Hk1, Hk2.
    destruct (waits mutator lapsed r) eqn:Hw.
    { rewrite <- not_true_iff_false, existsb_exists in Hfl. destruct Hfl. exists r. split; [by apply list_elem_of_In|done]. }
    unfold waits in Hw. rewrite Hl in Hw. simpl in Hw. unfold foreign in Hw. case_bool_decide as Hmu; [by left|].
    right. exists (dr_stateid r). split; [|done]. apply list_elem_of_fmap. exists r. split; [done|].
    apply list_elem_of_filter. split; [|done]. by apply negb_false_iff in Hw. }
  destruct (bool_decide (length b' = 0%nat) && bool_decide (exp = []) && negb false) eqn:Hclear; [|done].
  apply andb_prop in Hclear as [[_ He]%andb_prop _]. apply bool_decide_eq_true in He.
  split_and!; try done. apply owed_nil. by rewrite <- He.
Qed.

(** A whole consult of the fence: it proceeds with an armed guard and no
    foreign live record on the file, or it delays and leaves no guard. *)
Lemma fence_spec i mutator truncate now lapsed m : deleg_inv m ->
  match fence_verdict i mutator truncate now lapsed m with
  | (Some g, _, m') => deleg_inv m' /\ sub_live m m' /\ g = Guard i mutator true /\ quiet g m' /\
      forall j, fe_guards (entry_of m' j) = fe_guards (entry_of m j) + (if decide (i = j) then 1 else 0)
  | (None, _, m') => calm m m' /\
      exists r, r ∈ recs m i /\ is_live r = true /\ Some (dr_client r) <> mutator
  end.
Proof.
  intros Hi. pose proof (mutation_fence_spec i mutator truncate now lapsed m Hi) as H.
  destruct (di_guard _ _ Hi i) as [Hg0 _]. unfold fence_verdict.
  destruct (mutation_fence i mutator truncate now lapsed m) as [[g|g recalls exp delay] m1].
  { destruct H as (I & S & G & -> & Q). done. }
  destruct H as (I & S & G & -> & Q).
  assert (Hpos : 0 < fe_guards (entry_of m1 i)) by (rewrite G, decide_True by done; lia).
  destruct delay; cbn [negb andb].
  - destruct (revoke_all_spec exp now m1 I) as [Hc _].
    destruct (drop_guard_spec (Guard i mutator false) (revoke_all exp now m1) (cm_inv _ _ Hc)) as (D1 & D2 & D3).
    { simpl. by rewrite (cm_guards _ _ Hc). }
    split; [split; [done| |]|done].
    + intros j r' Hr' Hl. rewrite D2 in Hr'. destruct (cm_live _ _ Hc j r' Hr' Hl) as (r1 & Hr1 & Hl1 & Hc1).
      destruct (S j r1 Hr1 Hl1) as (r2 & ? & ? & ?). exists r2. split_and!; [done|done|congruence].
    + intros j. rewrite D3, (cm_guards _ _ Hc), G. simpl. destruct (decide (i = j)); lia.
  - destruct (revoke_all_owed (Guard i mutator true) exp now m1 I) as [Hc Hq]; [done|exact Q|].
    assert (Hgd : (if bool_decide (exp = []) then Guard i mutator (bool_decide (exp = [])) else
      arm_exclusivity_check (Guard i mutator (bool_decide (exp = [])))) = Guard i mutator true) by (by destruct (bool_decide (exp = []))).
    rewrite Hgd. split_and!; [apply (cm_inv _ _ Hc)| |done|done|].
    + intros j r' Hr' Hl. destruct (cm_live _ _ Hc j r' Hr' Hl) as (r1 & Hr1 & Hl1 & Hc1).
      destruct (S j r1 Hr1 Hl1) as (r2 & ? & ? & ?). exists r2. split_and!; [done|done|congruence].
    + intros j. by rewrite (cm_guards _ _ Hc), G.
Qed.
