(* ===== verification/DelegsProps.v ===== *)
(** Grants, teardown and the executions of the delegation table: the
    quiescent check [check_invariants] is clean in every reachable state,
    and the assertion an armed guard runs at its release never fires. *)

From S2P Require Import Prelude Xdr Stateid Delegs DelegsInv.

(** ** Grant *)
Lemma inv_add m m' i r : deleg_inv m ->
  recs m' i = recs m i ++ [r] -> fe_guards (entry_of m' i) = 0 ->
  (forall j, j <> i -> entry_of m' j = entry_of m j) -> rest m' i ≡ₚ rest m i ->
  dr_ident r = i -> is_live r = true -> by_stateid m !! other r = None -> dr_client r ∉ dr_client <$> recs m i ->
  by_stateid m' = <[other r := i]> (by_stateid m) ->
  (forall c, clist m' c = if decide (c = dr_client r) then clist m c ++ [other r] else clist m c) ->
  max_global m' = max_global m ->
  (forall c, default 0 (live_per_client m' !! c) =
    default 0 (live_per_client m !! c) + (if dr_client r =? c then 1 else 0)) ->
  live_global m' = live_global m + 1 -> live_global m' <= u64_max ->
  deleg_inv m'.
Proof.
  intros Hi Hnew Hg Hj Hrest Hid Hl Hfresh Hnc F1 F2 F3 F4 F5 Hle.
  assert (Hall : all_records (dm_files m') ≡ₚ r :: all_records (dm_files m)).
  { rewrite (records_split m i), (records_split m' i), Hnew, Hrest, <- (assoc_L (++)). cbn [app]. by rewrite <- Permutation_middle. }
  assert (Hin : forall j r', r' ∈ recs m' j <-> r' ∈ recs m j \/ (j = i /\ r' = r)).
  { intros j r'. destruct (decide (j = i)) as [->|Hne]; [rewrite Hnew; set_solver|]. rewrite Hj by done. naive_solver. }
  split.
  - intros j r' [Hr'|[-> ->]]%Hin; [by apply (di_file _ _ Hi)|done].
  - intros j. destruct (decide (j = i)) as [->|Hne]; [rewrite Hg; lia|]. rewrite Hj by done. apply (di_guard _ _ Hi).
  - intros j. destruct (decide (j = i)) as [->|Hne]; [|rewrite Hj by done; apply (di_per_client _ _ Hi)].
    rewrite Hnew, fmap_app. apply NoDup_app. split_and!; [apply (di_per_client _ _ Hi)| |apply NoDup_singleton].
    intros c Hc Hc'%list_elem_of_singleton. by subst.
  - rewrite Hall, fmap_cons. apply NoDup_cons. split; [|apply (di_ids _ _ Hi)].
    intros (r' & Ho & (j & Hr')%elem_all_entry)%list_elem_of_fmap.
    rewrite (proj2 (di_index _ _ Hi (other r) j)) in Hfresh by eauto. done.
  - intros o j. rewrite F1, lookup_insert_Some, (di_index _ _ Hi). setoid_rewrite Hin. split.
    + intros [[<- <-]|[Hne (r' & Hr' & Ho)]]; [exists r; auto|eauto].
    + intros (r' & [Hr'|[-> ->]] & Ho); [|by left]. right. split; [|eauto]. intros <-.
      rewrite (proj2 (di_index _ _ Hi (other r) j)) in Hfresh by eauto. done.
  - intros c o Hx. rewrite F2. pose proof (di_client _ _ Hi c o Hx) as Hc. setoid_rewrite Hall. setoid_rewrite elem_of_cons.
    case_decide as Hd.
    + rewrite elem_of_app, list_elem_of_singleton, Hc. split.
      * intros [(r' & ? & ? & ?)| ->]; [exists r'; auto|exists r; auto].
      * intros (r' & [->|?] & ? & ?); [by right|left; eauto].
    + rewrite Hc. split.
      * intros (r' & ? & ? & ?). exists r'; auto.
      * intros (r' & [->|?] & ? & ?); [by destruct Hd|eauto].
  - intros c Hx. rewrite F4, (di_live _ _ Hi c Hx), (count_if_perm _ _ _ Hall), count_if_cons.
    unfold live_of at 2. rewrite Hl. simpl. destruct (_ =? c); lia.
  - split; [|done]. destruct (di_global _ _ Hi) as [Hgl _]. rewrite F5, Hgl, (count_if_perm _ _ _ Hall), count_if_cons, Hl. lia.
  - rewrite F3. apply (di_max _ _ Hi).
Qed.

(** A refusal writes an entry that reads as the old one, cooldown aside. *)
Lemma put_same_calm m i cd : deleg_inv m -> calm m (put_entry i (FEntry (recs m i) (fe_guards (entry_of m i)) cd) m).
Proof.
  intros Hi. destruct (di_guard _ _ Hi i) as [H0 H1]. split.
  - by apply inv_put_same.
  - intros j r'. rewrite entry_put. case_decide as Hd; [subst|eauto]. simpl. eauto.
  - intros j. rewrite entry_put. case_decide; [by subst|done].
Qed.

(** What a grant needs, read off the pre-state. *)
Record grantable (i : FileId) (client now : Z) (m : DelegationManager) : Prop := {
  ga_guards : fe_guards (entry_of m i) = 0;
  ga_granted : forall r, r ∈ recs m i -> dr_state r = Granted /\ dr_client r <> client;
  ga_cooldown : forall t, fe_cooldown (entry_of m i) = Some t -> t <= now;
  ga_client : default 0 (live_per_client m !! client) < max_per_client m;
  ga_global : live_global m < max_global m }.

Lemma existsb_false {A} (p : A -> bool) l : existsb p l = false <-> forall x, x ∈ l -> p x = false.
Proof.
  induction l as [|y l IH]; simpl; [split; [by intros _ x ?%elem_of_nil|done]|].
  rewrite orb_false_iff, IH. split.
  - intros [Hy Hl] x [->|Hx]%elem_of_cons; auto.
  - intros H. split; [apply H; by left|]. intros x Hx. apply H. by right.
Qed.

Lemma entry_eta e : FEntry (fe_records e) (fe_guards e) (fe_cooldown e) = e.
Proof. by destruct e. Qed.

Lemma try_grant_spec i client fh path now pre s m : deleg_inv m -> by_stateid m !! sid_other s = None ->
  match try_grant i client fh path now pre s m with
  | (Ok s', m') => s' = s /\ grantable i client now m /\ pre = true /\ deleg_inv m' /\
      recs m' i = recs m i ++ [DelegRec s client fh i path Granted now None None false] /\
      (forall j, j <> i -> recs m' j = recs m j) /\
      (forall j, fe_guards (entry_of m' j) = fe_guards (entry_of m j))
  | (Err _, m') => calm m m'
  end.
Proof.
  intros Hi Hf. unfold try_grant. set (e := entry_of m i).
  assert (Href : forall cd r, calm m (set_counts (dm_refusals m ++ [r]) (grants_total m) (put_entry i (FEntry (fe_records e) (fe_guards e) cd) m))).
  { intros cd r. eapply calm_frame; [..|apply (put_same_calm m i cd Hi)]; done. }
  assert (Href1 : forall r, calm m (set_counts (dm_refusals m ++ [r]) (grants_total m) (put_entry i e m))).
  { intros r. rewrite <- (entry_eta e). apply Href. }
  assert (Href2 : forall r, calm m (set_counts (dm_refusals m ++ [r]) (grants_total m)
    (put_entry i (FEntry (fe_records e) (fe_guards e) None) (put_entry i e m)))).
  { intros r. eapply calm_frame; [| |apply (Href None r)]; [|done]. simpl. by rewrite insert_insert_eq. }
  destruct (0 <? fe_guards e) eqn:Hg; [apply Href1|].
  destruct (existsb _ (fe_records e)) eqn:Hgr; [apply Href1|].
  destruct (match fe_cooldown e with Some t => now <? t | None => false end) eqn:Hcd; [apply Href1|].
  destruct (existsb (fun r => dr_client r =? client) (fe_records e)) eqn:Hcl; [apply Href2|].
  destruct (max_per_client _ <=? _) eqn:Hq; [apply Href2|].
  destruct (max_global _ <=? _) eqn:Hq2; [apply Href2|].
  destruct pre; [|apply Href2]. cbn [negb].
  rewrite existsb_false in Hgr, Hcl. simpl in Hq, Hq2. bool_Z.
  destruct (di_guard _ _ Hi i) as [Hg0 _]. fold e in Hg0. pose proof (di_max _ _ Hi).
  destruct (di_global _ _ Hi) as [Hgl Hle]. pose proof (count_if_nonneg is_live (all_records (dm_files m))).
  assert (Hga : grantable i client now m).
  { split; fold e; [lia| | |done|done].
    - intros r Hr. specialize (Hgr r Hr). specialize (Hcl r Hr). bool_Z. cbv beta in Hgr. rewrite bool_decide_eq_true in Hgr. done.
    - intros t Ht. rewrite Ht in Hcd. bool_Z. lia. }
  set (r := DelegRec s client fh i path Granted now None None false). cbv zeta.
  match goal with |- _ /\ _ /\ _ /\ deleg_inv ?x /\ _ => set (m' := x) end.
  assert (Hent : forall j, entry_of m' j = if decide (i = j) then FEntry (fe_records e ++ [r]) (fe_guards e) None else entry_of m j).
  { intros j. unfold m', entry_of. simpl. rewrite !lookup_insert. by case_decide. }
  assert (Hri : recs m' i = recs m i ++ [r]) by (rewrite Hent, decide_True; done).
  assert (Hj : forall j, j <> i -> entry_of m' j = entry_of m j) by (intros j Hne; by rewrite Hent, decide_False).
  split_and!; [done|done|done| |done|intros j Hne; by rewrite Hj|].
  - apply (inv_add m m' i r); try done.
    + rewrite Hent, decide_True by done. simpl. lia.
    + simpl. by rewrite !delete_insert_eq.
    + intros (r' & Hc & Hr')%list_elem_of_fmap. specialize (Hcl r' Hr'). rewrite <- Hc in Hcl. simpl in Hcl. lia.
    + intros c. unfold clist, m'. simpl. rewrite lookup_insert. destruct (decide (client = c)) as [->|Hne].
      * by rewrite decide_True.
      * by rewrite decide_False by congruence.
    + intros c. unfold m'. simpl. rewrite lookup_insert. destruct (decide (client = c)) as [->|Hne].
      * by rewrite Z.eqb_refl.
      * destruct (client =? c) eqn:E; bool_Z; [done|lia].
    + unfold m'. simpl. apply wrap_u64_id. bounds.
    + unfold m'. simpl. rewrite wrap_u64_id; bounds.
  - intros j. rewrite Hent. case_decide; [|done]. subst j. done.
Qed.

(** ** Teardown of a client *)
Lemma same_other x m j k r r' : deleg_inv_ex x m -> r ∈ recs m j -> r' ∈ recs m k -> other r = other r' -> r = r' /\ j = k.
Proof.
  intros Hi Hr Hr' Ho. assert (r = r') as ->.
  { assert (H1 : r ∈ all_records (dm_files m)) by (apply elem_all_entry; eauto).
    assert (H2 : r' ∈ all_records (dm_files m)) by (apply elem_all_entry; eauto).
    pose proof (di_ids _ _ Hi) as Hn. apply list_elem_of_lookup in H1 as [a Ha], H2 as [b Hb].
    assert (a = b) as ->; [|congruence].
    apply (NoDup_lookup _ a b (other r) Hn); rewrite list_lookup_fmap; [rewrite Ha|rewrite Hb]; simpl; congruence. }
  split; [done|]. rewrite <- (di_file _ _ Hi _ _ Hr), <- (di_file _ _ Hi _ _ Hr'). done.
Qed.

Lemma teardown_one_spec c o freed m : deleg_inv_ex (Some c) m ->
  (forall j r, r ∈ recs m j -> other r = o -> dr_client r = c) ->
  let '(freed', m') := teardown_one (freed, m) o in
  deleg_inv_ex (Some c) m' /\
  (forall j r, r ∈ recs m' j <-> r ∈ recs m j /\ other r <> o) /\
  (forall j, fe_guards (entry_of m' j) = fe_guards (entry_of m j)) /\
  by_client m' = by_client m /\ live_per_client m' = live_per_client m /\
  (forall s, s ∈ freed' <-> s ∈ freed \/ exists j r, r ∈ recs m j /\ other r = o /\ s = dr_stateid r).
Proof.
  intros Hi Hown. unfold teardown_one. destruct (by_stateid m !! o) as [i|] eqn:Hb.
  2: { assert (Hno : forall j r, r ∈ recs m j -> other r <> o).
       { intros j r Hr Ho. rewrite (proj2 (di_index _ _ Hi o j)) in Hb by eauto. done. }
       split_and!; try done; [naive_solver|]. intros s. split; [by left|]. intros [?|(j & r & Hr & Ho & _)]; [done|].
       by destruct (Hno j r Hr). }
  destruct (proj1 (di_index _ _ Hi o i) Hb) as (r & Hr & Ho). pose proof (in_entry m i r Hr) as (e & He & Hre). simpl.
  rewrite He. destruct (find_first (named o any_record) (fe_records e)) as [r0|] eqn:Hff.
  2: { rewrite find_first_None in Hff. specialize (Hff r Hre). unfold named, any_record in Hff. by rewrite Ho, Z.eqb_refl in Hff. }
  assert (Hen : entry_of m i = e) by (unfold entry_of; by rewrite He).
  pose proof (find_first_Some _ _ _ Hff) as [Hr0 Hn0]. unfold named in Hn0. apply andb_prop in Hn0 as [Ho0 _]. bool_Z.
  assert (r0 = r) as -> by (apply (same_other _ m i i _ _ Hi); rewrite ?Hen; congruence).
  apply find_first_split in Hff as (l1 & l2 & Hl & _ & -> & _).
  set (e1 := FEntry (l1 ++ l2) (fe_guards e) (fe_cooldown e)).
  match goal with |- deleg_inv_ex _ ?x /\ _ => set (m' := x) end.
  assert (Hent : forall j, entry_of m' j = if decide (i = j) then e1 else entry_of m j).
  { intros j. unfold m'. rewrite gc_entry_of, <- entry_put. by destruct (is_live r). }
  assert (Hrest : rest m' i ≡ₚ rest m i).
  { unfold m'. rewrite gc_rest, <- (put_rest i e1 m). by destruct (is_live r). }
  destruct (di_global _ _ Hi) as [Hgl Hle].
  assert (Hf : index_fields m' = (delete o (by_stateid m), by_client m, live_per_client m,
    (if is_live r then wrap_u64 (live_global m - 1) else live_global m), max_global m)).
  { unfold m'. rewrite gc_fields. by destruct (is_live r). }
  injection Hf as F1 F2 F3 F4 F5. pose proof (Hown i r Hr Ho) as Hc.
  assert (Hglob : live_global m' = live_global m - (if is_live r then 1 else 0)).
  { rewrite F4. destruct (is_live r) eqn:Hlv; [|lia]. apply wrap_u64_id.
    rewrite (count_if_perm _ _ _ (records_split m i)), Hen, Hl, !count_if_app, count_if_cons, Hlv in Hgl.
    pose proof (count_if_nonneg is_live l1). pose proof (count_if_nonneg is_live l2).
    pose proof (count_if_nonneg is_live (rest m i)). bounds. }
  destruct (inv_remove (Some c) m m' i r l1 l2) as [Hi' _]; try done.
  { by rewrite Hen. }
  { rewrite Hent, decide_True by done. done. }
  { rewrite Hent, decide_True by done. by rewrite Hen. }
  { intros j Hne. rewrite Hent, decide_False by done. done. }
  { by rewrite F1, Ho. }
  { intros d Hd. unfold clist. rewrite F2. rewrite decide_False by congruence. done. }
  { intros d Hd. rewrite F3. unfold live_of. rewrite Hc. destruct (c =? d) eqn:E; bool_Z; [congruence|].
    rewrite andb_false_r. lia. }
  assert (Hnd : forall r', r' ∈ l1 \/ r' ∈ l2 -> other r' <> o).
  { pose proof (di_ids _ _ Hi) as Hn. rewrite (records_split m i), fmap_app, Hen, Hl in Hn.
    apply NoDup_app in Hn as [Hn _]. rewrite <- Permutation_middle, fmap_cons in Hn. apply NoDup_cons in Hn as [Hn _].
    intros r' Hr' Ho'. apply Hn. rewrite Ho, <- Ho'. apply list_elem_of_fmap. exists r'. split; [done|]. set_solver. }
  split_and!; try done.
  - intros j r'. rewrite Hent. case_decide as Hj.
    + subst j. rewrite Hen, Hl. unfold e1. simpl. rewrite !elem_of_app, elem_of_cons. split.
      * intros [?|?]; split; auto.
      * intros [[?|[->|?]] Hne]; auto. done.
    + split; [|by intros []]. intros Hr'. split; [done|]. intros Ho'. apply Hj.
      by destruct (same_other _ m i j r r' Hi Hr Hr' ltac:(congruence)).
  - intros j. rewrite Hent. case_decide; [|done]. by subst.
  - intros s. rewrite elem_of_app, list_elem_of_singleton. split.
    + intros [?| ->]; [by left|]. right. eauto 10.
    + intros [?|(j & r' & Hr' & Ho' & ->)]; [by left|]. right. f_equal. apply (same_other _ m j i _ _ Hi); congruence.
Qed.

Lemma teardown_fold c os : forall freed m, deleg_inv_ex (Some c) m ->
  (forall j r, r ∈ recs m j -> other r ∈ os -> dr_client r = c) ->
  let '(freed', m') := foldl teardown_one (freed, m) os in
  deleg_inv_ex (Some c) m' /\
  (forall j r, r ∈ recs m' j <-> r ∈ recs m j /\ other r ∉ os) /\
  (forall j, fe_guards (entry_of m' j) = fe_guards (entry_of m j)) /\
  by_client m' = by_client m /\ live_per_client m' = live_per_client m /\
  (forall s, s ∈ freed' <-> s ∈ freed \/ exists j r, r ∈ recs m j /\ other r ∈ os /\ s = dr_stateid r).
Proof.
  induction os as [|o os IH]; intros freed m Hi Hown; cbn [foldl].
  { split_and!; try done; [set_solver|]. set_solver. }
  pose proof (teardown_one_spec c o freed m Hi) as H1. destruct (teardown_one (freed, m) o) as [f1 m1].
  destruct H1 as (I1 & R1 & G1 & C1 & L1 & S1); [intros j r Hr Ho; apply (Hown j r Hr); rewrite Ho; by left|].
  pose proof (IH f1 m1 I1) as H2. destruct (foldl teardown_one (f1, m1) os) as [f2 m2].
  destruct H2 as (I2 & R2 & G2 & C2 & L2 & S2).
  { intros j r [Hr _]%R1 Ho. apply (Hown j r Hr). by right. }
  split_and!; [done| | |congruence|congruence|].
  - intros j r. rewrite R2, R1, not_elem_of_cons. tauto.
  - intros j. by rewrite G2.
  - intros s. rewrite S2, S1. split.
    + intros [[?|(j & r & Hr & Ho & ->)]|(j & r & [Hr _]%R1 & Ho & ->)]; [by left| |].
      * right. exists j, r. rewrite Ho. set_solver.
      * right. exists j, r. set_solver.
    + intros [?|(j & r & Hr & Ho & ->)]; [by left; left|]. destruct (decide (other r = o)) as [Heq|Hne].
      * left. right. eauto 10.
      * right. exists j, r. split_and!; [by apply R1|set_solver|done].
Qed.

Lemma release_fds_frame l : forall m, let m' := foldl (fun m s => d_release_fd s m) m l in
  dm_files m' = dm_files m /\ index_fields m' = index_fields m.
Proof. induction l as [|s l IH]; intros m; [done|]. cbn [foldl]. by destruct (IH (d_release_fd s m)) as [-> ->]. Qed.

Lemma cleanup_spec c m : deleg_inv m ->
  let '(freed, m') := cleanup_client_delegations c m in
  deleg_inv m' /\
  (forall j r, r ∈ recs m' j <-> r ∈ recs m j /\ dr_client r <> c) /\
  (forall j, fe_guards (entry_of m' j) = fe_guards (entry_of m j)) /\
  client_holds_live m' c = false /\ by_client m' = delete c (by_client m) /\
  (forall s, s ∈ freed <-> exists j r, r ∈ recs m j /\ dr_client r = c /\ s = dr_stateid r).
Proof.
  intros Hi. unfold cleanup_client_delegations.
  assert (Hcl : forall o, o ∈ clist m c <-> exists j r, r ∈ recs m j /\ other r = o /\ dr_client r = c).
  { intros o. rewrite (di_client _ _ Hi c o) by done. setoid_rewrite elem_all_entry. naive_solver. }
  assert (Hmine : forall j r, r ∈ recs m j -> other r ∈ clist m c <-> dr_client r = c).
  { intros j r Hr. rewrite Hcl. split; [|eauto]. intros (j' & r' & Hr' & Ho & <-).
    by destruct (same_other _ m j' j r' r Hi Hr' Hr Ho) as [-> _]. }
  unfold clist in Hcl, Hmine. destruct (by_client m !! c) as [os|] eqn:Hc; simpl in Hcl, Hmine.
  2: { assert (Hno : forall j r, r ∈ recs m j -> dr_client r <> c) by (intros j r Hr Hrc; apply (Hmine j r Hr) in Hrc; set_solver).
       split_and!; try done; [naive_solver| | |].
       - unfold client_holds_live. rewrite (di_live _ _ Hi) by done. apply Z.ltb_ge.
         assert (count_if (live_of c) (all_records (dm_files m)) = 0) as ->; [|done]. apply count_if_zero.
         intros r (j & Hr)%elem_all_entry. unfold live_of. destruct (dr_client r =? c) eqn:E; bool_Z; [|by rewrite andb_false_r].
         by destruct (Hno j r Hr).
       - by rewrite delete_id.
       - intros s. split; [by intros ?%elem_of_nil|]. intros (j & r & Hr & Hrc & _). by destruct (Hno j r Hr). }
  set (m1 := set_tables (dm_files m) (by_stateid m) (delete c (by_client m)) m).
  assert (Hi1 : deleg_inv_ex (Some c) m1).
  { destruct Hi. split; try done; [|intros d Hd; by apply di_live].
    intros d o Hd. unfold clist, m1. simpl. rewrite lookup_delete_ne by congruence. by apply di_client. }
  pose proof (teardown_fold c os [] m1 Hi1) as H. destruct (foldl teardown_one ([], m1) os) as [freed m2].
  destruct H as (I & R & G & C & L & S); [intros j r Hr; by apply (Hmine j r Hr)|].
  set (m3 := note_evidence c (set_live (delete c (live_per_client m2)) (live_global m2) m2)).
  set (m4 := foldl _ m3 freed).
  assert (Hf4 : dm_files m4 = dm_files m2 /\ index_fields m4 = (by_stateid m2, by_client m2, delete c (live_per_client m2), live_global m2, max_global m2)).
  { unfold m4. change (dm_files m2) with (dm_files m3).
    change (by_stateid m2, by_client m2, delete c (live_per_client m2), live_global m2, max_global m2) with (index_fields m3).
    apply release_fds_frame. }
  destruct Hf4 as [F0 Fx]. injection Fx as F1 F2 F3 F4 F5.
  assert (He : forall j, entry_of m4 j = entry_of m2 j) by (intros; unfold entry_of; by rewrite F0).
  assert (Hleft : forall j r, r ∈ recs m2 j <-> r ∈ recs m j /\ dr_client r <> c).
  { intros j r. rewrite R. split; intros [Hr Hn]; (split; [done|]); by rewrite (Hmine j r Hr) in *. }
  split_and!.
  - split.
    + intros j r. rewrite He. apply (di_file _ _ I).
    + intros j. rewrite He. apply (di_guard _ _ I).
    + intros j. rewrite He. apply (di_per_client _ _ I).
    + rewrite F0. apply (di_ids _ _ I).
    + intros o j. rewrite F1, (di_index _ _ I), He. done.
    + intros d o _. unfold clist. rewrite F2, F0. destruct (decide (d = c)) as [->|Hne].
      * rewrite C. simpl. rewrite lookup_delete_eq. simpl. split; [by intros ?%elem_of_nil|].
        intros (r & (j & Hr)%elem_all_entry & _ & Hrc). by apply Hleft in Hr as [_ ?].
      * apply (di_client _ _ I). congruence.
    + intros d _. rewrite F3, F0, lookup_delete. case_decide as Hd; [subst d|].
      * symmetry. apply count_if_zero. intros r (j & [_ Hr]%Hleft)%elem_all_entry. unfold live_of.
        destruct (dr_client r =? c) eqn:E; bool_Z; [done|]. by rewrite andb_false_r.
      * apply (di_live _ _ I). congruence.
    + rewrite F4, F0. apply (di_global _ _ I).
    + rewrite F5. apply (di_max _ _ I).
  - intros j r. rewrite He. apply Hleft.
  - intros j. rewrite He. apply G.
  - unfold client_holds_live. rewrite F3, lookup_delete_eq. done.
  - rewrite F2, C. done.
  - intros s. rewrite S. split.
    + intros [?%elem_of_nil|(j & r & Hr & Ho & ->)]; [done|]. exists j, r. by rewrite <- (Hmine j r Hr).
    + intros (j & r & Hr & Hrc & ->). right. exists j, r. by rewrite (Hmine j r Hr).
Qed.

Lemma cleanup_calm c m : deleg_inv m -> calm m (cleanup_client_delegations c m).2.
Proof.
  intros Hi. pose proof (cleanup_spec c m Hi) as H. destruct (cleanup_client_delegations c m) as [freed m'].
  destruct H as (I & R & G & _). split; [done| |done]. intros j r [Hr _]%R Hl. eauto.
Qed.

Lemma paused_calm c now unix m : deleg_inv m -> calm m (grants_paused c now unix m).2.
Proof.
  intros Hi. unfold grants_paused, sync_breaker_persistence. eapply calm_frame; [| |by apply calm_refl].
  - destruct (match persisted_trip_until m with Some t => now <? t | None => false end); [done|]. cbv zeta.
    repeat (case_match; try done).
  - destruct (match persisted_trip_until m with Some t => now <? t | None => false end); [done|]. cbv zeta.
    repeat (case_match; try done).
Qed.

Lemma restore_calm t now unix m : deleg_inv m -> calm m (restore_breaker_trip t now unix m).2.
Proof.
  intros Hi. unfold restore_breaker_trip. eapply calm_frame; [| |by apply calm_refl]; by destruct (300 <? _).
Qed.

(** ** Executions *)
(** The table with the guards that mutators hold: the armed ones, and the
    consults whose expired holders are still being revoked (with the
    stateids left and whether the consult answers DELAY).  The calls of
    different consults interleave. *)
Record deleg_sys := DSys {
  ds_mgr : DelegationManager; ds_armed : list MutationGuard; ds_pending : list (MutationGuard * list StateId * bool) }.

Inductive deleg_request :=
| DGrant (i : FileId) (client : Z) (fh path : bytes) (now : Z) (pre : bool) (s : StateId)
| DFence (i : FileId) (mutator : option Z) (truncate : bool) (now : Z) (lapsed : Z -> bool)
| DExpire (k : nat) (now : Z)
| DSettle (k : nat)
| DRelease (k : nat)
| DReturn (s : StateId) (now : Z)
| DTransmit (s : StateId) (now : Z)
| DAcked (s : StateId)
| DRevoke (s : StateId) (now : Z)
| DDisown (s : StateId) (now : Z)
| DFree (s : StateId)
| DCleanup (c : Z)
| DPaused (c now unix : Z)
| DRestore (t now unix : Z).

Definition deleg_exec (q : deleg_request) (S : deleg_sys) : deleg_sys :=
  let '(DSys m a p) := S in
  match q with
  | DGrant i c fh path now pre s => DSys (try_grant i c fh path now pre s m).2 a p
  | DFence i mu tr now lapsed =>
      match mutation_fence i mu tr now lapsed m with
      | (Clear g, m') => DSys m' (g :: a) p
      | (Conflict g _ expired delay, m') => DSys m' a ((g, expired, delay) :: p)
      end
  | DExpire k now =>
      match p !! k with
      | Some (g, s :: l, d) => DSys (deleg_revoke s now m).2 a ((g, l, d) :: delete k p)
      | _ => S
      end
  | DSettle k =>
      match p !! k with
      | Some (g, [], true) => DSys (drop_guard g m) a (delete k p)
      | Some (g, [], false) => DSys m (arm_exclusivity_check g :: a) (delete k p)
      | _ => S
      end
  | DRelease k => match a !! k with Some g => DSys (drop_guard g m) (delete k a) p | None => S end
  | DReturn s now => DSys (return_delegation s now m).2 a p
  | DTransmit s now => DSys (note_first_transmit s now m) a p
  | DAcked s => DSys (note_recall_acked s m) a p
  | DRevoke s now => DSys (deleg_revoke s now m).2 a p
  | DDisown s now => DSys (resolve_disown s now m).2 a p
  | DFree s => DSys (free_revoked s m).2 a p
  | DCleanup c => DSys (cleanup_client_delegations c m).2 a p
  | DPaused c now unix => DSys (grants_paused c now unix m).2 a p
  | DRestore t now unix => DSys (restore_breaker_trip t now unix m).2 a p
  end.

(** A grant's stateid is one the table does not hold (the mint's promise). *)
Definition deleg_allowed (q : deleg_request) (S : deleg_sys) : bool :=
  match q with
  | DGrant _ _ _ _ _ _ s => bool_decide (by_stateid (ds_mgr S) !! sid_other s = None)
  | _ => true
  end.

Inductive deleg_reach (per global cool : Z) (trip ctrip : nat) : deleg_sys -> Prop :=
| dreach_init : deleg_reach per global cool trip ctrip
    (DSys (DelegationManager_with_limits per global cool trip ctrip) [] [])
| dreach_step q S : deleg_reach per global cool trip ctrip S -> deleg_allowed q S = true ->
    deleg_reach per global cool trip ctrip (deleg_exec q S).

Definition guards_of (S : deleg_sys) : list MutationGuard := ds_armed S ++ (ds_pending S).*1.*1.
Definition guard_count (i : FileId) (l : list MutationGuard) : Z := count_if (fun g => bool_decide (mg_ident g = i)) l.

Record sys_ok (S : deleg_sys) : Prop := {
  so_inv : deleg_inv (ds_mgr S);
  so_count : forall i, fe_guards (entry_of (ds_mgr S) i) = guard_count i (guards_of S);
  so_quiet : forall g, g ∈ ds_armed S -> owed g [] (ds_mgr S);
  so_owed : forall g l, (g, l, false) ∈ ds_pending S -> owed g l (ds_mgr S) }.

(** A guard somebody holds counts on its file. *)
Lemma held_counts S g : sys_ok S -> g ∈ guards_of S -> 0 < fe_guards (entry_of (ds_mgr S) (mg_ident g)).
Proof.
  intros Hok Hg. rewrite (so_count _ Hok). apply list_elem_of_split in Hg as (l1 & l2 & ->). unfold guard_count.
  rewrite count_if_app, count_if_cons, bool_decide_eq_true_2 by done.
  pose proof (count_if_nonneg (fun g0 => bool_decide (mg_ident g0 = mg_ident g)) l1).
  pose proof (count_if_nonneg (fun g0 => bool_decide (mg_ident g0 = mg_ident g)) l2). lia.
Qed.

Lemma sys_calm m m' a p : sys_ok (DSys m a p) -> calm m m' -> sys_ok (DSys m' a p).
Proof.
  intros [H1 H2 H3 H4] [C1 C2 C3]. split; simpl in *; [done| | |].
  - intros i. rewrite C3. apply H2.
  - intros g Hg. by eapply sub_owed, H3.
  - intros g l Hg. by eapply sub_owed, H4.
Qed.

Lemma sys_grant i c fh path now pre s m a p : sys_ok (DSys m a p) -> by_stateid m !! sid_other s = None ->
  sys_ok (DSys (try_grant i c fh path now pre s m).2 a p).
Proof.
  intros Hok Hf. pose proof (try_grant_spec i c fh path now pre s m (so_inv _ Hok) Hf) as H.
  destruct (try_grant i c fh path now pre s m) as [[s'|e] m']; simpl; [|by apply (sys_calm m)].
  destruct H as (_ & Hga & _ & I & _ & R & G).
  assert (Hne : forall g, g ∈ guards_of (DSys m a p) -> mg_ident g <> i).
  { intros g Hg <-. apply (held_counts _ g Hok) in Hg. simpl in Hg. rewrite (ga_guards _ _ _ _ Hga) in Hg. lia. }
  assert (Ho : forall g l, g ∈ guards_of (DSys m a p) -> owed g l m -> owed g l m').
  { intros g l Hg Ho r. rewrite R by (by apply Hne). apply Ho. }
  unfold guards_of in *. simpl in *. split; simpl; [done| | |].
  - intros j. rewrite G. apply (so_count _ Hok).
  - intros g Hg. apply Ho; [set_solver|]. by apply (so_quiet _ Hok).
  - intros g l Hg. apply Ho; [|by apply (so_owed _ Hok)]. apply elem_of_app. right.
    apply list_elem_of_fmap. exists (g, l). split; [done|]. apply list_elem_of_fmap. by exists (g, l, false).
Qed.

Lemma guard_count_cons i g l : guard_count i (g :: l) = guard_count i l + (if decide (mg_ident g = i) then 1 else 0).
Proof. unfold guard_count. rewrite count_if_cons. case_decide; [rewrite bool_decide_eq_true_2|rewrite bool_decide_eq_false_2]; done || lia. Qed.
Lemma guard_count_perm i l l' : l ≡ₚ l' -> guard_count i l = guard_count i l'.
Proof. apply count_if_perm. Qed.

Lemma sys_fence i mu tr now lapsed m a p : sys_ok (DSys m a p) -> sys_ok (deleg_exec (DFence i mu tr now lapsed) (DSys m a p)).
Proof.
  intros Hok. simpl. pose proof (mutation_fence_spec i mu tr now lapsed m (so_inv _ Hok)) as H.
  destruct (mutation_fence i mu tr now lapsed m) as [out m']. destruct H as (I & S & G & Hout).
  destruct Hok as [H1 H2 H3 H4]. simpl in *. destruct out as [g|g rc exp delay].
  - destruct Hout as [-> Hq]. split; simpl; [done| | |].
    + intros j. unfold guards_of. simpl. rewrite G, H2, guard_count_cons. done.
    + intros g [->|Hg]%elem_of_cons; [by apply owed_nil|]. by eapply sub_owed, H3.
    + intros g l Hg. by eapply sub_owed, H4.
  - destruct Hout as [-> Hq]. split; simpl; [done| | |].
    + intros j. rewrite G, H2. set (g := Guard i mu _). change i with (mg_ident g). rewrite <- guard_count_cons.
      apply guard_count_perm. unfold guards_of. simpl. apply Permutation_middle.
    + intros g Hg. by eapply sub_owed, H3.
    + intros g l [[= -> -> <-]|Hg]%elem_of_cons; [exact Hq|]. by eapply sub_owed, H4.
Qed.

(** Releasing a guard that is held. *)
Lemma sys_drop g m a p a' p' : sys_ok (DSys m a p) -> guards_of (DSys m a p) ≡ₚ g :: guards_of (DSys m a' p') ->
  (forall x, x ∈ a' -> x ∈ a) -> (forall x, x ∈ p' -> x ∈ p) -> sys_ok (DSys (drop_guard g m) a' p').
Proof.
  intros Hok Hperm Ha Hp. assert (Hg : g ∈ guards_of (DSys m a p)) by (rewrite Hperm; by left).
  pose proof (held_counts _ g Hok Hg) as Hpos. simpl in Hpos.
  destruct (drop_guard_spec g m (so_inv _ Hok) Hpos) as (D1 & D2 & D3).
  assert (Ho : forall x l, owed x l m -> owed x l (drop_guard g m)) by (intros x l Ho r; rewrite D2; apply Ho).
  split; simpl; [done| | |].
  - intros i. rewrite D3. pose proof (so_count _ Hok i) as Hc. simpl in Hc. rewrite Hc.
    rewrite (guard_count_perm i _ _ Hperm), guard_count_cons. unfold guards_of. simpl. lia.
  - intros x Hx. apply Ho, (so_quiet _ Hok). by apply Ha.
  - intros x l Hx. apply Ho, (so_owed _ Hok). by apply Hp.
Qed.

Lemma elem_of_delete_list {A} (k : nat) (l : list A) x y : l !! k = Some y -> x ∈ delete k l -> x ∈ l.
Proof. intros Hk Hx. rewrite (delete_Permutation l k y Hk). by right. Qed.

Lemma sys_expire k now m a p : sys_ok (DSys m a p) -> sys_ok (deleg_exec (DExpire k now) (DSys m a p)).
Proof.
  intros Hok. simpl. destruct (p !! k) as [[[g [|s l]] d]|] eqn:Hk; [done| |done].
  pose proof (delete_Permutation p k _ Hk) as Hp. destruct (revoke_spec s now m (so_inv _ Hok)) as [Hc _].
  pose proof (sys_calm m _ a p Hok Hc) as [H1 H2 H3 H4]. simpl in *. split; simpl; [done| |done|].
  - intros i. rewrite H2. apply guard_count_perm. unfold guards_of. simpl. by rewrite Hp at 1.
  - intros g' l' [[= -> -> <-]|Hin]%elem_of_cons; [|by eapply H4, elem_of_delete_list].
    apply revoke_owed; [apply (so_inv _ Hok)| |].
    + apply (held_counts _ g Hok). unfold guards_of. simpl. apply elem_of_app. right. rewrite Hp. simpl. by left.
    + apply (so_owed _ Hok). simpl. rewrite Hp. by left.
Qed.

Lemma sys_settle k m a p : sys_ok (DSys m a p) -> sys_ok (deleg_exec (DSettle k) (DSys m a p)).
Proof.
  intros Hok. simpl. destruct (p !! k) as [[[g [|s l]] d]|] eqn:Hk; [|by destruct d|done].
  pose proof (delete_Permutation p k _ Hk) as Hp. destruct d.
  - apply (sys_drop g m a p); [done| |done|by intros x; apply (elem_of_delete_list k p x _ Hk)].
    unfold guards_of. simpl. rewrite Hp at 1. simpl. by rewrite <- Permutation_middle.
  - destruct Hok as [H1 H2 H3 H4]. simpl in *. split; simpl; [done| | |].
    + intros i. rewrite H2. unfold guards_of. simpl. rewrite guard_count_cons. simpl.
      rewrite <- (guard_count_cons i g). apply guard_count_perm. rewrite Hp at 1. simpl. by rewrite <- Permutation_middle.
    + intros x [->|Hx]%elem_of_cons; [|by apply H3]. apply (H4 g []). rewrite Hp. by left.
    + intros x l Hx. apply H4. by eapply elem_of_delete_list.
Qed.

Lemma sys_release k m a p : sys_ok (DSys m a p) -> sys_ok (deleg_exec (DRelease k) (DSys m a p)).
Proof.
  intros Hok. simpl. destruct (a !! k) as [g|] eqn:Hk; [|done].
  apply (sys_drop g m a p); [done| |by intros x; apply (elem_of_delete_list k a x _ Hk)|done].
  unfold guards_of. simpl. rewrite (delete_Permutation a k g Hk) at 1. done.
Qed.

Lemma sys_exec q S : sys_ok S -> deleg_allowed q S = true -> sys_ok (deleg_exec q S).
Proof.
  destruct S as [m a p]. intros Hok Hal. pose proof (so_inv _ Hok) as Hi.
  destruct q; simpl in Hal; try (apply bool_decide_eq_true in Hal).
  - by apply sys_grant.
  - by apply sys_fence.
  - by apply sys_expire.
  - by apply sys_settle.
  - by apply sys_release.
  - eapply sys_calm; [done|]. by apply return_calm.
  - eapply sys_calm; [done|]. by apply first_transmit_calm.
  - eapply sys_calm; [done|]. by apply recall_acked_calm.
  - eapply sys_calm; [done|]. by apply revoke_spec.
  - eapply sys_calm; [done|]. by apply disown_calm.
  - eapply sys_calm; [done|]. by apply free_calm.
  - eapply sys_calm; [done|]. by apply cleanup_calm.
  - eapply sys_calm; [done|]. by apply paused_calm.
  - eapply sys_calm; [done|]. by apply restore_calm.
Qed.

Lemma deleg_new_inv per global cool trip ctrip : global <= u64_max -> deleg_inv (DelegationManager_with_limits per global cool trip ctrip).
Proof.
  intros Hg. assert (He : forall i, entry_of (DelegationManager_with_limits per global cool trip ctrip) i = FileEntry_new) by done.
  split; try done.
  - intros i r ?%elem_of_nil. done.
  - intros i. apply NoDup_nil_2.
  - apply NoDup_nil_2.
  - intros o i. simpl. rewrite lookup_empty. split; [done|]. by intros (r & ?%elem_of_nil & _).
  - intros c o _. split; [by intros ?%elem_of_nil|]. by intros (r & ?%elem_of_nil & _).
Qed.

Lemma deleg_reach_ok per global cool trip ctrip S : global <= u64_max -> deleg_reach per global cool trip ctrip S -> sys_ok S.
Proof.
  intros Hg. induction 1 as [|q S _ IH Hal]; [|by apply sys_exec]. split; simpl.
  - by apply deleg_new_inv.
  - done.
  - intros g ?%elem_of_nil. done.
  - intros g l ?%elem_of_nil. done.
Qed.

(** ** The quiescent check *)
Lemma bind_nil {A B} (f : A -> list B) l : (forall x, x ∈ l -> f x = []) -> l ≫= f = [].
Proof.
  induction l as [|x l IH]; intros H; [done|]. cbn [mbind list_bind]. rewrite H by left. simpl. apply IH. intros y Hy. apply H. by right.
Qed.
Lemma flag_nil v b : b = false -> flag v b = [].
Proof. by intros ->. Qed.

Lemma count_le_1 {A} (f : A -> Z) l c : NoDup (f <$> l) -> (1 <? count_if (fun x => f x =? c) l) = false.
Proof.
  intros Hn. apply Z.ltb_ge. etransitivity; [|exact (count_if_NoDup f c l Hn)].
  rewrite <- (count_if_ext (fun x => f x =? c) (fun x => bool_decide (f x = c)) id); [by rewrite list_fmap_id|].
  intros x _. unfold id. case_bool_decide; symmetry; [by apply Z.eqb_eq|by apply Z.eqb_neq].
Qed.

Lemma check_record_clean m i e r : deleg_inv m -> dm_files m !! i = Some e -> r ∈ fe_records e -> check_record m i e r = [].
Proof.
  intros Hi He Hr. assert (Hen : entry_of m i = e) by (unfold entry_of; by rewrite He).
  assert (Hr' : r ∈ recs m i) by (by rewrite Hen). destruct (di_guard _ _ Hi i) as [Hg0 Hg]. rewrite Hen in Hg, Hg0.
  unfold check_record. rewrite (proj2 (di_index _ _ Hi (other r) i)) by eauto.
  rewrite !flag_nil; try done.
  - pose proof (di_per_client _ _ Hi i) as Hn. rewrite Hen in Hn. by apply count_le_1.
  - apply count_le_1, (di_ids _ _ Hi).
  - apply negb_false_iff, bool_decide_eq_true. apply (di_client _ _ Hi); [done|]. exists r. split_and!; try done.
    apply elem_all_entry. eauto.
  - by apply negb_false_iff, bool_decide_eq_true.
  - destruct (0 <? fe_guards e) eqn:Hp; [|done]. bool_Z. apply bool_decide_eq_false. by apply Hg.
  - apply negb_false_iff, bool_decide_eq_true. by apply (di_file _ _ Hi).
Qed.

Lemma has_other m o : (exists r, r ∈ all_records (dm_files m) /\ other r = o) ->
  negb (existsb (fun r => other r =? o) (all_records (dm_files m))) = false.
Proof.
  intros (r & Hr & Ho). apply negb_false_iff, existsb_exists. exists r. split; [by apply list_elem_of_In|]. by apply Z.eqb_eq.
Qed.

Lemma inv_check m : deleg_inv m -> check_invariants m = [].
Proof.
  intros Hi. unfold check_invariants. rewrite !bind_nil; [| | | | |].
  - destruct (di_global _ _ Hi) as [-> _]. by rewrite Z.eqb_refl.
  - intros r Hr. apply flag_nil. pose proof (di_live _ _ Hi (dr_client r) ltac:(done)) as Hl.
    case_bool_decide as Hb; [|by rewrite andb_false_r]. rewrite Hb in Hl. simpl in Hl. rewrite andb_true_r.
    unfold live_of in Hl. rewrite <- Hl. done.
  - intros [c n] Hc%elem_of_map_to_list. apply flag_nil. pose proof (di_live _ _ Hi c ltac:(done)) as Hl.
    rewrite Hc in Hl. simpl in Hl. unfold live_of in Hl. rewrite Hl. apply negb_false_iff, Z.eqb_refl.
  - intros l ([c l'] & -> & Hc%elem_of_map_to_list)%list_elem_of_fmap. apply bind_nil. intros o Ho. apply flag_nil, has_other.
    assert (Hin : o ∈ clist m c) by (unfold clist; by rewrite Hc). apply (di_client _ _ Hi) in Hin as (r & ? & ? & _); [|done]. eauto.
  - intros o ([o' i] & -> & Ho%elem_of_map_to_list)%list_elem_of_fmap. apply flag_nil, has_other.
    apply (di_index _ _ Hi) in Ho as (r & Hr & ?). exists r. split; [|done]. apply elem_all_entry. eauto.
  - intros [i e] He%elem_of_map_to_list. apply bind_nil. intros r Hr. by apply check_record_clean.
Qed.
