(* ===== verification/DelegsEvidence.v ===== *)
(** Who holds recallable state, and what each delegation call tells the
    evidence sink about it. *)

From S2P Require Import Prelude Xdr Stateid Delegs DelegsInv DelegsProps.

Definition hold (d : DelegationManager) (c : Z) : bool := client_holds_live d c || client_has_revoked d c.

(** ** Holding is having a record *)
Lemma count_if_pos {A} (p : A -> bool) l : 0 < count_if p l <-> exists x, x ∈ l /\ p x = true.
Proof.
  split.
  - intros Hp. destruct (decide (Exists (fun x => p x = true) l)) as [He|Hn]; [by apply Exists_exists in He|].
    rewrite (proj2 (count_if_zero p l)) in Hp; [lia|]. intros x Hx. apply not_true_iff_false. intros Hpx.
    apply Hn, Exists_exists. eauto.
  - intros (x & Hx & Hpx). pose proof (count_if_nonneg p l). destruct (decide (count_if p l = 0)) as [H0|]; [|lia].
    rewrite count_if_zero in H0. rewrite H0 in Hpx; done.
Qed.

Lemma holds_live_spec m c : deleg_inv m ->
  client_holds_live m c = true <-> exists i r, r ∈ recs m i /\ is_live r = true /\ dr_client r = c.
Proof.
  intros Hi. unfold client_holds_live. rewrite Z.ltb_lt, (di_live _ _ Hi), count_if_pos by done.
  setoid_rewrite elem_all_entry. unfold live_of. setoid_rewrite andb_true_iff. setoid_rewrite Z.eqb_eq. naive_solver.
Qed.

Lemma snapshot_spec m i r : deleg_inv m -> r ∈ recs m i ->
  snapshot m (other r) = Some (dr_stateid r, dr_client r, dr_state r, dr_truncate r).
Proof.
  intros Hi Hr. unfold snapshot, find_record. rewrite (proj2 (di_index _ _ Hi (other r) i)) by eauto. simpl.
  pose proof (in_entry m i r Hr) as (e & He & Hre). rewrite He. simpl.
  destruct (find_first (named (other r) any_record) (fe_records e)) as [r0|] eqn:Hf.
  - apply find_first_Some in Hf as [Hr0 Hn]. unfold named in Hn. apply andb_prop in Hn as [Ho _]. bool_Z. simpl.
    assert (r0 = r) as ->; [|done]. apply (same_other _ m i i _ _ Hi); [|done|done]. unfold entry_of. by rewrite He.
  - rewrite find_first_None in Hf. specialize (Hf r Hre). unfold named, any_record in Hf. by rewrite Z.eqb_refl in Hf.
Qed.

Lemma has_revoked_spec m c : deleg_inv m ->
  client_has_revoked m c = true <-> exists i r, r ∈ recs m i /\ is_live r = false /\ dr_client r = c.
Proof.
  intros Hi. unfold client_has_revoked. fold (clist m c). rewrite existsb_exists. split.
  - intros (o & Ho%list_elem_of_In & Hs). apply (di_client _ _ Hi) in Ho as (r & (i & Hr)%elem_all_entry & <- & Hc); [|done].
    rewrite (snapshot_spec m i r Hi Hr) in Hs. exists i, r. split_and!; [done| |done]. unfold is_live. by rewrite Hs.
  - intros (i & r & Hr & Hl & Hc). exists (other r). split.
    + apply list_elem_of_In, (di_client _ _ Hi); [done|]. exists r. split_and!; try done. apply elem_all_entry. eauto.
    + rewrite (snapshot_spec m i r Hi Hr). unfold is_live in Hl. by apply negb_false_iff in Hl.
Qed.

Lemma hold_spec m c : deleg_inv m -> hold m c = true <-> exists i r, r ∈ recs m i /\ dr_client r = c.
Proof.
  intros Hi. unfold hold. rewrite orb_true_iff, holds_live_spec, has_revoked_spec by done. split.
  - naive_solver.
  - intros (i & r & Hr & Hc). destruct (is_live r) eqn:Hl; [left|right]; eauto.
Qed.

Lemma hold_ext m m' c : deleg_inv m -> deleg_inv m' ->
  ((exists i r, r ∈ recs m' i /\ dr_client r = c) <-> (exists i r, r ∈ recs m i /\ dr_client r = c)) -> hold m' c = hold m c.
Proof. intros Hi Hi' H. apply eq_true_iff_eq. rewrite !hold_spec by done. exact H. Qed.
Lemma revoked_ext m m' c : deleg_inv m -> deleg_inv m' ->
  ((exists i r, r ∈ recs m' i /\ is_live r = false /\ dr_client r = c) <->
   (exists i r, r ∈ recs m i /\ is_live r = false /\ dr_client r = c)) -> client_has_revoked m' c = client_has_revoked m c.
Proof. intros Hi Hi' H. apply eq_true_iff_eq. rewrite !has_revoked_spec by done. exact H. Qed.

(** ** What a call logs *)
(** The sink heard the truth about the one client whose holdings may have
    changed ([who]); the others hold what they held. *)
Record logged (who : option Z) (d d' : DelegationManager) : Prop := {
  lg_inv : deleg_inv d';
  lg_calls : evidence_calls d' = evidence_calls d ++ match who with Some c => [(c, hold d' c)] | None => [] end;
  lg_breaker : breaker_calls d' = breaker_calls d;
  lg_hold : forall c, who <> Some c -> hold d' c = hold d c;
  lg_revoked : forall c, who <> Some c -> client_has_revoked d' c = client_has_revoked d c }.

(** The records of other clients are untouched. *)
Lemma logged_note c d d1 : deleg_inv d -> deleg_inv d1 -> evidence_calls d1 = evidence_calls d -> breaker_calls d1 = breaker_calls d ->
  (forall i r, dr_client r <> c -> r ∈ recs d1 i <-> r ∈ recs d i) -> logged (Some c) d (note_evidence c d1).
Proof.
  intros Hi Hi1 He Hb Hr. assert (Hi' : deleg_inv (note_evidence c d1)) by (by apply (inv_frame None d1)).
  assert (Hre : forall i, recs (note_evidence c d1) i = recs d1 i) by done. split; [done| |done| |].
  - simpl. rewrite He. done.
  - intros c' Hc. apply hold_ext; [done|done|]. setoid_rewrite Hre.
    split; intros (i & r & Hin & Hrc); exists i, r; (split; [|done]); apply Hr; congruence || done.
  - intros c' Hc. apply revoked_ext; [done|done|]. setoid_rewrite Hre.
    split; intros (i & r & Hin & Hl & Hrc); exists i, r; (split; [|done]); apply Hr; congruence || done.
Qed.

(** The same holders, none told. *)
Lemma logged_quiet d d' : deleg_inv d -> deleg_inv d' -> evidence_calls d' = evidence_calls d -> breaker_calls d' = breaker_calls d ->
  (forall c b, (exists i r, r ∈ recs d' i /\ is_live r = b /\ dr_client r = c) <->
               (exists i r, r ∈ recs d i /\ is_live r = b /\ dr_client r = c)) -> logged None d d'.
Proof.
  intros Hi Hi' He Hb Hr. split; [done|by rewrite app_nil_r|done| |].
  - intros c _. apply hold_ext; [done|done|].
    split; intros (i & r & Hin & Hrc); destruct (proj1 (Hr c (is_live r)) ltac:(eauto 6)) || destruct (proj2 (Hr c (is_live r)) ltac:(eauto 6)); naive_solver.
  - intros c _. apply revoked_ext; [done|done|]. apply Hr.
Qed.
Lemma logged_refl d : deleg_inv d -> logged None d d.
Proof. intros Hi. by apply logged_quiet. Qed.

(** ** Each operation *)
Lemma unindex_calls r m : evidence_calls (unindex r m) = evidence_calls m /\ breaker_calls (unindex r m) = breaker_calls m.
Proof.
  assert (Hg : forall i m, evidence_calls (gc_entry i m) = evidence_calls m /\ breaker_calls (gc_entry i m) = breaker_calls m).
  { intros i m0. unfold gc_entry. destruct (dm_files m0 !! i); [|done]. by destruct (fe_is_empty _). }
  unfold unindex. destruct (Hg (dr_ident r) (if is_live r then set_live (dec_live_client (dr_client r) (live_per_client m))
    (wrap_u64 (live_global m - 1)) (set_tables (dm_files m) (delete (other r) (by_stateid m)) (drop_client_other (dr_client r) (other r)
      (by_client m)) (d_release_fd (dr_stateid r) m)) else set_tables (dm_files m) (delete (other r) (by_stateid m))
      (drop_client_other (dr_client r) (other r) (by_client m)) (d_release_fd (dr_stateid r) m))) as [H1 H2].
  by destruct (is_live r).
Qed.

(** No tombstone appears. *)
Definition no_tomb (d d' : DelegationManager) : Prop := forall c, client_has_revoked d' c = true -> client_has_revoked d c = true.
Lemma no_tomb_refl d : no_tomb d d.
Proof. by intros c. Qed.
Lemma sub_no_tomb d d' : deleg_inv d -> deleg_inv d' -> (forall j r, r ∈ recs d' j -> r ∈ recs d j) -> no_tomb d d'.
Proof.
  intros Hi Hi' Hs c (j & r & Hr & Hl & Hc)%has_revoked_spec; [|done]. apply has_revoked_spec; [done|]. eauto 6.
Qed.

Lemma logged_remove m i e r l1 l2 cd : deleg_inv m -> entry_of m i = e -> fe_records e = l1 ++ r :: l2 ->
  let m' := note_evidence (dr_client r) (unindex r (put_entry i (FEntry (l1 ++ l2) (fe_guards e) cd) m)) in
  logged (Some (dr_client r)) m m' /\ no_tomb m m'.
Proof.
  intros Hi He Hl m'. destruct (remove_unindex m i e r l1 l2 (fe_guards e) cd Hi He Hl eq_refl) as [H1 H2].
  destruct (unindex_calls r (put_entry i (FEntry (l1 ++ l2) (fe_guards e) cd) m)) as [U1 U2].
  assert (Hlog : logged (Some (dr_client r)) m m').
  { apply logged_note; [done|done|done|done|]. intros j r' Hne. rewrite H2. case_decide as Hj; [|done]. subst j.
    rewrite He, Hl. simpl. rewrite !elem_of_app, elem_of_cons. split; [tauto|]. intros [?|[->|?]]; [by left|done|by right]. }
  split; [done|]. apply sub_no_tomb; [done|apply (lg_inv _ _ _ Hlog)|]. intros j r' Hr'.
  change (r' ∈ recs (unindex r (put_entry i (FEntry (l1 ++ l2) (fe_guards e) cd) m)) j) in Hr'.
  rewrite H2 in Hr'. case_decide as Hj; [|done]. subst j. rewrite He, Hl. simpl in Hr'. set_solver.
Qed.

Lemma return_logged s now m : deleg_inv m -> exists who, logged who m (return_delegation s now m).2 /\ no_tomb m (return_delegation s now m).2.
Proof.
  intros Hi. unfold return_delegation. destruct (find_record m (sid_other s) any_record) as [[[i e] r]|] eqn:Hf;
    [|exists None; split; [by apply logged_refl|apply no_tomb_refl]].
  destruct (is_revoked r); [exists None; split; [by apply logged_refl|apply no_tomb_refl]|]. destruct (_ && _); [exists None; split; [by apply logged_refl|apply no_tomb_refl]|]. cbn [snd].
  apply find_record_spec in Hf as (_ & He & _ & _ & l1 & l2 & Hl & Hr & _). rewrite Hr.
  destruct (settle_shape now (cooldown m) (negb (bool_decide (dr_state r = Granted)))
    (FEntry (l1 ++ l2) (fe_guards e) (fe_cooldown e))) as [cd ->]. exists (Some (dr_client r)). exact (logged_remove m i e r l1 l2 cd Hi He Hl).
Qed.

Lemma disown_logged s now m : deleg_inv m -> exists who, logged who m (resolve_disown s now m).2 /\ no_tomb m (resolve_disown s now m).2.
Proof.
  intros Hi. unfold resolve_disown. destruct (find_record m (sid_other s) under_recall) as [[[i e] r]|] eqn:Hf;
    [|exists None; split; [by apply logged_refl|apply no_tomb_refl]]. cbn [snd].
  apply find_record_spec in Hf as (_ & He & _ & _ & l1 & l2 & Hl & Hr & _). rewrite Hr.
  destruct (settle_shape now (cooldown m) true (FEntry (l1 ++ l2) (fe_guards e) (fe_cooldown e))) as [cd ->].
  exists (Some (dr_client r)). exact (logged_remove m i e r l1 l2 cd Hi He Hl).
Qed.

(** Freeing a tombstone is the removal of a record that is not live. *)
Lemma free_logged s m : deleg_inv m -> exists who, logged who m (free_revoked s m).2 /\ no_tomb m (free_revoked s m).2.
Proof.
  intros Hi. unfold free_revoked. destruct (find_record m (sid_other s) is_revoked) as [[[i e] r]|] eqn:Hf;
    [|exists None; split; [by apply logged_refl|apply no_tomb_refl]]. cbn [snd].
  apply find_record_spec in Hf as (_ & He & _ & Hrv & l1 & l2 & Hl & Hr & _). rewrite Hr.
  pose proof (logged_remove m i e r l1 l2 (fe_cooldown e) Hi He Hl) as Hlog.
  assert (Hid : dr_ident r = i) by (apply (di_file _ _ Hi); rewrite He, Hl; set_solver).
  unfold unindex, is_live in Hlog. unfold is_revoked in Hrv. rewrite Hrv, Hid in Hlog. eauto.
Qed.

Lemma with_record_logged o f m : deleg_inv m ->
  (forall r, key_of (f r) = key_of r /\ (dr_state (f r) = Granted -> dr_state r = Granted) /\ is_live (f r) = is_live r) ->
  logged None m (with_record o f m).
Proof.
  intros Hi Hfr. pose proof (cm_inv _ _ (with_record_calm o f m Hi Hfr)) as Hi'. unfold with_record in *.
  destruct (find_record m o any_record) as [[[i e] r]|] eqn:Hf; [|by apply logged_refl].
  apply find_record_spec in Hf as (_ & He & _ & _ & l1 & l2 & Hl & _ & Hu). rewrite Hu in *.
  destruct (Hfr r) as ([= _ Hk _] & _ & Hlv). apply logged_quiet; try done. intros c b. split.
  - intros (j & r' & Hr' & Hb & Hc). rewrite entry_put in Hr'. case_decide as Hj; [subst j|eauto 6]. simpl in Hr'.
    apply elem_of_app in Hr' as [Hr'|[->|Hr']%elem_of_cons].
    + exists i, r'. rewrite He, Hl. set_solver.
    + exists i, r. rewrite He, Hl. split_and!; [set_solver|congruence|congruence].
    + exists i, r'. rewrite He, Hl. set_solver.
  - intros (j & r' & Hr' & Hb & Hc). destruct (decide (i = j)) as [<-|Hne].
    + rewrite He, Hl in Hr'. apply elem_of_app in Hr' as [Hr'|[->|Hr']%elem_of_cons].
      * exists i, r'. rewrite entry_put, decide_True by done. simpl. set_solver.
      * exists i, (f r). rewrite entry_put, decide_True by done. simpl. split_and!; [set_solver|congruence|congruence].
      * exists i, r'. rewrite entry_put, decide_True by done. simpl. set_solver.
    + exists j, r'. by rewrite entry_put, decide_False.
Qed.

Lemma fence_shape i mu tr now lapsed m :
  (mutation_fence i mu tr now lapsed m).2 =
  put_entry i (FEntry (recalled tr now <$> recs m i) (fe_guards (entry_of m i) + 1) (fe_cooldown (entry_of m i))) m.
Proof.
  unfold mutation_fence. case_bool_decide as Hn; [by rewrite Hn|].
  destruct (fence_fold mu tr now lapsed (recs m i) [] [] [] false) as [b' Hff]. rewrite Hff. simpl app. by destruct (_ && _).
Qed.

Lemma fence_logged i mu tr now lapsed m : deleg_inv m -> logged None m (mutation_fence i mu tr now lapsed m).2.
Proof.
  intros Hi. assert (Hi' : deleg_inv (mutation_fence i mu tr now lapsed m).2).
  { rewrite fence_shape. by apply (fence_put tr now i m). }
  rewrite fence_shape in *. apply logged_quiet; try done. intros c b. split.
  - intros (j & r' & Hr' & Hb & Hc). rewrite entry_put in Hr'. case_decide as Hj; [subst j|eauto 6]. simpl in Hr'.
    apply list_elem_of_fmap in Hr' as (r & -> & Hr). rewrite recalled_live in Hb.
    pose proof (recalled_key tr now r) as [= _ Hk _]. exists i, r. split_and!; [done|done|congruence].
  - intros (j & r & Hr & Hb & Hc). destruct (decide (i = j)) as [<-|Hne].
    + exists i, (recalled tr now r). rewrite entry_put, decide_True by done. simpl.
      pose proof (recalled_key tr now r) as [= _ Hk _]. split_and!; [|by rewrite recalled_live|congruence].
      apply list_elem_of_fmap. eauto.
    + exists j, r. by rewrite entry_put, decide_False.
Qed.

Lemma drop_guard_logged g m : deleg_inv m -> 0 < fe_guards (entry_of m (mg_ident g)) -> logged None m (drop_guard g m).
Proof.
  intros Hi Hp. destruct (drop_guard_spec g m Hi Hp) as (D1 & D2 & _). apply logged_quiet; try done.
  - unfold drop_guard. destruct (dm_files m !! _) as [e|]; [|done]. unfold gc_entry. simpl.
    rewrite lookup_insert_eq. by destruct (fe_is_empty _).
  - unfold drop_guard. destruct (dm_files m !! _) as [e|]; [|done]. unfold gc_entry. simpl.
    rewrite lookup_insert_eq. by destruct (fe_is_empty _).
  - intros c b. by setoid_rewrite D2.
Qed.

Lemma revoke_logged s now m : deleg_inv m -> logged (deleg_revoke s now m).1 m (deleg_revoke s now m).2.
Proof.
  intros Hi. pose proof (cm_inv _ _ (proj1 (revoke_spec s now m Hi))) as Hi'. unfold deleg_revoke in *.
  destruct (find_record m (sid_other s) any_record) as [[[i e] r]|] eqn:Hf; [|by apply logged_refl].
  destruct (negb (under_recall r)); [by apply logged_refl|].
  apply find_record_spec in Hf as (_ & He & _ & _ & l1 & l2 & Hl & _ & Hu). rewrite Hu in *. cbn [fst snd] in *.
  match type of Hi' with deleg_inv (note_evidence _ ?x) => set (m1 := x) in * end.
  apply logged_note; try done; [by apply (inv_frame None (note_evidence (dr_client r) m1))|].
  destruct (settle_shape now (cooldown m) true (FEntry (l1 ++ set_state DRevoked (dr_first_transmit r) r :: l2) (fe_guards e) (fe_cooldown e))) as [cd Hcd].
  intros j r' Hne. assert (Hent : entry_of m1 j = if decide (i = j) then
    FEntry (l1 ++ set_state DRevoked (dr_first_transmit r) r :: l2) (fe_guards e) cd else entry_of m j).
  { unfold m1. rewrite Hcd. apply entry_put. }
  rewrite Hent. case_decide as Hj; [|done]. subst j. rewrite He, Hl. simpl. rewrite !elem_of_app, !elem_of_cons.
  split; (intros [?|[->|?]]; [by left|done|right; by right]).
Qed.

Lemma grant_logged i c fh path now pre s m : deleg_inv m -> by_stateid m !! sid_other s = None ->
  exists who, logged who m (try_grant i c fh path now pre s m).2 /\
  no_tomb m (try_grant i c fh path now pre s m).2.
Proof.
  intros Hi Hf. pose proof (try_grant_spec i c fh path now pre s m Hi Hf) as H.
  assert (Hcalls : match (try_grant i c fh path now pre s m).1 with
    | Ok _ => exists m1, (try_grant i c fh path now pre s m).2 = note_evidence c m1 /\ evidence_calls m1 = evidence_calls m /\ breaker_calls m1 = breaker_calls m
    | Err _ => evidence_calls (try_grant i c fh path now pre s m).2 = evidence_calls m /\
        breaker_calls (try_grant i c fh path now pre s m).2 = breaker_calls m /\
        forall j, recs (try_grant i c fh path now pre s m).2 j = recs m j
    end).
  { unfold try_grant. cbv zeta. assert (Hsame : forall cd j, recs (put_entry i (FEntry (recs m i) (fe_guards (entry_of m i)) cd) m) j = recs m j).
    { intros cd j. rewrite entry_put. by case_decide; subst. }
    assert (Hsame0 : forall j, recs (put_entry i (entry_of m i) m) j = recs m j).
    { intros j. rewrite entry_put. by case_decide; subst. }
    assert (Hsame2 : forall j, recs (put_entry i (FEntry (recs m i) (fe_guards (entry_of m i)) None) (put_entry i (entry_of m i) m)) j = recs m j).
    { intros j. rewrite !entry_put. case_decide; by subst. }
    repeat (match goal with |- context[if ?b then refuse_grant _ _ else _] => destruct b end;
      [split_and!; [done|done|first [exact Hsame0|exact Hsame2]]|]). eexists. done. }
  destruct (try_grant i c fh path now pre s m) as [[s'|e] m']; cbn [fst snd] in *.
  - destruct H as (_ & _ & _ & I & Hri & Hrj & _). destruct Hcalls as (m1 & -> & He & Hb).
    exists (Some c). assert (Hi1 : deleg_inv m1) by (by apply (inv_frame None (note_evidence c m1))).
    assert (Hrec : forall j r', r' ∈ recs m1 j <-> r' ∈ recs m j \/ (j = i /\ r' = DelegRec s c fh i path Granted now None None false)).
    { intros j r'. change (recs m1 j) with (recs (note_evidence c m1) j).
      destruct (decide (j = i)) as [->|Hne]; [rewrite Hri; set_solver|]. rewrite Hrj by done. naive_solver. }
    split.
    + apply logged_note; try done. intros j r' Hne. rewrite Hrec. split; [|by left]. intros [?|[_ ->]]; done.
    + intros c' Hc'. apply has_revoked_spec in Hc' as (j & r' & Hr' & Hl & Hc'); [|done]. apply has_revoked_spec; [done|].
      apply Hrec in Hr' as [Hr'|[_ ->]]; [eauto|done].
  - destruct Hcalls as (He & Hb & Hre). exists None. pose proof (cm_inv _ _ H) as Hi'. split.
    + apply logged_quiet; try done. intros c' b. by setoid_rewrite Hre.
    + intros c' Hc'. apply has_revoked_spec in Hc'; [|done]. apply has_revoked_spec; [done|]. by setoid_rewrite Hre in Hc'.
Qed.

Lemma teardown_calls os : forall st, let st' := foldl teardown_one st os in
  evidence_calls st'.2 = evidence_calls st.2 /\ breaker_calls st'.2 = breaker_calls st.2.
Proof.
  induction os as [|o os IH]; intros st; [done|]. cbn [foldl].
  destruct (IH (teardown_one st o)) as [-> ->]. destruct st as [fr m]. simpl.
  assert (Hg : forall i m, evidence_calls (gc_entry i m) = evidence_calls m /\ breaker_calls (gc_entry i m) = breaker_calls m).
  { intros i m0. unfold gc_entry. destruct (dm_files m0 !! i); [|done]. by destruct (fe_is_empty _). }
  destruct (by_stateid m !! o) as [i|]; [|done]. destruct (dm_files m !! i) as [e|]; [|done].
  destruct (find_first _ _) as [r|]; cbn [snd]; rewrite !(proj1 (Hg _ _)), !(proj2 (Hg _ _)); [|done]. by destruct (is_live r).
Qed.

Lemma cleanup_logged c m : deleg_inv m -> exists who, logged who m (cleanup_client_delegations c m).2 /\
  client_has_revoked (cleanup_client_delegations c m).2 c = false.
Proof.
  intros Hi. pose proof (cleanup_spec c m Hi) as H.
  destruct (cleanup_client_delegations c m) as [freed m'] eqn:E. destruct H as (I & R & _). cbn [snd].
  assert (Hc : client_has_revoked m' c = false).
  { apply not_true_iff_false. intros (i & r & [_ Hr]%R & _ & Hrc)%has_revoked_spec; done. }
  unfold cleanup_client_delegations in E. destruct (by_client m !! c) as [os|] eqn:Hb.
  2: { injection E as _ <-. exists None. split; [by apply logged_refl|done]. }
  pose proof (teardown_calls os ([], set_tables (dm_files m) (by_stateid m) (delete c (by_client m)) m)) as [T1 T2].
  destruct (foldl teardown_one _ os) as [fr m2]. cbn [snd] in T1, T2. injection E as -> <-.
  set (m3 := set_live (delete c (live_per_client m2)) (live_global m2) m2) in *.
  assert (Hfr : forall m0, evidence_calls (foldl (fun m s => d_release_fd s m) m0 freed) = evidence_calls m0 /\
    breaker_calls (foldl (fun m s => d_release_fd s m) m0 freed) = breaker_calls m0 /\
    dm_files (foldl (fun m s => d_release_fd s m) m0 freed) = dm_files m0 /\
    index_fields (foldl (fun m s => d_release_fd s m) m0 freed) = index_fields m0).
  { clear. induction freed as [|s l IH]; intros m0; [done|]. cbn [foldl]. destruct (IH (d_release_fd s m0)) as (-> & -> & -> & ->). done. }
  destruct (Hfr (note_evidence c m3)) as (F1 & F2 & F3 & F4). set (m4 := foldl _ _ freed) in *.
  assert (Hre : forall j, recs m4 j = recs m3 j) by (intros j; unfold entry_of; by rewrite F3).
  assert (Hi3 : deleg_inv (note_evidence c m3)) by (by apply (inv_frame None m4)).
  assert (Hhold : forall c0, hold m4 c0 = hold (note_evidence c m3) c0).
  { intros c0. apply hold_ext; [done|done|]. by setoid_rewrite Hre. }
  exists (Some c). split; [|done]. split; [done| | | |].
  - rewrite F1. simpl. rewrite T1. simpl. by rewrite Hhold.
  - rewrite F2. done.
  - intros c' Hne. apply hold_ext; [done|done|]. setoid_rewrite R. naive_solver.
  - intros c' Hne. apply revoked_ext; [done|done|]. setoid_rewrite R. naive_solver.
Qed.
