(* ===== verification/StateManager.v ===== *)
(** The server's NFSv4 state (nfs/v4/state/mod.rs): the managers side by
    side with the byte-range locks, and what crosses them: the fence funnel,
    revocation, SEQ4 status bits, holder evidence, FREE_STATEID,
    DELEGRETURN, DESTROY_CLIENTID, the courtesy sweep and the restart load.

    [sv_markers] are the synthetic rows (holder evidence, breaker trips) of
    the backend's stateid table, by their 12-byte key; the closures that
    write them run with every delegation call ([deleg_do]). *)

From S2P Require Import Prelude Xdr Session Lease Stateid Clients Delegs Locks.

(** Callback credentials (compound.rs). *)
Inductive CallbackSecParms :=
| CbNone
| CbSys (stamp : Z) (machinename : bytes) (uid gid : Z) (gids : list Z)
| CbGss.

Record Server := Srv {
  sv_clients : ClientManager;
  sv_sessions : SessionManager CallbackSecParms;
  sv_stateids : StateIdManager;
  sv_leases : LeaseManager;
  sv_delegs : DelegationManager;
  sv_locks : LockManager;
  sv_seq_flags : gmap Z Z;
  sv_armed : gmap Z (option (Z * Z * Z));
  sv_markers : gmap Z StateIdRecord }.

Definition upd_clients x s := Srv x (sv_sessions s) (sv_stateids s) (sv_leases s) (sv_delegs s) (sv_locks s)
  (sv_seq_flags s) (sv_armed s) (sv_markers s).
Definition upd_sessions x s := Srv (sv_clients s) x (sv_stateids s) (sv_leases s) (sv_delegs s) (sv_locks s)
  (sv_seq_flags s) (sv_armed s) (sv_markers s).
Definition upd_stateids x s := Srv (sv_clients s) (sv_sessions s) x (sv_leases s) (sv_delegs s) (sv_locks s)
  (sv_seq_flags s) (sv_armed s) (sv_markers s).
Definition upd_leases x s := Srv (sv_clients s) (sv_sessions s) (sv_stateids s) x (sv_delegs s) (sv_locks s)
  (sv_seq_flags s) (sv_armed s) (sv_markers s).
Definition upd_delegs x s := Srv (sv_clients s) (sv_sessions s) (sv_stateids s) (sv_leases s) x (sv_locks s)
  (sv_seq_flags s) (sv_armed s) (sv_markers s).
Definition upd_locks x s := Srv (sv_clients s) (sv_sessions s) (sv_stateids s) (sv_leases s) (sv_delegs s) x
  (sv_seq_flags s) (sv_armed s) (sv_markers s).
Definition upd_flags x s := Srv (sv_clients s) (sv_sessions s) (sv_stateids s) (sv_leases s) (sv_delegs s) (sv_locks s)
  x (sv_armed s) (sv_markers s).
Definition upd_armed x s := Srv (sv_clients s) (sv_sessions s) (sv_stateids s) (sv_leases s) (sv_delegs s) (sv_locks s)
  (sv_seq_flags s) x (sv_markers s).
Definition upd_markers x s := Srv (sv_clients s) (sv_sessions s) (sv_stateids s) (sv_leases s) (sv_delegs s) (sv_locks s)
  (sv_seq_flags s) (sv_armed s) x.

(** ** Marker rows *)
(** Four magic bytes, then eight big-endian bytes. *)
Definition marker_other (c : Z) : Z := 4261281277 * 2 ^ 64 + c.
Definition breaker_marker_other : Z := 2 ^ 96 / 255 * BREAKER_MARKER_TAG.
Definition breaker_row_other (unix : Z) : Z := 4244438268 * 2 ^ 64 + unix.
Definition marker_record (other client : Z) : StateIdRecord :=
  SidRecord other 0 RDelegation client None true None.

Definition evidence_row (rows : gmap Z StateIdRecord) (call : Z * bool) : gmap Z StateIdRecord :=
  let '(c, holds) := call in
  if holds then <[marker_other c := marker_record (marker_other c) c]> rows else delete (marker_other c) rows.
Definition breaker_row (rows : gmap Z StateIdRecord) (call : option Z) : gmap Z StateIdRecord :=
  match call with
  | Some unix => <[breaker_row_other unix := marker_record (breaker_row_other unix) 0]> rows
  | None => delete breaker_marker_other rows
  end.

(** The installed sinks run on what the call logged. *)
Definition run_sinks (s : Server) : Server :=
  let d := sv_delegs s in
  upd_delegs (set_logs [] [] (fd_calls d) d)
    (upd_markers (foldl breaker_row (foldl evidence_row (sv_markers s) (evidence_calls d)) (breaker_calls d)) s).
Definition deleg_do {A} (f : DelegationManager -> A * DelegationManager) (s : Server) : A * Server :=
  let '(a, d) := f (sv_delegs s) in (a, run_sinks (upd_delegs d s)).

(** ** SEQ4 status bits *)
Definition CB_PATH_DOWN : Z := 1.
Definition RECALLABLE_STATE_REVOKED : Z := 64.

Definition raise_seq_flags (c bits : Z) (s : Server) : Server :=
  if bits =? 0 then s else upd_flags (<[c := Z.lor (default 0 (sv_seq_flags s !! c)) bits]> (sv_seq_flags s)) s.
Definition lower_seq_flags (c bits : Z) (s : Server) : Server :=
  match sv_seq_flags s !! c with
  | Some e => upd_flags (<[c := Z.ldiff e bits]> (sv_seq_flags s)) s
  | None => s
  end.
Definition seq_flags (s : Server) (c : Z) : Z := default 0 (sv_seq_flags s !! c).

Definition note_seq4_delivery (c session slot sq : Z) (s : Server) : Server :=
  match sv_armed s !! c with
  | None => s
  | Some None => upd_armed (<[c := Some (session, slot, sq)]> (sv_armed s)) s
  | Some (Some (s0, sl, q)) =>
      if (s0 =? session) && (sl =? slot) && (q <? sq) then
        let s1 := upd_armed (delete c (sv_armed s)) s in
        if negb (client_holds_live (sv_delegs s1) c) && negb (client_has_revoked (sv_delegs s1) c)
        then lower_seq_flags c RECALLABLE_STATE_REVOKED (upd_markers (delete (marker_other c) (sv_markers s1)) s1)
        else s1
      else s
  end.
Definition marker_armed (s : Server) (c : Z) : bool := bool_decide (is_Some (sv_armed s !! c)).
Definition note_back_channel_bound (session : Z) (s : Server) : Server :=
  match get_session (sv_sessions s) session with
  | Some x => lower_seq_flags (client_id x) CB_PATH_DOWN s
  | None => s
  end.

(** ** Fence and revocation *)
(** The installed lease probe: a row that lapsed, not an absent one. *)
Definition lease_lapsed (s : Server) (now c : Z) : bool :=
  match get_remaining (sv_leases s) c now with Some d => d =? 0 | None => false end.

Inductive FenceVerdict := Proceed (g : option MutationGuard) | FenceDelay.

(** Both managers carry a revocation; the SEQ4 bit announces it. *)
Definition revoke_delegation (now : Z) (s : Server) (sid : StateId) : Server :=
  match deleg_do (deleg_revoke sid now) s with
  | (Some c, s1) =>
      let s2 := match revoke sid (sv_stateids s1) with Ok m => upd_stateids m s1 | Err _ => s1 end in
      raise_seq_flags c RECALLABLE_STATE_REVOKED s2
  | (None, s1) => s1
  end.

(** [enabled]: the feature gate; [spawner]: recall machinery installed.  The
    recall orders are what is handed to the spawner. *)
Definition deleg_fence (enabled spawner : bool) (ident : FileId) (mutator : option Z) (truncate : bool) (now : Z)
    (s : Server) : FenceVerdict * list RecallOrder * Server :=
  if negb enabled then (Proceed None, [], s)
  else if negb spawner then (Proceed None, [], s)
  else match mutation_fence ident mutator truncate now (lease_lapsed s now) (sv_delegs s) with
       | (Clear g, d) => (Proceed (Some g), [], upd_delegs d s)
       | (Conflict g recalls expired delay, d) =>
           let s1 := foldl (revoke_delegation now) (upd_delegs d s) expired in
           if delay then (FenceDelay, recalls, upd_delegs (drop_guard g (sv_delegs s1)) s1)
           else (Proceed (Some (if bool_decide (expired = []) then g else arm_exclusivity_check g)), recalls, s1)
       end.

(** ** Returning and freeing *)
Definition handle_delegreturn (sid : StateId) (now : Z) (s : Server) : Nfs4Status * Server :=
  match deleg_do (return_delegation sid now) s with
  | (Ok _, s1) => (NFS_Ok, s1)
  | (Err DUnknown, s1) => (NFS_BadStateId, s1)
  | (Err DOldSeqid, s1) => (NFS_OldStateId, s1)
  | (Err DRevokedErr, s1) => (NFS_DelegRevoked, s1)
  end.

(** [sid]: the stateid after the current-stateid sentinel is resolved. *)
Definition free_stateid (sid : option StateId) (s : Server) : Nfs4Status * Server :=
  match sid with
  | None => (NFS_BadStateId, s)
  | Some sid =>
      match get_state (sv_stateids s) sid with
      | None => (NFS_Ok, s)
      | Some e =>
          if en_revoked e then
            if bool_decide (en_type e = TyDelegation) then
              let c := en_client e in
              let s1 := (deleg_do (free_revoked sid) s).2 in
              let s2 := upd_stateids (close_open_state (sid_other sid) (sv_stateids s1)) s1 in
              (NFS_Ok, if negb (client_has_revoked (sv_delegs s2) c)
                       then lower_seq_flags c RECALLABLE_STATE_REVOKED s2 else s2)
            else (NFS_Ok, upd_stateids (close_open_state (sid_other sid) (sv_stateids s)) s)
          else match en_type e with
               | TyOpen => (NFS_LocksHeld, s)
               | TyLock =>
                   match release_owner_stateid (sid_other sid) (sv_locks s) with
                   | (true, lm) => (NFS_Ok, upd_stateids (remove sid (sv_stateids s)) (upd_locks lm s))
                   | (false, lm) => (NFS_LocksHeld, upd_locks lm s)
                   end
               | TyDelegation =>
                   (NFS_Ok, match revoke sid (sv_stateids s) with Ok m => upd_stateids m s | Err _ => s end)
               end
      end
  end.

(** ** Retiring clients *)
Definition drop_client_record (c : Z) (s : Server) : Server :=
  let '(m, lm) := remove_client c (sv_clients s) (sv_leases s) in upd_leases lm (upd_clients m s).

Definition retire_client (s : Server) (c : Z) : Server :=
  let s1 := upd_sessions (destroy_client_sessions (sv_sessions s) c) s in
  let s2 := upd_stateids (remove_client_stateids c (sv_stateids s1)) s1 in
  let s3 := drop_client_record c s2 in
  (deleg_do (cleanup_client_delegations c) s3).2.
Definition cleanup_expired_ids (l : list Z) (s : Server) : Server := foldl retire_client s l.
Definition sweep_expired (now : Z) (s : Server) : Server := cleanup_expired_ids (get_expired_clients (sv_leases s) now) s.

Definition strip_locks (s : Server) (c : Z) : Server := upd_locks (remove_client_locks c (sv_locks s)) s.
Definition courtesy_release_expired (now : Z) (s : Server) : nat * Server :=
  let expired := get_expired_clients (sv_leases s) now in
  if bool_decide (expired = []) then (0%nat, s)
  else (length expired, foldl strip_locks (cleanup_expired_ids expired s) expired).

Definition cascade_destroy_client (old : Z) (s : Server) : Server :=
  let s1 := upd_sessions (destroy_client_sessions (sv_sessions s) old) s in
  let s2 := upd_stateids (remove_client_stateids old (sv_stateids s1)) s1 in
  let s3 := (deleg_do (cleanup_client_delegations old) s2).2 in
  drop_client_record old (strip_locks s3 old).

Definition client_has_live_state (now : Z) (s : Server) (c : Z) : bool :=
  is_valid (sv_leases s) c now &&
  (negb (bool_decide (get_client_sessions (sv_sessions s) c = [])) ||
   (0 <? count_for_client (sv_stateids s) c)%nat ||
   (0 <? deleg_count_for_client (sv_delegs s) c)%nat ||
   (0 <? lock_count_for_client (sv_locks s) c)).

Definition wrong_mach_cred (s : Server) (c : Z) (principal : bytes) : bool :=
  match mach_cred_principal (sv_clients s) c with Some p => negb (bool_decide (p = principal)) | None => false end.

Definition destroy_clientid (c : Z) (principal : bytes) (s : Server) : Nfs4Status * Server :=
  if bool_decide (get_client (sv_clients s) c = None) then (NFS_StaleClientId, s)
  else if wrong_mach_cred s c principal then (NFS_WrongCred, s)
  else if negb (bool_decide (get_client_sessions (sv_sessions s) c = [])) then (NFS_ClientIdBusy, s)
  else if (0 <? count_for_client (sv_stateids s) c)%nat || (0 <? lock_count_for_client (sv_locks s) c) ||
          (0 <? deleg_count_for_client (sv_delegs s) c)%nat then (NFS_ClientIdBusy, s)
  else (NFS_Ok, drop_client_record c s).

(** ** Restart *)
(** [L] the lease time; [unix] the wall clock in seconds. *)
Definition load_from_backend (L now unix : Z) (state_lost : bool) (cl : list ClientRecord) (se : list SessionRecord)
    (st : list StateIdRecord) (s : Server) : Server :=
  let '(cm, lm) := load_client_records L now cl (sv_clients s) (sv_leases s) in
  let s1 := upd_leases lm (upd_clients cm s) in
  let s2 := upd_sessions (Session.load_records (sv_sessions s1) se) s1 in
  let '(markers, sm) := Stateid.load_records st (sv_stateids s2) in
  let s3 := upd_stateids sm s2 in
  let s4 := match breaker_trip_unix markers with
            | Some t => upd_delegs (restore_breaker_trip t now unix (sv_delegs s3)).2 s3
            | None => s3
            end in
  let s5 := foldl (fun s c => upd_armed (<[c := None]> (sv_armed s)) (raise_seq_flags c RECALLABLE_STATE_REVOKED s))
              s4 (deleg_holders markers) in
  let anything := state_lost || negb (bool_decide (cl = [])) || negb (bool_decide (se = [])) || negb (bool_decide (st = [])) in
  upd_leases (set_anything_reclaimable (sv_leases s5) anything) s5.
