(* ===== verification/StateEvidence.v ===== *)
(** Holder evidence and SEQ4 announcements along every execution: a client
    that holds recallable state has its marker row on disk, so that a
    restart pre-arms its SEQ4 bit, and a client with a revoked delegation
    has the bit up until its last tombstone is freed. *)

From S2P Require Import Prelude Xdr Session Lease Stateid Clients Delegs DelegsInv DelegsProps DelegsEvidence Locks StateManager.

Definition bit_up (s : Server) (c : Z) : bool := Z.testbit (seq_flags s c) 6.

Record evident (s : Server) : Prop := {
  ev_inv : deleg_inv (sv_delegs s);
  ev_logs : evidence_calls (sv_delegs s) = [] /\ breaker_calls (sv_delegs s) = [];
  ev_rows : forall c, is_u64 c -> hold (sv_delegs s) c = true ->
    sv_markers s !! marker_other c = Some (marker_record (marker_other c) c);
  ev_back : forall c, is_u64 c -> is_Some (sv_markers s !! marker_other c) ->
    hold (sv_delegs s) c = true \/ is_Some (sv_armed s !! c) }.
Definition told (s : Server) : Prop := forall c, client_has_revoked (sv_delegs s) c = true -> bit_up s c = true.

(** ** Sinks *)
Lemma evidence_row_lookup rows c b c' : evidence_row rows (c, b) !! marker_other c' =
  if decide (c = c') then (if b then Some (marker_record (marker_other c) c) else None) else rows !! marker_other c'.
Proof.
  unfold evidence_row. assert (Hne : c <> c' -> marker_other c <> marker_other c') by (unfold marker_other; lia).
  destruct (decide (c = c')) as [->|Hc], b; rewrite ?lookup_insert_eq, ?lookup_delete_eq, ?lookup_insert_ne, ?lookup_delete_ne; auto.
Qed.

(** A logged call leaves the evidence true. *)
Lemma do_evident {A} (f : DelegationManager -> A * DelegationManager) who s :
  evident s -> logged who (sv_delegs s) (f (sv_delegs s)).2 -> evident (deleg_do f s).2.
Proof.
  intros [H1 [H2 H2'] H3 H4] Hlog. unfold deleg_do. destruct (f (sv_delegs s)) as [a d]. cbn [snd] in *.
  pose proof (lg_calls _ _ _ Hlog) as Hc. rewrite H2 in Hc. pose proof (lg_breaker _ _ _ Hlog) as Hb. rewrite H2' in Hb.
  assert (Hd : deleg_inv (sv_delegs (run_sinks (upd_delegs d s)))) by (apply (inv_frame None d); [done|done|apply (lg_inv _ _ _ Hlog)]).
  assert (Hh : forall c, hold (sv_delegs (run_sinks (upd_delegs d s))) c = hold d c) by done.
  assert (Hrow : forall c, sv_markers (run_sinks (upd_delegs d s)) !! marker_other c =
    match who with Some c0 => if decide (c0 = c) then (if hold d c then Some (marker_record (marker_other c) c) else None)
      else sv_markers s !! marker_other c | None => sv_markers s !! marker_other c end).
  { intros c. simpl. rewrite Hc, Hb. destruct who as [c0|]; [|done]. cbn [app foldl]. rewrite evidence_row_lookup.
    case_decide; [by subst|done]. }
  split; [done|done| |].
  - intros c Hu. rewrite Hh, Hrow. intros Hhold. destruct who as [c0|].
    + case_decide as Hd0; [by rewrite Hhold|]. rewrite (lg_hold _ _ _ Hlog) in Hhold by congruence. by apply H3.
    + rewrite (lg_hold _ _ _ Hlog) in Hhold by done. by apply H3.
  - intros c Hu. rewrite Hrow, Hh. destruct who as [c0|].
    + case_decide as Hd0; [destruct (hold d c); [by left|by intros [? ?]]|].
      rewrite (lg_hold _ _ _ Hlog) by congruence. by apply H4.
    + rewrite (lg_hold _ _ _ Hlog) by done. by apply H4.
Qed.

(** Parts the evidence does not read. *)
Lemma evident_frame s s' : sv_delegs s' = sv_delegs s -> sv_markers s' = sv_markers s -> sv_armed s' = sv_armed s -> evident s -> evident s'.
Proof. intros E1 E2 E3 [H1 H2 H3 H4]. split; rewrite ?E1; [done|done| |]; intros c; rewrite E2, ?E3; auto. Qed.
Lemma told_frame s s' : sv_delegs s' = sv_delegs s -> sv_seq_flags s' = sv_seq_flags s -> told s -> told s'.
Proof. intros E1 E2 H c. unfold bit_up, seq_flags. rewrite E1, E2. apply H. Qed.

(** Calls that make no tombstone. *)
Lemma do_told {A} (f : DelegationManager -> A * DelegationManager) s : told s ->
  (forall c, client_has_revoked (f (sv_delegs s)).2 c = true -> client_has_revoked (sv_delegs s) c = true) ->
  told (deleg_do f s).2.
Proof.
  intros Ht Hf. unfold deleg_do. destruct (f (sv_delegs s)) as [a d]. cbn [snd] in *. intros c Hc. apply Ht, Hf. exact Hc.
Qed.

(** ** The bits *)
Lemma raise_bit c b s c' : bit_up (raise_seq_flags c b s) c' = if decide (c = c') then bit_up s c' || Z.testbit b 6 else bit_up s c'.
Proof.
  unfold bit_up, raise_seq_flags, seq_flags. destruct (b =? 0) eqn:E; bool_Z.
  - subst b. rewrite Z.testbit_0_l, orb_false_r. by case_decide.
  - cbn [upd_flags sv_seq_flags]. rewrite lookup_insert. case_decide; [subst|done]. cbn [default from_option id]. apply Z.lor_spec.
Qed.
Lemma lower_bit c b s c' : bit_up (lower_seq_flags c b s) c' = if decide (c = c') then bit_up s c' && negb (Z.testbit b 6) else bit_up s c'.
Proof.
  unfold bit_up, lower_seq_flags, seq_flags. destruct (sv_seq_flags s !! c) as [e|] eqn:E.
  - cbn [upd_flags sv_seq_flags]. rewrite lookup_insert. case_decide; [subst|done]. rewrite E. apply Z.ldiff_spec.
  - case_decide; [subst|done]. rewrite E. cbn [default from_option]. by rewrite Z.testbit_0_l.
Qed.
Lemma raise_frame c b s : let s' := raise_seq_flags c b s in
  sv_delegs s' = sv_delegs s /\ sv_markers s' = sv_markers s /\ sv_armed s' = sv_armed s.
Proof. unfold raise_seq_flags. by destruct (b =? 0). Qed.
Lemma lower_frame c b s : let s' := lower_seq_flags c b s in
  sv_delegs s' = sv_delegs s /\ sv_markers s' = sv_markers s /\ sv_armed s' = sv_armed s.
Proof. unfold lower_seq_flags. by destruct (sv_seq_flags s !! c). Qed.

Lemma raise_told c b s : told s -> told (raise_seq_flags c b s).
Proof.
  intros Ht c' Hc'. destruct (raise_frame c b s) as [Hd _]. rewrite Hd in Hc'. rewrite raise_bit.
  case_decide; [|by apply Ht]. by rewrite Ht.
Qed.
Lemma lower_told c b s : Z.testbit b 6 = false \/ client_has_revoked (sv_delegs s) c = false -> told s -> told (lower_seq_flags c b s).
Proof.
  intros Hb Ht c' Hc'. destruct (lower_frame c b s) as [Hd _]. rewrite Hd in Hc'. rewrite lower_bit.
  case_decide as Hc; [subst|by apply Ht]. rewrite Ht by done. destruct Hb as [->| Hb]; [done|congruence].
Qed.

(** ** Revocation and the fence *)
Record keeps (s s' : Server) : Prop := {
  kp_ev : evident s'; kp_told : told s';
  kp_guards : forall j, fe_guards (entry_of (sv_delegs s') j) = fe_guards (entry_of (sv_delegs s) j) }.

Lemma revoke_keeps now sid s : evident s -> told s -> keeps s (revoke_delegation now s sid).
Proof.
  intros He Ht. pose proof (revoke_logged sid now (sv_delegs s) (ev_inv _ He)) as Hlog.
  destruct (revoke_spec sid now (sv_delegs s) (ev_inv _ He)) as [Hc _].
  pose proof (do_evident (deleg_revoke sid now) _ s He Hlog) as He1. unfold revoke_delegation.
  unfold deleg_do in *. destruct (deleg_revoke sid now (sv_delegs s)) as [[c|] d]; cbn [fst snd] in *.
  - set (s1 := run_sinks (upd_delegs d s)) in *. set (s2 := match revoke sid (sv_stateids s1) with Ok m => upd_stateids m s1 | Err _ => s1 end).
    assert (Hs2 : sv_delegs s2 = sv_delegs s1 /\ sv_markers s2 = sv_markers s1 /\ sv_armed s2 = sv_armed s1 /\ sv_seq_flags s2 = sv_seq_flags s1).
    { unfold s2. by destruct (revoke sid (sv_stateids s1)). }
    destruct Hs2 as (E1 & E2 & E3 & E4). destruct (raise_frame c RECALLABLE_STATE_REVOKED s2) as (R1 & R2 & R3). split.
    + apply (evident_frame s1); congruence.
    + intros c' Hc'. rewrite R1, E1 in Hc'. rewrite raise_bit. case_decide as Hcc; [by rewrite orb_true_r|].
      change (client_has_revoked d c' = true) in Hc'. rewrite (lg_revoked _ _ _ Hlog) in Hc' by congruence.
      unfold bit_up, seq_flags. rewrite E4. by apply Ht.
    + intros j. rewrite R1, E1. apply (cm_guards _ _ Hc).
  - split; [done| |intros j; apply (cm_guards _ _ Hc)]. intros c' Hc'. apply Ht.
    change (client_has_revoked d c' = true) in Hc'. by rewrite (lg_revoked _ _ _ Hlog) in Hc' by done.
Qed.

Lemma keeps_trans s1 s2 s3 : keeps s1 s2 -> keeps s2 s3 -> keeps s1 s3.
Proof. intros [A1 A2 A3] [B1 B2 B3]. split; [done|done|]. intros j. by rewrite B3. Qed.
Lemma revoke_all_keeps now l : forall s, evident s -> told s -> keeps s (foldl (revoke_delegation now) s l).
Proof.
  induction l as [|sid l IH]; intros s He Ht; [by split|]. cbn [foldl].
  pose proof (revoke_keeps now sid s He Ht) as Hk. eapply keeps_trans; [exact Hk|].
  apply IH; [apply (kp_ev _ _ Hk)|apply (kp_told _ _ Hk)].
Qed.

(** A call that tells nobody, outside [deleg_do]. *)
Lemma quiet_evident s d : evident s -> told s -> logged None (sv_delegs s) d -> evident (upd_delegs d s) /\ told (upd_delegs d s).
Proof.
  intros [H1 [H2 H2'] H3 H4] Ht Hlog. split.
  - split; simpl; [apply (lg_inv _ _ _ Hlog)| | |].
    + rewrite (lg_calls _ _ _ Hlog), (lg_breaker _ _ _ Hlog), H2, H2'. done.
    + intros c Hu. rewrite (lg_hold _ _ _ Hlog) by done. by apply H3.
    + intros c Hu. rewrite (lg_hold _ _ _ Hlog) by done. by apply H4.
  - intros c. simpl. rewrite (lg_revoked _ _ _ Hlog) by done. apply Ht.
Qed.

Lemma fence_keeps en sp i mu tr now s : evident s -> told s ->
  let s' := (deleg_fence en sp i mu tr now s).2 in evident s' /\ told s'.
Proof.
  intros He Ht. unfold deleg_fence. destruct (negb en); [done|]. destruct (negb sp); [done|].
  pose proof (fence_logged i mu tr now (lease_lapsed s now) (sv_delegs s) (ev_inv _ He)) as Hlog.
  pose proof (mutation_fence_spec i mu tr now (lease_lapsed s now) (sv_delegs s) (ev_inv _ He)) as Hspec.
  destruct (mutation_fence i mu tr now (lease_lapsed s now) (sv_delegs s)) as [[g|g rc exp delay] d]; cbn [snd] in *.
  { by apply quiet_evident. }
  destruct (quiet_evident s d He Ht Hlog) as [He1 Ht1]. destruct Hspec as (_ & _ & G & Hg & _).
  pose proof (revoke_all_keeps now exp (upd_delegs d s) He1 Ht1) as Hk. destruct delay; cbn [snd]; [|by destruct Hk].
  set (s1 := foldl (revoke_delegation now) (upd_delegs d s) exp) in *. clearbody s1.
  destruct Hk as [Hk1 Hk2 Hk3]. apply quiet_evident; [done|done|]. apply drop_guard_logged; [apply (ev_inv _ Hk1)|].
  rewrite Hk3, Hg. simpl. rewrite G, decide_True by done. destruct (di_guard _ _ (ev_inv _ He) i). lia.
Qed.

(** ** The breaker's rows are other rows *)
Lemma breaker_row_lookup rows b c : is_u64 c -> (forall unix, b = Some unix -> is_u64 unix) ->
  breaker_row rows b !! marker_other c = rows !! marker_other c.
Proof.
  intros Hc Hb. destruct b as [unix|]; simpl.
  - specialize (Hb unix eq_refl). rewrite lookup_insert_ne; [done|]. unfold breaker_row_other, marker_other. bounds.
  - rewrite lookup_delete_ne; [done|]. unfold marker_other. change breaker_marker_other with 78296066484684757151266962684. bounds.
Qed.

Lemma paused_shape c now unix m : let m' := (grants_paused c now unix m).2 in
  dm_files m' = dm_files m /\ index_fields m' = index_fields m /\ evidence_calls m' = evidence_calls m /\
  (breaker_calls m' = breaker_calls m \/ exists b, breaker_calls m' = breaker_calls m ++ [b] /\ (b = None \/ b = Some unix)).
Proof.
  unfold grants_paused, sync_breaker_persistence.
  destruct (match persisted_trip_until m with Some t => now <? t | None => false end); [by auto|]. cbv zeta.
  repeat case_match; simpl; split_and!; try done; eauto.
Qed.

Lemma paused_keeps c now unix s : is_u64 unix -> evident s -> told s ->
  let s' := (deleg_do (grants_paused c now unix) s).2 in evident s' /\ told s'.
Proof.
  intros Hu [H1 [H2 H2'] H3 H4] Ht. unfold deleg_do. pose proof (paused_shape c now unix (sv_delegs s)) as (P1 & P2 & P3 & P4).
  destruct (grants_paused c now unix (sv_delegs s)) as [b d]. cbn [snd] in *.
  assert (Hi : deleg_inv (sv_delegs (run_sinks (upd_delegs d s)))) by (by apply (inv_frame None (sv_delegs s))).
  assert (Hre : forall j, entry_of (sv_delegs (run_sinks (upd_delegs d s))) j = entry_of (sv_delegs s) j)
    by (intros j; unfold entry_of; simpl; by rewrite P1).
  assert (Hh : forall c0, hold (sv_delegs (run_sinks (upd_delegs d s))) c0 = hold (sv_delegs s) c0).
  { intros c0. apply hold_ext; [done|done|]. by setoid_rewrite Hre. }
  assert (Hrow : forall c0, is_u64 c0 -> sv_markers (run_sinks (upd_delegs d s)) !! marker_other c0 = sv_markers s !! marker_other c0).
  { intros c0 Hc0. simpl. rewrite P3, H2. cbn [foldl]. rewrite H2' in P4. destruct P4 as [-> | (x & -> & Hx)]; [done|].
    cbn [app foldl]. rewrite breaker_row_lookup; [done|done|]. intros u ->. destruct Hx as [|[= ->]]; done. }
  split; [split; [done|done| |]|].
  - intros c0 Hc0. rewrite Hh, Hrow by done. by apply H3.
  - intros c0 Hc0. rewrite Hh, Hrow by done. by apply H4.
  - intros c0 Hc. apply Ht. rewrite <- Hc. symmetry. apply revoked_ext; [done|done|]. by setoid_rewrite Hre.
Qed.

Lemma delivery_keeps c session slot sq s : evident s -> told s ->
  let s' := note_seq4_delivery c session slot sq s in evident s' /\ told s'.
Proof.
  intros He Ht. unfold note_seq4_delivery. destruct (sv_armed s !! c) as [[[[s0 sl] q]|]|] eqn:Ha; [| |done].
  2: { split; [|done]. destruct He as [H1 H2 H3 H4]. split; [done|done|done|]. intros d Hu Hr. destruct (H4 d Hu Hr) as [?|[x Hx]]; [by left|].
       right. simpl. rewrite lookup_insert. case_decide; [by eexists|]. by exists x. }
  destruct (_ && _); [|done]. set (s1 := upd_armed (delete c (sv_armed s)) s).
  assert (Hgone : forall d, d <> c -> is_Some (sv_armed s !! d) -> is_Some (sv_armed s1 !! d)).
  { intros d Hd Hs. simpl. by rewrite lookup_delete_ne. }
  destruct He as [H1 H2 H3 H4].
  destruct (negb (client_holds_live (sv_delegs s1) c) && negb (client_has_revoked (sv_delegs s1) c)) eqn:Hn.
  - apply andb_prop in Hn as [Hn1%negb_true_iff Hn2%negb_true_iff].
    assert (Hh : hold (sv_delegs s) c = false) by (unfold hold; simpl in Hn1, Hn2; by rewrite Hn1, Hn2).
    destruct (lower_frame c RECALLABLE_STATE_REVOKED (upd_markers (delete (marker_other c) (sv_markers s1)) s1)) as (L1 & L2 & L3).
    split; [|apply lower_told; [by right|]; exact Ht].
    split; rewrite ?L1, ?L2, ?L3; [done|done| |].
    + intros d Hu Hd. simpl in *. rewrite lookup_delete_ne; [by apply H3|]. unfold marker_other. intros Heq.
      assert (c = d) by lia. congruence.
    + intros d Hu Hd. simpl in *. rewrite lookup_delete in Hd. case_decide as Hm; [by destruct Hd|].
      destruct (H4 d Hu Hd) as [?|Hs]; [by left|]. right. apply Hgone; [|done]. intros ->. by apply Hm.
  - split; [|exact Ht]. split; [done|done|done|]. intros d Hu Hd. destruct (H4 d Hu Hd) as [?|Hs]; [by left|].
    destruct (decide (d = c)) as [->|Hne]; [|right; by apply Hgone]. left. unfold hold. simpl in *.
    rewrite <- negb_orb in Hn. by apply negb_false_iff in Hn.
Qed.

(** ** Executions *)
Inductive state_request :=
| SGrant (i : FileId) (client : Z) (fh path : bytes) (now : Z) (pre : bool) (sid : StateId)
| SFence (enabled spawner : bool) (ident : FileId) (mutator : option Z) (truncate : bool) (now : Z)
| SRelease (g : MutationGuard)
| SRevoke (sid : StateId) (now : Z)
| SReturn (sid : StateId) (now : Z)
| SFree (sid : option StateId)
| SDisown (sid : StateId) (now : Z)
| STransmit (sid : StateId) (now : Z)
| SAcked (sid : StateId)
| SPaused (c now unix : Z)
| SDelivery (c session slot sq : Z)
| SBound (session : Z)
| SPathDown (c : Z)
| SRetire (c : Z)
| SCascade (c : Z).

Definition state_exec (q : state_request) (s : Server) : Server :=
  match q with
  | SGrant i c fh path now pre sid => (deleg_do (try_grant i c fh path now pre sid) s).2
  | SFence en sp i mu tr now => (deleg_fence en sp i mu tr now s).2
  | SRelease g => upd_delegs (drop_guard g (sv_delegs s)) s
  | SRevoke sid now => revoke_delegation now s sid
  | SReturn sid now => (handle_delegreturn sid now s).2
  | SFree sid => (free_stateid sid s).2
  | SDisown sid now => (deleg_do (resolve_disown sid now) s).2
  | STransmit sid now => upd_delegs (note_first_transmit sid now (sv_delegs s)) s
  | SAcked sid => upd_delegs (note_recall_acked sid (sv_delegs s)) s
  | SPaused c now unix => (deleg_do (grants_paused c now unix) s).2
  | SDelivery c session slot sq => note_seq4_delivery c session slot sq s
  | SBound session => note_back_channel_bound session s
  | SPathDown c => raise_seq_flags c CB_PATH_DOWN s
  | SRetire c => retire_client s c
  | SCascade c => cascade_destroy_client c s
  end.

(** A grant mints a new stateid, a guard is dropped by its holder, the wall
    clock is a u64. *)
Definition state_allowed (q : state_request) (s : Server) : bool :=
  match q with
  | SGrant _ _ _ _ _ _ sid => bool_decide (by_stateid (sv_delegs s) !! sid_other sid = None)
  | SRelease g => 0 <? fe_guards (entry_of (sv_delegs s) (mg_ident g))
  | SPaused _ _ unix => bool_decide (is_u64 unix)
  | _ => true
  end.

Inductive state_steps (s0 : Server) : Server -> Prop :=
| ss_refl : state_steps s0 s0
| ss_step q s : state_steps s0 s -> state_allowed q s = true -> state_steps s0 (state_exec q s).

(** A logged call without a new tombstone. *)
Lemma do_keeps {A} (f : DelegationManager -> A * DelegationManager) s :
  (exists who, logged who (sv_delegs s) (f (sv_delegs s)).2 /\ no_tomb (sv_delegs s) (f (sv_delegs s)).2) ->
  evident s -> told s -> evident (deleg_do f s).2 /\ told (deleg_do f s).2.
Proof. intros (who & Hl & Hn) He Ht. split; [by eapply do_evident|by apply do_told]. Qed.

Lemma return_keeps sid now s : evident s -> told s -> let s' := (handle_delegreturn sid now s).2 in evident s' /\ told s'.
Proof.
  intros He Ht. destruct (do_keeps (return_delegation sid now) s) as [H1 H2]; [by apply return_logged, (ev_inv _ He)|done|done|].
  unfold handle_delegreturn. destruct (deleg_do (return_delegation sid now) s) as [[c|[]] s1]; done.
Qed.

(** The two teardown orders differ only outside the delegation table. *)
Lemma cleanup_keeps c s : evident s -> told s -> let s' := (deleg_do (cleanup_client_delegations c) s).2 in evident s' /\ told s'.
Proof.
  intros He Ht. destruct (cleanup_logged c (sv_delegs s) (ev_inv _ He)) as (who & Hl & Hn). apply do_keeps; [|done|done].
  exists who. split; [done|]. pose proof (cleanup_spec c (sv_delegs s) (ev_inv _ He)) as Hspec.
  apply sub_no_tomb; [apply (ev_inv _ He)|apply (lg_inv _ _ _ Hl)|].
  destruct (cleanup_client_delegations c (sv_delegs s)) as [fr d]. destruct Hspec as (_ & R & _). intros j r Hr. by apply R in Hr as [? _].
Qed.

Lemma drop_record_frame c s : let s' := drop_client_record c s in
  sv_delegs s' = sv_delegs s /\ sv_markers s' = sv_markers s /\ sv_armed s' = sv_armed s /\ sv_seq_flags s' = sv_seq_flags s.
Proof. unfold drop_client_record. by destruct (remove_client c (sv_clients s) (sv_leases s)). Qed.

Lemma retire_keeps c s : evident s -> told s -> evident (retire_client s c) /\ told (retire_client s c).
Proof.
  intros He Ht. unfold retire_client. apply cleanup_keeps.
  - eapply evident_frame; [apply drop_record_frame..|]. by eapply evident_frame; [..|exact He].
  - eapply told_frame; [apply drop_record_frame..|]. by eapply told_frame; [..|exact Ht].
Qed.

Lemma cascade_keeps c s : evident s -> told s -> evident (cascade_destroy_client c s) /\ told (cascade_destroy_client c s).
Proof.
  intros He Ht. unfold cascade_destroy_client.
  set (s2 := upd_stateids _ _). assert (He2 : evident s2) by (by eapply evident_frame; [..|exact He]).
  assert (Ht2 : told s2) by (by eapply told_frame; [..|exact Ht]). destruct (cleanup_keeps c s2 He2 Ht2) as [He3 Ht3].
  split.
  - eapply evident_frame; [apply drop_record_frame..|]. by eapply evident_frame; [..|exact He3].
  - eapply told_frame; [apply drop_record_frame..|]. by eapply told_frame; [..|exact Ht3].
Qed.

Lemma free_keeps sid s : evident s -> told s -> let s' := (free_stateid sid s).2 in evident s' /\ told s'.
Proof.
  intros He Ht. unfold free_stateid. destruct sid as [sid|]; [|done]. destruct (get_state _ _) as [e|]; [|done].
  assert (Hf : forall s', sv_delegs s' = sv_delegs s -> sv_markers s' = sv_markers s -> sv_armed s' = sv_armed s ->
    sv_seq_flags s' = sv_seq_flags s -> evident s' /\ told s').
  { intros s' E1 E2 E3 E4. split; [by apply (evident_frame s)|by apply (told_frame s)]. }
  destruct (en_revoked e).
  - case_bool_decide; [|by apply Hf]. cbn [snd].
    destruct (do_keeps (free_revoked sid) s) as [H1 H2]; [by apply free_logged, (ev_inv _ He)|done|done|].
    set (s1 := (deleg_do (free_revoked sid) s).2) in *. set (s2 := upd_stateids _ s1).
    assert (He2 : evident s2) by (by apply (evident_frame s1)). assert (Ht2 : told s2) by (by apply (told_frame s1)).
    destruct (negb (client_has_revoked (sv_delegs s2) (en_client e))) eqn:Hn; [|done]. apply negb_true_iff in Hn.
    destruct (lower_frame (en_client e) RECALLABLE_STATE_REVOKED s2) as (L1 & L2 & L3).
    split; [by apply (evident_frame s2)|]. apply lower_told; [by right|done].
  - destruct (en_type e); [done| |].
    + destruct (release_owner_stateid _ _) as [[] lm]; by apply Hf.
    + destruct (revoke sid (sv_stateids s)); by apply Hf.
Qed.

Lemma exec_keeps q s : evident s -> told s -> state_allowed q s = true -> evident (state_exec q s) /\ told (state_exec q s).
Proof.
  intros He Ht Hal. pose proof (ev_inv _ He) as Hi. destruct q; simpl in Hal; cbn [state_exec].
  - apply bool_decide_eq_true in Hal. apply do_keeps; [by apply grant_logged|done|done].
  - by apply fence_keeps.
  - bool_Z. apply quiet_evident; [done|done|by apply drop_guard_logged].
  - by destruct (revoke_keeps now sid s He Ht).
  - by apply return_keeps.
  - by apply free_keeps.
  - apply do_keeps; [by apply disown_logged|done|done].
  - apply quiet_evident; [done|done|]. apply with_record_logged; [done|]. intros r. by destruct (_ && _).
  - apply quiet_evident; [done|done|]. apply with_record_logged; [done|]. intros r. case_bool_decide as Hb; [|done].
    split_and!; [done|done|]. unfold is_live. simpl. by rewrite Hb.
  - apply bool_decide_eq_true in Hal. by apply paused_keeps.
  - by apply delivery_keeps.
  - unfold note_back_channel_bound. destruct (get_session _ _) as [x|]; [|done].
    destruct (lower_frame (client_id x) CB_PATH_DOWN s) as (L1 & L2 & L3).
    split; [by apply (evident_frame s)|]. apply lower_told; [by left|done].
  - destruct (raise_frame c CB_PATH_DOWN s) as (L1 & L2 & L3). split; [by apply (evident_frame s)|by apply raise_told].
  - by apply retire_keeps.
  - by apply cascade_keeps.
Qed.

Lemma steps_keep s0 s : evident s0 -> told s0 -> state_steps s0 s -> evident s /\ told s.
Proof. intros He Ht. induction 1 as [|q s _ [IH1 IH2] Hal]; [done|by apply exec_keeps]. Qed.

(** ** Restart *)
Lemma load_markers rows : forall maxc mk m c, is_u64 c ->
  (c ∈ deleg_holders mk \/ marker_record (marker_other c) c ∈ rows) ->
  c ∈ deleg_holders (foldl (fun st r => load_record r st) (maxc, mk, m) rows).1.2.
Proof.
  induction rows as [|r rows IH]; intros maxc mk m c Hu Hc; cbn [foldl].
  { destruct Hc as [?|?%elem_of_nil]; done. }
  assert (Htag : marker_other c / 2 ^ 88 =? BREAKER_MARKER_TAG = false).
  { apply Z.eqb_neq. intros E. assert (marker_other c / 2 ^ 88 = 253); [|unfold BREAKER_MARKER_TAG in E; lia].
    symmetry. apply Z.div_unique with (r := 16645629 * 2 ^ 64 + c); unfold marker_other; bounds. }
  destruct (load_record r (maxc, mk, m)) as [[maxc' mk'] m'] eqn:E. apply IH; [done|].
  unfold load_record in E. destruct Hc as [Hc|[<-|Hc]%elem_of_cons].
  - left. case_bool_decide; [|by injection E as _ <- _].
    destruct (r_other r / 2 ^ 88 =? BREAKER_MARKER_TAG); injection E as _ <- _; simpl; [done|]. apply elem_of_app. by left.
  - left. rewrite bool_decide_eq_true_2 in E by done. simpl in E. rewrite Htag in E. injection E as _ <- _. simpl.
    apply elem_of_app. right. by left.
  - by right.
Qed.

(** Every client whose marker row is loaded comes up armed and announced. *)
Lemma load_armed L now unix lost cl se st s c : is_u64 c -> marker_record (marker_other c) c ∈ st ->
  let s' := load_from_backend L now unix lost cl se st s in
  bit_up s' c = true /\ sv_armed s' !! c = Some None.
Proof.
  intros Hu Hin. unfold load_from_backend. destruct (load_client_records _ _ _ _ _) as [cm lm].
  pose proof (load_markers st 0 (Markers [] None) (sv_stateids s) c Hu (or_intror Hin)) as Hm.
  unfold Stateid.load_records. cbn [sv_stateids upd_sessions upd_leases upd_clients].
  destruct (foldl _ (0, Markers [] None, sv_stateids s) st) as [[maxc mk] m']. cbn [fst snd] in Hm.
  set (s4 := match breaker_trip_unix mk with Some t => _ | None => _ end). clearbody s4.
  cbv zeta. match goal with |- context[foldl ?f s4 _] => set (arm := f) end.
  assert (Hmono : forall l s0, (bit_up s0 c = true /\ sv_armed s0 !! c = Some None) -> bit_up (foldl arm s0 l) c = true /\ sv_armed (foldl arm s0 l) !! c = Some None).
  { induction l as [|d l IH]; intros s0 [H1 H2]; [done|]. cbn [foldl]. apply IH. unfold arm. split.
    - change (bit_up (raise_seq_flags d RECALLABLE_STATE_REVOKED s0) c = true). rewrite raise_bit, H1. by case_decide.
    - cbn [sv_armed upd_armed]. rewrite lookup_insert. by case_decide. }
  assert (Hall : forall l s0, c ∈ l -> bit_up (foldl arm s0 l) c = true /\ sv_armed (foldl arm s0 l) !! c = Some None).
  { induction l as [|d l IH]; intros s0 Hc; [by apply elem_of_nil in Hc|]. cbn [foldl].
    apply elem_of_cons in Hc as [->|Hc]; [|by apply IH]. apply Hmono. unfold arm. split.
    - change (bit_up (raise_seq_flags d RECALLABLE_STATE_REVOKED s0) d = true). rewrite raise_bit, decide_True by done.
      by rewrite orb_true_r.
    - cbn [sv_armed upd_armed]. by rewrite lookup_insert_eq. }
  exact (Hall _ s4 Hm).
Qed.
