(* ===== verification/SessionOps.v ===== *)
(** EXCHANGE_ID, CREATE_SESSION, SEQUENCE and DESTROY_SESSION
    (nfs/v4/operations/session.rs), and the dispatcher's SEQUENCE arm with
    its status flags.

    Random ids are lists of draws ([None]: the draws held no free id), the
    quotas, the lease time [L] and each clock reading are arguments. *)

From Stdlib Require Import Ascii String.
From S2P Require Import Prelude Xdr Csv Session Lease Stateid Clients Delegs Locks StateManager.

(** ** Channel negotiation *)
Record ChannelAttrs := Attrs {
  header_pad_size : Z; max_request_size : Z; max_response_size : Z; max_response_size_cached : Z;
  max_operations : Z; max_requests : Z; rdma_ird : list Z }.
Definition ChannelAttrs_default : ChannelAttrs := Attrs 0 1048576 1048576 65536 8 128 [].

Record Ceilings := Ceil { ce_request : Z; ce_response : Z; ce_response_cached : Z; ce_ops : Z; ce_requests : Z }.
Definition MAX_IO_PAYLOAD : Z := 1048576.
Definition CHANNEL_HEADROOM : Z := 2048.
Definition SERVER_MAX_RESPONSE_CACHED : Z := 16384.
Definition MDS_FORE_CEILINGS : Ceilings :=
  Ceil (MAX_IO_PAYLOAD + CHANNEL_HEADROOM) (MAX_IO_PAYLOAD + CHANNEL_HEADROOM) SERVER_MAX_RESPONSE_CACHED 128 128.

(** The negotiated values have the shape of the ceilings. *)
Definition negotiate_fore_channel (req : ChannelAttrs) (ceil : Ceilings) : Ceilings :=
  let max_response := Z.min (max_response_size req) (ce_response ceil) in
  Ceil (Z.min (max_request_size req) (ce_request ceil)) max_response
    (Z.min (Z.min (max_response_size_cached req) max_response) (ce_response_cached ceil))
    (Z.min (max_operations req) (ce_ops ceil)) (Z.min (Z.max (max_requests req) 1) (ce_requests ceil)).

Definition CREATE_SESSION4_FLAG_PERSIST : Z := 1.
Definition CREATE_SESSION4_FLAG_CONN_BACK_CHAN : Z := 2.
Definition CREATE_SESSION4_FLAG_CONN_RDMA : Z := 4.

(** ** SP4_MACH_CRED *)
Definition BIND_CONN_TO_SESSION : Z := 41.
Definition EXCHANGE_ID : Z := 42.
Definition CREATE_SESSION : Z := 43.
Definition DESTROY_SESSION : Z := 44.
Definition DESTROY_CLIENTID : Z := 57.
Definition CLOSE : Z := 4.
Definition OPEN_DOWNGRADE : Z := 21.
Definition LOCKU : Z := 14.
Definition DELEGRETURN : Z := 8.
Definition TEST_STATEID : Z := 55.
Definition FREE_STATEID : Z := 45.

Definition op_words (ops : list Z) : list Z :=
  foldl (fun w op => alter (fun x => Z.lor x (Z.shiftl 1 (op mod 32))) (Z.to_nat (op / 32)) w) [0; 0] ops.

Definition mach_cred_grant (client_must_allow : list Z) : list Z * list Z :=
  let must_enforce := op_words [BIND_CONN_TO_SESSION; EXCHANGE_ID; CREATE_SESSION; DESTROY_SESSION; DESTROY_CLIENTID] in
  let allowable := op_words [CLOSE; OPEN_DOWNGRADE; LOCKU; DELEGRETURN; TEST_STATEID; FREE_STATEID] in
  (must_enforce, imap (fun i a => Z.land a (default 0 (client_must_allow !! i))) allowable).

(** [trim().to_ascii_lowercase()] of the environment's value. *)
Definition parse_require_mach_cred (value : option string) : result string bool :=
  match value with
  | None => Ok false
  | Some v =>
      let v := to_ascii_lowercase (trim v) in
      if existsb (String.eqb v) [""; "0"; "false"; "no"; "off"]%string then Ok false
      else if existsb (String.eqb v) ["1"; "true"; "yes"; "on"]%string then Ok true
      else Err v
  end.

(** ** EXCHANGE_ID *)
Record ExchangeIdOp := XidOp {
  xo_owner : bytes; xo_verifier : Z; xo_flags : Z; xo_state_protect : Z; xo_must_allow : list Z }.
Record ExchangeIdRes := XidRes {
  xr_status : Nfs4Status; xr_clientid : Z; xr_sequenceid : Z; xr_flags : Z; xr_mach_cred : option (list Z * list Z);
  xr_server_owner : string; xr_server_scope : bytes }.
Definition exchange_id_err (st : Nfs4Status) : ExchangeIdRes := XidRes st 0 0 0 None ""%string [].

Definition VALID_EID_FLAGS : Z := Z.lor 1 (Z.lor 2 (Z.lor 256 (Z.lor 65536 (Z.lor 131072 (Z.lor 262144 UPD_CONFIRMED_REC_A))))).
Definition CONFIRMED_R : Z := 2147483648.
Definition USE_NON_PNFS : Z := 65536.
Definition USE_PNFS_MDS : Z := 131072.
Definition USE_PNFS_DS : Z := 262144.

Section ops.
Context (L : Z).

(** Case 3: a confirmed record under this owner belongs to another
    principal.  [None] in the answer: CLID_INUSE. *)
Definition resolve_collision (draws : list Z) (now : Z) (op : ExchangeIdOp) (principal : bytes) (incumbent : Z) (s : Server) :
    option (option ExchangeIdOutcome * Server) :=
  let protected := bool_decide (is_Some (mach_cred_principal (sv_clients s) incumbent)) && is_valid (sv_leases s) incumbent now in
  if protected || client_has_live_state now s incumbent then Some (None, s)
  else
    let s1 := cascade_destroy_client incumbent s in
    '(out, m, lm) ← allocate_client L draws now (xo_owner op) (xo_verifier op) (xo_flags op) principal (sv_clients s1) (sv_leases s1);
    Some (Some out, upd_leases lm (upd_clients m s1)).

Definition exchange_reply (pnfs_ds : bool) (op : ExchangeIdOp) (clientid sequenceid : Z) (is_new : bool) (s : Server) :
    ExchangeIdRes * Server :=
  let mach := xo_state_protect op =? 1 in
  let s1 := upd_clients (set_mach_cred clientid mach (sv_clients s)) s in
  let owner := server_owner (sv_clients s1) in
  let role := if str_contains "pnfs" owner then (if pnfs_ds then USE_PNFS_DS else USE_PNFS_MDS) else USE_NON_PNFS in
  (XidRes NFS_Ok clientid sequenceid (if is_new then role else Z.lor role CONFIRMED_R)
     (if mach then Some (mach_cred_grant (xo_must_allow op)) else None) owner (server_scope (sv_clients s1)), s1).

Definition handle_exchange_id (max_clients : nat) (pnfs_ds : bool) (draws : list Z) (now : Z) (op : ExchangeIdOp)
    (principal : bytes) (gss_protected : bool) (s : Server) : option (ExchangeIdRes * Server) :=
  if negb (Z.ldiff (xo_flags op) VALID_EID_FLAGS =? 0) then Some (exchange_id_err NFS_Inval, s)
  else if negb (Z.land (xo_flags op) CONFIRMED_R =? 0) then Some (exchange_id_err NFS_Inval, s)
  else if xo_state_protect op =? 2 then Some (exchange_id_err NFS_EncrAlgUnsupp, s)
  else if (xo_state_protect op =? 1) && negb gss_protected then Some (exchange_id_err NFS_Inval, s)
  else if (Z.land (xo_flags op) UPD_CONFIRMED_REC_A =? 0) && negb (owner_known (sv_clients s) (xo_owner op)) &&
          (max_clients <=? client_count (sv_clients s))%nat then Some (exchange_id_err NFS_Delay, s)
  else
    '(out, m, lm) ← exchange_id L draws now (xo_owner op) (xo_verifier op) (xo_flags op) principal (sv_clients s) (sv_leases s);
    let s1 := upd_leases lm (upd_clients m s) in
    '(out, s2) ← match out with
                 | ClientCollision incumbent => resolve_collision draws now op principal incumbent s1
                 | _ => Some (Some out, s1)
                 end;
    Some (match out with
          | None => (exchange_id_err NFS_ClIdInUse, s2)
          | Some (NewUnconfirmed c q) => exchange_reply pnfs_ds op c q true s2
          | Some (ExistingConfirmed c q) => exchange_reply pnfs_ds op c q false s2
          | Some NoEnt => (exchange_id_err NFS_NoEnt, s2)
          | Some NotSame => (exchange_id_err NFS_NotSame, s2)
          | Some Perm => (exchange_id_err NFS_Perm, s2)
          | Some (ClientCollision _) => (exchange_id_err NFS_Inval, s2)
          end).

(** ** CREATE_SESSION *)
Record CreateSessionOp := CsOp {
  cs_clientid : Z; cs_sequence : Z; cs_flags : Z; cs_fore : ChannelAttrs; cs_back : ChannelAttrs;
  cs_cb_program : Z; cs_cb_sec : list CallbackSecParms }.
Record CreateSessionRes := CsRes {
  csr_status : Nfs4Status; csr_sessionid : Z; csr_sequence : Z; csr_flags : Z;
  csr_fore : ChannelAttrs; csr_back : ChannelAttrs; csr_back_bound : bool }.
Definition create_session_err (st : Nfs4Status) : CreateSessionRes :=
  CsRes st 0 0 0 ChannelAttrs_default ChannelAttrs_default false.

Definition is_sys (p : CallbackSecParms) : bool := match p with CbSys _ _ _ _ _ => true | _ => false end.
Definition is_none_cred (p : CallbackSecParms) : bool := match p with CbNone => true | _ => false end.
Definition pick_cb_cred (offered : list CallbackSecParms) : option CallbackSecParms :=
  match find_first is_sys offered with Some p => Some p | None => find_first is_none_cred offered end.

Definition too_small (a : ChannelAttrs) : bool :=
  (max_request_size a <? 256) || (max_response_size a <? 256) || (max_operations a <? 1).

Definition quint (a : ChannelAttrs) : Z * Z * Z * Z * Z :=
  (max_request_size a, max_response_size a, max_response_size_cached a, max_operations a, max_requests a).
Definition attrs_of (q : Z * Z * Z * Z * Z) : ChannelAttrs :=
  let '(a, b, c, d, e) := q in Attrs 0 a b c d e [].
Definition replay_res (r : CachedCreateSessionRes) : CreateSessionRes :=
  CsRes NFS_Ok (ccs_sessionid r) (ccs_sequence r) (ccs_flags r) (attrs_of (ccs_fore r)) (attrs_of (ccs_back r))
    (negb (Z.land (ccs_flags r) CREATE_SESSION4_FLAG_CONN_BACK_CHAN =? 0)).

(** The forward case, after the client is confirmed and within quota. *)
Definition make_session (draws : list Z) (op : CreateSessionOp) (has_channel : bool) (minor : Z) (s : Server) :
    option (CreateSessionRes * Server) :=
  let neg := negotiate_fore_channel (cs_fore op) MDS_FORE_CEILINGS in
  '(x, sm) ← create_session (sv_sessions s) draws (cs_clientid op) (cs_sequence op) (cs_flags op) (ce_request neg)
               (ce_response neg) (ce_response_cached neg) (ce_ops neg) (ce_requests neg) (cs_cb_program op)
               (pick_cb_cred (cs_cb_sec op)) minor;
  let s1 := upd_sessions (set_back_chan_maxops sm (session_id x) (max_operations (cs_back op))) s in
  let bound := negb (Z.land (cs_flags op) CREATE_SESSION4_FLAG_CONN_BACK_CHAN =? 0) && has_channel in
  let flags := if bound then CREATE_SESSION4_FLAG_CONN_BACK_CHAN else 0 in
  let back := if bound then cs_back op else ChannelAttrs_default in
  let fore := (fore_chan_maxrequestsize x, fore_chan_maxresponsesize x, fore_chan_maxresponsesize_cached x,
               fore_chan_maxops x, fore_chan_maxrequests x) in
  let s2 := upd_clients (record_create_session_reply (cs_clientid op) (cs_sequence op)
              (CachedRes (session_id x) (sequence x) flags fore (quint back)) (sv_clients s1)) s1 in
  Some (CsRes NFS_Ok (session_id x) (sequence x) flags (attrs_of fore) back bound, s2).

(** [has_channel]: the COMPOUND arrived on a connection that can carry
    callbacks. *)
Definition handle_create_session (max_sessions : Z) (draws : list Z) (now : Z) (op : CreateSessionOp) (principal : bytes)
    (has_channel : bool) (minor : Z) (s : Server) : option (CreateSessionRes * Server) :=
  let VALID_FLAGS := Z.lor CREATE_SESSION4_FLAG_PERSIST (Z.lor CREATE_SESSION4_FLAG_CONN_BACK_CHAN CREATE_SESSION4_FLAG_CONN_RDMA) in
  if negb (Z.ldiff (cs_flags op) VALID_FLAGS =? 0) then Some (create_session_err NFS_Inval, s)
  else if too_small (cs_fore op) || too_small (cs_back op) then Some (create_session_err NFS_TooSmall, s)
  else match get_client (sv_clients s) (cs_clientid op) with
  | None => Some (create_session_err NFS_StaleClientId, s)
  | Some c =>
    if negb (cl_confirmed c) && negb (bool_decide (cl_principal c = principal)) then Some (create_session_err NFS_ClIdInUse, s)
    else if negb (is_valid (sv_leases s) (cs_clientid op) now) then Some (create_session_err NFS_StaleClientId, s)
    else match process_create_session_seq (sv_clients s) (cs_clientid op) (cs_sequence op) with
    | CsStaleClientId => Some (create_session_err NFS_StaleClientId, s)
    | CsMisordered => Some (create_session_err NFS_SeqMisordered, s)
    | CsReplay r => Some (replay_res r, s)
    | CsExecute =>
        let '(old, m) := mark_confirmed (cs_clientid op) (sv_clients s) in
        let s1 := upd_clients m s in
        let s2 := match old with Some o => cascade_destroy_client o s1 | None => s1 end in
        if max_sessions <=? session_count_for_client (sv_sessions s2) (cs_clientid op)
        then Some (create_session_err NFS_Delay, s2)
        else make_session draws op has_channel minor s2
    end
  end.

(** ** SEQUENCE *)
Record SequenceOp := SeqOp { so_sessionid : Z; so_sequenceid : Z; so_slotid : Z; so_cache_this : bool }.
Record SequenceRes := SeqRes { sr_status : Nfs4Status; sr_sequenceid : Z; sr_slotid : Z; sr_highest : Z; sr_target : Z }.
(** What the handler leaves in the COMPOUND context: the reply bytes to
    return verbatim, and the slot to cache the new reply under. *)
Record SeqHints := Hints { replay_reply : option bytes; cache_slot : option (Z * Z) }.
Definition no_hints : SeqHints := Hints None None.
Definition sequence_err (st : Nfs4Status) : SequenceRes := SeqRes st 0 0 0 0.

Definition seq_closure (slot sq : Z) (x : Session CallbackSecParms) : result unit SeqStatus * Session CallbackSecParms :=
  match process_sequence x slot sq with Ok (st, x') => (Ok st, x') | Err e => (Err e, x) end.

(** [t1 t2 t3]: the clock readings of the lease renewal. *)
Definition handle_sequence (op : SequenceOp) (t1 t2 t3 : Z) (s : Server) : SequenceRes * SeqHints * Server :=
  match get_session (sv_sessions s) (so_sessionid op) with
  | None => (sequence_err NFS_BadSession, no_hints, s)
  | Some x =>
    if fore_chan_maxrequests x <=? so_slotid op then (sequence_err NFS_BadSessionId, no_hints, s)
    else if so_cache_this op && (fore_chan_maxresponsesize_cached x <? 64) then (sequence_err NFS_RepTooBigToCache, no_hints, s)
    else
      let '(out, sm) := get_session_mut (sv_sessions s) (so_sessionid op) (seq_closure (so_slotid op) (so_sequenceid op)) in
      let s1 := upd_sessions sm s in
      let top := Z.max 0 (fore_chan_maxrequests x - 1) in
      let ok := SeqRes NFS_Ok (so_sequenceid op) (so_slotid op) top top in
      match out with
      | None => (sequence_err NFS_BadSession, no_hints, s1)
      | Some (Err _) => (sequence_err NFS_BadSessionId, no_hints, s1)
      | Some (Ok Misordered) => (sequence_err NFS_SeqMisordered, no_hints, s1)
      | Some (Ok (Replay (Some b))) => (ok, Hints (Some b) None, s1)
      | Some (Ok (Replay None)) => (sequence_err NFS_RetryUncachedRep, no_hints, s1)
      | Some (Ok New) =>
          let s2 := match renew_lease L (sv_leases s1) (client_id x) t1 t2 t3 with Ok lm => upd_leases lm s1 | Err _ => s1 end in
          (ok, Hints None (if so_cache_this op then Some (so_sessionid op, so_slotid op) else None), s2)
      end
  end.

(** The dispatcher's arm: a machine-credential client's session is used only
    on a bound connection; the reply carries the client's SEQ4 bits. *)
Definition dispatch_sequence (bound : bool) (op : SequenceOp) (t1 t2 t3 : Z) (s : Server) :
    SequenceRes * SeqHints * option Z * Server :=
  let refused := match sl_client_id <$> session_limits (sv_sessions s) (so_sessionid op) with
                 | Some c => bool_decide (is_Some (mach_cred_principal (sv_clients s) c)) && negb bound
                 | None => false
                 end in
  if refused then (sequence_err NFS_ConnNotBoundToSession, no_hints, None, s)
  else
    let '(res, hints, s1) := handle_sequence op t1 t2 t3 s in
    if bool_decide (sr_status res = NFS_Ok) then
      match session_limits (sv_sessions s1) (so_sessionid op) with
      | Some l =>
          let s2 := note_seq4_delivery (sl_client_id l) (so_sessionid op) (sr_slotid res) (sr_sequenceid res) s1 in
          (res, hints, Some (seq_flags s2 (sl_client_id l)), s2)
      | None => (res, hints, Some 0, s1)
      end
    else (res, hints, None, s1).

(** ** DESTROY_SESSION *)
Definition handle_destroy_session (id : Z) (s : Server) : Nfs4Status * Server :=
  match destroy_session (sv_sessions s) id with
  | Ok sm => (NFS_Ok, upd_sessions sm s)
  | Err _ => (NFS_BadSession, s)
  end.
End ops.
