(* ===== verification/SessionOpsProps.v ===== *)
(** The session operations: what is negotiated, what a collision may
    destroy, the exactly-once reply of CREATE_SESSION, and what an accepted,
    replayed or refused SEQUENCE changes. *)

From S2P Require Import Prelude Xdr Session Lease Stateid StateidInv StateidProps Clients ClientsProps Delegs DelegsInv DelegsProps DelegsEvidence Locks LocksInv LocksProps StateManager StateManagerProps StateEvidence SessionOps.

(** ** Negotiation *)
Lemma negotiate_spec req : 0 <= max_request_size req -> 0 <= max_response_size req ->
  0 <= max_response_size_cached req -> 0 <= max_operations req ->
  let n := negotiate_fore_channel req MDS_FORE_CEILINGS in
  (0 <= ce_request n <= max_request_size req /\ ce_request n <= 1050624) /\
  (0 <= ce_response n <= max_response_size req /\ ce_response n <= 1050624) /\
  (0 <= ce_response_cached n <= max_response_size_cached req /\ ce_response_cached n <= ce_response n /\ ce_response_cached n <= 16384) /\
  (0 <= ce_ops n <= max_operations req /\ ce_ops n <= 128) /\
  1 <= ce_requests n <= 128 /\ (1 <= max_requests req -> ce_requests n <= max_requests req) /\
  slot_count (ce_requests n) = ce_requests n.
Proof.
  intros. unfold n, negotiate_fore_channel, slot_count, MAX_SLOTS. simpl. unfold MAX_IO_PAYLOAD, CHANNEL_HEADROOM, SERVER_MAX_RESPONSE_CACHED. lia.
Qed.

(** ** Machine credentials *)
Definition names_op (words : list Z) (op : Z) : bool := Z.testbit (default 0 (words !! Z.to_nat (op / 32))) (op mod 32).
Definition must_enforce_ops : list Z := [BIND_CONN_TO_SESSION; EXCHANGE_ID; CREATE_SESSION; DESTROY_SESSION; DESTROY_CLIENTID].
Definition cleanup_ops : list Z := [CLOSE; OPEN_DOWNGRADE; LOCKU; DELEGRETURN; TEST_STATEID; FREE_STATEID].

Lemma op_words_spec ops : ops = must_enforce_ops \/ ops = cleanup_ops ->
  forall op, 0 <= op < 64 -> names_op (op_words ops) op = bool_decide (op ∈ ops).
Proof.
  intros Ho. assert (Hall : Forall (fun op => names_op (op_words ops) op = bool_decide (op ∈ ops)) (Z.of_nat <$> seq 0 64)).
  { destruct Ho as [-> | ->]; apply Forall_forall; intros x Hx; revert x Hx; apply Forall_forall;
      apply (bool_decide_unpack _); vm_compute; exact I. }
  intros op Hop. rewrite Forall_forall in Hall. apply Hall. apply list_elem_of_fmap. exists (Z.to_nat op). split; [lia|].
  apply elem_of_seq. lia.
Qed.

Lemma mach_cred_spec offer op : 0 <= op < 64 ->
  names_op (mach_cred_grant offer).1 op = bool_decide (op ∈ must_enforce_ops) /\
  names_op (mach_cred_grant offer).2 op = bool_decide (op ∈ cleanup_ops) && names_op offer op.
Proof.
  intros Hop. split; [apply op_words_spec; auto|]. rewrite <- (op_words_spec cleanup_ops) by auto.
  unfold names_op, mach_cred_grant. cbn [snd]. fold cleanup_ops. rewrite list_lookup_imap.
  destruct (op_words cleanup_ops !! Z.to_nat (op / 32)) as [a|]; cbn [fmap option_fmap option_map default from_option].
  - apply Z.land_spec.
  - by rewrite Z.testbit_0_l.
Qed.

(** ** EXCHANGE_ID's collision *)
Section ops.
Context (L : Z).

(** The request passes the flag, protection and quota checks. *)
Definition xid_accepted (max_clients : nat) (op : ExchangeIdOp) (gss : bool) (s : Server) : bool :=
  (Z.ldiff (xo_flags op) VALID_EID_FLAGS =? 0) && (Z.land (xo_flags op) CONFIRMED_R =? 0) &&
  negb (xo_state_protect op =? 2) && negb ((xo_state_protect op =? 1) && negb gss) &&
  negb ((Z.land (xo_flags op) UPD_CONFIRMED_REC_A =? 0) && negb (owner_known (sv_clients s) (xo_owner op)) &&
        (max_clients <=? client_count (sv_clients s))%nat).

Definition shielded (now : Z) (s : Server) (c : Z) : bool :=
  (bool_decide (is_Some (mach_cred_principal (sv_clients s) c)) && is_valid (sv_leases s) c now) || client_has_live_state now s c.

Lemma allocate_new draws now ow v fl pr m lm out m' lm' :
  allocate_client L draws now ow v fl pr m lm = Some (out, m', lm') ->
  exists id, out = NewUnconfirmed id 1 /\ clients m !! id = None /\ clients m' = <[id := with_initial 1
    (Client_new id ow v (server_owner m) (server_scope m) fl pr)]> (clients m).
Proof.
  unfold allocate_client. destruct (draw_client_id (clients m) draws) as [id|] eqn:Hd; [|done]. simpl.
  intros [= <- <- _]. apply draw_spec in Hd as [_ Hd]. by exists id.
Qed.

Lemma set_mach_cred_spec id on m c : clients m !! id = Some c ->
  clients (set_mach_cred id on m) !! id <> None /\ forall d, d <> id -> clients (set_mach_cred id on m) !! d = clients m !! d.
Proof.
  intros Hc. unfold set_mach_cred. rewrite Hc. destruct (Bool.eqb _ _); [by rewrite Hc|]. simpl. rewrite lookup_insert_eq.
  split; [done|]. intros d Hd. by rewrite lookup_insert_ne.
Qed.

Lemma collision_spec mx ds draws now op pr gss s inc :
  server_inv s -> xid_accepted mx op gss s = true -> Z.land (xo_flags op) UPD_CONFIRMED_REC_A = 0 ->
  existing_client (sv_clients s) (xo_owner op) = Some inc -> cl_confirmed inc = true -> cl_principal inc <> pr ->
  forall res s', handle_exchange_id L mx ds draws now op pr gss s = Some (res, s') ->
  if shielded now s (cl_id inc)
  then res = exchange_id_err NFS_ClIdInUse /\ s' = s
  else xr_status res = NFS_Ok /\ clients (sv_clients s') !! xr_clientid res <> None /\
    exists s1, without true [cl_id inc] s s1 /\ clients (sv_clients s1) !! xr_clientid res = None /\
      (forall c, c <> xr_clientid res -> clients (sv_clients s') !! c = clients (sv_clients s1) !! c) /\
      (sv_sessions s', sv_stateids s', sv_delegs s', sv_locks s') = (sv_sessions s1, sv_stateids s1, sv_delegs s1, sv_locks s1).
Proof.
  intros Hi Hacc Hupd Hex Hconf Hpr res s'. unfold xid_accepted in Hacc.
  rewrite !andb_true_iff in Hacc. destruct Hacc as [[[[A1 A2] A3] A4] A5]. apply negb_true_iff in A3, A4, A5.
  unfold handle_exchange_id. rewrite A1, A2, A3, A4, A5. cbn [negb].
  unfold exchange_id. rewrite Hupd, Hex, Hconf. cbn [negb Z.eqb]. rewrite bool_decide_eq_false_2 by done. cbn [negb mbind option_bind].
  assert (Hs0 : upd_leases (sv_leases s) (upd_clients (sv_clients s) s) = s) by (by destruct s). rewrite Hs0.
  unfold resolve_collision. fold (shielded now s (cl_id inc)). destruct (shielded now s (cl_id inc)).
  { cbn [mbind option_bind]. intros [= <- <-]. done. }
  destruct (cascade_spec (cl_id inc) s Hi) as [Hi1 Hw]. set (s1 := cascade_destroy_client (cl_id inc) s) in *. clearbody s1.
  destruct (allocate_client L draws now (xo_owner op) (xo_verifier op) (xo_flags op) pr (sv_clients s1) (sv_leases s1)) as [[[out m'] lm']|] eqn:Ha; [|done].
  apply allocate_new in Ha as (id & -> & Hn & Hc). cbn [mbind option_bind]. unfold exchange_reply.
  intros [= <- <-]. cbn [xr_status xr_clientid sv_clients sv_sessions sv_stateids sv_delegs sv_locks upd_clients upd_leases].
  destruct (set_mach_cred_spec id (xo_state_protect op =? 1) m' _ (eq_trans (f_equal (.!! id) Hc) (lookup_insert_eq _ _ _))) as [M1 M2].
  split; [done|]. split; [done|]. exists s1. split_and!; try done.
  intros c Hne. rewrite M2, Hc by done. by rewrite lookup_insert_ne.
Qed.

(** ** CREATE_SESSION, sent twice *)
Lemma record_reply_spec id q r m c : clients m !! id = Some c ->
  clients (record_create_session_reply id q r m) !! id = Some (with_cs q r c).
Proof. intros Hc. unfold record_create_session_reply. rewrite Hc. simpl. by rewrite lookup_insert_eq. Qed.

Lemma mark_confirmed_spec id m c : clients m !! id = Some c ->
  exists c', clients (mark_confirmed id m).2 !! id = Some c' /\ cl_confirmed c' = true /\
    (mark_confirmed id m).1 = (if cl_confirmed c then None else cl_pending c).
Proof.
  intros Hc. unfold mark_confirmed. rewrite Hc. destruct (cl_confirmed c) eqn:E; simpl; [eauto|].
  rewrite lookup_insert_eq. eexists. done.
Qed.

Lemma attrs_of_quint a : header_pad_size a = 0 -> rdma_ird a = [] -> attrs_of (quint a) = a.
Proof. destruct a. simpl. by intros -> ->. Qed.

Lemma mark_confirmed_server s id : client_inv (sv_clients s) -> server_inv s ->
  server_inv (upd_clients (mark_confirmed id (sv_clients s)).2 s).
Proof.
  intros Hc [H1 H2 H3 H4 H5]. split; try done. simpl. unfold mark_confirmed. destruct (clients (sv_clients s) !! id) as [c|] eqn:E; [|done].
  destruct (cl_confirmed c); [done|]. simpl. eapply put_client_inv; [done|done|exact (proj1 (ci_id _ Hc _ _ E))|done].
Qed.

(** The back channel's padding and RDMA list, which the reply's cache does
    not keep, are the wire's usual ones. *)
Definition plain_back (op : CreateSessionOp) : Prop := header_pad_size (cs_back op) = 0 /\ rdma_ird (cs_back op) = [].

Lemma make_session_spec draws op hc minor s res s' c :
  clients (sv_clients s) !! cs_clientid op = Some c -> cl_confirmed c = true ->
  make_session draws op hc minor s = Some (res, s') ->
  csr_status res = NFS_Ok /\
  exists r, clients (sv_clients s') !! cs_clientid op = Some (with_cs (cs_sequence op) r c) /\ (plain_back op -> replay_res r = res).
Proof.
  intros Hc Hcf. unfold make_session.
  destruct (create_session _ _ _ _ _ _ _ _ _ _ _ _ _) as [[x sm]|]; [|done]. cbn [mbind option_bind]. intros [= <- <-].
  split; [done|]. eexists. split.
  - cbn [sv_clients upd_clients]. apply record_reply_spec. done.
  - intros [Hp Hr]. unfold replay_res. cbn [ccs_sessionid ccs_sequence ccs_flags ccs_fore ccs_back].
    destruct (negb (Z.land (cs_flags op) CREATE_SESSION4_FLAG_CONN_BACK_CHAN =? 0) && hc); [|done]. by rewrite attrs_of_quint.
Qed.

Lemma create_session_replay mx draws now op pr hc minor s res s' : server_inv s -> plain_back op ->
  (forall c, clients (sv_clients s) !! cs_clientid op = Some c -> cl_pending c <> Some (cs_clientid op)) ->
  handle_create_session mx draws now op pr hc minor s = Some (res, s') -> csr_status res = NFS_Ok ->
  forall draws' now' hc' minor', is_valid (sv_leases s') (cs_clientid op) now' = true ->
  handle_create_session mx draws' now' op pr hc' minor' s' = Some (res, s').
Proof.
  intros Hi Hpl Hpend. unfold handle_create_session.
  destruct (negb (Z.ldiff _ _ =? 0)) eqn:Hfl; [by intros [= <- <-]|].
  destruct (too_small (cs_fore op) || too_small (cs_back op)) eqn:Hts; [by intros [= <- <-]|].
  unfold get_client. destruct (clients (sv_clients s) !! cs_clientid op) as [c|] eqn:Hc; [|by intros [= <- <-]].
  destruct (negb (cl_confirmed c) && negb (bool_decide (cl_principal c = pr))) eqn:Hpr; [by intros [= <- <-]|].
  destruct (negb (is_valid (sv_leases s) (cs_clientid op) now)) eqn:Hv; [by intros [= <- <-]|].
  destruct (process_create_session_seq (sv_clients s) (cs_clientid op) (cs_sequence op)) as [|r| |] eqn:Hp; try by intros [= <- <-].
  2: { intros [= <- <-] _ draws' now' hc' minor' Hval. by rewrite Hc, Hpr, Hval, Hp. }
  destruct (mark_confirmed_spec (cs_clientid op) (sv_clients s) c Hc) as (c1 & Hc1 & Hcf & Hold).
  pose proof (mark_confirmed_server s (cs_clientid op) (si_clients _ Hi) Hi) as Hi1.
  destruct (mark_confirmed (cs_clientid op) (sv_clients s)) as [old m]. cbn [fst snd] in *. subst old.
  set (s2 := match (if cl_confirmed c then None else cl_pending c) with Some o => cascade_destroy_client o (upd_clients m s) | None => upd_clients m s end).
  assert (Hc2 : clients (sv_clients s2) !! cs_clientid op = Some c1).
  { unfold s2. destruct (cl_confirmed c); [done|]. destruct (cl_pending c) as [o|] eqn:Ho; [|done].
    destruct (cascade_spec o _ Hi1) as [_ Hw]. rewrite (wo_clients _ _ _ _ Hw), decide_False; [done|].
    intros Heq%list_elem_of_singleton. apply (Hpend c); congruence. }
  clearbody s2. destruct (mx <=? _); [by intros [= <- <-]|]. intros Hm Hok.
  destruct (make_session_spec _ _ _ _ _ _ _ _ Hc2 Hcf Hm) as (_ & r & Hr & Hrep). intros draws' now' hc' minor' Hval.
  rewrite Hr. cbn [with_cs cl_confirmed]. rewrite Hcf. cbn [negb andb]. rewrite Hval. cbn [negb].
  unfold process_create_session_seq. rewrite Hr. cbn [with_cs cl_last_cs cl_cached_res]. rewrite Z.eqb_refl. by rewrite Hrep.
Qed.

(** ** SEQUENCE *)
Lemma upd_sessions_same s : upd_sessions (sv_sessions s) s = s.
Proof. by destruct s. Qed.

Lemma session_mut_same {R} (m : SessionManager CallbackSecParms) id (f : Session CallbackSecParms -> R * Session CallbackSecParms) x r :
  sessions m !! id = Some x -> f x = (r, x) -> get_session_mut m id f = (Some r, m).
Proof. intros Hx Hf. unfold get_session_mut. rewrite Hx, Hf, insert_id by done. by destruct m. Qed.

(** An answer that is not an execution changes nothing; an execution
    advances its slot by one and renews the lease. *)
Lemma sequence_spec op t1 t2 t3 s res h s' : handle_sequence L op t1 t2 t3 s = (res, h, s') ->
  match sr_status res, replay_reply h with
  | NFS_Ok, Some b => s' = s /\ cache_slot h = None /\
      exists x sl, get_session (sv_sessions s) (so_sessionid op) = Some x /\ slots x !! Z.to_nat (so_slotid op) = Some sl /\
        sequence_id sl = so_sequenceid op /\ cached_response sl = Some b
  | NFS_Ok, None => exists x x', get_session (sv_sessions s) (so_sessionid op) = Some x /\
      process_sequence x (so_slotid op) (so_sequenceid op) = Ok (New, x') /\
      sessions (sv_sessions s') = <[so_sessionid op := x']> (sessions (sv_sessions s)) /\
      so_slotid op < fore_chan_maxrequests x /\
      sv_leases s' = match renew_lease L (sv_leases s) (client_id x) t1 t2 t3 with Ok lm => lm | Err _ => sv_leases s end /\
      cache_slot h = (if so_cache_this op then Some (so_sessionid op, so_slotid op) else None) /\
      (sv_clients s', sv_stateids s', sv_delegs s', sv_locks s', sv_seq_flags s', sv_armed s', sv_markers s') =
      (sv_clients s, sv_stateids s, sv_delegs s, sv_locks s, sv_seq_flags s, sv_armed s, sv_markers s)
  | _, _ => s' = s /\ h = no_hints
  end.
Proof.
  unfold handle_sequence, get_session. destruct (sessions (sv_sessions s) !! so_sessionid op) as [x|] eqn:Hx; [|by intros [= <- <- <-]].
  destruct (fore_chan_maxrequests x <=? so_slotid op) eqn:Hsl; [by intros [= <- <- <-]|].
  destruct (so_cache_this op && _); [by intros [= <- <- <-]|]. bool_Z.
  assert (Hsame : forall st, seq_closure (so_slotid op) (so_sequenceid op) x = (st, x) ->
    get_session_mut (sv_sessions s) (so_sessionid op) (seq_closure (so_slotid op) (so_sequenceid op)) = (Some st, sv_sessions s)).
  { intros st Hst. by eapply session_mut_same. }
  unfold seq_closure in Hsame at 1. destruct (process_sequence x (so_slotid op) (so_sequenceid op)) as [[st x']|e] eqn:Hp.
  2: { rewrite (Hsame _ eq_refl), upd_sessions_same. by intros [= <- <- <-]. }
  destruct st as [|[b|]|].
  - clear Hsame. unfold get_session_mut. rewrite Hx. unfold seq_closure. rewrite Hp. cbv zeta.
    cbn [sv_leases upd_sessions]. intros [= <- <- <-]. cbn [sr_status replay_reply cache_slot]. exists x, x'.
    destruct (renew_lease L (sv_leases s) (client_id x) t1 t2 t3) as [lm|]; split_and!; done.
  - assert (x' = x /\ exists sl, slots x !! Z.to_nat (so_slotid op) = Some sl /\ sequence_id sl = so_sequenceid op /\ cached_response sl = Some b) as (-> & sl & H1 & H2 & H3).
    { unfold process_sequence in Hp. destruct (slots x !! _) as [sl|] eqn:Hs; [|done].
      destruct (_ && _); [done|]. destruct (so_sequenceid op =? sequence_id sl) eqn:Hq; [|by destruct (so_sequenceid op =? next_seq (sequence_id sl))].
      bool_Z. injection Hp as Hp <-. split; [done|]. exists sl. split_and!; congruence. }
    rewrite (Hsame _ eq_refl), upd_sessions_same. intros [= <- <- <-]. cbn. eauto 10.
  - rewrite (Hsame (Ok (Replay None))), upd_sessions_same; [by intros [= <- <- <-]|].
    f_equal. unfold process_sequence in Hp. destruct (slots x !! _); [|done]. repeat case_match; congruence.
  - rewrite (Hsame (Ok Misordered)), upd_sessions_same; [by intros [= <- <- <-]|].
    f_equal. unfold process_sequence in Hp. destruct (slots x !! _); [|done]. repeat case_match; congruence.
Qed.

Lemma delivery_delegs c session slot sq s : sv_delegs (note_seq4_delivery c session slot sq s) = sv_delegs s.
Proof.
  unfold note_seq4_delivery. destruct (sv_armed s !! c) as [[[[s0 sl] q]|]|]; [|done..].
  destruct (_ && _); [|done]. cbv zeta. destruct (_ && _); [|done]. by rewrite (proj1 (lower_frame _ _ _)).
Qed.

(** A client with a revoked delegation reads it in every accepted SEQUENCE. *)
Lemma dispatch_told bound op t1 t2 t3 s res h fl s' x : evident s -> told s ->
  dispatch_sequence L bound op t1 t2 t3 s = (res, h, Some fl, s') ->
  get_session (sv_sessions s) (so_sessionid op) = Some x -> client_has_revoked (sv_delegs s) (client_id x) = true ->
  Z.testbit fl 6 = true.
Proof.
  intros He Ht. unfold dispatch_sequence. destruct (match _ with Some c => _ | None => _ end); [done|].
  destruct (handle_sequence L op t1 t2 t3 s) as [[r0 h0] s1] eqn:Hs. case_bool_decide as Hok; [|done].
  apply sequence_spec in Hs. rewrite Hok in Hs. intros Hd Hx Hrev.
  assert (Hs1 : sv_delegs s1 = sv_delegs s /\ sv_seq_flags s1 = sv_seq_flags s /\ sv_markers s1 = sv_markers s /\ sv_armed s1 = sv_armed s /\
    exists x1, sessions (sv_sessions s1) !! so_sessionid op = Some x1 /\ client_id x1 = client_id x).
  { destruct (replay_reply h0).
    - destruct Hs as (-> & _). split_and!; try done. by exists x.
    - destruct Hs as (y & y' & Hy & Hp & Hse & _ & _ & _ & [= _ _ E3 _ E5 E6 E7]). rewrite Hx in Hy. injection Hy as <-.
      split_and!; try done. exists y'. rewrite Hse, lookup_insert_eq. split; [done|]. by apply process_sequence_identity in Hp as [_ ?]. }
  destruct Hs1 as (E1 & E2 & E3 & E4 & x1 & Hx1 & Hcl). unfold session_limits in Hd. rewrite Hx1 in Hd.
  cbn [fmap option_fmap option_map sl_client_id] in Hd. rewrite Hcl in Hd.
  destruct (delivery_keeps (client_id x) (so_sessionid op) (sr_slotid r0) (sr_sequenceid r0) s1) as [_ Ht2].
  { by apply (evident_frame s). }
  { by apply (told_frame s). }
  set (s2 := note_seq4_delivery _ _ _ _ s1) in *. injection Hd as _ _ <- _. apply Ht2.
  unfold s2. by rewrite delivery_delegs, E1.
Qed.
End ops.

(** ** DESTROY_CLIENTID *)
(** It succeeds on a client with nothing left, and refuses without effect
    otherwise. *)
Lemma destroy_clientid_spec c pr s st s' : server_inv s -> destroy_clientid c pr s = (st, s') ->
  (st <> NFS_Ok /\ s' = s) \/
  (st = NFS_Ok /\ server_inv s' /\ is_Some (clients (sv_clients s) !! c) /\ wrong_mach_cred s c pr = false /\
   clients (sv_clients s') = delete c (clients (sv_clients s)) /\ leases (sv_leases s') = delete c (leases (sv_leases s)) /\
   (sv_sessions s', sv_stateids s', sv_delegs s', sv_locks s') = (sv_sessions s, sv_stateids s, sv_delegs s, sv_locks s) /\
   (forall i x, sessions (sv_sessions s) !! i = Some x -> client_id x <> c) /\
   (forall o e, states (sv_stateids s) !! o = Some e -> en_client e <> c) /\
   (forall i r, r ∈ recs (sv_delegs s) i -> dr_client r <> c) /\
   (forall k l, lm_locks (sv_locks s) !! k = Some l -> lk_client l <> c)).
Proof.
  intros Hi. unfold destroy_clientid, get_client. case_bool_decide as Hc; [intros [= <- <-]; by left|].
  destruct (wrong_mach_cred s c pr) eqn:Hw; [intros [= <- <-]; by left|].
  destruct (negb (bool_decide (get_client_sessions (sv_sessions s) c = []))) eqn:Hs; [intros [= <- <-]; by left|].
  apply negb_false_iff, bool_decide_eq_true in Hs.
  destruct ((0 <? count_for_client (sv_stateids s) c)%nat || (0 <? lock_count_for_client (sv_locks s) c) ||
    (0 <? deleg_count_for_client (sv_delegs s) c)%nat) eqn:Hn; [intros [= <- <-]; by left|]. intros [= <- <-]. right.
  apply orb_false_iff in Hn as [[H1 H2]%orb_false_iff H3]. apply Nat.ltb_ge in H1, H3. apply Z.ltb_ge in H2.
  assert (Hse : forall i x, sessions (sv_sessions s) !! i = Some x -> client_id x <> c).
  { intros i x Hx Hcx. apply (mi_listed _ (si_sessions _ Hi)) in Hx as [_ Hx]. rewrite Hcx, Hs in Hx. by apply elem_of_nil in Hx. }
  assert (Hst : forall o e, states (sv_stateids s) !! o = Some e -> en_client e <> c).
  { intros o e He Hec. assert (Ho : o ∈ listed (sv_stateids s) c) by (apply (sc_clients _ _ (si_stateids _ Hi)); eauto).
    unfold listed in Ho. unfold count_for_client in H1. destruct (default [] _); [by apply elem_of_nil in Ho|simpl in H1; lia]. }
  assert (Hde : forall i r, r ∈ recs (sv_delegs s) i -> dr_client r <> c).
  { intros i r Hr Hrc. assert (Ho : other r ∈ clist (sv_delegs s) c).
    { apply (di_client _ _ (si_delegs _ Hi)); [done|]. exists r. split_and!; try done. apply elem_all_entry. eauto. }
    unfold clist in Ho. unfold deleg_count_for_client in H3. destruct (default [] _); [by apply elem_of_nil in Ho|simpl in H3; lia]. }
  assert (Hlk : forall k l, lm_locks (sv_locks s) !! k = Some l -> lk_client l <> c).
  { intros k l Hl Hlc. rewrite (li_counts _ (si_locks _ Hi)) in H2.
    assert (Hem : client_locks (sv_locks s) c = ∅) by (apply map_size_empty_iff; lia).
    assert (Hkl : client_locks (sv_locks s) c !! k = Some l) by (unfold client_locks; by apply map_lookup_filter_Some).
    by rewrite Hem in Hkl. }
  destruct (drop_record_spec c s (si_clients _ Hi)) as (C1 & C2 & C3 & C4 & C5 & C6 & C7 & _). set (s' := drop_client_record c s) in *. clearbody s'.
  assert (Hsome : is_Some (clients (sv_clients s) !! c)) by (destruct (clients (sv_clients s) !! c); [by eexists|done]).
  rewrite bool_decide_eq_true_2 in C3 by done.
  split; [done|]. split; [destruct Hi; split; congruence|]. split_and!; try done. congruence.
Qed.
