(* ===== verification/Recall.v ===== *)
(** The recall ladder (nfs/v4/deleg_recall.rs): how orders are batched into
    callbacks, how replies are split and classified, and the task that
    drives one recall to its end.

    The task awaits sends and timers; what the rest of the server does
    meanwhile is a list of requests.  Instants are nanoseconds.  A pass of
    the task's loop is [drive_iter]; its inputs are the send's outcome, the
    clock readings and those requests. *)

From S2P Require Import Prelude Xdr Session Lease Stateid Clients Delegs Locks StateManager StateEvidence.

(** ** Callback replies *)
Inductive CbResult :=
| CbSequenceRes (st : Nfs4Status) (body : Z * Z * Z * Z * Z)
| CbLayoutRecall (st : Nfs4Status)
| CbNotifyDeviceId (st : Nfs4Status)
| CbRecall (st : Nfs4Status)
| CbOtherStatus (opcode : Z) (st : Nfs4Status).
Definition result_status (r : CbResult) : Nfs4Status :=
  match r with CbSequenceRes st _ | CbLayoutRecall st | CbNotifyDeviceId st | CbRecall st | CbOtherStatus _ st => st end.
Record CbCompoundReply := CbReply { cb_status : Nfs4Status; cb_tag : bytes; cb_results : list CbResult }.

Inductive CallbackError := CbTimeout | CbTransport | CbReplyError | CbClosed.
Notation SendOutcome := (result CallbackError CbCompoundReply) (only parsing).

Definition is_seq_result (r : CbResult) : bool := match r with CbSequenceRes _ _ => true | _ => false end.
Definition recall_status (r : CbResult) : option Nfs4Status := match r with CbRecall st => Some st | _ => None end.
Definition is_delay (st : Nfs4Status) : bool := bool_decide (st = NFS_Delay).

Definition split_part (reply : CbCompoundReply) (sq : option CbResult) (recalls : list Nfs4Status) (seq_delay : bool) (i : nat) :
    option CbCompoundReply :=
  let results := match sq with Some s => [s] | None => [] end in
  match recalls !! i with
  | Some st => Some (CbReply (if seq_delay then NFS_Delay else st) (cb_tag reply) (results ++ [CbRecall st]))
  | None => match recalls with
            | [] => Some (CbReply (cb_status reply) (cb_tag reply) results)
            | _ => None
            end
  end.
Definition split_batch_reply (reply : CbCompoundReply) (n : nat) : list (option CbCompoundReply) :=
  let sq := find_first is_seq_result (cb_results reply) in
  let recalls := omap recall_status (cb_results reply) in
  let seq_delay := match sq with Some s => is_delay (result_status s) | None => false end ||
                   (bool_decide (recalls = []) && is_delay (cb_status reply)) in
  split_part reply sq recalls seq_delay <$> seq 0 n.

Inductive Classified := ClDelay | ClAcked | ClDisown | ClRefused.
Definition classify (reply : CbCompoundReply) : Classified :=
  if is_delay (cb_status reply) || existsb (fun r => is_delay (result_status r)) (cb_results reply) then ClDelay
  else match head (omap recall_status (cb_results reply)) with
       | Some NFS_Ok => ClAcked
       | Some NFS_BadStateId | Some NFS_BadHandle => ClDisown
       | _ => ClRefused
       end.

(** ** Batching *)
Fixpoint add_group (o : RecallOrder) (g : list (Z * list RecallOrder)) : list (Z * list RecallOrder) :=
  match g with
  | [] => [(ro_client o, [o])]
  | (c, v) :: g => if c =? ro_client o then (c, v ++ [o]) :: g else (c, v) :: add_group o g
  end.
(** The drain loop, [limit] at a time; each pass takes at least one order,
    so the group's length is fuel enough. *)
Fixpoint drain (fuel limit : nat) (group : list RecallOrder) : list (list RecallOrder) :=
  match fuel, group with
  | S fuel, _ :: _ => take limit group :: drain fuel limit (drop limit group)
  | _, _ => []
  end.
Definition spawn_recalls (batch_limit : Z -> nat) (orders : list RecallOrder) : list (list RecallOrder) :=
  foldl (fun g o => add_group o g) [] orders ≫= fun '(c, group) => drain (length group) (Nat.max (batch_limit c) 1) group.

(** The outcome each task of a batch starts from. *)
Definition prime (out : SendOutcome) (n : nat) : list (option SendOutcome) :=
  match out with
  | Ok reply => fmap (M := option) Ok <$> split_batch_reply reply n
  | Err e => replicate n (Some (Err e))
  end.

(** ** Driving one recall *)
Record LadderConfig := LadderCfg { revoke_deadline : Z; rungs : list Z; path_down_window : Z; path_retry : Z; disown_probe_delay : Z }.
Definition LadderConfig_default : LadderConfig := LadderCfg (secs 90) [secs 30; secs 60] (secs 30) (secs 5) (secs 2).

Record Ladder := MkLadder {
  ld_order : RecallOrder; ld_started : Z; ld_first : option Z; ld_disown : bool; ld_rung : nat; ld_primed : option SendOutcome }.
Definition ladder_start (order : RecallOrder) (now : Z) (primed : option SendOutcome) : Ladder :=
  MkLadder order now None false 0 primed.

Definition still_pending (s : Server) (sid : StateId) : bool :=
  match snapshot (sv_delegs s) (sid_other sid) with
  | Some (_, _, st, _) => bool_decide (st = RecallPending) || bool_decide (st = RecallAcked)
  | None => false
  end.

(** The requests the rest of the server runs while the task awaits. *)
Definition state_run (l : list state_request) (s : Server) : Server :=
  foldl (fun s q => if state_allowed q s then state_exec q s else s) s l.

(** One pass: [ev_top] the clock at the loop's top, [ev_out] the outcome if
    this pass sends, [ev_during] the requests during the send, [ev_now] the
    clock after it, [ev_asleep] the requests until the acked deadline,
    [ev_late] the clock then, [ev_rearmed] whether a rebind cut a path-down
    wait short. *)
Record Pass := MkPass {
  ev_top : Z; ev_out : SendOutcome; ev_during : list state_request; ev_now : Z;
  ev_asleep : list state_request; ev_late : Z; ev_rearmed : bool }.

(** The task is done, or loops with the earliest instant of its next pass. *)
Inductive Next := Done | Again (ld : Ladder) (wake : Z).

Section ladder.
Context (cfg : LadderConfig).

Definition with_first (ld : Ladder) (now : Z) (s : Server) : Z * Server :=
  match ld_first ld with
  | Some ft => (ft, s)
  | None => (now, upd_delegs (note_first_transmit (ro_stateid (ld_order ld)) now (sv_delegs s)) s)
  end.

(** Resend at the next rung, or sleep to the deadline. *)
Definition rung_wait (ld : Ladder) (ft now : Z) : Next :=
  let deadline := ft + revoke_deadline cfg in
  let wake := match rungs cfg !! ld_rung ld with Some off => Z.min (Z.max (ft + off) now) deadline | None => deadline end in
  Again (MkLadder (ld_order ld) (ld_started ld) (Some ft) (ld_disown ld) (S (ld_rung ld)) None) wake.

Definition on_reply (ld : Ladder) (p : Pass) (reply : CbCompoundReply) (s : Server) : Next * Server :=
  let sid := ro_stateid (ld_order ld) in
  let '(ft, s1) := with_first ld (ev_now p) s in
  let s2 := lower_seq_flags (ro_client (ld_order ld)) CB_PATH_DOWN s1 in
  match classify reply with
  | ClAcked =>
      let s3 := upd_delegs (note_recall_acked sid (sv_delegs s2)) s2 in
      let s4 := state_run (ev_asleep p) s3 in
      (Done, if still_pending s4 sid then revoke_delegation (ev_late p) s4 sid else s4)
  | ClDelay => (rung_wait ld ft (ev_now p), s2)
  | ClDisown =>
      if ld_disown ld then (Done, (deleg_do (resolve_disown sid (ev_now p)) s2).2)
      else (Again (MkLadder (ld_order ld) (ld_started ld) (Some ft) true (ld_rung ld) None) (ev_now p + disown_probe_delay cfg), s2)
  | ClRefused => (Done, revoke_delegation (ev_now p) s2 sid)
  end.

Definition drive_iter (ld : Ladder) (p : Pass) (s : Server) : Next * Server :=
  let sid := ro_stateid (ld_order ld) in
  if negb (still_pending s sid) then (Done, s)
  else if match ld_first ld with Some ft => ft + revoke_deadline cfg <=? ev_top p | None => false end
  then (Done, revoke_delegation (ev_top p) s sid)
  else
    let out := match ld_primed ld with Some o => o | None => ev_out p end in
    let s1 := state_run (ev_during p) s in
    match out with
    | Ok reply => on_reply ld p reply s1
    | Err CbTimeout => let '(ft, s2) := with_first ld (ev_now p) s1 in (rung_wait ld ft (ev_now p), s2)
    | Err CbTransport | Err CbClosed =>
        let s2 := raise_seq_flags (ro_client (ld_order ld)) CB_PATH_DOWN s1 in
        let window_over := path_down_window cfg <=? ev_now p - ld_started ld in
        let past_deadline := match ld_first ld with Some ft => revoke_deadline cfg <=? ev_now p - ft | None => false end in
        if past_deadline || (bool_decide (ld_first ld = None) && window_over)
        then (Done, if still_pending s2 sid then revoke_delegation (ev_now p) s2 sid else s2)
        else (Again (MkLadder (ld_order ld) (ld_started ld) (ld_first ld) (ld_disown ld) (ld_rung ld) None)
                (if ev_rearmed p then ev_now p else ev_now p + path_retry cfg), s2)
    | Err CbReplyError => (Done, revoke_delegation (ev_now p) s1 sid)
    end.

(** The task over its passes, while it has not ended; [None] when it has. *)
Fixpoint drive_one (ld : Ladder) (ps : list Pass) (s : Server) : option Ladder * Server :=
  match ps with
  | [] => (Some ld, s)
  | p :: ps => match drive_iter ld p s with
               | (Done, s') => (None, s')
               | (Again ld' _, s') => drive_one ld' ps s'
               end
  end.

(** The clock of the passes: each starts no earlier than the wait before it
    allows, and a send does not end before it starts. *)
Fixpoint clocked (ld : Ladder) (wake : Z) (ps : list Pass) (s : Server) : Prop :=
  match ps with
  | [] => True
  | p :: ps => wake <= ev_top p <= ev_now p /\
      match drive_iter ld p s with (Done, _) => True | (Again ld' wake', s') => clocked ld' wake' ps s' end
  end.
End ladder.
