(* ===== verification/RecallProps.v ===== *)
(** The recall ladder: every order is driven once, each task's answer is its
    own, and a task always ends, with its delegation no longer under
    recall. *)

From S2P Require Import Prelude Xdr Session Lease Stateid Clients Delegs DelegsInv DelegsProps DelegsEvidence Locks StateManager StateEvidence Recall.

(** ** Batching *)
Lemma drain_spec limit group : (0 < limit)%nat -> forall fuel, (length group <= fuel)%nat ->
  mjoin (drain fuel limit group) = group /\ Forall (fun ch => ch <> [] /\ (length ch <= limit)%nat) (drain fuel limit group).
Proof.
  intros Hl fuel. revert group. induction fuel as [|fuel IH]; intros group Hf.
  { destruct group; [done|simpl in Hf; lia]. }
  destruct group as [|o group]; [done|]. cbn [drain].
  destruct (IH (drop limit (o :: group))) as [H1 H2]; [rewrite length_drop; simpl in *; lia|].
  split.
  - simpl mjoin. rewrite H1. apply take_drop.
  - constructor; [|done]. split; [destruct limit; [lia|done]|]. rewrite length_take. lia.
Qed.

(** Groups: one per client, holding exactly the orders given. *)
Lemma add_group_spec o g : Forall (fun '(c, v) => v <> [] /\ Forall (fun x => ro_client x = c) v) g ->
  Forall (fun '(c, v) => v <> [] /\ Forall (fun x => ro_client x = c) v) (add_group o g) /\
  mjoin (add_group o g).*2 ≡ₚ o :: mjoin g.*2.
Proof.
  induction g as [|[c v] g IH]; intros Hg; simpl.
  - split; [by repeat constructor|done].
  - apply Forall_cons in Hg as [[Hv Hc] Hg]. destruct (IH Hg) as [I1 I2]. destruct (c =? ro_client o) eqn:E; bool_Z; simpl.
    + split; [|rewrite <- (assoc_L (++)); simpl; by rewrite <- Permutation_middle].
      constructor; [|done]. split; [by destruct v|]. apply Forall_app. split; [done|]. by repeat constructor.
    + split; [by constructor|]. rewrite I2. by rewrite <- Permutation_middle.
Qed.

Lemma spawn_spec batch_limit orders : let chunks := spawn_recalls batch_limit orders in
  mjoin chunks ≡ₚ orders /\
  Forall (fun ch => exists c, ch <> [] /\ Forall (fun o => ro_client o = c) ch /\ (length ch <= Nat.max (batch_limit c) 1)%nat) chunks.
Proof.
  intros chunks. assert (Hg : forall os g, Forall (fun '(c, v) => v <> [] /\ Forall (fun x => ro_client x = c) v) g ->
    Forall (fun '(c, v) => v <> [] /\ Forall (fun x => ro_client x = c) v) (foldl (fun g o => add_group o g) g os) /\
    mjoin (foldl (fun g o => add_group o g) g os).*2 ≡ₚ mjoin g.*2 ++ os).
  { induction os as [|o os IH]; intros g Hg; cbn [foldl]; [by rewrite app_nil_r|].
    destruct (add_group_spec o g Hg) as [A1 A2]. destruct (IH _ A1) as [I1 I2]. split; [done|].
    rewrite I2, A2. simpl. by rewrite <- Permutation_middle. }
  destruct (Hg orders [] (List.Forall_nil _)) as [G1 G2]. unfold chunks, spawn_recalls. set (gs := foldl _ _ orders) in *. clearbody gs. clear Hg.
  simpl in G2. split.
  - etransitivity; [|exact G2]. clear G2. induction gs as [|[c v] gs IH]; [done|]. apply Forall_cons in G1 as [_ G1].
    cbn [mbind list_bind]. rewrite join_app. simpl. rewrite (IH G1).
    destruct (drain_spec (Nat.max (batch_limit c) 1) v ltac:(lia) (length v) ltac:(lia)) as [-> _]. done.
  - clear G2. induction gs as [|[c v] gs IH]; [constructor|]. apply Forall_cons in G1 as [[_ Hc] G1].
    cbn [mbind list_bind]. apply Forall_app. split; [|by apply IH].
    destruct (drain_spec (Nat.max (batch_limit c) 1) v ltac:(lia) (length v) ltac:(lia)) as [Hj Hf].
    rewrite Forall_forall in Hf. apply Forall_forall. intros ch Hch. exists c. destruct (Hf ch Hch) as [? ?].
    split_and!; [done| |done]. rewrite Forall_forall in Hc. apply Forall_forall. intros o Ho. apply Hc. rewrite <- Hj.
    apply list_elem_of_join. eauto.
Qed.

(** ** A batch's answers *)
Definition class_of (st : Nfs4Status) : Classified :=
  match st with NFS_Ok => ClAcked | NFS_Delay => ClDelay | NFS_BadStateId | NFS_BadHandle => ClDisown | _ => ClRefused end.

Definition seq_delayed (reply : CbCompoundReply) : bool :=
  match find_first is_seq_result (cb_results reply) with Some s => is_delay (result_status s) | None => false end.

(** The i-th task reads the i-th CB_RECALL status; a task past the last
    executed CB_RECALL has no answer, unless none was executed. *)
Lemma split_spec reply n i : (i < n)%nat ->
  match omap recall_status (cb_results reply) !! i with
  | Some st => exists part, split_batch_reply reply n !! i = Some (Some part) /\
      classify part = if seq_delayed reply then ClDelay else class_of st
  | None => split_batch_reply reply n !! i = Some
      (match omap recall_status (cb_results reply) with
       | [] => Some (CbReply (cb_status reply) (cb_tag reply) (match find_first is_seq_result (cb_results reply) with Some s => [s] | None => [] end))
       | _ => None end)
  end.
Proof.
  intros Hi. unfold split_batch_reply. rewrite list_lookup_fmap, lookup_seq_lt by done. cbn [fmap option_fmap option_map Nat.add].
  unfold split_part. set (recalls := omap recall_status (cb_results reply)). destruct (recalls !! i) as [st|] eqn:Hst; [|done].
  eexists. split; [done|]. unfold seq_delayed. assert (Hne : bool_decide (recalls = []) = false).
  { apply bool_decide_eq_false. intros E. by rewrite E in Hst. }
  rewrite Hne. cbn [andb]. rewrite orb_false_r.
  destruct (find_first is_seq_result (cb_results reply)) as [sq|] eqn:Hsq.
  - apply find_first_Some in Hsq as [_ Hsq]. destruct sq as [s0 b| | | |]; try done. cbn [result_status].
    destruct (is_delay s0) eqn:Hd; unfold classify; cbn [cb_status cb_results app existsb result_status]; [done|].
    rewrite Hd. cbn [orb]. rewrite orb_false_r, orb_diag. unfold is_delay. case_bool_decide; [by subst|].
    simpl. by destruct st.
  - unfold classify. cbn [cb_status cb_results app existsb result_status]. rewrite orb_false_r, orb_diag. unfold is_delay.
    case_bool_decide; [by subst|]. simpl. by destruct st.
Qed.

(** ** The rest of the server *)
Lemma state_run_keeps l : forall s, evident s -> told s -> evident (state_run l s) /\ told (state_run l s).
Proof.
  induction l as [|q l IH]; intros s He Ht; [done|]. unfold state_run. cbn [foldl].
  destruct (state_allowed q s) eqn:Ha; [|by apply IH]. destruct (exec_keeps q s He Ht Ha). by apply IH.
Qed.

(** ** Ending *)
Lemma pending_record s sid : deleg_inv (sv_delegs s) -> still_pending s sid = true ->
  exists i r, r ∈ recs (sv_delegs s) i /\ other r = sid_other sid /\ is_live r = true /\ under_recall r = true.
Proof.
  intros Hi. unfold still_pending, snapshot. destruct (find_record (sv_delegs s) (sid_other sid) any_record) as [[[i e] r]|] eqn:Hf; [|done].
  cbn [mbind option_bind]. apply find_record_spec in Hf as (_ & He & Ho & _ & l1 & l2 & Hl & _). intros Hp.
  exists i, r. rewrite He, Hl. split_and!; [set_solver|done| |done].
  unfold is_live. by destruct (dr_state r).
Qed.

Lemma revoke_ends now s sid : evident s -> still_pending (revoke_delegation now s sid) sid = false.
Proof.
  intros He. destruct (revoke_spec sid now (sv_delegs s) (ev_inv _ He)) as [Hc Hrv].
  assert (Hd : dm_files (sv_delegs (revoke_delegation now s sid)) = dm_files (deleg_revoke sid now (sv_delegs s)).2 /\
    index_fields (sv_delegs (revoke_delegation now s sid)) = index_fields (deleg_revoke sid now (sv_delegs s)).2).
  { unfold revoke_delegation, deleg_do. destruct (deleg_revoke sid now (sv_delegs s)) as [[c|] d]; [|done]. cbn [snd].
    rewrite (proj1 (raise_frame _ _ _)). by destruct (revoke sid _). }
  destruct Hd as [Hd1 Hd2]. apply not_true_iff_false. intros Hp.
  apply pending_record in Hp as (i & r & Hr & Ho & Hl & Hu); [|by apply (inv_frame None (deleg_revoke sid now (sv_delegs s)).2); [..|apply (cm_inv _ _ Hc)]].
  unfold entry_of in Hr. rewrite Hd1 in Hr. destruct (Hrv i r Hr Hl) as [_ Hn]. rewrite Hn in Hu; done.
Qed.

Lemma disown_ends now s sid : evident s -> still_pending (deleg_do (resolve_disown sid now) s).2 sid = false.
Proof.
  intros He. pose proof (ev_inv _ He) as Hi. pose proof (disown_calm sid now (sv_delegs s) Hi) as Hc.
  apply not_true_iff_false. intros Hp.
  assert (Hd : dm_files (sv_delegs (deleg_do (resolve_disown sid now) s).2) = dm_files (resolve_disown sid now (sv_delegs s)).2 /\
    index_fields (sv_delegs (deleg_do (resolve_disown sid now) s).2) = index_fields (resolve_disown sid now (sv_delegs s)).2).
  { unfold deleg_do. by destruct (resolve_disown sid now (sv_delegs s)). }
  destruct Hd as [Hd1 Hd2].
  apply pending_record in Hp as (j & r' & Hr' & Ho' & Hl' & Hu'); [|by apply (inv_frame None (resolve_disown sid now (sv_delegs s)).2); [..|apply (cm_inv _ _ Hc)]].
  unfold entry_of in Hr'. rewrite Hd1 in Hr'. fold (entry_of (resolve_disown sid now (sv_delegs s)).2 j) in Hr'.
  revert Hr' Hc. unfold resolve_disown. destruct (find_record (sv_delegs s) (sid_other sid) under_recall) as [[[i e] r]|] eqn:Hf.
  - apply find_record_spec in Hf as (_ & Hen & Ho & _ & l1 & l2 & Hl & Hr & _). cbn [snd]. rewrite Hr.
    destruct (settle_shape now (cooldown (sv_delegs s)) true (FEntry (l1 ++ l2) (fe_guards e) (fe_cooldown e))) as [cd ->].
    simpl fe_records. simpl fe_guards. destruct (remove_unindex (sv_delegs s) i e r l1 l2 (fe_guards e) cd Hi Hen Hl eq_refl) as [I2 E2].
    intros Hr' _. match type of Hr' with r' ∈ recs (note_evidence _ ?x) j => change (r' ∈ recs x j) in Hr' end.
    assert (Hin : r' ∈ recs (sv_delegs s) j) by (rewrite E2 in Hr'; case_decide as Hj; [subst j; rewrite Hen, Hl; simpl in Hr'; set_solver|done]).
    assert (Hr0 : r ∈ recs (sv_delegs s) i) by (rewrite Hen, Hl; set_solver).
    destruct (same_other _ (sv_delegs s) j i r' r Hi Hin Hr0 ltac:(congruence)) as [-> ->].
    rewrite E2, decide_True in Hr' by done. simpl in Hr'.
    pose proof (di_ids _ _ Hi) as Hn. rewrite (records_split (sv_delegs s) i), fmap_app, Hen, Hl in Hn. apply NoDup_app in Hn as [Hn _].
    rewrite <- Permutation_middle, fmap_cons in Hn. apply NoDup_cons in Hn as [Hn _]. apply Hn. apply list_elem_of_fmap. eauto.
  - cbn [snd]. intros Hr' _. unfold find_record in Hf. rewrite (proj2 (di_index _ _ Hi (sid_other sid) j)) in Hf by eauto. simpl in Hf.
    apply in_entry in Hr' as (e & Hee & Hr'). rewrite Hee in Hf. simpl in Hf.
    destruct (find_first (named (sid_other sid) under_recall) (fe_records e)) eqn:Hff; [done|].
    rewrite find_first_None in Hff. specialize (Hff r' Hr'). unfold named in Hff. rewrite Ho', Z.eqb_refl, Hu' in Hff. done.
Qed.

Section ladder.
Context (cfg : LadderConfig).

Lemma with_first_keeps ld now s : evident s -> told s -> let s' := (with_first ld now s).2 in evident s' /\ told s'.
Proof.
  intros He Ht. unfold with_first. destruct (ld_first ld); [done|]. cbn [snd].
  apply quiet_evident; [done|done|]. apply with_record_logged; [apply (ev_inv _ He)|]. intros r. by destruct (_ && _).
Qed.
Lemma path_up_keeps c s : evident s -> told s -> evident (lower_seq_flags c CB_PATH_DOWN s) /\ told (lower_seq_flags c CB_PATH_DOWN s).
Proof.
  intros He Ht. destruct (lower_frame c CB_PATH_DOWN s) as (L1 & L2 & L3).
  split; [by apply (evident_frame s)|]. apply lower_told; [by left|done].
Qed.
Lemma path_down_keeps c s : evident s -> told s -> evident (raise_seq_flags c CB_PATH_DOWN s) /\ told (raise_seq_flags c CB_PATH_DOWN s).
Proof.
  intros He Ht. destruct (raise_frame c CB_PATH_DOWN s) as (L1 & L2 & L3). split; [by apply (evident_frame s)|by apply raise_told].
Qed.
Lemma acked_keeps sid s : evident s -> told s -> let s' := upd_delegs (note_recall_acked sid (sv_delegs s)) s in evident s' /\ told s'.
Proof.
  intros He Ht. apply quiet_evident; [done|done|]. apply with_record_logged; [apply (ev_inv _ He)|].
  intros r. case_bool_decide as Hb; [|done]. split_and!; [done|done|]. unfold is_live. simpl. by rewrite Hb.
Qed.

(** What a pass leaves: the server's promises, and nothing pending when the
    task is done. *)
Definition pass_ok (sid : StateId) (n : Next) (s' : Server) : Prop :=
  evident s' /\ told s' /\ (n = Done -> still_pending s' sid = false).

Lemma revoke_pass now sid s : evident s -> told s -> pass_ok sid Done (revoke_delegation now s sid).
Proof. intros He Ht. destruct (revoke_keeps now sid s He Ht) as [H1 H2 _]. split_and!; [done|done|]. intros _. by apply revoke_ends. Qed.

(** Revoked only if still pending. *)
Lemma late_pass now sid s : evident s -> told s ->
  pass_ok sid Done (if still_pending s sid then revoke_delegation now s sid else s).
Proof. intros He Ht. destruct (still_pending s sid) eqn:E; [by apply revoke_pass|done]. Qed.

Lemma on_reply_ok ld p reply s : evident s -> told s ->
  let '(n, s') := on_reply cfg ld p reply s in pass_ok (ro_stateid (ld_order ld)) n s'.
Proof.
  intros He Ht. unfold on_reply. destruct (with_first_keeps ld (ev_now p) s He Ht) as [H1 H2].
  destruct (with_first ld (ev_now p) s) as [ft s1]. cbn [snd] in *.
  destruct (path_up_keeps (ro_client (ld_order ld)) s1 H1 H2) as [H3 H4].
  set (s2 := lower_seq_flags _ _ s1) in *. destruct (classify reply).
  - split_and!; done.
  - destruct (acked_keeps (ro_stateid (ld_order ld)) s2 H3 H4) as [H5 H6].
    destruct (state_run_keeps (ev_asleep p) _ H5 H6) as [H7 H8]. by apply late_pass.
  - destruct (ld_disown ld); [|by split_and!].
    destruct (do_keeps (resolve_disown (ro_stateid (ld_order ld)) (ev_now p)) s2) as [H5 H6];
      [by apply disown_logged, (ev_inv _ H3)|done|done|]. split_and!; [done|done|]. intros _. by apply disown_ends.
  - by apply revoke_pass.
Qed.

Lemma drive_iter_ok ld p s : evident s -> told s ->
  let '(n, s') := drive_iter cfg ld p s in pass_ok (ro_stateid (ld_order ld)) n s'.
Proof.
  intros He Ht. unfold drive_iter. destruct (still_pending s _) eqn:Hp; cbn [negb]; [|by split_and!].
  destruct (match ld_first ld with Some ft => _ | None => _ end); [by apply revoke_pass|].
  destruct (state_run_keeps (ev_during p) s He Ht) as [H1 H2]. set (s1 := state_run (ev_during p) s) in *. clearbody s1.
  destruct (match ld_primed ld with Some o => o | None => ev_out p end) as [reply|[]]; [by apply on_reply_ok| | |by apply revoke_pass|].
  - destruct (with_first_keeps ld (ev_now p) s1 H1 H2) as [H3 H4]. destruct (with_first ld (ev_now p) s1) as [ft s2]. by split_and!.
  - destruct (path_down_keeps (ro_client (ld_order ld)) s1 H1 H2) as [H3 H4]. destruct (_ || _); [by apply late_pass|by split_and!].
  - destruct (path_down_keeps (ro_client (ld_order ld)) s1 H1 H2) as [H3 H4]. destruct (_ || _); [by apply late_pass|by split_and!].
Qed.

Lemma next_order ld p s ld' w s' : drive_iter cfg ld p s = (Again ld' w, s') -> ld_order ld' = ld_order ld.
Proof.
  unfold drive_iter, on_reply, rung_wait. destruct (negb _); [done|]. destruct (match ld_first ld with Some ft => _ | None => _ end); [done|].
  destruct (match ld_primed ld with Some o => o | None => ev_out p end) as [reply|[]]; [| | |done|].
  - destruct (with_first ld _ _) as [ft s2]. destruct (classify reply); [by intros [= <- _ _]|done| |done].
    destruct (ld_disown ld); [done|]. by intros [= <- _ _].
  - destruct (with_first ld _ _) as [ft s2]. by intros [= <- _ _].
  - destruct (_ || _); [done|]. by intros [= <- _ _].
  - destruct (_ || _); [done|]. by intros [= <- _ _].
Qed.

(** When the task has ended, the recall is resolved. *)
Lemma drive_one_resolved ps : forall ld s s', evident s -> told s -> drive_one cfg ld ps s = (None, s') ->
  evident s' /\ told s' /\ still_pending s' (ro_stateid (ld_order ld)) = false.
Proof.
  induction ps as [|p ps IH]; intros ld s s' He Ht; [done|]. cbn [drive_one].
  pose proof (drive_iter_ok ld p s He Ht) as Hok. destruct (drive_iter cfg ld p s) as [[|ld' w] s1] eqn:E.
  - intros [= <-]. destruct Hok as (? & ? & H). split_and!; [done|done|by apply H].
  - destruct Hok as (H1 & H2 & _). rewrite <- (next_order _ _ _ _ _ _ E). by apply IH.
Qed.

(** ** The task ends *)
Context (Hretry : 0 < path_retry cfg) (Hdead : 0 <= revoke_deadline cfg) (Hwin : 0 <= path_down_window cfg).
Context (Hprobe : 0 <= disown_probe_delay cfg) (Hrungs : length (rungs cfg) = 2%nat).

(** Retry periods left in [x]. *)
Definition ticks (x : Z) : Z := (Z.max 0 x + path_retry cfg - 1) / path_retry cfg.

Lemma ticks_nonneg x : 0 <= ticks x.
Proof. apply Z.div_pos; lia. Qed.
Lemma ticks_mono x y : x <= y -> ticks x <= ticks y.
Proof. intros. apply Z.div_le_mono; lia. Qed.
Lemma ticks_step x y : 0 < x -> y <= x - path_retry cfg -> ticks y + 1 <= ticks x.
Proof.
  intros Hx Hy. unfold ticks. destruct (Z.le_gt_cases y 0) as [H0|H0].
  - rewrite (Z.max_l 0 y), (Z.div_small (0 + _ - 1)) by lia. apply Z.div_le_lower_bound; lia.
  - rewrite <- (Z.div_add _ 1) by lia. apply Z.div_le_mono; lia.
Qed.

(** Passes left from a state that wakes at [wake], rebinds aside. *)
Definition passes_left (ld : Ladder) (wake : Z) : Z :=
  (if ld_disown ld then 0 else 1) + Z.max 0 (3 - Z.of_nat (ld_rung ld)) +
  match ld_first ld with
  | None => ticks (ld_started ld + path_down_window cfg - wake) + ticks (revoke_deadline cfg)
  | Some ft => ticks (ft + revoke_deadline cfg - wake)
  end.

(** The rungs are used up only at the deadline. *)
Definition ladder_wf (ld : Ladder) (wake : Z) : Prop :=
  (3 <= ld_rung ld)%nat -> exists ft, ld_first ld = Some ft /\ ft + revoke_deadline cfg <= wake.

Lemma rung_wait_step ld wake ft now : (ld_rung ld < 3)%nat -> wake <= now ->
  (ld_first ld = Some ft \/ (ld_first ld = None /\ ft = now)) ->
  match rung_wait cfg ld ft now with
  | Again ld' w => ladder_wf ld' w /\ passes_left ld' w + 1 <= passes_left ld wake
  | Done => True
  end.
Proof.
  intros Hr Hw Hft. unfold rung_wait.
  set (w := match rungs cfg !! ld_rung ld with Some off => _ | None => _ end).
  assert (Hwk : ft + revoke_deadline cfg - w <= Z.max 0 (ft + revoke_deadline cfg - now)).
  { unfold w. destruct (rungs cfg !! ld_rung ld); lia. }
  split.
  - intros H3. exists ft. split; [done|]. simpl in H3. unfold w. destruct (rungs cfg !! ld_rung ld) eqn:E; [|lia].
    apply lookup_lt_Some in E. lia.
  - unfold passes_left. cbn [ld_disown ld_rung ld_first].
    assert (Ht : ticks (ft + revoke_deadline cfg - w) <= ticks (ft + revoke_deadline cfg - now)).
    { etransitivity; [by apply ticks_mono|]. unfold ticks. by rewrite (Z.max_r 0 (Z.max 0 _)) by lia. }
    assert (Hrr : Z.max 0 (3 - Z.of_nat (S (ld_rung ld))) + 1 = Z.max 0 (3 - Z.of_nat (ld_rung ld))) by lia.
    destruct Hft as [-> | [-> ->]].
    + pose proof (ticks_mono (ft + revoke_deadline cfg - now) (ft + revoke_deadline cfg - wake) ltac:(lia)). lia.
    + pose proof (ticks_nonneg (ld_started ld + path_down_window cfg - wake)).
      replace (now + revoke_deadline cfg - now) with (revoke_deadline cfg) in Ht by lia. lia.
Qed.

Lemma with_first_time ld now s : let ft := (with_first ld now s).1 in ld_first ld = Some ft \/ (ld_first ld = None /\ ft = now).
Proof. unfold with_first. destruct (ld_first ld); auto. Qed.

Lemma retry_step ld p wake : wake <= ev_now p -> (ld_rung ld < 3)%nat ->
  match ld_first ld with
  | None => ev_now p - ld_started ld < path_down_window cfg
  | Some ft => ev_now p - ft < revoke_deadline cfg
  end ->
  let ld' := MkLadder (ld_order ld) (ld_started ld) (ld_first ld) (ld_disown ld) (ld_rung ld) None in
  let w := if ev_rearmed p then ev_now p else ev_now p + path_retry cfg in
  ladder_wf ld' w /\ passes_left ld' w + 1 <= passes_left ld wake + (if ev_rearmed p then 1 else 0).
Proof.
  intros Hw Hr Hlt ld' w. split; [intros H3; simpl in H3; lia|]. unfold passes_left, ld'. cbn [ld_disown ld_rung ld_first ld_started].
  destruct (ld_first ld) as [ft|]; unfold w; destruct (ev_rearmed p).
  - pose proof (ticks_mono (ft + revoke_deadline cfg - ev_now p) (ft + revoke_deadline cfg - wake) ltac:(lia)). lia.
  - pose proof (ticks_step (ft + revoke_deadline cfg - wake) (ft + revoke_deadline cfg - (ev_now p + path_retry cfg)) ltac:(lia) ltac:(lia)). lia.
  - pose proof (ticks_mono (ld_started ld + path_down_window cfg - ev_now p) (ld_started ld + path_down_window cfg - wake) ltac:(lia)). lia.
  - pose proof (ticks_step (ld_started ld + path_down_window cfg - wake) (ld_started ld + path_down_window cfg - (ev_now p + path_retry cfg)) ltac:(lia) ltac:(lia)). lia.
Qed.

Lemma drive_iter_step ld p s wake ld' w s' : ladder_wf ld wake -> wake <= ev_top p <= ev_now p ->
  drive_iter cfg ld p s = (Again ld' w, s') ->
  ladder_wf ld' w /\ passes_left ld' w + 1 <= passes_left ld wake + (if ev_rearmed p then 1 else 0).
Proof.
  intros Hwf Hclk. unfold drive_iter. destruct (negb _); [done|].
  destruct (match ld_first ld with Some ft => _ | None => _ end) eqn:Hdl; [done|].
  assert (Hr : (ld_rung ld < 3)%nat).
  { destruct (decide (3 <= ld_rung ld)%nat) as [H3|]; [|lia]. destruct (Hwf H3) as (ft & Hft & Hle). rewrite Hft in Hdl. bool_Z. lia. }
  set (s1 := state_run (ev_during p) s). clearbody s1.
  assert (Hrw : forall ft s2, (ld_first ld = Some ft \/ (ld_first ld = None /\ ft = ev_now p)) ->
    (rung_wait cfg ld ft (ev_now p), s2) = (Again ld' w, s') ->
    ladder_wf ld' w /\ passes_left ld' w + 1 <= passes_left ld wake + (if ev_rearmed p then 1 else 0)).
  { intros ft s2 Hft [E _]%pair_eq. pose proof (rung_wait_step ld wake ft (ev_now p) Hr ltac:(lia) Hft) as Hst. rewrite E in Hst.
    destruct Hst. split; [done|]. destruct (ev_rearmed p); lia. }
  destruct (match ld_primed ld with Some o => o | None => ev_out p end) as [reply|[]]; [| | |done|].
  - unfold on_reply. pose proof (with_first_time ld (ev_now p) s1) as Hft. destruct (with_first ld (ev_now p) s1) as [ft s2]. cbn [fst] in Hft.
    destruct (classify reply); [by apply Hrw|done| |done]. destruct (ld_disown ld) eqn:Hdis; [done|]. intros [= <- <- _].
    split; [intros H3; simpl in H3; lia|]. unfold passes_left. cbn [ld_disown ld_rung ld_first ld_started]. rewrite Hdis.
    destruct Hft as [-> | [-> ->]].
    + pose proof (ticks_mono (ft + revoke_deadline cfg - (ev_now p + disown_probe_delay cfg)) (ft + revoke_deadline cfg - wake) ltac:(lia)).
      destruct (ev_rearmed p); lia.
    + pose proof (ticks_nonneg (ld_started ld + path_down_window cfg - wake)).
      pose proof (ticks_mono (ev_now p + revoke_deadline cfg - (ev_now p + disown_probe_delay cfg)) (revoke_deadline cfg) ltac:(lia)).
      destruct (ev_rearmed p); lia.
  - pose proof (with_first_time ld (ev_now p) s1) as Hft. destruct (with_first ld (ev_now p) s1) as [ft s2]. cbn [fst] in Hft. by apply Hrw.
  - destruct (_ || _) eqn:Hov; [done|]. intros [= <- <- _]. apply retry_step; [lia|done|]. apply orb_false_iff in Hov as [H1 H2].
    destruct (ld_first ld); simpl in H2; bool_Z; lia.
  - destruct (_ || _) eqn:Hov; [done|]. intros [= <- <- _]. apply retry_step; [lia|done|]. apply orb_false_iff in Hov as [H1 H2].
    destruct (ld_first ld); simpl in H2; bool_Z; lia.
Qed.

Lemma drive_one_bound ps : forall ld wake s ld' s', ladder_wf ld wake -> clocked cfg ld wake ps s ->
  drive_one cfg ld ps s = (Some ld', s') -> Z.of_nat (length ps) <= passes_left ld wake + count_if ev_rearmed ps.
Proof.
  induction ps as [|p ps IH]; intros ld wake s ld' s' Hwf Hclk.
  { intros _. simpl. unfold passes_left, count_if. simpl. pose proof (ticks_nonneg (revoke_deadline cfg)).
    destruct (ld_first ld) as [ft|]; [pose proof (ticks_nonneg (ft + revoke_deadline cfg - wake))|
      pose proof (ticks_nonneg (ld_started ld + path_down_window cfg - wake))]; destruct (ld_disown ld); lia. }
  cbn [drive_one clocked] in *. destruct Hclk as [Ht Hclk]. destruct (drive_iter cfg ld p s) as [[|ld1 w] s1] eqn:E; [done|].
  destruct (drive_iter_step ld p s wake ld1 w s1 Hwf Ht E) as [Hwf1 Hm]. intros Hd.
  specialize (IH ld1 w s1 ld' s' Hwf1 Hclk Hd). rewrite count_if_cons. simpl length. lia.
Qed.
End ladder.
