(* ===== verification/Grants.v ===== *)
(** The OPEN path's delegation decision (nfs/v4/operations/ioops.rs,
    [deleg_answer] and [try_grant_read_delegation]) with the two predicates
    it asks of the server's state (nfs/v4/state/mod.rs): is the client
    reachable for a recall, does another client hold a write layout.

    What the handler reads outside the managers is a [GrantEnv]: the feature
    gates, whether the recall machinery is installed, the kill-switch file,
    the layout oracle (composed with the path-to-key step) and the registry of
    back-channel writers (how many per session).  The per-reason refusal
    counters are metrics and left out. *)

From S2P Require Import Prelude Xdr Session Lease Stateid Clients Delegs Locks StateManager.

Inductive WhyNoDelegation := WndNotWanted | WndContention | WndResource | WndCancelled.
Inductive Delegation := DelegRead (stateid : StateId) | DelegNoneExt (why : WhyNoDelegation).

Definition WhyNoDelegation_code (w : WhyNoDelegation) : Z :=
  match w with WndNotWanted => 0 | WndContention => 1 | WndResource => 2 | WndCancelled => 7 end.

Definition why_no_delegation (r : GrantRefusal) : WhyNoDelegation :=
  match r with
  | QuotaClient | QuotaGlobal => WndResource
  | Barrier | MutationPending | Cooldown | Precheck | AlreadyHolder => WndContention
  end.

Record GrantEnv := Env {
  ge_enabled : bool; ge_spawner : bool; ge_posture : bool; ge_pnfs_enabled : bool; ge_sentinel : bool;
  ge_probe : option (bytes -> list Z); ge_channels : option (gmap Z nat) }.

Definition is_gss (p : option CallbackSecParms) : bool := match p with Some CbGss => true | _ => false end.

Definition callback_ready (env : GrantEnv) (s : Server) (c : Z) : bool :=
  match ge_channels env with
  | None => false
  | Some writers =>
      existsb (fun id =>
        match get_session (sv_sessions s) id with
        | None => false
        | Some x => negb (cb_program x =? 0) && negb (is_gss (cb_cred x)) && negb (back_chan_maxops x <? 2) &&
                    match writers !! id with Some n => negb (n =? 0)%nat | None => false end
        end) (get_client_sessions (sv_sessions s) c)
  end.

Definition write_layout_held_by_other (env : GrantEnv) (path : bytes) (requester : Z) : bool :=
  if negb (ge_posture env) then false
  else match ge_probe env with
       | Some probe => existsb (fun c => negb (c =? requester)) (probe path)
       | None => true
       end.

Section grant.
Context (env : GrantEnv) (epoch now unix : Z).

(** Rules 5, 6, 8 and 9: under the file's lock, and only a grant mints. *)
Definition grant_checked (client : Z) (ident : Z * Z) (path fh : bytes) (s : Server) :
    result (option WhyNoDelegation) StateId * Server :=
  let precheck := negb (file_has_write_open (sv_stateids s) ident.1 ident.2) &&
                  negb (write_layout_held_by_other env path client) in
  let '(sid, minted) := allocate_delegation epoch client fh (sv_stateids s) in
  match deleg_do (try_grant ident client fh path now precheck sid) s with
  | (Ok sid, s1) => (Ok sid, upd_stateids minted s1)
  | (Err refusal, s1) => (Err (Some (why_no_delegation refusal)), s1)
  end.

(** [Err None]: the feature is off. *)
Definition try_grant_read_delegation (client share_access share_deny : Z) (claim_grantable : bool)
    (ident : option (Z * Z)) (path : option bytes) (fh : bytes) (s : Server) :
    result (option WhyNoDelegation) StateId * Server :=
  let want := Z.land share_access 65280 in
  if negb (ge_enabled env) then (Err None, s)
  else if want =? 1024 then (Err (Some WndNotWanted), s)
  else if want =? 1280 then (Err (Some WndCancelled), s)
  else if negb (ge_spawner env) then (Err (Some WndResource), s)
  else if ge_posture env && negb (ge_pnfs_enabled env) then (Err (Some WndResource), s)
  else
    let '(paused, s1) := deleg_do (grants_paused client now unix) s in
    if paused then (Err (Some WndResource), s1)
    else if ge_sentinel env then (Err (Some WndResource), s1)
    else if in_grace_period (sv_leases s1) now && anything_reclaimable (sv_leases s1) then (Err (Some WndResource), s1)
    else if negb claim_grantable then (Err (Some WndResource), s1)
    else if negb (Z.land share_access 3 =? 1) || negb (share_deny =? 0) then (Err (Some WndContention), s1)
    else if negb (callback_ready env s1 client) then (Err (Some WndResource), s1)
    else match ident, path with
         | Some ident, Some path => grant_checked client ident path fh s1
         | _, _ => (Err (Some WndResource), s1)
         end.

(** The delegation arm of the OPEN reply. *)
Definition deleg_answer (client share_access share_deny : Z) (claim_grantable : bool)
    (ident : option (Z * Z)) (path : option bytes) (fh : bytes) (s : Server) : option Delegation * Server :=
  match try_grant_read_delegation client share_access share_deny claim_grantable ident path fh s with
  | (Ok sid, s1) => (Some (DelegRead sid), s1)
  | (Err None, s1) => (None, s1)
  | (Err (Some why), s1) => (if negb (Z.land share_access 65280 =? 0) then Some (DelegNoneExt why) else None, s1)
  end.

End grant.
