(* ===== verification/ServerInv.v ===== *)
(** Every operation of the server's state against one invariant: the
    managers' tables are well formed, no two owners hold conflicting locks,
    delegation records carry minted stateids, holder evidence is on disk and
    revocations are announced.  It holds in every state a sequence of client
    operations, recalls, sweeps and cascades can reach. *)

From S2P Require Import Prelude Xdr Session Lease Stateid StateidInv StateidProps Clients ClientsProps Delegs DelegsInv DelegsProps DelegsEvidence Locks LocksInv LocksProps StateManager StateManagerProps StateEvidence SessionOps SessionOpsProps Grants.

Record server_ok (s : Server) : Prop := {
  ok_sessions : mgr_inv (sv_sessions s);
  ok_stateids : sid_inv (sv_stateids s);
  ok_bound : next_stateid (sv_stateids s) < 2 ^ 64;
  ok_clients : client_inv (sv_clients s);
  ok_locks : lock_ok (sv_locks s);
  ok_minted : forall o i, by_stateid (sv_delegs s) !! o = Some i -> minted (sv_stateids s) o;
  ok_owner : forall k w, ~ internal k -> stateid_owners (sv_locks s) !! k = Some w ->
    minted (sv_stateids s) k /\ forall e, states (sv_stateids s) !! k = Some e -> en_type e <> TyOpen;
  ok_external : forall k e, states (sv_stateids s) !! k = Some e -> en_type e = TyOpen -> ~ internal k;
  ok_evident : evident s;
  ok_told : told s }.

Lemma ok_inv s : server_ok s -> server_inv s.
Proof. intros []. split; try done; [apply ok_stateids0|apply ok_evident0|apply ok_locks0]. Qed.

(** ** One table at a time *)
Lemma with_clients m lm s : server_ok s -> client_inv m -> server_ok (upd_leases lm (upd_clients m s)).
Proof. intros [] Hm. split; try done. by apply (evident_frame s). Qed.

Lemma only_clients m s : server_ok s -> client_inv m -> server_ok (upd_clients m s).
Proof. intros [] Hm. split; try done. by apply (evident_frame s). Qed.

Lemma with_leases lm s : server_ok s -> server_ok (upd_leases lm s).
Proof. intros []. split; try done. by apply (evident_frame s). Qed.

Lemma with_sessions m s : server_ok s -> mgr_inv m -> server_ok (upd_sessions m s).
Proof. intros [] Hm. split; try done. by apply (evident_frame s). Qed.

(** A lock table with the old owners. *)
Lemma with_locks m s : server_ok s -> lock_ok m ->
  (forall k w, ~ internal k -> stateid_owners m !! k = Some w -> exists w', stateid_owners (sv_locks s) !! k = Some w') ->
  server_ok (upd_locks m s).
Proof.
  intros [] Hm Ho. split; try done; simpl; [|by apply (evident_frame s)].
  intros k w Hk (w' & Hw)%Ho; [|done]. by eapply ok_owner0.
Qed.

(** The counter stays below the range of the lock table's own keys. *)
Definition sid_below (m : StateIdManager) : Prop := next_stateid m < ENTRY_PREFIX * 2 ^ 32.

Lemma fresh_external m low : 0 <= next_stateid m -> sid_below m -> 0 <= low < 2 ^ 32 -> ~ internal (next_stateid m * 2 ^ 32 + low).
Proof.
  unfold sid_below, internal, minted_entry_counter. intros H0 Hb Hl.
  assert ((next_stateid m * 2 ^ 32 + low) / 2 ^ 64 < ENTRY_PREFIX) by (apply Z.div_lt_upper_bound; lia).
  rewrite (proj2 (Z.eqb_neq _ _)) by lia. by intros [? ?].
Qed.

(** One operation of the stateid table. *)
Lemma exec_stateids op s : server_ok s -> sid_allowed op (sv_stateids s) ->
  (mints op = true -> can_mint (sv_stateids s) /\ sid_below (sv_stateids s)) ->
  server_ok (upd_stateids (sid_exec op (sv_stateids s)) s).
Proof.
  intros Hs Ha Hb. pose proof (ok_stateids s Hs) as [Hc Hi]. pose proof (ok_bound s Hs) as Hn.
  pose proof (exec_types op _ Hc) as Hty. pose proof (sc_next _ _ Hc) as H0.
  pose proof (fun o => exec_minted op _ o Hc Hn Ha) as Hmi.
  destruct Hs. split; try done; simpl.
  - split; [by apply sid_exec_core|by apply sid_exec_ident].
  - by apply sid_exec_counter.
  - intros o i Ho. by eapply Hmi, ok_minted0.
  - intros k w Hk Hw. destruct (ok_owner0 k w Hk Hw) as [Hm Ho]. split; [by apply Hmi|].
    intros e' He' Ht. destruct (Hty k e' He' Ht) as [(e & He & Hte)|(Hmt & low & Hlow & ->)]; [by apply (Ho e)|].
    destruct (Hb Hmt) as [Hcm _]. revert Hm. by apply plain_fresh, counter_of.
  - intros k e' He' Ht. destruct (Hty k e' He' Ht) as [(e & He & Hte)|(Hmt & low & Hlow & ->)]; [by eapply ok_external0|].
    apply fresh_external; [lia|by apply Hb|done].
  - by apply (evident_frame s).
Qed.

(** ** Delegations *)
(** Only a grant adds to the index. *)
Lemma gc_index i m : by_stateid (gc_entry i m) = by_stateid m.
Proof. unfold gc_entry. destruct (dm_files m !! i) as [e|]; [|done]. by destruct (fe_is_empty e). Qed.

Lemma unindex_index r m : by_stateid (unindex r m) ⊆ by_stateid m.
Proof. unfold unindex. rewrite gc_index. destruct (is_live r); simpl; apply delete_subseteq. Qed.

Lemma drop_guard_index g m : by_stateid (drop_guard g m) = by_stateid m.
Proof. unfold drop_guard. destruct (dm_files m !! _); [|done]. by rewrite gc_index. Qed.

Lemma with_record_index o f m : by_stateid (with_record o f m) = by_stateid m.
Proof. unfold with_record. by destruct (find_record m o any_record) as [[[i e] r]|]. Qed.

Lemma return_index sid now m : by_stateid (return_delegation sid now m).2 ⊆ by_stateid m.
Proof.
  unfold return_delegation. destruct (find_record _ _ _) as [[[i e] r]|]; [|done].
  repeat case_match; simpl; try done; etrans; by try apply unindex_index.
Qed.

Lemma revoke_index sid now m : by_stateid (deleg_revoke sid now m).2 = by_stateid m.
Proof. unfold deleg_revoke. destruct (find_record _ _ _) as [[[i e] r]|]; [|done]. by destruct (negb _). Qed.

Lemma disown_index sid now m : by_stateid (resolve_disown sid now m).2 ⊆ by_stateid m.
Proof.
  unfold resolve_disown. destruct (find_record _ _ _) as [[[i e] r]|]; [|done]. simpl.
  etrans; [apply unindex_index|done].
Qed.

Lemma free_index sid m : by_stateid (free_revoked sid m).2 ⊆ by_stateid m.
Proof.
  unfold free_revoked. destruct (find_record _ _ _) as [[[i e] r]|]; [|done]. simpl.
  rewrite gc_index. simpl. apply delete_subseteq.
Qed.

Lemma teardown_index l : forall st, by_stateid (foldl teardown_one st l).2 ⊆ by_stateid st.2.
Proof.
  induction l as [|o l IH]; simpl; intros st; [done|]. etrans; [apply IH|]. destruct st as [freed m]. unfold teardown_one.
  destruct (by_stateid m !! o) as [i|]; [|done]. simpl. destruct (dm_files m !! i) as [e|]; simpl; [|apply delete_subseteq].
  destruct (find_first _ _) as [r|]; simpl; rewrite gc_index; [destruct (is_live r)|]; simpl; apply delete_subseteq.
Qed.

Lemma cleanup_index c m : by_stateid (cleanup_client_delegations c m).2 ⊆ by_stateid m.
Proof.
  unfold cleanup_client_delegations. destruct (by_client m !! c) as [l|]; [|done].
  pose proof (teardown_index l ([], set_tables (dm_files m) (by_stateid m) (delete c (by_client m)) m)) as H.
  destruct (foldl teardown_one _ _) as [freed m2]. simpl in *.
  set (m3 := note_evidence _ _). destruct (release_fds_frame freed m3) as [_ Hi].
  injection Hi as Hb _ _ _ _. by rewrite Hb.
Qed.

Lemma grant_index i c fh path now pre sid m o j :
  by_stateid (try_grant i c fh path now pre sid m).2 !! o = Some j ->
  by_stateid m !! o = Some j \/ o = sid_other sid.
Proof.
  unfold try_grant, refuse_grant. repeat match goal with |- context [if ?b then _ else _] => destruct b; [by left|] end.
  simpl. intros [[<- _]|[_ ?]]%lookup_insert_Some; auto.
Qed.

Lemma fence_index i mu tr now lapsed m : by_stateid (mutation_fence i mu tr now lapsed m).2 = by_stateid m.
Proof.
  unfold mutation_fence. destruct (bool_decide _); [done|]. destruct (foldl _ _ _) as [[[? ?] ?] ?]. by destruct (_ && _).
Qed.

(** A step of the delegation table: it keeps the evidence and the
    announcements and adds nothing to the index. *)
Lemma with_delegs s s' : server_ok s -> evident s' -> told s' ->
  (sv_sessions s', sv_stateids s', sv_clients s', sv_locks s') = (sv_sessions s, sv_stateids s, sv_clients s, sv_locks s) ->
  by_stateid (sv_delegs s') ⊆ by_stateid (sv_delegs s) -> server_ok s'.
Proof.
  intros [] He Ht [= H1 H2 H3 H4] Hsub. split; rewrite ?H1, ?H2, ?H3, ?H4; try done.
  intros o i Ho. eapply ok_minted0, lookup_weaken; done.
Qed.

Lemma deleg_do_frame {A} (f : DelegationManager -> A * DelegationManager) s : let s' := (deleg_do f s).2 in
  (sv_sessions s', sv_stateids s', sv_clients s', sv_locks s') = (sv_sessions s, sv_stateids s, sv_clients s, sv_locks s) /\
  by_stateid (sv_delegs s') = by_stateid (f (sv_delegs s)).2 /\ sv_leases s' = sv_leases s.
Proof. unfold deleg_do. by destruct (f (sv_delegs s)) as [a d]. Qed.

Lemma do_ok {A} (f : DelegationManager -> A * DelegationManager) s : server_ok s ->
  evident (deleg_do f s).2 /\ told (deleg_do f s).2 -> by_stateid (f (sv_delegs s)).2 ⊆ by_stateid (sv_delegs s) ->
  server_ok (deleg_do f s).2.
Proof.
  intros Hs [He Ht] Hsub. destruct (deleg_do_frame f s) as (H1 & H2 & _).
  apply (with_delegs s); [done|done|done|done|by rewrite H2].
Qed.

(** ** Requests on delegations *)
Lemma revoke_delegation_ok now sid s : server_ok s -> server_ok (revoke_delegation now s sid).
Proof.
  intros Hs. destruct (revoke_keeps now sid s (ok_evident s Hs) (ok_told s Hs)) as [He Ht _]. revert He Ht.
  unfold revoke_delegation. pose proof (deleg_do_frame (deleg_revoke sid now) s) as (Hf & Hb & _). rewrite revoke_index in Hb.
  destruct (deleg_do _ s) as [[c|] s1]; simpl in *; intros He Ht.
  - pose proof (exec_stateids (OpRevoke sid) s Hs I ltac:(done)) as Hr. injection Hf as H1 H2 H3 H4.
    apply (with_delegs _ _ Hr He Ht); unfold raise_seq_flags; simpl;
      [rewrite <- H2; destruct (revoke sid (sv_stateids s1)); simpl; congruence
      |destruct (revoke sid (sv_stateids s1)); simpl; by rewrite Hb].
  - apply (with_delegs s); [done|done|done|done|by rewrite Hb].
Qed.

Lemma revoke_all_ok now l : forall s, server_ok s -> server_ok (foldl (revoke_delegation now) s l).
Proof. induction l as [|x l IH]; simpl; intros s Hs; [done|]. by apply IH, revoke_delegation_ok. Qed.

Lemma upd_delegs_ok d s : server_ok s -> evident (upd_delegs d s) /\ told (upd_delegs d s) ->
  by_stateid d ⊆ by_stateid (sv_delegs s) -> server_ok (upd_delegs d s).
Proof. intros Hs [He Ht] Hsub. by apply (with_delegs s). Qed.

Lemma fence_ok en sp i mu tr now s : server_ok s -> server_ok (deleg_fence en sp i mu tr now s).2.
Proof.
  intros Hs. pose proof (fence_keeps en sp i mu tr now s (ok_evident s Hs) (ok_told s Hs)) as Hk. revert Hk.
  unfold deleg_fence. destruct (negb en); [done|]. destruct (negb sp); [done|].
  pose proof (fence_index i mu tr now (lease_lapsed s now) (sv_delegs s)) as Hx.
  pose proof (quiet_evident s _ (ok_evident s Hs) (ok_told s Hs)
    (fence_logged i mu tr now (lease_lapsed s now) (sv_delegs s) (ev_inv _ (ok_evident s Hs)))) as Hq.
  destruct (mutation_fence _ _ _ _ _ _) as [[g|g recalls expired delay] d]; simpl in *; intros Hk.
  - apply upd_delegs_ok; [done|done|by rewrite Hx].
  - assert (H1 : server_ok (foldl (revoke_delegation now) (upd_delegs d s) expired)).
    { apply revoke_all_ok, upd_delegs_ok; [done|done|by rewrite Hx]. }
    destruct delay; simpl in *; [|done]. apply upd_delegs_ok; [done|done|by rewrite drop_guard_index].
Qed.

(** ** Clients leave *)
Lemma remove_stateids_ok c s : server_ok s -> server_ok (upd_stateids (remove_client_stateids c (sv_stateids s)) s).
Proof. intros Hs. by apply (exec_stateids (OpRemoveClient c) s Hs I). Qed.

Lemma destroy_sessions_ok c s : server_ok s -> server_ok (upd_sessions (destroy_client_sessions (sv_sessions s) c) s).
Proof. intros Hs. apply with_sessions; [done|]. by apply destroy_client_spec, ok_sessions. Qed.

Lemma drop_record_ok c s : server_ok s -> server_ok (drop_client_record c s).
Proof.
  intros Hs. unfold drop_client_record. destruct (remove_client c (sv_clients s) (sv_leases s)) as [m lm] eqn:Er.
  apply with_clients; [done|]. by eapply remove_record_spec, ok_clients.
Qed.

Lemma cleanup_ok c s : server_ok s -> server_ok (deleg_do (cleanup_client_delegations c) s).2.
Proof. intros Hs. apply do_ok; [done|by apply cleanup_keeps; apply Hs|apply cleanup_index]. Qed.

Lemma strip_ok c s : server_ok s -> server_ok (strip_locks s c).
Proof.
  intros Hs. pose proof (ok_locks s Hs) as Hl. apply with_locks; [done|..];
  destruct (remove_client_locks_spec c (sv_locks s) (lo_inv _ Hl)) as (Hi & _ & Hk & Ho).
  - apply (sub_ok (sv_locks s)); [done|done|]. by intros k l [? _]%Hk.
  - intros k w _ [? _]%Ho. eauto.
Qed.

Lemma retire_ok c s : server_ok s -> server_ok (retire_client s c).
Proof. intros Hs. by apply cleanup_ok, drop_record_ok, remove_stateids_ok, destroy_sessions_ok. Qed.

Lemma cascade_ok c s : server_ok s -> server_ok (cascade_destroy_client c s).
Proof. intros Hs. by apply drop_record_ok, strip_ok, cleanup_ok, remove_stateids_ok, destroy_sessions_ok. Qed.

Lemma foldl_ok {A} (f : Server -> A -> Server) l : (forall s a, server_ok s -> server_ok (f s a)) ->
  forall s, server_ok s -> server_ok (foldl f s l).
Proof. intros Hf. induction l as [|a l IH]; simpl; intros s Hs; [done|]. by apply IH, Hf. Qed.

Lemma sweep_ok now s : server_ok s -> server_ok (courtesy_release_expired now s).2.
Proof.
  intros Hs. unfold courtesy_release_expired. destruct (bool_decide _); [done|].
  apply (foldl_ok strip_locks); [intros ? c; apply strip_ok|].
  apply (foldl_ok retire_client); [intros ? c; apply retire_ok|done].
Qed.

(** ** SEQ4 bits *)
(** Everything but the bits, the armed set and the marker rows. *)
Definition tables (s : Server) := (sv_sessions s, sv_stateids s, sv_clients s, sv_locks s, sv_delegs s).

Lemma bits_ok s s' : server_ok s -> evident s' /\ told s' -> tables s' = tables s -> server_ok s'.
Proof. intros Hs [He Ht] [= H1 H2 H3 H4 H5]. apply (with_delegs s); rewrite ?H5; try done. congruence. Qed.

Lemma raise_ok c b s : server_ok s -> server_ok (raise_seq_flags c b s).
Proof.
  intros Hs. destruct (raise_frame c b s) as (? & ? & ?). apply (bits_ok s); [done| |].
  - split; [by apply (evident_frame s), Hs|by apply raise_told, Hs].
  - unfold raise_seq_flags. by destruct (b =? 0).
Qed.

Lemma lower_ok c b s : server_ok s -> Z.testbit b 6 = false \/ client_has_revoked (sv_delegs s) c = false ->
  server_ok (lower_seq_flags c b s).
Proof.
  intros Hs Hb. destruct (lower_frame c b s) as (? & ? & ?). apply (bits_ok s); [done| |].
  - split; [by apply (evident_frame s), Hs|by apply lower_told, Hs].
  - unfold lower_seq_flags. by destruct (sv_seq_flags s !! c).
Qed.

Lemma bound_ok x s : server_ok s -> server_ok (note_back_channel_bound x s).
Proof. intros Hs. unfold note_back_channel_bound. destruct (get_session _ _); [|done]. apply lower_ok; [done|by left]. Qed.

Lemma delivery_ok c x slot sq s : server_ok s -> server_ok (note_seq4_delivery c x slot sq s).
Proof.
  intros Hs. apply (bits_ok s); [done|by apply delivery_keeps; apply Hs|].
  unfold note_seq4_delivery. destruct (sv_armed s !! c) as [[[[? ?] ?]|]|]; [|done|done].
  destruct (_ && _); [|done]. destruct (_ && _); [|done]. unfold lower_seq_flags. simpl. by destruct (sv_seq_flags s !! c).
Qed.

(** ** FREE_STATEID *)
Lemma release_owners other m k w : stateid_owners (release_owner_stateid other m).2 !! k = Some w ->
  exists w', stateid_owners m !! k = Some w'.
Proof.
  unfold release_owner_stateid. destruct (bool_decide _); [eauto|]. destruct (stateid_owners m !! other); [|eauto].
  destruct (owner_holds _ _); [eauto|]. simpl. intros [_ ?]%lookup_delete_Some. eauto.
Qed.

Lemma free_ok sid s : server_ok s -> server_ok (free_stateid sid s).2.
Proof.
  intros Hs. unfold free_stateid. destruct sid as [sid|]; [|done]. destruct (get_state _ _) as [e|]; [|done].
  assert (Hclose : forall s0, server_ok s0 -> server_ok (upd_stateids (close_open_state (sid_other sid) (sv_stateids s0)) s0))
    by (intros s0 H0; by apply (exec_stateids (OpCloseState (sid_other sid)) s0 H0 I)).
  destruct (en_revoked e); [destruct (bool_decide _)|destruct (en_type e)]; simpl; try done.
  - set (s1 := (deleg_do _ _).2). assert (H1 : server_ok s1)
      by (apply do_ok; [done|by apply do_keeps; [apply free_logged, Hs|apply Hs|apply Hs]|apply free_index]).
    destruct (negb _) eqn:Hr; [|by apply Hclose]. apply lower_ok; [by apply Hclose|right]. by apply negb_true_iff.
  - by apply Hclose.
  - pose proof (release_spec (sid_other sid) (sv_locks s) (lo_inv _ (ok_locks s Hs))) as Hr.
    pose proof (release_locks (sid_other sid) (sv_locks s)) as Hk.
    pose proof (release_owners (sid_other sid) (sv_locks s)) as Ho.
    destruct (release_owner_stateid _ _) as [b lm]. simpl in *.
    assert (Hlm : lock_ok lm) by (apply (sub_ok (sv_locks s)); [apply Hs|done|by rewrite Hk]).
    assert (H1 : server_ok (upd_locks lm s)) by (apply with_locks; [done|done|]; intros k w _; apply Ho).
    destruct b; simpl; [|done]. by apply (exec_stateids (OpRemove sid) (upd_locks lm s) H1 I).
  - pose proof (exec_stateids (OpRevoke sid) s Hs I ltac:(done)) as H. simpl in H. by destruct (revoke sid (sv_stateids s)); [|done].
Qed.

(** ** Grants *)
Section grants.
Context (env : GrantEnv) (epoch now unix : Z) (Hep : is_u32 epoch) (Hux : is_u64 unix).

(** The stateid of a grant is new to both tables. *)
Lemma grant_fresh c fh s : server_ok s -> can_mint (sv_stateids s) ->
  by_stateid (sv_delegs s) !! sid_other (allocate_delegation epoch c fh (sv_stateids s)).1 = None.
Proof.
  intros Hs Hm. destruct (delegation_fresh epoch c fh (sv_stateids s) Hep (proj1 (ok_stateids s Hs)) Hm) as [Hf _].
  destruct (by_stateid _ !! _) as [i|] eqn:E; [|done]. by apply (ok_minted s Hs) in E.
Qed.

Lemma grant_checked_ok c ident path fh s : server_ok s -> can_mint (sv_stateids s) ->
  server_ok (grant_checked env epoch now c ident path fh s).2.
Proof.
  intros Hs Hm. unfold grant_checked. set (pre := negb _ && negb _). clearbody pre.
  pose proof (grant_fresh c fh s Hs Hm) as Hfr.
  destruct (delegation_fresh epoch c fh (sv_stateids s) Hep (proj1 (ok_stateids s Hs)) Hm) as [_ Hmi].
  pose proof (exec_stateids (OpAllocateDelegation epoch c fh) s Hs (conj Hep Hm) ltac:(done)) as Hx. cbn [sid_exec] in Hx.
  pose proof (fun o => exec_minted (OpAllocateDelegation epoch c fh) (sv_stateids s) o (proj1 (ok_stateids s Hs)) (ok_bound s Hs)
    (conj Hep Hm)) as Hmono. cbn [sid_exec] in Hmono.
  destruct (allocate_delegation epoch c fh (sv_stateids s)) as [sid m]. cbn [fst snd] in *.
  destruct (exec_keeps (SGrant ident c fh path now pre sid) s) as [He Ht]; [apply Hs|apply Hs|by apply bool_decide_eq_true|].
  cbn [state_exec] in He, Ht. destruct (deleg_do_frame (try_grant ident c fh path now pre sid) s) as (Hf & Hb & _).
  assert (Hidx : forall o j, by_stateid (sv_delegs (deleg_do (try_grant ident c fh path now pre sid) s).2) !! o = Some j ->
    by_stateid (sv_delegs s) !! o = Some j \/ o = sid_other sid) by (intros o j; rewrite Hb; apply grant_index).
  assert (Hrf : forall e, (try_grant ident c fh path now pre sid (sv_delegs s)).1 = Err e ->
    by_stateid (try_grant ident c fh path now pre sid (sv_delegs s)).2 = by_stateid (sv_delegs s)).
  { intros e. unfold try_grant, refuse_grant.
    repeat match goal with |- context [if ?b then _ else _] => destruct b; [done|] end. done. }
  assert (Hfst : (deleg_do (try_grant ident c fh path now pre sid) s).1 = (try_grant ident c fh path now pre sid (sv_delegs s)).1)
    by (unfold deleg_do; by destruct (try_grant _ _ _ _ _ _ _ _)).
  destruct (deleg_do (try_grant ident c fh path now pre sid) s) as [[sid'|e] s1]; cbn [fst snd] in *.
  - destruct Hx, Hs. injection Hf as H1 H2 H3 H4.
    split; simpl in *; rewrite ?H1, ?H3, ?H4; try done; [|by apply (evident_frame s1)].
    intros o j [Ho| ->]%Hidx; [|done]. apply Hmono. by eapply ok_minted1.
  - apply (with_delegs s); [done|done|done|done|]. rewrite Hb. by rewrite (Hrf e).
Qed.

Lemma paused_index c m : by_stateid (grants_paused c now unix m).2 = by_stateid m.
Proof. by destruct (paused_shape c now unix m) as (_ & [= ->] & _). Qed.

Lemma try_grant_ok c acc deny cl ident path fh s : server_ok s -> can_mint (sv_stateids s) ->
  server_ok (try_grant_read_delegation env epoch now unix c acc deny cl ident path fh s).2.
Proof.
  intros Hs Hm. unfold try_grant_read_delegation.
  repeat match goal with |- context [if ?b then (Err _, s) else _] => destruct b; [done|] end.
  assert (H1 : server_ok (deleg_do (grants_paused c now unix) s).2).
  { apply do_ok; [done|by apply paused_keeps; [|apply Hs|apply Hs]|by rewrite paused_index]. }
  destruct (deleg_do_frame (grants_paused c now unix) s) as ([= _ Hst _ _] & _ & _).
  destruct (deleg_do (grants_paused c now unix) s) as [p s1]. cbn [snd] in *.
  repeat match goal with |- context [if ?b then (Err _, s1) else _] => destruct b; [done|] end.
  destruct ident as [ident|]; [|done]. destruct path as [path|]; [|done].
  apply grant_checked_ok; [done|by rewrite Hst].
Qed.

End grants.

(** ** The other delegation requests *)
Definition grants (q : state_request) : bool := match q with SGrant _ _ _ _ _ _ _ => true | _ => false end.

Lemma state_exec_ok q s : server_ok s -> state_allowed q s = true -> grants q = false -> server_ok (state_exec q s).
Proof.
  intros Hs Ha Hg. pose proof (exec_keeps q s (ok_evident s Hs) (ok_told s Hs) Ha) as Hk.
  destruct q; try discriminate; cbn [state_exec] in *.
  - by apply fence_ok.
  - apply upd_delegs_ok; [done|done|by rewrite drop_guard_index].
  - by apply revoke_delegation_ok.
  - unfold handle_delegreturn in *. pose proof (deleg_do_frame (return_delegation sid now) s) as (Hf & Hb & _).
    pose proof (return_index sid now (sv_delegs s)) as Hi. rewrite <- Hb in Hi.
    destruct (deleg_do (return_delegation sid now) s) as [[?|[]] s1]; by apply (with_delegs s); try apply Hk.
  - by apply free_ok.
  - apply do_ok; [done|done|apply disown_index].
  - apply upd_delegs_ok; [done|done|]. unfold note_first_transmit. by rewrite with_record_index.
  - apply upd_delegs_ok; [done|done|]. unfold note_recall_acked. by rewrite with_record_index.
  - apply do_ok; [done|done|by rewrite paused_index].
  - by apply delivery_ok.
  - by apply bound_ok.
  - by apply raise_ok.
  - by apply retire_ok.
  - by apply cascade_ok.
Qed.

(** ** Session operations *)
Lemma seq_closure_identity slot sq : keeps_identity (seq_closure slot sq).
Proof.
  intros x. unfold seq_closure, process_sequence. destruct (slots x !! _); [|done].
  repeat match goal with |- context [if ?b then _ else _] => destruct b; [done|] end. done.
Qed.

Section session_ops.
Context (L : Z).

Lemma set_mach_cred_inv c on m : client_inv m -> client_inv (set_mach_cred c on m).
Proof.
  intros Hi. unfold set_mach_cred. destruct (clients m !! c) as [x|] eqn:Hx; [|done]. destruct (Bool.eqb _ _); [done|].
  apply (put_client_inv c x); [done|done| |done]. exact (proj1 (ci_id m Hi _ _ Hx)).
Qed.

Lemma exchange_ok mx ds draws now op pr gss s res s' : server_ok s ->
  handle_exchange_id L mx ds draws now op pr gss s = Some (res, s') -> server_ok s'.
Proof.
  intros Hs. unfold handle_exchange_id.
  repeat match goal with |- (if ?b then Some (_, s) else _) = _ -> _ => destruct b; [by intros [= _ <-]|] end.
  destruct (exchange_id L draws now _ _ _ pr (sv_clients s) (sv_leases s)) as [[[out m] lm]|] eqn:Ex; [|done].
  cbn [mbind option_bind]. pose proof (exchange_id_inv L _ _ _ _ _ _ _ _ _ _ _ (ok_clients s Hs) Ex) as Hm.
  assert (H1 : server_ok (upd_leases lm (upd_clients m s))) by (by apply with_clients).
  set (s1 := upd_leases lm (upd_clients m s)) in *. clearbody s1.
  assert (Hc : forall out' s2, match out with
      | ClientCollision incumbent => resolve_collision L draws now op pr incumbent s1
      | _ => Some (Some out, s1) end = Some (out', s2) -> server_ok s2).
  { intros out' s2 H. destruct out; try (by injection H as _ <-). revert H. unfold resolve_collision.
    destruct (_ || _); [by intros [= _ <-]|].
    destruct (allocate_client _ _ _ _ _ _ _ _ _) as [[[o2 m2] lm2]|] eqn:Ea; [|done]. intros [= _ <-].
    pose proof (cascade_ok incumbent s1 H1) as H2. apply with_clients; [done|]. by eapply allocate_inv, Ea; apply H2. }
  destruct (match out with ClientCollision _ => _ | _ => _ end) as [[out' s2]|]; [|done].
  specialize (Hc out' s2 eq_refl). cbn [mbind option_bind].
  destruct out' as [[]|]; intros [= _ <-]; try done; by apply only_clients, set_mach_cred_inv, Hc.
Qed.

Lemma mark_confirmed_ok c s : server_ok s -> server_ok (upd_clients (mark_confirmed c (sv_clients s)).2 s).
Proof.
  intros Hs. apply only_clients; [done|].
  exact (si_clients _ (mark_confirmed_server s c (ok_clients s Hs) (ok_inv s Hs))).
Qed.

Lemma record_reply_inv id q r m : client_inv m -> client_inv (record_create_session_reply id q r m).
Proof.
  intros Hi. unfold record_create_session_reply. destruct (clients m !! id) as [x|] eqn:Hx; [|done].
  apply (put_client_inv id x); [done|done| |done]. exact (proj1 (ci_id m Hi _ _ Hx)).
Qed.

Lemma create_ok mx draws now op pr hc minor s res s' : server_ok s ->
  handle_create_session mx draws now op pr hc minor s = Some (res, s') -> server_ok s'.
Proof.
  intros Hs. unfold handle_create_session.
  repeat match goal with
  | |- (if ?b then Some (_, s) else _) = _ -> _ => destruct b; [by intros [= _ <-]|]
  | |- match ?x with None => Some (_, s) | Some _ => _ end = _ -> _ => destruct x as [c|]; [|by intros [= _ <-]]
  end.
  destruct (process_create_session_seq _ _ _); try (by intros [= _ <-]).
  pose proof (mark_confirmed_ok (cs_clientid op) s Hs) as H1.
  destruct (mark_confirmed (cs_clientid op) (sv_clients s)) as [old m]. cbn [snd] in H1.
  assert (H2 : server_ok (match old with Some o => cascade_destroy_client o (upd_clients m s) | None => upd_clients m s end))
    by (destruct old; [by apply cascade_ok|done]).
  set (s2 := match old with Some _ => _ | None => _ end) in *. clearbody s2.
  destruct (_ <=? _); [by intros [= _ <-]|]. unfold make_session.
  destruct (create_session _ _ _ _ _ _ _ _ _ _ _ _ _) as [[x sm]|] eqn:Ec; [|done]. intros [= _ <-].
  apply only_clients; [|by apply record_reply_inv, H2]. apply with_sessions; [done|].
  apply get_session_mut_inv; [by intros y|]. by eapply create_session_inv, Ec; apply H2.
Qed.

Lemma sequence_ok op t1 t2 t3 s : server_ok s -> server_ok (handle_sequence L op t1 t2 t3 s).2.
Proof.
  intros Hs. unfold handle_sequence. destruct (get_session _ _) as [x|]; [|done].
  destruct (_ <=? _); [done|]. destruct (_ && _); [done|].
  pose proof (get_session_mut_inv (sv_sessions s) (so_sessionid op) (seq_closure (so_slotid op) (so_sequenceid op))
    (seq_closure_identity _ _) (ok_sessions s Hs)) as Hi.
  destruct (get_session_mut _ _ _) as [out sm]. cbn [snd] in Hi. pose proof (with_sessions sm s Hs Hi) as H1.
  destruct out as [[[|[b|]|]|]|]; try done. cbn [snd]. destruct (renew_lease _ _ _ _ _ _); [by apply with_leases|done].
Qed.

Lemma dispatch_ok bound op t1 t2 t3 s : server_ok s -> server_ok (dispatch_sequence L bound op t1 t2 t3 s).2.
Proof.
  intros Hs. unfold dispatch_sequence. destruct (match _ with Some c => _ | None => false end); [done|].
  pose proof (sequence_ok op t1 t2 t3 s Hs) as H1. destruct (handle_sequence _ _ _ _ _ _) as [[res h] s1]. cbn [snd] in H1.
  destruct (bool_decide _); [|done]. destruct (session_limits _ _); [|done]. by apply delivery_ok.
Qed.

End session_ops.

Lemma destroy_session_ok id s : server_ok s -> server_ok (handle_destroy_session id s).2.
Proof.
  intros Hs. unfold handle_destroy_session. destruct (destroy_session _ _) as [sm|] eqn:Ed; [|done].
  apply with_sessions; [done|]. by eapply destroy_session_spec, Ed; apply Hs.
Qed.

Lemma destroy_clientid_ok c pr s : server_ok s -> server_ok (destroy_clientid c pr s).2.
Proof.
  intros Hs. unfold destroy_clientid.
  repeat match goal with |- context [if ?b then _ else _] => destruct b; [done|] end. by apply drop_record_ok.
Qed.

(** ** LOCK and LOCKU *)
Definition owned (lm : LockManager) (k : Z) : Prop := exists w, stateid_owners lm !! k = Some w.
(** The external owners of [lm'] are those of [lm], [extra] aside. *)
Definition owners_within (extra : Z -> Prop) (lm lm' : LockManager) : Prop :=
  forall k, ~ internal k -> owned lm' k -> owned lm k \/ extra k.

(** What a lock request does to the stateid table: nothing, a new sequence
    id on a stateid the lock table knows, or a new lock stateid. *)
Definition lock_moves (c : Z) (fh : bytes) (lm : LockManager) (sm : StateIdManager) (lm' : LockManager) (sm' : StateIdManager) : Prop :=
  (owners_within (fun _ => False) lm lm' /\ (sm' = sm \/ exists s, owned lm (sid_other s) /\ sm' = sid_exec (OpUpdateSeqid s) sm)) \/
  (owners_within (fun k => k = sid_other (allocate TyLock c (Some fh) sm).1) lm lm' /\ sm' = (allocate TyLock c (Some fh) sm).2).

Lemma within_refl e lm : owners_within e lm lm.
Proof. intros k _. auto. Qed.

Lemma within_add e c ow fh t r lm lm' : lock_inv lm' -> owners_within e lm lm' -> owners_within e lm (add_range c ow fh t r lm').
Proof.
  intros Hi Hw k Hk [w H]. apply Hw; [done|]. unfold add_range in H. simpl in H.
  apply lookup_insert_Some in H as [[<- _]|[_ H]]; [|by exists w]. destruct Hk.
  unfold internal. rewrite entry_key_minted; [eauto|]. pose proof (li_counter _ Hi). lia.
Qed.

Lemma bump_moves s fb lm sm s' sm' : owned lm (sid_other s) -> bump_stateid s fb sm = (s', sm') ->
  sm' = sm \/ exists s, owned lm (sid_other s) /\ sm' = sid_exec (OpUpdateSeqid s) sm.
Proof.
  intros Ho. unfold bump_stateid. destruct (update_seqid s sm) as [[s1 m1]|] eqn:E; intros [= _ <-]; [right|by left].
  exists s. split; [done|]. simpl. by rewrite E.
Qed.

Lemma establish_within c ow fh lm sm s lm' sm' : establish c ow fh lm sm = (s, lm', sm') ->
  owners_within (fun k => k = sid_other (allocate TyLock c (Some fh) sm).1) lm lm' /\ sm' = (allocate TyLock c (Some fh) sm).2 /\
  entry_key_counter lm' = entry_key_counter lm.
Proof.
  unfold establish. destruct (allocate TyLock c (Some fh) sm) as [s1 m1] eqn:E. intros [= <- <- <-]. split_and!; try done.
  intros k _ [w H]. simpl in H. apply lookup_insert_Some in H as [[<- _]|[_ H]]; [by right|left; by exists w].
Qed.

Lemma resolve_owned lm s w : lock_inv lm -> resolve_owner lm s = Some w -> owned lm (sid_other s).
Proof.
  intros Hi. unfold resolve_owner. destruct (stateid_owners lm !! sid_other s) as [o|] eqn:E; [by exists o|].
  destruct (lm_locks lm !! sid_other s) as [l|] eqn:El; [|done]. by apply (li_owner _ Hi) in El; rewrite E in El.
Qed.

Section lock_moves.
Context (op : LockOp) (fh : bytes) (c : Z) (lm : LockManager) (sm : StateIdManager).
Context (Hok : lock_ok lm) (Hq : lock_request op fh lm sm).

Lemma moves_none : lock_moves c fh lm sm lm sm.
Proof. left. split; [apply within_refl|by left]. Qed.

Lemma grant_moves ow res lm' sm' : (lo_new_owner op = false -> owned lm (sid_other (lo_stateid op))) ->
  grant_lock op c ow fh lm sm = (res, lm', sm') -> lock_moves c fh lm sm lm' sm'.
Proof.
  intros Ho. destruct Hq as (_ & _ & Hbd & Hsid & Hroom). pose proof (lo_inv _ Hok) as Hi. unfold grant_lock.
  destruct (check_conflicts _ _ _ _ _); [intros [= _ <- <-]; apply moves_none|]. destruct (lo_new_owner op) eqn:Hn.
  - destruct (establish c ow fh lm sm) as [[s lm1] sm1] eqn:E. intros [= _ <- <-].
    pose proof E as E'. unfold establish in E'. pose proof (allocate_external TyLock c (Some fh) sm Hsid) as Hx.
    destruct (establish_within _ _ _ _ _ _ _ _ E) as (Hw & Hsm & _). right. split; [|done]. apply within_add; [|done].
    destruct (allocate TyLock c (Some fh) sm) as [s1 m1]. injection E' as <- <- <-. by apply register_spec.
  - destruct (trim_spec c ow fh (Range (lo_offset op) (lo_length op)) lm (Hbd eq_refl) Hi (lo_valid _ Hok) Hroom)
      as (Hti & _ & _ & _ & Hto & _).
    destruct (bump_stateid _ _ sm) as [s sm1] eqn:E. intros [= _ <- <-]. left. split; [|by eapply bump_moves, E; apply Ho].
    apply within_add; [done|]. intros k Hk [w Hw]. left. exists w. by rewrite <- Hto.
Qed.

Lemma for_owner_moves res lm' sm' : lock_for_owner op c fh lm sm = (res, lm', sm') -> lock_moves c fh lm sm lm' sm'.
Proof.
  unfold lock_for_owner. destruct (lo_new_owner op) eqn:Hn; [by apply grant_moves; rewrite Hn|].
  destruct (resolve_owner lm (lo_stateid op)) as [[c' ow]|] eqn:Hr; [|intros [= _ <- <-]; apply moves_none].
  destruct (c' =? c); [|intros [= _ <- <-]; apply moves_none]. apply grant_moves. intros _.
  by eapply resolve_owned; [apply Hok|].
Qed.

Lemma reclaim_moves l ow s lm' sm' : reclaim_reply l c ow fh lm sm = (s, lm', sm') -> lock_moves c fh lm sm lm' sm'.
Proof.
  unfold reclaim_reply. destruct (bool_decide _); [intros [= _ <- <-]; apply moves_none|].
  destruct (canonical_for_owner _ _ _ _) as [o|] eqn:Hc.
  - destruct (bump_stateid _ _ _) as [s1 sm1] eqn:E. intros [= _ <- <-]. left. split; [apply within_refl|].
    eapply bump_moves, E. simpl. apply head_Some_elem_of, list_elem_of_omap in Hc as ([k w] & Hk%elem_of_map_to_list & Hs).
    destruct (_ && _); [|done]. injection Hs as <-. by exists w.
  - intros (Hw & Hs & _)%establish_within. by right.
Qed.

Lemma lock_request_moves fd ig mx res lm' sm' : handle_lock op (Some fh) (Some c) fd ig mx lm sm = (res, lm', sm') ->
  lock_moves c fh lm sm lm' sm'.
Proof.
  unfold handle_lock. destruct (validate _ _); [|intros [= _ <- <-]; apply moves_none].
  destruct (validate_lock_range _ _); [|intros [= _ <- <-]; apply moves_none].
  destruct (_ && fd); [intros [= _ <- <-]; apply moves_none|]. destruct (lo_reclaim op).
  - destruct (negb ig); [intros [= _ <- <-]; apply moves_none|].
    destruct (find_matching _ _ _ _ _ _) as [l|]; [|apply for_owner_moves].
    destruct (reclaim_reply _ _ _ _ _ _) as [[s1 lm1] sm1] eqn:E. intros [= _ <- <-]. by eapply reclaim_moves.
  - repeat match goal with |- context [if ?b then (refuse _, lm, sm) else _] =>
      destruct b; [intros [= _ <- <-]; apply moves_none|] end. apply for_owner_moves.
Qed.

End lock_moves.

Lemma locku_moves op fh c lm sm st x lm' sm' : lock_ok lm -> bounded (Range (lu_offset op) (lu_length op)) -> trim_room lm fh ->
  handle_locku op (Some fh) (Some c) lm sm = (st, x, lm', sm') -> lock_moves c fh lm sm lm' sm'.
Proof.
  intros Hok Hbd Hroom. unfold handle_locku. pose proof (lo_inv _ Hok) as Hi.
  destruct (validate _ _); [|intros [= _ _ <- <-]; apply moves_none].
  destruct (resolve_owner lm (lu_stateid op)) as [[c' ow]|] eqn:Hr; [|intros [= _ _ <- <-]; apply moves_none].
  destruct (negb _); [intros [= _ _ <- <-]; apply moves_none|].
  destruct (validate_lock_range _ _); [|intros [= _ _ <- <-]; apply moves_none].
  destruct (trim_spec c' ow fh (Range (lu_offset op) (lu_length op)) lm Hbd Hi (lo_valid _ Hok) Hroom) as (_ & _ & _ & _ & Hto & _).
  destruct (bump_stateid _ _ _) as [s sm1] eqn:E. intros [= _ _ <- <-]. left.
  split; [|by eapply bump_moves, E; eapply resolve_owned].
  intros k Hk [w Hw]. left. exists w. by rewrite <- Hto.
Qed.
