(* ===== verification/ServerReach.v ===== *)
(** The server as a state machine: one request type for every client
    operation, recall step and housekeeping task that writes the server's
    NFSv4 state, and the proof that every state it reaches satisfies
    [server_ok]. *)

From S2P Require Import Prelude Xdr Session Lease Stateid StateidInv StateidProps Clients ClientsProps Delegs DelegsInv DelegsProps DelegsEvidence Locks LocksInv LocksProps StateManager StateManagerProps StateEvidence SessionOps SessionOpsProps Grants ServerInv.

(** ** Locks on the server *)
(** A stateid the lock table knows is not an open's. *)
Lemma owned_not_open s sid e : server_ok s -> owned (sv_locks s) sid -> states (sv_stateids s) !! sid = Some e -> en_type e <> TyOpen.
Proof.
  intros Hs [w Hw] He Ht. pose proof (ok_external s Hs sid e He Ht) as Hx.
  by destruct (ok_owner s Hs sid w Hx Hw) as [_ Ho]; apply (Ho e).
Qed.

Lemma moves_ok c fh lm' sm' s : server_ok s -> can_mint (sv_stateids s) -> sid_below (sv_stateids s) -> lock_ok lm' ->
  lock_moves c fh (sv_locks s) (sv_stateids s) lm' sm' -> server_ok (upd_locks lm' (upd_stateids sm' s)).
Proof.
  intros Hs Hm Hb Hl [[Hw Hsm]|[Hw ->]].
  - assert (H1 : server_ok (upd_stateids sm' s)).
    { destruct Hsm as [->|(x & Ho & ->)]; [by destruct s|]. apply (exec_stateids (OpUpdateSeqid x)); [done| |done].
      intros e He. by eapply owned_not_open. }
    apply with_locks; [done|done|]. intros k w Hk Hx. destruct (Hw k Hk ltac:(by exists w)) as [Ho|[]]. exact Ho.
  - pose proof (exec_stateids (OpAllocate TyLock c (Some fh)) s Hs ltac:(by split) ltac:(by split)) as H1. cbn [sid_exec] in H1.
    pose proof (ok_stateids s Hs) as [Hc _]. pose proof (low_range (sv_stateids s) c Hc) as Hlow.
    set (x := sid_other (allocate TyLock c (Some fh) (sv_stateids s)).1) in *.
    assert (Hx : minted (allocate TyLock c (Some fh) (sv_stateids s)).2 x /\
      forall e, states (allocate TyLock c (Some fh) (sv_stateids s)).2 !! x = Some e -> en_type e <> TyOpen).
    { split.
      - left. unfold x. simpl. rewrite counter_of, next_bump by done. pose proof (sc_next _ _ Hc). lia.
      - intros e. unfold x. simpl. rewrite lookup_insert_eq. by intros [= <-]. }
    pose proof (ok_owner _ H1) as Hown. destruct H1. split; try done; simpl; [|by apply (evident_frame s), Hs].
    intros k w Hk Hkw. destruct (Hw k Hk ltac:(by exists w)) as [[w' Hw']| ->]; [by apply (Hown k w')|done].
Qed.

(** ** Requests *)
Inductive server_request :=
| RExchange (max_clients : nat) (pnfs_ds : bool) (draws : list Z) (now : Z) (op : ExchangeIdOp) (principal : bytes) (gss : bool)
| RCreate (max_sessions : Z) (draws : list Z) (now : Z) (op : CreateSessionOp) (principal : bytes) (channel : bool) (minor : Z)
| RSequence (bound : bool) (op : SequenceOp) (t1 t2 t3 : Z)
| RDestroySession (id : Z)
| RDestroyClient (c : Z) (principal : bytes)
| ROpen (c : Z) (owner fh : bytes) (access deny : Z) (verifier : option Z) (ident : option (Z * Z))
| RDowngrade (sid : StateId) (access deny : Z)
| RClose (sid : StateId)
| RLock (op : LockOp) (fh : bytes) (c : Z) (fence grace : bool) (quota : Z)
| RLocku (op : LockUOp) (fh : bytes) (c : Z)
| RGrant (env : GrantEnv) (epoch now unix c access deny : Z) (claim : bool) (ident : option (Z * Z)) (path : option bytes) (fh : bytes)
| RDeleg (q : state_request)
| RSweep (now : Z).

Section server.
Context (L : Z).

Definition or_stay {A} (s : Server) (r : option (A * Server)) : Server := match r with Some (_, s') => s' | None => s end.

Definition server_exec (q : server_request) (s : Server) : Server :=
  match q with
  | RExchange mx ds draws now op pr gss => or_stay s (handle_exchange_id L mx ds draws now op pr gss s)
  | RCreate mx draws now op pr ch minor => or_stay s (handle_create_session mx draws now op pr ch minor s)
  | RSequence bound op t1 t2 t3 => (dispatch_sequence L bound op t1 t2 t3 s).2
  | RDestroySession id => (handle_destroy_session id s).2
  | RDestroyClient c pr => (destroy_clientid c pr s).2
  | ROpen c ow fh a d v i => upd_stateids (record_open c ow fh a d v i (sv_stateids s)).2 s
  | RDowngrade sid a d => upd_stateids (or_same (sv_stateids s) (downgrade_open sid a d (sv_stateids s)) snd) s
  | RClose sid => upd_stateids (close_open sid (sv_stateids s)).2 s
  | RLock op fh c fd ig mx =>
      let '(_, lm, sm) := handle_lock op (Some fh) (Some c) fd ig mx (sv_locks s) (sv_stateids s) in
      upd_locks lm (upd_stateids sm s)
  | RLocku op fh c =>
      let '(_, _, lm, sm) := handle_locku op (Some fh) (Some c) (sv_locks s) (sv_stateids s) in
      upd_locks lm (upd_stateids sm s)
  | RGrant env ep now unix c a d cl i p fh => (deleg_answer env ep now unix c a d cl i p fh s).2
  | RDeleg q => state_exec q s
  | RSweep now => (courtesy_release_expired now s).2
  end.

(** A request that mints a stateid finds ids left; lock ranges are u64s whose
    end does not overflow where they carve; a guard is dropped by its holder;
    clocks and epochs have their width. *)
Definition server_allowed (q : server_request) (s : Server) : Prop :=
  let mint := can_mint (sv_stateids s) /\ sid_below (sv_stateids s) in
  match q with
  | ROpen _ _ _ _ _ _ _ => mint
  | RLock op fh _ _ _ _ => mint /\ lock_request op fh (sv_locks s) (sv_stateids s)
  | RLocku op fh _ => mint /\ bounded (Range (lu_offset op) (lu_length op)) /\ trim_room (sv_locks s) fh
  | RGrant _ ep _ unix _ _ _ _ _ _ _ => mint /\ is_u32 ep /\ is_u64 unix
  | RDeleg q => state_allowed q s = true /\ grants q = false
  | _ => True
  end.

(** A server without state. *)
Definition server_new (owner : string) (scope : bytes) (start grace per global cool : Z) (trip ctrip : nat) : Server :=
  Srv (ClientManager_new owner scope ∅) SessionManager_new StateIdManager_new (LeaseManager_new start grace)
    (DelegationManager_with_limits per global cool trip ctrip) (LockManager_new ∅) ∅ ∅ ∅.

Inductive server_reach : Server -> Prop :=
| sr_new owner scope start grace per global cool trip ctrip : global <= u64_max ->
    server_reach (server_new owner scope start grace per global cool trip ctrip)
| sr_step q s : server_reach s -> server_allowed q s -> server_reach (server_exec q s).

Lemma new_ok owner scope start grace per global cool trip ctrip : global <= u64_max ->
  server_ok (server_new owner scope start grace per global cool trip ctrip).
Proof.
  intros Hg. pose proof (deleg_new_inv per global cool trip ctrip Hg) as Hd. split; simpl; try done.
  - apply new_inv.
  - apply (reach_inv _ reach_new).
  - apply new_lock_ok.
  - split; simpl; [done|done|..].
    + done.
    + intros c _ [? Hc]. done.
Qed.
End server.

Section reach.
Context (L : Z).

Lemma or_stay_ok {A} s (r : option (A * Server)) : server_ok s -> (forall a s', r = Some (a, s') -> server_ok s') ->
  server_ok (or_stay s r).
Proof. intros Hs H. destruct r as [[a s']|]; [by eapply H|done]. Qed.

Lemma answer_state env ep now unix c a d cl i p fh s :
  (deleg_answer env ep now unix c a d cl i p fh s).2 = (try_grant_read_delegation env ep now unix c a d cl i p fh s).2.
Proof. unfold deleg_answer. by destruct (try_grant_read_delegation _ _ _ _ _ _ _ _ _ _ _ _) as [[?|[?|]] ?]. Qed.

Lemma server_exec_ok q s : server_ok s -> server_allowed q s -> server_ok (server_exec L q s).
Proof.
  intros Hs Ha. destruct q; cbn [server_exec server_allowed] in *.
  - apply or_stay_ok; [done|]. intros res s'. by apply exchange_ok.
  - apply or_stay_ok; [done|]. intros res s'. by apply create_ok.
  - by apply dispatch_ok.
  - by apply destroy_session_ok.
  - by apply destroy_clientid_ok.
  - destruct Ha as [Hm Hb]. by apply (exec_stateids (OpRecordOpen c owner fh access deny verifier ident) s Hs).
  - by apply (exec_stateids (OpDowngrade sid access deny) s Hs I).
  - by apply (exec_stateids (OpClose sid) s Hs I).
  - destruct Ha as [[Hm Hb] Hq]. pose proof Hq as (H1 & H2 & H3 & H4 & H5).
    destruct (handle_lock _ _ _ _ _ _ _ _) as [[res lm] sm] eqn:E. pose proof (ok_locks s Hs) as Hl.
    apply (moves_ok c fh); [done|done|done| |by eapply lock_request_moves].
    by destruct (handle_lock_spec op fh c _ _ Hl H1 H2 H3 H4 H5 _ _ _ _ _ _ E).
  - destruct Ha as ([Hm Hb] & Hbd & Ht). pose proof (ok_locks s Hs) as Hl.
    destruct (handle_locku _ _ _ _ _) as [[[st x] lm] sm] eqn:E.
    apply (moves_ok c fh); [done|done|done| |by eapply locku_moves].
    by destruct (handle_locku_spec _ _ _ _ _ _ _ _ _ Hl Hbd Ht E).
  - destruct Ha as ([Hm _] & He & Hu). rewrite answer_state. by apply try_grant_ok.
  - destruct Ha. by apply state_exec_ok.
  - by apply sweep_ok.
Qed.

Lemma reach_server_ok s : server_reach L s -> server_ok s.
Proof. induction 1; [by apply new_ok|by apply server_exec_ok]. Qed.

End reach.
