(* ===== verification/ServerClaims.v ===== *)
(** What the server's NFSv4 state guarantees as a whole, over every sequence
    of requests of [ServerReach]: its tables agree, clients are admitted,
    replaced, swept and destroyed exactly, sessions are created once,
    delegations are granted only when safe, recalled within a bound, and
    revoked ones are announced. *)

From Stdlib Require Import String.
From S2P Require Import Prelude Xdr Session Lease Stateid StateidInv StateidProps Clients ClientsProps Delegs DelegsInv DelegsProps DelegsEvidence Locks LocksInv LocksProps StateManager StateManagerProps StateEvidence SessionOps SessionOpsProps Recall RecallProps Grants ServerInv ServerReach.

(** Facts about a concrete run, one evaluation each. *)
Definition answered {A} (o : option A) : bool := match o with Some _ => true | None => false end.
Lemma default_pair {A B} (d : A * B) o : answered o = true -> o = Some ((default d o).1, (default d o).2).
Proof. by destruct o as [[a b]|]. Qed.
Lemma default_triple {A B C} (d : A * B * C) o : answered o = true -> o = Some ((default d o).1.1, (default d o).1.2, (default d o).2).
Proof. by destruct o as [[[a b] c]|]. Qed.
Lemma default_one {A} (d : A) o : answered o = true -> o = Some (default d o).
Proof. by destruct o. Qed.

Ltac run_facts := repeat match goal with |- _ /\ _ => split end;
  lazymatch goal with
  | |- _ <> _ => vm_compute; congruence
  | |- ?o = Some (?x.1.1, _, _) => refine (default_triple _ o _ : o = Some (x.1.1, x.1.2, x.2)); vm_compute; reflexivity
  | |- ?o = Some (?x.1, _) => refine (default_pair _ o _ : o = Some (x.1, x.2)); vm_compute; reflexivity
  | |- _ => vm_compute; reflexivity
  end.

(** ** A worked history *)
Definition demo_attrs : ChannelAttrs := Attrs 0 4096 4096 2048 16 8 [].
Definition demo_env : GrantEnv := Env true true false false false None (Some {[Session.make_id 77 5 := 1%nat]}).
Definition xid_op (owner : bytes) (verifier : Z) : ExchangeIdOp := XidOp owner verifier 0 0 [].
Definition cs_op (c q : Z) : CreateSessionOp := CsOp c q 2 demo_attrs demo_attrs 1073741824 [CbSys 0 [] 0 0 []].
Definition demo_new : Server := server_new "flint" [1] 0 0 8 64 10 5 3.

(** Client 5 exchanges ids, makes a session, opens a file for reading and is
    granted a delegation. *)
Definition demo_requests : list server_request :=
  [RExchange 16 false [5] 0 (xid_op [1] 11) [9] false; RCreate 8 [77] 1 (cs_op 5 1) [9] true 1;
   RSequence true (SeqOp (Session.make_id 77 5) 1 0 true) 2 2 2;
   ROpen 5 [65] [1] 1 0 None (Some (8, 100));
   RGrant demo_env 3 4 100 5 1 0 true (Some (8, 100)) (Some [47]) [1]].
Definition demo_run (qs : list server_request) : Server := foldl (fun s q => server_exec 90 q s) demo_new qs.

Definition mint_okb (s : Server) : bool :=
  let m := sv_stateids s in
  (next_stateid m <? 2 ^ 64 - 1) && (negb (bool_decide (is_Some (stateid_tag m))) || (next_stateid m <? 2 ^ 32)) &&
  (next_stateid m <? ENTRY_PREFIX * 2 ^ 32).

Definition allowedb (q : server_request) (s : Server) : bool :=
  match q with
  | ROpen _ _ _ _ _ _ _ => mint_okb s
  | RLock _ _ _ _ _ _ | RLocku _ _ _ => false
  | RGrant _ ep _ unix _ _ _ _ _ _ _ => mint_okb s && (0 <=? ep) && (ep <=? u32_max) && (0 <=? unix) && (unix <=? u64_max)
  | RDeleg q => state_allowed q s && negb (grants q)
  | _ => true
  end.

Lemma mint_okb_spec s : mint_okb s = true -> can_mint (sv_stateids s) /\ sid_below (sv_stateids s).
Proof.
  unfold mint_okb, can_mint, sid_below. rewrite !andb_true_iff, orb_true_iff, negb_true_iff, bool_decide_eq_false, !Z.ltb_lt.
  intros [[? [?|?]] ?]; (split; [split|]); done.
Qed.

Lemma allowedb_spec q s : allowedb q s = true -> server_allowed q s.
Proof.
  destruct q; simpl; try done; [apply mint_okb_spec| |].
  - rewrite !andb_true_iff, !Z.leb_le. unfold is_u32, is_u64. intros [[[[Hm ?] ?] ?] ?]. split; [by apply mint_okb_spec|done].
  - by rewrite andb_true_iff, negb_true_iff.
Qed.

Fixpoint all_allowedb (qs : list server_request) (s : Server) : bool :=
  match qs with [] => true | q :: qs => allowedb q s && all_allowedb qs (server_exec 90 q s) end.

Lemma run_reach qs : forall s, server_reach 90 s -> all_allowedb qs s = true ->
  server_reach 90 (foldl (fun s q => server_exec 90 q s) s qs).
Proof.
  induction qs as [|q qs IH]; simpl; intros s Hs; [done|]. intros [H1 H2]%andb_prop.
  apply IH; [|done]. constructor; [done|by apply allowedb_spec].
Qed.

Lemma demo_run_reach qs : all_allowedb qs demo_new = true -> server_reach 90 (demo_run qs).
Proof. intros H. apply run_reach; [|done]. constructor. vm_compute. congruence. Qed.

Definition demo_server : Server := demo_run demo_requests.

Lemma demo_server_reach : server_reach 90 demo_server.
Proof. apply demo_run_reach. vm_compute. reflexivity. Qed.

(** ** The tables agree *)

(** C2: the server's tables agree, in every state a sequence of requests
    reaches in which a LOCK of an existing owner and a LOCKU only carry ranges
    whose end does not overflow (the one valid range this leaves out runs from
    a positive offset to the end of the file, where the code breaks exclusion:
    [trim_eof_locks_foreign_bytes]), the id counters have room for what a
    request mints, delegations are granted through OPEN only, a guard is
    dropped by its holder, and clocks and epochs have their width: sessions are listed under their clients, the stateid indices
    describe the same opens, client records and owners match, locks exclude
    each other and count right, the delegation table's own audit
    ([check_invariants]) finds nothing, no delegation record carries a stateid
    that was not minted, every holder of recallable state has its marker row
    on disk, and every client with a revoked delegation is announced. *)
Theorem server_invariant L s : server_reach L s ->
  mgr_inv (sv_sessions s) /\ sid_inv (sv_stateids s) /\ client_inv (sv_clients s) /\ lock_ok (sv_locks s) /\
  check_invariants (sv_delegs s) = [] /\
  (forall o i, by_stateid (sv_delegs s) !! o = Some i -> minted (sv_stateids s) o) /\ evident s /\ told s.
Proof.
  intros Hr%reach_server_ok. pose proof (inv_check _ (ev_inv _ (ok_evident s Hr))) as Hc. by destruct Hr.
Qed.

Lemma server_invariant_witness :
  check_invariants (sv_delegs demo_server) = [] /\ size (by_stateid (sv_delegs demo_server)) = 1%nat.
Proof.
  destruct (server_invariant 90 demo_server demo_server_reach) as (_ & _ & _ & _ & H & _). split; [exact H|].
  vm_compute. reflexivity.
Defined.

(** ** Clients *)
Lemma draw_finds t draws d : d ∈ draws -> d <> 0 -> t !! d = None -> is_Some (draw_client_id t draws).
Proof.
  intros Hd H0 Ht. induction draws as [|x draws IH]; [by apply elem_of_nil in Hd|]. simpl.
  destruct (negb (x =? 0) && bool_decide (t !! x = None)) eqn:E; [eauto|].
  apply elem_of_cons in Hd as [<-|Hd]; [|by apply IH].
  rewrite bool_decide_eq_true_2, (proj2 (Z.eqb_neq _ _)) in E by done. done.
Qed.

Lemma exchange_answers L draws now owner v fl pr m lm d : d ∈ draws -> d <> 0 -> clients m !! d = None ->
  is_Some (exchange_id L draws now owner v fl pr m lm).
Proof.
  intros Hd H0 Hm. assert (Hal : forall m' lm', clients m' !! d = None ->
    is_Some (allocate_client L draws now owner v fl pr m' lm')).
  { intros m' lm' Hf. unfold allocate_client. destruct (draw_finds (clients m') draws d Hd H0 Hf) as [x ->]. by eexists. }
  unfold exchange_id. destruct (negb _), (existing_client m owner) as [c|]; [|by eexists| |by apply Hal].
  - repeat match goal with |- is_Some (if ?b then _ else _) => destruct b end; by eexists.
  - destruct (negb (cl_confirmed c)).
    + destruct (remove_client (cl_id c) m lm) as [m1 lm1] eqn:Er. apply remove_record_spec in Er as (Hc & _).
      destruct (Hal m1 lm1) as [[[o m2] lm2] ->]; [rewrite Hc; by apply lookup_delete_None; right|by eexists].
    + destruct (negb _); [by eexists|]. destruct (_ =? _); [by eexists|]. unfold replace_when_confirmed.
      destruct (Hal m lm Hm) as [[[o m2] lm2] ->]. by eexists.
Qed.

(** EXCHANGE_ID's decision table.  Whenever the random draws contain a
    free id the request is answered, and the answer is the one the table
    prescribes: a confirmed record of the same verifier and principal is
    returned unchanged; an unconfirmed one is replaced; a confirmed one with a
    new verifier gets an unconfirmed successor that owes its cleanup, the
    incumbent untouched; another principal's is reported as a collision; an
    update is refused with NOENT, NOT_SAME or PERM; nothing else changes. *)
Theorem exchange_id_table L draws now owner v fl pr m lm d :
  d ∈ draws -> d <> 0 -> clients m !! d = None ->
  exists out m' lm', exchange_id L draws now owner v fl pr m lm = Some (out, m', lm') /\
    exchange_meaning owner v fl pr m out m'.
Proof.
  intros Hd H0 Hm. destruct (exchange_answers L draws now owner v fl pr m lm d Hd H0 Hm) as [[[out m'] lm'] He].
  exists out, m', lm'. split; [done|]. by eapply exchange_table.
Qed.

Lemma exchange_id_table_witness :
  exists out m' lm', exchange_id 90 [5; 0; 6] 3 [1] 12 0 [9] (sv_clients demo_server) (sv_leases demo_server) =
    Some (out, m', lm') /\ exchange_meaning [1] 12 0 [9] (sv_clients demo_server) out m'.
Proof. apply (exchange_id_table 90 _ _ _ _ _ _ _ _ 6); [set_solver|lia|vm_compute; reflexivity]. Defined.

(** What CREATE_SESSION's executing branch does to the client a confirmed
    record replaces. *)
Lemma execute_cascades mx draws now op pr hc minor s res s' new A : server_inv s -> client_inv (sv_clients s) ->
  clients (sv_clients s) !! cs_clientid op = Some new -> cl_confirmed new = false -> cl_pending new = Some A ->
  A <> cs_clientid op -> process_create_session_seq (sv_clients s) (cs_clientid op) (cs_sequence op) = CsExecute ->
  handle_create_session mx draws now op pr hc minor s = Some (res, s') -> csr_status res = NFS_Ok ->
  exists s1, without true [A] (upd_clients (mark_confirmed (cs_clientid op) (sv_clients s)).2 s) s1 /\
    make_session draws op hc minor s1 = Some (res, s').
Proof.
  intros Hi Hci Hc Hcf Hp HA Hx. unfold handle_create_session, get_client. rewrite Hc, Hx.
  destruct (mark_confirmed_spec _ _ _ Hc) as (c' & _ & _ & Hold). rewrite Hcf, Hp in Hold.
  pose proof (mark_confirmed_server s (cs_clientid op) Hci Hi) as Hi1.
  destruct (mark_confirmed (cs_clientid op) (sv_clients s)) as [old m]. simpl in Hold. subst old. cbn [snd] in Hi1.
  repeat match goal with |- (if ?b then Some (_, s) else _) = _ -> _ => destruct b; [by intros [= <- <-]|] end.
  destruct (_ <=? _); [by intros [= <- <-]|]. intros Hm _. exists (cascade_destroy_client A (upd_clients m s)).
  split; [|done]. by apply cascade_spec.
Qed.

Lemma make_session_frame draws op hc minor s res s' : make_session draws op hc minor s = Some (res, s') ->
  (sv_stateids s', sv_delegs s', sv_locks s') = (sv_stateids s, sv_delegs s, sv_locks s) /\
  (forall c, c <> cs_clientid op -> clients (sv_clients s') !! c = clients (sv_clients s) !! c).
Proof.
  unfold make_session. destruct (create_session _ _ _ _ _ _ _ _ _ _ _ _ _) as [[x sm]|]; [|done]. intros [= _ <-]. split; [done|].
  intros c Hc. simpl. unfold record_create_session_reply. simpl.
  destruct (clients (sv_clients s) !! cs_clientid op); [|done]. simpl. by rewrite lookup_insert_ne by done.
Qed.

(** A rebooted client's old state is cleaned up once and for all.  After
    EXCHANGE_ID with a new verifier, and any number of further ones from the
    rebooted client (trunking probes, each replacing the unconfirmed record),
    the current record still owes the cleanup of the old client, whose record
    is intact until then; the CREATE_SESSION that confirms it leaves the old
    client no record, stateid, open, delegation or lock. *)
Theorem reboot_cleanup_owed L s owner draws0 now0 v0 fl0 A out m1 lm1 reqs m2 lm2 :
  server_reach L s -> existing_client (sv_clients s) owner = Some A -> cl_confirmed A = true -> cl_verifier A <> v0 ->
  updates fl0 = false ->
  exchange_id L draws0 now0 owner v0 fl0 (cl_principal A) (sv_clients s) (sv_leases s) = Some (out, m1, lm1) ->
  Forall (fun r => updates r.1.2 = false) reqs -> probes L owner reqs m1 lm1 = Some (m2, lm2) ->
  let s2 := upd_leases lm2 (upd_clients m2 s) in
  clients m2 !! cl_id A = Some A /\
  exists new, existing_client m2 owner = Some new /\ cl_pending new = Some (cl_id A) /\
    forall mx draws now op pr hc minor res s', cs_clientid op = cl_id new ->
      process_create_session_seq m2 (cl_id new) (cs_sequence op) = CsExecute ->
      handle_create_session mx draws now op pr hc minor s2 = Some (res, s') -> csr_status res = NFS_Ok ->
      clients (sv_clients s') !! cl_id A = None /\
      (forall o e, states (sv_stateids s') !! o = Some e -> en_client e <> cl_id A) /\
      (forall k st, opened (sv_stateids s') k st -> k.1.1 <> cl_id A) /\
      (forall i r, r ∈ recs (sv_delegs s') i -> dr_client r <> cl_id A) /\
      (forall k l, lm_locks (sv_locks s') !! k = Some l -> lk_client l <> cl_id A).
Proof.
  intros Hr%reach_server_ok HA Hcf Hv Hup He Hups Hpr s2. pose proof (ok_clients s Hr) as Hci.
  pose proof (exchange_id_inv L _ _ _ _ _ _ _ _ _ _ _ Hci He) as Hc1.
  pose proof (reboot_owes L _ _ _ _ _ _ _ _ _ _ _ A Hci HA Hcf eq_refl Hv Hup He) as Ho.
  destruct (probes_owe L owner A reqs m1 lm1 m2 lm2 Hc1 Ho Hups Hpr) as [Hc2 (HA2 & new & Hn & Hncf & Hp & Hne)].
  split; [done|]. exists new. split_and!; [done|done|]. intros mx draws now op pr hc minor res s' Hid Hx Hcs Hok.
  pose proof (with_clients m2 lm2 s Hr Hc2) as Hs2. fold s2 in Hs2.
  destruct (existing_id m2 owner new Hc2 Hn) as [Hcl _].
  destruct (execute_cascades mx draws now op pr hc minor s2 res s' new (cl_id A)) as (s3 & Hw & Hms);
    [by apply ok_inv|done|by rewrite Hid|done|done|by rewrite Hid|by rewrite Hid|done|done|].
  destruct (make_session_frame _ _ _ _ _ _ _ Hms) as [[= H1 H2 H3] H4]. destruct Hw as [_ Hst Hop Hcl' _ Hdl Hlk].
  rewrite H1, H2, H3. split_and!.
  - rewrite H4 by (by rewrite Hid). rewrite Hcl'. by rewrite decide_True by set_solver.
  - intros o e [_ H]%Hst. set_solver.
  - intros k st [_ H]%Hop. set_solver.
  - intros i r [_ H]%Hdl. set_solver.
  - intros k l [_ H]%Hlk. specialize (H eq_refl). set_solver.
Qed.

(** Client 5 reboots: two EXCHANGE_IDs with new verifiers, then
    CREATE_SESSION. *)
Definition old_client : Client := default (Client_new 0 [] 0 ""%string [] 0 []) (existing_client (sv_clients demo_server) [1]).
Definition reboot1 : ExchangeIdOutcome * ClientManager * LeaseManager :=
  default (NoEnt, sv_clients demo_server, sv_leases demo_server)
    (exchange_id 90 [6] 5 [1] 12 0 (cl_principal old_client) (sv_clients demo_server) (sv_leases demo_server)).
Definition reboot2 : ClientManager * LeaseManager :=
  default (sv_clients demo_server, sv_leases demo_server) (probes 90 [1] [([7], 6, 13, 0, [9])] reboot1.1.2 reboot1.2).
Definition rebooted : Server := upd_leases reboot2.2 (upd_clients reboot2.1 demo_server).
Definition reborn : CreateSessionRes * Server :=
  default (create_session_err NFS_Inval, rebooted) (handle_create_session 8 [78] 7 (cs_op 7 1) [9] true 1 rebooted).

Lemma reboot_facts :
  (existing_client (sv_clients demo_server) [1] = Some old_client /\ cl_confirmed old_client = true /\ cl_verifier old_client <> 12) /\
  exchange_id 90 [6] 5 [1] 12 0 (cl_principal old_client) (sv_clients demo_server) (sv_leases demo_server) =
    Some (reboot1.1.1, reboot1.1.2, reboot1.2) /\
  probes 90 [1] [([7], 6, 13, 0, [9])] reboot1.1.2 reboot1.2 = Some (reboot2.1, reboot2.2) /\
  (cl_id old_client = 5 /\ cl_id <$> existing_client reboot2.1 [1] = Some 7) /\
  process_create_session_seq reboot2.1 7 (cs_sequence (cs_op 7 1)) = CsExecute /\
  handle_create_session 8 [78] 7 (cs_op 7 1) [9] true 1 rebooted = Some (reborn.1, reborn.2) /\
  csr_status reborn.1 = NFS_Ok /\ size (open_states (sv_stateids rebooted)) = 1%nat.
Proof. run_facts. Qed.

Lemma reboot_cleanup_owed_witness :
  clients (sv_clients reborn.2) !! 5 = None /\ (forall k st, opened (sv_stateids reborn.2) k st -> k.1.1 <> 5) /\
  size (open_states (sv_stateids rebooted)) = 1%nat.
Proof.
  destruct reboot_facts as ((HA & Hcf & Hv) & He & Hp & (H5 & H7) & Hx & Hb & Hok & Hne).
  destruct (reboot_cleanup_owed 90 demo_server [1] [6] 5 12 0 old_client reboot1.1.1 reboot1.1.2 reboot1.2
    [([7], 6, 13, 0, [9])] reboot2.1 reboot2.2 demo_server_reach HA Hcf Hv eq_refl He
    ltac:(by repeat constructor) Hp) as (_ & new & Hnew & _ & H).
  rewrite Hnew in H7. injection H7 as H7. rewrite H5, H7 in H.
  destruct (H 8 [78] 7 (cs_op 7 1) [9] true 1 reborn.1 reborn.2 eq_refl Hx Hb Hok) as (H1 & _ & H2 & _).
  exact (conj H1 (conj H2 Hne)).
Defined.

(** ** Sessions *)

(** CREATE_SESSION executes once.  A CREATE_SESSION that succeeded, sent
    again while the lease is valid, returns the same reply and changes
    nothing (back-channel padding aside, see [plain_back]); and along any
    CREATE_SESSION traffic on a clientid the executed sequence ids are
    consecutive. *)
Theorem create_session_once L mx draws now op pr hc minor s res s' :
  server_reach L s -> plain_back op ->
  (forall c, clients (sv_clients s) !! cs_clientid op = Some c -> cl_pending c <> Some (cs_clientid op)) ->
  handle_create_session mx draws now op pr hc minor s = Some (res, s') -> csr_status res = NFS_Ok ->
  (forall draws' now' hc' minor', is_valid (sv_leases s') (cs_clientid op) now' = true ->
    handle_create_session mx draws' now' op pr hc' minor' s' = Some (res, s')) /\
  (forall reqs c, clients (sv_clients s') !! cs_clientid op = Some c ->
    exists n, cs_executed (cs_serve (cs_clientid op) reqs (sv_clients s')).1 = seq_from (next_cs_sequence c) n).
Proof.
  intros Hr%reach_server_ok Hpl Hpd He Hok. split.
  - intros d' n' h' m'. apply (create_session_replay mx draws now op pr hc minor s res s'); try done. by apply ok_inv.
  - intros reqs c Hc. by apply cs_serve_consecutive.
Qed.

Definition demo_second : CreateSessionRes * Server :=
  default (create_session_err NFS_Inval, demo_server) (handle_create_session 8 [90] 9 (cs_op 5 2) [9] true 1 demo_server).

Lemma second_facts :
  (forall c, clients (sv_clients demo_server) !! 5 = Some c -> cl_pending c <> Some 5) /\
  handle_create_session 8 [90] 9 (cs_op 5 2) [9] true 1 demo_server = Some (demo_second.1, demo_second.2) /\
  csr_status demo_second.1 = NFS_Ok /\ is_valid (sv_leases demo_second.2) 5 20 = true.
Proof. split; [|vm_compute; split_and!; congruence]. intros c Hc. vm_compute in Hc. injection Hc as <-. by simpl. Qed.

Lemma create_session_once_witness :
  handle_create_session 8 [91; 92] 20 (cs_op 5 2) [9] true 1 demo_second.2 = Some (demo_second.1, demo_second.2).
Proof.
  destruct second_facts as (Hp & He & Hok & Hv).
  destruct (create_session_once 90 8 [90] 9 (cs_op 5 2) [9] true 1 demo_server demo_second.1 demo_second.2
    demo_server_reach (conj eq_refl eq_refl) Hp He Hok) as [H _].
  exact (H [91; 92] 20 true 1 Hv).
Defined.

(** ** Delegations *)
Lemma paused_table c now unix m : let m' := (grants_paused c now unix m).2 in
  (forall i, entry_of m' i = entry_of m i) /\ by_stateid m' = by_stateid m.
Proof.
  destruct (paused_shape c now unix m) as (Hf & [= Hb] & _). split; [|done]. intros i. unfold entry_of. by rewrite Hf.
Qed.

Lemma do_table {A} (f : DelegationManager -> A * DelegationManager) s : let s' := (deleg_do f s).2 in
  forall i, entry_of (sv_delegs s') i = entry_of (f (sv_delegs s)).2 i.
Proof. unfold deleg_do. by destruct (f (sv_delegs s)) as [a d]. Qed.

(** What a granted OPEN has found and done, from the state the rules left. *)
Lemma grant_checked_spec env ep now c i p fh s sid s' : server_ok s -> can_mint (sv_stateids s) -> is_u32 ep ->
  grant_checked env ep now c i p fh s = (Ok sid, s') ->
  file_has_write_open (sv_stateids s) i.1 i.2 = false /\ write_layout_held_by_other env p c = false /\
  grantable i c now (sv_delegs s) /\
  by_stateid (sv_delegs s) !! sid_other sid = None /\ states (sv_stateids s) !! sid_other sid = None /\
  recs (sv_delegs s') i = recs (sv_delegs s) i ++ [DelegRec sid c fh i p Granted now None None false] /\
  states (sv_stateids s') !! sid_other sid = Some (Entry_new sid TyDelegation c (Some fh)) /\
  sid_seqid sid = 1 /\ sv_stateids s' = (allocate_delegation ep c fh (sv_stateids s)).2.
Proof.
  intros Hs Hm Hep. unfold grant_checked. set (pre := negb _ && negb _).
  pose proof (grant_fresh ep Hep c fh s Hs Hm) as Hfr. pose proof (proj1 (ok_stateids s Hs)) as Hc.
  destruct (delegation_fresh ep c fh (sv_stateids s) Hep Hc Hm) as [Hnm _].
  assert (Hent : let r := allocate_delegation ep c fh (sv_stateids s) in
    sid_seqid r.1 = 1 /\ states r.2 !! sid_other r.1 = Some (Entry_new r.1 TyDelegation c (Some fh))).
  { unfold allocate_delegation. simpl. split; [done|]. by rewrite lookup_insert_eq. }
  destruct (allocate_delegation ep c fh (sv_stateids s)) as [x m]. cbn [fst snd] in *.
  pose proof (try_grant_spec i c fh p now pre x (sv_delegs s) (ev_inv _ (ok_evident s Hs)) Hfr) as Ht.
  pose proof (do_table (try_grant i c fh p now pre x) s i) as Hd.
  assert (Hfst : (deleg_do (try_grant i c fh p now pre x) s).1 = (try_grant i c fh p now pre x (sv_delegs s)).1)
    by (unfold deleg_do; by destruct (try_grant _ _ _ _ _ _ _ _)).
  destruct (deleg_do (try_grant i c fh p now pre x) s) as [r s1]. cbn [fst snd] in *.
  destruct (try_grant i c fh p now pre x (sv_delegs s)) as [r' d]. cbn [fst snd] in *. subst r'.
  destruct r as [sid'|]; [|done]. intros [= <- <-]. destruct Ht as (-> & Hg & Hpre & _ & Hrec & _).
  unfold pre in Hpre. apply andb_prop in Hpre as [?%negb_true_iff ?%negb_true_iff]. destruct Hent as [Hq He].
  split_and!; try done.
  - destruct (states (sv_stateids s) !! _) as [e|] eqn:E; [|done]. by apply (sc_minted _ _ Hc) in E.
  - unfold recs in *. simpl. by rewrite Hd.
Qed.

(** A granted OPEN went through every rule, and the breaker's consult before
    the last ones changed no table. *)
Lemma answer_granted env ep now unix c acc deny cl ident path fh s sid s' : server_ok s -> is_u64 unix ->
  deleg_answer env ep now unix c acc deny cl ident path fh s = (Some (DelegRead sid), s') ->
  exists i p s1, ident = Some i /\ path = Some p /\ server_ok s1 /\ sv_stateids s1 = sv_stateids s /\
    (forall j, entry_of (sv_delegs s1) j = entry_of (sv_delegs s) j) /\ by_stateid (sv_delegs s1) = by_stateid (sv_delegs s) /\
    ge_enabled env = true /\ ge_spawner env = true /\ Z.land acc 3 = 1 /\ deny = 0 /\ callback_ready env s1 c = true /\
    sv_sessions s1 = sv_sessions s /\ grant_checked env ep now c i p fh s1 = (Ok sid, s').
Proof.
  intros Hs Hu. unfold deleg_answer.
  assert (Hin : try_grant_read_delegation env ep now unix c acc deny cl ident path fh s = (Ok sid, s') -> exists i p s1,
    ident = Some i /\ path = Some p /\ server_ok s1 /\ sv_stateids s1 = sv_stateids s /\
    (forall j, entry_of (sv_delegs s1) j = entry_of (sv_delegs s) j) /\ by_stateid (sv_delegs s1) = by_stateid (sv_delegs s) /\
    ge_enabled env = true /\ ge_spawner env = true /\ Z.land acc 3 = 1 /\ deny = 0 /\ callback_ready env s1 c = true /\
    sv_sessions s1 = sv_sessions s /\ grant_checked env ep now c i p fh s1 = (Ok sid, s')).
  { unfold try_grant_read_delegation. destruct (ge_enabled env); [|done]. destruct (_ =? 1024); [done|].
    destruct (_ =? 1280); [done|]. destruct (ge_spawner env); [|done]. destruct (_ && _); [done|].
    assert (H1 : server_ok (deleg_do (grants_paused c now unix) s).2)
      by (apply do_ok; [done|by apply paused_keeps; [|apply Hs|apply Hs]|by rewrite paused_index]).
    destruct (deleg_do_frame (grants_paused c now unix) s) as ([= Hse Hst _ _] & Hb & _).
    destruct (paused_table c now unix (sv_delegs s)) as [Ht Hb']. pose proof (do_table (grants_paused c now unix) s) as Hd.
    destruct (deleg_do (grants_paused c now unix) s) as [pz s1]. cbn [snd] in *.
    destruct pz; [done|]. destruct (ge_sentinel env); [done|]. destruct (_ && _); [done|]. destruct (negb cl); [done|].
    destruct (Z.land acc 3 =? 1) eqn:Ha; [|done]. destruct (deny =? 0) eqn:Hdn; [|done]. simpl.
    destruct (callback_ready env s1 c) eqn:Hcb; [|done]. destruct ident as [i|]; [|done]. destruct path as [p|]; [|done].
    intros Hg. bool_Z. exists i, p, s1. split_and!; try done; [intros j; by rewrite Hd, Ht|by rewrite Hb, Hb']. }
  destruct (try_grant_read_delegation _ _ _ _ _ _ _ _ _ _ _ _) as [[x|[?|]] s2]; [|by destruct (negb _)|done].
  intros [= -> ->]. by apply Hin.
Qed.


Definition demo_before_grant : Server := demo_run (take 4 demo_requests).
Definition demo_answer : option Delegation * Server :=
  deleg_answer demo_env 3 4 100 5 1 0 true (Some (8, 100)) (Some [47]) [1] demo_before_grant.
Definition demo_sid : StateId := match demo_answer.1 with Some (DelegRead x) => x | _ => Sid 0 0 end.

Lemma answer_facts : all_allowedb (take 4 demo_requests) demo_new = true /\ mint_okb demo_before_grant = true /\
  deleg_answer demo_env 3 4 100 5 1 0 true (Some (8, 100)) (Some [47]) [1] demo_before_grant =
    (Some (DelegRead demo_sid), demo_answer.2).
Proof. run_facts. Qed.

Lemma small_u32 : is_u32 3.
Proof. vm_compute. split; congruence. Qed.
Lemma small_u64 : is_u64 100.
Proof. vm_compute. split; congruence. Qed.


(** A returned delegation is not forgotten.  DELEGRETURN removes the
    delegation's record but not its stateid: after a grant and its successful
    return the stateid still validates, and DESTROY_CLIENTID refuses the
    client, whatever else it has given up, as long as nothing removes that
    stateid. *)
Theorem returned_delegation_blocks_destroy L env ep now unix c acc deny cl ident path fh s sid s1 now' s2 pr :
  server_reach L s -> can_mint (sv_stateids s) -> is_u32 ep -> is_u64 unix ->
  deleg_answer env ep now unix c acc deny cl ident path fh s = (Some (DelegRead sid), s1) ->
  handle_delegreturn sid now' s1 = (NFS_Ok, s2) ->
  validate (sv_stateids s2) sid = Ok tt /\ (destroy_clientid c pr s2).1 <> NFS_Ok.
Proof.
  intros Hr%reach_server_ok Hm Hep Hu Ha Hret.
  destruct (answer_granted _ _ _ _ _ _ _ _ _ _ _ _ _ _ Hr Hu Ha)
    as (i & p & s0 & -> & -> & H0 & Hst & _ & _ & _ & _ & _ & _ & _ & _ & Hg).
  pose proof (grant_checked_ok env ep now Hep c i p fh s0 H0 ltac:(by rewrite Hst)) as H1. rewrite Hg in H1. cbn [snd] in H1.
  destruct (grant_checked_spec env ep now c i p fh s0 sid s1 H0 ltac:(by rewrite Hst) Hep Hg) as (_ & _ & _ & _ & _ & _ & He & Hq & _).
  assert (Hs2 : sv_stateids s2 = sv_stateids s1).
  { revert Hret. unfold handle_delegreturn. destruct (deleg_do_frame (return_delegation sid now') s1) as ([= _ H _ _] & _ & _).
    destruct (deleg_do (return_delegation sid now') s1) as [[x|[]] s3]; by intros [= <-]. }
  rewrite Hs2. split.
  - unfold validate. destruct (is_special sid); [done|]. rewrite He. simpl. rewrite Hq. done.
  - unfold destroy_clientid. destruct (bool_decide _); [done|]. destruct (wrong_mach_cred _ _ _); [done|].
    destruct (negb _); [done|]. unfold count_for_client. rewrite Hs2.
    assert (Hin : sid_other sid ∈ listed (sv_stateids s1) c) by (apply (sc_clients _ _ (proj1 (ok_stateids s1 H1))); by eexists).
    unfold listed in Hin. destruct (default [] (client_states (sv_stateids s1) !! c)); [by apply elem_of_nil in Hin|done].
Qed.

Definition demo_returned : Nfs4Status * Server := handle_delegreturn demo_sid 9 demo_answer.2.
(** Client 5 has given everything back: its delegation, its open and its
    session. *)
Definition demo_left : Server :=
  server_exec 90 (RDestroySession (Session.make_id 77 5)) (server_exec 90 (RClose (Sid 1 (1 * 2 ^ 32 + 5))) demo_returned.2).

Lemma returned_facts : handle_delegreturn demo_sid 9 demo_answer.2 = (NFS_Ok, demo_returned.2) /\
  size (by_stateid (sv_delegs demo_left)) = 0%nat /\ size (open_states (sv_stateids demo_left)) = 0%nat /\
  get_client_sessions (sv_sessions demo_left) 5 = [] /\ (destroy_clientid 5 [9] demo_left).1 = NFS_ClientIdBusy.
Proof. run_facts. Qed.

Lemma returned_delegation_blocks_destroy_witness :
  (validate (sv_stateids demo_returned.2) demo_sid = Ok tt /\ (destroy_clientid 5 [9] demo_returned.2).1 <> NFS_Ok) /\
  (size (open_states (sv_stateids demo_left)) = 0%nat /\ (destroy_clientid 5 [9] demo_left).1 = NFS_ClientIdBusy).
Proof.
  destruct answer_facts as (Hr & Hm & Ha). destruct returned_facts as (Hret & _ & Ho & _ & Hb).
  exact (conj (returned_delegation_blocks_destroy 90 demo_env 3 4 100 5 1 0 true (Some (8, 100)) (Some [47]) [1]
    demo_before_grant demo_sid demo_answer.2 9 demo_returned.2 [9]
    (demo_run_reach _ Hr) (proj1 (mint_okb_spec _ Hm)) small_u32 small_u64 Ha Hret) (conj Ho Hb)).
Defined.

(** C19: the fence excludes.  In every interleaving of grants, fences, recalls,
    returns, revocations and teardowns: as long as a mutation holds a guard on
    a file, no grant on it succeeds; and when a guard with the exclusivity
    check armed is released, no other client's delegation of the file is
    live, so the release assertion never fires. *)
Theorem fence_exclusive per global cool trip ctrip S :
  global <= u64_max -> deleg_reach per global cool trip ctrip S ->
  (forall g, g ∈ guards_of S -> forall c fh path now pre sid sid' m', by_stateid (ds_mgr S) !! sid_other sid = None ->
    try_grant (mg_ident g) c fh path now pre sid (ds_mgr S) <> (Ok sid', m')) /\
  (forall g, g ∈ ds_armed S -> foreign_live_at_release g (entry_of (ds_mgr S) (mg_ident g)) = None).
Proof.
  intros Hg Hr. pose proof (deleg_reach_ok _ _ _ _ _ _ Hg Hr) as Hok. split.
  - intros g Hin c fh path now pre sid sid' m' Hf He. pose proof (held_counts S g Hok Hin) as Hpos.
    pose proof (try_grant_spec (mg_ident g) c fh path now pre sid (ds_mgr S) (so_inv _ Hok) Hf) as Hs.
    rewrite He in Hs. destruct Hs as (_ & [Hz _ _ _ _] & _). lia.
  - intros g Hin. apply quiet_release, owed_nil, so_quiet; done.
Qed.

(** Client 7 holds a delegation with a lapsed lease, client 9 mutates the
    file. *)
Definition demo_deleg_run : deleg_sys :=
  foldl (fun S q => deleg_exec q S) (DSys (DelegationManager_with_limits 8 64 10 5 3) [] [])
    [DGrant (8, 100) 7 [1] [47] 0 true (Sid 1 50); DFence (8, 100) (Some 9) false 3 (fun _ => true); DExpire 0 4; DSettle 0].

Lemma demo_deleg_reach : deleg_reach 8 64 10 5 3 demo_deleg_run.
Proof. do 4 (apply (dreach_step _ _ _ _ _ _ _); [|vm_compute; reflexivity]). constructor. Qed.

Lemma fence_exclusive_witness :
  ds_armed demo_deleg_run <> [] /\
  (forall g, g ∈ ds_armed demo_deleg_run -> foreign_live_at_release g (entry_of (ds_mgr demo_deleg_run) (mg_ident g)) = None).
Proof.
  split; [vm_compute; congruence|].
  apply (fence_exclusive 8 64 10 5 3 demo_deleg_run); [vm_compute; congruence|apply demo_deleg_reach].
Defined.

(** ** Leaving *)

(** The courtesy sweep is exact.  It takes out precisely the clients
    whose leases have lapsed, from every table at once (sessions, stateids,
    opens, the record with its lease, delegations, locks), leaves everything of every
    other client as it was, and answers how many it took. *)
Theorem sweep_exact_clients L s now : server_reach L s ->
  let expired := get_expired_clients (sv_leases s) now in
  let s' := (courtesy_release_expired now s).2 in
  without true expired s s' /\ (courtesy_release_expired now s).1 = length expired /\
  (forall c, c ∈ expired <-> exists l, leases (sv_leases s) !! c = Some l /\ expires_at l < now).
Proof.
  intros Hr%reach_server_ok expired s'. destruct (courtesy_spec now s (ok_inv s Hr)) as (_ & Hw & Hn).
  split_and!; [done|done|]. intros c. unfold expired. by apply elem_of_expired.
Qed.

Lemma sweep_exact_clients_witness :
  without true (get_expired_clients (sv_leases demo_server) 95) demo_server (courtesy_release_expired 95 demo_server).2 /\
  get_expired_clients (sv_leases demo_server) 95 = [5].
Proof.
  split; [|vm_compute; reflexivity]. destruct (sweep_exact_clients 90 demo_server 95 demo_server_reach) as [H _]. exact H.
Defined.

(** A client nothing belongs to passes every check. *)
Lemma destroy_unused c pr s : server_ok s -> is_Some (clients (sv_clients s) !! c) -> wrong_mach_cred s c pr = false ->
  (forall i x, sessions (sv_sessions s) !! i = Some x -> client_id x <> c) ->
  (forall o e, states (sv_stateids s) !! o = Some e -> en_client e <> c) ->
  (forall i r, r ∈ recs (sv_delegs s) i -> dr_client r <> c) ->
  (forall k l, lm_locks (sv_locks s) !! k = Some l -> lk_client l <> c) -> (destroy_clientid c pr s).1 = NFS_Ok.
Proof.
  intros Hs [x Hc] Hw Hse Hst Hd Hl. unfold destroy_clientid, get_client. rewrite bool_decide_eq_false_2 by congruence.
  rewrite Hw. assert (get_client_sessions (sv_sessions s) c = []) as ->.
  { destruct (get_client_sessions (sv_sessions s) c) as [|i l] eqn:E; [done|]. exfalso.
    destruct (mi_live _ (ok_sessions s Hs) c i) as (y & Hy & <-); [rewrite E; apply list_elem_of_here|]. by eapply Hse. }
  rewrite bool_decide_eq_true_2 by done. simpl. assert (count_for_client (sv_stateids s) c = 0%nat) as ->.
  { unfold count_for_client. destruct (default [] (client_states (sv_stateids s) !! c)) as [|o l] eqn:E; [done|]. exfalso.
    destruct (proj1 (sc_clients _ _ (proj1 (ok_stateids s Hs)) c o)) as (e & He & <-);
      [unfold listed; rewrite E; apply list_elem_of_here|]. by eapply Hst. }
  assert (lock_count_for_client (sv_locks s) c = 0) as ->.
  { rewrite (li_counts _ (lo_inv _ (ok_locks s Hs))). assert (client_locks (sv_locks s) c = ∅) as ->; [|done].
    apply map_eq. intros k. rewrite lookup_empty. apply map_lookup_filter_None. right. intros l Hk. simpl. by eapply Hl. }
  assert (deleg_count_for_client (sv_delegs s) c = 0%nat) as ->; [|done].
  unfold deleg_count_for_client. destruct (default [] (by_client (sv_delegs s) !! c)) as [|o l] eqn:E; [done|]. exfalso.
  destruct (proj1 (di_client _ _ (ev_inv _ (ok_evident s Hs)) c o ltac:(done))) as (r & Hr & _ & Hrc);
    [unfold clist; rewrite E; apply list_elem_of_here|].
  apply elem_all_entry in Hr as [i Hr]. by eapply Hd.
Qed.

(** DESTROY_CLIENTID destroys only what is unused.  It succeeds exactly on
    a known client, named by the right principal, that no session, stateid,
    delegation or lock belongs to, and then only the record and the lease go;
    otherwise nothing changes. *)
Theorem destroy_clientid_exact L s c pr st s' : server_reach L s -> destroy_clientid c pr s = (st, s') ->
  (st = NFS_Ok <-> is_Some (clients (sv_clients s) !! c) /\ wrong_mach_cred s c pr = false /\
    (forall i x, sessions (sv_sessions s) !! i = Some x -> client_id x <> c) /\
    (forall o e, states (sv_stateids s) !! o = Some e -> en_client e <> c) /\
    (forall i r, r ∈ recs (sv_delegs s) i -> dr_client r <> c) /\
    (forall k l, lm_locks (sv_locks s) !! k = Some l -> lk_client l <> c)) /\
  (st = NFS_Ok -> clients (sv_clients s') = delete c (clients (sv_clients s)) /\
    leases (sv_leases s') = delete c (leases (sv_leases s)) /\
    (sv_sessions s', sv_stateids s', sv_delegs s', sv_locks s') = (sv_sessions s, sv_stateids s, sv_delegs s, sv_locks s)) /\
  (st <> NFS_Ok -> s' = s).
Proof.
  intros Hr%reach_server_ok He. destruct (destroy_clientid_spec c pr s st s' (ok_inv s Hr) He)
    as [[Hne ->]|(-> & _ & H1 & H2 & H3 & H4 & H5 & H6 & H7 & H8 & H9)].
  - split_and!; [|done|done]. split; [done|]. intros (Hc & Hw & Hse & Hst & Hd & Hl). exfalso. apply Hne.
    by rewrite <- (destroy_unused c pr s Hr Hc Hw Hse Hst Hd Hl), He.
  - split_and!; [split; [done|]|done|done]. by intros _.
Qed.

(** Client 5 has closed its file and destroyed its session, and never held a
    delegation. *)
Definition demo_unused : Server :=
  demo_run (take 4 demo_requests ++ [RClose (Sid 1 (1 * 2 ^ 32 + 5)); RDestroySession (Session.make_id 77 5)]).

Lemma unused_facts : all_allowedb (take 4 demo_requests ++ [RClose (Sid 1 (1 * 2 ^ 32 + 5)); RDestroySession (Session.make_id 77 5)]) demo_new = true /\
  destroy_clientid 5 [9] demo_unused = (NFS_Ok, (destroy_clientid 5 [9] demo_unused).2).
Proof. vm_compute. split; congruence. Qed.

Lemma destroy_clientid_exact_witness :
  clients (sv_clients (destroy_clientid 5 [9] demo_unused).2) = delete 5 (clients (sv_clients demo_unused)).
Proof.
  destruct unused_facts as [Hr He].
  destruct (destroy_clientid_exact 90 demo_unused 5 [9] NFS_Ok (destroy_clientid 5 [9] demo_unused).2 (demo_run_reach _ Hr) He)
    as (_ & H & _). exact (proj1 (H eq_refl)).
Defined.

(** ** Recallable state survives a restart and revocations are announced *)

(** Holder evidence.  In every reachable state a client that holds a
    delegation or has a revoked one has its marker row on disk; and a restart
    that loads the rows comes up with that client's SEQ4 bit raised and
    armed, so its first SEQUENCE reply tells it that recallable state was
    lost. *)
Theorem holder_evidence L s c : server_reach L s -> is_u64 c -> client_holds_live (sv_delegs s) c || client_has_revoked (sv_delegs s) c = true ->
  sv_markers s !! marker_other c = Some (marker_record (marker_other c) c) /\
  forall now unix lost cl se rows fresh, (map_to_list (sv_markers s)).*2 ⊆ rows ->
    let s' := load_from_backend L now unix lost cl se rows fresh in
    bit_up s' c = true /\ sv_armed s' !! c = Some None.
Proof.
  intros Hr%reach_server_ok Hu Hh. pose proof (ev_rows s (ok_evident s Hr) c Hu Hh) as Hrow. split; [done|].
  intros now unix lost cl se rows fresh Hsub. apply load_armed; [done|]. apply Hsub, list_elem_of_fmap.
  exists (marker_other c, marker_record (marker_other c) c). split; [done|]. by apply elem_of_map_to_list.
Qed.

Definition demo_reload : Server := load_from_backend 90 200 300 false [] [] (map_to_list (sv_markers demo_server)).*2 demo_new.

Lemma holder_evidence_witness :
  sv_markers demo_server !! marker_other 5 = Some (marker_record (marker_other 5) 5) /\ bit_up demo_reload 5 = true.
Proof.
  assert (Hh : client_holds_live (sv_delegs demo_server) 5 || client_has_revoked (sv_delegs demo_server) 5 = true)
    by (vm_compute; reflexivity).
  assert (Hu : is_u64 5) by (vm_compute; split; congruence).
  destruct (holder_evidence 90 demo_server 5 demo_server_reach Hu Hh) as [H1 H2].
  exact (conj H1 (proj1 (H2 200 300 false [] [] (map_to_list (sv_markers demo_server)).*2 demo_new (reflexivity _)))).
Defined.

(** Revocations are announced.  In every reachable state, a SEQUENCE the
    dispatcher accepts for a client with a revoked delegation carries
    SEQ4_STATUS_RECALLABLE_STATE_REVOKED. *)
Theorem revocation_announced L s bound op t1 t2 t3 res h fl s' x :
  server_reach L s -> dispatch_sequence L bound op t1 t2 t3 s = (res, h, Some fl, s') ->
  get_session (sv_sessions s) (so_sessionid op) = Some x -> client_has_revoked (sv_delegs s) (client_id x) = true ->
  Z.testbit fl 6 = true.
Proof. intros Hr%reach_server_ok. apply dispatch_told; apply Hr. Qed.

(** Another client's write fences the file of client 5's delegation after
    client 5's lease has lapsed: the delegation is revoked. *)
Definition demo_fenced_requests : list server_request := demo_requests ++ [RDeleg (SFence true true (8, 100) (Some 9) false 93)].
Definition demo_revoked : Server := demo_run demo_fenced_requests.
Definition demo_reply : SequenceRes * SeqHints * option Z * Server :=
  dispatch_sequence 90 true (SeqOp (Session.make_id 77 5) 2 0 false) 94 94 94 demo_revoked.
Definition demo_flags : Z := default 0 demo_reply.1.2.
Definition demo_sess : Session.Session CallbackSecParms :=
  default (Session_new 0 0 0 0 0 0 0 0 0 0 None 0) (get_session (sv_sessions demo_revoked) (Session.make_id 77 5)).

Lemma revoked_facts : all_allowedb demo_fenced_requests demo_new = true /\
  dispatch_sequence 90 true (SeqOp (Session.make_id 77 5) 2 0 false) 94 94 94 demo_revoked =
    (demo_reply.1.1.1, demo_reply.1.1.2, Some demo_flags, demo_reply.2) /\
  get_session (sv_sessions demo_revoked) (so_sessionid (SeqOp (Session.make_id 77 5) 2 0 false)) = Some demo_sess /\
  client_has_revoked (sv_delegs demo_revoked) (client_id demo_sess) = true.
Proof. run_facts. Qed.

Lemma revocation_announced_witness : Z.testbit demo_flags 6 = true.
Proof.
  destruct revoked_facts as (Hr & Hd & Hg & Hc).
  exact (revocation_announced 90 demo_revoked true _ 94 94 94 _ _ demo_flags _ demo_sess (demo_run_reach _ Hr) Hd Hg Hc).
Defined.

(** ** EXCHANGE_ID collisions and negotiation *)

(** A collision spares live state.  An EXCHANGE_ID whose owner string
    belongs to a confirmed client of another principal is refused with
    CLID_INUSE and changes nothing while that client has a valid lease and any
    session, stateid, delegation or lock (or is machine-credential protected);
    otherwise it succeeds, the stale incumbent is taken out of every table and
    every other client keeps its record. *)
Theorem collision_spares_live_state L mx ds draws now op pr gss s inc res s' :
  server_reach L s -> xid_accepted mx op gss s = true -> Z.land (xo_flags op) UPD_CONFIRMED_REC_A = 0 ->
  existing_client (sv_clients s) (xo_owner op) = Some inc -> cl_confirmed inc = true -> cl_principal inc <> pr ->
  handle_exchange_id L mx ds draws now op pr gss s = Some (res, s') ->
  if shielded now s (cl_id inc)
  then res = exchange_id_err NFS_ClIdInUse /\ s' = s
  else xr_status res = NFS_Ok /\ clients (sv_clients s') !! xr_clientid res <> None /\
    exists s1, without true [cl_id inc] s s1 /\ clients (sv_clients s1) !! xr_clientid res = None /\
      (forall c, c <> xr_clientid res -> clients (sv_clients s') !! c = clients (sv_clients s1) !! c) /\
      (sv_sessions s', sv_stateids s', sv_delegs s', sv_locks s') = (sv_sessions s1, sv_stateids s1, sv_delegs s1, sv_locks s1).
Proof.
  intros Hr%reach_server_ok Ha Hu He Hc Hp Hx.
  exact (collision_spec L mx ds draws now op pr gss s inc (ok_inv s Hr) Ha Hu He Hc Hp res s' Hx).
Qed.

(** A stranger uses client 5's owner string, while its lease is valid and
    after it has lapsed. *)
Definition intrusion (now : Z) : ExchangeIdRes * Server :=
  default (exchange_id_err NFS_Inval, demo_server) (handle_exchange_id 90 16 false [6] now (xid_op [1] 11) [8] false demo_server).

Lemma intrusion_facts :
  (xid_accepted 16 (xid_op [1] 11) false demo_server = true /\ existing_client (sv_clients demo_server) [1] = Some old_client /\
   cl_confirmed old_client = true /\ cl_principal old_client <> [8]) /\
  (handle_exchange_id 90 16 false [6] 50 (xid_op [1] 11) [8] false demo_server = Some ((intrusion 50).1, (intrusion 50).2) /\
   handle_exchange_id 90 16 false [6] 95 (xid_op [1] 11) [8] false demo_server = Some ((intrusion 95).1, (intrusion 95).2)) /\
  (shielded 50 demo_server (cl_id old_client) = true /\ shielded 95 demo_server (cl_id old_client) = false).
Proof. run_facts. Qed.

Lemma collision_spares_live_state_witness :
  ((intrusion 50).1 = exchange_id_err NFS_ClIdInUse /\ (intrusion 50).2 = demo_server) /\ xr_status (intrusion 95).1 = NFS_Ok.
Proof.
  destruct intrusion_facts as ((Ha & He & Hc & Hp) & (H50 & H95) & S50 & S95).
  pose proof (collision_spares_live_state 90 16 false [6] 50 (xid_op [1] 11) [8] false demo_server old_client _ _
    demo_server_reach Ha eq_refl He Hc Hp H50) as R50.
  pose proof (collision_spares_live_state 90 16 false [6] 95 (xid_op [1] 11) [8] false demo_server old_client _ _
    demo_server_reach Ha eq_refl He Hc Hp H95) as R95.
  rewrite S50 in R50. rewrite S95 in R95. exact (conj R50 (proj1 R95)).
Defined.

(** Channel negotiation never grants more than was asked for or than the
    server allows: message sizes, operations and the cached reply size stay
    under the request and the ceilings, the cached size under the reply size,
    and there is at least one slot and at most 128, as many as the slot table
    that is built. *)
Theorem channel_negotiation req :
  0 <= max_request_size req -> 0 <= max_response_size req -> 0 <= max_response_size_cached req -> 0 <= max_operations req ->
  let n := negotiate_fore_channel req MDS_FORE_CEILINGS in
  (0 <= ce_request n <= max_request_size req /\ ce_request n <= 1050624) /\
  (0 <= ce_response n <= max_response_size req /\ ce_response n <= 1050624) /\
  (0 <= ce_response_cached n <= max_response_size_cached req /\ ce_response_cached n <= ce_response n /\ ce_response_cached n <= 16384) /\
  (0 <= ce_ops n <= max_operations req /\ ce_ops n <= 128) /\
  1 <= ce_requests n <= 128 /\ (1 <= max_requests req -> ce_requests n <= max_requests req) /\
  slot_count (ce_requests n) = ce_requests n.
Proof. apply negotiate_spec. Qed.

Lemma channel_negotiation_witness :
  let n := negotiate_fore_channel (Attrs 0 u32_max u32_max u32_max 8 0 []) MDS_FORE_CEILINGS in
  ce_response_cached n <= ce_response n /\ 1 <= ce_requests n <= 128.
Proof.
  destruct (channel_negotiation (Attrs 0 u32_max u32_max u32_max 8 0 [])) as (_ & _ & H1 & _ & H2 & _);
    [vm_compute; congruence..|]. exact (conj (proj1 (proj2 H1)) H2).
Defined.

(** ** Recalls *)

(** C37: a recall ends.  With the default ladder (90 s deadline, rungs at
    30 s and 60 s, a 30 s path-down window retried every 5 s, one disown
    re-probe), a recall task makes at most 28 passes, plus one for each rebind
    that cut a path-down wait short; however the client answers and whatever
    other requests run meanwhile.  When it ends its delegation is no longer
    under recall: returned, disowned, freed or revoked. *)
Theorem recall_ladder_ends L s order now primed ps : server_reach L s ->
  clocked LadderConfig_default (ladder_start order now primed) now ps s ->
  28 + count_if ev_rearmed ps < Z.of_nat (length ps) ->
  exists s', drive_one LadderConfig_default (ladder_start order now primed) ps s = (None, s') /\
    still_pending s' (ro_stateid order) = false /\ evident s' /\ told s'.
Proof.
  intros Hr%reach_server_ok Hc Hlen.
  destruct (drive_one LadderConfig_default (ladder_start order now primed) ps s) as [[ld|] s'] eqn:E.
  - exfalso. assert (Hb : Z.of_nat (length ps) <=
      passes_left LadderConfig_default (ladder_start order now primed) now + count_if ev_rearmed ps).
    { eapply (drive_one_bound LadderConfig_default); try done; try (vm_compute; congruence). intros H. simpl in H. lia. }
    assert (passes_left LadderConfig_default (ladder_start order now primed) now = 28) as Hp; [|lia].
    unfold passes_left. simpl. replace (now + _ - now) with (secs 30) by (simpl; lia). reflexivity.
  - exists s'. destruct (drive_one_resolved LadderConfig_default ps _ s s' (ok_evident s Hr) (ok_told s Hr) E) as (? & ? & ?). done.
Qed.

(** Client 5's delegation is recalled and its back channel is dead. *)
Definition demo_recall_requests : list server_request := demo_requests ++ [RDeleg (SFence true true (8, 100) (Some 9) false 50)].
Definition demo_recalled : Server := demo_run demo_recall_requests.
Definition demo_order : RecallOrder := Order demo_sid 5 [1] false.
Definition dead_pass (k : nat) : Pass :=
  let t := 50 + secs (5 * Z.of_nat k) in MkPass t (Err CbTransport) [] t [] t false.

Lemma ladder_facts : all_allowedb demo_recall_requests demo_new = true /\ still_pending demo_recalled demo_sid = true /\
  clocked LadderConfig_default (ladder_start demo_order 50 None) 50 (dead_pass <$> seq 0 29) demo_recalled.
Proof. vm_compute. repeat split; congruence. Qed.

Lemma recall_ladder_ends_witness :
  exists s', drive_one LadderConfig_default (ladder_start demo_order 50 None) (dead_pass <$> seq 0 29) demo_recalled = (None, s') /\
    still_pending s' demo_sid = false /\ still_pending demo_recalled demo_sid = true.
Proof.
  destruct ladder_facts as (Hr & Hp & Hc).
  destruct (recall_ladder_ends 90 demo_recalled demo_order 50 None (dead_pass <$> seq 0 29) (demo_run_reach _ Hr) Hc)
    as (s' & Hd & Hs & _); [vm_compute; reflexivity|].
  exact (ex_intro _ s' (conj Hd (conj Hs Hp))).
Defined.
