(* ===== verification/FreshnessGate.v ===== *)
(** The degraded-assembly freshness gate (freshness_gate.rs) and the tick in
    which NodeStage consults it (driver.rs, create_raid_from_replicas).

    A synchronous raid1 keeps every acknowledged write on every leg of its
    last assembly.  When one of those legs did not attach, the gate decides
    whether to assemble without it.  The PV annotations it keeps its deadline
    in are the record [Annos].  RFC 3339 text is read and printed by the chrono
    crate: [parse] gives the instant in nanoseconds, [show] prints whole
    seconds. *)

From Stdlib Require Import Ascii String.
From S2P Require Import Prelude Csv.

(** ** Evidence and decision *)
Inductive LegAvailability := ClaimBlocked | NodeReady | NodeNotReady (not_ready_secs : Z) | NodeGone.
Record MissingWriter := Missing { mw_uuid : string; mw_node : string; mw_avail : LegAvailability }.
Inductive GateDecision := Proceed | Defer | ServeWithRisk.
#[global] Instance GateDecision_eq : EqDecision GateDecision.
Proof. solve_decision. Defined.
Record GateConfig := Gate { gc_enabled : bool; defer_secs : Z; node_gone_secs : Z }.
Definition GateConfig_default : GateConfig := Gate true 180 360.

(** The three environment variables. *)
Definition GateConfig_from_env (gate defer gone : option string) : GateConfig :=
  let d := GateConfig_default in
  Gate (match gate with Some v => negb (String.eqb v "disabled") | None => gc_enabled d end)
    (default (defer_secs d) (defer ≫= parse_u64)) (default (node_gone_secs d) (gone ≫= parse_u64)).

Definition is_transient (cfg : GateConfig) (a : LegAvailability) : bool :=
  match a with
  | ClaimBlocked | NodeReady => true
  | NodeNotReady s => s <? node_gone_secs cfg
  | NodeGone => false
  end.

Definition headed_for_direct_serve (total_replicas attached_bases rescuable_stale : nat) : bool :=
  ((1 <? total_replicas) && (attached_bases + rescuable_stale <? 2))%nat.

Definition evaluate (missing : list MissingWriter) (deadline_passed : bool) (cfg : GateConfig) : GateDecision :=
  if negb (gc_enabled cfg) || bool_decide (length missing = 0)%nat then Proceed
  else
    let any_transient := existsb (fun m => is_transient cfg (mw_avail m)) missing in
    if any_transient && negb deadline_passed then Defer else ServeWithRisk.

Definition is_claim_blocked (reason : string) : bool :=
  let r := to_ascii_lowercase reason in
  str_contains "claim" r || str_contains "cannot be opened" r || str_contains "operation not permitted" r ||
  str_contains "resource busy" r ||
  (str_contains "nvmf_subsystem_add_ns" r && (str_contains "-32602" r || str_contains "invalid parameters" r)).

(** ** Markers: ["<time>|<uuid>,<uuid>"] *)
Definition non_empty_fields (s : string) : list string := filter (fun f => is_empty f = false) (split_comma s).

Definition parse_risk_marker (v : string) : option (string * list string) :=
  '(since, uuids) ← split_once "|" v;
  match non_empty_fields uuids with [] => None | flagged => Some (since, flagged) end.

Definition risk_marker_resolved (marker : string) (writers members : list string) : bool :=
  match parse_risk_marker marker with
  | None => true
  | Some (_, flagged) => forallb (fun u => bool_decide (u ∈ writers) || negb (bool_decide (u ∈ members))) flagged
  end.

Definition availability_text (a : LegAvailability) : string :=
  match a with
  | ClaimBlocked => "claim-blocked"
  | NodeReady => "node Ready"
  | NodeNotReady s => "node NotReady " ++ show_u64 s ++ "s"
  | NodeGone => "node gone"
  end.
Definition describe_missing (missing : list MissingWriter) : string :=
  String.concat ", " ((fun m => mw_uuid m ++ " on " ++ mw_node m ++ " (" ++ availability_text (mw_avail m) ++ ")")%string <$> missing).

Definition change_is_progress (prev now : list string) : bool :=
  (length now <? length prev)%nat && forallb (fun u => bool_decide (u ∈ prev)) now.

Definition sort_strings (l : list string) : list string := merge_sort String.le l.
Definition encode_defer_marker (deadline : string) (missing : list string) : string :=
  deadline ++ "|" ++ join_comma (sort_strings missing).
Definition parse_defer_marker (marker : string) : option (string * list string) :=
  '(deadline, uuids) ← split_once "|" marker;
  if is_empty deadline then None else Some (deadline, non_empty_fields uuids).

(** ** Deadlines and the tick *)
Definition SECOND : Z := 1000000000.
Record Annos := MkAnnos { an_defer : option string; an_risk : option string; an_blocked : option string }.

(** What the API server does with the calls of one attempt: whether the
    annotations can be read, and which of the patches it makes land
    ([set_pv_annotation] is best effort: a patch that fails is only logged). *)
Record ApiAnswers := MkApi {
  api_read : bool; api_defer : bool; api_risk : bool; api_blocked : bool; api_clear_defer : bool; api_clear_blocked : bool }.
Definition api_well : ApiAnswers := MkApi true true true true true true.
Definition set_pv_annotation (landed : bool) (value old : option string) : option string := if landed then value else old.

Section clock.
Context (parse : string -> option Z) (show : Z -> string).

Definition deadline_from (now : string) (secs : Z) : string :=
  match parse now with Some t => show (t + secs * SECOND) | None => now end.

Definition deadline_passed (deadline now : string) : bool :=
  match parse deadline, parse now with Some d, Some n => d <=? n | _, _ => true end.

(** Whether the deadline has passed, and the defer marker left behind;
    [landed]: the patch of the marker, when one is made, lands. *)
Definition running_deadline (landed : bool) (annos : Annos) (missing_uuids : list string) (now : string) (cfg : GateConfig) :
    bool * option string :=
  match an_defer annos ≫= parse_defer_marker with
  | Some (deadline, prev) =>
      if bool_decide (prev = missing_uuids) then (deadline_passed deadline now, an_defer annos)
      else if negb (change_is_progress prev missing_uuids)
      then (deadline_passed deadline now,
            set_pv_annotation landed (Some (encode_defer_marker deadline missing_uuids)) (an_defer annos))
      else (false, set_pv_annotation landed (Some (encode_defer_marker (deadline_from now (defer_secs cfg)) missing_uuids)) (an_defer annos))
  | None => (false, set_pv_annotation landed (Some (encode_defer_marker (deadline_from now (defer_secs cfg)) missing_uuids)) (an_defer annos))
  end.

(** One assembly attempt, after the missing writers are known: [writers]
    with the corroborated ones, [members] the identity list.  The decision
    ([None]: the attempt fails because the annotations of a volume with a
    missing writer could not be read) and the annotations left behind. *)
Definition gate_tick (api : ApiAnswers) (missing : list MissingWriter) (writers members : list string) (now : string)
    (cfg : GateConfig) (annos : Annos) : option GateDecision * Annos :=
  if negb (gc_enabled cfg) then (Some Proceed, annos)
  else if bool_decide (length missing = 0)%nat then
    (Some Proceed,
     if api_read api then
       MkAnnos (set_pv_annotation (api_clear_defer api) None (an_defer annos))
         (match an_risk annos with
          | Some marker =>
              if risk_marker_resolved marker writers members then set_pv_annotation (api_risk api) None (Some marker) else Some marker
          | None => None
          end)
         (set_pv_annotation (api_clear_blocked api) None (an_blocked annos))
     else annos)
  else if negb (api_read api) then (None, annos)
  else
    let missing_uuids := sort_strings (mw_uuid <$> missing) in
    let '(passed, marker) := running_deadline (api_defer api) annos missing_uuids now cfg in
    match evaluate missing passed cfg with
    | Proceed => (Some Proceed, MkAnnos marker (an_risk annos) (an_blocked annos))
    | Defer => (Some Defer, MkAnnos marker (an_risk annos)
        (set_pv_annotation (api_blocked api) (Some (now ++ "|" ++ describe_missing missing)%string) (an_blocked annos)))
    | ServeWithRisk => (Some ServeWithRisk,
        MkAnnos (set_pv_annotation (api_clear_defer api) None marker)
          (set_pv_annotation (api_risk api) (Some (now ++ "|" ++ join_comma missing_uuids)%string) (an_risk annos))
          (set_pv_annotation (api_clear_blocked api) None (an_blocked annos)))
    end.
End clock.
