(* ===== verification/FreshnessProps.v ===== *)
(** The freshness gate over a sequence of assembly attempts: the deadline
    kept in the PV annotation bounds how long it defers, as long as the set of
    missing writers does not shrink. *)

From Stdlib Require Import Ascii String.
From S2P Require Import Prelude Csv FreshnessGate.

(** ** The marker round trip *)
Definition no_bar (c : ascii) : bool := negb (Ascii.eqb c "|").
Definition uuid_ok (u : string) : Prop := all_chars plain u = true /\ is_empty u = false.

Lemma split_once_append s t : all_chars no_bar s = true -> split_once "|" (String.append s (String "|" t)) = Some (s, t).
Proof.
  induction s as [|c s IH]; simpl; [done|]. intros [Hc%negb_true_iff Hs]%andb_prop. by rewrite Hc, IH.
Qed.
Lemma split_once_first s a b : split_once "|" s = Some (a, b) -> all_chars no_bar a = true.
Proof.
  revert a b. induction s as [|c s IH]; intros a b; cbn [split_once]; [done|]. destruct (Ascii.eqb c "|") eqn:Hc.
  - by intros [= <- <-].
  - destruct (split_once "|" s) as [[a' b']|]; [|done]. cbn [mbind option_bind]. intros [= <- <-]. simpl. unfold no_bar at 1.
    rewrite Hc. simpl. by eapply IH.
Qed.

Lemma fields_join l : l <> [] -> Forall uuid_ok l -> non_empty_fields (join_comma l) = l.
Proof.
  intros Hne Hl. unfold non_empty_fields. rewrite split_join; [|done|by eapply Forall_impl; [done|]; intros ? [? _]].
  clear Hne. induction Hl as [|x l [_ Hx] Hl IH]; [done|]. by rewrite filter_cons_True, IH.
Qed.

Lemma sort_perm l : sort_strings l ≡ₚ l.
Proof. apply merge_sort_Permutation. Qed.

Lemma defer_round_trip deadline l : all_chars no_bar deadline = true -> is_empty deadline = false -> l <> [] ->
  Forall uuid_ok l -> parse_defer_marker (encode_defer_marker deadline l) = Some (deadline, sort_strings l).
Proof.
  intros Hd He Hne Hl. unfold parse_defer_marker, encode_defer_marker.
  change (String.append "|" ?x) with (String "|" x). rewrite split_once_append by done. cbn [mbind option_bind]. rewrite He, fields_join; [done| |].
  - intros E. apply Hne. apply Permutation_nil. rewrite <- E. apply sort_perm.
  - by rewrite sort_perm.
Qed.

Lemma progress_perm l l' m m' : l ≡ₚ l' -> m ≡ₚ m' -> change_is_progress l m = change_is_progress l' m'.
Proof.
  intros Hl Hm. unfold change_is_progress. rewrite (Permutation_length Hl), (Permutation_length Hm). f_equal. apply eq_true_iff_eq. rewrite !forallb_forall.
  split; intros H x Hx; specialize (H x); rewrite bool_decide_eq_true in *.
  - rewrite <- Hl. apply H. apply list_elem_of_In. rewrite Hm. by apply list_elem_of_In.
  - rewrite Hl. apply H. apply list_elem_of_In. rewrite <- Hm. by apply list_elem_of_In.
Qed.

(** ** Runs *)
Record GateTick := GTick {
  gt_api : ApiAnswers; gt_missing : list MissingWriter; gt_writers : list string; gt_members : list string; gt_now : string }.
Definition tick_uuids (t : GateTick) : list string := mw_uuid <$> gt_missing t.
Definition tick_ok (t : GateTick) : Prop := gt_missing t <> [] /\ Forall uuid_ok (tick_uuids t).

(** The end of year 9999, where RFC 3339 text ends. *)
Definition RFC3339_END : Z := 253402300800 * SECOND.

Section gate.
Context (parse : string -> option Z) (show : Z -> string) (cfg : GateConfig).

Definition gate_step (annos : Annos) (t : GateTick) : option GateDecision * Annos :=
  gate_tick parse show (gt_api t) (gt_missing t) (gt_writers t) (gt_members t) (gt_now t) cfg annos.
Fixpoint gate_run (annos : Annos) (ts : list GateTick) : list (option GateDecision) * Annos :=
  match ts with
  | [] => ([], annos)
  | t :: ts => let '(d, annos1) := gate_step annos t in let '(ds, annos2) := gate_run annos1 ts in (d :: ds, annos2)
  end.

(** An attempt that did not serve: deferred, or failed on the annotations. *)
Definition held (d : option GateDecision) : Prop := d = Some Defer \/ d = None.

(** Printed instants parse back to their second, and hold no bar. *)
Definition clock_text : Prop := forall t, 0 <= t < RFC3339_END ->
  parse (show t) = Some (t / SECOND * SECOND) /\ all_chars no_bar (show t) = true /\ is_empty (show t) = false.

(** A deadline no later than [d] is running for the missing set [prev]. *)
Definition running (d : Z) (prev : list string) (annos : Annos) : Prop :=
  exists m dl prev' k, an_defer annos = Some m /\ parse_defer_marker m = Some (dl, prev') /\ prev' ≡ₚ prev /\
    parse dl = Some k /\ k <= d.

Lemma sort_mw_ok t : tick_ok t -> sort_strings (tick_uuids t) <> [] /\ Forall uuid_ok (sort_strings (tick_uuids t)).
Proof.
  intros [Hne Hu]. split; [|by rewrite sort_perm]. intros E. apply Hne. pose proof (sort_perm (tick_uuids t)) as Hp. rewrite E in Hp.
  apply Permutation_nil in Hp. unfold tick_uuids in Hp. by destruct (gt_missing t).
Qed.

Lemma marker_parts m dl prev : parse_defer_marker m = Some (dl, prev) -> all_chars no_bar dl = true /\ is_empty dl = false.
Proof.
  unfold parse_defer_marker. destruct (split_once "|" m) as [[a b]|] eqn:Hs; [|done]. cbn [mbind option_bind].
  destruct (is_empty a) eqn:Ha; [done|]. intros [= <- <-]. split; [by eapply split_once_first|done].
Qed.

Lemma evaluate_running missing passed : gc_enabled cfg = true -> missing <> [] ->
  evaluate missing passed cfg = if existsb (fun m => is_transient cfg (mw_avail m)) missing && negb passed then Defer else ServeWithRisk.
Proof. intros He Hne. unfold evaluate. rewrite He. simpl. destruct missing; [done|]. simpl length. by rewrite bool_decide_eq_false_2. Qed.

Lemma gate_step_running annos t : gc_enabled cfg = true -> gt_missing t <> [] ->
  gate_step annos t =
  if api_read (gt_api t) then
    let api := gt_api t in
    let '(passed, marker) := running_deadline parse show (api_defer api) annos (sort_strings (tick_uuids t)) (gt_now t) cfg in
    if existsb (fun m => is_transient cfg (mw_avail m)) (gt_missing t) && negb passed
    then (Some Defer, MkAnnos marker (an_risk annos)
           (set_pv_annotation (api_blocked api) (Some (gt_now t ++ "|" ++ describe_missing (gt_missing t))%string) (an_blocked annos)))
    else (Some ServeWithRisk, MkAnnos (set_pv_annotation (api_clear_defer api) None marker)
           (set_pv_annotation (api_risk api) (Some (gt_now t ++ "|" ++ join_comma (sort_strings (tick_uuids t)))%string) (an_risk annos))
           (set_pv_annotation (api_clear_blocked api) None (an_blocked annos)))
  else (None, annos).
Proof.
  intros He Hne. unfold gate_step, gate_tick, tick_uuids. rewrite He. cbn [negb].
  rewrite bool_decide_eq_false_2 by (by destruct (gt_missing t)). destruct (api_read (gt_api t)); [|done]. cbn [negb].
  destruct (running_deadline _ _ _ _ _ _ _) as [passed marker]. rewrite evaluate_running by done. by destruct (_ && _).
Qed.

(** The set the marker records after an attempt. *)
Definition recorded (prev : list string) (t : GateTick) : list string :=
  if api_read (gt_api t) && api_defer (gt_api t) then tick_uuids t else prev.

(** The running deadline once a set that does not shrink is seen. *)
Lemma running_kept d prev annos t : running d prev annos -> tick_ok t -> change_is_progress prev (tick_uuids t) = false ->
  exists dl k marker, parse dl = Some k /\ k <= d /\
    running_deadline parse show (api_defer (gt_api t)) annos (sort_strings (tick_uuids t)) (gt_now t) cfg =
      (deadline_passed parse dl (gt_now t), marker) /\
    forall r b, running d (if api_defer (gt_api t) then tick_uuids t else prev) (MkAnnos marker r b).
Proof.
  intros (m & dl & prev' & k & Hm & Hp & Hperm & Hk & Hle) Ht Hprog. exists dl, k. unfold running_deadline. rewrite Hm. cbn [mbind option_bind].
  rewrite Hp. case_bool_decide as Heq.
  - exists (Some m). split_and!; try done. intros r b. exists m, dl, prev', k. split_and!; try done.
    destruct (api_defer _); [|done]. rewrite Heq. apply sort_perm.
  - rewrite (progress_perm prev' prev _ (tick_uuids t)) by (done || apply sort_perm). rewrite Hprog. cbn [negb].
    eexists. split_and!; try done. intros r b. destruct (api_defer _); cbn [set_pv_annotation]; [|by exists m, dl, prev', k].
    destruct (sort_mw_ok t Ht) as [Hne Hu]. destruct (marker_parts _ _ _ Hp) as [Hb Hd].
    eexists _, dl, _, k. split; [done|]. split; [by apply defer_round_trip|]. split_and!; try done. by rewrite !sort_perm.
Qed.

(** The deadline armed at a first tick whose marker lands. *)
Lemma running_armed annos t now : clock_text -> an_defer annos ≫= parse_defer_marker = None -> tick_ok t ->
  parse (gt_now t) = Some now -> 0 <= now -> 0 <= defer_secs cfg -> now + defer_secs cfg * SECOND < RFC3339_END ->
  exists marker, running_deadline parse show true annos (sort_strings (tick_uuids t)) (gt_now t) cfg = (false, marker) /\
    forall r b, running (now + defer_secs cfg * SECOND) (tick_uuids t) (MkAnnos marker r b).
Proof.
  intros Hclock Hn Ht Hnow H0 Hd Hend. unfold running_deadline. rewrite Hn. eexists. split; [done|]. intros r b.
  unfold deadline_from. rewrite Hnow. destruct (Hclock (now + defer_secs cfg * SECOND)) as (Hp & Hb & He).
  { unfold SECOND in *. lia. }
  destruct (sort_mw_ok t Ht) as [Hne Hu]. eexists _, _, _, _. split; [done|]. split; [by apply defer_round_trip|].
  split; [by rewrite !sort_perm|]. split; [done|]. rewrite Z.mul_comm. apply Z.mul_div_le. done.
Qed.

(** Consecutive attempts in which the missing set, when the annotations can
    be read, is never a strict subset of the one the marker records. *)
Fixpoint no_shrink (prev : list string) (ts : list GateTick) : Prop :=
  match ts with
  | [] => True
  | t :: ts => (api_read (gt_api t) = true -> change_is_progress prev (tick_uuids t) = false) /\ no_shrink (recorded prev t) ts
  end.

Lemma no_shrink_app prev ts z : no_shrink prev (ts ++ [z]) ->
  no_shrink prev ts /\ no_shrink (foldl recorded prev ts) [z].
Proof.
  revert prev. induction ts as [|t ts IH]; intros prev; [done|]. cbn [no_shrink app foldl]. intros [H1 [H2 H3]%IH]. done.
Qed.

(** While the gate keeps holding, the first deadline keeps running, whatever
    reads and patches fail. *)
Lemma run_running d ts : gc_enabled cfg = true -> Forall tick_ok ts -> forall prev annos,
  running d prev annos -> no_shrink prev ts -> Forall held (gate_run annos ts).1 ->
  running d (foldl recorded prev ts) (gate_run annos ts).2.
Proof.
  intros He Hts. induction Hts as [|t ts Ht Hts IH]; intros prev annos Hr Hs Hd; [done|]. destruct Hs as [Hs1 Hs].
  cbn [gate_run foldl] in *. rewrite gate_step_running in * by (done || apply Ht). unfold recorded at 2. unfold recorded in Hs at 1.
  destruct (api_read (gt_api t)); cbn [andb].
  2:{ specialize (IH _ _ Hr Hs). destruct (gate_run annos ts) as [ds a2]. cbn [fst snd] in *. apply Forall_cons in Hd as [_ Hd]. by apply IH. }
  destruct (running_kept _ _ _ _ Hr Ht (Hs1 eq_refl)) as (dl & k & marker & Hk & Hle & E & Hr'). cbv zeta in *. rewrite E in *.
  destruct (existsb _ _ && negb _).
  - match goal with |- context [gate_run ?a ts] => specialize (IH _ a (Hr' _ _) Hs); destruct (gate_run a ts) as [ds a2] end.
    cbn [fst snd] in *. apply Forall_cons in Hd as [_ Hd]. by apply IH.
  - destruct (gate_run _ ts) as [ds a2]. apply Forall_cons in Hd as [[Hd|Hd] _]; discriminate Hd.
Qed.

Lemma late_serves d prev annos t now : gc_enabled cfg = true -> running d prev annos -> tick_ok t -> api_read (gt_api t) = true ->
  change_is_progress prev (tick_uuids t) = false -> parse (gt_now t) = Some now -> d <= now ->
  (gate_step annos t).1 = Some ServeWithRisk /\
  (api_clear_defer (gt_api t) = true -> an_defer (gate_step annos t).2 = None) /\
  (api_clear_blocked (gt_api t) = true -> an_blocked (gate_step annos t).2 = None) /\
  (api_risk (gt_api t) = true ->
    an_risk (gate_step annos t).2 = Some (gt_now t ++ "|" ++ join_comma (sort_strings (tick_uuids t)))%string).
Proof.
  intros He Hr Ht Hread Hs Hnow Hle. destruct (running_kept _ _ _ _ Hr Ht Hs) as (dl & k & marker & Hk & Hkd & E & _).
  rewrite gate_step_running, Hread by (done || apply Ht). cbv zeta. rewrite E. unfold deadline_passed. rewrite Hk, Hnow.
  rewrite (proj2 (Z.leb_le k now)) by lia. rewrite andb_false_r. cbn. split; [done|]. by split_and!; intros ->.
Qed.

(** A marker that never lands: every attempt arms a deadline nobody keeps. *)
Lemma unkept_holds ts : gc_enabled cfg = true -> forall annos, an_defer annos ≫= parse_defer_marker = None ->
  Forall (fun t => gt_missing t <> [] /\ api_defer (gt_api t) = false /\
    existsb (fun m => is_transient cfg (mw_avail m)) (gt_missing t) = true) ts ->
  Forall held (gate_run annos ts).1.
Proof.
  intros He. induction ts as [|t ts IH]; intros annos Hn Hts; [constructor|]. apply Forall_cons in Hts as [(Hne & Hw & Htr) Hts].
  cbn [gate_run]. rewrite gate_step_running by done. destruct (api_read (gt_api t)).
  - cbv zeta. unfold running_deadline. rewrite Hn, Hw, Htr. cbn [set_pv_annotation negb andb].
    match goal with |- context [gate_run ?a ts] => specialize (IH a); destruct (gate_run a ts) as [ds a2] end. cbn [fst snd] in *.
    constructor; [by left|]. by apply IH.
  - specialize (IH annos). destruct (gate_run annos ts) as [ds a2]. constructor; [by right|]. by apply IH.
Qed.

(** ** A leg that comes and goes *)
Definition flap_tick (l : list (string * string)) (sec : Z) : GateTick :=
  GTick api_well ((fun m => Missing m.1 m.2 NodeReady) <$> l) [] [] (show (sec * SECOND)).
(** [step] seconds apart: both legs missing, then only the first. *)
Fixpoint flap (a b : string * string) (step : Z) (n : nat) (sec : Z) : list GateTick :=
  match n with
  | O => []
  | S n => flap_tick [a; b] sec :: flap_tick [a] (sec + step) :: flap a b step n (sec + 2 * step)
  end.

(** No deadline runs, or one past second [sec] for the first leg alone. *)
Definition rearmed (a : string * string) (sec : Z) (annos : Annos) : Prop :=
  an_defer annos ≫= parse_defer_marker = None \/
  exists dl prev k, an_defer annos ≫= parse_defer_marker = Some (dl, prev) /\ prev ≡ₚ [a.1] /\ parse dl = Some k /\ sec * SECOND < k.

Lemma parse_second sec : clock_text -> 0 <= sec -> sec * SECOND < RFC3339_END -> parse (show (sec * SECOND)) = Some (sec * SECOND).
Proof. intros Hc H0 H1. destruct (Hc (sec * SECOND)) as (-> & _); [unfold SECOND in *; lia|]. by rewrite Z.div_mul. Qed.

Lemma flap_uuids l sec : tick_uuids (flap_tick l sec) = l.*1.
Proof. unfold tick_uuids, flap_tick. cbn [gt_missing]. by rewrite <- list_fmap_compose. Qed.
Lemma flap_ok l sec : l <> [] -> Forall uuid_ok l.*1 -> tick_ok (flap_tick l sec).
Proof. intros Hne Hu. split; [by destruct l|by rewrite flap_uuids]. Qed.

Lemma flap_uuid_ok l : Forall (fun m => uuid_ok m.1) l -> Forall (A := string) uuid_ok (l : list (string * string)).*1.
Proof. by rewrite Forall_fmap. Qed.

Lemma flap_step annos (l : list (string * string)) sec : gc_enabled cfg = true -> l <> [] ->
  (running_deadline parse show true annos (sort_strings l.*1) (show (sec * SECOND)) cfg).1 = false ->
  (gate_step annos (flap_tick l sec)).1 = Some Defer /\
  an_defer (gate_step annos (flap_tick l sec)).2 = (running_deadline parse show true annos (sort_strings l.*1) (show (sec * SECOND)) cfg).2.
Proof.
  intros He Hne Hp. rewrite gate_step_running; [|done|by destruct l]. rewrite flap_uuids. cbn [flap_tick gt_api gt_now gt_missing api_well api_read api_defer].
  destruct (running_deadline _ _ _ _ _ _ _) as [passed marker]. cbn [fst] in Hp. subst passed. by destruct l as [|x l].
Qed.

Lemma flap_armed annos (l : list (string * string)) sec : clock_text -> 0 <= sec -> 0 <= defer_secs cfg -> (sec + defer_secs cfg) * SECOND < RFC3339_END ->
  l <> [] -> Forall uuid_ok l.*1 ->
  (forall dl prev, an_defer annos ≫= parse_defer_marker = Some (dl, prev) ->
    prev <> sort_strings l.*1 /\ change_is_progress prev (sort_strings l.*1) = true) ->
  exists dl m, running_deadline parse show true annos (sort_strings l.*1) (show (sec * SECOND)) cfg = (false, Some m) /\
    parse_defer_marker m = Some (dl, sort_strings (sort_strings l.*1)) /\ parse dl = Some ((sec + defer_secs cfg) * SECOND).
Proof.
  intros Hc H0 Hd Hend Hne Hu Hm. assert (deadline_from parse show (show (sec * SECOND)) (defer_secs cfg) = show ((sec + defer_secs cfg) * SECOND)) as E.
  { unfold deadline_from. rewrite parse_second by (unfold SECOND in *; first [done|lia]). f_equal. lia. }
  destruct (Hc ((sec + defer_secs cfg) * SECOND)) as (Hp & Hb & Hne'); [unfold SECOND in *; lia|]. rewrite Z.div_mul in Hp by done.
  exists (show ((sec + defer_secs cfg) * SECOND)), (encode_defer_marker (show ((sec + defer_secs cfg) * SECOND)) (sort_strings l.*1)).
  split; [|split; [|done]].
  - unfold running_deadline. rewrite E. destruct (an_defer annos ≫= parse_defer_marker) as [[dl prev]|]; [|done].
    destruct (Hm dl prev eq_refl) as [H1 H2]. by rewrite bool_decide_eq_false_2, H2 by done.
  - destruct (sort_mw_ok (flap_tick l sec)) as [Hs1 Hs2]; [by apply flap_ok|]. rewrite flap_uuids in *. by apply defer_round_trip.
Qed.

(** A tick that misses both legs leaves a deadline that has not passed. *)
Lemma flap_both a b sec annos : clock_text -> uuid_ok a.1 -> uuid_ok b.1 -> 0 <= sec -> 0 <= defer_secs cfg ->
  (sec + defer_secs cfg) * SECOND < RFC3339_END -> rearmed a sec annos ->
  exists dl m, running_deadline parse show true annos (sort_strings [a; b].*1) (show (sec * SECOND)) cfg = (false, Some m) /\
    parse_defer_marker m = Some (dl, sort_strings (sort_strings [a; b].*1)).
Proof.
  intros Hc Ha Hb Hsec Hdef Hend [Hr|(dl & prev & k & Hr & Hperm & Hk & Hlt)].
  - destruct (flap_armed annos [a; b] sec) as (dl & m & ? & ? & ?); try done; [by apply flap_uuid_ok; auto|by rewrite Hr|by eauto].
  - exists dl, (encode_defer_marker dl (sort_strings [a; b].*1)). split.
    + unfold running_deadline. rewrite Hr. assert (length prev = 1%nat) as Hl1 by exact (Permutation_length Hperm).
      assert (length (sort_strings [a; b].*1) = 2%nat) as Hl2 by exact (Permutation_length (sort_perm _)).
      rewrite bool_decide_eq_false_2 by congruence. unfold change_is_progress. rewrite Hl1, Hl2. simpl andb. cbn [negb].
      f_equal. unfold deadline_passed. rewrite Hk, parse_second by (unfold SECOND in *; first [done|lia]). by apply Z.leb_gt.
    + destruct (an_defer annos) as [m0|] eqn:Hd; [|done]. apply marker_parts in Hr as [? ?].
      destruct (sort_mw_ok (flap_tick [a; b] sec)) as [Hs1 Hs2]; [apply flap_ok; [done|by apply flap_uuid_ok; auto]|]. rewrite flap_uuids in *.
      by apply defer_round_trip.
Qed.

(** The first leg alone is a strict subset of both. *)
Lemma flap_shrinks (a b : string * string) : sort_strings (sort_strings [a; b].*1) <> sort_strings [a].*1 /\
  change_is_progress (sort_strings (sort_strings [a; b].*1)) (sort_strings [a].*1) = true.
Proof.
  split.
  - intros E. apply (f_equal length) in E. by rewrite !(Permutation_length (sort_perm _)) in E.
  - rewrite (progress_perm _ [a.1; b.1] _ [a.1]); [|by rewrite !sort_perm|apply sort_perm].
    unfold change_is_progress. simpl. by rewrite bool_decide_eq_true_2 by (by left).
Qed.

Lemma flap_defers a b step n : gc_enabled cfg = true -> clock_text -> uuid_ok a.1 -> uuid_ok b.1 -> 0 <= step < defer_secs cfg ->
  forall sec annos, 0 <= sec -> (sec + 2 * Z.of_nat n * step + defer_secs cfg) * SECOND < RFC3339_END -> rearmed a sec annos ->
  Forall (fun d => d = Some Defer) (gate_run annos (flap a b step n sec)).1.
Proof.
  intros He Hc Ha Hb Hstep. assert (SECOND = 1000000000) as ES by done. induction n as [|n IH]; intros sec annos Hsec Hend Hr; [constructor|].
  destruct (flap_both a b sec annos) as (dl & m & E1 & Hm); try done; try nia.
  destruct (flap_step annos [a; b] sec He) as [D1 A1]; [done|by rewrite E1|]. rewrite E1 in A1. cbn [snd] in A1.
  cbn [flap gate_run]. destruct (gate_step annos (flap_tick [a; b] sec)) as [d1 annos1]. cbn [fst snd] in D1, A1. subst d1.
  destruct (flap_armed annos1 [a] (sec + step)) as (dl2 & m2 & E2 & Hm2 & Hk2); try done; try nia; [by apply flap_uuid_ok; auto| |].
  { intros dl' prev. rewrite A1. cbn [mbind option_bind]. rewrite Hm. intros [= <- <-]. apply flap_shrinks. }
  destruct (flap_step annos1 [a] (sec + step) He) as [D2 A2]; [done|by rewrite E2|]. rewrite E2 in A2. cbn [snd] in A2.
  destruct (gate_step annos1 (flap_tick [a] (sec + step))) as [d2 annos2]. cbn [fst snd] in D2, A2. subst d2.
  specialize (IH (sec + 2 * step) annos2). destruct (gate_run annos2 (flap a b step n (sec + 2 * step))) as [ds a3]. cbn [fst] in IH |- *.
  repeat constructor. apply IH; [nia|nia|]. right. exists dl2, (sort_strings (sort_strings [a].*1)), ((sec + step + defer_secs cfg) * SECOND).
  rewrite A2. cbn [mbind option_bind]. split_and!; [done|by rewrite !sort_perm|done|nia].
Qed.
End gate.
