(* ===== verification/ReplicaSync.v ===== *)
(** The per-replica sync record of a replicated volume (replica_sync.rs): which
    replicas hold every acknowledged write, which are stale, which are caught
    up and waiting, and the epochs, pins and markers the catch-up, hot-rejoin
    and maintenance machinery keeps beside them.

    The record is one PV annotation; every change is a read, a mutation and a
    write guarded by the PV's resourceVersion, so changes are sequential.
    Times are the RFC 3339 text the code stores. *)

From Stdlib Require Import Ascii String.
From S2P Require Import Prelude Csv FreshnessGate.

(** ** Epoch names *)
Definition epoch_name (v : string) (seq : Z) : string := "epoch-" ++ v ++ "-" ++ show_u64 seq.
Definition epoch_seq (v name : string) : option Z :=
  rest ← strip_prefix "epoch-" name; rest ← strip_prefix v rest;
  digits ← strip_prefix "-" rest;
  if is_empty digits then None else parse_u64 digits.
Definition user_snapshot_ts (v name : string) : option Z :=
  rest ← strip_prefix "snap_" name; rest ← strip_prefix v rest;
  digits ← strip_prefix "_" rest;
  if is_empty digits then None else parse_u64 digits.

Definition lower_base (v : string) (floor : option string) (base : string) : string :=
  match floor with
  | None => base
  | Some floor =>
      match epoch_seq v floor, epoch_seq v base with
      | Some f, Some b => if b <? f then base else floor
      | None, _ => floor
      | _, None => base
      end
  end.

(** ** Data *)
Inductive SyncState := InSync | Stale | Standby.
#[global] Instance SyncState_eq : EqDecision SyncState.
Proof. solve_decision. Defined.
Definition SyncState_as_str (s : SyncState) : string :=
  match s with InSync => "in_sync" | Stale => "stale" | Standby => "standby" end.

Record CopySource := CopySrc { cs_uuid : string; cs_head : string; cs_since : option string }.
#[global] Instance CopySource_eq : EqDecision CopySource.
Proof. solve_decision. Defined.

Record ReplicaSyncRecord := Rep {
  rr_node : string; rr_node_uid : string; rr_uuid : string; rr_state : SyncState; rr_last_epoch : option string;
  rr_since : option string; rr_reason : option string; rr_active : option string; rr_reverted : option string;
  rr_hot : option string; rr_hot_at : option string; rr_maint : option string; rr_empty : bool;
  rr_copied : list CopySource; rr_floor : option string; rr_must : bool }.
#[global] Instance ReplicaSyncRecord_eq : EqDecision ReplicaSyncRecord.
Proof. solve_decision. Defined.

Record EpochEntry := Epoch { ee_name : string; ee_recorded_at : string }.
#[global] Instance EpochEntry_eq : EqDecision EpochEntry.
Proof. solve_decision. Defined.
Record WriterSet := Writers { ws_uuids : list string; ws_since : string }.
#[global] Instance WriterSet_eq : EqDecision WriterSet.
Proof. solve_decision. Defined.

Record VolumeSyncRecord := VRec {
  vr_epoch : option string; vr_epochs : list EpochEntry; vr_pin : option string; vr_tombstones : list string;
  vr_writers : option WriterSet; vr_replicas : list ReplicaSyncRecord }.
#[global] Instance VolumeSyncRecord_eq : EqDecision VolumeSyncRecord.
Proof. solve_decision. Defined.

(** The fields of ReplicaInfo this module reads. *)
Record ReplicaInfo := Info { ri_node : string; ri_node_uid : string; ri_uuid : string; ri_lvs : string }.

Definition with_state x r := Rep (rr_node r) (rr_node_uid r) (rr_uuid r) x (rr_last_epoch r) (rr_since r) (rr_reason r) (rr_active r) (rr_reverted r) (rr_hot r) (rr_hot_at r) (rr_maint r) (rr_empty r) (rr_copied r) (rr_floor r) (rr_must r).
Definition with_last_epoch x r := Rep (rr_node r) (rr_node_uid r) (rr_uuid r) (rr_state r) x (rr_since r) (rr_reason r) (rr_active r) (rr_reverted r) (rr_hot r) (rr_hot_at r) (rr_maint r) (rr_empty r) (rr_copied r) (rr_floor r) (rr_must r).
Definition with_since x r := Rep (rr_node r) (rr_node_uid r) (rr_uuid r) (rr_state r) (rr_last_epoch r) x (rr_reason r) (rr_active r) (rr_reverted r) (rr_hot r) (rr_hot_at r) (rr_maint r) (rr_empty r) (rr_copied r) (rr_floor r) (rr_must r).
Definition with_reason x r := Rep (rr_node r) (rr_node_uid r) (rr_uuid r) (rr_state r) (rr_last_epoch r) (rr_since r) x (rr_active r) (rr_reverted r) (rr_hot r) (rr_hot_at r) (rr_maint r) (rr_empty r) (rr_copied r) (rr_floor r) (rr_must r).
Definition with_active x r := Rep (rr_node r) (rr_node_uid r) (rr_uuid r) (rr_state r) (rr_last_epoch r) (rr_since r) (rr_reason r) x (rr_reverted r) (rr_hot r) (rr_hot_at r) (rr_maint r) (rr_empty r) (rr_copied r) (rr_floor r) (rr_must r).
Definition with_reverted x r := Rep (rr_node r) (rr_node_uid r) (rr_uuid r) (rr_state r) (rr_last_epoch r) (rr_since r) (rr_reason r) (rr_active r) x (rr_hot r) (rr_hot_at r) (rr_maint r) (rr_empty r) (rr_copied r) (rr_floor r) (rr_must r).
Definition with_hot x r := Rep (rr_node r) (rr_node_uid r) (rr_uuid r) (rr_state r) (rr_last_epoch r) (rr_since r) (rr_reason r) (rr_active r) (rr_reverted r) x (rr_hot_at r) (rr_maint r) (rr_empty r) (rr_copied r) (rr_floor r) (rr_must r).
Definition with_hot_at x r := Rep (rr_node r) (rr_node_uid r) (rr_uuid r) (rr_state r) (rr_last_epoch r) (rr_since r) (rr_reason r) (rr_active r) (rr_reverted r) (rr_hot r) x (rr_maint r) (rr_empty r) (rr_copied r) (rr_floor r) (rr_must r).
Definition with_maint x r := Rep (rr_node r) (rr_node_uid r) (rr_uuid r) (rr_state r) (rr_last_epoch r) (rr_since r) (rr_reason r) (rr_active r) (rr_reverted r) (rr_hot r) (rr_hot_at r) x (rr_empty r) (rr_copied r) (rr_floor r) (rr_must r).
Definition with_empty x r := Rep (rr_node r) (rr_node_uid r) (rr_uuid r) (rr_state r) (rr_last_epoch r) (rr_since r) (rr_reason r) (rr_active r) (rr_reverted r) (rr_hot r) (rr_hot_at r) (rr_maint r) x (rr_copied r) (rr_floor r) (rr_must r).
Definition with_copied x r := Rep (rr_node r) (rr_node_uid r) (rr_uuid r) (rr_state r) (rr_last_epoch r) (rr_since r) (rr_reason r) (rr_active r) (rr_reverted r) (rr_hot r) (rr_hot_at r) (rr_maint r) (rr_empty r) x (rr_floor r) (rr_must r).
Definition with_floor x r := Rep (rr_node r) (rr_node_uid r) (rr_uuid r) (rr_state r) (rr_last_epoch r) (rr_since r) (rr_reason r) (rr_active r) (rr_reverted r) (rr_hot r) (rr_hot_at r) (rr_maint r) (rr_empty r) (rr_copied r) x (rr_must r).
Definition with_must x r := Rep (rr_node r) (rr_node_uid r) (rr_uuid r) (rr_state r) (rr_last_epoch r) (rr_since r) (rr_reason r) (rr_active r) (rr_reverted r) (rr_hot r) (rr_hot_at r) (rr_maint r) (rr_empty r) (rr_copied r) (rr_floor r) x.
Definition put_epoch x r := VRec x (vr_epochs r) (vr_pin r) (vr_tombstones r) (vr_writers r) (vr_replicas r).
Definition put_epochs x r := VRec (vr_epoch r) x (vr_pin r) (vr_tombstones r) (vr_writers r) (vr_replicas r).
Definition put_pin x r := VRec (vr_epoch r) (vr_epochs r) x (vr_tombstones r) (vr_writers r) (vr_replicas r).
Definition put_tombstones x r := VRec (vr_epoch r) (vr_epochs r) (vr_pin r) x (vr_writers r) (vr_replicas r).
Definition put_writers x r := VRec (vr_epoch r) (vr_epochs r) (vr_pin r) (vr_tombstones r) x (vr_replicas r).
Definition put_replicas x r := VRec (vr_epoch r) (vr_epochs r) (vr_pin r) (vr_tombstones r) (vr_writers r) x.

Definition FULL_BUILD_MARKER : string := "empty".
Definition SEEDED_STALE_REASON : string := "restored from a snapshot: empty leg awaiting the full build from the clone".

Definition head_not_built (r : ReplicaSyncRecord) : bool := rr_empty r || bool_decide (is_Some (rr_reverted r)).
Definition live_lvol_uuid (r : ReplicaSyncRecord) : string := default (rr_uuid r) (rr_active r).

Definition has_uuid (u : string) (r : ReplicaSyncRecord) : bool := String.eqb (rr_uuid r) u.
Definition rep_get (r : VolumeSyncRecord) (u : string) : option ReplicaSyncRecord := find_first (has_uuid u) (vr_replicas r).
Definition rep_upd (u : string) (f : ReplicaSyncRecord -> ReplicaSyncRecord) (r : VolumeSyncRecord) : VolumeSyncRecord :=
  put_replicas (update_first (has_uuid u) f (vr_replicas r)) r.

(** ** Creation and membership *)
Definition fresh_rep (st : SyncState) (reason : option string) (i : ReplicaInfo) : ReplicaSyncRecord :=
  Rep (ri_node i) (ri_node_uid i) (ri_uuid i) st None None reason None None None None None false [] None false.

Definition initial (l : list ReplicaInfo) : VolumeSyncRecord := VRec None [] None [] None (fresh_rep InSync None <$> l).

Definition reconcile_membership (l : list ReplicaInfo) (r : VolumeSyncRecord) : bool * VolumeSyncRecord :=
  let rebuilt := (fun i => default (fresh_rep Stale
      (Some "membership-reconcile: new identity enters stale pending fenced admission"%string) i)
    (rep_get r (ri_uuid i))) <$> l in
  (negb (bool_decide (rebuilt = vr_replicas r)), put_replicas rebuilt r).

(** ** The writer set *)
Definition writer_uuids (r : VolumeSyncRecord) : list string :=
  match vr_writers r with Some w => ws_uuids w | None => [] end.

Definition prune_writers_for_replacement (gone : list string) (r : VolumeSyncRecord) : bool * VolumeSyncRecord :=
  match vr_writers r with
  | None => (false, r)
  | Some w =>
      let kept := filter (fun u => u ∉ gone) (ws_uuids w) in
      (negb (length kept =? length (ws_uuids w))%nat, put_writers (Some (Writers kept (ws_since w))) r)
  end.

(** [Vec::dedup]: drops repeated neighbours. *)
Fixpoint dedup (l : list string) : list string :=
  match l with
  | x :: l' => match dedup l' with y :: l'' => if String.eqb x y then y :: l'' else x :: y :: l'' | [] => [x] end
  | [] => []
  end.
Definition set_writer_set (uuids : list string) (now : string) (r : VolumeSyncRecord) : bool * VolumeSyncRecord :=
  let us := dedup (sort_strings uuids) in
  match vr_writers r with
  | Some w => if bool_decide (ws_uuids w = us) then (false, r) else (true, put_writers (Some (Writers us now)) r)
  | None => (true, put_writers (Some (Writers us now)) r)
  end.

(** A leg leaves the writer set; [since] moves only when it was there. *)
Definition drop_writer (u now : string) (r : VolumeSyncRecord) : VolumeSyncRecord :=
  match vr_writers r with
  | None => r
  | Some w =>
      let kept := filter (fun x => x <> u) (ws_uuids w) in
      put_writers (Some (Writers kept (if (length kept =? length (ws_uuids w))%nat then ws_since w else now))) r
  end.

(** ** State transitions *)
Definition demote (reason now : string) (x : ReplicaSyncRecord) : ReplicaSyncRecord :=
  with_copied [] (with_must true (with_reason (Some reason)
    (with_since (Some (default now (rr_since x))) (with_state Stale x)))).
Definition new_episode (reason now : string) (x : ReplicaSyncRecord) : ReplicaSyncRecord :=
  with_must false (with_copied [] (with_floor None (with_reason (Some reason)
    (with_since (Some now) (with_state Stale x))))).

Definition mark_stale (u reason now : string) (r : VolumeSyncRecord) : bool * VolumeSyncRecord :=
  let '(transitioned, r1) :=
    match rep_get r u with
    | Some x => match rr_state x with
                | Standby => (true, rep_upd u (demote reason now) r)
                | InSync => (true, rep_upd u (new_episode reason now) r)
                | Stale => (false, r)
                end
    | None => (false, r)
    end in
  (transitioned, drop_writer u now r1).

Definition initial_seeded (l : list ReplicaInfo) (stale : list string) (now : string) : VolumeSyncRecord :=
  foldl (fun r u => rep_upd u (with_empty true) (mark_stale u SEEDED_STALE_REASON now r).2) (initial l) stale.

Definition set_maint_drain (u : string) (deadline : option string) (r : VolumeSyncRecord) : bool * VolumeSyncRecord :=
  match rep_get r u with
  | Some x => if bool_decide (rr_maint x = deadline) then (false, r) else (true, rep_upd u (with_maint deadline) r)
  | None => (false, r)
  end.

Definition reverted (v base new_head : string) (x : ReplicaSyncRecord) : ReplicaSyncRecord :=
  with_floor (Some (lower_base v (rr_floor x) base)) (with_must false (with_copied [] (with_hot None
    (with_reason (Some ("catch-up: head reverted to " ++ base)%string) (with_reverted (Some base)
      (with_active (Some new_head) x)))))).
Definition apply_revert (v u base new_head : string) (r : VolumeSyncRecord) : bool * VolumeSyncRecord :=
  match rep_get r u with
  | None => (false, r)
  | Some x => (negb (bool_decide (reverted v base new_head x = x)), rep_upd u (reverted v base new_head) r)
  end.

Definition source_entry (x : ReplicaSyncRecord) : CopySource := CopySrc (rr_uuid x) (live_lvol_uuid x) (rr_since x).
Definition note_copy_source (dst src : string) (r : VolumeSyncRecord) : bool * VolumeSyncRecord :=
  match rep_get r src with
  | None => (false, r)
  | Some s =>
      match rep_get r dst with
      | None => (false, r)
      | Some d => if bool_decide (source_entry s ∈ rr_copied d) then (false, r)
                  else (true, rep_upd dst (fun d => with_copied (rr_copied d ++ [source_entry s]) d) r)
      end
  end.

(** Why a listed source no longer vouches for a copy. *)
Inductive TieBroken :=
| NoLongerALeg | SourceIs (s : SyncState) | MarkedStaleSince (now_since was : option string)
| NewHead (now_head was : string) | NotAttached.
Definition tie_broken (r : VolumeSyncRecord) (attached : list string) (c : CopySource) : option TieBroken :=
  match rep_get r (cs_uuid c) with
  | None => Some NoLongerALeg
  | Some x =>
      if negb (bool_decide (rr_state x = InSync)) then Some (SourceIs (rr_state x))
      else if negb (bool_decide (rr_since x = cs_since c)) then Some (MarkedStaleSince (rr_since x) (cs_since c))
      else if negb (String.eqb (live_lvol_uuid x) (cs_head c)) then Some (NewHead (live_lvol_uuid x) (cs_head c))
      else if negb (bool_decide (cs_uuid c ∈ attached)) then Some NotAttached
      else None
  end.
Definition source_tie_broken (r : VolumeSyncRecord) (dst : string) (attached : list string) : option (string * TieBroken) :=
  d ← rep_get r dst;
  head (omap (fun c => (fun why => (cs_uuid c, why)) <$> tie_broken r attached c) (rr_copied d)).

Definition set_last_epoch (e : string) : ReplicaSyncRecord -> ReplicaSyncRecord := with_last_epoch (Some e).
Definition to_standby (e reason now : string) (x : ReplicaSyncRecord) : ReplicaSyncRecord :=
  let x1 := if bool_decide (rr_state x = Standby) then x
            else with_reason (Some reason) (with_since (Some now) (with_state Standby x)) in
  with_empty false (set_last_epoch e x1).
Definition mark_standby (u e reason now : string) (r : VolumeSyncRecord) : bool * VolumeSyncRecord :=
  match rep_get r u with
  | None => (false, r)
  | Some x => (negb (bool_decide (rr_state x = Standby)) || negb (bool_decide (rr_last_epoch x = Some e)) || rr_empty x,
               rep_upd u (to_standby e reason now) r)
  end.

Definition admitted (e reason now : string) (x : ReplicaSyncRecord) : ReplicaSyncRecord :=
  let x1 := if bool_decide (rr_state x = InSync) then x
            else with_reason (Some reason) (with_since (Some now) (with_state InSync x)) in
  let x2 := with_must false (with_floor None (with_copied [] (with_empty false (with_reverted None (set_last_epoch e x1))))) in
  if bool_decide (is_Some (rr_hot x2)) then with_hot_at None (with_hot None x2) else x2.
Definition add_writer (u now : string) (r : VolumeSyncRecord) : bool * VolumeSyncRecord :=
  match vr_writers r with
  | None => (false, r)
  | Some w => if bool_decide (u ∈ ws_uuids w) then (false, r)
              else (true, put_writers (Some (Writers (sort_strings (ws_uuids w ++ [u])) now)) r)
  end.
(** A standby, or a stale leg whose catch-up reverted it, needs its base. *)
Definition depends_on_pin (x : ReplicaSyncRecord) : bool :=
  match rr_state x with Standby => true | Stale => bool_decide (is_Some (rr_reverted x)) | InSync => false end.
Definition mark_in_sync (u e reason now : string) (r : VolumeSyncRecord) : bool * VolumeSyncRecord :=
  match rep_get r u with
  | None => (false, r)
  | Some x =>
      let '(grew, r1) := add_writer u now (rep_upd u (admitted e reason now) r) in
      let release := bool_decide (is_Some (vr_pin r1)) && negb (existsb depends_on_pin (vr_replicas r1)) in
      (negb (bool_decide (admitted e reason now x = x)) || grew || release,
       if release then put_pin None r1 else r1)
  end.

(** ** Epochs and retention *)
Definition apply_epoch_cut (e : string) (cut : list string) (now : string) (r : VolumeSyncRecord) : VolumeSyncRecord :=
  let r1 := if existsb (fun x => String.eqb (ee_name x) e) (vr_epochs r) then r
            else put_epochs (vr_epochs r ++ [Epoch e now]) r in
  let r2 := put_epoch (Some e) r1 in
  put_replicas ((fun x => if bool_decide (rr_state x = InSync) && bool_decide (rr_uuid x ∈ cut)
                          then set_last_epoch e x else x) <$> vr_replicas r2) r2.

Definition pin_retention (v e : string) (r : VolumeSyncRecord) : bool * VolumeSyncRecord :=
  let keep_existing :=
    match vr_pin r, epoch_seq v e with
    | None, _ => false
    | Some existing, Some new => match epoch_seq v existing with Some old => old <=? new | None => true end
    | Some _, None => true
    end in
  if keep_existing then (false, r) else (true, put_pin (Some e) r).

Definition clear_pin_if (e : string) (r : VolumeSyncRecord) : bool * VolumeSyncRecord :=
  if bool_decide (vr_pin r = Some e) then (true, put_pin None r) else (false, r).

(** What replica [x] still needs: [None] holds everything. *)
Definition rep_need (v : string) (x : ReplicaSyncRecord) : option (option Z) :=
  match rr_state x with
  | Standby => match rr_last_epoch x ≫= epoch_seq v with Some s => Some (Some s) | None => None end
  | Stale => match rr_reverted x with
             | Some base => match epoch_seq v base with Some s => Some (Some s) | None => None end
             | None => Some None
             end
  | InSync => Some None
  end.
Fixpoint needs (v : string) (l : list ReplicaSyncRecord) : option (list Z) :=
  match l with
  | [] => Some []
  | x :: l => n ← rep_need v x; ns ← needs v l; Some (match n with Some s => s :: ns | None => ns end)
  end.
Definition list_min (l : list Z) : option Z := match l with [] => None | x :: l => Some (foldl Z.min x l) end.
Definition advance_retention_pin (v : string) (r : VolumeSyncRecord) : bool * VolumeSyncRecord :=
  match vr_pin r ≫= epoch_seq v with
  | None => (false, r)
  | Some current =>
      match needs v (vr_replicas r) ≫= list_min with
      | None => (false, r)
      | Some m => if m <=? current then (false, r) else (true, put_pin (Some (epoch_name v m)) r)
      end
  end.

Definition epoch_seqs (v : string) (r : VolumeSyncRecord) : list Z := omap (fun e => epoch_seq v (ee_name e)) (vr_epochs r).
Definition latest_epoch_seq (v : string) (r : VolumeSyncRecord) : Z := foldl Z.max 0 (epoch_seqs v r).

Fixpoint retire_loop (v : string) (pin : option Z) (names : list string) (r : VolumeSyncRecord) : list string * VolumeSyncRecord :=
  match names with
  | [] => ([], r)
  | n :: names =>
      if bool_decide (vr_epoch r = Some n) then ([], r)
      else match epoch_seq v n with
      | None => ([], r)
      | Some seq =>
          if match pin with Some p => p <=? seq | None => false end then ([], r)
          else
            let kept := filter (fun e => ee_name e <> n) (vr_epochs r) in
            let '(gone, r') := retire_loop v pin names (put_epochs kept r) in
            ((if (length kept <? length (vr_epochs r))%nat then n :: gone else gone), r')
      end
  end.
Definition retire_epochs (v : string) (names : list string) (r : VolumeSyncRecord) : list string * VolumeSyncRecord :=
  match vr_pin r with
  | Some pin => match epoch_seq v pin with Some s => retire_loop v (Some s) names r | None => ([], r) end
  | None => retire_loop v None names r
  end.

Definition add_snapshot_tombstone (v name : string) (r : VolumeSyncRecord) : bool * VolumeSyncRecord :=
  if bool_decide (user_snapshot_ts v name = None) then (false, r)
  else if bool_decide (name ∈ vr_tombstones r) then (false, r)
  else (true, put_tombstones (vr_tombstones r ++ [name]) r).
Definition clear_snapshot_tombstone (name : string) (r : VolumeSyncRecord) : bool * VolumeSyncRecord :=
  let kept := filter (fun t => t <> name) (vr_tombstones r) in
  ((length kept <? length (vr_tombstones r))%nat, put_tombstones kept r).

(** ** Hot rejoin *)
Definition hot_rejoined (e head now : string) (x : ReplicaSyncRecord) : ReplicaSyncRecord :=
  with_reverted None (with_hot_at (Some now) (with_hot (Some e) (with_active (Some head) x))).
Definition mark_hot_rejoined (u e : string) (cut : list string) (head now : string) (r : VolumeSyncRecord) : bool * VolumeSyncRecord :=
  let r1 := apply_epoch_cut e cut now r in
  let r2 := (mark_standby u e "hot rejoined at E_f via skip_rebuild; localizing the esnap chain" now r1).2 in
  (true, rep_upd u (hot_rejoined e head now) r2).

Definition clear_hot_rejoin (u reason : string) (demote_to_stale : bool) (now : string) (r : VolumeSyncRecord) : bool * VolumeSyncRecord :=
  let '(c, r1) := if demote_to_stale then mark_stale u reason now r else (false, r) in
  match rep_get r1 u with
  | Some x => if bool_decide (is_Some (rr_hot x)) then (true, rep_upd u (fun x => with_hot_at None (with_hot None x)) r1) else (c, r1)
  | None => (c, r1)
  end.

Definition refused (reason now : string) (x : ReplicaSyncRecord) : ReplicaSyncRecord :=
  with_hot_at None (with_hot None (demote reason now x)).
Definition refuse_hot_rejoin (u reason now : string) (r : VolumeSyncRecord) : bool * VolumeSyncRecord :=
  match rep_get r u with
  | None => (false, r)
  | Some x =>
      (negb (bool_decide (refused reason now x = x)) || bool_decide (u ∈ writer_uuids r),
       drop_writer u now (rep_upd u (refused reason now) r))
  end.

(** ** Maintenance marks: leases read against the clock *)
Section clock.
Context (parse : string -> option Z).

Definition maint_drain_live (now : string) (x : ReplicaSyncRecord) : bool :=
  match rr_maint x with Some deadline => negb (deadline_passed parse deadline now) | None => false end.

Definition drain_for_maintenance (u deadline now : string) (r : VolumeSyncRecord) : bool * VolumeSyncRecord :=
  match rep_get r u with
  | None => (false, r)
  | Some x =>
      if bool_decide (is_Some (rr_hot x)) then (false, r)
      else if existsb (fun y => negb (has_uuid u y) && (maint_drain_live now y || negb (bool_decide (rr_state y = InSync))))
                (vr_replicas r) then (false, r)
      else if bool_decide (rr_state x = InSync) &&
              negb (existsb (fun y => negb (has_uuid u y) && bool_decide (rr_state y = InSync)) (vr_replicas r)) then (false, r)
      else
        let '(changed, r1) := mark_stale u "maintenance drain (planned roll)" now r in
        match rep_get r1 u with
        | Some x1 => if bool_decide (rr_maint x1 = Some deadline) then (changed, r1)
                     else (true, rep_upd u (with_maint (Some deadline)) r1)
        | None => (changed, r1)
        end
  end.

Definition mark_hot_rejoin_intent (u e now : string) (r : VolumeSyncRecord) : bool * VolumeSyncRecord :=
  if existsb (fun x => has_uuid u x && maint_drain_live now x) (vr_replicas r) then (false, r)
  else match rep_get r u with
  | Some x =>
      match rr_state x with
      | Standby =>
          if bool_decide (rr_hot x = None) then
            (true, rep_upd u (fun x => with_hot_at (Some now) (with_hot (Some e)
              (with_reason (Some "hot-rejoin window opening (converged standby target)"%string)
                (with_since (Some now) (with_state Stale x))))) r)
          else (false, r)
      | Stale =>
          if bool_decide (rr_hot x = Some e) then (false, r)
          else (true, rep_upd u (fun x => with_hot_at (Some now) (with_hot (Some e) x)) r)
      | InSync => (false, r)
      end
  | None => (false, r)
  end.

Definition forced_stale_admissible (now : string) (x : option ReplicaSyncRecord) : bool :=
  match x with
  | None => true
  | Some x => bool_decide (rr_hot x = None) && negb (maint_drain_live now x) && negb (head_not_built x)
  end.
End clock.
