(* ===== verification/ReplicaStore.v ===== *)
(** The writers of the sync record: KubeStore (catchup.rs), the epoch
    scheduler (epoch_scheduler.rs), NodeStage and the raid monitor
    (driver.rs, node_agent.rs), and the replacement of a lost replica
    (replica_replace.rs).

    Each loads the record, reconciles it with the identity list the PV holds
    at that moment, mutates it and writes it back under a resourceVersion
    guard ([update_sync_record]); a conflicting write retries from a fresh
    read, so the record's history is a sequence of [sync_update]s.  What SPDK
    and the API server answer is an argument. *)

From Stdlib Require Import Ascii String.
From S2P Require Import Prelude Csv FreshnessGate ReplicaSync.

(** ** Replacement of a lost replica *)
Definition replacement_record (target node_uid new_uuid lost_node : string) (lost_state : SyncState) (now : string) :
    ReplicaSyncRecord :=
  Rep target node_uid new_uuid Stale None (Some now)
    (Some ("re-placed from lost node " ++ lost_node ++ " (U11; the lost leg was " ++ SyncState_as_str lost_state ++ ")")%string)
    None None None None None true [] None false.

Definition build_swapped_record (old_uuid : string) (new_rec : ReplicaSyncRecord) (new_replicas : list ReplicaInfo)
    (r : VolumeSyncRecord) : option VolumeSyncRecord :=
  if bool_decide (is_Some (rep_get r old_uuid)) then
    let r1 := rep_upd old_uuid (fun _ => new_rec) r in
    let r2 := (reconcile_membership new_replicas r1).2 in
    Some (prune_writers_for_replacement [old_uuid] r2).2
  else None.

(** ** Requests *)
Inductive sync_request :=
| QLoad
| QPin (e : string)
| QRevert (u base new_head : string)
| QCopySource (dst src : string)
| QStandby (u through now : string)
| QReason (u reason : string)
| QStale (u reason now : string)
| QDrain (u deadline now : string)
| QMaintMark (u : string) (deadline : option string)
| QCut (e : string) (cut : list string) (now : string)
| QInSync (u last_epoch now : string)
| QTombstone (name : string)
| QClearTombstone (name : string)
| QIntent (u ef now : string)
| QFlip (u ef : string) (cut : list string) (head now : string)
| QCleared (u reason : string) (demote_to_stale : bool) (now : string)
| QRefused (u reason now : string)
| QRetire (names : list string)
| QMissing (missing : list string) (reason now : string)
| QAssemble (excluded : list (string * string)) (included : list string) (node now : string)
| QReplace (old_uuid target node_uid new_uuid lost_node : string) (lost_state : SyncState) (now : string)
    (new_replicas : list ReplicaInfo).

Section store.
Context (parse : string -> option Z) (v : string).

Definition mark_missing (l : list string) (reason now : string) (r : VolumeSyncRecord) : VolumeSyncRecord :=
  foldl (fun r u => (mark_stale u reason now r).2) r l.

(** NodeStage records the assembly it is about to create. *)
Definition record_assembly (excluded : list (string * string)) (included : list string) (node now : string)
    (r : VolumeSyncRecord) : VolumeSyncRecord :=
  let r1 := foldl (fun r e => (mark_stale e.1 ("excluded from raid assembly on " ++ node ++ ": " ++ e.2)%string now r).2)
              r excluded in
  (set_writer_set included now r1).2.

Definition mutate (q : sync_request) (r : VolumeSyncRecord) : VolumeSyncRecord :=
  match q with
  | QLoad => r
  | QPin e => (pin_retention v e r).2
  | QRevert u base head => (apply_revert v u base head r).2
  | QCopySource dst src => (note_copy_source dst src r).2
  | QStandby u through now =>
      (advance_retention_pin v (mark_standby u through "caught up; chasing epochs" now r).2).2
  | QReason u reason => rep_upd u (with_reason (Some reason)) r
  | QStale u reason now => (mark_stale u reason now r).2
  | QDrain u deadline now => (drain_for_maintenance parse u deadline now r).2
  | QMaintMark u deadline => (set_maint_drain u deadline r).2
  | QCut e cut now => apply_epoch_cut e cut now r
  | QInSync u e now => (mark_in_sync u e "admitted at reassembly after fenced final delta" now r).2
  | QTombstone name => (add_snapshot_tombstone v name r).2
  | QClearTombstone name => (clear_snapshot_tombstone name r).2
  | QIntent u ef now => (mark_hot_rejoin_intent parse u ef now r).2
  | QFlip u ef cut head now => (mark_hot_rejoined u ef cut head now r).2
  | QCleared u reason d now => (clear_hot_rejoin u reason d now r).2
  | QRefused u reason now => (refuse_hot_rejoin u reason now r).2
  | QRetire names => (retire_epochs v names r).2
  | QMissing l reason now => mark_missing l reason now r
  | QAssemble excluded included node now => record_assembly excluded included node now r
  | QReplace old target uid new lost st now infos =>
      default r (build_swapped_record old (replacement_record target uid new lost st now) infos r)
  end.

(** What one [update_sync_record] (or [swap_identity_on_pv]) that goes
    through does to the record. *)
Definition sync_update (l : list ReplicaInfo) (q : sync_request) (r : VolumeSyncRecord) : VolumeSyncRecord :=
  mutate q (reconcile_membership l r).2.

Definition sync_run (qs : list (list ReplicaInfo * sync_request)) (r : VolumeSyncRecord) : VolumeSyncRecord :=
  foldl (fun r q => sync_update q.1 q.2 r) r qs.
End store.

(** ** The guarded write *)
(** What the PV object holds: its resourceVersion, the sync record when the
    annotation is there and parses, what [replicas_from_pv] makes of it (an
    error when the spec or the replica list is missing or does not parse, no
    list when the volume is not replicated), and the legs seeded stale. *)
Record Pv := MkPv {
  pv_version : Z; pv_record : option VolumeSyncRecord; pv_infos : result string (option (list ReplicaInfo));
  pv_seeded : list string }.
Definition MAX_ATTEMPTS : nat := 3.

(** What happens around one attempt: whether the GET fails; what the other
    writers do to the PV between this writer's read and its write; and
    whether the PATCH ends in an error other than a conflict, and then whether
    the request reached the API server (the reply was lost) or not. *)
Record Attempt := MkAttempt { at_get : option string; at_others : Pv -> Pv; at_fault : option (bool * string) }.
Definition undisturbed : Attempt := MkAttempt None (fun p => p) None.

Section write.
Context (f : VolumeSyncRecord -> VolumeSyncRecord) (clock : nat -> string).

(** The record one attempt computes from what it read; [clock] is the time
    of each attempt, by the number that remain. *)
Definition attempt_record (now : string) (l : list ReplicaInfo) (pv : Pv) : VolumeSyncRecord :=
  f (reconcile_membership l (default (initial_seeded l (pv_seeded pv) now) (pv_record pv))).2.

(** [bump] is the version the API server gives a written object.  A write
    against another version is a conflict, and is retried from a fresh read
    while attempts remain; every other error ends the update. *)
Fixpoint update_attempts (bump : Z -> Z) (env : list Attempt) (attempts : nat) (pv : Pv) :
    result string (option VolumeSyncRecord) * Pv :=
  match attempts with
  | O => (Err "did not converge"%string, pv)
  | S attempts =>
      let a := default undisturbed (head env) in
      match at_get a with
      | Some e => (Err e, pv)
      | None =>
          match pv_infos pv with
          | Err e => (Err e, pv)
          | Ok None => (Ok None, pv)
          | Ok (Some l) =>
              let record := attempt_record (clock attempts) l pv in
              if bool_decide (pv_record pv = Some record) then (Ok (Some record), pv)
              else
                let pv' := at_others a pv in
                let accepted := pv_version pv' =? pv_version pv in
                let written := MkPv (bump (pv_version pv')) (Some record) (pv_infos pv') (pv_seeded pv') in
                match at_fault a with
                | Some (reached, e) =>
                    (Err ("Failed to patch sync record: " ++ e)%string, if reached && accepted then written else pv')
                | None =>
                    if accepted then (Ok (Some record), written)
                    else match attempts with
                         | O => (Err "Failed to patch sync record: conflict"%string, pv')
                         | _ => update_attempts bump (tail env) attempts pv'
                         end
                end
          end
      end
  end.
Definition update_sync_record (bump : Z -> Z) (env : list Attempt) (pv : Pv) : result string (option VolumeSyncRecord) * Pv :=
  update_attempts bump env MAX_ATTEMPTS pv.
End write.

(** ** The epoch scheduler *)
Record EpochConfig := EpochCfg { ec_enabled : bool; ec_interval : Z; ec_retain : nat }.
Definition EpochConfig_default : EpochConfig := EpochCfg false 1800 4.
Definition EpochConfig_from_env (enabled interval retain : option string) : EpochConfig :=
  let d := EpochConfig_default in
  EpochCfg
    (match enabled with
     | Some v => String.eqb (to_ascii_lowercase v) "enabled" || String.eqb (to_ascii_lowercase v) "true" || String.eqb v "1"
     | None => ec_enabled d
     end)
    (default (ec_interval d) (interval ≫= parse_u64))
    (default (ec_retain d) ((fun k => Z.to_nat (Z.max k 1)) <$> (retain ≫= parse_u64))).
Record EpochTarget := Target { et_node : string; et_uuid : string; et_source : string; et_lvs : string }.
Record CutPlan := Plan { cp_epoch : string; cp_targets : list EpochTarget }.

Definition cut_targets (r : VolumeSyncRecord) (l : list ReplicaInfo) : list EpochTarget :=
  omap (fun x =>
    if bool_decide (rr_state x = InSync) then
      i ← find_first (fun i => String.eqb (ri_uuid i) (rr_uuid x)) l;
      Some (Target (ri_node i) (ri_uuid i) (live_lvol_uuid x) (ri_lvs i))
    else None) (vr_replicas r).

(** [chrono::Duration::from_std], or five minutes when out of its range. *)
Definition interval_ns (cfg : EpochConfig) : Z := (if ec_interval cfg <=? i64_max / 1000 then ec_interval cfg else 300) * SECOND.
(** [now] in nanoseconds. *)
Definition cut_due (parse : string -> option Z) (r : VolumeSyncRecord) (now : Z) (cfg : EpochConfig) : bool :=
  match last (vr_epochs r) with
  | None => true
  | Some e => match parse (ee_recorded_at e) with Some t => interval_ns cfg <=? now - t | None => true end
  end.

Definition plan_cut (parse : string -> option Z) (v : string) (r : VolumeSyncRecord) (l : list ReplicaInfo) (attached : bool)
    (now : Z) (cfg : EpochConfig) : option CutPlan :=
  if negb attached then None
  else match cut_targets r l with
  | [] => None
  | targets => if cut_due parse r now cfg then Some (Plan (epoch_name v (latest_epoch_seq v r + 1)) targets) else None
  end.

Definition plan_retention (r : VolumeSyncRecord) (cfg : EpochConfig) : list string :=
  if (length (vr_epochs r) <=? ec_retain cfg)%nat then []
  else ee_name <$> take (length (vr_epochs r) - ec_retain cfg) (vr_epochs r).

Definition gc_candidates (v : string) (r : VolumeSyncRecord) (found : list string) : list string :=
  match head (vr_epochs r) ≫= fun e => epoch_seq v (ee_name e) with
  | None => []
  | Some oldest => filter (fun n => match epoch_seq v n with Some s => s <? oldest | None => false end = true) found
  end.

(** The cut itself: [snap] is what each node answers to the snapshot call;
    the second component lists the deletions of the roll-back. *)
Inductive CutOutcome := Recorded (cut_uuids : list string) | Aborted (failures : list (string * string)).
Definition is_already_exists (msg : string) : bool :=
  str_contains "File exists" msg || str_contains "Code=-17" msg || str_contains "already exists" msg.
Definition rollback_cut (targets : list EpochTarget) (e : string) : list (string * string) :=
  (fun t => (et_node t, et_lvs t ++ "/" ++ e)%string) <$> targets.

Section cut.
Context (snap : EpochTarget -> result string unit).

Definition cut_one (st : list EpochTarget * list (string * string)) (t : EpochTarget) :
    list EpochTarget * list (string * string) :=
  match snap t with
  | Ok _ => (st.1 ++ [t], st.2)
  | Err msg => if is_already_exists msg then (st.1 ++ [t], st.2) else (st.1, st.2 ++ [(et_node t, msg)])
  end.
Definition execute_cut (plan : CutPlan) : CutOutcome * list (string * string) :=
  let '(succeeded, failures) := foldl cut_one ([], []) (cp_targets plan) in
  match failures with
  | [] => (Recorded (et_uuid <$> succeeded), [])
  | _ => (Aborted failures, rollback_cut succeeded (cp_epoch plan))
  end.

Fixpoint strict_loop (e : string) (created targets : list EpochTarget) : CutOutcome * list (string * string) :=
  match targets with
  | [] => (Recorded (et_uuid <$> created), [])
  | t :: targets =>
      match snap t with
      | Ok _ => strict_loop e (created ++ [t]) targets
      | Err msg =>
          let why := if is_already_exists msg
                     then (e ++ " already exists — a leftover of an aborted cut, older than the head; refused (" ++ msg ++ ")")%string
                     else msg in
          (Aborted [(et_node t, why)], rollback_cut created e)
      end
  end.
Definition execute_cut_strict (plan : CutPlan) : CutOutcome * list (string * string) :=
  strict_loop (cp_epoch plan) [] (cp_targets plan).
End cut.

(** ** One pass of the scheduler *)
(** [found] is what a node lists of an lvstore, [None] when it does not
    answer; the result is the snapshots deleted, as (node, alias). *)
Definition execute_gc (found : string -> string -> option (list string)) (v : string) (r : VolumeSyncRecord) (infos : list ReplicaInfo) :
    list (string * string) :=
  match vr_epochs r with
  | [] => []
  | _ =>
      i ← infos;
      match found (ri_node i) (ri_lvs i) with
      | Some names => (fun n => (ri_node i, ri_lvs i ++ "/" ++ n)%string) <$> gc_candidates v r names
      | None => []
      end
  end.

Section cycle.
Context (parse : string -> option Z) (v : string) (snap : EpochTarget -> result string unit).
Context (found : string -> string -> option (list string)) (cfg : EpochConfig).

(** [run_epoch_cycle] on a replicated volume: [l] the PV's identity list,
    [infos] the list the scheduler holds, [stamp] the time recorded.  The
    deletions of an aborted cut's roll-back, those of the garbage collector,
    and the record left. *)
Definition run_epoch_cycle (l infos : list ReplicaInfo) (attached : bool) (now : Z) (stamp : string) (r : VolumeSyncRecord) :
    list (string * string) * list (string * string) * VolumeSyncRecord :=
  let r0 := sync_update parse v l QLoad r in
  let '(undone, r1) :=
    match plan_cut parse v r0 infos attached now cfg with
    | Some cut =>
        match execute_cut snap cut with
        | (Recorded cut_uuids, undone) => (undone, sync_update parse v l (QCut (cp_epoch cut) cut_uuids stamp) r0)
        | (Aborted _, undone) => (undone, r0)
        end
    | None => ([], r0)
    end in
  let retire := plan_retention r1 cfg in
  let r2 := match retire with [] => r1 | _ => sync_update parse v l (QRetire retire) r1 end in
  (undone, execute_gc found v r2 infos, r2).
End cycle.
