(* ===== verification/ReplicaProps.v ===== *)
(** The sync record one leg at a time: what each request does to the leg with
    a given uuid, to the writer set and to the epochs. *)

From Stdlib Require Import Ascii String.
From S2P Require Import Prelude Csv FreshnessGate ReplicaSync ReplicaStore.

Definition info_uuids (l : list ReplicaInfo) : list string := ri_uuid <$> l.
Definition rep_uuids (r : VolumeSyncRecord) : list string := rr_uuid <$> vr_replicas r.
Definition keeps_uuid (f : ReplicaSyncRecord -> ReplicaSyncRecord) : Prop := forall x, rr_uuid (f x) = rr_uuid x.

Lemma has_uuid_spec u x : has_uuid u x = true <-> rr_uuid x = u.
Proof. apply String.eqb_eq. Qed.

Lemma get_uuid r u x : rep_get r u = Some x -> rr_uuid x = u.
Proof. intros [_ H]%find_first_Some. by apply has_uuid_spec. Qed.

Lemma get_elem r u x : rep_get r u = Some x -> x ∈ vr_replicas r.
Proof. by intros [H _]%find_first_Some. Qed.

Lemma find_update (f : ReplicaSyncRecord -> ReplicaSyncRecord) u u' l : keeps_uuid f ->
  find_first (has_uuid u') (update_first (has_uuid u) f l) =
  if String.eqb u u' then f <$> find_first (has_uuid u') l else find_first (has_uuid u') l.
Proof.
  intros Hf. assert (forall x, has_uuid u' (f x) = has_uuid u' x) as Hf' by (intros x; unfold has_uuid; by rewrite Hf).
  induction l as [|x l IH]; simpl; [by destruct (String.eqb u u')|].
  destruct (has_uuid u x) eqn:Hx; simpl.
  - rewrite Hf'. destruct (String.eqb_spec u u') as [<-|Hne]; [by rewrite Hx|].
    destruct (has_uuid u' x) eqn:Hx'; [|done]. apply has_uuid_spec in Hx, Hx'. congruence.
  - rewrite IH. destruct (String.eqb_spec u u') as [<-|Hne]; [by rewrite Hx|by destruct (has_uuid u' x)].
Qed.

Lemma get_upd f u u' r : keeps_uuid f ->
  rep_get (rep_upd u f r) u' = if String.eqb u u' then f <$> rep_get r u' else rep_get r u'.
Proof. apply find_update. Qed.

Lemma get_upd_same f u r : keeps_uuid f -> rep_get (rep_upd u f r) u = f <$> rep_get r u.
Proof. intros Hf. by rewrite get_upd, String.eqb_refl. Qed.

Lemma uuids_update f u l : keeps_uuid f -> rr_uuid <$> update_first (has_uuid u) f l = rr_uuid <$> l.
Proof.
  intros Hf. induction l as [|x l IH]; [done|]. simpl update_first. destruct (has_uuid u x); rewrite !fmap_cons.
  - by rewrite Hf.
  - by rewrite IH.
Qed.
Lemma uuids_upd f u r : keeps_uuid f -> rep_uuids (rep_upd u f r) = rep_uuids r.
Proof. apply uuids_update. Qed.

Lemma get_is_Some r u : is_Some (rep_get r u) <-> u ∈ rep_uuids r.
Proof.
  unfold rep_get, rep_uuids. induction (vr_replicas r) as [|x l IH].
  - split; [by intros [? ?]|by intros ?%elem_of_nil].
  - rewrite fmap_cons, elem_of_cons, <- IH. simpl. destruct (has_uuid u x) eqn:Hx.
    + apply has_uuid_spec in Hx. split; [by left|eauto].
    + split; [by right|]. intros [->|?]; [|done]. unfold has_uuid in Hx. by rewrite String.eqb_refl in Hx.
Qed.

(** ** Reconciling *)
Lemma get_reconcile l r u :
  rep_get (reconcile_membership l r).2 u =
  (i ← find_first (fun i => String.eqb (ri_uuid i) u) l;
   Some (default (fresh_rep Stale (Some "membership-reconcile: new identity enters stale pending fenced admission"%string) i)
     (rep_get r u))).
Proof.
  unfold rep_get at 1. simpl. induction l as [|i l IH]; simpl; [done|].
  assert (forall y, has_uuid u y = String.eqb (rr_uuid y) u) as E by done. rewrite E.
  assert (rr_uuid (default (fresh_rep Stale (Some "membership-reconcile: new identity enters stale pending fenced admission"%string) i)
     (rep_get r (ri_uuid i))) = ri_uuid i) as ->.
  { destruct (rep_get r (ri_uuid i)) as [x|] eqn:Hx; simpl; [by apply get_uuid in Hx|done]. }
  destruct (String.eqb_spec (ri_uuid i) u) as [<-|Hne]; [done|apply IH].
Qed.

Lemma uuids_reconcile l r : rep_uuids (reconcile_membership l r).2 = info_uuids l.
Proof.
  unfold rep_uuids, info_uuids. simpl. rewrite <- list_fmap_compose. apply list_fmap_ext. intros k i _. simpl.
  destruct (rep_get r (ri_uuid i)) as [x|] eqn:Hx; simpl; [by apply get_uuid in Hx|done].
Qed.

(** Every entry of a reconciled record is the old leg or a fresh stale one. *)
Lemma reconcile_leg l r u x : rep_get (reconcile_membership l r).2 u = Some x ->
  rep_get r u = Some x \/ (rep_get r u = None /\ exists i reason, x = fresh_rep Stale (Some reason) i /\ ri_uuid i = u).
Proof.
  rewrite get_reconcile. destruct (find_first _ l) as [i|] eqn:Hi; simpl; [|done]. intros [= <-].
  destruct (rep_get r u) as [y|] eqn:Hy; simpl; [by left|right]. split; [done|]. exists i. eexists. split; [done|].
  apply find_first_Some in Hi as [_ Hi]. by apply String.eqb_eq.
Qed.

Lemma reconcile_present l r u x : rep_get r u = Some x -> u ∈ info_uuids l -> rep_get (reconcile_membership l r).2 u = Some x.
Proof.
  intros Hx Hu. rewrite get_reconcile. destruct (find_first _ l) as [i|] eqn:Hi; simpl; [by rewrite Hx|].
  rewrite find_first_None in Hi. unfold info_uuids in Hu. apply list_elem_of_fmap in Hu as (i & -> & Hin).
  specialize (Hi i Hin). by rewrite String.eqb_refl in Hi.
Qed.

Lemma reconcile_rest l r : (vr_epoch (reconcile_membership l r).2, vr_epochs (reconcile_membership l r).2, vr_pin (reconcile_membership l r).2,
  vr_writers (reconcile_membership l r).2) = (vr_epoch r, vr_epochs r, vr_pin r, vr_writers r).
Proof. done. Qed.

(** ** What one request does to one leg *)
(** The requests that may take leg [u] out of the serving set by marking it
    stale. *)
Definition drops (q : sync_request) (u : string) : Prop :=
  match q with
  | QStale u' _ _ | QDrain u' _ _ | QCleared u' _ true _ => u' = u
  | QMissing l _ _ => u ∈ l
  | QAssemble excluded _ _ _ => u ∈ excluded.*1
  | _ => False
  end.

(** Notes that leave what the record says of the leg's data alone. *)
Definition same_core (x y : ReplicaSyncRecord) : Prop :=
  (rr_uuid y, rr_state y, rr_since y, rr_active y, rr_reverted y, rr_hot y, rr_empty y, rr_copied y, rr_floor y, rr_must y) =
  (rr_uuid x, rr_state x, rr_since x, rr_active x, rr_reverted x, rr_hot x, rr_empty x, rr_copied x, rr_floor x, rr_must x).

Inductive prim (v u : string) (q : sync_request) (x : ReplicaSyncRecord) : ReplicaSyncRecord -> Prop :=
| p_note y : same_core x y -> prim v u q x y
| p_stale reason now : drops q u -> rr_state x = InSync -> prim v u q x (new_episode reason now x)
| p_demote reason now : drops q u -> rr_state x = Standby -> prim v u q x (demote reason now x)
| p_revert base head : q = QRevert u base head -> prim v u q x (reverted v base head x)
| p_copy src c : q = QCopySource u src -> prim v u q x (with_copied (rr_copied x ++ [c]) x)
| p_standby e now : q = QStandby u e now -> prim v u q x (to_standby e "caught up; chasing epochs" now x)
| p_flip e cut head now : q = QFlip u e cut head now ->
    prim v u q x (hot_rejoined e head now (to_standby e "hot rejoined at E_f via skip_rebuild; localizing the esnap chain" now x))
| p_admit e now : q = QInSync u e now -> prim v u q x (admitted e "admitted at reassembly after fenced final delta" now x)
| p_window e now : q = QIntent u e now -> rr_state x = Standby ->
    prim v u q x (with_hot_at (Some now) (with_hot (Some e)
      (with_reason (Some "hot-rejoin window opening (converged standby target)"%string) (with_since (Some now) (with_state Stale x)))))
| p_claim e now : q = QIntent u e now -> rr_state x = Stale -> prim v u q x (with_hot_at (Some now) (with_hot (Some e) x))
| p_unhot reason d now : q = QCleared u reason d now -> prim v u q x (with_hot_at None (with_hot None x))
| p_refuse reason now : q = QRefused u reason now -> prim v u q x (refused reason now x).

Lemma prim_uuid v u q x y : prim v u q x y -> rr_uuid y = rr_uuid x.
Proof.
  intros H; destruct H; try done.
  - by inversion H.
  - unfold to_standby. by destruct (bool_decide _).
  - unfold to_standby. by destruct (bool_decide _).
  - unfold admitted. repeat case_bool_decide; done.
Qed.
#[export] Hint Constructors prim : core.

(** [r'] is [r] with every leg moved by [q], and nothing else about its
    membership changed. *)
Definition moves (v : string) (q : sync_request) (r r' : VolumeSyncRecord) : Prop :=
  rep_uuids r' = rep_uuids r /\
  forall u x, rep_get r u = Some x -> exists y, rep_get r' u = Some y /\ rtc (prim v u q) x y.

Lemma moves_refl v q r : moves v q r r.
Proof. split; [done|]. intros u x Hx. exists x. split; [done|apply rtc_refl]. Qed.
Lemma moves_trans v q r1 r2 r3 : moves v q r1 r2 -> moves v q r2 r3 -> moves v q r1 r3.
Proof.
  intros [U1 M1] [U2 M2]. split; [congruence|]. intros u x (y & Hy & H1)%M1. destruct (M2 _ _ Hy) as (z & Hz & H2).
  exists z. split; [done|]. by etrans.
Qed.
(** The record apart from its legs does not matter. *)
Lemma moves_rest v q r r' r'' : moves v q r r' -> vr_replicas r'' = vr_replicas r' -> moves v q r r''.
Proof. intros [U M] E. unfold moves, rep_uuids, rep_get. by rewrite E. Qed.

Lemma moves_upd v q r u f : keeps_uuid f ->
  (forall x, rep_get r u = Some x -> rtc (prim v u q) x (f x)) -> moves v q r (rep_upd u f r).
Proof.
  intros Hk Hf. split; [by apply uuids_upd|]. intros u' x Hx. rewrite get_upd by done.
  destruct (String.eqb_spec u u') as [<-|Hne]; [|exists x; split; [done|apply rtc_refl]].
  rewrite Hx. exists (f x). split; [done|]. by apply Hf.
Qed.
Lemma moves_upd_once v q r u f : keeps_uuid f ->
  (forall x, rep_get r u = Some x -> prim v u q x (f x)) -> moves v q r (rep_upd u f r).
Proof. intros Hk Hf. apply moves_upd; [done|]. intros x Hx. apply rtc_once. by apply Hf. Qed.

Lemma drop_writer_replicas u now r : vr_replicas (drop_writer u now r) = vr_replicas r.
Proof. unfold drop_writer. by destruct (vr_writers r). Qed.

Lemma moves_mark_stale v q r u reason now : drops q u -> moves v q r (mark_stale u reason now r).2.
Proof.
  intros Hd. unfold mark_stale. destruct (rep_get r u) as [x|] eqn:Hx; [destruct (rr_state x) eqn:Hs|]; simpl;
    (eapply moves_rest; [|apply drop_writer_replicas]); try apply moves_refl; apply moves_upd_once; try done;
    intros y Hy; simplify_eq; auto.
Qed.

Lemma moves_foldl {A} v q (f : VolumeSyncRecord -> A -> VolumeSyncRecord) l r :
  (forall a r, a ∈ l -> moves v q r (f r a)) -> moves v q r (foldl f r l).
Proof.
  revert r. induction l as [|a l IH]; intros r Hf; [apply moves_refl|]. simpl.
  eapply moves_trans; [apply Hf; by left|]. apply IH. intros b r' Hb. apply Hf. by right.
Qed.

Lemma upd_upd u f g r : keeps_uuid f -> rep_upd u g (rep_upd u f r) = rep_upd u (fun x => g (f x)) r.
Proof.
  intros Hf. unfold rep_upd, put_replicas. simpl. f_equal. induction (vr_replicas r) as [|x l IH]; [done|].
  simpl. destruct (has_uuid u x) eqn:Hx; simpl.
  - unfold has_uuid. rewrite Hf. by replace (String.eqb (rr_uuid x) u) with true.
  - by rewrite Hx, IH.
Qed.

Lemma keeps_standby e reason now : keeps_uuid (to_standby e reason now).
Proof. intros x. unfold to_standby. by destruct (bool_decide _). Qed.
Lemma keeps_admitted e reason now : keeps_uuid (admitted e reason now).
Proof. intros x. unfold admitted. repeat case_bool_decide; done. Qed.
#[export] Hint Resolve keeps_standby keeps_admitted : core.

Lemma upd_missing u f r : rep_get r u = None -> rep_upd u f r = r.
Proof.
  unfold rep_get, rep_upd, put_replicas. intros Hn. destruct r as [a b c d w l]. simpl in *. f_equal.
  induction l as [|x l IH]; [done|]. simpl in *. destruct (has_uuid u x); [done|by rewrite IH].
Qed.

Lemma standby_upd r u e reason now : (mark_standby u e reason now r).2 = rep_upd u (to_standby e reason now) r.
Proof. unfold mark_standby. destruct (rep_get r u) as [x|] eqn:Hx; [done|]. by rewrite upd_missing. Qed.

Lemma cut_replicas e cut now r : vr_replicas (apply_epoch_cut e cut now r) =
  (fun x => if bool_decide (rr_state x = InSync) && bool_decide (rr_uuid x ∈ cut) then set_last_epoch e x else x) <$> vr_replicas r.
Proof. unfold apply_epoch_cut. destruct (existsb _ _); done. Qed.

Lemma get_cut e cut now r u : rep_get (apply_epoch_cut e cut now r) u =
  (fun x => if bool_decide (rr_state x = InSync) && bool_decide (rr_uuid x ∈ cut) then set_last_epoch e x else x) <$> rep_get r u.
Proof.
  unfold rep_get. rewrite cut_replicas. induction (vr_replicas r) as [|x l IH]; [done|]. rewrite fmap_cons. simpl.
  assert (has_uuid u (if bool_decide (rr_state x = InSync) && bool_decide (rr_uuid x ∈ cut) then set_last_epoch e x else x) = has_uuid u x)
    as -> by (destruct (_ && _); done).
  by destruct (has_uuid u x).
Qed.

Lemma moves_cut v q e cut now r : moves v q r (apply_epoch_cut e cut now r).
Proof.
  split.
  - unfold rep_uuids. rewrite cut_replicas, <- list_fmap_compose. apply list_fmap_ext. intros k x _. simpl.
    destruct (_ && _); done.
  - intros u x Hx. rewrite get_cut, Hx. eexists. split; [done|]. apply rtc_once, p_note. by destruct (_ && _).
Qed.

Lemma retire_replicas v pin names r : vr_replicas (retire_loop v pin names r).2 = vr_replicas r.
Proof.
  revert r. induction names as [|n names IH]; intros r; [done|]. simpl. destruct (bool_decide _); [done|].
  destruct (epoch_seq v n); [|done]. destruct (match pin with Some _ => _ | None => _ end); [done|].
  specialize (IH (put_epochs (filter (fun e => ee_name e <> n) (vr_epochs r)) r)). by destruct (retire_loop _ _ _ _).
Qed.

Lemma refuse_upd u reason now r : vr_replicas (refuse_hot_rejoin u reason now r).2 = vr_replicas (rep_upd u (refused reason now) r).
Proof.
  unfold refuse_hot_rejoin. destruct (rep_get r u) as [x|] eqn:Hx; [apply drop_writer_replicas|].
  by rewrite upd_missing.
Qed.
Lemma in_sync_upd u e reason now r : vr_replicas (mark_in_sync u e reason now r).2 = vr_replicas (rep_upd u (admitted e reason now) r).
Proof.
  unfold mark_in_sync. destruct (rep_get r u) as [x|] eqn:Hx; [|by rewrite upd_missing].
  assert (vr_replicas (add_writer u now (rep_upd u (admitted e reason now) r)).2 = vr_replicas (rep_upd u (admitted e reason now) r)) as E.
  { unfold add_writer. destruct (vr_writers _); [by case_bool_decide|done]. }
  destruct (add_writer _ _ _) as [grew r1]. simpl in *. by destruct (bool_decide _ && _).
Qed.
Lemma revert_upd v u base head r : (apply_revert v u base head r).2 = rep_upd u (reverted v base head) r.
Proof. unfold apply_revert. destruct (rep_get r u) eqn:Hx; [done|]. by rewrite upd_missing. Qed.
Lemma pin_replicas v e r : vr_replicas (pin_retention v e r).2 = vr_replicas r.
Proof. unfold pin_retention. by destruct (match vr_pin r with Some _ => _ | None => _ end). Qed.
Lemma advance_replicas v r : vr_replicas (advance_retention_pin v r).2 = vr_replicas r.
Proof.
  unfold advance_retention_pin. destruct (_ ≫= epoch_seq v); [|done]. destruct (_ ≫= list_min); [|done]. by destruct (_ <=? _).
Qed.
Lemma set_writers_replicas us now r : vr_replicas (set_writer_set us now r).2 = vr_replicas r.
Proof. unfold set_writer_set. destruct (vr_writers r); [by case_bool_decide|done]. Qed.

Lemma moves_drain parse v u deadline now r : moves v (QDrain u deadline now) r (drain_for_maintenance parse u deadline now r).2.
Proof.
  unfold drain_for_maintenance. destruct (rep_get r u) as [x|]; [|apply moves_refl].
  case_bool_decide; [apply moves_refl|]. destruct (existsb _ _); [apply moves_refl|]. destruct (_ && _); [apply moves_refl|].
  pose proof (moves_mark_stale v (QDrain u deadline now) r u "maintenance drain (planned roll)" now eq_refl) as Hm.
  destruct (mark_stale _ _ _ _) as [c r1]. simpl in *. destruct (rep_get r1 u) as [x1|]; [|done]. case_bool_decide; [done|].
  eapply moves_trans; [done|]. simpl. apply moves_upd_once; [done|]. intros y _. by apply p_note.
Qed.

Lemma moves_intent parse v u e now r : moves v (QIntent u e now) r (mark_hot_rejoin_intent parse u e now r).2.
Proof.
  unfold mark_hot_rejoin_intent. destruct (existsb _ _); [apply moves_refl|]. destruct (rep_get r u) as [x|] eqn:Hx; [|apply moves_refl].
  destruct (rr_state x) eqn:Hs; [apply moves_refl| |].
  - case_bool_decide; [apply moves_refl|]. apply moves_upd_once; [done|]. intros y Hy. simplify_eq. by eapply p_claim.
  - case_bool_decide; [|apply moves_refl]. apply moves_upd_once; [done|]. intros y Hy. simplify_eq. by eapply p_window.
Qed.

Lemma moves_flip v u e cut head now r : moves v (QFlip u e cut head now) r (mark_hot_rejoined u e cut head now r).2.
Proof.
  unfold mark_hot_rejoined. simpl. eapply moves_trans; [apply (moves_cut v _ e cut now)|].
  rewrite standby_upd, upd_upd by done. apply moves_upd_once.
  - intros x. exact (keeps_standby _ _ _ x).
  - intros x _. by eapply p_flip.
Qed.

Lemma moves_cleared v u reason d now r : moves v (QCleared u reason d now) r (clear_hot_rejoin u reason d now r).2.
Proof.
  unfold clear_hot_rejoin.
  assert (moves v (QCleared u reason d now) r (if d then mark_stale u reason now r else (false, r)).2) as H.
  { destruct d; [by apply moves_mark_stale|apply moves_refl]. }
  destruct (if d then mark_stale u reason now r else (false, r)) as [c r1]. simpl in *. destruct (rep_get r1 u); [|done].
  case_bool_decide; [|done]. eapply moves_trans; [done|]. simpl. apply moves_upd_once; [done|]. intros y _. by eapply p_unhot.
Qed.

Definition is_replace (q : sync_request) : bool := match q with QReplace _ _ _ _ _ _ _ _ => true | _ => false end.

Lemma mutate_moves parse v q r : is_replace q = false -> moves v q r (mutate parse v q r).
Proof.
  destruct q; intros Hq; try discriminate Hq; cbn [mutate].
  - apply moves_refl.
  - eapply moves_rest; [apply moves_refl|apply pin_replicas].
  - rewrite revert_upd. apply moves_upd_once; [done|]. intros x _. by eapply p_revert.
  - unfold note_copy_source. destruct (rep_get r src) as [s|]; [|apply moves_refl]. destruct (rep_get r dst) as [d|]; [|apply moves_refl].
    case_bool_decide; [apply moves_refl|]. apply moves_upd_once; [done|]. intros x _. by eapply p_copy.
  - eapply moves_rest; [|apply advance_replicas]. rewrite standby_upd. apply moves_upd_once; [done|]. intros x _. by eapply p_standby.
  - apply moves_upd_once; [done|]. intros x _. by apply p_note.
  - by apply moves_mark_stale.
  - apply moves_drain.
  - unfold set_maint_drain. destruct (rep_get r u) as [x|]; [|apply moves_refl]. case_bool_decide; [apply moves_refl|].
    apply moves_upd_once; [done|]. intros y _. by apply p_note.
  - apply moves_cut.
  - eapply moves_rest; [|apply in_sync_upd]. apply moves_upd_once; [done|]. intros x _. by eapply p_admit.
  - unfold add_snapshot_tombstone. case_bool_decide; [apply moves_refl|]. case_bool_decide; [apply moves_refl|].
    eapply moves_rest; [apply moves_refl|done].
  - eapply moves_rest; [apply moves_refl|done].
  - apply moves_intent.
  - apply moves_flip.
  - apply moves_cleared.
  - eapply moves_rest; [|apply refuse_upd]. apply moves_upd_once; [done|]. intros x _. by eapply p_refuse.
  - eapply moves_rest; [apply moves_refl|]. unfold retire_epochs. destruct (vr_pin r) as [pin|]; [|apply retire_replicas].
    destruct (epoch_seq v pin); [apply retire_replicas|done].
  - apply moves_foldl. intros u r' Hu. by apply moves_mark_stale.
  - eapply moves_rest; [|apply set_writers_replicas]. apply moves_foldl. intros [u why] r' Hu. apply moves_mark_stale. simpl.
    apply list_elem_of_fmap. exists (u, why). done.
Qed.

(** ** One update of the record *)
Definition new_leg (u : string) (x : ReplicaSyncRecord) : Prop :=
  rr_uuid x = u /\ rr_state x = Stale /\ rr_reverted x = None /\ rr_hot x = None /\ rr_copied x = [] /\ rr_floor x = None /\ rr_must x = false.

Lemma find_replaced u old z l y : NoDup (rr_uuid <$> l) ->
  find_first (has_uuid u) (update_first (has_uuid old) (fun _ => z) l) = Some y ->
  y = z \/ find_first (has_uuid u) l = Some y.
Proof.
  induction l as [|x l IH]; simpl update_first; [by right|]. rewrite fmap_cons, NoDup_cons. intros [Hx Hl].
  destruct (has_uuid old x); simpl.
  - destruct (has_uuid u z); [intros [= ->]; by left|]. intros Hy. right. destruct (has_uuid u x) eqn:Hu; [|done].
    exfalso. apply Hx. apply has_uuid_spec in Hu. apply find_first_Some in Hy as [Hin Hy]. apply has_uuid_spec in Hy.
    rewrite Hu, <- Hy. apply list_elem_of_fmap. eauto.
  - destruct (has_uuid u x); [by right|]. by apply IH.
Qed.

Lemma prune_replicas g r : vr_replicas (prune_writers_for_replacement g r).2 = vr_replicas r.
Proof. unfold prune_writers_for_replacement. by destruct (vr_writers r). Qed.

Lemma update_back parse v l q r u y : NoDup (info_uuids l) -> rep_get (sync_update parse v l q r) u = Some y ->
  exists x, (rep_get r u = Some x \/ new_leg u x) /\ rtc (prim v u q) x y.
Proof.
  intros Hnd Hy. unfold sync_update in Hy. destruct (is_replace q) eqn:Hq.
  - destruct q; try discriminate Hq. exists y. split; [|apply rtc_refl]. simpl mutate in Hy.
    unfold build_swapped_record in Hy.
    assert (forall r', rep_get (reconcile_membership l r).2 u = Some r' -> rep_get r u = Some r' \/ new_leg u r') as Hrec.
    { intros z [Hz|(_ & i & reason & -> & Hi)]%reconcile_leg; [by left|]. right. by split_and!. }
    case_bool_decide; simpl in Hy; [|by apply Hrec].
    unfold rep_get in Hy. rewrite prune_replicas in Hy.
    apply reconcile_leg in Hy as [Hy|(_ & i & reason & -> & Hi)]; [|right; by split_and!].
    rewrite <- (uuids_reconcile l r) in Hnd. destruct (find_replaced _ _ _ _ _ Hnd Hy) as [->|Hz]; [|by apply Hrec].
    right. apply find_first_Some in Hy as [_ Hy]. simpl in Hy. apply String.eqb_eq in Hy. by split_and!.
  - destruct (mutate_moves parse v q (reconcile_membership l r).2 Hq) as [HU HM].
    assert (is_Some (rep_get (reconcile_membership l r).2 u)) as [x Hx].
    { apply get_is_Some. rewrite <- HU. apply get_is_Some. eauto. }
    destruct (HM _ _ Hx) as (y' & Hy' & Hr). simplify_eq. exists x. split; [|done].
    apply reconcile_leg in Hx as [Hx|(_ & i & reason & -> & Hi)]; [by left|]. right. by split_and!.
Qed.
