(* ===== verification/ReplicaInv.v ===== *)
(** What every reachable sync record satisfies: an in-sync leg is complete, a
    standby is built, a leg becomes in sync only by admission, the writer set
    is a set, and a copy source that still vouches for its copy was in sync
    all along. *)

From Stdlib Require Import Ascii String.
From S2P Require Import Prelude Csv FreshnessGate ReplicaSync ReplicaStore ReplicaProps.

(** ** Legs *)
Definition leg_ok (x : ReplicaSyncRecord) : Prop :=
  (rr_state x = InSync -> rr_reverted x = None /\ rr_empty x = false /\ rr_copied x = [] /\ rr_floor x = None /\
    rr_must x = false /\ rr_hot x = None) /\
  (rr_state x = Standby -> rr_empty x = false).
Definition legs_ok (r : VolumeSyncRecord) : Prop := forall u x, rep_get r u = Some x -> leg_ok x.

(** What holds of a leg whatever the requests. *)
Definition leg_sane (x : ReplicaSyncRecord) : Prop :=
  (rr_state x = InSync -> rr_empty x = false /\ rr_must x = false /\ rr_hot x = None) /\
  (rr_state x = Standby -> rr_empty x = false).

(** A revert of the leg, or a copy onto it: the catch-up makes them on legs
    it is rebuilding, but the record is not asked whether the leg still is. *)
Definition rebuilds (u : string) (q : sync_request) : bool :=
  match q with QRevert u' _ _ | QCopySource u' _ => String.eqb u' u | _ => false end.
Definition guard (q : sync_request) (u : string) (x : ReplicaSyncRecord) : Prop :=
  rebuilds u q = true -> rr_state x <> InSync.

Lemma same_core_state x y : same_core x y -> rr_state y = rr_state x.
Proof. intros H. by inversion H. Qed.

Lemma prim_ok v u q x y : prim v u q x y -> guard q u x -> leg_ok x -> leg_ok y /\ guard q u y.
Proof.
  intros H Hg Hx. destruct H; simpl in *.
  - injection H as E1 E2 E3 E4 E5 E6 E7 E8 E9 E10. unfold leg_ok, guard. rewrite E2, E5, E6, E7, E8, E9, E10.
    split; [exact Hx|exact Hg].
  - split; [by split|]. by intros ? ?.
  - split; [by split|]. by intros ? ?.
  - subst. unfold guard in *. simpl in *. rewrite String.eqb_refl in *. specialize (Hg eq_refl). split; [|done]. split; [done|]. simpl. apply Hx.
  - subst. unfold guard in *. simpl in *. rewrite String.eqb_refl in *. specialize (Hg eq_refl). split; [|done]. split; [done|]. simpl. apply Hx.
  - subst. split; [|done]. unfold to_standby. case_bool_decide as Hs; split; simpl; try done; congruence.
  - subst. split; [|done]. unfold hot_rejoined, to_standby. case_bool_decide as Hs; split; simpl; try done; congruence.
  - subst. split; [|done]. unfold admitted. simpl. repeat case_bool_decide; simpl in *; split; try done; intros _;
      destruct (rr_hot x) as [h|] eqn:Hh; simpl in *; try done; exfalso; naive_solver.
  - subst. split; [|done]. by split.
  - subst. split; [|done]. split; simpl; congruence.
  - subst. split; [|done]. split; simpl; [|apply Hx]. intros Hs. destruct Hx as [Hx _]. destruct (Hx Hs) as (? & ? & ? & ? & ? & ?).
    by split_and!.
  - subst. split; [|done]. by split.
Qed.

Lemma prims_ok v u q x y : rtc (prim v u q) x y -> guard q u x -> leg_ok x -> leg_ok y.
Proof.
  induction 1 as [|x z y H _ IH]; [done|]. intros Hg Hx. destruct (prim_ok _ _ _ _ _ H Hg Hx). by apply IH.
Qed.

Lemma prim_sane v u q x y : prim v u q x y -> leg_sane x -> leg_sane y.
Proof.
  intros H Hx. destruct H; simpl in *; subst.
  - injection H as E1 E2 E3 E4 E5 E6 E7 E8 E9 E10. unfold leg_sane. by rewrite E2, E6, E7, E10.
  - by split.
  - by split.
  - split; simpl; [|apply Hx]. intros Hs. by destruct (proj1 Hx Hs) as (? & _).
  - exact Hx.
  - unfold to_standby. case_bool_decide as Hs; split; simpl; try done; congruence.
  - unfold hot_rejoined, to_standby. case_bool_decide as Hs; split; simpl; try done; congruence.
  - unfold admitted. simpl. repeat case_bool_decide; simpl in *; split; try done; intros _;
      destruct (rr_hot x) as [h|] eqn:Hh; simpl in *; try done; exfalso; naive_solver.
  - by split.
  - split; simpl; congruence.
  - split; simpl; [|apply Hx]. intros Hs. by destruct (proj1 Hx Hs) as (? & ? & _).
  - by split.
Qed.

Lemma new_leg_ok u x : new_leg u x -> leg_ok x.
Proof. intros (_ & Hs & _). split; congruence. Qed.
Lemma new_leg_guard q u x : new_leg u x -> guard q u x.
Proof. intros (_ & Hs & _) _. congruence. Qed.
Lemma leg_ok_sane x : leg_ok x -> leg_sane x.
Proof. intros [H1 H2]. split; [|done]. intros Hs. by destruct (H1 Hs) as (_ & ? & _ & _ & ? & ?). Qed.

Lemma update_leg_ok parse v l q r u y : NoDup (info_uuids l) -> rep_get (sync_update parse v l q r) u = Some y ->
  (forall x, rep_get r u = Some x -> leg_ok x /\ guard q u x) -> leg_ok y.
Proof.
  intros Hnd Hy Hr. destruct (update_back _ _ _ _ _ _ _ Hnd Hy) as (x & [Hx|Hx] & Hm).
  - destruct (Hr x Hx). by eapply prims_ok.
  - eapply prims_ok; [done|by apply new_leg_guard|by eapply new_leg_ok].
Qed.
Lemma update_leg_sane parse v l q r u y : NoDup (info_uuids l) -> rep_get (sync_update parse v l q r) u = Some y ->
  (forall x, rep_get r u = Some x -> leg_sane x) -> leg_sane y.
Proof.
  intros Hnd Hy Hr. destruct (update_back _ _ _ _ _ _ _ Hnd Hy) as (x & Hx & Hm).
  assert (leg_sane x) as Hs by (destruct Hx as [Hx|Hx]; [by apply Hr|by eapply leg_ok_sane, new_leg_ok]).
  clear Hx Hy. induction Hm as [|x z y H _ IH]; [done|]. by eapply IH, prim_sane.
Qed.

(** ** Creation *)
Lemma get_stale r u reason now u' : rep_get (mark_stale u reason now r).2 u' =
  if String.eqb u u' then
    (fun x => match rr_state x with Standby => demote reason now x | InSync => new_episode reason now x | Stale => x end) <$> rep_get r u'
  else rep_get r u'.
Proof.
  unfold mark_stale. destruct (rep_get r u) as [x|] eqn:Hx; [destruct (rr_state x) eqn:Hs|]; unfold rep_get at 1; simpl;
    rewrite drop_writer_replicas.
  - fold (rep_get (rep_upd u (new_episode reason now) r) u'). rewrite get_upd by done.
    destruct (String.eqb_spec u u') as [<-|]; [|done]. rewrite Hx. simpl. by rewrite Hs.
  - fold (rep_get r u'). destruct (String.eqb_spec u u') as [<-|]; [|done]. rewrite Hx. simpl. by rewrite Hs.
  - fold (rep_get (rep_upd u (demote reason now) r) u'). rewrite get_upd by done.
    destruct (String.eqb_spec u u') as [<-|]; [|done]. rewrite Hx. simpl. by rewrite Hs.
  - fold (rep_get r u'). destruct (String.eqb_spec u u') as [<-|]; [|done]. by rewrite Hx.
Qed.

Lemma stale_after r u reason now x : rep_get (mark_stale u reason now r).2 u = Some x -> rr_state x = Stale.
Proof.
  rewrite get_stale, String.eqb_refl. destruct (rep_get r u) as [y|]; simpl; [|done]. intros [= <-].
  by destruct (rr_state y) eqn:Hs.
Qed.

Lemma get_initial l u : rep_get (initial l) u = fresh_rep InSync None <$> find_first (fun i => String.eqb (ri_uuid i) u) l.
Proof.
  unfold rep_get, initial. simpl. induction l as [|i l IH]; [done|]. rewrite fmap_cons. simpl.
  change (has_uuid u (fresh_rep InSync None i)) with (String.eqb (ri_uuid i) u). by destruct (String.eqb _ _).
Qed.

Lemma initial_ok l stale now : legs_ok (initial_seeded l stale now).
Proof.
  unfold initial_seeded. assert (legs_ok (initial l)) as H0.
  { intros u x. rewrite get_initial. destruct (find_first _ l); simpl; [|done]. by intros [= <-]. }
  revert H0. generalize (initial l). induction stale as [|u stale IH]; intros r Hr; [done|]. simpl. apply IH.
  intros u' x. rewrite get_upd by done. destruct (String.eqb_spec u u') as [<-|Hne].
  - destruct (rep_get (mark_stale u SEEDED_STALE_REASON now r).2 u) as [y|] eqn:Hy; simpl; [|done]. intros [= <-].
    apply stale_after in Hy. split; simpl; congruence.
  - rewrite get_stale. destruct (String.eqb_spec u u'); [done|]. apply Hr.
Qed.

(** ** Runs *)
Definition uuids_distinct (qs : list (list ReplicaInfo * sync_request)) : Prop := Forall (fun q => NoDup (info_uuids q.1)) qs.

(** Somewhere in the run the leg was reverted, or copied onto, while the
    record had it in sync. *)
Definition rebuilt_in_sync (parse : string -> option Z) (v : string) (r0 : VolumeSyncRecord)
    (qs : list (list ReplicaInfo * sync_request)) (u : string) : Prop :=
  exists k q x, qs !! k = Some q /\ rebuilds u q.2 = true /\
    rep_get (sync_run parse v (take k qs) r0) u = Some x /\ rr_state x = InSync.

Lemma run_snoc parse v qs q r : sync_run parse v (qs ++ [q]) r = sync_update parse v q.1 q.2 (sync_run parse v qs r).
Proof. unfold sync_run. by rewrite foldl_app. Qed.

Lemma rebuilt_app parse v r0 qs q u : rebuilt_in_sync parse v r0 qs u -> rebuilt_in_sync parse v r0 (qs ++ [q]) u.
Proof.
  intros (k & q' & x & Hk & H). exists k, q', x. apply lookup_lt_Some in Hk as Hlt. split; [by rewrite lookup_app_l|].
  by rewrite take_app_le by lia.
Qed.

Lemma run_leg_sane parse v r0 qs u : legs_ok r0 -> uuids_distinct qs ->
  forall x, rep_get (sync_run parse v qs r0) u = Some x -> leg_sane x.
Proof.
  intros H0 Hd. induction qs as [|q qs IH] using rev_ind; intros x Hx; [by eapply leg_ok_sane, H0|].
  apply Forall_app in Hd as [Hd Hq]. apply Forall_cons_1 in Hq as [Hq _]. rewrite run_snoc in Hx.
  eapply update_leg_sane; [exact Hq|exact Hx|]. by apply IH.
Qed.

Lemma run_leg_ok parse v r0 qs u : legs_ok r0 -> uuids_distinct qs ->
  forall x, rep_get (sync_run parse v qs r0) u = Some x -> leg_ok x \/ rebuilt_in_sync parse v r0 qs u.
Proof.
  intros H0 Hd. induction qs as [|q qs IH] using rev_ind; intros y Hy; [left; by eapply H0|].
  apply Forall_app in Hd as [Hd Hq]. apply Forall_cons_1 in Hq as [Hq _]. rewrite run_snoc in Hy.
  destruct (rep_get (sync_run parse v qs r0) u) as [x|] eqn:Hx; [|left; eapply update_leg_ok; [done|done|]; intros; congruence].
  destruct (IH Hd x eq_refl) as [Hok|Hb]; [|right; by apply rebuilt_app].
  destruct (decide (rebuilds u q.2 = true /\ rr_state x = InSync)) as [[Hr Hs]|Hn].
  - right. exists (length qs), q, x. rewrite lookup_app_r, Nat.sub_diag by done. by rewrite take_app_length.
  - left. eapply update_leg_ok; [done|done|]. intros x' Hx'. simplify_eq. split; [done|]. intros Hr Hs. by apply Hn.
Qed.

(** ** A leg becomes in sync by admission only *)
Definition in_sync_since (r : VolumeSyncRecord) (u : string) (s : option string) : Prop :=
  exists x, rep_get r u = Some x /\ rr_state x = InSync /\ rr_since x = s.

Lemma prim_in_sync_back v u q x y : prim v u q x y -> rr_state y = InSync ->
  (forall e now, q = QInSync u e now -> rr_since y <> Some now) -> rr_state x = InSync /\ rr_since x = rr_since y.
Proof.
  intros H Hs Hf. destruct H; simpl in *; try done; try congruence.
  - injection H as E1 E2 E3 _ _ _ _ _ _ _. by rewrite <- E2, <- E3.
  - revert Hs. case_bool_decide as Hb; simpl; [by rewrite Hb|done].
  - revert Hs. case_bool_decide as Hb; simpl; [by rewrite Hb|done].
  - specialize (Hf _ _ H). revert Hs Hf. unfold admitted. simpl. repeat case_bool_decide; simpl; intros; try done; congruence.
Qed.

Lemma prims_in_sync_back v u q x y : rtc (prim v u q) x y -> rr_state y = InSync ->
  (forall e now, q = QInSync u e now -> rr_since y <> Some now) -> rr_state x = InSync /\ rr_since x = rr_since y.
Proof.
  induction 1 as [|x z y H _ IH]; [done|]. intros Hs Hf. destruct (IH Hs Hf) as [Hz Ez]. rewrite <- Ez in Hf |- *.
  by apply (prim_in_sync_back _ _ _ _ _ H).
Qed.

Lemma in_sync_back parse v l q r u s : NoDup (info_uuids l) -> (forall e now, q = QInSync u e now -> s <> Some now) ->
  in_sync_since (sync_update parse v l q r) u s -> in_sync_since r u s.
Proof.
  intros Hnd Hf (y & Hy & Hs & <-). destruct (update_back _ _ _ _ _ _ _ Hnd Hy) as (x & Hx & Hm).
  destruct (prims_in_sync_back _ _ _ _ _ Hm Hs Hf) as [Hxs Hxe]. destruct Hx as [Hx|(_ & Hx & _)]; [|congruence].
  by exists x.
Qed.


(** The clock has moved past [s] whenever the leg is admitted again. *)
Definition clock_past (u : string) (s : option string) (qs : list (list ReplicaInfo * sync_request)) : Prop :=
  Forall (fun q => forall e now, q.2 = QInSync u e now -> s <> Some now) qs.

Lemma run_app parse v qs qs' r : sync_run parse v (qs ++ qs') r = sync_run parse v qs' (sync_run parse v qs r).
Proof. apply foldl_app. Qed.

Lemma run_in_sync_back parse v qs r u s k : uuids_distinct qs -> clock_past u s qs ->
  in_sync_since (sync_run parse v qs r) u s -> in_sync_since (sync_run parse v (take k qs) r) u s.
Proof.
  revert k. induction qs as [|q qs IH] using rev_ind; intros k Hd Hc Hi; [by destruct k|].
  apply Forall_app in Hd as [Hd Hdq], Hc as [Hc Hcq]. apply Forall_cons_1 in Hdq as [Hdq _], Hcq as [Hcq _]. rewrite run_snoc in Hi.
  destruct (decide (length qs < k)%nat).
  - rewrite take_ge by (rewrite length_app; simpl; lia). by rewrite run_app.
  - rewrite take_app_le by lia. apply IH; [done..|]. exact (in_sync_back _ _ _ _ _ _ _ Hdq Hcq Hi).
Qed.

Definition admits (u : string) (q : sync_request) : bool := match q with QInSync u' _ _ => String.eqb u' u | _ => false end.

Lemma admission_needed parse v qs r u : uuids_distinct qs ->
  (forall x, rep_get r u = Some x -> rr_state x <> InSync) -> (exists s, in_sync_since (sync_run parse v qs r) u s) ->
  exists l e now, (l, QInSync u e now) ∈ qs.
Proof.
  intros Hd Hn [s Hs]. destruct (decide (Exists (fun q => admits u q.2 = true) qs)) as [He|He].
  - apply Exists_exists in He as ([l q] & Hin & Hq). destruct q; simpl in Hq; try done. apply String.eqb_eq in Hq as ->. eauto.
  - assert (in_sync_since (sync_run parse v (take 0 qs) r) u s) as (x & Hx & Hxs & _).
    { apply run_in_sync_back; [done| |done]. apply Forall_forall. intros q Hq e now Heq. exfalso. apply He, Exists_exists.
      exists q. split; [done|]. rewrite Heq. simpl. apply String.eqb_refl. }
    by destruct (Hn x).
Qed.

(** ** Forward: a leg under catch-up *)
(** [q] neither reverts, admits nor replaces [u], and [u] stays a member. *)
Definition stays (u : string) (q : list ReplicaInfo * sync_request) : Prop :=
  u ∈ info_uuids q.1 /\
  match q.2 with
  | QInSync u' _ _ => u' <> u
  | QReplace old _ _ new _ _ _ infos => old <> u /\ new <> u /\ u ∈ info_uuids infos
  | _ => True
  end.

Lemma find_replace_other u old z l : rr_uuid z <> u -> old <> u ->
  find_first (has_uuid u) (update_first (has_uuid old) (fun _ => z) l) = find_first (has_uuid u) l.
Proof.
  intros Hz Ho. induction l as [|x l IH]; [done|]. simpl. destruct (has_uuid old x) eqn:Hx; simpl.
  - apply has_uuid_spec in Hx. destruct (has_uuid u z) eqn:E1; [by apply has_uuid_spec in E1|].
    destruct (has_uuid u x) eqn:E2; [apply has_uuid_spec in E2; congruence|done].
  - by rewrite IH.
Qed.

Lemma update_forward parse v l q r u x : stays u (l, q) -> rep_get r u = Some x ->
  exists y, rep_get (sync_update parse v l q r) u = Some y /\ rtc (prim v u q) x y.
Proof.
  intros [Hl Hq] Hx. apply (reconcile_present l) in Hx; [|done]. unfold sync_update. destruct (is_replace q) eqn:Hr.
  - destruct q; try discriminate Hr. simpl in Hq. destruct Hq as (H1 & H2 & H3). exists x. split; [|apply rtc_refl].
    simpl mutate. unfold build_swapped_record. case_bool_decide; simpl; [|done]. unfold rep_get. rewrite prune_replicas.
    apply reconcile_present; [|done]. unfold rep_get. simpl. by rewrite find_replace_other.
  - destruct (mutate_moves parse v q (reconcile_membership l r).2 Hr) as [_ HM]. by apply HM.
Qed.

(** A listed source stays listed until a revert clears the list, or the leg
    is marked for one. *)
Definition listed (c : CopySource) (x : ReplicaSyncRecord) : Prop :=
  rr_state x <> InSync /\ (rr_must x = false -> c ∈ rr_copied x).

Lemma prim_listed v u q c x y : prim v u q x y -> (forall b h, q <> QRevert u b h) -> (forall e now, q <> QInSync u e now) ->
  listed c x -> listed c y.
Proof.
  intros H Hr Hi [Hs Hc]. destruct H; unfold listed; simpl; try done; try congruence; try (by exfalso; eapply Hr); try (by exfalso; eapply Hi).
  - injection H as E1 E2 E3 E4 E5 E6 E7 E8 E9 E10. by rewrite E2, E8, E10.
  - split; [done|]. intros Hm. apply elem_of_app. left. by apply Hc.
  - unfold to_standby. case_bool_decide; done.
  - unfold to_standby. case_bool_decide; done.
Qed.

Lemma prims_listed v u q c x y : rtc (prim v u q) x y -> (forall b h, q <> QRevert u b h) -> (forall e now, q <> QInSync u e now) ->
  listed c x -> listed c y.
Proof. induction 1 as [|x z y H _ IH]; [done|]. intros ???. apply IH; [done..|]. by eapply prim_listed. Qed.

Definition reverts (u : string) (q : sync_request) : Prop := match q with QRevert u' _ _ => u' = u | _ => False end.

Lemma run_listed parse v u c qs r x : Forall (stays u) qs -> Forall (fun q => ~ reverts u q.2) qs ->
  rep_get r u = Some x -> listed c x -> exists y, rep_get (sync_run parse v qs r) u = Some y /\ listed c y.
Proof.
  revert r x. induction qs as [|[l q] qs IH]; intros r x Hs Hr Hx Hc; [by exists x|].
  apply Forall_cons in Hs as [Hs1 Hs], Hr as [Hr1 Hr]. destruct (update_forward parse v l q r u x Hs1 Hx) as (y & Hy & Hm).
  apply (IH _ y); [done..|]. eapply prims_listed; [done| | |done].
  - intros b h ->. by apply Hr1.
  - intros e now ->. by destruct Hs1 as [_ Hs1].
Qed.

(** Noting a source lists it for a leg that is not in sync. *)
Lemma noted_listed parse v l dst src r s d : rep_get (reconcile_membership l r).2 src = Some s ->
  rep_get (reconcile_membership l r).2 dst = Some d -> rr_state d <> InSync ->
  exists d', rep_get (sync_update parse v l (QCopySource dst src) r) dst = Some d' /\ listed (source_entry s) d'.
Proof.
  intros Hs Hd Hst. unfold sync_update. cbn [mutate]. unfold note_copy_source. rewrite Hs, Hd. case_bool_decide as Hin.
  - exists d. done.
  - cbn [snd]. rewrite get_upd_same by done. rewrite Hd. eexists. split; [done|]. split; [done|]. intros _. simpl.
    apply elem_of_app. right. by left.
Qed.

(** An unbroken tie: every listed source is in sync, under the same episode,
    with the same head, and attached. *)
Lemma tie_holds r dst attached c x : source_tie_broken r dst attached = None -> rep_get r dst = Some x -> c ∈ rr_copied x ->
  exists y, rep_get r (cs_uuid c) = Some y /\ rr_state y = InSync /\ rr_since y = cs_since c /\
    live_lvol_uuid y = cs_head c /\ cs_uuid c ∈ attached.
Proof.
  unfold source_tie_broken. intros Ht Hx Hc. rewrite Hx in Ht. cbn [mbind option_bind] in Ht. apply head_None in Ht.
  assert (tie_broken r attached c = None) as E.
  { destruct (tie_broken r attached c) as [why|] eqn:Ew; [|done]. exfalso.
    assert ((cs_uuid c, why) ∈ omap (fun c => (fun why => (cs_uuid c, why)) <$> tie_broken r attached c) (rr_copied x)) as Hin.
    { apply list_elem_of_omap. exists c. split; [done|]. by rewrite Ew. }
    rewrite Ht in Hin. by apply elem_of_nil in Hin. }
  unfold tie_broken in E. destruct (rep_get r (cs_uuid c)) as [y|]; [|done]. exists y. split; [done|].
  case_bool_decide as H1; [|done]. cbn [negb] in E. case_bool_decide as H2; [|done]. cbn [negb] in E.
  destruct (String.eqb_spec (live_lvol_uuid y) (cs_head c)); [|done]. cbn [negb] in E. by case_bool_decide.
Qed.

(** ** The base floor of a stale episode *)
(** What does not parse as one of the volume's epochs is below every epoch. *)
Definition base_le (v a b : string) : Prop :=
  match epoch_seq v a, epoch_seq v b with
  | Some x, Some y => x <= y
  | None, _ => True
  | Some _, None => False
  end.

Lemma base_le_refl v a : base_le v a a.
Proof. unfold base_le. destruct (epoch_seq v a); [lia|done]. Qed.
Lemma base_le_trans v a b c : base_le v a b -> base_le v b c -> base_le v a c.
Proof. unfold base_le. destruct (epoch_seq v a), (epoch_seq v b), (epoch_seq v c); try done; lia. Qed.
Lemma lower_base_le v floor base : base_le v (lower_base v floor base) base /\
  forall f, floor = Some f -> base_le v (lower_base v floor base) f.
Proof.
  unfold lower_base. destruct floor as [f|]; [|split; [apply base_le_refl|done]]. unfold base_le.
  destruct (epoch_seq v f) as [x|] eqn:Hf, (epoch_seq v base) as [y|] eqn:Hb.
  - destruct (Z.ltb_spec y x); split; try intros ? [= <-]; rewrite ?Hf, ?Hb; lia.
  - rewrite Hb. split; [done|]. by intros ? [= <-].
  - rewrite Hf. split; [done|]. by intros ? [= <-].
  - rewrite Hf. split; [done|]. by intros ? [= <-].
Qed.

(** The leg is in a stale episode whose floor is at most [f]. *)
Definition floored (v f : string) (x : ReplicaSyncRecord) : Prop :=
  rr_state x <> InSync /\ exists f', rr_floor x = Some f' /\ base_le v f' f.

Lemma prim_floored v u q f x y : prim v u q x y -> (forall e now, q <> QInSync u e now) -> floored v f x -> floored v f y.
Proof.
  intros H Hi (Hs & f' & Hf & Hle). unfold floored. destruct H; simpl in *; try congruence; try (by exfalso; eapply Hi); try (by eauto).
  - injection H as E1 E2 E3 E4 E5 E6 E7 E8 E9 E10. rewrite E2, E9. eauto.
  - split; [done|]. eexists. split; [done|]. eapply base_le_trans; [|done]. by apply lower_base_le.
  - case_bool_decide; simpl; eauto.
  - case_bool_decide; simpl; eauto.
Qed.

Lemma prims_floored v u q f x y : rtc (prim v u q) x y -> (forall e now, q <> QInSync u e now) -> floored v f x -> floored v f y.
Proof. induction 1 as [|x z y H _ IH]; [done|]. intros ??. apply IH; [done|]. by eapply prim_floored. Qed.

Lemma run_floored parse v u f qs r x : Forall (stays u) qs -> rep_get r u = Some x -> floored v f x ->
  exists y, rep_get (sync_run parse v qs r) u = Some y /\ floored v f y.
Proof.
  revert r x. induction qs as [|[l q] qs IH]; intros r x Hs Hx Hc; [by exists x|].
  apply Forall_cons in Hs as [Hs1 Hs]. destruct (update_forward parse v l q r u x Hs1 Hx) as (y & Hy & Hm).
  apply (IH _ y); [done..|]. eapply prims_floored; [done| |done]. intros e now ->. by destruct Hs1 as [_ Hs1].
Qed.

(** A revert leaves the floor at or below its base. *)
Lemma revert_floored parse v l u base head r x : u ∈ info_uuids l -> rep_get r u = Some x -> rr_state x <> InSync ->
  exists y, rep_get (sync_update parse v l (QRevert u base head) r) u = Some y /\ floored v base y /\ rr_state y <> InSync.
Proof.
  intros Hl Hx Hs. unfold sync_update. cbn [mutate]. rewrite revert_upd, get_upd_same by done.
  rewrite (reconcile_present l r u x) by done. eexists. split; [done|]. split; [|done]. split; [done|].
  eexists. split; [done|]. exact (proj1 (lower_base_le _ _ _)).
Qed.

(** ** The writer set *)
Definition may_drop (q : sync_request) (u : string) : Prop :=
  match q with
  | QRefused u' _ _ => u' = u
  | QAssemble _ included _ _ => u ∉ included
  | QReplace old _ _ _ _ _ _ _ => old = u
  | _ => drops q u
  end.

Lemma drop_writer_elem u now r w : w ∈ writer_uuids r -> w <> u -> w ∈ writer_uuids (drop_writer u now r).
Proof.
  unfold writer_uuids, drop_writer. destruct (vr_writers r) as [ws|]; [|by intros ?%elem_of_nil]. simpl. intros H1 H2.
  by apply list_elem_of_filter.
Qed.
Lemma drop_writer_gone u now r : u ∉ writer_uuids (drop_writer u now r).
Proof.
  unfold writer_uuids, drop_writer. destruct (vr_writers r) as [ws|] eqn:E; [simpl|rewrite E; apply not_elem_of_nil].
  rewrite list_elem_of_filter. naive_solver.
Qed.
Lemma upd_writers u f r : vr_writers (rep_upd u f r) = vr_writers r.
Proof. done. Qed.

Lemma mark_stale_writers u reason now r : writer_uuids (mark_stale u reason now r).2 = writer_uuids (drop_writer u now r).
Proof.
  unfold mark_stale, writer_uuids, drop_writer. destruct (rep_get r u) as [x|]; [destruct (rr_state x)|]; simpl;
    destruct (vr_writers r) eqn:E; simpl; rewrite ?E; done.
Qed.
Lemma mark_stale_keeps u reason now r w : w ∈ writer_uuids r -> w <> u -> w ∈ writer_uuids (mark_stale u reason now r).2.
Proof. rewrite mark_stale_writers. apply drop_writer_elem. Qed.

Lemma foldl_stale_keeps {A} (key : A -> string) (why : A -> string) now l r w : w ∈ writer_uuids r -> w ∉ key <$> l ->
  w ∈ writer_uuids (foldl (fun r a => (mark_stale (key a) (why a) now r).2) r l).
Proof.
  revert r. induction l as [|a l IH]; intros r Hw Hl; [done|]. rewrite fmap_cons, not_elem_of_cons in Hl. destruct Hl as [Ha Hl].
  apply IH; [|done]. by apply mark_stale_keeps.
Qed.

Lemma add_writer_keeps u now r w : w ∈ writer_uuids r -> w ∈ writer_uuids (add_writer u now r).2.
Proof.
  unfold writer_uuids, add_writer. destruct (vr_writers r) as [ws|] eqn:E; [|by intros ?%elem_of_nil].
  intros Hw. case_bool_decide; simpl; [by rewrite E|]. unfold sort_strings. rewrite merge_sort_Permutation. set_solver.
Qed.

Lemma in_sync_writers u e reason now r w : w ∈ writer_uuids r -> w ∈ writer_uuids (mark_in_sync u e reason now r).2.
Proof.
  intros Hw. unfold mark_in_sync. destruct (rep_get r u) as [x|]; [|done].
  pose proof (add_writer_keeps u now (rep_upd u (admitted e reason now) r) w Hw) as H.
  destruct (add_writer _ _ _) as [grew r1]. simpl in *. by destruct (bool_decide _ && _).
Qed.

Lemma dedup_elem w l : w ∈ dedup l <-> w ∈ l.
Proof.
  induction l as [|x l IH]; [done|]. simpl. rewrite elem_of_cons, <- IH. destruct (dedup l) as [|y l'] eqn:E.
  - rewrite list_elem_of_singleton, elem_of_nil. naive_solver.
  - destruct (String.eqb_spec x y) as [->|]; rewrite !elem_of_cons; naive_solver.
Qed.

Lemma set_writers_elem us now r w : w ∈ writer_uuids (set_writer_set us now r).2 <-> w ∈ us.
Proof.
  assert (w ∈ dedup (sort_strings us) <-> w ∈ us) as <-.
  { rewrite dedup_elem. unfold sort_strings. by rewrite merge_sort_Permutation. }
  unfold set_writer_set, writer_uuids. destruct (vr_writers r) as [ws|] eqn:E; [|done]. case_bool_decide as Hb; [|done].
  simpl. by rewrite E, Hb.
Qed.

Lemma drain_writers parse u deadline now r w : w ∈ writer_uuids r -> w <> u ->
  w ∈ writer_uuids (drain_for_maintenance parse u deadline now r).2.
Proof.
  intros Hw Hne. unfold drain_for_maintenance. destruct (rep_get r u); [|done]. case_bool_decide; [done|].
  destruct (existsb _ _); [done|]. destruct (_ && _); [done|].
  pose proof (mark_stale_keeps u "maintenance drain (planned roll)" now r w Hw Hne) as Hk.
  destruct (mark_stale _ _ _ _) as [c r1]. simpl in *. destruct (rep_get r1 u); [|done]. by case_bool_decide.
Qed.

Lemma retire_writers v pin names r : vr_writers (retire_loop v pin names r).2 = vr_writers r.
Proof.
  revert r. induction names as [|n names IH]; intros r; [done|]. simpl. destruct (bool_decide _); [done|].
  destruct (epoch_seq v n); [|done]. destruct (match pin with Some _ => _ | None => _ end); [done|].
  specialize (IH (put_epochs (filter (fun e => ee_name e <> n) (vr_epochs r)) r)). by destruct (retire_loop _ _ _ _).
Qed.

Lemma cut_writers e cut now r : vr_writers (apply_epoch_cut e cut now r) = vr_writers r.
Proof. unfold apply_epoch_cut. by destruct (existsb _ _). Qed.
Lemma standby_writers u e reason now r : vr_writers (mark_standby u e reason now r).2 = vr_writers r.
Proof. by rewrite standby_upd. Qed.

Lemma cleared_writers u reason d now r w : w ∈ writer_uuids r -> (d = true -> w <> u) ->
  w ∈ writer_uuids (clear_hot_rejoin u reason d now r).2.
Proof.
  intros Hw Hne. unfold clear_hot_rejoin.
  assert (w ∈ writer_uuids (if d then mark_stale u reason now r else (false, r)).2) as H.
  { destruct d; [|done]. apply mark_stale_keeps; [done|by apply Hne]. }
  destruct (if d then mark_stale u reason now r else (false, r)) as [c r1]. simpl in *. destruct (rep_get r1 u); [|done].
  by case_bool_decide.
Qed.

Lemma writers_eq r r' w : vr_writers r' = vr_writers r -> w ∈ writer_uuids r -> w ∈ writer_uuids r'.
Proof. unfold writer_uuids. by intros ->. Qed.

(** A leg leaves the writer set only through the requests that say so. *)
Lemma mutate_writers parse v q r w : w ∈ writer_uuids r -> ~ may_drop q w -> w ∈ writer_uuids (mutate parse v q r).
Proof.
  intros Hw Hn. destruct q; cbn [mutate]; simpl in Hn; try done.
  - eapply writers_eq; [|done]. unfold pin_retention. by destruct (match vr_pin r with Some _ => _ | None => _ end).
  - eapply writers_eq; [|done]. by rewrite revert_upd.
  - eapply writers_eq; [|done]. unfold note_copy_source. destruct (rep_get r src), (rep_get r dst); try done. by case_bool_decide.
  - eapply writers_eq; [|done]. rewrite <- (standby_writers u through "caught up; chasing epochs" now r).
    unfold advance_retention_pin. destruct (_ ≫= epoch_seq v); [|done]. destruct (_ ≫= list_min); [|done]. by destruct (_ <=? _).
  - apply mark_stale_keeps; [done|congruence].
  - apply drain_writers; [done|congruence].
  - eapply writers_eq; [|done]. unfold set_maint_drain. destruct (rep_get r u); [|done]. by case_bool_decide.
  - eapply writers_eq; [|done]. apply cut_writers.
  - by apply in_sync_writers.
  - eapply writers_eq; [|done]. unfold add_snapshot_tombstone. repeat case_bool_decide; done.
  - eapply writers_eq; [|done]. unfold mark_hot_rejoin_intent. destruct (existsb _ _); [done|]. destruct (rep_get r u) as [x|]; [|done].
    destruct (rr_state x); [done| |]; by case_bool_decide.
  - eapply writers_eq; [|done]. unfold mark_hot_rejoined. cbn [snd]. rewrite upd_writers, standby_writers. apply cut_writers.
  - apply cleared_writers; [done|]. intros -> ->. by apply Hn.
  - unfold refuse_hot_rejoin. destruct (rep_get r u); [|done]. apply drop_writer_elem; [done|congruence].
  - eapply writers_eq; [|done]. unfold retire_epochs. destruct (vr_pin r) as [pin|]; [|apply retire_writers].
    destruct (epoch_seq v pin); [apply retire_writers|done].
  - unfold mark_missing. apply (foldl_stale_keeps (fun u => u) (fun _ => reason)); [done|]. by rewrite list_fmap_id.
  - unfold record_assembly. apply set_writers_elem. destruct (decide (w ∈ included)); [done|by destruct Hn].
  - unfold build_swapped_record. case_bool_decide; [|done]. simpl. unfold prune_writers_for_replacement, writer_uuids in *. simpl.
    destruct (vr_writers r) as [ws|]; simpl; [|by apply elem_of_nil in Hw]. apply list_elem_of_filter. split; [|done]. rewrite list_elem_of_singleton. congruence.
Qed.

(** ** The maintenance drain *)
Lemma drain_mark u deadline now r x : rep_get r u = Some x ->
  let r1 := (mark_stale u "maintenance drain (planned roll)" now r).2 in
  let r' := match rep_get r1 u with
            | Some x1 => if bool_decide (rr_maint x1 = Some deadline) then r1 else rep_upd u (with_maint (Some deadline)) r1
            | None => r1
            end in
  (exists y, rep_get r' u = Some y /\ rr_state y = Stale /\ rr_maint y = Some deadline) /\
  (forall u', u' <> u -> rep_get r' u' = rep_get r u') /\ u ∉ writer_uuids r'.
Proof.
  intros Hx r1 r'. destruct (rep_get r1 u) as [x1|] eqn:Hx1.
  2: { unfold r1 in Hx1. rewrite get_stale, String.eqb_refl, Hx in Hx1. done. }
  pose proof (stale_after _ _ _ _ _ Hx1) as Hs1. assert (forall u', u' <> u -> rep_get r1 u' = rep_get r u') as Ho.
  { intros u' Hne. unfold r1. rewrite get_stale. by destruct (String.eqb_spec u u'). }
  assert (u ∉ writer_uuids r1) as Hw by (unfold r1; rewrite mark_stale_writers; apply drop_writer_gone).
  unfold r'. case_bool_decide as Hm; [by eauto 10|]. split_and!; [| |done].
  - rewrite get_upd_same, Hx1 by done. eexists. split; [done|]. done.
  - intros u' Hne. rewrite get_upd by done. destruct (String.eqb_spec u u'); [done|]. by apply Ho.
Qed.

Lemma drain_cases parse u deadline now r :
  let r' := (drain_for_maintenance parse u deadline now r).2 in
  r' = r \/
  exists x, rep_get r u = Some x /\ rr_hot x = None /\
    (forall z, z ∈ vr_replicas r -> rr_uuid z <> u -> rr_state z = InSync /\ maint_drain_live parse now z = false) /\
    (rr_state x = InSync -> exists z, z ∈ vr_replicas r /\ rr_uuid z <> u /\ rr_state z = InSync) /\
    (exists y, rep_get r' u = Some y /\ rr_state y = Stale /\ rr_maint y = Some deadline) /\
    (forall u', u' <> u -> rep_get r' u' = rep_get r u') /\ u ∉ writer_uuids r'.
Proof.
  unfold drain_for_maintenance. destruct (rep_get r u) as [x|] eqn:Hx; [|by left]. case_bool_decide as Hh; [by left|].
  destruct (existsb _ _) eqn:Ho; [by left|]. destruct (bool_decide (rr_state x = InSync) && _) eqn:Hl; [by left|]. right. exists x.
  split; [done|]. split; [by destruct (rr_hot x); [destruct Hh; eauto|]|]. split; [|split].
  - intros z Hz Hne. rewrite <- not_true_iff_false, existsb_exists in Ho. destruct (negb (has_uuid u z)) eqn:Hu.
    2: { apply negb_false_iff, has_uuid_spec in Hu. done. }
    destruct (maint_drain_live parse now z) eqn:Hm; [destruct Ho; exists z; rewrite Hu, Hm; split; [by apply list_elem_of_In|done]|].
    split; [|done]. destruct (decide (rr_state z = InSync)) as [|Hs]; [done|]. destruct Ho. exists z. rewrite Hu, Hm.
    split; [by apply list_elem_of_In|]. by rewrite (bool_decide_eq_false_2 _ Hs).
  - intros Hs. rewrite bool_decide_eq_true_2 in Hl by done. apply negb_false_iff, existsb_exists in Hl as (z & Hz & Hb).
    apply andb_prop in Hb as [Hb1 Hb2%bool_decide_eq_true]. exists z. split; [by apply list_elem_of_In|]. split; [|done].
    intros E%has_uuid_spec. by rewrite E in Hb1.
  - destruct (drain_mark u deadline now r x Hx) as (H1 & H2 & H3). destruct (mark_stale _ _ _ _) as [c r1]. cbn [snd] in *.
    destruct (rep_get r1 u) as [x1|]; [|done]. by case_bool_decide.
Qed.

(** ** The guarded write *)
(** The other writers go through the API server, which gives every changed
    object a new version. *)
Definition versioned (a : Attempt) : Prop := forall pv, pv_version (at_others a pv) = pv_version pv -> at_others a pv = pv.
(** What the other writers made of the PV in the first [n] attempts. *)
Definition others_after (env : list Attempt) (n : nat) (pv : Pv) : Pv := foldl (fun p a => at_others a p) pv (take n env).

(** The PV is [p], or [p] with the record one attempt computed from it
    written once. *)
Definition wrote (f : VolumeSyncRecord -> VolumeSyncRecord) (clock : nat -> string) (bump : Z -> Z) (p pv' : Pv)
    (record : VolumeSyncRecord) : Prop :=
  exists l t, pv_infos p = Ok (Some l) /\ record = attempt_record f (clock t) l p /\
    ((pv_record p = Some record /\ pv' = p) \/
     (pv_record p <> Some record /\ pv' = MkPv (bump (pv_version p)) (Some record) (pv_infos p) (pv_seeded p))).

(** What an update may fail on: a GET or a PATCH that errs, a PV without a
    readable replica list, or a conflict in every attempt. *)
Definition failure_cause (env : list Attempt) (attempts : nat) (pv : Pv) : Prop :=
  (exists k a, (k < attempts)%nat /\ env !! k = Some a /\ (is_Some (at_get a) \/ is_Some (at_fault a))) \/
  (exists k e, (k < attempts)%nat /\ pv_infos (others_after env k pv) = Err e) \/
  (forall k, (k < attempts)%nat -> pv_version (others_after env (S k) pv) <> pv_version (others_after env k pv)).

Definition update_outcome (f : VolumeSyncRecord -> VolumeSyncRecord) (clock : nat -> string) (bump : Z -> Z) (env : list Attempt)
    (attempts : nat) (pv : Pv) (res : result string (option VolumeSyncRecord)) (pv' : Pv) : Prop :=
  exists n, (n <= attempts)%nat /\ let p := others_after env n pv in
  match res with
  | Ok (Some record) => wrote f clock bump p pv' record
  | Ok None => pv_infos p = Ok None /\ pv' = p
  | Err _ => failure_cause env attempts pv /\
      (pv' = p \/ (exists a e record, env !! n = Some a /\ at_fault a = Some (true, e) /\ wrote f clock bump p pv' record))
  end.

Lemma others_after_S env n pv : others_after env (S n) pv = others_after (tail env) n (at_others (default undisturbed (head env)) pv).
Proof. destruct env; [by destruct n | done]. Qed.
Lemma others_after_1 env pv : others_after env 1 pv = at_others (default undisturbed (head env)) pv.
Proof. by rewrite others_after_S. Qed.

Lemma failure_cause_S env k pv : pv_version (at_others (default undisturbed (head env)) pv) <> pv_version pv ->
  failure_cause (tail env) k (at_others (default undisturbed (head env)) pv) -> failure_cause env (S k) pv.
Proof.
  intros E [(i & a & Hi & Ha & Hc)|[(i & e & Hi & He)|Hall]].
  - left. exists (S i), a. split; [lia|]. split; [by destruct env|done].
  - right; left. exists (S i), e. split; [lia|]. by rewrite others_after_S.
  - right; right. intros [|i] Hi; [by rewrite others_after_1|]. rewrite !(others_after_S env). apply Hall. lia.
Qed.

Lemma head_cause env k pv : (is_Some (at_get (default undisturbed (head env))) \/ is_Some (at_fault (default undisturbed (head env)))) ->
  failure_cause env (S k) pv.
Proof.
  destruct env as [|a env]; cbn; [by intros [[? ?]|[? ?]]|]. intros H. left. exists 0%nat, a. split; [lia|]. done.
Qed.

Lemma update_attempts_spec f clock bump env attempts pv : Forall versioned env ->
  let '(res, pv') := update_attempts f clock bump env attempts pv in update_outcome f clock bump env attempts pv res pv'.
Proof.
  unfold update_outcome. intros Hv. revert env pv Hv. induction attempts as [|k IH]; intros env pv Hv; cbn [update_attempts].
  { exists 0%nat. split; [done|]. split; [|by left]. right; right. lia. }
  destruct (at_get _) as [e|] eqn:Hg; [exists 0%nat; split; [lia|]; split; [apply head_cause; left; by rewrite Hg|by left]|].
  destruct (pv_infos pv) as [[l|]|e] eqn:Hl; [|exists 0%nat; split; [lia|done]|].
  2:{ exists 0%nat. split; [lia|]. split; [|by left]. right; left. exists 0%nat, e. split; [lia|done]. }
  case_bool_decide as Hb; [exists 0%nat; split; [lia|]; exists l, k; split; [done|]; split; [done|]; by left|].
  pose proof (others_after_1 env pv) as H1. set (pv1 := at_others (default undisturbed (head env)) pv) in *.
  assert (pv_version pv1 = pv_version pv -> pv1 = pv) as Heq.
  { subst pv1. destruct env as [|a env]; [done|]. apply Forall_cons_1 in Hv as [Ha _]. by apply Ha. }
  destruct (at_fault _) as [[reached e]|] eqn:Hf.
  - assert (failure_cause env (S k) pv) as Hcause by (apply head_cause; right; by rewrite Hf).
    destruct (reached && (pv_version pv1 =? pv_version pv)) eqn:E; [|exists 1%nat; split; [lia|]; by split; [|left]].
    apply andb_prop in E as [-> E%Z.eqb_eq]. rewrite (Heq E). exists 0%nat. split; [lia|]. split; [done|]. right.
    destruct env as [|a env]; [done|]. exists a, e, (attempt_record f (clock k) l pv). split; [done|]. split; [done|].
    exists l, k. split; [done|]. split; [done|]. by right.
  - destruct (Z.eqb_spec (pv_version pv1) (pv_version pv)) as [E|E].
    { rewrite (Heq E). exists 0%nat. split; [lia|]. exists l, k. split; [done|]. split; [done|]. by right. }
    destruct k as [|k].
    { exists 1%nat. split; [lia|]. split; [|by left]. right; right. intros i Hi. assert (i = 0%nat) as -> by lia. by rewrite H1. }
    specialize (IH (tail env) pv1). destruct (update_attempts f clock bump (tail env) (S k) pv1) as [res pv'].
    destruct IH as (n & Hn & IH); [destruct env; [done|]; by apply Forall_cons_1 in Hv as [_ ?]|].
    exists (S n). split; [lia|]. rewrite others_after_S. fold pv1. cbv zeta in *. destruct res as [[record|]|e]; [done|done|].
    destruct IH as [Hc IH]. split; [by apply failure_cause_S|]. destruct IH as [IH|(a & e' & record & Ha & IH)]; [by left|right].
    exists a, e', record. split; [by destruct env|done].
Qed.
