(* ===== verification/ReplicaReplace.v ===== *)
(** Re-placing a permanently lost replica (replica_replace.rs): which leg may
    be given up, where its replacement goes, and the swap of identities.

    What the API server says of a node, and each node's disks, are arguments;
    so are the volume's size and the uuid of the new lvol.  Events and logging
    are left out.  The decision is taken on the record as loaded; the swap is
    made on the record as re-read under the PV's resourceVersion. *)

From Stdlib Require Import Ascii String.
From S2P Require Import Prelude Csv FreshnessGate ReplicaSync ReplicaStore ReplicaProps ReplicaInv.

Record ReplaceConfig := ReplaceCfg { rc_enabled : bool; rc_after : Z }.
Definition ReplaceConfig_from_env (enabled after : option string) : ReplaceConfig :=
  ReplaceCfg (match enabled with Some v => negb (String.eqb v "disabled") | None => true end) (default 600 (after ≫= parse_u64)).

Inductive NodePresence := Absent | Present (ready : bool) (not_ready_since_epoch_s : option Z).

(** i64::saturating_sub. *)
Definition saturating_sub (a b : Z) : Z := Z.max (- 2 ^ 63) (Z.min i64_max (a - b)).

Definition node_gone (p : NodePresence) (after now : Z) : bool :=
  match p with
  | Absent => true
  | Present true _ => false
  | Present false (Some t) => wrap_i64 after <=? saturating_sub now t
  | Present false None => false
  end.

Definition writer_set_holds (ws : option WriterSet) (u : string) : bool :=
  match ws with Some ws => existsb (fun x => String.eqb x u) (ws_uuids ws) | None => false end.

Definition is_replace_candidate (x : ReplicaSyncRecord) (ws : option WriterSet) : bool :=
  bool_decide (rr_hot x = None) && negb (bool_decide (rr_state x = InSync) && writer_set_holds ws (rr_uuid x)).

Definition has_rebuild_source (r : VolumeSyncRecord) (u : string) : bool :=
  existsb (fun x => negb (has_uuid u x) && bool_decide (rr_state x = InSync)) (vr_replicas r).

(** [Iterator::max_by_key]: the last of the largest. *)
Definition max_by_key {A} (key : A -> Z) (l : list A) : option A :=
  foldl (fun best x => match best with Some b => if key x <? key b then Some b else Some x | None => Some x end) None l.

Definition pick_replacement_node (candidates : list (string * Z)) (excluded : list string) : option string :=
  fst <$> max_by_key snd (filter (fun c => c.1 ∉ excluded) candidates).

Definition replacement_excluded (consumer_node : option string) : list string := option_list consumer_node.

Record Disk := MkDisk { dk_free : Z; dk_lvs : option string; dk_pci : string }.

Section replace.
Context (presence : string -> result string NodePresence) (disks : string -> option (list Disk)).
Context (cfg : ReplaceConfig) (now : Z) (infos : list ReplicaInfo).

(** The first unmarked replica on a gone node that may be given up; an
    unreadable node ends the search with its error. *)
Fixpoint find_candidate (ws : option WriterSet) (l : list ReplicaSyncRecord) :
    result string (option (ReplicaInfo * ReplicaSyncRecord)) :=
  match l with
  | [] => Ok None
  | x :: l =>
      if bool_decide (is_Some (rr_hot x)) then find_candidate ws l
      else match find_first (fun i => String.eqb (ri_uuid i) (rr_uuid x)) infos with
      | None => find_candidate ws l
      | Some i =>
          p ← presence (ri_node i);
          if negb (node_gone p (rc_after cfg) now) then find_candidate ws l
          else if negb (is_replace_candidate x ws) then find_candidate ws l
          else Ok (Some (i, x))
      end
  end.

(** Ready nodes hosting no leg, each with its roomiest disk that fits; a node
    whose disks cannot be listed is skipped. *)
Definition fitting_disk (size : Z) (node : string) : option Disk :=
  ds ← disks node; max_by_key dk_free (filter (fun d => size <= dk_free d /\ is_Some (dk_lvs d)) ds).
Fixpoint rank_nodes (size : Z) (nodes : list string) : result string (list (string * Disk)) :=
  match nodes with
  | [] => Ok []
  | n :: nodes =>
      if bool_decide (n ∈ ri_node <$> infos) then rank_nodes size nodes
      else
        p ← presence n;
        match p with
        | Present true _ =>
            ranked ← rank_nodes size nodes;
            Ok (match fitting_disk size n with Some d => (n, d) :: ranked | None => ranked end)
        | _ => rank_nodes size nodes
        end
  end.

Inductive ReplacePlan := NothingToDo | NoSource (lost : string) | NoTarget (lost : string)
| Swap (lost : ReplicaInfo) (lost_rec : ReplicaSyncRecord) (target : string).

(** [maybe_replace_for_volume] up to the creation of the placeholder. *)
Definition plan_replacement (pv_deleting auto_rebuild_off : bool) (size : result string Z) (nodes : list string)
    (consumer_node : option string) (loaded : option VolumeSyncRecord) : result string ReplacePlan :=
  if negb (rc_enabled cfg) || pv_deleting || auto_rebuild_off then Ok NothingToDo
  else match loaded with
  | None => Ok NothingToDo
  | Some r =>
      candidate ← find_candidate (vr_writers r) (vr_replicas r);
      match candidate with
      | None => Ok NothingToDo
      | Some (lost, x) =>
          if negb (has_rebuild_source r (rr_uuid x)) then Ok (NoSource (ri_node lost))
          else
            size ← size;
            ranked ← rank_nodes size nodes;
            Ok (match pick_replacement_node ((fun c => (c.1, dk_free c.2)) <$> ranked) (replacement_excluded consumer_node) with
                | None => NoTarget (ri_node lost)
                | Some target => Swap lost x target
                end)
      end
  end.
End replace.

(** The identity list with the lost entry replaced in place. *)
Definition swapped_infos (lost new : ReplicaInfo) (l : list ReplicaInfo) : list ReplicaInfo :=
  update_first (fun i => String.eqb (ri_uuid i) (ri_uuid lost)) (fun _ => new) l.

(** [swap_identity_on_pv] on the record it re-reads. *)
Definition swap_record (old_replicas new_replicas : list ReplicaInfo) (old_uuid : string) (new_rec : ReplicaSyncRecord)
    (baseline : option VolumeSyncRecord) : option VolumeSyncRecord :=
  build_swapped_record old_uuid new_rec new_replicas (reconcile_membership old_replicas (default (initial old_replicas) baseline)).2.

(** ** What the plan chooses *)
Lemma find_candidate_spec presence cfg now infos ws l i x : find_candidate presence cfg now infos ws l = Ok (Some (i, x)) ->
  x ∈ l /\ i ∈ infos /\ ri_uuid i = rr_uuid x /\ is_replace_candidate x ws = true /\
  exists p, presence (ri_node i) = Ok p /\ node_gone p (rc_after cfg) now = true.
Proof.
  induction l as [|y l IH]; cbn [find_candidate]; [done|].
  assert (find_candidate presence cfg now infos ws l = Ok (Some (i, x)) -> x ∈ y :: l /\ i ∈ infos /\ ri_uuid i = rr_uuid x /\
    is_replace_candidate x ws = true /\ exists p, presence (ri_node i) = Ok p /\ node_gone p (rc_after cfg) now = true) as Hnext.
  { intros H. destruct (IH H) as (H1 & H2). split; [by right|done]. }
  case_bool_decide as Hm; [done|]. destruct (find_first _ infos) as [j|] eqn:Hj; [|done]. intros (p & Hp & H)%bind_Ok.
  destruct (node_gone p _ _) eqn:Hg; [cbn [negb] in H|by apply Hnext].
  destruct (is_replace_candidate y ws) eqn:Hc; [cbn [negb] in H|by apply Hnext]. injection H as -> ->.
  apply find_first_Some in Hj as [Hj He]. apply String.eqb_eq in He. split_and!; [by left|done..|]. by exists p.
Qed.

Lemma max_by_key_elem {A} (key : A -> Z) l m : max_by_key key l = Some m -> m ∈ l /\ forall x, x ∈ l -> key x <= key m.
Proof.
  unfold max_by_key. revert m. induction l as [|y l IH] using rev_ind; intros m; [done|]. rewrite foldl_app. cbn [foldl].
  destruct (foldl _ None l) as [b|] eqn:Hb.
  - destruct (IH b eq_refl) as [H1 H2]. destruct (Z.ltb_spec (key y) (key b)) as [Hlt|Hge]; intros [= <-].
    + split; [apply elem_of_app; by left|]. intros x [Hx|Hx%list_elem_of_singleton]%elem_of_app; [auto|subst; lia].
    + split; [apply elem_of_app; right; by left|]. intros x [Hx|Hx%list_elem_of_singleton]%elem_of_app; [specialize (H2 x Hx); lia|subst; lia].
  - intros [= <-]. split; [apply elem_of_app; right; by left|]. intros x [Hx|Hx%list_elem_of_singleton]%elem_of_app; [|subst; lia].
    exfalso. clear IH. destruct l as [|z l] using rev_ind; [by apply elem_of_nil in Hx|]. rewrite foldl_app in Hb. cbn [foldl] in Hb.
    destruct (foldl _ None l); [destruct (_ <? _)|]; done.
Qed.

Lemma rank_nodes_spec presence disks infos size nodes ranked : rank_nodes presence disks infos size nodes = Ok ranked ->
  forall n d, (n, d) ∈ ranked -> n ∈ nodes /\ n ∉ ri_node <$> infos /\ (exists s, presence n = Ok (Present true s)) /\ size <= dk_free d.
Proof.
  revert ranked. induction nodes as [|m nodes IH]; intros ranked; cbn [rank_nodes]; [intros [= <-] n d Hn; by apply elem_of_nil in Hn|].
  assert (forall ranked, rank_nodes presence disks infos size nodes = Ok ranked -> forall n d, (n, d) ∈ ranked ->
    n ∈ m :: nodes /\ n ∉ ri_node <$> infos /\ (exists s, presence n = Ok (Present true s)) /\ size <= dk_free d) as Hnext.
  { intros l Hl n d Hn. destruct (IH l Hl n d Hn) as (H1 & H2). split; [by right|done]. }
  case_bool_decide as Hleg; [apply Hnext|]. intros (p & Hp & H)%bind_Ok. destruct p as [|[] since]; [by apply Hnext| |by apply Hnext].
  apply bind_Ok in H as (rest & Hr & [= <-]). intros n d Hn. destruct (fitting_disk disks size m) as [d'|] eqn:Hd; [|by eapply Hnext].
  apply elem_of_cons in Hn as [[= -> ->]|Hn]; [|by eapply Hnext]. split_and!; [by left|done|by eauto|].
  unfold fitting_disk in Hd. destruct (disks m) as [ds|]; [|done]. cbn [mbind option_bind] in Hd.
  apply max_by_key_elem in Hd as [Hd _]. apply list_elem_of_filter in Hd as [[Hd _] _]. done.
Qed.

(** ** What the swap leaves *)
Lemma swapped_keeps lost new l u : u ∈ info_uuids l -> u <> ri_uuid lost -> u ∈ info_uuids (swapped_infos lost new l).
Proof.
  unfold info_uuids, swapped_infos. intros Hu Hne. induction l as [|i l IH]; [by apply elem_of_nil in Hu|]. cbn [update_first].
  rewrite fmap_cons in Hu. destruct (String.eqb_spec (ri_uuid i) (ri_uuid lost)) as [E|E]; rewrite fmap_cons;
    apply elem_of_cons in Hu as [->|Hu]; [done|by right|by left|right; auto].
Qed.
Lemma swapped_has lost new l : ri_uuid lost ∈ info_uuids l -> ri_uuid new ∈ info_uuids (swapped_infos lost new l).
Proof.
  unfold info_uuids, swapped_infos. intros Hu. induction l as [|i l IH]; [by apply elem_of_nil in Hu|]. cbn [update_first].
  rewrite fmap_cons in Hu. destruct (String.eqb_spec (ri_uuid i) (ri_uuid lost)) as [E|E]; rewrite fmap_cons; [by left|right].
  apply IH. apply elem_of_cons in Hu as [Hu|Hu]; [congruence|done].
Qed.
Lemma swapped_drops lost new l : NoDup (info_uuids l) -> ri_uuid new <> ri_uuid lost -> ri_uuid lost ∉ info_uuids (swapped_infos lost new l).
Proof.
  unfold info_uuids, swapped_infos. intros Hnd Hne. induction l as [|i l IH]; [apply not_elem_of_nil|]. cbn [update_first].
  rewrite fmap_cons in Hnd. apply NoDup_cons in Hnd as [Hi Hnd].
  destruct (String.eqb_spec (ri_uuid i) (ri_uuid lost)) as [E|E]; rewrite fmap_cons, not_elem_of_cons; split; auto; congruence.
Qed.

Lemma find_replace_new old z l : old ∈ rr_uuid <$> l -> rr_uuid z ∉ rr_uuid <$> l ->
  find_first (has_uuid (rr_uuid z)) (update_first (has_uuid old) (fun _ => z) l) = Some z.
Proof.
  intros Ho Hz. induction l as [|x l IH]; [by apply elem_of_nil in Ho|]. rewrite fmap_cons in Ho, Hz. apply not_elem_of_cons in Hz as [Hzx Hz].
  cbn [update_first]. destruct (has_uuid old x) eqn:Hx; cbn [find_first].
  - unfold has_uuid. by rewrite String.eqb_refl.
  - assert (has_uuid (rr_uuid z) x = false) as ->.
    { destruct (has_uuid (rr_uuid z) x) eqn:E; [|done]. apply has_uuid_spec in E. congruence. }
    apply IH; [|done]. apply elem_of_cons in Ho as [Ho|Ho]; [|done]. rewrite <- not_true_iff_false, has_uuid_spec in Hx. congruence.
Qed.

Lemma swap_spec infos lost new z r : NoDup (info_uuids infos) -> ri_uuid lost ∈ info_uuids infos -> ri_uuid new ∉ info_uuids infos ->
  rr_uuid z = ri_uuid new ->
  exists r2, swap_record infos (swapped_infos lost new infos) (ri_uuid lost) z (Some r) = Some r2 /\
    rep_get r2 (ri_uuid new) = Some z /\ rep_get r2 (ri_uuid lost) = None /\
    (forall u, u ∈ info_uuids infos -> u <> ri_uuid lost -> rep_get r2 u = rep_get (reconcile_membership infos r).2 u) /\
    rep_uuids r2 = info_uuids (swapped_infos lost new infos) /\
    forall w, w ∈ writer_uuids r2 <-> w ∈ writer_uuids r /\ w <> ri_uuid lost.
Proof.
  intros Hnd Hl Hn Hz. unfold swap_record. cbn [default]. set (R := (reconcile_membership infos r).2).
  assert (rep_uuids R = info_uuids infos) as HU by apply uuids_reconcile. unfold build_swapped_record. cbv zeta.
  assert (is_Some (rep_get R (ri_uuid lost))) as HS by (apply get_is_Some; by rewrite HU).
  rewrite bool_decide_eq_true_2 by done. eexists. split; [done|].
  assert (ri_uuid new <> ri_uuid lost) as Hne by congruence.
  assert (rep_uuids (prune_writers_for_replacement [ri_uuid lost] (reconcile_membership (swapped_infos lost new infos)
    (rep_upd (ri_uuid lost) (fun _ => z) R)).2).2 = info_uuids (swapped_infos lost new infos)) as HU2.
  { unfold rep_uuids. rewrite prune_replicas. apply uuids_reconcile. }
  split_and!.
  - unfold rep_get. rewrite prune_replicas. apply reconcile_present; [|by apply swapped_has].
    unfold rep_get. rewrite <- Hz. apply find_replace_new.
    * change (ri_uuid lost ∈ rep_uuids R). by rewrite HU.
    * change (rr_uuid z ∉ rep_uuids R). by rewrite HU, Hz.
  - apply eq_None_not_Some. intros Hs%get_is_Some. apply (swapped_drops lost new infos Hnd Hne). rewrite <- HU2. exact Hs.
  - intros u Hu Hul. destruct (proj2 (get_is_Some R u)) as [y Hy]; [by rewrite HU|]. rewrite Hy. unfold rep_get. rewrite prune_replicas.
    apply reconcile_present; [|by apply swapped_keeps]. unfold rep_get. cbn [rep_upd put_replicas vr_replicas].
    rewrite find_replace_other; [done|congruence|done].
  - done.
  - intros w. unfold prune_writers_for_replacement, writer_uuids. simpl. destruct (vr_writers r) as [ws|] eqn:Ew; simpl.
    + rewrite list_elem_of_filter, list_elem_of_singleton. naive_solver.
    + rewrite Ew. split; [by intros ?%elem_of_nil|by intros [?%elem_of_nil _]].
Qed.

Lemma swapped_elem lost new l u : u ∈ info_uuids (swapped_infos lost new l) -> u = ri_uuid new \/ u ∈ info_uuids l.
Proof.
  unfold info_uuids. intros (i & -> & Hi)%list_elem_of_fmap. apply update_first_elem in Hi as [Hi|(j & _ & ->)]; [right|by left].
  apply list_elem_of_fmap. eauto.
Qed.

Lemma get_of_elem r y : NoDup (rep_uuids r) -> y ∈ vr_replicas r -> rep_get r (rr_uuid y) = Some y.
Proof.
  unfold rep_uuids, rep_get. induction (vr_replicas r) as [|x l IH]; intros Hnd Hy; [by apply elem_of_nil in Hy|].
  rewrite fmap_cons in Hnd. apply NoDup_cons in Hnd as [Hx Hnd]. cbn [find_first]. apply elem_of_cons in Hy as [->|Hy].
  - unfold has_uuid. by rewrite String.eqb_refl.
  - destruct (has_uuid (rr_uuid y) x) eqn:E; [|by apply IH]. apply has_uuid_spec in E. destruct Hx. rewrite E. apply list_elem_of_fmap. eauto.
Qed.

(** Everything a plan to swap has checked. *)
Lemma plan_swap presence disks cfg now infos d a size nodes consumer r lost x target :
  plan_replacement presence disks cfg now infos d a size nodes consumer (Some r) = Ok (Swap lost x target) ->
  x ∈ vr_replicas r /\ lost ∈ infos /\ ri_uuid lost = rr_uuid x /\ is_replace_candidate x (vr_writers r) = true /\
  (exists p, presence (ri_node lost) = Ok p /\ node_gone p (rc_after cfg) now = true) /\ has_rebuild_source r (rr_uuid x) = true /\
  target ∈ nodes /\ target ∉ ri_node <$> infos /\ (exists s, presence target = Ok (Present true s)) /\ consumer <> Some target.
Proof.
  unfold plan_replacement. destruct (_ || _ || _); [done|]. intros (c & Hc & H)%bind_Ok. destruct c as [[i y]|]; [|done].
  destruct (has_rebuild_source r (rr_uuid y)) eqn:Hs; [cbn [negb] in H|done]. apply bind_Ok in H as (sz & -> & (ranked & Hr & H)%bind_Ok).
  destruct (pick_replacement_node _ _) as [t|] eqn:Ht; [|done]. injection H as -> -> ->.
  apply find_candidate_spec in Hc as (H1 & H2 & H3 & H4 & H5). unfold pick_replacement_node in Ht.
  destruct (max_by_key _ _) as [[n f]|] eqn:Hm; [|done]. injection Ht as ->. apply max_by_key_elem in Hm as [Hm _].
  apply list_elem_of_filter in Hm as [Hex Hm]. apply list_elem_of_fmap in Hm as ([n' dk] & [= -> ->] & Hin).
  destruct (rank_nodes_spec _ _ _ _ _ _ Hr _ _ Hin) as (Hn & Hnl & Hp & _). split_and!; try done.
  intros ->. apply Hex. simpl. by left.
Qed.

Lemma candidate_spec x ws : is_replace_candidate x ws = true -> rr_hot x = None /\
  (rr_state x = InSync -> forall w, ws = Some w -> rr_uuid x ∉ ws_uuids w).
Proof.
  unfold is_replace_candidate. intros [H1%bool_decide_eq_true H2%negb_true_iff]%andb_prop. split; [done|]. intros Hs w -> Hin.
  rewrite bool_decide_eq_true_2 in H2 by done. cbn [andb writer_set_holds] in H2. rewrite <- not_true_iff_false, existsb_exists in H2.
  apply H2. exists (rr_uuid x). split; [by apply list_elem_of_In|apply String.eqb_refl].
Qed.
