(* ===== verification/ReplicaRetain.v ===== *)
(** Epochs and their retention: the recorded epochs are strictly increasing
    and end in the current one, a sequence number is never used twice, and
    nothing a leg still needs is retired.  Also what a cut records and rolls
    back. *)

From Stdlib Require Import Ascii String.
From S2P Require Import Prelude Csv FreshnessGate ReplicaSync ReplicaStore ReplicaProps ReplicaInv.

(** ** Names *)
Lemma epoch_seq_name v n : is_u64 n -> epoch_seq v (epoch_name v n) = Some n.
Proof.
  intros Hn. unfold epoch_seq, epoch_name. do 3 (rewrite strip_prefix_append; cbn [mbind option_bind]).
  rewrite show_u64_not_empty by apply Hn. by apply parse_show_u64.
Qed.

(** ** The shape of the epoch list *)
Definition canonical (v : string) (e : EpochEntry) : Prop := exists n, is_u64 n /\ ee_name e = epoch_name v n.
Definition epoch_lt (v : string) (a b : EpochEntry) : Prop :=
  exists x y, epoch_seq v (ee_name a) = Some x /\ epoch_seq v (ee_name b) = Some y /\ x < y.
Definition epochs_ok (v : string) (r : VolumeSyncRecord) : Prop :=
  Forall (canonical v) (vr_epochs r) /\ StronglySorted (epoch_lt v) (vr_epochs r) /\
  vr_epoch r = ee_name <$> last (vr_epochs r).

(** A cut is the current epoch again, or carries a number above every
    recorded one. *)
Definition cut_fresh (v : string) (r : VolumeSyncRecord) (e : string) : Prop :=
  vr_epoch r = Some e \/ exists n, e = epoch_name v n /\ latest_epoch_seq v r < n <= u64_max.
Definition cut_allowed (v : string) (q : sync_request) (r : VolumeSyncRecord) : Prop :=
  match q with QCut e _ _ | QFlip _ e _ _ _ => cut_fresh v r e | _ => True end.

Lemma foldl_max_ge l a : a <= foldl Z.max a l /\ forall x, x ∈ l -> x <= foldl Z.max a l.
Proof.
  revert a. induction l as [|y l IH]; intros a; simpl; [split; [lia|by intros ? ?%elem_of_nil]|].
  destruct (IH (Z.max a y)) as [H1 H2]. split; [lia|]. intros x [->|Hx]%elem_of_cons; [lia|auto].
Qed.
Lemma foldl_max_le l a b : a <= b -> (forall x, x ∈ l -> x <= b) -> foldl Z.max a l <= b.
Proof.
  revert a. induction l as [|y l IH]; intros a Ha Hl; simpl; [done|]. apply IH; [|set_solver].
  specialize (Hl y ltac:(by left)). lia.
Qed.

Lemma latest_nonneg v r : 0 <= latest_epoch_seq v r.
Proof. exact (proj1 (foldl_max_ge _ _)). Qed.
Lemma latest_ge v r e n : e ∈ vr_epochs r -> epoch_seq v (ee_name e) = Some n -> n <= latest_epoch_seq v r.
Proof. intros He Hn. apply (proj2 (foldl_max_ge _ _)). unfold epoch_seqs. apply list_elem_of_omap. eauto. Qed.
Lemma latest_le v r b : 0 <= b -> (forall e n, e ∈ vr_epochs r -> epoch_seq v (ee_name e) = Some n -> n <= b) ->
  latest_epoch_seq v r <= b.
Proof. intros Hb H. apply foldl_max_le; [done|]. intros x (e & He & Hx)%list_elem_of_omap. eauto. Qed.

Lemma epoch_lt_last v l z e : StronglySorted (epoch_lt v) l -> last l = Some z -> e ∈ l -> e = z \/ epoch_lt v e z.
Proof.
  intros Hs Hl He. apply last_Some in Hl as [l' ->]. apply elem_of_app in He as [He|He%list_elem_of_singleton]; [right|by left].
  eapply StronglySorted_app_1_elem_of; [done|done|by left].
Qed.

(** The current epoch carries the highest number. *)
Lemma latest_is_last v r z : StronglySorted (epoch_lt v) (vr_epochs r) -> last (vr_epochs r) = Some z -> canonical v z ->
  epoch_seq v (ee_name z) = Some (latest_epoch_seq v r).
Proof.
  intros Hs Hl (n & Hn & Hz). assert (epoch_seq v (ee_name z) = Some n) as E by (rewrite Hz; by apply epoch_seq_name).
  rewrite E. f_equal. apply Z.le_antisymm.
  - eapply latest_ge; [by apply last_Some_elem_of|done].
  - apply latest_le; [apply Hn|]. intros e m He Hm. destruct (epoch_lt_last _ _ _ _ Hs Hl He) as [->|(a & b & Ha & Hb & ?)]; simplify_eq; lia.
Qed.

Lemma last_filter_kept {A} (P : A -> Prop) `{!forall x, Decision (P x)} l :
  (forall z, last l = Some z -> P z) -> last (filter P l) = last l.
Proof.
  destruct l as [|x l] using rev_ind; [done|]. rewrite last_snoc. intros Hz. rewrite filter_app, filter_cons_True by auto.
  by rewrite filter_nil, last_snoc.
Qed.

(** ** Retiring *)
Definition rest_same (r r' : VolumeSyncRecord) : Prop :=
  vr_epoch r' = vr_epoch r /\ vr_pin r' = vr_pin r /\ vr_replicas r' = vr_replicas r.

(** What the loop may retire: none of it current or at or above the pin. *)
Definition retirable (v : string) (pin : option Z) (r : VolumeSyncRecord) (n : string) : Prop :=
  vr_epoch r <> Some n /\ exists s, epoch_seq v n = Some s /\ match pin with Some p => s < p | None => True end.

Lemma filter_length_le {A} (P : A -> Prop) `{!forall x, Decision (P x)} (l : list A) :
  ~ (length (filter P l) < length l)%nat -> filter P l = l.
Proof.
  induction l as [|x l IH]; [done|]. rewrite filter_cons. simpl. pose proof (length_filter P l). destruct (decide (P x)); simpl; [|lia].
  intros H'. rewrite IH by lia. done.
Qed.

Lemma filter_nothing (l : list EpochEntry) : filter (fun e => ee_name e ∉ ([] : list string)) l = l.
Proof. induction l as [|x l IH]; [done|]. rewrite filter_cons_True by apply not_elem_of_nil. by rewrite IH. Qed.

Lemma retire_loop_spec v pin names r : let res := retire_loop v pin names r in
  rest_same r res.2 /\ Forall (fun n => n ∈ names /\ retirable v pin r n) res.1 /\
  vr_epochs res.2 = filter (fun e => ee_name e ∉ res.1) (vr_epochs r).
Proof.
  revert r. induction names as [|n names IH]; intros r; simpl.
  { split; [done|]. split; [done|]. symmetry. apply filter_nothing. }
  assert (rest_same r r /\ Forall (fun m => m ∈ n :: names /\ retirable v pin r m) [] /\
    vr_epochs r = filter (fun e => ee_name e ∉ ([] : list string)) (vr_epochs r)) as Hstop.
  { split; [done|]. split; [done|]. symmetry. apply filter_nothing. }
  case_bool_decide as Hcur; [exact Hstop|]. destruct (epoch_seq v n) as [s|] eqn:Hs; [|exact Hstop].
  destruct (match pin with Some p => p <=? s | None => false end) eqn:Hpin; [exact Hstop|]. clear Hstop.
  set (kept := filter (fun e => ee_name e <> n) (vr_epochs r)). specialize (IH (put_epochs kept r)).
  destruct (retire_loop v pin names (put_epochs kept r)) as [gone r'] eqn:Hl. simpl in IH |- *. destruct IH as (Hr & Hg & He).
  assert (Forall (fun m => m ∈ n :: names /\ retirable v pin r m) gone) as Hg'.
  { eapply Forall_impl; [done|]. intros m [Hm Hr']. split; [by right|exact Hr']. }
  assert (retirable v pin r n) as Hn.
  { split; [done|]. exists s. split; [done|]. destruct pin; [|done]. by apply Z.leb_gt. }
  destruct (Nat.ltb_spec (length kept) (length (vr_epochs r))) as [Hlt|Hge]; simpl.
  - split; [exact Hr|]. split; [constructor; [split; [by left|done]|done]|]. rewrite He. unfold kept. rewrite list_filter_filter.
    apply list_filter_iff. intros e. rewrite not_elem_of_cons. naive_solver.
  - split; [exact Hr|]. split; [done|]. rewrite He. f_equal. apply filter_length_le. fold kept. lia.
Qed.

Lemma retire_epochs_spec v names r : let res := retire_epochs v names r in
  rest_same r res.2 /\ vr_epochs res.2 = filter (fun e => ee_name e ∉ res.1) (vr_epochs r) /\
  Forall (fun n => n ∈ names /\ vr_epoch r <> Some n /\ exists s, epoch_seq v n = Some s /\
    forall p, vr_pin r = Some p -> exists k, epoch_seq v p = Some k /\ s < k) res.1.
Proof.
  unfold retire_epochs. destruct (vr_pin r) as [p|] eqn:Hp; [destruct (epoch_seq v p) as [k|] eqn:Hk|].
  - destruct (retire_loop_spec v (Some k) names r) as (H1 & H2 & H3). split; [done|]. split; [done|].
    eapply Forall_impl; [done|]. intros n (Hn & Hc & s & Hs & Hlt). split; [done|]. split; [done|]. exists s. split; [done|].
    intros p' [= <-]. eauto.
  - simpl. split; [done|]. split; [|done]. symmetry. apply filter_nothing.
  - destruct (retire_loop_spec v None names r) as (H1 & H2 & H3). split; [done|]. split; [done|].
    eapply Forall_impl; [done|]. intros n (Hn & Hc & s & Hs & _). split; [done|]. split; [done|]. by exists s.
Qed.

(** ** What a request does to the epochs *)
Definition same_epochs (r r' : VolumeSyncRecord) : Prop := vr_epoch r' = vr_epoch r /\ vr_epochs r' = vr_epochs r.

Lemma same_epochs_trans r1 r2 r3 : same_epochs r1 r2 -> same_epochs r2 r3 -> same_epochs r1 r3.
Proof. intros [H1 H2] [H3 H4]. split; congruence. Qed.
Lemma drop_writer_epochs u now r : same_epochs r (drop_writer u now r).
Proof. unfold drop_writer. by destruct (vr_writers r). Qed.
Lemma stale_epochs u reason now r : same_epochs r (mark_stale u reason now r).2.
Proof.
  unfold mark_stale. destruct (rep_get r u) as [x|]; [destruct (rr_state x)|]; simpl;
    match goal with |- same_epochs _ (drop_writer ?u ?n ?r') => destruct (drop_writer_epochs u n r') end; done.
Qed.
Lemma foldl_epochs {A} (f : VolumeSyncRecord -> A -> VolumeSyncRecord) l r :
  (forall r a, same_epochs r (f r a)) -> same_epochs r (foldl f r l).
Proof.
  intros Hf. revert r. induction l as [|a l IH]; intros r; [done|]. simpl. eapply same_epochs_trans; [apply Hf|apply IH].
Qed.
Lemma drain_epochs parse u deadline now r : same_epochs r (drain_for_maintenance parse u deadline now r).2.
Proof.
  unfold drain_for_maintenance. destruct (rep_get r u); [|done]. case_bool_decide; [done|].
  destruct (existsb _ _); [done|]. destruct (_ && _); [done|].
  pose proof (stale_epochs u "maintenance drain (planned roll)" now r) as Hk.
  destruct (mark_stale _ _ _ _) as [c r1]. simpl in *. destruct (rep_get r1 u); [|done]. by case_bool_decide.
Qed.
Lemma advance_epochs v r : same_epochs r (advance_retention_pin v r).2.
Proof.
  unfold advance_retention_pin. destruct (_ ≫= epoch_seq v); [|done]. destruct (_ ≫= list_min); [|done]. by destruct (_ <=? _).
Qed.
Lemma in_sync_epochs u e reason now r : same_epochs r (mark_in_sync u e reason now r).2.
Proof.
  unfold mark_in_sync. destruct (rep_get r u) as [x|]; [|done].
  assert (same_epochs r (add_writer u now (rep_upd u (admitted e reason now) r)).2) as H.
  { unfold add_writer. destruct (vr_writers _); [by case_bool_decide|done]. }
  destruct (add_writer _ _ _) as [grew r1]. simpl in *. by destruct (bool_decide _ && _).
Qed.
Lemma cleared_epochs u reason d now r : same_epochs r (clear_hot_rejoin u reason d now r).2.
Proof.
  unfold clear_hot_rejoin.
  assert (same_epochs r (if d then mark_stale u reason now r else (false, r)).2) as H.
  { destruct d; [apply stale_epochs|done]. }
  destruct (if d then mark_stale u reason now r else (false, r)) as [c r1]. simpl in *. destruct (rep_get r1 u); [|done].
  by case_bool_decide.
Qed.
Lemma swapped_epochs old z infos r : same_epochs r (default r (build_swapped_record old z infos r)).
Proof.
  unfold build_swapped_record. case_bool_decide; [|done]. unfold prune_writers_for_replacement. simpl.
  by destruct (vr_writers r).
Qed.

Definition touches_epochs (q : sync_request) : bool :=
  match q with QCut _ _ _ | QFlip _ _ _ _ _ | QRetire _ => true | _ => false end.

Lemma mutate_epochs parse v q r : touches_epochs q = false -> same_epochs r (mutate parse v q r).
Proof.
  destruct q; intros Hq; try discriminate Hq; cbn [mutate]; try done.
  - unfold pin_retention. by destruct (match vr_pin r with Some _ => _ | None => _ end).
  - by rewrite revert_upd.
  - unfold note_copy_source. destruct (rep_get r src), (rep_get r dst); try done. by case_bool_decide.
  - rewrite standby_upd. exact (advance_epochs v (rep_upd u _ r)).
  - apply stale_epochs.
  - apply drain_epochs.
  - unfold set_maint_drain. destruct (rep_get r u); [|done]. by case_bool_decide.
  - apply in_sync_epochs.
  - unfold add_snapshot_tombstone. repeat case_bool_decide; done.
  - unfold mark_hot_rejoin_intent. destruct (existsb _ _); [done|]. destruct (rep_get r u) as [x|]; [|done].
    destruct (rr_state x); [done| |]; by case_bool_decide.
  - apply cleared_epochs.
  - unfold refuse_hot_rejoin. destruct (rep_get r u); [|done]. by destruct (drop_writer_epochs u now (rep_upd u (refused reason now) r)).
  - apply foldl_epochs. intros. apply stale_epochs.
  - unfold record_assembly.
    assert (forall us now r, same_epochs r (set_writer_set us now r).2) as Hw.
    { intros us n r'. unfold set_writer_set. destruct (vr_writers r'); [by case_bool_decide|done]. }
    eapply same_epochs_trans; [|apply Hw]. apply foldl_epochs. intros. apply stale_epochs.
  - apply swapped_epochs.
Qed.

Lemma cut_epochs e cut now r : vr_epoch (apply_epoch_cut e cut now r) = Some e /\
  vr_epochs (apply_epoch_cut e cut now r) =
  if existsb (fun x => String.eqb (ee_name x) e) (vr_epochs r) then vr_epochs r else vr_epochs r ++ [Epoch e now].
Proof. unfold apply_epoch_cut. by destruct (existsb _ _). Qed.

Lemma cut_recorded v e r : epochs_ok v r -> vr_epoch r = Some e -> existsb (fun x => String.eqb (ee_name x) e) (vr_epochs r) = true.
Proof.
  intros (_ & _ & Hc) He. rewrite He in Hc. destruct (last (vr_epochs r)) as [z|] eqn:Hl; [|done]. injection Hc as ->.
  apply existsb_exists. exists z. split; [|apply String.eqb_refl]. apply list_elem_of_In. by apply last_Some_elem_of.
Qed.

(** A number above every recorded one names no recorded epoch. *)
Lemma fresh_not_recorded v r n : latest_epoch_seq v r < n <= u64_max ->
  existsb (fun x => String.eqb (ee_name x) (epoch_name v n)) (vr_epochs r) = false.
Proof.
  intros Hn. apply not_true_iff_false. intros (x & Hx & He)%existsb_exists. apply String.eqb_eq in He.
  pose proof (latest_nonneg v r). assert (n <= latest_epoch_seq v r); [|lia].
  eapply latest_ge; [by apply list_elem_of_In|]. rewrite He. apply epoch_seq_name. unfold is_u64. lia.
Qed.

Lemma cut_ok v r e cut now : epochs_ok v r -> cut_fresh v r e -> epochs_ok v (apply_epoch_cut e cut now r).
Proof.
  intros Hr [He|(n & -> & Hn)].
  - destruct (cut_epochs e cut now r) as [E1 E2]. rewrite (cut_recorded v e r) in E2 by done. destruct Hr as (H1 & H2 & H3). unfold epochs_ok. by rewrite E1, E2, <- H3, He.
  - destruct (cut_epochs (epoch_name v n) cut now r) as [E1 E2]. rewrite fresh_not_recorded in E2 by done.
    destruct Hr as (H1 & H2 & H3). unfold epochs_ok. rewrite E1, E2, last_snoc. pose proof (latest_nonneg v r) as Hz.
    assert (is_u64 n) by (unfold is_u64; lia). split; [|split; [|done]].
    + apply Forall_app. split; [done|]. constructor; [by exists n|done].
    + apply StronglySorted_app_2; [|done|repeat constructor]. intros a b Ha ->%list_elem_of_singleton.
      rewrite Forall_forall in H1. destruct (H1 a Ha) as (m & Hm & Hma). exists m, n. simpl. rewrite Hma, !epoch_seq_name by done.
      split; [done|]. split; [done|]. assert (m <= latest_epoch_seq v r); [|lia]. eapply latest_ge; [done|].
      rewrite Hma. by apply epoch_seq_name.
Qed.

Lemma retire_epochs_ok v r names : epochs_ok v r -> epochs_ok v (retire_epochs v names r).2.
Proof.
  intros (H1 & H2 & H3). destruct (retire_epochs_spec v names r) as ((E1 & _) & E2 & Hg). unfold epochs_ok. rewrite E1, E2.
  split; [|split].
  - apply Forall_forall. intros x [_ Hx]%list_elem_of_filter. rewrite Forall_forall in H1. auto.
  - by apply StronglySorted_filter.
  - rewrite last_filter_kept; [done|]. intros z Hz Hin. rewrite Hz in H3. rewrite Forall_forall in Hg.
    by destruct (Hg _ Hin) as (_ & ? & _).
Qed.

Lemma ok_same v r r' : same_epochs r r' -> epochs_ok v r -> epochs_ok v r'.
Proof. intros [E1 E2]. unfold epochs_ok. by rewrite E1, E2. Qed.
Lemma latest_same v r r' : vr_epochs r' = vr_epochs r -> latest_epoch_seq v r' = latest_epoch_seq v r.
Proof. unfold latest_epoch_seq, epoch_seqs. by intros ->. Qed.

Lemma flip_epochs u e cut head now r : same_epochs (apply_epoch_cut e cut now r) (mark_hot_rejoined u e cut head now r).2.
Proof. unfold mark_hot_rejoined. cbn [snd]. by rewrite standby_upd. Qed.

(** A cut never lowers the highest number; retiring leaves it. *)
Lemma latest_cut v r e cut now : latest_epoch_seq v r <= latest_epoch_seq v (apply_epoch_cut e cut now r).
Proof.
  apply latest_le; [apply latest_nonneg|]. intros x n Hx Hn. eapply latest_ge; [|done]. destruct (cut_epochs e cut now r) as [_ ->].
  destruct (existsb _ _); [done|]. apply elem_of_app. by left.
Qed.
Lemma latest_retire v r names : epochs_ok v r -> latest_epoch_seq v (retire_epochs v names r).2 = latest_epoch_seq v r.
Proof.
  intros Hr. pose proof (retire_epochs_ok v r names Hr) as Hr'. destruct Hr as (H1 & H2 & H3), Hr' as (H1' & H2' & H3').
  destruct (retire_epochs_spec v names r) as ((E1 & _) & E2 & Hg). rewrite E1, H3 in H3'.
  destruct (last (vr_epochs r)) as [z|] eqn:Hl, (last (vr_epochs (retire_epochs v names r).2)) as [z'|] eqn:Hl'; try done.
  - injection H3' as Hzz. rewrite Forall_forall in H1, H1'.
    pose proof (latest_is_last v r z H2 Hl (H1 z (last_Some_elem_of _ _ Hl))) as Hz.
    pose proof (latest_is_last v _ z' H2' Hl' (H1' z' (last_Some_elem_of _ _ Hl'))) as Hz'. congruence.
  - apply last_None in Hl, Hl'. apply latest_same. by rewrite Hl, Hl'.
Qed.

Lemma mutate_epochs_ok parse v q r : epochs_ok v r -> cut_allowed v q r ->
  epochs_ok v (mutate parse v q r) /\ latest_epoch_seq v r <= latest_epoch_seq v (mutate parse v q r).
Proof.
  intros Hr Ha. destruct (touches_epochs q) eqn:Hq.
  - destruct q; try discriminate Hq; cbn [mutate].
    + split; [by apply cut_ok|apply latest_cut].
    + pose proof (flip_epochs u ef cut head now r) as He. split.
      * eapply ok_same; [done|]. by apply cut_ok.
      * rewrite (latest_same v _ _ (proj2 He)). apply latest_cut.
    + split; [by apply retire_epochs_ok|]. by rewrite latest_retire.
  - pose proof (mutate_epochs parse v q r Hq) as He. split; [by eapply ok_same|]. by rewrite (latest_same v _ _ (proj2 He)).
Qed.

(** ** Along a run *)
Section run.
Context (parse : string -> option Z) (v : string).

Fixpoint cuts_allowed (qs : list (list ReplicaInfo * sync_request)) (r : VolumeSyncRecord) : Prop :=
  match qs with
  | [] => True
  | q :: qs => cut_allowed v q.2 r /\ cuts_allowed qs (sync_update parse v q.1 q.2 r)
  end.

Lemma update_epochs_ok l q r : epochs_ok v r -> cut_allowed v q r ->
  epochs_ok v (sync_update parse v l q r) /\ latest_epoch_seq v r <= latest_epoch_seq v (sync_update parse v l q r).
Proof. exact (mutate_epochs_ok parse v q (reconcile_membership l r).2). Qed.

Lemma run_epochs_ok qs r : epochs_ok v r -> cuts_allowed qs r ->
  epochs_ok v (sync_run parse v qs r) /\ latest_epoch_seq v r <= latest_epoch_seq v (sync_run parse v qs r).
Proof.
  revert r. induction qs as [|[l q] qs IH]; intros r Hr Ha; [done|]. destruct Ha as [Ha1 Ha].
  destruct (update_epochs_ok l q r Hr Ha1) as [Hr1 H1]. destruct (IH _ Hr1 Ha) as [Hr2 H2]. split; [done|].
  etrans; [done|]. exact H2.
Qed.

Lemma cuts_allowed_app qs qs' r : cuts_allowed (qs ++ qs') r <-> cuts_allowed qs r /\ cuts_allowed qs' (sync_run parse v qs r).
Proof.
  revert r. induction qs as [|q qs IH]; intros r; [split; [by split|by intros [_ ?]]|]. simpl. rewrite IH. simpl. tauto.
Qed.

(** The highest number is at least every number recorded on the way. *)
Lemma run_latest qs r k e n : epochs_ok v r -> cuts_allowed qs r -> e ∈ vr_epochs (sync_run parse v (take k qs) r) ->
  epoch_seq v (ee_name e) = Some n -> n <= latest_epoch_seq v (sync_run parse v qs r).
Proof.
  intros Hr Ha He Hn. rewrite <- (take_drop k qs) in Ha |- *.
  apply cuts_allowed_app in Ha as [Ha1 Ha2].
  rewrite run_app. etrans; [by eapply latest_ge|]. apply run_epochs_ok; [|done]. by apply run_epochs_ok.
Qed.
End run.

Lemma seeded_epochs l stale now : same_epochs (initial l) (initial_seeded l stale now).
Proof. apply foldl_epochs. intros r u. destruct (stale_epochs u SEEDED_STALE_REASON now r). done. Qed.
Lemma seeded_epochs_ok v l stale now : epochs_ok v (initial_seeded l stale now).
Proof. eapply ok_same; [apply seeded_epochs|]. split; [constructor|]. split; [constructor|done]. Qed.

(** Nothing the record lists is below its oldest epoch. *)
Lemma gc_not_recorded v r found n : epochs_ok v r -> n ∈ gc_candidates v r found ->
  n ∈ found /\ (exists s, epoch_seq v n = Some s) /\ n ∉ ee_name <$> vr_epochs r.
Proof.
  intros (_ & Hs & _). unfold gc_candidates. destruct (vr_epochs r) as [|o l] eqn:El; cbn [head mbind option_bind];
    [by intros ?%elem_of_nil|].
  destruct (epoch_seq v (ee_name o)) as [oldest|] eqn:Ho; [|by intros ?%elem_of_nil].
  intros [Hn Hf]%list_elem_of_filter. destruct (epoch_seq v n) as [s|] eqn:En; [|done]. apply Z.ltb_lt in Hn.
  split; [done|]. split; [by eexists|]. intros (e & -> & He)%list_elem_of_fmap. apply elem_of_cons in He as [->|He];
    [simplify_eq; lia|].
  apply StronglySorted_inv in Hs as [_ Hs]. rewrite Forall_forall in Hs. destruct (Hs _ He) as (x & y & ? & ? & ?). simplify_eq. lia.
Qed.

(** ** The pin and what the legs need *)
Lemma epoch_seq_range v n s : epoch_seq v n = Some s -> is_u64 s.
Proof.
  unfold epoch_seq. destruct (strip_prefix "epoch-" n) as [a|]; [|done]. cbn [mbind option_bind]. destruct (strip_prefix v a) as [b|]; [|done].
  cbn [mbind option_bind]. destruct (strip_prefix "-" b) as [c|]; [|done]. cbn [mbind option_bind]. destruct (is_empty c); [done|].
  apply parse_u64_range.
Qed.

(** The pin stands at or below epoch [e]. *)
Definition pin_below (v : string) (r : VolumeSyncRecord) (s : Z) : Prop :=
  exists p k, vr_pin r = Some p /\ epoch_seq v p = Some k /\ k <= s.
(** Whatever a leg needs, the pin holds. *)
Definition covered (v : string) (r : VolumeSyncRecord) : Prop :=
  forall x s, x ∈ vr_replicas r -> rep_need v x = Some (Some s) -> pin_below v r s.

Lemma needs_spec v l ns : needs v l = Some ns -> forall s, s ∈ ns <-> exists x, x ∈ l /\ rep_need v x = Some (Some s).
Proof.
  revert ns. induction l as [|x l IH]; intros ns; cbn [needs].
  - intros [= <-] s. split; [by intros ?%elem_of_nil|]. by intros (? & ?%elem_of_nil & _).
  - destruct (rep_need v x) as [n|] eqn:Hn; [|done]. cbn [mbind option_bind]. destruct (needs v l) as [ns'|]; [|done].
    cbn [mbind option_bind]. intros [= <-] s. specialize (IH ns' eq_refl s). setoid_rewrite elem_of_cons. destruct n as [k|].
    + rewrite elem_of_cons, IH. naive_solver.
    + rewrite IH. naive_solver.
Qed.

Lemma list_min_spec l m : list_min l = Some m -> m ∈ l /\ forall x, x ∈ l -> m <= x.
Proof.
  destruct l as [|a l]; [done|]. simpl. intros [= <-]. revert a. induction l as [|b l IH]; intros a; simpl.
  - split; [by left|]. intros x ->%list_elem_of_singleton. lia.
  - destruct (IH (Z.min a b)) as [H1 H2]. split; [|intros x].
    + apply elem_of_cons in H1 as [H1|H1]; [|set_solver]. rewrite H1. destruct (Z.min_spec a b) as [[_ ->]|[_ ->]]; set_solver.
    + assert (Z.min a b ∈ Z.min a b :: l) as H3 by (by left). specialize (H2 _ H3) as H4.
      intros [->|[->|Hx]%elem_of_cons]%elem_of_cons; [lia|lia|]. apply H2. by right.
Qed.

(** Advancing moves the pin forward, to the lowest epoch some leg needs. *)
Lemma advance_spec v r : let r' := (advance_retention_pin v r).2 in
  r' = r \/
  exists m k p, vr_pin r = Some p /\ epoch_seq v p = Some k /\ k < m /\ r' = put_pin (Some (epoch_name v m)) r /\ is_u64 m /\
    (exists x, x ∈ vr_replicas r /\ rep_need v x = Some (Some m)) /\
    forall x s, x ∈ vr_replicas r -> rep_need v x = Some (Some s) -> m <= s.
Proof.
  unfold advance_retention_pin. destruct (vr_pin r) as [p|] eqn:Hp; [|by left]. cbn [mbind option_bind].
  destruct (epoch_seq v p) as [k|] eqn:Hk; [|by left]. destruct (needs v (vr_replicas r)) as [ns|] eqn:Hns; [|by left].
  cbn [mbind option_bind]. destruct (list_min ns) as [m|] eqn:Hm; [|by left]. destruct (Z.leb_spec m k); [by left|]. right.
  apply list_min_spec in Hm as [Hm1 Hm2]. pose proof (needs_spec _ _ _ Hns) as Hs. apply Hs in Hm1 as (x & Hx & Hxm).
  exists m, k, p. split_and!; try done; try lia; [|by exists x|].
  - revert Hxm. unfold rep_need. destruct (rr_state x); [done| |].
    + destruct (rr_reverted x) as [b|]; [|done]. destruct (epoch_seq v b) as [z|] eqn:Hz; [|done]. intros [= ->]. by eapply epoch_seq_range.
    + destruct (rr_last_epoch x) as [b|]; [|done]. cbn [mbind option_bind].
      destruct (epoch_seq v b) as [z|] eqn:Hz; [|done]. intros [= ->]. by eapply epoch_seq_range.
  - intros y s Hy Hys. apply Hm2. apply Hs. eauto.
Qed.

Lemma covered_advance v r : covered v r -> covered v (advance_retention_pin v r).2.
Proof.
  intros Hc. destruct (advance_spec v r) as [->|(m & k & p & _ & _ & _ & -> & Hm & _ & Hmin)]; [done|].
  intros x s Hx Hs. exists (epoch_name v m), m. split; [done|]. split; [by apply epoch_seq_name|]. by eapply Hmin.
Qed.

Lemma covered_upd v r u f : covered v r ->
  (forall x s, x ∈ vr_replicas r -> rep_need v (f x) = Some (Some s) -> pin_below v r s) -> covered v (rep_upd u f r).
Proof.
  intros Hc Hf x s Hx Hs. unfold rep_upd in Hx. cbn [put_replicas vr_replicas] in Hx. apply update_first_elem in Hx as [Hx|(y & Hy & ->)].
  - by apply (Hc x).
  - apply (Hf y); [|done]. by apply find_first_Some in Hy as [? _].
Qed.

Lemma covered_pin v e r : covered v r -> covered v (pin_retention v e r).2.
Proof.
  intros Hc. unfold pin_retention. destruct (vr_pin r) as [p|] eqn:Hp.
  - destruct (epoch_seq v e) as [n|] eqn:Hn; [|done]. destruct (epoch_seq v p) as [k|] eqn:Hk; [|done].
    destruct (Z.leb_spec k n); [done|]. intros x s Hx Hs. destruct (Hc x s Hx Hs) as (p' & k' & Hp' & Hk' & Hle). simplify_eq.
    exists e, n. split; [done|]. split; [done|]. lia.
  - assert (covered v (put_pin (Some e) r)); [|by destruct (epoch_seq v e)]. intros x s Hx Hs.
    destruct (Hc x s Hx Hs) as (p' & k' & Hp' & _). congruence.
Qed.

(** A leg that needs an epoch depends on the pin. *)
Lemma need_depends v x s : rep_need v x = Some (Some s) -> depends_on_pin x = true.
Proof. unfold rep_need, depends_on_pin. destruct (rr_state x); try done. by destruct (rr_reverted x). Qed.

Lemma admitted_state e reason now x : rr_state (admitted e reason now x) = InSync.
Proof. unfold admitted. repeat case_bool_decide; done. Qed.

Lemma covered_in_sync v u e reason now r : covered v r -> covered v (mark_in_sync u e reason now r).2.
Proof.
  intros Hc. unfold mark_in_sync. destruct (rep_get r u) as [x|] eqn:Hx; [|done].
  assert (covered v (rep_upd u (admitted e reason now) r)) as H1.
  { apply covered_upd; [done|]. intros y s _. unfold rep_need. by rewrite admitted_state. }
  assert (covered v (add_writer u now (rep_upd u (admitted e reason now) r)).2) as H2.
  { unfold add_writer. destruct (vr_writers _); [by case_bool_decide|done]. }
  destruct (add_writer _ _ _) as [grew r1]. cbn [snd] in *. destruct (_ && _) eqn:Hr; [|done].
  apply andb_prop in Hr as [_ Hr%negb_true_iff]. intros y s Hy Hs%need_depends. rewrite <- not_true_iff_false, existsb_exists in Hr.
  destruct Hr. exists y. split; [by apply list_elem_of_In|done].
Qed.

Lemma covered_cut v e cut now r : covered v r -> covered v (apply_epoch_cut e cut now r).
Proof.
  intros Hc x s. rewrite cut_replicas. intros (y & -> & Hy)%list_elem_of_fmap Hs.
  assert (vr_pin (apply_epoch_cut e cut now r) = vr_pin r) as E by (unfold apply_epoch_cut; by destruct (existsb _ _)).
  unfold pin_below. rewrite E. apply (Hc y s Hy). revert Hs. destruct (_ && _) eqn:Hb; [|done].
  apply andb_prop in Hb as [Hb%bool_decide_eq_true _]. unfold rep_need. simpl. by rewrite Hb.
Qed.

Lemma covered_retire v names r : covered v r -> covered v (retire_epochs v names r).2.
Proof.
  intros Hc. destruct (retire_epochs_spec v names r) as ((_ & E1 & E2) & _). unfold covered, pin_below. by rewrite E1, E2.
Qed.

(** Requests of the catch-up and of the scheduler: they pin before they
    revert or catch up, so the bases lie at or above the pin. *)
Definition retention_request (v : string) (q : sync_request) (r : VolumeSyncRecord) : Prop :=
  match q with
  | QLoad | QPin _ | QCut _ _ _ | QInSync _ _ _ | QRetire _ | QCopySource _ _ => True
  | QRevert _ e _ | QStandby _ e _ => forall s, epoch_seq v e = Some s -> pin_below v r s
  | _ => False
  end.

Lemma mutate_covered parse v q r : covered v r -> retention_request v q r -> covered v (mutate parse v q r).
Proof.
  intros Hc Hq. destruct q; try done; cbn [mutate].
  - by apply covered_pin.
  - rewrite revert_upd. apply covered_upd; [done|]. intros x s Hx. unfold rep_need. simpl. destruct (rr_state x) eqn:Es; [done| |].
    + destruct (epoch_seq v base) as [z|] eqn:Hz; [|done]. intros [= ->]. by apply Hq.
    + intros Hs. apply (Hc x s Hx). unfold rep_need. by rewrite Es.
  - unfold note_copy_source. destruct (rep_get r src) as [a|]; [|done]. destruct (rep_get r dst) as [d|]; [|done].
    case_bool_decide; [done|]. apply covered_upd; [done|]. intros x s Hx Hs. by apply (Hc x s Hx).
  - apply covered_advance. rewrite standby_upd. apply covered_upd; [done|]. intros x s Hx. unfold rep_need, to_standby.
    case_bool_decide as Hb; simpl; rewrite ?Hb; cbn [mbind option_bind]; destruct (epoch_seq v through) as [z|] eqn:Hz; try done;
      intros [= ->]; by apply Hq.
  - by apply covered_cut.
  - by apply covered_in_sync.
  - by apply covered_retire.
Qed.

(** ** The cut *)
Section cut.
Context (snap : EpochTarget -> result string unit).

(** What the node's answer leaves to report, if anything. *)
Definition cut_failure (t : EpochTarget) : option (string * string) :=
  match snap t with Ok _ => None | Err m => if is_already_exists m then None else Some (et_node t, m) end.
Definition cut_fails (t : EpochTarget) : bool := bool_decide (is_Some (cut_failure t)).

Lemma cut_fold l : forall st, foldl (cut_one snap) st l =
  (st.1 ++ filter (fun t => cut_fails t = false) l, st.2 ++ omap cut_failure l).
Proof.
  induction l as [|t l IH]; intros [a b]; cbn [foldl fst snd]; [by rewrite !app_nil_r|]. rewrite IH. unfold cut_one. cbn [omap list_omap].
  destruct (snap t) as [x|m] eqn:Hs; [|destruct (is_already_exists m) eqn:Hm]; cbn [fst snd].
  - assert (cut_failure t = None) as E by (unfold cut_failure; by rewrite Hs). rewrite E. rewrite filter_cons_True by (unfold cut_fails; by rewrite E).
    by rewrite <- app_assoc.
  - assert (cut_failure t = None) as E by (unfold cut_failure; by rewrite Hs, Hm). rewrite E. rewrite filter_cons_True by (unfold cut_fails; by rewrite E).
    by rewrite <- app_assoc.
  - assert (cut_failure t = Some (et_node t, m)) as E by (unfold cut_failure; by rewrite Hs, Hm). rewrite E.
    rewrite filter_cons_False by (unfold cut_fails; rewrite E; by rewrite bool_decide_eq_true_2 by eauto). by rewrite <- app_assoc.
Qed.

Lemma execute_cut_eq plan : execute_cut snap plan =
  match omap cut_failure (cp_targets plan) with
  | [] => (Recorded (et_uuid <$> filter (fun t => cut_fails t = false) (cp_targets plan)), [])
  | fs => (Aborted fs, rollback_cut (filter (fun t => cut_fails t = false) (cp_targets plan)) (cp_epoch plan))
  end.
Proof. unfold execute_cut. rewrite cut_fold. cbn [fst snd app]. by destruct (omap _ _). Qed.

Lemma no_failures l : omap cut_failure l = [] <->
  Forall (fun t => (exists a, snap t = Ok a) \/ exists m, snap t = Err m /\ is_already_exists m = true) l.
Proof.
  induction l as [|t l IH]; [done|]. rewrite Forall_cons, <- IH. cbn [omap list_omap]. unfold cut_failure at 1.
  destruct (snap t) as [x|m] eqn:Hs; [|destruct (is_already_exists m) eqn:Hm].
  - split; [intros H; split; [by eauto|done]|by intros [_ ?]].
  - split; [intros H; split; [by eauto|done]|by intros [_ ?]].
  - split; [done|]. intros [[[a Ha]|(m' & Hm' & E)] _]; congruence.
Qed.

Lemma filter_adopted l : omap cut_failure l = [] -> filter (fun t => cut_fails t = false) l = l.
Proof.
  induction l as [|t l IH]; [done|]. cbn [omap list_omap]. destruct (cut_failure t) eqn:E; [done|]. intros H.
  rewrite filter_cons_True by (unfold cut_fails; by rewrite E). by rewrite IH.
Qed.

Lemma failure_nodes l : (omap cut_failure l).*1 = et_node <$> filter (fun t => cut_fails t = true) l.
Proof.
  induction l as [|t l IH]; [done|]. cbn [omap list_omap]. destruct (cut_failure t) as [f|] eqn:E.
  - rewrite filter_cons_True by (unfold cut_fails; rewrite E; by rewrite bool_decide_eq_true_2 by eauto). rewrite !fmap_cons, IH. f_equal.
    revert E. unfold cut_failure. destruct (snap t) as [|m]; [done|]. destruct (is_already_exists m); [done|]. by intros [= <-].
  - rewrite filter_cons_False by (unfold cut_fails; by rewrite E). done.
Qed.

Lemma strict_recorded e created l us : (strict_loop snap e created l).1 = Recorded us <->
  us = et_uuid <$> (created ++ l) /\ Forall (fun t => exists a, snap t = Ok a) l.
Proof.
  revert created. induction l as [|t l IH]; intros created; cbn [strict_loop].
  - rewrite app_nil_r. split; [by intros [= <-]|by intros [-> _]].
  - rewrite Forall_cons. destruct (snap t) as [x|m].
    + rewrite IH, <- app_assoc. split; [intros [-> H]; by eauto|by intros (-> & _ & ?)].
    + split; [done|]. by intros (_ & [? ?] & _).
Qed.

Lemma strict_aborted e created l fs : (strict_loop snap e created l).1 = Aborted fs -> exists d t rest m,
  l = d ++ t :: rest /\ Forall (fun t => exists a, snap t = Ok a) d /\ snap t = Err m /\ fs.*1 = [et_node t] /\
  (strict_loop snap e created l).2 = rollback_cut (created ++ d) e.
Proof.
  revert created. induction l as [|t l IH]; intros created; cbn [strict_loop]; [done|]. destruct (snap t) as [x|m] eqn:Hs.
  - intros (d & t' & rest & m & -> & Hd & Ht & Hf & Hr)%IH. exists (t :: d), t', rest, m. split_and!; try done.
    + constructor; [by eauto|done].
    + by rewrite Hr, <- app_assoc.
  - intros [= <-]. exists [], t, l, m. split_and!; try done. by rewrite app_nil_r.
Qed.
End cut.

(** ** One pass of the scheduler *)
Lemma covered_reconcile v l r : covered v r -> covered v (reconcile_membership l r).2.
Proof.
  intros Hc x s Hx Hs. cbn [reconcile_membership snd put_replicas vr_replicas] in Hx. apply list_elem_of_fmap in Hx as (i & -> & _).
  destruct (rep_get r (ri_uuid i)) as [y|] eqn:Hy; [|done]. apply (Hc y s); [by eapply get_elem|done].
Qed.
Lemma update_covered parse v l q r : covered v r -> retention_request v q (reconcile_membership l r).2 -> covered v (sync_update parse v l q r).
Proof. intros Hc Hq. apply mutate_covered; [by apply covered_reconcile|done]. Qed.

Lemma oldest_le v r e s : epochs_ok v r -> e ∈ vr_epochs r -> epoch_seq v (ee_name e) = Some s ->
  exists o, head (vr_epochs r) ≫= (fun e => epoch_seq v (ee_name e)) = Some o /\ o <= s.
Proof.
  intros (Hcan & Hs & _) He Hn. destruct (vr_epochs r) as [|h t]; [by apply elem_of_nil in He|]. cbn [head mbind option_bind].
  apply Forall_cons_1 in Hcan as [(n & Hn1 & Hn2) _]. exists n. rewrite Hn2, epoch_seq_name by done. split; [done|].
  apply elem_of_cons in He as [->|He]; [rewrite Hn2, epoch_seq_name in Hn by done; simplify_eq; lia|].
  apply StronglySorted_inv in Hs as [_ Hs]. rewrite Forall_forall in Hs. destruct (Hs _ He) as (x & y & Hx & Hy & Hlt).
  rewrite Hn2, epoch_seq_name in Hx by done. simplify_eq. lia.
Qed.

(** What the garbage collector deletes is older than any recorded epoch. *)
Lemma execute_gc_spec found v r infos d e s : epochs_ok v r -> d ∈ execute_gc found v r infos -> e ∈ vr_epochs r ->
  epoch_seq v (ee_name e) = Some s ->
  exists i n k, i ∈ infos /\ d = (ri_node i, ri_lvs i ++ "/" ++ n)%string /\ epoch_seq v n = Some k /\ k < s.
Proof.
  intros Hr Hd He Hs. destruct (oldest_le v r e s Hr He Hs) as (o & Ho & Hle). unfold execute_gc in Hd.
  destruct (vr_epochs r) as [|h t] eqn:El; [by apply elem_of_nil in Hd|]. apply list_elem_of_bind in Hd as (i & Hd & Hi).
  destruct (found (ri_node i) (ri_lvs i)) as [names|]; [|by apply elem_of_nil in Hd]. apply list_elem_of_fmap in Hd as (n & -> & Hn).
  unfold gc_candidates in Hn. rewrite El, Ho in Hn. apply list_elem_of_filter in Hn as [Hn _].
  destruct (epoch_seq v n) as [k|] eqn:Hk; [|done]. apply Z.ltb_lt in Hn. exists i, n, k. split_and!; try done. lia.
Qed.

Lemma plan_cut_name parse v r infos attached now cfg p : plan_cut parse v r infos attached now cfg = Some p ->
  cp_epoch p = epoch_name v (latest_epoch_seq v r + 1).
Proof.
  unfold plan_cut. destruct (negb attached); [done|]. destruct (cut_targets r infos); [done|]. destruct (cut_due _ _ _ _); [|done].
  by intros [= <-].
Qed.

(** The cut's part of a pass. *)
Definition after_cut parse v snap cfg l infos attached now stamp r0 : list (string * string) * VolumeSyncRecord :=
  match plan_cut parse v r0 infos attached now cfg with
  | Some cut =>
      match execute_cut snap cut with
      | (Recorded cut_uuids, undone) => (undone, sync_update parse v l (QCut (cp_epoch cut) cut_uuids stamp) r0)
      | (Aborted _, undone) => (undone, r0)
      end
  | None => ([], r0)
  end.

Lemma after_cut_ok parse v snap cfg l infos attached now stamp r0 : epochs_ok v r0 -> covered v r0 -> latest_epoch_seq v r0 < u64_max ->
  let r1 := (after_cut parse v snap cfg l infos attached now stamp r0).2 in
  epochs_ok v r1 /\ covered v r1 /\ latest_epoch_seq v r0 <= latest_epoch_seq v r1 /\ forall e, e ∈ vr_epochs r0 -> e ∈ vr_epochs r1.
Proof.
  intros Hr Hc Hlt. unfold after_cut. destruct (plan_cut _ _ _ _ _ _ _) as [p|] eqn:Hp; [|done]. apply plan_cut_name in Hp.
  destruct (execute_cut snap p) as [[us|fs] undone]; [|done]. cbn [snd]. rewrite Hp.
  destruct (update_epochs_ok parse v l (QCut (epoch_name v (latest_epoch_seq v r0 + 1)) us stamp) r0 Hr) as [H1 H2].
  { right. exists (latest_epoch_seq v r0 + 1). split; [done|lia]. }
  split_and!; [done|by apply update_covered|done|]. intros e He. unfold sync_update. cbn [mutate].
  destruct (cut_epochs (epoch_name v (latest_epoch_seq v r0 + 1)) us stamp (reconcile_membership l r0).2) as [_ ->].
  destruct (existsb _ _); [done|]. apply elem_of_app. by left.
Qed.

(** Retiring keeps what the legs of the new record need. *)
Lemma retire_need_kept parse v l names r x s e : covered v r -> x ∈ vr_replicas (sync_update parse v l (QRetire names) r) ->
  rep_need v x = Some (Some s) -> e ∈ vr_epochs r -> epoch_seq v (ee_name e) = Some s -> e ∈ vr_epochs (sync_update parse v l (QRetire names) r).
Proof.
  intros Hc Hx Hs He Hn. unfold sync_update in *. cbn [mutate] in *. set (R := (reconcile_membership l r).2) in *.
  destruct (retire_epochs_spec v names R) as ((_ & _ & Er) & Ee & Hg). rewrite Er in Hx. rewrite Ee. apply list_elem_of_filter. split; [|exact He].
  intros Hin. rewrite Forall_forall in Hg. destruct (Hg _ Hin) as (_ & _ & i & Hi & Hp).
  destruct (covered_reconcile v l r Hc x s Hx Hs) as (p & k & Hpin & Hk & Hle). destruct (Hp p Hpin) as (k' & Hk' & Hlt). simplify_eq. lia.
Qed.

(** A roll-back names the epoch planned. *)
Lemma after_cut_undone parse v snap cfg l infos attached now stamp r0 d :
  d ∈ (after_cut parse v snap cfg l infos attached now stamp r0).1 ->
  exists t, d = (et_node t, et_lvs t ++ "/" ++ epoch_name v (latest_epoch_seq v r0 + 1))%string.
Proof.
  unfold after_cut. destruct (plan_cut _ _ _ _ _ _ _) as [p|] eqn:Hp; [|by intros ?%elem_of_nil]. apply plan_cut_name in Hp.
  assert (d ∈ (execute_cut snap p).2 -> exists t, d = (et_node t, et_lvs t ++ "/" ++ epoch_name v (latest_epoch_seq v r0 + 1))%string) as H.
  { rewrite execute_cut_eq. destruct (omap _ _); cbn [snd]; [by intros ?%elem_of_nil|]. unfold rollback_cut. rewrite Hp.
    intros (t & -> & _)%list_elem_of_fmap. by exists t. }
  destruct (execute_cut snap p) as [[us|fs] undone]; exact H.
Qed.

(** The retirement's part of a pass. *)
Lemma after_retire_ok parse v l names r1 : epochs_ok v r1 -> covered v r1 ->
  let r2 := match names with [] => r1 | _ => sync_update parse v l (QRetire names) r1 end in
  epochs_ok v r2 /\ covered v r2 /\ latest_epoch_seq v r1 <= latest_epoch_seq v r2 /\
  forall x s e, x ∈ vr_replicas r2 -> rep_need v x = Some (Some s) -> e ∈ vr_epochs r1 -> epoch_seq v (ee_name e) = Some s -> e ∈ vr_epochs r2.
Proof.
  intros H1 H2. destruct names as [|n names]; [done|]. destruct (update_epochs_ok parse v l (QRetire (n :: names)) r1 H1 I) as [E1 E2].
  split_and!; [done|by apply update_covered|done|]. intros x s e. by apply retire_need_kept.
Qed.
