(* ===== verification/ReplicaCatchup.v ===== *)
(** What a catch-up starts from (catchup.rs): the base epoch a stale replica is
    reverted to, and the in-sync replica its delta is copied from. *)

From Stdlib Require Import Ascii String.
From S2P Require Import Prelude Csv FreshnessGate ReplicaSync ReplicaStore ReplicaProps ReplicaInv ReplicaRetain.

(** ** The base epoch *)
Inductive Floor := NoFloor | FloorSeq (n : Z) | FullBuild.
Definition base_floor_of (v : string) (x : ReplicaSyncRecord) : Floor :=
  match (match rr_floor x with Some f => Some f | None => rr_reverted x end) with
  | None => NoFloor
  | Some f => match epoch_seq v f with Some n => FloorSeq n | None => FullBuild end
  end.
Definition below_floor (v : string) (f : Floor) (e : EpochEntry) : bool :=
  match f with
  | NoFloor => true
  | FloorSeq n => match epoch_seq v (ee_name e) with Some s => s <=? n | None => false end
  | FullBuild => false
  end.

Section base.
Context (parse : string -> option Z) (v : string).

(** [t_back] in seconds; two minutes when chrono cannot hold it. *)
Definition back_ns (t_back : Z) : Z := (if t_back <=? i64_max / 1000 then t_back else 120) * SECOND.
Definition stale_deadline (x : ReplicaSyncRecord) (t_back : Z) : option Z :=
  t ← rr_since x ≫= parse; Some (t - back_ns t_back).
Definition old_enough (deadline : option Z) (e : EpochEntry) : bool :=
  match deadline with
  | Some d => match parse (ee_recorded_at e) with Some t => t <=? d | None => false end
  | None => true
  end.
Definition base_candidate (x : ReplicaSyncRecord) (present : list string) (t_back : Z) (e : EpochEntry) : Prop :=
  is_Some (epoch_seq v (ee_name e)) /\ ee_name e ∈ present /\ old_enough (stale_deadline x t_back) e = true /\
  below_floor v (base_floor_of v x) e = true.
#[global] Instance base_candidate_dec x present t_back e : Decision (base_candidate x present t_back e).
Proof. unfold base_candidate. apply _. Defined.

Definition select_base_epoch (r : VolumeSyncRecord) (x : ReplicaSyncRecord) (present : list string) (t_back : Z) : option string :=
  let candidates := ee_name <$> filter (base_candidate x present t_back) (vr_epochs r) in
  match stale_deadline x t_back with Some _ => last candidates | None => head candidates end.
End base.

(** ** The source *)
Definition source_live_uuid (r : VolumeSyncRecord) (src : ReplicaInfo) : option string := live_lvol_uuid <$> rep_get r (ri_uuid src).

(** Stable: the replicas off the consumer's node first. *)
Definition in_sync_sources (r : VolumeSyncRecord) (l : list ReplicaInfo) (consumer : option string) : list ReplicaInfo :=
  let sources := omap (fun x => if bool_decide (rr_state x = InSync)
    then find_first (fun i => String.eqb (ri_uuid i) (rr_uuid x)) l else None) (vr_replicas r) in
  filter (fun i => consumer <> Some (ri_node i)) sources ++ filter (fun i => consumer = Some (ri_node i)) sources.
Definition pick_source (r : VolumeSyncRecord) (l : list ReplicaInfo) (consumer : option string) : option ReplicaInfo :=
  head (in_sync_sources r l consumer).

(** ** Lemmas *)
(** The choice is a candidate; the newest when the failure time is known, the
    oldest otherwise; and there is one as soon as an epoch qualifies. *)
Lemma select_spec parse v r x present t_back : epochs_ok v r ->
  match select_base_epoch parse v r x present t_back with
  | Some b => exists e n, e ∈ vr_epochs r /\ ee_name e = b /\ epoch_seq v b = Some n /\ base_candidate parse v x present t_back e /\
      forall e' n', e' ∈ vr_epochs r -> base_candidate parse v x present t_back e' -> epoch_seq v (ee_name e') = Some n' ->
        if stale_deadline parse x t_back then n' <= n else n <= n'
  | None => forall e, e ∈ vr_epochs r -> ~ base_candidate parse v x present t_back e
  end.
Proof.
  intros (_ & Hs & _). unfold select_base_epoch. set (P := base_candidate parse v x present t_back).
  pose proof (StronglySorted_filter (epoch_lt v) P _ Hs) as Hf. set (c := filter P (vr_epochs r)) in *.
  assert (forall e, e ∈ c <-> P e /\ e ∈ vr_epochs r) as Hc by (intros e; apply list_elem_of_filter).
  destruct (stale_deadline parse x t_back) as [d|].
  - rewrite fmap_last. destruct (last c) as [e|] eqn:Hl; cbn [fmap option_fmap option_map].
    + apply last_Some_elem_of in Hl as He. apply Hc in He as [HP He]. destruct (proj1 HP) as [n Hn]. exists e, n. split_and!; try done.
      intros e' n' He' HP' Hn'. destruct (epoch_lt_last v c e e' Hf Hl) as [->|(a & b & Ha & Hb & ?)]; [by apply Hc|simplify_eq; lia|simplify_eq; lia].
    + apply last_None in Hl. intros e He HP. assert (e ∈ c) as Hin by (by apply Hc). rewrite Hl in Hin. by apply elem_of_nil in Hin.
  - destruct c as [|e c'] eqn:El; cbn [fmap list_fmap head].
    + intros e He HP. assert (e ∈ []) as Hin by (by apply Hc). by apply elem_of_nil in Hin.
    + assert (e ∈ e :: c') as He by (by left). apply Hc in He as [HP He]. destruct (proj1 HP) as [n Hn]. exists e, n. split_and!; try done.
      intros e' n' He' HP' Hn'. assert (e' ∈ e :: c') as Hin by (by apply Hc). apply elem_of_cons in Hin as [->|Hin]; [simplify_eq; lia|].
      apply StronglySorted_inv in Hf as [_ Hf]. rewrite Forall_forall in Hf. destruct (Hf _ Hin) as (a & b & Ha & Hb & ?). simplify_eq. lia.
Qed.

(** A floor at or below [base] admits nothing above it. *)
Lemma floored_candidate parse v x present t_back e f base : rr_floor x = Some f -> base_le v f base ->
  base_candidate parse v x present t_back e ->
  exists n k, epoch_seq v (ee_name e) = Some n /\ epoch_seq v base = Some k /\ n <= k.
Proof.
  intros Hf Hle (_ & _ & _ & Hb). unfold base_floor_of in Hb. rewrite Hf in Hb. unfold base_le in Hle.
  destruct (epoch_seq v f) as [m|]; [|done]. destruct (epoch_seq v base) as [k|]; [|done]. cbn [below_floor] in Hb.
  destruct (epoch_seq v (ee_name e)) as [n|]; [|done]. apply Z.leb_le in Hb. exists n, k. split_and!; try done. lia.
Qed.

Lemma select_candidate parse v r x present t_back b : select_base_epoch parse v r x present t_back = Some b ->
  exists e, e ∈ vr_epochs r /\ ee_name e = b /\ base_candidate parse v x present t_back e.
Proof.
  unfold select_base_epoch. intros H. assert (b ∈ ee_name <$> filter (base_candidate parse v x present t_back) (vr_epochs r)) as Hb.
  { destruct (stale_deadline parse x t_back); [by apply last_Some_elem_of|by apply head_Some_elem_of]. }
  apply list_elem_of_fmap in Hb as (e & -> & He). apply list_elem_of_filter in He as [HP He]. by exists e.
Qed.

(** Every source is a replica the record holds in sync; the preferred one is
    off the consumer's node whenever any is. *)
Lemma sources_spec r l consumer i : i ∈ in_sync_sources r l consumer <->
  exists x, x ∈ vr_replicas r /\ rr_state x = InSync /\ find_first (fun i => String.eqb (ri_uuid i) (rr_uuid x)) l = Some i.
Proof.
  unfold in_sync_sources. set (s := omap _ (vr_replicas r)).
  assert (i ∈ s <-> exists x, x ∈ vr_replicas r /\ rr_state x = InSync /\ find_first (fun i => String.eqb (ri_uuid i) (rr_uuid x)) l = Some i) as <-.
  { unfold s. rewrite list_elem_of_omap. split; intros (x & Hx & H); exists x; (split; [done|]).
    - by case_bool_decide.
    - destruct H as [H1 H2]. by rewrite bool_decide_eq_true_2. }
  rewrite elem_of_app, !list_elem_of_filter. destruct (decide (consumer = Some (ri_node i))); tauto.
Qed.

Lemma pick_source_spec r l consumer i : pick_source r l consumer = Some i ->
  i ∈ in_sync_sources r l consumer /\ (consumer = Some (ri_node i) -> forall j, j ∈ in_sync_sources r l consumer -> consumer = Some (ri_node j)).
Proof.
  unfold pick_source. intros H. split; [by apply head_Some_elem_of|]. intros Hc j Hj. revert H Hj. unfold in_sync_sources.
  set (s := omap _ (vr_replicas r)). destruct (filter (fun i => consumer <> Some (ri_node i)) s) as [|k t] eqn:Ef.
  - intros _ Hj. cbn [app] in Hj. by apply list_elem_of_filter in Hj as [? _].
  - cbn [app head]. intros [= ->]. assert (i ∈ filter (fun i => consumer <> Some (ri_node i)) s) as Hi by (rewrite Ef; by left).
    by apply list_elem_of_filter in Hi as [? _].
Qed.
