(* ===== verification/ReplicaClaims.v ===== *)
(** What the sync record, the epoch scheduler and the freshness gate
    promise. *)

From Stdlib Require Import Ascii String.
From S2P Require Import Prelude Csv FreshnessGate FreshnessProps ReplicaSync ReplicaStore ReplicaProps ReplicaInv ReplicaReplace ReplicaRetain ReplicaCatchup.

(** ** A concrete volume for the witnesses *)
Definition w_infos : list ReplicaInfo := [Info "n1" "k1" "ua" "lvs0"; Info "n2" "k2" "ub" "lvs0"].
Definition w_parse (s : string) : option Z := (fun n => n * SECOND) <$> parse_i64 s.
Definition w_show (t : Z) : string := show_i64 (t / SECOND).
Definition w_rec : VolumeSyncRecord := initial_seeded w_infos [] "1".

Lemma w_distinct : NoDup (info_uuids w_infos).
Proof. apply (bool_decide_unpack (NoDup (info_uuids w_infos))). by vm_compute. Qed.
Lemma w_clock : clock_text w_parse w_show.
Proof.
  assert (SECOND = 1000000000) as ES by done. intros t Ht. unfold RFC3339_END in Ht. unfold w_parse, w_show.
  assert (0 <= t / SECOND < 253402300800) as Hd.
  { split; [apply Z.div_pos; lia|apply Z.div_lt_upper_bound; lia]. }
  rewrite parse_show by (unfold is_i64, i64_max; lia). split; [done|]. unfold show_i64. destruct (Z.ltb_spec (t / SECOND) 0); [lia|]. split.
  - apply show_digits_chars; [|lia|done]. intros n Hn. unfold no_bar. apply negb_true_iff, Ascii.eqb_neq. intros Heq.
    apply (f_equal N_of_ascii) in Heq. rewrite digit_char_code in Heq by done. vm_compute (N_of_ascii _) in Heq. lia.
  - destruct (show_digits_head 20 (t / SECOND) EmptyString) as (c & s & -> & _); [lia|lia|done].
Qed.

(** ** Trust *)
(** C4: whatever requests a volume's record went through since it was
    created (identity lists without duplicates), an in-sync leg is not marked
    empty and carries no forced revert and no hot-rejoin marker; it is a
    complete one -- not reverted, no copy sources, no base floor -- unless
    somewhere in the run a revert or a copy source was recorded for it while
    the record had it in sync (the record does not refuse that); a standby leg
    is built; and a leg that is not in sync becomes so through the fenced
    admission only. *)
Theorem trusted_legs parse v l0 stale now0 qs u x : uuids_distinct qs ->
  let r0 := initial_seeded l0 stale now0 in
  let r := sync_run parse v qs r0 in
  rep_get r u = Some x ->
  (rr_state x = InSync -> rr_empty x = false /\ rr_must x = false /\ rr_hot x = None /\
     ((head_not_built x = false /\ rr_copied x = [] /\ rr_floor x = None) \/
      exists k q y, qs !! k = Some q /\ rebuilds u q.2 = true /\
        rep_get (sync_run parse v (take k qs) r0) u = Some y /\ rr_state y = InSync)) /\
  (rr_state x = Standby -> rr_empty x = false) /\
  (rr_state x <> InSync -> forall l q y, NoDup (info_uuids l) -> rep_get (sync_update parse v l q r) u = Some y ->
    rr_state y = InSync -> exists e now, q = QInSync u e now).
Proof.
  intros Hd r0 r Hx. destruct (run_leg_sane parse v r0 qs u (initial_ok _ _ _) Hd x Hx) as [H1 H2]. split_and!; [|done|].
  - intros Hs. destruct (H1 Hs) as (E1 & E2 & E3). split_and!; [done..|].
    destruct (run_leg_ok parse v r0 qs u (initial_ok _ _ _) Hd x Hx) as [[Hok _]|Hb]; [left|by right].
    destruct (Hok Hs) as (F1 & F2 & F3 & F4 & _). unfold head_not_built. by rewrite F1, F2.
  - intros Hs l q y Hl Hy Hys. destruct (admission_needed parse v [(l, q)] r u) as (l' & e & now & Hin).
    + by constructor.
    + intros x' Hx'. congruence.
    + exists (rr_since y), y. done.
    + apply list_elem_of_singleton in Hin. injection Hin as _ <-. eauto.
Qed.

(** A leg goes stale and is admitted again; the other one stays complete. *)
Definition w_history : list (list ReplicaInfo * sync_request) :=
  [(w_infos, QStale "ub" "gone" "2"); (w_infos, QRevert "ub" "epoch-v-1" "hb"); (w_infos, QStandby "ub" "epoch-v-2" "3");
   (w_infos, QInSync "ub" "epoch-v-2" "4")].
Lemma w_history_distinct : uuids_distinct w_history.
Proof. repeat (apply Forall_cons; split; [apply w_distinct|]). by apply Forall_nil. Qed.
Lemma trusted_legs_witness :
  exists x, rep_get (sync_run w_parse "v" w_history w_rec) "ub" = Some x /\ rr_state x = InSync /\
    head_not_built x = false /\ rr_copied x = [] /\ rr_floor x = None.
Proof.
  destruct (rep_get (sync_run w_parse "v" w_history w_rec) "ub") as [x|] eqn:Ex; [|by vm_compute in Ex].
  exists x. split; [done|]. assert (rr_state x = InSync) as Hs.
  { assert (Some (rr_state x) = Some InSync) as [= ?]; [|done]. change (Some (rr_state x)) with (rr_state <$> Some x).
    rewrite <- Ex. by vm_compute. }
  split; [done|]. destruct (trusted_legs w_parse "v" w_infos [] "1" w_history "ub" x w_history_distinct Ex) as (H & _).
  destruct (H Hs) as (_ & _ & _ & [Hc|(k & q & y & Hk & Hq & Hy & Hys)]); [exact Hc|exfalso].
  destruct k as [|[|[|[|k]]]]; cbn in Hk; simplify_eq; try done. assert (rr_state <$> Some y = Some Stale) as [= E]; [|congruence].
  rewrite <- Hy. by vm_compute.
Defined.

(** The exception is real: a revert recorded for an in-sync leg leaves it in
    sync, with a head that is not built. *)
Lemma revert_taints_in_sync :
  (fun x => (rr_state x, head_not_built x)) <$>
    rep_get (sync_run w_parse "v" [(w_infos, QRevert "ub" "epoch-v-1" "hb")] w_rec) "ub" = Some (InSync, true).
Proof. by vm_compute. Qed.

(** C29: a copy is vouched for only by a source that never left the serving
    set.  Once a source is noted for a leg under catch-up, and the leg is
    neither reverted nor marked for a revert, an unbroken tie says that at
    every update since, the source was in sync under the same episode, and
    that it is attached and still serves from the head that was copied.  (An
    admission of the source in between is assumed to be stamped with another
    time than its noted episode, and the identity lists to hold no uuid
    twice.) *)
Theorem source_tie_sound parse v l dst src r s d qs attached x k :
  let r1 := sync_update parse v l (QCopySource dst src) r in
  let r2 := sync_run parse v qs r1 in
  rep_get (reconcile_membership l r).2 src = Some s -> rep_get (reconcile_membership l r).2 dst = Some d -> rr_state d <> InSync ->
  Forall (stays dst) qs -> Forall (fun q => ~ reverts dst q.2) qs -> uuids_distinct qs -> clock_past src (rr_since s) qs ->
  rep_get r2 dst = Some x -> rr_must x = false -> source_tie_broken r2 dst attached = None ->
  in_sync_since (sync_run parse v (take k qs) r1) src (rr_since s) /\ src ∈ attached /\
  exists y, rep_get r2 src = Some y /\ live_lvol_uuid y = live_lvol_uuid s.
Proof.
  intros r1 r2 Hs Hd Hst Hstay Hrev Hdist Hclock Hx Hmust Htie.
  destruct (noted_listed parse v l dst src r s d Hs Hd Hst) as (d1 & Hd1 & Hl1).
  destruct (run_listed parse v dst (source_entry s) qs r1 d1 Hstay Hrev Hd1 Hl1) as (x' & Hx' & _ & Hc).
  assert (x' = x) as -> by (unfold r2 in Hx; congruence).
  pose proof (tie_holds _ _ _ _ _ Htie Hx (Hc Hmust)) as (y & Hy & Hys & Hyt & Hyh & Hat). simpl in *.
  apply get_uuid in Hs as Eu. rewrite Eu in *. split; [|by eauto]. apply run_in_sync_back; [done..|]. by exists y.
Qed.

Lemma source_tie_sound_witness :
  let r := sync_update w_parse "v" w_infos (QStale "ub" "gone" "2") w_rec in
  let r1 := sync_update w_parse "v" w_infos (QCopySource "ub" "ua") r in
  in_sync_since (sync_run w_parse "v" (take 1 [(w_infos, QStandby "ub" "epoch-v-1" "3"); (w_infos, QLoad)]) r1) "ua" None /\
  "ua"%string ∈ ["ua"%string] /\
  exists y, rep_get (sync_run w_parse "v" [(w_infos, QStandby "ub" "epoch-v-1" "3"); (w_infos, QLoad)] r1) "ua" = Some y /\
    live_lvol_uuid y = "ua"%string.
Proof.
  cbv zeta. assert ("ub"%string ∈ info_uuids w_infos) as Hin by (by apply (bool_decide_unpack _); vm_compute).
  refine (source_tie_sound w_parse "v" w_infos "ub" "ua" (sync_update w_parse "v" w_infos (QStale "ub" "gone" "2") w_rec)
    (fresh_rep InSync None (Info "n1" "k1" "ua" "lvs0")) _
    [(w_infos, QStandby "ub" "epoch-v-1" "3"); (w_infos, QLoad)] ["ua"%string] _ 1 _ _ _ _ _ _ _ _ _ _).
  - by vm_compute.
  - by vm_compute.
  - done.
  - repeat (apply Forall_cons; split; [by split|]). by apply Forall_nil.
  - repeat (apply Forall_cons; split; [by intros ?|]). by apply Forall_nil.
  - repeat (apply Forall_cons; split; [apply w_distinct|]). by apply Forall_nil.
  - repeat (apply Forall_cons; split; [by intros e now H|]). by apply Forall_nil.
  - by vm_compute.
  - done.
  - by vm_compute.
Defined.

(** ** The guarded write *)
(** C32: an update of the sync record is atomic.  Whatever other writers do to
    the PV between its reads and its writes, and whatever reads and writes
    err, an update that answers with a record applied the request to the
    record and identity list the PV held at one moment of its run, and left
    the PV with that (writing only when the record changed); one that finds no
    replicated volume leaves the PV as the others made it; and one that fails
    does so because a GET or a PATCH failed, the replica list was unreadable
    or every attempt met a conflict, and leaves the PV as the others made it,
    except that when the reply to a PATCH that reached the API server was
    lost, the request's write is there, once. *)
Theorem update_atomic parse v q clock bump env pv : Forall versioned env ->
  let '(res, pv') := update_sync_record (mutate parse v q) clock bump env pv in
  exists n, (n <= MAX_ATTEMPTS)%nat /\
  let p := others_after env n pv in
  let applied record := exists l t, pv_infos p = Ok (Some l) /\
    record = sync_update parse v l q (default (initial_seeded l (pv_seeded p) (clock t)) (pv_record p)) /\
    ((pv_record p = Some record /\ pv' = p) \/
     (pv_record p <> Some record /\ pv' = MkPv (bump (pv_version p)) (Some record) (pv_infos p) (pv_seeded p))) in
  match res with
  | Ok (Some record) => applied record
  | Ok None => pv_infos p = Ok None /\ pv' = p
  | Err _ => failure_cause env MAX_ATTEMPTS pv /\
      (pv' = p \/ exists a e record, env !! n = Some a /\ at_fault a = Some (true, e) /\ applied record)
  end.
Proof. apply update_attempts_spec. Qed.

Definition w_pv : Pv := MkPv 7 (Some w_rec) (Ok (Some w_infos)) [].
(** Another writer that pins while the update runs; then a lost reply. *)
Definition w_other (pv : Pv) : Pv := MkPv (pv_version pv + 1) ((fun r => (pin_retention "v" "epoch-v-1" r).2) <$> pv_record pv) (pv_infos pv) (pv_seeded pv).
Definition w_env : list Attempt :=
  [MkAttempt None w_other None; MkAttempt None (fun p => p) (Some (true, "connection reset"%string))].
Lemma update_atomic_witness :
  let '(res, pv') := update_sync_record (mutate w_parse "v" (QStale "ub" "gone" "2")) (fun _ => "2"%string) Z.succ w_env w_pv in
  (exists e, res = Err e) /\ pv_version pv' = 9 /\ vr_pin <$> pv_record pv' = Some (Some "epoch-v-1"%string) /\
  failure_cause w_env MAX_ATTEMPTS w_pv.
Proof.
  pose proof (update_atomic w_parse "v" (QStale "ub" "gone" "2") (fun _ => "2"%string) Z.succ w_env w_pv) as H.
  assert (exists e, (update_sync_record (mutate w_parse "v" (QStale "ub" "gone" "2")) (fun _ => "2"%string) Z.succ w_env w_pv).1 = Err e) as [e H1].
  { eexists. by vm_compute. }
  assert (pv_version (update_sync_record (mutate w_parse "v" (QStale "ub" "gone" "2")) (fun _ => "2"%string) Z.succ w_env w_pv).2 = 9) as H2
    by (by vm_compute).
  assert (vr_pin <$> pv_record (update_sync_record (mutate w_parse "v" (QStale "ub" "gone" "2")) (fun _ => "2"%string) Z.succ w_env w_pv).2 =
    Some (Some "epoch-v-1"%string)) as H3 by (by vm_compute).
  destruct (update_sync_record _ _ _ _ _) as [res pv']. cbn [fst snd] in *. subst res.
  split; [by eexists|]. split; [exact H2|]. split; [exact H3|]. destruct H as (n & Hn & Hc & _); [|exact Hc].
  apply Forall_cons. split; [intros p Hp; cbn [w_other at_others pv_version] in Hp; lia|].
  apply Forall_cons. split; [by intros p|by apply Forall_nil].
Defined.

(** ** The writer set *)
(** A leg leaves the writer set only when a request marks it stale, refuses
    its hot rejoin, replaces it, or assembles without it; a marked or refused
    leg does leave it; and an assembly sets it to exactly the legs
    included. *)
Theorem writers_leave parse v l q r w :
  (w ∈ writer_uuids r -> ~ may_drop q w -> w ∈ writer_uuids (sync_update parse v l q r)) /\
  (forall reason now, q = QStale w reason now -> w ∉ writer_uuids (sync_update parse v l q r)) /\
  (forall reason now, q = QRefused w reason now -> w ∈ info_uuids l -> w ∉ writer_uuids (sync_update parse v l q r)) /\
  (forall excluded included node now, q = QAssemble excluded included node now ->
    (w ∈ writer_uuids (sync_update parse v l q r) <-> w ∈ included)).
Proof.
  unfold sync_update. split_and!.
  - intros Hw Hn. by apply mutate_writers.
  - intros reason now ->. cbn [mutate]. rewrite mark_stale_writers. apply drop_writer_gone.
  - intros reason now -> Hw. cbn [mutate]. unfold refuse_hot_rejoin. rewrite <- (uuids_reconcile l r) in Hw.
    apply get_is_Some in Hw as [x ->]. apply drop_writer_gone.
  - intros excluded included node now ->. apply set_writers_elem.
Qed.

Lemma writers_leave_witness :
  let r := sync_update w_parse "v" w_infos (QAssemble [] ["ub"%string; "ua"%string] "n1" "2") w_rec in
  "ua"%string ∈ writer_uuids (sync_update w_parse "v" w_infos (QStale "ub" "gone" "3") r).
Proof.
  cbv zeta. refine (proj1 (writers_leave w_parse "v" w_infos _ _ "ua") _ _); [|done].
  by apply (bool_decide_unpack _); vm_compute.
Defined.

(** ** Maintenance *)
(** A maintenance drain takes a leg out only while every other leg is in
    sync and under no live mark of its own, and the leg is not mid hot
    rejoin; it changes no other leg, marks the leg stale with the new deadline,
    drops it from the writer set, and never takes the last in-sync leg. *)
Theorem drain_safe parse u deadline now r :
  let r' := (drain_for_maintenance parse u deadline now r).2 in
  r' = r \/
  (exists x y, rep_get r u = Some x /\ rr_hot x = None /\ rep_get r' u = Some y /\ rr_state y = Stale /\ rr_maint y = Some deadline) /\
  (forall z, z ∈ vr_replicas r -> rr_uuid z <> u -> rr_state z = InSync /\ maint_drain_live parse now z = false) /\
  (forall u', u' <> u -> rep_get r' u' = rep_get r u') /\ u ∉ writer_uuids r' /\
  ((exists u' z, rep_get r u' = Some z /\ rr_state z = InSync) -> exists u' z, u' <> u /\ rep_get r' u' = Some z /\ rr_state z = InSync).
Proof.
  intros r'. destruct (drain_cases parse u deadline now r) as [E|(x & Hx & Hh & Ho & Hlast & (y & Hy & Hys & Hym) & Hoth & Hw)]; [by left|right].
  split_and!; [by exists x, y|done..|]. intros (u1 & z & Hz & Hzs). destruct (decide (u1 = u)) as [->|Hne].
  - destruct Hlast as (z' & Hz' & Hne & Hs'); [congruence|].
    destruct (proj2 (get_is_Some r (rr_uuid z'))) as [z2 Hz2]; [by apply list_elem_of_fmap; eauto|].
    exists (rr_uuid z'), z2. rewrite Hoth by done. split_and!; [done..|]. apply Ho; [by eapply get_elem|]. apply get_uuid in Hz2. congruence.
  - exists u1, z. by rewrite Hoth.
Qed.

Lemma drain_safe_witness :
  let r := sync_update w_parse "v" w_infos (QAssemble [] ["ub"%string; "ua"%string] "n1" "2") w_rec in
  let r' := (drain_for_maintenance w_parse "ub" "900" "3" r).2 in
  "ub"%string ∉ writer_uuids r' /\ rep_get r' "ua" = rep_get r "ua".
Proof.
  cbv zeta. destruct (drain_safe w_parse "ub" "900" "3"
    (sync_update w_parse "v" w_infos (QAssemble [] ["ub"%string; "ua"%string] "n1" "2") w_rec)) as [H|(_ & _ & H & Hw & _)].
  - exfalso. revert H. by vm_compute.
  - split; [exact Hw|by apply H].
Defined.

(** ** Catch-up *)
(** The base a catch-up selects is safe and the best there is.  It is a
    recorded epoch the replica still holds, recorded at least [t_back] before
    the replica was marked stale, and at or below the base of every revert of
    the stale episode (after a full build there is no base at all); among the
    epochs that qualify it is the newest, or the oldest when the failure time is
    not known; and none is returned only when none qualifies. *)
Theorem base_selection parse v l u base head r x qs present t_back :
  u ∈ info_uuids l -> rep_get r u = Some x -> rr_state x <> InSync -> Forall (stays u) qs ->
  let r' := sync_run parse v ((l, QRevert u base head) :: qs) r in
  epochs_ok v r' ->
  exists y, rep_get r' u = Some y /\
  match select_base_epoch parse v r' y present t_back with
  | Some b => exists e n k, e ∈ vr_epochs r' /\ ee_name e = b /\ b ∈ present /\ epoch_seq v b = Some n /\ epoch_seq v base = Some k /\ n <= k /\
      (forall d, stale_deadline parse y t_back = Some d -> exists t, parse (ee_recorded_at e) = Some t /\ t <= d) /\
      forall e' n', e' ∈ vr_epochs r' -> base_candidate parse v y present t_back e' -> epoch_seq v (ee_name e') = Some n' ->
        if stale_deadline parse y t_back then n' <= n else n <= n'
  | None => forall e, e ∈ vr_epochs r' -> ~ base_candidate parse v y present t_back e
  end.
Proof.
  intros Hu Hx Hs Hq r' Hok. destruct (revert_floored parse v l u base head r x Hu Hx Hs) as (z & Hz & Hf & _).
  destruct (run_floored parse v u base qs _ z Hq Hz Hf) as (y & Hy & Hys & f & Hyf & Hle). exists y. split; [exact Hy|].
  pose proof (select_spec parse v r' y present t_back Hok) as Hsel. destruct (select_base_epoch parse v r' y present t_back) as [b|]; [|exact Hsel].
  destruct Hsel as (e & n & He & <- & Hn & Hc & Hbest). destruct (floored_candidate _ _ _ _ _ _ _ _ Hyf Hle Hc) as (n0 & k & Hn0 & Hk & Hnk).
  destruct Hc as (_ & Hp & Ho & _). exists e, n, k. split_and!; try done; [congruence|]. intros d Hd. unfold old_enough in Ho. rewrite Hd in Ho.
  destruct (parse (ee_recorded_at e)) as [t|]; [|done]. apply Z.leb_le in Ho. by exists t.
Qed.

Definition w_stale : VolumeSyncRecord := sync_run w_parse "v" [(w_infos, QCut "epoch-v-1" ["ua"; "ub"]%string "1000");
  (w_infos, QCut "epoch-v-2" ["ua"; "ub"]%string "2000"); (w_infos, QCut "epoch-v-3" ["ua"; "ub"]%string "3000");
  (w_infos, QStale "ub" "gone" "4000")] w_rec.
Lemma w_stale_ok : epochs_ok "v" (sync_run w_parse "v" [(w_infos, QRevert "ub" "epoch-v-2" "h"); (w_infos, QLoad)] w_stale).
Proof.
  apply run_epochs_ok; [|done]. apply run_epochs_ok; [apply seeded_epochs_ok|]. split; [right; exists 1; by vm_compute|].
  split; [right; exists 2; by vm_compute|]. split; [right; exists 3; by vm_compute|]. done.
Qed.
Lemma base_selection_witness : exists y b,
  rep_get (sync_run w_parse "v" [(w_infos, QRevert "ub" "epoch-v-2" "h"); (w_infos, QLoad)] w_stale) "ub" = Some y /\
  select_base_epoch w_parse "v" (sync_run w_parse "v" [(w_infos, QRevert "ub" "epoch-v-2" "h"); (w_infos, QLoad)] w_stale) y
    ["epoch-v-1"; "epoch-v-2"; "epoch-v-3"]%string 120 = Some b /\ b = "epoch-v-2"%string.
Proof.
  assert ("ub"%string ∈ info_uuids w_infos) as Hin by (by apply (bool_decide_unpack _); vm_compute).
  destruct (rep_get w_stale "ub") as [x|] eqn:Hx; [|by vm_compute in Hx].
  destruct (base_selection w_parse "v" w_infos "ub" "epoch-v-2" "h" w_stale x [(w_infos, QLoad)] ["epoch-v-1"; "epoch-v-2"; "epoch-v-3"]%string 120)
    as (y & Hy & _); [done|done| | |apply w_stale_ok|].
  - vm_compute in Hx. by injection Hx as <-.
  - apply Forall_cons. split; [by split|]. by apply Forall_nil.
  - exists y, "epoch-v-2"%string. split; [exact Hy|]. split; [|done]. vm_compute in Hy. injection Hy as <-. by vm_compute.
Defined.

(** ** Replacing a lost replica *)
Section replacement.
Context (presence : string -> result string NodePresence) (disks : string -> option (list Disk)) (cfg : ReplaceConfig) (now : Z).
Context (infos : list ReplicaInfo) (deleting off : bool) (size : result string Z) (nodes : list string) (consumer : option string).
Context (r : VolumeSyncRecord) (lost : ReplicaInfo) (x : ReplicaSyncRecord) (target : string).
Context (node_uid new_uuid at_ lvs : string).

(** The replacement's identity and record. *)
Definition new_info : ReplicaInfo := Info target node_uid new_uuid lvs.
Definition new_record : ReplicaSyncRecord := replacement_record target node_uid new_uuid (ri_node lost) (rr_state x) at_.

(** C34: a replacement decided and made on one record gives up no data.  The leg
    given up is on a node that is gone, is not mid hot rejoin, and is not an
    in-sync member of the last assembly's writer set; the new leg is on a Ready
    node that hosts no leg and does not serve the volume; the swap leaves an
    in-sync leg, leaves every other leg as it was, enters the new one stale and
    empty, and takes nothing else out of the writer set. *)
Theorem replacement_safe :
  NoDup (info_uuids infos) -> rep_uuids r = info_uuids infos -> new_uuid ∉ info_uuids infos ->
  plan_replacement presence disks cfg now infos deleting off size nodes consumer (Some r) = Ok (Swap lost x target) ->
  (exists p, presence (ri_node lost) = Ok p /\ node_gone p (rc_after cfg) now = true) /\ rr_hot x = None /\
  (rr_state x = InSync -> rr_uuid x ∉ writer_uuids r) /\
  target ∉ ri_node <$> infos /\ consumer <> Some target /\ (exists s, presence target = Ok (Present true s)) /\
  exists r2, swap_record infos (swapped_infos lost new_info infos) (ri_uuid lost) new_record (Some r) = Some r2 /\
    rep_get r2 (rr_uuid x) = None /\ (exists y, rep_get r2 new_uuid = Some y /\ rr_state y = Stale /\ rr_empty y = true) /\
    (forall u, u ∈ info_uuids infos -> u <> rr_uuid x -> rep_get r2 u = rep_get r u) /\
    (exists u y, rep_get r2 u = Some y /\ rr_state y = InSync) /\
    (forall w, w ∈ writer_uuids r -> w <> rr_uuid x -> w ∈ writer_uuids r2).
Proof.
  intros Hnd HU Hnew (Hx & Hlost & Eu & Hc & Hgone & Hsrc & _ & Ht & Hready & Hcons)%plan_swap.
  destruct (candidate_spec _ _ Hc) as [Hh Hw]. split_and!; [done..| |done|done|done|].
  { intros Hs. unfold writer_uuids. destruct (vr_writers r) as [w|]; [by apply (Hw Hs w)|apply not_elem_of_nil]. }
  destruct (swap_spec infos lost new_info new_record r Hnd) as (r2 & Hswap & Hn & Ho & Hoth & _ & Hwr); [|done|done|].
  { apply list_elem_of_fmap. eauto. }
  rewrite Eu in *. assert (forall u, u ∈ info_uuids infos -> u <> rr_uuid x -> rep_get r2 u = rep_get r u) as Hsame.
  { intros u Hu Hne. rewrite Hoth by done. rewrite <- HU in Hu. apply get_is_Some in Hu as [y Hy]. rewrite Hy. apply reconcile_present; [done|].
    rewrite <- HU. apply get_is_Some. eauto. }
  exists r2. split_and!; [done|done|by exists new_record|done| |intros w H1 H2; by apply Hwr].
  apply existsb_exists in Hsrc as (y & Hy & [Hyu Hys%bool_decide_eq_true]%andb_prop). apply list_elem_of_In in Hy.
  assert (rr_uuid y <> rr_uuid x) as Hne by (intros E%has_uuid_spec; by rewrite E in Hyu).
  exists (rr_uuid y), y. split; [|done]. rewrite Hsame; [|rewrite <- HU; apply list_elem_of_fmap; eauto|done]. apply get_of_elem; [by rewrite HU|done].
Qed.

(** The swap does not repeat the decision's checks.  When the only other
    in-sync leg is marked stale after the decision and before the swap, the
    swap of an in-sync leg still goes through, and the volume is left with no
    in-sync leg. *)
Theorem replacement_race s reason marked :
  NoDup (info_uuids infos) -> rep_uuids r = info_uuids infos -> new_uuid ∉ info_uuids infos ->
  plan_replacement presence disks cfg now infos deleting off size nodes consumer (Some r) = Ok (Swap lost x target) ->
  (forall u y, rep_get r u = Some y -> rr_state y = InSync -> u = rr_uuid x \/ u = s) ->
  forall parse v, exists r2,
    swap_record infos (swapped_infos lost new_info infos) (ri_uuid lost) new_record
      (Some (sync_update parse v infos (QStale s reason marked) r)) = Some r2 /\
    forall u y, rep_get r2 u = Some y -> rr_state y <> InSync.
Proof.
  intros Hnd HU Hnew (Hx & Hlost & Eu & _)%plan_swap Hall parse v.
  destruct (swap_spec infos lost new_info new_record (sync_update parse v infos (QStale s reason marked) r) Hnd)
    as (r2 & Hswap & Hn & Ho & Hoth & HU2 & _); [apply list_elem_of_fmap; eauto|done|done|].
  exists r2. split; [done|]. intros u y Hy Hs. assert (u ∈ rep_uuids r2) as Hu by (apply get_is_Some; eauto). rewrite HU2 in Hu.
  apply swapped_elem in Hu as [->|Hu]; [rewrite Hn in Hy; by simplify_eq|].
  destruct (decide (u = ri_uuid lost)) as [->|Hne]; [congruence|]. rewrite Hoth in Hy by done.
  assert (rep_get (sync_update parse v infos (QStale s reason marked) r) u = Some y) as Hy'.
  { destruct (reconcile_leg _ _ _ _ Hy) as [?|(_ & i & why & -> & _)]; done. }
  unfold sync_update in Hy'. cbn [mutate] in Hy'. rewrite get_stale in Hy'. destruct (String.eqb_spec s u) as [->|Hsu].
  - destruct (rep_get (reconcile_membership infos r).2 u) as [z|]; [|done]. injection Hy' as <-. by destruct (rr_state z) eqn:Ez; rewrite ?Ez in Hs.
  - destruct (reconcile_leg _ _ _ _ Hy') as [Hr|(_ & i & why & -> & _)]; [|done]. destruct (Hall u y Hr Hs); congruence.
Qed.
End replacement.

Definition w_presence (n : string) : result string NodePresence := Ok (if String.eqb n "n2" then Absent else Present true None).
Definition w_disks (n : string) : option (list Disk) := Some [MkDisk 100 (Some "lvs1"%string) "p"].
Lemma w_plan : exists x, rep_get w_rec "ub" = Some x /\ rr_uuid x = "ub"%string /\
  plan_replacement w_presence w_disks (ReplaceCfg true 600) 0 w_infos false false (Ok 10) ["n1"; "n2"; "n3"]%string (Some "n1"%string) (Some w_rec) =
  Ok (Swap (Info "n2" "k2" "ub" "lvs0") x "n3").
Proof. eexists. split; [by vm_compute|]. split; [done|]. by vm_compute. Qed.

Lemma replacement_safe_witness : exists r2 u y,
  swap_record w_infos (swapped_infos (Info "n2" "k2" "ub" "lvs0") (new_info "n3" "k3" "uc" "lvs1") w_infos) "ub"
    (replacement_record "n3" "k3" "uc" "n2" InSync "5") (Some w_rec) = Some r2 /\ rep_get r2 u = Some y /\ rr_state y = InSync.
Proof.
  destruct w_plan as (x & Hx & _ & Hp). assert (rr_state x = InSync) as Es by (by vm_compute in Hx; simplify_eq).
  destruct (replacement_safe w_presence w_disks (ReplaceCfg true 600) 0 w_infos false false (Ok 10) ["n1"; "n2"; "n3"]%string (Some "n1"%string)
    w_rec (Info "n2" "k2" "ub" "lvs0") x "n3" "k3" "uc" "5" "lvs1" w_distinct) as (_ & _ & _ & _ & _ & _ & r2 & Hs & _ & _ & _ & (u & y & Hy & Hys) & _); [by vm_compute| |exact Hp|].
  - apply (bool_decide_unpack (("uc"%string) ∉ info_uuids w_infos)). by vm_compute.
  - exists r2, u, y. split; [|done]. unfold new_record in Hs. rewrite Es in Hs. exact Hs.
Defined.

Lemma replacement_race_witness : exists r2,
  swap_record w_infos (swapped_infos (Info "n2" "k2" "ub" "lvs0") (new_info "n3" "k3" "uc" "lvs1") w_infos) "ub"
    (replacement_record "n3" "k3" "uc" "n2" InSync "5") (Some (sync_update w_parse "v" w_infos (QStale "ua" "gone" "4") w_rec)) = Some r2 /\
  forall u y, rep_get r2 u = Some y -> rr_state y <> InSync.
Proof.
  destruct w_plan as (x & Hx & Hxu & Hp). assert (rr_state x = InSync) as Es by (by vm_compute in Hx; simplify_eq).
  assert (replacement_record "n3" "k3" "uc" "n2" InSync "5" = new_record (Info "n2" "k2" "ub" "lvs0") x "n3" "k3" "uc" "5") as ->
    by (unfold new_record; by rewrite Es).
  refine (replacement_race w_presence w_disks (ReplaceCfg true 600) 0 w_infos false false (Ok 10) ["n1"; "n2"; "n3"]%string (Some "n1"%string)
    w_rec (Info "n2" "k2" "ub" "lvs0") x "n3" "k3" "uc" "5" "lvs1" "ua" "gone" "4" w_distinct _ _ Hp _ w_parse "v"); [by vm_compute| |].
  - apply (bool_decide_unpack (("uc"%string) ∉ info_uuids w_infos)). by vm_compute.
  - intros u y Hy _. assert (u ∈ rep_uuids w_rec) as Hu by (apply get_is_Some; eauto). vm_compute in Hu. rewrite Hxu.
    apply elem_of_cons in Hu as [->|Hu%list_elem_of_singleton]; [by right|by left].
Defined.

(** ** Epochs *)
(** An epoch number is used once.  From creation on, as long as each cut
    re-records the current epoch or takes a number above every recorded one,
    the recorded epochs are strictly increasing and end in the current one; the
    epoch the scheduler plans next carries a number above every epoch recorded
    at any earlier moment, also those retired since; and the garbage collector
    names no recorded epoch. *)
Theorem epoch_numbers parse v l stale now qs k e n found g :
  let r := sync_run parse v qs (initial_seeded l stale now) in
  cuts_allowed parse v qs (initial_seeded l stale now) ->
  epochs_ok v r /\
  (e ∈ vr_epochs (sync_run parse v (take k qs) (initial_seeded l stale now)) -> epoch_seq v (ee_name e) = Some n ->
    n < latest_epoch_seq v r + 1 /\
    forall infos attached t cfg p, plan_cut parse v r infos attached t cfg = Some p -> cp_epoch p = epoch_name v (latest_epoch_seq v r + 1)) /\
  (g ∈ gc_candidates v r found -> g ∈ found /\ g ∉ ee_name <$> vr_epochs r).
Proof.
  intros r Ha. pose proof (seeded_epochs_ok v l stale now) as H0. destruct (run_epochs_ok parse v qs _ H0 Ha) as [Hr _].
  split_and!; [done| |].
  - intros He Hn. pose proof (run_latest parse v qs _ k e n H0 Ha He Hn) as Hl. split; [unfold r; lia|].
    intros infos attached t cfg p. unfold plan_cut. destruct (negb attached); [done|]. destruct (cut_targets r infos); [done|].
    destruct (cut_due _ _ _ _); [|done]. by intros [= <-].
  - intros Hg. by destruct (gc_not_recorded v r found g Hr Hg) as (? & _ & ?).
Qed.

Definition w_cuts : list (list ReplicaInfo * sync_request) :=
  [(w_infos, QCut "epoch-v-1" ["ua"%string] "2"); (w_infos, QCut "epoch-v-2" ["ua"%string] "3"); (w_infos, QRetire ["epoch-v-1"%string])].
Lemma epoch_numbers_witness :
  epochs_ok "v" (sync_run w_parse "v" w_cuts w_rec) /\ latest_epoch_seq "v" (sync_run w_parse "v" w_cuts w_rec) = 2.
Proof.
  split; [|by vm_compute].
  refine (proj1 (epoch_numbers w_parse "v" w_infos [] "1" w_cuts 0 (Epoch "epoch-v-1" "2") 1 [] "epoch-v-1" _)).
  split; [right; exists 1; by vm_compute|]. split; [right; exists 2; by vm_compute|]. by split.
Defined.

(** Nothing a leg still needs is retired.  When the pin stands at or below
    every leg's need, a retirement removes only epochs below every need, of the
    names given, and never the current one; and the scheduler's and the
    catch-up's requests keep the pin there. *)
Theorem retention_safe parse v names q r x s : covered v r ->
  (forall n, n ∈ (retire_epochs v names r).1 -> n ∈ names /\ vr_epoch r <> Some n /\
    (x ∈ vr_replicas r -> rep_need v x = Some (Some s) -> exists i, epoch_seq v n = Some i /\ i < s)) /\
  vr_epochs (retire_epochs v names r).2 = filter (fun e => ee_name e ∉ (retire_epochs v names r).1) (vr_epochs r) /\
  (retention_request v q r -> covered v (mutate parse v q r)).
Proof.
  intros Hc. destruct (retire_epochs_spec v names r) as (_ & He & Hg). split_and!; [|done|by apply mutate_covered].
  intros n Hn. rewrite Forall_forall in Hg. destruct (Hg n Hn) as (H1 & H2 & i & Hi & Hp). split_and!; [done..|].
  intros Hx Hs. destruct (Hc x s Hx Hs) as (p & k & Hpin & Hk & Hle). destruct (Hp p Hpin) as (k' & Hk' & Hlt). exists i.
  split; [done|]. simplify_eq. lia.
Qed.

Definition w_pinned : VolumeSyncRecord :=
  sync_run w_parse "v" [(w_infos, QCut "epoch-v-1" ["ua"%string] "2"); (w_infos, QCut "epoch-v-2" ["ua"%string] "3");
    (w_infos, QStale "ub" "gone" "4"); (w_infos, QPin "epoch-v-2"); (w_infos, QRevert "ub" "epoch-v-2" "h")] w_rec.
Lemma w_covered : covered "v" w_pinned.
Proof.
  intros y s Hy Hs. exists "epoch-v-2"%string, 2. split; [by vm_compute|]. split; [by vm_compute|].
  assert (exists a b, vr_replicas w_pinned = [a; b] /\ rep_need "v" a = Some None /\ rep_need "v" b = Some (Some 2)) as (a & b & E & Ha & Hb).
  { eexists _, _. split; [vm_compute; reflexivity|]. split; by vm_compute. }
  rewrite E in Hy. apply elem_of_cons in Hy as [->|Hy%list_elem_of_singleton]; [congruence|]. subst y. rewrite Hb in Hs. by injection Hs as <-.
Qed.
Lemma w_epochs_ok : epochs_ok "v" w_pinned.
Proof.
  apply run_epochs_ok; [apply seeded_epochs_ok|]. split; [right; exists 1; by vm_compute|]. split; [right; exists 2; by vm_compute|]. done.
Qed.

Lemma retention_safe_witness :
  (retire_epochs "v" ["epoch-v-1"%string; "epoch-v-2"%string] w_pinned).1 = ["epoch-v-1"%string] /\
  covered "v" (mutate w_parse "v" (QRetire ["epoch-v-1"%string]) w_pinned).
Proof.
  split; [by vm_compute|].
  refine (proj2 (proj2 (retention_safe w_parse "v" [] (QRetire ["epoch-v-1"%string]) w_pinned
    (fresh_rep InSync None (Info "n1" "k1" "ua" "lvs0")) 0 w_covered)) _). done.
Defined.

(** C36: a pass of the epoch scheduler is safe, whatever the nodes answer.  From a
    record whose epochs are in order and whose pin covers its legs' needs it
    leaves such a record, never lowers the highest number, keeps every recorded
    epoch a leg still needs, reaps only snapshots older than it, and rolls back
    only the epoch it was cutting. *)
Theorem epoch_cycle_safe parse v snap found cfg l infos attached now stamp r :
  epochs_ok v r -> covered v r -> latest_epoch_seq v r < u64_max ->
  let '(undone, reaped, r') := run_epoch_cycle parse v snap found cfg l infos attached now stamp r in
  epochs_ok v r' /\ covered v r' /\ latest_epoch_seq v r <= latest_epoch_seq v r' /\
  (forall x s e, x ∈ vr_replicas r' -> rep_need v x = Some (Some s) -> e ∈ vr_epochs r -> epoch_seq v (ee_name e) = Some s ->
    e ∈ vr_epochs r' /\
    forall d, d ∈ reaped -> exists i n k, i ∈ infos /\ d = (ri_node i, ri_lvs i ++ "/" ++ n)%string /\ epoch_seq v n = Some k /\ k < s) /\
  (forall d, d ∈ undone -> exists t, d = (et_node t, et_lvs t ++ "/" ++ epoch_name v (latest_epoch_seq v r + 1))%string).
Proof.
  intros Hr Hc Hlt. unfold run_epoch_cycle. set (r0 := sync_update parse v l QLoad r).
  destruct (after_cut_ok parse v snap cfg l infos attached now stamp r0 Hr (covered_reconcile v l r Hc) Hlt) as (H1 & H2 & H3 & H4).
  pose proof (after_cut_undone parse v snap cfg l infos attached now stamp r0) as Hu.
  fold (after_cut parse v snap cfg l infos attached now stamp r0) in *.
  destruct (after_cut parse v snap cfg l infos attached now stamp r0) as [undone r1]. cbn [fst snd] in *.
  destruct (after_retire_ok parse v l (plan_retention r1 cfg) r1 H1 H2) as (E1 & E2 & E3 & E4).
  split_and!; [done|done|etrans; [exact H3|exact E3]| |done].
  intros x s e Hx Hs He Hn. assert (e ∈ vr_epochs r1) as He1 by (by apply H4). split; [by eapply E4|].
  intros d Hd. eapply execute_gc_spec; [done|done|by eapply E4|done].
Qed.

Definition w_cycle := run_epoch_cycle w_parse "v" (fun _ => Ok tt) (fun _ _ => Some ["epoch-v-1"%string]) (EpochCfg true 1800 1)
  w_infos w_infos true (9000 * SECOND) "9000" w_pinned.
Lemma epoch_cycle_safe_witness :
  epochs_ok "v" w_cycle.2 /\ ee_name <$> vr_epochs w_cycle.2 = ["epoch-v-2"; "epoch-v-3"]%string /\
  w_cycle.1.2 = [("n1", "lvs0/epoch-v-1"); ("n2", "lvs0/epoch-v-1")]%string.
Proof.
  split; [|split; by vm_compute].
  pose proof (epoch_cycle_safe w_parse "v" (fun _ => Ok tt) (fun _ _ => Some ["epoch-v-1"%string]) (EpochCfg true 1800 1)
    w_infos w_infos true (9000 * SECOND) "9000" w_pinned w_epochs_ok w_covered ltac:(by vm_compute)) as H.
  unfold w_cycle. destruct (run_epoch_cycle _ _ _ _ _ _ _ _ _ _ _) as [[undone reaped] r']. apply H.
Defined.

(** A cut is all or nothing.  It is recorded exactly when every target's
    snapshot was made, or was found already made, and then names every target
    in order; otherwise each failure is reported with its node and the
    roll-back deletes the epoch on exactly the other targets.  The strict cut
    is recorded only when every target's snapshot was made by it, and rolls
    back what it made before the first failure. *)
Theorem cut_all_or_nothing snap plan :
  let made t := exists a, snap t = Ok a in
  let adopted t := made t \/ exists m, snap t = Err m /\ is_already_exists m = true in
  (forall us, (execute_cut snap plan).1 = Recorded us <-> us = et_uuid <$> cp_targets plan /\ Forall adopted (cp_targets plan)) /\
  (forall fs, (execute_cut snap plan).1 = Aborted fs ->
    fs <> [] /\
    (execute_cut snap plan).2 = rollback_cut (filter (fun t => cut_fails snap t = false) (cp_targets plan)) (cp_epoch plan) /\
    fs.*1 = et_node <$> filter (fun t => cut_fails snap t = true) (cp_targets plan)) /\
  (forall us, (execute_cut_strict snap plan).1 = Recorded us <-> us = et_uuid <$> cp_targets plan /\ Forall made (cp_targets plan)) /\
  (forall fs, (execute_cut_strict snap plan).1 = Aborted fs -> exists done t rest m,
    cp_targets plan = done ++ t :: rest /\ Forall made done /\ snap t = Err m /\ fs.*1 = [et_node t] /\
    (execute_cut_strict snap plan).2 = rollback_cut done (cp_epoch plan)).
Proof.
  intros made adopted. split_and!.
  - intros us. rewrite execute_cut_eq. destruct (omap _ _) as [|f fs] eqn:Ef; cbn [fst].
    + assert (Forall adopted (cp_targets plan)) as Hall by (by apply no_failures).
      split; [intros [= <-]; split; [|done]|intros [-> _]]; by rewrite filter_adopted by (by apply no_failures).
    + split; [done|]. intros [_ Hall]. exfalso. eapply (no_failures snap) in Hall. by rewrite Ef in Hall.
  - intros fs. rewrite execute_cut_eq. destruct (omap _ _) as [|f fs'] eqn:Ef; cbn [fst snd]; [done|]. intros [= <-].
    split_and!; [done..|]. rewrite <- Ef. apply failure_nodes.
  - intros us. apply (strict_recorded snap (cp_epoch plan) [] (cp_targets plan)).
  - intros fs Hf. destruct (strict_aborted snap (cp_epoch plan) [] (cp_targets plan) fs Hf) as (d & t & rest & m & H1 & H2 & H3 & H4 & H5).
    exists d, t, rest, m. by split_and!.
Qed.

(** ** The freshness gate *)
(** C35: the gate's outage is bounded once its deadline is on the PV.  From a
    first attempt at [t0] with no running deadline, whose own marker lands,
    over attempts that all miss some writer and whose missing set is never a
    strict subset of the one the marker records, and whatever reads and
    patches of the annotations fail on the way, an attempt at or after
    [t0 + defer_secs] that can read the annotations and whose predecessors
    were all held up is served; what it changes of the annotations, where the
    patch lands, is to clear the deadline and the blocked marker and to name
    exactly the missing writers in the risk marker. *)
Theorem gate_bounded parse show cfg annos first ts z t0 t :
  clock_text parse show -> gc_enabled cfg = true -> 0 <= t0 -> 0 <= defer_secs cfg -> t0 + defer_secs cfg * SECOND < RFC3339_END ->
  an_defer annos ≫= parse_defer_marker = None -> Forall tick_ok (first :: ts ++ [z]) -> no_shrink (tick_uuids first) (ts ++ [z]) ->
  api_read (gt_api first) = true -> api_defer (gt_api first) = true -> api_read (gt_api z) = true ->
  parse (gt_now first) = Some t0 -> parse (gt_now z) = Some t -> t0 + defer_secs cfg * SECOND <= t ->
  Forall held (gate_run parse show cfg annos (first :: ts)).1 ->
  let res := gate_step parse show cfg (gate_run parse show cfg annos (first :: ts)).2 z in
  res.1 = Some ServeWithRisk /\
  (api_clear_defer (gt_api z) = true -> an_defer res.2 = None) /\
  (api_clear_blocked (gt_api z) = true -> an_blocked res.2 = None) /\
  (api_risk (gt_api z) = true -> an_risk res.2 = Some (gt_now z ++ "|" ++ join_comma (sort_strings (tick_uuids z)))%string).
Proof.
  intros Hclock He H0 Hd Hend Hn Hts Hs Hread Hland Hzread Ht0 Ht Hle Hall. cbv zeta.
  apply Forall_cons in Hts as [Hf Hts]. apply Forall_app in Hts as [Hts Hz].
  apply Forall_cons_1 in Hz as [Hz _]. apply no_shrink_app in Hs as [Hs [Hsz _]].
  destruct (running_armed parse show cfg annos first t0) as (marker & E & Hr); [done..|].
  cbn [gate_run] in *. pose proof (gate_step_running parse show cfg annos first He (proj1 Hf)) as Hstep.
  rewrite Hread in Hstep. cbv zeta in Hstep. rewrite Hland, E in Hstep. rewrite Hstep in *. clear Hstep.
  destruct (existsb _ _) eqn:Hex; cbn [negb andb] in *.
  2: { exfalso. destruct (gate_run _ _ _ _ ts). apply Forall_cons_1 in Hall as [[Hall|Hall] _]; discriminate Hall. }
  match goal with |- context [gate_run parse show cfg ?a ts] => pose proof (run_running parse show cfg _ ts He Hts _ a (Hr _ _) Hs) as Hrun;
    destruct (gate_run parse show cfg a ts) as [ds a2] end.
  cbn [fst snd] in *. apply Forall_cons_1 in Hall as [_ Hall].
  eapply late_serves; [done|by apply Hrun|done|done|by apply Hsz|done|done].
Qed.

Definition w_tick_api (api : ApiAnswers) (now : string) : GateTick := GTick api [Missing "ub" "n2" NodeReady] [] [] now.
Definition w_tick (now : string) : GateTick := w_tick_api api_well now.
(** An attempt that cannot read the annotations, and one whose patches are
    all lost. *)
Definition w_ticks : list GateTick :=
  [w_tick_api (MkApi false true true true true true) "60"; w_tick_api (MkApi true false false false false false) "100"].
Definition w_annos : Annos := MkAnnos None None None.
Lemma gate_bounded_witness :
  (gate_step w_parse w_show GateConfig_default
    (gate_run w_parse w_show GateConfig_default w_annos (w_tick "10" :: w_ticks)).2 (w_tick "190")).1 = Some ServeWithRisk.
Proof.
  refine (proj1 (gate_bounded w_parse w_show GateConfig_default w_annos (w_tick "10") w_ticks (w_tick "190") (10 * SECOND) (190 * SECOND)
    w_clock _ _ _ _ _ _ _ _ _ _ _ _ _ _)); try done; try by vm_compute.
  - repeat (apply Forall_cons; split; [split; [done|by apply Forall_singleton; vm_compute]|]). by apply Forall_nil.
  - apply Forall_cons; split; [left; by vm_compute|]. apply Forall_cons; split; [right; by vm_compute|].
    apply Forall_cons; split; [left; by vm_compute|]. by apply Forall_nil.
Defined.

(** The bound rests on the marker's patch, which is best effort: while it does
    not land, every attempt that misses a transient writer arms a new
    deadline, however many there are and however far apart. *)
Theorem unkept_deadline_holds parse show cfg annos ts :
  gc_enabled cfg = true -> an_defer annos ≫= parse_defer_marker = None ->
  Forall (fun t => gt_missing t <> [] /\ api_defer (gt_api t) = false /\
    existsb (fun m => is_transient cfg (mw_avail m)) (gt_missing t) = true) ts ->
  Forall held (gate_run parse show cfg annos ts).1.
Proof. intros He Hn Hts. by apply unkept_holds. Qed.

(** The bound holds only while the missing set does not shrink.  When two
    writers are missing and one of them comes and goes between attempts less
    than [defer_secs] apart, each attempt that finds it back re-arms the
    deadline, and every attempt of however long a run is deferred. *)
Theorem defer_treadmill parse show cfg a b step n sec :
  clock_text parse show -> gc_enabled cfg = true -> uuid_ok a.1 -> uuid_ok b.1 -> 0 <= step < defer_secs cfg -> 0 <= sec ->
  (sec + 2 * Z.of_nat n * step + defer_secs cfg) * SECOND < RFC3339_END ->
  Forall (fun d => d = Some Defer) (gate_run parse show cfg (MkAnnos None None None) (flap show a b step n sec)).1.
Proof. intros. apply flap_defers; [done..|]. by left. Qed.

Lemma defer_treadmill_witness :
  Forall (fun d => d = Some Defer) (gate_run w_parse w_show GateConfig_default w_annos (flap w_show ("ua", "n1") ("ub", "n2") 60 500 1000)).1.
Proof.
  apply (defer_treadmill w_parse w_show GateConfig_default ("ua", "n1") ("ub", "n2") 60 500 1000);
    [apply w_clock|done|by vm_compute|by vm_compute|by vm_compute|done|by vm_compute].
Defined.
