(* ===== verification/PnfsPlacement.v ===== *)
(** Where a striped file's bytes live (pnfs/mds/layout.rs, [FilePlacement] and
    the file identities) and the binding that survives the loss of the state
    backend (pnfs/mds/stub_binding.rs): the stripe map, the splitting of a
    byte range at stripe boundaries, the per-file identity with its shard
    prefix, the gate key, and the text of the stub's extended attribute.

    Strings are byte strings; u64 arithmetic wraps as in a release build.  A
    loop takes fuel and tells a panic from running out of it. *)

From Stdlib Require Import Ascii String.
From S2P Require Import Prelude Csv.

(** ** Text: lower-case hexadecimal *)
Definition hex_char (n : Z) : ascii := ascii_of_N (Z.to_N (if n <? 10 then 48 + n else 87 + n)).
Definition char_hex (c : ascii) : option Z :=
  let n := Z.of_N (N_of_ascii c) in
  if (48 <=? n) && (n <=? 57) then Some (n - 48)
  else if (97 <=? n) && (n <=? 102) then Some (n - 87)
  else if (65 <=? n) && (n <=? 70) then Some (n - 55)
  else None.

(** [{:016x}]: sixteen digits, which hold every u64. *)
Fixpoint show_hex (width : nat) (n : Z) (acc : string) : string :=
  match width with
  | O => acc
  | S w => show_hex w (n / 16) (String (hex_char (n mod 16)) acc)
  end.
Definition hex16 (n : Z) : string := show_hex 16 n EmptyString.

Fixpoint hex_val (acc : Z) (s : string) : option Z :=
  match s with
  | EmptyString => Some acc
  | String c s => match char_hex c with Some n => hex_val (16 * acc + n) s | None => None end
  end.

(** [u64::from_str_radix(s, 16)] *)
Definition parse_hex_digits (s : string) : option Z :=
  match s with EmptyString => None | _ => n ← hex_val 0 s; in_u64 n end.
Definition parse_hex_u64 (s : string) : option Z :=
  match s with
  | String c s' => if Ascii.eqb c "+" then parse_hex_digits s' else parse_hex_digits s
  | EmptyString => None
  end.

(** ** Placements *)
Record FilePlacement := Placement { stripe_size : Z; device_ids : list string; file_id : Z }.

#[global] Instance FilePlacement_eq : EqDecision FilePlacement.
Proof. solve_decision. Defined.

Record PlacementRecord := PlacementRec {
  pr_file_key : string; pr_stripe_size : Z; pr_device_ids : list string; pr_file_id : Z;
  pr_truncate_pending : option Z; pr_truncate_since_unix : option Z }.

Definition FilePlacement_to_record (p : FilePlacement) (key : string) : PlacementRecord :=
  PlacementRec key (stripe_size p) (device_ids p) (file_id p) None None.
Definition FilePlacement_from_record (r : PlacementRecord) : FilePlacement :=
  Placement (pr_stripe_size r) (pr_device_ids r) (pr_file_id r).

Definition stripe_rel_path (p : FilePlacement) (slot : nat) : string :=
  String.append (hex16 (file_id p)) (String.append ".stripe" (show_u64 (Z.of_nat slot))).

Definition width_of (p : FilePlacement) : Z := Z.max (Z.of_nat (length (device_ids p))) 1.

Definition wire_first_stripe_index (file_id width : Z) : Z := wrap_u32 (file_id mod Z.max width 1).

Definition slot_for_offset (p : FilePlacement) (offset : Z) : Z :=
  wrap_u64 (offset / stripe_size p + wire_first_stripe_index (file_id p) (width_of p)) mod width_of p.

(** ** The splitting loop *)
Inductive run (A : Type) := Done (a : A) | Panicked | OutOfFuel.
Arguments Done {A} a.
Arguments Panicked {A}.
Arguments OutOfFuel {A}.

Definition run_map {A B} (f : A -> B) (r : run A) : run B :=
  match r with Done a => Done (f a) | Panicked => Panicked | OutOfFuel => OutOfFuel end.

Definition saturating_add_u64 (a b : Z) : Z := Z.min (a + b) u64_max.

Definition unit_end (size cur : Z) : Z := wrap_u64 (wrap_u64 (cur / size + 1) * size).

Fixpoint split_loop (fuel : nat) (size cur end_ : Z) : run (list (Z * Z)) :=
  match fuel with
  | O => OutOfFuel
  | S fuel =>
      if cur <? end_ then
        if size =? 0 then Panicked
        else
          let chunk_end := Z.min (unit_end size cur) end_ in
          run_map (cons (cur, wrap_u64 (chunk_end - cur))) (split_loop fuel size chunk_end end_)
      else Done []
  end.

Definition split_at_stripe_bounds (fuel : nat) (p : FilePlacement) (offset len : Z) : run (list (Z * Z)) :=
  split_loop fuel (stripe_size p) offset (saturating_add_u64 offset len).

(** ** Identities *)
Definition truncate_gate_key (p : FilePlacement) (file_key : string) : string :=
  if negb (file_id p =? 0) then String.append "id:" (hex16 (file_id p))
  else String.append "path:" file_key.

Definition shard_ordinal (env : option string) : Z :=
  match env with
  | Some v => match parse_u64 (trim v) with Some n => Z.land n 255 | None => 0 end
  | None => 0
  end.

Definition compose_file_id (shard hi lo : Z) : Z :=
  let id := Z.lor (wrap_u64 (Z.shiftl (Z.land shard 255) 56)) (Z.land (Z.lxor hi lo) 72057594037927935) in
  if id =? 0 then 1 else id.

(** The two halves of a v4 UUID are the randomness. *)
Definition allocate_file_id (env : option string) (uuid : Z * Z) : Z :=
  compose_file_id (shard_ordinal env) uuid.1 uuid.2.

(** ** The stub binding's text *)
Definition serialize (p : FilePlacement) : string :=
  String.append "v1:" (String.append (hex16 (file_id p))
    (String ":" (String.append (show_u64 (stripe_size p)) (String ":" (join_comma (device_ids p)))))).

Definition parse (raw : string) : option FilePlacement :=
  '(version, r1) ← split_once ":" raw;
  if negb (String.eqb version "v1") then None else
  '(id, r2) ← split_once ":" r1;
  fid ← parse_hex_u64 id;
  '(sz, devs) ← split_once ":" r2;
  size ← parse_u64 sz;
  if (fid =? 0) || (size =? 0) || is_empty devs then None
  else Some (Placement size (split_comma devs) fid).

(** ** The binding as an interface: what the layout manager asks of a stub
    store, and what it may rely on. *)
Record StubMeta := Meta { sm_len : Z; sm_blocks : Z }.

Class StubBinding (T : Type) := {
  stub_meta : T -> string -> option StubMeta;
  stub_read : T -> string -> option FilePlacement;
  (** The flag is the operating system's answer to the attribute write. *)
  stub_write : bool -> T -> string -> FilePlacement -> option T }.

(** [XattrStubBinding]: the regular files under the export root, each with
    its size, its blocks and the binding attribute. *)
Record Stub := StubFile { st_len : Z; st_blocks : Z; st_xattr : option string }.

Fixpoint trim_start_slash (s : string) : string :=
  match s with
  | String c s' => if Ascii.eqb c "/" then trim_start_slash s' else s
  | EmptyString => EmptyString
  end.
Definition stub_path (file_key : string) : string := trim_start_slash file_key.

(** [get_xattr] reads into 512 bytes; a longer attribute is ERANGE. *)
Definition XATTR_BUF : nat := 512.
Definition get_xattr (s : Stub) : option string :=
  raw ← st_xattr s; if (String.length raw <=? XATTR_BUF)%nat then Some raw else None.

Definition xattr_meta (t : gmap string Stub) (k : string) : option StubMeta :=
  s ← t !! stub_path k; Some (Meta (st_len s) (st_blocks s)).
Definition xattr_read (t : gmap string Stub) (k : string) : option FilePlacement :=
  s ← t !! stub_path k; raw ← get_xattr s; parse raw.
Definition xattr_write (ok : bool) (t : gmap string Stub) (k : string) (p : FilePlacement) :
    option (gmap string Stub) :=
  s ← t !! stub_path k;
  if ok then Some (<[stub_path k := StubFile (st_len s) (st_blocks s) (Some (serialize p))]> t) else None.

#[global] Instance XattrStubBinding : StubBinding (gmap string Stub) :=
  { stub_meta := xattr_meta; stub_read := xattr_read; stub_write := xattr_write }.

(** [NoStubs]: no stub is visible and a write is a no-op. *)
#[global] Instance NoStubs : StubBinding unit :=
  { stub_meta := fun _ _ => None; stub_read := fun _ _ => None; stub_write := fun _ t _ _ => Some t }.

(** ** Layout classes and volume geometry *)
Inductive LayoutType := NfsV4_1Files | Osd2Objects | BlockVolume | FlexFiles | ScsiType.
Definition LayoutType_code (t : LayoutType) : Z :=
  match t with NfsV4_1Files => 1 | Osd2Objects => 2 | BlockVolume => 3 | FlexFiles => 4 | ScsiType => 5 end.
Inductive LayoutClass := File | Scsi.

#[global] Instance LayoutClass_eq : EqDecision LayoutClass.
Proof. solve_decision. Defined.
#[global] Instance LayoutType_eq : EqDecision LayoutType.
Proof. solve_decision. Defined.

Definition wire_type (c : LayoutClass) : LayoutType :=
  match c with File => NfsV4_1Files | Scsi => ScsiType end.
Definition LayoutClass_as_str (c : LayoutClass) : string :=
  match c with File => "file" | Scsi => "scsi" end.
Definition LayoutClass_parse (s : string) : option LayoutClass :=
  if String.eqb s "file" || is_empty s then Some File
  else if String.eqb s "scsi" then Some Scsi
  else None.

Record VolumeGeometry := Geometry { g_stripe_size : Z; g_stripe_width : Z; g_layout_class : LayoutClass }.
Record VolumeGeometryRecord := GeometryRec {
  gr_volume : string; gr_stripe_size : Z; gr_stripe_width : Z; gr_layout_class : string }.
