(* ===== verification/PnfsPlacementProps.v ===== *)
(** Facts about placements: the hexadecimal and binding codecs, the stripe
    map, the splitting loop (it tiles the range, and the one place where it
    never stops), the identities' shard prefix, and the laws the stub store
    gives the layout manager. *)

From Stdlib Require Import Ascii String.
From S2P Require Import Prelude Csv PnfsPlacement.

(** ** Hexadecimal *)
Definition no_char (d : ascii) : ascii -> bool := fun c => negb (Ascii.eqb c d).

(** A property of every number below [b], checked one by one. *)
Lemma below_all (P : Z -> Prop) (b : nat) n : Forall P (Z.of_nat <$> seq 0 b) -> 0 <= n < Z.of_nat b -> P n.
Proof.
  intros HP Hn. rewrite Forall_forall in HP. apply HP. apply list_elem_of_fmap. exists (Z.to_nat n).
  split; [lia |]. apply elem_of_seq. lia.
Qed.
Ltac each_digit n b :=
  pattern n; apply (below_all _ b); [repeat (apply Forall_cons; split; [by vm_compute |]); by apply Forall_nil | lia].

Lemma hex_char_facts n : 0 <= n < 16 ->
  char_hex (hex_char n) = Some n /\ no_char ":" (hex_char n) = true /\ Ascii.eqb (hex_char n) "+" = false.
Proof.
  intros Hn. each_digit n 16%nat.
Qed.

Lemma show_hex_val w : forall n acc a, 0 <= n < 16 ^ Z.of_nat w ->
  hex_val a (show_hex w n acc) = hex_val (16 ^ Z.of_nat w * a + n) acc.
Proof.
  induction w as [| w IH]; intros n acc a Hn; simpl.
  { f_equal. simpl in Hn. lia. }
  rewrite Nat2Z.inj_succ, Z.pow_succ_r in * by lia.
  rewrite IH by (split; [apply Z.div_pos; lia | apply Z.div_lt_upper_bound; lia]).
  simpl. destruct (hex_char_facts (n mod 16)) as [-> _]; [apply Z.mod_pos_bound; lia |].
  f_equal. pose proof (Z.div_mod n 16 ltac:(lia)). nia.
Qed.

Lemma show_hex_chars w : forall n acc, all_chars (no_char ":") acc = true ->
  all_chars (no_char ":") (show_hex w n acc) = true.
Proof.
  induction w as [| w IH]; intros n acc Hacc; [done |]. cbn [show_hex]. apply IH.
  cbn [all_chars]. rewrite Hacc, andb_true_r. apply hex_char_facts. apply Z.mod_pos_bound. lia.
Qed.

Lemma show_hex_head w : forall n acc, (0 < w)%nat ->
  exists c s, show_hex w n acc = String c s /\ Ascii.eqb c "+" = false.
Proof.
  induction w as [| w IH]; intros n acc Hw; [lia |]. cbn [show_hex].
  destruct w as [| w]; [| by apply IH; lia].
  cbn [show_hex]. eexists _, _. split; [done |]. apply hex_char_facts. apply Z.mod_pos_bound. lia.
Qed.

Lemma hex16_round_trip n : is_u64 n -> parse_hex_u64 (hex16 n) = Some n.
Proof.
  intros Hn. destruct (show_hex_head 16 n EmptyString ltac:(lia)) as (c & s & He & Hc).
  unfold hex16, parse_hex_u64. rewrite He, Hc. unfold parse_hex_digits. rewrite <- He.
  rewrite show_hex_val by bounds. rewrite Z.mul_0_r, Z.add_0_l. cbn [hex_val mbind option_bind].
  unfold in_u64. destruct Hn. by rewrite (proj2 (Z.leb_le _ _)).
Qed.

Lemma hex16_inj a b : is_u64 a -> is_u64 b -> hex16 a = hex16 b -> a = b.
Proof.
  intros Ha Hb He. pose proof (hex16_round_trip a Ha) as H. rewrite He, hex16_round_trip in H by done. congruence.
Qed.

Lemma hex16_no_colon n : all_chars (no_char ":") (hex16 n) = true.
Proof. by apply show_hex_chars. Qed.

(** ** Splitting text *)
Lemma append_nil s : String.append EmptyString s = s.
Proof. done. Qed.
Lemma append_cons c s t : String.append (String c s) t = String c (String.append s t).
Proof. done. Qed.
Lemma split_once_app d a b : all_chars (no_char d) a = true ->
  split_once d (String.append a (String d b)) = Some (a, b).
Proof.
  induction a as [| c a IH]; rewrite ?append_nil, ?append_cons; cbn [split_once all_chars];
    [by rewrite Ascii.eqb_refl |].
  unfold no_char at 1. intros [Hc Ha]%andb_true_iff. apply negb_true_iff in Hc.
  by rewrite Hc, (IH Ha).
Qed.

Lemma split_comma_plain s : all_chars (no_char ",") s = true -> split_comma s = [s].
Proof.
  induction s as [| c s IH]; [done |]. rewrite ?append_cons. cbn [split_comma all_chars]. unfold no_char at 1.
  intros [Hc Hs]%andb_true_iff. apply negb_true_iff in Hc. by rewrite Hc, (IH Hs).
Qed.

Lemma split_comma_cons s t : all_chars (no_char ",") s = true ->
  split_comma (String.append s (String "," t)) = s :: split_comma t.
Proof.
  induction s as [| c s IH]; [done |]. rewrite ?append_cons. cbn [split_comma all_chars]. unfold no_char at 1.
  intros [Hc Hs]%andb_true_iff. apply negb_true_iff in Hc. by rewrite Hc, (IH Hs).
Qed.

Lemma split_comma_join l : l <> [] -> Forall (fun s => all_chars (no_char ",") s = true) l ->
  split_comma (join_comma l) = l.
Proof.
  induction l as [| s l IH]; [done |]. intros _ [Hs Hl]%Forall_cons_1.
  destruct l as [| s' l]; [by apply split_comma_plain |].
  change (join_comma (s :: s' :: l)) with (String.append s (String "," (join_comma (s' :: l)))).
  rewrite split_comma_cons by done. by rewrite IH.
Qed.

Lemma show_u64_no_colon n : 0 <= n -> all_chars (no_char ":") (show_u64 n) = true.
Proof.
  intros Hn. apply show_digits_chars; [| done | done]. intros k Hk. each_digit k 10%nat.
Qed.

(** ** The binding codec *)
Record bindable (p : FilePlacement) : Prop := {
  bd_id : 0 < file_id p <= u64_max;
  bd_size : 0 < stripe_size p <= u64_max;
  bd_devices : device_ids p <> [];
  bd_named : device_ids p <> [EmptyString];
  bd_commas : Forall (fun d => all_chars (no_char ",") d = true) (device_ids p) }.

Lemma join_comma_empty l : l <> [] -> l <> [EmptyString] -> is_empty (join_comma l) = false.
Proof. destruct l as [| [|] [|]]; naive_solver. Qed.

Lemma serialize_parse p : bindable p -> parse (serialize p) = Some p.
Proof.
  intros [Hid Hsz Hne Hnm Hc]. unfold serialize, parse.
  change (String.append "v1:" ?x) with (String.append "v1" (String ":" x)).
  rewrite split_once_app by done. cbn [mbind option_bind]. cbn [String.eqb Ascii.eqb Bool.eqb negb].
  rewrite split_once_app by apply hex16_no_colon. cbn [mbind option_bind].
  rewrite hex16_round_trip by bounds. cbn [mbind option_bind].
  rewrite split_once_app by (apply show_u64_no_colon; lia). cbn [mbind option_bind].
  rewrite parse_show_u64 by bounds. cbn [mbind option_bind].
  rewrite !(proj2 (Z.eqb_neq _ _)) by lia. rewrite join_comma_empty by done. cbn [orb].
  rewrite split_comma_join by done. by destruct p.
Qed.

(** What a binding that parses holds. *)
Record bound (p : FilePlacement) : Prop := {
  bn_id : 0 < file_id p <= u64_max; bn_size : 0 < stripe_size p <= u64_max; bn_devices : device_ids p <> [] }.

Lemma in_u64_Some n m : in_u64 n = Some m -> n = m /\ n <= u64_max.
Proof. unfold in_u64. destruct (n <=? u64_max) eqn:E; intros; simplify_eq. split; [done | lia]. Qed.

Lemma char_hex_nonneg c k : char_hex c = Some k -> 0 <= k.
Proof.
  unfold char_hex. generalize (Z.of_N (N_of_ascii c)) as n. intros n.
  destruct ((48 <=? n) && (n <=? 57)) eqn:E1; [intros [= <-]; bool_Z; lia |].
  destruct ((97 <=? n) && (n <=? 102)) eqn:E2; [intros [= <-]; bool_Z; lia |].
  destruct ((65 <=? n) && (n <=? 70)) eqn:E3; [intros [= <-]; bool_Z; lia | done].
Qed.

Lemma hex_val_nonneg s : forall a n, 0 <= a -> hex_val a s = Some n -> 0 <= n.
Proof.
  induction s as [| c s IH]; cbn; intros a n Ha H; [by simplify_eq |].
  destruct (char_hex c) as [k |] eqn:E; [| done]. apply IH in H; [done |].
  apply char_hex_nonneg in E. lia.
Qed.

Lemma parse_hex_u64_range s n : parse_hex_u64 s = Some n -> is_u64 n.
Proof.
  assert (forall t, parse_hex_digits t = Some n -> is_u64 n) as Hd.
  { unfold parse_hex_digits. intros [| c t]; [done |]. intros (m & Hm & [-> Hle]%in_u64_Some)%bind_Some.
    apply hex_val_nonneg in Hm; [| lia]. by split. }
  unfold parse_hex_u64. destruct s as [| c s]; [done |]. destruct (Ascii.eqb c "+"); apply Hd.
Qed.

Lemma split_comma_nonempty s : split_comma s <> [].
Proof. destruct s as [| c s]; [done |]. cbn. destruct (Ascii.eqb c ","); [done |]. by destruct (split_comma s). Qed.

Lemma parse_bound s p : parse s = Some p -> bound p.
Proof.
  unfold parse. intros ([v r1] & _ & H)%bind_Some. destruct (negb _); [done |].
  apply bind_Some in H as ([id r2] & _ & H). apply bind_Some in H as (fid & Hid & H).
  apply bind_Some in H as ([sz devs] & _ & H). apply bind_Some in H as (size & Hsz & H).
  destruct (_ || _ || _) eqn:Hz; simplify_eq. apply orb_false_iff in Hz as [[Hf Hs]%orb_false_iff _].
  apply parse_hex_u64_range in Hid. apply parse_u64_range in Hsz. bool_Z.
  split; cbn; [bounds | bounds | apply split_comma_nonempty].
Qed.

(** ** The stripe map *)
(** RFC 8881 13.4.4: the device of a byte, for a client that was told the
    unit size, the width and the first stripe index. *)
Definition rfc_slot (first width size offset : Z) : Z := (offset / size + first) mod width.

Definition sane (p : FilePlacement) : Prop :=
  0 <= file_id p <= u64_max /\ 1 < stripe_size p <= u64_max /\ Z.of_nat (length (device_ids p)) <= u32_max.

Lemma width_pos p : 1 <= width_of p.
Proof. unfold width_of. lia. Qed.

Lemma first_index_range id width : 1 <= width <= u32_max + 1 ->
  wire_first_stripe_index id width = id mod width /\ 0 <= id mod width < width.
Proof.
  intros Hw. pose proof (Z.mod_pos_bound id width ltac:(lia)). split; [| done].
  unfold wire_first_stripe_index, wrap_u32. rewrite Z.max_l by lia. apply Z.mod_small. bounds.
Qed.

Lemma unit_small size off : 1 < size -> is_u64 off -> 0 <= off / size <= u64_max / 2.
Proof.
  intros Hs [H0 H1]. split; [apply Z.div_pos; lia |].
  transitivity (off / 2); [apply Z.div_le_compat_l; lia | by apply Z.div_le_mono; lia].
Qed.

Lemma slot_is_rfc_slot p off : sane p -> is_u64 off ->
  slot_for_offset p off =
    rfc_slot (wire_first_stripe_index (file_id p) (width_of p)) (width_of p) (stripe_size p) off /\
  0 <= slot_for_offset p off < width_of p.
Proof.
  intros (Hid & Hs & Hw) Ho. unfold slot_for_offset, rfc_slot.
  pose proof (width_pos p). pose proof (unit_small (stripe_size p) off ltac:(lia) Ho) as Hu.
  destruct (first_index_range (file_id p) (width_of p)) as [-> Hr].
  { unfold width_of in *. bounds. }
  assert (width_of p <= u32_max + 1) by (unfold width_of; bounds).
  rewrite wrap_u64_id; [| split; [lia |]].
  - split; [done |]. apply Z.mod_pos_bound. lia.
  - change (u64_max / 2) with 9223372036854775807 in Hu. bounds.
Qed.

Lemma same_unit_same_slot p a b : a / stripe_size p = b / stripe_size p -> slot_for_offset p a = slot_for_offset p b.
Proof. unfold slot_for_offset. by intros ->. Qed.

Lemma slot_lookup p off : sane p -> is_u64 off -> device_ids p <> [] ->
  exists d, device_ids p !! Z.to_nat (slot_for_offset p off) = Some d.
Proof.
  intros Hp Ho Hd. apply lookup_lt_is_Some_2. destruct (slot_is_rfc_slot p off Hp Ho) as [_ Hr].
  unfold width_of in Hr. destruct (device_ids p); [done | cbn [length] in *; lia].
Qed.

(** ** The splitting loop *)
(** [chunks] cut [cur, end_) into consecutive non-empty pieces, each inside
    one stripe unit. *)
Inductive tiles (size : Z) : Z -> Z -> list (Z * Z) -> Prop :=
| tiles_nil cur : tiles size cur cur []
| tiles_cons cur n end_ chunks : 0 < n -> cur / size = (cur + n - 1) / size ->
    tiles size (cur + n) end_ chunks -> tiles size cur end_ ((cur, n) :: chunks).

(** How many units a range touches. *)
Definition units (size cur end_ : Z) : Z := if cur <? end_ then (end_ - 1) / size - cur / size + 1 else 0.

Lemma unit_end_exact size cur : 0 < size -> 0 <= cur -> (cur / size + 1) * size <= u64_max ->
  unit_end size cur = (cur / size + 1) * size /\ cur < unit_end size cur <= cur + size.
Proof.
  intros Hs Hc Hb. unfold unit_end. pose proof (Z.div_mod cur size ltac:(lia)).
  pose proof (Z.mod_pos_bound cur size ltac:(lia)). assert (0 <= cur / size) by (apply Z.div_pos; lia).
  rewrite (wrap_u64_id (cur / size + 1)) by (split; [lia | nia]).
  rewrite wrap_u64_id by (split; [nia | done]). split; [done |]. nia.
Qed.

Lemma div_unit_end size cur : 0 < size -> 0 <= cur ->
  forall x, cur <= x < (cur / size + 1) * size -> x / size = cur / size.
Proof.
  intros Hs Hc x Hx. pose proof (Z.div_mod cur size ltac:(lia)). pose proof (Z.mod_pos_bound cur size ltac:(lia)).
  symmetry. apply (Z.div_unique x size (cur / size) (x - size * (cur / size))); nia.
Qed.

Lemma split_loop_tiles size end_ : 0 < size -> end_ + size <= 2 ^ 64 -> forall fuel cur, 0 <= cur <= end_ ->
  units size cur end_ < Z.of_nat fuel ->
  exists chunks, split_loop fuel size cur end_ = Done chunks /\ tiles size cur end_ chunks /\
    Z.of_nat (length chunks) = units size cur end_.
Proof.
  intros Hs Hend. induction fuel as [| fuel IH]; intros cur Hc Hf.
  { unfold units in Hf. destruct (cur <? end_) eqn:E; [| lia].
    assert (cur / size <= (end_ - 1) / size) by (apply Z.div_le_mono; lia). lia. }
  cbn [split_loop]. unfold units in Hf |- *. destruct (Z.ltb_spec cur end_) as [Hlt | Hge].
  2:{ assert (cur = end_) as -> by lia. exists []. repeat split; [constructor]. }
  rewrite (proj2 (Z.eqb_neq size 0)) by lia.
  pose proof (Z.div_mod cur size ltac:(lia)). pose proof (Z.mod_pos_bound cur size ltac:(lia)).
  destruct (unit_end_exact size cur) as [Hue Hrange]; [lia | lia | bounds |].
  pose proof (div_unit_end size cur Hs ltac:(lia)) as Hsame.
  set (ce := Z.min (unit_end size cur) end_) in *.
  assert (cur < ce <= end_) as Hce by lia.
  assert ((ce - 1) / size = cur / size) as Hu1 by (apply Hsame; lia).
  assert (wrap_u64 (ce - cur) = ce - cur) as -> by (apply wrap_u64_id; bounds).
  assert (units size ce end_ = (end_ - 1) / size - cur / size) as Hun.
  { unfold units. destruct (Z.ltb_spec ce end_).
    - assert (ce = (cur / size + 1) * size) as -> by lia. rewrite Z.div_mul by lia. lia.
    - assert (ce = end_) as Hx by lia. rewrite Hx in Hu1. lia. }
  destruct (IH ce) as (chunks & -> & Ht & Hn); [lia | rewrite Hun; lia |].
  exists ((cur, ce - cur) :: chunks). split; [done |]. split.
  - constructor; [lia | replace (cur + (ce - cur) - 1) with (ce - 1) by lia; done |].
    by replace (cur + (ce - cur)) with ce by lia.
  - cbn [length]. lia.
Qed.

(** One step past the last whole unit wraps to offset zero, and the loop
    never reaches its end again. *)
Lemma split_loop_diverges size end_ : 0 < size -> (size | 2 ^ 64) -> 2 ^ 64 - size < end_ <= u64_max ->
  forall fuel cur, 0 <= cur < end_ -> split_loop fuel size cur end_ = OutOfFuel.
Proof.
  intros Hs [q Hq] Hend. induction fuel as [| fuel IH]; intros cur Hc; [done |]. cbn [split_loop].
  rewrite (proj2 (Z.ltb_lt _ _)) by lia. rewrite (proj2 (Z.eqb_neq _ _)) by lia.
  rewrite IH; [done |].
  pose proof (Z.div_mod cur size ltac:(lia)). pose proof (Z.mod_pos_bound cur size ltac:(lia)).
  assert (0 <= cur / size) by (apply Z.div_pos; lia).
  assert (cur / size < q) by (apply Z.div_lt_upper_bound; bounds).
  assert (2 <= size) by bounds. assert (2 * q <= 2 ^ 64) by nia.
  unfold unit_end. rewrite (wrap_u64_id (cur / size + 1)) by bounds.
  destruct (decide (cur / size + 1 = q)) as [-> |].
  - rewrite <- Hq. unfold wrap_u64. rewrite Z.mod_same by lia. lia.
  - assert ((cur / size + 1) * size <= 2 ^ 64 - size) by nia.
    rewrite wrap_u64_id by (split; [nia | bounds]). nia.
Qed.

(** ** Identities *)
Lemma land_255_range n : 0 <= n -> 0 <= Z.land n 255 < 256.
Proof. intros Hn. change 255 with (Z.ones 8). rewrite Z.land_ones by lia. apply Z.mod_pos_bound. lia. Qed.

Lemma shard_ordinal_range env : 0 <= shard_ordinal env < 256.
Proof.
  unfold shard_ordinal. destruct env as [v |]; [| lia].
  destruct (parse_u64 (trim v)) as [n |] eqn:E; [| lia]. apply parse_u64_range in E. apply land_255_range. bounds.
Qed.

Lemma lor_disjoint_sum a b k : 0 <= k -> 0 <= b < 2 ^ k -> Z.lor (Z.shiftl a k) b = Z.shiftl a k + b.
Proof.
  intros Hk Hb. assert (Z.land (Z.shiftl a k) b = 0) as Hl.
  { apply Z.bits_inj'. intros n Hn. rewrite Z.land_spec, Z.bits_0.
    destruct (Z.lt_ge_cases n k); [by rewrite Z.shiftl_spec_low |].
    rewrite <- (Z.mod_small b (2 ^ k)) by lia.
    rewrite Z.mod_pow2_bits_high by lia. apply andb_false_r. }
  pose proof (Z.add_lor_land (Z.shiftl a k) b). lia.
Qed.

(** The shard is the top byte, so two shards never mint the same identity;
    and no identity is the legacy zero. *)
Lemma compose_file_id_spec shard hi lo : 0 <= shard -> is_u64 hi -> is_u64 lo ->
  let id := compose_file_id shard hi lo in 0 < id <= u64_max /\ id / 2 ^ 56 = Z.land shard 255.
Proof.
  intros Hs Hhi Hlo. unfold compose_file_id. pose proof (land_255_range shard Hs) as Hl.
  set (s := Z.land shard 255) in *. change 72057594037927935 with (Z.ones 56).
  rewrite Z.land_ones by lia. pose proof (Z.mod_pos_bound (Z.lxor hi lo) (2 ^ 56) ltac:(lia)) as Hr.
  set (r := Z.lxor hi lo mod 2 ^ 56) in *.
  assert (Z.shiftl s 56 = s * 2 ^ 56) as Hsh by (rewrite Z.shiftl_mul_pow2; lia).
  rewrite wrap_u64_id by (rewrite Hsh; bounds). rewrite lor_disjoint_sum by lia. rewrite Hsh.
  destruct (Z.eqb_spec (s * 2 ^ 56 + r) 0).
  - assert (s = 0) as -> by lia. by vm_compute.
  - split; [bounds |]. rewrite Z.div_add_l by lia. rewrite (Z.div_small r) by lia. lia.
Qed.

Lemma append_cancel s a b : String.append s a = String.append s b -> a = b.
Proof. induction s as [| c s IH]; rewrite ?append_cons; [done |]. intros H. injection H. auto. Qed.

Lemma gate_key_inj p k p' k' : 0 <= file_id p <= u64_max -> 0 <= file_id p' <= u64_max ->
  truncate_gate_key p k = truncate_gate_key p' k' ->
  file_id p = file_id p' /\ (file_id p = 0 -> k = k').
Proof.
  intros Hp Hp'. unfold truncate_gate_key.
  destruct (Z.eqb_spec (file_id p) 0), (Z.eqb_spec (file_id p') 0); cbn [negb]; intros H.
  - apply append_cancel in H. by rewrite e, e0.
  - injection H. done.
  - injection H. done.
  - apply append_cancel, hex16_inj in H; [| bounds | bounds]. split; [done | lia].
Qed.

(** ** What a stub store gives its client *)
Class StubLaws (T : Type) `{StubBinding T} := {
  (** the placements the store can hold *)
  holds : FilePlacement -> Prop;
  (** two spellings of the same stub *)
  same_stub : string -> string -> Prop;
  write_read ok t k p t' : stub_write ok t k p = Some t' -> holds p -> stub_read t' k = Some p;
  write_frame ok t k p t' k' : stub_write ok t k p = Some t' ->
    stub_meta t' k' = stub_meta t k' /\ (stub_read t' k' = stub_read t k' \/ same_stub k k');
  same_read t k k' : same_stub k k' -> stub_read t k = stub_read t k';
  read_bound t k p : stub_read t k = Some p -> bound p;
  read_stub t k p : stub_read t k = Some p -> is_Some (stub_meta t k) }.

(** The attribute store holds what its codec round-trips and its read buffer
    is long enough for. *)
Definition xattr_holds (p : FilePlacement) : Prop :=
  bindable p /\ (String.length (serialize p) <= XATTR_BUF)%nat.

#[global, program] Instance XattrStubLaws : StubLaws (gmap string Stub) :=
  { holds := xattr_holds; same_stub k k' := stub_path k = stub_path k' }.
Next Obligation.
  intros ok t k p t' Hw [Hb Hl]. cbn in Hw |- *. unfold xattr_write in Hw. unfold xattr_read.
  apply bind_Some in Hw as (s & Hs & Hw). destruct ok; [| done]. simplify_eq.
  rewrite lookup_insert_eq. cbn [mbind option_bind]. unfold get_xattr. cbn [st_xattr mbind option_bind].
  rewrite (proj2 (Nat.leb_le _ _) Hl). cbn [mbind option_bind]. by apply serialize_parse.
Qed.
Next Obligation.
  intros ok t k p t' k' Hw. cbn in Hw |- *. unfold xattr_write in Hw. unfold xattr_read, xattr_meta.
  apply bind_Some in Hw as (s & Hs & Hw). destruct ok; [| done]. simplify_eq.
  destruct (decide (stub_path k' = stub_path k)) as [He | Hne].
  - rewrite He, lookup_insert_eq, Hs. cbn. by auto.
  - rewrite lookup_insert_ne by done. auto.
Qed.
Next Obligation. intros t k k' He. cbn in He |- *. unfold xattr_read. by rewrite He. Qed.
Next Obligation.
  intros t k p Hr. cbn in Hr. unfold xattr_read in Hr.
  apply bind_Some in Hr as (s & _ & Hr). apply bind_Some in Hr as (raw & _ & Hr). by apply parse_bound in Hr.
Qed.
Next Obligation.
  intros t k p Hr. cbn in Hr |- *. unfold xattr_read, xattr_meta in *.
  apply bind_Some in Hr as (s & -> & Hr). by eexists.
Qed.
