(* ===== verification/PnfsLayout.v ===== *)
(** The pNFS layout manager (pnfs/mds/layout.rs) with the device registry it
    reads (pnfs/mds/device.rs) and the backend rows it writes
    (state_backend/memory.rs, state_backend/sqlite.rs): layouts and their two
    secondary indexes, pinned placements, the truncate gate, stripe cleanup,
    per-volume geometry and the device-notify book.

    A [DashMap] is a [gmap]; iterating it visits [map_to_list].  Queued writes
    are applied in call order, so a backend row is what the last write to its
    key left.  [Instant]s and [Duration]s are nanoseconds, the wall clock
    seconds.  The stateid's randomness and the identity's UUID are arguments,
    and the 64-bit digest behind a composite device id is a field of the
    configuration. *)

From Stdlib Require Import Ascii String.
From S2P Require Import Prelude Csv PnfsPlacement.

Definition secs (n : Z) : Z := n * 1000000000.
Definition as_secs (d : Z) : Z := d / 1000000000.

(** ** Stateids: the seqid in the first four bytes, then the identity *)
Record LayoutStateId := Lsid { ls_seqid : Z; ls_other : Z }.

#[global] Instance LayoutStateId_eq : EqDecision LayoutStateId.
Proof. solve_decision. Defined.
#[global] Instance LayoutStateId_countable : Countable LayoutStateId.
Proof.
  by apply (inj_countable' (fun s => (ls_seqid s, ls_other s)) (fun p => Lsid p.1 p.2)); intros [].
Defined.

Definition LAYOUT_SEQID_BASE : Z := 1.
Definition state_key (s : LayoutStateId) : LayoutStateId := Lsid LAYOUT_SEQID_BASE (ls_other s).
Definition generate_stateid (random : Z) : LayoutStateId := Lsid LAYOUT_SEQID_BASE random.

(** [REVOKED_TOMBSTONE_TTL] *)
Definition REVOKED_TOMBSTONE_TTL : Z := secs 300.

(** ** Layouts *)
Record LayoutOwner := Owner { lo_client : Z; lo_session : Z; lo_fsid : Z }.
Inductive IoMode := IoRead | IoReadWrite | IoAny.
Record LayoutSegment := Segment {
  sg_offset : Z; sg_length : Z; sg_iomode : IoMode; sg_device : string; sg_stripe_index : Z; sg_pattern_offset : Z }.
Record LayoutState := Layout {
  ly_stateid : LayoutStateId; ly_owner : LayoutOwner; ly_filehandle : list Z; ly_file_ident : string;
  ly_segments : list LayoutSegment; ly_iomode : IoMode; ly_return_on_close : bool }.

Inductive IoModeRecord := RecRead | RecReadWrite | RecAny.
Record LayoutSegmentRecord := SegmentRec {
  sr_offset : Z; sr_length : Z; sr_iomode : IoModeRecord; sr_device_id : string; sr_stripe_index : Z;
  sr_pattern_offset : Z }.
Record LayoutRecord := LayoutRec {
  lr_stateid : LayoutStateId; lr_owner_client_id : Z; lr_owner_session_id : Z; lr_owner_fsid : Z;
  lr_filehandle : list Z; lr_file_ident : string; lr_segments : list LayoutSegmentRecord;
  lr_iomode : IoModeRecord; lr_return_on_close : bool }.

Definition io_to_record (m : IoMode) : IoModeRecord :=
  match m with IoRead => RecRead | IoReadWrite => RecReadWrite | IoAny => RecAny end.
Definition record_to_io (m : IoModeRecord) : IoMode :=
  match m with RecRead => IoRead | RecReadWrite => IoReadWrite | RecAny => IoAny end.
Definition is_read (m : IoMode) : bool := match m with IoRead => true | _ => false end.

Definition LayoutState_to_record (l : LayoutState) : LayoutRecord :=
  LayoutRec (ly_stateid l) (lo_client (ly_owner l)) (lo_session (ly_owner l)) (lo_fsid (ly_owner l))
    (ly_filehandle l) (ly_file_ident l)
    ((fun s => SegmentRec (sg_offset s) (sg_length s) (io_to_record (sg_iomode s)) (sg_device s)
                 (sg_stripe_index s) (sg_pattern_offset s)) <$> ly_segments l)
    (io_to_record (ly_iomode l)) (ly_return_on_close l).
Definition LayoutState_from_record (r : LayoutRecord) : LayoutState :=
  Layout (lr_stateid r) (Owner (lr_owner_client_id r) (lr_owner_session_id r) (lr_owner_fsid r))
    (lr_filehandle r) (lr_file_ident r)
    ((fun s => Segment (sr_offset s) (sr_length s) (record_to_io (sr_iomode s)) (sr_device_id s)
                 (sr_stripe_index s) (sr_pattern_offset s)) <$> lr_segments r)
    (record_to_io (lr_iomode r)) (lr_return_on_close r).

Definition set_ident (ident : string) (l : LayoutState) : LayoutState :=
  Layout (ly_stateid l) (ly_owner l) (ly_filehandle l) ident (ly_segments l) (ly_iomode l) (ly_return_on_close l).
Definition set_stateid (s : LayoutStateId) (l : LayoutState) : LayoutState :=
  Layout s (ly_owner l) (ly_filehandle l) (ly_file_ident l) (ly_segments l) (ly_iomode l) (ly_return_on_close l).

(** ** The truncate mark *)
Record GateMark := Mark { gm_since : Z; gm_carried : Z; gm_min : Z }.
Definition GateMark_age (now : Z) (g : GateMark) : Z := gm_carried g + (now - gm_since g).

(** ** Devices *)
Inductive DeviceStatus := Active | Degraded | Offline.
#[global] Instance DeviceStatus_eq : EqDecision DeviceStatus.
Proof. solve_decision. Defined.

Record DeviceInfo := Device {
  di_device_id : string; di_primary_endpoint : string; di_capacity : Z; di_used : Z; di_status : DeviceStatus;
  di_last_heartbeat : Z; di_active_layouts : Z; di_identity_created_at : Z; di_control_endpoint : option string }.

Notation DeviceRegistry := (gmap string DeviceInfo).

Definition set_status (st : DeviceStatus) (d : DeviceInfo) : DeviceInfo :=
  Device (di_device_id d) (di_primary_endpoint d) (di_capacity d) (di_used d) st (di_last_heartbeat d)
    (di_active_layouts d) (di_identity_created_at d) (di_control_endpoint d).
Definition set_capacity (cap used : Z) (d : DeviceInfo) : DeviceInfo :=
  Device (di_device_id d) (di_primary_endpoint d) cap used (di_status d) (di_last_heartbeat d)
    (di_active_layouts d) (di_identity_created_at d) (di_control_endpoint d).
Definition set_layout_count (n : Z) (d : DeviceInfo) : DeviceInfo :=
  Device (di_device_id d) (di_primary_endpoint d) (di_capacity d) (di_used d) (di_status d) (di_last_heartbeat d)
    n (di_identity_created_at d) (di_control_endpoint d).
Definition set_heartbeat (now : Z) (st : DeviceStatus) (d : DeviceInfo) : DeviceInfo :=
  Device (di_device_id d) (di_primary_endpoint d) (di_capacity d) (di_used d) st now
    (di_active_layouts d) (di_identity_created_at d) (di_control_endpoint d).

Definition register (d : DeviceInfo) (reg : DeviceRegistry) : DeviceRegistry := <[di_device_id d := d]> reg.
Definition unregister (id : string) (reg : DeviceRegistry) : result unit DeviceInfo * DeviceRegistry :=
  match reg !! id with Some d => (Ok d, delete id reg) | None => (Err tt, reg) end.

Definition dev_le (a b : DeviceInfo) : Prop := String.le (di_device_id a) (di_device_id b).
#[global] Instance dev_le_dec a b : Decision (dev_le a b).
Proof. unfold dev_le. apply _. Defined.

Definition registry_list (reg : DeviceRegistry) : list DeviceInfo := snd <$> map_to_list reg.
Definition list_active (reg : DeviceRegistry) : list DeviceInfo :=
  merge_sort dev_le (filter (fun d => di_status d = Active) (registry_list reg)).
Definition count_by_status (st : DeviceStatus) (reg : DeviceRegistry) : nat :=
  length (filter (fun d => di_status d = st) (registry_list reg)).

(** The operations on one device: an unknown device is an error. *)
Definition with_device (id : string) (f : DeviceInfo -> DeviceInfo) (reg : DeviceRegistry) :
    result unit unit * DeviceRegistry :=
  match reg !! id with Some d => (Ok tt, <[id := f d]> reg) | None => (Err tt, reg) end.

Definition heartbeat (now : Z) (id : string) : DeviceRegistry -> result unit unit * DeviceRegistry :=
  with_device id (fun d => set_heartbeat now (match di_status d with Offline => Active | st => st end) d).
Definition update_capacity (id : string) (cap used : Z) : DeviceRegistry -> result unit unit * DeviceRegistry :=
  with_device id (set_capacity cap used).
Definition update_status (id : string) (st : DeviceStatus) : DeviceRegistry -> result unit unit * DeviceRegistry :=
  with_device id (set_status st).
Definition increment_layout_count (id : string) : DeviceRegistry -> result unit unit * DeviceRegistry :=
  with_device id (fun d => set_layout_count (wrap_u64 (di_active_layouts d + 1)) d).
Definition decrement_layout_count (id : string) : DeviceRegistry -> result unit unit * DeviceRegistry :=
  with_device id (fun d => if 0 <? di_active_layouts d then set_layout_count (di_active_layouts d - 1) d else d).

Definition stale (now timeout : Z) (d : DeviceInfo) : bool :=
  negb (bool_decide (di_status d = Offline)) && (timeout <? Z.max (now - di_last_heartbeat d) 0).
Definition check_stale_devices (now timeout : Z) (reg : DeviceRegistry) : list string * DeviceRegistry :=
  ((fun kd => di_device_id kd.2) <$> filter (fun kd => stale now timeout kd.2 = true) (map_to_list reg),
   (fun d => if stale now timeout d then set_status Offline d else d) <$> reg).

Definition total_capacity (reg : DeviceRegistry) : Z :=
  wrap_u64 (foldr Z.add 0 (di_capacity <$> filter (fun d => di_status d = Active) (registry_list reg))).
Definition total_used (reg : DeviceRegistry) : Z :=
  wrap_u64 (foldr Z.add 0 (di_used <$> filter (fun d => di_status d = Active) (registry_list reg))).

(** ** The backend's rows: a layout row is keyed by all sixteen bytes of its
    stateid, a placement row by its file key. *)
Record Backend := MkBackend {
  be_layouts : gmap LayoutStateId LayoutRecord; be_placements : gmap string PlacementRecord;
  be_geometry : gmap string VolumeGeometryRecord; be_notify : gmap (string * Z) Z }.

Inductive WriteOp :=
| PutLayout (r : LayoutRecord) | DeleteLayout (s : LayoutStateId)
| PutPlacement (r : PlacementRecord) | DeletePlacement (k : string)
| PutVolumeGeometry (r : VolumeGeometryRecord) | DeleteVolumeGeometry (v : string)
| PutDeviceNotify (volume : string) (client mask : Z) | DeleteDeviceNotify (volume : string) (client : option Z).

Definition apply_write (w : WriteOp) (b : Backend) : Backend :=
  match w with
  | PutLayout r => MkBackend (<[lr_stateid r := r]> (be_layouts b)) (be_placements b) (be_geometry b) (be_notify b)
  | DeleteLayout s => MkBackend (delete s (be_layouts b)) (be_placements b) (be_geometry b) (be_notify b)
  | PutPlacement r =>
      MkBackend (be_layouts b) (<[pr_file_key r := r]> (be_placements b)) (be_geometry b) (be_notify b)
  | DeletePlacement k => MkBackend (be_layouts b) (delete k (be_placements b)) (be_geometry b) (be_notify b)
  | PutVolumeGeometry r =>
      MkBackend (be_layouts b) (be_placements b) (<[gr_volume r := r]> (be_geometry b)) (be_notify b)
  | DeleteVolumeGeometry v => MkBackend (be_layouts b) (be_placements b) (delete v (be_geometry b)) (be_notify b)
  | PutDeviceNotify v c mask =>
      MkBackend (be_layouts b) (be_placements b) (be_geometry b) (<[(v, c) := mask]> (be_notify b))
  | DeleteDeviceNotify v (Some c) =>
      MkBackend (be_layouts b) (be_placements b) (be_geometry b) (delete (v, c) (be_notify b))
  | DeleteDeviceNotify v None =>
      MkBackend (be_layouts b) (be_placements b) (be_geometry b)
        (filter (fun kv => kv.1.1 <> v) (be_notify b))
  end.

(** ** The manager *)
Inductive LayoutPolicy := RoundRobin | Stripe | Locality.
Record LmConfig := MkConfig {
  cf_policy : LayoutPolicy; cf_stripe_size : Z; cf_shard : option string; cf_composite : list string -> Z }.

(** Sixteen bytes: the 64-bit digest twice. *)
Definition composite_device_id (cf : LmConfig) (ids : list string) : Z :=
  let hash := cf_composite cf ids in hash * 2 ^ 64 + hash.

Record LayoutManager := Manager {
  lm_layouts : gmap LayoutStateId LayoutState;
  lm_by_owner : gmap Z (list LayoutStateId);
  lm_by_file : gmap string (list LayoutStateId);
  lm_geometry : gmap string (option VolumeGeometry);
  lm_placements : gmap string FilePlacement;
  lm_groups : gmap Z (list string);
  lm_cleanup : gmap string (list string);
  lm_revoked : gmap LayoutStateId Z;
  lm_dirty : gmap string GateMark;
  lm_registry : DeviceRegistry;
  lm_backend : Backend }.

Definition empty_backend : Backend := MkBackend ∅ ∅ ∅ ∅.
Definition new_manager (reg : DeviceRegistry) (b : Backend) : LayoutManager :=
  Manager ∅ ∅ ∅ ∅ ∅ ∅ ∅ ∅ ∅ reg b.

Definition upd_layouts f (m : LayoutManager) :=
  Manager (f (lm_layouts m)) (lm_by_owner m) (lm_by_file m) (lm_geometry m) (lm_placements m) (lm_groups m)
    (lm_cleanup m) (lm_revoked m) (lm_dirty m) (lm_registry m) (lm_backend m).
Definition upd_by_owner f (m : LayoutManager) :=
  Manager (lm_layouts m) (f (lm_by_owner m)) (lm_by_file m) (lm_geometry m) (lm_placements m) (lm_groups m)
    (lm_cleanup m) (lm_revoked m) (lm_dirty m) (lm_registry m) (lm_backend m).
Definition upd_by_file f (m : LayoutManager) :=
  Manager (lm_layouts m) (lm_by_owner m) (f (lm_by_file m)) (lm_geometry m) (lm_placements m) (lm_groups m)
    (lm_cleanup m) (lm_revoked m) (lm_dirty m) (lm_registry m) (lm_backend m).
Definition upd_geometry f (m : LayoutManager) :=
  Manager (lm_layouts m) (lm_by_owner m) (lm_by_file m) (f (lm_geometry m)) (lm_placements m) (lm_groups m)
    (lm_cleanup m) (lm_revoked m) (lm_dirty m) (lm_registry m) (lm_backend m).
Definition upd_placements f (m : LayoutManager) :=
  Manager (lm_layouts m) (lm_by_owner m) (lm_by_file m) (lm_geometry m) (f (lm_placements m)) (lm_groups m)
    (lm_cleanup m) (lm_revoked m) (lm_dirty m) (lm_registry m) (lm_backend m).
Definition upd_groups f (m : LayoutManager) :=
  Manager (lm_layouts m) (lm_by_owner m) (lm_by_file m) (lm_geometry m) (lm_placements m) (f (lm_groups m))
    (lm_cleanup m) (lm_revoked m) (lm_dirty m) (lm_registry m) (lm_backend m).
Definition upd_cleanup f (m : LayoutManager) :=
  Manager (lm_layouts m) (lm_by_owner m) (lm_by_file m) (lm_geometry m) (lm_placements m) (lm_groups m)
    (f (lm_cleanup m)) (lm_revoked m) (lm_dirty m) (lm_registry m) (lm_backend m).
Definition upd_revoked f (m : LayoutManager) :=
  Manager (lm_layouts m) (lm_by_owner m) (lm_by_file m) (lm_geometry m) (lm_placements m) (lm_groups m)
    (lm_cleanup m) (f (lm_revoked m)) (lm_dirty m) (lm_registry m) (lm_backend m).
Definition upd_dirty f (m : LayoutManager) :=
  Manager (lm_layouts m) (lm_by_owner m) (lm_by_file m) (lm_geometry m) (lm_placements m) (lm_groups m)
    (lm_cleanup m) (lm_revoked m) (f (lm_dirty m)) (lm_registry m) (lm_backend m).
Definition upd_registry f (m : LayoutManager) :=
  Manager (lm_layouts m) (lm_by_owner m) (lm_by_file m) (lm_geometry m) (lm_placements m) (lm_groups m)
    (lm_cleanup m) (lm_revoked m) (lm_dirty m) (f (lm_registry m)) (lm_backend m).
Definition enqueue_write (w : WriteOp) (m : LayoutManager) :=
  Manager (lm_layouts m) (lm_by_owner m) (lm_by_file m) (lm_geometry m) (lm_placements m) (lm_groups m)
    (lm_cleanup m) (lm_revoked m) (lm_dirty m) (lm_registry m) (apply_write w (lm_backend m)).

(** ** Paths *)
Fixpoint trim_end_slash (s : string) : string :=
  match s with
  | EmptyString => EmptyString
  | String c s' =>
      match trim_end_slash s' with
      | EmptyString => if Ascii.eqb c "/" then EmptyString else String c EmptyString
      | t => String c t
      end
  end.
Definition under_prefix (dir : string) : string := String.append (trim_end_slash dir) "/".
Definition starts_with (p s : string) : bool := match strip_prefix p s with Some _ => true | None => false end.

Fixpoint until_slash (s : string) : string :=
  match s with
  | String c s' => if Ascii.eqb c "/" then EmptyString else String c (until_slash s')
  | EmptyString => EmptyString
  end.
(** [split('/').find(|c| !c.is_empty())] *)
Definition first_component (key : string) : option string :=
  let c := until_slash (trim_start_slash key) in if is_empty c then None else Some c.

(** ** Geometry *)
Definition recorded_geometry (volume : string) (m : LayoutManager) : option VolumeGeometry :=
  mjoin (lm_geometry m !! volume).
Definition geometry_for (cf : LmConfig) (key : string) (m : LayoutManager) : VolumeGeometry :=
  let default_ := Geometry (cf_stripe_size cf) 0 File in
  match first_component key with
  | Some v => default default_ (recorded_geometry v m)
  | None => default_
  end.
Definition layout_class_for (cf : LmConfig) (key : string) (m : LayoutManager) : LayoutClass :=
  g_layout_class (geometry_for cf key m).
Definition volume_is_scsi (volume : string) (m : LayoutManager) : bool :=
  match recorded_geometry volume m with Some g => bool_decide (g_layout_class g = Scsi) | None => false end.
Definition scsi_volumes (m : LayoutManager) : list string :=
  omap (fun kv => match kv.2 with
                  | Some g => if bool_decide (g_layout_class g = Scsi) then Some kv.1 else None
                  | None => None
                  end) (map_to_list (lm_geometry m)).

(** The flag is the backend's answer to the awaited write. *)
Definition set_volume_geometry (cf : LmConfig) (ok : bool) (volume : string) (req : VolumeGeometry)
    (m : LayoutManager) : VolumeGeometry * LayoutManager :=
  let g := Geometry (if g_stripe_size req =? 0 then cf_stripe_size cf else g_stripe_size req)
             (g_stripe_width req) (g_layout_class req) in
  if ok then
    (g, upd_geometry (insert volume (Some g))
          (enqueue_write (PutVolumeGeometry (GeometryRec volume (g_stripe_size g) (g_stripe_width g)
             (LayoutClass_as_str (g_layout_class g)))) m))
  else (Geometry (cf_stripe_size cf) 0 File, m).
Definition ensure_volume_geometry (cf : LmConfig) (ok : bool) (volume : string) (req : VolumeGeometry)
    (m : LayoutManager) : VolumeGeometry * LayoutManager :=
  match recorded_geometry volume m with Some g => (g, m) | None => set_volume_geometry cf ok volume req m end.
Definition forget_volume_geometry (volume : string) (m : LayoutManager) : LayoutManager :=
  enqueue_write (DeleteVolumeGeometry volume) (upd_geometry (delete volume) m).

Definition load_geometry_record (m : LayoutManager) (r : VolumeGeometryRecord) : LayoutManager :=
  match LayoutClass_parse (gr_layout_class r) with
  | Some c => upd_geometry (insert (gr_volume r) (Some (Geometry (gr_stripe_size r) (gr_stripe_width r) c))) m
  | None => m
  end.
Definition cache_negative (m : LayoutManager) (v : string) : LayoutManager :=
  match lm_geometry m !! v with Some _ => m | None => upd_geometry (insert v None) m end.
(** [None]: the backend could not list its records. *)
Definition load_volume_geometry (records : option (list VolumeGeometryRecord)) (known : list string)
    (m : LayoutManager) : LayoutManager :=
  match records with
  | None => m
  | Some rs => foldl cache_negative (foldl load_geometry_record m rs) known
  end.

(** ** The device-notify book *)
Definition note_device_fetch (volume : string) (client mask : Z) (m : LayoutManager) : LayoutManager :=
  if (mask =? 0) || (client =? 0) then m else enqueue_write (PutDeviceNotify volume client mask) m.
Definition forget_device_notify (volume : string) : LayoutManager -> LayoutManager :=
  enqueue_write (DeleteDeviceNotify volume None).
Definition forget_device_notify_client (volume : string) (client : Z) : LayoutManager -> LayoutManager :=
  enqueue_write (DeleteDeviceNotify volume (Some client)).
Definition device_notify_list (volume : string) (m : LayoutManager) : list (Z * Z) :=
  omap (fun kv => if String.eqb kv.1.1 volume then Some (kv.1.2, kv.2) else None) (map_to_list (be_notify (lm_backend m))).

Definition NOTIFY_CHANGE : Z := 2.
Definition NOTIFY_DELETE : Z := 4.
Definition notify_type_for (mask : Z) : option Z :=
  if negb (Z.land mask NOTIFY_CHANGE =? 0) then Some NOTIFY_CHANGE
  else if negb (Z.land mask NOTIFY_DELETE =? 0) then Some NOTIFY_DELETE
  else None.
(** [send client kind] is the callback's outcome: accepted or not.
    [attached]: a callback manager is attached and the book could be read. *)
Definition notify_one (volume : string) (live : Z -> bool) (send : Z -> Z -> bool)
    (acc : Z * Z * LayoutManager) (target : Z * Z) : Z * Z * LayoutManager :=
  let '(accepted, attempted, m) := acc in
  if negb (live target.1) then (accepted, attempted, forget_device_notify_client volume target.1 m)
  else match notify_type_for target.2 with
       | None => acc
       | Some kind => (if send target.1 kind then accepted + 1 else accepted, attempted + 1, m)
       end.
Definition notify_device_changed (attached : bool) (volume : string) (live : Z -> bool) (send : Z -> Z -> bool)
    (m : LayoutManager) : Z * Z * LayoutManager :=
  if attached then foldl (notify_one volume live send) (0, 0, m) (device_notify_list volume m) else (0, 0, m).

(** ** The layout table and its two indexes *)
Definition push_id {K} `{Countable K} (k : K) (s : LayoutStateId) (ix : gmap K (list LayoutStateId)) :=
  <[k := default [] (ix !! k) ++ [s]]> ix.

Definition index_file (l : LayoutState) (m : LayoutManager) : LayoutManager :=
  if is_empty (ly_file_ident l) then m
  else upd_by_file (push_id (ly_file_ident l) (state_key (ly_stateid l))) m.
Definition unindex_file (l : LayoutState) (m : LayoutManager) : LayoutManager :=
  if is_empty (ly_file_ident l) then m
  else match lm_by_file m !! ly_file_ident l with
       | None => m
       | Some v =>
           match filter (fun s => s <> state_key (ly_stateid l)) v with
           | [] => upd_by_file (delete (ly_file_ident l)) m
           | v' => upd_by_file (insert (ly_file_ident l) v') m
           end
       end.

Definition persist (l : LayoutState) : LayoutManager -> LayoutManager :=
  enqueue_write (PutLayout (LayoutState_to_record l)).
Definition persist_delete (s : LayoutStateId) : LayoutManager -> LayoutManager := enqueue_write (DeleteLayout s).

Definition push_owner (client : Z) (s : LayoutStateId) : LayoutManager -> LayoutManager :=
  upd_by_owner (push_id client s).
Definition insert_layout (l : LayoutState) : LayoutManager -> LayoutManager :=
  upd_layouts (insert (state_key (ly_stateid l)) l).

Definition load_record (m : LayoutManager) (r : LayoutRecord) : LayoutManager :=
  let l := LayoutState_from_record r in
  push_owner (lo_client (ly_owner l)) (lr_stateid r) (insert_layout l (index_file l m)).
Definition load_records (rs : list LayoutRecord) (m : LayoutManager) : LayoutManager := foldl load_record m rs.

Definition write_capable_step (m : LayoutManager) (out : list Z) (k : LayoutStateId) : list Z :=
  match lm_layouts m !! k with
  | Some l =>
      let c := lo_client (ly_owner l) in
      if negb (is_read (ly_iomode l)) && negb (bool_decide (c ∈ out)) then out ++ [c] else out
  | None => out
  end.
Definition write_capable_holders (ident : string) (m : LayoutManager) : list Z :=
  match lm_by_file m !! ident with Some ks => foldl (write_capable_step m) [] ks | None => [] end.

(** *** SCSI recall handles *)
Definition register_scsi_layout (owner : LayoutOwner) (fh : list Z) (key : string) (iomode : IoMode) (random : Z)
    (m : LayoutManager) : LayoutStateId * LayoutManager :=
  let s := generate_stateid random in
  let l := Layout s owner fh key [] iomode true in
  (s, push_owner (lo_client owner) s (insert_layout l (index_file l (persist l m)))).

Definition rekey_one (new : string) (acc : nat * LayoutManager) (s : LayoutStateId) : nat * LayoutManager :=
  match lm_layouts acc.2 !! state_key s with
  | None => acc
  | Some l =>
      let m1 := unindex_file l acc.2 in
      let l' := set_ident new l in
      (S acc.1, persist l' (index_file l' (upd_layouts (insert (state_key s) l') m1)))
  end.
Definition rekey_scsi_layouts (old new : string) (m : LayoutManager) : nat * LayoutManager :=
  foldl (rekey_one new) (0%nat, m)
    ((fun kl => ly_stateid kl.2) <$> filter (fun kl => ly_file_ident kl.2 = old) (map_to_list (lm_layouts m))).

Definition take_scsi_layout (s : LayoutStateId) (m : LayoutManager) : option LayoutState * LayoutManager :=
  match lm_layouts m !! state_key s with
  | None => (None, m)
  | Some l =>
      let m1 := persist_delete s (unindex_file l (upd_layouts (delete (state_key s)) m)) in
      (Some l, match lm_by_owner m1 !! lo_client (ly_owner l) with
               | Some v => upd_by_owner (insert (lo_client (ly_owner l)) (filter (fun x => x <> s) v)) m1
               | None => m1
               end)
  end.

(** *** Return and revoke *)
(** The owner index of a removed layout: matched on the identity, and an
    emptied entry goes. *)
Definition drop_owner (client : Z) (s : LayoutStateId) (m : LayoutManager) : LayoutManager :=
  match lm_by_owner m !! client with
  | None => m
  | Some v =>
      match filter (fun x => state_key x <> state_key s) v with
      | [] => upd_by_owner (delete client) m
      | v' => upd_by_owner (insert client v') m
      end
  end.
Definition decrement_segments (l : LayoutState) : LayoutManager -> LayoutManager :=
  upd_registry (fun reg => foldl (fun r sg => (decrement_layout_count (sg_device sg) r).2) reg (ly_segments l)).

Definition return_layout (s : LayoutStateId) (m : LayoutManager) : result unit unit * LayoutManager :=
  match lm_revoked m !! state_key s with
  | Some _ => (Ok tt, upd_revoked (delete (state_key s)) m)
  | None =>
      match lm_layouts m !! state_key s with
      | None => (Err tt, m)
      | Some l =>
          (Ok tt, persist_delete s (decrement_segments l (drop_owner (lo_client (ly_owner l)) s
                    (unindex_file l (upd_layouts (delete (state_key s)) m)))))
      end
  end.

Definition prune_revoked (now : Z) (r : gmap LayoutStateId Z) : gmap LayoutStateId Z :=
  filter (fun kt => Z.max (now - kt.2) 0 < REVOKED_TOMBSTONE_TTL) r.
Definition revoke_layout (now : Z) (s : LayoutStateId) (m : LayoutManager) : bool * LayoutManager :=
  match lm_layouts m !! state_key s with
  | None => (false, m)
  | Some l =>
      (true, persist_delete s (decrement_segments l (drop_owner (lo_client (ly_owner l)) s
               (upd_revoked (fun r => <[state_key s := now]> (prune_revoked now r))
                 (unindex_file l (upd_layouts (delete (state_key s)) m))))))
  end.

Definition owner_clients (m : LayoutManager) : list Z :=
  fst <$> filter (fun kv => kv.2 <> []) (map_to_list (lm_by_owner m)).
Definition layouts_for_client (client : Z) (m : LayoutManager) : list LayoutStateId :=
  default [] (lm_by_owner m !! client).
Definition return_each (ids : list LayoutStateId) (m : LayoutManager) : LayoutManager :=
  foldl (fun m s => (return_layout s m).2) m ids.
Definition return_all_for_client (client : Z) (m : LayoutManager) : list LayoutStateId * LayoutManager :=
  let ids := layouts_for_client client m in (ids, return_each ids m).
(** The lookup is by the id as listed, not by its identity. *)
Definition return_fsid_for_client (client fsid : Z) (m : LayoutManager) : list LayoutStateId * LayoutManager :=
  let ids := filter (fun s => match lm_layouts m !! s with
                              | Some l => lo_fsid (ly_owner l) =? fsid
                              | None => false
                              end = true) (layouts_for_client client m) in
  (ids, return_each ids m).

(** *** Recall *)
Definition next_seqid (s : Z) : Z := let n := wrap_u32 (s + 1) in if n =? 0 then LAYOUT_SEQID_BASE else n.
Definition bump_recall_stateid (k : LayoutStateId) (m : LayoutManager) :
    option (Z * LayoutStateId * list Z) * LayoutManager :=
  match lm_layouts m !! k with
  | None => (None, m)
  | Some l =>
      let s' := Lsid (next_seqid (ls_seqid (ly_stateid l))) (ls_other (ly_stateid l)) in
      let l' := set_stateid s' l in
      (Some (lo_session (ly_owner l), s', ly_filehandle l), persist l' (upd_layouts (insert k l') m))
  end.
Definition bump_step (acc : list (Z * LayoutStateId * list Z) * LayoutManager) (k : LayoutStateId) :=
  match bump_recall_stateid k acc.2 with
  | (Some t, m') => (acc.1 ++ [t], m')
  | (None, m') => (acc.1, m')
  end.
Definition recall_layouts_for_device (dev : string) (m : LayoutManager) :
    list (Z * LayoutStateId) * LayoutManager :=
  let hits := (fun kl => state_key (ly_stateid kl.2)) <$>
    filter (fun kl => existsb (fun sg => String.eqb (sg_device sg) dev) (ly_segments kl.2) = true)
      (map_to_list (lm_layouts m)) in
  let r := foldl bump_step ([], m) hits in (fst <$> r.1, r.2).
Definition recall_layouts_for_file (ident : string) (m : LayoutManager) :
    list (Z * LayoutStateId * list Z) * LayoutManager :=
  if is_empty ident then ([], m)
  else
    let hits := (fun kl => state_key (ly_stateid kl.2)) <$>
      filter (fun kl => is_empty (ly_file_ident kl.2) = false /\ ly_file_ident kl.2 = ident)
        (map_to_list (lm_layouts m)) in
    foldl bump_step ([], m) hits.

Definition get_layout (s : LayoutStateId) (m : LayoutManager) : option LayoutState := lm_layouts m !! state_key s.
Definition layout_count (m : LayoutManager) : nat := size (lm_layouts m).

(** ** Placements *)
Definition add_group (cf : LmConfig) (p : FilePlacement) (m : LayoutManager) : LayoutManager :=
  let id := composite_device_id cf (device_ids p) in
  match lm_groups m !! id with Some _ => m | None => upd_groups (insert id (device_ids p)) m end.
Definition put_placement (p : FilePlacement) (key : string) : LayoutManager -> LayoutManager :=
  enqueue_write (PutPlacement (FilePlacement_to_record p key)).

Definition placement_for (key : string) (m : LayoutManager) : option FilePlacement := lm_placements m !! key.
Definition has_placement (key : string) (m : LayoutManager) : bool :=
  match lm_placements m !! key with Some _ => true | None => false end.
Definition stripe_group_devices (id : Z) (m : LayoutManager) : option (list string) := lm_groups m !! id.

(** *** The truncate gate *)
Definition gate_entry (gate : string) (kp : string * FilePlacement) : bool :=
  String.eqb (truncate_gate_key kp.2 kp.1) gate.
Definition persist_gate (gate : string) (pending since_unix : option Z) (m : LayoutManager) : LayoutManager :=
  match find_first (gate_entry gate) (map_to_list (lm_placements m)) with
  | Some (k, p) =>
      enqueue_write (PutPlacement (PlacementRec k (stripe_size p) (device_ids p) (file_id p) pending since_unix)) m
  | None => m
  end.
Definition mark_truncate_dirty (now unix : Z) (gate : string) (size : Z) (m : LayoutManager) : LayoutManager :=
  match lm_dirty m !! gate with
  | Some g =>
      let least := Z.min (gm_min g) size in
      persist_gate gate (Some least) (Some (Z.max (unix - as_secs (GateMark_age now g)) 0))
        (upd_dirty (insert gate (Mark (gm_since g) (gm_carried g) least)) m)
  | None => persist_gate gate (Some size) (Some (Z.max unix 0)) (upd_dirty (insert gate (Mark now 0 size)) m)
  end.
Definition clear_truncate_dirty_if (gate : string) (confirmed : Z) (m : LayoutManager) : bool * LayoutManager :=
  match lm_dirty m !! gate with
  | Some g =>
      if confirmed <=? gm_min g then (true, persist_gate gate None None (upd_dirty (delete gate) m)) else (false, m)
  | None => (false, m)
  end.
Definition clear_truncate_dirty (gate : string) (m : LayoutManager) : LayoutManager :=
  persist_gate gate None None (upd_dirty (delete gate) m).
Definition truncate_dirty_state (gate : string) (m : LayoutManager) : option (Z * Z) :=
  g ← lm_dirty m !! gate; Some (gm_since g, gm_min g).
Definition truncate_dirty_since (gate : string) (m : LayoutManager) : option Z :=
  fst <$> truncate_dirty_state gate m.
Definition truncate_dirty_age (now : Z) (gate : string) (m : LayoutManager) : option Z :=
  GateMark_age now <$> lm_dirty m !! gate.
Definition parked_truncates (m : LayoutManager) : list (string * string * FilePlacement * Z) :=
  omap (fun gm => match find_first (gate_entry gm.1) (map_to_list (lm_placements m)) with
                  | Some (k, p) => Some (gm.1, k, p, gm_min gm.2)
                  | None => None
                  end) (map_to_list (lm_dirty m)).

Definition load_placement_record (cf : LmConfig) (now unix : Z) (m : LayoutManager) (r : PlacementRecord) :
    LayoutManager :=
  let p := FilePlacement_from_record r in
  let m1 := add_group cf p m in
  let m2 := match pr_truncate_pending r with
            | None => m1
            | Some pending =>
                let carried := match pr_truncate_since_unix r with
                               | Some stamp => secs (Z.max (unix - stamp) 0)
                               | None => 0
                               end in
                upd_dirty (insert (truncate_gate_key p (pr_file_key r)) (Mark now carried pending)) m1
            end in
  upd_placements (insert (pr_file_key r) p) m2.
Definition load_placement_records (cf : LmConfig) (now unix : Z) (rs : list PlacementRecord) (m : LayoutManager) :
    LayoutManager := foldl (load_placement_record cf now unix) m rs.

(** *** Forgetting and renaming *)
Definition forget_placement (key : string) (m : LayoutManager) : option FilePlacement * LayoutManager :=
  match lm_placements m !! key with
  | Some p =>
      (Some p, enqueue_write (DeletePlacement key)
                 (upd_dirty (delete (truncate_gate_key p key)) (upd_placements (delete key) m)))
  | None => (None, enqueue_write (DeletePlacement key) m)
  end.
Definition keys_under (dir : string) (m : LayoutManager) : list string :=
  filter (fun k => starts_with (under_prefix dir) k = true) (fst <$> map_to_list (lm_placements m)).
Definition forget_step (acc : list (string * FilePlacement) * LayoutManager) (k : string) :=
  match forget_placement k acc.2 with
  | (Some p, m') => (acc.1 ++ [(k, p)], m')
  | (None, m') => (acc.1, m')
  end.
Definition forget_placements_under (dir : string) (m : LayoutManager) :
    list (string * FilePlacement) * LayoutManager := foldl forget_step ([], m) (keys_under dir m).
Definition has_legacy_placements_under (dir : string) (m : LayoutManager) : bool :=
  existsb (fun kp => starts_with (under_prefix dir) kp.1 && (file_id kp.2 =? 0)) (map_to_list (lm_placements m)).

Definition rename_placement (old new : string) (m : LayoutManager) :
    result unit (option FilePlacement) * LayoutManager :=
  match placement_for old m with
  | None => (Ok None, m)
  | Some p =>
      if file_id p =? 0 then (Err tt, m)
      else
        let '(overwritten, m1) := forget_placement new m in
        let m2 := upd_placements (fun ps => delete old (<[new := p]> ps)) m1 in
        (Ok overwritten, enqueue_write (DeletePlacement old) (put_placement p new m2))
  end.
Definition rename_step (old_dir new_dir : string) (acc : nat * LayoutManager) (old : string) : nat * LayoutManager :=
  match strip_prefix (under_prefix old_dir) old with
  | None => acc
  | Some suffix =>
      match rename_placement old (String.append (under_prefix new_dir) suffix) acc.2 with
      | (Ok _, m') => (S acc.1, m')
      | (Err _, m') => (acc.1, m')
      end
  end.
Definition rename_placements_under (old_dir new_dir : string) (m : LayoutManager) : nat * LayoutManager :=
  foldl (rename_step old_dir new_dir) (0%nat, m) (keys_under old_dir m).

(** *** Stripe cleanup *)
Definition push_path (dev path : string) (m : LayoutManager) : LayoutManager :=
  upd_cleanup (fun q => <[dev := default [] (q !! dev) ++ [path]]> q) m.
Definition enqueue_stripe_cleanup (p : FilePlacement) (m : LayoutManager) : LayoutManager :=
  if file_id p =? 0 then m
  else foldl (fun m sd => push_path sd.2 (stripe_rel_path p sd.1) m) m (imap pair (device_ids p)).
Definition enqueue_legacy_cleanup (p : FilePlacement) (rel : string) (m : LayoutManager) : LayoutManager :=
  foldl (fun m d => push_path d rel m) m (device_ids p).
Definition drain_stripe_cleanup (dev : string) (m : LayoutManager) : list string * LayoutManager :=
  (default [] (lm_cleanup m !! dev), upd_cleanup (delete dev) m).

(** ** Granting *)
Inductive LayoutError :=
| NoActiveDataServers | OrphanedData | BindingWriteFailed | DeviceNotActive (id : string) | NoDevices | GrantRacedTruncate.

(** What a grant draws from outside: the attribute write's outcome, the UUID
    of a fresh identity, the random half of a stateid. *)
Record Draw := MkDraw { dr_xattr_ok : bool; dr_uuid : Z * Z; dr_other : Z }.

Definition narrow (g : VolumeGeometry) (ds : list DeviceInfo) : list DeviceInfo :=
  if 0 <? g_stripe_width g then
    if (Z.to_nat (g_stripe_width g) <? length ds)%nat then take (Z.to_nat (g_stripe_width g)) ds else ds
  else ds.

Section grant.
Context {T : Type} `{StubBinding T} (cf : LmConfig).

Definition mint_placement (key : string) (draw : Draw) (devices : list DeviceInfo) (g : VolumeGeometry)
    (m : LayoutManager) (t : T) : result LayoutError FilePlacement * LayoutManager * T :=
  let p := Placement (g_stripe_size g) (di_device_id <$> devices) (allocate_file_id (cf_shard cf) (dr_uuid draw)) in
  match stub_write (dr_xattr_ok draw) t key p with
  | None => (Err BindingWriteFailed, m, t)
  | Some t' => (Ok p, add_group cf p (upd_placements (insert key p) (put_placement p key m)), t')
  end.

Definition placement_for_grant (key : string) (draw : Draw) (m : LayoutManager) (t : T) :
    result LayoutError FilePlacement * LayoutManager * T :=
  match lm_placements m !! key with
  | Some p => (Ok p, m, t)
  | None =>
      match list_active (lm_registry m) with
      | [] => (Err NoActiveDataServers, m, t)
      | active =>
          let g := geometry_for cf key m in
          let devices := narrow g (merge_sort dev_le active) in
          match stub_read t key with
          | Some p => (Ok p, add_group cf p (upd_placements (insert key p) (put_placement p key m)), t)
          | None =>
              match stub_meta t key with
              | Some meta =>
                  if 0 <? sm_len meta then (Err OrphanedData, m, t) else mint_placement key draw devices g m t
              | None => mint_placement key draw devices g m t
              end
          end
      end
  end.

Definition placement_or_recovered (key : string) (m : LayoutManager) (t : T) : option FilePlacement * LayoutManager :=
  match lm_placements m !! key with
  | Some p => (Some p, m)
  | None =>
      match stub_read t key with
      | None => (None, m)
      | Some p => (Some p, upd_placements (insert key p) (put_placement p key m))
      end
  end.

Definition backfill_step (oks : string -> bool) (acc : nat * nat * T) (kp : string * FilePlacement) : nat * nat * T :=
  let '(written, failed, t) := acc in
  match stub_read t kp.1 with
  | Some _ => acc
  | None =>
      match stub_meta t kp.1 with
      | None => acc
      | Some _ =>
          match stub_write (oks kp.1) t kp.1 kp.2 with
          | Some t' => (S written, failed, t')
          | None => (written, S failed, t)
          end
      end
  end.
Definition backfill_stub_bindings (oks : string -> bool) (m : LayoutManager) (t : T) : nat * nat * T :=
  foldl (backfill_step oks) (0%nat, 0%nat, t) (map_to_list (lm_placements m)).

(** *** The layout *)
Definition segments_of (offset length pattern : Z) (ds : list DeviceInfo) : result LayoutError (list LayoutSegment) :=
  match ds with
  | [] => Err NoDevices
  | _ => Ok (imap (fun i d => Segment offset length IoReadWrite (di_device_id d) (wrap_u32 (Z.of_nat i)) pattern) ds)
  end.
Definition generate_roundrobin_layout (offset length : Z) : list DeviceInfo -> result LayoutError (list LayoutSegment) :=
  segments_of offset length 0.
Definition generate_stripe_layout (offset length : Z) (ds : list DeviceInfo) (size : Z) :
    result LayoutError (list LayoutSegment) :=
  let unit := Z.max size 1 in segments_of offset length (offset / unit * unit) ds.

Fixpoint pinned_devices (reg : DeviceRegistry) (ids : list string) : result LayoutError (list DeviceInfo) :=
  match ids with
  | [] => Ok []
  | id :: ids =>
      match reg !! id with
      | Some d => if bool_decide (di_status d = Active) then ds ← pinned_devices reg ids; Ok (d :: ds)
                  else Err (DeviceNotActive id)
      | None => Err (DeviceNotActive id)
      end
  end.

(** The layout a grant will publish; no state changes. *)
Definition build_layout (owner : LayoutOwner) (fh : list Z) (key : string) (offset length : Z) (iomode : IoMode)
    (draw : Draw) (p : FilePlacement) (m : LayoutManager) : result LayoutError LayoutState :=
  devices ← pinned_devices (lm_registry m) (device_ids p);
  segments ← match cf_policy cf with
             | Stripe => generate_stripe_layout offset length devices (stripe_size p)
             | RoundRobin | Locality => generate_roundrobin_layout offset length devices
             end;
  Ok (Layout (generate_stateid (dr_other draw)) owner fh (truncate_gate_key p key) segments iomode true).

(** Publish, then read the gate again. *)
Definition publish (l : LayoutState) (m : LayoutManager) : LayoutManager :=
  insert_layout l (index_file l (persist l m)).
Definition recheck_gate (l : LayoutState) (m : LayoutManager) : result LayoutError LayoutState * LayoutManager :=
  match lm_dirty m !! ly_file_ident l with
  | Some _ =>
      (Err GrantRacedTruncate,
       persist_delete (ly_stateid l) (unindex_file l (upd_layouts (delete (state_key (ly_stateid l))) m)))
  | None => (Ok l, push_owner (lo_client (ly_owner l)) (ly_stateid l) m)
  end.

Definition generate_layout (owner : LayoutOwner) (fh : list Z) (key : string) (offset length : Z) (iomode : IoMode)
    (draw : Draw) (m : LayoutManager) (t : T) : result LayoutError LayoutState * LayoutManager * T :=
  match placement_for_grant key draw m t with
  | (Err e, m1, t1) => (Err e, m1, t1)
  | (Ok p, m1, t1) =>
      match build_layout owner fh key offset length iomode draw p m1 with
      | Err e => (Err e, m1, t1)
      | Ok l => let '(r, m2) := recheck_gate l (publish l m1) in (r, m2, t1)
      end
  end.
End grant.
