(* ===== verification/PnfsLayoutInv.v ===== *)
(** The layout manager's operations as one step function, and the invariants
    of the layout table: every layout is findable by its file and by its
    owner in every reachable state, and in a run whose boot rows name each
    layout once the file index lists nothing else. *)

From Stdlib Require Import Ascii String.
From S2P Require Import Prelude Csv PnfsPlacement PnfsLayout.

(** ** Views of the two indexes *)
Definition listed {K} `{Countable K} (ix : gmap K (list LayoutStateId)) (f : K) (k : LayoutStateId) : Prop :=
  exists s, s ∈ default [] (ix !! f) /\ state_key s = k.

Lemma state_key_idem s : state_key (state_key s) = state_key s.
Proof. done. Qed.

Lemma push_id_listed {K} `{Countable K} (ix : gmap K (list LayoutStateId)) f s f' k :
  listed (push_id f s ix) f' k <-> listed ix f' k \/ (f' = f /\ k = state_key s).
Proof.
  unfold listed, push_id. destruct (decide (f' = f)) as [-> | Hne].
  - rewrite lookup_insert_eq. cbn [default from_option]. setoid_rewrite elem_of_app.
    setoid_rewrite list_elem_of_singleton. naive_solver.
  - rewrite lookup_insert_ne by done. naive_solver.
Qed.

(** Replacing an entry by the ids that pass a test, and dropping it when none
    is left. *)
Definition retain {K} `{Countable K} (p : LayoutStateId -> Prop) `{forall s, Decision (p s)} (f : K)
    (ix : gmap K (list LayoutStateId)) : gmap K (list LayoutStateId) :=
  match ix !! f with
  | None => ix
  | Some v => match filter p v with [] => delete f ix | v' => <[f := v']> ix end
  end.

Lemma retain_listed {K} `{Countable K} p `{forall s, Decision (p s)} (ix : gmap K (list LayoutStateId)) f g k :
  (forall s s', state_key s = state_key s' -> p s <-> p s') ->
  listed (retain p f ix) g k <-> listed ix g k /\ (g = f -> forall s, state_key s = k -> p s).
Proof.
  intros Hp. unfold retain, listed.
  destruct (ix !! f) as [v |] eqn:E.
  2:{ split; [| naive_solver]. intros (s & Hs & Hk). split; [eauto |]. intros ->. rewrite E in Hs. inversion Hs. }
  assert (default [] ((match filter p v with [] => delete f ix | v' => <[f := v']> ix end) !! g) =
          if decide (g = f) then filter p v else default [] (ix !! g)) as Heq.
  { destruct (decide (g = f)) as [-> | Hne]; destruct (filter p v) eqn:Ef.
    all: by rewrite ?lookup_delete_eq, ?lookup_insert_eq, ?lookup_delete_ne, ?lookup_insert_ne by done. }
  rewrite Heq. destruct (decide (g = f)) as [-> | Hne]; [| naive_solver].
  rewrite E. cbn [default from_option]. setoid_rewrite list_elem_of_filter. split.
  - intros (s & [Hps Hs] & Hk). split; [eauto |]. intros _ s' Hs'. eapply Hp; [| done]. congruence.
  - intros [(s & Hs & Hk) Hall]. exists s. eauto.
Qed.

Lemma not_key_resp s0 s s' : state_key s = state_key s' ->
  (state_key s <> state_key s0) <-> (state_key s' <> state_key s0).
Proof. intros ->. done. Qed.

(** ** Frame: what the steps of an operation leave alone *)
Lemma index_file_frame l m :
  lm_layouts (index_file l m) = lm_layouts m /\ lm_by_owner (index_file l m) = lm_by_owner m /\
  lm_revoked (index_file l m) = lm_revoked m /\ lm_backend (index_file l m) = lm_backend m /\
  lm_dirty (index_file l m) = lm_dirty m /\ lm_placements (index_file l m) = lm_placements m.
Proof. unfold index_file. by destruct (is_empty _). Qed.

Lemma unindex_file_frame l m :
  lm_layouts (unindex_file l m) = lm_layouts m /\ lm_by_owner (unindex_file l m) = lm_by_owner m /\
  lm_revoked (unindex_file l m) = lm_revoked m /\ lm_backend (unindex_file l m) = lm_backend m /\
  lm_dirty (unindex_file l m) = lm_dirty m /\ lm_placements (unindex_file l m) = lm_placements m.
Proof.
  unfold unindex_file. destruct (is_empty _); [done |]. destruct (lm_by_file m !! _); [| done].
  by destruct (filter _ _).
Qed.

Lemma drop_owner_frame c s m :
  lm_layouts (drop_owner c s m) = lm_layouts m /\ lm_by_file (drop_owner c s m) = lm_by_file m /\
  lm_revoked (drop_owner c s m) = lm_revoked m /\ lm_backend (drop_owner c s m) = lm_backend m /\
  lm_dirty (drop_owner c s m) = lm_dirty m /\ lm_placements (drop_owner c s m) = lm_placements m /\
  lm_by_owner (drop_owner c s m) = retain (fun x => state_key x <> state_key s) c (lm_by_owner m).
Proof. unfold drop_owner, retain. destruct (lm_by_owner m !! c); [| done]. by destruct (filter _ _). Qed.

Definition file_listed (m : LayoutManager) (f : string) (k : LayoutStateId) : Prop := listed (lm_by_file m) f k.
Definition owner_listed (m : LayoutManager) (c : Z) (k : LayoutStateId) : Prop := listed (lm_by_owner m) c k.

Lemma is_empty_spec s : is_empty s = true <-> s = EmptyString.
Proof. by destruct s. Qed.

Lemma index_file_listed l m f k : file_listed (index_file l m) f k <->
  file_listed m f k \/ (f <> EmptyString /\ f = ly_file_ident l /\ k = state_key (ly_stateid l)).
Proof.
  unfold index_file, file_listed. destruct (is_empty (ly_file_ident l)) eqn:E.
  - apply is_empty_spec in E. rewrite E. naive_solver.
  - cbn [lm_by_file upd_by_file]. rewrite push_id_listed, state_key_idem.
    assert (ly_file_ident l <> EmptyString) by (intros Hx; by rewrite Hx in E). naive_solver.
Qed.

(** Every id in the file index is in canonical form. *)
Definition canonical (m : LayoutManager) : Prop :=
  forall f s, s ∈ default [] (lm_by_file m !! f) -> state_key s = s.

Lemma filter_ext_in {A} (p q : A -> Prop) `{forall x, Decision (p x)} `{forall x, Decision (q x)} (l : list A) :
  (forall x, x ∈ l -> p x <-> q x) -> filter p l = filter q l.
Proof.
  induction l as [| x l IH]; intros Hpq; [done |]. rewrite !filter_cons.
  assert (p x <-> q x) as Hx by (apply Hpq; left).
  rewrite IH by (intros y Hy; apply Hpq; by right).
  destruct (decide (p x)), (decide (q x)); naive_solver.
Qed.

Lemma unindex_file_retain l m : canonical m -> is_empty (ly_file_ident l) = false ->
  lm_by_file (unindex_file l m) =
    retain (fun s => state_key s <> state_key (ly_stateid l)) (ly_file_ident l) (lm_by_file m).
Proof.
  intros Hc He. unfold unindex_file, retain. rewrite He.
  destruct (lm_by_file m !! ly_file_ident l) as [v |] eqn:E; [| done].
  assert (filter (fun s => s <> state_key (ly_stateid l)) v =
          filter (fun s => state_key s <> state_key (ly_stateid l)) v) as Hf.
  { apply filter_ext_in. intros s Hs. rewrite (Hc (ly_file_ident l) s); [done |]. by rewrite E. }
  rewrite <- Hf. by destruct (filter _ _).
Qed.

Lemma unindex_file_listed l m : canonical m -> forall g k,
  file_listed (unindex_file l m) g k <->
    file_listed m g k /\ (g <> EmptyString -> g = ly_file_ident l -> k <> state_key (ly_stateid l)).
Proof.
  intros Hc g k. destruct (is_empty (ly_file_ident l)) eqn:He.
  - unfold unindex_file. rewrite He. apply is_empty_spec in He. rewrite He. naive_solver.
  - unfold file_listed. rewrite unindex_file_retain by done. rewrite retain_listed.
    + assert (ly_file_ident l <> EmptyString) by (intros Hx; by rewrite Hx in He).
      split; intros [Hl Hk]; split; try done.
      * intros _ Hg ->. by apply (Hk Hg (state_key (ly_stateid l))).
      * intros Hg s <-. apply Hk; [by rewrite Hg | done].
    + intros s s'. apply not_key_resp.
Qed.

Lemma retain_canonical p `{forall s, Decision (p s)} (f : string) (ix : gmap string (list LayoutStateId)) g s :
  s ∈ default [] (retain p f ix !! g) -> s ∈ default [] (ix !! g).
Proof.
  unfold retain. destruct (ix !! f) as [v |] eqn:E; [| done].
  destruct (decide (g = f)) as [-> | Hne].
  - rewrite E. cbn [default from_option]. destruct (filter p v) eqn:Ef.
    + rewrite lookup_delete_eq. intros Hs. inversion Hs.
    + rewrite lookup_insert_eq. cbn [default from_option]. intros Hs. rewrite <- Ef in Hs.
      by apply list_elem_of_filter in Hs as [_ Hs].
  - destruct (filter p v); by rewrite ?lookup_delete_ne, ?lookup_insert_ne by done.
Qed.

Lemma unindex_file_canonical l m : canonical m -> canonical (unindex_file l m).
Proof.
  intros Hc f s. destruct (is_empty (ly_file_ident l)) eqn:He.
  - unfold unindex_file. rewrite He. apply Hc.
  - rewrite unindex_file_retain by done. intros Hs%retain_canonical. eauto.
Qed.

Lemma index_file_canonical l m : canonical m -> canonical (index_file l m).
Proof.
  intros Hc f s. unfold index_file. destruct (is_empty _); [apply Hc |]. cbn [lm_by_file upd_by_file]. unfold push_id.
  destruct (decide (f = ly_file_ident l)) as [-> | Hne].
  - rewrite lookup_insert_eq. cbn. rewrite elem_of_app, list_elem_of_singleton.
    intros [Hs | ->]; [by eapply Hc | done].
  - rewrite lookup_insert_ne by done. apply Hc.
Qed.

(** ** The invariant *)
(** A layout sits under the canonical form of its stateid. *)
Definition keyed (m : LayoutManager) : Prop := forall k l, lm_layouts m !! k = Some l -> k = state_key (ly_stateid l).

Record table_ok (m : LayoutManager) : Prop := {
  tk_key : keyed m;
  tk_canon : canonical m;
  tk_file k l : lm_layouts m !! k = Some l -> ly_file_ident l <> EmptyString -> file_listed m (ly_file_ident l) k;
  tk_owner k l : lm_layouts m !! k = Some l -> owner_listed m (lo_client (ly_owner l)) k;
  tk_tomb k : is_Some (lm_revoked m !! k) -> lm_layouts m !! k = None }.

(** The file index lists a layout only under the file it is for. *)
Definition file_exact (m : LayoutManager) : Prop :=
  forall f k, file_listed m f k -> f <> EmptyString /\ exists l, lm_layouts m !! k = Some l /\ ly_file_ident l = f.

(** The owner index lists a live layout only under its owner. *)
Definition owner_exact (m : LayoutManager) : Prop :=
  forall c k l, owner_listed m c k -> lm_layouts m !! k = Some l -> lo_client (ly_owner l) = c.

Definition inv (m : LayoutManager) : Prop := table_ok m /\ file_exact m /\ owner_exact m.

(** The fields the invariant reads, and the rows. *)
Definition same_table (m m' : LayoutManager) : Prop :=
  lm_layouts m' = lm_layouts m /\ lm_by_owner m' = lm_by_owner m /\ lm_by_file m' = lm_by_file m /\
  lm_revoked m' = lm_revoked m /\ be_layouts (lm_backend m') = be_layouts (lm_backend m).

#[global] Instance same_table_equiv : Equivalence same_table.
Proof.
  split; unfold same_table; [done | by intros ?? (?&?&?&?&?) |].
  intros ??? (?&?&?&?&?) (?&?&?&?&?). repeat split; congruence.
Qed.

Lemma same_table_ok m m' : same_table m m' -> table_ok m -> table_ok m'.
Proof.
  intros (HL & HO & HF & HR & _) [K C F O T].
  split; unfold keyed, canonical, file_listed, owner_listed in *; rewrite ?HL, ?HO, ?HF, ?HR; auto.
Qed.
Lemma same_table_exact m m' : same_table m m' -> file_exact m -> file_exact m'.
Proof. intros (HL & HO & HF & HR & _). unfold file_exact, file_listed. by rewrite HL, HF. Qed.
Lemma same_table_owner m m' : same_table m m' -> owner_exact m -> owner_exact m'.
Proof. intros (HL & HO & HF & HR & _). unfold owner_exact, owner_listed. by rewrite HL, HO. Qed.

(** *** Adding a layout *)
Definition added (l : LayoutState) (m m' : LayoutManager) : Prop :=
  lm_layouts m' = <[state_key (ly_stateid l) := l]> (lm_layouts m) /\
  lm_by_file m' = lm_by_file (index_file l m) /\
  lm_by_owner m' = push_id (lo_client (ly_owner l)) (ly_stateid l) (lm_by_owner m) /\
  lm_revoked m' = lm_revoked m.

Lemma added_ok l m m' : added l m m' -> lm_revoked m !! state_key (ly_stateid l) = None -> table_ok m -> table_ok m'.
Proof.
  intros (HL & HF & HO & HR) Hfresh [K C F O T].
  assert (forall f k, file_listed m' f k <->
    file_listed m f k \/ (f <> EmptyString /\ f = ly_file_ident l /\ k = state_key (ly_stateid l))) as HFl.
  { intros f k. unfold file_listed at 1. rewrite HF. apply index_file_listed. }
  assert (forall c k, owner_listed m' c k <->
    owner_listed m c k \/ (c = lo_client (ly_owner l) /\ k = state_key (ly_stateid l))) as HOl.
  { intros c k. unfold owner_listed. rewrite HO. apply push_id_listed. }
  split.
  - intros k l'. rewrite HL. intros [[<- <-] | [_ ?]]%lookup_insert_Some; eauto.
  - intros f s. rewrite HF. by apply index_file_canonical.
  - intros k l'. rewrite HL, HFl. intros [[<- <-] | [_ ?]]%lookup_insert_Some; eauto.
  - intros k l'. rewrite HL, HOl. intros [[<- <-] | [_ ?]]%lookup_insert_Some; eauto.
  - intros k. rewrite HR, HL. intros Hk. rewrite lookup_insert_ne; [by apply T |].
    intros <-. rewrite Hfresh in Hk. by destruct Hk.
Qed.

Lemma added_exact l m m' : added l m m' -> lm_layouts m !! state_key (ly_stateid l) = None ->
  file_exact m -> file_exact m'.
Proof.
  intros (HL & HF & HO & HR) Hnew He f k Hfk. rewrite HL.
  unfold file_listed in Hfk. rewrite HF in Hfk. apply index_file_listed in Hfk as [Hfk | (Hf & -> & ->)].
  - destruct (He f k Hfk) as [Hf (l' & Hl' & Hi)]. split; [done |]. exists l'.
    rewrite lookup_insert_ne by congruence. done.
  - split; [done |]. exists l. by rewrite lookup_insert_eq.
Qed.

(** *** Removing one *)
Definition removed (s : LayoutStateId) (l : LayoutState) (m m' : LayoutManager) : Prop :=
  lm_layouts m !! state_key s = Some l /\
  lm_layouts m' = delete (state_key s) (lm_layouts m) /\
  lm_by_file m' = lm_by_file (unindex_file l m) /\
  (forall c k, owner_listed m c k -> k <> state_key s -> owner_listed m' c k) /\
  (forall c k, owner_listed m' c k -> owner_listed m c k) /\
  (forall k, is_Some (lm_revoked m' !! k) -> is_Some (lm_revoked m !! k) \/ k = state_key s).

Lemma removed_ok s l m m' : removed s l m m' -> table_ok m -> table_ok m'.
Proof.
  intros (Hl & HL & HF & HO & _ & HR) Hm. destruct Hm as [K C F O T].
  assert (state_key s = state_key (ly_stateid l)) as Hkey by eauto.
  split.
  - intros k l'. rewrite HL. intros [_ ?]%lookup_delete_Some. eauto.
  - intros f x. rewrite HF. by apply unindex_file_canonical.
  - intros k l'. rewrite HL. intros [Hne Hl']%lookup_delete_Some Hi. unfold file_listed. rewrite HF.
    apply unindex_file_listed; [done |]. split; [by apply F |]. intros _ _ ->. congruence.
  - intros k l'. rewrite HL. intros [Hne Hl']%lookup_delete_Some. apply HO; [by apply O | done].
  - intros k. rewrite HL. intros [Hk | ->]%HR; [| apply lookup_delete_eq].
    destruct (decide (k = state_key s)) as [-> |]; [apply lookup_delete_eq |]. rewrite lookup_delete_ne by done. auto.
Qed.

Lemma removed_exact s l m m' : removed s l m m' -> table_ok m -> file_exact m -> file_exact m'.
Proof.
  intros (Hl & HL & HF & _) Hm He f k Hfk. unfold file_listed in Hfk. rewrite HF in Hfk.
  apply unindex_file_listed in Hfk as [Hfk Hne]; [| apply Hm].
  destruct (He f k Hfk) as [Hf (l' & Hl' & Hi)]. split; [done |]. exists l'. rewrite HL.
  rewrite lookup_delete_ne; [done |]. intros <-. assert (l' = l) as -> by congruence.
  apply (Hne Hf); [done |]. symmetry. symmetry. eapply tk_key; eauto.
Qed.

(** *** Changing one in place *)
Definition changed (k : LayoutStateId) (l l' : LayoutState) (m m' : LayoutManager) : Prop :=
  lm_layouts m !! k = Some l /\ lm_layouts m' = <[k := l']> (lm_layouts m) /\
  state_key (ly_stateid l') = k /\ ly_file_ident l' = ly_file_ident l /\ ly_owner l' = ly_owner l /\
  lm_by_file m' = lm_by_file m /\ lm_by_owner m' = lm_by_owner m /\ lm_revoked m' = lm_revoked m.

Lemma changed_ok k l l' m m' : changed k l l' m m' -> table_ok m -> table_ok m'.
Proof.
  intros (Hl & HL & Hk & Hi & Ho & HF & HO & HR) [K C F O T].
  split; unfold keyed, canonical, file_listed, owner_listed in *; rewrite ?HL, ?HF, ?HO, ?HR.
  - intros k' x. intros [[<- <-] | [_ ?]]%lookup_insert_Some; eauto.
  - done.
  - intros k' x. intros [[<- <-] | [_ ?]]%lookup_insert_Some; [rewrite Hi |]; eauto.
  - intros k' x. intros [[<- <-] | [_ ?]]%lookup_insert_Some; [rewrite Ho |]; eauto.
  - intros k' Hr. rewrite lookup_insert_ne; [by apply T |]. intros <-. rewrite (T k Hr) in Hl. done.
Qed.

Lemma changed_exact k l l' m m' : changed k l l' m m' -> file_exact m -> file_exact m'.
Proof.
  intros (Hl & HL & Hk & Hi & Ho & HF & HO & HR) He f k'. unfold file_listed. rewrite HF, HL. intros Hfk.
  destruct (He f k' Hfk) as [Hf (x & Hx & Hix)]. split; [done |].
  destruct (decide (k' = k)) as [-> | Hne].
  - exists l'. rewrite lookup_insert_eq. split; [done |]. congruence.
  - exists x. by rewrite lookup_insert_ne.
Qed.

(** The owner side of each. *)
Lemma added_owner l m m' : added l m m' -> (forall c, ~ owner_listed m c (state_key (ly_stateid l))) ->
  owner_exact m -> owner_exact m'.
Proof.
  intros (HL & HF & HO & HR) Hnew He c k x. unfold owner_listed. rewrite HL, HO, push_id_listed.
  intros [Hc | [-> ->]]; [| by rewrite lookup_insert_eq; intros [= <-]].
  destruct (decide (k = state_key (ly_stateid l))) as [-> | Hne]; [by destruct (Hnew c) |].
  rewrite lookup_insert_ne by done. by apply He.
Qed.
Lemma removed_owner s l m m' : removed s l m m' -> owner_exact m -> owner_exact m'.
Proof.
  intros (Hl & HL & _ & _ & HO & _) He c k x Hc. rewrite HL. intros [_ Hx]%lookup_delete_Some. eauto.
Qed.
Lemma changed_owner k l l' m m' : changed k l l' m m' -> owner_exact m -> owner_exact m'.
Proof.
  intros (Hl & HL & _ & _ & Ho & _ & HO & _) He c k' x. unfold owner_listed. rewrite HL, HO. intros Hc.
  intros [[<- <-] | [_ Hx]]%lookup_insert_Some; [rewrite Ho |]; eauto.
Qed.

(** *** Moving one to another file, and a grant that was taken back *)
Definition rekeyed (k : LayoutStateId) (l : LayoutState) (new : string) (m m' : LayoutManager) : Prop :=
  lm_layouts m !! k = Some l /\ lm_layouts m' = <[k := set_ident new l]> (lm_layouts m) /\
  lm_by_file m' = lm_by_file (index_file (set_ident new l) (unindex_file l m)) /\
  lm_by_owner m' = lm_by_owner m /\ lm_revoked m' = lm_revoked m.

Lemma rekeyed_listed k l new m m' : rekeyed k l new m m' -> table_ok m -> forall f x,
  file_listed m' f x <->
    (file_listed m f x /\ (f <> EmptyString -> f = ly_file_ident l -> x <> k)) \/ (f <> EmptyString /\ f = new /\ x = k).
Proof.
  intros (Hl & HL & HF & HO & HR) Hm f x. unfold file_listed at 1. rewrite HF.
  etransitivity; [apply index_file_listed |]. cbn [ly_file_ident ly_stateid set_ident].
  rewrite unindex_file_listed by apply Hm. by rewrite <- (tk_key _ Hm _ _ Hl).
Qed.

Lemma rekeyed_ok k l new m m' : rekeyed k l new m m' -> table_ok m -> table_ok m'.
Proof.
  intros Hr Hm. pose proof (rekeyed_listed _ _ _ _ _ Hr Hm) as Hv. destruct Hr as (Hl & HL & HF & HO & HR).
  split.
  - intros k' x. rewrite HL. intros [[<- <-] | [_ ?]]%lookup_insert_Some; cbn; eapply tk_key; eauto.
  - intros f s. rewrite HF. apply index_file_canonical, unindex_file_canonical, Hm.
  - intros k' x. rewrite HL, Hv. intros [[<- <-] | [Hne Hx]]%lookup_insert_Some Hi; [by right |].
    left. split; [by eapply tk_file |]. congruence.
  - intros k' x. unfold owner_listed. rewrite HL, HO.
    intros [[<- <-] | [_ ?]]%lookup_insert_Some; cbn; eapply tk_owner; eauto.
  - intros k'. rewrite HR, HL. intros Hk'. pose proof (tk_tomb _ Hm _ Hk'). rewrite lookup_insert_ne; congruence.
Qed.

Lemma rekeyed_exact k l new m m' : rekeyed k l new m m' -> table_ok m -> file_exact m -> file_exact m'.
Proof.
  intros Hr Hm He f x. rewrite (rekeyed_listed _ _ _ _ _ Hr Hm). destruct Hr as (Hl & HL & HF & HO & HR).
  rewrite HL. intros [[Hfx Hne] | (Hf & -> & ->)].
  - destruct (He f x Hfx) as [Hf (y & Hy & Hi)]. split; [done |]. exists y.
    rewrite lookup_insert_ne; [done |]. intros <-. apply (Hne Hf); [| done]. congruence.
  - split; [done |]. eexists. by rewrite lookup_insert_eq.
Qed.

Lemma rekeyed_owner k l new m m' : rekeyed k l new m m' -> owner_exact m -> owner_exact m'.
Proof.
  intros (Hl & HL & _ & HO & _) He c k' x. unfold owner_listed. rewrite HL, HO. intros Hc.
  intros [[<- <-] | [_ Hx]]%lookup_insert_Some; cbn; eauto.
Qed.

(** The table after a publish that the gate made the grant take back. *)
Definition raced (l : LayoutState) (m m' : LayoutManager) : Prop :=
  lm_layouts m !! state_key (ly_stateid l) = None /\
  lm_layouts m' = lm_layouts m /\ lm_by_file m' = lm_by_file (unindex_file l (index_file l m)) /\
  lm_by_owner m' = lm_by_owner m /\ lm_revoked m' = lm_revoked m.

Lemma raced_listed l m m' : raced l m m' -> canonical m -> forall f x,
  file_listed m' f x <-> file_listed m f x /\ (f <> EmptyString -> f = ly_file_ident l -> x <> state_key (ly_stateid l)).
Proof.
  intros (Hnew & HL & HF & HO & HR) Hc f x. unfold file_listed at 1. rewrite HF.
  etransitivity; [apply unindex_file_listed, index_file_canonical, Hc |]. rewrite index_file_listed. naive_solver.
Qed.

Lemma raced_ok l m m' : raced l m m' -> table_ok m -> table_ok m'.
Proof.
  intros Hr Hm. pose proof (raced_listed _ _ _ Hr (tk_canon _ Hm)) as Hv. destruct Hr as (Hnew & HL & HF & HO & HR).
  destruct Hm as [K C F O T]. split; unfold keyed, owner_listed in *; rewrite ?HL, ?HO, ?HR; auto.
  - intros f s. rewrite HF. by apply unindex_file_canonical, index_file_canonical.
  - intros k x Hx Hi. apply Hv. split; [by apply F |]. intros _ _ ->. congruence.
Qed.

Lemma raced_exact l m m' : raced l m m' -> table_ok m -> file_exact m -> file_exact m'.
Proof.
  intros Hr Hm He f x. rewrite (raced_listed _ _ _ Hr (tk_canon _ Hm)). destruct Hr as (Hnew & HL & HF & HO & HR).
  rewrite HL. intros [Hfx _]. by apply He.
Qed.

(** ** Transitions *)
Inductive trans (m m' : LayoutManager) : Prop :=
| tr_same : same_table m m' -> trans m m'
| tr_tomb k : lm_layouts m' = lm_layouts m -> lm_by_file m' = lm_by_file m -> lm_by_owner m' = lm_by_owner m ->
    lm_revoked m' = delete k (lm_revoked m) -> trans m m'
| tr_add l : added l m m' -> lm_layouts m !! state_key (ly_stateid l) = None ->
    lm_revoked m !! state_key (ly_stateid l) = None -> (forall c, ~ owner_listed m c (state_key (ly_stateid l))) ->
    trans m m'
| tr_remove s l : removed s l m m' -> trans m m'
| tr_change k l l' : changed k l l' m m' -> trans m m'
| tr_rekey k l new : rekeyed k l new m m' -> trans m m'
| tr_raced l : raced l m m' -> trans m m'.

Lemma tomb_ok k m m' : lm_layouts m' = lm_layouts m -> lm_by_file m' = lm_by_file m ->
  lm_by_owner m' = lm_by_owner m -> lm_revoked m' = delete k (lm_revoked m) -> table_ok m -> table_ok m'.
Proof.
  intros HL HF HO HR [K C F O T]. split; unfold keyed, canonical, file_listed, owner_listed in *; rewrite ?HL, ?HF, ?HO; auto.
  intros k'. rewrite HR. intros [x [_ Hx]%lookup_delete_Some]. apply T. by eexists.
Qed.

Lemma trans_ok m m' : trans m m' -> table_ok m -> table_ok m'.
Proof.
  intros []; eauto using same_table_ok, tomb_ok, added_ok, removed_ok, changed_ok, rekeyed_ok, raced_ok.
Qed.
Lemma trans_inv m m' : trans m m' -> inv m -> inv m'.
Proof.
  intros Ht (Hk & He & Ho). split; [by eapply trans_ok |]. split.
  - destruct Ht as [| k HL HF | | | | |];
      eauto using same_table_exact, added_exact, removed_exact, changed_exact, rekeyed_exact, raced_exact.
    intros f x. unfold file_listed. rewrite HF, HL. apply He.
  - destruct Ht as [| k HL HF HO | | | | | l (_ & HL & _ & HO & _)];
      eauto using same_table_owner, added_owner, removed_owner, changed_owner, rekeyed_owner.
    all: intros c x y; unfold owner_listed; rewrite HO, HL; apply Ho.
Qed.

Lemma rtc_ok m m' : rtc trans m m' -> table_ok m -> table_ok m'.
Proof. induction 1; eauto using trans_ok. Qed.
Lemma rtc_inv m m' : rtc trans m m' -> inv m -> inv m'.
Proof. induction 1; eauto using trans_inv. Qed.
Lemma rtc_same m m' : same_table m m' -> rtc trans m m'.
Proof. intros. apply rtc_once. by apply tr_same. Qed.

(** A fold whose every step is a run of transitions is one. *)
Lemma rtc_foldl {A X} (f : A -> X -> A) (proj : A -> LayoutManager) :
  (forall a x, table_ok (proj a) -> rtc trans (proj a) (proj (f a x))) ->
  forall l a, table_ok (proj a) -> rtc trans (proj a) (proj (foldl f a l)).
Proof.
  intros Hf l. induction l as [| x l IH]; intros a Ha; [done |]. cbn.
  etrans; [by apply Hf |]. apply IH. by eapply rtc_ok; [apply Hf |].
Qed.

Lemma same_foldl {A X} (f : A -> X -> A) (proj : A -> LayoutManager) :
  (forall a x, same_table (proj a) (proj (f a x))) -> forall l a, same_table (proj a) (proj (foldl f a l)).
Proof. intros Hf l. induction l as [| x l IH]; intros a; [done |]. cbn. etrans; [apply Hf | apply IH]. Qed.
