(* ===== verification/PnfsLayoutReach.v ===== *)
(** Every operation of the layout manager is a run of the table transitions,
    hence the invariant of every reachable state; what the lookups then
    answer: the writers of a file, the layouts of a client. *)

From Stdlib Require Import Ascii String.
From S2P Require Import Prelude Csv PnfsPlacement PnfsLayout PnfsLayoutInv.

Create HintDb table.
#[export] Hint Resolve rtc_same : table.

Ltac same := solve [apply rtc_same; by repeat split | by repeat split].

(** ** Operations that leave the table alone *)
Lemma persist_gate_same g p s m : same_table m (persist_gate g p s m).
Proof. unfold persist_gate. destruct (find_first _ _) as [[k q] |]; same. Qed.
Lemma mark_same now unix g z m : same_table m (mark_truncate_dirty now unix g z m).
Proof.
  unfold mark_truncate_dirty. destruct (lm_dirty m !! g); (etrans; [| apply persist_gate_same]); same.
Qed.
Lemma clear_if_same g z m : same_table m (clear_truncate_dirty_if g z m).2.
Proof.
  unfold clear_truncate_dirty_if. destruct (lm_dirty m !! g) as [x |]; [| done].
  destruct (z <=? gm_min x); [| done]. etrans; [| apply persist_gate_same]. same.
Qed.
Lemma clear_same g m : same_table m (clear_truncate_dirty g m).
Proof. etrans; [| apply persist_gate_same]. same. Qed.
Lemma forget_same k m : same_table m (forget_placement k m).2.
Proof. unfold forget_placement. destruct (lm_placements m !! k); same. Qed.
Lemma forget_under_same d m : same_table m (forget_placements_under d m).2.
Proof.
  apply (same_foldl forget_step snd). intros [ps a] k. unfold forget_step. cbn [fst snd].
  pose proof (forget_same k a). by destruct (forget_placement k a) as [[p |] a'].
Qed.
Lemma rename_same old new m : same_table m (rename_placement old new m).2.
Proof.
  unfold rename_placement. destruct (placement_for old m) as [p |]; [| done].
  destruct (file_id p =? 0); [done |]. pose proof (forget_same new m) as H.
  destruct (forget_placement new m) as [o m1]. cbn [snd] in *. etrans; [exact H |]. same.
Qed.
Lemma rename_under_same old new m : same_table m (rename_placements_under old new m).2.
Proof.
  apply (same_foldl (rename_step old new) snd). intros [n a] k. unfold rename_step.
  destruct (strip_prefix _ k) as [suffix |]; [| done]. cbn [snd].
  pose proof (rename_same k (String.append (under_prefix new) suffix) a).
  by destruct (rename_placement _ _ a) as [[] a'].
Qed.
Lemma add_group_same cf p m : same_table m (add_group cf p m).
Proof. unfold add_group. destruct (lm_groups m !! _); same. Qed.
Lemma load_placement_same cf now unix m r : same_table m (load_placement_record cf now unix m r).
Proof.
  unfold load_placement_record. etrans; [apply add_group_same |].
  destruct (pr_truncate_pending r); same.
Qed.
Lemma cleanup_same p m : same_table m (enqueue_stripe_cleanup p m).
Proof.
  unfold enqueue_stripe_cleanup. destruct (file_id p =? 0); [done |].
  apply (same_foldl _ (fun m => m)). intros a x. same.
Qed.
Lemma legacy_cleanup_same p rel m : same_table m (enqueue_legacy_cleanup p rel m).
Proof. apply (same_foldl _ (fun m => m)). intros a x. same. Qed.

Section grants.
Context {T : Type} `{StubBinding T} (cf : LmConfig).

Lemma grant_placement_same key draw m (t : T) : same_table m (placement_for_grant cf key draw m t).1.2.
Proof.
  unfold placement_for_grant. destruct (lm_placements m !! key); [done |].
  destruct (list_active _) as [| d ds]; [done |].
  destruct (stub_read t key); [cbn; etrans; [| apply add_group_same]; same |].
  assert (forall devs g, same_table m (mint_placement cf key draw devs g m t).1.2) as Hmint.
  { intros devs g. unfold mint_placement. destruct (stub_write _ _ _ _); [| done].
    cbn. etrans; [| apply add_group_same]. same. }
  destruct (stub_meta t key) as [meta |]; [destruct (0 <? sm_len meta) |]; auto. done.
Qed.

Lemma recovered_same key m (t : T) : same_table m (placement_or_recovered key m t).2.
Proof.
  unfold placement_or_recovered. destruct (lm_placements m !! key); [done |]. destruct (stub_read t key); same.
Qed.

(** ** Operations on the table *)
Definition fresh_id (random : Z) (m : LayoutManager) : Prop :=
  lm_layouts m !! generate_stateid random = None /\ lm_revoked m !! generate_stateid random = None /\
  forall c, ~ owner_listed m c (generate_stateid random).

Lemma build_layout_facts owner fh key off len io draw p m l :
  build_layout cf owner fh key off len io draw p m = Ok l ->
  ly_stateid l = generate_stateid (dr_other draw) /\ ly_owner l = owner /\ ly_file_ident l = truncate_gate_key p key /\
  ly_iomode l = io /\ ly_filehandle l = fh /\ ly_return_on_close l = true.
Proof.
  unfold build_layout. intros (ds & _ & H1)%bind_Ok. apply bind_Ok in H1 as (segs & _ & H1). by simplify_eq.
Qed.

Lemma generate_trans owner fh key off len io draw m (t : T) : fresh_id (dr_other draw) m -> 
  rtc trans m (generate_layout cf owner fh key off len io draw m t).1.2.
Proof.
  intros (HfL & HfR & HfO). unfold generate_layout. pose proof (grant_placement_same key draw m t) as Hs.
  destruct (placement_for_grant cf key draw m t) as [[[p | e] m1] t1]; cbn [fst snd] in *; [| by apply rtc_same].
  etrans; [by apply rtc_same |]. destruct Hs as (HL & HO & HF & HR & _). unfold owner_listed in HfO. rewrite <- HL in HfL. rewrite <- HR in HfR. rewrite <- HO in HfO.
  destruct (build_layout _ _ _ _ _ _ _ _ _ _) as [l | e] eqn:Hb; [| done].
  apply build_layout_facts in Hb as (Hid & _).
  assert (lm_layouts m1 !! state_key (ly_stateid l) = None) as Hn by (by rewrite Hid).
  destruct (index_file_frame l (persist l m1)) as (E1 & E2 & E3 & _).
  unfold recheck_gate. destruct (lm_dirty _ !! _); cbn [fst snd]; apply rtc_once.
  - apply (tr_raced _ _ l). set (m2 := upd_layouts (delete (state_key (ly_stateid l))) (publish l m1)).
    destruct (unindex_file_frame l m2) as (G1 & G2 & G3 & _). repeat split; [done | | | |].
    + cbn [lm_layouts persist_delete enqueue_write]. rewrite G1. subst m2. unfold publish, insert_layout.
      cbn [lm_layouts upd_layouts]. rewrite E1. cbn [lm_layouts persist enqueue_write].
      rewrite delete_insert_eq. by apply delete_id.
    + cbn [lm_by_file persist_delete enqueue_write].
      assert (lm_by_file m2 = lm_by_file (index_file l m1)) as Hbf.
      { subst m2. unfold publish, insert_layout, index_file, persist, enqueue_write. by destruct (is_empty _). }
      unfold unindex_file. destruct (is_empty (ly_file_ident l)); [done |]. rewrite <- Hbf.
      destruct (lm_by_file m2 !! _); [| done]. destruct (filter _ _); cbn [lm_by_file upd_by_file]; by rewrite Hbf.
    + cbn [lm_by_owner persist_delete enqueue_write]. rewrite G2. subst m2. unfold publish, insert_layout.
      cbn [lm_by_owner upd_layouts]. by rewrite E2.
    + cbn [lm_revoked persist_delete enqueue_write]. rewrite G3. subst m2. unfold publish, insert_layout.
      cbn [lm_revoked upd_layouts]. by rewrite E3.
  - apply (tr_add _ _ l); [| done | by rewrite Hid | by rewrite Hid]. unfold publish, push_owner, insert_layout. repeat split; cbn.
    + by rewrite E1.
    + unfold index_file. by destruct (is_empty _).
    + by rewrite E2.
    + by rewrite E3.
Qed.
End grants.

Lemma register_scsi_trans owner fh key io random m : fresh_id random m ->
  rtc trans m (register_scsi_layout owner fh key io random m).2.
Proof.
  intros (HL & HR & HO). unfold register_scsi_layout. cbn [snd].
  set (l := Layout _ _ _ _ _ _ _). destruct (index_file_frame l (persist l m)) as (E1 & E2 & E3 & _).
  apply rtc_once, (tr_add _ _ l); [| done | done | done]. repeat split; cbn.
  - by rewrite E1.
  - unfold index_file. by destruct (is_empty _).
  - by rewrite E2.
  - by rewrite E3.
Qed.

Lemma rekey_one_trans new acc s : table_ok acc.2 -> rtc trans acc.2 (rekey_one new acc s).2.
Proof.
  intros Hm. unfold rekey_one. destruct (lm_layouts acc.2 !! state_key s) as [l |] eqn:El; [| done]. cbn [snd].
  set (l' := set_ident new l). destruct (unindex_file_frame l acc.2) as (G1 & G2 & G3 & _).
  destruct (index_file_frame l' (upd_layouts (insert (state_key s) l') (unindex_file l acc.2))) as (E1 & E2 & E3 & _).
  apply rtc_once, (tr_rekey _ _ (state_key s) l new). repeat split; cbn; [done | | | |].
  - rewrite E1. cbn. by rewrite G1.
  - unfold index_file. by destruct (is_empty _).
  - rewrite E2. exact G2.
  - rewrite E3. exact G3.
Qed.
Lemma rekey_trans old new m : table_ok m -> rtc trans m (rekey_scsi_layouts old new m).2.
Proof. intros Hm. exact (rtc_foldl (rekey_one new) snd (rekey_one_trans new) _ (0%nat, m) Hm). Qed.

(** What a removal leaves of the owner index. *)
Lemma drop_owner_keeps c s m c' k : owner_listed m c' k -> k <> state_key s -> owner_listed (drop_owner c s m) c' k.
Proof.
  intros Hl Hk. unfold owner_listed. destruct (drop_owner_frame c s m) as (_ & _ & _ & _ & _ & _ & ->).
  apply retain_listed; [apply not_key_resp |]. split; [done |]. intros _ x <-. done.
Qed.

(** The table without [s], its file index included. *)
Lemma cut_frame s l m : let m1 := unindex_file l (upd_layouts (delete (state_key s)) m) in
  lm_layouts m1 = delete (state_key s) (lm_layouts m) /\ lm_by_owner m1 = lm_by_owner m /\
  lm_revoked m1 = lm_revoked m /\ lm_by_file m1 = lm_by_file (unindex_file l m).
Proof.
  destruct (unindex_file_frame l (upd_layouts (delete (state_key s)) m)) as (G1 & G2 & G3 & _).
  repeat split; [done | done | done |]. unfold unindex_file. destruct (is_empty _); [done |].
  cbn [lm_by_file upd_layouts]. destruct (lm_by_file m !! _); [| done]. by destruct (filter _ _).
Qed.

Lemma drop_owner_from c s m c' k : owner_listed (drop_owner c s m) c' k -> owner_listed m c' k.
Proof.
  unfold owner_listed. destruct (drop_owner_frame c s m) as (_ & _ & _ & _ & _ & _ & ->).
  intros [H _]%retain_listed; [done |]. apply not_key_resp.
Qed.

Lemma return_trans s m : rtc trans m (return_layout s m).2.
Proof.
  unfold return_layout. destruct (lm_revoked m !! state_key s); [apply rtc_once; by eapply tr_tomb |].
  destruct (lm_layouts m !! state_key s) as [l |] eqn:El; [| done]. cbn [snd].
  destruct (cut_frame s l m) as (G1 & G2 & G3 & G4). set (m1 := unindex_file l (upd_layouts _ m)) in *.
  destruct (drop_owner_frame (lo_client (ly_owner l)) s m1) as (E1 & E2 & E3 & _).
  apply rtc_once, (tr_remove _ _ s l). split; [done |]. repeat split; cbn.
  - by rewrite E1, G1.
  - by rewrite E2.
  - intros c k Hc Hk. unfold owner_listed. cbn. apply drop_owner_keeps; [| done].
    unfold owner_listed. by rewrite G2.
  - intros c k Hc. apply drop_owner_from in Hc. unfold owner_listed in *. by rewrite <- G2.
  - intros k. rewrite E3, G3. by left.
Qed.

Lemma revoke_trans now s m : rtc trans m (revoke_layout now s m).2.
Proof.
  unfold revoke_layout. destruct (lm_layouts m !! state_key s) as [l |] eqn:El; [| done]. cbn [snd].
  destruct (cut_frame s l m) as (G1 & G2 & G3 & G4). set (m1 := unindex_file l (upd_layouts _ m)) in *.
  set (m2 := upd_revoked _ m1). destruct (drop_owner_frame (lo_client (ly_owner l)) s m2) as (E1 & E2 & E3 & _).
  apply rtc_once, (tr_remove _ _ s l). split; [done |]. repeat split; cbn.
  - by rewrite E1, <- G1.
  - by rewrite E2.
  - intros c k Hc Hk. unfold owner_listed. cbn. apply drop_owner_keeps; [| done].
    unfold owner_listed. cbn. by rewrite G2.
  - intros c k Hc. apply drop_owner_from in Hc. unfold owner_listed in *. cbn in Hc. by rewrite <- G2.
  - intros k. rewrite E3. subst m2. cbn. intros [t Ht].
    apply lookup_insert_Some in Ht as [[<- _] | [_ Ht]]; [by right |].
    unfold prune_revoked in Ht. apply map_lookup_filter_Some in Ht as [Ht _]. left. rewrite G3 in Ht. by eexists.
Qed.

Lemma take_trans s m : rtc trans m (take_scsi_layout s m).2.
Proof.
  unfold take_scsi_layout. destruct (lm_layouts m !! state_key s) as [l |] eqn:El; [| done]. cbn [snd].
  destruct (cut_frame s l m) as (HL & HO & HR & HF). set (m1 := persist_delete s _).
  change (lm_by_owner m1) with (lm_by_owner (unindex_file l (upd_layouts (delete (state_key s)) m))).
  apply rtc_once, (tr_remove _ _ s l). split; [done |].
  rewrite HO. destruct (lm_by_owner m !! lo_client (ly_owner l)) as [v |] eqn:Ev; repeat split; cbn; rewrite ?HL, ?HR; auto.
  - intros c k (x & Hx & Hk) Hne. exists x. split; [| done]. subst m1. cbn. rewrite HO.
    destruct (decide (c = lo_client (ly_owner l))) as [-> |]; [| by rewrite lookup_insert_ne].
    rewrite lookup_insert_eq. cbn. rewrite Ev in Hx. apply list_elem_of_filter. split; [| done].
    intros ->. done.
  - intros c k (x & Hx & Hk). exists x. split; [| done]. subst m1. cbn in Hx. rewrite HO in Hx.
    destruct (decide (c = lo_client (ly_owner l))) as [-> |]; [| by rewrite lookup_insert_ne in Hx].
    rewrite lookup_insert_eq in Hx. cbn in Hx. rewrite Ev. by apply list_elem_of_filter in Hx as [_ Hx].
  - intros c k Hc _. unfold owner_listed in *. subst m1. cbn. by rewrite HO.
  - intros c k. unfold owner_listed. subst m1. cbn. by rewrite HO.
Qed.

Lemma return_each_trans ids m : table_ok m -> rtc trans m (return_each ids m).
Proof. intros. apply (rtc_foldl _ (fun m => m)); [| done]. intros. apply return_trans. Qed.

Lemma bump_trans k m : table_ok m -> rtc trans m (bump_recall_stateid k m).2.
Proof.
  intros Hm. unfold bump_recall_stateid. destruct (lm_layouts m !! k) as [l |] eqn:El; [| done]. cbn [snd].
  apply rtc_once. set (l' := set_stateid _ l). apply (tr_change _ _ k l l'). repeat split; try done.
  cbn. rewrite (tk_key _ Hm _ _ El). done.
Qed.
Lemma bump_step_trans acc k : table_ok acc.2 -> rtc trans acc.2 (bump_step acc k).2.
Proof.
  intros Hm. unfold bump_step. pose proof (bump_trans k acc.2 Hm). by destruct (bump_recall_stateid k acc.2) as [[] ?].
Qed.
Lemma recall_device_trans d m : table_ok m -> rtc trans m (recall_layouts_for_device d m).2.
Proof.
  intros Hm. unfold recall_layouts_for_device. cbn [snd].
  exact (rtc_foldl bump_step snd bump_step_trans _ ([], m) Hm).
Qed.
Lemma recall_file_trans f m : table_ok m -> rtc trans m (recall_layouts_for_file f m).2.
Proof.
  intros Hm. unfold recall_layouts_for_file. destruct (is_empty f); [done |].
  exact (rtc_foldl bump_step snd bump_step_trans _ ([], m) Hm).
Qed.

(** ** The step function *)
Inductive LmOp :=
| OpGrant (owner : LayoutOwner) (fh : list Z) (key : string) (offset length : Z) (iomode : IoMode) (draw : Draw)
| OpRegisterScsi (owner : LayoutOwner) (fh : list Z) (key : string) (iomode : IoMode) (random : Z)
| OpRekey (old new : string) | OpTake (s : LayoutStateId) | OpReturn (s : LayoutStateId)
| OpRevoke (now : Z) (s : LayoutStateId) | OpReturnAll (client : Z) | OpReturnFsid (client fsid : Z)
| OpRecallDevice (dev : string) | OpRecallFile (ident : string)
| OpMark (now unix : Z) (gate : string) (size : Z) | OpConfirm (gate : string) (size : Z) | OpClear (gate : string)
| OpForget (key : string) | OpForgetUnder (dir : string) | OpRename (old new : string) | OpRenameUnder (old new : string)
| OpRecover (key : string) | OpCleanup (p : FilePlacement) | OpLegacyCleanup (p : FilePlacement) (rel : string)
| OpDrain (dev : string) | OpRegistry (f : DeviceRegistry -> DeviceRegistry)
| OpSetGeometry (ok : bool) (volume : string) (req : VolumeGeometry) | OpForgetGeometry (volume : string)
| OpNoteFetch (volume : string) (client mask : Z) | OpForgetNotify (volume : string).

Section reach.
Context {T : Type} `{StubBinding T} (cf : LmConfig).

Definition exec (op : LmOp) (st : LayoutManager * T) : LayoutManager * T :=
  let (m, t) := st in
  match op with
  | OpGrant o fh key off len io dr => let '(_, m', t') := generate_layout cf o fh key off len io dr m t in (m', t')
  | OpRegisterScsi o fh key io r => ((register_scsi_layout o fh key io r m).2, t)
  | OpRekey old new => ((rekey_scsi_layouts old new m).2, t)
  | OpTake s => ((take_scsi_layout s m).2, t)
  | OpReturn s => ((return_layout s m).2, t)
  | OpRevoke now s => ((revoke_layout now s m).2, t)
  | OpReturnAll c => ((return_all_for_client c m).2, t)
  | OpReturnFsid c f => ((return_fsid_for_client c f m).2, t)
  | OpRecallDevice d => ((recall_layouts_for_device d m).2, t)
  | OpRecallFile f => ((recall_layouts_for_file f m).2, t)
  | OpMark now unix g z => (mark_truncate_dirty now unix g z m, t)
  | OpConfirm g z => ((clear_truncate_dirty_if g z m).2, t)
  | OpClear g => (clear_truncate_dirty g m, t)
  | OpForget k => ((forget_placement k m).2, t)
  | OpForgetUnder d => ((forget_placements_under d m).2, t)
  | OpRename old new => ((rename_placement old new m).2, t)
  | OpRenameUnder old new => ((rename_placements_under old new m).2, t)
  | OpRecover k => ((placement_or_recovered k m t).2, t)
  | OpCleanup p => (enqueue_stripe_cleanup p m, t)
  | OpLegacyCleanup p rel => (enqueue_legacy_cleanup p rel m, t)
  | OpDrain d => ((drain_stripe_cleanup d m).2, t)
  | OpRegistry f => (upd_registry f m, t)
  | OpSetGeometry ok v req => ((set_volume_geometry cf ok v req m).2, t)
  | OpForgetGeometry v => (forget_volume_geometry v m, t)
  | OpNoteFetch v c mask => (note_device_fetch v c mask m, t)
  | OpForgetNotify v => (forget_device_notify v m, t)
  end.

(** A minted stateid is one nobody uses: its twelve random bytes. *)
Definition fresh_op (op : LmOp) (m : LayoutManager) : Prop :=
  match op with
  | OpGrant _ _ _ _ _ _ dr => fresh_id (dr_other dr) m
  | OpRegisterScsi _ _ _ _ r => fresh_id r m
  | _ => True
  end.

Inductive reach (st0 : LayoutManager * T) : LayoutManager * T -> Prop :=
| reach_refl : reach st0 st0
| reach_step st op : reach st0 st -> fresh_op op st.1 -> reach st0 (exec op st).

Lemma exec_trans op m t : fresh_op op m -> table_ok m -> rtc trans m (exec op (m, t)).1.
Proof.
  intros Hf Hm. destruct op; cbn [exec fst] in *.
  - pose proof (generate_trans cf owner fh key offset length iomode draw m t Hf) as Hg.
    by destruct (generate_layout _ _ _ _ _ _ _ _ _ _) as [[? ?] ?].
  - by apply register_scsi_trans.
  - by apply rekey_trans.
  - apply take_trans.
  - apply return_trans.
  - apply revoke_trans.
  - by apply return_each_trans.
  - by apply return_each_trans.
  - by apply recall_device_trans.
  - by apply recall_file_trans.
  - apply rtc_same, mark_same.
  - apply rtc_same, clear_if_same.
  - apply rtc_same, clear_same.
  - apply rtc_same, forget_same.
  - apply rtc_same, forget_under_same.
  - apply rtc_same, rename_same.
  - apply rtc_same, rename_under_same.
  - apply rtc_same, recovered_same.
  - apply rtc_same, cleanup_same.
  - apply rtc_same, legacy_cleanup_same.
  - same.
  - same.
  - unfold set_volume_geometry. destruct ok; same.
  - same.
  - unfold note_device_fetch. destruct (_ || _); same.
  - same.
Qed.

Lemma reach_ok st0 st : table_ok st0.1 -> reach st0 st -> table_ok st.1.
Proof.
  intros H0 Hr. induction Hr as [| [m t] op Hr IH Hf]; [done |]. eapply rtc_ok; [by apply exec_trans |]. done.
Qed.
Lemma reach_table_inv st0 st : inv st0.1 -> reach st0 st -> inv st.1.
Proof.
  intros H0 Hr. induction Hr as [| [m t] op Hr IH Hf]; [done |].
  eapply rtc_inv; [| done]. apply exec_trans; [done | by destruct IH].
Qed.
End reach.

(** ** Boot *)
Lemma load_record_added m r : added (LayoutState_from_record r) m (load_record m r).
Proof.
  unfold load_record. set (l := LayoutState_from_record r). destruct (index_file_frame l m) as (E1 & E2 & E3 & _).
  repeat split; cbn; [by rewrite E1 | by rewrite E2 | by rewrite E3].
Qed.

Lemma load_records_ok rs : forall m, lm_revoked m = ∅ -> table_ok m ->
  table_ok (load_records rs m) /\ lm_revoked (load_records rs m) = ∅.
Proof.
  induction rs as [| r rs IH]; intros m Hr Hm; [done |]. cbn. apply IH.
  - pose proof (load_record_added m r) as (_ & _ & _ & ->). done.
  - eapply added_ok; [apply load_record_added | by rewrite Hr | done].
Qed.

Lemma load_records_inv rs : forall m, lm_revoked m = ∅ -> inv m ->
  NoDup ((fun r => state_key (lr_stateid r)) <$> rs) ->
  (forall r, r ∈ rs -> lm_layouts m !! state_key (lr_stateid r) = None /\
     forall c, ~ owner_listed m c (state_key (lr_stateid r))) -> inv (load_records rs m).
Proof.
  induction rs as [| r rs IH]; intros m Hr Hm Hnd Hnew; [done |]. cbn in *. apply NoDup_cons in Hnd as [Hnin Hnd].
  pose proof (load_record_added m r) as Ha. destruct (Ha) as (HL & _ & HO & HR).
  assert (forall r', r' ∈ rs -> state_key (lr_stateid r) <> state_key (lr_stateid r')) as Hne.
  { intros r' Hr' He. apply Hnin. apply list_elem_of_fmap. exists r'. done. }
  destruct (Hnew r) as [Hn1 Hn2]; [left |]. apply IH.
  - by rewrite HR.
  - eapply trans_inv; [| done]. apply (tr_add _ _ (LayoutState_from_record r)); [done | done | by rewrite Hr | done].
  - done.
  - intros r' Hr'. destruct (Hnew r') as [Hr1 Hr2]; [by right |]. split.
    + rewrite HL, lookup_insert_ne; [done | by apply Hne].
    + intros c. unfold owner_listed. rewrite HO, push_id_listed. intros [Hc | [_ Hc]]; [by apply (Hr2 c) |].
      by apply (Hne r' Hr').
Qed.

Lemma new_manager_inv reg b : inv (new_manager reg b).
Proof.
  split; [split | split].
  - intros k l. cbn. by rewrite lookup_empty.
  - intros f s. cbn. rewrite lookup_empty. intros Hs. inversion Hs.
  - intros k l. cbn. by rewrite lookup_empty.
  - intros k l. cbn. by rewrite lookup_empty.
  - intros k. cbn. done.
  - intros f k (s & Hs & _). cbn in Hs. rewrite lookup_empty in Hs. inversion Hs.
  - intros c k l _. cbn. by rewrite lookup_empty.
Qed.
