(* ===== verification/PnfsLayoutProps.v ===== *)
(** What the layout manager's operations answer: the writers of a file, a
    recall's stateids, the layouts a return drops, and what a restart brings
    back. *)

From Stdlib Require Import Ascii String.
From S2P Require Import Prelude Csv PnfsPlacement PnfsLayout PnfsLayoutInv PnfsLayoutReach.

(** ** The writers of a file *)
Definition writes (l : LayoutState) : Prop := ly_iomode l <> IoRead.

Lemma is_read_spec io : is_read io = true <-> io = IoRead.
Proof. by destruct io. Qed.

Lemma holders_fold m ks : forall out, NoDup out ->
  NoDup (foldl (write_capable_step m) out ks) /\
  forall c, c ∈ foldl (write_capable_step m) out ks <->
    c ∈ out \/ exists k l, k ∈ ks /\ lm_layouts m !! k = Some l /\ writes l /\ lo_client (ly_owner l) = c.
Proof.
  induction ks as [| k ks IH]; intros out Hnd; cbn [foldl].
  { split; [done |]. intros c. split; [auto |]. intros [| (k & _ & Hk & _)]; [done | inversion Hk]. }
  assert (NoDup (write_capable_step m out k) /\ forall c, c ∈ write_capable_step m out k <->
    c ∈ out \/ exists l, lm_layouts m !! k = Some l /\ writes l /\ lo_client (ly_owner l) = c) as [Hnd' Hel].
  { unfold write_capable_step. destruct (lm_layouts m !! k) as [l |]; [| naive_solver].
    destruct (is_read (ly_iomode l)) eqn:Er; cbn [negb andb].
    { apply is_read_spec in Er. unfold writes. naive_solver. }
    assert (writes l) by (intros Hx; apply is_read_spec in Hx; congruence).
    case_bool_decide as Hin; cbn [negb].
    - split; [done |]. naive_solver.
    - split; [apply NoDup_app; split; [done |]; split; [| apply NoDup_singleton] |].
      + intros x Hx ->%list_elem_of_singleton. done.
      + intros c. rewrite elem_of_app, list_elem_of_singleton. naive_solver. }
  destruct (IH _ Hnd') as [H1 H2]. split; [done |]. intros c. rewrite H2, Hel.
  setoid_rewrite elem_of_cons. naive_solver.
Qed.

Lemma holders_spec ident m : NoDup (write_capable_holders ident m) /\
  forall c, c ∈ write_capable_holders ident m <->
    exists k l, k ∈ default [] (lm_by_file m !! ident) /\ lm_layouts m !! k = Some l /\ writes l /\
      lo_client (ly_owner l) = c.
Proof.
  unfold write_capable_holders. destruct (lm_by_file m !! ident) as [ks |]; cbn [default from_option].
  - destruct (holders_fold m ks [] (NoDup_nil_2)) as [H1 H2]. split; [done |]. intros c. rewrite H2.
    split; [intros [Hx | ?]; [inversion Hx | done] | auto].
  - split; [apply NoDup_nil_2 |]. intros c. split; [intros Hx; inversion Hx |].
    intros (k & l & Hk & _). inversion Hk.
Qed.

Lemma canonical_listed m f k : canonical m -> file_listed m f k <-> k ∈ default [] (lm_by_file m !! f).
Proof.
  intros Hc. split.
  - intros (s & Hs & <-). by rewrite (Hc f s Hs).
  - intros Hk. exists k. split; [done | by apply (Hc f)].
Qed.

Definition holds_write (m : LayoutManager) (c : Z) (ident : string) : Prop :=
  exists k l, lm_layouts m !! k = Some l /\ ly_file_ident l = ident /\ writes l /\ lo_client (ly_owner l) = c.

(** Nobody who may write is missed, and with an exact index nobody else is
    named. *)
Lemma holders_complete m c ident : table_ok m -> ident <> EmptyString -> holds_write m c ident ->
  c ∈ write_capable_holders ident m.
Proof.
  intros Hm Hi (k & l & Hl & <- & Hw & <-). apply holders_spec. exists k, l.
  split; [| done]. apply canonical_listed; [apply Hm |]. by apply (tk_file _ Hm).
Qed.
Lemma holders_exact m c ident : inv m -> c ∈ write_capable_holders ident m -> holds_write m c ident.
Proof.
  intros (Hm & He & _) Hc. apply holders_spec in Hc as (k & l & Hk & Hl & Hw & Hcl).
  apply canonical_listed in Hk; [| apply Hm]. destruct (He _ _ Hk) as [_ (l' & Hl' & Hi)].
  exists k, l. simplify_eq. done.
Qed.

(** ** Returns *)
Lemma return_layouts s m : table_ok m -> lm_layouts (return_layout s m).2 = delete (state_key s) (lm_layouts m).
Proof.
  intros Hm. unfold return_layout. destruct (lm_revoked m !! state_key s) eqn:Er.
  { cbn. rewrite delete_id; [done |]. apply (tk_tomb _ Hm). by eexists. }
  destruct (lm_layouts m !! state_key s) as [l |] eqn:El; cbn [snd]; [| by rewrite delete_id].
  destruct (cut_frame s l m) as (HL & _). cbn.
  by destruct (drop_owner_frame (lo_client (ly_owner l)) s (unindex_file l (upd_layouts (delete (state_key s)) m))) as (-> & _).
Qed.

Lemma return_each_layouts ids : forall m k, table_ok m ->
  lm_layouts (return_each ids m) !! k = if bool_decide (k ∈ (state_key <$> ids)) then None else lm_layouts m !! k.
Proof.
  induction ids as [| s ids IH]; intros m k Hm; [done |]. cbn [return_each foldl].
  change (foldl _ _ ids) with (return_each ids (return_layout s m).2).
  rewrite IH by (eapply rtc_ok; [apply return_trans | done]). rewrite return_layouts by done. cbn [fmap list_fmap].
  destruct (decide (k = state_key s)) as [-> | Hne].
  - rewrite lookup_delete_eq. rewrite (bool_decide_eq_true_2 (state_key s ∈ _ :: _)) by left. by case_bool_decide.
  - rewrite lookup_delete_ne by done. erewrite (bool_decide_ext (k ∈ _ :: _)); [done |].
    rewrite elem_of_cons. naive_solver.
Qed.

Lemma listed_key m c k : owner_listed m c k <-> k ∈ (state_key <$> layouts_for_client c m).
Proof.
  unfold owner_listed, listed, layouts_for_client. rewrite list_elem_of_fmap. naive_solver.
Qed.

(** LAYOUTRETURN4_ALL and the lease sweep: exactly the client's layouts go. *)
Lemma return_all_layouts c m k l : inv m ->
  lm_layouts (return_all_for_client c m).2 !! k = Some l <-> lm_layouts m !! k = Some l /\ lo_client (ly_owner l) <> c.
Proof.
  intros (Hm & _ & Ho). unfold return_all_for_client. cbn [snd]. rewrite return_each_layouts by done.
  case_bool_decide as Hk; apply listed_key in Hk || (rewrite <- listed_key in Hk).
  - split; [done |]. intros [Hl Hc]. destruct Hc. by apply (Ho c k).
  - split; [| naive_solver]. intros Hl. split; [done |]. intros <-. apply Hk. by apply (tk_owner _ Hm).
Qed.

(** LAYOUTRETURN4_FSID drops the client's layouts of the file system whose
    listed id is the minted one, and nothing else. *)
Lemma return_fsid_layouts c fsid m k l : inv m -> (forall s, s ∈ layouts_for_client c m -> state_key s = s) ->
  lm_layouts (return_fsid_for_client c fsid m).2 !! k = Some l <->
    lm_layouts m !! k = Some l /\ ~ (lo_client (ly_owner l) = c /\ lo_fsid (ly_owner l) = fsid).
Proof.
  intros (Hm & _ & Ho) Hmint. unfold return_fsid_for_client. cbn [snd]. rewrite return_each_layouts by done.
  case_bool_decide as Hk.
  - split; [done |]. intros [Hl Hn]. apply list_elem_of_fmap in Hk as (s & -> & Hs).
    apply list_elem_of_filter in Hs as [Hf Hs]. rewrite (Hmint s Hs) in *. rewrite Hl in Hf. destruct Hn.
    split; [| by apply Z.eqb_eq]. apply (Ho c s); [| done]. exists s. split; [done | by apply Hmint].
  - split; [| naive_solver]. intros Hl. split; [done |]. intros [<- Hf]. apply Hk.
    destruct (tk_owner _ Hm _ _ Hl) as (s & Hs & <-). apply list_elem_of_fmap. exists s. split; [done |].
    apply list_elem_of_filter. split; [| done]. rewrite <- (Hmint s Hs), Hl. by apply Z.eqb_eq.
Qed.

(** ** Recalls *)
Definition bumped (l : LayoutState) : LayoutState :=
  set_stateid (Lsid (next_seqid (ls_seqid (ly_stateid l))) (ls_other (ly_stateid l))) l.
Definition recall_of (l : LayoutState) : Z * LayoutStateId * list Z :=
  (lo_session (ly_owner l), ly_stateid (bumped l), ly_filehandle l).

Lemma bump_spec k m :
  (bump_recall_stateid k m).1 = recall_of <$> lm_layouts m !! k /\
  forall x, lm_layouts (bump_recall_stateid k m).2 !! x =
    if bool_decide (x = k) then bumped <$> lm_layouts m !! k else lm_layouts m !! x.
Proof.
  unfold bump_recall_stateid. destruct (lm_layouts m !! k) as [l |] eqn:El; cbn; (split; [done |]); intros x; case_bool_decide; subst.
  - by rewrite lookup_insert_eq.
  - by rewrite lookup_insert_ne.
  - by rewrite El.
  - done.
Qed.

Lemma bump_fold hits : forall acc m, NoDup hits ->
  (foldl bump_step (acc, m) hits).1 = acc ++ omap (fun k => recall_of <$> lm_layouts m !! k) hits /\
  forall x, lm_layouts (foldl bump_step (acc, m) hits).2 !! x =
    if bool_decide (x ∈ hits) then bumped <$> lm_layouts m !! x else lm_layouts m !! x.
Proof.
  induction hits as [| k hits IH]; intros acc m Hnd; cbn [foldl].
  { by rewrite app_nil_r. }
  apply NoDup_cons in Hnd as [Hnin Hnd]. destruct (bump_spec k m) as [H1 H2].
  unfold bump_step at 2 4. cbn [fst snd].
  destruct (bump_recall_stateid k m) as [o m1] eqn:Eb. cbn [fst snd] in *.
  assert (forall x, x ∈ hits -> lm_layouts m1 !! x = lm_layouts m !! x) as Hsame.
  { intros x Hx. rewrite H2. rewrite bool_decide_eq_false_2; [done |]. intros ->. done. }
  assert (omap (fun k => recall_of <$> lm_layouts m1 !! k) hits = omap (fun k => recall_of <$> lm_layouts m !! k) hits) as Ho.
  { clear -Hsame. induction hits as [| x l IHl]; [done |]. cbn. rewrite Hsame by left.
    rewrite IHl; [done |]. intros y Hy. apply Hsame. by right. }
  split.
  - transitivity ((acc ++ match o with Some t => [t] | None => [] end) ++
                  omap (fun k => recall_of <$> lm_layouts m !! k) hits).
    + destruct o as [t |]; destruct (IH (acc ++ [t]) m1 Hnd) as [E1 _] || destruct (IH acc m1 Hnd) as [E1 _].
      * by rewrite E1, Ho.
      * destruct (IH acc m1 Hnd) as [E2 _]. by rewrite E2, Ho, app_nil_r.
    + rewrite <- app_assoc. f_equal. cbn. rewrite <- H1. by destruct o.
  - intros x. assert (lm_layouts (foldl bump_step (match o with Some t => (acc ++ [t], m1) | None => (acc, m1) end) hits).2 !! x
      = if bool_decide (x ∈ hits) then bumped <$> lm_layouts m1 !! x else lm_layouts m1 !! x) as ->.
    { destruct o as [t |]; by apply IH. }
    rewrite H2. destruct (decide (x = k)) as [-> | Hne].
    + rewrite (bool_decide_eq_false_2 (k ∈ hits)) by done. rewrite !bool_decide_eq_true_2; [done | left | done].
    + rewrite (bool_decide_eq_false_2 (x = k)) by done. erewrite (bool_decide_ext (x ∈ k :: hits)); [done |].
      rewrite elem_of_cons. naive_solver.
Qed.

(** The keys of the layouts that satisfy a test. *)
Lemma hits_spec m (p : LayoutState -> Prop) `{forall l, Decision (p l)} : keyed m ->
  let hits := (fun kl => state_key (ly_stateid kl.2)) <$> filter (fun kl => p kl.2) (map_to_list (lm_layouts m)) in
  NoDup hits /\ forall k, k ∈ hits <-> exists l, lm_layouts m !! k = Some l /\ p l.
Proof.
  intros Hm hits.
  assert (forall kl, kl ∈ map_to_list (lm_layouts m) -> state_key (ly_stateid kl.2) = kl.1) as Hk.
  { intros [k l] Hkl%elem_of_map_to_list. symmetry. by apply Hm. }
  split.
  - apply NoDup_fmap_2_strong; [| apply NoDup_filter, NoDup_map_to_list].
    intros [k1 l1] [k2 l2] [_ H1]%list_elem_of_filter [_ H2]%list_elem_of_filter. cbn. intros He.
    pose proof (Hk _ H1). pose proof (Hk _ H2). cbn in *. assert (k1 = k2) as -> by congruence.
    apply elem_of_map_to_list in H1, H2. congruence.
  - intros k. unfold hits. rewrite list_elem_of_fmap. split.
    + intros ([k' l] & -> & [Hp Hkl]%list_elem_of_filter). rewrite (Hk _ Hkl). exists l. split; [| done].
      by apply elem_of_map_to_list in Hkl.
    + intros (l & Hl & Hp). exists (k, l). apply elem_of_map_to_list in Hl. split; [by rewrite (Hk _ Hl) |].
      by apply list_elem_of_filter.
Qed.

Lemma recall_file_spec ident m : keyed m -> ident <> EmptyString ->
  (forall t, t ∈ (recall_layouts_for_file ident m).1 <->
     exists k l, lm_layouts m !! k = Some l /\ ly_file_ident l = ident /\ t = recall_of l) /\
  (forall k, lm_layouts (recall_layouts_for_file ident m).2 !! k =
     (fun l => if bool_decide (ly_file_ident l = ident) then bumped l else l) <$> lm_layouts m !! k).
Proof.
  intros Hm Hi. unfold recall_layouts_for_file.
  destruct (is_empty ident) eqn:Ei; [by apply is_empty_spec in Ei |].
  destruct (hits_spec m (fun l => is_empty (ly_file_ident l) = false /\ ly_file_ident l = ident) Hm) as [Hnd Hh].
  set (hits := _ <$> _) in *. destruct (bump_fold hits [] m Hnd) as [H1 H2].
  assert (forall k, k ∈ hits <-> exists l, lm_layouts m !! k = Some l /\ ly_file_ident l = ident) as Hh'.
  { intros k. rewrite Hh. split; [naive_solver |]. intros (l & Hl & <-). exists l. split; [done |]. split; [| done].
    by destruct (ly_file_ident l). }
  split.
  - intros t. rewrite H1, app_nil_l, list_elem_of_omap. split.
    + intros (k & Hk & Ht). apply Hh' in Hk as (l & Hl & He). rewrite Hl in Ht. cbn in Ht. simplify_eq. eauto.
    + intros (k & l & Hl & He & ->). exists k. split; [apply Hh'; eauto |]. by rewrite Hl.
  - intros k. rewrite H2. case_bool_decide as Hk.
    + apply Hh' in Hk as (l & Hl & He). rewrite Hl. cbn. by rewrite bool_decide_eq_true_2.
    + destruct (lm_layouts m !! k) as [l |] eqn:El; [| done]. cbn. rewrite bool_decide_eq_false_2; [done |].
      intros He. apply Hk, Hh'. eauto.
Qed.

Lemma next_seqid_spec s : is_u32 s -> is_u32 (next_seqid s) /\ next_seqid s <> 0 /\ (s < u32_max -> next_seqid s = s + 1).
Proof.
  intros Hs. unfold next_seqid, wrap_u32, LAYOUT_SEQID_BASE. destruct (decide (s = u32_max)) as [-> |].
  - vm_compute. repeat split; congruence.
  - rewrite Z.mod_small by bounds. rewrite (proj2 (Z.eqb_neq _ _)) by bounds. split; [bounds |]. split; [bounds | done].
Qed.
