(* ===== verification/PnfsRestart.v ===== *)
(** What a restart of the metadata server brings back (pnfs/mds/server.rs,
    [load_persisted_state]): the layout table, exactly, when no layout was
    recalled; and, when one was, a layout that had been given up. *)

From Stdlib Require Import Ascii String.
From S2P Require Import Prelude Csv PnfsPlacement PnfsLayout PnfsLayoutInv PnfsLayoutReach PnfsLayoutProps.

(** The boot sequence over what the backend lists. *)
Definition restart (cf : LmConfig) (now unix : Z) (known : list string) (reg : DeviceRegistry) (b : Backend) :
    LayoutManager :=
  load_volume_geometry (Some (snd <$> map_to_list (be_geometry b))) known
    (load_placement_records cf now unix (snd <$> map_to_list (be_placements b))
       (load_records (snd <$> map_to_list (be_layouts b)) (new_manager reg b))).

Lemma record_round_trip l : LayoutState_from_record (LayoutState_to_record l) = l.
Proof.
  destruct l as [sid [c se fs] fh f segs io rc]. unfold LayoutState_from_record, LayoutState_to_record. cbn.
  f_equal; [| by destruct io]. induction segs as [| [o n i d x p] segs IH]; [done |]. cbn. f_equal; [| done].
  f_equal. by destruct i.
Qed.

Definition rows (m : LayoutManager) : gmap LayoutStateId LayoutRecord := be_layouts (lm_backend m).

(** ** The rows mirror the table until a recall *)
Record settled (m : LayoutManager) : Prop := {
  sd_rows : rows m = LayoutState_to_record <$> lm_layouts m;
  sd_minted k l : lm_layouts m !! k = Some l -> ly_stateid l = k;
  sd_owner c s : s ∈ layouts_for_client c m -> state_key s = s }.

Lemma same_settled m m' : same_table m m' -> settled m -> settled m'.
Proof.
  intros (HL & HO & _ & _ & HB) [R M O]. split; unfold rows, layouts_for_client in *; rewrite ?HL, ?HO, ?HB; eauto.
Qed.

Lemma add_settled l m m' : rows m' = <[ly_stateid l := LayoutState_to_record l]> (rows m) ->
  lm_layouts m' = <[ly_stateid l := l]> (lm_layouts m) ->
  lm_by_owner m' = push_id (lo_client (ly_owner l)) (ly_stateid l) (lm_by_owner m) ->
  state_key (ly_stateid l) = ly_stateid l -> settled m -> settled m'.
Proof.
  intros HB HL HO Hk [R M O]. split.
  - rewrite HB, HL, R. by rewrite fmap_insert.
  - intros k x. rewrite HL. intros [[<- <-] | [_ ?]]%lookup_insert_Some; eauto.
  - intros c s. unfold layouts_for_client. rewrite HO. unfold push_id.
    destruct (decide (c = lo_client (ly_owner l))) as [-> |].
    + rewrite lookup_insert_eq. cbn. rewrite elem_of_app, list_elem_of_singleton. intros [Hs | ->]; [by eapply O | done].
    + rewrite lookup_insert_ne by done. apply O.
Qed.

Lemma cut_settled s m m' : rows m' = delete s (rows m) -> lm_layouts m' = delete s (lm_layouts m) ->
  (forall c x, x ∈ layouts_for_client c m' -> x ∈ layouts_for_client c m) -> settled m -> settled m'.
Proof.
  intros HB HL HO [R M O]. split.
  - rewrite HB, HL, R. by rewrite fmap_delete.
  - intros k x. rewrite HL. intros [_ ?]%lookup_delete_Some. eauto.
  - eauto.
Qed.

Lemma drop_owner_sub c s m c' x :
  x ∈ layouts_for_client c' (drop_owner c s m) -> x ∈ layouts_for_client c' m.
Proof.
  unfold layouts_for_client. destruct (drop_owner_frame c s m) as (_ & _ & _ & _ & _ & _ & ->). unfold retain.
  destruct (lm_by_owner m !! c) as [v |] eqn:E; [| done]. destruct (decide (c' = c)) as [-> |].
  - rewrite E. cbn. destruct (filter _ v) eqn:Ef.
    + rewrite lookup_delete_eq. cbn. intros Hx. inversion Hx.
    + rewrite lookup_insert_eq. cbn. rewrite <- Ef. intros Hx%list_elem_of_filter. naive_solver.
  - destruct (filter _ v); by rewrite ?lookup_delete_ne, ?lookup_insert_ne by done.
Qed.

Lemma return_settled s m : state_key s = s -> settled m -> settled (return_layout s m).2.
Proof.
  intros Hs Hm. unfold return_layout. destruct (lm_revoked m !! state_key s).
  { cbn. destruct Hm. by split. }
  destruct (lm_layouts m !! state_key s) as [l |] eqn:El; [| done]. cbn [snd].
  destruct (cut_frame s l m) as (HL & HO & _). destruct (unindex_file_frame l (upd_layouts (delete (state_key s)) m)) as (_ & _ & _ & HB & _).
  set (m1 := unindex_file l _) in *.
  destruct (drop_owner_frame (lo_client (ly_owner l)) s m1) as (E1 & _ & _ & E4 & _).
  apply (cut_settled s m).
  - unfold rows. cbn. by rewrite E4, HB.
  - cbn. by rewrite E1, HL, Hs.
  - intros c x Hx. apply drop_owner_sub in Hx. unfold layouts_for_client in *. by rewrite HO in Hx.
  - done.
Qed.

Lemma revoke_settled now s m : state_key s = s -> settled m -> settled (revoke_layout now s m).2.
Proof.
  intros Hs Hm. unfold revoke_layout. destruct (lm_layouts m !! state_key s) as [l |] eqn:El; [| done]. cbn [snd].
  destruct (cut_frame s l m) as (HL & HO & _). destruct (unindex_file_frame l (upd_layouts (delete (state_key s)) m)) as (_ & _ & _ & HB & _).
  set (m1 := unindex_file l _) in *. set (m2 := upd_revoked _ m1).
  destruct (drop_owner_frame (lo_client (ly_owner l)) s m2) as (E1 & _ & _ & E4 & _).
  apply (cut_settled s m).
  - unfold rows. cbn. rewrite E4. cbn. by rewrite HB.
  - cbn. rewrite E1. cbn. by rewrite HL, Hs.
  - intros c x Hx. apply drop_owner_sub in Hx. unfold layouts_for_client in *. cbn in Hx. by rewrite HO in Hx.
  - done.
Qed.

Lemma take_settled s m : state_key s = s -> settled m -> settled (take_scsi_layout s m).2.
Proof.
  intros Hs Hm. unfold take_scsi_layout. destruct (lm_layouts m !! state_key s) as [l |] eqn:El; [| done]. cbn [snd].
  destruct (cut_frame s l m) as (HL & HO & _). destruct (unindex_file_frame l (upd_layouts (delete (state_key s)) m)) as (_ & _ & _ & HB & _).
  set (m1 := unindex_file l _) in *. change (lm_by_owner (persist_delete s m1)) with (lm_by_owner m1). rewrite HO.
  destruct (lm_by_owner m !! lo_client (ly_owner l)) as [v |] eqn:Ev; apply (cut_settled s m); try done.
  all: try (unfold rows; cbn; by rewrite HB).
  all: try (cbn; by rewrite HL, Hs).
  - intros c x. unfold layouts_for_client. cbn. rewrite HO.
    destruct (decide (c = lo_client (ly_owner l))) as [-> |]; [| by rewrite lookup_insert_ne].
    rewrite lookup_insert_eq, Ev. cbn. intros Hx%list_elem_of_filter. naive_solver.
  - intros c x. unfold layouts_for_client. cbn. by rewrite HO.
Qed.

Lemma return_each_settled ids : forall m, Forall (fun s => state_key s = s) ids -> settled m -> settled (return_each ids m).
Proof.
  induction ids as [| s ids IH]; intros m Hids Hm; [done |]. apply Forall_cons_1 in Hids as [Hs Hids].
  cbn. apply IH; [done |]. by apply return_settled.
Qed.

Lemma publish_frame l m : lm_layouts (publish l m) = <[state_key (ly_stateid l) := l]> (lm_layouts m) /\
  lm_by_owner (publish l m) = lm_by_owner m /\ lm_dirty (publish l m) = lm_dirty m /\
  rows (publish l m) = <[ly_stateid l := LayoutState_to_record l]> (rows m).
Proof.
  unfold publish, rows. cbn. destruct (index_file_frame l (persist l m)) as (-> & -> & _ & -> & -> & _). done.
Qed.

Lemma generate_settled {T} `{StubBinding T} cf owner fh key off len io draw m (t : T) : fresh_id (dr_other draw) m ->
  settled m -> settled (generate_layout cf owner fh key off len io draw m t).1.2.
Proof.
  intros (HfL & _) Hm. unfold generate_layout. pose proof (grant_placement_same cf key draw m t) as Hs.
  destruct (placement_for_grant cf key draw m t) as [[[p | e] m1] t1]; cbn [fst snd] in *; [| by eapply same_settled].
  pose proof (same_settled _ _ Hs Hm) as Hm1. destruct Hs as (HL & _). rewrite <- HL in HfL.
  destruct (build_layout _ _ _ _ _ _ _ _ _ _) as [l | e] eqn:Hb; [| done].
  apply build_layout_facts in Hb as (Hid & _).
  assert (state_key (ly_stateid l) = ly_stateid l) as Hk by (by rewrite Hid).
  assert (lm_layouts m1 !! ly_stateid l = None) as Hn by (by rewrite Hid).
  destruct (publish_frame l m1) as (P1 & P2 & P3 & P4). rewrite Hk in P1.
  unfold recheck_gate. destruct (lm_dirty _ !! _); cbn [fst snd].
  - destruct (unindex_file_frame l (upd_layouts (delete (state_key (ly_stateid l))) (publish l m1))) as (U1 & U2 & _ & U4 & _).
    destruct Hm1 as [R M O]. split.
    + unfold rows in *. cbn [lm_backend persist_delete enqueue_write apply_write be_layouts lm_layouts].
      rewrite U4, U1. cbn [lm_backend lm_layouts upd_layouts]. rewrite P4, P1, Hk, R.
      rewrite !delete_insert_id; [done | done | by rewrite lookup_fmap, Hn].
    + intros k x. cbn [persist_delete enqueue_write lm_layouts]. rewrite U1. cbn [lm_layouts upd_layouts]. rewrite P1, Hk, delete_insert_id by done. apply M.
    + unfold layouts_for_client in *. cbn [persist_delete enqueue_write lm_by_owner]. rewrite U2.
      cbn [lm_by_owner upd_layouts]. rewrite P2. apply O.
  - apply (add_settled l m1); [exact P4 | exact P1 | by cbn [push_owner lm_by_owner upd_by_owner]; rewrite P2 | done | done].
Qed.

Lemma rekey_settled old new m : settled m -> settled (rekey_scsi_layouts old new m).2.
Proof.
  intros Hm. unfold rekey_scsi_layouts.
  assert (forall acc s, settled acc.2 -> settled (rekey_one new acc s).2) as Hone.
  { intros acc s [R M O]. unfold rekey_one.
    destruct (lm_layouts acc.2 !! state_key s) as [l |] eqn:El; [| by split]. cbn [snd].
    destruct (unindex_file_frame l acc.2) as (G1 & G2 & _ & G4 & _). set (l' := set_ident new l).
    destruct (index_file_frame l' (upd_layouts (insert (state_key s) l') (unindex_file l acc.2))) as (E1 & E2 & _ & E4 & _).
    pose proof (M _ _ El) as Hl. split.
    - unfold rows in *. cbn. rewrite E4, E1. cbn. rewrite G4, G1, R, fmap_insert. by rewrite Hl.
    - cbn. intros k x. rewrite E1. cbn. rewrite G1. intros [[<- <-] | [_ ?]]%lookup_insert_Some; [done |]. eauto.
    - unfold layouts_for_client in *. cbn. rewrite E2. cbn. by rewrite G2. }
  generalize ((fun kl => ly_stateid kl.2) <$> filter (fun kl => ly_file_ident kl.2 = old) (map_to_list (lm_layouts m))).
  intros ids. generalize 0%nat. revert m Hm. induction ids as [| s ids IH]; intros m Hm n; [done |]. cbn [foldl].
  pose proof (Hone (n, m) s Hm) as H1. destruct (rekey_one new (n, m) s) as [n' m'] eqn:E. by apply IH.
Qed.

Lemma register_settled owner fh key io random m : fresh_id random m -> settled m ->
  settled (register_scsi_layout owner fh key io random m).2.
Proof.
  intros _ Hm. unfold register_scsi_layout. cbn [snd]. set (l := Layout _ _ _ _ _ _ _).
  destruct (publish_frame l m) as (P1 & P2 & _ & P4). change (insert_layout l (index_file l (persist l m))) with (publish l m).
  apply (add_settled l m); [exact P4 | exact P1 | by cbn [push_owner lm_by_owner upd_by_owner]; rewrite P2 | done | done].
Qed.

(** No recall, and a client hands back the stateid it was given. *)
Definition quiet_op (op : LmOp) : Prop :=
  match op with
  | OpTake s | OpReturn s | OpRevoke _ s => state_key s = s
  | OpRecallDevice _ | OpRecallFile _ => False
  | _ => True
  end.

Section quiet.
Context {T : Type} `{StubBinding T} (cf : LmConfig).

Lemma exec_settled op m (t : T) : fresh_op op m -> quiet_op op -> settled m -> settled (exec cf op (m, t)).1.
Proof.
  intros Hf Hq Hm. destruct op; cbn [exec fst quiet_op fresh_op] in *.
  - pose proof (generate_settled cf owner fh key offset length iomode draw m t Hf Hm) as Hg.
    by destruct (generate_layout _ _ _ _ _ _ _ _ _ _) as [[? ?] ?].
  - by apply register_settled.
  - by apply rekey_settled.
  - by apply take_settled.
  - by apply return_settled.
  - by apply revoke_settled.
  - apply return_each_settled; [| done]. apply Forall_forall. intros s Hs. by apply (sd_owner _ Hm client).
  - apply return_each_settled; [| done]. apply Forall_forall. intros s [_ Hs]%list_elem_of_filter.
    by apply (sd_owner _ Hm client).
  - done.
  - done.
  - eapply same_settled; [apply mark_same | done].
  - eapply same_settled; [apply clear_if_same | done].
  - eapply same_settled; [apply clear_same | done].
  - eapply same_settled; [apply forget_same | done].
  - eapply same_settled; [apply forget_under_same | done].
  - eapply same_settled; [apply rename_same | done].
  - eapply same_settled; [apply rename_under_same | done].
  - eapply same_settled; [apply recovered_same | done].
  - eapply same_settled; [apply cleanup_same | done].
  - eapply same_settled; [apply legacy_cleanup_same | done].
  - eapply same_settled; [| done]. same.
  - eapply same_settled; [| done]. same.
  - eapply same_settled; [| done]. unfold set_volume_geometry. destruct ok; same.
  - eapply same_settled; [| done]. same.
  - eapply same_settled; [| done]. unfold note_device_fetch. destruct (_ || _); same.
  - eapply same_settled; [| done]. same.
Qed.

Inductive quiet_reach (st0 : LayoutManager * T) : LayoutManager * T -> Prop :=
| quiet_refl : quiet_reach st0 st0
| quiet_step st op : quiet_reach st0 st -> fresh_op op st.1 -> quiet_op op -> quiet_reach st0 (exec cf op st).

Lemma quiet_reach_settled st0 st : settled st0.1 -> quiet_reach st0 st -> settled st.1.
Proof. intros H0 Hr. induction Hr as [| [m t] op Hr IH Hf Hq]; [done | by apply exec_settled]. Qed.
End quiet.

Lemma new_settled reg b : be_layouts b = ∅ -> settled (new_manager reg b).
Proof.
  intros Hb. split.
  - unfold rows. cbn. by rewrite Hb, fmap_empty.
  - intros k l. cbn. by rewrite lookup_empty.
  - intros c s. unfold layouts_for_client. cbn. rewrite lookup_empty. intros Hs. inversion Hs.
Qed.

(** ** The boot sequence *)
Lemma load_records_layouts rs : forall m k, NoDup ((fun r => state_key (lr_stateid r)) <$> rs) ->
  lm_layouts (load_records rs m) !! k =
    match find_first (fun r => bool_decide (state_key (lr_stateid r) = k)) rs with
    | Some r => Some (LayoutState_from_record r)
    | None => lm_layouts m !! k
    end.
Proof.
  induction rs as [| r rs IH]; intros m k Hnd; [done |]. cbn [load_records foldl find_first fmap list_fmap] in *.
  apply NoDup_cons in Hnd as [Hnin Hnd]. change (foldl load_record ?x rs) with (load_records rs x). rewrite IH by done.
  destruct (load_record_added m r) as (HL & _). rewrite HL. cbn [LayoutState_from_record ly_stateid].
  case_bool_decide as Hk.
  - subst k. rewrite lookup_insert_eq. destruct (find_first _ rs) as [r' |] eqn:Ef; [| done].
    apply find_first_Some in Ef as [Hr' Hk']. apply bool_decide_eq_true in Hk'. destruct Hnin.
    apply list_elem_of_fmap. exists r'. done.
  - destruct (find_first _ rs); [done |]. by rewrite lookup_insert_ne.
Qed.

Lemma load_records_has rs : forall m r, r ∈ rs -> is_Some (lm_layouts (load_records rs m) !! state_key (lr_stateid r)).
Proof.
  assert (forall rs m k, is_Some (lm_layouts m !! k) -> is_Some (lm_layouts (load_records rs m) !! k)) as Hmono.
  { intros rs0. induction rs0 as [| r rs0 IH]; intros m k Hk; [done |]. cbn. apply IH.
    destruct (load_record_added m r) as (-> & _). destruct (decide (k = state_key (ly_stateid (LayoutState_from_record r)))) as [-> |].
    - rewrite lookup_insert_eq. by eexists.
    - by rewrite lookup_insert_ne. }
  induction rs as [| r rs IH]; intros m r' Hr; [inversion Hr |]. apply elem_of_cons in Hr as [-> | Hr]; cbn; [| by apply IH].
  apply Hmono. destruct (load_record_added m r) as (-> & _). rewrite lookup_insert_eq. by eexists.
Qed.

Lemma boot_table cf now unix known reg b :
  same_table (load_records (snd <$> map_to_list (be_layouts b)) (new_manager reg b)) (restart cf now unix known reg b).
Proof.
  unfold restart. cbn [load_volume_geometry].
  etrans; [| etrans; [| apply (same_foldl cache_negative (fun m => m))]].
  - apply (same_foldl (load_placement_record cf now unix) (fun m => m)). intros. apply load_placement_same.
  - apply (same_foldl load_geometry_record (fun m => m)). intros a r. unfold load_geometry_record. by destruct (LayoutClass_parse _).
  - intros a r. unfold cache_negative. by destruct (lm_geometry a !! r).
Qed.
Lemma boot_same cf now unix known reg b :
  lm_layouts (restart cf now unix known reg b) =
    lm_layouts (load_records (snd <$> map_to_list (be_layouts b)) (new_manager reg b)).
Proof. apply boot_table. Qed.
Lemma settled_rows m s r : settled m -> rows m !! s = Some r ->
  exists l, lm_layouts m !! s = Some l /\ r = LayoutState_to_record l /\ lr_stateid r = s.
Proof.
  intros [R M O]. rewrite R, lookup_fmap. intros (l & Hl & ->)%fmap_Some. exists l. split; [done |]. split; [done |].
  cbn. eauto.
Qed.

(** The rows a restart lists: one per layout, each in canonical form. *)
Definition row_list (m : LayoutManager) : list LayoutRecord := snd <$> map_to_list (rows m).
Lemma settled_row_list m (rs := row_list m) : settled m -> (forall k l, lm_layouts m !! k = Some l -> k = state_key k) ->
  (forall r, r ∈ rs <-> rows m !! lr_stateid r = Some r) /\
  (forall r, r ∈ rs -> state_key (lr_stateid r) = lr_stateid r) /\
  NoDup ((fun r => state_key (lr_stateid r)) <$> rs).
Proof.
  intros Hs Hkey.
  assert (forall r, r ∈ rs <-> rows m !! lr_stateid r = Some r) as Hrs.
  { intros r. unfold rs, row_list. rewrite list_elem_of_fmap. split.
    - intros ([s x] & -> & Hx%elem_of_map_to_list). cbn. by destruct (settled_rows _ _ _ Hs Hx) as (_ & _ & _ & ->).
    - intros Hr. exists (lr_stateid r, r). split; [done |]. by apply elem_of_map_to_list. }
  assert (forall r, r ∈ rs -> state_key (lr_stateid r) = lr_stateid r) as Hcan.
  { intros r Hr%Hrs. destruct (settled_rows _ _ _ Hs Hr) as (l & Hl & _). symmetry. eauto. }
  split; [done |]. split; [done |]. apply NoDup_fmap_2_strong.
  - intros r r' Hr Hr' He. rewrite (Hcan r Hr), (Hcan r' Hr') in He. apply Hrs in Hr, Hr'. rewrite He in Hr. congruence.
  - unfold rs, row_list. apply NoDup_fmap_2_strong; [| apply NoDup_map_to_list].
    intros [s x] [s' x'] Hx%elem_of_map_to_list Hx'%elem_of_map_to_list. cbn. intros <-.
    destruct (settled_rows _ _ _ Hs Hx) as (_ & _ & _ & <-). by destruct (settled_rows _ _ _ Hs Hx') as (_ & _ & _ & <-).
Qed.

(** Restart after a quiet run is the identity on the table, and its indexes
    are exact. *)
Lemma settled_restart_inv cf now unix known reg m : settled m ->
  (forall k l, lm_layouts m !! k = Some l -> k = state_key k) -> inv (restart cf now unix known reg (lm_backend m)).
Proof.
  intros Hs Hkey. destruct (settled_row_list m Hs Hkey) as (_ & _ & Hnd).
  pose proof (boot_table cf now unix known reg (lm_backend m)) as Hb.
  destruct (load_records_inv (row_list m) (new_manager reg (lm_backend m))) as (H1 & H2 & H3);
    [done | apply new_manager_inv | done | | ].
  - intros r _. split; [done |]. intros c (s & Hin & _). unfold new_manager in Hin. cbn in Hin. rewrite lookup_empty in Hin. by apply elem_of_nil in Hin.
  - split; [by eapply same_table_ok | split; [by eapply same_table_exact | by eapply same_table_owner]].
Qed.
Lemma settled_restart cf now unix known reg m : settled m ->
  (forall k l, lm_layouts m !! k = Some l -> k = state_key k) ->
  lm_layouts (restart cf now unix known reg (lm_backend m)) = lm_layouts m.
Proof.
  intros Hs Hkey. rewrite boot_same. change (be_layouts (lm_backend m)) with (rows m).
  destruct (settled_row_list m Hs Hkey) as (Hrs & Hcan & Hnd). fold (row_list m). set (rs := row_list m) in *.
  apply map_eq. intros k. rewrite load_records_layouts by done.
  destruct (find_first _ rs) as [r |] eqn:Ef.
  - apply find_first_Some in Ef as [Hr Hk]. apply bool_decide_eq_true in Hk. rewrite (Hcan r Hr) in Hk. subst k.
    apply Hrs in Hr. destruct (settled_rows _ _ _ Hs Hr) as (l & -> & -> & _). by rewrite record_round_trip.
  - cbn. rewrite lookup_empty. destruct (lm_layouts m !! k) as [l |] eqn:El; [| done].
    assert (LayoutState_to_record l ∈ rs) as Hin.
    { apply Hrs. cbn. rewrite (sd_minted _ Hs _ _ El). by rewrite (sd_rows _ Hs), lookup_fmap, El. }
    pose proof (proj1 (find_first_None _ _) Ef _ Hin) as Hb. apply bool_decide_eq_false in Hb. destruct Hb.
    rewrite (Hcan _ Hin). cbn. by eapply sd_minted.
Qed.

(** ** A recalled layout comes back *)
Lemma unindex_rows l m : rows (unindex_file l m) = rows m.
Proof. unfold rows. by destruct (unindex_file_frame l m) as (_ & _ & _ & -> & _). Qed.
Lemma drop_owner_rows c s m : rows (drop_owner c s m) = rows m.
Proof. unfold rows. by destruct (drop_owner_frame c s m) as (_ & _ & _ & -> & _). Qed.

(** Giving up [s] deletes the row of those sixteen bytes only. *)
Lemma return_rows s m l : lm_revoked m !! state_key s = None -> lm_layouts m !! state_key s = Some l ->
  rows (return_layout s m).2 = delete s (rows m).
Proof.
  intros Hr Hl. unfold return_layout. rewrite Hr, Hl. unfold rows. cbn.
  fold (rows (drop_owner (lo_client (ly_owner l)) s (unindex_file l (upd_layouts (delete (state_key s)) m)))).
  by rewrite drop_owner_rows, unindex_rows.
Qed.

Lemma revoke_rows now s m l : lm_layouts m !! state_key s = Some l -> rows (revoke_layout now s m).2 = delete s (rows m).
Proof.
  intros Hl. unfold revoke_layout. rewrite Hl. unfold rows. cbn.
  match goal with |- delete s (be_layouts (lm_backend (drop_owner ?c s ?x))) = _ => fold (rows (drop_owner c s x)) end.
  rewrite drop_owner_rows. unfold rows. cbn. fold (rows (unindex_file l (upd_layouts (delete (state_key s)) m))).
  by rewrite unindex_rows.
Qed.

Lemma restart_has cf now unix known reg b s r : be_layouts b !! s = Some r ->
  is_Some (get_layout (lr_stateid r) (restart cf now unix known reg b)).
Proof.
  intros Hr. unfold get_layout. rewrite boot_same. apply load_records_has.
  apply list_elem_of_fmap. exists (s, r). split; [done |]. by apply elem_of_map_to_list.
Qed.

(** *** The row of a recalled layout is never deleted *)
Lemma next_of_minted s : ls_seqid s = LAYOUT_SEQID_BASE -> next_seqid (ls_seqid s) <> LAYOUT_SEQID_BASE.
Proof. intros ->. by vm_compute. Qed.
Lemma bump_rows k m x : ls_seqid x = LAYOUT_SEQID_BASE ->
  (forall l, lm_layouts m !! k = Some l -> ls_seqid (ly_stateid l) = LAYOUT_SEQID_BASE) ->
  rows (bump_recall_stateid k m).2 !! x = rows m !! x.
Proof.
  intros Hx Hk. unfold bump_recall_stateid. destruct (lm_layouts m !! k) as [l |] eqn:E; [| done].
  unfold rows. cbn. apply lookup_insert_ne. intros <-. cbn in Hx. by eapply next_of_minted; [apply (Hk l) |].
Qed.
Lemma bump_fold_rows hits : forall acc m x, NoDup hits -> ls_seqid x = LAYOUT_SEQID_BASE ->
  (forall k l, k ∈ hits -> lm_layouts m !! k = Some l -> ls_seqid (ly_stateid l) = LAYOUT_SEQID_BASE) ->
  rows (foldl bump_step (acc, m) hits).2 !! x = rows m !! x.
Proof.
  induction hits as [| k hits IH]; intros acc m x Hnd Hx Hm; [done |]. apply NoDup_cons in Hnd as [Hk Hnd].
  cbn [foldl]. pose proof (bump_rows k m x Hx) as Hb. destruct (bump_spec k m) as [_ Hl].
  unfold bump_step at 2. cbn [fst snd]. destruct (bump_recall_stateid k m) as [o m1]. cbn [fst snd] in *.
  assert (rows m1 !! x = rows m !! x) as <- by (apply Hb; intros l; apply Hm; left).
  assert (forall k' l, k' ∈ hits -> lm_layouts m1 !! k' = Some l -> ls_seqid (ly_stateid l) = LAYOUT_SEQID_BASE) as Hm1.
  { intros k' l Hin. rewrite Hl. rewrite bool_decide_false by (intros ->; by apply Hk). apply Hm. by right. }
  destruct o; by apply IH.
Qed.
