(* ===== verification/PnfsOps.v ===== *)
(** The metadata server's pNFS operations (pnfs/mds/operations/mod.rs):
    LAYOUTGET and LAYOUTRETURN, the hooks REMOVE, RENAME and SETATTR(size)
    call, the disposition of I/O that arrives at the metadata server for a
    striped file and the proxy that carries it to the stripes; and the
    data server's control service (pnfs/ds/server.rs, [DsControlService])
    that the proxy and the truncation fan-out talk to.

    A data server is its identity and its files; the fleet maps a control
    endpoint to one.  [up] says which endpoints answer.  A call that times out
    is an error here as there; the retry of a parked truncation is
    [retry_truncate], one round of the background loop. *)

From Stdlib Require Import Ascii String.
From S2P Require Import Prelude Csv PnfsPlacement PnfsLayout.

(** ** The data server's control service *)
Record DsNode := Node { dn_device_id : string; dn_files : gmap string (list Z) }.
Notation Fleet := (gmap string DsNode).

Fixpoint split_slash (s : string) : list string :=
  match s with
  | EmptyString => [EmptyString]
  | String c s =>
      if Ascii.eqb c "/" then EmptyString :: split_slash s
      else match split_slash s with f :: fs => String c f :: fs | [] => [String c EmptyString] end
  end.
Definition is_absolute (s : string) : bool := match s with String c _ => Ascii.eqb c "/" | EmptyString => false end.

Definition validate_stripe_target (n : DsNode) (device_id rel : string) : bool :=
  String.eqb device_id (dn_device_id n) &&
  negb (is_empty rel || is_absolute rel || existsb (fun c => String.eqb c "..") (split_slash rel)).

(** The file system calls: a position past [i64::MAX] is EINVAL, and a read
    stops at the end of the file only.  (A refused write may have created the
    stripe file; empty and absent stripes read alike.) *)
Definition pad (n : nat) (f : list Z) : list Z := f ++ replicate (n - length f) 0.
Definition set_len (len : Z) (f : list Z) : list Z := take (Z.to_nat len) (pad (Z.to_nat len) f).
Definition write_at (off : Z) (data f : list Z) : list Z :=
  match data with
  | [] => f
  | _ => let o := Z.to_nat off in take o (pad o f) ++ data ++ drop (o + length data) f
  end.
Definition read_at (off count : Z) (f : list Z) : list Z := take (Z.to_nat count) (drop (Z.to_nat off) f).

Definition upd_files f (n : DsNode) : DsNode := Node (dn_device_id n) (f (dn_files n)).

(** Each answers [None] where the service refuses. *)
Definition truncate_stripe_file (device_id rel : string) (len : Z) (n : DsNode) : option DsNode :=
  if validate_stripe_target n device_id rel then
    match dn_files n !! rel with
    | None => Some n
    | Some f => if len <=? i64_max then Some (upd_files (insert rel (set_len len f)) n) else None
    end
  else None.

Definition READ_CEILING : Z := 4 * 1024 * 1024.
Definition read_stripe (device_id rel : string) (off count : Z) (n : DsNode) : option (list Z) :=
  if validate_stripe_target n device_id rel then
    if READ_CEILING <? count then None
    else match dn_files n !! rel with
         | None => Some []
         | Some f => if off <=? i64_max then Some (read_at off count f) else None
         end
  else None.

Definition write_stripe (device_id rel : string) (off : Z) (data : list Z) (n : DsNode) : option DsNode :=
  if validate_stripe_target n device_id rel then
    if off + Z.of_nat (length data) <=? i64_max then
      Some (upd_files (insert rel (write_at off data (default [] (dn_files n !! rel)))) n)
    else None
  else None.

(** One call to an endpoint. *)
Definition call {A} (up : string -> bool) (fleet : Fleet) (e : string) (f : DsNode -> option A) : option A :=
  if up e then n ← fleet !! e; f n else None.
Definition call_update (up : string -> bool) (fleet : Fleet) (e : string) (f : DsNode -> option DsNode) : option Fleet :=
  n ← call up fleet e f; Some (<[e := n]> fleet).

(** ** The proxy *)
Definition proxy_target (p : FilePlacement) (reg : DeviceRegistry) (off : Z) : option (string * string * string) :=
  if file_id p =? 0 then None
  else
    let slot := Z.to_nat (slot_for_offset p off) in
    device ← device_ids p !! slot;
    info ← reg !! device;
    endpoint ← di_control_endpoint info;
    Some (device, endpoint, stripe_rel_path p slot).

Definition overlay (start : nat) (d out : list Z) : list Z := take start out ++ d ++ drop (start + length d) out.

Definition assemble_step (offset : Z) (want : nat) (out : list Z) (chunk : Z * list Z) : list Z :=
  match chunk.2 with
  | [] => out
  | data =>
      let start := Z.to_nat (chunk.1 - offset) in
      if (want <=? start)%nat then out else overlay start (take (want - start) data) out
  end.
Definition assemble_fallback_read (chunks : list (Z * list Z)) (offset count stub_size : Z) : list Z * bool :=
  let want := Z.min count (Z.max (stub_size - offset) 0) in
  (foldl (assemble_step offset (Z.to_nat want)) (replicate (Z.to_nat want) 0) chunks, stub_size <=? offset + want).

Section proxy.
Context (up : string -> bool) (reg : DeviceRegistry).

Fixpoint read_chunks (p : FilePlacement) (fleet : Fleet) (chunks : list (Z * Z)) : option (list (Z * list Z)) :=
  match chunks with
  | [] => Some []
  | (co, cl) :: rest =>
      '(device, endpoint, rel) ← proxy_target p reg co;
      data ← call up fleet endpoint (read_stripe device rel co (wrap_u32 cl));
      more ← read_chunks p fleet rest;
      Some ((co, data) :: more)
  end.
(** [None] inside [Done]: an error the dispatcher answers with DELAY. *)
Definition proxy_fallback_read (fuel : nat) (p : FilePlacement) (fleet : Fleet) (offset count stub_size : Z) :
    run (option (list Z * bool)) :=
  run_map (fun chunks =>
      data ← read_chunks p fleet chunks; Some (assemble_fallback_read data offset count stub_size))
    (split_at_stripe_bounds fuel p offset (Z.min count (Z.max (stub_size - offset) 0))).

(** The chunks already written stay written when a later one fails. *)
Fixpoint write_chunks (p : FilePlacement) (offset : Z) (data : list Z) (fleet : Fleet) (chunks : list (Z * Z)) :
    bool * Fleet :=
  match chunks with
  | [] => (true, fleet)
  | (co, cl) :: rest =>
      match ('(device, endpoint, rel) ← proxy_target p reg co;
             let start := Z.to_nat (co - offset) in
             call_update up fleet endpoint (write_stripe device rel co (take (Z.to_nat cl) (drop start data)))) with
      | Some fleet' => write_chunks p offset data fleet' rest
      | None => (false, fleet)
      end
  end.
Definition proxy_fallback_write (fuel : nat) (p : FilePlacement) (fleet : Fleet) (offset : Z) (data : list Z) :
    run (bool * Fleet) :=
  run_map (write_chunks p offset data fleet) (split_at_stripe_bounds fuel p offset (Z.of_nat (length data))).

(** ** Truncation fan-out: every pinned data server is tried *)
Definition fanout_step (rel_of : nat -> string) (len : Z) (acc : bool * Fleet) (sd : nat * string) : bool * Fleet :=
  let '(ok, fleet) := acc in
  match (info ← reg !! sd.2; endpoint ← di_control_endpoint info;
         call_update up fleet endpoint (truncate_stripe_file sd.2 (rel_of sd.1) len)) with
  | Some fleet' => (ok, fleet')
  | None => (false, fleet)
  end.
Definition truncate_fanout (export_fs key : string) (p : FilePlacement) (len : Z) (fleet : Fleet) : bool * Fleet :=
  let legacy := String.append (trim_start_slash export_fs) (String "/" key) in
  let rel_of slot := if negb (file_id p =? 0) then stripe_rel_path p slot else legacy in
  foldl (fanout_step rel_of len) (true, fleet) (imap pair (device_ids p)).
End proxy.

(** ** The disposition of I/O at the metadata server *)
Inductive FallbackIoDisposition := Serve | Delay | FailFast | Proxy.

Definition FALLBACK_DELAY_CEILING_DEFAULT : Z := secs 90.
Definition fallback_delay_ceiling (env : option string) : Z :=
  match env with
  | Some v => match parse_u64 v with Some n => secs n | None => FALLBACK_DELAY_CEILING_DEFAULT end
  | None => FALLBACK_DELAY_CEILING_DEFAULT
  end.
Definition fallback_proxy_enabled (env : option string) : bool :=
  match env with
  | Some v => negb (String.eqb v "0" || String.eqb v "off" || String.eqb v "false")
  | None => true
  end.

Definition outage_step (now boot : Z) (reg : DeviceRegistry) (acc : option Z * bool) (id : string) : option Z * bool :=
  let '(worst, ready) := acc in
  let longer o := (Some (match worst with Some w => Z.max w o | None => o end), ready) in
  match reg !! id with
  | Some d =>
      if bool_decide (di_status d = Offline) then longer (Z.max (now - di_last_heartbeat d) 0)
      else (worst, ready && match di_control_endpoint d with Some _ => true | None => false end)
  | None => longer (Z.max (now - boot) 0)
  end.

Section handler.
Context {T : Type} `{StubBinding T} (cf : LmConfig).

Definition fallback_io_disposition_core (now boot ceiling : Z) (proxy : bool) (key : string) (m : LayoutManager) (t : T) :
    FallbackIoDisposition * LayoutManager :=
  match placement_or_recovered key m t with
  | (None, m') =>
      (match stub_meta t key with
       | Some meta => if (0 <? sm_len meta) && (sm_blocks meta =? 0) then FailFast else Serve
       | None => Serve
       end, m')
  | (Some p, m') =>
      (match truncate_dirty_age now (truncate_gate_key p key) m' with
       | Some age => if age <? ceiling then Delay else FailFast
       | None =>
           match foldl (outage_step now boot (lm_registry m')) (None, negb (file_id p =? 0)) (device_ids p) with
           | (None, ready) => if ready && proxy then Proxy else FailFast
           | (Some outage, _) => if outage <? ceiling then Delay else FailFast
           end
       end, m')
  end.

Definition fallback_io_disposition (now boot ceiling : Z) (proxy : bool) (key : string) (m : LayoutManager) (t : T) :
    FallbackIoDisposition * LayoutManager :=
  if bool_decide (layout_class_for cf key m = Scsi) then (FailFast, m)
  else fallback_io_disposition_core now boot ceiling proxy key m t.

(** ** LAYOUTGET *)
Inductive LayoutGetError := LgTryLater | LgUnknownLayoutType | LgLayoutUnavailable.
Record LayoutGetResult := LayoutGot {
  lg_return_on_close : bool; lg_stateid : LayoutStateId; lg_offset : Z; lg_length : Z; lg_iomode : IoMode;
  lg_layout_type : LayoutType; lg_segments : list LayoutSegment; lg_stripe_unit : Z; lg_device_id_bin : Z;
  lg_file_id : Z; lg_stripe_width : nat }.

Definition files_type (ty : LayoutType) : bool := match ty with NfsV4_1Files | FlexFiles => true | _ => false end.

Definition gated (key : string) (m : LayoutManager) : bool :=
  match placement_for key m with
  | Some p => match truncate_dirty_since (truncate_gate_key p key) m with Some _ => true | None => false end
  | None => false
  end.

Definition layoutget (owner : LayoutOwner) (fh : list Z) (key : string) (offset length : Z) (iomode : IoMode)
    (ty : LayoutType) (draw : Draw) (m : LayoutManager) (t : T) :
    result LayoutGetError LayoutGetResult * LayoutManager * T :=
  if gated key m then (Err LgTryLater, m, t)
  else if negb (files_type ty) then (Err LgUnknownLayoutType, m, t)
  else match generate_layout cf owner fh key offset length iomode draw m t with
       | (Err GrantRacedTruncate, m', t') => (Err LgTryLater, m', t')
       | (Err _, m', t') => (Err LgLayoutUnavailable, m', t')
       | (Ok l, m', t') =>
           match placement_for key m' with
           | None => (Err LgLayoutUnavailable, m', t')
           | Some p =>
               (Ok (LayoutGot (ly_return_on_close l) (ly_stateid l) offset length iomode ty (ly_segments l)
                      (stripe_size p) (composite_device_id cf (device_ids p)) (file_id p)
                      (List.length (device_ids p))), m', t')
           end
       end.
End handler.

(** ** LAYOUTRETURN *)
Inductive LayoutReturnError := LrUnknownLayoutType | LrInval | LrBadStateId.
Inductive LayoutReturnType := ReturnFile (stateid : LayoutStateId) (body : list Z) | ReturnFsid | ReturnAll.

(** [ff_decodes]: does the flexible-files body decode ([FfLayoutReturn4]). *)
Definition layoutreturn (ff_decodes : list Z -> bool) (ty : LayoutType) (what : LayoutReturnType) (client fsid : Z)
    (m : LayoutManager) : result LayoutReturnError unit * LayoutManager :=
  if negb (files_type ty) then (Err LrUnknownLayoutType, m)
  else match what with
       | ReturnFile s body =>
           if bool_decide (ty = FlexFiles) && negb (bool_decide (body = [])) && negb (ff_decodes body) then (Err LrInval, m)
           else match return_layout s m with
                | (Ok _, m') => (Ok tt, m')
                | (Err _, m') => (Err LrBadStateId, m')
                end
       | ReturnFsid => (Ok tt, (return_fsid_for_client client fsid m).2)
       | ReturnAll => (Ok tt, (return_all_for_client client m).2)
       end.

(** LAYOUTCOMMIT of an unknown stateid is refused; else the size and time it
    reports are echoed. *)
Definition layoutcommit (s : LayoutStateId) (new_offset new_time now : option Z) (m : LayoutManager) :
    option (option Z * option Z) :=
  _ ← get_layout s m; Some (new_offset, match new_time with Some t => Some t | None => now end).

(** ** The hooks *)
Section hooks.
Context (cf : LmConfig) (export_fs : string).

Definition is_pnfs_managed (key : string) (m : LayoutManager) : bool := has_placement key m.
Definition truncate_gate_ceiling (key : string) (m : LayoutManager) : option Z :=
  p ← placement_for key m; snd <$> truncate_dirty_state (truncate_gate_key p key) m.
Definition write_layout_holders (key : string) (m : LayoutManager) : list Z :=
  match placement_for key m with
  | Some p => write_capable_holders (truncate_gate_key p key) m
  | None => []
  end.
Definition link_allowed (key : string) (m : LayoutManager) : bool :=
  if bool_decide (layout_class_for cf key m = Scsi) then false else negb (is_pnfs_managed key m).

Definition legacy_stripe_rel_path (key : string) : string := String.append (trim_start_slash export_fs) (String "/" key).
Definition cleanup_stripes (p : FilePlacement) (key : string) (m : LayoutManager) : LayoutManager :=
  if negb (file_id p =? 0) then enqueue_stripe_cleanup p m else enqueue_legacy_cleanup p (legacy_stripe_rel_path key) m.

(** The files class; a scsi-class file's extents are reclaimed elsewhere. *)
Definition note_remove (key : string) (m : LayoutManager) : LayoutManager :=
  if bool_decide (layout_class_for cf key m = Scsi) then m
  else match forget_placement key m with
       | (Some p, m') => cleanup_stripes p key m'
       | (None, m') => m'
       end.

Definition rename_preserves_data (old : string) (m : LayoutManager) : bool :=
  match placement_for old m with Some p => negb (file_id p =? 0) | None => true end &&
  negb (has_legacy_placements_under old m).

Definition note_rename (old new : string) (m : LayoutManager) : LayoutManager :=
  if bool_decide (layout_class_for cf old m = Scsi) then
    if bool_decide (first_component old = first_component new) then (rekey_scsi_layouts old new m).2 else m
  else
    let m1 := match rename_placement old new m with
              | (Ok (Some p), m') => cleanup_stripes p new m'
              | (Ok None, m') | (Err _, m') => m'
              end in
    (rename_placements_under old new m1).2.

(** Recall, then revoke each recalled stateid whatever its answer. *)
Definition recall_and_revoke (now : Z) (gate : string) (m : LayoutManager) : LayoutManager :=
  let '(recalled, m1) := recall_layouts_for_file gate m in
  foldl (fun m t => (revoke_layout now t.1.2 m).2) m1 recalled.

(** Nothing is recalled before a callback manager is attached. *)
Definition recall_for_truncate (attached : bool) (now : Z) (gate : string) (m : LayoutManager) : LayoutManager :=
  if attached then recall_and_revoke now gate m else m.

(** SETATTR(size) on a striped file (a scsi-class file's extents are
    reclaimed elsewhere): gate, recall, fan out, and lift the gate
    when every pinned data server confirmed.  The boolean is whether a
    background retry is left armed. *)
Definition note_truncate (attached : bool) (up : string -> bool) (now unix : Z) (key : string) (size : Z)
    (m : LayoutManager) (fleet : Fleet) : bool * LayoutManager * Fleet :=
  if bool_decide (layout_class_for cf key m = Scsi) then (false, m, fleet)
  else match placement_for key m with
  | None => (false, m, fleet)
  | Some p =>
      let gate := truncate_gate_key p key in
      let m1 := recall_for_truncate attached now gate (mark_truncate_dirty now unix gate size m) in
      let '(ok, fleet') := truncate_fanout up (lm_registry m1) export_fs key p size fleet in
      if ok then (false, (clear_truncate_dirty_if gate size m1).2, fleet') else (true, m1, fleet')
  end.

(** One round of the retry that note_truncate or a restart armed.  The
    boolean is whether the loop goes on. *)
Definition retry_truncate (up : string -> bool) (gate key : string) (p : FilePlacement) (m : LayoutManager) (fleet : Fleet) :
    bool * LayoutManager * Fleet :=
  match truncate_dirty_state gate m with
  | None => (false, m, fleet)
  | Some (_, least) =>
      let '(ok, fleet') := truncate_fanout up (lm_registry m) export_fs key p least fleet in
      if ok then (false, (clear_truncate_dirty_if gate least m).2, fleet') else (true, m, fleet')
  end.
End hooks.

(** The layout-handle half of the lease sweep. *)
Definition sweep_handles (alive : Z -> bool) (m : LayoutManager) : LayoutManager :=
  foldl (fun m c => if alive c then m else (return_all_for_client c m).2) m (owner_clients m).
