(* ===== verification/PnfsStripes.v ===== *)
(** The striped file a set of data servers holds, seen as one flat file: a
    proxied write, a proxied read and a confirmed truncation do to it what
    they would do to a file on one disk. *)

From Stdlib Require Import Ascii String.
From S2P Require Import Prelude Csv PnfsPlacement PnfsPlacementProps PnfsLayout PnfsOps.

(** ** Files whose missing bytes read as zero *)
Definition byte (f : list Z) (k : nat) : Z := default 0 (f !! k).

Lemma byte_nil k : byte [] k = 0.
Proof. unfold byte. by rewrite lookup_nil. Qed.
Lemma byte_app a b k : byte (a ++ b) k = if decide (k < length a)%nat then byte a k else byte b (k - length a).
Proof.
  unfold byte. destruct (decide (k < length a)%nat).
  - by rewrite lookup_app_l.
  - by rewrite lookup_app_r by lia.
Qed.
Lemma byte_take n f k : byte (take n f) k = if decide (k < n)%nat then byte f k else 0.
Proof.
  unfold byte. destruct (decide (k < n)%nat); [by rewrite lookup_take_lt | by rewrite lookup_take_ge by lia].
Qed.
Lemma byte_drop n f k : byte (drop n f) k = byte f (n + k).
Proof. unfold byte. by rewrite lookup_drop. Qed.
Lemma byte_zeros n k : byte (replicate n 0) k = 0.
Proof. unfold byte. destruct (replicate n 0 !! k) eqn:E; [| done]. by apply lookup_replicate in E as [-> _]. Qed.
Lemma byte_past f k : (length f <= k)%nat -> byte f k = 0.
Proof. intros. unfold byte. by rewrite lookup_ge_None_2. Qed.

Lemma byte_pad n f k : byte (pad n f) k = byte f k.
Proof.
  unfold pad. rewrite byte_app. destruct (decide _); [done |]. by rewrite byte_zeros, byte_past by lia.
Qed.
Lemma length_pad n f : (n <= length (pad n f))%nat.
Proof. unfold pad. rewrite length_app, length_replicate. lia. Qed.

Lemma byte_set_len n f k : byte (set_len n f) k = if decide (k < Z.to_nat n)%nat then byte f k else 0.
Proof. unfold set_len. rewrite byte_take. by rewrite byte_pad. Qed.

Lemma byte_write_at off d f k :
  byte (write_at off d f) k =
    if decide (Z.to_nat off <= k < Z.to_nat off + length d)%nat then byte d (k - Z.to_nat off) else byte f k.
Proof.
  unfold write_at. destruct d as [| x d].
  { cbn [length]. destruct (decide _); [lia | done]. }
  set (dd := x :: d). set (o := Z.to_nat off). rewrite byte_app, length_take, Nat.min_l by apply length_pad.
  rewrite byte_take, byte_pad, byte_app, byte_drop.
  destruct (decide (k < o)%nat), (decide (o <= k < o + length dd)%nat); try lia.
  - destruct (decide _); [done | lia].
  - destruct (decide _); [lia |]. f_equal. lia.
Qed.

Lemma byte_read_at off count f k :
  byte (read_at off count f) k = if decide (k < Z.to_nat count)%nat then byte f (Z.to_nat off + k) else 0.
Proof. unfold read_at. by rewrite byte_take, byte_drop. Qed.

Lemma byte_overlay start d out k : (start <= length out)%nat ->
  byte (overlay start d out) k =
    if decide (start <= k < start + length d)%nat then byte d (k - start) else byte out k.
Proof.
  intros Hs. unfold overlay. rewrite byte_app, length_take, Nat.min_l by done. rewrite byte_take, byte_app, byte_drop.
  destruct (decide (k < start)%nat), (decide (start <= k < start + length d)%nat); try lia.
  - destruct (decide _); [done | lia].
  - destruct (decide _); [lia |]. f_equal. lia.
Qed.
Lemma length_overlay start d out : (start + length d <= length out)%nat -> length (overlay start d out) = length out.
Proof. intros. unfold overlay. rewrite !length_app, length_take, length_drop. lia. Qed.

Lemma list_eq_byte a b : length a = length b -> (forall k, (k < length a)%nat -> byte a k = byte b k) -> a = b.
Proof.
  intros Hl Hb. apply list_eq_same_length with (length a); [done | done |].
  intros k x y Hk Hx Hy. specialize (Hb k Hk). unfold byte in Hb. rewrite Hx, Hy in Hb. done.
Qed.

(** ** The byte at a file offset *)
Section stripes.
Context (p : FilePlacement) (reg : DeviceRegistry).

Definition cell (fleet : Fleet) (e rel : string) (i : Z) : Z :=
  match fleet !! e with Some n => byte (default [] (dn_files n !! rel)) (Z.to_nat i) | None => 0 end.
Definition stripe_byte (fleet : Fleet) (i : Z) : Z :=
  match proxy_target p reg i with Some (_, e, rel) => cell fleet e rel i | None => 0 end.

Definition slot_of (i : Z) : nat := Z.to_nat (slot_for_offset p i).

Lemma target_of_slot i : proxy_target p reg i =
  if file_id p =? 0 then None
  else d ← device_ids p !! slot_of i; info ← reg !! d; e ← di_control_endpoint info;
       Some (d, e, stripe_rel_path p (slot_of i)).
Proof. done. Qed.

Lemma target_same i j : slot_of i = slot_of j -> proxy_target p reg i = proxy_target p reg j.
Proof. rewrite !target_of_slot. by intros ->. Qed.

Lemma target_rel i d e rel : proxy_target p reg i = Some (d, e, rel) -> rel = stripe_rel_path p (slot_of i).
Proof.
  rewrite target_of_slot. destruct (file_id p =? 0); [done |].
  intros (d' & _ & H)%bind_Some. apply bind_Some in H as (info & _ & H). apply bind_Some in H as (e' & _ & H). congruence.
Qed.

Lemma rel_inj a b : Z.of_nat a <= u64_max -> Z.of_nat b <= u64_max ->
  stripe_rel_path p a = stripe_rel_path p b -> a = b.
Proof.
  intros Ha Hb H. unfold stripe_rel_path in H. apply append_cancel, append_cancel in H.
  assert (parse_u64 (show_u64 (Z.of_nat a)) = parse_u64 (show_u64 (Z.of_nat b))) as He by (by rewrite H).
  rewrite !parse_show_u64 in He by lia. simplify_eq. lia.
Qed.

Context (Hp : sane p).

Lemma slot_small i : is_u64 i -> Z.of_nat (slot_of i) <= u64_max.
Proof.
  intros Hi. unfold slot_of. destruct (slot_is_rfc_slot p i Hp Hi) as [_ Hr].
  destruct Hp as (_ & _ & Hw). unfold width_of in Hr. bounds.
Qed.

Lemma call_update_Some up fleet e f fleet' : call_update up fleet e f = Some fleet' ->
  up e = true /\ exists n n', fleet !! e = Some n /\ f n = Some n' /\ fleet' = <[e := n']> fleet.
Proof.
  unfold call_update, call. destruct (up e); [| done]. intros (n' & H & ?)%bind_Some.
  apply bind_Some in H as (n & Hn & Hf). simplify_eq. eauto 10.
Qed.

(** One chunk written at its slot: only its own bytes change. *)
Lemma write_cell up fleet fleet' co d e rel data : is_u64 co ->
  proxy_target p reg co = Some (d, e, rel) ->
  call_update up fleet e (write_stripe d rel co data) = Some fleet' ->
  (forall i, co <= i < co + Z.of_nat (length data) -> slot_of i = slot_of co) ->
  forall i, is_u64 i -> stripe_byte fleet' i =
    if decide (co <= i < co + Z.of_nat (length data)) then byte data (Z.to_nat (i - co)) else stripe_byte fleet i.
Proof.
  intros Hco Ht (_ & n & n' & Hn & Hf & ->)%call_update_Some Hslot i Hi.
  unfold write_stripe in Hf. destruct (validate_stripe_target _ _ _); [| done]. destruct (_ <=? i64_max); [| done].
  simplify_eq. pose proof (target_rel _ _ _ _ Ht) as Hrel.
  unfold stripe_byte. destruct (decide (slot_of i = slot_of co)) as [Hs | Hs].
  - rewrite (target_same _ _ Hs), Ht. unfold cell. rewrite lookup_insert_eq, Hn. cbn [upd_files dn_files]. rewrite lookup_insert_eq. cbn [default from_option id].
    rewrite byte_write_at. destruct Hi, Hco.
    destruct (decide (Z.to_nat co <= Z.to_nat i < Z.to_nat co + length data)%nat), (decide (co <= i < _)); try lia.
    f_equal. lia.
  - destruct (decide (co <= i < _)) as [Hin | _]; [by rewrite (Hslot i Hin) in Hs |].
    destruct (proxy_target p reg i) as [[[d' e'] rel'] |] eqn:Ht'; [| done].
    pose proof (target_rel _ _ _ _ Ht') as Hrel'.
    assert (rel' <> rel) as Hne.
    { rewrite Hrel, Hrel'. intros He. apply Hs, rel_inj; [by apply slot_small .. | done]. }
    unfold cell. destruct (decide (e' = e)) as [-> |]; [| by rewrite lookup_insert_ne].
    rewrite lookup_insert_eq, Hn. cbn [upd_files dn_files]. by rewrite lookup_insert_ne.
Qed.

(** A chunk read at its slot. *)
Lemma read_cell up fleet co cl d e rel data : is_u64 co -> 0 < cl <= u32_max ->
  proxy_target p reg co = Some (d, e, rel) ->
  call up fleet e (read_stripe d rel co (wrap_u32 cl)) = Some data ->
  (forall i, co <= i < co + cl -> slot_of i = slot_of co) ->
  (length data <= Z.to_nat cl)%nat /\ forall i, co <= i < co + cl -> stripe_byte fleet i = byte data (Z.to_nat (i - co)).
Proof.
  intros Hco Hcl Ht Hc Hslot. unfold wrap_u32 in Hc. rewrite Z.mod_small in Hc by bounds.
  unfold call in Hc. destruct (up e); [| done]. apply bind_Some in Hc as (n & Hn & Hc).
  unfold read_stripe in Hc. destruct (validate_stripe_target _ _ _); [| done]. destruct (READ_CEILING <? cl); [done |].
  assert (forall i, co <= i < co + cl -> stripe_byte fleet i = byte (default [] (dn_files n !! rel)) (Z.to_nat i)) as Hb.
  { intros i Hin. unfold stripe_byte. rewrite (target_same _ _ (Hslot i Hin)), Ht. unfold cell. by rewrite Hn. }
  destruct (dn_files n !! rel) as [f |].
  - destruct (co <=? i64_max); [| done]. simplify_eq. split.
    + unfold read_at. rewrite length_take. lia.
    + intros i Hin. rewrite Hb by done. rewrite byte_read_at. destruct Hco. destruct (decide _); [| lia]. cbn. f_equal. lia.
  - simplify_eq. split; [cbn; lia |]. intros i Hin. rewrite Hb by done. by rewrite !byte_nil.
Qed.

(** ** The chunks of a range *)
Lemma tiles_le size cur end_ chunks : tiles size cur end_ chunks -> cur <= end_.
Proof. induction 1; lia. Qed.

Lemma unit_slots co n : 0 < n -> 0 <= co -> co / stripe_size p = (co + n - 1) / stripe_size p ->
  forall i, co <= i < co + n -> slot_of i = slot_of co.
Proof.
  intros Hn Hco Hu i Hi. unfold slot_of. f_equal. apply same_unit_same_slot. destruct Hp as (_ & Hs & _).
  assert (co / stripe_size p <= i / stripe_size p) by (apply Z.div_le_mono; lia).
  assert (i / stripe_size p <= (co + n - 1) / stripe_size p) by (apply Z.div_le_mono; lia). lia.
Qed.

Lemma write_chunks_spec up offset data : forall chunks cur fleet fleet',
  tiles (stripe_size p) cur (offset + Z.of_nat (length data)) chunks -> 0 <= offset <= cur ->
  offset + Z.of_nat (length data) <= u64_max ->
  write_chunks up reg p offset data fleet chunks = (true, fleet') ->
  forall i, is_u64 i -> stripe_byte fleet' i =
    if decide (cur <= i < offset + Z.of_nat (length data)) then byte data (Z.to_nat (i - offset)) else stripe_byte fleet i.
Proof.
  induction chunks as [| [co cl] chunks IH]; intros cur fleet fleet' Ht Hoff Hmax Hw i Hi.
  { inversion Ht; subst. cbn in Hw. simplify_eq. destruct (decide _); [lia | done]. }
  inversion Ht as [| co' n end_ rest Hn Hu Ht' E1 E2]; subst. cbn [write_chunks] in Hw.
  destruct (proxy_target p reg co) as [[[d e] rel] |] eqn:Htg; cbn [mbind option_bind] in Hw; [| done].
  destruct (call_update _ _ _ _) as [fleet1 |] eqn:Hc; [| done].
  pose proof (tiles_le _ _ _ _ Ht') as Hle.
  set (piece := take (Z.to_nat cl) (drop (Z.to_nat (co - offset)) data)) in *.
  assert (Z.of_nat (length piece) = cl) as Hlen.
  { subst piece. rewrite length_take, length_drop. lia. }
  rewrite (IH (co + cl) fleet1 fleet' Ht' ltac:(lia) Hmax Hw i Hi).
  rewrite (write_cell up fleet fleet1 co d e rel piece) with (5 := Hi);
    [| split; lia | done | done | rewrite Hlen; by apply unit_slots; lia]. rewrite Hlen.
  destruct (decide (co + cl <= i < _)), (decide (co <= i < co + cl)), (decide (co <= i < _)); try lia; try done.
  subst piece. rewrite byte_take. destruct (decide _); [| lia]. rewrite byte_drop. f_equal. lia.
Qed.

Lemma read_chunks_spec up fleet offset end_ : 0 <= offset -> end_ <= u64_max -> end_ - offset <= u32_max ->
  forall chunks cur datas out, tiles (stripe_size p) cur end_ chunks -> offset <= cur ->
  read_chunks up reg p fleet chunks = Some datas -> length out = Z.to_nat (end_ - offset) ->
  (forall j, offset + Z.of_nat j < end_ ->
     byte out j = if decide (offset + Z.of_nat j < cur) then stripe_byte fleet (offset + Z.of_nat j) else 0) ->
  let out' := foldl (assemble_step offset (Z.to_nat (end_ - offset))) out datas in
  length out' = Z.to_nat (end_ - offset) /\
  forall j, offset + Z.of_nat j < end_ -> byte out' j = stripe_byte fleet (offset + Z.of_nat j).
Proof.
  intros Hoff Hmax H32. induction chunks as [| [co cl] chunks IH]; intros cur datas out Ht Hcur Hr Hlen Hout.
  { inversion Ht; subst. cbn in Hr. simplify_eq. cbn. split; [done |]. intros j Hj. rewrite Hout by done.
    by destruct (decide _); [| lia]. }
  inversion Ht as [| co' n e_ rest Hn Hu Ht' E1 E2]; subst. cbn [read_chunks] in Hr.
  pose proof (tiles_le _ _ _ _ Ht') as Hle.
  destruct (proxy_target p reg co) as [[[d e] rel] |] eqn:Htg; cbn [mbind option_bind] in Hr; [| done].
  destruct (call _ _ _ _) as [data |] eqn:Hc; cbn [mbind option_bind] in Hr; [| done].
  destruct (read_chunks up reg p fleet chunks) as [more |] eqn:Hm; cbn [mbind option_bind] in Hr; [| done].
  simplify_eq. cbn [foldl].
  destruct (read_cell up fleet co cl d e rel data ltac:(split; lia) ltac:(lia) Htg Hc ltac:(apply unit_slots; lia)) as [Hdl Hd].
  set (W := Z.to_nat (end_ - offset)) in *. set (S0 := Z.to_nat (co - offset)).
  assert (length (assemble_step offset W out (co, data)) = W /\
    forall j, offset + Z.of_nat j < end_ -> byte (assemble_step offset W out (co, data)) j =
      if decide (offset + Z.of_nat j < co + cl) then stripe_byte fleet (offset + Z.of_nat j) else 0) as [Hl1 Hb1].
  { assert (forall j, offset + Z.of_nat j < end_ ->
       (if decide (S0 <= j < S0 + length data)%nat then byte data (j - S0) else byte out j) =
       if decide (offset + Z.of_nat j < co + cl) then stripe_byte fleet (offset + Z.of_nat j) else 0) as Hmix.
    { intros j Hj. rewrite Hout by done. subst S0.
      destruct (decide (offset + Z.of_nat j < co + cl)) as [Hin |].
      - destruct (decide (offset + Z.of_nat j < co)).
        + destruct (decide _); [lia | done].
        + rewrite (Hd (offset + Z.of_nat j)) by lia. destruct (decide _); [f_equal; lia |].
          rewrite byte_past by lia. done.
      - destruct (decide (Z.to_nat (co - offset) <= j < _)%nat); [lia |]. destruct (decide _); [lia | done]. }
    unfold assemble_step. cbn [fst snd]. fold S0. destruct data as [| x data].
    - split; [done |]. intros j Hj. rewrite <- Hmix by done. cbn [length]. destruct (decide _); [lia | done].
    - set (dd := x :: data) in *. destruct (Nat.leb_spec W S0); [subst W S0; lia |].
      rewrite take_ge by (subst W S0; lia). split.
      + rewrite length_overlay; [done |]. subst W S0. lia.
      + intros j Hj. rewrite byte_overlay by lia. by apply Hmix. }
  apply (IH (co + cl)); [done | lia | done | done | done].
Qed.
End stripes.

Section fanout.
Context (p : FilePlacement) (reg : DeviceRegistry) (Hp : sane p) (Hid : file_id p <> 0).

Lemma target_slot i d : device_ids p !! slot_of p i = Some d ->
  proxy_target p reg i = info ← reg !! d; e ← di_control_endpoint info; Some (d, e, stripe_rel_path p (slot_of p i)).
Proof. intros Hd. rewrite target_of_slot. rewrite (proj2 (Z.eqb_neq _ _)) by done. by rewrite Hd. Qed.

Lemma fanout_step_spec up len ok fleet s d fleet' : 0 <= len -> device_ids p !! s = Some d -> Z.of_nat s <= u64_max ->
  fanout_step up reg (stripe_rel_path p) len (ok, fleet) (s, d) = (true, fleet') ->
  ok = true /\ forall i, is_u64 i -> stripe_byte p reg fleet' i =
    if decide (slot_of p i = s /\ len <= i) then 0 else stripe_byte p reg fleet i.
Proof.
  intros Hlen Hd Hs. unfold fanout_step. cbn [fst snd].
  destruct (reg !! d) as [info |] eqn:Hr; cbn [mbind option_bind]; [| done].
  destruct (di_control_endpoint info) as [e |] eqn:He; cbn [mbind option_bind]; [| done].
  destruct (call_update _ _ _ _) as [fleet1 |] eqn:Hc; [| done]. intros Heq. simplify_eq. split; [done |]. intros i Hi.
  apply call_update_Some in Hc as (_ & n & n' & Hn & Hf & ->).
  unfold truncate_stripe_file in Hf. destruct (validate_stripe_target _ _ _); [| done].
  unfold stripe_byte. destruct (decide (slot_of p i = s)) as [Hsl | Hsl].
  - subst s. rewrite (target_slot i d Hd), Hr. cbn [mbind option_bind]. rewrite He. cbn [mbind option_bind].
    unfold cell. rewrite lookup_insert_eq, Hn.
    destruct (dn_files n !! stripe_rel_path p (slot_of p i)) as [f |] eqn:Ef.
    + destruct (len <=? i64_max); [| done]. simplify_eq. cbn [upd_files dn_files]. rewrite lookup_insert_eq.
      cbn [default from_option id]. rewrite byte_set_len. destruct Hi.
      destruct (decide (Z.to_nat i < Z.to_nat len)%nat), (decide (slot_of p i = slot_of p i /\ len <= i)); try lia; try done.
    + simplify_eq. rewrite Ef. cbn [default from_option id]. rewrite byte_nil. by destruct (decide _).
  - destruct (decide (slot_of p i = s /\ len <= i)) as [[? _] | _]; [done |].
    destruct (proxy_target p reg i) as [[[d' e'] rel'] |] eqn:Ht; [| done].
    pose proof (target_rel _ _ _ _ _ _ Ht) as Hrel.
    assert (rel' <> stripe_rel_path p s) as Hne.
    { rewrite Hrel. intros Hx. apply Hsl. eapply rel_inj; [| done |]; [by apply slot_small | done]. }
    unfold cell. destruct (decide (e' = e)) as [-> |]; [| by rewrite lookup_insert_ne].
    rewrite lookup_insert_eq, Hn.
    destruct (dn_files n !! stripe_rel_path p s) as [f |].
    + destruct (len <=? i64_max); [| done]. simplify_eq. cbn [upd_files dn_files]. by rewrite lookup_insert_ne.
    + by simplify_eq.
Qed.

Lemma fanout_fold up len : 0 <= len -> forall l ok fleet fleet',
  Forall (fun sd => device_ids p !! sd.1 = Some sd.2 /\ Z.of_nat sd.1 <= u64_max) l ->
  foldl (fanout_step up reg (stripe_rel_path p) len) (ok, fleet) l = (true, fleet') ->
  ok = true /\ forall i, is_u64 i -> stripe_byte p reg fleet' i =
    if decide (slot_of p i ∈ l.*1 /\ len <= i) then 0 else stripe_byte p reg fleet i.
Proof.
  intros Hlen l. induction l as [| [s d] l IH]; intros ok fleet fleet' Hl Hf; cbn [foldl] in Hf.
  { simplify_eq. split; [done |]. intros i _. destruct (decide _) as [[Hx _] |]; [inversion Hx | done]. }
  apply Forall_cons_1 in Hl as [[Hd Hs] Hl].
  destruct (fanout_step up reg (stripe_rel_path p) len (ok, fleet) (s, d)) as [ok1 fleet1] eqn:E1.
  destruct (IH _ _ _ Hl Hf) as [-> H2]. destruct (fanout_step_spec _ _ _ _ _ _ _ Hlen Hd Hs E1) as [-> H1].
  split; [done |]. intros i Hi. rewrite (H2 i Hi), (H1 i Hi). cbn [fmap list_fmap fst].
  destruct (decide (slot_of p i ∈ l.*1 /\ len <= i)), (decide (slot_of p i = s /\ len <= i)),
    (decide (slot_of p i ∈ s :: l.*1 /\ len <= i)) as [Hx | Hx]; try done.
  all: rewrite elem_of_cons in Hx; naive_solver.
Qed.

Lemma imap_pair_lookup {A} (l : list A) : Forall (fun sd => l !! sd.1 = Some sd.2) (imap pair l).
Proof.
  apply Forall_forall. intros [s d] Hin. apply list_elem_of_lookup_1 in Hin as [k Hk].
  apply list_lookup_imap_Some in Hk as (x & Hx & [= -> ->]). done.
Qed.
Lemma imap_pair_slots {A} (l : list A) s : (s < length l)%nat -> s ∈ (imap pair l).*1.
Proof.
  intros Hs. destruct (lookup_lt_is_Some_2 l s Hs) as [d Hd]. apply list_elem_of_fmap. exists (s, d). split; [done |].
  apply list_elem_of_lookup_2 with s. by rewrite list_lookup_imap, Hd.
Qed.

Lemma truncate_fanout_spec up export key len fleet fleet' : 0 <= len -> device_ids p <> [] ->
  truncate_fanout up reg export key p len fleet = (true, fleet') ->
  forall i, is_u64 i -> stripe_byte p reg fleet' i = if decide (len <= i) then 0 else stripe_byte p reg fleet i.
Proof.
  intros Hlen Hne Hf i Hi. unfold truncate_fanout in Hf. rewrite (proj2 (Z.eqb_neq _ _)) in Hf by done. cbn [negb] in Hf.
  apply fanout_fold in Hf as [_ H]; [| done |].
  - rewrite (H i Hi).
    assert (slot_of p i ∈ (imap pair (device_ids p)).*1) as Hin.
    { apply imap_pair_slots. destruct (slot_is_rfc_slot p i Hp Hi) as [_ Hr]. unfold slot_of, width_of in *.
      destruct (device_ids p); [done | cbn [length] in *; lia]. }
    destruct (decide (len <= i)), (decide (_ /\ len <= i)); naive_solver.
  - apply Forall_forall. intros [s d] Hin. pose proof (proj1 (Forall_forall _ _) (imap_pair_lookup (device_ids p)) _ Hin) as Hl.
    cbn in *. split; [done |]. apply lookup_lt_Some in Hl. destruct Hp as (_ & _ & Hw). bounds.
Qed.
End fanout.

(** ** The flat file *)
Definition FlatFile := Z -> Z.
Definition flat_write (off : Z) (data : list Z) (F : FlatFile) : FlatFile :=
  fun i => if decide (off <= i < off + Z.of_nat (length data)) then byte data (Z.to_nat (i - off)) else F i.
Definition flat_truncate (len : Z) (F : FlatFile) : FlatFile := fun i => if decide (len <= i) then 0 else F i.
Definition flat_read (off count size : Z) (F : FlatFile) : list Z * bool :=
  let want := Z.min count (Z.max (size - off) 0) in
  ((fun j => F (off + Z.of_nat j)) <$> seq 0 (Z.to_nat want), size <=? off + want).

(** What the data servers hold is [F]. *)
Definition represents (p : FilePlacement) (reg : DeviceRegistry) (fleet : Fleet) (F : FlatFile) : Prop :=
  forall i, is_u64 i -> stripe_byte p reg fleet i = F i.

(** Where a file's bytes are depends on a registry through its control
    endpoints only. *)
Definition same_endpoints (r r' : DeviceRegistry) : Prop :=
  forall d, (di_control_endpoint <$> r !! d) = (di_control_endpoint <$> r' !! d).
#[global] Instance same_endpoints_equiv : Equivalence same_endpoints.
Proof.
  split; [by intros r d | intros r r' Hr d; by rewrite Hr | intros a b c H1 H2 d; by rewrite H1, H2].
Qed.
#[global] Instance proxy_target_proper p : Proper (same_endpoints ==> eq ==> eq) (proxy_target p).
Proof.
  intros r r' Hr off _ <-. unfold proxy_target. destruct (file_id p =? 0); [done |].
  destruct (device_ids p !! _) as [d |]; [| done]. cbn. specialize (Hr d).
  destruct (r !! d), (r' !! d); simplify_eq/=; [by rewrite Hr | done].
Qed.
#[global] Instance represents_proper p : Proper (same_endpoints ==> eq ==> eq ==> iff) (represents p).
Proof.
  intros r r' Hr fleet _ <- F _ <-. unfold represents, stripe_byte.
  split; intros H i Hi; [rewrite <- Hr | rewrite Hr]; by apply H.
Qed.

Definition enough (fuel : nat) (p : FilePlacement) (off len : Z) : Prop := len / stripe_size p + 2 < Z.of_nat fuel.

Lemma split_enough fuel p off len : sane p -> 0 <= off -> 0 <= len -> off + len + stripe_size p <= 2 ^ 64 ->
  enough fuel p off len ->
  exists chunks, split_at_stripe_bounds fuel p off len = Done chunks /\ tiles (stripe_size p) off (off + len) chunks.
Proof.
  intros (_ & Hs & _) Hoff Hlen Hmax Hf. unfold split_at_stripe_bounds, saturating_add_u64.
  rewrite Z.min_l by bounds.
  destruct (split_loop_tiles (stripe_size p) (off + len) ltac:(lia) Hmax fuel off ltac:(lia)) as (c & H1 & H2 & _); [| by eauto].
  unfold units. destruct (off <? off + len) eqn:E; [| unfold enough in Hf; assert (0 <= len / stripe_size p) by (apply Z.div_pos; lia); lia].
  apply Z.ltb_lt in E. unfold enough in Hf.
  assert ((off + len - 1) / stripe_size p <= off / stripe_size p + len / stripe_size p + 1).
  { pose proof (Z.div_mod off (stripe_size p) ltac:(lia)). pose proof (Z.mod_pos_bound off (stripe_size p) ltac:(lia)).
    pose proof (Z.div_mod len (stripe_size p) ltac:(lia)). pose proof (Z.mod_pos_bound len (stripe_size p) ltac:(lia)).
    apply Z.lt_succ_r. apply Z.div_lt_upper_bound; [lia |]. nia. }
  lia.
Qed.

Lemma proxy_write_refines up reg p fleet F off data fuel : sane p -> represents p reg fleet F ->
  0 <= off -> off + Z.of_nat (length data) + stripe_size p <= 2 ^ 64 -> enough fuel p off (Z.of_nat (length data)) ->
  exists ok fleet', proxy_fallback_write up reg fuel p fleet off data = Done (ok, fleet') /\
    (ok = true -> represents p reg fleet' (flat_write off data F)).
Proof.
  intros Hp HF Hoff Hmax Hf.
  destruct (split_enough fuel p off (Z.of_nat (length data)) Hp Hoff ltac:(lia) Hmax Hf) as (chunks & Hs & Ht).
  unfold proxy_fallback_write. rewrite Hs. cbn [run_map].
  destruct (write_chunks up reg p off data fleet chunks) as [ok fleet'] eqn:Hw. exists ok, fleet'. split; [done |].
  intros -> i Hi. unfold flat_write. assert (1 < stripe_size p) by apply Hp.
  rewrite (write_chunks_spec p reg Hp up off data chunks off fleet fleet' Ht) by (done || bounds).
  by rewrite (HF i Hi).
Qed.

Lemma proxy_read_refines up reg p fleet F off count size fuel : sane p -> represents p reg fleet F ->
  0 <= off -> is_u32 count -> off + Z.min count (Z.max (size - off) 0) + stripe_size p <= 2 ^ 64 ->
  enough fuel p off (Z.min count (Z.max (size - off) 0)) ->
  exists r, proxy_fallback_read up reg fuel p fleet off count size = Done r /\
    (forall out, r = Some out -> out = flat_read off count size F).
Proof.
  intros Hp HF Hoff Hc Hmax Hf. set (want := Z.min count (Z.max (size - off) 0)) in *.
  assert (0 <= want <= count) as Hwant by (destruct Hc; lia).
  destruct (split_enough fuel p off want Hp Hoff ltac:(lia) Hmax Hf) as (chunks & Hs & Ht).
  unfold proxy_fallback_read. fold want. rewrite Hs. cbn [run_map]. eexists. split; [done |].
  intros out (datas & Hr & Ho)%bind_Some. simplify_eq. unfold assemble_fallback_read, flat_read. fold want. f_equal.
  assert (off + want <= u64_max) as Hmax' by (destruct Hp as (_ & ? & _); bounds).
  destruct (read_chunks_spec p reg Hp up fleet off (off + want) Hoff Hmax' ltac:(destruct Hc; lia) chunks off datas
              (replicate (Z.to_nat want) 0) Ht ltac:(lia) Hr) as [Hl Hb].
  - rewrite length_replicate. f_equal. lia.
  - intros j _. rewrite byte_zeros. destruct (decide _); [lia | done].
  - replace (off + want - off) with want in * by lia. apply list_eq_byte.
    + by rewrite length_fmap, length_seq.
    + intros k Hk. rewrite Hb by lia. unfold byte. rewrite list_lookup_fmap, lookup_seq_lt by lia. cbn.
      apply HF. bounds.
Qed.

Lemma fanout_refines up reg p export key fleet F len fleet' : sane p -> file_id p <> 0 -> device_ids p <> [] ->
  represents p reg fleet F -> 0 <= len -> truncate_fanout up reg export key p len fleet = (true, fleet') ->
  represents p reg fleet' (flat_truncate len F).
Proof.
  intros Hp Hid Hne HF Hlen Hf i Hi. rewrite (truncate_fanout_spec p reg Hp Hid up export key len fleet fleet' Hlen Hne Hf i Hi).
  unfold flat_truncate. by rewrite (HF i Hi).
Qed.
