(* ===== verification/PnfsOpsProps.v ===== *)
(** Facts about the pNFS operations: the proxy reaches its data servers, the
    disposition of I/O at the metadata server, LAYOUTGET, truncation and the
    gate, RENAME, and the binding that outlives the backend. *)

From Stdlib Require Import Ascii String.
From S2P Require Import Prelude Csv PnfsPlacement PnfsPlacementProps PnfsLayout PnfsLayoutInv PnfsLayoutReach PnfsLayoutProps PnfsOps PnfsStripes.

(** ** A stripe path is one the data server accepts *)
Definition path_char (c : ascii) : bool := negb (Ascii.eqb c "/").

Lemma all_chars_append q a b : all_chars q (String.append a b) = all_chars q a && all_chars q b.
Proof. induction a as [| c a IH]; rewrite ?append_nil, ?append_cons; [done |]. cbn. by rewrite IH, andb_assoc. Qed.

Lemma hex_path_char n : 0 <= n < 16 -> path_char (hex_char n) = true /\ Ascii.eqb (hex_char n) "." = false.
Proof.
  intros Hn. each_digit n 16%nat.
Qed.

Lemma show_hex_path w : forall n acc, all_chars path_char acc = true -> all_chars path_char (show_hex w n acc) = true.
Proof.
  induction w as [| w IH]; intros n acc Ha; [done |]. cbn [show_hex]. apply IH. cbn [all_chars].
  rewrite Ha, andb_true_r. apply hex_path_char, Z.mod_pos_bound. lia.
Qed.

Lemma show_hex_no_dot w : forall n acc, (0 < w)%nat -> exists c s, show_hex w n acc = String c s /\ Ascii.eqb c "." = false.
Proof.
  induction w as [| w IH]; intros n acc Hw; [lia |]. cbn [show_hex]. destruct w as [| w]; [| by apply IH; lia].
  cbn [show_hex]. eexists _, _. split; [done |]. apply hex_path_char, Z.mod_pos_bound. lia.
Qed.

Lemma split_slash_plain s : all_chars path_char s = true -> split_slash s = [s].
Proof.
  induction s as [| c s IH]; [done |]. cbn [split_slash all_chars]. unfold path_char at 1.
  intros [Hc Hs]%andb_true_iff. apply negb_true_iff in Hc. by rewrite Hc, (IH Hs).
Qed.

Lemma digit_path_char k : 0 <= k < 10 -> path_char (digit_char k) = true.
Proof.
  intros Hk. each_digit k 10%nat.
Qed.

Lemma stripe_path_valid p s n d : validate_stripe_target n d (stripe_rel_path p s) = String.eqb d (dn_device_id n).
Proof.
  unfold validate_stripe_target.
  assert (all_chars path_char (stripe_rel_path p s) = true) as Hall.
  { unfold stripe_rel_path, hex16. rewrite !all_chars_append, show_hex_path by done. cbn [andb].
    apply show_digits_chars; [apply digit_path_char | lia | done]. }
  rewrite split_slash_plain by done. unfold stripe_rel_path, hex16 in *.
  destruct (show_hex_no_dot 16 (file_id p) EmptyString ltac:(lia)) as (c & t & He & Hdot). rewrite He in *.
  rewrite append_cons in *. cbn [all_chars] in Hall. apply andb_true_iff in Hall as [Hc _].
  unfold path_char in Hc. apply negb_true_iff in Hc. cbn [is_empty is_absolute existsb orb].
  rewrite Hc. cbn [String.eqb]. rewrite Hdot. cbn. apply andb_true_r.
Qed.

(** ** A reachable fleet serves the proxy *)
Definition served (up : string -> bool) (reg : DeviceRegistry) (fleet : Fleet) (p : FilePlacement) : Prop :=
  forall d, d ∈ device_ids p -> exists info e n, reg !! d = Some info /\ di_control_endpoint info = Some e /\
    up e = true /\ fleet !! e = Some n /\ dn_device_id n = d.

Section serve.
Context (up : string -> bool) (reg : DeviceRegistry) (p : FilePlacement) (Hp : sane p).
Context (Hid : file_id p <> 0) (Hne : device_ids p <> []).

Lemma served_target fleet off : is_u64 off -> served up reg fleet p ->
  exists d e n, proxy_target p reg off = Some (d, e, stripe_rel_path p (slot_of p off)) /\ up e = true /\
    fleet !! e = Some n /\ dn_device_id n = d.
Proof.
  intros Hoff Hs. destruct (slot_lookup p off Hp Hoff Hne) as [d Hd].
  destruct (Hs d) as (info & e & n & Hr & He & Hu & Hn & Hd'); [by eapply list_elem_of_lookup_2 |].
  exists d, e, n. split; [| done]. rewrite (target_slot p reg Hid off d Hd), Hr. cbn [mbind option_bind]. by rewrite He.
Qed.

Lemma served_update fleet e n n' : fleet !! e = Some n -> dn_device_id n' = dn_device_id n ->
  served up reg fleet p -> served up reg (<[e := n']> fleet) p.
Proof.
  intros Hn Hd Hs d Hin. destruct (Hs d Hin) as (info & e' & x & Hr & He & Hu & Hx & Hd').
  destruct (decide (e' = e)) as [-> |].
  - exists info, e, n'. rewrite lookup_insert_eq. repeat split; try done. congruence.
  - exists info, e', x. by rewrite lookup_insert_ne.
Qed.

Lemma served_write offset data : 0 <= offset -> offset + Z.of_nat (length data) <= i64_max ->
  forall chunks cur fleet, tiles (stripe_size p) cur (offset + Z.of_nat (length data)) chunks -> offset <= cur ->
  served up reg fleet p -> (write_chunks up reg p offset data fleet chunks).1 = true.
Proof.
  intros Hoff Hmax. induction chunks as [| [co cl] chunks IH]; intros cur fleet Ht Hcur Hs; [done |].
  inversion Ht as [| co' n end_ rest Hn Hu Ht' E1 E2]; subst. pose proof (tiles_le _ _ _ _ Ht') as Hle. cbn [write_chunks].
  destruct (served_target fleet co ltac:(bounds) Hs) as (d & e & x & -> & Hup & Hx & Hd). cbn [mbind option_bind].
  unfold call_update, call. rewrite Hup, Hx. cbn [mbind option_bind]. unfold write_stripe.
  rewrite stripe_path_valid, Hd, String.eqb_refl. set (piece := take _ _).
  assert (Z.of_nat (length piece) <= cl) by (subst piece; rewrite length_take; lia).
  rewrite (proj2 (Z.leb_le _ _)) by lia. cbn [mbind option_bind].
  apply (IH (co + cl)); [done | lia |]. by apply (served_update fleet e x).
Qed.

Lemma served_read : forall chunks cur end_ fleet, tiles (stripe_size p) cur end_ chunks -> 0 <= cur ->
  end_ <= i64_max -> end_ - cur <= READ_CEILING -> served up reg fleet p ->
  is_Some (read_chunks up reg p fleet chunks).
Proof.
  induction chunks as [| [co cl] chunks IH]; intros cur end_ fleet Ht Hcur Hmax Hc Hs; [by eexists |].
  inversion Ht as [| co' n e_ rest Hn Hu Ht' E1 E2]; subst. pose proof (tiles_le _ _ _ _ Ht') as Hle. cbn [read_chunks].
  destruct (served_target fleet co ltac:(bounds) Hs) as (d & e & x & -> & Hup & Hx & Hd). cbn [mbind option_bind].
  unfold call. rewrite Hup, Hx. cbn [mbind option_bind]. unfold read_stripe.
  rewrite stripe_path_valid, Hd, String.eqb_refl. unfold READ_CEILING, wrap_u32 in *. rewrite Z.mod_small by lia.
  rewrite (proj2 (Z.ltb_ge _ _)) by lia.
  destruct (IH (co + cl) end_ fleet Ht' ltac:(lia) Hmax ltac:(lia) Hs) as [more Hm].
  destruct (dn_files x !! _); [rewrite (proj2 (Z.leb_le co i64_max)) by lia |]; cbn [mbind option_bind]; rewrite Hm; by eexists.
Qed.
End serve.

(** ** The disposition *)
Section disposition.
Context {T : Type} `{StubBinding T} (cf : LmConfig) (now boot ceiling : Z).

Definition reachable_dev (reg : DeviceRegistry) (id : string) : Prop :=
  exists d, reg !! id = Some d /\ di_status d <> Offline /\ is_Some (di_control_endpoint d).
(** How long a pinned data server has been away, if it is. *)
Definition outage_of (reg : DeviceRegistry) (id : string) : option Z :=
  match reg !! id with
  | Some d => if bool_decide (di_status d = Offline) then Some (Z.max (now - di_last_heartbeat d) 0) else None
  | None => Some (Z.max (now - boot) 0)
  end.
Definition max_opt (a b : option Z) : option Z :=
  match a, b with Some x, Some y => Some (Z.max x y) | Some x, None | None, Some x => Some x | None, None => None end.

Lemma outage_step_worst reg acc id : (outage_step now boot reg acc id).1 = max_opt acc.1 (outage_of reg id).
Proof.
  destruct acc as [w r]. unfold outage_step, outage_of. destruct (reg !! id) as [d |]; [case_bool_decide |]; by destruct w.
Qed.
Lemma outage_step_ready reg acc id : outage_of reg id = None -> (outage_step now boot reg acc id).2 = true ->
  acc.2 = true /\ reachable_dev reg id.
Proof.
  destruct acc as [w r]. unfold outage_step, outage_of, reachable_dev. destruct (reg !! id) as [d |]; [| done].
  case_bool_decide; [done |]. cbn. intros _ [-> Hc]%andb_true_iff. split; [done |]. exists d. split; [done |]. split; [done |].
  destruct (di_control_endpoint d); [by eexists | done].
Qed.

Lemma outage_fold reg ids : forall acc, (foldl (outage_step now boot reg) acc ids).1 = foldl max_opt acc.1 (outage_of reg <$> ids).
Proof. induction ids as [| id ids IH]; intros acc; [done |]. cbn. rewrite IH. by rewrite outage_step_worst. Qed.

Lemma max_fold l : forall a,
  (foldl max_opt a l = None -> a = None /\ Forall (fun o => o = None) l) /\
  (forall w, foldl max_opt a l = Some w -> (a = Some w \/ Some w ∈ l)) /\
  (forall o, a = Some o \/ Some o ∈ l -> exists w, foldl max_opt a l = Some w /\ o <= w).
Proof.
  induction l as [| x l IH]; intros a; cbn [foldl].
  { split; [by intros -> |]. split; [by left |]. intros o [-> | Hx]; [| inversion Hx]. exists o. split; [done | lia]. }
  destruct (IH (max_opt a x)) as (A & B & C). split; [| split].
  - intros Hn. destruct (A Hn) as [Hm Hl]. destruct a, x; try done. split; [done |]. by constructor.
  - intros w Hw. rewrite elem_of_cons. destruct (B w Hw) as [Hm | Hm]; [| by right; right].
    destruct a as [y |], x as [z |]; cbn in Hm; simplify_eq; auto.
    destruct (Z.max_spec y z) as [[_ ->] | [_ ->]]; auto.
  - intros o. rewrite elem_of_cons. intros Ho.
    assert ((exists o', max_opt a x = Some o' /\ o <= o') \/ Some o ∈ l) as [(o' & Ho' & Hle) | Ho'].
    { destruct Ho as [-> | [<- | Ho]]; [left; destruct x; cbn; eexists; (split; [done | lia]) | | by right].
      left. destruct a; cbn; eexists; (split; [done | lia]). }
    + destruct (C o' ltac:(by left)) as (w & Hw & Hlw). exists w. split; [done | lia].
    + apply C. by right.
Qed.

Lemma ready_fold reg ids : forall acc, Forall (fun id => outage_of reg id = None) ids ->
  (foldl (outage_step now boot reg) acc ids).2 = true -> acc.2 = true /\ Forall (reachable_dev reg) ids.
Proof.
  induction ids as [| id ids IH]; intros acc Hn Hr; [done |]. cbn in Hr. apply Forall_cons_1 in Hn as [Ho Hn].
  destruct (IH _ Hn Hr) as [H1 H2]. apply outage_step_ready in H1 as [H1 H3]; [| done]. split; [done |]. by constructor.
Qed.

Lemma ready_fold_all reg ids : forall acc, acc.2 = true -> Forall (reachable_dev reg) ids ->
  (foldl (outage_step now boot reg) acc ids).2 = true /\ Forall (fun id => outage_of reg id = None) ids.
Proof.
  induction ids as [| id ids IH]; intros acc Ha Hr; [done |]. apply Forall_cons_1 in Hr as [(d & Hd & Hs & e & He) Hr]. cbn.
  destruct (IH (outage_step now boot reg acc id)) as [H1 H2]; [| done |].
  - destruct acc as [w r]. unfold outage_step. rewrite Hd, bool_decide_eq_false_2 by done. cbn in *. by rewrite Ha, He.
  - split; [done |]. constructor; [| done]. unfold outage_of. by rewrite Hd, bool_decide_eq_false_2.
Qed.

(** The truncate gate, or else the longest outage of a pinned data server, is
    younger than the ceiling. *)
Definition worth_waiting (key : string) (p : FilePlacement) (m : LayoutManager) : Prop :=
  match truncate_dirty_age now (truncate_gate_key p key) m with
  | Some age => age < ceiling
  | None => (exists id o, id ∈ device_ids p /\ outage_of (lm_registry m) id = Some o) /\
            forall id o, id ∈ device_ids p -> outage_of (lm_registry m) id = Some o -> o < ceiling
  end.
Definition proxy_ready (proxy : bool) (key : string) (p : FilePlacement) (m : LayoutManager) : Prop :=
  proxy = true /\ file_id p <> 0 /\ lm_dirty m !! truncate_gate_key p key = None /\
  Forall (reachable_dev (lm_registry m)) (device_ids p).

(** What the longest outage says of each one. *)
Lemma worst_outage reg p acc :
  match (foldl (outage_step now boot reg) (None, acc) (device_ids p)).1 with
  | Some w => (exists id, id ∈ device_ids p /\ outage_of reg id = Some w) /\
              forall id o, id ∈ device_ids p -> outage_of reg id = Some o -> o <= w
  | None => Forall (fun id => outage_of reg id = None) (device_ids p)
  end.
Proof.
  rewrite outage_fold. cbn [fst]. destruct (max_fold (outage_of reg <$> device_ids p) None) as (A & B & C).
  destruct (foldl max_opt None (outage_of reg <$> device_ids p)) as [w |].
  - split.
    + destruct (B w eq_refl) as [? | Hin]; [done |]. apply list_elem_of_fmap in Hin as (id & Ho & Hid). eauto.
    + intros id o Hid Ho. destruct (C o) as (w' & [= <-] & Hle); [| done]. right. apply list_elem_of_fmap. eauto.
  - destruct (A eq_refl) as [_ Hn]. by apply Forall_fmap in Hn.
Qed.

(** A striped file is delayed exactly while waiting is worth it, proxied
    exactly when the proxy is ready, and never served from its stub. *)
Lemma disposition_striped proxy key m (t : T) p m' :
  placement_or_recovered key m t = (Some p, m') ->
  let '(d, m1) := fallback_io_disposition_core now boot ceiling proxy key m t in
  m1 = m' /\ d <> Serve /\ (d = Delay <-> worth_waiting key p m') /\ (d = Proxy <-> proxy_ready proxy key p m').
Proof.
  intros Hp. unfold fallback_io_disposition_core. rewrite Hp. split; [done |]. unfold worth_waiting, proxy_ready, truncate_dirty_age.
  destruct (lm_dirty m' !! truncate_gate_key p key) as [g |] eqn:Eg; cbn [fmap option_fmap option_map].
  { destruct (Z.ltb_spec (GateMark_age now g) ceiling); split_and!; try done; split; try done; try lia; by intros (_ & _ & ? & _). }
  pose proof (worst_outage (lm_registry m') p (negb (file_id p =? 0))) as Hw.
  pose proof (ready_fold (lm_registry m') (device_ids p) (None, negb (file_id p =? 0))) as Hr.
  pose proof (ready_fold_all (lm_registry m') (device_ids p) (None, negb (file_id p =? 0))) as Ha.
  destruct (foldl _ _ _) as [[w |] ready]; cbn [fst snd] in *.
  - destruct Hw as [(id & Hid & Ho) Hle].
    assert (~ (proxy = true /\ file_id p <> 0 /\ @None GateMark = None /\ Forall (reachable_dev (lm_registry m')) (device_ids p))) as Hnp.
    { intros (_ & Hf & _ & Hall). destruct (Ha ltac:(by apply negb_true_iff, Z.eqb_neq) Hall) as [_ Hn].
      rewrite Forall_forall in Hn. rewrite (Hn id Hid) in Ho. done. }
    destruct (Z.ltb_spec w ceiling); split_and!; try done; split; try done; try (by intros ?; destruct Hnp).
    + intros _. split; [by exists id, w |]. intros i o Hi Hio. specialize (Hle i o Hi Hio). lia.
    + intros [_ Hall]. specialize (Hall id w Hid Ho). lia.
  - assert (~ ((exists id o, id ∈ device_ids p /\ outage_of (lm_registry m') id = Some o) /\
        forall id o, id ∈ device_ids p -> outage_of (lm_registry m') id = Some o -> o < ceiling)) as Hnw.
    { intros [(id & o & Hid & Ho) _]. rewrite Forall_forall in Hw. by rewrite (Hw id Hid) in Ho. }
    destruct (ready && proxy) eqn:Er; (split; [done |]); (split; [split; [done | by intros ?; destruct Hnw] |]); split; try done.
    + apply andb_true_iff in Er as [-> ->]. intros _. destruct (Hr Hw eq_refl) as [Hf Hall].
      split_and!; [done | by apply negb_true_iff, Z.eqb_neq in Hf | done | done].
    + intros (-> & Hf & _ & Hall). destruct (Ha ltac:(by apply negb_true_iff, Z.eqb_neq) Hall) as [-> _]. done.
Qed.

(** A file with no placement is served exactly when its stub is not a sparse
    shell, and fails fast otherwise. *)
Lemma disposition_plain proxy key m (t : T) m' : placement_or_recovered key m t = (None, m') ->
  let '(d, m1) := fallback_io_disposition_core now boot ceiling proxy key m t in
  m1 = m' /\ (d = Serve \/ d = FailFast) /\
  (d = Serve <-> forall meta, stub_meta t key = Some meta -> sm_len meta <= 0 \/ sm_blocks meta <> 0).
Proof.
  intros Hp. unfold fallback_io_disposition_core. rewrite Hp. split; [done |].
  destruct (stub_meta t key) as [meta |]; [| split; [by left | done]].
  destruct (Z.ltb_spec 0 (sm_len meta)), (Z.eqb_spec (sm_blocks meta) 0); cbn; (split; [auto |]); split; try done.
  - intros Hm. destruct (Hm meta eq_refl); lia.
  - intros _ ? [= <-]. by right.
  - intros _ ? [= <-]. by left.
  - intros _ ? [= <-]. by left.
Qed.
End disposition.

(** ** Granting *)
Definition reg_ok (reg : DeviceRegistry) : Prop := forall id d, reg !! id = Some d -> di_device_id d = id.

Lemma register_reg_ok d reg : reg_ok reg -> reg_ok (register d reg).
Proof. intros Hr id x. unfold register. intros [[<- <-] | [_ ?]]%lookup_insert_Some; [done | by apply Hr]. Qed.
Lemma with_device_reg_ok id f reg : (forall d, di_device_id (f d) = di_device_id d) -> reg_ok reg ->
  reg_ok (with_device id f reg).2.
Proof.
  intros Hf Hr. unfold with_device. destruct (reg !! id) as [d |] eqn:E; [| done]. cbn.
  intros i x [[<- <-] | [_ ?]]%lookup_insert_Some; [rewrite Hf |]; by apply Hr.
Qed.

Lemma pinned_spec reg ids ds : reg_ok reg -> pinned_devices reg ids = Ok ds ->
  di_device_id <$> ds = ids /\ Forall (fun id => exists d, reg !! id = Some d /\ di_status d = Active) ids.
Proof.
  intros Hr. revert ds. induction ids as [| id ids IH]; intros ds; cbn [pinned_devices]; [by intros [= <-] |].
  destruct (reg !! id) as [d |] eqn:E; [| done]. case_bool_decide; [| done].
  intros (ds' & Hds & Hx)%bind_Ok. simplify_eq. destruct (IH _ Hds) as [<- Hall]. cbn. split; [by rewrite (Hr _ _ E) |].
  constructor; eauto.
Qed.

Lemma segments_spec offset len pat ds segs : segments_of offset len pat ds = Ok segs ->
  sg_device <$> segs = di_device_id <$> ds /\
  forall i sg, segs !! i = Some sg -> sg_stripe_index sg = wrap_u32 (Z.of_nat i) /\ sg_offset sg = offset /\ sg_length sg = len.
Proof.
  unfold segments_of. intros Hs.
  assert (segs = imap (fun i d => Segment offset len IoReadWrite (di_device_id d) (wrap_u32 (Z.of_nat i)) pat) ds) as ->.
  { destruct ds; [done |]. by injection Hs as <-. }
  split.
  - apply list_eq. intros i. rewrite !list_lookup_fmap, list_lookup_imap. by destruct (ds !! i).
  - intros i sg (x & Hx & ->)%list_lookup_imap_Some. done.
Qed.

Lemma build_layout_devices cf owner fh key off len io draw p m l : reg_ok (lm_registry m) ->
  build_layout cf owner fh key off len io draw p m = Ok l ->
  sg_device <$> ly_segments l = device_ids p /\
  (forall i sg, ly_segments l !! i = Some sg -> sg_stripe_index sg = wrap_u32 (Z.of_nat i)) /\
  Forall (fun id => exists d, lm_registry m !! id = Some d /\ di_status d = Active) (device_ids p).
Proof.
  intros Hr. unfold build_layout. intros (ds & Hds & H)%bind_Ok. apply bind_Ok in H as (segs & Hs & H). simplify_eq.
  destruct (pinned_spec _ _ _ Hr Hds) as [Hids Hact]. cbn.
  assert (exists pat, segments_of off len pat ds = Ok segs) as (pat & Hseg).
  { destruct (cf_policy cf); eauto. }
  destruct (segments_spec _ _ _ _ _ Hseg) as [Hd Hi]. rewrite Hd, Hids. split; [done |]. split; [| done].
  intros i sg Hsg. by apply Hi.
Qed.

Section grant_facts.
Context {T : Type} `{StubBinding T} (cf : LmConfig).

(** A pinned file keeps its pin; a new one is pinned to what the stub says,
    or freshly. *)
Lemma grant_pins key draw m (t : T) p m' t' : placement_for_grant cf key draw m t = (Ok p, m', t') ->
  lm_placements m' = <[key := p]> (lm_placements m) /\
  (forall p0, lm_placements m !! key = Some p0 -> p = p0 /\ m' = m) /\
  (lm_placements m !! key = None -> forall p0, stub_read t key = Some p0 -> p = p0) /\
  (lm_placements m !! key = None -> stub_read t key = None ->
     (forall meta, stub_meta t key = Some meta -> sm_len meta <= 0) /\
     file_id p = allocate_file_id (cf_shard cf) (dr_uuid draw) /\ stub_write (dr_xattr_ok draw) t key p = Some t') /\
  lm_registry m' = lm_registry m /\ lm_dirty m' = lm_dirty m.
Proof.
  assert (forall q x, lm_placements (add_group cf q x) = lm_placements x /\ lm_registry (add_group cf q x) = lm_registry x /\
    lm_dirty (add_group cf q x) = lm_dirty x) as Hg.
  { intros q x. unfold add_group. by destruct (lm_groups x !! _). }
  unfold placement_for_grant. destruct (lm_placements m !! key) as [p0 |] eqn:Ep.
  { intros. simplify_eq. split; [by rewrite insert_id |]. repeat split; try done; naive_solver. }
  destruct (list_active _) as [| d ds]; [done |].
  destruct (stub_read t key) as [p0 |] eqn:Er.
  { intros. simplify_eq. destruct (Hg p (upd_placements <[key:=p]> (put_placement p key m))) as (-> & -> & ->).
    repeat split; try done; naive_solver. }
  set (devs := narrow _ _). set (g := geometry_for cf key m).
  assert (mint_placement cf key draw devs g m t = (Ok p, m', t') ->
    lm_placements m' = <[key := p]> (lm_placements m) /\ file_id p = allocate_file_id (cf_shard cf) (dr_uuid draw) /\
    stub_write (dr_xattr_ok draw) t key p = Some t' /\ lm_registry m' = lm_registry m /\ lm_dirty m' = lm_dirty m) as Hmint.
  { unfold mint_placement. destruct (stub_write _ _ _ _) as [t1 |] eqn:Ew; [| done]. intros Heq. simplify_eq.
    match goal with |- context [add_group cf ?q ?x] => destruct (Hg q x) as (-> & -> & ->) end. done. }
  destruct (stub_meta t key) as [meta |] eqn:Em; [destruct (Z.ltb_spec 0 (sm_len meta)); [done |] |].
  all: intros (? & ? & ? & ? & ?)%Hmint; repeat split; try done; naive_solver.
Qed.

Lemma recheck_Ok l m l' m' : recheck_gate l m = (Ok l', m') ->
  l' = l /\ lm_dirty m !! ly_file_ident l = None /\ m' = push_owner (lo_client (ly_owner l)) (ly_stateid l) m.
Proof. unfold recheck_gate. destruct (lm_dirty m !! ly_file_ident l); [done |]. intros. by simplify_eq. Qed.

Lemma recheck_placements l m : lm_placements (recheck_gate l m).2 = lm_placements m /\ lm_dirty (recheck_gate l m).2 = lm_dirty m.
Proof.
  unfold recheck_gate. destruct (lm_dirty m !! ly_file_ident l); [| done]. cbn.
  by destruct (unindex_file_frame l (upd_layouts (delete (state_key (ly_stateid l))) m)) as (_ & _ & _ & _ & -> & ->).
Qed.

Lemma publish_placements l m : lm_placements (publish l m) = lm_placements m /\ lm_dirty (publish l m) = lm_dirty m /\
  lm_layouts (publish l m) = <[state_key (ly_stateid l) := l]> (lm_layouts m).
Proof. unfold publish. cbn. by destruct (index_file_frame l (persist l m)) as (-> & _ & _ & _ & -> & ->). Qed.

(** LAYOUTGET that succeeds. *)
Record got_layout (owner : LayoutOwner) (key : string) (io : IoMode) (draw : Draw) (m m' : LayoutManager)
    (r : LayoutGetResult) (p : FilePlacement) : Prop := {
  gt_pin : lm_placements m' = <[key := p]> (lm_placements m);
  gt_kept p0 : lm_placements m !! key = Some p0 -> p = p0;
  gt_geometry : lg_stripe_unit r = stripe_size p /\ lg_file_id r = file_id p /\ lg_stripe_width r = length (device_ids p);
  gt_devices : sg_device <$> lg_segments r = device_ids p;
  gt_slots i sg : lg_segments r !! i = Some sg -> sg_stripe_index sg = wrap_u32 (Z.of_nat i);
  gt_active : Forall (fun id => exists d, lm_registry m !! id = Some d /\ di_status d = Active) (device_ids p);
  gt_clean : lm_dirty m' !! truncate_gate_key p key = None;
  gt_table : exists l, lm_layouts m' = <[state_key (lg_stateid r) := l]> (lm_layouts m) /\ ly_stateid l = lg_stateid r /\
    ly_owner l = owner /\ ly_iomode l = io /\ ly_file_ident l = truncate_gate_key p key;
  gt_id : lg_stateid r = generate_stateid (dr_other draw) }.

Lemma layoutget_ok owner fh key off len io ty draw m (t : T) r m' t' : reg_ok (lm_registry m) ->
  layoutget cf owner fh key off len io ty draw m t = (Ok r, m', t') ->
  gated key m = false /\ files_type ty = true /\ exists p, got_layout owner key io draw m m' r p.
Proof.
  intros Hreg. unfold layoutget. destruct (gated key m); [done |]. destruct (files_type ty); [| done]. cbn [negb].
  unfold generate_layout. pose proof (grant_placement_same cf key draw m t) as Hsame.
  destruct (placement_for_grant cf key draw m t) as [[[p | e] m1] t1] eqn:Hg; [| by destruct e].
  destruct (grant_pins _ _ _ _ _ _ _ Hg) as (Hpl & Hkeep & _ & _ & Hrg & Hdirty).
  destruct (build_layout cf owner fh key off len io draw p m1) as [l | e] eqn:Hb; [| by destruct e].
  destruct (build_layout_facts cf owner fh key off len io draw p m1 l Hb) as (Hsid & Hown & Hident & Hio & _).
  rewrite <- Hrg in Hreg. destruct (build_layout_devices _ _ _ _ _ _ _ _ _ _ _ Hreg Hb) as (Hd & Hi & Hact).
  destruct (publish_placements l m1) as (Q1 & Q2 & Q3).
  pose proof (recheck_placements l (publish l m1)) as [R1 R2].
  destruct (recheck_gate l (publish l m1)) as [[l' | e] m2] eqn:Hr; [| by destruct e]. cbn [snd] in *.
  apply recheck_Ok in Hr as (-> & Hclean & Hm2).
  unfold placement_for. rewrite R1, Q1, Hpl, lookup_insert_eq. intros Heq. simplify_eq.
  split; [done |]. split; [done |]. exists p. split; cbn [lg_stripe_unit lg_file_id lg_stripe_width lg_segments lg_stateid].
  - by rewrite R1, Q1, Hpl.
  - intros p0 Hp0. by destruct (Hkeep p0 Hp0).
  - done.
  - done.
  - done.
  - by rewrite <- Hrg.
  - by rewrite R2, Q2, <- Hident, <- Q2.
  - exists l. split; [| done]. cbn [push_owner upd_by_owner lm_layouts]. rewrite Q3.
    cbn [fst snd] in Hsame. destruct Hsame as (-> & _). done.
  - done.
Qed.
End grant_facts.

(** ** The lease sweep *)
Lemma return_all_inv c m : inv m -> inv (return_all_for_client c m).2.
Proof. intros Hm. eapply rtc_inv; [| done]. apply return_each_trans, Hm. Qed.

Lemma sweep_handles_fold (alive : Z -> bool) cs : forall m, inv m ->
  let m' := foldl (fun m c => if alive c then m else (return_all_for_client c m).2) m cs in
  inv m' /\ forall k l, lm_layouts m' !! k = Some l <->
    lm_layouts m !! k = Some l /\ ~ (lo_client (ly_owner l) ∈ cs /\ alive (lo_client (ly_owner l)) = false).
Proof.
  induction cs as [| c cs IH]; intros m Hm; cbn [foldl].
  { split; [done |]. intros k l. split; [intros; split; [done | intros [[]%elem_of_nil _]] | tauto]. }
  destruct (alive c) eqn:Ec.
  - destruct (IH m Hm) as [Hi Hl]. split; [done |]. intros k l. rewrite Hl, elem_of_cons. split; intros [H1 H2]; (split; [done |]).
    + intros [[He | Hin] Ha]; [congruence | by apply H2].
    + intros [Hin Ha]. apply H2. by auto.
  - destruct (IH _ (return_all_inv c m Hm)) as [Hi Hl]. split; [done |]. intros k l.
    rewrite Hl, (return_all_layouts c m k l Hm), elem_of_cons. split.
    + intros [[H1 H2] H3]. split; [done |]. intros [[He | Hin] Ha]; [done | by apply H3].
    + intros [H1 H2]. split; [split; [done |] | intros [Hin Ha]; apply H2; by auto].
      intros He. apply H2. rewrite He. auto.
Qed.

(** It drops exactly the layouts of the clients whose lease is gone. *)
Lemma sweep_layouts alive m k l : inv m ->
  lm_layouts (sweep_handles alive m) !! k = Some l <->
    lm_layouts m !! k = Some l /\ alive (lo_client (ly_owner l)) = true.
Proof.
  intros Hm. unfold sweep_handles. rewrite (proj2 (sweep_handles_fold alive (owner_clients m) m Hm) k l).
  split; intros [H1 H2]; (split; [done |]).
  - destruct (alive _) eqn:E; [done |]. destruct H2. split; [| done].
    destruct (tk_owner _ (proj1 Hm) k l H1) as (s & Hs & _). unfold owner_clients.
    apply list_elem_of_fmap. destruct (lm_by_owner m !! lo_client (ly_owner l)) as [v |] eqn:Ev; cbn in Hs.
    + exists (lo_client (ly_owner l), v). split; [done |]. apply list_elem_of_filter. cbn.
      split; [intros ->; by apply elem_of_nil in Hs | by apply elem_of_map_to_list].
    + by apply elem_of_nil in Hs.
  - rewrite H2. by intros [_ ?].
Qed.
