(* ===== verification/PnfsTruncate.v ===== *)
(** Truncation of a striped file: what note_truncate and its retry leave in
    the layout table, the gate and the stripes; the gate across a restart and
    a RENAME; and the interleavings of concurrent grants and truncations. *)

From Stdlib Require Import Ascii String.
From S2P Require Import Prelude Csv PnfsPlacement PnfsPlacementProps PnfsLayout PnfsLayoutInv PnfsLayoutReach PnfsLayoutProps PnfsRestart PnfsOps PnfsStripes PnfsOpsProps.

(** ** Recall and revoke *)
Lemma revoke_layouts now s m : lm_layouts (revoke_layout now s m).2 = delete (state_key s) (lm_layouts m).
Proof.
  unfold revoke_layout. destruct (lm_layouts m !! state_key s) as [l |] eqn:El; cbn [snd]; [| by rewrite delete_id].
  destruct (cut_frame s l m) as (HL & _). cbn.
  match goal with |- lm_layouts (drop_owner ?c ?s ?x) = _ => destruct (drop_owner_frame c s x) as (-> & _) end. exact HL.
Qed.

Lemma revoke_dirty now s m : lm_dirty (revoke_layout now s m).2 = lm_dirty m /\
  lm_placements (revoke_layout now s m).2 = lm_placements m.
Proof.
  unfold revoke_layout. destruct (lm_layouts m !! state_key s) as [l |] eqn:El; cbn [snd]; [| done]. cbn.
  match goal with |- context [drop_owner ?c ?s ?x] => destruct (drop_owner_frame c s x) as (_ & _ & _ & _ & -> & -> & _) end.
  cbn. by destruct (unindex_file_frame l (upd_layouts (delete (state_key s)) m)) as (_ & _ & _ & _ & -> & ->).
Qed.

Definition revoke_all (now : Z) (ts : list (Z * LayoutStateId * list Z)) (m : LayoutManager) : LayoutManager :=
  foldl (fun m t => (revoke_layout now t.1.2 m).2) m ts.

Lemma revoke_all_layouts now ts : forall m,
  lm_dirty (revoke_all now ts m) = lm_dirty m /\ lm_placements (revoke_all now ts m) = lm_placements m /\
  forall k, lm_layouts (revoke_all now ts m) !! k =
    if bool_decide (k ∈ ((fun t => state_key t.1.2) <$> ts)) then None else lm_layouts m !! k.
Proof.
  induction ts as [| t ts IH]; intros m; [done |].
  change (revoke_all now (t :: ts) m) with (revoke_all now ts (revoke_layout now t.1.2 m).2).
  destruct (IH (revoke_layout now t.1.2 m).2) as (-> & -> & Hk). destruct (revoke_dirty now t.1.2 m) as [-> ->].
  split; [done |]. split; [done |]. intros k. rewrite Hk, revoke_layouts. cbn [fmap list_fmap].
  destruct (decide (k = state_key t.1.2)) as [-> | Hne].
  - rewrite lookup_delete_eq. rewrite (bool_decide_eq_true_2 (_ ∈ _ :: _)) by left. by case_bool_decide.
  - rewrite lookup_delete_ne by done. erewrite (bool_decide_ext (k ∈ _ :: _)); [done |]. rewrite elem_of_cons. naive_solver.
Qed.

Lemma bump_keeps k m : lm_dirty (bump_recall_stateid k m).2 = lm_dirty m /\ lm_placements (bump_recall_stateid k m).2 = lm_placements m.
Proof. unfold bump_recall_stateid. by destruct (lm_layouts m !! k). Qed.
Lemma recall_keeps g m : lm_dirty (recall_layouts_for_file g m).2 = lm_dirty m /\
  lm_placements (recall_layouts_for_file g m).2 = lm_placements m.
Proof.
  unfold recall_layouts_for_file. destruct (is_empty g); [done |]. generalize ((fun kl => state_key (ly_stateid kl.2)) <$>
    filter (fun kl => is_empty (ly_file_ident kl.2) = false /\ ly_file_ident kl.2 = g) (map_to_list (lm_layouts m))).
  intros hits. generalize (@nil (Z * LayoutStateId * list Z)). revert m. induction hits as [| k hits IH]; intros m acc; [done |].
  cbn [foldl]. unfold bump_step at 2 4. cbn [fst snd]. destruct (bump_keeps k m) as [H1 H2].
  destruct (bump_recall_stateid k m) as [[x |] m1]; cbn [fst snd] in *; rewrite <- H1, <- H2; apply IH.
Qed.

(** The file's layouts are gone, every other one is as it was. *)
Lemma recall_and_revoke_spec now g m : keyed m -> g <> EmptyString ->
  lm_dirty (recall_and_revoke now g m) = lm_dirty m /\ lm_placements (recall_and_revoke now g m) = lm_placements m /\
  forall k l, lm_layouts (recall_and_revoke now g m) !! k = Some l <-> lm_layouts m !! k = Some l /\ ly_file_ident l <> g.
Proof.
  intros Hm Hg. unfold recall_and_revoke. destruct (recall_file_spec g m Hm Hg) as [Hts HL]. destruct (recall_keeps g m) as [D P].
  destruct (recall_layouts_for_file g m) as [ts m1]. cbn [fst snd] in *.
  change (foldl _ m1 ts) with (revoke_all now ts m1). destruct (revoke_all_layouts now ts m1) as (-> & -> & Hk).
  split; [done |]. split; [done |]. intros k l. rewrite Hk, HL. clear Hk.
  assert (k ∈ ((fun t => state_key t.1.2) <$> ts) <-> exists l0, lm_layouts m !! k = Some l0 /\ ly_file_ident l0 = g) as Hin.
  { rewrite list_elem_of_fmap. split.
    - intros (t & -> & (k0 & l0 & Hl0 & Hi & ->)%Hts). exists l0. split; [| done].
      change (state_key (recall_of l0).1.2) with (state_key (ly_stateid l0)). by rewrite <- (Hm _ _ Hl0).
    - intros (l0 & Hl0 & Hi). exists (recall_of l0). split; [| apply Hts; eauto]. exact (Hm _ _ Hl0). }
  case_bool_decide as Hb; rewrite Hin in Hb.
  - destruct Hb as (l0 & Hl0 & Hi). split; [done |]. rewrite Hl0. naive_solver.
  - destruct (lm_layouts m !! k) as [l0 |] eqn:E; [| naive_solver]. cbn.
    rewrite bool_decide_eq_false_2 by (intros Hx; apply Hb; eauto). split; [| naive_solver].
    intros [= <-]. split; [done |]. intros Hx. apply Hb. eauto.
Qed.

(** ** The gate *)
Lemma gate_key_nonempty p k : truncate_gate_key p k <> EmptyString.
Proof. unfold truncate_gate_key. by destruct (negb _). Qed.

Lemma persist_gate_keeps g a b m : lm_dirty (persist_gate g a b m) = lm_dirty m /\
  lm_placements (persist_gate g a b m) = lm_placements m /\ lm_registry (persist_gate g a b m) = lm_registry m.
Proof. unfold persist_gate. by destruct (find_first _ _) as [[] |]. Qed.

Lemma mark_dirty now unix g z m : exists mk, lm_dirty (mark_truncate_dirty now unix g z m) = <[g := mk]> (lm_dirty m) /\
  gm_min mk <= z /\ (forall m0, lm_dirty m !! g = Some m0 -> gm_min mk <= gm_min m0) /\
  (lm_dirty m !! g = None -> gm_min mk = z).
Proof.
  unfold mark_truncate_dirty. destruct (lm_dirty m !! g) as [g0 |] eqn:E.
  - match goal with |- context [persist_gate g ?a ?b ?x] => destruct (persist_gate_keeps g a b x) as (-> & _) end.
    cbn. eexists. split; [done |]. cbn. split; [lia |]. split; [| done]. intros m0 [= <-]. lia.
  - match goal with |- context [persist_gate g ?a ?b ?x] => destruct (persist_gate_keeps g a b x) as (-> & _) end.
    cbn. eexists. split; [done |]. cbn. split; [lia |]. done.
Qed.

Lemma clear_if_dirty g z m : lm_dirty (clear_truncate_dirty_if g z m).2 =
  match lm_dirty m !! g with Some x => if z <=? gm_min x then delete g (lm_dirty m) else lm_dirty m | None => lm_dirty m end.
Proof.
  unfold clear_truncate_dirty_if. destruct (lm_dirty m !! g) as [x |]; [| done]. destruct (z <=? gm_min x); [| done]. cbn [snd].
  match goal with |- context [persist_gate g ?a ?b ?x] => destruct (persist_gate_keeps g a b x) as (-> & _) end. done.
Qed.

(** *** The registry: only layout counts move *)
Lemma with_device_endpoints id f r : (forall d, di_control_endpoint (f d) = di_control_endpoint d) ->
  same_endpoints r (with_device id f r).2.
Proof.
  intros Hf d. unfold with_device. destruct (r !! id) as [x |] eqn:E; [| done]. cbn.
  destruct (decide (d = id)) as [-> |]; [by rewrite E, lookup_insert_eq; cbn; rewrite Hf | by rewrite lookup_insert_ne].
Qed.
Lemma decrement_endpoints l : forall r, same_endpoints r (foldl (fun r sg => (decrement_layout_count (sg_device sg) r).2) r l).
Proof.
  induction l as [| sg l IH]; intros r; [done |]. cbn [foldl]. etrans; [| apply IH].
  apply with_device_endpoints. intros d. by destruct (0 <? _).
Qed.
Lemma unindex_registry l m : lm_registry (unindex_file l m) = lm_registry m.
Proof. unfold unindex_file. destruct (is_empty _); [done |]. destruct (lm_by_file m !! _); [| done]. by destruct (filter _ _). Qed.
Lemma drop_owner_registry c s m : lm_registry (drop_owner c s m) = lm_registry m.
Proof. unfold drop_owner. destruct (lm_by_owner m !! _); [| done]. by destruct (filter _ _). Qed.
Lemma revoke_endpoints now s m : same_endpoints (lm_registry m) (lm_registry (revoke_layout now s m).2).
Proof.
  unfold revoke_layout. destruct (lm_layouts m !! _) as [l |]; [| done]. cbn. rewrite drop_owner_registry. cbn.
  rewrite unindex_registry. apply decrement_endpoints.
Qed.
Lemma bump_registry hits : forall acc, lm_registry (foldl bump_step acc hits).2 = lm_registry acc.2.
Proof.
  induction hits as [| k hits IH]; intros acc; [done |]. cbn [foldl]. rewrite IH. unfold bump_step, bump_recall_stateid.
  by destruct (lm_layouts acc.2 !! k).
Qed.
Lemma recall_and_revoke_endpoints now g m : same_endpoints (lm_registry m) (lm_registry (recall_and_revoke now g m)).
Proof.
  unfold recall_and_revoke. assert (lm_registry (recall_layouts_for_file g m).2 = lm_registry m) as <-.
  { unfold recall_layouts_for_file. destruct (is_empty g); [done | apply bump_registry]. }
  destruct (recall_layouts_for_file g m) as [ts m1]. cbn [fst snd]. revert m1.
  induction ts as [| t ts IH]; intros m1; [done |]. cbn [foldl]. etrans; [apply revoke_endpoints | apply IH].
Qed.
Lemma mark_registry now unix g z m : lm_registry (mark_truncate_dirty now unix g z m) = lm_registry m.
Proof.
  unfold mark_truncate_dirty. destruct (lm_dirty m !! g);
    match goal with |- context [persist_gate ?g ?a ?b ?x] => destruct (persist_gate_keeps g a b x) as (_ & _ & ->) end; done.
Qed.
Lemma clear_if_registry g z m : lm_registry (clear_truncate_dirty_if g z m).2 = lm_registry m.
Proof.
  unfold clear_truncate_dirty_if. destruct (lm_dirty m !! g) as [x |]; [| done]. destruct (_ <=? _); [| done]. cbn [snd].
  match goal with |- context [persist_gate ?g ?a ?b ?x] => destruct (persist_gate_keeps g a b x) as (_ & _ & ->) end. done.
Qed.

Section truncate.
Context (cf : LmConfig) (up : string -> bool) (export_fs : string) (now unix : Z).

(** What SETATTR(size) leaves behind. *)
Lemma note_truncate_spec key size m fleet p retry m' fleet' : table_ok m -> layout_class_for cf key m = File ->
  placement_for key m = Some p -> note_truncate cf export_fs true up now unix key size m fleet = (retry, m', fleet') ->
  let gate := truncate_gate_key p key in
  (forall k l, lm_layouts m' !! k = Some l <-> lm_layouts m !! k = Some l /\ ly_file_ident l <> gate) /\
  lm_placements m' = lm_placements m /\
  (forall g, g <> gate -> lm_dirty m' !! g = lm_dirty m !! g) /\
  match lm_dirty m' !! gate with
  | Some mk => gm_min mk <= size /\ forall m0, lm_dirty m !! gate = Some m0 -> gm_min mk <= gm_min m0
  | None => retry = false /\ (forall m0, lm_dirty m !! gate = Some m0 -> size <= gm_min m0) /\
      truncate_fanout up (lm_registry m') export_fs key p size fleet = (true, fleet') /\
      same_endpoints (lm_registry m) (lm_registry m')
  end.
Proof.
  intros Hm Hcl Hp. unfold note_truncate. rewrite bool_decide_false by (by rewrite Hcl). rewrite Hp. cbn [recall_for_truncate]. set (gate := truncate_gate_key p key).
  set (m1 := mark_truncate_dirty now unix gate size m).
  assert (table_ok m1) as Hm1 by (eapply same_table_ok; [apply mark_same | done]).
  destruct (mark_same now unix gate size m) as (HL1 & _). fold m1 in HL1.
  destruct (recall_and_revoke_spec now gate m1 (tk_key _ Hm1) (gate_key_nonempty p key)) as (HD & HP & HL).
  assert (lm_placements m1 = lm_placements m) as HP1.
  { unfold m1, mark_truncate_dirty. destruct (lm_dirty m !! gate);
    match goal with |- context [persist_gate ?g ?a ?b ?x] => destruct (persist_gate_keeps g a b x) as (_ & -> & _) end; done. }
  destruct (mark_dirty now unix gate size m) as (mk & HD1 & Hle & Hmin & Hnew). fold m1 in HD1.
  set (m2 := recall_and_revoke now gate m1) in *.
  destruct (truncate_fanout up (lm_registry m2) export_fs key p size fleet) as [ok fl] eqn:Ef.
  assert (forall k l, lm_layouts m2 !! k = Some l <-> lm_layouts m !! k = Some l /\ ly_file_ident l <> gate) as HL2.
  { intros k l. by rewrite HL, HL1. }
  destruct ok; intros; simplify_eq.
  - destruct (clear_if_same gate size m2) as (HLc & _). rewrite HLc. split; [done |].
    assert (lm_placements (clear_truncate_dirty_if gate size m2).2 = lm_placements m2) as ->.
    { unfold clear_truncate_dirty_if. destruct (lm_dirty m2 !! gate); [| done]. destruct (_ <=? _); [| done]. cbn.
      match goal with |- context [persist_gate ?g ?a ?b ?x] => destruct (persist_gate_keeps g a b x) as (_ & -> & _) end. done. }
    split; [by rewrite HP |]. rewrite clear_if_dirty, HD, HD1, lookup_insert_eq.
    destruct (Z.leb_spec size (gm_min mk)).
    + split; [intros g Hg; by rewrite lookup_delete_ne, lookup_insert_ne by done |]. rewrite lookup_delete_eq.
      split; [done |]. split; [intros m0 Hm0; specialize (Hmin m0 Hm0); lia |].
      rewrite clear_if_registry. split; [done |]. etrans; [| apply recall_and_revoke_endpoints]. unfold m1. by rewrite mark_registry.
    + split; [intros g Hg; by rewrite lookup_insert_ne by done |]. rewrite lookup_insert_eq. done.
  - split; [done |]. split; [by rewrite HP |]. rewrite HD, HD1.
    split; [intros g Hg; by rewrite lookup_insert_ne by done |]. by rewrite lookup_insert_eq.
Qed.

(** One round of the retry lifts the gate only with the deepest cut. *)
Lemma retry_truncate_spec gate key p m fleet again m' fleet' :
  retry_truncate export_fs up gate key p m fleet = (again, m', fleet') ->
  match lm_dirty m !! gate with
  | None => again = false /\ m' = m /\ fleet' = fleet
  | Some mk =>
      truncate_fanout up (lm_registry m) export_fs key p (gm_min mk) fleet = (negb again, fleet') /\
      lm_dirty m' = if again then lm_dirty m else delete gate (lm_dirty m)
  end.
Proof.
  unfold retry_truncate, truncate_dirty_state. destruct (lm_dirty m !! gate) as [mk |] eqn:E; cbn [mbind option_bind].
  2:{ intros. by simplify_eq. }
  destruct (truncate_fanout _ _ _ _ _ _ _) as [ok fl] eqn:Ef. destruct ok; intros; simplify_eq; [| done].
  split; [done |]. rewrite clear_if_dirty, E. by rewrite (proj2 (Z.leb_le _ _)) by lia.
Qed.
End truncate.

(** ** The rows of the revoked layouts *)
Lemma revoke_all_rows now ts : forall m x, (forall t, t ∈ ts -> ls_seqid t.1.2 <> LAYOUT_SEQID_BASE) ->
  ls_seqid x = LAYOUT_SEQID_BASE -> rows (revoke_all now ts m) !! x = rows m !! x.
Proof.
  induction ts as [| t ts IH]; intros m x Ht Hx; [done |].
  transitivity (rows (revoke_layout now t.1.2 m).2 !! x); [by apply IH; [intros t' Ht'; apply Ht; right |] |].
  destruct (lm_layouts m !! state_key t.1.2) as [l |] eqn:E; [| unfold revoke_layout; by rewrite E].
  rewrite (revoke_rows _ _ _ _ E). apply lookup_delete_ne. intros <-. by apply (Ht t); [left |].
Qed.

(** A recall files the layout under a new row and the revoke deletes that
    one: the row the grant wrote stays. *)
Lemma minted_row_stays now g m k l : settled m -> keyed m -> g <> EmptyString ->
  lm_layouts m !! k = Some l -> ly_file_ident l = g ->
  rows (recall_and_revoke now g m) !! k = Some (LayoutState_to_record l).
Proof.
  intros Hs Hk Hg Hl Hi.
  assert (forall k' l', lm_layouts m !! k' = Some l' -> ls_seqid (ly_stateid l') = LAYOUT_SEQID_BASE) as Hbase.
  { intros k' l' Hl'. rewrite (sd_minted _ Hs _ _ Hl'). by rewrite (Hk _ _ Hl'). }
  assert (ls_seqid k = LAYOUT_SEQID_BASE) as Hkb by (rewrite <- (sd_minted _ Hs _ _ Hl); eauto).
  destruct (recall_file_spec g m Hk Hg) as [Hts _]. unfold recall_and_revoke.
  assert (rows (recall_layouts_for_file g m).2 !! k = Some (LayoutState_to_record l)) as Hrow.
  { unfold recall_layouts_for_file. destruct (is_empty g) eqn:E; [by apply is_empty_spec in E |].
    destruct (hits_spec m (fun x => is_empty (ly_file_ident x) = false /\ ly_file_ident x = g) Hk) as [Hnd _].
    rewrite bump_fold_rows; [| done | done | eauto]. by rewrite (sd_rows _ Hs), lookup_fmap, Hl. }
  destruct (recall_layouts_for_file g m) as [ts m1]. cbn [fst snd] in *. rewrite <- Hrow.
  apply (revoke_all_rows now ts m1); [| done]. intros t (k' & l' & Hl' & _ & ->)%Hts. apply next_of_minted. eauto.
Qed.
