(* ===== verification/PnfsRename.v ===== *)
(** The pin across RENAME, restart and the loss of the backend: what the
    manager remembers of a file, and where the code forgets it. *)

From Stdlib Require Import Ascii String.
From S2P Require Import Prelude Csv PnfsPlacement PnfsPlacementProps PnfsLayout PnfsLayoutInv PnfsLayoutReach PnfsRestart PnfsOps PnfsOpsProps PnfsTruncate.

Definition prow (m : LayoutManager) : gmap string PlacementRecord := be_placements (lm_backend m).
Definition row_gate (r : PlacementRecord) : string := truncate_gate_key (FilePlacement_from_record r) (pr_file_key r).

(** ** Loading the placement rows *)
Lemma load_placement_fields cf now unix m r :
  lm_placements (load_placement_record cf now unix m r) = <[pr_file_key r := FilePlacement_from_record r]> (lm_placements m) /\
  lm_dirty (load_placement_record cf now unix m r) =
    match pr_truncate_pending r with
    | None => lm_dirty m
    | Some z => <[row_gate r := Mark now (match pr_truncate_since_unix r with Some s => secs (Z.max (unix - s) 0) | None => 0 end) z]>
                  (lm_dirty m)
    end.
Proof.
  unfold load_placement_record. unfold add_group, row_gate.
  destruct (lm_groups m !! _); by destruct (pr_truncate_pending r).
Qed.

Lemma load_placements_dirty cf now unix g rs : forall m,
  (forall r, r ∈ rs -> row_gate r = g -> pr_truncate_pending r = None) ->
  lm_dirty (load_placement_records cf now unix rs m) !! g = lm_dirty m !! g.
Proof.
  induction rs as [| r rs IH]; intros m Hr; [done |]. cbn.
  change (foldl _ ?x rs) with (load_placement_records cf now unix rs x).
  rewrite IH by (intros; apply Hr; [by right | done]). destruct (load_placement_fields cf now unix m r) as [_ ->].
  destruct (pr_truncate_pending r) eqn:E; [| done]. rewrite lookup_insert_ne; [done |].
  intros Hg. rewrite (Hr r) in E; [done | left | done].
Qed.

Lemma load_placements_mark cf now unix rs : forall m r, r ∈ rs ->
  (forall r', r' ∈ rs -> row_gate r' = row_gate r -> r' = r) -> forall z, pr_truncate_pending r = Some z ->
  lm_dirty (load_placement_records cf now unix rs m) !! row_gate r =
    Some (Mark now (match pr_truncate_since_unix r with Some s => secs (Z.max (unix - s) 0) | None => 0 end) z).
Proof.
  induction rs as [| x rs IH]; intros m r Hin Hu z Hz; [inversion Hin |]. cbn.
  change (foldl _ ?y rs) with (load_placement_records cf now unix rs y).
  destruct (decide (Exists (fun r' => row_gate r' = row_gate r) rs)) as [Hex | Hno].
  - apply Exists_exists in Hex as (r' & Hr' & Hg). assert (r' = r) as -> by (apply Hu; [by right | done]).
    apply (IH _ r); [done | | done]. intros y Hy. apply Hu. by right.
  - rewrite load_placements_dirty.
    + apply elem_of_cons in Hin as [-> | Hin].
      * destruct (load_placement_fields cf now unix m x) as [_ ->]. by rewrite Hz, lookup_insert_eq.
      * destruct Hno. apply Exists_exists. eauto.
    + intros y Hy Hg. destruct Hno. apply Exists_exists. eauto.
Qed.

Lemma load_placements_pin cf now unix rs : forall m r, r ∈ rs ->
  (forall r', r' ∈ rs -> pr_file_key r' = pr_file_key r -> r' = r) ->
  lm_placements (load_placement_records cf now unix rs m) !! pr_file_key r = Some (FilePlacement_from_record r).
Proof.
  assert (forall rs m k, (forall r, r ∈ rs -> pr_file_key r <> k) ->
    lm_placements (load_placement_records cf now unix rs m) !! k = lm_placements m !! k) as Hframe.
  { induction rs0 as [| x rs0 IH]; intros m k Hk; [done |].
    transitivity (lm_placements (load_placement_record cf now unix m x) !! k); [apply IH; intros; apply Hk; by right |].
    destruct (load_placement_fields cf now unix m x) as [-> _]. apply lookup_insert_ne. apply Hk. left. }
  induction rs as [| x rs IH]; intros m r Hin Hu; [inversion Hin |]. cbn.
  change (foldl _ ?y rs) with (load_placement_records cf now unix rs y).
  destruct (decide (Exists (fun r' => pr_file_key r' = pr_file_key r) rs)) as [Hex | Hno].
  - apply Exists_exists in Hex as (r' & Hr' & Hg). assert (r' = r) as -> by (apply Hu; [by right | done]).
    apply (IH _ r); [done |]. intros y Hy. apply Hu. by right.
  - rewrite Hframe; [| intros y Hy Hk; destruct Hno; apply Exists_exists; eauto].
    apply elem_of_cons in Hin as [-> | Hin]; [| destruct Hno; apply Exists_exists; eauto].
    destruct (load_placement_fields cf now unix m x) as [-> _]. apply lookup_insert_eq.
Qed.
Lemma restart_fields cf now unix known reg b :
  let m0 := load_placement_records cf now unix (snd <$> map_to_list (be_placements b))
       (load_records (snd <$> map_to_list (be_layouts b)) (new_manager reg b)) in
  lm_dirty (restart cf now unix known reg b) = lm_dirty m0 /\
  lm_placements (restart cf now unix known reg b) = lm_placements m0.
Proof.
  intros m0. unfold restart. cbn [load_volume_geometry]. fold m0.
  assert (forall vs m, lm_dirty (foldl cache_negative m vs) = lm_dirty m /\ lm_placements (foldl cache_negative m vs) = lm_placements m) as Hn.
  { induction vs as [| v vs IH]; intros m; [done |]. cbn. destruct (IH (cache_negative m v)) as [-> ->].
    unfold cache_negative. by destruct (lm_geometry m !! v). }
  destruct (Hn known (foldl load_geometry_record m0 (snd <$> map_to_list (be_geometry b)))) as [-> ->].
  generalize (snd <$> map_to_list (be_geometry b)) as gs. intros gs. generalize m0 as m.
  induction gs as [| g gs IH]; intros m; [done |]. cbn. destruct (IH (load_geometry_record m g)) as [-> ->].
  unfold load_geometry_record. by destruct (LayoutClass_parse _).
Qed.
Lemma restart_dirty cf now unix known reg b :
  lm_dirty (restart cf now unix known reg b) =
    lm_dirty (load_placement_records cf now unix (snd <$> map_to_list (be_placements b))
       (load_records (snd <$> map_to_list (be_layouts b)) (new_manager reg b))).
Proof. apply restart_fields. Qed.
Lemma boot_dirty rs : forall m, lm_dirty (load_records rs m) = lm_dirty m.
Proof.
  induction rs as [| r rs IH]; intros m; [done |]. cbn. change (foldl load_record ?x rs) with (load_records rs x). rewrite IH.
  unfold load_record. cbn. by destruct (index_file_frame (LayoutState_from_record r) m) as (_ & _ & _ & _ & -> & _).
Qed.

(** Each row is stored under its own key. *)
Definition rows_keyed (m : LayoutManager) : Prop := forall k r, prow m !! k = Some r -> pr_file_key r = k.

Lemma rows_list b r : (forall k x, be_placements b !! k = Some x -> pr_file_key x = k) ->
  r ∈ (snd <$> map_to_list (be_placements b)) <-> be_placements b !! pr_file_key r = Some r.
Proof.
  intros Hk. rewrite list_elem_of_fmap. split.
  - intros ([k x] & -> & Hx%elem_of_map_to_list). cbn. by rewrite (Hk _ _ Hx).
  - intros Hr. exists (pr_file_key r, r). split; [done |]. by apply elem_of_map_to_list.
Qed.

Lemma restart_pin cf now unix known reg m key r : rows_keyed m -> prow m !! key = Some r ->
  lm_placements (restart cf now unix known reg (lm_backend m)) !! key = Some (FilePlacement_from_record r).
Proof.
  intros Hk Hr. destruct (restart_fields cf now unix known reg (lm_backend m)) as [_ ->]. pose proof (Hk _ _ Hr) as <-.
  apply load_placements_pin; [by apply rows_list |].
  intros r' Hr'%rows_list He; [| exact Hk]. change (be_placements (lm_backend m)) with (prow m) in Hr'. congruence.
Qed.

(** ** The gate outlives the process *)
(** The file's pin is the only one of its identity, in memory and in the rows. *)
Record sole_pin (key : string) (p : FilePlacement) (m : LayoutManager) : Prop := {
  sp_pin : lm_placements m !! key = Some p;
  sp_mem k q : lm_placements m !! k = Some q -> truncate_gate_key q k = truncate_gate_key p key -> k = key;
  sp_rows k r : prow m !! k = Some r -> row_gate r = truncate_gate_key p key -> k = key;
  sp_keyed : rows_keyed m }.

Lemma gate_found key p m : sole_pin key p m ->
  find_first (gate_entry (truncate_gate_key p key)) (map_to_list (lm_placements m)) = Some (key, p).
Proof.
  intros [Hp Hu _ _]. destruct (find_first _ _) as [[k q] |] eqn:E.
  - apply find_first_Some in E as [Hin Hg]. apply elem_of_map_to_list in Hin. unfold gate_entry in Hg. cbn in Hg.
    apply String.eqb_eq in Hg. assert (k = key) as -> by eauto. congruence.
  - pose proof (proj1 (find_first_None _ _) E (key, p)) as Hn. unfold gate_entry in Hn. cbn in Hn.
    rewrite String.eqb_refl in Hn. assert (true = false); [| done]. apply Hn. by apply elem_of_map_to_list.
Qed.

Lemma mark_row now unix key p z m : sole_pin key p m ->
  let gate := truncate_gate_key p key in
  exists mk r, lm_dirty (mark_truncate_dirty now unix gate z m) !! gate = Some mk /\
    prow (mark_truncate_dirty now unix gate z m) = <[key := r]> (prow m) /\
    FilePlacement_from_record r = p /\ pr_file_key r = key /\ pr_truncate_pending r = Some (gm_min mk) /\
    pr_truncate_since_unix r = Some (Z.max (unix - as_secs (GateMark_age now mk)) 0).
Proof.
  intros Hs gate. pose proof (gate_found _ _ _ Hs) as Hf. fold gate in Hf. unfold mark_truncate_dirty, persist_gate, prow.
  destruct (lm_dirty m !! gate) as [g |] eqn:E; cbn [lm_placements upd_dirty]; rewrite Hf; cbn.
  - eexists _, _. rewrite lookup_insert_eq. repeat split; try done. by destruct p.
  - eexists _, _. rewrite lookup_insert_eq. repeat split; try done; [by destruct p |]. cbn.
    unfold GateMark_age. cbn. rewrite Z.sub_diag. unfold as_secs. by rewrite Z.sub_0_r.
Qed.

Lemma mark_keyed now unix key p z m : sole_pin key p m -> rows_keyed (mark_truncate_dirty now unix (truncate_gate_key p key) z m).
Proof.
  intros Hs k x. destruct (mark_row now unix key p z m Hs) as (mk & r & _ & -> & _ & Hkey & _).
  intros [[<- <-] | [_ Hx]]%lookup_insert_Some; [done |]. by apply (sp_keyed _ _ _ Hs).
Qed.
Lemma mark_survives_restart cf now unix key p z m now' unix' known reg : sole_pin key p m ->
  let gate := truncate_gate_key p key in
  let m1 := mark_truncate_dirty now unix gate z m in
  exists mk, lm_dirty m1 !! gate = Some mk /\
    lm_dirty (restart cf now' unix' known reg (lm_backend m1)) !! gate =
      Some (Mark now' (secs (Z.max (unix' - Z.max (unix - as_secs (GateMark_age now mk)) 0) 0)) (gm_min mk)).
Proof.
  intros Hs gate m1. destruct (mark_row now unix key p z m Hs) as (mk & r & Hmk & Hrow & Hfr & Hkey & Hpend & Hsince).
  exists mk. split; [done |]. fold gate m1 in Hrow. rewrite restart_dirty.
  pose proof (mark_keyed now unix key p z m Hs) as Hkeyed. fold gate m1 in Hkeyed.
  assert (row_gate r = gate) as Hg by (unfold row_gate; by rewrite Hfr, Hkey).
  rewrite <- Hg, (load_placements_mark _ _ _ _ _ r) with (z := gm_min mk); [by rewrite Hsince | | | done].
  - apply rows_list; [exact Hkeyed |]. change (be_placements (lm_backend m1)) with (prow m1).
    by rewrite Hrow, Hkey, lookup_insert_eq.
  - intros x Hx%rows_list; [| exact Hkeyed]. change (be_placements (lm_backend m1)) with (prow m1) in Hx.
    intros Hgx. rewrite Hg in Hgx. rewrite Hrow in Hx. apply lookup_insert_Some in Hx as [[_ ?] | [Hne Hx]]; [done |].
    destruct Hne. symmetry. by eapply (sp_rows _ _ _ Hs).
Qed.

(** ** RENAME of a gated file forgets the row's mark *)
Lemma rename_row old new p m : lm_placements m !! old = Some p -> file_id p <> 0 -> old <> new ->
  prow (rename_placement old new m).2 = delete old (<[new := FilePlacement_to_record p new]> (delete new (prow m))) /\
  lm_placements (rename_placement old new m).2 = delete old (<[new := p]> (delete new (lm_placements m))).
Proof.
  intros Hp Hid Hne. unfold rename_placement, placement_for, forget_placement. rewrite Hp.
  rewrite (proj2 (Z.eqb_neq _ _)) by done. destruct (lm_placements m !! new) eqn:En; cbn; unfold prow; cbn; [done |].
  split; [done |]. by rewrite (delete_id (lm_placements m)).
Qed.

Lemma rename_keyed old new p m : sole_pin old p m -> file_id p <> 0 -> old <> new -> rows_keyed (rename_placement old new m).2.
Proof.
  intros Hs Hid Hne k x. destruct (rename_row old new p m (sp_pin _ _ _ Hs) Hid Hne) as [-> _]. intros [_ Hx]%lookup_delete_Some.
  apply lookup_insert_Some in Hx as [[<- <-] | [_ [_ Hx]%lookup_delete_Some]]; [done |]. by apply (sp_keyed _ _ _ Hs).
Qed.
Lemma rename_forgets_mark cf old new p m now unix known reg : sole_pin old p m -> file_id p <> 0 -> old <> new ->
  let m1 := (rename_placement old new m).2 in
  lm_placements m1 !! new = Some p /\
  lm_dirty (restart cf now unix known reg (lm_backend m1)) !! truncate_gate_key p new = None.
Proof.
  intros Hs Hid Hne m1. destruct (rename_row old new p m (sp_pin _ _ _ Hs) Hid Hne) as [Hrow Hpl]. fold m1 in Hrow, Hpl.
  split; [rewrite Hpl, lookup_delete_ne by done; by rewrite lookup_insert_eq |].
  assert (truncate_gate_key p new = truncate_gate_key p old) as Hg.
  { unfold truncate_gate_key. by rewrite (proj2 (Z.eqb_neq _ _)). }
  pose proof (rename_keyed old new p m Hs Hid Hne) as Hkeyed. fold m1 in Hkeyed.
  rewrite restart_dirty, load_placements_dirty, boot_dirty; [done |].
  intros r Hr%rows_list; [| exact Hkeyed]. change (be_placements (lm_backend m1)) with (prow m1) in Hr. rewrite Hg. intros Hrg.
  rewrite Hrow in Hr. apply lookup_delete_Some in Hr as [Hno Hr].
  apply lookup_insert_Some in Hr as [[_ <-] | [_ [_ Hx]%lookup_delete_Some]]; [done |].
  destruct Hno. symmetry. by eapply (sp_rows _ _ _ Hs).
Qed.

(** ** RENAME of a file onto itself *)
Lemma push_path_queue d path m d' : lm_cleanup (push_path d path m) !! d' =
  if bool_decide (d' = d) then Some (default [] (lm_cleanup m !! d) ++ [path]) else lm_cleanup m !! d'.
Proof. cbn. case_bool_decide; subst; [by rewrite lookup_insert_eq | by rewrite lookup_insert_ne]. Qed.

Lemma cleanup_fold p l : forall m, let m' := foldl (fun m sd => push_path sd.2 (stripe_rel_path p sd.1) m) m l in
  (forall d x, x ∈ default [] (lm_cleanup m !! d) -> x ∈ default [] (lm_cleanup m' !! d)) /\
  (forall s d, (s, d) ∈ l -> stripe_rel_path p s ∈ default [] (lm_cleanup m' !! d)) /\
  lm_placements m' = lm_placements m /\ prow m' = prow m.
Proof.
  induction l as [| [s d] l IH]; intros m; cbn [foldl].
  { repeat split; try done. intros s d Hx. inversion Hx. }
  destruct (IH (push_path d (stripe_rel_path p s) m)) as (A & B & C & D). cbn [fst snd]. split; [| split; [| split; [exact C | exact D]]].
  - intros d' x Hx. apply A. rewrite push_path_queue. case_bool_decide as He; [| done]. subst. cbn.
    rewrite elem_of_app. by left.
  - intros s' d' [Hx | Hx]%elem_of_cons; [| by apply B]. simplify_eq. apply A. rewrite push_path_queue, bool_decide_eq_true_2 by done.
    cbn. rewrite elem_of_app, list_elem_of_singleton. by right.
Qed.

Lemma self_rename_pin key p m : lm_placements m !! key = Some p -> file_id p <> 0 ->
  (rename_placement key key m).1 = Ok (Some p) /\ lm_placements (rename_placement key key m).2 = delete key (lm_placements m) /\
  prow (rename_placement key key m).2 = delete key (prow m).
Proof.
  intros Hp Hid. unfold rename_placement, placement_for, forget_placement. rewrite Hp.
  rewrite (proj2 (Z.eqb_neq _ _)) by done. cbn. split; [done |]. unfold prow. cbn.
  by rewrite !delete_insert_eq, !delete_delete_eq.
Qed.

Lemma keys_under_sub dir m m' : (forall k, is_Some (lm_placements m' !! k) -> is_Some (lm_placements m !! k)) ->
  keys_under dir m = [] -> keys_under dir m' = [].
Proof.
  intros Hsub Hk. destruct (keys_under dir m') as [| k ks] eqn:E; [done |].
  assert (k ∈ keys_under dir m') as Hin by (rewrite E; left). unfold keys_under in Hin.
  apply list_elem_of_filter in Hin as [Hs Hin]. apply list_elem_of_fmap in Hin as ([k' q] & -> & Hq%elem_of_map_to_list).
  destruct (Hsub k') as [q' Hq']; [by eexists |].
  assert (k' ∈ keys_under dir m) as Hx; [| rewrite Hk in Hx; inversion Hx].
  unfold keys_under. apply list_elem_of_filter. split; [done |]. apply list_elem_of_fmap. exists (k', q').
  split; [done |]. by apply elem_of_map_to_list.
Qed.

Lemma self_rename_destroys cf export key p m : layout_class_for cf key m = File -> lm_placements m !! key = Some p ->
  file_id p <> 0 -> keys_under key m = [] ->
  let m' := note_rename cf export key key m in
  lm_placements m' !! key = None /\ prow m' !! key = None /\
  forall slot d, device_ids p !! slot = Some d -> stripe_rel_path p slot ∈ default [] (lm_cleanup m' !! d).
Proof.
  intros Hc Hp Hid Hu. unfold note_rename. rewrite Hc. rewrite bool_decide_eq_false_2 by done.
  destruct (self_rename_pin key p m Hp Hid) as (H1 & H2 & H3).
  destruct (rename_placement key key m) as [res m1]. cbn [fst snd] in *. subst res.
  unfold cleanup_stripes. rewrite (proj2 (Z.eqb_neq _ _)) by done. cbn [negb].
  unfold enqueue_stripe_cleanup. rewrite (proj2 (Z.eqb_neq _ _)) by done.
  destruct (cleanup_fold p (imap pair (device_ids p)) m1) as (_ & Hq & HP & HR). set (m2 := foldl _ m1 _) in *.
  assert ((rename_placements_under key key m2).2 = m2) as ->.
  { unfold rename_placements_under. rewrite (keys_under_sub key m m2); [done | | done].
    intros k. rewrite HP, H2. intros [x [_ Hx]%lookup_delete_Some]. by eexists. }
  rewrite HP, HR, H2, H3. split; [apply lookup_delete_eq |]. split; [apply lookup_delete_eq |].
  intros slot d Hd. apply Hq. apply list_elem_of_lookup_2 with slot. by rewrite list_lookup_imap, Hd.
Qed.

(** A RENAME onto another name keeps the pin and destroys nothing of it. *)
Lemma rename_moves_pin old new p m : lm_placements m !! old = Some p -> file_id p <> 0 -> old <> new ->
  lm_placements (rename_placement old new m).2 = delete old (<[new := p]> (delete new (lm_placements m))) /\
  (rename_placement old new m).1 = Ok (lm_placements m !! new).
Proof.
  intros Hp Hid Hne. split; [by apply rename_row |].
  unfold rename_placement, placement_for, forget_placement. rewrite Hp. rewrite (proj2 (Z.eqb_neq _ _)) by done.
  by destruct (lm_placements m !! new).
Qed.

(** ** What can drop a pin *)
Definition drops (key : string) (op : LmOp) : bool :=
  match op with
  | OpForget k => String.eqb k key
  | OpForgetUnder d => starts_with (under_prefix d) key
  | OpRename old new => String.eqb old key || String.eqb new key
  | OpRenameUnder old new => starts_with (under_prefix old) key || starts_with (under_prefix new) key
  | _ => false
  end.

Definition keeps (key : string) (m m' : LayoutManager) : Prop :=
  forall p, lm_placements m !! key = Some p -> lm_placements m' !! key = Some p.
#[global] Instance keeps_preorder key : PreOrder (keeps key).
Proof. split; [by intros m p | intros a b c H1 H2 p Hp; auto]. Qed.

Lemma keeps_same key m m' : lm_placements m' = lm_placements m -> keeps key m m'.
Proof. by intros Hp p; rewrite Hp. Qed.

Lemma keeps_foldl key {A X} (f : A -> X -> A) (proj : A -> LayoutManager) l :
  (forall a x, x ∈ l -> keeps key (proj a) (proj (f a x))) -> forall a, keeps key (proj a) (proj (foldl f a l)).
Proof.
  induction l as [| x l IH]; intros Hf a; [done |]. cbn. etrans; [apply Hf; left |]. apply IH. intros. apply Hf. by right.
Qed.

Lemma forget_keeps k key m : k <> key -> keeps key m (forget_placement k m).2.
Proof. intros Hne p Hp. unfold forget_placement. destruct (lm_placements m !! k); cbn; [by rewrite lookup_delete_ne | done]. Qed.
Lemma rename_keeps old new key m : old <> key -> new <> key -> keeps key m (rename_placement old new m).2.
Proof.
  intros Ho Hn. unfold rename_placement. destruct (placement_for old m) as [q |]; [| done]. destruct (file_id q =? 0); [done |].
  pose proof (forget_keeps new key m Hn) as Hf. destruct (forget_placement new m) as [o m1]. cbn [snd] in *.
  intros p Hp. cbn. rewrite lookup_delete_ne, lookup_insert_ne by done. by apply Hf.
Qed.

Lemma starts_with_append a s : starts_with a (String.append a s) = true.
Proof. unfold starts_with. by rewrite strip_prefix_append. Qed.

Lemma return_placements s m : lm_placements (return_layout s m).2 = lm_placements m.
Proof.
  unfold return_layout. destruct (lm_revoked m !! state_key s); [done |]. destruct (lm_layouts m !! state_key s) as [l |]; [| done].
  cbn. match goal with |- context [drop_owner ?c ?s ?x] => destruct (drop_owner_frame c s x) as (_ & _ & _ & _ & _ & -> & _) end.
  by destruct (unindex_file_frame l (upd_layouts (delete (state_key s)) m)) as (_ & _ & _ & _ & _ & ->).
Qed.
Lemma return_each_placements ids : forall m, lm_placements (return_each ids m) = lm_placements m.
Proof. induction ids as [| s ids IH]; intros m; [done |]. etrans; [apply (IH (return_layout s m).2) | apply return_placements]. Qed.
Lemma bump_fold_placements hits : forall acc, lm_placements (foldl bump_step acc hits).2 = lm_placements acc.2.
Proof.
  induction hits as [| k hits IH]; intros acc; [done |]. cbn [foldl]. rewrite IH. unfold bump_step.
  destruct (bump_keeps k acc.2) as [_ <-]. by destruct (bump_recall_stateid k acc.2) as [[] ?].
Qed.
Lemma rekey_placements new ids : forall acc, lm_placements (foldl (rekey_one new) acc ids).2 = lm_placements acc.2.
Proof.
  induction ids as [| s ids IH]; intros acc; [done |]. cbn [foldl]. rewrite IH. unfold rekey_one.
  destruct (lm_layouts acc.2 !! state_key s) as [l |]; [| done]. cbn.
  match goal with |- context [index_file ?a ?b] => destruct (index_file_frame a b) as (_ & _ & _ & _ & _ & ->) end.
  cbn. by destruct (unindex_file_frame l acc.2) as (_ & _ & _ & _ & _ & ->).
Qed.
Lemma take_placements s m : lm_placements (take_scsi_layout s m).2 = lm_placements m.
Proof.
  unfold take_scsi_layout. destruct (lm_layouts m !! state_key s) as [l |]; [| done]. cbn [snd].
  destruct (unindex_file_frame l (upd_layouts (delete (state_key s)) m)) as (_ & _ & _ & _ & _ & HP).
  by destruct (lm_by_owner _ !! _).
Qed.
Lemma cleanup_placements p l : forall m,
  lm_placements (foldl (fun m sd => push_path sd.2 (stripe_rel_path p sd.1) m) m l) = lm_placements m.
Proof. intros m. by destruct (cleanup_fold p l m) as (_ & _ & -> & _). Qed.
Lemma legacy_placements p rel m : lm_placements (enqueue_legacy_cleanup p rel m) = lm_placements m.
Proof. unfold enqueue_legacy_cleanup. revert m. induction (device_ids p) as [| d ds IH]; intros m; [done |]. cbn. by rewrite IH. Qed.
Lemma mark_placements now unix g z m : lm_placements (mark_truncate_dirty now unix g z m) = lm_placements m.
Proof.
  unfold mark_truncate_dirty. destruct (lm_dirty m !! g);
    match goal with |- context [persist_gate ?g ?a ?b ?x] => destruct (persist_gate_keeps g a b x) as (_ & -> & _) end; done.
Qed.
Lemma clear_if_placements g z m : lm_placements (clear_truncate_dirty_if g z m).2 = lm_placements m.
Proof.
  unfold clear_truncate_dirty_if. destruct (lm_dirty m !! g) as [x |]; [| done]. destruct (_ <=? _); [| done]. cbn [snd].
  match goal with |- context [persist_gate ?g ?a ?b ?x] => destruct (persist_gate_keeps g a b x) as (_ & -> & _) end. done.
Qed.

Section pins.
Context {T : Type} `{StubBinding T} (cf : LmConfig).

Lemma grant_keeps key key' draw m (t : T) : keeps key m (placement_for_grant cf key' draw m t).1.2.
Proof.
  pose proof (grant_pins cf key' draw m t) as Hg.
  destruct (placement_for_grant cf key' draw m t) as [[[p | e] m1] t1] eqn:E.
  - destruct (Hg p m1 t1 eq_refl) as (Hpl & Hk & _). intros q Hq. cbn [fst snd]. rewrite Hpl.
    destruct (decide (key = key')) as [-> |]; [| by rewrite lookup_insert_ne]. rewrite lookup_insert_eq.
    by destruct (Hk q Hq) as [-> _].
  - cbn. unfold placement_for_grant in E. destruct (lm_placements m !! key'); [done |].
    destruct (list_active _); [by simplify_eq |]. destruct (stub_read t key'); [done |].
    unfold mint_placement in E. destruct (stub_meta t key') as [meta |]; [destruct (0 <? sm_len meta) |].
    all: try destruct (stub_write _ _ _ _); by simplify_eq.
Qed.

Lemma exec_keeps_pin key op m (t : T) : drops key op = false -> keeps key m (exec cf op (m, t)).1.
Proof.
  intros Hd. destruct op; cbn [exec fst drops] in *.
  - unfold generate_layout. pose proof (grant_keeps key key0 draw m t) as Hg.
    destruct (placement_for_grant cf key0 draw m t) as [[[p | e] m1] t1]; cbn [fst snd] in *; [| done].
    etrans; [exact Hg |]. destruct (build_layout _ _ _ _ _ _ _ _ _ _) as [l | e]; [| done]. cbn.
    pose proof (recheck_placements l (publish l m1)) as [R1 _]. destruct (recheck_gate l (publish l m1)) as [r m2]. cbn [fst snd] in *.
    apply keeps_same. rewrite R1. apply publish_placements.
  - apply keeps_same. unfold register_scsi_layout. cbn.
    match goal with |- context [index_file ?a ?b] => destruct (index_file_frame a b) as (_ & _ & _ & _ & _ & ->) end. done.
  - apply keeps_same, (rekey_placements _ _ (0%nat, m)).
  - apply keeps_same, take_placements.
  - apply keeps_same, return_placements.
  - apply keeps_same, revoke_dirty.
  - apply keeps_same, return_each_placements.
  - apply keeps_same, return_each_placements.
  - apply keeps_same. unfold recall_layouts_for_device. cbn [snd]. apply (bump_fold_placements _ ([], m)).
  - apply keeps_same, recall_keeps.
  - apply keeps_same, mark_placements.
  - apply keeps_same, clear_if_placements.
  - apply keeps_same. unfold clear_truncate_dirty.
    match goal with |- context [persist_gate ?g ?a ?b ?x] => destruct (persist_gate_keeps g a b x) as (_ & -> & _) end. done.
  - apply forget_keeps. by apply String.eqb_neq.
  - apply (keeps_foldl key forget_step snd _) with (a := ([], m)). intros [ps a] k Hk. unfold forget_step. cbn [fst snd].
    apply list_elem_of_filter in Hk as [Hk _]. assert (k <> key) as Hne by congruence.
    pose proof (forget_keeps k key a Hne). by destruct (forget_placement k a) as [[] ?].
  - apply orb_false_iff in Hd as [H1 H2]. apply rename_keeps; by apply String.eqb_neq.
  - apply orb_false_iff in Hd as [H1 H2].
    apply (keeps_foldl key (rename_step old new) snd _) with (a := (0%nat, m)). intros [n a] k Hk. unfold rename_step. cbn [snd].
    apply list_elem_of_filter in Hk as [Hk _]. destruct (strip_prefix _ k) as [suffix |]; [| done].
    assert (k <> key) as Hne by congruence.
    assert (String.append (under_prefix new) suffix <> key) as Hne' by (intros <-; by rewrite starts_with_append in H2).
    pose proof (rename_keeps k _ key a Hne Hne'). by destruct (rename_placement _ _ a) as [[] ?].
  - unfold placement_or_recovered. destruct (lm_placements m !! key0) eqn:E; [done |].
    destruct (stub_read t key0); [| done]. intros p Hp. cbn. rewrite lookup_insert_ne; [done | congruence].
  - apply keeps_same. unfold enqueue_stripe_cleanup. destruct (file_id p =? 0); [done | apply cleanup_placements].
  - apply keeps_same, legacy_placements.
  - by apply keeps_same.
  - by apply keeps_same.
  - apply keeps_same. unfold set_volume_geometry. repeat case_match; by simplify_eq/=.
  - by apply keeps_same.
  - apply keeps_same. unfold note_device_fetch. by destruct (_ || _).
  - by apply keeps_same.
Qed.

Definition run_ops (ops : list LmOp) (st : LayoutManager * T) : LayoutManager * T := foldl (fun st op => exec cf op st) st ops.

Lemma run_keeps key ops : forall st, Forall (fun op => drops key op = false) ops -> keeps key st.1 (run_ops ops st).1.
Proof.
  induction ops as [| op ops IH]; intros [m t] Hd; [done |]. apply Forall_cons_1 in Hd as [H1 H2]. cbn.
  etrans; [by apply exec_keeps_pin |]. by apply IH.
Qed.
End pins.

(** ** A binding is never overwritten *)
Section bindings.
Context {T : Type} `{HL : StubLaws T} (cf : LmConfig).

Lemma grant_stub key key' draw m (t : T) p : stub_read t key = Some p ->
  stub_read (placement_for_grant cf key' draw m t).2 key = Some p.
Proof.
  intros Hr. unfold placement_for_grant. destruct (lm_placements m !! key'); [done |].
  destruct (list_active _) as [| d ds]; [done |]. destruct (stub_read t key') as [p' |] eqn:E; [done |].
  assert (forall devs g, stub_read (mint_placement cf key' draw devs g m t).2 key = Some p) as Hm.
  { intros devs g. unfold mint_placement. destruct (stub_write _ _ _ _) as [t' |] eqn:Ew; [| done]. cbn.
    destruct (write_frame _ _ _ _ _ key Ew) as [_ [-> | Hs]]; [done |]. rewrite (same_read _ _ _ Hs) in E. congruence. }
  destruct (stub_meta t key') as [meta |]; [destruct (0 <? sm_len meta); [done |] |]; apply Hm.
Qed.
Lemma exec_stub op m (t : T) key p : stub_read t key = Some p -> stub_read (exec cf op (m, t)).2 key = Some p.
Proof.
  intros Hr. destruct op; try done. cbn [exec]. unfold generate_layout. pose proof (grant_stub key key0 draw m t p Hr) as Hg.
  destruct (placement_for_grant cf key0 draw m t) as [[[q | e] m1] t1]; cbn in *; [| done].
  destruct (build_layout _ _ _ _ _ _ _ _ _ _) as [l | e]; [| done]. by destruct (recheck_gate l _).
Qed.
Lemma run_stub ops key p : forall st : LayoutManager * T, stub_read st.2 key = Some p ->
  stub_read (run_ops cf ops st).2 key = Some p.
Proof. induction ops as [| op ops IH]; intros [m t] Hr; [done |]. apply (IH (exec cf op (m, t))). by apply exec_stub. Qed.
End bindings.
