(* ===== verification/PnfsRace.v ===== *)
(** Concurrent LAYOUTGETs and truncations (audit C6 in pnfs/mds/layout.rs,
    [generate_layout]; [note_truncate] of pnfs/mds/operations/mod.rs): the
    maps are independent, so a grant is three atomic steps (build, publish,
    read the gate again) and a truncation is mark, recall scan, one revoke
    per recalled layout in any order, and a fan-out that either is confirmed
    by every data server (the gate is lifted if nothing deeper is pending,
    and the truncation ends) or is not (it is parked, and a background retry
    reads the gate again and cuts at the smallest pending size, or ends when
    the gate is gone).  Any number of each run interleaved, several
    truncations of one file included. *)

From Stdlib Require Import Ascii String.
From S2P Require Import Prelude Csv PnfsPlacement PnfsLayout PnfsLayoutInv PnfsLayoutReach PnfsLayoutProps PnfsRestart PnfsOps PnfsOpsProps PnfsTruncate.

(** [Cut]: the fan-out is running; [Parked]: the retry sleeps. *)
Inductive Phase := Marked | Revoking (todo : list LayoutStateId) | Cut | Parked.

(** A truncation: [tr_size] is the size of its SETATTR, [tr_cut] the size its
    running fan-out sends.  [tr_passed] is bookkeeping of the model only: the
    size whose confirmation first lifted the file's gate since this
    truncation's mark, if one did. *)
Record Trunc := MkTrunc { tr_gate : string; tr_size : Z; tr_cut : Z; tr_phase : Phase; tr_passed : option Z }.

Definition at_phase (ph : Phase) (t : Trunc) : Trunc := MkTrunc (tr_gate t) (tr_size t) (tr_cut t) ph (tr_passed t).
Definition cutting_at (z : Z) (t : Trunc) : Trunc := MkTrunc (tr_gate t) (tr_size t) z Cut (tr_passed t).
(** The gate [g] was lifted on the confirmation of [z]. *)
Definition overtaken (g : string) (z : Z) (t : Trunc) : Trunc :=
  if bool_decide (tr_gate t = g)
  then MkTrunc (tr_gate t) (tr_size t) (tr_cut t) (tr_phase t) (match tr_passed t with None => Some z | p => p end)
  else t.

(** [rc_delivered]: the layouts a client was told it has. *)
Record Race := MkRace {
  rc_m : LayoutManager; rc_built : list LayoutState; rc_published : list LayoutState;
  rc_delivered : gset LayoutStateId; rc_trunc : gmap Z Trunc }.

Definition lkey (l : LayoutState) : LayoutStateId := state_key (ly_stateid l).

Inductive RaceOp :=
| RBuild (l : LayoutState) | RPublish (k : LayoutStateId) | RRecheck (k : LayoutStateId)
| RMark (id now unix : Z) (gate : string) (size : Z) | RScan (id : Z) | RRevoke (id now : Z) (s : LayoutStateId) | RCut (id : Z)
| RLift (id : Z) | RPark (id : Z) | RRetry (id : Z)
| RReturn (s : LayoutStateId) | RRecallDevice (dev : string).

Definition used (r : Race) (k : LayoutStateId) : bool :=
  bool_decide (k ∈ (lkey <$> rc_built r)) || bool_decide (k ∈ (lkey <$> rc_published r)) ||
  bool_decide (k ∈ rc_delivered r) || bool_decide (is_Some (lm_layouts (rc_m r) !! k)).

Definition set_m (m : LayoutManager) (r : Race) : Race :=
  MkRace m (rc_built r) (rc_published r) (rc_delivered r) (rc_trunc r).
Definition set_trunc (ts : gmap Z Trunc) (m : LayoutManager) (r : Race) : Race :=
  MkRace m (rc_built r) (rc_published r) (rc_delivered r) ts.
Definition set_phase (id : Z) (t : Trunc) (m : LayoutManager) (r : Race) : Race :=
  set_trunc (<[id := t]> (rc_trunc r)) m r.

Definition without (k : LayoutStateId) (ls : list LayoutState) : list LayoutState := filter (fun l => lkey l <> k) ls.

(** A step that is not enabled leaves the state as it is. *)
Definition exec_race (op : RaceOp) (r : Race) : Race :=
  let m := rc_m r in
  match op with
  | RBuild l => if used r (lkey l) then r else MkRace m (l :: rc_built r) (rc_published r) (rc_delivered r) (rc_trunc r)
  | RPublish k =>
      match find_first (fun l => bool_decide (lkey l = k)) (rc_built r) with
      | Some l => MkRace (publish l m) (without k (rc_built r)) (l :: rc_published r) (rc_delivered r) (rc_trunc r)
      | None => r
      end
  | RRecheck k =>
      match find_first (fun l => bool_decide (lkey l = k)) (rc_published r) with
      | Some l =>
          match recheck_gate l m with
          | (Ok _, m') => MkRace m' (rc_built r) (without k (rc_published r)) ({[k]} ∪ rc_delivered r) (rc_trunc r)
          | (Err _, m') => MkRace m' (rc_built r) (without k (rc_published r)) (rc_delivered r) (rc_trunc r)
          end
      | None => r
      end
  | RMark id now unix gate size =>
      match rc_trunc r !! id with
      | Some _ => r
      | None => set_phase id (MkTrunc gate size size Marked None) (mark_truncate_dirty now unix gate size m) r
      end
  | RScan id =>
      match rc_trunc r !! id with
      | Some t =>
          match tr_phase t with
          | Marked =>
              let '(ts, m') := recall_layouts_for_file (tr_gate t) m in
              set_phase id (at_phase (Revoking ((fun t => t.1.2) <$> ts)) t) m' r
          | _ => r
          end
      | None => r
      end
  | RRevoke id now s =>
      match rc_trunc r !! id with
      | Some t =>
          match tr_phase t with
          | Revoking todo =>
              if bool_decide (s ∈ todo)
              then set_phase id (at_phase (Revoking (filter (fun x => x <> s) todo)) t) (revoke_layout now s m).2 r
              else r
          | _ => r
          end
      | None => r
      end
  | RCut id =>
      match rc_trunc r !! id with
      | Some t => match tr_phase t with Revoking [] => set_phase id (at_phase Cut t) m r | _ => r end
      | None => r
      end
  | RLift id =>
      match rc_trunc r !! id with
      | Some t =>
          match tr_phase t with
          | Cut =>
              match clear_truncate_dirty_if (tr_gate t) (tr_cut t) m with
              | (true, m') => set_trunc (overtaken (tr_gate t) (tr_cut t) <$> delete id (rc_trunc r)) m' r
              | (false, m') => set_trunc (delete id (rc_trunc r)) m' r
              end
          | _ => r
          end
      | None => r
      end
  | RPark id =>
      match rc_trunc r !! id with
      | Some t => match tr_phase t with Cut => set_phase id (at_phase Parked t) m r | _ => r end
      | None => r
      end
  | RRetry id =>
      match rc_trunc r !! id with
      | Some t =>
          match tr_phase t with
          | Parked =>
              match truncate_dirty_state (tr_gate t) m with
              | Some (_, least) => set_phase id (cutting_at least t) m r
              | None => set_trunc (delete id (rc_trunc r)) m r
              end
          | _ => r
          end
      | None => r
      end
  | RReturn s => set_m (return_layout s m).2 r
  | RRecallDevice d => set_m (recall_layouts_for_device d m).2 r
  end.

Definition run_race (ops : list RaceOp) (r : Race) : Race := foldl (fun r op => exec_race op r) r ops.
(** The layouts of the table at the start are in clients' hands. *)
Definition race_start (m : LayoutManager) : Race := MkRace m [] [] (dom (lm_layouts m)) ∅.

(** ** The invariant *)
(** No layout of [g] that a client was given is in the table. *)
Definition none_out (r : Race) (g : string) : Prop :=
  forall k l, lm_layouts (rc_m r) !! k = Some l -> ly_file_ident l = g -> k ∉ rc_delivered r.
(** The gate of [g] is down, at [z] or below. *)
Definition gate_down (m : LayoutManager) (g : string) (z : Z) : Prop :=
  exists mk, lm_dirty m !! g = Some mk /\ gm_min mk <= z.

Definition phase_owes (r : Race) (g : string) (ph : Phase) : Prop :=
  match ph with
  | Marked => True
  | Revoking todo => forall k l, lm_layouts (rc_m r) !! k = Some l -> ly_file_ident l = g -> k ∈ rc_delivered r ->
      k ∈ (state_key <$> todo)
  | Cut | Parked => none_out r g
  end.

Definition owes (r : Race) (t : Trunc) : Prop :=
  match tr_passed t with
  | Some z => z <= tr_size t
  | None => gate_down (rc_m r) (tr_gate t) (tr_cut t) /\ tr_cut t <= tr_size t /\ phase_owes r (tr_gate t) (tr_phase t)
  end.

Record race_inv (r : Race) : Prop := {
  ri_keyed : keyed (rc_m r);
  ri_flying l : l ∈ rc_built r ++ rc_published r -> lkey l ∉ rc_delivered r;
  ri_apart : NoDup (lkey <$> rc_built r ++ rc_published r);
  ri_unborn l : l ∈ rc_built r -> lm_layouts (rc_m r) !! lkey l = None;
  ri_published l l' : l ∈ rc_published r -> lm_layouts (rc_m r) !! lkey l = Some l' -> ly_file_ident l' = ly_file_ident l;
  ri_owes id t : rc_trunc r !! id = Some t -> tr_gate t <> EmptyString -> owes r t }.

(** ** Changes that add no layout *)
Definition shrinks (m m' : LayoutManager) : Prop :=
  lm_dirty m' = lm_dirty m /\
  forall k l', lm_layouts m' !! k = Some l' -> exists l, lm_layouts m !! k = Some l /\
    ly_file_ident l' = ly_file_ident l /\ lkey l' = lkey l.

#[global] Instance shrinks_preorder : PreOrder shrinks.
Proof.
  split; [intros m; split; [done | eauto] |]. intros a b c [H1 H2] [H3 H4]. split; [congruence |].
  intros k l Hl. destruct (H4 k l Hl) as (l1 & Hl1 & E1 & E2). destruct (H2 k l1 Hl1) as (l2 & Hl2 & E3 & E4).
  exists l2. split; [done |]. split; congruence.
Qed.

Lemma shrinks_keyed m m' : shrinks m m' -> keyed m -> keyed m'.
Proof.
  intros [_ H] Hk k l Hl. destruct (H k l Hl) as (l0 & Hl0 & _ & E). unfold lkey in E. rewrite E. by apply Hk.
Qed.

Lemma delete_shrinks m m' k : lm_dirty m' = lm_dirty m -> lm_layouts m' = delete k (lm_layouts m) -> shrinks m m'.
Proof. intros HD HL. split; [done |]. rewrite HL. intros k' l [_ Hl]%lookup_delete_Some. eauto. Qed.

Lemma bump_shrinks k m : shrinks m (bump_recall_stateid k m).2.
Proof.
  split; [apply bump_keeps |]. intros x l'. destruct (bump_spec k m) as [_ ->]. case_bool_decide; subst; [| eauto].
  intros (l & Hl & ->)%fmap_Some. exists l. done.
Qed.
Lemma bump_fold_shrinks hits : forall acc, shrinks acc.2 (foldl bump_step acc hits).2.
Proof.
  induction hits as [| k hits IH]; intros acc; [done |]. cbn [foldl]. etrans; [| apply IH].
  unfold bump_step. pose proof (bump_shrinks k acc.2). by destruct (bump_recall_stateid k acc.2) as [[] ?].
Qed.
Lemma recall_file_shrinks g m : shrinks m (recall_layouts_for_file g m).2.
Proof. unfold recall_layouts_for_file. destruct (is_empty g); [done |]. exact (bump_fold_shrinks _ ([], m)). Qed.
Lemma recall_device_shrinks d m : shrinks m (recall_layouts_for_device d m).2.
Proof. unfold recall_layouts_for_device. cbn [snd]. exact (bump_fold_shrinks _ ([], m)). Qed.
Lemma revoke_shrinks now s m : shrinks m (revoke_layout now s m).2.
Proof. eapply delete_shrinks; [apply revoke_dirty | apply revoke_layouts]. Qed.
Lemma return_shrinks s m : shrinks m (return_layout s m).2.
Proof.
  unfold return_layout. destruct (lm_revoked m !! state_key s); [split; eauto |].
  destruct (lm_layouts m !! state_key s) as [l |] eqn:El; [| done]. cbn [snd].
  destruct (cut_frame s l m) as (HL & _).
  destruct (unindex_file_frame l (upd_layouts (delete (state_key s)) m)) as (_ & _ & _ & _ & HD & _).
  cbn [lm_dirty upd_layouts] in HD. set (m1 := unindex_file l _) in *.
  destruct (drop_owner_frame (lo_client (ly_owner l)) s m1) as (E1 & _ & _ & _ & E5 & _).
  apply (delete_shrinks _ _ (state_key s)); cbn; congruence.
Qed.

(** ** Preservation *)
Lemma owes_mono r m' t : shrinks (rc_m r) m' -> owes r t -> owes (set_m m' r) t.
Proof.
  intros [HD H]. unfold owes, gate_down. cbn. rewrite HD. destruct (tr_passed t); [done |].
  intros (Hg & Hz & Ho). split; [done |]. split; [done |].
  destruct (tr_phase t); cbn in *; try done; intros k l Hl Hi; destruct (H k l Hl) as (l0 & Hl0 & E & _);
    eapply Ho; [done | congruence | done | congruence | done | congruence].
Qed.

Lemma set_m_inv m' r : shrinks (rc_m r) m' -> race_inv r -> race_inv (set_m m' r).
Proof.
  intros Hs [K F A U P O]. destruct (Hs) as [HD HL]. split; cbn; try done.
  - by eapply shrinks_keyed.
  - intros l Hl. destruct (lm_layouts m' !! lkey l) as [x |] eqn:E; [| done].
    destruct (HL _ _ E) as (y & Hy & _). by rewrite (U l Hl) in Hy.
  - intros l l' Hl Hx. destruct (HL _ _ Hx) as (y & Hy & E & _). rewrite E. by apply (P l).
  - intros id t Ht Hn. apply owes_mono; [done |]. by eapply O.
Qed.

(** The set of truncations is replaced by one whose members all owe what
    they should. *)
Lemma set_trunc_inv ts r : race_inv r ->
  (forall id t, ts !! id = Some t -> tr_gate t <> EmptyString -> owes r t) -> race_inv (set_trunc ts (rc_m r) r).
Proof. intros [K F A U P O] Ht. by split. Qed.

Lemma set_phase_inv id t m' r : shrinks (rc_m r) m' -> race_inv r ->
  (tr_gate t <> EmptyString -> owes (set_m m' r) t) -> race_inv (set_phase id t m' r).
Proof.
  intros Hs Hr Ht. apply (set_trunc_inv _ (set_m m' r)); [by apply set_m_inv |].
  intros i u [[<- <-] | [_ Hi]]%lookup_insert_Some Hn; [by apply Ht |]. apply owes_mono; [done |]. by eapply ri_owes.
Qed.

Lemma without_elem k ls l : l ∈ without k ls <-> l ∈ ls /\ lkey l <> k.
Proof. unfold without. rewrite list_elem_of_filter. naive_solver. Qed.

Lemma found_key (ls : list LayoutState) k l : find_first (fun l => bool_decide (lkey l = k)) ls = Some l -> l ∈ ls /\ lkey l = k.
Proof. intros [H1 H2]%find_first_Some. by apply bool_decide_eq_true in H2. Qed.

Lemma nodup_filter_fmap (P : LayoutState -> Prop) `{forall l, Decision (P l)} (ls : list LayoutState) :
  NoDup (lkey <$> ls) -> NoDup (lkey <$> filter P ls).
Proof.
  induction ls as [| l ls IH]; intros Hn; [done |]. cbn in Hn. apply NoDup_cons in Hn as [Hnin Hn]. rewrite filter_cons.
  destruct (decide (P l)); [| by apply IH]. cbn. apply NoDup_cons. split; [| by apply IH].
  intros (x & Hx & Hin)%list_elem_of_fmap. apply list_elem_of_filter in Hin as [_ Hin]. apply Hnin, list_elem_of_fmap. eauto.
Qed.

(** Publishing moves a layout from one list to the other. *)
Lemma move_apart k l bs ps : l ∈ bs -> lkey l = k -> NoDup (lkey <$> bs ++ ps) ->
  NoDup (lkey <$> without k bs ++ l :: ps) /\ NoDup (lkey <$> bs ++ without k ps).
Proof.
  intros Hl Hk Hn. rewrite fmap_app in Hn. apply NoDup_app in Hn as (Hb & Hd & Hp). split; rewrite fmap_app; apply NoDup_app.
  - split; [by apply nodup_filter_fmap |]. split.
    + intros x (b & -> & [Hb1 Hb2]%without_elem)%list_elem_of_fmap. cbn. rewrite elem_of_cons. intros [Hx | Hx]; [congruence |].
      apply (Hd (lkey b)); [| done]. apply list_elem_of_fmap. eauto.
    + cbn. apply NoDup_cons. split; [| done]. intros Hx. apply (Hd (lkey l)); [| done]. apply list_elem_of_fmap. eauto.
  - split; [done |]. split; [| by apply nodup_filter_fmap].
    intros x Hx (q & -> & [Hq _]%without_elem)%list_elem_of_fmap. apply (Hd _ Hx). apply list_elem_of_fmap. eauto.
Qed.

Lemma build_inv l r : race_inv r -> race_inv (exec_race (RBuild l) r).
Proof.
  intros [K F A U P O]. cbn [exec_race]. destruct (used r (lkey l)) eqn:Eu; [by split |].
  unfold used in Eu. repeat (apply orb_false_iff in Eu as [Eu ?]).
  repeat match goal with H : bool_decide _ = false |- _ => apply bool_decide_eq_false in H end.
  split; cbn [rc_m rc_built rc_published rc_delivered rc_trunc]; auto.
  - intros x. cbn. rewrite elem_of_cons. intros [-> | Hx]; [done | by apply F].
  - cbn. apply NoDup_cons. split; [| done]. rewrite fmap_app, elem_of_app. naive_solver.
  - intros x. rewrite elem_of_cons. intros [-> | Hx]; [| by apply U].
    destruct (lm_layouts (rc_m r) !! lkey l) eqn:E; [| done]. destruct H. by eexists.
Qed.

Lemma publish_inv k r : race_inv r -> race_inv (exec_race (RPublish k) r).
Proof.
  intros Hr. cbn [exec_race]. destruct (find_first _ _) as [l |] eqn:Ef; [| done].
  apply found_key in Ef as [Hl Hk]. destruct Hr as [K F A U P O].
  destruct (publish_placements l (rc_m r)) as (_ & HD & HL). fold (lkey l) in HL.
  assert (lkey l ∉ rc_delivered r) as Hnd by (apply F; rewrite elem_of_app; by left).
  split; cbn [rc_m rc_built rc_published rc_delivered rc_trunc]; rewrite ?HD, ?HL.
  - intros k' x. rewrite HL. intros [[<- <-] | [_ Hx]]%lookup_insert_Some; [done | by apply K].
  - intros x. rewrite elem_of_app, elem_of_cons, without_elem. intros [[Hx _] | [-> | Hx]]; [| done |]; apply F; rewrite elem_of_app; auto.
  - by destruct (move_apart k l _ _ Hl Hk A).
  - intros x [Hx Hne]%without_elem. rewrite lookup_insert_ne by congruence. by apply U.
  - intros x x'. rewrite elem_of_cons. intros [-> | Hx].
    + rewrite lookup_insert_eq. by intros [= <-].
    + rewrite lookup_insert_ne; [by apply P |]. intros He.
      rewrite fmap_app in A. apply NoDup_app in A as (_ & Hd & _). apply (Hd (lkey l)); apply list_elem_of_fmap; eauto.
  - intros id t Ht Hn. specialize (O id t Ht Hn). unfold owes, gate_down in *. cbn [rc_m]. rewrite HD.
    destruct (tr_passed t); [done |]. destruct O as (Hg & Hz & Ho). split; [done |]. split; [done |].
    destruct (tr_phase t); cbn in *; try done; unfold none_out in *; cbn; rewrite HL;
      intros k' x [[<- <-] | [_ Hx]]%lookup_insert_Some Hi; try done; by eapply Ho.
Qed.

Lemma recheck_inv k r : race_inv r -> race_inv (exec_race (RRecheck k) r).
Proof.
  intros Hr. cbn [exec_race]. destruct (find_first _ _) as [l |] eqn:Ef; [| done].
  apply found_key in Ef as [Hl Hk]. destruct (Hr) as [K F A U P O].
  assert (NoDup (lkey <$> rc_built r ++ without k (rc_published r))) as A'.
  { rewrite fmap_app in *. apply NoDup_app in A as (A1 & A2 & A3). apply NoDup_app. split; [done |].
    split; [| by apply nodup_filter_fmap]. intros x Hx (q & -> & [Hq _]%without_elem)%list_elem_of_fmap.
    apply (A2 _ Hx), list_elem_of_fmap. eauto. }
  destruct (recheck_gate l (rc_m r)) as [[l' | e] m'] eqn:Er.
  - apply recheck_Ok in Er as (-> & Hclean & ->). split; cbn [rc_m rc_built rc_published rc_delivered rc_trunc]; try done.
    + intros x Hx. apply not_elem_of_union. split.
      * rewrite not_elem_of_singleton. rewrite elem_of_app, without_elem in Hx. destruct Hx as [Hx | [_ Hx]]; [| done].
        intros He. rewrite fmap_app in A. apply NoDup_app in A as (_ & Hd & _).
        apply (Hd (lkey x)); apply list_elem_of_fmap; [eauto |]. exists l. split; [congruence | done].
      * apply F. rewrite elem_of_app in *. destruct Hx as [Hx | [Hx _]%without_elem]; auto.
    + intros x x' [Hx _]%without_elem. by apply P.
    + intros id t Ht Hn. pose proof (O id t Ht Hn) as Ho. unfold owes in *. destruct (tr_passed t); [done |].
      destruct Ho as (Hg & Hz & Ho). split; [exact Hg |]. split; [exact Hz |]. destruct Hg as (mk & Hmk & _).
      assert (forall x, lm_layouts (rc_m r) !! k = Some x -> ly_file_ident x <> tr_gate t) as Hnew.
      { intros x Hx E. rewrite <- Hk in Hx. rewrite <- E, (P l x Hl Hx) in Hmk. congruence. }
      destruct (tr_phase t); cbn in *; try done;
        intros k' x Hx Hi [->%elem_of_singleton | Hd]%elem_of_union; try (by destruct (Hnew x)); by eapply Ho.
  - assert (shrinks (rc_m r) m') as Hs.
    { unfold recheck_gate in Er. destruct (lm_dirty (rc_m r) !! ly_file_ident l); [| done]. simplify_eq.
      destruct (unindex_file_frame l (upd_layouts (delete (state_key (ly_stateid l))) (rc_m r))) as (E1 & _ & _ & _ & E5 & _).
      eapply delete_shrinks; cbn; [exact E5 | exact E1]. }
    destruct (set_m_inv m' r Hs Hr) as [K1 F1 A1 U1 P1 O1].
    split; cbn [rc_m rc_built rc_published rc_delivered rc_trunc set_m] in *; try done.
    + intros x Hx. apply F1. rewrite elem_of_app in *. destruct Hx as [Hx | [Hx _]%without_elem]; auto.
    + intros x x' [Hx _]%without_elem. by apply P1.
Qed.

(** Lifting the gate: the truncations it overtakes asked for no deeper cut. *)
Lemma lift_inv id r : race_inv r -> race_inv (exec_race (RLift id) r).
Proof.
  intros Hr. cbn [exec_race]. destruct (rc_trunc r !! id) as [t |] eqn:Et; [| done]. destruct (tr_phase t); try done.
  pose proof (clear_if_same (tr_gate t) (tr_cut t) (rc_m r)) as (HL & _).
  pose proof (clear_if_dirty (tr_gate t) (tr_cut t) (rc_m r)) as HD.
  assert (race_inv (set_trunc (delete id (rc_trunc r)) (rc_m r) r)) as Hend.
  { apply set_trunc_inv; [done |]. intros i u [_ Hu]%lookup_delete_Some. by apply (ri_owes _ Hr i). }
  unfold clear_truncate_dirty_if in *. destruct (lm_dirty (rc_m r) !! tr_gate t) as [mk |] eqn:E; [| exact Hend].
  destruct (Z.leb_spec (tr_cut t) (gm_min mk)) as [Hle |]; [| exact Hend]. cbn [fst snd] in *.
  set (m' := persist_gate _ _ _ _) in *. destruct Hr as [K F A U P O].
  split; cbn [rc_m rc_built rc_published rc_delivered rc_trunc set_trunc]; rewrite ?HL; try done.
  - intros k l. rewrite HL. apply K.
  - intros i u' Hu Hn. rewrite lookup_fmap in Hu. apply fmap_Some in Hu as (u & [_ Hu]%lookup_delete_Some & ->).
    unfold overtaken in *. destruct (bool_decide_reflect (tr_gate u = tr_gate t)) as [Hg | Hg]; specialize (O i u Hu Hn);
      unfold owes, gate_down in *; cbn in *.
    + destruct (tr_passed u); [done |]. destruct O as ((mk' & Hmk' & Hz) & Hz' & _). rewrite Hg, E in Hmk'. simplify_eq. lia.
    + destruct (tr_passed u); [done |]. rewrite HD, lookup_delete_ne by (by apply not_eq_sym).
      destruct O as (Hd & Hz & Ho). split; [done |]. split; [done |]. destruct (tr_phase u); cbn in *; unfold none_out in *; cbn; rewrite ?HL; done.
Qed.

Lemma mark_inv id now unix g z r : race_inv r -> race_inv (exec_race (RMark id now unix g z) r).
Proof.
  intros Hr. cbn [exec_race]. destruct (rc_trunc r !! id) eqn:E; [done |].
  destruct (mark_same now unix g z (rc_m r)) as (HL & _). destruct (mark_dirty now unix g z (rc_m r)) as (mk & HD & Hz & Hmin & _).
  set (m' := mark_truncate_dirty _ _ _ _ _) in *. destruct Hr as [K F A U P O].
  split; cbn; rewrite ?HL; try done.
  - intros k l. rewrite HL. apply K.
  - intros i t [[_ <-] | [_ Hi]]%lookup_insert_Some Hn; unfold owes, gate_down; cbn; rewrite HD.
    + rewrite lookup_insert_eq. split; [by exists mk | done].
    + specialize (O i t Hi Hn). unfold owes, gate_down in O. destruct (tr_passed t); [done |].
      destruct O as ((mk0 & Hd & Hz0) & Hz' & Ho). split; [| split; [done |]].
      * destruct (decide (tr_gate t = g)) as [Hg |]; [| rewrite lookup_insert_ne by done; eauto].
        rewrite Hg in *. rewrite lookup_insert_eq. exists mk. split; [done |]. specialize (Hmin mk0 Hd). lia.
      * destruct (tr_phase t); cbn in *; unfold none_out in *; cbn; rewrite ?HL; done.
Qed.

(** A truncation that still owes its phase and moves to another one. *)
Lemma phase_inv id t ph m' r : shrinks (rc_m r) m' -> race_inv r -> rc_trunc r !! id = Some t ->
  (tr_gate t <> EmptyString -> phase_owes r (tr_gate t) (tr_phase t) -> phase_owes (set_m m' r) (tr_gate t) ph) ->
  race_inv (set_phase id (at_phase ph t) m' r).
Proof.
  intros Hs Hr Ht Hp. apply set_phase_inv; [done | done |]. intros Hn. pose proof (ri_owes _ Hr _ _ Ht Hn) as Ho.
  unfold owes, gate_down in *. cbn. destruct Hs as [-> _]. destruct (tr_passed t); [done |].
  destruct Ho as (Hg & Hz & Ho). split; [done |]. split; [done |]. by apply Hp.
Qed.

Lemma scan_inv id r : race_inv r -> race_inv (exec_race (RScan id) r).
Proof.
  intros Hr. cbn [exec_race]. destruct (rc_trunc r !! id) as [t |] eqn:E; [| done]. destruct (tr_phase t); try done.
  pose proof (recall_file_shrinks (tr_gate t) (rc_m r)) as Hs.
  destruct (recall_layouts_for_file (tr_gate t) (rc_m r)) as [ts m'] eqn:Er. cbn [snd] in Hs.
  apply phase_inv; [done | done | done |]. intros Hn _.
  destruct (recall_file_spec (tr_gate t) (rc_m r) (ri_keyed _ Hr) Hn) as [Hts HL].
  rewrite Er in Hts, HL. cbn [fst snd] in *. destruct Hs as [HD HLs].
  cbn. intros k l Hl Hi _. destruct (HLs k l Hl) as (l0 & Hl0 & E1 & E2).
  rewrite <- list_fmap_compose. apply list_elem_of_fmap. exists (recall_of l0). split.
  - exact (ri_keyed _ Hr k l0 Hl0).
  - apply Hts. exists k, l0. split; [done |]. split; [congruence | done].
Qed.

Lemma revoke_inv id now s r : race_inv r -> race_inv (exec_race (RRevoke id now s) r).
Proof.
  intros Hr. cbn [exec_race]. destruct (rc_trunc r !! id) as [t |] eqn:E; [| done]. destruct (tr_phase t) as [| todo | |] eqn:Ep; try done.
  destruct (bool_decide_reflect (s ∈ todo)) as [Hin |]; [| done].
  apply phase_inv; [apply revoke_shrinks | done | done |]. intros Hn Ho. rewrite Ep in Ho. cbn in *. rewrite revoke_layouts.
  intros k l [Hne Hl]%lookup_delete_Some Hi Hd. specialize (Ho k l Hl Hi Hd). apply list_elem_of_fmap in Ho as (x & -> & Hx).
  apply list_elem_of_fmap. exists x. split; [done |]. apply list_elem_of_filter. split; [by intros -> | done].
Qed.

(** The retry cuts at the smallest pending size. *)
Lemma retry_inv id r : race_inv r -> race_inv (exec_race (RRetry id) r).
Proof.
  intros Hr. cbn [exec_race]. destruct (rc_trunc r !! id) as [t |] eqn:E; [| done]. destruct (tr_phase t) eqn:Ep; try done.
  unfold truncate_dirty_state. destruct (lm_dirty (rc_m r) !! tr_gate t) as [mk |] eqn:Ed; cbn.
  - apply set_phase_inv; [done | done |]. intros Hn. pose proof (ri_owes _ Hr _ _ E Hn) as Ho. unfold owes, gate_down in *.
    cbn. destruct (tr_passed t); [done |]. rewrite Ep in Ho. destruct Ho as ((mk' & Hd & Hz) & Hz' & Ho).
    rewrite Ed in *. simplify_eq. split; [by exists mk' |]. split; [lia | exact Ho].
  - apply set_trunc_inv; [done |]. intros i u [_ Hu]%lookup_delete_Some. by apply (ri_owes _ Hr i).
Qed.

Lemma exec_race_inv op r : race_inv r -> race_inv (exec_race op r).
Proof.
  intros Hr. destruct op as [l | k | k | id now unix g z | id | id now s | id | id | id | id | s | d].
  - by apply build_inv.
  - by apply publish_inv.
  - by apply recheck_inv.
  - by apply mark_inv.
  - by apply scan_inv.
  - by apply revoke_inv.
  - cbn [exec_race]. destruct (rc_trunc r !! id) as [t |] eqn:E; [| done]. destruct (tr_phase t) as [| [| s todo] | |] eqn:Ep; try done.
    apply phase_inv; [done | done | done |]. intros Hn Ho. rewrite Ep in Ho. cbn in *. intros k l Hl Hi Hd.
    specialize (Ho k l Hl Hi Hd). inversion Ho.
  - by apply lift_inv.
  - cbn [exec_race]. destruct (rc_trunc r !! id) as [t |] eqn:E; [| done]. destruct (tr_phase t) eqn:Ep; try done.
    apply phase_inv; [done | done | done |]. intros Hn Ho. by rewrite Ep in Ho.
  - by apply retry_inv.
  - apply set_m_inv; [apply return_shrinks | done].
  - apply set_m_inv; [apply recall_device_shrinks | done].
Qed.

Lemma run_race_inv ops : forall r, race_inv r -> race_inv (run_race ops r).
Proof. induction ops as [| op ops IH]; intros r Hr; [done |]. cbn. apply IH. by apply exec_race_inv. Qed.

Lemma race_start_inv m : keyed m -> race_inv (race_start m).
Proof.
  intros Hk. split; cbn; try done; try apply NoDup_nil_2.
  all: intros; match goal with H : _ ∈ [] |- _ => inversion H end.
Qed.

(** ** Where [tr_passed] comes from *)
(** Truncation [by] of gate [g], confirmed at [z], lifts the gate in [r]
    while truncation [id] runs. *)
Definition lifts_over (r : Race) (by_ id : Z) (g : string) (z : Z) : Prop :=
  by_ <> id /\ is_Some (rc_trunc r !! id) /\
  (exists t, rc_trunc r !! by_ = Some t /\ tr_phase t = Cut /\ tr_gate t = g /\ tr_cut t = z) /\
  (clear_truncate_dirty_if g z (rc_m r)).1 = true.

Ltac race_step E := repeat case_match; simplify_eq/=; rewrite ?lookup_insert_Some, ?lookup_delete_Some in E; naive_solver.

Lemma exec_passed op r id t z : rc_trunc (exec_race op r) !! id = Some t -> tr_passed t = Some z ->
  (exists t0, rc_trunc r !! id = Some t0 /\ tr_gate t0 = tr_gate t /\ tr_passed t0 = Some z) \/
  (exists by_, op = RLift by_ /\ lifts_over r by_ id (tr_gate t) z).
Proof.
  intros E Hz. destruct op as [l | k | k | i now unix g sz | i | i now s | i | i | i | i | s | d]; cbn [exec_race] in E.
  8:{ destruct (rc_trunc r !! i) as [u |] eqn:Eu; [| by left; eauto]. destruct (tr_phase u) eqn:Ep; try (by left; eauto).
      destruct (clear_truncate_dirty_if _ _ _) as [[] m'] eqn:Ec; cbn in E.
      - rewrite lookup_fmap in E. apply fmap_Some in E as (t0 & [Hne Ht0]%lookup_delete_Some & ->). unfold overtaken in *.
        destruct (bool_decide_reflect (tr_gate t0 = tr_gate u)) as [Hg |]; [| by left; eauto]. cbn in *.
        destruct (tr_passed t0) eqn:E0; [left; exists t0; by simplify_eq |]. simplify_eq. right. exists i. split; [done |].
        split; [done |]. split; [by eexists |]. split; [by exists u |]. by rewrite Hg, Ec.
      - apply lookup_delete_Some in E as [_ E]. eauto. }
  all: left; race_step E.
Qed.

Lemma run_race_app xs ys r : run_race (xs ++ ys) r = run_race ys (run_race xs r).
Proof. apply foldl_app. Qed.

(** A truncation marked as passed was overtaken somewhere in the run. *)
Lemma passed_history m ops id t z : let s := race_start m in
  rc_trunc (run_race ops s) !! id = Some t -> tr_passed t = Some z ->
  exists before by_ after, ops = before ++ RLift by_ :: after /\ lifts_over (run_race before s) by_ id (tr_gate t) z.
Proof.
  cbv zeta. revert t. induction ops as [| op ops IH] using rev_ind; intros t Ht Hz; [by cbn in Ht |].
  rewrite run_race_app in Ht. cbn in Ht. destruct (exec_passed op _ id t z Ht Hz) as [(t0 & Ht0 & Hg & Hz0) | (b & -> & Hl)].
  - destruct (IH t0 Ht0 Hz0) as (before & b & after & -> & Hl). exists before, b, (after ++ [op]). rewrite <- Hg.
    split; [by rewrite <- app_assoc | done].
  - exists ops, b, []. done.
Qed.
