(* ===== verification/PnfsTableClaims.v ===== *)
(** What the layout manager promises about its table, its recalls, its pins
    and what a restart brings back. *)

From Stdlib Require Import Ascii String.
From S2P Require Import Prelude Csv PnfsPlacement PnfsPlacementProps PnfsLayout PnfsLayoutInv PnfsLayoutReach PnfsLayoutProps PnfsRestart PnfsOps PnfsStripes PnfsOpsProps PnfsTruncate PnfsRename.

(** ** A concrete fleet for the witnesses: two data servers, one file *)
Definition w_dev (id endpoint : string) : DeviceInfo := Device id "10.0.0.1:2049" 1000 0 Active 0 0 1 (Some endpoint).
Definition w_reg : DeviceRegistry := <["a" := w_dev "a" "ea"]> {["b" := w_dev "b" "eb"]}.
Definition w_cf : LmConfig := MkConfig Stripe 4 None (fun _ => 7).
Definition w_stubs : gmap string Stub := {["f" := StubFile 0 0 None]}.
Definition w_draw (random : Z) : Draw := MkDraw true (3, 5) random.
Definition w_owner : LayoutOwner := Owner 11 22 33.
Definition w_st0 : LayoutManager * gmap string Stub := (new_manager w_reg empty_backend, w_stubs).
Definition w_grant : LmOp := OpGrant w_owner [1] "f" 0 100 IoReadWrite (w_draw 77).
Definition w_st1 : LayoutManager * gmap string Stub := exec w_cf w_grant w_st0.
Definition w_pin : FilePlacement := Placement 4 ["a"; "b"] 6.
Definition w_gate : string := "id:0000000000000006".
Definition w_layout : LayoutState :=
  Layout (Lsid 1 77) w_owner [1] w_gate
    [Segment 0 100 IoReadWrite "a" 0 0; Segment 0 100 IoReadWrite "b" 1 0] IoReadWrite true.

Lemma w_fresh random : fresh_id random (new_manager w_reg empty_backend).
Proof. split; [done |]. split; [done |]. intros c (s & Hs & _). cbn in Hs. rewrite lookup_empty in Hs. by apply elem_of_nil in Hs. Qed.

(** ** The table and its indexes *)
(** C6: in every state the manager reaches from a boot over any set of rows,
    by any sequence of its operations with fresh stateids, the file index
    misses no client that may write the file; and when the rows name each
    layout once, [write_capable_holders] is exactly the set of those clients,
    each once, LAYOUTRETURN4_ALL drops exactly the client's layouts, and the
    lease sweep drops exactly the layouts of the clients that are gone. *)
Theorem layout_tables_exact {T} `{StubBinding T} cf reg b rs (t0 : T) st :
  reach cf (load_records rs (new_manager reg b), t0) st ->
  (forall ident c, ident <> EmptyString -> holds_write st.1 c ident -> c ∈ write_capable_holders ident st.1) /\
  (NoDup ((fun r => state_key (lr_stateid r)) <$> rs) ->
   (forall ident c, ident <> EmptyString -> c ∈ write_capable_holders ident st.1 <-> holds_write st.1 c ident) /\
   (forall ident, NoDup (write_capable_holders ident st.1)) /\
   (forall c k l, lm_layouts (return_all_for_client c st.1).2 !! k = Some l <->
      lm_layouts st.1 !! k = Some l /\ lo_client (ly_owner l) <> c) /\
   (forall alive k l, lm_layouts (sweep_handles alive st.1) !! k = Some l <->
      lm_layouts st.1 !! k = Some l /\ alive (lo_client (ly_owner l)) = true)).
Proof.
  intros Hr. destruct (new_manager_inv reg b) as [Hok _].
  pose proof (reach_ok cf (load_records rs (new_manager reg b), t0) st (proj1 (load_records_ok rs (new_manager reg b) eq_refl Hok)) Hr) as Hst.
  split; [intros; by apply holders_complete |]. intros Hnd.
  assert (inv st.1) as Hi.
  { eapply reach_table_inv; [| exact Hr]. apply load_records_inv; [done | apply new_manager_inv | done |].
    intros r _. split; [done |]. intros c (s & Hs & _). cbn in Hs. rewrite lookup_empty in Hs. by apply elem_of_nil in Hs. }
  split; [| split; [intros; apply holders_spec | split; intros; [by apply return_all_layouts | by apply sweep_layouts]]].
  intros ident c Hne. split; [by apply holders_exact | by apply holders_complete].
Qed.

Lemma layout_tables_exact_witness : 11 ∈ write_capable_holders w_gate w_st1.1.
Proof.
  refine (proj1 (layout_tables_exact w_cf w_reg empty_backend [] w_stubs w_st1 _) w_gate 11 _ _); [| done |].
  - apply (reach_step w_cf _ w_st0 w_grant); [apply reach_refl | apply w_fresh].
  - exists (Lsid 1 77), w_layout. split_and!; by vm_compute.
Defined.

(** ** Recall *)
(** CB_LAYOUTRECALL of a file names exactly the file's layouts, each under
    the next sequence number of the same stateid (never zero, one past
    2^32 - 1 is one), leaves every other layout alone, and a client that
    returns what it was recalled is answered with success and loses that
    layout only. *)
Theorem recall_stateids_exact ident m : table_ok m -> ident <> EmptyString ->
  let '(recalls, m') := recall_layouts_for_file ident m in
  (forall session s fh, (session, s, fh) ∈ recalls <->
     exists l, get_layout s m = Some l /\ ly_file_ident l = ident /\ session = lo_session (ly_owner l) /\
       fh = ly_filehandle l /\ ls_seqid s = next_seqid (ls_seqid (ly_stateid l))) /\
  (forall l, is_u32 (ls_seqid (ly_stateid l)) -> next_seqid (ls_seqid (ly_stateid l)) <> 0 /\
     (ls_seqid (ly_stateid l) < u32_max -> next_seqid (ls_seqid (ly_stateid l)) = ls_seqid (ly_stateid l) + 1)) /\
  (forall k l, lm_layouts m !! k = Some l -> ly_file_ident l <> ident -> lm_layouts m' !! k = Some l) /\
  (forall session s fh, (session, s, fh) ∈ recalls ->
     (exists l, get_layout s m' = Some l /\ ly_stateid l = s) /\
     (return_layout s m').1 = Ok tt /\ lm_layouts (return_layout s m').2 = delete (state_key s) (lm_layouts m')).
Proof.
  intros Hm Hne. pose proof (recall_file_spec ident m (tk_key _ Hm) Hne) as [Hr Hl].
  pose proof (rtc_ok _ _ (recall_file_trans ident m Hm) Hm) as Hm'.
  destruct (recall_layouts_for_file ident m) as [recalls m']. cbn [fst snd] in *.
  assert (forall session s fh, (session, s, fh) ∈ recalls -> exists l, get_layout s m = Some l /\ ly_file_ident l = ident /\
    session = lo_session (ly_owner l) /\ fh = ly_filehandle l /\ s = ly_stateid (bumped l)) as Hin.
  { intros session s fh (k & l & Hk & Hi & Ht)%Hr. injection Ht as -> -> ->. exists l. split_and!; [| done..].
    by rewrite (tk_key _ Hm _ _ Hk) in Hk. }
  split_and!.
  - intros session s fh. split.
    + intros (l & ? & ? & ? & ? & ->)%Hin. by exists l.
    + intros (l & Hg & Hi & -> & -> & Hs). apply Hr. exists (state_key s), l. split_and!; [done.. |].
      unfold recall_of, bumped. cbn. f_equal. f_equal. destruct s as [q o]. cbn in Hs. rewrite Hs. f_equal.
      pose proof (tk_key _ Hm _ _ Hg) as Hk. unfold state_key in Hk. cbn in Hk. congruence.
  - intros l Hu. by destruct (next_seqid_spec _ Hu) as (_ & ? & ?).
  - intros k l Hk Hi. rewrite Hl, Hk. cbn. by rewrite bool_decide_false.
  - intros session s fh (l & Hg & Hi & _ & _ & ->)%Hin.
    assert (lm_layouts m' !! state_key (ly_stateid (bumped l)) = Some (bumped l)) as Hb.
    { rewrite Hl. unfold get_layout in Hg. rewrite Hg. cbn. by rewrite bool_decide_true. }
    split; [by exists (bumped l) |]. split; [| by apply return_layouts].
    unfold return_layout. destruct (lm_revoked m' !! _) eqn:Et; [| by rewrite Hb].
    pose proof (tk_tomb _ Hm' _ (mk_is_Some _ _ Et)). congruence.
Qed.

Lemma recall_stateids_exact_witness : (22, Lsid 2 77, [1]) ∈ (recall_layouts_for_file w_gate w_st1.1).1 /\ table_ok w_st1.1.
Proof.
  assert (table_ok w_st1.1) as Hok.
  { apply (reach_ok w_cf w_st0); [apply new_manager_inv |]. apply (reach_step w_cf _ w_st0 w_grant); [apply reach_refl | apply w_fresh]. }
  split; [| exact Hok]. pose proof (recall_stateids_exact w_gate w_st1.1 Hok ltac:(done)) as H.
  destruct (recall_layouts_for_file w_gate w_st1.1) as [rs m']. apply H. exists w_layout. split_and!; by vm_compute.
Defined.

(** ** Restart *)
Lemma settled_canon m : settled m -> keyed m -> forall k l, lm_layouts m !! k = Some l -> k = state_key k.
Proof. intros Hs Hk k l Hl. rewrite (Hk _ _ Hl) at 1. by rewrite (sd_minted _ Hs _ _ Hl). Qed.
Lemma quiet_is_reach {T} `{StubBinding T} cf (st0 st : LayoutManager * T) : quiet_reach cf st0 st -> reach cf st0 st.
Proof. induction 1; [apply reach_refl | by apply reach_step]. Qed.
Lemma quiet_from_new {T} `{StubBinding T} cf reg b (t0 : T) st : be_layouts b = ∅ -> quiet_reach cf (new_manager reg b, t0) st ->
  settled st.1 /\ inv st.1.
Proof.
  intros Hb Hq. split.
  - eapply quiet_reach_settled; [| exact Hq]. by apply new_settled.
  - eapply reach_table_inv; [| by apply quiet_is_reach]. apply new_manager_inv.
Qed.

(** C26: a metadata server that started over no layout rows, recalled nothing,
    and was only ever given the stateids it minted (sequence number 1) to
    return, take or revoke, and that restarts over the rows it wrote, comes
    back with the same layout table, whatever was granted, returned, revoked,
    renamed, truncated or swept before; and it again names exactly the
    clients that may write each file.  (After a recall, or for a stateid
    presented with another sequence number, the row deleted is not the one
    written at the grant, and a restart brings the layout back.) *)
Theorem restart_restores_layouts {T} `{StubBinding T} cf cf' reg b (t0 : T) st now unix known reg' :
  be_layouts b = ∅ -> quiet_reach cf (new_manager reg b, t0) st ->
  let m' := restart cf' now unix known reg' (lm_backend st.1) in
  lm_layouts m' = lm_layouts st.1 /\
  forall ident c, ident <> EmptyString -> c ∈ write_capable_holders ident m' <-> holds_write st.1 c ident.
Proof.
  intros Hb Hq m'. destruct (quiet_from_new cf reg b t0 st Hb Hq) as [Hs Hi].
  pose proof (settled_canon _ Hs (tk_key _ (proj1 Hi))) as Hc.
  pose proof (settled_restart cf' now unix known reg' st.1 Hs Hc) as Hl.
  pose proof (settled_restart_inv cf' now unix known reg' st.1 Hs Hc) as Hi'. split; [exact Hl |].
  intros ident c Hne. assert (holds_write m' c ident <-> holds_write st.1 c ident) as <- by (unfold holds_write, m'; by rewrite Hl).
  split; [by apply holders_exact | apply holders_complete; [apply Hi' | done]].
Qed.

Lemma w_quiet : quiet_reach w_cf w_st0 w_st1.
Proof. apply (quiet_step w_cf _ w_st0 w_grant); [apply quiet_refl | apply w_fresh | done]. Qed.
Lemma restart_restores_layouts_witness :
  lm_layouts (restart w_cf 5 6 ["v"] ∅ (lm_backend w_st1.1)) = lm_layouts w_st1.1.
Proof. apply (restart_restores_layouts w_cf w_cf w_reg empty_backend w_stubs w_st1 5 6 ["v"] ∅ eq_refl w_quiet). Defined.

(** A layout that was recalled and revoked (the truncation path) is gone
    from the table, but its row is not: the recall writes a second row under
    the bumped stateid and the revoke deletes that one, so the next restart
    grants the file again to the client that was told it lost it. *)
Theorem revoked_layout_resurrected {T} `{StubBinding T} cf cf' reg b (t0 : T) st k l now now' unix known reg' :
  be_layouts b = ∅ -> quiet_reach cf (new_manager reg b, t0) st ->
  lm_layouts st.1 !! k = Some l -> ly_file_ident l <> EmptyString ->
  let m' := recall_and_revoke now (ly_file_ident l) st.1 in
  lm_layouts m' !! k = None /\ is_Some (get_layout k (restart cf' now' unix known reg' (lm_backend m'))).
Proof.
  intros Hb Hq Hl Hne m'. destruct (quiet_from_new cf reg b t0 st Hb Hq) as [Hs [Hok _]].
  destruct (recall_and_revoke_spec now (ly_file_ident l) st.1 (tk_key _ Hok) Hne) as (_ & _ & Hgone).
  split.
  - destruct (lm_layouts m' !! k) as [l' |] eqn:E; [| done]. apply Hgone in E as [E Hi]. by rewrite Hl in E; injection E as <-.
  - pose proof (minted_row_stays now _ st.1 k l Hs (tk_key _ Hok) Hne Hl eq_refl) as Hrow.
    rewrite <- (sd_minted _ Hs _ _ Hl) at 1. apply (restart_has cf' now' unix known reg' (lm_backend m') k (LayoutState_to_record l) Hrow).
Qed.

Lemma revoked_layout_resurrected_witness :
  is_Some (get_layout (Lsid 1 77) (restart w_cf 5 6 [] w_reg (lm_backend (recall_and_revoke 4 w_gate w_st1.1)))).
Proof.
  apply (revoked_layout_resurrected w_cf w_cf w_reg empty_backend w_stubs w_st1 (Lsid 1 77) w_layout 4 5 6 [] w_reg eq_refl w_quiet);
    by vm_compute.
Defined.

(** The same for a return that presents the stateid with another sequence
    number: the table finds the layout whatever the sequence number, the row
    deleted is the one of the stateid presented, and a restart brings the
    returned layout back. *)
Theorem returned_layout_resurrected :
  let '(removed, m') := return_layout (Lsid 2 77) w_st1.1 in
  removed = Ok tt /\ lm_layouts m' !! Lsid 1 77 = None /\
  is_Some (get_layout (Lsid 1 77) (restart w_cf 5 6 [] w_reg (lm_backend m'))).
Proof. vm_compute. split_and!; [done | done | by eexists]. Qed.

(** ** Pins *)
(** The device a client computes for an offset from a LAYOUTGET's answer. *)
Definition client_device (r : LayoutGetResult) (off : Z) : option string :=
  let width := Z.of_nat (lg_stripe_width r) in
  sg_device <$> lg_segments r !! Z.to_nat (rfc_slot (lg_file_id r mod width) width (lg_stripe_unit r) off).

Lemma client_agrees reg owner key io draw m m' r p off : got_layout owner key io draw m m' r p ->
  sane p -> device_ids p <> [] -> is_u64 off -> file_id p <> 0 ->
  client_device r off = device_ids p !! Z.to_nat (slot_for_offset p off) /\
  forall d e rel, proxy_target p reg off = Some (d, e, rel) -> client_device r off = Some d.
Proof.
  intros [_ _ (Hu & Hid & Hw) Hd _ _ _ _ _] Hp Hne Hoff Hf.
  assert (width_of p = Z.of_nat (length (device_ids p))) as Hwd.
  { unfold width_of. destruct (device_ids p); [done | cbn [length]; lia]. }
  assert (client_device r off = device_ids p !! Z.to_nat (slot_for_offset p off)) as Hc.
  { unfold client_device. rewrite Hu, Hid, Hw. destruct (slot_is_rfc_slot p off Hp Hoff) as [-> _].
    destruct (first_index_range (file_id p) (width_of p)) as [-> _].
    { pose proof (width_pos p). destruct Hp as (_ & _ & ?). rewrite Hwd in *. lia. }
    rewrite Hwd. by rewrite <- Hd, list_lookup_fmap. }
  split; [done |]. intros d e rel. unfold proxy_target. rewrite (proj2 (Z.eqb_neq _ _) Hf), Hc. cbn.
  destruct (device_ids p !! _) as [d' |]; [| done]. cbn. destruct (reg !! d') as [info |]; [| done]. cbn.
  destruct (di_control_endpoint info); [| done]. cbn. by intros [= -> _ _].
Qed.

(** The answer repeats the request and names the pin's stripe group. *)
Lemma layoutget_answers {T} `{StubBinding T} cf owner fh key off len io ty draw m (t : T) r m' t' :
  layoutget cf owner fh key off len io ty draw m t = (Ok r, m', t') ->
  lg_offset r = off /\ lg_length r = len /\ lg_iomode r = io /\ lg_layout_type r = ty /\
  exists p, lm_placements m' !! key = Some p /\ lg_device_id_bin r = composite_device_id cf (device_ids p).
Proof.
  unfold layoutget. destruct (gated key m); [done |]. destruct (negb _); [done |].
  destruct (generate_layout _ _ _ _ _ _ _ _ _ _) as [[[l | []] m1] t1]; try done.
  unfold placement_for. destruct (lm_placements m1 !! key) as [p |] eqn:Ep; [| done].
  intros [= <- <- <-]. cbn. split_and!; try done. by exists p.
Qed.

(** C25: LAYOUTGET that succeeds hands out the file's pin, which an existing
    pin is: the devices in their pinned order, all active, numbered by their
    position, the pin's stripe unit, file identity, width and stripe group,
    with the range, mode and type asked for.  The gate of the file is up; every
    operation of the manager that is not a forget or a rename of the file
    keeps that pin; and for every offset of a striped file with an identity
    the device the client computes from the answer is the one the metadata
    server's own proxy would use. *)
Theorem layoutget_pins {T} `{StubBinding T} cf owner fh key off len io ty draw m (t : T) r m' t' :
  reg_ok (lm_registry m) -> layoutget cf owner fh key off len io ty draw m t = (Ok r, m', t') ->
  exists p, (forall p0, lm_placements m !! key = Some p0 -> p = p0) /\
    sg_device <$> lg_segments r = device_ids p /\
    (forall i sg, lg_segments r !! i = Some sg -> sg_stripe_index sg = wrap_u32 (Z.of_nat i)) /\
    lg_stripe_unit r = stripe_size p /\ lg_file_id r = file_id p /\ lg_stripe_width r = length (device_ids p) /\
    lg_device_id_bin r = composite_device_id cf (device_ids p) /\
    lg_offset r = off /\ lg_length r = len /\ lg_iomode r = io /\ lg_layout_type r = ty /\
    Forall (fun id => exists d, lm_registry m !! id = Some d /\ di_status d = Active) (device_ids p) /\
    lm_dirty m' !! truncate_gate_key p key = None /\
    (forall ops, Forall (fun op => drops key op = false) ops -> lm_placements (run_ops cf ops (m', t')).1 !! key = Some p) /\
    (sane p -> device_ids p <> [] -> file_id p <> 0 -> forall reg o d e rel, is_u64 o ->
       proxy_target p reg o = Some (d, e, rel) -> client_device r o = Some d).
Proof.
  intros Hreg Hg. destruct (layoutget_ok cf _ _ _ _ _ _ _ _ _ _ _ _ _ Hreg Hg) as (_ & _ & p & Hp). exists p.
  destruct (layoutget_answers cf _ _ _ _ _ _ _ _ _ _ _ _ _ Hg) as (? & ? & ? & ? & p' & Hp' & Hbin).
  destruct (Hp) as [Hpin Hkept (? & ? & ?) Hd Hidx Ha Hc _ _].
  rewrite Hpin, lookup_insert_eq in Hp'. injection Hp' as <-. split_and!; try done.
  - intros ops Hops. apply (run_keeps cf key ops (m', t') Hops). cbn [fst]. rewrite Hpin. apply lookup_insert_eq.
  - intros Hs Hne Hf reg o d e rel Ho. by apply (client_agrees reg owner key io draw m m' r p o Hp Hs Hne Ho Hf).
Qed.

Lemma w_reg_ok : reg_ok w_reg.
Proof. by do 2 apply (register_reg_ok (w_dev _ _)). Qed.

Lemma layoutget_pins_witness :
  let res := layoutget w_cf w_owner [1] "f" 0 100 IoReadWrite NfsV4_1Files (w_draw 77) w_st0.1 w_st0.2 in
  exists p, lm_placements (run_ops w_cf [OpReturnAll 11; OpRename "g" "h"] (res.1.2, res.2)).1 !! "f" = Some p.
Proof.
  destruct (layoutget w_cf w_owner [1] "f" 0 100 IoReadWrite NfsV4_1Files (w_draw 77) w_st0.1 w_st0.2) as [[[r | e] m'] t'] eqn:E.
  - destruct (layoutget_pins w_cf w_owner [1] "f" 0 100 IoReadWrite NfsV4_1Files (w_draw 77) w_st0.1 w_st0.2 r m' t' w_reg_ok E)
      as (p & _ & _ & _ & _ & _ & _ & _ & _ & _ & _ & _ & _ & _ & Hk & _).
    exists p. apply Hk. apply Forall_cons; split; [done |]. apply Forall_cons; split; [by vm_compute |]. by apply Forall_nil.
  - exfalso. apply (f_equal (fun x => match x.1.1 with Ok _ => true | Err _ => false end)) in E. by vm_compute in E.
Defined.

(** The stub's binding outlives the state backend.  Once a grant pinned a
    file to a placement its stub store can hold, then however the manager is
    replaced (an empty backend included) and whatever runs afterwards, a
    manager without a pin for the file finds that same placement again, for
    I/O and for the next grant, and never stripes the file anew; and a stub
    that holds data but no binding is refused instead of given a new
    identity. *)
Theorem binding_outlives_backend {T} `{StubLaws T} cf key draw m (t : T) p m' t' :
  placement_for_grant cf key draw m t = (Ok p, m', t') -> lm_placements m !! key = None -> holds p ->
  (forall ops m2 draw', let st := run_ops cf ops (m2, t') in lm_placements st.1 !! key = None ->
     (placement_or_recovered key st.1 st.2).1 = Some p /\
     (list_active (lm_registry st.1) <> [] -> (placement_for_grant cf key draw' st.1 st.2).1.1 = Ok p)) /\
  (forall m0 (t0 : T) draw' meta, lm_placements m0 !! key = None -> list_active (lm_registry m0) <> [] ->
     stub_read t0 key = None -> stub_meta t0 key = Some meta -> 0 < sm_len meta ->
     placement_for_grant cf key draw' m0 t0 = (Err OrphanedData, m0, t0)).
Proof.
  intros Hg Hn Hh. split.
  - intros ops m2 draw' st Hst. assert (stub_read st.2 key = Some p) as Hr.
    { apply run_stub. cbn [snd]. destruct (grant_pins cf key draw m t p m' t' Hg) as (_ & _ & Hrec & Hmint & _).
      destruct (stub_read t key) as [p0 |] eqn:E.
      - rewrite (Hrec Hn p0 eq_refl) in *. pose proof (grant_stub cf key key draw m t p0 E) as Hs. by rewrite Hg in Hs.
      - destruct (Hmint Hn eq_refl) as (_ & _ & Hw). by eapply write_read. }
    unfold placement_or_recovered, placement_for_grant. rewrite Hst, Hr. split; [done |]. by destruct (list_active _).
  - intros m0 t0 draw' meta Hm0 Ha Hr Hmeta Hlen. unfold placement_for_grant. rewrite Hm0, Hr, Hmeta.
    rewrite (proj2 (Z.ltb_lt _ _) Hlen). by destruct (list_active _).
Qed.

Lemma binding_outlives_backend_witness :
  let t' := (placement_for_grant w_cf "f" (w_draw 77) w_st0.1 w_st0.2).2 in
  (placement_for_grant w_cf "f" (MkDraw true (8, 9) 78) (new_manager w_reg empty_backend) t').1.1 = Ok w_pin.
Proof.
  destruct (placement_for_grant w_cf "f" (w_draw 77) w_st0.1 w_st0.2) as [[[p | e] m'] t'] eqn:E.
  2: { exfalso. apply (f_equal (fun x => match x.1.1 with Ok _ => true | Err _ => false end)) in E. by vm_compute in E. }
  assert (p = w_pin) as ->.
  { apply (f_equal (fun x => match x.1.1 with Ok q => bool_decide (q = w_pin) | Err _ => false end)) in E. cbn [fst] in E.
    symmetry in E. apply (bool_decide_eq_true_1 (p = w_pin)). rewrite E. by vm_compute. }
  refine (proj2 (proj1 (binding_outlives_backend w_cf "f" (w_draw 77) w_st0.1 w_st0.2 w_pin m' t' E eq_refl _)
    [] (new_manager w_reg empty_backend) (MkDraw true (8, 9) 78) _) _); [| done | by vm_compute].
  split; [| apply Nat.leb_le; by vm_compute]. split; [by vm_compute | by vm_compute | done | done |].
  by repeat (apply Forall_cons; split; [by vm_compute |]).
Defined.

(** ** The truncate gate across a restart and a RENAME *)
(** A pending truncation outlives the process: the gate, its smallest
    size and its age to the second, downtime included, are in force after a
    restart, so LAYOUTGET on the file still answers LAYOUTTRYLATER. *)
Theorem gate_survives_restart {T} `{StubBinding T} cf now unix key p size m now' unix' known reg : sole_pin key p m ->
  let gate := truncate_gate_key p key in
  let m1 := mark_truncate_dirty now unix gate size m in
  let m2 := restart cf now' unix' known reg (lm_backend m1) in
  exists mk mk', lm_dirty m1 !! gate = Some mk /\ lm_dirty m2 !! gate = Some mk' /\
    gm_min mk <= size /\ gm_min mk' = gm_min mk /\
    (0 <= GateMark_age now mk -> as_secs (GateMark_age now mk) <= unix -> unix <= unix' ->
       let age' := GateMark_age now mk + secs (unix' - unix) in age' - secs 1 < GateMark_age now' mk' <= age') /\
    (forall owner fh off len io ty draw (t : T),
       layoutget cf owner fh key off len io ty draw m2 t = (Err LgTryLater, m2, t)).
Proof.
  intros Hs gate m1 m2. destruct (mark_survives_restart cf now unix key p size m now' unix' known reg Hs) as (mk & Hmk & Hmk').
  destruct (mark_dirty now unix gate size m) as (mk0 & Hd & Hmin & _).
  assert (mk0 = mk) as -> by (fold gate in Hmk; rewrite Hd, lookup_insert_eq in Hmk; by injection Hmk).
  eexists mk, _. split; [exact Hmk |]. split; [exact Hmk' |]. split; [done |]. split; [done |]. split.
  - intros Ha Hu Huu. cbv zeta. set (age := GateMark_age now mk) in *. unfold GateMark_age, secs, as_secs in *. cbn [gm_carried gm_since].
    pose proof (Z.div_mod age 1000000000 ltac:(lia)).
    pose proof (Z.mod_pos_bound age 1000000000 ltac:(lia)). lia.
  - intros. unfold layoutget, gated. destruct (mark_row now unix key p size m Hs) as (_ & r & _ & Hrow & Hfr & _).
    subst m2 m1 gate. unfold placement_for. rewrite (restart_pin cf now' unix' known reg _ key r).
    + rewrite Hfr. unfold truncate_dirty_since, truncate_dirty_state. by rewrite Hmk'.
    + by apply mark_keyed.
    + by rewrite Hrow, lookup_insert_eq.
Qed.

Lemma w_sole : sole_pin "f" w_pin w_st1.1.
Proof.
  assert (lm_placements w_st1.1 = {["f" := w_pin]}) as Hp by (apply (bool_decide_unpack _); by vm_compute).
  assert (prow w_st1.1 = {["f" := FilePlacement_to_record w_pin "f"]}) as Hr by (by vm_compute).
  split; [by rewrite Hp, lookup_singleton_eq | | |].
  - intros k q. rewrite Hp. by intros [<- _]%lookup_singleton_Some.
  - intros k r. rewrite Hr. by intros [<- _]%lookup_singleton_Some.
  - intros k r. rewrite Hr. by intros [<- <-]%lookup_singleton_Some.
Qed.

Lemma gate_survives_restart_witness :
  let m2 := restart w_cf 50 2000 [] w_reg (lm_backend (mark_truncate_dirty 10 1000 w_gate 3 w_st1.1)) in
  layoutget w_cf w_owner [1] "f" 0 8 IoRead NfsV4_1Files (w_draw 78) m2 w_stubs = (Err LgTryLater, m2, w_stubs).
Proof.
  destruct (gate_survives_restart (T := gmap string Stub) w_cf 10 1000 "f" w_pin 3 w_st1.1 50 2000 [] w_reg w_sole)
    as (mk & mk' & _ & _ & _ & _ & _ & Hlg). apply Hlg.
Defined.


Lemma rename_dirty old new p m : lm_placements m !! old = Some p -> file_id p <> 0 -> lm_placements m !! new = None ->
  lm_dirty (rename_placement old new m).2 = lm_dirty m.
Proof.
  intros Hp Hid Hn. unfold rename_placement, placement_for, forget_placement. rewrite Hp, Hn.
  by rewrite (proj2 (Z.eqb_neq _ _) Hid).
Qed.

(** A RENAME of a file whose truncation is still pending drops the mark
    from its row: the running server keeps the gate, but after a restart
    the file is pinned under its new name with no gate, no size ceiling and
    no retry, and LAYOUTGET no longer waits for stripes that were never cut. *)
Theorem rename_forgets_gate cf old new p m mk now unix known reg : sole_pin old p m -> file_id p <> 0 -> old <> new ->
  lm_dirty m !! truncate_gate_key p old = Some mk -> lm_placements m !! new = None ->
  let m1 := (rename_placement old new m).2 in
  let m2 := restart cf now unix known reg (lm_backend m1) in
  (lm_placements m1 !! new = Some p /\ gated new m1 = true /\ truncate_gate_ceiling new m1 = Some (gm_min mk)) /\
  (lm_placements m2 !! new = Some p /\ gated new m2 = false /\ truncate_gate_ceiling new m2 = None /\
   forall g k q z, (g, k, q, z) ∈ parked_truncates m2 -> g <> truncate_gate_key p new).
Proof.
  intros Hs Hid Hne Hmk Hfree m1 m2. pose proof (sp_pin _ _ _ Hs) as Hp.
  destruct (rename_forgets_mark cf old new p m now unix known reg Hs Hid Hne) as [Hpin Hno].
  destruct (rename_row old new p m Hp Hid Hne) as [Hrow _]. fold m1 in Hpin, Hno, Hrow. fold m2 in Hno.
  assert (truncate_gate_key p new = truncate_gate_key p old) as Hg by (unfold truncate_gate_key; by rewrite (proj2 (Z.eqb_neq _ _) Hid)).
  assert (lm_dirty m1 = lm_dirty m) as Hd by (by apply (rename_dirty old new p)).
  assert (lm_placements m2 !! new = Some p) as Hpin2.
  { unfold m2. rewrite (restart_pin cf now unix known reg m1 new (FilePlacement_to_record p new)); [by destruct p | |].
    - by apply (rename_keyed old new p).
    - rewrite Hrow, lookup_delete_ne by done. by rewrite lookup_insert_eq. }
  unfold gated, truncate_gate_ceiling, placement_for. rewrite Hpin, Hpin2. unfold truncate_dirty_since, truncate_dirty_state.
  cbn [mbind option_bind]. rewrite Hno, Hd, Hg, Hmk. split; [done |]. split_and!; [done.. |].
  intros g k q z Hin. unfold parked_truncates in Hin. apply list_elem_of_omap in Hin as ([g' mk'] & Hin%elem_of_map_to_list & He).
  cbn in He. destruct (find_first _ _) as [[k' p'] |]; [| done]. injection He as <- _ _ _. intros ->. rewrite <- Hg in *. congruence.
Qed.

Definition w_marked : LayoutManager := mark_truncate_dirty 10 1000 w_gate 3 w_st1.1.
Lemma w_marked_sole : sole_pin "f" w_pin w_marked.
Proof.
  destruct w_sole as [H1 H2 H3 H4].
  assert (lm_placements w_marked = lm_placements w_st1.1) as Hp by apply mark_placements.
  split; [by rewrite Hp | by rewrite Hp | | by apply (mark_keyed 10 1000 "f" w_pin 3 w_st1.1 w_sole)].
  intros k r. destruct (mark_row 10 1000 "f" w_pin 3 w_st1.1 w_sole) as (_ & x & _ & Hr & _).
  change (prow w_marked) with (prow (mark_truncate_dirty 10 1000 (truncate_gate_key w_pin "f") 3 w_st1.1)). rewrite Hr.
  intros [[<- _] | [_ Hx]]%lookup_insert_Some; [done | by eapply H3].
Qed.
Lemma rename_forgets_gate_witness : gated "g" w_marked = false /\ gated "f" w_marked = true /\
  gated "g" (restart w_cf 50 2000 [] w_reg (lm_backend (rename_placement "f" "g" w_marked).2)) = false.
Proof.
  split; [by vm_compute |]. split; [by vm_compute |].
  destruct (rename_forgets_gate w_cf "f" "g" w_pin w_marked (Mark 10 0 3) 50 2000 [] w_reg w_marked_sole) as (_ & _ & H & _);
    [done | done | by vm_compute | by vm_compute | exact H].
Defined.

(** RENAME of a striped file onto its own name (a no-op in POSIX) makes
    the metadata server treat the file as overwritten by itself: its pin is
    deleted, in memory and in its row, and every one of its stripe files is
    queued and will be handed to its data server for deletion. *)
Theorem self_rename_destroys_stripes cf export key p m : layout_class_for cf key m = File ->
  lm_placements m !! key = Some p -> file_id p <> 0 -> keys_under key m = [] ->
  let m' := note_rename cf export key key m in
  lm_placements m' !! key = None /\ prow m' !! key = None /\
  forall slot d, device_ids p !! slot = Some d -> stripe_rel_path p slot ∈ (drain_stripe_cleanup d m').1.
Proof. apply self_rename_destroys. Qed.

Lemma self_rename_destroys_stripes_witness :
  lm_placements (note_rename w_cf "/x" "f" "f" w_st1.1) !! "f" = None /\
  "0000000000000006.stripe1" ∈ (drain_stripe_cleanup "b" (note_rename w_cf "/x" "f" "f" w_st1.1)).1.
Proof.
  destruct (self_rename_destroys_stripes w_cf "/x" "f" w_pin w_st1.1) as (H1 & _ & H2);
    [by vm_compute | by vm_compute | done | by vm_compute |].
  split; [exact H1 | apply (H2 1%nat "b"); reflexivity].
Defined.
