(* ===== verification/PnfsDataClaims.v ===== *)
(** What the metadata server promises about the bytes of a striped file: the
    proxy and the truncation fan-out act on the stripes as on one flat file,
    I/O is never answered from the stub, and a truncation keeps grants and
    stale layouts away from the bytes it cuts. *)

From Stdlib Require Import Ascii String.
From S2P Require Import Prelude Csv PnfsPlacement PnfsPlacementProps PnfsLayout PnfsLayoutInv PnfsLayoutReach PnfsLayoutProps PnfsRestart PnfsOps PnfsStripes PnfsOpsProps PnfsTruncate PnfsRename PnfsRace PnfsTableClaims.

(** ** A striped file is one flat file *)
Inductive DataOp := DWrite (off : Z) (data : list Z) | DTruncate (len : Z).

Definition do_data (reg : DeviceRegistry) (export key : string) (fuel : nat) (p : FilePlacement) (up : string -> bool)
    (op : DataOp) (fleet : Fleet) : run (bool * Fleet) :=
  match op with
  | DWrite off data => proxy_fallback_write up reg fuel p fleet off data
  | DTruncate len => Done (truncate_fanout up reg export key p len fleet)
  end.
Definition flat_op (op : DataOp) (F : FlatFile) : FlatFile :=
  match op with DWrite off data => flat_write off data F | DTruncate len => flat_truncate len F end.

(** The splitting loop stays below 2^64 and has fuel for its units. *)
Definition in_range (fuel : nat) (p : FilePlacement) (off len : Z) : Prop :=
  0 <= off /\ off + len + stripe_size p <= 2 ^ 64 /\ enough fuel p off len.
Definition op_in_range (fuel : nat) (p : FilePlacement) (op : DataOp) : Prop :=
  match op with DWrite off data => in_range fuel p off (Z.of_nat (length data)) | DTruncate len => 0 <= len end.

(** A run of operations that were all confirmed; which data servers answer
    may change from one to the next. *)
Inductive confirmed (reg : DeviceRegistry) (export key : string) (fuel : nat) (p : FilePlacement) :
    list DataOp -> Fleet -> Fleet -> Prop :=
| confirmed_nil fleet : confirmed reg export key fuel p [] fleet fleet
| confirmed_cons up op ops fleet fleet1 fleet2 : do_data reg export key fuel p up op fleet = Done (true, fleet1) ->
    confirmed reg export key fuel p ops fleet1 fleet2 -> confirmed reg export key fuel p (op :: ops) fleet fleet2.

Section flat.
Context (reg : DeviceRegistry) (export key : string) (fuel : nat) (p : FilePlacement).
Context (Hp : sane p) (Hid : file_id p <> 0) (Hne : device_ids p <> []).

Lemma op_refines up op fleet fleet' F : op_in_range fuel p op -> represents p reg fleet F ->
  do_data reg export key fuel p up op fleet = Done (true, fleet') -> represents p reg fleet' (flat_op op F).
Proof.
  intros Hr HF. destruct op as [off data | len]; cbn in *.
  - destruct Hr as (H1 & H2 & H3). destruct (proxy_write_refines up reg p fleet F off data fuel Hp HF H1 H2 H3) as (ok & fl & -> & Hok).
    intros [= -> ->]. by apply Hok.
  - intros [= Hf]. by eapply fanout_refines.
Qed.
Lemma confirmed_refines ops : forall fleet fleet' F, Forall (op_in_range fuel p) ops ->
  represents p reg fleet F -> confirmed reg export key fuel p ops fleet fleet' ->
  represents p reg fleet' (foldl (fun F op => flat_op op F) F ops).
Proof.
  induction ops as [| op ops IH]; intros fleet fleet' F Hr HF Hc; inversion Hc; subst; [done |].
  apply Forall_cons in Hr as [Ho Hos]. cbn. eapply IH; [done | by eapply op_refines | done].
Qed.
End flat.

(** C3: the stripes refine a flat file, for a sane placement (a 64-bit
    identity, a 64-bit stripe unit above one byte, at most 2^32-1 devices) on
    at least one device of a file with a nonzero identity, and away from the top
    of the offset space: every range satisfies offset + length + stripe unit
    <= 2^64, and the splitting loop is given one step per stripe unit.  There, after any
    confirmed sequence of proxied writes and truncations the data servers
    hold what the same operations leave in one flat file, a proxied write
    ends, and a proxied read, cut at any boundaries, ends and can only answer
    the flat file's bytes, its holes as zeroes and its end-of-file.  (At the
    top of the offset space a proxied write does not end.) *)
Theorem stripes_refine_flat_file reg export key fuel p ops fleet fleet' F :
  sane p -> file_id p <> 0 -> device_ids p <> [] -> Forall (op_in_range fuel p) ops -> represents p reg fleet F ->
  confirmed reg export key fuel p ops fleet fleet' ->
  let F' := foldl (fun F op => flat_op op F) F ops in
  represents p reg fleet' F' /\
  (forall up off data, in_range fuel p off (Z.of_nat (length data)) ->
     exists r, proxy_fallback_write up reg fuel p fleet' off data = Done r) /\
  (forall up off count size, is_u32 count -> in_range fuel p off (Z.min count (Z.max (size - off) 0)) ->
     exists r, proxy_fallback_read up reg fuel p fleet' off count size = Done r /\
       forall out, r = Some out -> out = flat_read off count size F').
Proof.
  intros Hp Hid Hne Hops HF Hc F'. assert (represents p reg fleet' F') as HF' by (by eapply confirmed_refines).
  split; [done |]. split.
  - intros up off data (H1 & H2 & H3). destruct (proxy_write_refines up reg p fleet' F' off data fuel Hp HF' H1 H2 H3) as (ok & fl & -> & _).
    by eexists.
  - intros up off count size Hu (H1 & H2 & H3). by apply proxy_read_refines.
Qed.

Definition w_fleet : Fleet := <["ea" := Node "a" ∅]> {["eb" := Node "b" ∅]}.
Definition w_up (e : string) : bool := true.
Definition w_data_ops : list DataOp := [DWrite 2 [10; 11; 12; 13; 14; 15; 16]; DTruncate 7].
Definition w_fleet1 : Fleet :=
  match proxy_fallback_write w_up w_reg 6 w_pin w_fleet 2 [10; 11; 12; 13; 14; 15; 16] with Done (_, f) => f | _ => ∅ end.
Definition w_fleet2 : Fleet := (truncate_fanout w_up w_reg "/x" "f" w_pin 7 w_fleet1).2.

Lemma w_sane : sane w_pin.
Proof. split_and!; by vm_compute. Qed.
Lemma w_empty_represents : represents w_pin w_reg w_fleet (fun _ => 0).
Proof.
  intros i Hi. unfold stripe_byte. destruct (proxy_target w_pin w_reg i) as [[[d e] rel] |]; [| done].
  unfold cell, w_fleet. destruct (decide (e = "ea")) as [-> |].
  - by rewrite lookup_insert_eq.
  - rewrite lookup_insert_ne by done. destruct (decide (e = "eb")) as [-> |]; [by rewrite lookup_singleton_eq |].
    by rewrite lookup_singleton_ne.
Qed.

(** A write that spans both data servers and a truncation in the middle of a
    unit, read back. *)
Lemma stripes_refine_flat_file_witness :
  proxy_fallback_read w_up w_reg 6 w_pin w_fleet2 0 20 9 = Done (Some ([0; 0; 10; 11; 12; 13; 14; 0; 0], true)).
Proof.
  destruct (stripes_refine_flat_file w_reg "/x" "f" 6 w_pin w_data_ops w_fleet w_fleet2 (fun _ => 0) w_sane) as (_ & _ & Hr).
  - done.
  - done.
  - apply Forall_cons; split; [split_and!; by vm_compute |]. apply Forall_cons; split; [by vm_compute |]. by apply Forall_nil.
  - apply w_empty_represents.
  - eapply (confirmed_cons _ _ _ _ _ w_up _ _ _ w_fleet1); [by vm_compute |].
    eapply (confirmed_cons _ _ _ _ _ w_up _ _ _ w_fleet2); [by vm_compute |]. apply confirmed_nil.
  - destruct (Hr w_up 0 20 9) as (r & E & Hout); [by vm_compute | split_and!; by vm_compute |]. rewrite E. f_equal.
    assert (r = Some ([0; 0; 10; 11; 12; 13; 14; 0; 0], true)) as ->; [| done].
    destruct r as [out |]; [| exfalso; by vm_compute in E]. f_equal. rewrite (Hout out eq_refl). by vm_compute.
Defined.

(** ** I/O at the metadata server *)
(** A data server that heartbeats answers at the endpoint it registered. *)
Definition truthful (up : string -> bool) (reg : DeviceRegistry) (fleet : Fleet) : Prop :=
  forall id info e, reg !! id = Some info -> di_status info <> Offline -> di_control_endpoint info = Some e ->
    up e = true /\ exists n, fleet !! e = Some n /\ dn_device_id n = id.

Lemma truthful_served up reg fleet p : truthful up reg fleet -> Forall (reachable_dev reg) (device_ids p) ->
  served up reg fleet p.
Proof.
  intros Ht Hr d Hd. rewrite Forall_forall in Hr. destruct (Hr d Hd) as (info & Hi & Hs & e & He).
  destruct (Ht _ _ _ Hi Hs He) as (Hu & n & Hn & Hid). by exists info, e, n.
Qed.

(** C28: what the disposition Proxy promises is kept: when a file's I/O is
    sent to the stripes and the registry is truthful, a write up to
    2^63 - 1 succeeds and leaves the flat write behind, and a read of at most
    4 MiB succeeds with exactly the flat file's bytes. *)
Theorem proxied_io_succeeds {T} `{StubBinding T} cf now boot ceiling key m (t : T) p m' up fleet F fuel :
  layout_class_for cf key m = File -> placement_or_recovered key m t = (Some p, m') -> sane p -> device_ids p <> [] ->
  stripe_size p <= 2 ^ 63 -> (fallback_io_disposition cf now boot ceiling true key m t).1 = Proxy ->
  truthful up (lm_registry m') fleet -> represents p (lm_registry m') fleet F ->
  (forall off data, 0 <= off -> off + Z.of_nat (length data) <= i64_max -> enough fuel p off (Z.of_nat (length data)) ->
     exists fleet', proxy_fallback_write up (lm_registry m') fuel p fleet off data = Done (true, fleet') /\
       represents p (lm_registry m') fleet' (flat_write off data F)) /\
  (forall off count size, 0 <= off -> 0 <= count <= READ_CEILING -> off + count <= i64_max ->
     enough fuel p off (Z.min count (Z.max (size - off) 0)) ->
     proxy_fallback_read up (lm_registry m') fuel p fleet off count size = Done (Some (flat_read off count size F))).
Proof.
  intros Hcl Hrec Hp Hne Hsz Hd Ht HF. unfold fallback_io_disposition in Hd. rewrite bool_decide_false in Hd by (by rewrite Hcl).
  pose proof (disposition_striped now boot ceiling true key m t p m' Hrec) as Hw.
  destruct (fallback_io_disposition_core now boot ceiling true key m t) as [d m1]. cbn [fst] in Hd.
  destruct Hw as (_ & _ & _ & Hw). apply Hw in Hd as (_ & Hid & _ & Hreach). pose proof (truthful_served _ _ _ p Ht Hreach) as Hs.
  unfold i64_max, READ_CEILING in *. split.
  - intros off data H0 Hend Hen. destruct (split_enough fuel p off (Z.of_nat (length data)) Hp) as (chunks & Hsp & Ht'); [lia.. | done |].
    destruct (proxy_write_refines up (lm_registry m') p fleet F off data fuel Hp HF) as (ok & fleet' & E & Hok); [lia.. | done |].
    exists fleet'. assert (ok = true) as ->; [| by split; [exact E | apply Hok]].
    unfold proxy_fallback_write in E. rewrite Hsp in E. injection E as E.
    pose proof (served_write up (lm_registry m') p Hp Hid Hne off data H0 ltac:(unfold i64_max; lia) chunks off fleet Ht' ltac:(lia) Hs) as Hok'.
    by rewrite E in Hok'.
  - intros off count size H0 Hc Hend Hen. set (want := Z.min count (Z.max (size - off) 0)) in *.
    destruct (split_enough fuel p off want Hp) as (chunks & Hsp & Ht'); [lia.. | done |].
    destruct (proxy_read_refines up (lm_registry m') p fleet F off count size fuel Hp HF) as (r & E & Hr);
      [lia | split; [lia | unfold u32_max; lia] | fold want; lia | done |].
    rewrite E. f_equal. destruct r as [out |]; [by rewrite (Hr out eq_refl) |]. exfalso.
    unfold proxy_fallback_read in E. fold want in E. rewrite Hsp in E. injection E as E.
    destruct (served_read up (lm_registry m') p Hp Hid Hne chunks off (off + want) fleet Ht' H0) as [x Hx];
      [unfold i64_max; lia | unfold READ_CEILING; lia | done |]. by rewrite Hx in E.
Qed.

Lemma w_truthful : truthful w_up w_reg w_fleet.
Proof.
  intros id info e. unfold w_reg. intros [[<- <-] | [_ [<- <-]%lookup_singleton_Some]]%lookup_insert_Some _ [= <-];
    (split; [done |]); eexists; by split.
Qed.
Lemma proxied_io_succeeds_witness :
  exists fleet', proxy_fallback_write w_up w_reg 6 w_pin w_fleet 2 [10; 11; 12; 13; 14; 15; 16] = Done (true, fleet').
Proof.
  destruct (proxied_io_succeeds w_cf 5 0 90 "f" w_st1.1 w_st1.2 w_pin w_st1.1 w_up w_fleet (fun _ => 0) 6) as [Hw _];
    [by vm_compute | by vm_compute | apply w_sane | done | by vm_compute | by vm_compute | apply w_truthful | apply w_empty_represents |].
  destruct (Hw 2 [10; 11; 12; 13; 14; 15; 16]) as (fl & E & _); [by vm_compute.. |]. exists fl. exact E.
Defined.

(** C40: at the top of the offset space the proxied write never ends.  When the
    stripe unit divides 2^64, the end of the last unit wraps to zero, so a
    WRITE that reaches into that unit goes round the whole file for ever,
    collecting chunks: no amount of fuel is enough.  Any client may send such
    an offset. *)
Theorem write_at_top_diverges up reg p fleet off data fuel :
  1 < stripe_size p -> (stripe_size p | 2 ^ 64) -> 0 <= off < u64_max -> (0 < length data)%nat ->
  2 ^ 64 - stripe_size p < off + Z.of_nat (length data) ->
  proxy_fallback_write up reg fuel p fleet off data = OutOfFuel.
Proof.
  intros Hs Hd Ho Hl Htop. unfold proxy_fallback_write, split_at_stripe_bounds. rewrite split_loop_diverges; [done | lia | done | |];
    unfold saturating_add_u64, u64_max in *; lia.
Qed.

Lemma write_at_top_diverges_witness : proxy_fallback_write w_up w_reg 1000 w_pin w_fleet (2 ^ 64 - 2) [1] = OutOfFuel.
Proof. apply (write_at_top_diverges w_up w_reg w_pin w_fleet (2 ^ 64 - 2) [1] 1000); [done | by exists (2 ^ 62) | done | cbn; lia | done]. Defined.

(** C27: I/O that reaches the metadata server for a striped file, pinned or
    recovered, is never answered from the file's stub.  While the truncate
    gate is down it is put off exactly as long as the gate is younger than the
    ceiling; with the gate up it is put off exactly while some pinned data
    server is away and the longest such outage is younger than the ceiling;
    it is proxied exactly when the proxy is on, the file has an identity, the
    gate is up and every pinned data server is reachable; otherwise it fails
    fast.  A file of the scsi class fails fast, and a file with no placement
    is served exactly when its stub is not a sparse shell. *)
Theorem disposition_sound {T} `{StubBinding T} cf now boot ceiling proxy key m (t : T) :
  let '(d, m1) := fallback_io_disposition cf now boot ceiling proxy key m t in
  match layout_class_for cf key m, placement_or_recovered key m t with
  | Scsi, _ => d = FailFast /\ m1 = m
  | File, (Some p, m') => m1 = m' /\ d <> Serve /\
      (d = Delay <->
         match truncate_dirty_age now (truncate_gate_key p key) m' with
         | Some age => age < ceiling
         | None => (exists id o, id ∈ device_ids p /\ outage_of now boot (lm_registry m') id = Some o) /\
                   forall id o, id ∈ device_ids p -> outage_of now boot (lm_registry m') id = Some o -> o < ceiling
         end) /\
      (d = Proxy <-> proxy = true /\ file_id p <> 0 /\ lm_dirty m' !! truncate_gate_key p key = None /\
                     Forall (reachable_dev (lm_registry m')) (device_ids p))
  | File, (None, m') => m1 = m' /\ (d = Serve \/ d = FailFast) /\
      (d = Serve <-> forall meta, stub_meta t key = Some meta -> sm_len meta <= 0 \/ sm_blocks meta <> 0)
  end.
Proof.
  unfold fallback_io_disposition. destruct (layout_class_for cf key m) eqn:Ec; [| done]. rewrite bool_decide_false by done.
  destruct (placement_or_recovered key m t) as [[p |] m'] eqn:Er.
  - exact (disposition_striped now boot ceiling proxy key m t p m' Er).
  - exact (disposition_plain now boot ceiling proxy key m t m' Er).
Qed.

(** ** Truncation *)
(** C12: SETATTR(size) of a striped file leaves no layout of it in the table
    and every other layout alone.  Either the gate stays down, at a size no
    larger than every pending one, and while it does LAYOUTGET answers
    LAYOUTTRYLATER; or it is lifted, and then every data server confirmed a
    cut at least as deep as every pending one and the stripes hold the
    truncated flat file.  A retry lifts the gate only after the same, at the
    smallest pending size. *)
Theorem truncate_gate_sound {T} `{StubBinding T} cf up export now unix key size m fleet p retry m' fleet' :
  table_ok m -> layout_class_for cf key m = File -> placement_for key m = Some p ->
  sane p -> file_id p <> 0 -> device_ids p <> [] -> 0 <= size ->
  note_truncate cf export true up now unix key size m fleet = (retry, m', fleet') ->
  let gate := truncate_gate_key p key in
  (forall k l, lm_layouts m' !! k = Some l <-> lm_layouts m !! k = Some l /\ ly_file_ident l <> gate) /\
  match lm_dirty m' !! gate with
  | Some mk => gm_min mk <= size /\ (forall m0, lm_dirty m !! gate = Some m0 -> gm_min mk <= gm_min m0) /\
      (forall owner fh off len io ty draw (t : T),
         layoutget cf owner fh key off len io ty draw m' t = (Err LgTryLater, m', t)) /\
      (forall up2 fl again m2 fl2 F, retry_truncate export up2 gate key p m' fl = (again, m2, fl2) ->
         represents p (lm_registry m') fl F -> 0 <= gm_min mk -> lm_dirty m2 !! gate = None ->
         represents p (lm_registry m') fl2 (flat_truncate (gm_min mk) F))
  | None => retry = false /\ (forall m0, lm_dirty m !! gate = Some m0 -> size <= gm_min m0) /\
      forall F, represents p (lm_registry m) fleet F -> represents p (lm_registry m) fleet' (flat_truncate size F)
  end.
Proof.
  intros Hm Hcl Hpl Hp Hid Hne Hsz Hn gate.
  destruct (note_truncate_spec cf up export now unix key size m fleet p retry m' fleet' Hm Hcl Hpl Hn) as (HL & HP & _ & HG).
  fold gate in HG. split; [exact HL |]. destruct (lm_dirty m' !! gate) as [mk |] eqn:Ed.
  - destruct HG as [H1 H2]. split_and!; [done.. | |].
    + intros. unfold layoutget, gated, placement_for. unfold placement_for in Hpl. rewrite HP, Hpl.
      unfold truncate_dirty_since, truncate_dirty_state. fold gate. by rewrite Ed.
    + intros up2 fl again m2 fl2 F Hr HF Hmin Hgone. pose proof (retry_truncate_spec up2 export gate key p m' fl again m2 fl2 Hr) as Hs.
      rewrite Ed in Hs. destruct Hs as [Hf Hd]. destruct again; [by rewrite Hd, Ed in Hgone |]. by eapply fanout_refines.
  - destruct HG as (H1 & H2 & Hf & He). split_and!; [done.. |]. intros F. rewrite He. intros HF. by eapply fanout_refines.
Qed.

Lemma truncate_gate_sound_witness :
  lm_layouts (note_truncate w_cf "/x" true w_up 10 1000 "f" 3 w_st1.1 w_fleet).1.2 !! Lsid 1 77 = None.
Proof.
  destruct (note_truncate w_cf "/x" true w_up 10 1000 "f" 3 w_st1.1 w_fleet) as [[retry m'] fleet'] eqn:E.
  assert (table_ok w_st1.1) as Hok.
  { apply (reach_ok w_cf w_st0); [apply new_manager_inv |]. apply (reach_step w_cf _ w_st0 w_grant); [apply reach_refl | apply w_fresh]. }
  destruct (truncate_gate_sound (T := unit) w_cf w_up "/x" 10 1000 "f" 3 w_st1.1 w_fleet w_pin retry m' fleet' Hok) as [HL _];
    [by vm_compute | by vm_compute | apply w_sane | done | done | done | exact E |].
  destruct (lm_layouts m' !! Lsid 1 77) as [l |] eqn:El; [| exact El]. exfalso. apply HL in El as [El Hi].
  assert (Some l = Some w_layout) as [= ->] by (rewrite <- El; by vm_compute). by apply Hi.
Defined.

(** ** Grants and truncations interleaved *)
(** C13: under every interleaving of any number of grants (build, publish,
    read the gate again), truncations of the same or of other files (mark,
    recall scan, revokes, fan-out, lift; parked and retried when a data server
    does not confirm), returns and device recalls, from a table whose layouts
    are all in clients' hands: a truncation whose fan-out is cutting the
    stripes at [tr_cut] either has the gate of its file down, at that size or
    below, and no layout of the file that any client was ever given is in the
    table; or, while it ran, another truncation of the file, confirmed by
    every data server at a size no larger than the one this truncation was
    asked for, has lifted the gate.  (In the second case the gate may be up
    and new layouts out while this one still cuts.) *)
Theorem truncate_race_safe m ops id t :
  keyed m -> tr_gate t <> EmptyString -> let r := run_race ops (race_start m) in
  rc_trunc r !! id = Some t -> tr_phase t = Cut ->
  ((exists mk, lm_dirty (rc_m r) !! tr_gate t = Some mk /\ gm_min mk <= tr_cut t <= tr_size t) /\
   forall k l, lm_layouts (rc_m r) !! k = Some l -> ly_file_ident l = tr_gate t -> k ∉ rc_delivered r) \/
  (exists before by_ after z, ops = before ++ RLift by_ :: after /\
     lifts_over (run_race before (race_start m)) by_ id (tr_gate t) z /\ z <= tr_size t).
Proof.
  intros Hk Hg r Ht Hp. pose proof (run_race_inv ops (race_start m) (race_start_inv m Hk)) as Hi. fold r in Hi.
  pose proof (ri_owes _ Hi id t Ht Hg) as Ho. unfold owes in Ho. destruct (tr_passed t) as [z |] eqn:Ez.
  - right. destruct (passed_history m ops id t z Ht Ez) as (before & b & after & -> & Hl). by exists before, b, after, z.
  - left. rewrite Hp in Ho. destruct Ho as ((mk & Hd & Hz) & Hz' & Hn). split; [by exists mk | exact Hn].
Qed.

Definition w_race : list RaceOp :=
  [RBuild w_layout; RPublish (Lsid 1 77); RRecheck (Lsid 1 77); RMark 1 10 1000 w_gate 3; RScan 1; RRevoke 1 11 (Lsid 2 77);
   RCut 1; RPark 1; RRetry 1].
Lemma truncate_race_safe_witness :
  let r := run_race w_race (race_start (new_manager w_reg empty_backend)) in
  Lsid 1 77 ∈ rc_delivered r /\ is_Some (lm_dirty (rc_m r) !! w_gate).
Proof.
  split; [apply (bool_decide_unpack _); by vm_compute |].
  destruct (truncate_race_safe (new_manager w_reg empty_backend) w_race 1 (MkTrunc w_gate 3 3 Cut None))
    as [[(mk & Hd & _) _] | (before & b & after & z & E & _)];
    [by intros k l | done | by vm_compute | done | exists mk; exact Hd |].
  exfalso. do 9 (destruct before as [| ? before]; [done | injection E as _ E]). by destruct before.
Defined.

Lemma nodup_sole {A} (l : list A) a : NoDup l -> (forall x, x ∈ l <-> x = a) -> l = [a].
Proof.
  intros Hnd Hl. destruct l as [| x [| y l]].
  - pose proof (proj2 (Hl a) eq_refl) as []%elem_of_nil.
  - f_equal. apply Hl. left.
  - exfalso. apply NoDup_cons in Hnd as [Hx _]. apply Hx.
    rewrite (proj1 (Hl x)), <- (proj1 (Hl y)); [left | right; left | left].
Qed.
Lemma recall_sole g m k l : keyed m -> g <> EmptyString -> lm_layouts m !! k = Some l -> ly_file_ident l = g ->
  (forall k' l', lm_layouts m !! k' = Some l' -> ly_file_ident l' = g -> k' = k) ->
  (recall_layouts_for_file g m).1 = [recall_of l].
Proof.
  intros Hk Hg Hl Hi Hu. unfold recall_layouts_for_file. destruct (is_empty g) eqn:E; [by apply is_empty_spec in E |].
  destruct (hits_spec m (fun x => is_empty (ly_file_ident x) = false /\ ly_file_ident x = g) Hk) as [Hnd Hin].
  rewrite (proj1 (bump_fold _ [] m Hnd)). rewrite (nodup_sole _ k Hnd); [cbn; by rewrite Hl |].
  intros x. rewrite Hin. split; [intros (l' & Hx & _ & Hi'); by eapply Hu | intros ->; exists l; by rewrite Hi].
Qed.

Definition escape (l : LayoutState) (now unix size : Z) : list RaceOp :=
  let k := lkey l in let g := ly_file_ident l in
  [RBuild l; RPublish k; RMark 1 now unix g size; RScan 1; RRevoke 1 now (ly_stateid (bumped l)); RCut 1; RLift 1; RRecheck k].

Section escape.
Context (m : LayoutManager) (l : LayoutState) (now unix size : Z).
Context (Hk : keyed m) (Hg : ly_file_ident l <> EmptyString).
Context (Hnew : lm_layouts m !! lkey l = None) (Hclean : lm_dirty m !! ly_file_ident l = None).
Context (Hsole : forall k' l', lm_layouts m !! k' = Some l' -> ly_file_ident l' <> ly_file_ident l).

Let m2 := mark_truncate_dirty now unix (ly_file_ident l) size (publish l m).
Let m3 := (recall_layouts_for_file (ly_file_ident l) m2).2.
Let m4 := (revoke_layout now (ly_stateid (bumped l)) m3).2.
Let m5 := (clear_truncate_dirty_if (ly_file_ident l) size m4).2.

Lemma escape_layouts : lm_layouts m2 = <[lkey l := l]> (lm_layouts m).
Proof. unfold m2. destruct (mark_same now unix (ly_file_ident l) size (publish l m)) as [-> _]. apply publish_frame. Qed.
Lemma escape_recall : recall_layouts_for_file (ly_file_ident l) m2 = ([recall_of l], m3).
Proof.
  unfold m3. rewrite (surjective_pairing (recall_layouts_for_file _ _)) at 1. f_equal.
  apply (recall_sole _ _ (lkey l)); [| done | by rewrite escape_layouts, lookup_insert_eq | done |].
  - intros k' l'. rewrite escape_layouts. intros [[<- <-] | [_ Hl]]%lookup_insert_Some; [done | by apply Hk].
  - intros k' l'. rewrite escape_layouts. intros [[<- _] | [_ Hl]]%lookup_insert_Some; [done | intros Hi; by apply Hsole in Hl].
Qed.
Lemma escape_gone : lm_layouts m4 !! lkey l = None.
Proof. unfold m4. rewrite revoke_layouts. apply lookup_delete_eq. Qed.
Lemma escape_marked : exists mk, lm_dirty m4 !! ly_file_ident l = Some mk /\ gm_min mk = size.
Proof.
  unfold m4, m3. destruct (revoke_dirty now (ly_stateid (bumped l)) (recall_layouts_for_file (ly_file_ident l) m2).2) as [-> _].
  destruct (recall_keeps (ly_file_ident l) m2) as [-> _].
  destruct (mark_dirty now unix (ly_file_ident l) size (publish l m)) as (mk & Hd & _ & _ & Hmin). exists mk.
  unfold m2. rewrite Hd, lookup_insert_eq. split; [done |]. apply Hmin. destruct (publish_frame l m) as (_ & _ & -> & _). exact Hclean.
Qed.
Lemma escape_lift : clear_truncate_dirty_if (ly_file_ident l) size m4 = (true, m5) /\ lm_dirty m5 !! ly_file_ident l = None.
Proof.
  unfold m5. rewrite clear_if_dirty. destruct escape_marked as (mk & E & Hmin). unfold clear_truncate_dirty_if. rewrite E, Hmin, Z.leb_refl.
  split; [done | apply lookup_delete_eq].
Qed.

Let D := dom (lm_layouts m).
Let trunc (ph : Phase) : Trunc := MkTrunc (ly_file_ident l) size size ph None.

Lemma escape_run : exists ts, run_race (escape l now unix size) (race_start m) =
  MkRace (push_owner (lo_client (ly_owner l)) (ly_stateid l) m5) [] [] ({[lkey l]} ∪ D) ts.
Proof.
  destruct escape_lift as [Hlift Hup].
  assert (bool_decide (lkey l = lkey l) = true) as Hb by (by apply bool_decide_eq_true).
  assert (without (lkey l) [l] = []) as Hw by (unfold without; by rewrite filter_cons_False, filter_nil by (by intros H; apply H)).
  eexists. unfold run_race, escape. cbn [foldl].
  assert (exec_race (RBuild l) (race_start m) = MkRace m [l] [] D ∅) as ->.
  { cbn. unfold used. cbn. rewrite (bool_decide_eq_false_2 (lkey l ∈ dom _)) by (by apply not_elem_of_dom). by rewrite Hnew. }
  assert (exec_race (RPublish (lkey l)) (MkRace m [l] [] D ∅) = MkRace (publish l m) [] [l] D ∅) as ->.
  { cbn [exec_race rc_m rc_built find_first]. rewrite Hb. cbn [rc_m rc_built rc_published rc_delivered rc_trunc]. by rewrite Hw. }
  change (exec_race (RMark 1 now unix (ly_file_ident l) size) (MkRace (publish l m) [] [l] D ∅)) with
    (MkRace m2 [] [l] D (<[1 := trunc Marked]> ∅)).
  assert (exec_race (RScan 1) (MkRace m2 [] [l] D (<[1 := trunc Marked]> ∅)) =
    MkRace m3 [] [l] D (<[1 := trunc (Revoking [ly_stateid (bumped l)])]> (<[1 := trunc Marked]> ∅))) as ->.
  { cbn [exec_race rc_trunc rc_m]. rewrite lookup_insert_eq. cbn [trunc tr_phase tr_gate]. rewrite escape_recall. done. }
  cbn [exec_race rc_trunc rc_m]. rewrite lookup_insert_eq. cbn [trunc tr_phase at_phase tr_gate]. rewrite bool_decide_true by left.
  rewrite filter_cons_False, filter_nil by (by intros H; apply H). cbn [set_phase set_trunc rc_trunc rc_m]. rewrite lookup_insert_eq.
  cbn [set_phase set_trunc rc_trunc rc_m rc_built rc_published rc_delivered at_phase tr_phase]. fold m4. rewrite lookup_insert_eq.
  cbn [tr_phase tr_gate tr_cut at_phase]. change (clear_truncate_dirty_if _ _ m4) with (clear_truncate_dirty_if (ly_file_ident l) size m4).
  rewrite Hlift. cbn [rc_published find_first set_trunc set_phase].
  rewrite Hb. cbn [rc_m rc_built rc_published rc_delivered rc_trunc set_trunc set_phase]. unfold recheck_gate. rewrite Hup. by rewrite Hw.
Qed.
End escape.

(** Reading the gate again after publishing does not catch every
    interleaving.  A truncation that marks, scans, revokes, cuts and lifts
    between a grant's publish and its second look leaves the gate up, so the
    client is told it holds a layout that the server has revoked and no
    longer knows. *)
Theorem grant_escapes_truncate m l now unix size :
  keyed m -> ly_file_ident l <> EmptyString -> lm_layouts m !! lkey l = None -> lm_dirty m !! ly_file_ident l = None ->
  (forall k' l', lm_layouts m !! k' = Some l' -> ly_file_ident l' <> ly_file_ident l) ->
  let r := run_race (escape l now unix size) (race_start m) in
  lkey l ∈ rc_delivered r /\ lm_layouts (rc_m r) !! lkey l = None /\ lm_dirty (rc_m r) !! ly_file_ident l = None.
Proof.
  intros Hk Hg Hnew Hclean Hsole. cbv zeta. destruct (escape_run m l now unix size Hk Hg Hnew Hclean Hsole) as [ts ->].
  cbn [rc_delivered rc_m]. split; [by apply elem_of_union_l, elem_of_singleton |].
  destruct (escape_lift m l now unix size Hclean) as [_ Hup]. split; [| exact Hup].
  change (lm_layouts (push_owner _ _ ?x)) with (lm_layouts x).
  match goal with |- lm_layouts (clear_truncate_dirty_if ?g ?z ?x).2 !! _ = _ => destruct (clear_if_same g z x) as [-> _] end.
  apply escape_gone.
Qed.

Lemma grant_escapes_truncate_witness :
  let r := run_race (escape w_layout 10 1000 3) (race_start (new_manager w_reg empty_backend)) in
  Lsid 1 77 ∈ rc_delivered r /\ lm_layouts (rc_m r) !! Lsid 1 77 = None.
Proof.
  destruct (grant_escapes_truncate (new_manager w_reg empty_backend) w_layout 10 1000 3) as (H1 & H2 & _);
    [by intros k l | done | done | done | by intros k l | split; [exact H1 | exact H2]].
Defined.

(** Two truncations of one file: the first, to 8 bytes, is still fanning out
    when the second, to 3, is confirmed and lifts the gate; a client is then
    granted a layout, and the first goes on cutting at 8 with the gate up and
    that layout live, so what the client writes past 8 bytes can be cut away
    although both truncations of the stub came before it. *)
Definition overtake : list RaceOp :=
  [RMark 1 10 1000 w_gate 8; RScan 1; RCut 1; RMark 2 11 1001 w_gate 3; RScan 2; RCut 2; RLift 2;
   RBuild w_layout; RPublish (Lsid 1 77); RRecheck (Lsid 1 77)].
Theorem overtaken_truncation_cuts :
  let r := run_race overtake (race_start (new_manager w_reg empty_backend)) in
  (exists t, rc_trunc r !! 1 = Some t /\ tr_phase t = Cut /\ tr_cut t = 8) /\
  lm_dirty (rc_m r) !! w_gate = None /\ Lsid 1 77 ∈ rc_delivered r /\
  lm_layouts (rc_m r) !! Lsid 1 77 = Some w_layout /\ ly_file_ident w_layout = w_gate.
Proof.
  cbv zeta. split; [eexists; vm_compute; done |].
  split; [by vm_compute |]. split; [apply (bool_decide_unpack _); by vm_compute |]. split; by vm_compute.
Qed.
