(* ===== verification/PnfsServerClaims.v ===== *)
(** The layout manager composed with the delegation grants of the NFSv4 state
    manager: grant rule 6 asks the layout index who may write. *)

From Stdlib Require Import Ascii String.
From S2P Require Import Prelude Csv Xdr Session Lease Stateid StateidInv StateidProps Clients Delegs DelegsInv DelegsProps Locks StateManager Grants ServerInv ServerReach ServerClaims PnfsPlacement PnfsLayout PnfsLayoutInv PnfsLayoutReach PnfsLayoutProps PnfsOps PnfsTruncate PnfsTableClaims.

(** The oracle the dispatcher installs with the pNFS posture: the file's key is
    a function of its path. *)
Definition layout_probe (key_of : bytes -> string) (m : LayoutManager) (path : bytes) : list Z :=
  write_layout_holders (key_of path) m.
Definition probing (env : GrantEnv) (key_of : bytes -> string) (m : LayoutManager) : Prop :=
  ge_posture env = true /\ ge_probe env = Some (layout_probe key_of m).

Lemma rule6_spec env key_of m path c : probing env key_of m -> write_layout_held_by_other env path c = false ->
  forall c', c' ∈ write_layout_holders (key_of path) m -> c' = c.
Proof.
  intros [Hp Hq]. unfold write_layout_held_by_other. rewrite Hp, Hq. cbn. intros Hex c' Hin.
  destruct (Z.eqb_spec c' c) as [| Hne]; [done |]. exfalso.
  enough (existsb (fun c0 => negb (c0 =? c)) (layout_probe key_of m path) = true) by congruence.
  apply existsb_exists. exists c'. split; [by apply list_elem_of_In | by apply negb_true_iff, Z.eqb_neq].
Qed.

(** C14: rule 6 of the delegation grant holds across the two components: in any
    reachable state of the server and any reachable state of the layout
    manager it asks, an OPEN that is answered with a read delegation finds no
    other client holding a layout that may write the striped file. *)
Theorem delegation_respects_layouts {T} `{StubBinding T} L env ep now unix c acc deny cl ident path fh s sid s'
    key_of cf reg b (t0 : T) st pth p :
  server_reach L s -> can_mint (sv_stateids s) -> is_u32 ep -> is_u64 unix ->
  deleg_answer env ep now unix c acc deny cl ident path fh s = (Some (DelegRead sid), s') ->
  reach cf (new_manager reg b, t0) st -> probing env key_of st.1 ->
  path = Some pth -> placement_for (key_of pth) st.1 = Some p ->
  forall c', holds_write st.1 c' (truncate_gate_key p (key_of pth)) -> c' = c.
Proof.
  intros Hr%reach_server_ok Hm Hep Hu Ha Hl Hpr -> Hpl c' Hw.
  destruct (answer_granted _ _ _ _ _ _ _ _ _ _ _ _ _ _ Hr Hu Ha) as (i & q & s0 & _ & [= <-] & H0 & Hst & _ & _ & _ & _ & _ & _ & _ & _ & Hg).
  destruct (grant_checked_spec env ep now c i pth fh s0 sid s' H0 ltac:(by rewrite Hst) Hep Hg) as (_ & H6 & _).
  apply (rule6_spec env key_of st.1 pth c Hpr H6). unfold write_layout_holders. rewrite Hpl.
  apply holders_complete; [| apply gate_key_nonempty | done]. eapply (reach_ok cf (new_manager reg b, t0)); [apply new_manager_inv | done].
Qed.

Definition w5_grant : LmOp := OpGrant (Owner 5 22 33) [1] "f" 0 100 IoReadWrite (w_draw 77).
Definition w5_st : LayoutManager * gmap string Stub := exec w_cf w5_grant w_st0.
Definition w5_env : GrantEnv :=
  Env true true true true false (Some (layout_probe (fun _ => "f"%string) w5_st.1)) (Some {[Session.make_id 77 5 := 1%nat]}).
Definition set_owner_5 (l : LayoutState) : LayoutState :=
  Layout (ly_stateid l) (Owner 5 22 33) (ly_filehandle l) (ly_file_ident l) (ly_segments l) (ly_iomode l) (ly_return_on_close l).
Definition w5_answer : option Delegation * Server :=
  deleg_answer w5_env 3 4 100 5 1 0 true (Some (8, 100)) (Some [47]) [1] demo_before_grant.
Lemma w5_granted : exists sid, deleg_answer w5_env 3 4 100 5 1 0 true (Some (8, 100)) (Some [47]) [1] demo_before_grant =
  (Some (DelegRead sid), w5_answer.2).
Proof. exists (match w5_answer.1 with Some (DelegRead x) => x | _ => Sid 0 0 end). by vm_compute. Qed.

(** Client 5 may hold both: the conflict is with another's layout. *)
Lemma delegation_respects_layouts_witness : exists c', holds_write w5_st.1 c' w_gate /\ c' = 5.
Proof.
  destruct answer_facts as (Hr & Hm & _). destruct w5_granted as (sid & Ha).
  assert (holds_write w5_st.1 5 w_gate) as Hw.
  { exists (Lsid 1 77), (set_owner_5 w_layout). split_and!; by vm_compute. }
  exists 5. split; [exact Hw |].
  refine (delegation_respects_layouts 90 w5_env 3 4 100 5 1 0 true (Some (8, 100)) (Some [47]) [1] demo_before_grant sid w5_answer.2
    (fun _ => "f"%string) w_cf w_reg empty_backend w_stubs w5_st [47] w_pin
    (demo_run_reach _ Hr) (proj1 (mint_okb_spec _ Hm)) small_u32 small_u64 Ha _ _ eq_refl _ 5 Hw); [| by split | by vm_compute].
  apply (reach_step w_cf _ w_st0 w5_grant); [apply reach_refl | apply w_fresh].
Defined.

(** Rule 6 does not see block-class writers.  Their recall handles are
    indexed under the file's path, but the oracle first asks for a placement,
    which a scsi-class file never has: a client that registers a read-write
    layout is among the writers of the file's index entry, and rule 6 answers
    every other client that nobody holds one. *)
Theorem scsi_writer_invisible {T} `{StubBinding T} cf reg b (t0 : T) st owner fh key random env key_of path c :
  reach cf (new_manager reg b, t0) st -> fresh_id random st.1 -> key <> EmptyString ->
  lm_placements st.1 !! key = None -> key_of path = key ->
  let m' := (register_scsi_layout owner fh key IoReadWrite random st.1).2 in
  probing env key_of m' ->
  lo_client owner ∈ write_capable_holders key m' /\ write_layout_held_by_other env path c = false.
Proof.
  intros Hl Hf Hne Hpl <- m' [Hp Hq]. split.
  - assert (table_ok m') as Hok.
    { eapply (rtc_ok st.1); [by apply register_scsi_trans | eapply (reach_ok cf (new_manager reg b, t0)); [apply new_manager_inv | done]]. }
    apply holders_complete; [done | done |].
    exists (generate_stateid random), (Layout (generate_stateid random) owner fh (key_of path) [] IoReadWrite true).
    split; [| done]. unfold m', register_scsi_layout. cbn [snd]. unfold push_owner, insert_layout. cbn.
    match goal with |- context [index_file ?a ?x] => destruct (index_file_frame a x) as (-> & _) end. apply lookup_insert_eq.
  - unfold write_layout_held_by_other. rewrite Hp, Hq. cbn [negb]. unfold layout_probe, write_layout_holders, placement_for.
    assert (lm_placements m' = lm_placements st.1) as ->; [| by rewrite Hpl].
    unfold m', register_scsi_layout. cbn [snd]. unfold push_owner, insert_layout. cbn.
    by match goal with |- context [index_file ?a ?x] => destruct (index_file_frame a x) as (_ & _ & _ & _ & _ & ->) end.
Qed.

Definition w6_m : LayoutManager := (register_scsi_layout (Owner 11 22 33) [1] "v/f" IoReadWrite 78 (new_manager w_reg empty_backend)).2.
Definition w6_env : GrantEnv := Env true true true true false (Some (layout_probe (fun _ => "v/f"%string) w6_m)) None.
Lemma scsi_writer_invisible_witness :
  11 ∈ write_capable_holders "v/f" w6_m /\ write_layout_held_by_other w6_env [47] 5 = false.
Proof.
  apply (scsi_writer_invisible w_cf w_reg empty_backend w_stubs w_st0 (Owner 11 22 33) [1] "v/f" 78 w6_env (fun _ => "v/f"%string) [47] 5);
    [apply reach_refl | apply w_fresh | done | by vm_compute | done | by split].
Defined.
