(* ===== verification/Strs.v ===== *)
(** More methods of str the control plane uses: [ends_with], [strip_suffix],
    [split_once] and [rsplit_once] with a string pattern, [replace] of a
    character, a digits check, and how they act on a concatenation whose parts
    avoid the separator.  Strings are ASCII bytes; patterns are not empty.

    Also serde_json values, as far as the control plane reads them:
    construction, [get], indexing with a string, and the [as_*] views.  An
    object is the list of its members; the first with a key is the one it has
    (serde_json keeps one member per key).  A float is opaque. *)

From Stdlib Require Import Ascii String.
From S2P Require Import Prelude Csv.

Fixpoint rev_onto (s acc : string) : string :=
  match s with String c s => rev_onto s (String c acc) | EmptyString => acc end.
Definition str_rev (s : string) : string := rev_onto s "".

Definition strip_suffix (p s : string) : option string :=
  str_rev <$> strip_prefix (str_rev p) (str_rev s).
Definition ends_with (p s : string) : bool := bool_decide (is_Some (strip_suffix p s)).
Definition starts_with (p s : string) : bool := bool_decide (is_Some (strip_prefix p s)).

(** The first occurrence of the pattern. *)
Fixpoint split_once_str (pat s : string) : option (string * string) :=
  match strip_prefix pat s with
  | Some rest => Some ("", rest)
  | None =>
      match s with
      | String c s => '(a, b) ← split_once_str pat s; Some (String c a, b)
      | EmptyString => None
      end
  end.

(** The last occurrence of the pattern. *)
Fixpoint rsplit_once (pat s : string) : option (string * string) :=
  match s with
  | EmptyString => None
  | String c s' =>
      match rsplit_once pat s' with
      | Some (a, b) => Some (String c a, b)
      | None => rest ← strip_prefix pat s; Some ("", rest)
      end
  end.

Fixpoint replace_char (a b : ascii) (s : string) : string :=
  match s with
  | String c s => String (if Ascii.eqb c a then b else c) (replace_char a b s)
  | EmptyString => EmptyString
  end.

Definition is_digit (c : ascii) : bool := bool_decide (is_Some (char_digit c)).
(** [!s.is_empty() && s.bytes().all(|b| b.is_ascii_digit())]. *)
Definition all_digits (s : string) : bool := negb (is_empty s) && all_chars is_digit s.

(** ** Concatenation *)
Lemma str_append_cons c s t : String.append (String c s) t = String c (String.append s t).
Proof. done. Qed.
Lemma str_append_nil s : String.append s "" = s.
Proof. induction s as [|c s IH]; [done|by rewrite str_append_cons, IH]. Qed.
Lemma append_assoc a b c : String.append (String.append a b) c = String.append a (String.append b c).
Proof. induction a as [|x a IH]; [done|by rewrite !str_append_cons, IH]. Qed.
Lemma length_append a b : String.length (String.append a b) = (String.length a + String.length b)%nat.
Proof. induction a as [|x a IH]; [done|]. rewrite str_append_cons. simpl. by rewrite IH. Qed.
Lemma append_inj_l a b c : String.append a b = String.append a c -> b = c.
Proof. induction a as [|x a IH]; [done|]. rewrite !str_append_cons. intros [= H]. by apply IH. Qed.

Lemma rev_onto_append s t acc : rev_onto (String.append s t) acc = rev_onto t (rev_onto s acc).
Proof. revert acc. induction s as [|c s IH]; intros acc; [done|]. rewrite str_append_cons. apply IH. Qed.
Lemma rev_onto_spec s acc : rev_onto s acc = String.append (str_rev s) acc.
Proof.
  revert acc. unfold str_rev. induction s as [|c s IH]; intros acc; simpl; [done|].
  rewrite IH, (IH (String c "")). by rewrite append_assoc, str_append_cons.
Qed.
Lemma str_rev_append s t : str_rev (String.append s t) = String.append (str_rev t) (str_rev s).
Proof. unfold str_rev. by rewrite rev_onto_append, rev_onto_spec. Qed.
Lemma str_rev_involutive s : str_rev (str_rev s) = s.
Proof.
  induction s as [|c s IH]; [done|]. change (String c s) with (String.append (String c "") s) at 1.
  by rewrite str_rev_append, str_rev_append, IH.
Qed.

Lemma strip_prefix_Some p s r : strip_prefix p s = Some r <-> s = String.append p r.
Proof.
  revert s. induction p as [|a p IH]; intros s; simpl; [split; [by intros [= ->]|by intros ->]|].
  destruct s as [|b s]; [by rewrite str_append_cons|]. destruct (Ascii.eqb a b) eqn:He.
  - apply Ascii.eqb_eq in He as ->. rewrite IH, str_append_cons. naive_solver.
  - apply Ascii.eqb_neq in He. rewrite str_append_cons. naive_solver.
Qed.

Lemma strip_suffix_append s p : strip_suffix p (String.append s p) = Some s.
Proof. unfold strip_suffix. rewrite str_rev_append, strip_prefix_append. simpl. by rewrite str_rev_involutive. Qed.

Lemma strip_suffix_Some p s r : strip_suffix p s = Some r <-> s = String.append r p.
Proof.
  split; [|intros ->; apply strip_suffix_append]. unfold strip_suffix.
  intros (x & Hx & ->)%fmap_Some. apply strip_prefix_Some in Hx.
  by rewrite <- (str_rev_involutive s), Hx, str_rev_append, str_rev_involutive.
Qed.

Lemma all_chars_str_append p s t : all_chars p (String.append s t) = all_chars p s && all_chars p t.
Proof. induction s as [|c s IH]; [done|]. rewrite str_append_cons. simpl. by rewrite IH, andb_assoc. Qed.
Lemma all_chars_impl (p q : ascii -> bool) s : (forall c, p c = true -> q c = true) ->
  all_chars p s = true -> all_chars q s = true.
Proof. intros H. induction s as [|c s IH]; simpl; [done|]. intros [? ?]%andb_prop. by rewrite H, IH. Qed.

(** ** Separators the parts avoid *)
Definition without (c : ascii) (s : string) : bool := all_chars (fun x => negb (Ascii.eqb x c)) s.

Lemma without_append c s t : without c (String.append s t) = without c s && without c t.
Proof. apply all_chars_str_append. Qed.

Lemma rsplit_without c p s : without c s = true -> rsplit_once (String c p) s = None.
Proof.
  induction s as [|x s IH]; [done|]. intros [Hx Hs]%andb_prop. cbn [rsplit_once]. rewrite (IH Hs). simpl.
  apply negb_true_iff in Hx. by rewrite Ascii.eqb_sym, Hx.
Qed.

(** The last separator is the one after which none follows. *)
Lemma rsplit_append c p a b : without c p = true -> without c b = true ->
  rsplit_once (String c p) (String.append a (String c (String.append p b))) = Some (a, b).
Proof.
  intros Hp Hb. induction a as [|x a IH]; [change ("" +:+ ?s) with s|rewrite str_append_cons]; cbn [rsplit_once].
  - rewrite rsplit_without by (by rewrite without_append, Hp, Hb). cbn [strip_prefix].
    by rewrite Ascii.eqb_refl, strip_prefix_append.
  - by rewrite IH.
Qed.

Lemma split_without c p s : without c s = true -> split_once_str (String c p) s = None.
Proof.
  induction s as [|x s IH]; [done|]. intros [Hx Hs]%andb_prop. cbn [split_once_str strip_prefix].
  apply negb_true_iff in Hx. by rewrite Ascii.eqb_sym, Hx, IH.
Qed.

Lemma split_append_str c p a b : without c a = true ->
  split_once_str (String c p) (String.append a (String c (String.append p b))) = Some (a, b).
Proof.
  intros Ha. induction a as [|x a IH]; [change ("" +:+ ?s) with s|rewrite str_append_cons]; cbn [split_once_str].
  - cbn [strip_prefix]. by rewrite Ascii.eqb_refl, strip_prefix_append.
  - apply andb_prop in Ha as [Hx Ha]. apply negb_true_iff in Hx. cbn [strip_prefix].
    by rewrite Ascii.eqb_sym, Hx, IH.
Qed.

(** ** Decimal numbers *)
Lemma show_u64_digits n : 0 <= n -> all_digits (show_u64 n) = true.
Proof.
  intros Hn. unfold all_digits. rewrite show_u64_not_empty by done. simpl.
  apply show_digits_chars; [|done..]. intros k Hk. unfold is_digit. by rewrite char_digit_char.
Qed.

Lemma digits_without c s : is_digit c = false -> all_chars is_digit s = true -> without c s = true.
Proof.
  intros Hc. apply all_chars_impl. intros x Hx. apply negb_true_iff, Ascii.eqb_neq. intros ->. congruence.
Qed.
Lemma show_u64_without c n : 0 <= n -> is_digit c = false -> without c (show_u64 n) = true.
Proof. intros Hn Hc. apply digits_without; [done|]. by apply show_u64_digits, andb_prop in Hn as [_ ?]. Qed.

Lemma all_digits_not_empty s : all_digits s = true -> is_empty s = false.
Proof. unfold all_digits. intros [?%negb_true_iff _]%andb_prop. done. Qed.

(** ** contains *)
Lemma prefix_strip p s : String.prefix p s = bool_decide (is_Some (strip_prefix p s)).
Proof.
  revert s. induction p as [|a p IH]; intros s; [by destruct s|].
  destruct s as [|b s]; [done|]. cbn [String.prefix strip_prefix]. destruct (ascii_dec a b) as [->|Hne].
  - by rewrite Ascii.eqb_refl, IH.
  - by apply Ascii.eqb_neq in Hne as ->.
Qed.

Lemma contains_split p s : str_contains p s = bool_decide (is_Some (split_once_str p s)).
Proof.
  induction s as [|c s IH]; cbn [str_contains split_once_str]; rewrite prefix_strip.
  - by destruct (strip_prefix p "").
  - destruct (strip_prefix p (String c s)); simpl; [done|]. rewrite IH.
    by destruct (split_once_str p s) as [[a b]|].
Qed.

Lemma all_chars_rev p s : all_chars p (str_rev s) = all_chars p s.
Proof.
  induction s as [|c s IH]; [done|]. change (String c s) with (String.append (String c "") s) at 1.
  rewrite str_rev_append, all_chars_str_append, IH. cbn. by rewrite andb_true_r, andb_comm.
Qed.
Lemma all_digits_rev s : all_digits (str_rev s) = all_digits s.
Proof.
  unfold all_digits. rewrite all_chars_rev. f_equal. destruct s as [|c s]; [done|].
  change (String c s) with (String.append (String c "") s) at 1. rewrite str_rev_append.
  by destruct (str_rev s).
Qed.

Inductive Value :=
| Null
| JBool (b : bool)
| PosInt (n : Z)
| NegInt (n : Z)
| Float (text : string)
| Str (s : string)
| Arr (l : list Value)
| Obj (m : list (string * Value)).

Fixpoint assoc {A} (k : string) (m : list (string * A)) : option A :=
  match m with
  | [] => None
  | (k', v) :: m => if String.eqb k k' then Some v else assoc k m
  end.

Definition get (k : string) (v : Value) : option Value :=
  match v with Obj m => assoc k m | _ => None end.
(** [v["k"]]. *)
Definition index (k : string) (v : Value) : Value := default Null (get k v).
Definition as_str (v : Value) : option string := match v with Str s => Some s | _ => None end.
Definition as_u64 (v : Value) : option Z := match v with PosInt n => Some n | _ => None end.
Definition as_bool (v : Value) : option bool := match v with JBool b => Some b | _ => None end.
Definition as_array (v : Value) : option (list Value) := match v with Arr l => Some l | _ => None end.

Definition get_str (k : string) (v : Value) : option string := get k v ≫= as_str.
Definition get_u64 (k : string) (v : Value) : option Z := get k v ≫= as_u64.
Definition get_array (k : string) (v : Value) : option (list Value) := get k v ≫= as_array.

(** [json!({...})] of a request. *)
Definition rpc_call (method : string) (params : list (string * Value)) : Value :=
  Obj [("method", Str method); ("params", Obj params)]%string.
Definition rpc_call0 (method : string) : Value := Obj [("method", Str method)]%string.
