(* ===== verification/Identity.v ===== *)
(** Volume identity (identity.rs): the handles a volume is known by, the
    names minted for its SPDK objects (logical volumes, snapshots, exports),
    and the parsers that read a name's owner back.  The orphan sweep and the
    destruction guards act on what the parsers say.

    The two newtypes of the source keep the domains apart: [StorageId] is the
    inner id, [StagedHandle] a volumeHandle held verbatim.  Roles come from
    PV access modes; the Kubernetes read behind the role resolver is the
    argument [pv_modes].

    The names minted for a volume are read back as that volume's, fit SPDK's
    limit, and fall outside the other families' name spaces. *)

From Stdlib Require Import Ascii String.
From S2P Require Import Prelude Csv Strs.
Local Open Scope string_scope.

Inductive Owner := Pv (id : string) | Ephemeral.
#[global] Instance Owner_eq : EqDecision Owner.
Proof. solve_decision. Defined.

(** ** Handles *)
Definition NFS_BACKING_PREFIX : string := "nfs-server-".
Definition backing_handle (storage_id : string) : string := NFS_BACKING_PREFIX ++ storage_id.
Definition parse_backing_handle (handle : string) : option string := strip_prefix NFS_BACKING_PREFIX handle.
Definition storage_id_of_handle (handle : string) : string := default handle (strip_prefix NFS_BACKING_PREFIX handle).
Definition backing_pv_name (storage_id : string) : string := "flint-nfs-pv-" ++ storage_id.
Definition backing_pvc_name (storage_id : string) : string := "flint-nfs-pvc-" ++ storage_id.
Definition pv_name_of_handle (handle : string) : string :=
  match parse_backing_handle handle with
  | Some storage_id => backing_pv_name storage_id
  | None => handle
  end.

Record StorageId := Sid { sid_str : string }.
Definition of_handle (handle : string) : StorageId := Sid (storage_id_of_handle handle).
Record StagedHandle := Staged { staged_str : string }.
Definition backing_for (s : StorageId) : StagedHandle := Staged (backing_handle (sid_str s)).
Definition user_handle (s : StorageId) : StagedHandle := Staged (sid_str s).
Definition staged_is_backing (h : StagedHandle) : bool := starts_with NFS_BACKING_PREFIX (staged_str h).
Definition staged_storage_id (h : StagedHandle) : StorageId := of_handle (staged_str h).

Inductive StagedDomain := DUser | DNfsBacking.
Definition handle_for (d : StagedDomain) (s : StorageId) : StagedHandle :=
  match d with DUser => user_handle s | DNfsBacking => backing_for s end.

(** ** Roles *)
Inductive Role := RBlock | RNfsShared (read_only : bool).
#[global] Instance Role_eq : EqDecision Role.
Proof. solve_decision. Defined.
Inductive VolumeRef := Block (storage_id : string) | NfsShared (storage_id : string) (read_only : bool)
  | NfsBacking (storage_id : string).

Definition from_handle (handle : string) (role_for : string -> Role) : VolumeRef :=
  match parse_backing_handle handle with
  | Some storage_id => NfsBacking storage_id
  | None => match role_for handle with RBlock => Block handle | RNfsShared ro => NfsShared handle ro end
  end.
Definition vref_storage_id (r : VolumeRef) : string :=
  match r with Block s => s | NfsShared s _ => s | NfsBacking s => s end.
Definition vref_sid (r : VolumeRef) : StorageId := of_handle (vref_storage_id r).
Definition has_block_path (r : VolumeRef) : bool := match r with NfsShared _ _ => false | _ => true end.
Definition vref_is_backing (r : VolumeRef) : bool := match r with NfsBacking _ => true | _ => false end.
Definition vref_backing_handle (r : VolumeRef) : string := backing_handle (vref_storage_id r).
(** Whether the block expand path is refused. *)
Definition expand_refusal (r : VolumeRef) : bool :=
  match r with Block _ => false | NfsShared _ ro => ro | NfsBacking _ => true end.

Definition role_from_modes (modes : list string) : Role :=
  if existsb (String.eqb "ReadWriteMany") modes then RNfsShared false
  else if existsb (String.eqb "ReadOnlyMany") modes then RNfsShared true
  else RBlock.

Definition ROLE_CONTEXT_KEY : string := "disk.chert.us/role".
Definition role_context_value (r : Role) : string :=
  match r with RBlock => "block" | RNfsShared false => "nfs-shared" | RNfsShared true => "nfs-shared-ro" end.
Definition parse_role_hint (value : string) : option Role :=
  if String.eqb value "block" then Some RBlock
  else if String.eqb value "nfs-shared" then Some (RNfsShared false)
  else if String.eqb value "nfs-shared-ro" then Some (RNfsShared true)
  else None.
Definition role_hint_from_context (ctx : gmap string string) : option Role :=
  ctx !! ROLE_CONTEXT_KEY ≫= parse_role_hint.

(** The role cache and the resolver.  [pv_modes] is the API read: the PV's
    access modes, [None] for a PV that is not there, [Err] when unreadable. *)
Definition RoleCache := gmap string Role.
Definition resolve_present (pv_modes : string -> result string (option (list string))) (storage_id : string)
    (cache : RoleCache) : result string (option Role) * RoleCache :=
  match cache !! storage_id with
  | Some role => (Ok (Some role), cache)
  | None =>
      match pv_modes storage_id with
      | Err e => (Err e, cache)
      | Ok None => (Ok None, cache)
      | Ok (Some modes) => let role := role_from_modes modes in (Ok (Some role), <[storage_id := role]> cache)
      end
  end.
Definition resolve (pv_modes : string -> result string (option (list string))) (storage_id : string)
    (cache : RoleCache) : result string Role * RoleCache :=
  match resolve_present pv_modes storage_id cache with
  | (Ok (Some role), c) => (Ok role, c)
  | (Ok None, c) => (Err ("PersistentVolume " ++ storage_id ++ " not found"), c)
  | (Err e, c) => (Err e, c)
  end.
Definition volume_ref (pv_modes : string -> result string (option (list string))) (handle : string)
    (cache : RoleCache) : result string VolumeRef * RoleCache :=
  match parse_backing_handle handle with
  | Some storage_id => (Ok (NfsBacking storage_id), cache)
  | None =>
      match resolve pv_modes handle cache with
      | (Ok RBlock, c) => (Ok (Block handle), c)
      | (Ok (RNfsShared ro), c) => (Ok (NfsShared handle ro), c)
      | (Err e, c) => (Err e, c)
      end
  end.
Definition seed (storage_id : string) (role : Role) (cache : RoleCache) : RoleCache := <[storage_id := role]> cache.
Definition invalidate (storage_id : string) (cache : RoleCache) : RoleCache := delete storage_id cache.

(** ** Minting names *)
Definition VOLUME_NQN_PREFIX : string := "nqn.2024-11.com.flint:volume:".
Definition SPDK_LVOL_NAME_USABLE : Z := 63.
Definition MAX_STORAGE_ID_LEN : Z := 46.
Definition MAX_REPLICAS : Z := 9.

Definition is_alphanumeric (c : ascii) : bool :=
  let n := Z.of_N (N_of_ascii c) in
  (((48 <=? n) && (n <=? 57)) || ((65 <=? n) && (n <=? 90)) || ((97 <=? n) && (n <=? 122)))%Z.
Definition id_char (c : ascii) : bool := is_alphanumeric c || Ascii.eqb c "-" || Ascii.eqb c ".".

Inductive IdRefusal := NameRequired | NameTooLong | BadCharacter | ReservedPrefix.
Definition storage_id_refusal (name : string) : option IdRefusal :=
  if is_empty name then Some NameRequired
  else if (MAX_STORAGE_ID_LEN <? Z.of_nat (String.length name))%Z then Some NameTooLong
  else if negb (all_chars id_char name) then Some BadCharacter
  else match parse_backing_handle name with Some _ => Some ReservedPrefix | None => None end.

Definition lvol_name (volume_id : string) : string := "vol_" ++ volume_id.
Definition replica_volume_id (v : StorageId) (i : Z) : string := sid_str v ++ "_replica_" ++ show_u64 i.
Definition replica_lvol_name (v : StorageId) (i : Z) : string := lvol_name (replica_volume_id v i).
Definition hr_head_lvol_name (v : StorageId) (i : Z) : string := "vol_" ++ sid_str v ++ "_replica_" ++ show_u64 i ++ "_hr".
Definition hrpad_export_id (v : StorageId) (i : Z) : string := sid_str v ++ "_hrpad" ++ show_u64 i.
Definition raid_name (h : StagedHandle) : string := "raid_" ++ staged_str h.
Definition epoch_snapshot_name (volume_id : string) (seq : Z) : string := "epoch-" ++ volume_id ++ "-" ++ show_u64 seq.
Definition user_snapshot_name (volume_id : string) (suffix : Z) : string := "snap_" ++ volume_id ++ "_" ++ show_u64 suffix.
(** The suffix of a replicated volume's snapshot (snapshot_csi.rs): FNV-1a of
    the request's name, reduced to the digits the lvol name leaves. *)
Fixpoint fnv1a (hash : Z) (s : string) : Z :=
  match s with
  | "" => hash
  | String b s => fnv1a (wrap_u64 (Z.lxor hash (Z.of_N (N_of_ascii b)) * 0x100000001b3)) s
  end.
Definition stable_snapshot_suffix (csi_name : string) : Z := fnv1a 0xcbf29ce484222325 csi_name.
Definition stable_snapshot_name (volume_id csi_name : string) : string :=
  let prefix_len := (5 + Z.of_nat (String.length volume_id) + 1)%Z in
  let budget := Z.min (Z.max (SPDK_LVOL_NAME_USABLE - prefix_len) 0) 19 in
  user_snapshot_name volume_id (stable_snapshot_suffix csi_name mod 10 ^ Z.max budget 1).
Definition temp_clone_snapshot_name (new_volume_id : string) : string := "temp_pvc_clone_" ++ new_volume_id.
Definition volume_nqn (export_id : string) : string := VOLUME_NQN_PREFIX ++ export_id.
Definition replica_export_nqn (v : StorageId) (i : Z) : string := VOLUME_NQN_PREFIX ++ sid_str v ++ "_" ++ show_u64 i.
Definition legacy_replica_export_nqn (v : StorageId) (i : Z) : string :=
  VOLUME_NQN_PREFIX ++ NFS_BACKING_PREFIX ++ sid_str v ++ "_" ++ show_u64 i.
Definition replica_alias_nqn (v : StorageId) (i : Z) : string := VOLUME_NQN_PREFIX ++ sid_str v ++ ":replica:" ++ show_u64 i.
Definition hotrejoin_export_nqn (v : StorageId) : string := "nqn.2024-11.com.flint:hotrejoin:" ++ sid_str v.
Definition block_volume_export_nqn (volume_id : string) : string := "nqn.2024-11.com.flint:block:" ++ volume_id.
Definition block_leg_export_nqn (volume_id : string) : string := "nqn.2024-11.com.flint:leg:" ++ volume_id.
Definition node_host_nqn (node_name : string) : string := "nqn.2024-11.com.flint:node:" ++ node_name.
Definition initiator_controller_name (nqn : string) : string := "nvme_" ++ replace_char "." "_" (replace_char ":" "_" nqn).
Definition lvs_name (node_name pci_address : string) : string :=
  "lvs_" ++ node_name ++ "_" ++ replace_char "." "-" (replace_char ":" "-" pci_address).
Definition lvs_name_for_disk (disk_ref : string) : string := "lvs_" ++ disk_ref.

(** ** Reading names back *)
Inductive LvolKind := Primary | Replica | EpochSnapshot | UserSnapshot | CloneSource.
#[global] Instance LvolKind_eq : EqDecision LvolKind.
Proof. solve_decision. Defined.

Definition lvol_owner (name : string) : option (string * LvolKind) :=
  match strip_prefix "epoch-" name with
  | Some rest =>
      '(vol, seq) ← rsplit_once "-" rest;
      if all_digits seq && negb (is_empty vol) then Some (vol, EpochSnapshot) else None
  | None =>
  match strip_prefix "temp_pvc_clone_" name with
  | Some rest => if negb (is_empty rest) then Some (rest, CloneSource) else None
  | None =>
  match strip_prefix "snap_" name with
  | Some rest =>
      '(vol, suffix) ← rsplit_once "_" rest;
      if all_digits suffix && negb (is_empty vol) then Some (vol, UserSnapshot) else None
  | None =>
  match strip_prefix "vol_" name with
  | Some rest =>
      if is_empty rest then None
      else
        let core := default rest (strip_suffix "_hr" rest) in
        match rsplit_once "_replica_" core with
        | Some (vol, idx) => if all_digits idx && negb (is_empty vol) then Some (vol, Replica) else Some (rest, Primary)
        | None => Some (rest, Primary)
        end
  | None => None
  end end end end.

Definition parse_raid_name (bdev_name : string) : option string := strip_prefix "raid_" bdev_name.

Definition strip_replica_suffix (id : string) : string :=
  match rsplit_once "_replica_" id with
  | Some (base, idx) =>
      let idx := default idx (strip_suffix "_hr" idx) in
      if negb (is_empty base) && all_digits idx then base else id
  | None => id
  end.
Definition strip_hrpad_suffix (id : string) : string :=
  match rsplit_once "_hrpad" id with
  | Some (base, idx) => if negb (is_empty base) && all_digits idx then base else id
  | None => id
  end.

Definition classify_lvol (name : string) : option Owner :=
  match strip_prefix "vol_" name with
  | Some rest => if is_empty rest then None else Some (Pv (strip_replica_suffix rest))
  | None =>
  match strip_prefix "epoch-" name with
  | Some rest =>
      '(vol, seq) ← rsplit_once "-" rest;
      if is_empty vol || negb (all_digits seq) then None else Some (Pv vol)
  | None =>
  match strip_prefix "snap_" name with
  | Some rest =>
      '(vol, suffix) ← rsplit_once "_" rest;
      if is_empty vol || negb (bool_decide (is_Some (parse_u64 suffix))) then None else Some (Pv vol)
  | None =>
  match strip_prefix "temp_pvc_clone_" name with
  | Some rest => if is_empty rest then None else Some (Pv rest)
  | None =>
      match strip_prefix "eph_" name with
      | Some r => if is_empty r then None else Some Ephemeral
      | None => None
      end
  end end end end.

Definition lvol_belongs_to (name : string) (v : StorageId) : bool :=
  match classify_lvol name with
  | Some (Pv id) => String.eqb (storage_id_of_handle id) (sid_str v)
  | _ => false
  end.

(** The volume id of an export id that does not carry [:replica:]. *)
Definition classify_export_id (rest : string) : string :=
  let stripped := strip_replica_suffix rest in
  let stripped := if negb (String.eqb stripped rest) then stripped else strip_hrpad_suffix rest in
  if negb (String.eqb stripped rest) then stripped
  else
    match rsplit_once "_" rest with
    | Some (id, idx) => if all_digits idx then strip_replica_suffix id else rest
    | None => rest
    end.

Definition classify_subsystem_nqn (nqn : string) : option string :=
  rest ← strip_prefix VOLUME_NQN_PREFIX nqn;
  if is_empty rest then None
  else
    let base :=
      match split_once_str ":replica:" rest with
      | Some (id, _) => strip_replica_suffix id
      | None => classify_export_id rest
      end in
    if is_empty base then None else Some base.

Definition loopback_export_nqn (volume_handle : string) : string := volume_nqn (storage_id_of_handle volume_handle).
Definition loopback_teardown_nqns (h : StagedHandle) : list string :=
  let staged := volume_nqn (staged_str h) in
  let inner := volume_nqn (sid_str (staged_storage_id h)) in
  if String.eqb inner staged then [staged] else [staged; inner].

Definition is_replica_export_nqn (nqn : string) : bool :=
  match strip_prefix VOLUME_NQN_PREFIX nqn with
  | None => false
  | Some rest =>
      if str_contains ":replica:" rest then true
      else if negb (String.eqb (strip_hrpad_suffix rest) rest) then true
      else match rsplit_once "_" rest with
           | Some (id, idx) => negb (is_empty id) && all_digits idx
           | None => false
           end
  end.

Example classify_1 : classify_lvol "vol_pvc-abc_replica_0" = Some (Pv "pvc-abc").
Proof. reflexivity. Qed.
Example classify_2 : classify_subsystem_nqn "nqn.2024-11.com.flint:volume:pvc-1_hrpad2" = Some "pvc-1".
Proof. reflexivity. Qed.
Example classify_3 : lvol_owner "vol_x_replica_zz" = Some ("x_replica_zz", Primary).
Proof. reflexivity. Qed.

(** ** Searching past a prefix without the separator *)
Lemma rsplit_past c p s t : without c s = true -> rsplit_once (String c p) t = None ->
  rsplit_once (String c p) (s ++ t) = None.
Proof.
  intros Hs Ht. induction s as [|x s IH]; [done|]. apply andb_prop in Hs as [Hx Hs].
  rewrite str_append_cons. cbn [rsplit_once]. rewrite (IH Hs). simpl.
  apply negb_true_iff in Hx. by rewrite Ascii.eqb_sym, Hx.
Qed.

Lemma rsplit_at c p a b : rsplit_once (String c p) (p ++ b) = None ->
  rsplit_once (String c p) (a ++ String c p ++ b) = Some (a, b).
Proof.
  intros Hn. induction a as [|x a IH].
  - change ("" ++ ?s) with s. rewrite str_append_cons. cbn [rsplit_once]. rewrite Hn. cbn [strip_prefix].
    by rewrite Ascii.eqb_refl, strip_prefix_append.
  - rewrite str_append_cons. cbn [rsplit_once]. by rewrite IH.
Qed.

Lemma strip_prefix_digits a p s t : is_digit a = false -> all_digits s = true ->
  strip_prefix (String a p) (s ++ t) = None.
Proof.
  intros Ha [Hn Hs]%andb_prop. destruct s as [|x s]; [done|]. rewrite str_append_cons. simpl.
  apply andb_prop in Hs as [Hx _]. destruct (Ascii.eqb a x) eqn:He; [|done].
  apply Ascii.eqb_eq in He as ->. congruence.
Qed.

Lemma strip_suffix_digits a s : all_digits s = true -> strip_suffix "_hr" (a ++ s) = None.
Proof.
  intros Hs. unfold strip_suffix. rewrite str_rev_append.
  rewrite (strip_prefix_digits "r" "h_"); [done..|]. by rewrite all_digits_rev.
Qed.

Lemma rsplit_cons_none p c s : rsplit_once p s = None -> strip_prefix p (String c s) = None ->
  rsplit_once p (String c s) = None.
Proof. intros Hs Hp. cbn [rsplit_once]. by rewrite Hs, Hp. Qed.

(** A suffix that starts with the separator and goes on with digits. *)
Lemma rsplit_tail d p s t : is_digit d = false -> all_digits s = true ->
  rsplit_once (String "_" (String d p)) t = None ->
  rsplit_once (String "_" (String d p)) (String "_" (s ++ t)) = None.
Proof.
  intros Hd Hs Ht. cbn [rsplit_once]. rewrite rsplit_past; [|apply digits_without; [done|by apply andb_prop in Hs as [_ ?]]|done].
  change (strip_prefix (String "_" ?q) (String "_" ?r)) with (strip_prefix q r).
  by rewrite strip_prefix_digits.
Qed.

(** ** Ids a volume may have *)
Record plain_id (v : string) : Prop := MkPlain {
  vi_some : is_empty v = false;
  vi_under : without "_" v = true;
  vi_colon : without ":" v = true
}.
Record valid_id (v : string) : Prop := MkValid {
  vi_plain : plain_id v;
  vi_len : (String.length v <= 46)%nat;
  vi_user : parse_backing_handle v = None
}.

Lemma id_char_not c x : id_char c = false -> id_char x = true -> negb (Ascii.eqb x c) = true.
Proof. intros Hc Hx. apply negb_true_iff, Ascii.eqb_neq. intros ->. congruence. Qed.

Lemma accepted_valid v : storage_id_refusal v = None -> valid_id v.
Proof.
  unfold storage_id_refusal. destruct (is_empty v) eqn:He; [done|].
  destruct (_ <? _)%Z eqn:Hl; [done|]. destruct (all_chars id_char v) eqn:Hc; [|done]. simpl.
  destruct (parse_backing_handle v) eqn:Hp; [done|]. intros _. apply Z.ltb_ge in Hl. unfold MAX_STORAGE_ID_LEN in Hl.
  split; [split; [done| |]|lia|done]; eapply all_chars_impl; try exact Hc; intros x; by apply id_char_not.
Qed.

Lemma valid_storage_id v : valid_id v -> storage_id_of_handle v = v.
Proof. intros [_ _ Hp]. unfold storage_id_of_handle. unfold parse_backing_handle in Hp. by rewrite Hp. Qed.

Lemma backing_plain v : plain_id v -> plain_id (backing_handle v).
Proof.
  intros [Hs Hu Hc]. unfold backing_handle, NFS_BACKING_PREFIX.
  split; [done| |]; by rewrite without_append, ?Hu, ?Hc.
Qed.
Lemma backing_storage_id v : storage_id_of_handle (backing_handle v) = v.
Proof. unfold storage_id_of_handle, backing_handle. by rewrite strip_prefix_append. Qed.

Section Names.
Context (v : string) (Hv : plain_id v).

Lemma id_app_not_empty s : is_empty (v ++ s) = false.
Proof. destruct Hv as [He _ _]. by destruct v. Qed.

Lemma no_replica : rsplit_once "_replica_" v = None.
Proof. destruct Hv. by apply rsplit_without. Qed.
Lemma strip_plain : strip_replica_suffix v = v.
Proof. unfold strip_replica_suffix. by rewrite no_replica. Qed.

Lemma rsplit_replica s t : all_digits s = true -> rsplit_once "_replica_" t = None ->
  rsplit_once "_replica_" (v ++ "_replica_" ++ s ++ t) = Some (v, s ++ t).
Proof.
  intros Hs Ht. apply (rsplit_at "_" "replica_" v (s ++ t)).
  change ("replica_" ++ ?x) with ("replica" ++ String "_" x).
  apply rsplit_past; [done|]. by apply rsplit_tail.
Qed.
Lemma rsplit_replica_digits s : all_digits s = true -> rsplit_once "_replica_" (v ++ "_replica_" ++ s) = Some (v, s).
Proof. intros Hs. rewrite <- (str_append_nil s) at 1. rewrite rsplit_replica by done. by rewrite str_append_nil. Qed.

Lemma digits_not_hr s : all_digits s = true -> strip_suffix "_hr" s = None.
Proof.
  intros Hs. destruct (strip_suffix "_hr" s) as [r|] eqn:He; [|done]. apply strip_suffix_Some in He as ->.
  apply andb_prop in Hs as [_ Hs]. rewrite all_chars_str_append in Hs. by apply andb_prop in Hs as [_ ?].
Qed.

Lemma strip_replica s : all_digits s = true -> strip_replica_suffix (v ++ "_replica_" ++ s) = v.
Proof.
  intros Hs. unfold strip_replica_suffix. rewrite rsplit_replica_digits, digits_not_hr by done. simpl.
  destruct Hv as [-> _ _]. by rewrite Hs.
Qed.
Lemma strip_replica_hr s : all_digits s = true -> strip_replica_suffix (v ++ "_replica_" ++ s ++ "_hr") = v.
Proof.
  intros Hs. unfold strip_replica_suffix. rewrite rsplit_replica by done. rewrite strip_suffix_append. simpl.
  destruct Hv as [-> _ _]. by rewrite Hs.
Qed.

Lemma rsplit_id c s : is_digit c = false -> all_digits s = true ->
  rsplit_once (String c "") (v ++ String c s) = Some (v, s).
Proof.
  intros Hc Hs. apply (rsplit_append c "" v s); [done|]. apply digits_without; [done|].
  by apply andb_prop in Hs as [_ ?].
Qed.

(** An export id [<v>_<digits>], with or without the letters before the
    digits. *)
Lemma rsplit_leg s : all_digits s = true -> rsplit_once "_replica_" (v ++ String "_" s) = None.
Proof.
  intros Hs. destruct Hv. apply rsplit_past; [done|]. rewrite <- (str_append_nil s). by apply rsplit_tail.
Qed.
Lemma rsplit_leg_pad s : all_digits s = true -> rsplit_once "_hrpad" (v ++ String "_" s) = None.
Proof.
  intros Hs. destruct Hv. apply rsplit_past; [done|]. rewrite <- (str_append_nil s). by apply rsplit_tail.
Qed.

Lemma classify_plain : classify_export_id v = v.
Proof.
  unfold classify_export_id. rewrite strip_plain, String.eqb_refl. simpl. unfold strip_hrpad_suffix.
  destruct Hv. rewrite (rsplit_without "_" "hrpad") by done. rewrite String.eqb_refl. simpl.
  by rewrite (rsplit_without "_" "") by done.
Qed.
Lemma eqb_longer c s : String.eqb v (v ++ String c s) = false.
Proof.
  apply String.eqb_neq. intros He. apply (f_equal String.length) in He. rewrite length_append in He. simpl in He. lia.
Qed.
Lemma classify_leg s : all_digits s = true -> classify_export_id (v ++ String "_" s) = v.
Proof.
  intros Hs. unfold classify_export_id, strip_replica_suffix at 1 2 3, strip_hrpad_suffix.
  rewrite rsplit_leg, rsplit_leg_pad by done. rewrite String.eqb_refl. simpl. rewrite String.eqb_refl. simpl.
  rewrite rsplit_id, Hs by done. apply strip_plain.
Qed.
Lemma classify_replica_id s : all_digits s = true -> classify_export_id (v ++ "_replica_" ++ s) = v.
Proof.
  intros Hs. unfold classify_export_id. rewrite strip_replica by done.
  change ("_replica_" ++ s) with (String "_" ("replica_" ++ s)).
  rewrite eqb_longer. cbn [negb]. by rewrite eqb_longer.
Qed.
Lemma classify_pad s : all_digits s = true -> classify_export_id (v ++ "_hrpad" ++ s) = v.
Proof.
  intros Hs. destruct Hv as [Hne Hu _]. pose proof Hs as [_ Hd]%andb_prop.
  assert (without "_" s = true) as Hw by (by apply digits_without).
  unfold classify_export_id, strip_replica_suffix at 1 2 3, strip_hrpad_suffix.
  assert (rsplit_once "_replica_" (v ++ "_hrpad" ++ s) = None) as ->.
  { apply rsplit_past; [done|]. apply (rsplit_cons_none _ "_" ("hrpad" ++ s)); [|done].
    apply rsplit_without. by rewrite without_append, Hw. }
  rewrite String.eqb_refl. cbn [negb].
  rewrite (rsplit_at "_" "hrpad" v s) by (apply rsplit_without; by rewrite without_append, Hw).
  rewrite Hne, Hs. cbn [negb andb]. change ("_hrpad" ++ s) with (String "_" ("hrpad" ++ s)).
  by rewrite eqb_longer.
Qed.
End Names.

(** ** What each name reads back as *)
Section ReadBack.
Context (v : string) (Hv : plain_id v).
Context (i n : Z) (Hi : 0 <= i) (Hn : is_u64 n).
Let Hid : all_digits (show_u64 i) = true.
Proof. by apply show_u64_digits. Qed.
Let Hnd : all_digits (show_u64 n) = true.
Proof. apply show_u64_digits. bounds. Qed.

Lemma read_lvols :
  classify_lvol (lvol_name v) = Some (Pv v) /\
  classify_lvol (replica_lvol_name (Sid v) i) = Some (Pv v) /\
  classify_lvol (hr_head_lvol_name (Sid v) i) = Some (Pv v) /\
  classify_lvol (epoch_snapshot_name v n) = Some (Pv v) /\
  classify_lvol (user_snapshot_name v n) = Some (Pv v) /\
  classify_lvol (temp_clone_snapshot_name v) = Some (Pv v).
Proof.
  pose proof (vi_some _ Hv) as Hne. unfold classify_lvol. split_and!.
  - unfold lvol_name. rewrite strip_prefix_append, Hne. by rewrite strip_plain.
  - unfold replica_lvol_name, lvol_name, replica_volume_id. simpl sid_str.
    rewrite strip_prefix_append, id_app_not_empty by done. by rewrite strip_replica.
  - unfold hr_head_lvol_name. simpl sid_str.
    rewrite strip_prefix_append, id_app_not_empty by done. by rewrite strip_replica_hr.
  - unfold epoch_snapshot_name. change (strip_prefix "vol_" ("epoch-" ++ ?x)) with (@None string).
    rewrite strip_prefix_append. change ("-" ++ ?x) with (String "-" x). rewrite rsplit_id by done. simpl.
    by rewrite Hne, Hnd.
  - unfold user_snapshot_name. change (strip_prefix "vol_" ("snap_" ++ ?x)) with (@None string).
    change (strip_prefix "epoch-" ("snap_" ++ ?x)) with (@None string).
    rewrite strip_prefix_append. change ("_" ++ ?x) with (String "_" x). rewrite rsplit_id by done. simpl.
    rewrite Hne. by rewrite parse_show_u64 by bounds.
  - unfold temp_clone_snapshot_name. change (strip_prefix "vol_" ("temp_pvc_clone_" ++ ?x)) with (@None string).
    change (strip_prefix "epoch-" ("temp_pvc_clone_" ++ ?x)) with (@None string).
    change (strip_prefix "snap_" ("temp_pvc_clone_" ++ ?x)) with (@None string).
    by rewrite strip_prefix_append, Hne.
Qed.

(** The dashboard's parser agrees, and names the shape. *)
Lemma read_owners :
  lvol_owner (lvol_name v) = Some (v, Primary) /\
  lvol_owner (replica_lvol_name (Sid v) i) = Some (v, Replica) /\
  lvol_owner (hr_head_lvol_name (Sid v) i) = Some (v, Replica) /\
  lvol_owner (epoch_snapshot_name v n) = Some (v, EpochSnapshot) /\
  lvol_owner (user_snapshot_name v n) = Some (v, UserSnapshot) /\
  lvol_owner (temp_clone_snapshot_name v) = Some (v, CloneSource).
Proof.
  pose proof (vi_some _ Hv) as Hne. unfold lvol_owner.
  assert (forall x, strip_prefix "epoch-" ("vol_" ++ x) = None /\ strip_prefix "temp_pvc_clone_" ("vol_" ++ x) = None /\
    strip_prefix "snap_" ("vol_" ++ x) = None) as Hvol by (intros; split_and!; reflexivity).
  split_and!.
  - unfold lvol_name. destruct (Hvol v) as (-> & -> & ->). rewrite strip_prefix_append, Hne.
    destruct (strip_suffix "_hr" v) as [r|] eqn:Hr.
    { apply strip_suffix_Some in Hr. pose proof (vi_under _ Hv) as Hu. rewrite Hr, without_append in Hu.
      by apply andb_prop in Hu as [_ ?]. }
    simpl. by rewrite no_replica.
  - unfold replica_lvol_name, lvol_name, replica_volume_id. simpl sid_str.
    destruct (Hvol (v ++ "_replica_" ++ show_u64 i)) as (-> & -> & ->).
    rewrite strip_prefix_append, id_app_not_empty by done.
    destruct (strip_suffix "_hr" _) as [r|] eqn:Hr.
    { change (v ++ "_replica_" ++ show_u64 i) with (v ++ ("_replica_" ++ show_u64 i)) in Hr.
      by rewrite <- append_assoc, strip_suffix_digits in Hr. }
    simpl. rewrite rsplit_replica_digits by done. by rewrite Hid, Hne.
  - unfold hr_head_lvol_name. simpl sid_str. destruct (Hvol (v ++ "_replica_" ++ show_u64 i ++ "_hr")) as (-> & -> & ->).
    rewrite strip_prefix_append, id_app_not_empty by done.
    change (v ++ "_replica_" ++ show_u64 i ++ "_hr") with (v ++ ("_replica_" ++ (show_u64 i ++ "_hr"))).
    rewrite <- !append_assoc, strip_suffix_append. simpl. rewrite !append_assoc, rsplit_replica_digits by done.
    by rewrite Hid, Hne.
  - unfold epoch_snapshot_name. rewrite strip_prefix_append. change ("-" ++ ?x) with (String "-" x).
    rewrite rsplit_id by done. simpl. by rewrite Hne, Hnd.
  - unfold user_snapshot_name. change (strip_prefix "epoch-" ("snap_" ++ ?x)) with (@None string).
    change (strip_prefix "temp_pvc_clone_" ("snap_" ++ ?x)) with (@None string).
    rewrite strip_prefix_append. change ("_" ++ ?x) with (String "_" x). rewrite rsplit_id by done. simpl.
    by rewrite Hne, Hnd.
  - unfold temp_clone_snapshot_name. change (strip_prefix "epoch-" ("temp_pvc_clone_" ++ ?x)) with (@None string).
    by rewrite strip_prefix_append, Hne.
Qed.

Lemma split_alias : split_once_str ":replica:" (v ++ ":replica:" ++ show_u64 i) = Some (v, show_u64 i).
Proof. destruct Hv. by apply (split_append_str ":" "replica:" v (show_u64 i)). Qed.

Lemma read_exports :
  classify_subsystem_nqn (volume_nqn v) = Some v /\
  classify_subsystem_nqn (replica_export_nqn (Sid v) i) = Some v /\
  classify_subsystem_nqn (replica_alias_nqn (Sid v) i) = Some v /\
  classify_subsystem_nqn (volume_nqn (replica_volume_id (Sid v) i)) = Some v /\
  classify_subsystem_nqn (volume_nqn (hrpad_export_id (Sid v) i)) = Some v.
Proof.
  pose proof Hv as [Hne _ Hc]. assert (without ":" (show_u64 i) = true) as Hci by (by apply show_u64_without).
  unfold classify_subsystem_nqn, volume_nqn, replica_export_nqn, replica_alias_nqn, replica_volume_id, hrpad_export_id.
  simpl sid_str. split_and!; rewrite strip_prefix_append; cbn [mbind option_bind]; rewrite ?id_app_not_empty, ?Hne by done.
  - rewrite (split_without ":" "replica:") by done. by rewrite classify_plain, Hne.
  - rewrite (split_without ":" "replica:") by (rewrite !without_append; by rewrite Hc, Hci).
    change ("_" ++ ?x) with (String "_" x). by rewrite classify_leg, Hne.
  - rewrite split_alias. by rewrite strip_plain, Hne.
  - rewrite (split_without ":" "replica:") by (rewrite !without_append; by rewrite Hc, Hci).
    by rewrite classify_replica_id, Hne.
  - rewrite (split_without ":" "replica:") by (rewrite !without_append; by rewrite Hc, Hci).
    by rewrite classify_pad, Hne.
Qed.

Lemma read_legs :
  is_replica_export_nqn (replica_export_nqn (Sid v) i) = true /\
  is_replica_export_nqn (replica_alias_nqn (Sid v) i) = true /\
  is_replica_export_nqn (volume_nqn (hrpad_export_id (Sid v) i)) = true /\
  is_replica_export_nqn (volume_nqn v) = false.
Proof.
  pose proof Hv as [Hne Hu Hc]. assert (without ":" (show_u64 i) = true) as Hci by (by apply show_u64_without).
  unfold is_replica_export_nqn, volume_nqn, replica_export_nqn, replica_alias_nqn, hrpad_export_id.
  simpl sid_str. split_and!; rewrite strip_prefix_append, contains_split.
  - rewrite (split_without ":" "replica:") by (rewrite !without_append; by rewrite Hc, Hci). simpl.
    change ("_" ++ ?x) with (String "_" x). case_match; [done|]. by rewrite rsplit_id, Hne, Hid.
  - by rewrite split_alias.
  - rewrite (split_without ":" "replica:") by (rewrite !without_append; by rewrite Hc, Hci). simpl.
    unfold strip_hrpad_suffix.
    rewrite (rsplit_at "_" "hrpad" v (show_u64 i)) by (apply rsplit_without; rewrite without_append; by rewrite show_u64_without).
    rewrite Hne, Hid. cbn [negb andb]. change ("_hrpad" ++ ?x) with (String "_" ("hrpad" ++ x)). by rewrite eqb_longer.
  - rewrite (split_without ":" "replica:") by done. simpl. unfold strip_hrpad_suffix.
    rewrite (rsplit_without "_" "hrpad") by done. rewrite String.eqb_refl. simpl.
    by rewrite (rsplit_without "_" "") by done.
Qed.
End ReadBack.

(** ** Lengths *)
Lemma show_digits_length fuel : forall n acc k, 0 <= n < 10 ^ Z.of_nat k -> (1 <= k <= fuel)%nat ->
  (String.length (show_digits fuel n acc) <= k + String.length acc)%nat.
Proof.
  induction fuel as [|fuel IH]; intros n acc k Hn Hk; [lia|]. cbn [show_digits].
  destruct (n <? 10)%Z eqn:Hlt; [simpl; lia|]. apply Z.ltb_ge in Hlt.
  destruct k as [|[|k]]; [lia|simpl in Hn; lia|].
  etransitivity; [apply (IH (n / 10) _ (S k))|simpl; lia]; [|lia].
  split; [apply Z.div_pos; lia|]. apply Z.div_lt_upper_bound; [lia|].
  replace (Z.of_nat (S (S k))) with (Z.succ (Z.of_nat (S k))) in Hn by lia. rewrite Z.pow_succ_r in Hn by lia. lia.
Qed.
Lemma show_u64_length n k : 0 <= n < 10 ^ Z.of_nat k -> (1 <= k <= 20)%nat -> (String.length (show_u64 n) <= k)%nat.
Proof. intros Hn Hk. pose proof (show_digits_length 20 n "" k Hn Hk). unfold show_u64. simpl String.length in *. lia. Qed.

(** Every name minted for an accepted id fits: replica indices below
    [MAX_REPLICAS], epochs below 10^10, snapshot suffixes below 10^11. *)
Lemma names_fit v i seq ts : valid_id v -> 0 <= i < MAX_REPLICAS -> 0 <= seq < 10 ^ 10 -> 0 <= ts < 10 ^ 11 ->
  Forall (fun s => (String.length s <= 63)%nat)
    [lvol_name v; replica_lvol_name (Sid v) i; hr_head_lvol_name (Sid v) i; epoch_snapshot_name v seq;
     user_snapshot_name v ts; temp_clone_snapshot_name v].
Proof.
  intros [_ Hl _] Hi Hs Ht. unfold MAX_REPLICAS in Hi.
  pose proof (show_u64_length i 1 ltac:(simpl; lia) ltac:(lia)).
  pose proof (show_u64_length seq 10 ltac:(simpl; lia) ltac:(lia)).
  pose proof (show_u64_length ts 11 ltac:(simpl; lia) ltac:(lia)).
  unfold replica_lvol_name, hr_head_lvol_name, epoch_snapshot_name, user_snapshot_name, temp_clone_snapshot_name,
    lvol_name, replica_volume_id. simpl sid_str.
  rewrite !Forall_cons, Forall_nil. split_and!; try exact I; rewrite !length_append; simpl String.length; lia.
Qed.

Lemma stable_name_is_user v csi : exists ts, stable_snapshot_name v csi = user_snapshot_name v ts /\ is_u64 ts.
Proof.
  unfold stable_snapshot_name. eexists. split; [done|]. set (b := Z.max _ 1).
  pose proof (Z.mod_pos_bound (stable_snapshot_suffix csi) (10 ^ b) ltac:(apply Z.pow_pos_nonneg; lia)).
  assert (10 ^ b <= 10 ^ 19) by (apply Z.pow_le_mono_r; lia). unfold is_u64, u64_max. lia.
Qed.

(** The digits of a replicated snapshot always fit. *)
Lemma stable_name_fits v csi : valid_id v -> (String.length (stable_snapshot_name v csi) <= 63)%nat.
Proof.
  intros [_ Hl _]. unfold stable_snapshot_name, user_snapshot_name, SPDK_LVOL_NAME_USABLE.
  set (b := Z.max _ 1). assert (1 <= b <= 19 /\ 6 + Z.of_nat (String.length v) + b <= 63) as [Hb Hsum] by lia.
  pose proof (Z.mod_pos_bound (stable_snapshot_suffix csi) (10 ^ b) ltac:(apply Z.pow_pos_nonneg; lia)) as Hm.
  pose proof (show_u64_length (stable_snapshot_suffix csi mod 10 ^ b) (Z.to_nat b) ltac:(rewrite Z2Nat.id by lia; lia) ltac:(lia)).
  rewrite !length_append. cbn [String.length]. lia.
Qed.

(** The other export families are not volumes'. *)
Lemma foreign_nqns v : classify_subsystem_nqn (hotrejoin_export_nqn (Sid v)) = None /\
  classify_subsystem_nqn (block_volume_export_nqn v) = None /\ classify_subsystem_nqn (block_leg_export_nqn v) = None /\
  classify_subsystem_nqn (node_host_nqn v) = None.
Proof. by split_and!. Qed.

(** ** Roles *)
Lemma role_hint_round_trip r : parse_role_hint (role_context_value r) = Some r.
Proof. by destruct r as [|[]]. Qed.

(** Seeding the cache with the role the PV would give changes no answer. *)
Lemma seed_invisible pv_modes id modes cache : pv_modes id = Ok (Some modes) -> cache !! id = None ->
  (resolve pv_modes id (seed id (role_from_modes modes) cache)).1 = (resolve pv_modes id cache).1.
Proof.
  intros Hp Hc. unfold resolve, resolve_present, seed. rewrite (lookup_insert_eq (M := gmap string) cache), Hc, Hp. done.
Qed.
