(* ===== verification/VolumeClaims.v ===== *)
(** The per-volume claim registry the controller's planners share
    (volume_claims.rs): at most one long-running operation per volume, with
    reservations that let an operation that ends a degraded episode win the
    next release, and a lease past which a claim may be seized.

    The registry is the record [VolumeClaims]; each method of the source is a
    function of it and of the instant it reads ([Instant::now()], taken under
    the registry's lock, so the instants of successive calls do not decrease).
    Instants and durations are nanoseconds.  A guard ([VolumeClaim]) is the
    pair of its volume and its generation; dropping it is [drop_claim].

    Histories of the registry (the calls the planners make, in lock order, with
    the guards outstanding between them) carry the theorems: exclusion, the
    standing of a reservation, the maintainers' turn. *)

From Stdlib Require Import Ascii String.
From S2P Require Import Prelude Csv.

(** ** Operations and their class *)
Definition OP_CATCHUP : string := "catch-up".
Definition OP_CUTOVER : string := "cutover".
Definition OP_HOT_REJOIN : string := "hot-rejoin".
Definition OP_HOT_REJOIN_RECONCILE : string := "hot-rejoin-reconcile".
Definition OP_EXPAND : string := "expand".
Definition OP_MAINT_DRAIN : string := "maint-drain".

Definition is_hot_rejoin_op (op : string) : bool :=
  String.eqb op OP_HOT_REJOIN || String.eqb op OP_HOT_REJOIN_RECONCILE.

Inductive ClaimClass := Resolver | Maintainer.
#[global] Instance ClaimClass_eq : EqDecision ClaimClass.
Proof. solve_decision. Defined.

Definition class_of (op : string) : ClaimClass :=
  if String.eqb op OP_CUTOVER || String.eqb op OP_HOT_REJOIN || String.eqb op OP_MAINT_DRAIN
  then Resolver else Maintainer.

(** ** Configuration *)
Record ClaimConfig := Config {
  arbitration : bool;
  cc_lease : Z;
  reservation_ttl : Z;
  reservation_max : Z;
  cc_backoff : Z
}.

Definition env_secs (var : option string) (default_secs : Z) : Z :=
  match var ≫= parse_u64 with
  | Some s => if 0 <? s then s else default_secs
  | None => default_secs
  end * 10 ^ 9.

Definition ClaimConfig_from_env (arb lease ttl max backoff : option string) : ClaimConfig :=
  Config
    (match arb with Some v => negb (String.eqb (to_ascii_lowercase v) "disabled") | None => true end)
    (env_secs lease 14400) (env_secs ttl 180) (env_secs max 900) (env_secs backoff 120).

(** ** State *)
Record Holder := Hold { h_op : string; h_since : Z; h_generation : Z }.
Record Reservation := Reserve { rs_op : string; rs_placed : Z; rs_refreshed : Z }.
Record Entry := MkEntry {
  e_holder : option Holder;
  e_reservation : option Reservation;
  e_backoff_until : option Z
}.
Definition Entry_default : Entry := MkEntry None None None.

Record VolumeClaims := Claims {
  vc_inner : gmap string Entry;
  vc_cfg : ClaimConfig;
  next_generation : Z
}.
Definition with_config (cfg : ClaimConfig) : VolumeClaims := Claims ∅ cfg 1.

Inductive Denial := Held (by_op : string) (age : Z) | Reserved (by_op : string) (age : Z).

(** [Instant::duration_since] saturates at zero. *)
Definition since (now t : Z) : Z := Z.max (now - t) 0.

(** ** try_claim *)

(** Lapse bookkeeping: an idle or over-age reservation is dropped, and
    over-age starts the backoff. *)
Definition lapse (cfg : ClaimConfig) (now : Z) (e : Entry) : Entry :=
  match e_reservation e with
  | Some r =>
      let idle := since now (rs_refreshed r) >? reservation_ttl cfg in
      let aged := since now (rs_placed r) >? reservation_max cfg in
      if idle || aged
      then MkEntry (e_holder e) None (if aged then Some (now + cc_backoff cfg) else e_backoff_until e)
      else e
  | None => e
  end.

(** [reserve_backoff_until.map(|t| now >= t).unwrap_or(true)]. *)
Definition backoff_over (now : Z) (e : Entry) : bool :=
  match e_backoff_until e with Some t => t <=? now | None => true end.

(** A resolver refused by a live maintainer posts or refreshes a reservation. *)
Definition reserve (now : Z) (op : string) (e : Entry) : Entry :=
  match e_reservation e with
  | Some r => MkEntry (e_holder e) (Some (Reserve (rs_op r) (rs_placed r) now)) (e_backoff_until e)
  | None => MkEntry (e_holder e) (Some (Reserve op now now)) (e_backoff_until e)
  end.

(** The outcome for one entry: whether the claim is granted, and the entry
    after it (a granted entry's holder carries generation [gen]). *)
Definition decide_claim (cfg : ClaimConfig) (now : Z) (op : string) (gen : Z) (e0 : Entry) : bool * Entry :=
  let e := lapse cfg now e0 in
  let taken := MkEntry (Some (Hold op now gen)) None (e_backoff_until e) in
  let resolver := bool_decide (class_of op = Resolver) in
  match e_holder e with
  | Some h =>
      if arbitration cfg && (since now (h_since h) >? cc_lease cfg) then
        if resolver || negb (bool_decide (is_Some (e_reservation e))) then (true, taken) else (false, e)
      else if arbitration cfg && resolver && bool_decide (class_of (h_op h) = Maintainer) && backoff_over now e
      then (false, reserve now op e)
      else (false, e)
  | None =>
      if arbitration cfg && negb resolver && bool_decide (is_Some (e_reservation e)) then (false, e)
      else (true, taken)
  end.

Definition entry_or_default (vc : VolumeClaims) (volume_id : string) : Entry :=
  default Entry_default (vc_inner vc !! volume_id).

(** The answer is the new guard's generation. *)
Definition try_claim (now : Z) (volume_id op : string) (vc : VolumeClaims) : option Z * VolumeClaims :=
  let gen := next_generation vc in
  let '(granted, e) := decide_claim (vc_cfg vc) now op gen (entry_or_default vc volume_id) in
  let inner := <[volume_id := e]> (vc_inner vc) in
  if granted then (Some gen, Claims inner (vc_cfg vc) (wrap_u64 (gen + 1)))
  else (None, Claims inner (vc_cfg vc) gen).

(** ** Release *)

(** [!reserve_backoff_until.map(|t| now < t).unwrap_or(false)]. *)
Definition backoff_running (now : Z) (e : Entry) : bool :=
  match e_backoff_until e with Some t => now <? t | None => false end.

Definition release_reservation (now : Z) (volume_id op : string) (vc : VolumeClaims) : VolumeClaims :=
  match vc_inner vc !! volume_id with
  | None => vc
  | Some e =>
      if bool_decide (rs_op <$> e_reservation e = Some op) then
        let e' := MkEntry (e_holder e) None (e_backoff_until e) in
        if negb (bool_decide (is_Some (e_holder e))) && negb (backoff_running now e')
        then Claims (delete volume_id (vc_inner vc)) (vc_cfg vc) (next_generation vc)
        else Claims (<[volume_id := e']> (vc_inner vc)) (vc_cfg vc) (next_generation vc)
      else vc
  end.

(** An entry the registry may forget. *)
Definition dead (cfg : ClaimConfig) (now : Z) (e : Entry) : bool :=
  negb (bool_decide (is_Some (e_holder e))) &&
  negb (match e_reservation e with
        | Some r => (since now (rs_refreshed r) <=? reservation_ttl cfg) &&
                    (since now (rs_placed r) <=? reservation_max cfg)
        | None => false
        end) &&
  negb (backoff_running now e).

(** [Drop for VolumeClaim]: release if the guard's generation still holds
    the volume, then collect every dead entry. *)
Definition release_guard (volume_id : string) (generation : Z) (m : gmap string Entry) : gmap string Entry :=
  match m !! volume_id with
  | Some e =>
      if bool_decide (h_generation <$> e_holder e = Some generation)
      then <[volume_id := MkEntry None (e_reservation e) (e_backoff_until e)]> m
      else m
  | None => m
  end.

Definition drop_claim (now : Z) (volume_id : string) (generation : Z) (vc : VolumeClaims) : VolumeClaims :=
  Claims (filter (fun p => dead (vc_cfg vc) now p.2 = false) (release_guard volume_id generation (vc_inner vc)))
    (vc_cfg vc) (next_generation vc).

(** ** Queries *)
Definition holder (now : Z) (volume_id : string) (vc : VolumeClaims) : option (string * Z) :=
  e ← vc_inner vc !! volume_id; h ← e_holder e; Some (h_op h, since now (h_since h)).

Definition denial (now : Z) (volume_id : string) (vc : VolumeClaims) : option Denial :=
  e ← vc_inner vc !! volume_id;
  match e_holder e with
  | Some h => Some (Held (h_op h) (since now (h_since h)))
  | None => r ← e_reservation e; Some (Reserved (rs_op r) (since now (rs_placed r)))
  end.

(** ** Histories *)
Inductive Call :=
| Ask (now : Z) (v op : string)
| Drop (now : Z) (v : string) (g : Z)
| Unreserve (now : Z) (v op : string).

Definition call_time (c : Call) : Z :=
  match c with Ask t _ _ => t | Drop t _ _ => t | Unreserve t _ _ => t end.

Definition act (c : Call) (vc : VolumeClaims) : option Z * VolumeClaims :=
  match c with
  | Ask t v op => try_claim t v op vc
  | Drop t v g => (None, drop_claim t v g vc)
  | Unreserve t v op => (None, release_reservation t v op vc)
  end.

(** The registry, the guards not yet dropped, and the last instant read. *)
Record World := MkWorld { w_claims : VolumeClaims; w_guards : list (string * Z); w_now : Z }.
Definition World_init (cfg : ClaimConfig) (t0 : Z) : World := MkWorld (with_config cfg) [] t0.

Definition guards_after (c : Call) (a : option Z) (gs : list (string * Z)) : list (string * Z) :=
  match c, a with
  | Ask _ v _, Some g => (v, g) :: gs
  | Drop _ v g, _ => filter (fun p => p <> (v, g)) gs
  | _, _ => gs
  end.

(** Instants do not decrease, and only an outstanding guard is dropped. *)
Definition allowed (c : Call) (w : World) : bool :=
  (w_now w <=? call_time c) &&
  match c with Drop _ v g => bool_decide ((v, g) ∈ w_guards w) | _ => true end.

Definition perform (c : Call) (w : World) : option (option Z * World) :=
  if allowed c w then
    let '(a, vc) := act c (w_claims w) in
    Some (a, MkWorld vc (guards_after c a (w_guards w)) (call_time c))
  else None.

Fixpoint run_calls (w : World) (cs : list Call) : option (list (Call * option Z) * World) :=
  match cs with
  | [] => Some ([], w)
  | c :: cs =>
      '(a, w1) ← perform c w;
      '(tr, w2) ← run_calls w1 cs;
      Some ((c, a) :: tr, w2)
  end.

Definition grants (tr : list (Call * option Z)) : list (Z * string * string * Z) :=
  omap (fun p => match p with (Ask t v op, Some g) => Some (t, v, op, g) | _ => None end) tr.
Definition granted_on (v : string) (tr : list (Call * option Z)) : Prop :=
  exists t op g, (t, v, op, g) ∈ grants tr.
Definition holder_of (v : string) (vc : VolumeClaims) : option Holder := vc_inner vc !! v ≫= e_holder.
Definition reservation_of (v : string) (vc : VolumeClaims) : option Reservation :=
  vc_inner vc !! v ≫= e_reservation.

Lemma perform_Some c w a w1 : perform c w = Some (a, w1) ->
  w_now w <= call_time c /\ act c (w_claims w) = (a, w_claims w1) /\
  w_guards w1 = guards_after c a (w_guards w) /\ w_now w1 = call_time c /\
  (forall t v g, c = Drop t v g -> (v, g) ∈ w_guards w).
Proof.
  unfold perform, allowed. destruct (w_now w <=? call_time c) eqn:Ht; [|done]. simpl.
  destruct (match c with Drop _ v g => _ | _ => _ end) eqn:Hg; [|done].
  destruct (act c (w_claims w)) as [a' vc] eqn:Ha. intros [= -> <-]. bool_Z. split_and!; try done.
  intros t v g ->. by apply bool_decide_eq_true in Hg.
Qed.

Lemma run_cons w c cs tr w2 : run_calls w (c :: cs) = Some (tr, w2) ->
  exists a w1 tr', perform c w = Some (a, w1) /\ run_calls w1 cs = Some (tr', w2) /\ tr = (c, a) :: tr'.
Proof.
  simpl. destruct (perform c w) as [[a w1]|] eqn:Hp; simpl; [|done].
  destruct (run_calls w1 cs) as [[tr' w']|] eqn:Hr; simpl; [|done]. intros [= <- <-]. eauto 10.
Qed.

Lemma run_calls_app w cs1 cs2 tr w2 : run_calls w (cs1 ++ cs2) = Some (tr, w2) ->
  exists tr1 w1 tr2, run_calls w cs1 = Some (tr1, w1) /\ run_calls w1 cs2 = Some (tr2, w2) /\ tr = tr1 ++ tr2.
Proof.
  revert w tr. induction cs1 as [|c cs1 IH]; intros w tr; simpl; [eauto 10|].
  destruct (perform c w) as [[a w1]|]; simpl; [|done].
  destruct (run_calls w1 (cs1 ++ cs2)) as [[tr' w']|] eqn:Hr; simpl; [|done]. intros [= <- <-].
  destruct (IH _ _ Hr) as (tr1 & w3 & tr2 & -> & H2 & ->). simpl. eauto 10.
Qed.

(** What a performed call keeps along a run. *)
Lemma run_inv (I : World -> Prop) :
  (forall c w a w1, I w -> perform c w = Some (a, w1) -> I w1) ->
  forall cs w tr w2, I w -> run_calls w cs = Some (tr, w2) -> I w2.
Proof.
  intros Hs. induction cs as [|c cs IH]; intros w tr w2 HI Hr.
  - by injection Hr as <- <-.
  - apply run_cons in Hr as (a & w1 & tr' & Hp & Hr & ->). eauto.
Qed.

(** ** One call *)
Lemma lapse_holder cfg now e : e_holder (lapse cfg now e) = e_holder e.
Proof. unfold lapse. destruct (e_reservation e); [|done]. by case_match. Qed.

Lemma lapse_reservation cfg now e r : e_reservation (lapse cfg now e) = Some r ->
  e_reservation e = Some r /\ since now (rs_refreshed r) <= reservation_ttl cfg /\
  since now (rs_placed r) <= reservation_max cfg /\ lapse cfg now e = e.
Proof.
  unfold lapse. destruct (e_reservation e) as [r'|] eqn:He; [|congruence].
  destruct (_ || _) eqn:Hb; simpl; [done|]. rewrite He. intros [= ->]. bool_Z. split_and!; try done; lia.
Qed.

Lemma lapse_keeps cfg now e r : e_reservation e = Some r ->
  since now (rs_refreshed r) <= reservation_ttl cfg -> since now (rs_placed r) <= reservation_max cfg ->
  lapse cfg now e = e.
Proof.
  intros Hr Ht Hm. unfold lapse. rewrite Hr, !Z.gtb_ltb.
  replace (_ <? since now (rs_refreshed r)) with false by (symmetry; apply Z.ltb_ge; lia).
  by replace (_ <? since now (rs_placed r)) with false by (symmetry; apply Z.ltb_ge; lia).
Qed.

(** Every branch of [try_claim] on one entry. *)
Lemma decide_claim_spec cfg now op gen e0 b e : decide_claim cfg now op gen e0 = (b, e) ->
  let e1 := lapse cfg now e0 in
  (b = true /\ e = MkEntry (Some (Hold op now gen)) None (e_backoff_until e1) /\
   (forall h, e_holder e0 = Some h -> arbitration cfg = true /\ cc_lease cfg < since now (h_since h)) /\
   (arbitration cfg = true -> class_of op = Maintainer -> e_reservation e1 = None)) \/
  (b = false /\ e_holder e = e_holder e0 /\ e_backoff_until e = e_backoff_until e1 /\
   (e = e1 \/ (e = reserve now op e1 /\ e_holder e0 <> None /\ arbitration cfg = true /\
     class_of op = Resolver /\ backoff_over now e1 = true)) /\
   ((exists h, e_holder e0 = Some h /\ (arbitration cfg = false \/ since now (h_since h) <= cc_lease cfg)) \/
    (arbitration cfg = true /\ class_of op = Maintainer /\ e_reservation e1 <> None))).
Proof.
  unfold decide_claim. rewrite lapse_holder. intros Hd. simpl.
  destruct (e_holder e0) as [h|] eqn:Hh.
  - destruct (arbitration cfg) eqn:Ha; simpl in Hd.
    + destruct (since now (h_since h) >? cc_lease cfg) eqn:Hl.
      * destruct (class_of op) eqn:Hc; simpl in Hd.
        -- injection Hd as <- <-. left. bool_Z. split_and!; try done; naive_solver lia.
        -- destruct (e_reservation (lapse cfg now e0)) as [r|] eqn:Hr; simpl in Hd; injection Hd as <- <-.
           ++ right. rewrite lapse_holder. split_and!; try done; [by left|]. right. done.
           ++ left. bool_Z. split_and!; try done. intros ? [= <-]. split; [done|lia].
      * right. bool_Z.
        destruct (bool_decide (class_of op = Resolver)) eqn:Hc; simpl in Hd.
        2:{ injection Hd as <- <-. rewrite lapse_holder. split_and!; try done; [by left|]. left. eauto. }
        apply bool_decide_eq_true in Hc.
        destruct (bool_decide (class_of (h_op h) = Maintainer) && _) eqn:Hb; injection Hd as <- <-.
        -- apply andb_prop in Hb as [_ Hb]. split_and!; try done.
           ++ unfold reserve. destruct (e_reservation _); simpl; by rewrite lapse_holder.
           ++ unfold reserve. by destruct (e_reservation _).
           ++ right. by rewrite Hb.
           ++ left. eauto.
        -- rewrite lapse_holder. split_and!; try done; [by left|]. left. eauto.
    + injection Hd as <- <-. right. rewrite lapse_holder. split_and!; try done; [by left|]. left. eauto.
  - destruct (arbitration cfg && _ && _) eqn:Hb; injection Hd as <- <-.
    + right. apply andb_prop in Hb as [Hb Hr]. apply andb_prop in Hb as [Ha Hc]. rewrite lapse_holder.
      apply negb_true_iff, bool_decide_eq_false in Hc. apply bool_decide_eq_true in Hr.
      split_and!; try done; [by left|]. right. split_and!; [done|by destruct (class_of op)|].
      intros Hn. rewrite Hn in Hr. by destruct Hr.
    + left. split_and!; try done. intros Ha Hc. rewrite Ha, Hc in Hb. simpl in Hb.
      apply bool_decide_eq_false, eq_None_not_Some in Hb. done.
Qed.

Lemma try_claim_inner now v op vc a vc1 : try_claim now v op vc = (a, vc1) ->
  exists b e, decide_claim (vc_cfg vc) now op (next_generation vc) (entry_or_default vc v) = (b, e) /\
    vc_inner vc1 = <[v := e]> (vc_inner vc) /\ vc_cfg vc1 = vc_cfg vc /\
    a = (if b then Some (next_generation vc) else None) /\
    next_generation vc1 = (if b then wrap_u64 (next_generation vc + 1) else next_generation vc).
Proof.
  unfold try_claim. destruct (decide_claim _ _ _ _ _) as [b e] eqn:Hd.
  destruct b; intros [= <- <-]; eauto 10.
Qed.

Lemma entry_holder vc v : e_holder (entry_or_default vc v) = holder_of v vc.
Proof. unfold entry_or_default, holder_of. by destruct (vc_inner vc !! v). Qed.
Lemma entry_reservation vc v : e_reservation (entry_or_default vc v) = reservation_of v vc.
Proof. unfold entry_or_default, reservation_of. by destruct (vc_inner vc !! v). Qed.

Lemma release_guard_lookup v g m u : release_guard v g m !! u =
  (fun e => if bool_decide (u = v /\ h_generation <$> e_holder e = Some g)
            then MkEntry None (e_reservation e) (e_backoff_until e) else e) <$> m !! u.
Proof.
  unfold release_guard. destruct (decide (u = v)) as [->|Hne].
  - destruct (m !! v) as [e|] eqn:He; [|by rewrite He].
    destruct (bool_decide (h_generation <$> e_holder e = Some g)) eqn:Hb.
    + rewrite lookup_insert_eq. apply bool_decide_eq_true in Hb. simpl. by rewrite bool_decide_eq_true_2.
    + rewrite He. apply bool_decide_eq_false in Hb. simpl. rewrite bool_decide_eq_false_2; naive_solver.
  - destruct (m !! v) as [e|] eqn:He.
    + transitivity (m !! u); [case_match; by rewrite ?lookup_insert_ne|].
      destruct (m !! u); simpl; [|done]. rewrite bool_decide_eq_false_2; naive_solver.
    + destruct (m !! u); simpl; [|done]. rewrite bool_decide_eq_false_2; naive_solver.
Qed.

(** The entry a drop leaves. *)
Lemma drop_lookup now v g vc u : vc_inner (drop_claim now v g vc) !! u =
  (e ← release_guard v g (vc_inner vc) !! u; if dead (vc_cfg vc) now e then None else Some e).
Proof.
  unfold drop_claim. simpl. rewrite map_lookup_filter.
  destruct (release_guard v g (vc_inner vc) !! u) as [e|]; simpl; [|done].
  destruct (dead (vc_cfg vc) now e) eqn:Hd; [by rewrite option_guard_False|by rewrite option_guard_True].
Qed.

Lemma dead_spec cfg now e : dead cfg now e = true ->
  e_holder e = None /\ backoff_running now e = false /\
  (forall r, e_reservation e = Some r ->
     reservation_ttl cfg < since now (rs_refreshed r) \/ reservation_max cfg < since now (rs_placed r)).
Proof.
  unfold dead. intros [[Hh Hr]%andb_prop Hb]%andb_prop.
  apply negb_true_iff, bool_decide_eq_false, eq_None_not_Some in Hh.
  apply negb_true_iff in Hb. split_and!; [done..|]. intros r He. rewrite He in Hr.
  apply negb_true_iff, andb_false_iff in Hr as [Hr|Hr]; bool_Z; auto.
Qed.

Lemma holder_drop now v g vc u : holder_of u (drop_claim now v g vc) =
  (h ← holder_of u vc; if bool_decide (u = v /\ h_generation h = g) then None else Some h).
Proof.
  unfold holder_of at 1. rewrite drop_lookup, release_guard_lookup. unfold holder_of.
  destruct (vc_inner vc !! u) as [e|]; simpl; [|done].
  destruct (e_holder e) as [h|] eqn:Hh; simpl.
  - assert (bool_decide (u = v /\ Some (h_generation h) = Some g) =
            bool_decide (u = v /\ h_generation h = g)) as -> by (apply bool_decide_ext; naive_solver).
    destruct (bool_decide _); simpl.
    + by case_match.
    + destruct (dead _ _ _) eqn:Hd; [|by rewrite <- Hh]. apply dead_spec in Hd as (Hn & _). congruence.
  - rewrite bool_decide_eq_false_2 by naive_solver. simpl. case_match; simpl; congruence.
Qed.

(** What any call does to a volume's holder: nothing, or the grant of a free
    or lease-expired volume, or the release by the guard that holds it. *)
Lemma act_holder c vc a vc1 v : act c vc = (a, vc1) ->
  (holder_of v vc1 = holder_of v vc /\ forall t op, c = Ask t v op -> a = None) \/
  (exists t op, c = Ask t v op /\ a = Some (next_generation vc) /\
     holder_of v vc1 = Some (Hold op t (next_generation vc)) /\
     forall h, holder_of v vc = Some h ->
       arbitration (vc_cfg vc) = true /\ cc_lease (vc_cfg vc) < since t (h_since h)) \/
  (exists t h, c = Drop t v (h_generation h) /\ holder_of v vc = Some h /\ holder_of v vc1 = None).
Proof.
  destruct c as [t u op|t u g|t u op]; simpl; intros Ha.
  - apply try_claim_inner in Ha as (b & e & Hd & Hi & _ & -> & _).
    assert (holder_of v vc1 = if bool_decide (u = v) then e_holder e else holder_of v vc) as Hh.
    { unfold holder_of. rewrite Hi. case_bool_decide as Hu; [subst; by rewrite lookup_insert_eq|by rewrite lookup_insert_ne]. }
    rewrite Hh. case_bool_decide as Hu; [subst u|left; naive_solver].
    apply decide_claim_spec in Hd as [(-> & -> & Hl & _)|(-> & -> & _)]; rewrite entry_holder in *; [|left; naive_solver].
    right. left. exists t, op. done.
  - injection Ha as _ <-. rewrite holder_drop. destruct (holder_of v vc) as [h|] eqn:Hh; simpl; [|left; naive_solver].
    case_bool_decide as Hb; [|left; naive_solver]. destruct Hb as [-> <-]. eauto 10.
  - injection Ha as <- <-. left. split; [|done]. unfold release_reservation.
    destruct (vc_inner vc !! u) as [e|] eqn:He; [|done]. case_bool_decide; [|done].
    destruct (decide (u = v)) as [->|Hne].
    + unfold holder_of. rewrite He. simpl. case_match eqn:Hb; simpl.
      * rewrite lookup_delete_eq. apply andb_prop in Hb as [Hb _].
        apply negb_true_iff, bool_decide_eq_false, eq_None_not_Some in Hb. by rewrite Hb.
      * by rewrite lookup_insert_eq.
    + unfold holder_of. case_match; simpl; by rewrite ?lookup_delete_ne, ?lookup_insert_ne.
Qed.

Lemma act_cfg c vc a vc1 : act c vc = (a, vc1) -> vc_cfg vc1 = vc_cfg vc.
Proof.
  destruct c; simpl; intros Ha.
  - by apply try_claim_inner in Ha as (b & e & _ & _ & -> & _).
  - by injection Ha as _ <-.
  - injection Ha as _ <-. unfold release_reservation. repeat case_match; done.
Qed.

Lemma act_generation c vc a vc1 : act c vc = (a, vc1) ->
  match a with
  | Some g => g = next_generation vc /\ next_generation vc1 = wrap_u64 (g + 1) /\
              exists t v op, c = Ask t v op /\ holder_of v vc1 = Some (Hold op t g)
  | None => next_generation vc1 = next_generation vc
  end.
Proof.
  destruct c as [t v op|t v g|t v op]; simpl; intros Ha.
  - pose proof Ha as (b & e & Hd & Hi & _ & -> & Hn)%try_claim_inner.
    apply decide_claim_spec in Hd as [(-> & -> & _)|(-> & _)]; [|done].
    split_and!; try done. exists t, v, op. split; [done|]. unfold holder_of. by rewrite Hi, lookup_insert_eq.
  - by injection Ha as <- <-.
  - injection Ha as <- <-. unfold release_reservation. repeat case_match; done.
Qed.

(** ** Exclusion *)

(** [n] grants were made: generations below [n + 1] were issued, each once,
    and every holder is an outstanding guard. *)
Record excl (n : Z) (w : World) : Prop := MkExcl {
  ex_next : next_generation (w_claims w) = n + 1;
  ex_range : forall v g, (v, g) ∈ w_guards w -> 1 <= g <= n;
  ex_nodup : NoDup (w_guards w).*2;
  ex_held : forall v h, holder_of v (w_claims w) = Some h -> (v, h_generation h) ∈ w_guards w /\ h_since h <= w_now w
}.

Lemma excl_init cfg t0 : excl 0 (World_init cfg t0).
Proof.
  split; simpl; [done| | |].
  - intros v g ?%elem_of_nil. done.
  - constructor.
  - intros v h. unfold holder_of. simpl. by rewrite lookup_empty.
Qed.

Lemma excl_step n c w a w1 : 0 <= n < u64_max - 1 -> excl n w -> perform c w = Some (a, w1) ->
  excl (n + match a with Some _ => 1 | None => 0 end) w1.
Proof.
  intros Hn [Hx Hr Hd Hh] (Ht & Ha & Hg & Hw & Hdr)%perform_Some.
  pose proof (act_generation _ _ _ _ Ha) as Hgen. destruct a as [g|].
  - destruct Hgen as (-> & Hn' & t & v & op & -> & Hv). split.
    + rewrite Hn', Hx, wrap_u64_id by bounds. lia.
    + rewrite Hg. intros u g [[= -> ->]|Hin]%elem_of_cons; [lia|]. specialize (Hr _ _ Hin). lia.
    + rewrite Hg. simpl. constructor; [|done]. intros ([u g] & Heq & Hin)%list_elem_of_fmap. simpl in Heq.
      specialize (Hr _ _ Hin). lia.
    + rewrite Hg, Hw. intros u h Hu. simpl.
      destruct (act_holder _ _ _ _ u Ha) as [[He _]|[(t' & op' & Hc & _ & He & _)|(? & ? & ? & _)]]; [| |done].
      * rewrite He in Hu. destruct (Hh _ _ Hu) as [Hin Hs]. simpl in Ht. split; [by right|lia].
      * injection Hc as <- <- <-. rewrite He in Hu. injection Hu as <-. simpl. split; [by left|lia].
  - rewrite Z.add_0_r. split; [congruence| | |].
    + intros u g Hin. apply (Hr u g). rewrite Hg in Hin. destruct c; simpl in Hin; try done.
      by apply list_elem_of_filter in Hin as [_ ?].
    + rewrite Hg. destruct c as [| t u g |]; simpl; [done| |done].
      apply (sublist_NoDup _ _ Hd). apply fmap_sublist, sublist_filter.
    + rewrite Hg, Hw. intros u h Hu.
      destruct (act_holder _ _ _ _ u Ha) as [[He _]|[(? & ? & _ & ? & _)|(? & ? & _ & _ & ?)]]; [|done|congruence].
      rewrite He in Hu. destruct (Hh _ _ Hu) as [Hin Hs]. split; [|lia].
      destruct c as [| t v g |]; simpl; [done| |done]. apply list_elem_of_filter. split; [|done].
      intros [= -> <-]. simpl in Ha. injection Ha as Hc1.
      rewrite <- Hc1, holder_drop, Hu in He. simpl in He. rewrite bool_decide_eq_true_2 in He by done. done.
Qed.

Lemma run_split w cs tr1 x tr2 w2 : run_calls w cs = Some (tr1 ++ x :: tr2, w2) ->
  exists cs1 cs2 w1 w1', run_calls w cs1 = Some (tr1, w1) /\ perform x.1 w1 = Some (x.2, w1') /\
    run_calls w1' cs2 = Some (tr2, w2).
Proof.
  revert w cs. induction tr1 as [|y tr1 IH]; intros w [|c cs]; simpl; try done.
  - intros (a & w1 & tr' & Hp & Hr & [= -> ->])%run_cons. exists [], cs, w, w1. done.
  - intros (a & w1 & tr' & Hp & Hr & [= -> <-])%run_cons.
    destruct (IH _ _ Hr) as (cs1 & cs2 & w3 & w3' & H1 & H2 & H3).
    exists (c :: cs1), cs2, w3, w3'. simpl. rewrite Hp. simpl. by rewrite H1.
Qed.

Lemma run_length w cs tr w2 : run_calls w cs = Some (tr, w2) -> length tr = length cs.
Proof.
  revert w tr. induction cs as [|c cs IH]; intros w tr; [by intros [= <- _]|].
  intros (a & w1 & tr' & _ & Hr & ->)%run_cons. simpl. f_equal. eauto.
Qed.

Lemma run_now w cs tr w2 : run_calls w cs = Some (tr, w2) -> w_now w <= w_now w2.
Proof.
  revert w tr. induction cs as [|c cs IH]; intros w tr; [intros [= _ <-]; lia|].
  intros (a & w1 & tr' & (Ht & _ & _ & Hw & _)%perform_Some & Hr & ->)%run_cons.
  apply IH in Hr. lia.
Qed.

Lemma run_cfg w cs tr w2 : run_calls w cs = Some (tr, w2) -> vc_cfg (w_claims w2) = vc_cfg (w_claims w).
Proof.
  intros Hr. eapply (run_inv (fun x => vc_cfg (w_claims x) = vc_cfg (w_claims w))); [|done|exact Hr].
  intros c w1 a w1' <- (_ & Ha & _)%perform_Some. by apply act_cfg in Ha.
Qed.

Lemma grants_Ask t v op g tr : grants ((Ask t v op, Some g) :: tr) = (t, v, op, g) :: grants tr.
Proof. done. Qed.

(** The invariant along a run, and the generations it issues: consecutive. *)
Lemma excl_run cs : forall n w tr w2, 0 <= n -> n + Z.of_nat (length cs) < u64_max - 1 ->
  excl n w -> run_calls w cs = Some (tr, w2) ->
  excl (n + Z.of_nat (length (grants tr))) w2 /\
  (grants tr).*2 = seqZ (n + 1) (Z.of_nat (length (grants tr))).
Proof.
  induction cs as [|c cs IH]; intros n w tr w2 Hn Hl Hx Hr.
  - injection Hr as <- <-. simpl. by rewrite Z.add_0_r.
  - apply run_cons in Hr as (a & w1 & tr' & Hp & Hr & ->). simpl in Hl.
    pose proof (excl_step n _ _ _ _ ltac:(lia) Hx Hp) as Hx1.
    pose proof Hp as (_ & Ha & _)%perform_Some. pose proof (act_generation _ _ _ _ Ha) as Hg.
    destruct a as [g|].
    + destruct Hg as (-> & _ & t & v & op & -> & _). destruct (IH (n + 1) _ _ _ ltac:(lia) ltac:(lia) Hx1 Hr) as [H1 H2].
      rewrite grants_Ask, fmap_cons, H2, (ex_next _ _ Hx). cbn [length snd]. split.
      * by replace (n + Z.of_nat (S (length (grants tr')))) with (n + 1 + Z.of_nat (length (grants tr'))) by lia.
      * replace (Z.of_nat (S (length (grants tr')))) with (Z.succ (Z.of_nat (length (grants tr')))) by lia.
        rewrite (seqZ_cons (n + 1) (Z.succ _)) by lia. f_equal. by rewrite Z.pred_succ.
    + destruct (IH (n + 0) _ _ _ ltac:(lia) ltac:(lia) Hx1 Hr) as [H1 H2]. rewrite Z.add_0_r in *.
      by destruct c.
Qed.

(** A claim stands until its guard is dropped or its lease has passed. *)
Definition stands (v : string) (h : Holder) (w : World) : Prop :=
  holder_of v (w_claims w) = Some h \/
  (arbitration (vc_cfg (w_claims w)) = true /\ cc_lease (vc_cfg (w_claims w)) < w_now w - h_since h).

Lemma stands_step v h c w a w1 : h_since h <= w_now w -> stands v h w -> perform c w = Some (a, w1) ->
  (forall t, c <> Drop t v (h_generation h)) -> stands v h w1.
Proof.
  intros Hs Hst (Ht & Ha & _ & Hw & _)%perform_Some Hnd. unfold stands in *.
  rewrite (act_cfg _ _ _ _ Ha). destruct Hst as [Hh|[? ?]]; [|right; split; [done|lia]].
  destruct (act_holder _ _ _ _ v Ha) as [[He _]|[(t & op & -> & _ & _ & Hl)|(t & h' & -> & Hh' & _)]].
  - left. by rewrite He.
  - right. specialize (Hl _ Hh) as [? Hl]. split; [done|]. rewrite Hw. unfold since in Hl. simpl in *. lia.
  - rewrite Hh in Hh'. injection Hh' as <-. by destruct (Hnd t).
Qed.

Lemma stands_run v h cs : forall w tr w2, h_since h <= w_now w -> stands v h w -> run_calls w cs = Some (tr, w2) ->
  (forall t a, (Drop t v (h_generation h), a) ∉ tr) -> stands v h w2.
Proof.
  induction cs as [|c cs IH]; intros w tr w2 Hs Hst Hr Hn.
  - by injection Hr as <- <-.
  - apply run_cons in Hr as (a & w1 & tr' & Hp & Hr & ->). pose proof Hp as (Ht & _ & _ & Hw & _)%perform_Some.
    eapply IH; [|eapply stands_step; [exact Hs|exact Hst|exact Hp|]|exact Hr|].
    + lia.
    + intros t ->. apply (Hn t a). by left.
    + intros t b Hin. apply (Hn t b). by right.
Qed.

Lemma overlap w cs tr1 t1 v op1 g1 tr2 t2 op2 g2 tr3 w2 :
  run_calls w cs = Some (tr1 ++ (Ask t1 v op1, Some g1) :: tr2 ++ (Ask t2 v op2, Some g2) :: tr3, w2) ->
  (forall t a, (Drop t v g1, a) ∉ tr2) ->
  arbitration (vc_cfg (w_claims w)) = true /\ cc_lease (vc_cfg (w_claims w)) < t2 - t1.
Proof.
  intros (cs1 & cs2 & wa & wb & H1 & Hp & Hr)%run_split Hn. simpl in Hp.
  apply run_split in Hr as (cs3 & cs4 & wc & wd & H3 & Hp2 & _). simpl in Hp2.
  pose proof Hp as (_ & Ha & _ & Hnow & _)%perform_Some. simpl in Hnow.
  pose proof (act_generation _ _ _ _ Ha) as (_ & _ & t & v' & op & [= <- <- <-] & Hh).
  assert (stands v (Hold op1 t1 g1) wc) as Hst.
  { eapply stands_run; [|left; exact Hh|exact H3|exact Hn]. simpl. lia. }
  pose proof Hp2 as (Ht2 & Ha2 & _)%perform_Some. simpl in Ht2.
  pose proof (run_now _ _ _ _ H3). pose proof (run_cfg _ _ _ _ H3) as Hc3.
  rewrite <- (run_cfg _ _ _ _ H1), <- (act_cfg _ _ _ _ Ha), <- Hc3.
  destruct Hst as [Hh2|[? Hl]]; [|simpl in *; split; [done|lia]].
  destruct (act_holder _ _ _ _ v Ha2) as [[_ He]|[(t & op & [= <- <-] & _ & _ & Hl)|(? & ? & ? & _)]]; [| |done].
  - by specialize (He _ _ eq_refl).
  - destruct (Hl _ Hh2) as [? Hl']. split; [done|]. unfold since in Hl'. simpl in *. lia.
Qed.

(** ** Reservations *)
Lemma unreserve_lookup t u op vc v : vc_inner (release_reservation t u op vc) !! v =
  (e ← vc_inner vc !! v;
   if bool_decide (u = v /\ rs_op <$> e_reservation e = Some op) then
     let e' := MkEntry (e_holder e) None (e_backoff_until e) in
     if negb (bool_decide (is_Some (e_holder e))) && negb (backoff_running t e') then None else Some e'
   else Some e).
Proof.
  unfold release_reservation. destruct (decide (u = v)) as [->|Hne].
  - destruct (vc_inner vc !! v) as [e|] eqn:He; simpl; [|done].
    assert (bool_decide (v = v /\ rs_op <$> e_reservation e = Some op) =
            bool_decide (rs_op <$> e_reservation e = Some op)) as -> by (apply bool_decide_ext; naive_solver).
    destruct (bool_decide (rs_op <$> _ = _)); [|done].
    case_match; simpl; by rewrite ?lookup_delete_eq, ?lookup_insert_eq.
  - transitivity (vc_inner vc !! v).
    + destruct (vc_inner vc !! u); [|done]. repeat case_match; simpl; by rewrite ?lookup_delete_ne, ?lookup_insert_ne.
    + destruct (vc_inner vc !! v); simpl; [|done]. by rewrite bool_decide_eq_false_2 by naive_solver.
Qed.

Lemma reservation_drop now v g vc u r : reservation_of u (drop_claim now v g vc) = Some r ->
  reservation_of u vc = Some r.
Proof.
  unfold reservation_of. rewrite drop_lookup, release_guard_lookup.
  destruct (vc_inner vc !! u) as [e|]; simpl; [|done]. case_match; simpl; [done|]. by case_match.
Qed.

Lemma reservation_unreserve t u op vc v r : reservation_of v (release_reservation t u op vc) = Some r ->
  reservation_of v vc = Some r /\ ~ (u = v /\ rs_op r = op).
Proof.
  unfold reservation_of. rewrite unreserve_lookup. destruct (vc_inner vc !! v) as [e|]; simpl; [|done].
  case_bool_decide as Hb; simpl; [by case_match|]. intros He. split; [done|]. rewrite He in Hb. naive_solver.
Qed.

(** Where a reservation comes from: it was there, or a resolver refused by a
    holder posted or refreshed it. *)
Lemma act_reservation c vc a vc1 v r : act c vc = (a, vc1) -> reservation_of v vc1 = Some r ->
  reservation_of v vc = Some r \/
  (exists t op, c = Ask t v op /\ a = None /\ holder_of v vc <> None /\ rs_refreshed r = t /\
     (rs_placed r = t \/ exists r0, reservation_of v vc = Some r0 /\ rs_op r = rs_op r0 /\ rs_placed r = rs_placed r0)).
Proof.
  destruct c as [t u op|t u g|t u op]; simpl; intros Ha Hr.
  - apply try_claim_inner in Ha as (b & e & Hd & Hi & _ & -> & _).
    destruct (decide (u = v)) as [->|Hne].
    2:{ left. unfold reservation_of in *. by rewrite Hi, lookup_insert_ne in Hr. }
    assert (e_reservation e = Some r) as He by (unfold reservation_of in Hr; by rewrite Hi, lookup_insert_eq in Hr).
    apply decide_claim_spec in Hd as [(-> & -> & _)|(-> & _ & _ & [->|(-> & Hn & _)] & _)]; [done| |].
    + apply lapse_reservation in He as (He & _). left. by rewrite <- entry_reservation.
    + right. exists t, op. rewrite entry_holder in Hn. unfold reserve in He.
      destruct (e_reservation (lapse _ _ _)) as [r0|] eqn:Hl; simpl in He; injection He as <-; simpl.
      * apply lapse_reservation in Hl as (Hl & _). rewrite entry_reservation in Hl. eauto 10.
      * auto 10.
  - injection Ha as _ <-. left. by apply reservation_drop in Hr.
  - injection Ha as _ <-. left. by apply reservation_unreserve in Hr as [? _].
Qed.

(** Reservations are not dated in the future. *)
Definition dated (w : World) : Prop :=
  forall v r, reservation_of v (w_claims w) = Some r -> rs_placed r <= w_now w /\ rs_refreshed r <= w_now w.

Lemma dated_init cfg t0 : dated (World_init cfg t0).
Proof. intros v r. unfold reservation_of. simpl. by rewrite lookup_empty. Qed.

Lemma dated_step c w a w1 : dated w -> perform c w = Some (a, w1) -> dated w1.
Proof.
  intros Hd (Ht & Ha & _ & Hw & _)%perform_Some v r Hr. rewrite Hw.
  destruct (act_reservation _ _ _ _ _ _ Ha Hr) as [H0|(t & op & -> & _ & _ & Hf & Hp)].
  - specialize (Hd _ _ H0). lia.
  - simpl in *. destruct Hp as [->|(r0 & H0 & _ & ->)]; [lia|]. specialize (Hd _ _ H0). lia.
Qed.

Lemma dated_run cfg t0 cs tr w : run_calls (World_init cfg t0) cs = Some (tr, w) -> dated w.
Proof. eapply run_inv; [eauto using dated_step|apply dated_init]. Qed.

(** *** A standing reservation *)
Record cfg_ok (cfg : ClaimConfig) : Prop := MkCfgOk {
  ok_lease : 0 < cc_lease cfg; ok_ttl : 0 < reservation_ttl cfg;
  ok_max : 0 < reservation_max cfg; ok_backoff : 0 < cc_backoff cfg
}.

(** Whatever the environment holds. *)
Lemma from_env_ok arb lease ttl max backoff : cfg_ok (ClaimConfig_from_env arb lease ttl max backoff).
Proof.
  assert (forall var d, 0 < d -> 0 < env_secs var d) as H.
  { intros var d Hd. unfold env_secs. destruct (var ≫= parse_u64) as [s|]; [|lia]. case_match; bool_Z; lia. }
  split; apply H; lia.
Qed.

(** The instant until which [r] stands without being refreshed. *)
Definition stands_until (cfg : ClaimConfig) (r : Reservation) : Z :=
  Z.min (rs_refreshed r + reservation_ttl cfg) (rs_placed r + reservation_max cfg).

Definition reserved (v : string) (r : Reservation) (w : World) : Prop :=
  exists r', reservation_of v (w_claims w) = Some r' /\ rs_op r' = rs_op r /\ rs_placed r' = rs_placed r /\
    rs_refreshed r <= rs_refreshed r'.

Lemma until_live cfg r r' t : cfg_ok cfg -> t <= stands_until cfg r -> rs_placed r' = rs_placed r ->
  rs_refreshed r <= rs_refreshed r' ->
  since t (rs_refreshed r') <= reservation_ttl cfg /\ since t (rs_placed r') <= reservation_max cfg.
Proof. intros [] Ht Hp Hf. unfold since, stands_until in *. lia. Qed.

Lemma reserved_step v r c w a w1 : cfg_ok (vc_cfg (w_claims w)) -> arbitration (vc_cfg (w_claims w)) = true ->
  rs_refreshed r <= w_now w -> reserved v r w ->
  perform c w = Some (a, w1) -> call_time c <= stands_until (vc_cfg (w_claims w)) r ->
  (forall t, c <> Unreserve t v (rs_op r)) ->
  (forall t op g, c = Ask t v op -> a = Some g -> class_of op = Maintainer) ->
  reserved v r w1 /\ forall t op, c = Ask t v op -> a = None.
Proof.
  intros Hok Harb Hdt (r1 & Hr & Ho & Hp & Hf) (Ht & Ha & _ & Hw & _)%perform_Some Hlim Hnu Hng.
  destruct (until_live _ _ r1 _ Hok Hlim Hp Hf) as [Hl1 Hl2].
  unfold reserved. destruct c as [t u op|t u g|t u op]; simpl in *.
  - apply try_claim_inner in Ha as (b & e & Hd & Hi & _ & -> & _).
    destruct (decide (u = v)) as [->|Hne].
    2:{ split; [|intros ?? [= -> -> _]; done]. exists r1. unfold reservation_of in *.
        by rewrite Hi, lookup_insert_ne. }
    assert (e_reservation (entry_or_default (w_claims w) v) = Some r1) as Hr1 by (by rewrite entry_reservation).
    pose proof (lapse_keeps _ _ _ _ Hr1 Hl1 Hl2) as Hk.
    unfold reservation_of. rewrite Hi, lookup_insert_eq. simpl.
    apply decide_claim_spec in Hd as [(-> & -> & _ & Hm)|(-> & _ & _ & Hc & _)].
    + specialize (Hng _ _ _ eq_refl eq_refl). rewrite Hk, Hr1 in Hm. by specialize (Hm Harb Hng).
    + split; [|done]. rewrite Hk in Hc. destruct Hc as [->|(-> & _)]; [eauto 10|].
      unfold reserve. rewrite Hr1. simpl. eexists. split_and!; [done..|]. simpl. lia.
  - injection Ha as <- Hi. split; [|done]. exists r1. split; [|done].
    rewrite <- Hi. unfold reservation_of in *. rewrite drop_lookup, release_guard_lookup.
    destruct (vc_inner (w_claims w) !! v) as [e|]; simpl in *; [|done].
    assert (forall e', e_reservation e' = Some r1 -> dead (vc_cfg (w_claims w)) t e' = false) as Hnd.
    { intros e' He'. destruct (dead _ _ _) eqn:Hdd; [|done]. apply dead_spec in Hdd as (_ & _ & Hd).
      destruct (Hd _ He'); lia. }
    case_bool_decide; simpl; rewrite Hnd; done.
  - injection Ha as <- Hi. split; [|done]. exists r1. split; [|done].
    rewrite <- Hi. unfold reservation_of in *. rewrite unreserve_lookup.
    destruct (vc_inner (w_claims w) !! v) as [e|]; simpl in *; [|done].
    rewrite bool_decide_eq_false_2; [done|]. intros [-> Hop]. rewrite Hr in Hop. simpl in Hop.
    apply (Hnu t). congruence.
Qed.

(** While a reservation stands nobody but a resolver is granted the volume. *)
Lemma reserved_run v r cs : forall w tr w2,
  cfg_ok (vc_cfg (w_claims w)) -> arbitration (vc_cfg (w_claims w)) = true ->
  rs_refreshed r <= w_now w -> reserved v r w -> run_calls w cs = Some (tr, w2) ->
  w_now w2 <= stands_until (vc_cfg (w_claims w)) r ->
  (forall t a, (Unreserve t v (rs_op r), a) ∉ tr) ->
  (forall t op g, (t, v, op, g) ∈ grants tr -> class_of op = Maintainer) ->
  reserved v r w2 /\ ~ granted_on v tr.
Proof.
  induction cs as [|c cs IH]; intros w tr w2 Hok Harb Hdt Hres Hr Hlim Hnu Hng.
  - injection Hr as <- <-. split; [done|]. intros (t & op & g & ?%elem_of_nil). done.
  - apply run_cons in Hr as (a & w1 & tr' & Hp & Hr & ->).
    pose proof Hp as (Ht & Ha & _ & Hw & _)%perform_Some.
    pose proof (run_now _ _ _ _ Hr) as Hn. pose proof (act_cfg _ _ _ _ Ha) as Hcfg.
    destruct (reserved_step v r c w a w1) as [Hres1 Hna]; try done.
    { lia. }
    { intros t ->. apply (Hnu t a). by left. }
    { intros t op g -> ->. apply (Hng t op g). by left. }
    destruct (IH w1 tr' w2) as [Hres2 Hg]; rewrite ?Hcfg; try done.
    { lia. }
    { intros t b Hin. apply (Hnu t b). by right. }
    { intros t op g Hin. apply (Hng t op g). destruct c, a; try done. by right. }
    split; [done|]. intros (t & op & g & Hin). destruct c as [t' u op'| |], a as [g'|]; try (apply Hg; by exists t, op, g).
    apply elem_of_cons in Hin as [[= -> -> -> ->]|Hin]; [by specialize (Hna _ _ eq_refl)|].
    apply Hg. by exists t, op, g.
Qed.

(** Without a grant a volume's holder only goes away. *)
Lemma holder_run v cs : forall w tr w2, run_calls w cs = Some (tr, w2) -> ~ granted_on v tr ->
  forall h, holder_of v (w_claims w2) = Some h -> holder_of v (w_claims w) = Some h.
Proof.
  induction cs as [|c cs IH]; intros w tr w2 Hr Hg h Hh.
  - by injection Hr as <- <-.
  - apply run_cons in Hr as (a & w1 & tr' & (_ & Ha & _)%perform_Some & Hr & ->).
    assert (holder_of v (w_claims w1) = Some h) as Hh1.
    { eapply IH; [exact Hr| |done]. intros (t & op & g & Hin). apply Hg. exists t, op, g.
      destruct c, a; try done. by right. }
    destruct (act_holder _ _ _ _ v Ha) as [[<- _]|[(t & op & -> & -> & _)|(? & ? & _ & _ & ?)]]; [done| |congruence].
    exfalso. apply Hg. eexists _, _, _. by left.
Qed.

(** *** A resolver's answer *)
Lemma resolver_ask t v op vc : class_of op = Resolver -> (try_claim t v op vc).1 = None ->
  exists h, holder_of v vc = Some h /\ (arbitration (vc_cfg vc) = false \/ since t (h_since h) <= cc_lease (vc_cfg vc)).
Proof.
  intros Hc. destruct (try_claim t v op vc) as [a vc1] eqn:Ha. simpl. intros ->.
  apply try_claim_inner in Ha as (b & e & Hd & _ & _ & Hb & _). destruct b; [done|].
  apply decide_claim_spec in Hd as [(? & _)|(_ & _ & _ & _ & [(h & Hh & Hl)|(_ & Hm & _)])]; [done| |congruence].
  rewrite entry_holder in Hh. eauto.
Qed.

Lemma maintainer_ask t v op vc : (try_claim t v op vc).1 = None -> holder_of v vc = None ->
  exists r, reservation_of v vc = Some r /\ class_of op = Maintainer /\ arbitration (vc_cfg vc) = true /\
    since t (rs_refreshed r) <= reservation_ttl (vc_cfg vc) /\ since t (rs_placed r) <= reservation_max (vc_cfg vc).
Proof.
  destruct (try_claim t v op vc) as [a vc1] eqn:Ha. simpl. intros -> Hh.
  apply try_claim_inner in Ha as (b & e & Hd & _ & _ & Hb & _). destruct b; [done|].
  apply decide_claim_spec in Hd as [(? & _)|(_ & _ & _ & _ & [(h & Hh' & _)|(Harb & Hm & Hr)])]; [done| |].
  - rewrite entry_holder in Hh'. congruence.
  - destruct (e_reservation (lapse _ _ _)) as [r|] eqn:He; [|done].
    apply lapse_reservation in He as (He & ? & ? & _). rewrite entry_reservation in He. eauto 10.
Qed.

(** A resolver refused by a live maintainer outside a backoff has a
    reservation, refreshed now. *)
Lemma refusal_reserves t v op vc vc1 h : try_claim t v op vc = (None, vc1) ->
  arbitration (vc_cfg vc) = true -> class_of op = Resolver ->
  holder_of v vc = Some h -> class_of (h_op h) = Maintainer ->
  backoff_over t (lapse (vc_cfg vc) t (entry_or_default vc v)) = true ->
  exists r, reservation_of v vc1 = Some r /\ rs_refreshed r = t.
Proof.
  intros Ha Harb Hc Hh Hm Hb. pose proof Ha as (b & e & Hd & Hi & _ & Hbb & _)%try_claim_inner.
  destruct b; [done|]. unfold reservation_of. rewrite Hi, lookup_insert_eq. simpl.
  unfold decide_claim in Hd. rewrite lapse_holder, entry_holder, Hh, Harb, Hc in Hd. simpl in Hd.
  destruct (_ >? _); [done|]. rewrite Hm, Hb in Hd. simpl in Hd. injection Hd as <-.
  unfold reserve. destruct (e_reservation (lapse _ _ _)); simpl; by eexists.
Qed.

(** *** The maintainers' turn *)

(** A free volume's reservations are no longer refreshed. *)
Definition idle_since (v : string) (T : Z) (w : World) : Prop :=
  holder_of v (w_claims w) = None /\
  forall r, reservation_of v (w_claims w) = Some r -> rs_refreshed r <= T.

Lemma idle_run v T cs : forall w tr w2, idle_since v T w -> run_calls w cs = Some (tr, w2) -> ~ granted_on v tr ->
  idle_since v T w2.
Proof.
  induction cs as [|c cs IH]; intros w tr w2 [Hh Hi] Hr Hg.
  - by injection Hr as <- <-.
  - apply run_cons in Hr as (a & w1 & tr' & (_ & Ha & _)%perform_Some & Hr & ->).
    eapply (IH w1); [split|exact Hr|].
    + destruct (act_holder _ _ _ _ v Ha) as [[-> _]|[(t & op & -> & -> & _)|(? & ? & _ & _ & ?)]]; [done| |congruence].
      exfalso. apply Hg. eexists _, _, _. by left.
    + intros r Hr1. destruct (act_reservation _ _ _ _ _ _ Ha Hr1) as [H0|(t & op & -> & _ & Hn & _)]; [by apply Hi|done].
    + intros (t & op & g & Hin). apply Hg. exists t, op, g. destruct c, a; try done. by right.
Qed.

(** No reservation before [B]. *)
Definition barred (v : string) (B : Z) (w : World) : Prop :=
  exists e, vc_inner (w_claims w) !! v = Some e /\ e_reservation e = None /\ e_backoff_until e = Some B.

Lemma barred_step v B c w a w1 : barred v B w -> perform c w = Some (a, w1) -> call_time c < B -> barred v B w1.
Proof.
  intros (e & He & Hr & Hb) (_ & Ha & _)%perform_Some Ht. unfold barred.
  assert (forall t, t < B -> backoff_running t e = true /\ backoff_over t e = false) as Hrun.
  { intros t Htb. unfold backoff_running, backoff_over. rewrite Hb. split; [by apply Z.ltb_lt|by apply Z.leb_gt]. }
  destruct c as [t u op|t u g|t u op]; simpl in *.
  - apply try_claim_inner in Ha as (b & e' & Hd & Hi & _ & _). rewrite Hi.
    destruct (decide (u = v)) as [->|Hne]; [|rewrite lookup_insert_ne by done; eauto].
    rewrite lookup_insert_eq. assert (lapse (vc_cfg (w_claims w)) t e = e) as Hl by (unfold lapse; by rewrite Hr).
    unfold entry_or_default in Hd. rewrite He in Hd. simpl in Hd.
    apply decide_claim_spec in Hd as [(_ & -> & _)|(_ & _ & Hb' & [->|(_ & _ & _ & _ & Hbo)] & _)]; rewrite Hl in *.
    + eexists. split_and!; [done..|]. exact Hb.
    + eauto.
    + destruct (Hrun t Ht) as [_ ?]. congruence.
  - injection Ha as _ <-. rewrite drop_lookup, release_guard_lookup, He. simpl.
    assert (forall e', e_backoff_until e' = Some B -> dead (vc_cfg (w_claims w)) t e' = false) as Hnd.
    { intros e' He'. unfold dead, backoff_running. rewrite He'. replace (t <? B) with true by (symmetry; by apply Z.ltb_lt).
      by rewrite andb_false_r. }
    case_bool_decide; simpl; rewrite Hnd by done; eauto.
  - injection Ha as _ <-. rewrite unreserve_lookup, He. simpl. rewrite bool_decide_eq_false_2; [eauto|].
    rewrite Hr. naive_solver.
Qed.

Lemma barred_run v B cs : forall w tr w2, barred v B w -> run_calls w cs = Some (tr, w2) -> w_now w2 < B ->
  barred v B w2.
Proof.
  induction cs as [|c cs IH]; intros w tr w2 Hb Hr Ht.
  - by injection Hr as <- <-.
  - apply run_cons in Hr as (a & w1 & tr' & Hp & Hr & ->). pose proof (run_now _ _ _ _ Hr).
    pose proof Hp as (_ & _ & _ & Hw & _)%perform_Some.
    eapply IH; [eapply barred_step; [done..|lia]|done|done].
Qed.

(** The first call past the age cap starts the backoff, whoever makes it. *)
Lemma cap_bars t v op vc a vc1 r : cfg_ok (vc_cfg vc) -> try_claim t v op vc = (a, vc1) -> reservation_of v vc = Some r ->
  reservation_max (vc_cfg vc) < t - rs_placed r ->
  exists e, vc_inner vc1 !! v = Some e /\ e_reservation e = None /\ e_backoff_until e = Some (t + cc_backoff (vc_cfg vc)).
Proof.
  intros [_ _ _ Hpos] (b & e & Hd & Hi & _)%try_claim_inner Hr Hm. rewrite Hi, lookup_insert_eq. exists e. split; [done|].
  set (e0 := entry_or_default vc v) in *. set (e1 := lapse (vc_cfg vc) t e0) in *.
  assert (e_reservation e1 = None /\ e_backoff_until e1 = Some (t + cc_backoff (vc_cfg vc))) as [H1 H2].
  { subst e1. unfold lapse. subst e0. rewrite entry_reservation, Hr.
    replace (since t (rs_placed r) >? _) with true; [by rewrite orb_true_r|].
    symmetry. apply Z.gtb_lt. unfold since. lia. }
  apply decide_claim_spec in Hd as [(_ & -> & _)|(_ & _ & Hb & [->|(-> & _ & _ & _ & Hbo)] & _)]; [done|done|].
  exfalso. fold e1 in Hbo. unfold backoff_over in Hbo. rewrite H2 in Hbo. bool_Z. lia.
Qed.
