(* ===== verification/GuardedDestroy.v ===== *)
(** The destruction and construction guards (guarded_destroy.rs): each RPC that
    can sever a live data path, or admit a second writer, is decided from
    probes of the SPDK target it would act on.

    A probe is the parameter [probe : Value -> result string Value]: the
    target's answer to a query, or the transport's error text.  A verdict is a
    function of these answers; the queries it makes do not change the target,
    and the target is taken not to change while a verdict is formed.

    The interface [Answers] says what the target's answers mean in terms of its
    block devices, raids, exports with their connected hosts, and ublk disks;
    the verdicts are exact against it. *)

From Stdlib Require Import Ascii String.
From S2P Require Import Prelude Csv Strs.
Local Open Scope string_scope.

Definition RPC_NVMF_DELETE_SUBSYSTEM : string := "nvmf_delete_subsystem".
Definition RPC_BDEV_RAID_DELETE : string := "bdev_raid_delete".
Definition RPC_BDEV_LVOL_DELETE : string := "bdev_lvol_delete".
Definition RPC_UBLK_STOP_DISK : string := "ublk_stop_disk".
Definition RPC_BDEV_NVME_DETACH_CONTROLLER : string := "bdev_nvme_detach_controller".
Definition GUARDED_METHODS : list string :=
  [RPC_NVMF_DELETE_SUBSYSTEM; RPC_BDEV_RAID_DELETE; RPC_BDEV_LVOL_DELETE; RPC_UBLK_STOP_DISK;
   RPC_BDEV_NVME_DETACH_CONTROLLER].
Definition RPC_BDEV_RAID_CREATE : string := "bdev_raid_create".
Definition RPC_BDEV_RAID_ADD_BASE_BDEV : string := "bdev_raid_add_base_bdev".
Definition RPC_NVMF_SUBSYSTEM_ADD_NS : string := "nvmf_subsystem_add_ns".
Definition CONSTRUCTION_GUARDED_METHODS : list string :=
  [RPC_BDEV_RAID_CREATE; RPC_BDEV_RAID_ADD_BASE_BDEV; RPC_NVMF_SUBSYSTEM_ADD_NS].

(** The environment variable is the argument. *)
Definition construction_guard_enabled (env : option string) : bool :=
  negb (match env with Some v => String.eqb (to_ascii_lowercase v) "disabled" | None => false end).

Inductive Verdict := Allow | AllowIdempotentNoop | Refuse (reason : string) | Defer (reason : string).
#[global] Instance Verdict_eq : EqDecision Verdict.
Proof. solve_decision. Defined.
Definition blocked (v : Verdict) : option string :=
  match v with Refuse r => Some r | Defer r => Some r | _ => None end.

Definition probe_error_is_missing (msg : string) : bool :=
  str_contains "No such device" msg || str_contains "Code=-19" msg || str_contains "No such file or directory" msg ||
  str_contains "does not exist" msg || str_contains "not found" msg || str_contains "Code=-2" msg.

Definition is_operation_scoped (identifier : string) : bool :=
  str_contains ":hotrejoin:" identifier || str_contains "_hrpad" identifier || ends_with "_hr" identifier ||
  str_contains "_hr_" identifier || str_contains "hotrejoin" identifier.

(** ** Decision cores *)
Definition mem (x : string) (l : list string) : bool := existsb (String.eqb x) l.

Definition subsystem_delete_verdict (live_hostnqns allowed_hosts : list string) (allow_any_host : bool)
    (own_host_nqn : string) (va_owner : option string) (va_lookup_errored : bool) (self_node : string) : Verdict :=
  match find_first (fun h => String.eqb h own_host_nqn) live_hostnqns with
  | Some h => Refuse ("guarded_destroy: live SELF-host controller " ++ h ++
      " on this subsystem — this node is serving the chain; destruction vetoed unconditionally")
  | None =>
  match find_first (fun h => allow_any_host || mem h allowed_hosts) live_hostnqns with
  | Some h => Refuse ("guarded_destroy: live ADMITTED foreign controller " ++ h ++
      " — rightful consumer elsewhere (F9 shape); leak-and-reconcile beats a cross-node data-plane kill")
  | None =>
  if va_lookup_errored then
    Defer ("guarded_destroy: VolumeAttachment lookup errored — cannot rule out a configured " ++
           "consumer mid-reconnect; failing closed this cycle")
  else match va_owner with
  | Some owner =>
      if negb (String.eqb owner self_node) then
        Refuse ("guarded_destroy: VolumeAttachment owned by " ++ owner ++
          " — configured consumer may be mid-reconnect (zero live controllers is not evidence of absence)")
      else Allow
  | None => Allow
  end end end.

Definition lvol_delete_verdict (raid_consumers exports_with_live_controllers : list string) : Verdict :=
  match raid_consumers with
  | raid :: _ => Refuse ("guarded_destroy: lvol is a base of raid " ++ raid ++
      " — deleting a live raid's leg severs the chain; remove it from the raid first")
  | [] =>
      match exports_with_live_controllers with
      | nqn :: _ => Refuse ("guarded_destroy: lvol is namespaced by subsystem " ++ nqn ++
          " with live controller(s) — the F36 guard-a shape; destruction refused")
      | [] => Allow
      end
  end.

Definition raid_delete_verdict (raid_present : bool) (ublk_consumer : option Z)
    (exports_with_live_controllers : list string) : Verdict :=
  if negb raid_present then AllowIdempotentNoop
  else match ublk_consumer with
  | Some id => Refuse ("guarded_destroy: raid is served by ublk disk " ++ show_u64 id ++
      " — deleting it hot-removes the block device under a mounted filesystem (D2)")
  | None =>
      match exports_with_live_controllers with
      | nqn :: _ => Refuse ("guarded_destroy: raid is namespaced by subsystem " ++ nqn ++ " with live controller(s) (D2)")
      | [] => Allow
      end
  end.

Definition detach_controller_verdict (controller_name : string) (raid_base_names : list string) : Verdict :=
  let ns_bdev := controller_name ++ "n1" in
  if existsb (fun b => String.eqb b ns_bdev || String.eqb b controller_name) raid_base_names then
    Refuse ("guarded_destroy: controller " ++ controller_name ++
      "'s namespace is a live raid base — detach severs the leg; remove it from the raid first")
  else Allow.

(** ** Reading the answers *)
Definition result_array (v : Value) : list Value := default [] (get_array "result" v).

(** [forms.sort(); forms.dedup()] of the code keeps the set of forms; only
    membership in it is used. *)
Definition row_forms (name : string) (b : Value) : list string :=
  [name] ++ omap (fun k => get_str k b) ["name"; "uuid"] ++ omap as_str (default [] (get_array "aliases" b)).

(** [num_blocks.zip(block_size).map(saturating_mul)]. *)
Definition row_bytes (b : Value) : option Z :=
  nb ← get_u64 "num_blocks" b; bs ← get_u64 "block_size" b; Some (Z.min (nb * bs) u64_max).

Section Probe.
Context (probe : Value -> result string Value).

Definition bdev_identity_and_bytes (name : string) : result string (option (list string * option Z)) :=
  match probe (rpc_call "bdev_get_bdevs" [("name", Str name)]) with
  | Ok resp =>
      match result_array resp with
      | [] => Ok None
      | b :: _ => Ok (Some (row_forms name b, row_bytes b))
      end
  | Err e => if probe_error_is_missing e then Ok None else Err e
  end.

Definition bdev_identity_forms (name : string) : result string (option (list string)) :=
  match probe (rpc_call "bdev_get_bdevs" [("name", Str name)]) with
  | Ok resp =>
      match result_array resp with
      | [] => Ok None
      | b :: _ => Ok (Some (row_forms name b))
      end
  | Err e => if probe_error_is_missing e then Ok None else Err e
  end.

(** Some field of the row named in [ks] is one of the forms. *)
Definition names_form (ks forms : list string) (row : Value) : bool :=
  existsb (fun k => match get_str k row with Some s => mem s forms | None => false end) ks.

Definition raids_consuming (forms : list string) : result string (list string) :=
  resp ← probe (rpc_call "bdev_raid_get_bdevs" [("category", Str "all")]);
  Ok (omap (fun raid =>
    let hit := match get_array "base_bdevs_list" raid with
               | Some bs => existsb (names_form ["name"; "uuid"] forms) bs
               | None => false
               end in
    if hit then get_str "name" raid else None) (result_array resp)).

(** One subsystem of [exports_with_live_controllers]: an error aborts the
    scan, a missing subsystem has no controllers. *)
Definition live_export (forms : list string) (sub : Value) : result string (option string) :=
  match get_str "nqn" sub with
  | None => Ok None
  | Some nqn =>
      let matches := match get_array "namespaces" sub with
                     | Some nss => existsb (names_form ["bdev_name"; "uuid"; "name"] forms) nss
                     | None => false
                     end in
      if negb matches then Ok None
      else match probe (rpc_call "nvmf_subsystem_get_controllers" [("nqn", Str nqn)]) with
      | Ok resp => Ok (match result_array resp with [] => None | _ => Some nqn end)
      | Err e => if probe_error_is_missing e then Ok None else Err e
      end
  end.

Definition exports_with_live_controllers (forms : list string) : result string (list string) :=
  subs ← probe (rpc_call0 "nvmf_get_subsystems");
  foldM (fun out sub => r ← live_export forms sub; Ok (match r with Some nqn => out ++ [nqn] | None => out end)%list)
    [] (result_array subs).

Definition subsystem_consumers (nqn : string) : result string (option (list string * list string * bool)) :=
  subs ← probe (rpc_call0 "nvmf_get_subsystems");
  match find_first (fun s => bool_decide (get_str "nqn" s = Some nqn)) (result_array subs) with
  | None => Ok None
  | Some sub =>
      let allowed := omap (get_str "nqn") (default [] (get_array "hosts" sub)) in
      let any_host := default false (get "allow_any_host" sub ≫= as_bool) in
      match probe (rpc_call "nvmf_subsystem_get_controllers" [("nqn", Str nqn)]) with
      | Ok resp => Ok (Some (omap (get_str "hostnqn") (result_array resp), allowed, any_host))
      | Err e => if probe_error_is_missing e then Ok (Some ([], allowed, any_host)) else Err e
      end
  end.

Definition disk_id (d : Value) : option Z :=
  match get "id" d with Some i => as_u64 i | None => get "ublk_id" d ≫= as_u64 end.

Definition ublk_consumer_of (forms : list string) : result string (option Z) :=
  resp ← probe (rpc_call0 "ublk_get_disks");
  Ok (match find_first (fun d => mem (default "" (get_str "bdev_name" d)) forms) (result_array resp) with
      | Some d => Some (default 0%Z (disk_id d))
      | None => None
      end).
End Probe.

(** ** The driver's pre-assembly converger *)
Definition stale_own_ublk_disks (disks : list Value) (expected_ids : list Z) (raid_name : string) : list (Z * string) :=
  omap (fun d =>
    id ← disk_id d; bdev ← get_str "bdev_name" d;
    if existsb (Z.eqb id) expected_ids && negb (String.eqb bdev raid_name) then Some (id, bdev) else None) disks.

(** ** Construction *)
Definition construction_over_ublk_verdict (method bdev : string) (ublk_consumer : option Z) : Verdict :=
  match ublk_consumer with
  | Some id => Refuse ("guarded_construct: refusing " ++ method ++ " over " ++ bdev ++ " — ublk disk " ++ show_u64 id ++
      " is live on this bdev right now; a second writer would corrupt silently (F43 doc §6.4). Stop the stale ublk disk first")
  | None => Allow
  end.

Definition size_detail (sized : list (string * Z)) : string :=
  String.concat ", " ((fun p => p.1 ++ "=" ++ show_u64 p.2 ++ "B") <$> sized).

(** The sizes, sorted and deduplicated, are at most one. *)
Definition one_size (sized : list (string * Z)) : bool :=
  match sized with [] => true | p :: ps => forallb (fun q => Z.eqb q.2 p.2) ps end.

Definition raid_create_size_verdict (sized : list (string * Z)) : Verdict :=
  if one_size sized then Allow
  else Refuse ("guarded_construct: refusing bdev_raid_create — base bdevs disagree in size (" ++ size_detail sized ++
      "); SPDK would assemble at the minimum with no error, silently shrinking the device " ++
      "under its filesystem (F43 doc item #8). Exclude or repair the divergent leg first").

Definition raid_add_size_verdict (base : string) (base_bytes : Z) (raid : string) (raid_bytes : Z) : Verdict :=
  if (base_bytes <? raid_bytes)%Z then
    Refuse ("guarded_construct: refusing bdev_raid_add_base_bdev — leg " ++ base ++ " is " ++ show_u64 base_bytes ++
      "B but raid " ++ raid ++ " is " ++ show_u64 raid_bytes ++ "B; a short leg can never join and would park the standby " ++
      "with an opaque EINVAL (F43 doc item #8). Rebuild the leg at full size first")
  else Allow.

Section Boundary.
Context (probe : Value -> result string Value).

Definition identity_defer (what name e : string) : Verdict :=
  Defer ("guarded_construct: " ++ what ++ " inconclusive for " ++ name ++ ": " ++ e ++ " — failing closed").

(** The ublk half for one bdev: its verdict when it blocks. *)
Definition ublk_block (method what bdev : string) (forms : list string) : option Verdict :=
  match ublk_consumer_of probe forms with
  | Ok (Some id) => Some (construction_over_ublk_verdict method bdev (Some id))
  | Ok None => None
  | Err e => if str_contains "Method not found" e then None else Some (identity_defer "ublk probe" what e)
  end.

(** The bases of a create, in order: a blocking verdict, or the sized ones. *)
Fixpoint scan_bases (bases : list string) : Verdict + list (string * Z) :=
  match bases with
  | [] => inr []
  | base :: rest =>
      match bdev_identity_and_bytes probe base with
      | Err e => inl (identity_defer "identity probe" ("base " ++ base) e)
      | Ok None => scan_bases rest
      | Ok (Some (forms, bytes)) =>
          match ublk_block RPC_BDEV_RAID_CREATE ("base " ++ base) base forms with
          | Some v => inl v
          | None =>
              match scan_bases rest with
              | inl v => inl v
              | inr sized => inr (match bytes with Some b => (base, b) :: sized | None => sized end)
              end
          end
      end
  end.

Definition construction_boundary_verdict_gated (method : string) (params : Value) (construction_on size_on : bool)
    : option Verdict :=
  if negb construction_on then None
  else if String.eqb method RPC_BDEV_RAID_CREATE then
    arr ← get_array "base_bdevs" params;
    Some (match scan_bases (omap as_str arr) with
          | inl v => v
          | inr sized => if negb size_on then Allow else raid_create_size_verdict sized
          end)
  else if String.eqb method RPC_BDEV_RAID_ADD_BASE_BDEV then
    base ← get_str "base_bdev" params; raid ← get_str "raid_bdev" params;
    Some (match bdev_identity_and_bytes probe base with
          | Err e => identity_defer "identity probe" ("base " ++ base) e
          | Ok None => Allow
          | Ok (Some (forms, base_bytes)) =>
              match ublk_block method ("base " ++ base) base forms with
              | Some v => v
              | None =>
                  if negb size_on then Allow
                  else match bdev_identity_and_bytes probe raid with
                  | Err e => identity_defer "raid size probe" raid e
                  | Ok o =>
                      match base_bytes, o ≫= snd with
                      | Some b, Some r => raid_add_size_verdict base b raid r
                      | _, _ => Allow
                      end
                  end
              end
          end)
  else if String.eqb method RPC_NVMF_SUBSYSTEM_ADD_NS then
    bdev ← get "namespace" params ≫= get_str "bdev_name";
    Some (match bdev_identity_and_bytes probe bdev with
          | Err e => identity_defer "identity probe" bdev e
          | Ok None => Allow
          | Ok (Some (forms, _)) => default Allow (ublk_block method bdev bdev forms)
          end)
  else None.

(** [ctx.va]: (owner node, lookup errored) of the volume behind the NQN. *)
Record BoundaryContext := Ctx {
  own_host_nqn : string; self_node : string; ctx_va : option (option string * bool)
}.

Definition destroy_defer (what name e tail : string) : Verdict :=
  Defer ("guarded_destroy: " ++ what ++ " probe inconclusive for " ++ name ++ ": " ++ e ++ tail).

Definition raid_base_names (resp : Value) : list string :=
  concat ((fun raid => omap (get_str "name") (default [] (get_array "base_bdevs_list" raid))) <$> result_array resp).

Definition raids_answer : result string Value := probe (rpc_call "bdev_raid_get_bdevs" [("category", Str "all")]).

Definition boundary_verdict (method : string) (params : Value) (ctx : BoundaryContext) : option Verdict :=
  if String.eqb method RPC_NVMF_DELETE_SUBSYSTEM then
    nqn ← get_str "nqn" params;
    if is_operation_scoped nqn then None
    else Some (match subsystem_consumers probe nqn with
    | Ok (Some (live, allowed, any_host)) =>
        let '(va_owner, va_errored) := default (None, false) (ctx_va ctx) in
        subsystem_delete_verdict live allowed any_host (own_host_nqn ctx) va_owner va_errored (self_node ctx)
    | Ok None => AllowIdempotentNoop
    | Err e => if probe_error_is_missing e then AllowIdempotentNoop else destroy_defer "consumer" nqn e " — failing closed"
    end)
  else if String.eqb method RPC_BDEV_LVOL_DELETE then
    name ← get_str "name" params;
    if is_operation_scoped name then None
    else Some (match bdev_identity_forms probe name with
    | Ok None => AllowIdempotentNoop
    | Err e => destroy_defer "identity" name e " — failing closed"
    | Ok (Some forms) =>
        match raids_consuming probe forms with
        | Err e => destroy_defer "raid-consumption" name e ""
        | Ok raids =>
            match exports_with_live_controllers probe forms with
            | Err e => destroy_defer "export-consumption" name e ""
            | Ok exports => lvol_delete_verdict raids exports
            end
        end
    end)
  else if String.eqb method RPC_BDEV_RAID_DELETE then
    name ← get_str "name" params;
    let forms := [name] in
    let present := match raids_answer with
      | Ok resp => Ok (existsb (fun r => bool_decide (get_str "name" r = Some name)) (result_array resp))
      | Err e => if probe_error_is_missing e then Ok false else Err e
      end in
    Some (match present with
    | Err e => destroy_defer "raid presence" name e ""
    | Ok false => AllowIdempotentNoop
    | Ok true =>
        let ublk := match ublk_consumer_of probe forms with
          | Err e => if str_contains "Method not found" e then Ok None else Err e
          | Ok u => Ok u
          end in
        match ublk with
        | Err e => destroy_defer "ublk-consumption" name e ""
        | Ok ublk =>
            match exports_with_live_controllers probe forms with
            | Err e => destroy_defer "export-consumption" name e ""
            | Ok exports => raid_delete_verdict true ublk exports
            end
        end
    end)
  else if String.eqb method RPC_BDEV_NVME_DETACH_CONTROLLER then
    name ← get_str "name" params;
    if is_operation_scoped name then None
    else Some (match raids_answer with
    | Err e => if probe_error_is_missing e then Allow else destroy_defer "raid-base" name e ""
    | Ok resp => detach_controller_verdict name (raid_base_names resp)
    end)
  else None.
End Boundary.

(** ** The target *)
Record Bdev := MkBdev { b_name : string; b_uuid : string; b_aliases : list string; b_blocks : Z; b_block_size : Z }.
Record Base := MkBase { base_name : option string; base_uuid : string }.
Record Raid := MkRaid { r_name : string; r_bases : list Base }.
Record Namespace := MkNs { ns_bdev : string; ns_uuid : string }.
Record Subsystem := MkSub {
  sub_nqn : string; sub_any_host : bool; sub_hosts : list string; sub_ns : list Namespace; sub_hosts_live : list string
}.
Record Disk := MkDisk { d_id : Z; d_bdev : string }.
Record Target := MkTarget {
  t_bdevs : list Bdev; t_raids : list Raid; t_subs : list Subsystem; t_disks : list Disk
}.

Definition identities (b : Bdev) : list string := b_name b :: b_uuid b :: b_aliases b.
Definition find_bdev (T : Target) (n : string) : option Bdev :=
  find_first (fun b => bool_decide (n ∈ identities b)) (t_bdevs T).
Definition bdev_bytes (b : Bdev) : Z := Z.min (b_blocks b * b_block_size b) u64_max.

(** ** Its answers *)
Definition opt_str (o : option string) : Value := match o with Some s => Str s | None => Null end.
Definition bdev_row (b : Bdev) : Value :=
  Obj [("name", Str (b_name b)); ("aliases", Arr (Str <$> b_aliases b)); ("uuid", Str (b_uuid b));
       ("num_blocks", PosInt (b_blocks b)); ("block_size", PosInt (b_block_size b))].
Definition base_row (b : Base) : Value := Obj [("name", opt_str (base_name b)); ("uuid", Str (base_uuid b))].
Definition raid_row (r : Raid) : Value :=
  Obj [("name", Str (r_name r)); ("base_bdevs_list", Arr (base_row <$> r_bases r))].
Definition ns_row (n : Namespace) : Value := Obj [("bdev_name", Str (ns_bdev n)); ("name", Str (ns_bdev n)); ("uuid", Str (ns_uuid n))].
Definition sub_row (s : Subsystem) : Value :=
  Obj [("nqn", Str (sub_nqn s)); ("allow_any_host", JBool (sub_any_host s));
       ("hosts", Arr ((fun h => Obj [("nqn", Str h)]) <$> sub_hosts s)); ("namespaces", Arr (ns_row <$> sub_ns s))].
Definition controller_row (h : string) : Value := Obj [("hostnqn", Str h)].
Definition disk_row (d : Disk) : Value := Obj [("id", PosInt (d_id d)); ("bdev_name", Str (d_bdev d))].
Definition rows (l : list Value) : Value := Obj [("result", Arr l)].

Class Answers (probe : Value -> result string Value) (T : Target) : Prop := {
  ans_bdev n : match find_bdev T n with
    | Some b => probe (rpc_call "bdev_get_bdevs" [("name", Str n)]) = Ok (rows [bdev_row b])
    | None => exists e, probe (rpc_call "bdev_get_bdevs" [("name", Str n)]) = Err e /\ probe_error_is_missing e = true
    end;
  ans_raids : probe (rpc_call "bdev_raid_get_bdevs" [("category", Str "all")]) = Ok (rows (raid_row <$> t_raids T));
  ans_subs : probe (rpc_call0 "nvmf_get_subsystems") = Ok (rows (sub_row <$> t_subs T));
  ans_live s : s ∈ t_subs T ->
    probe (rpc_call "nvmf_subsystem_get_controllers" [("nqn", Str (sub_nqn s))]) = Ok (rows (controller_row <$> sub_hosts_live s));
  ans_disks : probe (rpc_call0 "ublk_get_disks") = Ok (rows (disk_row <$> t_disks T))
}.

(** A target that answers so: the method and its parameter select the rows. *)
Definition spdk_answers (T : Target) (req : Value) : result string Value :=
  let method := default "" (get_str "method" req) in
  let param k := default "" (get "params" req ≫= get_str k) in
  if String.eqb method "bdev_get_bdevs" then
    match find_bdev T (param "name") with
    | Some b => Ok (rows [bdev_row b])
    | None => Err "SPDK RPC error: Code=-19 Msg=No such device"
    end
  else if String.eqb method "bdev_raid_get_bdevs" then Ok (rows (raid_row <$> t_raids T))
  else if String.eqb method "nvmf_get_subsystems" then Ok (rows (sub_row <$> t_subs T))
  else if String.eqb method "nvmf_subsystem_get_controllers" then
    match find_first (fun s => String.eqb (sub_nqn s) (param "nqn")) (t_subs T) with
    | Some s => Ok (rows (controller_row <$> sub_hosts_live s))
    | None => Err "SPDK RPC error: Code=-19 Msg=No such device"
    end
  else if String.eqb method "ublk_get_disks" then Ok (rows (disk_row <$> t_disks T))
  else Err "SPDK RPC error: Code=-32601 Msg=Method not found".

Lemma find_first_unique {A B} `{EqDecision B} (f : A -> B) l x : NoDup (f <$> l) -> x ∈ l ->
  find_first (fun y => bool_decide (f y = f x)) l = Some x.
Proof.
  intros Hn Hx. induction l as [|y l IH]; [by apply elem_of_nil in Hx|]. simpl. apply NoDup_cons in Hn as [Hy Hn].
  case_bool_decide as He.
  - apply elem_of_cons in Hx as [->|Hx]; [done|]. destruct Hy. rewrite He. by apply list_elem_of_fmap_2.
  - apply elem_of_cons in Hx as [->|Hx]; [done|]. by apply IH.
Qed.

#[export] Instance spdk_answers_Answers T : NoDup (sub_nqn <$> t_subs T) -> Answers (spdk_answers T) T.
Proof.
  intros Hn. split; try done.
  - intros n. unfold spdk_answers. cbn. change (default "" (Some n)) with n. destruct (find_bdev T n); [done|]. eauto.
  - intros s Hs. unfold spdk_answers. cbn.
    assert (find_first (fun s0 => String.eqb (sub_nqn s0) (sub_nqn s)) (t_subs T) = Some s) as ->; [|done].
    rewrite <- (find_first_unique sub_nqn (t_subs T) s Hn Hs). clear.
    induction (t_subs T) as [|y l IH]; [done|]. simpl. rewrite IH.
    destruct (String.eqb_spec (sub_nqn y) (sub_nqn s)); [by rewrite bool_decide_eq_true_2|by rewrite bool_decide_eq_false_2].
Qed.

(** ** What the queries say of it *)
Section Exact.
Context (probe : Value -> result string Value) (T : Target) `{HA : !Answers probe T}.

Lemma mem_spec x l : mem x l = bool_decide (x ∈ l).
Proof.
  induction l as [|y l IH]; [done|]. simpl. rewrite IH. destruct (String.eqb_spec x y) as [->|Hne]; simpl.
  - symmetry. apply bool_decide_eq_true_2. by left.
  - apply bool_decide_ext. rewrite elem_of_cons. naive_solver.
Qed.

Lemma existsb_fmap {A B} (f : A -> B) (p : B -> bool) l : existsb p (f <$> l) = existsb (fun x => p (f x)) l.
Proof. induction l as [|x l IH]; [done|]. rewrite fmap_cons. cbn [existsb]. by rewrite IH. Qed.
Lemma existsb_decide {A} (P : A -> Prop) `{forall x, Decision (P x)} l :
  existsb (fun x => bool_decide (P x)) l = bool_decide (Exists P l).
Proof.
  induction l as [|x l IH]; [done|]. cbn [existsb].
  rewrite IH. destruct (decide (P x)) as [HP|HP].
  - rewrite bool_decide_eq_true_2 by done. simpl. symmetry. apply bool_decide_eq_true_2. by left.
  - rewrite bool_decide_eq_false_2 by done. simpl. apply bool_decide_ext. rewrite Exists_cons. naive_solver.
Qed.

Lemma omap_fmap_id {A B} (f : A -> B) (g : B -> option A) (l : list A) : (forall x, g (f x) = Some x) -> omap g (f <$> l) = l.
Proof. intros Hg. induction l as [|x l IH]; [done|]. rewrite fmap_cons. simpl. rewrite Hg. by f_equal. Qed.

Lemma row_forms_bdev n b : n ∈ identities b -> forall x, x ∈ row_forms n (bdev_row b) <-> x ∈ identities b.
Proof.
  intros Hn x. unfold row_forms, identities in *. cbn.
  assert (omap as_str (Str <$> b_aliases b) = b_aliases b) as ->.
  { by apply omap_fmap_id. }
  set_solver.
Qed.
Lemma row_bytes_bdev b : row_bytes (bdev_row b) = Some (bdev_bytes b).
Proof. done. Qed.

Lemma find_bdev_Some n b : find_bdev T n = Some b -> b ∈ t_bdevs T /\ n ∈ identities b.
Proof. intros [Hb Hn]%find_first_Some. by apply bool_decide_eq_true in Hn. Qed.

Lemma identity_answer n :
  match find_bdev T n with
  | Some b => exists forms, (forall x, x ∈ forms <-> x ∈ identities b) /\
      bdev_identity_and_bytes probe n = Ok (Some (forms, Some (bdev_bytes b))) /\
      bdev_identity_forms probe n = Ok (Some forms)
  | None => bdev_identity_and_bytes probe n = Ok None /\ bdev_identity_forms probe n = Ok None
  end.
Proof.
  pose proof (ans_bdev n) as Ha. unfold bdev_identity_and_bytes, bdev_identity_forms.
  destruct (find_bdev T n) as [b|] eqn:Hb.
  - rewrite Ha. apply find_bdev_Some in Hb as [_ Hn]. exists (row_forms n (bdev_row b)).
    split; [by apply row_forms_bdev|done].
  - destruct Ha as (e & -> & ->). done.
Qed.

(** A raid that has one of the forms as a base. *)
Definition base_in (forms : list string) (b : Base) : Prop :=
  base_uuid b ∈ forms \/ exists n, base_name b = Some n /\ n ∈ forms.
#[global] Instance base_in_dec forms b : Decision (base_in forms b).
Proof.
  destruct (decide (base_uuid b ∈ forms)); [left; by left|].
  destruct (base_name b) as [x|] eqn:Hn; [|right; unfold base_in; naive_solver].
  destruct (decide (x ∈ forms)); [left; right; eauto|right; unfold base_in; naive_solver].
Defined.
Definition raid_uses (forms : list string) (r : Raid) : Prop := Exists (base_in forms) (r_bases r).
(** An export of one of the forms with a connected host. *)
Definition ns_in (forms : list string) (n : Namespace) : Prop := ns_bdev n ∈ forms \/ ns_uuid n ∈ forms.
Definition live_over (forms : list string) (s : Subsystem) : Prop :=
  Exists (ns_in forms) (sub_ns s) /\ sub_hosts_live s <> [].

Lemma base_row_names forms b : names_form ["name"; "uuid"] forms (base_row b) = bool_decide (base_in forms b).
Proof.
  apply Bool.eq_iff_eq_true. rewrite bool_decide_eq_true. unfold names_form, base_row, base_in. cbn.
  rewrite orb_false_r, !mem_spec, orb_true_iff, bool_decide_eq_true.
  destruct (base_name b) as [x|]; simpl; [rewrite mem_spec, bool_decide_eq_true|]; naive_solver.
Qed.

Lemma raid_row_hit forms r :
  match get_array "base_bdevs_list" (raid_row r) with
  | Some bs => existsb (names_form ["name"; "uuid"] forms) bs
  | None => false
  end = bool_decide (raid_uses forms r).
Proof.
  change (get_array "base_bdevs_list" (raid_row r)) with (Some (base_row <$> r_bases r)). cbn iota.
  rewrite existsb_fmap. unfold raid_uses. rewrite <- existsb_decide.
  induction (r_bases r) as [|b l IH]; [done|]. cbn [existsb]. by rewrite IH, base_row_names.
Qed.

Lemma raids_consuming_answer forms :
  raids_consuming probe forms = Ok (r_name <$> filter (raid_uses forms) (t_raids T)).
Proof.
  unfold raids_consuming. rewrite ans_raids. cbn [mbind result_bind]. f_equal.
  change (result_array (rows ?l)) with l. induction (t_raids T) as [|r l IH]; [done|].
  rewrite fmap_cons. cbn [omap list_omap]. rewrite IH, raid_row_hit, filter_cons.
  case_bool_decide; case_decide; done.
Qed.

Lemma ns_row_names forms n : names_form ["bdev_name"; "uuid"; "name"] forms (ns_row n) = bool_decide (ns_in forms n).
Proof.
  unfold names_form, ns_row. cbn. rewrite !mem_spec. unfold ns_in.
  repeat case_bool_decide; naive_solver.
Qed.

Lemma sub_row_hit forms s :
  match get_array "namespaces" (sub_row s) with
  | Some nss => existsb (names_form ["bdev_name"; "uuid"; "name"] forms) nss
  | None => false
  end = bool_decide (Exists (ns_in forms) (sub_ns s)).
Proof.
  change (get_array "namespaces" (sub_row s)) with (Some (ns_row <$> sub_ns s)). cbn iota.
  rewrite existsb_fmap, <- existsb_decide.
  induction (sub_ns s) as [|b l IH]; [done|]. cbn [existsb]. by rewrite IH, ns_row_names.
Qed.

Lemma live_export_answer forms s : s ∈ t_subs T ->
  live_export probe forms (sub_row s) = Ok (if bool_decide (live_over forms s) then Some (sub_nqn s) else None).
Proof.
  intros Hs. unfold live_export. change (get_str "nqn" (sub_row s)) with (Some (sub_nqn s)). cbn iota zeta.
  rewrite sub_row_hit. unfold live_over. case_bool_decide as Hx; cbn [negb].
  - rewrite (ans_live s Hs). change (result_array (rows ?l)) with l.
    destruct (sub_hosts_live s) as [|h l]; cbn.
    + rewrite bool_decide_eq_false_2; [done|]. naive_solver.
    + rewrite bool_decide_eq_true_2; done.
  - rewrite bool_decide_eq_false_2; naive_solver.
Qed.

Lemma exports_answer forms :
  exports_with_live_controllers probe forms = Ok (sub_nqn <$> filter (live_over forms) (t_subs T)).
Proof.
  unfold exports_with_live_controllers. rewrite ans_subs. cbn [mbind result_bind].
  change (result_array (rows ?l)) with l.
  assert (forall l out, (forall s, s ∈ l -> s ∈ t_subs T) ->
    foldM (fun out sub => r ← live_export probe forms sub; Ok (match r with Some nqn => out ++ [nqn] | None => out end)%list)
      out (sub_row <$> l) = Ok (out ++ (sub_nqn <$> filter (live_over forms) l))%list) as H; [|by apply (H _ [])].
  induction l as [|s l IH]; intros out Hl; [by rewrite app_nil_r|].
  rewrite fmap_cons. cbn [foldM]. rewrite live_export_answer by (apply Hl; by left). cbn [mbind result_bind].
  rewrite IH by (intros; apply Hl; by right). rewrite filter_cons.
  case_bool_decide; case_decide; try done. by rewrite fmap_cons, <- app_assoc.
Qed.

Lemma ublk_answer forms : ublk_consumer_of probe forms =
  Ok (d_id <$> find_first (fun d => bool_decide (d_bdev d ∈ forms)) (t_disks T)).
Proof.
  unfold ublk_consumer_of. rewrite ans_disks. cbn [mbind result_bind]. f_equal. change (result_array (rows ?l)) with l.
  induction (t_disks T) as [|d l IH]; [done|]. rewrite fmap_cons. cbn [find_first].
  change (default "" (get_str "bdev_name" (disk_row d))) with (d_bdev d). rewrite mem_spec.
  case_bool_decide; [done|]. exact IH.
Qed.

Lemma consumers_answer nqn : NoDup (sub_nqn <$> t_subs T) ->
  subsystem_consumers probe nqn =
  Ok ((fun s => (sub_hosts_live s, sub_hosts s, sub_any_host s)) <$>
      find_first (fun s => bool_decide (sub_nqn s = nqn)) (t_subs T)).
Proof.
  intros Hn. unfold subsystem_consumers. rewrite ans_subs. cbn [mbind result_bind]. change (result_array (rows ?l)) with l.
  assert (find_first (fun s => bool_decide (get_str "nqn" s = Some nqn)) (sub_row <$> t_subs T) =
          sub_row <$> find_first (fun s => bool_decide (sub_nqn s = nqn)) (t_subs T)) as ->.
  { clear Hn HA. induction (t_subs T) as [|s l IH]; [done|]. rewrite fmap_cons. cbn [find_first].
    change (get_str "nqn" (sub_row s)) with (Some (sub_nqn s)). repeat case_bool_decide; naive_solver. }
  destruct (find_first _ (t_subs T)) as [s|] eqn:Hs; [|done]. cbn [fmap option_fmap option_map].
  apply find_first_Some in Hs as [Hin Hq]. apply bool_decide_eq_true in Hq as <-.
  rewrite (ans_live s Hin). change (result_array (rows ?l)) with l.
  assert (omap (get_str "hostnqn") (controller_row <$> sub_hosts_live s) = sub_hosts_live s) as ->.
  { by apply omap_fmap_id. }
  change (get_array "hosts" (sub_row s)) with (Some ((fun h => Obj [("nqn", Str h)]) <$> sub_hosts s)).
  cbn [default from_option id].
  assert (omap (get_str "nqn") ((fun h => Obj [("nqn", Str h)]) <$> sub_hosts s) = sub_hosts s) as ->; [|done].
  by apply omap_fmap_id.
Qed.

(** ** Destruction, exactly *)

(** Splits an equivalence whose sides are equations with [None]. *)
Ltac solve_blocked :=
  cbn [blocked negb lvol_delete_verdict raid_delete_verdict destroy_defer]; split; intros; destruct_and?;
  first [done | split_and!; done | congruence].

Lemma raid_uses_ext f g r : (forall x, x ∈ f <-> x ∈ g) -> raid_uses f r <-> raid_uses g r.
Proof. intros H. unfold raid_uses. rewrite !Exists_exists. unfold base_in. setoid_rewrite H. done. Qed.
Lemma live_over_ext f g s : (forall x, x ∈ f <-> x ∈ g) -> live_over f s <-> live_over g s.
Proof. intros H. unfold live_over. rewrite !Exists_exists. unfold ns_in. setoid_rewrite H. done. Qed.

Definition lvol_free (n : string) : Prop :=
  forall b, find_bdev T n = Some b ->
    (forall r, r ∈ t_raids T -> ~ raid_uses (identities b) r) /\
    (forall s, s ∈ t_subs T -> ~ live_over (identities b) s).
Definition raid_free (n : string) : Prop :=
  n ∈ r_name <$> t_raids T ->
    (forall d, d ∈ t_disks T -> d_bdev d <> n) /\ (forall s, s ∈ t_subs T -> ~ live_over [n] s).
Definition subsystem_free (ctx : BoundaryContext) (nqn : string) : Prop :=
  forall s, s ∈ t_subs T -> sub_nqn s = nqn ->
    own_host_nqn ctx ∉ sub_hosts_live s /\
    (forall h, h ∈ sub_hosts_live s -> sub_any_host s = false /\ h ∉ sub_hosts s) /\
    match ctx_va ctx with
    | Some (_, true) => False
    | Some (Some owner, false) => owner = self_node ctx
    | _ => True
    end.
Definition detach_free (c : string) : Prop :=
  forall r b, r ∈ t_raids T -> b ∈ r_bases r -> base_name b <> Some c /\ base_name b <> Some (c ++ "n1").

Lemma filter_nil_spec {A} (P : A -> Prop) `{forall x, Decision (P x)} l : filter P l = [] <-> forall x, x ∈ l -> ~ P x.
Proof.
  split.
  - intros Hf x Hx HP. assert (x ∈ filter P l) as Hin by (by apply list_elem_of_filter). rewrite Hf in Hin.
    by apply elem_of_nil in Hin.
  - intros Hn. induction l as [|x l IH]; [done|]. rewrite filter_cons, decide_False by (apply Hn; by left).
    apply IH. intros y Hy. apply Hn. by right.
Qed.

Lemma lvol_exact params n ctx : get_str "name" params = Some n -> is_operation_scoped n = false ->
  exists v, boundary_verdict probe RPC_BDEV_LVOL_DELETE params ctx = Some v /\ (blocked v = None <-> lvol_free n).
Proof.
  intros Hp Hs. unfold boundary_verdict. cbn. rewrite Hp. cbn. rewrite Hs. eexists. split; [done|].
  pose proof (identity_answer n) as Hi. unfold lvol_free. destruct (find_bdev T n) as [b|].
  - destruct Hi as (forms & Hf & _ & ->). rewrite raids_consuming_answer, exports_answer.
    assert (filter (raid_uses forms) (t_raids T) = [] <-> forall r, r ∈ t_raids T -> ~ raid_uses (identities b) r) as Hr.
    { rewrite filter_nil_spec. by setoid_rewrite (raid_uses_ext forms (identities b) _ Hf). }
    assert (filter (live_over forms) (t_subs T) = [] <-> forall s, s ∈ t_subs T -> ~ live_over (identities b) s) as Hl.
    { rewrite filter_nil_spec. by setoid_rewrite (live_over_ext forms (identities b) _ Hf). }
    transitivity (filter (raid_uses forms) (t_raids T) = [] /\ filter (live_over forms) (t_subs T) = []).
    + destruct (filter (raid_uses forms) _), (filter (live_over forms) _); solve_blocked.
    + rewrite Hr, Hl. naive_solver.
  - destruct Hi as [_ ->]. cbn. naive_solver.
Qed.

Lemma raid_exact params n ctx : get_str "name" params = Some n ->
  exists v, boundary_verdict probe RPC_BDEV_RAID_DELETE params ctx = Some v /\ (blocked v = None <-> raid_free n).
Proof.
  intros Hp. unfold boundary_verdict. cbn. rewrite Hp. cbn. eexists. split; [done|].
  unfold raids_answer. rewrite ans_raids, ublk_answer, exports_answer. change (result_array (rows ?l)) with l.
  assert (existsb (fun r => bool_decide (get_str "name" r = Some n)) (raid_row <$> t_raids T) =
          bool_decide (n ∈ r_name <$> t_raids T)) as ->.
  { clear. induction (t_raids T) as [|r l IH]; [done|]. rewrite !fmap_cons. cbn [existsb]. rewrite IH.
    change (get_str "name" (raid_row r)) with (Some (r_name r)).
    repeat case_bool_decide; set_solver. }
  unfold raid_free. case_bool_decide as Hin; [|solve_blocked].
  assert (find_first (fun d => bool_decide (d_bdev d ∈ [n])) (t_disks T) = None <-> forall d, d ∈ t_disks T -> d_bdev d <> n) as Hd.
  { rewrite find_first_None. setoid_rewrite bool_decide_eq_false. set_solver. }
  assert (filter (live_over [n]) (t_subs T) = [] <-> forall s, s ∈ t_subs T -> ~ live_over [n] s) as Hl by apply filter_nil_spec.
  transitivity (find_first (fun d => bool_decide (d_bdev d ∈ [n])) (t_disks T) = None /\ filter (live_over [n]) (t_subs T) = []).
  - destruct (find_first _ _), (filter (live_over [n]) _); solve_blocked.
  - rewrite Hd, Hl. naive_solver.
Qed.

Lemma subsystem_exact params n ctx : NoDup (sub_nqn <$> t_subs T) ->
  get_str "nqn" params = Some n -> is_operation_scoped n = false ->
  exists v, boundary_verdict probe RPC_NVMF_DELETE_SUBSYSTEM params ctx = Some v /\ (blocked v = None <-> subsystem_free ctx n).
Proof.
  intros Hnd Hp Hs. unfold boundary_verdict. cbn. rewrite Hp. cbn. rewrite Hs. eexists. split; [done|].
  rewrite consumers_answer by done. unfold subsystem_free.
  destruct (find_first _ (t_subs T)) as [s|] eqn:Hf; cbn [fmap option_fmap option_map].
  2:{ rewrite find_first_None in Hf. cbn. split; [|done]. intros _ s Hin Hq. specialize (Hf s Hin).
      by rewrite bool_decide_eq_false in Hf. }
  apply find_first_Some in Hf as [Hin Hq]. apply bool_decide_eq_true in Hq.
  transitivity (own_host_nqn ctx ∉ sub_hosts_live s /\
    (forall h, h ∈ sub_hosts_live s -> sub_any_host s = false /\ h ∉ sub_hosts s) /\
    match ctx_va ctx with Some (_, true) => False | Some (Some owner, false) => owner = self_node ctx | _ => True end).
  2:{ split; [|intros H; by apply H]. intros H s' Hin' Hq'. assert (s' = s) as ->; [|done].
      pose proof (find_first_unique sub_nqn _ _ Hnd Hin) as H1. pose proof (find_first_unique sub_nqn _ _ Hnd Hin') as H2.
      rewrite Hq in H1. rewrite Hq' in H2. congruence. }
  unfold subsystem_delete_verdict.
  assert (find_first (fun h => String.eqb h (own_host_nqn ctx)) (sub_hosts_live s) = None <-> own_host_nqn ctx ∉ sub_hosts_live s) as H1.
  { rewrite find_first_None. setoid_rewrite String.eqb_neq. naive_solver. }
  assert (find_first (fun h => sub_any_host s || mem h (sub_hosts s)) (sub_hosts_live s) = None <->
    forall h, h ∈ sub_hosts_live s -> sub_any_host s = false /\ h ∉ sub_hosts s) as H2.
  { rewrite find_first_None. setoid_rewrite orb_false_iff. setoid_rewrite mem_spec. setoid_rewrite bool_decide_eq_false. done. }
  rewrite <- H1, <- H2.
  destruct (find_first (fun h => String.eqb h _) _), (find_first (fun h => _ || _) _), (ctx_va ctx) as [[[o|] []]|];
    cbn [default from_option id]; try solve_blocked.
  destruct (String.eqb_spec o (self_node ctx)); solve_blocked.
Qed.

Lemma base_names_spec x : x ∈ raid_base_names (rows (raid_row <$> t_raids T)) <->
  exists r b, r ∈ t_raids T /\ b ∈ r_bases r /\ base_name b = Some x.
Proof.
  unfold raid_base_names. change (result_array (rows ?l)) with l.
  clear. induction (t_raids T) as [|r l IH]; [set_solver|]. rewrite !fmap_cons. cbn [concat].
  rewrite elem_of_app, IH.
  change (get_array "base_bdevs_list" (raid_row r)) with (Some (base_row <$> r_bases r)). cbn [default from_option id].
  rewrite list_elem_of_omap. setoid_rewrite list_elem_of_fmap. split.
  - intros [(v & (b & -> & Hb) & Hn)|(r' & b & ? & ? & ?)]; [|exists r', b; set_solver].
    exists r, b. split_and!; [by left|done|]. cbn in Hn. by destruct (base_name b).
  - intros (r' & b & [->|Hr]%elem_of_cons & Hb & Hn); [left|right; eauto].
    exists (base_row b). split; [eauto|]. cbn. by rewrite Hn.
Qed.

Lemma detach_exact params c ctx : get_str "name" params = Some c -> is_operation_scoped c = false ->
  exists v, boundary_verdict probe RPC_BDEV_NVME_DETACH_CONTROLLER params ctx = Some v /\ (blocked v = None <-> detach_free c).
Proof.
  intros Hp Hs. unfold boundary_verdict. cbn. rewrite Hp. cbn. rewrite Hs. eexists. split; [done|].
  unfold raids_answer. rewrite ans_raids. unfold detach_controller_verdict, detach_free.
  destruct (existsb _ _) eqn:He.
  - split; [done|]. intros Hf. apply existsb_exists in He as (x & Hx & Hx').
    apply list_elem_of_In, base_names_spec in Hx as (r & b & Hr & Hbb & Hn).
    destruct (Hf r b Hr Hbb) as [H1 H2]. rewrite Hn in H1, H2.
    apply orb_true_iff in Hx' as [Hx'|Hx']; apply String.eqb_eq in Hx' as ->; done.
  - split; [|done]. intros _ r b Hr Hbb.
    assert (forall x, base_name b = Some x -> x <> c /\ x <> c ++ "n1") as Hx; [|destruct (base_name b); naive_solver].
    intros x Hn. assert (In x (raid_base_names (rows (raid_row <$> t_raids T)))) as Hin.
    { apply list_elem_of_In, base_names_spec. eauto. }
    apply not_true_iff_false in He. split; intros ->; apply He, existsb_exists; eexists; (split; [exact Hin|]);
      by rewrite String.eqb_refl, ?orb_true_r.
Qed.

(** The same over every request of the method: one without the parameter, or
    over an operation-scoped name, is not guarded. *)
Ltac gate_cases key exact_lemma :=
  match goal with |- boundary_verdict _ ?m ?params ?ctx ≫= blocked = None <-> _ =>
    let n := fresh "n" in let Hn := fresh "Hn" in let Hsc := fresh "Hsc" in
    destruct (get_str key params) as [n|] eqn:Hn;
    [destruct (is_operation_scoped n) eqn:Hsc|];
    [ try (unfold boundary_verdict; cbn; rewrite Hn; cbn; rewrite Hsc; cbn; split; [|done]; intros _ ? [= <-]; congruence)
    | let v := fresh "v" in let Hv := fresh "Hv" in
      destruct exact_lemma with (params := params) (ctx := ctx) (1 := Hn) (2 := Hsc) as (v & -> & Hv);
      cbn [mbind option_bind]; rewrite Hv; split; [by intros ? ? [= <-]|by auto]
    | unfold boundary_verdict; cbn; rewrite Hn; cbn; split; [|done]; by intros _ ? [=] ]
  end.

Lemma lvol_gate params ctx : boundary_verdict probe RPC_BDEV_LVOL_DELETE params ctx ≫= blocked = None <->
  forall n, get_str "name" params = Some n -> is_operation_scoped n = false -> lvol_free n.
Proof. gate_cases "name" lvol_exact. Qed.
Lemma detach_gate params ctx : boundary_verdict probe RPC_BDEV_NVME_DETACH_CONTROLLER params ctx ≫= blocked = None <->
  forall n, get_str "name" params = Some n -> is_operation_scoped n = false -> detach_free n.
Proof. gate_cases "name" detach_exact. Qed.
Lemma subsystem_gate params ctx : NoDup (sub_nqn <$> t_subs T) ->
  boundary_verdict probe RPC_NVMF_DELETE_SUBSYSTEM params ctx ≫= blocked = None <->
  forall n, get_str "nqn" params = Some n -> is_operation_scoped n = false -> subsystem_free ctx n.
Proof.
  intros Hnd. assert (forall params n ctx, get_str "nqn" params = Some n -> is_operation_scoped n = false ->
    exists v, boundary_verdict probe RPC_NVMF_DELETE_SUBSYSTEM params ctx = Some v /\ (blocked v = None <-> subsystem_free ctx n)) as H
    by (intros; by apply subsystem_exact).
  gate_cases "nqn" H.
Qed.
Lemma raid_gate params ctx : boundary_verdict probe RPC_BDEV_RAID_DELETE params ctx ≫= blocked = None <->
  forall n, get_str "name" params = Some n -> raid_free n.
Proof.
  destruct (get_str "name" params) as [n|] eqn:Hn.
  - destruct (raid_exact params n ctx Hn) as (v & -> & Hv). cbn [mbind option_bind]. rewrite Hv.
    split; [by intros ? ? [= <-]|by auto].
  - unfold boundary_verdict. cbn. rewrite Hn. cbn. split; [|done]. by intros _ ? [=].
Qed.

(** ** Construction, exactly *)

(** A ublk disk serves the bdev. *)
Definition served (b : Bdev) : Prop := exists d, d ∈ t_disks T /\ d_bdev d ∈ identities b.

Lemma ublk_block_exact m what bdev forms b : (forall x, x ∈ forms <-> x ∈ identities b) ->
  match ublk_block probe m what bdev forms with
  | Some v => blocked v <> None /\ served b
  | None => ~ served b
  end.
Proof.
  intros Hf. unfold ublk_block. rewrite ublk_answer. destruct (find_first _ (t_disks T)) as [d|] eqn:Hd; cbn [fmap option_fmap option_map].
  - apply find_first_Some in Hd as [Hin Hd]. apply bool_decide_eq_true in Hd. split; [done|]. exists d.
    split; [done|]. by apply Hf.
  - rewrite find_first_None in Hd. intros (d & Hin & Hb). specialize (Hd d Hin). apply bool_decide_eq_false in Hd.
    by apply Hd, Hf.
Qed.

Definition sized_bases (bases : list string) : list (string * Z) :=
  omap (fun n => b ← find_bdev T n; Some (n, bdev_bytes b)) bases.

Lemma scan_exact bases :
  match scan_bases probe bases with
  | inl v => blocked v <> None /\ exists n b, n ∈ bases /\ find_bdev T n = Some b /\ served b
  | inr sized => sized = sized_bases bases /\ forall n b, n ∈ bases -> find_bdev T n = Some b -> ~ served b
  end.
Proof.
  induction bases as [|n bases IH]; cbn [scan_bases]; [split; [done|]; intros n b ?%elem_of_nil; done|].
  pose proof (identity_answer n) as Hi. unfold sized_bases. cbn [omap list_omap].
  destruct (find_bdev T n) as [b|] eqn:Hb.
  - destruct Hi as (forms & Hf & -> & _).
    pose proof (ublk_block_exact RPC_BDEV_RAID_CREATE ("base " ++ n) n forms b Hf) as Hu.
    destruct (ublk_block _ _ _ _ _) as [v|].
    + destruct Hu as [Hv Hs]. split; [done|]. exists n, b. split_and!; [by left|done|done].
    + destruct (scan_bases probe bases) as [v|sized].
      * destruct IH as [Hv (m & c & Hm & Hc & Hs)]. split; [done|]. exists m, c. split_and!; [by right|done|done].
      * destruct IH as [-> Hn]. cbn [mbind option_bind]. split; [done|].
        intros m c [->|Hm]%elem_of_cons Hc; [by simplify_eq|by eapply Hn].
  - destruct Hi as [-> _]. destruct (scan_bases probe bases) as [v|sized].
    + destruct IH as [Hv (m & c & Hm & Hc & Hs)]. split; [done|]. exists m, c. split_and!; [by right|done|done].
    + destruct IH as [-> Hn]. split; [done|]. intros m c [->|Hm]%elem_of_cons Hc; [by simplify_eq|by eapply Hn].
Qed.

Lemma one_size_spec l : one_size l = true <-> forall p q, p ∈ l -> q ∈ l -> p.2 = q.2.
Proof.
  destruct l as [|p l]; [split; [|done]; intros _ p q ?%elem_of_nil; done|]. cbn [one_size].
  rewrite forallb_forall. split.
  - intros H. assert (forall q, q ∈ p :: l -> q.2 = p.2) as Hq.
    { intros q [->|Hq]%elem_of_cons; [done|]. apply Z.eqb_eq, H. by apply list_elem_of_In. }
    intros a b Ha Hb. by rewrite (Hq a Ha), (Hq b Hb).
  - intros H q Hq%list_elem_of_In. apply Z.eqb_eq, H; [by right|by left].
Qed.

Definition create_ok (size_on : bool) (bases : list string) : Prop :=
  (forall n b, n ∈ bases -> find_bdev T n = Some b -> ~ served b) /\
  (size_on = true -> forall n m b c, n ∈ bases -> m ∈ bases -> find_bdev T n = Some b -> find_bdev T m = Some c ->
     bdev_bytes b = bdev_bytes c).
Definition add_ok (size_on : bool) (base raid : string) : Prop :=
  forall b, find_bdev T base = Some b -> ~ served b /\
    (size_on = true -> forall r, find_bdev T raid = Some r -> bdev_bytes r <= bdev_bytes b).
Definition add_ns_ok (n : string) : Prop := forall b, find_bdev T n = Some b -> ~ served b.

Lemma sized_elem n z bases : (n, z) ∈ sized_bases bases <-> exists b, n ∈ bases /\ find_bdev T n = Some b /\ z = bdev_bytes b.
Proof.
  unfold sized_bases. rewrite list_elem_of_omap. split.
  - intros (m & Hm & He). destruct (find_bdev T m) as [b|] eqn:Hb; [|done]. cbn in He. simplify_eq. eauto.
  - intros (b & Hn & Hb & ->). exists n. split; [done|]. by rewrite Hb.
Qed.

Lemma create_exact params arr size_on : get_array "base_bdevs" params = Some arr ->
  exists v, construction_boundary_verdict_gated probe RPC_BDEV_RAID_CREATE params true size_on = Some v /\
    (blocked v = None <-> create_ok size_on (omap as_str arr)).
Proof.
  intros Hp. unfold construction_boundary_verdict_gated. cbn. rewrite Hp. cbn. eexists. split; [done|].
  pose proof (scan_exact (omap as_str arr)) as Hs. destruct (scan_bases probe (omap as_str arr)) as [v|sized].
  - destruct Hs as [Hv (n & b & Hn & Hb & Hsv)]. split; [done|]. intros [H _]. by destruct (H n b Hn Hb).
  - destruct Hs as [-> Hn]. unfold create_ok. destruct size_on; cbn [negb]; [|naive_solver].
    unfold raid_create_size_verdict. destruct (one_size _) eqn:Ho.
    + rewrite one_size_spec in Ho. split; [|done]. intros _. split; [done|]. intros _ n m b c H1 H2 H3 H4.
      apply (Ho (n, _) (m, _)); apply sized_elem; eauto.
    + split; [done|]. intros [_ H]. exfalso. apply not_true_iff_false in Ho. apply Ho, one_size_spec.
      intros [n z] [m y] (b & H1 & H2 & ->)%sized_elem (c & H3 & H4 & ->)%sized_elem. cbn. eauto.
Qed.

Lemma add_exact params base raid size_on :
  get_str "base_bdev" params = Some base -> get_str "raid_bdev" params = Some raid ->
  exists v, construction_boundary_verdict_gated probe RPC_BDEV_RAID_ADD_BASE_BDEV params true size_on = Some v /\
    (blocked v = None <-> add_ok size_on base raid).
Proof.
  intros Hp Hq. unfold construction_boundary_verdict_gated. cbn. rewrite Hp. cbn. rewrite Hq. cbn. eexists. split; [done|].
  unfold add_ok. pose proof (identity_answer base) as Hi. destruct (find_bdev T base) as [b|].
  2:{ destruct Hi as [-> _]. split; [|done]. by intros _ b [=]. }
  destruct Hi as (forms & Hf & -> & _).
  pose proof (ublk_block_exact RPC_BDEV_RAID_ADD_BASE_BDEV ("base " ++ base) base forms b Hf) as Hu.
  change (RPC_BDEV_RAID_ADD_BASE_BDEV) with "bdev_raid_add_base_bdev" in Hu.
  destruct (ublk_block _ _ _ _ _) as [v|].
  - destruct Hu as [Hv Hs]. split; [done|]. intros H. by destruct (H b eq_refl).
  - destruct size_on; cbn [negb]; [|naive_solver].
    pose proof (identity_answer raid) as Hr. destruct (find_bdev T raid) as [r|].
    + destruct Hr as (forms' & _ & -> & _). cbn [mbind option_bind snd]. unfold raid_add_size_verdict.
      destruct (Z.ltb_spec (bdev_bytes b) (bdev_bytes r)).
      * split; [done|]. intros H'. destruct (H' b eq_refl) as [_ H'']. specialize (H'' eq_refl r eq_refl). lia.
      * split; [|done]. intros _ b' [= <-]. split; [done|]. intros _ r' [= <-]. lia.
    + destruct Hr as [-> _]. cbn [mbind option_bind]. naive_solver.
Qed.

Lemma add_ns_exact params n size_on : get "namespace" params ≫= get_str "bdev_name" = Some n ->
  exists v, construction_boundary_verdict_gated probe RPC_NVMF_SUBSYSTEM_ADD_NS params true size_on = Some v /\
    (blocked v = None <-> add_ns_ok n).
Proof.
  intros Hp. unfold construction_boundary_verdict_gated. cbn. rewrite Hp. cbn. eexists. split; [done|].
  unfold add_ns_ok. pose proof (identity_answer n) as Hi. destruct (find_bdev T n) as [b|].
  2:{ destruct Hi as [-> _]. split; [|done]. by intros _ b [=]. }
  destruct Hi as (forms & Hf & -> & _).
  pose proof (ublk_block_exact RPC_NVMF_SUBSYSTEM_ADD_NS n n forms b Hf) as Hu.
  change (RPC_NVMF_SUBSYSTEM_ADD_NS) with "nvmf_subsystem_add_ns" in Hu.
  destruct (ublk_block _ _ _ _ _) as [v|]; cbn [default from_option id].
  - destruct Hu as [Hv Hs]. split; [done|]. intros H. by destruct (H b eq_refl).
  - naive_solver.
Qed.
End Exact.
