(* ===== verification/LegSize.v ===== *)
(** The leg-size belt (leg_size_guard.rs): which replica legs may serve, from
    their measured byte sizes and the volume's recorded capacity, and the
    annotation that remembers the largest applied expansion. *)

From Stdlib Require Import Ascii String.
From S2P Require Import Prelude Csv Strs GuardedDestroy.
Local Open Scope string_scope.

Definition leg_size_guard_enabled (env : option string) : bool :=
  negb (match env with Some v => String.eqb (to_ascii_lowercase v) "disabled" | None => false end).

(** ** The applied-size annotation: ["<bytes>|<uuid>,<uuid>"] *)

(** [Vec<String>::sort]: by bytes. *)
Fixpoint insert_str (x : string) (l : list string) : list string :=
  match l with
  | [] => [x]
  | y :: l' => if String.leb x y then x :: l else y :: insert_str x l'
  end.
Definition sort_strs (l : list string) : list string := foldr insert_str [] l.

Definition decode_applied (v : string) : option (Z * list string) :=
  '(b, us) ← split_once "|" v;
  bytes ← parse_u64 b;
  Some (bytes, filter (fun s => is_empty s = false) (split_comma us)).

Definition encode_applied (prev : option string) (bytes : Z) (lvol_uuid : string) : string :=
  let '(max_b, uuids) := default (0%Z, []) (prev ≫= decode_applied) in
  let uuids := if mem lvol_uuid uuids then uuids else (uuids ++ [lvol_uuid])%list in
  show_u64 (Z.max max_b bytes) ++ "|" ++ join_comma (sort_strs uuids).

Definition merge_floor (pv_capacity : option Z) (applied : option string) : option Z :=
  match pv_capacity, fst <$> (applied ≫= decode_applied) with
  | Some p, Some a => Some (Z.max p a)
  | Some p, None => Some p
  | None, Some a => Some a
  | None, None => None
  end.

Definition bytes_of (bdev : Value) : option Z :=
  nb ← get_u64 "num_blocks" bdev; bs ← get_u64 "block_size" bdev; Some (Z.min (nb * bs) u64_max).

(** ** The belt *)
Record LegSizePartition := Partition {
  keep : list nat; exclude : list (nat * string); fail_stage : option string; serving_bytes : option Z
}.

(** [Iterator::max] over the sized legs. *)
Definition max_bytes (legs : list (string * option Z)) : option Z :=
  foldl (fun acc b => Some (match acc with Some a => Z.max a b | None => b end)) None (omap snd legs).

Definition short_reason (label : string) (b max : Z) : string :=
  "leg " ++ label ++ " is " ++ show_u64 b ++ "B but the serving cohort is " ++ show_u64 max ++
  "B — a short leg admitted to a raid1 create silently shrinks the device under its filesystem " ++
  "(F43 doc item #8); excluded, heals via catch-up / re-placement".

Definition fail_reason (legs : list (string * option Z)) (floor_b : Z) : string :=
  "every leg is below the volume's recorded capacity (" ++ show_u64 floor_b ++ "B): " ++
  String.concat ", " (omap (fun p => (fun b => p.1 ++ "=" ++ show_u64 b ++ "B") <$> p.2) legs) ++
  " — the filesystem may already be grown past every leg; serving any of them " ++
  "risks silent corruption (F43 doc item #8)".

(** The loop over [legs.iter().enumerate()]. *)
Fixpoint sort_legs (max : option Z) (i : nat) (legs : list (string * option Z)) : list nat * list (nat * string) :=
  match legs with
  | [] => ([], [])
  | (label, bytes) :: rest =>
      let '(k, x) := sort_legs max (S i) rest in
      match bytes, max with
      | Some b, Some m => if (b <? m)%Z then (k, (i, short_reason label b m) :: x) else (i :: k, x)
      | _, _ => (i :: k, x)
      end
  end.

Definition partition_legs (legs : list (string * option Z)) (floor : option Z) : LegSizePartition :=
  let max := max_bytes legs in
  let '(k, x) := sort_legs max 0 legs in
  let kept := Partition k x None max in
  match max, floor with
  | Some m, Some floor_b => if (m <? floor_b)%Z then Partition [] [] (Some (fail_reason legs floor_b)) (Some m) else kept
  | _, _ => kept
  end.

(** ** Sizes *)
Lemma max_bytes_spec legs :
  match max_bytes legs with
  | Some m => m ∈ omap snd legs /\ forall b, b ∈ omap snd legs -> b <= m
  | None => omap snd legs = []
  end.
Proof.
  unfold max_bytes. generalize (omap snd legs) as l. intros l.
  assert (forall acc, match foldl (fun acc b => Some (match acc with Some a => Z.max a b | None => b end)) acc l with
    | Some m => (acc = Some m \/ m ∈ l) /\ (forall b, b ∈ l \/ acc = Some b -> b <= m)
    | None => acc = None /\ l = [] end) as H.
  { induction l as [|x l IH]; intros acc; cbn [foldl].
    - destruct acc; [|done]. split; [by left|]. intros b [?%elem_of_nil|[= ->]]; [done|lia].
    - specialize (IH (Some (match acc with Some a => Z.max a x | None => x end))).
      destruct (foldl _ _ l) as [m|]; [|naive_solver]. destruct IH as [Hm Hle]. split.
      + destruct Hm as [[= <-]|Hm]; [|right; by right]. destruct acc as [a|]; [|right; by left].
        destruct (Z.max_dec a x) as [->| ->]; [by left|right; by left].
      + intros b [[->|Hb]%elem_of_cons| ->].
        * etransitivity; [|apply Hle; right; reflexivity]. destruct acc; lia.
        * apply Hle. by left.
        * etransitivity; [|apply Hle; right; reflexivity]. cbn. lia. }
  specialize (H None). destruct (foldl _ None l) as [m|]; [|naive_solver].
  destruct H as [[?|Hm] Hle]; [done|]. split; [done|]. intros b Hb. apply Hle. by left.
Qed.

(** The belt on one pass: indices in order, the kept ones not short, the
    excluded ones short. *)
Definition is_short (max : option Z) (leg : string * option Z) : bool :=
  match leg.2, max with Some b, Some m => (b <? m)%Z | _, _ => false end.

Lemma sort_legs_spec max legs : forall i k x, sort_legs max i legs = (k, x) ->
  (forall j, j ∈ k <-> exists n leg, j = (i + n)%nat /\ legs !! n = Some leg /\ is_short max leg = false) /\
  (forall j r, (j, r) ∈ x -> exists n leg, j = (i + n)%nat /\ legs !! n = Some leg /\ is_short max leg = true) /\
  (forall n leg, legs !! n = Some leg -> is_short max leg = true -> exists r, ((i + n)%nat, r) ∈ x).
Proof.
  induction legs as [|[label bytes] rest IH]; intros i k x; cbn [sort_legs].
  { intros [= <- <-]. split_and!; [|by intros ? ? ?%elem_of_nil|done].
    intros j. split; [by intros ?%elem_of_nil|]. by intros (n & leg & _ & Hn & _). }
  destruct (sort_legs max (S i) rest) as [k' x'] eqn:Hs. destruct (IH _ _ _ Hs) as (H1 & H2 & H3). intros Hkx.
  assert ((is_short max (label, bytes) = false /\ k = i :: k' /\ x = x') \/
          (is_short max (label, bytes) = true /\ k = k' /\ exists r, x = (i, r) :: x')) as Hc.
  { unfold is_short. cbn [snd]. destruct bytes as [b|], max as [m|]; [destruct (b <? m)%Z|..]; injection Hkx as <- <-;
      [right; split_and!; [done|done|by eexists]|left; done..]. }
  clear Hkx. assert (forall n, (S i + n = i + S n)%nat) as Hsh by lia.
  split_and!.
  - intros j. transitivity (j ∈ k' \/ (j = i /\ is_short max (label, bytes) = false)).
    { clear H1 H2 H3 IH Hs. destruct Hc as [(Hf & -> & _)|(Hf & -> & _)]; rewrite Hf; [rewrite elem_of_cons; tauto|].
      split; [by left|]. by intros [?|[_ ?]]. }
    rewrite H1. split.
    + intros [(n & leg & -> & Hn & Hl)|[-> Hl]]; [exists (S n), leg|exists 0%nat, (label, bytes)];
        [by rewrite Hsh|by rewrite Nat.add_0_r].
    + intros ([|n] & leg & -> & Hn & Hl); [right; injection Hn as <-; by rewrite Nat.add_0_r|].
      left. exists n, leg. by rewrite Hsh.
  - intros j r Hj. destruct Hc as [(_ & _ & ->)|(Hf & _ & r' & ->)].
    + destruct (H2 _ _ Hj) as (n & leg & -> & Hn & Hl). exists (S n), leg. by rewrite Hsh.
    + apply elem_of_cons in Hj as [[= -> ->]|Hj]; [exists 0%nat, (label, bytes); by rewrite Nat.add_0_r|].
      destruct (H2 _ _ Hj) as (n & leg & -> & Hn & Hl). exists (S n), leg. by rewrite Hsh.
  - intros [|n] leg Hn Hl.
    + injection Hn as <-. destruct Hc as [(Hf & _)|(_ & _ & r & ->)]; [congruence|]. exists r. rewrite Nat.add_0_r. by left.
    + destruct (H3 n leg Hn Hl) as (r & Hr). exists r. rewrite <- Hsh.
      destruct Hc as [(_ & _ & ->)|(_ & _ & r' & ->)]; [done|by right].
Qed.

(** ** What the belt guarantees *)
Lemma partition_spec legs floor :
  let p := partition_legs legs floor in
  match fail_stage p with
  | Some _ => keep p = [] /\ exists m f, max_bytes legs = Some m /\ floor = Some f /\ m < f
  | None =>
      (forall j, j ∈ keep p <-> exists leg, legs !! j = Some leg /\ is_short (max_bytes legs) leg = false) /\
      (forall j, (exists r, (j, r) ∈ exclude p) <-> exists leg, legs !! j = Some leg /\ is_short (max_bytes legs) leg = true) /\
      (forall m f, max_bytes legs = Some m -> floor = Some f -> f <= m)
  end.
Proof.
  unfold partition_legs. destruct (sort_legs (max_bytes legs) 0 legs) as [k x] eqn:Hs.
  destruct (sort_legs_spec _ _ _ _ _ Hs) as (H1 & H2 & H3).
  assert (forall P, (forall m f, max_bytes legs = Some m -> floor = Some f -> f <= m) -> P = Partition k x None (max_bytes legs) ->
    (forall j, j ∈ keep P <-> exists leg, legs !! j = Some leg /\ is_short (max_bytes legs) leg = false) /\
    (forall j, (exists r, (j, r) ∈ exclude P) <-> exists leg, legs !! j = Some leg /\ is_short (max_bytes legs) leg = true) /\
    (forall m f, max_bytes legs = Some m -> floor = Some f -> f <= m)) as Hk.
  { intros P Hf ->. cbn [keep exclude]. split_and!; [| |done].
    - intros j. rewrite H1. cbn [Nat.add]. split; [intros (n & leg & -> & ?); eauto|intros (leg & ?); eauto].
    - intros j. split.
      + intros (r & Hr). destruct (H2 _ _ Hr) as (n & leg & -> & ?). eauto.
      + intros (leg & Hn & Hl). exact (H3 j leg Hn Hl). }
  destruct (max_bytes legs) as [m|] eqn:Hm, floor as [f|]; cbn [fail_stage].
  - destruct (Z.ltb_spec m f); cbn [fail_stage keep]; [split; [done|]; by exists m, f|].
    refine (Hk (Partition k x None _) _ eq_refl). by intros ? ? [= <-] [= <-].
  - by refine (Hk (Partition k x None _) _ eq_refl).
  - by refine (Hk (Partition k x None _) _ eq_refl).
  - by refine (Hk (Partition k x None _) _ eq_refl).
Qed.

(** The kept sized legs are one cohort, at the largest size and not below the
    floor. *)
Lemma kept_cohort legs floor j n b : fail_stage (partition_legs legs floor) = None ->
  j ∈ keep (partition_legs legs floor) -> legs !! j = Some (n, Some b) ->
  max_bytes legs = Some b /\ forall f, floor = Some f -> f <= b.
Proof.
  intros Hf Hj Hn. pose proof (partition_spec legs floor) as Hp. cbv zeta in Hp. rewrite Hf in Hp.
  destruct Hp as (H1 & _ & H3). apply H1 in Hj as (leg & Hl & Hs). rewrite Hn in Hl. injection Hl as <-.
  pose proof (max_bytes_spec legs) as Hm.
  assert (b ∈ omap snd legs) as Hb.
  { apply list_elem_of_omap. exists (n, Some b). split; [by eapply list_elem_of_lookup_2|done]. }
  destruct (max_bytes legs) as [m|]; [|rewrite Hm in Hb; by apply elem_of_nil in Hb].
  destruct Hm as [_ Hle]. specialize (Hle b Hb). unfold is_short in Hs. cbn [snd] in Hs. apply Z.ltb_ge in Hs.
  assert (m = b) as -> by lia. split; [done|]. intros f Hff. by apply (H3 b f).
Qed.

(** ** The annotation *)
Lemma split_fields s f : f ∈ split_comma s -> without "," f = true.
Proof.
  revert f. induction s as [|c s IH]; intros f; cbn [split_comma]; [by intros ->%list_elem_of_singleton|].
  destruct (Ascii.eqb c ",") eqn:Hc.
  - intros [->|Hf]%elem_of_cons; [done|by apply IH].
  - destruct (split_comma s) as [|g gs]; [intros ->%list_elem_of_singleton; unfold without; simpl; by rewrite Hc|].
    intros [->|Hf]%elem_of_cons; [|apply IH; by right].
    unfold without. cbn [all_chars]. rewrite Hc. apply IH. by left.
Qed.

Lemma split_join_without l : l <> [] -> Forall (fun s => without "," s = true) l -> split_comma (join_comma l) = l.
Proof.
  assert (forall s, without "," s = true -> split_comma s = [s]) as Hone.
  { induction s as [|c s IH]; [done|]. intros [Hc Hs]%andb_prop. cbn [split_comma].
    apply negb_true_iff in Hc. by rewrite Hc, IH. }
  assert (forall s t, without "," s = true -> split_comma (s ++ String "," t) = s :: split_comma t) as Happ.
  { induction s as [|c s IH]; intros t; [done|]. intros [Hc Hs]%andb_prop. rewrite str_append_cons. cbn [split_comma].
    apply negb_true_iff in Hc. by rewrite Hc, IH. }
  intros Hne Hl. induction Hl as [|s l Hs Hl IH]; [done|]. destruct l as [|s' l]; [by apply Hone|].
  change (split_comma (s ++ String "," (join_comma (s' :: l))) = s :: s' :: l). rewrite Happ by done. by rewrite IH.
Qed.

Lemma insert_str_perm x l : insert_str x l ≡ₚ x :: l.
Proof. induction l as [|y l IH]; [done|]. cbn. case_match; [done|]. rewrite IH. apply perm_swap. Qed.
Lemma sort_strs_perm l : sort_strs l ≡ₚ l.
Proof. induction l as [|x l IH]; [done|]. cbn. by rewrite insert_str_perm, IH. Qed.

Lemma decode_fields v b us : decode_applied v = Some (b, us) ->
  is_u64 b /\ Forall (fun s => without "," s = true /\ is_empty s = false) us.
Proof.
  unfold decode_applied. destruct (split_once "|" v) as [[x y]|]; [|done]. cbn.
  destruct (parse_u64 x) as [n|] eqn:Hn; [|done]. cbn. intros [= <- <-]. split; [by eapply parse_u64_range|].
  apply Forall_forall. intros s [He Hs]%list_elem_of_filter. split; [by eapply split_fields|done].
Qed.

Lemma split_bar s t : without "|" s = true -> split_once "|" (s ++ String "|" t) = Some (s, t).
Proof.
  induction s as [|c s IH]; [done|]. intros [Hc Hs]%andb_prop. rewrite str_append_cons. cbn [split_once].
  apply negb_true_iff in Hc. by rewrite Hc, IH.
Qed.

Lemma keep_all {A} (P : A -> Prop) `{forall x, Decision (P x)} l : Forall P l -> filter P l = l.
Proof. induction 1 as [|x l Hx Hl IH]; [done|]. by rewrite filter_cons, decide_True, IH. Qed.

(** Recording a grow: the annotation reads back as the larger size and the
    legs with the new one. *)
Lemma encode_decode prev bytes u : is_u64 bytes -> is_empty u = false -> without "," u = true ->
  let '(pb, pu) := default (0%Z, []) (prev ≫= decode_applied) in
  exists us, decode_applied (encode_applied prev bytes u) = Some (Z.max pb bytes, us) /\
    forall x, x ∈ us <-> x ∈ pu \/ x = u.
Proof.
  intros Hb Hu Hc. unfold encode_applied.
  destruct (default (0%Z, []) (prev ≫= decode_applied)) as [pb pu] eqn:Hp.
  assert (is_u64 pb /\ Forall (fun s => without "," s = true /\ is_empty s = false) pu) as [Hpb Hpu].
  { destruct (prev ≫= decode_applied) as [[b us]|] eqn:Hd; cbn in Hp; injection Hp as <- <-; [|split; [bounds|constructor]].
    destruct prev as [v|]; [|done]. by apply (decode_fields v). }
  set (us0 := if mem u pu then pu else (pu ++ [u])%list).
  assert (forall x, x ∈ us0 <-> x ∈ pu \/ x = u) as Hus.
  { intros x. subst us0. destruct (mem u pu) eqn:Hm.
    - unfold mem in Hm. apply existsb_exists in Hm as (y & Hy%list_elem_of_In & ->%String.eqb_eq). naive_solver.
    - rewrite elem_of_app, list_elem_of_singleton. done. }
  assert (Forall (fun s => without "," s = true /\ is_empty s = false) (sort_strs us0)) as Hall.
  { rewrite sort_strs_perm. apply Forall_forall. intros x Hx. apply Hus in Hx as [Hx| ->]; [|done].
    rewrite Forall_forall in Hpu. by apply Hpu. }
  exists (sort_strs us0). split; [|intros x; by rewrite sort_strs_perm].
  unfold decode_applied. change ("|" ++ ?x) with (String "|" x). rewrite split_bar by (apply show_u64_without; [bounds|done]). cbn [mbind option_bind].
  rewrite parse_show_u64 by bounds. cbn [mbind option_bind].
  rewrite split_join_without.
  - f_equal. f_equal. apply keep_all. eapply Forall_impl; [exact Hall|]. by intros x [_ ?].
  - intros Hn. assert (u ∈ sort_strs us0) as Hin by (rewrite sort_strs_perm; apply Hus; by right).
    rewrite Hn in Hin. by apply elem_of_nil in Hin.
  - eapply Forall_impl; [exact Hall|]. by intros x [? _].
Qed.

(** The stage floor only rises: it covers the recorded grow and whatever it
    covered before. *)
Lemma floor_rises pv prev bytes u : is_u64 bytes -> is_empty u = false -> without "," u = true ->
  exists f, merge_floor pv (Some (encode_applied prev bytes u)) = Some f /\ bytes <= f /\
    forall g, merge_floor pv prev = Some g -> g <= f.
Proof.
  intros Hb Hu Hc. pose proof (encode_decode prev bytes u Hb Hu Hc) as He. unfold merge_floor.
  destruct (prev ≫= decode_applied) as [[pb pu]|] eqn:Hp; cbn [default from_option id] in He;
    destruct He as (us & Hd & _); cbn [mbind option_bind]; rewrite Hd; cbn [fmap option_fmap option_map fst].
  - destruct pv as [p|]; eexists; (split; [done|]); (split; [lia|]); intros g [= <-]; lia.
  - destruct pv as [p|]; eexists; (split; [done|]); (split; [lia|]); intros g Hg; simplify_eq; lia.
Qed.
