(* ===== verification/OrphanSweep.v ===== *)
(** The orphan sweep (orphan_sweep.rs): which local logical volumes and export
    subsystems to reap, from what one cycle observed and the strikes kept
    between cycles.  Sets of names are [gset]; the strike table is a [gmap]
    from ["lvol:<alias>"] or ["subsys:<nqn>"] to its count (u32).

    A sweep reaps exactly the candidates condemned on [threshold] cycles in a
    row; the fate of every minted name is tabulated. *)

From Stdlib Require Import Ascii String.
From S2P Require Import Prelude Csv Strs GuardedDestroy Identity.
Local Open Scope string_scope.

Record LvolEntry := Lvol { l_lvs : string; l_name : string; l_uuid : string }.
Definition l_alias (l : LvolEntry) : string := l_lvs l ++ "/" ++ l_name l.
Record SubsystemEntry := SubsysEntry { s_nqn : string; s_ns_bdevs : list string }.

Record SweepInput := Sweep {
  si_lvols : list LvolEntry;
  si_subsystems : list SubsystemEntry;
  si_ublk_bdevs : option (list string);
  si_all_bdevs : gset string;
  si_existing_pvs : gset string;
  si_known_uuids : gmap string (gset string);
  si_unbound_pvcs : gset string;
  si_snapshot_handles : option (gset string)
}.

Definition pv_exists (existing : gset string) (id : string) : bool :=
  bool_decide (id ∈ existing) || bool_decide (storage_id_of_handle id ∈ existing).

Definition owner_gone (i : SweepInput) (id : string) : bool :=
  negb (pv_exists (si_existing_pvs i) id) && negb (pv_exists (si_unbound_pvcs i) id).

Definition user_snapshot_unowned (i : SweepInput) (l : LvolEntry) (id : string) : bool :=
  owner_gone i id &&
  match si_snapshot_handles i with
  | Some h => bool_decide (l_name l ∉ h) && bool_decide (l_uuid l ∉ h)
  | None => false
  end.

Definition needs_snapshot_handles (i : SweepInput) : bool :=
  existsb (fun l => match lvol_owner (l_name l) with
                    | Some (id, UserSnapshot) => owner_gone i id
                    | _ => false
                    end) (si_lvols i).

Definition needs_unbound_pvcs (i : SweepInput) : bool :=
  let absent id := negb (pv_exists (si_existing_pvs i) id) in
  existsb (fun l => match classify_lvol (l_name l) with Some (Pv id) => absent id | _ => false end) (si_lvols i) ||
  existsb (fun s => match classify_subsystem_nqn (s_nqn s) with Some id => absent id | None => false end) (si_subsystems i).

(** The handles of a VolumeSnapshotContent list. *)
Definition snapshot_handles (contents : list Value) : gset string :=
  list_to_set (concat ((fun c => omap (fun h => s ← as_str h; if is_empty s then None else Some s)
    [index "snapshotHandle" (index "status" c); index "snapshotHandle" (index "source" (index "spec" c))]) <$> contents)).

(** The fields of a PersistentVolumeClaim the sweep reads. *)
Record Pvc := MkPvc { pvc_deleting : bool; pvc_volume_name : option string; pvc_uid : option string }.
Definition unbound_pvc_volumes (pvcs : list Pvc) : gset string :=
  list_to_set (omap (fun c =>
    if negb (pvc_deleting c) && match pvc_volume_name c with Some v => is_empty v | None => true end
    then (fun uid => "pvc-" ++ uid) <$> pvc_uid c else None) pvcs).

Record SweepPlan := Plan {
  delete_subsystem_nqns : list string;
  delete_lvol_aliases : list string;
  eph_skipped_unverifiable : nat
}.

(** ** (1) PV-owned lvols *)
Inductive LvolFate := Condemned | EphCandidate | Spared.
#[global] Instance LvolFate_eq : EqDecision LvolFate.
Proof. solve_decision. Defined.

(** The stranded-placeholder rule. *)
Definition stranded (i : SweepInput) (l : LvolEntry) (id : string) : bool :=
  str_contains "_replica_" (l_name l) && negb (is_operation_scoped (l_name l)) &&
  match si_known_uuids i !! id with Some known => bool_decide (l_uuid l ∉ known) | None => false end.

Definition lvol_fate (i : SweepInput) (l : LvolEntry) : LvolFate :=
  let user_snapshot := match lvol_owner (l_name l) with Some (_, UserSnapshot) => true | _ => false end in
  match classify_lvol (l_name l) with
  | Some (Pv id) =>
      if user_snapshot then if user_snapshot_unowned i l id then Condemned else Spared
      else if owner_gone i id then Condemned
      else if stranded i l id then Condemned
      else Spared
  | Some Ephemeral => EphCandidate
  | None => Spared
  end.

Definition condemned_lvols (i : SweepInput) : list LvolEntry := filter (fun l => lvol_fate i l = Condemned) (si_lvols i).
Definition eph_lvols (i : SweepInput) : list LvolEntry := filter (fun l => lvol_fate i l = EphCandidate) (si_lvols i).

(** ** (2) Subsystems *)
Definition bdev_condemned (i : SweepInput) (bdev : string) : bool :=
  existsb (fun l => String.eqb bdev (l_name l) || String.eqb bdev (l_uuid l) || String.eqb bdev (l_alias l)) (condemned_lvols i).
Definition bdev_present (i : SweepInput) (bdev : string) : bool := bool_decide (bdev ∈ si_all_bdevs i).

Definition subsystem_condemned (i : SweepInput) (s : SubsystemEntry) : bool :=
  let owner_absent := match classify_subsystem_nqn (s_nqn s) with Some id => owner_gone i id | None => false end in
  let all_ns_dead := forallb (fun b => negb (bdev_present i b) || bdev_condemned i b) (s_ns_bdevs s) in
  owner_absent && all_ns_dead.

Definition condemned_subsystems (i : SweepInput) : list string :=
  s_nqn <$> filter (fun s => subsystem_condemned i s = true) (si_subsystems i).
Definition surviving_ns_bdevs (i : SweepInput) : list string :=
  concat (s_ns_bdevs <$> filter (fun s => subsystem_condemned i s = false) (si_subsystems i)).

(** ** (3) Ephemeral lvols *)
Definition eph_referenced (i : SweepInput) (ublk : list string) (l : LvolEntry) : bool :=
  let s := surviving_ns_bdevs i in
  mem (l_name l) s || mem (l_uuid l) s || mem (l_alias l) s ||
  existsb (fun b => String.eqb b (l_name l) || String.eqb b (l_uuid l) || String.eqb b (l_alias l)) ublk.

Definition condemned_ephs (i : SweepInput) : list LvolEntry :=
  match si_ublk_bdevs i with
  | None => []
  | Some ublk => filter (fun l => eph_referenced i ublk l = false) (eph_lvols i)
  end.
Definition eph_skipped (i : SweepInput) : nat :=
  match si_ublk_bdevs i with None => length (eph_lvols i) | Some _ => 0 end.

Definition condemned_aliases (i : SweepInput) : list string :=
  l_alias <$> (condemned_lvols i ++ condemned_ephs i)%list.

(** ** Strikes *)
Definition subsys_key (nqn : string) : string := "subsys:" ++ nqn.
Definition lvol_key (alias : string) : string := "lvol:" ++ alias.

(** One candidate list: each name's strike goes up by one (saturating), and
    the names at the threshold are planned. *)
Fixpoint strike (key : string -> string) (threshold : Z) (names : list string) (strikes : gmap string Z)
    : list string * gmap string Z :=
  match names with
  | [] => ([], strikes)
  | x :: names =>
      let n := Z.min (default 0%Z (strikes !! key x) + 1) u32_max in
      let '(planned, strikes') := strike key threshold names (<[key x := n]> strikes) in
      (if (threshold <=? n)%Z then x :: planned else planned, strikes')
  end.

Definition current_keys (i : SweepInput) : list string :=
  ((subsys_key <$> condemned_subsystems i) ++ (lvol_key <$> condemned_aliases i))%list.

Definition plan_sweep (i : SweepInput) (strikes : gmap string Z) (threshold : Z) : SweepPlan * gmap string Z :=
  let '(subs, s1) := strike subsys_key threshold (condemned_subsystems i) strikes in
  let '(lvols, s2) := strike lvol_key threshold (condemned_aliases i) s1 in
  (Plan subs lvols (eph_skipped i), filter (fun p => p.1 ∈ current_keys i) s2).

(** The strike table after a history of cycles, newest first. *)
Fixpoint strikes_after (threshold : Z) (hist : list SweepInput) : gmap string Z :=
  match hist with
  | [] => ∅
  | i :: hist => (plan_sweep i (strikes_after threshold hist) threshold).2
  end.

(** ** Strikes *)
Definition bumped (m : gmap string Z) (k : string) : Z := Z.min (default 0 (m !! k) + 1) u32_max.

Lemma strike_spec key T names : Inj (=) (=) key -> NoDup names -> forall m planned m', strike key T names m = (planned, m') ->
  (forall k, m' !! k = if decide (k ∈ key <$> names) then Some (bumped m k) else m !! k) /\
  (forall x, x ∈ planned <-> x ∈ names /\ T <= bumped m (key x)).
Proof.
  intros Hinj Hnd. induction Hnd as [|x names Hx Hnd IH]; intros m planned m'; cbn [strike].
  - intros [= <- <-]. split; [intros k; by rewrite decide_False by (by intros ?%elem_of_nil)|]. set_solver.
  - destruct (strike key T names _) as [pl m1] eqn:Hs. destruct (IH _ _ _ Hs) as [H1 H2]. intros [= <- <-].
    assert (key x ∉ key <$> names) as Hkx by (intros (y & Hy%Hinj & Hin)%list_elem_of_fmap; by subst).
    split.
    + intros k. rewrite H1, fmap_cons. destruct (decide (k = key x)) as [->|Hne].
      * rewrite decide_False by done. rewrite decide_True by (by left). by rewrite lookup_insert_eq.
      * rewrite lookup_insert_ne by done. unfold bumped. rewrite lookup_insert_ne by done.
        destruct (decide (k ∈ key <$> names)); [by rewrite decide_True by (by right)|].
        rewrite decide_False; [done|]. by intros [?|?]%elem_of_cons.
    + intros y. assert (y ∈ pl <-> y ∈ names /\ T <= bumped m (key y)) as Hy.
      { rewrite H2. split; intros [Hin Hle]; (split; [done|]); revert Hle; unfold bumped;
          rewrite lookup_insert_ne; try done; intros He; apply Hkx; rewrite He; by apply list_elem_of_fmap_2. }
      fold (bumped m (key x)). destruct (Z.leb_spec T (bumped m (key x))).
      * rewrite !elem_of_cons, Hy. naive_solver.
      * rewrite Hy, elem_of_cons. naive_solver lia.
Qed.

(** One listing per lvol and per subsystem. *)
Definition tidy (i : SweepInput) : Prop := NoDup (l_alias <$> si_lvols i) /\ NoDup (s_nqn <$> si_subsystems i).

Lemma fmap_filter_NoDup {A B} (f : A -> B) (P : A -> Prop) `{forall x, Decision (P x)} l :
  NoDup (f <$> l) -> NoDup (f <$> filter P l).
Proof. intros Hn. apply (sublist_NoDup _ _ Hn). apply fmap_sublist, sublist_filter. Qed.

Lemma fmap_NoDup_inj {A B} (f : A -> B) l x y : NoDup (f <$> l) -> x ∈ l -> y ∈ l -> f x = f y -> x = y.
Proof.
  induction l as [|z l IH]; [by intros _ ?%elem_of_nil|]. rewrite fmap_cons, NoDup_cons. intros [Hz Hn].
  intros [->|Hx]%elem_of_cons [->|Hy]%elem_of_cons Hf; try done.
  - destruct Hz. rewrite Hf. by apply list_elem_of_fmap_2.
  - destruct Hz. rewrite <- Hf. by apply list_elem_of_fmap_2.
  - by apply IH.
Qed.

Lemma condemned_ephs_elem i l : l ∈ condemned_ephs i -> l ∈ si_lvols i /\ lvol_fate i l = EphCandidate.
Proof.
  unfold condemned_ephs. destruct (si_ublk_bdevs i); [|by intros ?%elem_of_nil].
  intros [_ Hl]%list_elem_of_filter. apply list_elem_of_filter in Hl as [? ?]. done.
Qed.

Lemma aliases_NoDup i : tidy i -> NoDup (condemned_aliases i).
Proof.
  intros [Hl _]. unfold condemned_aliases. rewrite fmap_app. apply NoDup_app. split_and!.
  - by apply fmap_filter_NoDup.
  - intros a (x & -> & Hx)%list_elem_of_fmap (y & Hy & Hin)%list_elem_of_fmap.
    apply list_elem_of_filter in Hx as [Hfx Hx]. apply condemned_ephs_elem in Hin as [Hin Hfy].
    rewrite (fmap_NoDup_inj l_alias _ _ _ Hl Hx Hin Hy) in Hfx. congruence.
  - unfold condemned_ephs. destruct (si_ublk_bdevs i); [|constructor]. by do 2 apply fmap_filter_NoDup.
Qed.
Lemma subsystems_NoDup i : tidy i -> NoDup (condemned_subsystems i).
Proof. intros [_ Hs]. by apply fmap_filter_NoDup. Qed.

#[global] Instance lvol_key_inj : Inj (=) (=) lvol_key.
Proof. intros x y. apply append_inj_l. Qed.
#[global] Instance subsys_key_inj : Inj (=) (=) subsys_key.
Proof. intros x y. apply append_inj_l. Qed.
Lemma keys_apart x y : subsys_key x <> lvol_key y.
Proof. done. Qed.

Lemma lvol_key_current i x : lvol_key x ∈ current_keys i <-> x ∈ condemned_aliases i.
Proof.
  unfold current_keys. rewrite elem_of_app, !list_elem_of_fmap. split.
  - intros [(y & ? & _)|(y & ->%lvol_key_inj & Hy)]; done.
  - intros Hx. right. eauto.
Qed.
Lemma subsys_key_current i x : subsys_key x ∈ current_keys i <-> x ∈ condemned_subsystems i.
Proof.
  unfold current_keys. rewrite elem_of_app, !list_elem_of_fmap. split.
  - intros [(y & ->%subsys_key_inj & Hy)|(y & ? & _)]; done.
  - intros Hx. left. eauto.
Qed.

(** One cycle: the new count of every key, and what is planned. *)
Lemma plan_spec i T m : tidy i ->
  let '(p, m') := plan_sweep i m T in
  (forall k, m' !! k = if decide (k ∈ current_keys i) then Some (bumped m k) else None) /\
  (forall x, x ∈ delete_lvol_aliases p <-> x ∈ condemned_aliases i /\ T <= bumped m (lvol_key x)) /\
  (forall x, x ∈ delete_subsystem_nqns p <-> x ∈ condemned_subsystems i /\ T <= bumped m (subsys_key x)).
Proof.
  intros Ht. unfold plan_sweep.
  destruct (strike subsys_key T (condemned_subsystems i) m) as [subs s1] eqn:H1.
  destruct (strike lvol_key T (condemned_aliases i) s1) as [lvols s2] eqn:H2.
  apply strike_spec in H1 as [Hs1 Hp1]; [|apply _|by apply subsystems_NoDup].
  apply strike_spec in H2 as [Hs2 Hp2]; [|apply _|by apply aliases_NoDup]. cbn [delete_lvol_aliases delete_subsystem_nqns].
  assert (forall x, bumped s1 (lvol_key x) = bumped m (lvol_key x)) as Hb.
  { intros x. unfold bumped. rewrite Hs1, decide_False; [done|]. intros (y & Hy & _)%list_elem_of_fmap. symmetry in Hy. by apply keys_apart in Hy. }
  split_and!; [|intros x; by rewrite Hp2, Hb|done].
  intros k. rewrite map_lookup_filter. destruct (decide (k ∈ current_keys i)) as [Hk|Hk].
  - assert (s2 !! k = Some (bumped m k)) as ->.
    { rewrite Hs2. unfold current_keys in Hk. apply elem_of_app in Hk as [Hk|Hk].
      - apply list_elem_of_fmap in Hk as (y & -> & Hy). rewrite decide_False.
        2:{ intros (z & Hz & _)%list_elem_of_fmap. by apply keys_apart in Hz. }
        rewrite Hs1, decide_True; [done|]. by apply list_elem_of_fmap_2.
      - pose proof Hk as (y & -> & Hy)%list_elem_of_fmap. rewrite decide_True by done. by rewrite Hb. }
    cbn. by rewrite option_guard_True.
  - destruct (s2 !! k) as [z|] eqn:Hz; cbn; [|done]. by rewrite option_guard_False.
Qed.

(** ** Consecutive cycles *)
Fixpoint streak (k : string) (hist : list SweepInput) : nat :=
  match hist with
  | [] => 0
  | i :: hist => if decide (k ∈ current_keys i) then S (streak k hist) else 0
  end.

Lemma streak_spec k hist n : (n <= streak k hist)%nat <->
  forall j, (j < n)%nat -> exists i, hist !! j = Some i /\ k ∈ current_keys i.
Proof.
  revert n. induction hist as [|i hist IH]; intros n; cbn [streak].
  - split; [lia|]. intros H. destruct n; [lia|]. destruct (H 0%nat) as (? & ? & _); [lia|done].
  - destruct (decide (k ∈ current_keys i)) as [Hk|Hk].
    + destruct n as [|n]; [split; lia|]. transitivity (n <= streak k hist)%nat; [lia|]. rewrite IH. split.
      * intros H [|j] Hj; [eauto|]. apply (H j). lia.
      * intros H j Hj. apply (H (S j)). lia.
    + split; [lia|]. intros H. destruct n; [lia|]. destruct (H 0%nat) as (i' & [= <-] & ?); [lia|done].
Qed.

(** The table holds each key's streak. *)
Lemma strikes_streak T hist k : Forall tidy hist ->
  default 0 (strikes_after T hist !! k) = Z.min (Z.of_nat (streak k hist)) u32_max.
Proof.
  induction 1 as [|i hist Hi Hh IH]; [done|]. cbn [strikes_after streak].
  pose proof (plan_spec i T (strikes_after T hist) Hi) as Hp.
  destruct (plan_sweep i (strikes_after T hist) T) as [p m']. destruct Hp as [Hm _]. cbn [snd]. rewrite Hm.
  destruct (decide (k ∈ current_keys i)); [|done]. cbn [default from_option id]. unfold bumped. rewrite IH.
  unfold u32_max. lia.
Qed.

(** A cycle plans exactly the candidates condemned on the last [T] cycles. *)
Lemma planned_streak T i hist : tidy i -> Forall tidy hist -> 1 <= T <= u32_max ->
  let p := (plan_sweep i (strikes_after T hist) T).1 in
  (forall x, x ∈ delete_lvol_aliases p <->
     forall j, (j < Z.to_nat T)%nat -> exists i', (i :: hist) !! j = Some i' /\ x ∈ condemned_aliases i') /\
  (forall x, x ∈ delete_subsystem_nqns p <->
     forall j, (j < Z.to_nat T)%nat -> exists i', (i :: hist) !! j = Some i' /\ x ∈ condemned_subsystems i').
Proof.
  intros Hi Hh HT. pose proof (plan_spec i T (strikes_after T hist) Hi) as Hp.
  destruct (plan_sweep i (strikes_after T hist) T) as [p m']. destruct Hp as (_ & Hl & Hs). cbn [fst].
  assert (forall k, (T <= bumped (strikes_after T hist) k /\ k ∈ current_keys i) <-> (Z.to_nat T <= streak k (i :: hist))%nat) as Hk.
  { intros k. cbn [streak]. unfold bumped. rewrite strikes_streak by done.
    destruct (decide (k ∈ current_keys i)); [|split; [naive_solver|lia]]. split; [intros [? _]; lia|]. split; [lia|done]. }
  split; intros x.
  - rewrite Hl, <- lvol_key_current. setoid_rewrite <- (lvol_key_current _ x).
    rewrite <- streak_spec, <- Hk. tauto.
  - rewrite Hs, <- subsys_key_current. setoid_rewrite <- (subsys_key_current _ x).
    rewrite <- streak_spec, <- Hk. tauto.
Qed.

(** ** What condemns a name *)
Lemma contains_rsplit c p s : rsplit_once (String c p) s = None -> str_contains (String c p) s = false.
Proof.
  induction s as [|x s IH]; [done|]. cbn [rsplit_once]. destruct (rsplit_once (String c p) s) as [[a b]|]; [done|].
  destruct (strip_prefix (String c p) (String x s)) as [r|] eqn:Hp; [done|]. intros _. cbn [str_contains].
  rewrite prefix_strip, Hp, IH by done. done.
Qed.

Lemma strip_plain_id p v : without "_" v = true -> without "_" p = false -> strip_prefix p v = None.
Proof.
  intros Hv Hp. destruct (strip_prefix p v) as [r|] eqn:Hs; [|done]. apply strip_prefix_Some in Hs as ->.
  rewrite without_append in Hv. apply andb_prop in Hv as [? _]. congruence.
Qed.

Section Fate.
Context (v : string) (Hv : plain_id v) (i : SweepInput) (lvs uuid : string).
Context (n s : Z) (Hn : 0 <= n) (Hs : is_u64 s).

Lemma head_not_replica t : without "_" t = true -> rsplit_once "_replica_" (String "_" (t ++ v)) = None.
Proof.
  intros Ht. pose proof (vi_under _ Hv) as Hu.
  assert (without "_" (t ++ v) = true) as Hw by (by rewrite without_append, Ht, Hu).
  apply rsplit_cons_none; [by apply rsplit_without|].
  change (strip_prefix "_replica_" (String "_" ?r)) with (strip_prefix "replica_" r).
  by apply strip_plain_id.
Qed.
Lemma primary_not_replica : str_contains "_replica_" (lvol_name v) = false.
Proof.
  apply contains_rsplit. unfold lvol_name. change ("vol_" ++ v) with ("vol" ++ String "_" ("" ++ v)).
  apply rsplit_past; [done|]. by apply head_not_replica.
Qed.
Lemma epoch_not_replica : str_contains "_replica_" (epoch_snapshot_name v s) = false.
Proof.
  apply contains_rsplit, rsplit_without. unfold epoch_snapshot_name. rewrite !without_append, (vi_under _ Hv).
  rewrite show_u64_without; [done|bounds|done].
Qed.
Lemma clone_not_replica : str_contains "_replica_" (temp_clone_snapshot_name v) = false.
Proof.
  apply contains_rsplit. unfold temp_clone_snapshot_name.
  change ("temp_pvc_clone_" ++ v) with ("temp" ++ String "_" ("pvc" ++ String "_" ("clone" ++ String "_" ("" ++ v)))).
  apply rsplit_past; [done|]. apply rsplit_cons_none; [|done].
  apply rsplit_past; [done|]. apply rsplit_cons_none; [|done].
  apply rsplit_past; [done|]. by apply head_not_replica.
Qed.
Lemma head_is_scoped : is_operation_scoped (hr_head_lvol_name (Sid v) n) = true.
Proof.
  unfold is_operation_scoped, ends_with, hr_head_lvol_name. cbn [sid_str].
  assert ("vol_" ++ v ++ "_replica_" ++ show_u64 n ++ "_hr" = ("vol_" ++ v ++ "_replica_" ++ show_u64 n) ++ "_hr") as ->
    by (by rewrite !append_assoc).
  rewrite strip_suffix_append. cbn. by rewrite !orb_true_r.
Qed.

(** The fate of every name minted for the volume. *)
Lemma fate_table :
  lvol_fate i (Lvol lvs (lvol_name v) uuid) = (if owner_gone i v then Condemned else Spared) /\
  lvol_fate i (Lvol lvs (hr_head_lvol_name (Sid v) n) uuid) = (if owner_gone i v then Condemned else Spared) /\
  lvol_fate i (Lvol lvs (epoch_snapshot_name v s) uuid) = (if owner_gone i v then Condemned else Spared) /\
  lvol_fate i (Lvol lvs (temp_clone_snapshot_name v) uuid) = (if owner_gone i v then Condemned else Spared) /\
  lvol_fate i (Lvol lvs (replica_lvol_name (Sid v) n) uuid) =
    (if owner_gone i v || stranded i (Lvol lvs (replica_lvol_name (Sid v) n) uuid) v then Condemned else Spared) /\
  lvol_fate i (Lvol lvs (user_snapshot_name v s) uuid) =
    (if user_snapshot_unowned i (Lvol lvs (user_snapshot_name v s) uuid) v then Condemned else Spared).
Proof.
  destruct (read_lvols v Hv n s Hn Hs) as (C1 & C2 & C3 & C4 & C5 & C6).
  destruct (read_owners v Hv n s Hn Hs) as (O1 & O2 & O3 & O4 & O5 & O6).
  unfold lvol_fate, stranded. cbn [l_name].
  rewrite C1, C2, C3, C4, C5, C6, O1, O2, O3, O4, O5, O6.
  rewrite primary_not_replica, epoch_not_replica, clone_not_replica, head_is_scoped. cbn [andb negb].
  rewrite andb_false_r. cbn [andb]. split_and!; by destruct (owner_gone i v).
Qed.
End Fate.

(** ** What a condemnation means *)
(** Neither a PV nor an unbound claim has the id, as it is or as the storage
    id of an NFS-backing handle. *)
Definition no_owner (i : SweepInput) (id : string) : Prop :=
  id ∉ si_existing_pvs i /\ storage_id_of_handle id ∉ si_existing_pvs i /\
  id ∉ si_unbound_pvcs i /\ storage_id_of_handle id ∉ si_unbound_pvcs i.

(** An lvol of a volume: a user snapshot, of a volume without owner, that no
    listed snapshot content names; or any other one of a volume without
    owner; or a replica that the record of its volume, which is known, does
    not name (operation-scoped names apart). *)
Definition orphan (i : SweepInput) (l : LvolEntry) : Prop := exists id,
  classify_lvol (l_name l) = Some (Pv id) /\
  ((exists v, lvol_owner (l_name l) = Some (v, UserSnapshot)) /\ no_owner i id /\
     (exists h, si_snapshot_handles i = Some h /\ l_name l ∉ h /\ l_uuid l ∉ h) \/
   (~ exists v, lvol_owner (l_name l) = Some (v, UserSnapshot)) /\
     (no_owner i id \/
      str_contains "_replica_" (l_name l) = true /\ is_operation_scoped (l_name l) = false /\
      exists known, si_known_uuids i !! id = Some known /\ l_uuid l ∉ known)).

Definition names_lvol (b : string) (l : LvolEntry) : Prop := b = l_name l \/ b = l_uuid l \/ b = l_alias l.

(** An export of a volume without owner, no namespace of which is on a bdev
    that is there and not an orphan's. *)
Definition dead_export (i : SweepInput) (s : SubsystemEntry) : Prop := exists id,
  classify_subsystem_nqn (s_nqn s) = Some id /\ no_owner i id /\
  forall b, b ∈ s_ns_bdevs s -> b ∈ si_all_bdevs i -> exists l, l ∈ si_lvols i /\ orphan i l /\ names_lvol b l.

(** An ephemeral lvol that the ublk disks, which were listed, and the exports
    that stay do not name. *)
Definition idle_ephemeral (i : SweepInput) (l : LvolEntry) : Prop :=
  classify_lvol (l_name l) = Some Ephemeral /\
  (exists ublk, si_ublk_bdevs i = Some ublk /\ forall b, b ∈ ublk -> ~ names_lvol b l) /\
  forall s b, s ∈ si_subsystems i -> ~ dead_export i s -> b ∈ s_ns_bdevs s -> ~ names_lvol b l.

Lemma owner_gone_iff i id : owner_gone i id = true <-> no_owner i id.
Proof.
  unfold owner_gone, pv_exists, no_owner. rewrite andb_true_iff, !negb_true_iff, !orb_false_iff, !bool_decide_eq_false. tauto.
Qed.

Lemma unowned_iff i l id : user_snapshot_unowned i l id = true <->
  no_owner i id /\ exists h, si_snapshot_handles i = Some h /\ l_name l ∉ h /\ l_uuid l ∉ h.
Proof.
  unfold user_snapshot_unowned. rewrite andb_true_iff, owner_gone_iff.
  destruct (si_snapshot_handles i) as [h|]; [rewrite andb_true_iff, !bool_decide_eq_true; naive_solver|naive_solver].
Qed.
Lemma stranded_iff i l id : stranded i l id = true <->
  str_contains "_replica_" (l_name l) = true /\ is_operation_scoped (l_name l) = false /\
  exists known, si_known_uuids i !! id = Some known /\ l_uuid l ∉ known.
Proof.
  unfold stranded. rewrite !andb_true_iff, negb_true_iff.
  destruct (si_known_uuids i !! id) as [known|]; [rewrite bool_decide_eq_true; naive_solver|naive_solver].
Qed.

Lemma user_snapshot_iff n : match lvol_owner n with Some (_, UserSnapshot) => true | _ => false end = true <->
  exists v, lvol_owner n = Some (v, UserSnapshot).
Proof.
  destruct (lvol_owner n) as [[v k]|]; [|split; [done|by intros [? ?]]].
  destruct k; (split; [try done|by intros [? [=]]]). intros _. by exists v.
Qed.

Lemma fate_condemned_iff i l : lvol_fate i l = Condemned <-> orphan i l.
Proof.
  unfold lvol_fate, orphan. destruct (classify_lvol (l_name l)) as [[id|]|].
  2-3: split; [done|by intros (? & [=] & _)].
  pose proof (user_snapshot_iff (l_name l)) as Hus. cbv zeta.
  destruct (match lvol_owner (l_name l) with Some (_, UserSnapshot) => true | _ => false end).
  - pose proof (unowned_iff i l id) as Hu. destruct (user_snapshot_unowned i l id).
    + split; [|done]. intros _. exists id. split; [done|]. left. split; [by apply Hus|]. by apply Hu.
    + split; [done|]. intros (id' & [= <-] & [[_ H]|[H _]]); [by apply Hu in H|]. destruct H. by apply Hus.
  - pose proof (stranded_iff i l id) as Hst. pose proof (owner_gone_iff i id) as Ho.
    assert (~ exists v, lvol_owner (l_name l) = Some (v, UserSnapshot)) as Hn by (by intros H; apply Hus in H).
    destruct (owner_gone i id).
    + split; [|done]. intros _. exists id. split; [done|]. right. split; [done|]. left. by apply Ho.
    + destruct (stranded i l id).
      * split; [|done]. intros _. exists id. split; [done|]. right. split; [done|]. right. by apply Hst.
      * split; [done|]. intros (id' & [= <-] & [[H _]|[_ [H|H]]]); [done|by apply Ho in H|by apply Hst in H].
Qed.

Lemma names_lvol_iff b l : String.eqb b (l_name l) || String.eqb b (l_uuid l) || String.eqb b (l_alias l) = true <-> names_lvol b l.
Proof. unfold names_lvol. rewrite !orb_true_iff, !String.eqb_eq. tauto. Qed.

Lemma bdev_condemned_iff i b : bdev_condemned i b = true <-> exists l, l ∈ si_lvols i /\ orphan i l /\ names_lvol b l.
Proof.
  unfold bdev_condemned, condemned_lvols. rewrite existsb_exists. split.
  - intros (l & Hl%list_elem_of_In & Hn%names_lvol_iff). apply list_elem_of_filter in Hl as [Hf Hl]. exists l.
    by rewrite <- fate_condemned_iff.
  - intros (l & Hl & Ho & Hn). exists l. rewrite <- list_elem_of_In, names_lvol_iff, list_elem_of_filter, fate_condemned_iff. done.
Qed.

Lemma subsystem_condemned_iff i s : subsystem_condemned i s = true <-> dead_export i s.
Proof.
  unfold subsystem_condemned, dead_export. rewrite andb_true_iff, forallb_forall.
  destruct (classify_subsystem_nqn (s_nqn s)) as [id|]; [|naive_solver]. rewrite owner_gone_iff.
  assert (forall b, negb (bdev_present i b) || bdev_condemned i b = true <->
    (b ∈ si_all_bdevs i -> exists l, l ∈ si_lvols i /\ orphan i l /\ names_lvol b l)) as Hb.
  { intros b. rewrite <- bdev_condemned_iff. unfold bdev_present. case_bool_decide; cbn; naive_solver. }
  setoid_rewrite Hb. setoid_rewrite <- list_elem_of_In. naive_solver.
Qed.

Lemma condemned_subsystem_iff i x : x ∈ condemned_subsystems i <-> exists s, s ∈ si_subsystems i /\ s_nqn s = x /\ dead_export i s.
Proof.
  unfold condemned_subsystems. rewrite list_elem_of_fmap. setoid_rewrite list_elem_of_filter. setoid_rewrite subsystem_condemned_iff.
  naive_solver.
Qed.

Lemma fate_eph_iff i l : lvol_fate i l = EphCandidate <-> classify_lvol (l_name l) = Some Ephemeral.
Proof. unfold lvol_fate. destruct (classify_lvol (l_name l)) as [[id|]|]; repeat case_match; naive_solver. Qed.

Lemma surviving_iff i b : b ∈ surviving_ns_bdevs i <-> exists s, s ∈ si_subsystems i /\ ~ dead_export i s /\ b ∈ s_ns_bdevs s.
Proof.
  unfold surviving_ns_bdevs. rewrite list_elem_of_In, in_concat. setoid_rewrite <- list_elem_of_In. setoid_rewrite list_elem_of_fmap.
  setoid_rewrite list_elem_of_filter. setoid_rewrite <- subsystem_condemned_iff. setoid_rewrite not_true_iff_false. naive_solver.
Qed.

Lemma eph_referenced_iff i ublk l : eph_referenced i ublk l = false <->
  (forall b, b ∈ ublk -> ~ names_lvol b l) /\
  forall s b, s ∈ si_subsystems i -> ~ dead_export i s -> b ∈ s_ns_bdevs s -> ~ names_lvol b l.
Proof.
  assert (forall y l0, mem y l0 = false <-> y ∉ l0) as Hmem.
  { intros y l0. unfold mem. rewrite <- not_true_iff_false, existsb_exists. setoid_rewrite <- list_elem_of_In.
    setoid_rewrite String.eqb_eq. naive_solver. }
  unfold eph_referenced. rewrite !orb_false_iff, !Hmem, !surviving_iff. rewrite <- (not_true_iff_false (existsb _ _)), existsb_exists.
  setoid_rewrite <- list_elem_of_In. setoid_rewrite names_lvol_iff. unfold names_lvol. split.
  - intros [[[H1 H2] H3] H4]. split; [by intros b Hb Hn; apply H4; exists b|].
    intros s b Hs Hd Hb [->|[->| ->]]; [apply H1|apply H2|apply H3]; by exists s.
  - intros [H1 H2]. split_and!; [intros (s & ? & ? & ?); eapply H2; eauto..|]. intros (b & Hb & Hn). by apply (H1 b).
Qed.

Lemma condemned_alias_iff i x : x ∈ condemned_aliases i <->
  exists l, l ∈ si_lvols i /\ l_alias l = x /\ (orphan i l \/ idle_ephemeral i l).
Proof.
  unfold condemned_aliases. rewrite list_elem_of_fmap. setoid_rewrite elem_of_app.
  assert (forall l, l ∈ condemned_lvols i <-> l ∈ si_lvols i /\ orphan i l) as H1.
  { intros l. unfold condemned_lvols. rewrite list_elem_of_filter, fate_condemned_iff. tauto. }
  assert (forall l, l ∈ condemned_ephs i <-> l ∈ si_lvols i /\ idle_ephemeral i l) as H2.
  { intros l. unfold condemned_ephs, idle_ephemeral. destruct (si_ublk_bdevs i) as [ublk|].
    - rewrite list_elem_of_filter, eph_referenced_iff. unfold eph_lvols. rewrite list_elem_of_filter, fate_eph_iff. naive_solver.
    - split; [by intros ?%elem_of_nil|]. naive_solver. }
  setoid_rewrite H1. setoid_rewrite H2. naive_solver.
Qed.
