(* ===== verification/NodeGuard.v ===== *)
(** The node agent's executors of destructive requests: the /api/spdk/rpc
    handler, the guarded ublk stop, the disk service's lvol delete and the
    orphan sweep's execution (node_agent.rs, minimal_disk_service.rs).

    The SPDK target is a state [S] with [rpc : Value -> S -> result * S].  The
    guards' probes read the answers at the current state.  The kernel's view
    of a ublk device and the VolumeAttachment lookup are arguments. *)

From Stdlib Require Import Ascii String.
From S2P Require Import Prelude Csv Strs GuardedDestroy Identity OrphanSweep LegSize.
Local Open Scope string_scope.

(** ** The kernel opener probe *)
Inductive UblkOpenerState := OFree | OBusy | OUnknown.
Inductive OpenOutcome := Opened | OpenBusy | OpenFailed.

(** Whether the device node exists, whether its holders directory could be
    read and has an entry, and how the exclusive open ended. *)
Definition ublk_opener_state (dev_exists : bool) (holders : option bool) (open : OpenOutcome) : UblkOpenerState :=
  if negb dev_exists then OFree
  else match holders with
  | Some true => OBusy
  | _ => match open with Opened => OFree | OpenBusy => OBusy | OpenFailed => OUnknown end
  end.

Definition guard_ublk_stop (opener : Z -> UblkOpenerState) (ublk_id : Z) : Verdict :=
  match opener ublk_id with
  | OFree => Allow
  | OBusy => Refuse ("guarded_destroy: ublk disk " ++ show_u64 ublk_id ++
      " has live opener(s) — stopping it EIOs the consumer above; unmount first (ghost-mount sweep) or let unstage order it")
  | OUnknown => Defer ("guarded_destroy: ublk disk " ++ show_u64 ublk_id ++
      " opener probe inconclusive — failing closed (never reap blind)")
  end.

(** ** The handler *)
Inductive HttpReply := Conflict (reason : string) | ProxyOk (response : Value) | ProxyErr (error : string).

Record AgentEnv := MkEnv {
  ae_node : string;
  ae_construction : option string;
  ae_leg_size : option string;
  ae_opener : Z -> UblkOpenerState;
  ae_attached : string -> result string (option string)
}.

Section Target.
Context {S : Type} (rpc : Value -> S -> result string Value * S).

Definition probe_at (s : S) : Value -> result string Value := fun req => (rpc req s).1.

Definition volume_attachment (env : AgentEnv) (method : string) (params : Value) : option (option string * bool) :=
  if String.eqb method RPC_NVMF_DELETE_SUBSYSTEM then
    owner ← get_str "nqn" params ≫= classify_subsystem_nqn;
    match ae_attached env (pv_name_of_handle owner) with
    | Ok node => Some (node, false)
    | Err _ => Some (None, true)
    end
  else None.

Definition agent_ctx (env : AgentEnv) (va : option (option string * bool)) : BoundaryContext :=
  Ctx (node_host_nqn (ae_node env)) (ae_node env) va.

Definition params_of (request : Value) : Value := default (Obj []) (get "params" request).
Definition method_of (request : Value) : string := default "unknown" (as_str (index "method" request)).

Definition destroy_verdict (env : AgentEnv) (request : Value) (s : S) : option Verdict :=
  let method := method_of request in
  if negb (mem method GUARDED_METHODS) then None
  else
    let params := params_of request in
    if String.eqb method RPC_UBLK_STOP_DISK then
      (fun id => guard_ublk_stop (ae_opener env) (wrap_u32 id)) <$> get_u64 "ublk_id" params
    else boundary_verdict (probe_at s) method params (agent_ctx env (volume_attachment env method params)).

Definition construct_verdict (env : AgentEnv) (request : Value) (s : S) : option Verdict :=
  let method := method_of request in
  if negb (mem method CONSTRUCTION_GUARDED_METHODS) then None
  else construction_boundary_verdict_gated (probe_at s) method (params_of request)
         (construction_guard_enabled (ae_construction env)) (leg_size_guard_enabled (ae_leg_size env)).

Definition handle_spdk_rpc (env : AgentEnv) (request : Value) (s : S) : HttpReply * S :=
  match destroy_verdict env request s ≫= blocked with
  | Some reason => (Conflict reason, s)
  | None =>
      match construct_verdict env request s ≫= blocked with
      | Some reason => (Conflict reason, s)
      | None =>
          match rpc request s with
          | (Ok response, s') => (ProxyOk response, s')
          | (Err e, s') => (ProxyErr e, s')
          end
      end
  end.

(** ** The disk service's lvol delete *)
Definition lvol_delete_request (name : string) : Value := rpc_call RPC_BDEV_LVOL_DELETE [("name", Str name)].

Definition delete_lvol (lvol_uuid : string) (s : S) : result string unit * S :=
  match boundary_verdict (probe_at s) RPC_BDEV_LVOL_DELETE (Obj [("name", Str lvol_uuid)]) (Ctx "" "" None) ≫= blocked with
  | Some reason => (Err reason, s)
  | None =>
      match rpc (lvol_delete_request lvol_uuid) s with
      | (Ok _, s') => (Ok tt, s')
      | (Err e, s') => (Err ("Failed to delete lvol: " ++ e), s')
      end
  end.

(** ** Executing a sweep plan *)
Definition sweep_ctx (node : string) : BoundaryContext := Ctx (node_host_nqn node) node None.

Definition sweep_subsystem (node : string) (s : S) (nqn : string) : S :=
  match boundary_verdict (probe_at s) RPC_NVMF_DELETE_SUBSYSTEM (Obj [("nqn", Str nqn)]) (sweep_ctx node) ≫= blocked with
  | Some _ => s
  | None => (rpc (rpc_call RPC_NVMF_DELETE_SUBSYSTEM [("nqn", Str nqn)]) s).2
  end.

(** One pass over the remaining lvols: those to retry, in order. *)
Fixpoint sweep_pass (node : string) (aliases : list string) (s : S) : list string * S :=
  match aliases with
  | [] => ([], s)
  | alias :: rest =>
      match boundary_verdict (probe_at s) RPC_BDEV_LVOL_DELETE (Obj [("name", Str alias)]) (sweep_ctx node) ≫= blocked with
      | Some _ => let '(next, s') := sweep_pass node rest s in (alias :: next, s')
      | None =>
          let '(r, s1) := rpc (lvol_delete_request alias) s in
          let '(next, s') := sweep_pass node rest s1 in
          (match r with
           | Ok _ => next
           | Err e => if str_contains "No such device" e then next else alias :: next
           end, s')
      end
  end.

(** [for _pass in 0..5], stopping when nothing remains or nothing moved. *)
Fixpoint sweep_passes (passes : nat) (node : string) (remaining : list string) (s : S) : list string * S :=
  match passes with
  | O => (remaining, s)
  | Datatypes.S passes =>
      match remaining with
      | [] => ([], s)
      | _ =>
          let '(next, s') := sweep_pass node remaining s in
          if (length next =? length remaining)%nat then (next, s') else sweep_passes passes node next s'
      end
  end.

Definition execute_sweep (node : string) (plan : SweepPlan) (s : S) : list string * S :=
  let s1 := foldl (sweep_subsystem node) s (delete_subsystem_nqns plan) in
  sweep_passes 5 node (delete_lvol_aliases plan) s1.
End Target.

(** ** The handler against the target's state *)
Section Handler.
Context {S : Type} (rpc : Value -> S -> result string Value * S).

(** What a destructive request must find for its object to be destroyed.
    Malformed requests and operation-scoped names are not guarded. *)
Definition destruction_ok (env : AgentEnv) (T : Target) (request : Value) : Prop :=
  let m := method_of request in
  let p := params_of request in
  (m = RPC_BDEV_LVOL_DELETE -> forall n, get_str "name" p = Some n -> is_operation_scoped n = false -> lvol_free T n) /\
  (m = RPC_BDEV_RAID_DELETE -> forall n, get_str "name" p = Some n -> raid_free T n) /\
  (m = RPC_NVMF_DELETE_SUBSYSTEM -> forall n, get_str "nqn" p = Some n -> is_operation_scoped n = false ->
     subsystem_free T (agent_ctx env (volume_attachment env m p)) n) /\
  (m = RPC_BDEV_NVME_DETACH_CONTROLLER -> forall n, get_str "name" p = Some n -> is_operation_scoped n = false -> detach_free T n) /\
  (m = RPC_UBLK_STOP_DISK -> forall id, get_u64 "ublk_id" p = Some id -> ae_opener env (wrap_u32 id) = OFree).

(** A goal about one method against the conjunction over all of them. *)
Ltac only_conjunct pick :=
  let H := fresh "H" in
  split; intros H; [split_and!; first [intros _; exact H | let He := fresh in intros He; discriminate He] | pick H].

Lemma destroy_verdict_exact env request s T : Answers (probe_at rpc s) T -> NoDup (sub_nqn <$> t_subs T) ->
  mem (method_of request) GUARDED_METHODS = true ->
  (destroy_verdict rpc env request s ≫= blocked = None <-> destruction_ok env T request).
Proof.
  intros HA Hnd Hm. pose proof Hm as Hm'. unfold destroy_verdict. rewrite Hm. cbn [negb].
  unfold GUARDED_METHODS, mem in Hm'. cbn [existsb] in Hm'. rewrite !orb_true_iff, !String.eqb_eq in Hm'.
  unfold destruction_ok. cbv zeta.
  destruct Hm' as [He|[He|[He|[He|[He|He]]]]]; [..|done]; rewrite He;
    match goal with |- context [String.eqb ?m RPC_UBLK_STOP_DISK] =>
      let b := eval vm_compute in (String.eqb m RPC_UBLK_STOP_DISK) in change (String.eqb m RPC_UBLK_STOP_DISK) with b end;
    cbn iota.
  - rewrite subsystem_gate by done. only_conjunct ltac:(fun H => destruct H as (_ & _ & H & _); exact (H eq_refl)).
  - rewrite raid_gate by done. only_conjunct ltac:(fun H => destruct H as (_ & H & _); exact (H eq_refl)).
  - rewrite lvol_gate by done. only_conjunct ltac:(fun H => destruct H as (H & _); exact (H eq_refl)).
  - destruct (get_u64 "ublk_id" (params_of request)) as [id|]; cbn [fmap option_fmap option_map mbind option_bind].
    + unfold guard_ublk_stop. destruct (ae_opener env (wrap_u32 id)) eqn:Ho; cbn [blocked].
      * split; [|done]. intros _. split_and!; try done. by intros _ id' [= <-].
      * split; [done|]. intros (_ & _ & _ & _ & H). specialize (H eq_refl id eq_refl). congruence.
      * split; [done|]. intros (_ & _ & _ & _ & H). specialize (H eq_refl id eq_refl). congruence.
    + split; [|done]. intros _. by split_and!.
  - rewrite detach_gate by done. only_conjunct ltac:(fun H => destruct H as (_ & _ & _ & H & _); exact (H eq_refl)).
Qed.
End Handler.

(** ** Construction at the handler *)
Section Construct.
Context {S : Type} (rpc : Value -> S -> result string Value * S).

(** What a construction must find.  The guard can be switched off, and a
    request without its parameters is not guarded. *)
Definition construction_ok (env : AgentEnv) (T : Target) (request : Value) : Prop :=
  let m := method_of request in
  let p := params_of request in
  let size_on := leg_size_guard_enabled (ae_leg_size env) in
  construction_guard_enabled (ae_construction env) = true ->
  (m = RPC_BDEV_RAID_CREATE -> forall arr, get_array "base_bdevs" p = Some arr -> create_ok T size_on (omap as_str arr)) /\
  (m = RPC_BDEV_RAID_ADD_BASE_BDEV -> forall base raid, get_str "base_bdev" p = Some base -> get_str "raid_bdev" p = Some raid ->
     add_ok T size_on base raid) /\
  (m = RPC_NVMF_SUBSYSTEM_ADD_NS -> forall n, get "namespace" p ≫= get_str "bdev_name" = Some n -> add_ns_ok T n).

Lemma create_gate probe T p size_on : Answers probe T ->
  construction_boundary_verdict_gated probe RPC_BDEV_RAID_CREATE p true size_on ≫= blocked = None <->
  forall arr, get_array "base_bdevs" p = Some arr -> create_ok T size_on (omap as_str arr).
Proof.
  intros HA. destruct (get_array "base_bdevs" p) as [arr|] eqn:Hp.
  - destruct (create_exact probe T p arr size_on Hp) as (v & -> & Hv). cbn [mbind option_bind]. rewrite Hv.
    split; [by intros ? ? [= <-]|by auto].
  - unfold construction_boundary_verdict_gated. cbn. rewrite Hp. cbn. split; [|done]. by intros _ ? [=].
Qed.
Lemma add_gate probe T p size_on : Answers probe T ->
  construction_boundary_verdict_gated probe RPC_BDEV_RAID_ADD_BASE_BDEV p true size_on ≫= blocked = None <->
  forall base raid, get_str "base_bdev" p = Some base -> get_str "raid_bdev" p = Some raid -> add_ok T size_on base raid.
Proof.
  intros HA. destruct (get_str "base_bdev" p) as [base|] eqn:Hp, (get_str "raid_bdev" p) as [raid|] eqn:Hq.
  - destruct (add_exact probe T p base raid size_on Hp Hq) as (v & -> & Hv). cbn [mbind option_bind]. rewrite Hv.
    split; [by intros ? ? ? [= <-] [= <-]|by auto].
  - unfold construction_boundary_verdict_gated. cbn. rewrite Hp. cbn. rewrite Hq. cbn. split; [|done]. by intros _ ? ? _ [=].
  - unfold construction_boundary_verdict_gated. cbn. rewrite Hp. cbn. split; [|done]. by intros _ ? ? [=].
  - unfold construction_boundary_verdict_gated. cbn. rewrite Hp. cbn. split; [|done]. by intros _ ? ? [=].
Qed.
Lemma add_ns_gate probe T p size_on : Answers probe T ->
  construction_boundary_verdict_gated probe RPC_NVMF_SUBSYSTEM_ADD_NS p true size_on ≫= blocked = None <->
  forall n, get "namespace" p ≫= get_str "bdev_name" = Some n -> add_ns_ok T n.
Proof.
  intros HA. destruct (get "namespace" p ≫= get_str "bdev_name") as [n|] eqn:Hp.
  - destruct (add_ns_exact probe T p n size_on Hp) as (v & -> & Hv). cbn [mbind option_bind]. rewrite Hv.
    split; [by intros ? ? [= <-]|by auto].
  - unfold construction_boundary_verdict_gated. cbn. rewrite Hp. cbn. split; [|done]. by intros _ ? [=].
Qed.

Lemma construct_verdict_exact env request s T : Answers (probe_at rpc s) T ->
  mem (method_of request) CONSTRUCTION_GUARDED_METHODS = true ->
  (construct_verdict rpc env request s ≫= blocked = None <-> construction_ok env T request).
Proof.
  intros HA Hm. pose proof Hm as Hm'. unfold construct_verdict. rewrite Hm. cbn [negb].
  unfold CONSTRUCTION_GUARDED_METHODS, mem in Hm'. cbn [existsb] in Hm'. rewrite !orb_true_iff, !String.eqb_eq in Hm'.
  unfold construction_ok. cbv zeta. destruct (construction_guard_enabled _).
  2:{ unfold construction_boundary_verdict_gated. cbn. split; [by intros _ [=]|done]. }
  set (q := leg_size_guard_enabled _).
  destruct Hm' as [He|[He|[He|He]]]; [..|done]; rewrite He.
  - rewrite create_gate by done.
    split; [intros H _; split_and!; [by intros _|by intros [=]..]|intros H; destruct (H eq_refl) as (H1 & _); exact (H1 eq_refl)].
  - rewrite add_gate by done.
    split; [intros H _; split_and!; [by intros [=]|by intros _|by intros [=]]|intros H; destruct (H eq_refl) as (_ & H1 & _); exact (H1 eq_refl)].
  - rewrite add_ns_gate by done.
    split; [intros H _; split_and!; [by intros [=]|by intros [=]|by intros _]|intros H; destruct (H eq_refl) as (_ & _ & H1); exact (H1 eq_refl)].
Qed.

(** ** The handler's answer *)
Definition forwarded (request : Value) (s : S) : HttpReply * S :=
  match rpc request s with (Ok response, s') => (ProxyOk response, s') | (Err e, s') => (ProxyErr e, s') end.

Lemma handle_split env request s :
  handle_spdk_rpc rpc env request s =
  match destroy_verdict rpc env request s ≫= blocked with
  | Some reason => (Conflict reason, s)
  | None => match construct_verdict rpc env request s ≫= blocked with
            | Some reason => (Conflict reason, s)
            | None => forwarded request s
            end
  end.
Proof. done. Qed.

Lemma methods_apart m : mem m GUARDED_METHODS = true -> mem m CONSTRUCTION_GUARDED_METHODS = false.
Proof.
  unfold GUARDED_METHODS, mem. cbn [existsb]. rewrite !orb_true_iff, !String.eqb_eq.
  by intros [->|[->|[->|[->|[->|?]]]]].
Qed.
End Construct.

(** ** What a sweep may touch *)

(** A target whose deletions touch no more than their object: deleting a bdev
    leaves the other bdevs, the raids without it as a base and the exports
    without it as a namespace; deleting a subsystem leaves everything but it.
    [ok] is the target's own invariant. *)
Class Deletes {S : Type} (rpc : Value -> S -> result string Value * S) (view : S -> Target) (ok : S -> Prop) : Prop := {
  del_answers s : ok s -> Answers (probe_at rpc s) (view s);
  del_nqns s : ok s -> NoDup (sub_nqn <$> t_subs (view s));
  del_lvol_ok n s : ok s -> ok (rpc (lvol_delete_request n) s).2;
  del_sub_ok n s : ok s -> ok (rpc (rpc_call RPC_NVMF_DELETE_SUBSYSTEM [("nqn", Str n)]) s).2;
  del_lvol n s : ok s ->
    let T := view s in
    let T' := view (rpc (lvol_delete_request n) s).2 in
    (forall b, b ∈ t_bdevs T -> find_bdev T n <> Some b -> b ∈ t_bdevs T') /\
    (forall r, r ∈ t_raids T -> (forall b, find_bdev T n = Some b -> ~ raid_uses (identities b) r) -> r ∈ t_raids T') /\
    (forall x, x ∈ t_subs T -> (forall b, find_bdev T n = Some b -> ~ Exists (ns_in (identities b)) (sub_ns x)) -> x ∈ t_subs T');
  del_sub n s : ok s ->
    let T := view s in
    let T' := view (rpc (rpc_call RPC_NVMF_DELETE_SUBSYSTEM [("nqn", Str n)]) s).2 in
    t_bdevs T ⊆ t_bdevs T' /\ t_raids T ⊆ t_raids T' /\
    (forall x, x ∈ t_subs T -> sub_nqn x <> n -> x ∈ t_subs T')
}.

(** An export with a connected host that is this node, or that it admits. *)
Definition rightful (node : string) (x : Subsystem) : Prop :=
  node_host_nqn node ∈ sub_hosts_live x \/ exists h, h ∈ sub_hosts_live x /\ (sub_any_host x = true \/ h ∈ sub_hosts x).

Lemma rightful_live node x : rightful node x -> sub_hosts_live x <> [].
Proof. by intros [Hin|(h & Hin & _)] He; rewrite He in Hin; apply elem_of_nil in Hin. Qed.

(** Nothing in use at [T] is gone at [T']. *)
Record spares (node : string) (T T' : Target) : Prop := MkSpares {
  sp_raids : t_raids T ⊆ t_raids T';
  sp_subs : forall x, x ∈ t_subs T -> rightful node x -> x ∈ t_subs T';
  sp_bdevs : forall b, b ∈ t_bdevs T ->
    (exists r, r ∈ t_raids T /\ raid_uses (identities b) r) \/
    (exists x, x ∈ t_subs T /\ rightful node x /\ Exists (ns_in (identities b)) (sub_ns x)) -> b ∈ t_bdevs T'
}.

Lemma spares_refl node T : spares node T T.
Proof. split; auto. Qed.
Lemma spares_trans node T1 T2 T3 : spares node T1 T2 -> spares node T2 T3 -> spares node T1 T3.
Proof.
  intros [R1 S1 B1] [R2 S2 B2]. split; [set_solver|by eauto|]. intros b Hb Hu. apply B2; [by apply B1|].
  destruct Hu as [(r & Hr & Hu)|(x & Hx & Hr & Hn)]; [left; eauto|right; eauto 10].
Qed.

Section Sweep.
Context {S : Type} (rpc : Value -> S -> result string Value * S) (view : S -> Target) (ok : S -> Prop) `{HD : !Deletes rpc view ok}.
Context (node : string).

(** A permitted lvol delete. *)
Lemma lvol_delete_spares ctx n s : ok s -> is_operation_scoped n = false ->
  boundary_verdict (probe_at rpc s) RPC_BDEV_LVOL_DELETE (Obj [("name", Str n)]) ctx ≫= blocked = None ->
  spares node (view s) (view (rpc (lvol_delete_request n) s).2).
Proof.
  intros Hok Hsc Hv. pose proof (del_answers s Hok) as HA.
  rewrite lvol_gate in Hv by done. specialize (Hv n eq_refl Hsc). destruct (del_lvol n s Hok) as (Hb & Hr & Hx).
  assert (forall b x, find_bdev (view s) n = Some b -> x ∈ t_subs (view s) -> rightful node x ->
    ~ Exists (ns_in (identities b)) (sub_ns x)) as Hfree.
  { intros b x Hf Hin Hrt He. destruct (Hv b Hf) as [_ Hl]. apply (Hl x Hin). split; [done|by eapply rightful_live]. }
  split.
  - intros r Hin. apply Hr; [done|]. intros b Hf. destruct (Hv b Hf) as [H _]. by apply H.
  - intros x Hin Hrt. apply Hx; [done|]. by eauto.
  - intros b Hin Hu. apply Hb; [done|]. intros Hf. destruct Hu as [(r & Hin' & Hu)|(x & Hin' & Hrt & Hn)].
    + destruct (Hv b Hf) as [H _]. by apply (H r).
    + by apply (Hfree b x).
Qed.

(** A permitted subsystem delete. *)
Lemma subsystem_delete_spares n s : ok s -> is_operation_scoped n = false ->
  boundary_verdict (probe_at rpc s) RPC_NVMF_DELETE_SUBSYSTEM (Obj [("nqn", Str n)]) (sweep_ctx node) ≫= blocked = None ->
  spares node (view s) (view (rpc (rpc_call RPC_NVMF_DELETE_SUBSYSTEM [("nqn", Str n)]) s).2).
Proof.
  intros Hok Hsc Hv. pose proof (del_answers s Hok) as HA. pose proof (del_nqns s Hok) as Hnd.
  rewrite subsystem_gate in Hv by done. specialize (Hv n eq_refl Hsc). destruct (del_sub n s Hok) as (Hb & Hr & Hx).
  split; [done| |by auto]. intros x Hin Hrt. apply Hx; [done|]. intros Hq.
  destruct (Hv x Hin Hq) as (H1 & H2 & _). destruct Hrt as [H|(h & Hh & Ha)]; [done|].
  destruct (H2 h Hh) as [H3 H4]. destruct Ha; [congruence|done].
Qed.

Lemma sweep_subsystem_spares n s : ok s -> is_operation_scoped n = false ->
  ok (sweep_subsystem rpc node s n) /\ spares node (view s) (view (sweep_subsystem rpc node s n)).
Proof.
  intros Hok Hsc. unfold sweep_subsystem. destruct (boundary_verdict _ _ _ _ ≫= blocked) as [r|] eqn:Hv.
  - split; [done|apply spares_refl].
  - split; [by apply del_sub_ok|by apply subsystem_delete_spares].
Qed.

Lemma sweep_pass_spares aliases : forall s, ok s -> Forall (fun a => is_operation_scoped a = false) aliases ->
  let '(next, s') := sweep_pass rpc node aliases s in
  ok s' /\ spares node (view s) (view s') /\ sublist next aliases.
Proof.
  induction aliases as [|a rest IH]; intros s Hok Hall; cbn [sweep_pass]; [split_and!; [done|apply spares_refl|done]|].
  inversion Hall as [|? ? Hsc Hrest]; subst. destruct (boundary_verdict _ _ _ _ ≫= blocked) as [r|] eqn:Hv.
  - specialize (IH s Hok Hrest). destruct (sweep_pass rpc node rest s) as [next s']. destruct IH as (? & ? & ?).
    split_and!; [done|done|by apply sublist_skip].
  - pose proof (lvol_delete_spares _ _ s Hok Hsc Hv) as Hsp. pose proof (del_lvol_ok a s Hok) as Hok1.
    destruct (rpc (lvol_delete_request a) s) as [r s1]. cbn [snd] in *.
    specialize (IH s1 Hok1 Hrest). destruct (sweep_pass rpc node rest s1) as [next s'] eqn:Hp. destruct IH as (? & ? & ?).
    split_and!; [done|by eapply spares_trans|].
    destruct r as [|e]; repeat case_match; first [by apply sublist_cons|by apply sublist_skip].
Qed.

Lemma sweep_passes_spares k : forall aliases s, ok s -> Forall (fun a => is_operation_scoped a = false) aliases ->
  let '(rest, s') := sweep_passes rpc k node aliases s in
  ok s' /\ spares node (view s) (view s') /\ sublist rest aliases.
Proof.
  induction k as [|k IH]; intros aliases s Hok Hall; cbn [sweep_passes]; [split_and!; [done|apply spares_refl|done]|].
  destruct aliases as [|a l]; [split_and!; [done|apply spares_refl|done]|].
  pose proof (sweep_pass_spares (a :: l) s Hok Hall) as Hp.
  destruct (sweep_pass rpc node (a :: l) s) as [next s1]. destruct Hp as (Hok1 & Hsp & Hsub).
  destruct (_ =? _)%nat; [done|].
  assert (Forall (fun a => is_operation_scoped a = false) next) as Hn
    by (rewrite Forall_forall in *; intros x Hx; apply Hall; by eapply elem_of_sublist).
  specialize (IH next s1 Hok1 Hn). destruct (sweep_passes rpc k node next s1) as [rest s']. destruct IH as (? & ? & ?).
  split_and!; [done|by eapply spares_trans|by etransitivity].
Qed.

Lemma execute_spares plan s : ok s ->
  Forall (fun a => is_operation_scoped a = false) (delete_subsystem_nqns plan) ->
  Forall (fun a => is_operation_scoped a = false) (delete_lvol_aliases plan) ->
  let '(rest, s') := execute_sweep rpc node plan s in
  ok s' /\ spares node (view s) (view s') /\ sublist rest (delete_lvol_aliases plan).
Proof.
  intros Hok Hs Hl. unfold execute_sweep.
  assert (forall l s0, ok s0 -> Forall (fun a => is_operation_scoped a = false) l ->
    ok (foldl (sweep_subsystem rpc node) s0 l) /\ spares node (view s0) (view (foldl (sweep_subsystem rpc node) s0 l))) as Hf.
  { induction l as [|n l IH]; intros s0 H0 Hall; cbn [foldl]; [split; [done|apply spares_refl]|].
    inversion Hall as [|? ? Hsc Hall']; subst. destruct (sweep_subsystem_spares n s0 H0) as [H1 H2]; [done|].
    destruct (IH _ H1) as [H3 H4]; [done|]. split; [done|by eapply spares_trans]. }
  destruct (Hf _ s Hok Hs) as [Hok1 Hsp]. pose proof (sweep_passes_spares 5 _ _ Hok1 Hl) as Hp.
  destruct (sweep_passes _ _ _ _ _) as [rest s']. destruct Hp as (? & ? & ?).
  split_and!; [done|by eapply spares_trans|done].
Qed.
End Sweep.

(** ** A target that deletes so *)
Definition delete_bdev (b : Bdev) (T : Target) : Target :=
  MkTarget (filter (fun c => ~ (b_name c = b_name b /\ b_uuid c = b_uuid b /\ b_aliases c = b_aliases b)) (t_bdevs T))
    (filter (fun r => ~ raid_uses (identities b) r) (t_raids T))
    ((fun x => MkSub (sub_nqn x) (sub_any_host x) (sub_hosts x) (filter (fun n => ~ ns_in (identities b) n) (sub_ns x))
                 (sub_hosts_live x)) <$> t_subs T)
    (t_disks T).

Definition spdk_rpc (req : Value) (T : Target) : result string Value * Target :=
  let method := default "" (get_str "method" req) in
  let param k := default "" (get "params" req ≫= get_str k) in
  if String.eqb method RPC_BDEV_LVOL_DELETE then
    match find_bdev T (param "name") with
    | Some b => (Ok (rows []), delete_bdev b T)
    | None => (Err "SPDK RPC error: Code=-19 Msg=No such device", T)
    end
  else if String.eqb method RPC_NVMF_DELETE_SUBSYSTEM then
    (Ok (rows []), MkTarget (t_bdevs T) (t_raids T) (filter (fun x => sub_nqn x <> param "nqn") (t_subs T)) (t_disks T))
  else (spdk_answers T req, T).

Definition distinct_nqns (T : Target) : Prop := NoDup (sub_nqn <$> t_subs T).

(** The same request as the queries' answers. *)
Lemma spdk_rpc_probe T : distinct_nqns T -> Answers (probe_at spdk_rpc T) T.
Proof.
  intros Hn. destruct (spdk_answers_Answers T Hn) as [H1 H2 H3 H4 H5].
  split; [exact H1|exact H2|exact H3|exact H4|exact H5].
Qed.

Lemma lvol_rpc n T : (spdk_rpc (lvol_delete_request n) T).2 =
  match find_bdev T n with Some b => delete_bdev b T | None => T end.
Proof. change (spdk_rpc (lvol_delete_request n) T) with (match find_bdev T n with
  | Some b => (Ok (rows []), delete_bdev b T) | None => (Err "SPDK RPC error: Code=-19 Msg=No such device", T) end).
  by destruct (find_bdev T n). Qed.
Lemma sub_rpc n T : (spdk_rpc (rpc_call RPC_NVMF_DELETE_SUBSYSTEM [("nqn", Str n)]) T).2 =
  MkTarget (t_bdevs T) (t_raids T) (filter (fun x => sub_nqn x <> n) (t_subs T)) (t_disks T).
Proof. done. Qed.

(** Bdevs are told apart by their identities. *)
Definition distinct_bdevs (T : Target) : Prop := NoDup (identities <$> t_bdevs T).
Definition target_ok (T : Target) : Prop := distinct_nqns T /\ distinct_bdevs T.

#[export] Instance spdk_rpc_Deletes : Deletes spdk_rpc id target_ok.
Proof.
  split; unfold id.
  - intros T [Hn _]. by apply spdk_rpc_probe.
  - by intros T [Hn _].
  - intros n T [Hn Hb]. rewrite lvol_rpc. destruct (find_bdev T n) as [b|]; [|done]. split.
    + unfold distinct_nqns, delete_bdev in *. cbn [t_subs]. by rewrite <- list_fmap_compose.
    + by apply fmap_filter_NoDup.
  - intros n T [Hn Hb]. rewrite sub_rpc. split; [|done]. by apply fmap_filter_NoDup.
  - intros n T [_ Hd]. cbv zeta. rewrite lvol_rpc. destruct (find_bdev T n) as [b|] eqn:Hf; [|done].
    apply find_bdev_Some in Hf as [Hin _]. unfold delete_bdev. cbn [t_bdevs t_raids t_subs]. split_and!.
    + intros c Hc Hne. apply list_elem_of_filter. split; [|done]. intros (E1 & E2 & E3). apply Hne. f_equal.
      apply (fmap_NoDup_inj identities _ _ _ Hd Hin Hc). unfold identities. congruence.
    + intros r Hr Hu. apply list_elem_of_filter. split; [|done]. by apply Hu.
    + intros x Hx Hu. apply list_elem_of_fmap. exists x. split; [|done]. specialize (Hu b eq_refl).
      destruct x as [q a h ns l]. cbn in *. f_equal. symmetry. clear -Hu. induction ns as [|m ns IH]; [done|].
      rewrite Exists_cons in Hu. rewrite filter_cons, decide_True by tauto. f_equal. apply IH. tauto.
  - intros n T _. cbv zeta. rewrite sub_rpc. cbn [t_bdevs t_raids t_subs]. split_and!; [done|done|].
    intros x Hx Hne. by apply list_elem_of_filter.
Qed.
