(* ===== verification/GuardClaims.v ===== *)
(** Theorems on the control plane: volume claims, object names, the orphan
    sweep, the destruction and construction guards. *)

From Stdlib Require Import Ascii String.
From S2P Require Import Prelude Csv Strs Identity VolumeClaims GuardedDestroy LegSize OrphanSweep NodeGuard.
Local Open Scope string_scope.

(** ** Volume claims *)

(** C8: Over any history of the claim registry from start-up (fewer calls than
    generations): every granted claim has its own generation; whoever holds a
    volume has a guard nobody has dropped yet; dropping a guard frees its own
    claim and no other; and a volume is granted again while the earlier guard
    is still out only if arbitration is on and more than the lease has passed
    since the earlier grant. *)
Theorem claims_exclusive cfg t0 cs tr w : Z.of_nat (length cs) < u64_max - 1 ->
  run_calls (World_init cfg t0) cs = Some (tr, w) ->
  NoDup (grants tr).*2 /\
  (forall v h, holder_of v (w_claims w) = Some h -> (v, h_generation h) ∈ w_guards w) /\
  (forall t v g u, holder_of u (drop_claim t v g (w_claims w)) =
     (h ← holder_of u (w_claims w); if bool_decide (u = v /\ h_generation h = g) then None else Some h)) /\
  (forall tr1 t1 v op1 g1 tr2 t2 op2 g2 tr3,
     tr = (tr1 ++ (Ask t1 v op1, Some g1) :: tr2 ++ (Ask t2 v op2, Some g2) :: tr3)%list ->
     (forall t a, (Drop t v g1, a) ∉ tr2) ->
     arbitration cfg = true /\ cc_lease cfg < t2 - t1).
Proof.
  intros Hl Hr. destruct (excl_run cs 0 _ _ _ ltac:(lia) ltac:(lia) (excl_init cfg t0) Hr) as [Hx Hg].
  split_and!.
  - rewrite Hg. apply NoDup_seqZ.
  - intros v h Hh. by apply (ex_held _ _ Hx).
  - intros. apply holder_drop.
  - intros tr1 t1 v op1 g1 tr2 t2 op2 g2 tr3 -> Hd. exact (overlap _ _ _ _ _ _ _ _ _ _ _ _ _ Hr Hd).
Qed.

Definition secs (n : Z) : Z := n * 10 ^ 9.
Definition stock_config : ClaimConfig := ClaimConfig_from_env None None None None None.
(** A catch-up holds the volume, a cutover asks for it, the catch-up ends,
    another asks first. *)
Definition first_calls : list Call := [Ask (secs 0) "v" OP_CATCHUP; Ask (secs 60) "v" OP_CUTOVER].
Definition later_calls : list Call := [Drop (secs 100) "v" 1; Ask (secs 120) "v" OP_CATCHUP].
Definition ran (w : World) (cs : list Call) : list (Call * option Z) * World := default ([], w) (run_calls w cs).
Definition first_run := ran (World_init stock_config 0) first_calls.
Definition later_run := ran first_run.2 later_calls.
Lemma first_run_eq : run_calls (World_init stock_config 0) first_calls = Some (first_run.1, first_run.2).
Proof. vm_compute. reflexivity. Qed.
Lemma later_run_eq : run_calls first_run.2 later_calls = Some (later_run.1, later_run.2).
Proof. vm_compute. reflexivity. Qed.

Lemma claims_exclusive_witness :
  grants first_run.1 = [(0, "v", OP_CATCHUP, 1)] /\ NoDup (grants first_run.1).*2.
Proof.
  split; [vm_compute; reflexivity|].
  refine (proj1 (claims_exclusive stock_config 0 first_calls first_run.1 first_run.2 _ first_run_eq)).
  vm_compute. reflexivity.
Defined.

(** C16: A reservation wins the next release.  Let [r] stand on a volume, and
    let calls follow up to the instant it would lapse (its last refresh plus
    the time to live, or its placing plus the age cap, whichever is first),
    with neither its op withdrawing it nor a resolver being granted.  Then
    nobody was granted the volume meanwhile, the reservation is still there,
    any maintainer that asks is refused, and a resolver that asks is granted
    unless the holder of before is still there within its lease. *)
Theorem resolver_wins cfg t0 cs1 tr1 w1 v r cs2 tr2 w2 t :
  cfg_ok cfg -> arbitration cfg = true ->
  run_calls (World_init cfg t0) cs1 = Some (tr1, w1) -> reservation_of v (w_claims w1) = Some r ->
  run_calls w1 cs2 = Some (tr2, w2) -> w_now w2 <= t <= stands_until cfg r ->
  (forall t' a, (Unreserve t' v (rs_op r), a) ∉ tr2) ->
  (forall t' op g, (t', v, op, g) ∈ grants tr2 -> class_of op = Maintainer) ->
  ~ granted_on v tr2 /\
  (exists r', reservation_of v (w_claims w2) = Some r' /\ rs_op r' = rs_op r /\ rs_placed r' = rs_placed r) /\
  (forall op, class_of op = Maintainer -> (try_claim t v op (w_claims w2)).1 = None) /\
  (forall op, class_of op = Resolver ->
     (forall h, holder_of v (w_claims w1) = Some h -> holder_of v (w_claims w2) = Some h -> cc_lease cfg < t - h_since h) ->
     (try_claim t v op (w_claims w2)).1 <> None).
Proof.
  intros Hok Harb Hr1 Hres Hr2 Ht Hnu Hng. pose proof (run_cfg _ _ _ _ Hr1) as Hc1. cbn in Hc1.
  pose proof (run_cfg _ _ _ _ Hr2) as Hc2. rewrite Hc1 in Hc2.
  destruct (dated_run _ _ _ _ _ Hr1 v r Hres) as [_ Hdt]. pose proof (run_now _ _ _ _ Hr2) as Hn.
  assert (reserved v r w1) as Hrs by (by exists r).
  destruct (reserved_run v r cs2 w1 tr2 w2) as [Hrs2 Hng2]; rewrite ?Hc1; try done; [lia|].
  split_and!; [done|by destruct Hrs2 as (r' & ? & ? & ? & _); eauto| |].
  - intros op Hm. destruct (try_claim t v op (w_claims w2)) as [a vc] eqn:Ha. cbn [fst].
    destruct (reserved_step v r (Ask t v op) w2 a (MkWorld vc (guards_after (Ask t v op) a (w_guards w2)) t)) as [_ H];
      rewrite ?Hc2; try done; [lia| |cbn; lia| |by eapply H].
    + unfold perform, allowed. cbn. rewrite Ha. by replace (w_now w2 <=? t)%Z with true by (symmetry; apply Z.leb_le; lia).
    + intros t' op' g [= <- <-] _. done.
  - intros op Hm Hh Hnone. apply resolver_ask in Hnone as (h & Hh2 & Hl); [|done]. rewrite Hc2 in Hl.
    pose proof (holder_run v cs2 _ _ _ Hr2 Hng2 h Hh2) as Hh1. specialize (Hh h Hh1 Hh2).
    destruct Hl as [?|Hl]; [congruence|]. unfold since in Hl. lia.
Qed.

Lemma resolver_wins_witness :
  exists r, reservation_of "v" (w_claims first_run.2) = Some r /\
    (try_claim (secs 130) "v" OP_CATCHUP (w_claims later_run.2)).1 = None /\
    (try_claim (secs 130) "v" OP_CUTOVER (w_claims later_run.2)).1 <> None.
Proof.
  exists (Reserve OP_CUTOVER (secs 60) (secs 60)). split; [vm_compute; reflexivity|].
  destruct (resolver_wins stock_config 0 first_calls first_run.1 first_run.2 "v" (Reserve OP_CUTOVER (secs 60) (secs 60))
    later_calls later_run.1 later_run.2 (secs 130)) as (_ & _ & Hm & Hr).
  - apply from_env_ok.
  - reflexivity.
  - exact first_run_eq.
  - vm_compute. reflexivity.
  - exact later_run_eq.
  - vm_compute. split; discriminate.
  - intros t' a Hin. vm_compute in Hin. repeat (apply elem_of_cons in Hin as [Hin|Hin]; [discriminate Hin|]).
    by apply elem_of_nil in Hin.
  - intros t' op g Hin. vm_compute in Hin. by apply elem_of_nil in Hin.
  - split; [by apply Hm|]. apply Hr; [done|]. intros h _ Hh. vm_compute in Hh. discriminate Hh.
Defined.

(** C31: Maintainers get their turn.  A volume that is free and is granted to
    nobody for longer than the reservations' time to live is granted to the
    next operation that asks, whatever its class.  And the first request made
    past a reservation's age cap ends it and starts a backoff: until the
    backoff is over no reservation is placed on the volume, and whoever finds
    it free is granted. *)
Theorem maintainer_turn cfg t0 cs1 tr1 w1 v : cfg_ok cfg -> run_calls (World_init cfg t0) cs1 = Some (tr1, w1) ->
  (holder_of v (w_claims w1) = None -> forall cs2 tr2 w2 t op,
     run_calls w1 cs2 = Some (tr2, w2) -> ~ granted_on v tr2 -> w_now w1 + reservation_ttl cfg < t ->
     (try_claim t v op (w_claims w2)).1 <> None) /\
  (forall r t op a w2, reservation_of v (w_claims w1) = Some r -> reservation_max cfg < t - rs_placed r ->
     perform (Ask t v op) w1 = Some (a, w2) ->
     forall cs2 tr2 w3, run_calls w2 cs2 = Some (tr2, w3) -> w_now w3 < t + cc_backoff cfg ->
       reservation_of v (w_claims w3) = None /\
       (holder_of v (w_claims w3) = None -> forall t' op', (try_claim t' v op' (w_claims w3)).1 <> None)).
Proof.
  intros Hok Hr1. pose proof (run_cfg _ _ _ _ Hr1) as Hc1. cbn in Hc1. split.
  - intros Hfree cs2 tr2 w2 t op Hr2 Hng Ht Hnone. pose proof (run_cfg _ _ _ _ Hr2) as Hc2. rewrite Hc1 in Hc2.
    destruct (idle_run v (w_now w1) cs2 w1 tr2 w2) as [Hh Hi]; [|done|done|].
    { split; [done|]. intros r Hr. by apply (dated_run _ _ _ _ _ Hr1 v r). }
    apply maintainer_ask in Hnone as (r & Hr & _ & _ & Hl & _); [|done]. specialize (Hi r Hr).
    rewrite Hc2 in Hl. unfold since in Hl. lia.
  - intros r t op a w2 Hres Hm Hp cs2 tr2 w3 Hr2 Ht. pose proof Hp as (_ & Ha & _)%perform_Some. cbn in Ha.
    pose proof (act_cfg (Ask t v op) _ _ _ Ha) as Hc2. rewrite Hc1 in Hc2.
    assert (barred v (t + cc_backoff cfg) w2) as Hb.
    { destruct (cap_bars t v op (w_claims w1) a (w_claims w2) r) as (e & ? & ? & He); rewrite ?Hc1; try done.
      exists e. by rewrite Hc1 in He. }
    destruct (barred_run v _ cs2 w2 tr2 w3 Hb Hr2 Ht) as (e & He & Hn & _).
    assert (reservation_of v (w_claims w3) = None) as Hnr by (unfold reservation_of; by rewrite He).
    split; [done|]. intros Hh t' op' Hnone. apply maintainer_ask in Hnone as (r' & Hr' & _); [|done]. congruence.
Qed.

Lemma maintainer_turn_witness :
  holder_of "v" (w_claims later_run.2) = None /\ (try_claim (secs 400) "v" OP_CATCHUP (w_claims later_run.2)).1 <> None.
Proof.
  split; [vm_compute; reflexivity|].
  destruct (maintainer_turn stock_config 0 (first_calls ++ later_calls) (first_run.1 ++ later_run.1) later_run.2 "v") as [H _].
  - apply from_env_ok.
  - vm_compute. reflexivity.
  - apply (H ltac:(vm_compute; reflexivity) [] [] later_run.2); [reflexivity| |vm_compute; reflexivity].
    intros (t & op & g & Hin). by apply elem_of_nil in Hin.
Defined.

(** ** Names *)

(** C30: For every storage id CreateVolume accepts, each lvol minted for the
    volume (the primary, replica legs, hot-rejoin heads, epoch snapshots, user
    snapshots under any 64-bit suffix or a request's name, clone sources) reads back
    as that volume and, in the dashboard's reading, as its kind; so do its
    export, its legs' exports under their three names and the hot-rejoin
    pads', and leg and pad exports are told from the volume's own; the
    hot-rejoin export, block exports and a node's own NQN read back as
    nobody's; the lvol names under the NFS-backing handle belong to the
    volume; and every lvol name fits SPDK's limit, when epochs stay below
    10^10 and timestamp suffixes below 10^11 (a suffix made from a request's
    name always fits). *)
Theorem names_read_back v i seq ts csi : storage_id_refusal v = None -> 0 <= i < MAX_REPLICAS -> is_u64 seq -> is_u64 ts ->
  let lvols := [lvol_name v; replica_lvol_name (Sid v) i; hr_head_lvol_name (Sid v) i; epoch_snapshot_name v seq;
                user_snapshot_name v ts; stable_snapshot_name v csi; temp_clone_snapshot_name v] in
  classify_lvol <$> lvols = replicate 7 (Some (Pv v)) /\
  lvol_owner <$> lvols =
    (fun k => Some (v, k)) <$> [Primary; Replica; Replica; EpochSnapshot; UserSnapshot; UserSnapshot; CloneSource] /\
  classify_subsystem_nqn <$> [volume_nqn v; replica_export_nqn (Sid v) i; replica_alias_nqn (Sid v) i;
    volume_nqn (replica_volume_id (Sid v) i); volume_nqn (hrpad_export_id (Sid v) i)] = replicate 5 (Some v) /\
  is_replica_export_nqn <$> [replica_export_nqn (Sid v) i; replica_alias_nqn (Sid v) i;
    volume_nqn (hrpad_export_id (Sid v) i); volume_nqn v] = [true; true; true; false] /\
  classify_subsystem_nqn <$> [hotrejoin_export_nqn (Sid v); block_volume_export_nqn v; block_leg_export_nqn v; node_host_nqn v] =
    replicate 4 None /\
  lvol_belongs_to (lvol_name (backing_handle v)) (Sid v) = true /\
  lvol_belongs_to (replica_lvol_name (Sid (backing_handle v)) i) (Sid v) = true /\
  (seq < 10 ^ 10 -> ts < 10 ^ 11 -> Forall (fun s => Z.of_nat (String.length s) <= SPDK_LVOL_NAME_USABLE) lvols).
Proof.
  intros Ha Hi Hsu Htu lvols. pose proof (accepted_valid v Ha) as Hv. pose proof (vi_plain _ Hv) as Hp.
  destruct (stable_name_is_user v csi) as (n & Hst & Hnu). pose proof (stable_name_fits v csi Hv) as Hsf. unfold lvols.
  destruct (read_lvols v Hp i seq ltac:(lia) Hsu) as (L1 & L2 & L3 & L4 & _ & L6).
  destruct (read_lvols v Hp i ts ltac:(lia) Htu) as (_ & _ & _ & _ & L5 & _).
  destruct (read_lvols v Hp i n ltac:(lia) Hnu) as (_ & _ & _ & _ & L7 & _).
  destruct (read_owners v Hp i seq ltac:(lia) Hsu) as (O1 & O2 & O3 & O4 & _ & O6).
  destruct (read_owners v Hp i ts ltac:(lia) Htu) as (_ & _ & _ & _ & O5 & _).
  destruct (read_owners v Hp i n ltac:(lia) Hnu) as (_ & _ & _ & _ & O7 & _).
  destruct (read_exports v Hp i ltac:(lia)) as (E1 & E2 & E3 & E4 & E5).
  destruct (read_legs v Hp i ltac:(lia)) as (I1 & I2 & I3 & I4).
  destruct (foreign_nqns v) as (F1 & F2 & F3 & F4).
  destruct (read_lvols (backing_handle v) (backing_plain v Hp) i seq ltac:(lia) Hsu) as (B1 & B2 & _).
  cbn [fmap list_fmap]. rewrite Hst in *.
  rewrite L1, L2, L3, L4, L5, L6, L7, O1, O2, O3, O4, O5, O6, O7, E1, E2, E3, E4, E5, I1, I2, I3, I4, F1, F2, F3, F4.
  unfold lvol_belongs_to. rewrite B1, B2, backing_storage_id. cbn [sid_str]. rewrite String.eqb_refl.
  split_and!; try done. intros Hs Ht.
  pose proof (names_fit v i seq ts Hv Hi ltac:(unfold is_u64 in *; lia) ltac:(unfold is_u64 in *; lia)) as Hf.
  rewrite !Forall_cons, Forall_nil in *. unfold SPDK_LVOL_NAME_USABLE. destruct Hf as (? & ? & ? & ? & ? & ? & _). split_and!; try done; lia.
Qed.

Lemma names_read_back_witness :
  classify_lvol "vol_pvc-7a_replica_2_hr" = Some (Pv "pvc-7a") /\
  classify_lvol (stable_snapshot_name "pvc-7a" "snapshot-1") = Some (Pv "pvc-7a") /\
  classify_subsystem_nqn (replica_export_nqn (Sid "pvc-7a") 2) = Some "pvc-7a".
Proof.
  destruct (names_read_back "pvc-7a" 2 17 1700000000 "snapshot-1") as (H1 & _ & H3 & _).
  - vm_compute. reflexivity.
  - unfold MAX_REPLICAS. lia.
  - unfold is_u64, u64_max. lia.
  - unfold is_u64, u64_max. lia.
  - split_and!; [exact (f_equal (fun l => nth 2 l None) H1)|exact (f_equal (fun l => nth 5 l None) H1)|
      exact (f_equal (fun l => nth 1 l None) H3)].
Defined.

(** ** The orphan sweep *)

(** C23: After any history of sweeps, a cycle plans to delete exactly the lvols
    and the subsystems that were condemned on this cycle and on each of the
    [T - 1] before it, [T] being the strike threshold.  Condemned is: an lvol of
    a volume whose id neither a PV nor an unbound claim has (a user snapshot
    only when the snapshot contents were listed and none names it); a replica
    lvol, not operation-scoped, that the known record of its volume does not
    name; an ephemeral lvol when the ublk disks were listed and neither they
    nor the exports that stay name it; and an export of a volume without owner
    whose every namespace that is still a bdev is on such an lvol. *)
Theorem orphan_sweep_exact T i hist : tidy i -> Forall tidy hist -> 1 <= T <= u32_max ->
  let p := (plan_sweep i (strikes_after T hist) T).1 in
  (forall x, x ∈ delete_lvol_aliases p <->
     forall j, (j < Z.to_nat T)%nat -> exists i', (i :: hist) !! j = Some i' /\
       exists l, l ∈ si_lvols i' /\ l_alias l = x /\ (orphan i' l \/ idle_ephemeral i' l)) /\
  (forall x, x ∈ delete_subsystem_nqns p <->
     forall j, (j < Z.to_nat T)%nat -> exists i', (i :: hist) !! j = Some i' /\
       exists s, s ∈ si_subsystems i' /\ s_nqn s = x /\ dead_export i' s).
Proof.
  intros Hi Hh HT p. destruct (planned_streak T i hist Hi Hh HT) as [Hl Hs]. fold p in Hl, Hs.
  setoid_rewrite <- condemned_alias_iff. setoid_rewrite <- condemned_subsystem_iff. done.
Qed.

(** One lvol of a volume whose PV is gone, one of a volume that has it. *)
Definition two_lvols : SweepInput :=
  Sweep [Lvol "lvs" "vol_pvc-gone" "u1"; Lvol "lvs" "vol_pvc-here" "u2"] [] (Some []) {["u1"; "u2"]} {["pvc-here"]} ∅ ∅ None.

Lemma orphan_sweep_exact_witness :
  "lvs/vol_pvc-gone" ∈ delete_lvol_aliases (plan_sweep two_lvols (strikes_after 2 [two_lvols]) 2).1 /\
  "lvs/vol_pvc-gone" ∉ delete_lvol_aliases (plan_sweep two_lvols (strikes_after 2 []) 2).1 /\
  "lvs/vol_pvc-here" ∉ delete_lvol_aliases (plan_sweep two_lvols (strikes_after 2 [two_lvols]) 2).1.
Proof.
  assert (tidy two_lvols) as Ht by (split; apply (bool_decide_unpack _); vm_compute; exact I).
  assert (condemned_aliases two_lvols = ["lvs/vol_pvc-gone"]) as Hc by (vm_compute; reflexivity).
  split_and!; (destruct (orphan_sweep_exact 2 two_lvols [two_lvols]) as [H _]; [done|by constructor|unfold u32_max; lia|]).
  - apply H. intros [|[|j]] Hj; [| |simpl in Hj; lia]; exists two_lvols; (split; [reflexivity|]);
      apply condemned_alias_iff; rewrite Hc; by left.
  - destruct (orphan_sweep_exact 2 two_lvols []) as [H' _]; [done|by constructor|unfold u32_max; lia|].
    rewrite H'. intros Hx. destruct (Hx 1%nat) as (i' & [=] & _). simpl. lia.
  - rewrite H. intros Hx. destruct (Hx 0%nat) as (i' & [= <-] & Hin%condemned_alias_iff); [simpl; lia|]. rewrite Hc in Hin.
    by apply list_elem_of_singleton in Hin.
Defined.

(** C15: Executing a sweep plan (without operation-scoped names) takes nothing
    out from under a consumer, whatever was observed when it was planned: on a
    target whose deletions touch no more than their object, every raid is
    still there afterwards, so is every export with a live controller of this
    node or of an admitted host, and so is every bdev a raid or such an export
    stands on; the lvols left for the next sweep are among the planned ones. *)
Theorem sweep_execution_safe {S} (rpc : Value -> S -> result string Value * S) view ok node plan s :
  Deletes rpc view ok -> ok s ->
  Forall (fun a => is_operation_scoped a = false) (delete_subsystem_nqns plan) ->
  Forall (fun a => is_operation_scoped a = false) (delete_lvol_aliases plan) ->
  let '(rest, s') := execute_sweep rpc node plan s in
  t_raids (view s) ⊆ t_raids (view s') /\
  (forall x, x ∈ t_subs (view s) -> rightful node x -> x ∈ t_subs (view s')) /\
  (forall b, b ∈ t_bdevs (view s) ->
    (exists r, r ∈ t_raids (view s) /\ raid_uses (identities b) r) \/
    (exists x, x ∈ t_subs (view s) /\ rightful node x /\ Exists (ns_in (identities b)) (sub_ns x)) ->
    b ∈ t_bdevs (view s')) /\
  sublist rest (delete_lvol_aliases plan).
Proof.
  intros HD Hok Hs Hl. pose proof (execute_spares rpc view ok node plan s Hok Hs Hl) as H.
  destruct (execute_sweep rpc node plan s) as [rest s']. destruct H as (_ & [] & ?). done.
Qed.

(** A raid leg and a loose lvol, both planned. *)
Definition leg_bdev : Bdev := MkBdev "lvs/vol_a" "u-a" [] 1024 512.
Definition loose_bdev : Bdev := MkBdev "lvs/vol_b" "u-b" [] 1024 512.
Definition small_target : Target :=
  MkTarget [leg_bdev; loose_bdev] [MkRaid "raid_v" [MkBase (Some "lvs/vol_a") "u-a"]]
    [MkSub "nqn.2024-11.com.flint:volume:a" false ["h"] [MkNs "lvs/vol_b" "u-b"] []] [].
Definition both_planned : SweepPlan := Plan ["nqn.2024-11.com.flint:volume:a"] ["lvs/vol_a"; "lvs/vol_b"] 0.

Lemma sweep_execution_safe_witness :
  leg_bdev ∈ t_bdevs (execute_sweep spdk_rpc "n1" both_planned small_target).2 /\
  t_bdevs (execute_sweep spdk_rpc "n1" both_planned small_target).2 = [leg_bdev].
Proof.
  split; [|vm_compute; reflexivity].
  pose proof (sweep_execution_safe spdk_rpc id target_ok "n1" both_planned small_target) as H.
  destruct (execute_sweep spdk_rpc "n1" both_planned small_target) as [rest s'] eqn:He.
  destruct H as (_ & _ & Hb & _).
  - apply _.
  - split; apply (bool_decide_unpack _); vm_compute; exact I.
  - repeat constructor.
  - repeat constructor.
  - apply (Hb leg_bdev); [by left|]. left. eexists. split; [by left|]. left. left. right. by left.
Defined.

(** ** The guarded RPC endpoint *)

(** C7: On a target whose queries answer truthfully, the node agent's RPC
    endpoint lets a destructive request through exactly when one of these
    holds, and otherwise answers 409 and leaves the target as it was.  The
    request names no object (the field is missing or of another type); or it
    deletes an lvol or a subsystem or detaches a controller under an
    operation-scoped name (of a hot rejoin), which passes in any use; or the
    lvol is no raid's base and no export of it has a live controller, under
    any of its names (an lvol is not looked for among the ublk disks, see
    [ublk_lvol_deletable]); or the raid is named by no ublk disk and no such
    export; or neither this node nor an admitted host is connected to the
    subsystem and the VolumeAttachment does not put its consumer elsewhere; or
    no raid base is a namespace of the controller; or nothing has the ublk
    disk open. *)
Theorem destruction_guarded {S} (rpc : Value -> S -> result string Value * S) env request s T :
  Answers (probe_at rpc s) T -> NoDup (sub_nqn <$> t_subs T) -> mem (method_of request) GUARDED_METHODS = true ->
  (destruction_ok env T request -> handle_spdk_rpc rpc env request s = forwarded rpc request s) /\
  (~ destruction_ok env T request -> exists reason, handle_spdk_rpc rpc env request s = (Conflict reason, s)).
Proof.
  intros HA Hnd Hm. rewrite handle_split, <- (destroy_verdict_exact rpc env request s T HA Hnd Hm).
  unfold construct_verdict. rewrite (methods_apart _ Hm). cbn [negb].
  destruct (destroy_verdict rpc env request s ≫= blocked) as [r|]; split; first [done|by eauto].
Qed.

(** The requests that delete the two lvols of [small_target]. *)
Definition delete_leg : Value := lvol_delete_request "u-a".
Definition delete_loose : Value := lvol_delete_request "u-b".
Definition plain_env : AgentEnv := MkEnv "n1" None None (fun _ => OFree) (fun _ => Ok None).

Lemma destruction_guarded_witness :
  handle_spdk_rpc spdk_rpc plain_env delete_loose small_target = forwarded spdk_rpc delete_loose small_target /\
  exists reason, handle_spdk_rpc spdk_rpc plain_env delete_leg small_target = (Conflict reason, small_target).
Proof.
  assert (distinct_nqns small_target) as Hn by (apply (bool_decide_unpack _); vm_compute; exact I).
  pose proof (spdk_rpc_probe small_target Hn) as HA. split.
  - apply (destruction_guarded spdk_rpc plain_env delete_loose small_target small_target HA Hn eq_refl).
    apply (destroy_verdict_exact spdk_rpc plain_env delete_loose small_target small_target HA Hn eq_refl).
    vm_compute. reflexivity.
  - apply (destruction_guarded spdk_rpc plain_env delete_leg small_target small_target HA Hn eq_refl).
    rewrite <- (destroy_verdict_exact spdk_rpc plain_env delete_leg small_target small_target HA Hn eq_refl).
    vm_compute. discriminate.
Defined.

(** C24: The endpoint lets a construction through exactly when no ublk disk is
    live on the device it would put a second writer over, and the sizes agree:
    the bases a create finds are of one size, a base added to a raid is not
    smaller than it (unless the size belt is off); with the construction guard
    switched off everything passes.  Otherwise the answer is 409 and the
    target is as it was.  A request of any other method is forwarded. *)
Theorem construction_guarded {S} (rpc : Value -> S -> result string Value * S) env request s T :
  Answers (probe_at rpc s) T ->
  (mem (method_of request) CONSTRUCTION_GUARDED_METHODS = true ->
   (construction_ok env T request -> handle_spdk_rpc rpc env request s = forwarded rpc request s) /\
   (~ construction_ok env T request -> exists reason, handle_spdk_rpc rpc env request s = (Conflict reason, s))) /\
  (mem (method_of request) GUARDED_METHODS = false -> mem (method_of request) CONSTRUCTION_GUARDED_METHODS = false ->
   handle_spdk_rpc rpc env request s = forwarded rpc request s).
Proof.
  intros HA. rewrite handle_split. split.
  - intros Hm. assert (mem (method_of request) GUARDED_METHODS = false) as Hg.
    { destruct (mem (method_of request) GUARDED_METHODS) eqn:He; [|done]. apply methods_apart in He. congruence. }
    rewrite <- (construct_verdict_exact rpc env request s T HA Hm). unfold destroy_verdict. rewrite Hg. cbn [negb].
    change (@None Verdict ≫= blocked) with (@None string). cbn iota.
    destruct (construct_verdict rpc env request s ≫= blocked) as [r|]; split; first [done|by eauto].
  - intros Hg Hc. unfold destroy_verdict, construct_verdict. rewrite Hg, Hc. done.
Qed.

(** A mirror of two legs, one shorter. *)
Definition uneven_target : Target :=
  MkTarget [leg_bdev; MkBdev "lvs/vol_s" "u-s" [] 512 512; loose_bdev] [] [] [].
Definition create_over (bases : list string) : Value :=
  rpc_call RPC_BDEV_RAID_CREATE [("name", Str "raid_v"); ("base_bdevs", Arr (Str <$> bases))].

Lemma construction_guarded_witness :
  handle_spdk_rpc spdk_rpc plain_env (create_over ["u-a"; "u-b"]) uneven_target =
    forwarded spdk_rpc (create_over ["u-a"; "u-b"]) uneven_target /\
  exists reason, handle_spdk_rpc spdk_rpc plain_env (create_over ["u-a"; "u-s"]) uneven_target = (Conflict reason, uneven_target).
Proof.
  assert (distinct_nqns uneven_target) as Hn by (apply (bool_decide_unpack _); vm_compute; exact I).
  pose proof (spdk_rpc_probe uneven_target Hn) as HA. split.
  - refine (proj1 (proj1 (construction_guarded spdk_rpc plain_env (create_over ["u-a"; "u-b"]) uneven_target uneven_target HA) eq_refl) _).
    apply (construct_verdict_exact spdk_rpc plain_env (create_over ["u-a"; "u-b"]) uneven_target uneven_target HA eq_refl).
    vm_compute. reflexivity.
  - refine (proj2 (proj1 (construction_guarded spdk_rpc plain_env (create_over ["u-a"; "u-s"]) uneven_target uneven_target HA) eq_refl) _).
    rewrite <- (construct_verdict_exact spdk_rpc plain_env (create_over ["u-a"; "u-s"]) uneven_target uneven_target HA eq_refl).
    vm_compute. discriminate.
Defined.

(** ** When the target does not answer *)
Lemma str_contains_spec p s : str_contains p s = true <-> exists a b, s = a ++ p ++ b.
Proof.
  induction s as [|c s IH]; cbn [str_contains]; rewrite orb_true_iff, prefix_strip, bool_decide_eq_true.
  - split.
    + intros [[r Hr%strip_prefix_Some]|?]; [|done]. by exists "", r.
    + intros (a & b & He). left. destruct a; [|done]. change ("" ++ ?x) with x in He. rewrite He, strip_prefix_append. eauto.
  - rewrite IH. split.
    + intros [[r Hr%strip_prefix_Some]|(a & b & ->)]; [by exists "", r|]. by exists (String c a), b.
    + intros ([|d a] & b & He).
      * left. change ("" ++ ?x) with x in He. rewrite He, strip_prefix_append. eauto.
      * right. rewrite str_append_cons in He. injection He as -> ->. eauto.
Qed.

Section Failures.
Context (probe : Value -> result string Value).

Definition bdev_query (n : string) : Value := rpc_call "bdev_get_bdevs" [("name", Str n)].
Definition raids_query : Value := rpc_call "bdev_raid_get_bdevs" [("category", Str "all")].
Definition subs_query : Value := rpc_call0 "nvmf_get_subsystems".
Definition disks_query : Value := rpc_call0 "ublk_get_disks".

(** The query failed, and not with a text that reads as "missing". *)
Definition failed (q : Value) : Prop := exists e, probe q = Err e /\ probe_error_is_missing e = false.
(** The bdev is there: the answer has a row. *)
Definition found (n : string) : Prop := exists resp, probe (bdev_query n) = Ok resp /\ result_array resp <> [].

Lemma identity_failed n : failed (bdev_query n) ->
  exists e, bdev_identity_forms probe n = Err e /\ bdev_identity_and_bytes probe n = Err e.
Proof.
  intros (e & He & Hm). exists e. unfold bdev_identity_forms, bdev_identity_and_bytes. fold (bdev_query n).
  by rewrite He, Hm.
Qed.
Lemma identity_found n : found n ->
  exists forms b, bdev_identity_forms probe n = Ok (Some forms) /\ bdev_identity_and_bytes probe n = Ok (Some (forms, b)).
Proof.
  intros (resp & He & Hr). unfold bdev_identity_forms, bdev_identity_and_bytes. fold (bdev_query n). rewrite He.
  destruct (result_array resp) as [|b l]; [done|]. eauto.
Qed.

Lemma ublk_failed forms : failed disks_query -> exists e, ublk_consumer_of probe forms = Err e /\ str_contains "Method not found" e = false.
Proof.
  intros (e & He & Hm). exists e. unfold ublk_consumer_of. fold disks_query. rewrite He. split; [done|].
  destruct (str_contains "Method not found" e) eqn:Hc; [|done]. exfalso.
  unfold probe_error_is_missing in Hm. rewrite !orb_false_iff in Hm. destruct Hm as [[_ Hn] _].
  apply str_contains_spec in Hc as (a & b & ->). apply not_true_iff_false in Hn. apply Hn, str_contains_spec.
  exists (a ++ "Method "), b. by rewrite !append_assoc.
Qed.

Lemma scan_failed bases n : n ∈ bases ->
  failed (bdev_query n) \/ (found n /\ failed disks_query) -> exists v, scan_bases probe bases = inl v /\ blocked v <> None.
Proof.
  intros Hin Hf. induction bases as [|x bases IH]; [by apply elem_of_nil in Hin|]. cbn [scan_bases].
  destruct (bdev_identity_and_bytes probe x) as [[[forms bytes]|]|e] eqn:Hx; [| |by eexists].
  - destruct (ublk_block probe _ _ x forms) as [v|] eqn:Hu.
    { exists v. split; [done|]. unfold ublk_block in Hu. repeat case_match; by simplify_eq. }
    apply elem_of_cons in Hin as [->|Hin].
    + exfalso. destruct Hf as [(e & _ & ?)%identity_failed|[_ (e & He & Hm)%(ublk_failed forms)]]; [congruence|].
      unfold ublk_block in Hu. by rewrite He, Hm in Hu.
    + destruct (IH Hin) as (v & -> & Hv). eauto.
  - apply elem_of_cons in Hin as [->|Hin]; [|by apply IH].
    destruct Hf as [(e & _ & ?)%identity_failed|[(forms & b & _ & ?)%identity_found _]]; congruence.
Qed.
End Failures.

(** C38: The guards fail closed, for a name that is not operation-scoped (those
    are not guarded) and, for constructions, while the construction guard is
    on.  A destructive request whose query failed with
    a text that does not read as "missing" is not let through: an lvol delete
    when its bdev, or (the bdev found) the raids or the subsystems could not be
    read, whatever the text; a subsystem delete when the subsystems could not;
    a raid delete or a controller detach when the raids could not.  So is a
    construction: a create, when for some base the bdev, or (the base found)
    the ublk disks could not be read; an add of a base or a namespace
    likewise. *)
Theorem guard_fails_closed probe p n ctx : is_operation_scoped n = false ->
  let refused m := boundary_verdict probe m p ctx ≫= blocked <> None in
  let not_built m := forall size_on, construction_boundary_verdict_gated probe m p true size_on ≫= blocked <> None in
  (get_str "name" p = Some n -> failed probe (bdev_query n) -> refused RPC_BDEV_LVOL_DELETE) /\
  (get_str "name" p = Some n -> found probe n -> (exists e, probe raids_query = Err e \/ probe subs_query = Err e) ->
     refused RPC_BDEV_LVOL_DELETE) /\
  (get_str "nqn" p = Some n -> failed probe subs_query -> refused RPC_NVMF_DELETE_SUBSYSTEM) /\
  (get_str "name" p = Some n -> failed probe raids_query ->
     refused RPC_BDEV_RAID_DELETE /\ refused RPC_BDEV_NVME_DETACH_CONTROLLER) /\
  (failed probe (bdev_query n) \/ (found probe n /\ failed probe disks_query) ->
     (forall arr, get_array "base_bdevs" p = Some arr -> n ∈ omap as_str arr -> not_built RPC_BDEV_RAID_CREATE) /\
     (forall raid, get_str "base_bdev" p = Some n -> get_str "raid_bdev" p = Some raid -> not_built RPC_BDEV_RAID_ADD_BASE_BDEV) /\
     (get "namespace" p ≫= get_str "bdev_name" = Some n -> not_built RPC_NVMF_SUBSYSTEM_ADD_NS)).
Proof.
  intros Hsc. cbv zeta. split_and!.
  - intros Hp (e & He & _)%identity_failed. unfold boundary_verdict. cbn. rewrite Hp. cbn. by rewrite Hsc, He.
  - intros Hp (forms & b & Hf & _)%identity_found Hq. unfold boundary_verdict. cbn. rewrite Hp. cbn. rewrite Hsc, Hf.
    unfold raids_consuming, exports_with_live_controllers. fold raids_query subs_query.
    destruct Hq as (e & [He|He]); rewrite He; cbn [mbind result_bind]; [done|].
    by destruct (probe raids_query); cbn [mbind result_bind].
  - intros Hp (e & He & Hm). unfold boundary_verdict. cbn. rewrite Hp. cbn. rewrite Hsc.
    unfold subsystem_consumers. fold subs_query. rewrite He. cbn [mbind result_bind]. by rewrite Hm.
  - intros Hp (e & He & Hm). unfold boundary_verdict, raids_answer. cbn. rewrite Hp. cbn. fold raids_query.
    by rewrite Hsc, He, Hm.
  - intros Hf. split_and!.
    + intros arr Ha Hin size_on. destruct (scan_failed probe _ n Hin Hf) as (v & Hs & Hv).
      unfold construction_boundary_verdict_gated. cbn. rewrite Ha. cbn. by rewrite Hs.
    + intros raid Hb Hr size_on. unfold construction_boundary_verdict_gated. cbn. rewrite Hb. cbn. rewrite Hr. cbn.
      destruct Hf as [(e & _ & He)%identity_failed|[(forms & b & _ & Hf)%identity_found Hd]]; [by rewrite He|].
      rewrite Hf. destruct (ublk_failed probe forms Hd) as (e & He & Hm). unfold ublk_block. by rewrite He, Hm.
    + intros Hb size_on. unfold construction_boundary_verdict_gated. cbn. rewrite Hb. cbn.
      destruct Hf as [(e & _ & He)%identity_failed|[(forms & b & _ & Hf)%identity_found Hd]]; [by rewrite He|].
      rewrite Hf. destruct (ublk_failed probe forms Hd) as (e & He & Hm). unfold ublk_block. by rewrite He, Hm.
Qed.

Lemma guard_fails_closed_witness :
  boundary_verdict (fun _ => Err "connection reset") RPC_BDEV_LVOL_DELETE (Obj [("name", Str "u-a")]) (sweep_ctx "n1")
    ≫= blocked <> None.
Proof.
  refine (proj1 (guard_fails_closed (fun _ => Err "connection reset") (Obj [("name", Str "u-a")]) "u-a" (sweep_ctx "n1") _) eq_refl _);
    [vm_compute; reflexivity|].
  exists "connection reset". split; [reflexivity|vm_compute; reflexivity].
Defined.

(** ** Where the guards let through *)

(** The agent's own transport error when SPDK's socket is gone reads as a
    missing object: every destructive request passes its guard. *)
Theorem dead_socket_reads_missing :
  let gone := fun _ : Value => Err "SPDK socket file does not exist: /var/tmp/spdk.sock" in
  let p := Obj [("name", Str "lvs/vol_a"); ("nqn", Str "nqn.2024-11.com.flint:volume:a")] in
  (fun m => boundary_verdict gone m p (sweep_ctx "n1")) <$>
    [RPC_BDEV_LVOL_DELETE; RPC_NVMF_DELETE_SUBSYSTEM; RPC_BDEV_RAID_DELETE; RPC_BDEV_NVME_DETACH_CONTROLLER] =
  [Some AllowIdempotentNoop; Some AllowIdempotentNoop; Some AllowIdempotentNoop; Some Allow].
Proof. vm_compute. reflexivity. Qed.

(** "Code=-2" is also the beginning of SPDK's EINVAL and ENOSPC. *)
Theorem other_codes_read_missing :
  probe_error_is_missing "SPDK RPC error: Code=-22 Msg=Invalid argument" = true /\
  probe_error_is_missing "SPDK RPC error: Code=-28 Msg=No space left on device" = true /\
  probe_error_is_missing "SPDK RPC error: Code=-32601 Msg=Method not found" = true.
Proof. by vm_compute. Qed.

(** A ublk disk on an lvol does not keep the lvol. *)
Theorem ublk_lvol_deletable :
  boundary_verdict (spdk_answers (MkTarget [leg_bdev] [] [] [MkDisk 7 "lvs/vol_a"]))
    RPC_BDEV_LVOL_DELETE (Obj [("name", Str "lvs/vol_a")]) (sweep_ctx "n1") = Some Allow.
Proof. vm_compute. reflexivity. Qed.

(** A volume may be named so that its exports and lvols are operation-scoped. *)
Theorem scoped_storage_id : storage_id_refusal "my-hotrejoin-db" = None /\
  is_operation_scoped (lvol_name "my-hotrejoin-db") = true /\ is_operation_scoped (volume_nqn "my-hotrejoin-db") = true /\
  boundary_verdict (spdk_answers small_target) RPC_BDEV_LVOL_DELETE (Obj [("name", Str (lvol_name "my-hotrejoin-db"))])
    (sweep_ctx "n1") = None.
Proof. by vm_compute. Qed.

(** The head of a hot rejoin is reaped under a live raid. *)
Definition head_target : Target :=
  MkTarget [MkBdev "lvs/vol_a_replica_0_hr" "u-h" [] 1024 512] [MkRaid "raid_a" [MkBase (Some "lvs/vol_a_replica_0_hr") "u-h"]] [] [].
Theorem sweep_severs_head :
  t_bdevs (execute_sweep spdk_rpc "n1" (Plan [] ["lvs/vol_a_replica_0_hr"] 0) head_target).2 = [].
Proof. vm_compute. reflexivity. Qed.

(** Collecting an over-age reservation with the entry skips its backoff: the
    reservation ended at a drop, so the next refusal posts a new one. *)
Definition refreshing : list Call := (fun k => Ask (secs (60 * k)) "v" OP_CUTOVER) <$> seqZ 1 16.
Definition skipping : list Call :=
  (Ask 0 "v" OP_CATCHUP :: refreshing ++ [Drop (secs 965) "v" 1; Ask (secs 966) "v" OP_CATCHUP; Ask (secs 970) "v" OP_CUTOVER])%list.
Definition shown (w : World) : option (Z * Z) := (fun r => (rs_placed r, rs_refreshed r)) <$> reservation_of "v" (w_claims w).
Theorem drop_skips_backoff :
  shown (ran (World_init stock_config 0) skipping).2 = Some (secs 970, secs 970).
Proof. vm_compute. reflexivity. Qed.

(** ** The leg-size belt feeds the guard *)

(** The legs the belt keeps, if their sizes are known, pass the size check of
    a raid create, and none is below the volume's recorded capacity. *)
Theorem belt_passes_guard legs floor sized : fail_stage (partition_legs legs floor) = None ->
  (forall n b, (n, b) ∈ sized -> exists j, j ∈ keep (partition_legs legs floor) /\ legs !! j = Some (n, Some b)) ->
  raid_create_size_verdict sized = Allow /\ forall n b f, (n, b) ∈ sized -> floor = Some f -> f <= b.
Proof.
  intros Hf Hs.
  assert (forall n b, (n, b) ∈ sized -> max_bytes legs = Some b /\ forall f, floor = Some f -> f <= b) as Hk.
  { intros n b (j & Hj & Hl)%Hs. by eapply kept_cohort. }
  split; [|intros n b f Hin; by apply (Hk n b)]. unfold raid_create_size_verdict.
  assert (one_size sized = true) as ->; [|done]. apply one_size_spec. intros [n b] [m c] Hb Hc.
  apply Hk in Hb as [Hb _]. apply Hk in Hc as [Hc _]. cbn. congruence.
Qed.
